(* ===== verification/_CoqProject ===== *)
-Q . S2P
Prelude.v
Trace.v
GoLib.v
GoTime.v
Kube.v
Cluster.v
FakeCluster.v
Rollout.v
RolloutSafety.v
NodeTuningController.v
Demo.v
NodeTuningSafety.v
Agent.v
AgentTick.v
AgentSafety.v
StorageTypes.v
StorageHealth.v
StorageHealthSafety.v
StorageJoin.v
Sha256.v
LoginGate.v
LoginGateSafety.v
GoJson.v
Alerting.v
AlertingSafety.v
StorageAlerts.v
StorageAlertsSafety.v
GoNet.v
Provision.v
Install.v
InstallSafety.v
InstallRuns.v
BeaconStore.v
InstallController.v
InstallControllerLaws.v
InstallControllerSafety.v
V1beta1.v
V1alpha1.v
SchedulingPolicy.v
SchedulingPolicySafety.v
Conversion.v
GoDecode.v
ConversionSafety.v
GoText.v
Authd.v
AuthdSafety.v
UserWebhook.v
AuthdAccounts.v
DiskClaim.v
DiskClaimSafety.v
Relay.v
RelaySafety.v
SubscriptionStatus.v
UiProxy.v
UiProxySafety.v
MachineController.v
MachineSafety.v
Services.v
ServicesSafety.v
Unstructured.v
Postgres.v
PostgresSafety.v
FrameJobs.v
FrameJobsSafety.v
FrameNodes.v
FrameNodesSafety.v
FrameStorages.v
FrameStoragesSafety.v
Quotas.v
Cache.v
CacheSafety.v
Inference.v
InferenceSafety.v
Autoinstall.v
Provisiond.v
Redfish.v
RedfishSafety.v
NodeDisks.v
NodeStacks.v
NodeLinks.v
