(* ===== verification/Prelude.v ===== *)
(** * A verification development of Frame

    Frame runs a small cluster from bare metal up: it installs machines over
    their BMCs, tunes their kernels, watches their disks and links, runs jobs and
    services on them, signs people in and relays what goes wrong. This library
    models the Go code that decides these things and proves what each part
    promises. File and function names below are those of the repository under
    src/.

    ** The parts, and how they meet

    - The NodeTuning controller (internal/controller/frame/nodetuning_*.go) rolls
      a kernel tuning out one node at a time: cordon, drain, ask for a restart,
      wait for evidence, uncordon. The node agent (internal/agent, cmd/agent)
      applies the tuning on its node, serves the restart requests and reports
      what it measured. They share the Node's annotations and the NodeTuning's
      status, and neither writes the other's share.
    - The agent's collectors (disks.go, smart.go, localstorage*.go, network.go,
      traffic.go) read the node's disks, storage stacks and links, and the tick
      writes what they found into the status of the node's FrameMachine.
    - The FrameMachine controller (framemachine_controller.go) reads the machine's
      BMC through the Redfish client (internal/redfish) into the same status, and
      runs the power requests of its spec.
    - The health checks (internal/storage) judge what the two reported;
      framemachine_storagehealth.go turns the judgment into alerts and
      conditions; internal/alerting's receiver stores those and Alertmanager's,
      its relay sends them to the subscriptions, whose status says what is owed.
    - The FrameDiskClaim controller destroys what is on a disk the agent reported
      free, for the one claim that names it.
    - The FrameInstall controller (frameinstall_controller.go) turns an object
      into one run of internal/provision's Install, in a goroutine: confirm the
      serial, build an image, attach it, wait for the machine to prove it is
      ours, join a cluster, clean up. The image is provisiond's (server.go,
      iso.go, base.go), with the document of autoinstall.go in it; the machine is
      driven through redfishbmc.go; the installer reports itself through beacons
      (beacon.go, beaconstore.go), which only ever feed a condition.
    - The authentication daemon (internal/authd) signs people in by their keys and
      issues identity tokens; the UI proxy (internal/uiproxy) turns a token into
      an impersonated request and records what was done; the webhook of FrameUser
      guards the accounts they rest on.
    - The service catalog (internal/controller/services) runs FrameServices by the
      providers postgres, cache and inference, and projects their credentials.
    - The controllers of FrameJob, FrameNode, FrameStorage, FrameResourceQuota and
      SchedulingPolicy, with the webhooks of these kinds.
    - The Ceph dashboard client (internal/cephmgr) logs in behind a gate kept in
      a Secret, because one wrong password too many locks the account.
    - Five kinds are served in two versions; api/frame/v1alpha1/conversion.go
      converts between them, and carries what the old version has no field for
      in an annotation.

    ** The files

    - [Prelude]: machine integers, bytes and strings, the state monad [St] and
      its rules [wp], the automation and the sort the components share.
      [Trace]: rules for what an operation adds to a history of calls.
    - [GoLib], [GoText], [GoTime], [GoNet], [Sha256], [GoJson], [GoDecode],
      [Unstructured]: the parts of Go's library and of apimachinery the code
      computes with (strconv, strings, utf8, fmt's %q, base64, time's layouts and
      durations, net's addresses, crypto/sha256, encoding/json's text and its
      decoding into structs, float64, regexp, unstructured objects).
    - [Kube], [Cluster]: the API objects of the tuning half and the interface to
      the API server, with [ClusterLaws] and [StatusLaws]; [FakeCluster] is an
      in-memory server that satisfies them, for the witnesses, and [Demo] a
      cluster to run on it.
    - [Rollout], [NodeTuningController]: nodetuning_rollout.go and
      nodetuning_controller.go, function by function. [RolloutSafety] and
      [NodeTuningSafety]: their theorems.
    - [Agent], [AgentTick]: apply.go, observe.go, systemd.go, status.go and steps
      1 to 5 of the tick of cmd/agent/main.go over the node's files and commands.
      [AgentSafety]: its theorems and those about the two halves together.
    - [NodeDisks] (disks.go, diskstatus.go, storagerunner.go, smart.go),
      [NodeStacks] (localstorage.go, localstorage_parse.go), [NodeLinks]
      (network.go, traffic.go, and the whole tick): the collectors with their
      theorems, and a node to run them on.
    - [StorageTypes], [StorageHealth], [StorageJoin]: the readings of
      api/frame/v1beta1, health.go, network_health.go and join.go.
      [StorageHealthSafety] their theorems ([StorageJoin] holds its own).
    - [Alerting], [StorageAlerts]: payload.go, filter.go, receiver.go, and
      framemachine_storagehealth.go. [AlertingSafety], [StorageAlertsSafety].
      [Relay], [RelaySafety]: relay_controller.go and sender.go.
      [SubscriptionStatus]: subscription_status_controller.go with its theorems.
    - [MachineController], [MachineSafety]: framemachine_controller.go and
      framemachine_sessions.go. [Redfish], [RedfishSafety]: internal/redfish and
      redfishbmc.go. [DiskClaim], [DiskClaimSafety]:
      framediskclaim_controller.go.
    - [LoginGate], [LoginGateSafety]: refusal.go and the login of client.go.
    - [Provision]: types.go, layout.go, the validation of autoinstall.go and of
      join.go. [Install]: install.go, Join of join.go, WaitForOurSystem of ssh.go.
      [InstallSafety], [InstallRuns]: their theorems and runs. [Autoinstall],
      [Provisiond]: the rendering of autoinstall.go; base.go, iso.go, server.go;
      each with its theorems. [BeaconStore]: beacon.go and beaconstore.go.
    - [InstallController]: frameinstall_controller.go and its types.
      [InstallControllerLaws]: what it relies on. [InstallControllerSafety]: its
      theorems, witnesses and the runs that show what it does not guarantee.
    - [Authd], [AuthdSafety], [AuthdAccounts]: internal/authd; [UserWebhook]:
      frameuser_webhook.go; [UiProxy], [UiProxySafety]: internal/uiproxy.
    - [Services], [ServicesSafety]: frameservice_controller.go, binding.go, the
      provider contract and the admission. [Postgres], [Cache], [Inference] and
      their [Safety] files: the three providers.
    - [FrameJobs], [FrameNodes], [FrameStorages] and their [Safety] files, and
      [Quotas]: the controllers and webhooks of these kinds.
      [SchedulingPolicy], [SchedulingPolicySafety]: schedulingpolicy_controller.go
      and internal/scheduling.
    - [V1beta1], [V1alpha1]: the types of the five converted kinds, and phase.go.
      [Conversion]: conversion.go, with the JSON of the stash by its struct tags.
      [ConversionSafety]: its theorems and runs.

    An effectful Go function is a function [St W A] over a world [W]; the calls
    it makes on the cluster, a BMC, a shell or the clock are the fields of a type
    class, and what the code relies on are the laws of a second one, which a
    concrete in-memory instance discharges. What a component keeps from call to
    call is a record beside the world, and a goroutine is cut where it takes the
    lock. A Go error is the text it prints, with the kinds the code tells apart
    (not found, conflict). Pointers that may be nil are options; maps are [gmap];
    an int64 counter wraps.

    ** What is proved

    - Rollout: no more nodes mid-rollout than one and the patches that were applied
      although their answer was lost, over any interleaving of passes, agents and
      humans, so never two when none was; each pass moves a node by one transition of an abstract
      machine; cordon, restart request and uncordon each only behind its gate; a
      halt halts the campaign; waiting is bounded; deletion releases the nodes.
    - Agent: the only commands it runs are permitted ones, a request is served
      once, the rollout's annotations are left alone, and it applies an object
      exactly where the controller sees no overlap. Collectors: a disk reported
      free has nothing on it; each storage command is one of the list or the SMART
      read of a whole disk, never two runs of one alive; SMART reads keep their
      distance in every interleaving; a link's history is of one life of its
      driver; whatever the tools print, what is published fits the schema.
    - Install: the machine is written only after its serial was confirmed, every
      exit after the build cleans up, commands run only on a system that proved
      the install's UID, the outcome says how it ended, and with polls for every
      phase's budget it does end. shellQuote is one shell word. No value of a
      spec leaves its word in the document's commands, and the disks it names are
      exactly those of its layout found on the machine; provisiond builds an image
      whole, unattended and from the checked base, or asks for what it wrote to be
      removed, and its open listener reads only images and seeds.
    - FrameInstall controller: once per UID and generation and once per machine at
      a time, over passes, goroutines, other actors and restarts, as long as the
      pass that starts it read the object as it is and the machine it names is not
      edited meanwhile; started only behind the guards, as the pass was answered; the goroutine stays inside what the passes rely on; a
      restart ends Failed; a kubeconfig is saved or said to be lost; deletion
      waits for cleanup.
    - Beacons: the store stays bounded and well formed, an entry is the summary of
      the beacons it accepted, and a failure is never hidden by a heartbeat.
    - Machines: a power action answers a request dated after the last one recorded,
      in whole seconds; a BMC that does not answer leaves the reading as it was; sessions are closed; credentials
      and tokens go to their BMC's host for every reference that starts at the root,
      a reset sends a type the BMC lists, one
      boot instruction is given, in the confirmed mode, and decoding keeps types.
    - Disk claims: each destructive call has its evidence, and no disk is destroyed
      twice while no claim's machine and disk are edited during a pass.
    - Health and alerts: an alert is only let go on a reading that lists its
      device, False is only said on complete readings, a pass resolves only with a
      reason and releases once; a stored alert is bounded, idempotent and what a
      200 promises; Join lists exactly the disagreements. Each delivery, record
      and deletion of the relay is justified, and a subscription's status is what
      is owed.
    - Login gate: an intention is stored before a login is sent, blocked
      credentials are never tried, every outcome is recorded, the stored state
      reads back.
    - Accounts: what a request to authd may do and which cookies it hands out; a
      token serves its purpose only, unless two texts it names have one HMAC; an
      enabled admin survives every admitted write whose review saw the accounts as
      they were, and only an admin changes a privileged field. Proxy: what reaches
      the API server carries the identity its token proves, and a write or a
      websocket shell is recorded before and closed after.
    - Services: each call of a pass, of each provider and of the binding is
      permitted by the answers before it; a context window is accepted exactly
      when the card holds it; a pass over what a pass wrote changes nothing; a
      cache's URL gives its password back.
    - Jobs, nodes, storage, quotas, scheduling policies: each call of a pass is
      permitted by the answers before it (create, delete, write, record,
      finalizer), whatever else happens in the cluster between two calls; what
      the webhooks admit.
    - Conversion: a stored object that has no stash of its own and no empty
      annotations, and whose contents are those of JSON, read at v1alpha1 and
      written back is the object it was, through the text of the stash and with
      the annotation maps the two objects share left alone; the stash is never
      stored; the computed phases are legal. [parse_print]: JSON text reads back.

    Where the code does less than its comments say, a theorem shows a run: the
    files named above hold these runs beside their witnesses.

    ** Assumptions

    - Laws of the API server: [ClusterLaws], [StatusLaws], [AlertLaws],
      [MachineLaws], [GateLaws], [InstallLaws] and the hypothesis [Optimistic] state
      its documented behaviour (merge patches, optimistic updates, finalizers, UIDs
      and generations) and what other actors leave alone. A write that answered an
      error may have reached the server; [ClusterLaws] counts the patches of a node
      that did. [ClusterLaws] takes the nodes a pass reads as the server's, since
      that reader bypasses the cache; [InstallLaws] takes nothing of what a read
      answers, since the manager's client reads from its cache.
    - Where a guarantee needs a read to be current or a field not to be edited, that
      is a condition of the theorem, and a run shows what happens without it:
      [reads_current] and [unedited] of an install ([stale_read_replays],
      [edited_ref_leaks_claim]), [saw] of the review of an account ([two_demotions]),
      [refs_kept] of a disk claim ([edited_claim_destroys_elsewhere]),
      [reads_own_writes] of a power request, in whole seconds ([restarts_twice],
      [restarts_every_pass]).
    - The classes [Traced...] ([TracedAuth], [TracedAgent], [TracedProcs] and the
      like, one per world) say that each call adds itself and its answer to a
      history; they constrain no answer. [Deadlines] says a context is done after
      a number of polls.
    - [WiperLaws]: what a Wiper's marker means. [RangeLaws], [SortLaws]: map
      iteration and sort.Slice give a permutation, sorted. [RangedClients]:
      numbers of a Redfish client fit their types. [CondLaws]: conditions helpers.
      [ControllerLaws]: SetControllerReference. [QuietSources]: reading a file or
      the clock runs no command. [ForeignLaws]: the JSON of the k8s.io types in a
      container's spec reads back, for the values it does not change.
    - Parameters, with no law unless named: label selectors, net/url, yaml.v3
      ([YamlWriter]), x/crypto/ssh, net/http's client with the redirects it follows, go-jose and go-webauthn,
      the tables of package unicode ([Unicode]), apimachinery's condition helpers
      and unstructured converter, controllerutil.CreateOrUpdate, resource.Quantity,
      the text of JSON errors ([DecodeErrors]), and int64 and int32 of a float64
      outside their ranges ([FloatConv], [FloatConv32]), which Go leaves to the
      machine.
    - A controller handles one object at a time (no MaxConcurrentReconciles is
      set), and a NodeTuning pass is atomic with respect to the rollout's
      annotations. net/http's mux and its canonical header names are taken as
      given. Logs and metrics are not modelled; %q takes a rune outside ASCII as
      printable.

    ** Fuel and bounds

    Decoding a string into runes takes its byte length as fuel, and so do a trim,
    strings.Fields, a split into pieces and each repetition of a regular
    expression, which take at least a byte a step; an IPv6 address has nine
    groups. A conflict is retried as often as client-go's DefaultRetry, five
    attempts, and a gate write three times. The relay's back-off doubles eight
    times, a probe's three. The polling loops of Install take the number of polls
    as fuel and answer [None] when it is not enough; [install_returns] shows the
    sum of the phase budgets is. A shell word is read with four steps per byte,
    the longest shellQuote makes. A JSON text is parsed with twice its length,
    and two more for a decoder's stream; [size_print] bounds what a value takes
    by its text, and arrays and objects nest up to encoding/json's 10000.

    ** Not modelled

    The reader of the Ceph dashboard's lists, the v1alpha1 service types, the
    bootstrap command and the other entry points (flags, listeners, watch
    registration), the SSH client and the Prometheus metrics. Generated code,
    manifests and the web interface are left out for good. *)
From stdpp Require Import base tactics strings list gmap sorting pretty.
From Stdlib Require Import ZArith Lia Ascii.

Open Scope Z_scope.

(** * Machine integers

    Go's fixed-width signed integers are [Z] with the wrap-around written out
    at the operations where the source computes on them. *)
Definition wrap (bits : Z) (x : Z) : Z :=
  (x + 2 ^ (bits - 1)) `mod` 2 ^ bits - 2 ^ (bits - 1).

Definition wrap32 : Z -> Z := wrap 32.
Definition wrap64 : Z -> Z := wrap 64.

Definition int32_ok (x : Z) : Prop := - 2 ^ 31 <= x < 2 ^ 31.
Definition int64_ok (x : Z) : Prop := - 2 ^ 63 <= x < 2 ^ 63.

Lemma wrap_small (bits x : Z) :
  0 < bits -> - 2 ^ (bits - 1) <= x < 2 ^ (bits - 1) -> wrap bits x = x.
Proof.
  intros Hb Hx. unfold wrap.
  assert (2 ^ bits = 2 * 2 ^ (bits - 1)) as Hp.
  { rewrite <- Z.pow_succ_r by lia. f_equal. lia. }
  rewrite Z.mod_small by lia. lia.
Qed.

Lemma wrap_range (bits x : Z) :
  0 < bits -> - 2 ^ (bits - 1) <= wrap bits x < 2 ^ (bits - 1).
Proof.
  intros Hb. unfold wrap.
  assert (2 ^ bits = 2 * 2 ^ (bits - 1)) as Hp.
  { rewrite <- Z.pow_succ_r by lia. f_equal. lia. }
  pose proof (Z.mod_pos_bound (x + 2 ^ (bits - 1)) (2 ^ bits)). lia.
Qed.

Lemma wrap32_small (x : Z) : int32_ok x -> wrap32 x = x.
Proof. intros H. apply wrap_small; [lia | exact H]. Qed.

Lemma wrap64_small (x : Z) : int64_ok x -> wrap64 x = x.
Proof. intros H. apply wrap_small; [lia | exact H]. Qed.

Lemma wrap64_range (x : Z) : int64_ok (wrap64 x).
Proof. apply (wrap_range 64). lia. Qed.

(** * Bytes and strings

    A Go string is a sequence of bytes, here the bytes of a [string]. *)
Abbreviation bytes := (list ascii).

Definition byteZ (c : ascii) : Z := Z.of_N (N_of_ascii c).
Definition to_bytes (s : string) : bytes := String.list_ascii_of_string s.
Definition of_bytes (l : bytes) : string := String.string_of_list_ascii l.
Definition byte (n : N) : ascii := ascii_of_N n.
Definition byteN (z : Z) : ascii := byte (Z.to_N z).

Lemma of_to_bytes (s : string) : of_bytes (to_bytes s) = s.
Proof. apply String.string_of_list_ascii_of_string. Qed.
Lemma to_of_bytes (l : bytes) : to_bytes (of_bytes l) = l.
Proof. apply String.list_ascii_of_string_of_list_ascii. Qed.

Lemma to_bytes_app (a b : string) : to_bytes (a +:+ b) = (to_bytes a ++ to_bytes b)%list.
Proof. unfold to_bytes. induction a as [|c a IH]; [done|]. simpl. by rewrite IH. Qed.
Lemma of_bytes_app (a b : bytes) : of_bytes (a ++ b)%list = of_bytes a +:+ of_bytes b.
Proof. unfold of_bytes. induction a as [|c a IH]; [done|]. simpl. by rewrite IH. Qed.

Lemma to_bytes_inj (a b : string) : to_bytes a = to_bytes b -> a = b.
Proof. intros H. rewrite <- (of_to_bytes a), <- (of_to_bytes b). by rewrite H. Qed.

(** * State passing

    An operation that reads or writes the world [W] (the API server, the
    clock, the node's files) is a function [W -> A * W]; stdpp's monad
    notation [x ← m; k] sequences them. *)
Definition St (W A : Type) : Type := W -> A * W.

#[export] Instance St_ret W : MRet (St W) := fun A a w => (a, w).
#[export] Instance St_bind W : MBind (St W) :=
  fun A B k m w => let '(a, w') := m w in k a w'.

(** A result: [inl] is the error the Go function returns, [inr] its value. *)
Abbreviation result E A := (sum E A).

Lemma St_bind_run {W A B} (m : St W A) (k : A -> St W B) (w : W) :
  (x ← m; k x) w = k (m w).1 (m w).2.
Proof. unfold mbind, St_bind. by destruct (m w). Qed.

(** A component's own memory [S] beside the world: the calls on the world, and
    the memory read and changed. *)
Section Beside.
Context {S W : Type}.
Definition beside {A} (m : St W A) : St (S * W) A := fun s => let '(a, w) := m s.2 in (a, (s.1, w)).
Definition memory : St (S * W) S := fun s => (s.1, s).
Definition remember (f : S -> S) : St (S * W) unit := fun s => (tt, (f s.1, s.2)).

Lemma beside_run {A} (m : St W A) s w : beside m (s, w) = ((m w).1, (s, (m w).2)).
Proof. unfold beside. cbn. by destruct (m w). Qed.
End Beside.

(** [wp m w Q]: running [m] in [w] ends in a value and a world that satisfy
    [Q]. Proofs about effectful code go through these rules, one per
    sequencing construct, and one per interface operation where it is
    declared. *)
Definition wp {W A} (m : St W A) (w : W) (Q : A -> W -> Prop) : Prop := Q (m w).1 (m w).2.

Lemma wp_bind {W A B} (m : St W A) (k : A -> St W B) w Q :
  wp m w (fun a w' => wp (k a) w' Q) -> wp (m ≫= k) w Q.
Proof. unfold wp, mbind, St_bind. by destruct (m w). Qed.

Lemma wp_ret {W A} (a : A) (w : W) (Q : A -> W -> Prop) : Q a w -> wp (mret a) w Q.
Proof. done. Qed.

Lemma wp_mono {W A} (m : St W A) w (P Q : A -> W -> Prop) :
  wp m w P -> (forall a w', P a w' -> Q a w') -> wp m w Q.
Proof. unfold wp. eauto. Qed.

Lemma wp_intro {W A} (m : St W A) w (Q : A -> W -> Prop) : Q (m w).1 (m w).2 -> wp m w Q.
Proof. done. Qed.

Lemma wp_run {W A} (m : St W A) w Q a w' : wp m w Q -> m w = (a, w') -> Q a w'.
Proof. unfold wp. intros H E. by rewrite E in H. Qed.

#[global] Opaque wp.

(** * Proof automation *)

(** Turns boolean tests of the code into the propositions they decide. *)
Ltac bool_to_prop :=
  repeat match goal with
  | H : (_ && _)%bool = true |- _ => apply andb_true_iff in H; destruct H
  | H : (_ || _)%bool = false |- _ => apply orb_false_iff in H; destruct H
  | H : negb _ = true |- _ => apply negb_true_iff in H
  | H : negb _ = false |- _ => apply negb_false_iff in H
  | H : (_ <? _) = true |- _ => apply Z.ltb_lt in H
  | H : (_ <? _) = false |- _ => apply Z.ltb_ge in H
  | H : (_ <=? _) = true |- _ => apply Z.leb_le in H
  | H : (_ <=? _) = false |- _ => apply Z.leb_gt in H
  | H : (_ =? _) = true |- _ => apply Z.eqb_eq in H
  | H : (_ =? _) = false |- _ => apply Z.eqb_neq in H
  | H : bool_decide _ = true |- _ => apply bool_decide_eq_true in H
  | H : bool_decide _ = false |- _ => apply bool_decide_eq_false in H
  end.

(** Splits every [match] and [if] the goal or a hypothesis computes on. *)
Ltac break_match :=
  match goal with
  | |- context [match ?x with _ => _ end] =>
      lazymatch x with context [match _ with _ => _ end] => fail | _ => destruct x eqn:? end
  end.
Ltac break_match_in H :=
  match type of H with
  | context [match ?x with _ => _ end] =>
      lazymatch x with context [match _ with _ => _ end] => fail | _ => destruct x eqn:? end
  end.

Create HintDb frame.
#[export] Hint Resolve wrap64_range : frame.

(** * Sorting

    [sort.SliceStable], [sort.Slice] and [sort.Strings] as a stable insertion
    sort over the comparison the source passes; where the source's sort is not
    stable, the keys it sorts on are unique. *)
Section Sort.
Context {A : Type} (leb : A -> A -> bool).

Fixpoint insert_by (x : A) (l : list A) : list A :=
  match l with
  | [] => [x]
  | y :: l' => if leb x y then x :: y :: l' else y :: insert_by x l'
  end.

Fixpoint sort_by (l : list A) : list A :=
  match l with
  | [] => []
  | x :: l' => insert_by x (sort_by l')
  end.

Lemma insert_by_perm (x : A) (l : list A) : insert_by x l ≡ₚ x :: l.
Proof.
  induction l as [|y l IH]; simpl; [done|].
  destruct (leb x y); [done|]. by rewrite IH, Permutation_swap.
Qed.

Lemma sort_by_perm (l : list A) : sort_by l ≡ₚ l.
Proof. induction l as [|x l IH]; simpl; [done|]. by rewrite insert_by_perm, IH. Qed.

Lemma sort_by_length (l : list A) : length (sort_by l) = length l.
Proof. by rewrite sort_by_perm. Qed.

Lemma elem_of_sort_by (x : A) (l : list A) : x ∈ sort_by l <-> x ∈ l.
Proof. by rewrite sort_by_perm. Qed.

Context (leb_total : forall x y, leb x y = true \/ leb y x = true).
Context (leb_trans : forall x y z, leb x y = true -> leb y z = true -> leb x z = true).

Lemma insert_by_sorted (x : A) (l : list A) :
  StronglySorted (fun a b => leb a b = true) l ->
  StronglySorted (fun a b => leb a b = true) (insert_by x l).
Proof using leb_total leb_trans.
  induction 1 as [|y l Hs IH Hall]; simpl; [repeat constructor|].
  destruct (leb x y) eqn:Hxy.
  - constructor; [by constructor|]. constructor; [done|].
    eapply Forall_impl; [exact Hall|]. eauto.
  - constructor; [done|]. rewrite insert_by_perm. constructor; [|done].
    destruct (leb_total x y) as [H|H]; [congruence|done].
Qed.

Lemma sort_by_sorted (l : list A) :
  StronglySorted (fun a b => leb a b = true) (sort_by l).
Proof using leb_total leb_trans.
  induction l; simpl; [constructor | by apply insert_by_sorted].
Qed.
End Sort.
