(* ===== verification/Trace.v ===== *)
(** Calls as a trace: rules for what an operation adds to the history of the
    calls it makes. A component that states its guarantees over its calls
    gives the history of its world and, per call, the entry it adds. *)
From stdpp Require Import base tactics sets list.
From S2P Require Import Prelude.

Section Trace.
Context {W E : Type} (trace : W -> list E).

(** [m] adds to the trace a list that, with its value, satisfies [P]. *)
Definition emits {A} (m : St W A) (P : A -> list E -> Prop) : Prop :=
  forall w, exists t, trace (m w).2 = (trace w ++ t)%list /\ P (m w).1 t.

Lemma emits_ret {A} (a : A) (P : A -> list E -> Prop) : P a [] -> emits (mret a) P.
Proof. intros H w. exists []. by rewrite app_nil_r. Qed.

Lemma emits_bind {A B} (m : St W A) (k : A -> St W B) P (Q : B -> list E -> Prop) :
  emits m P -> (forall a t, P a t -> emits (k a) (fun b t' => Q b (t ++ t')%list)) -> emits (m ≫= k) Q.
Proof.
  intros Hm Hk w. destruct (Hm w) as (t & Ht & HP). destruct (Hk _ _ HP (m w).2) as (t' & Ht' & HQ).
  unfold mbind, St_bind. destruct (m w) as [a w']. cbn [fst snd] in *. exists (t ++ t')%list. by rewrite Ht', Ht, app_assoc.
Qed.

Lemma emits_mono {A} (m : St W A) (P Q : A -> list E -> Prop) :
  emits m P -> (forall a t, P a t -> Q a t) -> emits m Q.
Proof. intros H HPQ w. destruct (H w) as (t & Ht & HP). exists t. auto. Qed.

Lemma emits_op {A} (m : St W A) (ev : A -> list E) :
  (forall w, trace (m w).2 = (trace w ++ ev (m w).1)%list) -> emits m (fun a t => t = ev a).
Proof. intros H w. eauto. Qed.

Lemma emits_quiet {A} (m : St W A) : (forall w, trace (m w).2 = trace w) -> emits m (fun _ t => t = []).
Proof. intros H w. exists []. by rewrite app_nil_r. Qed.

(** Bind after a call whose entry is known, with or without its answer. *)
Lemma emits_call {A B} (m : St W A) (ev : A -> E) (k : A -> St W B) (Q : B -> list E -> Prop) :
  (forall w, trace (m w).2 = (trace w ++ [ev (m w).1])%list) ->
  (forall a, emits (k a) (fun b t' => Q b (ev a :: t'))) -> emits (m ≫= k) Q.
Proof. intros H Hk. eapply emits_bind; [by apply (emits_op _ (fun a => [ev a]))|]. intros a t ->. apply Hk. Qed.

Lemma emits_call0 {A B} (m : St W A) (ev : E) (k : A -> St W B) (Q : B -> list E -> Prop) :
  (forall w, trace (m w).2 = (trace w ++ [ev])%list) ->
  (forall a, emits (k a) (fun b t' => Q b (ev :: t'))) -> emits (m ≫= k) Q.
Proof. intros H Hk. eapply emits_bind; [by apply (emits_op _ (fun _ => [ev]))|]. intros a t ->. apply Hk. Qed.

Lemma emits_skip {A B} (m : St W A) (k : A -> St W B) (Q : B -> list E -> Prop) :
  (forall w, trace (m w).2 = trace w) -> (forall a, emits (k a) Q) -> emits (m ≫= k) Q.
Proof. intros H Hk. eapply emits_bind; [by apply emits_quiet|]. intros a t ->. apply Hk. Qed.

End Trace.


(** An element of an append is in one part or the other. *)
Lemma app_cut {E} (l1 l2 k1 k2 : list E) x : (l1 ++ l2 = k1 ++ x :: k2)%list ->
  (exists l, l1 = (k1 ++ x :: l)%list) \/ (exists l, k1 = (l1 ++ l)%list /\ l2 = (l ++ x :: k2)%list).
Proof.
  intros [(l & -> & H)|(l & -> & ->)]%app_eq_inv; [|eauto]. destruct l as [|y l]; simplify_list_eq; [|eauto]. right. exists []. by rewrite app_nil_r.
Qed.

(** Calls that are each allowed on the evidence of those before: [may] reads the
    calls so far. *)
Section Justified.
Context {E : Type} (may : list E -> E -> Prop).

Fixpoint justified (pre t : list E) : Prop :=
  match t with
  | [] => True
  | c :: t => may pre c /\ justified (pre ++ [c]) t
  end.

Lemma justified_app pre t1 t2 : justified pre (t1 ++ t2) <-> justified pre t1 /\ justified (pre ++ t1) t2.
Proof.
  revert pre. induction t1 as [|c t1 IH]; intros pre; cbn; [rewrite app_nil_r; naive_solver|].
  rewrite IH, <- app_assoc. cbn. naive_solver.
Qed.

Lemma justified_elem pre t c : justified pre t -> c ∈ t -> exists t1, t1 ⊆ t /\ may (pre ++ t1) c.
Proof.
  revert pre. induction t as [|x t IH]; intros pre; [by intros _ ?%not_elem_of_nil|]. intros [Hx Hp] [->|Hc]%elem_of_cons.
  - exists []. rewrite app_nil_r. split; [set_solver|done].
  - destruct (IH _ Hp Hc) as (t1 & Hs & Hm). exists (x :: t1). split; [set_solver|]. by rewrite <- app_assoc in Hm.
Qed.

Lemma justified_always pre t : (forall pre c, c ∈ t -> may pre c) -> justified pre t.
Proof.
  revert pre. induction t as [|c t IH]; intros pre H; cbn; [done|]. split; [apply H; set_solver|]. apply IH. intros. apply H. set_solver.
Qed.

Lemma justified_split pre t1 c t2 : justified pre (t1 ++ c :: t2) -> may (pre ++ t1) c.
Proof. rewrite justified_app. by intros [_ [H _]]. Qed.

Lemma justified_one pre c : may pre c -> justified pre [c].
Proof. by cbn. Qed.
End Justified.

(** After the calls [t], the calls [m] adds are justified. *)
Section Goes.
Context {W E : Type} (trace : W -> list E) (may : list E -> E -> Prop).

Definition goes {A} (t : list E) (m : St W A) : Prop := emits trace m (fun _ t' => justified may t t').

Lemma goes_ret {A} t (a : A) : goes t (mret a).
Proof. by apply emits_ret. Qed.

Lemma goes_call {A B} t (m : St W A) (ev : A -> E) (k : A -> St W B) : (forall w, trace (m w).2 = (trace w ++ [ev (m w).1])%list) ->
  (forall a, may t (ev a)) -> (forall a, goes (t ++ [ev a]) (k a)) -> goes t (m ≫= k).
Proof. intros Hm Hmay Hk. eapply emits_call; [exact Hm|]. intros a. eapply emits_mono; [apply Hk|]. intros b t' H. by split. Qed.

Lemma goes_bind {A B} t (m : St W A) P (k : A -> St W B) : emits trace m P ->
  (forall a t', P a t' -> justified may t t' /\ goes (t ++ t') (k a)) -> goes t (m ≫= k).
Proof.
  intros Hm Hk. eapply emits_bind; [exact Hm|]. intros a t' HP. destruct (Hk a t' HP) as [Hj Hg]. eapply emits_mono; [exact Hg|].
  intros b t'' H. by apply justified_app.
Qed.
End Goes.

(** A component with a memory [S] of its own: from the memory [s], [m] adds a
    list to the trace that with its value and the memory it leaves satisfies
    [Q]. *)
Section Steps.
Context {S W E : Type} (trace : W -> list E).

Definition steps {A} (m : St (S * W) A) (s : S) (Q : A -> S -> list E -> Prop) : Prop :=
  forall w, exists t, trace (m (s, w)).2.2 = (trace w ++ t)%list /\ Q (m (s, w)).1 (m (s, w)).2.1 t.

Lemma steps_ret {A} (a : A) s (Q : A -> S -> list E -> Prop) : Q a s [] -> steps (mret a) s Q.
Proof. intros H w. exists []. by rewrite app_nil_r. Qed.

Lemma steps_bind {A B} (m : St (S * W) A) (k : A -> St (S * W) B) s P (Q : B -> S -> list E -> Prop) :
  steps m s P -> (forall a s' t, P a s' t -> steps (k a) s' (fun b s'' t' => Q b s'' (t ++ t')%list)) -> steps (m ≫= k) s Q.
Proof.
  intros Hm Hk w. destruct (Hm w) as (t & Ht & HP). rewrite St_bind_run. destruct (m (s, w)) as [a [s' w']]. cbn [fst snd] in *.
  destruct (Hk _ _ _ HP w') as (t' & Ht' & HQ). exists (t ++ t')%list. by rewrite Ht', Ht, app_assoc.
Qed.

Lemma steps_mono {A} (m : St (S * W) A) s (P Q : A -> S -> list E -> Prop) : steps m s P -> (forall a s' t, P a s' t -> Q a s' t) -> steps m s Q.
Proof. intros H HPQ w. destruct (H w) as (t & Ht & HP). eauto. Qed.

Lemma steps_beside {A B} (m : St W A) (k : A -> St (S * W) B) s P (Q : B -> S -> list E -> Prop) : emits trace m P ->
  (forall a t, P a t -> steps (k a) s (fun b s' t' => Q b s' (t ++ t')%list)) -> steps (beside m ≫= k) s Q.
Proof.
  intros Hm Hk. eapply (steps_bind _ _ _ (fun a s' t => s' = s /\ P a t)); [|intros a s' t [-> HP]; by apply Hk].
  intros w. rewrite beside_run. cbn. destruct (Hm w) as (t & Ht & HP). eauto.
Qed.

Lemma steps_memory {B} (k : S -> St (S * W) B) s (Q : B -> S -> list E -> Prop) : steps (k s) s Q -> steps (memory ≫= k) s Q.
Proof. intros H w. rewrite St_bind_run. apply H. Qed.

Lemma steps_remember {B} f (k : unit -> St (S * W) B) s (Q : B -> S -> list E -> Prop) : steps (k tt) (f s) Q -> steps (remember f ≫= k) s Q.
Proof. intros H w. rewrite St_bind_run. apply H. Qed.
End Steps.
