(* ===== verification/GoLib.v ===== *)
(** The parts of Go's standard library the modelled code calls: [strings.Join]
    and [strings.TrimSpace], [strconv.Itoa], [strconv.ParseInt] and
    [strconv.Quote] (the [%q] verb), UTF-8 decoding ([utf8.RuneCountInString],
    [[]rune(s)]), [sort.Strings]. Strings are byte strings, as in Go. *)
From stdpp Require Import base tactics strings list gmap sorting pretty.
From Stdlib Require Import ZArith Lia Ascii.
From S2P Require Import Prelude.

Open Scope Z_scope.

(** ** fmt verbs *)

(** The [%d] verb, and [strconv.Itoa]. *)
Definition itoa (z : Z) : string := pretty z.
(** The [%t] verb. *)
Definition btoa (b : bool) : string := if b then "true" else "false".

(** [strings.Join]. *)
Fixpoint join (sep : string) (l : list string) : string :=
  match l with
  | [] => ""
  | [x] => x
  | x :: l' => x +:+ sep +:+ join sep l'
  end.

(** [s1 < s2] and [s1 <= s2] on strings compare bytes. *)
Definition str_leb (a b : string) : bool := String.leb a b.

Lemma str_leb_total (a b : string) : str_leb a b = true \/ str_leb b a = true.
Proof. apply String.leb_total. Qed.

Lemma str_leb_trans (a b c : string) :
  str_leb a b = true -> str_leb b c = true -> str_leb a c = true.
Proof.
  unfold str_leb. intros H1 H2.
  assert (String.le a c) as H
    by (etransitivity; unfold String.le; apply Is_true_true; eassumption).
  by apply Is_true_true.
Qed.

Lemma str_leb_antisym (a b : string) : str_leb a b = true -> str_leb b a = true -> a = b.
Proof. apply String.leb_antisym. Qed.

Definition sort_strings (l : list string) : list string := sort_by str_leb l.

(** ** UTF-8

    [next_rune] decodes the first rune of a byte sequence the way
    [utf8.DecodeRune] does: either a valid encoding of 1 to 4 bytes, kept as
    its bytes, or one invalid byte, which a conversion to [[]rune] and back
    replaces by U+FFFD (bytes EF BF BD). *)
Inductive rune : Type :=
| RuneBytes (b : bytes)   (* a valid encoding, as its bytes *)
| RuneInvalid (c : ascii). (* a byte that starts no valid encoding *)

Definition in_range (lo hi : Z) (c : ascii) : bool :=
  (lo <=? byteZ c) && (byteZ c <=? hi).
Definition is_cont (c : ascii) : bool := in_range 128 191 c.

(** The second byte's range for a three- or four-byte lead byte, or [None]
    when the lead byte starts no such encoding (the table of unicode/utf8). *)
Definition lead3 (c : ascii) : option (Z * Z) :=
  if in_range 224 224 c then Some (160, 191)
  else if in_range 237 237 c then Some (128, 159)
  else if in_range 225 239 c then Some (128, 191) else None.
Definition lead4 (c : ascii) : option (Z * Z) :=
  if in_range 240 240 c then Some (144, 191)
  else if in_range 244 244 c then Some (128, 143)
  else if in_range 241 243 c then Some (128, 191) else None.

Definition next_rune (l : bytes) : option (rune * bytes) :=
  match l with
  | [] => None
  | c0 :: r0 =>
    if byteZ c0 <? 128 then Some (RuneBytes [c0], r0) else
    if in_range 194 223 c0 then
      match r0 with
      | c1 :: r1 => if is_cont c1 then Some (RuneBytes [c0; c1], r1) else Some (RuneInvalid c0, r0)
      | [] => Some (RuneInvalid c0, r0)
      end
    else
    match lead3 c0, lead4 c0 with
    | Some (lo, hi), _ =>
      match r0 with
      | c1 :: c2 :: r2 =>
        if in_range lo hi c1 && is_cont c2 then Some (RuneBytes [c0; c1; c2], r2)
        else Some (RuneInvalid c0, r0)
      | _ => Some (RuneInvalid c0, r0)
      end
    | None, Some (lo, hi) =>
      match r0 with
      | c1 :: c2 :: c3 :: r3 =>
        if in_range lo hi c1 && is_cont c2 && is_cont c3 then Some (RuneBytes [c0; c1; c2; c3], r3)
        else Some (RuneInvalid c0, r0)
      | _ => Some (RuneInvalid c0, r0)
      end
    | None, None => Some (RuneInvalid c0, r0)
    end
  end.

Lemma next_rune_shorter (l : bytes) r l' :
  next_rune l = Some (r, l') -> (length l' < length l)%nat.
Proof.
  destruct l as [|c0 r0]; simpl; [done|]. intros H.
  repeat break_match_in H; simplify_eq/=; lia.
Qed.

(** [[]rune(s)]: as many steps as there are bytes are enough, since every
    rune takes at least one. *)
Fixpoint runes_fuel (n : nat) (l : bytes) : list rune :=
  match n with
  | O => []
  | S n => match next_rune l with
           | None => []
           | Some (r, l') => r :: runes_fuel n l'
           end
  end.
Definition runes (s : string) : list rune :=
  let l := to_bytes s in runes_fuel (length l) l.

(** [string([]rune)]. *)
Definition encode_rune (r : rune) : bytes :=
  match r with
  | RuneBytes b => b
  | RuneInvalid _ => [byte 239; byte 191; byte 189]
  end.
Definition string_of_runes (l : list rune) : string :=
  of_bytes (concat (map encode_rune l)).

(** [utf8.RuneCountInString]. *)
Definition rune_count (s : string) : nat := length (runes s).

(** What a rune reads back as after [string([]rune{r})]. *)
Definition canon (r : rune) : rune := RuneBytes (encode_rune r).

Lemma next_rune_encode (l : bytes) r l' tl :
  next_rune l = Some (r, l') -> next_rune (encode_rune r ++ tl) = Some (canon r, tl).
Proof.
  destruct l as [|c0 r0]; [done|]. intros H.
  unfold next_rune in H.
  repeat break_match_in H; simplify_eq; try reflexivity; simpl;
    repeat match goal with E : ?x = _ |- context [?x] => rewrite E; simpl end; reflexivity.
Qed.

Lemma runes_fuel_encode (rs : list rune) (n : nat) :
  Forall (fun r => exists l l', next_rune l = Some (r, l')) rs ->
  (length rs <= n)%nat ->
  runes_fuel n (concat (map encode_rune rs)) = map canon rs.
Proof.
  revert n. induction rs as [|r rs IH]; intros n HF Hn.
  - by destruct n.
  - apply Forall_cons in HF as [(l & l' & Hr) HF].
    destruct n as [|n]; [simpl in Hn; lia|].
    simpl concat. simpl runes_fuel. rewrite (next_rune_encode _ _ _ _ Hr).
    simpl. f_equal. apply IH; [done | simpl in Hn; lia].
Qed.

Lemma runes_fuel_decoded (n : nat) (l : bytes) :
  Forall (fun r => exists l l', next_rune l = Some (r, l')) (runes_fuel n l).
Proof.
  revert l. induction n as [|n IH]; intros l; simpl; [constructor|].
  destruct (next_rune l) as [[r l']|] eqn:E; [|constructor].
  constructor; eauto.
Qed.

Lemma encode_rune_nonempty (l : bytes) r l' :
  next_rune l = Some (r, l') -> (1 <= length (encode_rune r))%nat.
Proof.
  destruct l as [|c0 r0]; [done|]. intros H. unfold next_rune in H.
  repeat break_match_in H; simplify_eq/=; lia.
Qed.

Lemma length_concat_encode (rs : list rune) :
  Forall (fun r => exists l l', next_rune l = Some (r, l')) rs ->
  (length rs <= length (concat (map encode_rune rs)))%nat.
Proof.
  induction 1 as [|r rs (l & l' & Hr) HF IH]; simpl; [lia|].
  rewrite length_app. pose proof (encode_rune_nonempty _ _ _ Hr). lia.
Qed.

(** A string built back from runes decodes to as many runes. *)
Lemma rune_count_of_runes (rs : list rune) :
  Forall (fun r => exists l l', next_rune l = Some (r, l')) rs ->
  rune_count (string_of_runes rs) = length rs.
Proof.
  intros HF. unfold rune_count, runes, string_of_runes. rewrite to_of_bytes.
  rewrite runes_fuel_encode; [by rewrite length_map | done | by apply length_concat_encode].
Qed.

(** [utf8.ValidString]. *)
Definition valid_rune (r : rune) : bool := match r with RuneBytes _ => true | RuneInvalid _ => false end.
Definition valid_utf8 (l : bytes) : bool := forallb valid_rune (runes_fuel (length l) l).

Lemma decoded_whole n l : (length l <= n)%nat -> forallb valid_rune (runes_fuel n l) = true ->
  concat (map encode_rune (runes_fuel n l)) = l.
Proof.
  revert l. induction n as [|n IH]; intros l Hn Hv.
  { destruct l; [done|simpl in Hn; lia]. }
  cbn [runes_fuel] in *. destruct (next_rune l) as [[r l']|] eqn:E.
  - cbn [forallb] in Hv. apply andb_true_iff in Hv as [Hr Hv]. destruct r as [b|c]; [|done].
    cbn [map concat encode_rune]. assert (l = b ++ l') as ->.
    { destruct l as [|c0 r0]; [done|]. unfold next_rune in E. by repeat break_match_in E; simplify_eq/=. }
    f_equal. apply IH; [|done]. apply next_rune_shorter in E. lia.
  - by destruct l as [|c l]; [|unfold next_rune in E; repeat break_match_in E].
Qed.

(** ** strings *)

(** The encodings [unicode.IsSpace] accepts: the six ASCII spaces, U+0085,
    U+00A0, U+1680, U+2000..U+200A, U+2028, U+2029, U+202F, U+205F, U+3000. *)
Definition space_encodings : list bytes :=
  map (map byte)
    ([[9]; [10]; [11]; [12]; [13]; [32]; [194; 133]; [194; 160]; [225; 154; 128]] ++
     map (fun k => [226; 128; k]) [128; 129; 130; 131; 132; 133; 134; 135; 136; 137; 138; 168; 169; 175] ++
     [[226; 129; 159]; [227; 128; 128]])%N.

Fixpoint strip_prefix (p l : bytes) : option bytes :=
  match p, l with
  | [], _ => Some l
  | a :: p', b :: l' => if Ascii.eqb a b then strip_prefix p' l' else None
  | _ :: _, [] => None
  end.

Lemma strip_prefix_spec p l r : strip_prefix p l = Some r <-> l = (p ++ r)%list.
Proof.
  revert l. induction p as [|a p IH]; intros l; cbn; [naive_solver|]. destruct l as [|b l]; [done|].
  destruct (Ascii.eqb_spec a b) as [->|Hne]; [rewrite IH; naive_solver|naive_solver].
Qed.

(** [strings.HasPrefix] and [strings.CutPrefix]. *)
Definition has_prefix (p s : string) : bool :=
  match strip_prefix (to_bytes p) (to_bytes s) with Some _ => true | None => false end.
Definition cut_prefix (p s : string) : option string := option_map of_bytes (strip_prefix (to_bytes p) (to_bytes s)).
Lemma cut_prefix_some p s t : cut_prefix p s = Some t <-> s = p +:+ t.
Proof.
  unfold cut_prefix. destruct (strip_prefix _ _) as [l|] eqn:E; cbn.
  - apply strip_prefix_spec in E. split; [intros [= <-]; by rewrite <- (of_to_bytes s), E, of_bytes_app, of_to_bytes|].
    intros ->. rewrite to_bytes_app in E. apply (inj (app _)) in E as <-. by rewrite of_to_bytes.
  - split; [done|]. intros ->. rewrite to_bytes_app in E. by rewrite (proj2 (strip_prefix_spec _ _ _) eq_refl) in E.
Qed.
Lemma has_prefix_spec p s : has_prefix p s = true <-> exists t, s = p +:+ t.
Proof.
  transitivity (is_Some (cut_prefix p s)); [unfold has_prefix, cut_prefix; destruct (strip_prefix _ _); cbn; [split; eauto|split; [done|by intros [? ?]]]|].
  split; intros [t H]; exists t; by apply cut_prefix_some.
Qed.

Fixpoint first_some {A B} (f : A -> option B) (l : list A) : option B :=
  match l with
  | [] => None
  | x :: l' => match f x with Some y => Some y | None => first_some f l' end
  end.

(** Drops leading spaces; [encs] are the encodings to drop, so that the same
    function trims the right end of the reversed bytes. *)
Fixpoint trim_fuel (encs : list bytes) (n : nat) (l : bytes) : bytes :=
  match n with
  | O => l
  | S n => match first_some (fun e => strip_prefix e l) encs with
           | Some l' => trim_fuel encs n l'
           | None => l
           end
  end.
Definition trim_left (l : bytes) : bytes := trim_fuel space_encodings (length l) l.
Definition trim_right (l : bytes) : bytes :=
  rev (trim_fuel (map (@rev ascii) space_encodings) (length l) (rev l)).
(** [strings.TrimSpace]. *)
Definition trim_space (s : string) : string := of_bytes (trim_right (trim_left (to_bytes s))).

(** [strings.Split] (and [SplitSeq]) on a one-byte separator. *)
Fixpoint split_bytes (sep : ascii) (l cur : bytes) : list bytes :=
  match l with
  | [] => [rev cur]
  | c :: l' => if Ascii.eqb c sep then rev cur :: split_bytes sep l' []
               else split_bytes sep l' (c :: cur)
  end.
Definition split_on (sep : ascii) (s : string) : list string :=
  map of_bytes (split_bytes sep (to_bytes s) []).

Definition newline : ascii := byte 10.
Definition nl : string := String newline "".

(** Bytes a trim never touches: ASCII and not a space. *)
Definition solid (c : ascii) : bool :=
  (byteZ c <? 128) && negb (existsb (Ascii.eqb c) (map byte [9; 10; 11; 12; 13; 32]%N)).

Lemma solid_not_space (encs : list bytes) (c : ascii) (l : bytes) :
  (forall e, e ∈ encs -> exists c' e', e = c' :: e' /\ Ascii.eqb c' c = false) ->
  first_some (fun e => strip_prefix e (c :: l)) encs = None.
Proof.
  induction encs as [|e encs IH]; intros H; simpl; [done|].
  destruct (H e) as (c' & e' & -> & Hne); [by left|].
  simpl. rewrite Hne. apply IH. intros e0 He0. apply H. by right.
Qed.

Lemma solid_starts (c : ascii) :
  solid c = true ->
  forallb (fun e => match e with [] => false | c' :: _ => negb (Ascii.eqb c' c) end)
    (space_encodings ++ map (@rev ascii) space_encodings) = true.
Proof. destruct c as [[] [] [] [] [] [] [] []]; vm_compute; auto. Qed.

Lemma solid_encs (c : ascii) e :
  solid c = true -> e ∈ (space_encodings ++ map (@rev ascii) space_encodings) ->
  exists c' e', e = c' :: e' /\ Ascii.eqb c' c = false.
Proof.
  intros Hc He. pose proof (solid_starts c Hc) as H.
  rewrite forallb_forall in H. apply list_elem_of_In, H in He.
  destruct e as [|c' e']; [done|]. exists c', e'. split; [done|]. by apply negb_true_iff.
Qed.

Lemma trim_fuel_solid (encs : list bytes) n l :
  encs ⊆ (space_encodings ++ map (@rev ascii) space_encodings) ->
  match l with [] => True | c :: _ => solid c = true end ->
  trim_fuel encs n l = l.
Proof.
  intros Hin Hl. destruct n as [|n]; [done|].
  destruct l as [|c l]; simpl.
  - replace (first_some _ encs) with (@None bytes); [done|]. symmetry.
    induction encs as [|e encs IH]; simpl; [done|].
    destruct e as [|c e].
    + exfalso. assert (He : ([] : bytes) ∈ (space_encodings ++ map (@rev ascii) space_encodings)%list)
        by (apply Hin; by left).
      by destruct (solid_encs "a"%char [] eq_refl He) as (? & ? & ? & _).
    + simpl. apply IH. intros e0 He0. apply Hin. by right.
  - rewrite solid_not_space; [done|]. intros e He. by apply solid_encs, Hin.
Qed.

(** A string with no space and no byte outside ASCII is its own trim. *)
Lemma trim_space_solid (s : string) :
  Forall (fun c => solid c = true) (to_bytes s) -> trim_space s = s.
Proof.
  intros HF. unfold trim_space, trim_right, trim_left.
  rewrite (trim_fuel_solid space_encodings).
  - rewrite (trim_fuel_solid (map (@rev ascii) space_encodings)).
    + by rewrite rev_involutive, of_to_bytes.
    + intros e He. apply elem_of_app. by right.
    + destruct (rev (to_bytes s)) as [|c l] eqn:E; [done|].
      rewrite Forall_forall in HF. apply HF. apply list_elem_of_In.
      rewrite in_rev, E. by left.
  - intros e He. apply elem_of_app. by left.
  - destruct (to_bytes s); [done|]. by apply Forall_cons in HF as [? _].
Qed.

(** What was written with a trailing newline is read back by a trim. *)
Lemma trim_space_nl (s : string) :
  Forall (fun c => solid c = true) (to_bytes s) -> s <> "" -> trim_space (s +:+ nl) = s.
Proof.
  intros HF Hne. unfold trim_space, trim_right, trim_left. rewrite to_bytes_app.
  assert (to_bytes s <> []) as Hn.
  { intros E. apply Hne. rewrite <- (of_to_bytes s), E. done. }
  rewrite (trim_fuel_solid space_encodings).
  - rewrite rev_app_distr. change (rev (to_bytes nl)) with [newline]. rewrite length_app, Nat.add_comm.
    cbn [length to_bytes nl String.list_ascii_of_string app Nat.add trim_fuel].
    change (first_some (fun e => strip_prefix e (newline :: rev (to_bytes s))) (map (@rev ascii) space_encodings))
      with (Some (rev (to_bytes s))). cbv iota.
    rewrite trim_fuel_solid; [by rewrite rev_involutive, of_to_bytes| |].
    + intros e He. apply elem_of_app. by right.
    + destruct (rev (to_bytes s)) as [|c l] eqn:E; [done|].
      rewrite Forall_forall in HF. apply HF. apply list_elem_of_In.
      rewrite in_rev, E. by left.
  - intros e He. apply elem_of_app. by left.
  - destruct (to_bytes s); [done|]. by apply Forall_cons in HF as [? _].
Qed.


Lemma split_bytes_app (sep : ascii) (l cur rest : bytes) :
  Forall (fun c => Ascii.eqb c sep = false) l ->
  split_bytes sep (l ++ sep :: rest) cur = (rev cur ++ l)%list :: split_bytes sep rest [].
Proof.
  intros HF. revert cur. induction HF as [|c l Hc HF IH]; intros cur; simpl.
  - rewrite Ascii.eqb_refl. by rewrite app_nil_r.
  - rewrite Hc, IH. simpl. by rewrite <- app_assoc.
Qed.

Lemma split_bytes_last (sep : ascii) (l cur : bytes) :
  Forall (fun c => Ascii.eqb c sep = false) l ->
  split_bytes sep l cur = [(rev cur ++ l)%list].
Proof.
  intros HF. revert cur. induction HF as [|c l Hc HF IH]; intros cur; simpl.
  - by rewrite app_nil_r.
  - rewrite Hc, IH. simpl. by rewrite <- app_assoc.
Qed.

(** [strings.Split] undoes [strings.Join] when no part holds the separator. *)
Lemma split_join (sep : ascii) (l : list string) :
  l ≠ [] ->
  Forall (fun s => Forall (fun c => Ascii.eqb c sep = false) (to_bytes s)) l ->
  split_on sep (join (String sep "") l) = l.
Proof.
  unfold split_on. intros Hne HF. induction HF as [|s l Hs HF IH]; [done|].
  destruct l as [|s' l].
  - simpl. rewrite split_bytes_last by done. simpl. by rewrite of_to_bytes.
  - change (join (String sep "") (s :: s' :: l))
      with (s +:+ String sep "" +:+ join (String sep "") (s' :: l)).
    rewrite !to_bytes_app. simpl (to_bytes (String sep "")).
    rewrite <- app_comm_cons, app_nil_l, split_bytes_app by done.
    rewrite map_cons, IH by done. simpl. by rewrite of_to_bytes.
Qed.

(** ** strconv *)

Definition digit_val (c : ascii) : option Z :=
  if in_range 48 57 c then Some (byteZ c - 48) else None.

Fixpoint parse_digits (acc : Z) (l : bytes) : option Z :=
  match l with
  | [] => Some acc
  | c :: l' => d ← digit_val c; parse_digits (10 * acc + d) l'
  end.

(** [strconv.ParseUint(s, 10, _)] without its range check: at least one digit
    and nothing but digits. *)
Definition parse_nat (l : bytes) : option Z :=
  match l with [] => None | _ => parse_digits 0 l end.

(** [strconv.ParseInt(s, 10, 64)]; an error is [None]. *)
Definition parse_int64 (s : string) : option Z :=
  z ← match to_bytes s with
      | c :: l => if Ascii.eqb c "-" then z ← parse_nat l; Some (- z)
                  else if Ascii.eqb c "+" then parse_nat l
                  else parse_nat (c :: l)
      | [] => None
      end;
  if (- 2 ^ 63 <=? z) && (z <? 2 ^ 63) then Some z else None.

Definition hex_digit (n : Z) : ascii :=
  nth (Z.to_nat n) (to_bytes "0123456789abcdef") "0"%char.
Definition hex2 (z : Z) : bytes := [hex_digit (z `div` 16); hex_digit (z `mod` 16)].

(** [strconv.Quote], the [%q] verb. A rune outside ASCII is taken as
    printable: the table behind [strconv.IsPrint] is not reproduced. *)
Definition quote_ascii (c : ascii) : bytes :=
  let z := byteZ c in
  if z =? 34 then to_bytes "\" ++ [c]
  else if z =? 92 then to_bytes "\\"
  else if (32 <=? z) && (z <? 127) then [c]
  else if z =? 7 then to_bytes "\a"
  else if z =? 8 then to_bytes "\b"
  else if z =? 12 then to_bytes "\f"
  else if z =? 10 then to_bytes "\n"
  else if z =? 13 then to_bytes "\r"
  else if z =? 9 then to_bytes "\t"
  else if z =? 11 then to_bytes "\v"
  else to_bytes "\x" ++ hex2 z.
Definition quote_rune (r : rune) : bytes :=
  match r with
  | RuneBytes [c] => quote_ascii c
  | RuneBytes b => b
  | RuneInvalid c => to_bytes "\x" ++ hex2 (byteZ c)
  end.
Definition quote (s : string) : string :=
  of_bytes ([byte 34] ++ concat (map quote_rune (runes s)) ++ [byte 34]).

Example quote_ex : quote (of_bytes [byte 97; byte 10; byte 255]) =
  of_bytes ([byte 34] ++ to_bytes "a\n\xff" ++ [byte 34]).
Proof. vm_compute. reflexivity. Qed.

Example trim_ex : trim_space (of_bytes [byte 32; byte 194; byte 160; byte 107; byte 51; byte 32; byte 115; byte 10]) = "k3 s".
Proof. vm_compute. reflexivity. Qed.

Example parse_int64_ex :
  map parse_int64 ["4"; "+4"; "-4"; ""; "4x"; "9223372036854775808"; "-9223372036854775808"] =
  [Some 4; Some 4; Some (-4); None; None; None; Some (-9223372036854775808)].
Proof. vm_compute. reflexivity. Qed.
