(* ===== verification/GoTime.v ===== *)
(** Go's [time] package as the modelled code uses it: instants with a zone
    offset, [Format] and [Parse] with the RFC3339 and RFC3339Nano layouts,
    [After], [Sub], and [Duration.String]. The round trip proved here is what
    the restart protocol rests on: a timestamp one side writes on a Node
    annotation is the instant the other side reads. *)
From stdpp Require Import base tactics strings list pretty.
From Stdlib Require Import ZArith Lia Ascii.
From S2P Require Import Prelude GoLib.

Open Scope Z_scope.

(** [lia] with the quotients and remainders by constants spelled out. *)
Ltac dlia := Z.to_euclidean_division_equations; lia.

(** An instant in nanoseconds since the Unix epoch, shown at a zone offset in
    seconds east of UTC. *)
Record time := Time { unix_nano : Z; zone : Z }.

Definition utc (t : time) : time := Time (unix_nano t) 0.
Definition after (t u : time) : bool := unix_nano u <? unix_nano t.
Definition before (t u : time) : bool := unix_nano t <? unix_nano u.
(** [t.Sub(u)], and [time.Since(u)] at [t]: a duration in nanoseconds. Go
    saturates at the bounds of int64. *)
Definition sub (t u : time) : Z :=
  let d := unix_nano t - unix_nano u in
  Z.max (- 2 ^ 63) (Z.min (2 ^ 63 - 1) d).
(** [time.Time{}], midnight of January 1 of year 1, UTC. *)
Definition zero_time : time := Time (-62135596800 * 10 ^ 9) 0.
Definition is_zero (t : time) : bool := unix_nano t =? unix_nano zero_time.

(** Durations, in nanoseconds. *)
Definition second : Z := 10 ^ 9.
Definition minute : Z := 60 * second.
Definition hour : Z := 60 * minute.

(** ** The civil calendar

    [civil_of_days] gives the date of a day counted from 1970-01-01, and
    [days_of_civil] the day of a date, both by the 400-year cycle of the
    Gregorian calendar (146097 days, counted from March 1). *)
Definition doe_of_mday (yoe mp d : Z) : Z :=
  let doy := (153 * mp + 2) / 5 + d - 1 in
  yoe * 365 + yoe / 4 - yoe / 100 + doy.

Definition mday_of_doe (doe : Z) : Z * Z * Z :=
  let yoe := (doe - doe / 1460 + doe / 36524 - doe / 146096) / 365 in
  let doy := doe - (365 * yoe + yoe / 4 - yoe / 100) in
  let mp := (5 * doy + 2) / 153 in
  (yoe, mp, doy - (153 * mp + 2) / 5 + 1).

Definition month_of_mp (mp : Z) : Z := if mp <? 10 then mp + 3 else mp - 9.
Definition mp_of_month (m : Z) : Z := if 2 <? m then m - 3 else m + 9.

Definition civil_of_days (days : Z) : Z * Z * Z :=
  let z := days + 719468 in
  let era := z / 146097 in
  let '(yoe, mp, d) := mday_of_doe (z - era * 146097) in
  let m := month_of_mp mp in
  (yoe + era * 400 + (if m <=? 2 then 1 else 0), m, d).

Definition days_of_civil (y m d : Z) : Z :=
  let y' := if m <=? 2 then y - 1 else y in
  let era := y' / 400 in
  era * 146097 + doe_of_mday (y' - era * 400) (mp_of_month m) d - 719468.

Definition leap (y : Z) : bool :=
  (y `mod` 4 =? 0) && (negb (y `mod` 100 =? 0) || (y `mod` 400 =? 0)).
Definition days_in (m y : Z) : Z :=
  if m =? 2 then (if leap y then 29 else 28)
  else if (m =? 4) || (m =? 6) || (m =? 9) || (m =? 11) then 30 else 31.

(** [all_from n z f] checks [f] on the [n] integers from [z]. *)
Fixpoint all_from (n : nat) (z : Z) (f : Z -> bool) : bool :=
  match n with O => true | S n => f z && all_from n (z + 1) f end.

Lemma all_from_spec (n : nat) (lo : Z) (f : Z -> bool) :
  all_from n lo f = true -> forall z, lo <= z < lo + Z.of_nat n -> f z = true.
Proof.
  revert lo. induction n as [|n IH]; intros lo H z Hz; [lia|].
  cbn [all_from] in H. apply andb_true_iff in H as [Hn H].
  destruct (decide (z = lo)) as [->|]; [done|]. apply (IH (lo + 1)); [done|lia].
Qed.

(** The year of a day is monotone in the day, so checking the first and the
    last day of each of the 400 years is enough. *)
Definition ydays (doe : Z) : Z := doe - doe / 1460 + doe / 36524 - doe / 146096.
Definition ystart (y : Z) : Z := 365 * y + y / 4 - y / 100.
Definition yend (y : Z) : Z := if y <? 399 then ystart (y + 1) else 146097.

Lemma ydays_mono (a b : Z) : 0 <= a <= b -> ydays a <= ydays b.
Proof.
  intros [Ha Hab]. replace b with (a + Z.of_nat (Z.to_nat (b - a))) by lia.
  generalize (Z.to_nat (b - a)) as n. clear Hab. induction n as [|n IH].
  - replace (a + Z.of_nat 0) with a by lia. lia.
  - etransitivity; [exact IH|].
    replace (a + Z.of_nat (S n)) with (a + Z.of_nat n + 1) by lia.
    assert (0 <= a + Z.of_nat n) as Hk by lia. revert Hk.
    generalize (a + Z.of_nat n) as k. intros k Hk. unfold ydays.
    change 146096 with (36524 * 4). rewrite <- !Z.div_div by lia.
    assert ((k + 1) / 1460 <= k / 1460 + 1) by dlia.
    assert (k / 36524 <= (k + 1) / 36524) as Hq by dlia. revert Hq.
    generalize (k / 36524) ((k + 1) / 36524). intros q q' Hq. dlia.
Qed.

Definition year_ok (y : Z) : bool :=
  (ydays (ystart y) / 365 =? y) && (ydays (yend y - 1) / 365 =? y) && 
  (yend y - ystart y =? 365 + (if leap (y + 1) then 1 else 0)).

Lemma year_ok_all (y : Z) : 0 <= y < 400 -> year_ok y = true.
Proof. intros H. apply (all_from_spec 400 0); [vm_compute; reflexivity | lia]. Qed.

Lemma yoe_range (doe : Z) : 0 <= doe < 146097 -> 0 <= ydays doe / 365 < 400.
Proof. unfold ydays. dlia. Qed.

Lemma doy_range (doe : Z) :
  0 <= doe < 146097 ->
  ystart (ydays doe / 365) <= doe
    < ystart (ydays doe / 365) + 365 + (if leap (ydays doe / 365 + 1) then 1 else 0).
Proof.
  intros H. pose proof (yoe_range doe H) as Hy. set (y := ydays doe / 365) in *.
  pose proof (year_ok_all y Hy) as Hok. unfold year_ok in Hok. bool_to_prop.
  assert (Hst : forall k, 0 <= k -> 0 <= ystart k) by (unfold ystart; intros; dlia).
  split.
  - apply Z.nlt_ge. intros Hlt. assert (1 <= y).
    { destruct (decide (y = 0)) as [E|]; [|lia]. rewrite E in Hlt. change (ystart 0) with 0 in Hlt. lia. }
    pose proof (year_ok_all (y - 1) ltac:(lia)) as Hp. unfold year_ok in Hp. bool_to_prop.
    unfold yend in *. replace (y - 1 <? 399) with true in * by lia. replace (y - 1 + 1) with y in * by lia.
    pose proof (Z.div_le_mono _ _ 365 ltac:(lia) (ydays_mono doe (ystart y - 1) ltac:(lia))). lia.
  - apply Z.nle_gt. intros Hge. unfold yend in *. destruct (y <? 399) eqn:E; bool_to_prop; [|lia].
    pose proof (year_ok_all (y + 1) ltac:(lia)) as Hp. unfold year_ok in Hp. bool_to_prop.
    pose proof (Hst (y + 1) ltac:(lia)).
    pose proof (Z.div_le_mono _ _ 365 ltac:(lia) (ydays_mono (ystart (y + 1)) doe ltac:(lia))). lia.
Qed.

(** The length of a month counted from March. *)
Definition mp_days (mp yoe : Z) : Z := days_in (month_of_mp mp) (yoe + (if month_of_mp mp <=? 2 then 1 else 0)).

Definition doy_ok (b : bool) (doy : Z) : bool :=
  let mp := (5 * doy + 2) / 153 in
  let d := doy - (153 * mp + 2) / 5 + 1 in
  (0 <=? mp) && (mp <? 12) && (1 <=? d) &&
  (d <=? (if month_of_mp mp =? 2 then (if b then 29 else 28) else days_in (month_of_mp mp) 0)).

Lemma doy_ok_all (b : bool) (doy : Z) :
  0 <= doy < 365 + (if b then 1 else 0) -> doy_ok b doy = true.
Proof.
  intros H. destruct b; [apply (all_from_spec 366 0) | apply (all_from_spec 365 0)];
    vm_compute; auto.
Qed.

Lemma doe_ok (doe yoe mp d : Z) :
  0 <= doe < 146097 -> mday_of_doe doe = (yoe, mp, d) ->
  doe_of_mday yoe mp d = doe /\ 0 <= yoe < 400 /\ 0 <= mp < 12 /\ 1 <= d <= mp_days mp yoe.
Proof.
  intros H E. pose proof (yoe_range doe H). pose proof (doy_range doe H) as Hdoy.
  unfold mday_of_doe in E. fold (ydays doe) in E. fold (ystart (ydays doe / 365)) in E.
  injection E as <- <- <-.
  set (y := ydays doe / 365) in *. set (doy := doe - ystart y) in *.
  pose proof (doy_ok_all (leap (y + 1)) doy ltac:(subst doy; lia)) as Hok.
  unfold doy_ok in Hok. bool_to_prop. split; [|split; [|split]]; try lia.
  - unfold doe_of_mday. fold (ystart y). subst doy. unfold ystart. lia.
  - split; [lia|]. unfold mp_days, days_in in *.
    destruct (month_of_mp _ =? 2) eqn:Hm; [|done].
    replace (month_of_mp ((5 * doy + 2) / 153) <=? 2) with true by lia. done.
Qed.

Lemma leap_shift (y k : Z) : leap (y + k * 400) = leap y.
Proof.
  unfold leap.
  replace ((y + k * 400) `mod` 4) with (y `mod` 4) by dlia.
  replace ((y + k * 400) `mod` 100) with (y `mod` 100) by dlia.
  by rewrite Z.mod_add by lia.
Qed.

Lemma civil_of_days_spec (days y m d : Z) :
  civil_of_days days = (y, m, d) ->
  days_of_civil y m d = days /\ 1 <= m <= 12 /\ 1 <= d <= days_in m y.
Proof.
  unfold civil_of_days. set (z := days + 719468).
  pose proof (Z.mod_pos_bound z 146097 ltac:(lia)) as Hdoe.
  rewrite Z.mod_eq in Hdoe by lia. rewrite Z.mul_comm in Hdoe.
  destruct (mday_of_doe (z - z / 146097 * 146097)) as [[yoe mp] d'] eqn:E.
  destruct (doe_ok _ _ _ _ Hdoe E) as (Hd & Hyoe & Hmp & Hday).
  intros Heq. injection Heq as <- <- <-.
  assert (Hin : mp_days mp yoe = days_in (month_of_mp mp)
     (yoe + z / 146097 * 400 + (if month_of_mp mp <=? 2 then 1 else 0))).
  { unfold mp_days, days_in.
    replace (yoe + z / 146097 * 400 + (if month_of_mp mp <=? 2 then 1 else 0))
      with (yoe + (if month_of_mp mp <=? 2 then 1 else 0) + z / 146097 * 400) by lia.
    by rewrite leap_shift. }
  rewrite <- Hin. clear Hin.
  assert (Hm : 1 <= month_of_mp mp <= 12) by (unfold month_of_mp; destruct (mp <? 10) eqn:?; bool_to_prop; lia).
  split; [|by split]. unfold days_of_civil.
  assert (mp_of_month (month_of_mp mp) = mp) as ->.
  { unfold mp_of_month, month_of_mp. repeat case_match; bool_to_prop; lia. }
  set (y' := if month_of_mp mp <=? 2 then _ else _).
  assert (Hy' : y' = yoe + z / 146097 * 400) by (subst y'; destruct (month_of_mp mp <=? 2); lia).
  assert (y' / 400 = z / 146097) as -> by (symmetry; apply Z.div_unique_pos with (r := yoe); lia).
  replace (y' - z / 146097 * 400) with yoe by lia. rewrite Hd. lia.
Qed.

(** ** RFC3339 *)

Definition digit_char (d : Z) : ascii := ascii_of_N (Z.to_N (48 + d)).

(** The [w] low decimal digits of [n], zero-padded. *)
Fixpoint pad (w : nat) (n : Z) : bytes :=
  match w with
  | O => []
  | S w => pad w (n / 10) ++ [digit_char (n `mod` 10)]
  end.

(** The fraction of the layout [.999999999]: none for a whole second,
    otherwise without trailing zeros. *)
Fixpoint strip_zeros_rev (l : bytes) : bytes :=
  match l with
  | c :: l' => if Ascii.eqb c "0" then strip_zeros_rev l' else l
  | [] => []
  end.
Definition strip_zeros (l : bytes) : bytes := rev (strip_zeros_rev (rev l)).
Definition fmt_frac (nsec : Z) : bytes :=
  if nsec =? 0 then [] else "."%char :: strip_zeros (pad 9 nsec).

Definition fmt_zone (off : Z) : bytes :=
  if off =? 0 then ["Z"%char]
  else let mins := Z.abs off / 60 in
       (if off <? 0 then "-"%char else "+"%char)
         :: pad 2 (mins / 60) ++ ":"%char :: pad 2 (mins `mod` 60).

Definition fmt_datetime (local : Z) : bytes :=
  let days := local / 86400 in
  let s := local `mod` 86400 in
  let '(y, m, d) := civil_of_days days in
  pad 4 y ++ "-"%char :: pad 2 m ++ "-"%char :: pad 2 d ++ "T"%char ::
  pad 2 (s / 3600) ++ ":"%char :: pad 2 ((s / 60) `mod` 60) ++ ":"%char :: pad 2 (s `mod` 60).

(** [t.Format(time.RFC3339Nano)] and [t.Format(time.RFC3339)]. *)
Definition format_nano (t : time) : string :=
  of_bytes (fmt_datetime (unix_nano t / second + zone t)
            ++ fmt_frac (unix_nano t `mod` second) ++ fmt_zone (zone t)).
Definition format_rfc3339 (t : time) : string :=
  of_bytes (fmt_datetime (unix_nano t / second + zone t) ++ fmt_zone (zone t)).

(** Fixed-width and one-or-two-digit numbers, as [time.Parse]'s [getnum]. *)
Fixpoint getfixed (w : nat) (acc : Z) (l : bytes) : option (Z * bytes) :=
  match w, l with
  | O, _ => Some (acc, l)
  | S w, c :: l' => d ← digit_val c; getfixed w (10 * acc + d) l'
  | S _, [] => None
  end.
Definition getnum (l : bytes) : option (Z * bytes) :=
  match getfixed 2 0 l with
  | Some r => Some r
  | None => getfixed 1 0 l
  end.
Definition expect (c : ascii) (l : bytes) : option bytes :=
  match l with
  | c' :: l' => if Ascii.eqb c c' then Some l' else None
  | [] => None
  end.

Definition is_digit (c : ascii) : bool := in_range 48 57 c.
Fixpoint span_digits (l : bytes) : bytes * bytes :=
  match l with
  | c :: l' => if is_digit c then let '(a, b) := span_digits l' in (c :: a, b) else ([], l)
  | [] => ([], [])
  end.

(** The optional fraction: a period or comma followed by a digit; digits
    past the ninth are dropped. *)
Definition parse_frac (l : bytes) : option (Z * bytes) :=
  match l with
  | p :: c :: _ =>
    if (Ascii.eqb p "." || Ascii.eqb p ",") && is_digit c then
      let '(ds, rest) := span_digits (tail l) in
      let ds9 := take 9 ds in
      n ← parse_digits 0 ds9;
      Some (n * 10 ^ (9 - Z.of_nat (length ds9)), rest)
    else Some (0, l)
  | _ => Some (0, l)
  end.

Definition parse_zone (l : bytes) : option Z :=
  match l with
  | [c] => if Ascii.eqb c "Z" then Some 0 else None
  | sg :: l1 =>
    sgn ← (if Ascii.eqb sg "+" then Some 1 else if Ascii.eqb sg "-" then Some (-1) else None);
    '(hh, l2) ← getfixed 2 0 l1;
    l3 ← expect ":" l2;
    '(mm, l4) ← getfixed 2 0 l3;
    if (hh <=? 24) && (mm <=? 60) && bool_decide (l4 = []) then Some (sgn * (hh * 60 + mm) * 60) else None
  | [] => None
  end.

(** [time.Parse(time.RFC3339Nano, s)]; an error is [None]. *)
Definition parse_nano (s : string) : option time :=
  '(y, l) ← getfixed 4 0 (to_bytes s);
  l ← expect "-" l; '(mo, l) ← getfixed 2 0 l;
  l ← expect "-" l; '(d, l) ← getfixed 2 0 l;
  l ← expect "T" l; '(h, l) ← getnum l;
  l ← expect ":" l; '(mi, l) ← getfixed 2 0 l;
  l ← expect ":" l; '(sec, l) ← getfixed 2 0 l;
  '(nsec, l) ← parse_frac l;
  off ← parse_zone l;
  if (1 <=? mo) && (mo <=? 12) && (1 <=? d) && (d <=? days_in mo y) && (h <? 24) && (mi <? 60) && (sec <? 60)
  then Some (Time ((days_of_civil y mo d * 86400 + h * 3600 + mi * 60 + sec - off) * second + nsec) off)
  else None.

Example format_ex : format_nano (Time 1757930765120000000 7200) = "2025-09-15T12:06:05.12+02:00".
Proof. vm_compute. reflexivity. Qed.
Example parse_ex :
  map parse_nano ["2025-09-15T12:06:05.12+02:00"; "2025-09-15T10:00:05Z"; "2025-02-29T10:00:05Z"; "yes"] =
  [Some (Time 1757930765120000000 7200); Some (Time 1757930405000000000 0); None; None].
Proof. vm_compute. reflexivity. Qed.

(** *** Reading back what [Format] wrote *)

Lemma digit_val_char (d : Z) : 0 <= d < 10 -> digit_val (digit_char d) = Some d.
Proof.
  intros H. assert (d = 0 \/ d = 1 \/ d = 2 \/ d = 3 \/ d = 4 \/ d = 5 \/ d = 6 \/ d = 7 \/ d = 8 \/ d = 9) by lia.
  by destruct_or!; subst d.
Qed.

Lemma is_digit_char (d : Z) : 0 <= d < 10 -> is_digit (digit_char d) = true.
Proof.
  intros H. pose proof (digit_val_char d H) as E. unfold digit_val in E. unfold is_digit.
  by destruct (in_range 48 57 (digit_char d)).
Qed.

Lemma length_pad (w : nat) (n : Z) : length (pad w n) = w.
Proof. revert n. induction w as [|w IH]; intros n; [done|]. simpl. rewrite length_app, IH. simpl. lia. Qed.

Lemma pad_digits (w : nat) (n : Z) : Forall (fun c => is_digit c = true) (pad w n).
Proof.
  revert n. induction w as [|w IH]; intros n; simpl; [constructor|].
  apply Forall_app; split; [apply IH|]. repeat constructor. apply is_digit_char. dlia.
Qed.

Lemma getfixed_app (w1 w2 : nat) (acc : Z) (l : bytes) :
  getfixed (w1 + w2) acc l = ('(a, l') ← getfixed w1 acc l; getfixed w2 a l').
Proof.
  revert acc l. induction w1 as [|w IH]; intros acc l; [done|].
  destruct l as [|c l]; simpl; [done|]. destruct (digit_val c); simpl; [apply IH | done].
Qed.

Lemma getfixed_pad (w : nat) (acc n : Z) (rest : bytes) :
  0 <= n < 10 ^ Z.of_nat w ->
  getfixed w acc (pad w n ++ rest) = Some (acc * 10 ^ Z.of_nat w + n, rest).
Proof.
  revert acc n rest. induction w as [|w IH]; intros acc n rest H.
  - simpl in H. simpl. do 2 f_equal. lia.
  - assert (Hp : 10 ^ Z.of_nat (S w) = 10 * 10 ^ Z.of_nat w)
      by (rewrite Nat2Z.inj_succ; apply Z.pow_succ_r; lia).
    replace (S w) with (w + 1)%nat at 1 by lia. rewrite getfixed_app.
    change (pad (S w) n) with (pad w (n / 10) ++ [digit_char (n `mod` 10)])%list.
    rewrite <- app_assoc, IH by dlia. simpl.
    rewrite digit_val_char by dlia. simpl. do 2 f_equal. rewrite Hp.
    pose proof (Z.div_mod n 10 ltac:(lia)). nia.
Qed.

Lemma getfixed_2 (n : Z) rest : 0 <= n < 100 -> getfixed 2 0 (pad 2 n ++ rest) = Some (n, rest).
Proof. intros H. by rewrite getfixed_pad by lia. Qed.
Lemma getfixed_4 (n : Z) rest : 0 <= n < 10000 -> getfixed 4 0 (pad 4 n ++ rest) = Some (n, rest).
Proof. intros H. by rewrite getfixed_pad by lia. Qed.

Lemma parse_digits_app (acc : Z) (a b : bytes) :
  parse_digits acc (a ++ b) = (x ← parse_digits acc a; parse_digits x b).
Proof.
  revert acc. induction a as [|c a IH]; intros acc; [done|]. simpl.
  destruct (digit_val c); simpl; [apply IH | done].
Qed.

Lemma parse_digits_pad (w : nat) (acc n : Z) :
  0 <= n < 10 ^ Z.of_nat w -> parse_digits acc (pad w n) = Some (acc * 10 ^ Z.of_nat w + n).
Proof.
  revert acc n. induction w as [|w IH]; intros acc n H.
  - simpl in H. simpl. f_equal. lia.
  - assert (Hp : 10 ^ Z.of_nat (S w) = 10 * 10 ^ Z.of_nat w)
      by (rewrite Nat2Z.inj_succ; apply Z.pow_succ_r; lia).
    change (pad (S w) n) with (pad w (n / 10) ++ [digit_char (n `mod` 10)])%list.
    rewrite parse_digits_app, IH by dlia. simpl. rewrite digit_val_char by dlia. simpl.
    f_equal. rewrite Hp. pose proof (Z.div_mod n 10 ltac:(lia)). nia.
Qed.

Lemma strip_zeros_app (l : bytes) :
  exists k, l = (strip_zeros l ++ repeat "0"%char k)%list.
Proof.
  assert (H : forall r, exists k, rev r = (rev (strip_zeros_rev r) ++ repeat "0"%char k)%list).
  { induction r as [|c r [k IH]]; simpl; [by exists 0%nat|].
    destruct (Ascii.eqb c "0") eqn:E; [|exists 0%nat; by rewrite app_nil_r].
    apply Ascii.eqb_eq in E as ->. exists (S k).
    by rewrite IH, <- app_assoc, <- repeat_cons. }
  destruct (H (rev l)) as [k Hk]. exists k. by rewrite rev_involutive in Hk.
Qed.

Lemma parse_digits_zeros (k : nat) (acc : Z) :
  parse_digits acc (repeat "0"%char k) = Some (acc * 10 ^ Z.of_nat k).
Proof.
  revert acc. induction k as [|k IH]; intros acc; [simpl; f_equal; lia|].
  cbn [repeat parse_digits]. change (digit_val "0") with (Some 0).
  cbn [mbind option_bind]. rewrite IH. f_equal. rewrite Nat2Z.inj_succ, Z.pow_succ_r by lia. ring.
Qed.

Lemma span_digits_app (a rest : bytes) :
  Forall (fun c => is_digit c = true) a ->
  match rest with [] => True | c :: _ => is_digit c = false end ->
  span_digits (a ++ rest) = (a, rest).
Proof.
  intros HF Hr. induction HF as [|c a Hc HF IH]; simpl.
  - destruct rest as [|c rest]; [done|]. simpl. by rewrite Hr.
  - by rewrite Hc, IH.
Qed.

Lemma parse_frac_fmt (nsec : Z) (rest : bytes) :
  0 <= nsec < second ->
  match rest with [] => True | c :: _ =>
    is_digit c = false /\ Ascii.eqb c "." = false /\ Ascii.eqb c "," = false end ->
  parse_frac (fmt_frac nsec ++ rest) = Some (nsec, rest).
Proof.
  intros Hn Hrest. unfold fmt_frac. destruct (nsec =? 0) eqn:E; bool_to_prop.
  { subst. destruct rest as [|p [|c rest]]; try done. simpl. destruct Hrest as (_ & -> & ->). done. }
  destruct (strip_zeros_app (pad 9 nsec)) as [k Hk].
  pose proof (parse_digits_pad 9 0 nsec Hn) as Hp. rewrite Hk, parse_digits_app in Hp.
  pose proof (pad_digits 9 nsec) as Hd. rewrite Hk in Hd. apply Forall_app in Hd as [Hd _].
  pose proof (length_pad 9 nsec) as Hl. rewrite Hk, length_app, repeat_length in Hl.
  destruct (parse_digits 0 (strip_zeros (pad 9 nsec))) as [v|] eqn:Hv; [|done].
  cbn [mbind option_bind] in Hp. rewrite parse_digits_zeros in Hp. injection Hp as Hp.
  set (ds := strip_zeros (pad 9 nsec)) in *. destruct ds as [|c ds'] eqn:Hds.
  { simpl in Hv. injection Hv as <-. lia. }
  cbn [app parse_frac tail]. change (Ascii.eqb "." ".") with true. cbn [orb andb].
  assert (is_digit c = true) as -> by (by apply Forall_cons in Hd as [? _]).
  rewrite (app_comm_cons ds' rest c), span_digits_app; [|done| by destruct rest as [|? ?]; [|destruct Hrest]].
  rewrite (take_ge (c :: ds')) by lia. rewrite Hv. cbn [mbind option_bind]. do 2 f_equal.
  replace (9 - Z.of_nat (length (c :: ds'))) with (Z.of_nat k) by lia. lia.
Qed.

(** Zones [Format] can show in full: whole minutes, at most a day away. *)
Definition zone_ok (off : Z) : Prop := off `mod` 60 = 0 /\ Z.abs off < 86400.

Lemma parse_zone_fmt (off : Z) : zone_ok off -> parse_zone (fmt_zone off) = Some off.
Proof.
  intros [Hm Ha]. unfold fmt_zone. destruct (off =? 0) eqn:E; bool_to_prop; [by subst|].
  set (mins := Z.abs off / 60).
  assert (Hmin : 0 <= mins / 60 < 24 /\ 0 <= mins `mod` 60 < 60) by (subst mins; dlia).
  assert (Hoff : (mins / 60 * 60 + mins `mod` 60) * 60 = Z.abs off) by (subst mins; dlia).
  assert (Hz : forall sg sgn, (if Ascii.eqb sg "+" then Some 1 else if Ascii.eqb sg "-" then Some (-1) else None) = Some sgn ->
    parse_zone (sg :: pad 2 (mins / 60) ++ ":"%char :: pad 2 (mins `mod` 60)) = Some (sgn * Z.abs off)).
  { intros sg sgn Hsg. unfold parse_zone.
    destruct (pad 2 (mins / 60) ++ _) as [|c l] eqn:Hl; [by destruct (pad 2 (mins / 60))|].
    rewrite <- Hl, Hsg. cbn [mbind option_bind]. rewrite getfixed_2 by lia. cbn [mbind option_bind expect].
    change (Ascii.eqb ":" ":") with true. cbn [mbind option_bind].
    rewrite <- (app_nil_r (pad 2 (mins `mod` 60))), getfixed_2 by lia. cbn [mbind option_bind].
    replace ((mins / 60 <=? 24) && (mins `mod` 60 <=? 60)) with true by lia.
    simpl. f_equal. lia. }
  destruct (off <? 0) eqn:Es; bool_to_prop; [rewrite (Hz "-"%char (-1)) | rewrite (Hz "+"%char 1)];
    try done; f_equal; lia.
Qed.

(** Instants whose local year has four digits. *)
Definition time_ok (t : time) : Prop :=
  zone_ok (zone t) /\
  let '(y, _, _) := civil_of_days ((unix_nano t / second + zone t) / 86400) in 0 <= y < 10000.

#[export] Instance time_ok_dec t : Decision (time_ok t).
Proof.
  unfold time_ok, zone_ok. destruct (civil_of_days _) as [[y m] d]. apply _.
Defined.

(** A timestamp written with [Format(time.RFC3339Nano)] is read back by
    [time.Parse] as the same instant and zone. *)
Lemma parse_format_nano (t : time) : time_ok t -> parse_nano (format_nano t) = Some t.
Proof.
  intros [Hz Hy]. unfold parse_nano, format_nano, fmt_datetime.
  set (local := unix_nano t / second + zone t) in *.
  destruct (civil_of_days (local / 86400)) as [[y m] d] eqn:E.
  destruct (civil_of_days_spec _ _ _ _ E) as (Hd & Hmo & Hday).
  assert (Hd31 : days_in m y <= 31) by (unfold days_in; repeat case_match; lia).
  pose proof (Z.mod_pos_bound local 86400 ltac:(lia)) as Hs. set (s := local `mod` 86400) in *.
  rewrite to_of_bytes.
  repeat (rewrite <- !app_assoc; rewrite <- ?app_comm_cons).
  rewrite getfixed_4 by lia. cbn [mbind option_bind expect]. change (Ascii.eqb "-" "-") with true.
  cbn [mbind option_bind]. rewrite getfixed_2 by lia. cbn [mbind option_bind expect].
  change (Ascii.eqb "-" "-") with true. cbn [mbind option_bind]. rewrite getfixed_2 by lia.
  cbn [mbind option_bind expect]. change (Ascii.eqb "T" "T") with true. cbn [mbind option_bind].
  unfold getnum. rewrite getfixed_2 by dlia.
  cbn [mbind option_bind expect]. change (Ascii.eqb ":" ":") with true. cbn [mbind option_bind].
  rewrite getfixed_2 by dlia.
  cbn [mbind option_bind expect]. change (Ascii.eqb ":" ":") with true. cbn [mbind option_bind].
  rewrite getfixed_2 by dlia. cbn [mbind option_bind].
  rewrite parse_frac_fmt; [| apply Z.mod_pos_bound; done | unfold fmt_zone; destruct (_ =? 0); [|destruct (_ <? 0)]; by repeat split].
  cbn [mbind option_bind]. rewrite parse_zone_fmt by done. cbn [mbind option_bind].
  match goal with |- (if ?b then _ else _) = _ => replace b with true by (symmetry; dlia) end.
  destruct t as [un zo]. cbn [unix_nano zone] in *. do 2 f_equal. rewrite Hd.
  assert (Hsec : s / 3600 * 3600 + (s / 60) `mod` 60 * 60 + s `mod` 60 = s) by (clear -Hs; dlia).
  pose proof (Z.div_mod local 86400 ltac:(lia)) as Hl. fold s in Hl.
  pose proof (Z.div_mod un second ltac:(done)) as Hu.
  subst local. nia.
Qed.

(** A formatted timestamp has no space in it. *)
Lemma digit_solid (c : ascii) : is_digit c = true -> solid c = true.
Proof. destruct c as [[] [] [] [] [] [] [] []]; vm_compute; auto. Qed.
Lemma pad_solid (w : nat) (n : Z) : Forall (fun c => solid c = true) (pad w n).
Proof. eapply Forall_impl; [apply pad_digits|]. apply digit_solid. Qed.
Lemma strip_zeros_solid (l : bytes) :
  Forall (fun c => solid c = true) l -> Forall (fun c => solid c = true) (strip_zeros l).
Proof.
  intros HF%Forall_rev. unfold strip_zeros. apply Forall_rev.
  induction HF as [|c r Hc HF IH]; simpl; [done|]. destruct (Ascii.eqb c "0"); [done|]. by constructor.
Qed.
Lemma format_nano_solid (t : time) : Forall (fun c => solid c = true) (to_bytes (format_nano t)).
Proof.
  unfold format_nano, fmt_datetime, fmt_frac, fmt_zone. rewrite to_of_bytes.
  destruct (civil_of_days _) as [[y m] d].
  repeat match goal with
  | |- Forall _ (_ ++ _) => apply Forall_app; split
  | |- Forall _ (_ :: _) => constructor; [first [done | by destruct (zone t <? 0)]|]
  | |- Forall _ (if ?b then _ else _) => destruct b
  end; auto using pad_solid, strip_zeros_solid.
Qed.
Lemma format_nano_nonempty (t : time) : format_nano t <> "".
Proof.
  intros E. apply (f_equal (fun s => length (to_bytes s))) in E. unfold format_nano, fmt_datetime in E.
  rewrite to_of_bytes in E. destruct (civil_of_days _) as [[y m] d].
  rewrite !length_app, length_pad in E. simpl in E. lia.
Qed.

(** ** Durations *)

(** A fraction of [w] digits without its trailing zeros, as [fmtFrac]. *)
Definition fmt_frac_w (w : nat) (v : Z) : bytes :=
  if v =? 0 then [] else "."%char :: strip_zeros (pad w v).

(** [Duration.String], as [%s] prints it: "5m0s", "1h0m0.5s", "20ms". *)
Definition duration_string (d : Z) : string :=
  let u := Z.abs d in
  let body :=
    if u =? 0 then "0s"
    else if u <? 10 ^ 3 then itoa u +:+ "ns"
    else if u <? 10 ^ 6 then
      itoa (u / 10 ^ 3) +:+ of_bytes (fmt_frac_w 3 (u `mod` 10 ^ 3) ++ [byte 194; byte 181]) +:+ "s"
    else if u <? second then itoa (u / 10 ^ 6) +:+ of_bytes (fmt_frac_w 6 (u `mod` 10 ^ 6)) +:+ "ms"
    else
      let s := u / second in
      let m := s / 60 in
      let h := m / 60 in
      (if 0 <? h then itoa h +:+ "h" else "") +:+
      (if 0 <? m then itoa (m `mod` 60) +:+ "m" else "") +:+
      itoa (s `mod` 60) +:+ of_bytes (fmt_frac_w 9 (u `mod` second)) +:+ "s"
  in (if d <? 0 then "-" else "") +:+ body.

Example duration_ex :
  map duration_string [0; 5 * minute; 10 * minute; hour + 1500000000; 20000000; -2 * second] =
  ["0s"; "5m0s"; "10m0s"; "1h0m1.5s"; "20ms"; "-2s"].
Proof. vm_compute. reflexivity. Qed.

(** The instants the examples of the development use: [at_s n] is [n] seconds
    into 2025-09-15T10:00:00Z. *)
Definition at_s (n : Z) : time := Time ((1757930400 + n) * second) 0.
