(* ===== verification/Kube.v ===== *)
(** The Kubernetes objects the node-tuning components read and write
    (corev1.Node and corev1.Pod as far as the code looks at them), the
    NodeTuning kind of api/frame/v1beta1/nodetuning_types.go, and the
    interface of the API server: an operation per client call, and the laws
    the controllers rely on. The API server, controller-runtime's client and
    the label-selector library are not part of this repository: they are
    class parameters here, and [FakeCluster.v] instantiates them. *)
From stdpp Require Import base tactics strings list gmap.
From Stdlib Require Import ZArith Lia.
From S2P Require Import Prelude GoLib GoTime.

Open Scope Z_scope.

(** ** Errors

    An error of the client: its text, and the two kinds the code tells apart
    (apierrors.IsNotFound and IsConflict). *)
Record apierr := ApiErr { err_text : string; err_notfound : bool; err_conflict : bool }.

Definition plain_err (s : string) : apierr := ApiErr s false false.
(** [fmt.Errorf("...: %w", err)]: the kind is the wrapped error's. *)
Definition wrap_err (prefix : string) (e : apierr) : apierr :=
  ApiErr (prefix +:+ ": " +:+ err_text e) (err_notfound e) (err_conflict e).

(** client.IgnoreNotFound. *)
Definition ignore_not_found (e : option apierr) : option apierr :=
  match e with Some e => if err_notfound e then None else Some e | None => None end.

(** ** Nodes and pods *)

Abbreviation strmap := (gmap string string).

Record Node := mkNode {
  node_name : string;
  node_labels : strmap;
  node_annotations : strmap;
  node_unschedulable : bool;               (* spec.unschedulable *)
  node_conditions : list (string * string) (* status.conditions: type, status *)
}.

Definition set_annotations (n : Node) (a : strmap) : Node :=
  mkNode (node_name n) (node_labels n) a (node_unschedulable n) (node_conditions n).
Definition set_unschedulable (n : Node) (b : bool) : Node :=
  mkNode (node_name n) (node_labels n) (node_annotations n) b (node_conditions n).
Definition set_labels (n : Node) (l : strmap) : Node :=
  mkNode (node_name n) l (node_annotations n) (node_unschedulable n) (node_conditions n).

Record Pod := mkPod {
  pod_namespace : string;
  pod_name : string;
  pod_node : string;                  (* spec.nodeName *)
  pod_phase : string;                 (* status.phase *)
  pod_annotations : strmap;
  pod_owner_kinds : list string;      (* the kinds of metadata.ownerReferences *)
  pod_deleting : bool;                (* metadata.deletionTimestamp is set *)
  pod_start : option time             (* status.startTime *)
}.

(** ** NodeTuning *)

#[export] Instance time_eq : EqDecision time.
Proof. solve_decision. Defined.

(** The zero value of the Go string type is [PhaseNone]. *)
Inductive NodeTuningPhase :=
| PhaseNone | PhaseInSync | PhaseDrifted | PhaseRebootPending | PhaseApplying | PhaseFailed.

Inductive Realization :=
| RealizationNone | RealizationEffective | RealizationFullyRealized | RealizationPending.

#[export] Instance NodeTuningPhase_eq : EqDecision NodeTuningPhase.
Proof. solve_decision. Defined.
#[export] Instance Realization_eq : EqDecision Realization.
Proof. solve_decision. Defined.

Definition ApprovalAnnotation : string := "frame.plume-labs.io/tuning-approved".
Definition TuningRolloutStartedAnnotation : string := "frame.plume-labs.io/tuning-rollout-started".
Definition TuningRolloutOwnerAnnotation : string := "frame.plume-labs.io/tuning-rollout-owner".
Definition TuningRolloutFailedAnnotation : string := "frame.plume-labs.io/tuning-rollout-failed".
Definition TuningRestartBaselineAnnotation : string := "frame.plume-labs.io/tuning-restart-baseline".
Definition TuningRestartRequestedAnnotation : string := "frame.plume-labs.io/tuning-restart-requested".
Definition TuningUnitAnnotation : string := "frame.plume-labs.io/tuning-unit".
Definition TuningUnitActiveEnterAnnotation : string := "frame.plume-labs.io/tuning-unit-active-enter".

Record KSMSpec := mkKSMSpec {
  ksm_enabled : bool;
  ksm_pagesToScan : option Z;
  ksm_sleepMillisecs : option Z;
  ksm_mergeAcrossNodes : option bool
}.

Record ObservedKSM := mkObservedKSM {
  obs_memoryKSM : bool;
  obs_generalProfit : Z;
  obs_pagesSharing : Z
}.

Record ObservedTuning := mkObserved {
  obs_ksm : option ObservedKSM;
  obs_tunedProfile : string
}.
Definition zero_observed : ObservedTuning := mkObserved None "".

Record NodeTuningNodeStatus := mkNodeStatus {
  ns_name : string;
  ns_phase : NodeTuningPhase;
  ns_appliedGeneration : Z;
  ns_realization : Realization;
  ns_observed : ObservedTuning;
  ns_restartedAt : option time;
  ns_restartedGeneration : Z;
  ns_message : string
}.

#[export] Instance ObservedKSM_eq : EqDecision ObservedKSM.
Proof. solve_decision. Defined.
#[export] Instance ObservedTuning_eq : EqDecision ObservedTuning.
Proof. solve_decision. Defined.
#[export] Instance NodeTuningNodeStatus_eq : EqDecision NodeTuningNodeStatus.
Proof. solve_decision. Defined.

Definition set_phase (ns : NodeTuningNodeStatus) (p : NodeTuningPhase) (msg : string) : NodeTuningNodeStatus :=
  mkNodeStatus (ns_name ns) p (ns_appliedGeneration ns) (ns_realization ns) (ns_observed ns)
    (ns_restartedAt ns) (ns_restartedGeneration ns) msg.
Definition set_applied (ns : NodeTuningNodeStatus) (g : Z) : NodeTuningNodeStatus :=
  mkNodeStatus (ns_name ns) (ns_phase ns) g (ns_realization ns) (ns_observed ns)
    (ns_restartedAt ns) (ns_restartedGeneration ns) (ns_message ns).
Definition set_realization (ns : NodeTuningNodeStatus) (r : Realization) : NodeTuningNodeStatus :=
  mkNodeStatus (ns_name ns) (ns_phase ns) (ns_appliedGeneration ns) r (ns_observed ns)
    (ns_restartedAt ns) (ns_restartedGeneration ns) (ns_message ns).
Definition set_observed (ns : NodeTuningNodeStatus) (o : ObservedTuning) : NodeTuningNodeStatus :=
  mkNodeStatus (ns_name ns) (ns_phase ns) (ns_appliedGeneration ns) (ns_realization ns) o
    (ns_restartedAt ns) (ns_restartedGeneration ns) (ns_message ns).
Definition set_restarted (ns : NodeTuningNodeStatus) (t : time) (g : Z) : NodeTuningNodeStatus :=
  mkNodeStatus (ns_name ns) (ns_phase ns) (ns_appliedGeneration ns) (ns_realization ns) (ns_observed ns)
    (Some t) g (ns_message ns).
(** [NodeTuningNodeStatus{Name: name}]. *)
Definition fresh_node_status (name : string) : NodeTuningNodeStatus :=
  mkNodeStatus name PhaseNone 0 RealizationNone zero_observed None 0 "".

(** ** The label-selector library (k8s.io/apimachinery)

    [as_selector] is metav1.LabelSelectorAsSelector, [selector_matches] is
    Selector.Matches. *)
Class LabelSelectors := {
  LabelSelector : Type;
  Selector : Type;
  as_selector : LabelSelector -> result apierr Selector;
  selector_matches : Selector -> strmap -> bool
}.

Section Objects.
Context `{LabelSelectors}.

Record NodeTuningSpec := mkSpec {
  spec_nodeSelector : option LabelSelector;
  spec_tunedProfile : string;
  spec_ksm : option KSMSpec;
  spec_migProfile : string
}.

Record NodeTuning := mkNodeTuning {
  nt_name : string;
  nt_generation : Z;
  nt_deleting : bool;           (* metadata.deletionTimestamp is set *)
  nt_finalizers : list string;
  nt_resourceVersion : string;
  nt_spec : NodeTuningSpec;
  nt_observedGeneration : Z;    (* status *)
  nt_nodes : list NodeTuningNodeStatus
}.

Definition set_finalizers (nt : NodeTuning) (f : list string) : NodeTuning :=
  mkNodeTuning (nt_name nt) (nt_generation nt) (nt_deleting nt) f (nt_resourceVersion nt)
    (nt_spec nt) (nt_observedGeneration nt) (nt_nodes nt).
Definition set_status (nt : NodeTuning) (og : Z) (nodes : list NodeTuningNodeStatus) : NodeTuning :=
  mkNodeTuning (nt_name nt) (nt_generation nt) (nt_deleting nt) (nt_finalizers nt) (nt_resourceVersion nt)
    (nt_spec nt) og nodes.
End Objects.
