(* ===== verification/Cluster.v ===== *)
(** The API server as the node-tuning controller and agent see it: one method
    per client call ([Cluster]), and the documented behaviour the theorems
    rely on ([ClusterLaws]). Clients are proved against these classes;
    [FakeCluster.v] has the instance. *)
From stdpp Require Import base tactics strings list gmap.
From Stdlib Require Import ZArith Lia.
From S2P Require Import Prelude GoLib GoTime Kube.

Open Scope Z_scope.

(** A Kubernetes Event: type, reason, message. *)
Record Event := mkEvent { ev_type : string; ev_reason : string; ev_message : string }.

Definition EventTypeNormal : string := "Normal".
Definition EventTypeWarning : string := "Warning".

Section Cluster.
Context `{LabelSelectors}.

(** [patch_node base modified] is [r.Patch(ctx, modified, client.MergeFrom(base))]
    and returns the object the client refreshed from the answer. *)
Class Cluster (W : Type) := {
  clock : St W time;
  get_node : string -> St W (result apierr Node);
  list_nodes : St W (result apierr (list Node));
  list_pods_on : string -> St W (result apierr (list Pod));
  create_eviction : Pod -> St W (option apierr);
  patch_node : Node -> Node -> St W (result apierr Node);
  get_nt : string -> St W (result apierr NodeTuning);
  reader_get_nt : string -> St W (result apierr NodeTuning);
  list_nts : St W (result apierr (list NodeTuning));
  update_nt : NodeTuning -> St W (result apierr NodeTuning);
  patch_nt_status : NodeTuning -> NodeTuning -> St W (result apierr NodeTuning);
  record_event : Event -> St W unit;
  (** controllerutil's finalizer helpers. *)
  contains_finalizer : list string -> string -> bool;
  add_finalizer : list string -> string -> list string;
  remove_finalizer : list string -> string -> bool * list string;
  (** retry.RetryOnConflict with retry.DefaultBackoff. *)
  retry_on_conflict : forall A, St W (result apierr A) -> St W (result apierr A);
  backoff_sleep : St W unit
}.

#[global] Arguments retry_on_conflict {W _ A} _.
End Cluster.

(** ** What a merge patch does

    Only the keys that differ between the base and the modified object are in
    the patch: a key the modified object lacks is removed, one it changed or
    added is set, and every other key keeps the server's value. *)
Definition merge_key {A} `{EqDecision A} (base modified server : option A) : option A :=
  if decide (base = modified) then server else modified.

Definition merge_strmap (base modified server : strmap) : strmap :=
  merge (fun bm s => let '(b, m) := default (None, None) bm in merge_key b m s)
    (merge (fun b m => match b, m with None, None => None | _, _ => Some (b, m) end) base modified)
    server.

Lemma lookup_merge_strmap (base modified server : strmap) (k : string) :
  merge_strmap base modified server !! k = merge_key (base !! k) (modified !! k) (server !! k).
Proof.
  unfold merge_strmap. rewrite lookup_merge, lookup_merge. unfold diag_None, merge_key.
  destruct (base !! k), (modified !! k), (server !! k); simpl; reflexivity.
Qed.

Definition merge_node (base modified server : Node) : Node :=
  mkNode (node_name server)
    (merge_strmap (node_labels base) (node_labels modified) (node_labels server))
    (merge_strmap (node_annotations base) (node_annotations modified) (node_annotations server))
    (if decide (node_unschedulable base = node_unschedulable modified)
     then node_unschedulable server else node_unschedulable modified)
    (node_conditions server).

(** ** The controller's view of a node

    The rollout keys are the annotations only this controller (or a human
    releasing a halted rollout) writes. Between the controller's own writes
    everything else about a node may move: the agent publishes its two
    annotations, the kubelet reports conditions, nodes join. *)
Definition rollout_keys : list string :=
  [TuningRolloutStartedAnnotation; TuningRolloutOwnerAnnotation; TuningRolloutFailedAnnotation;
   TuningRestartBaselineAnnotation; TuningRestartRequestedAnnotation].


(** What the API server stores, and how many patches of rollout keys it applied
    although the caller was answered an error (a lost connection, a timeout). *)
Record Server := mkServer { stored : gmap string Node; lost : nat }.

Definition ctl_key (m : Server) (name key : string) : option string :=
  n ← stored m !! name; node_annotations n !! key.

Definition same_keys (m m' : Server) : Prop :=
  forall name key, key ∈ rollout_keys -> ctl_key m name key = ctl_key m' name key.
Definition drift (m m' : Server) : Prop := same_keys m m' /\ lost m = lost m'.

#[export] Instance drift_preorder : PreOrder drift.
Proof.
  split; [by split|]. intros m1 m2 m3 [H1 L1] [H2 L2]. split; [|congruence]. intros name key Hk. by rewrite H1, H2.
Qed.
#[export] Instance drift_symmetric : Symmetric drift.
Proof. intros m1 m2 [H L]. split; [|done]. intros name key Hk. by rewrite H. Qed.

Section Laws.
Context `{LabelSelectors}.

(** One attempt after another while the error is a conflict. *)
Fixpoint retry_steps {W} `{Cluster W} {A} (n : nat) (f : St W (result apierr A)) : St W (result apierr A) :=
  r ← f;
  match r, n with
  | inl e, S n => if err_conflict e then _ ← backoff_sleep; retry_steps n f else mret (inl e)
  | _, _ => mret r
  end.

(** The answer of a patch: a merge patch of one existing node. *)
Definition patched (base modified : Node) (m : Server) (n' : Node) (m1 : Server) : Prop :=
  exists n, stored m !! node_name base = Some n /\ n' = merge_node base modified n /\
    stored m1 = <[node_name base := n']> (stored m).

(** [srv_nodes w] is what the API server stores. A call other than a Node
    patch does not touch the rollout keys; a successful Node patch is a merge
    patch of one existing node. One that answers an error has either left the
    rollout keys alone or was applied all the same, and is then counted in
    [lost]. *)
Class ClusterLaws (W : Type) `{Cluster W} := {
  srv_nodes : W -> Server;
  srv_names w name n : stored (srv_nodes w) !! name = Some n -> node_name n = name /\ name <> "";
  clock_ok w : time_ok (clock w).1;
  clock_drift w : drift (srv_nodes w) (srv_nodes (clock w).2);
  list_nodes_spec w : match list_nodes w with
    | (inl _, w') => drift (srv_nodes w) (srv_nodes w')
    | (inr l, w') => exists m, drift (srv_nodes w) m /\ drift m (srv_nodes w') /\
        NoDup (map node_name l) /\ forall name n, stored m !! name = Some n <-> n ∈ l /\ node_name n = name
    end;
  get_node_spec name w : match get_node name w with
    | (inl _, w') => drift (srv_nodes w) (srv_nodes w')
    | (inr n, w') => exists m, drift (srv_nodes w) m /\ drift m (srv_nodes w') /\ stored m !! name = Some n
    end;
  list_pods_drift node w : drift (srv_nodes w) (srv_nodes (list_pods_on node w).2);
  eviction_drift p w : drift (srv_nodes w) (srv_nodes (create_eviction p w).2);
  patch_node_spec base modified w : node_name base = node_name modified ->
    match patch_node base modified w with
    | (inl _, w') => drift (srv_nodes w) (srv_nodes w') \/
        exists m n', drift (srv_nodes w) m /\ patched base modified m n' (srv_nodes w') /\
          ~ same_keys m (srv_nodes w') /\ lost (srv_nodes w') = S (lost m)
    | (inr n', w') => exists m, drift (srv_nodes w) m /\ patched base modified m n' (srv_nodes w') /\
        lost (srv_nodes w') = lost m
    end;
  get_nt_drift name w : drift (srv_nodes w) (srv_nodes (get_nt name w).2);
  reader_get_nt_drift name w : drift (srv_nodes w) (srv_nodes (reader_get_nt name w).2);
  list_nts_drift w : drift (srv_nodes w) (srv_nodes (list_nts w).2);
  update_nt_drift nt w : drift (srv_nodes w) (srv_nodes (update_nt nt w).2);
  patch_nt_status_drift b m w : drift (srv_nodes w) (srv_nodes (patch_nt_status b m w).2);
  event_drift e w : drift (srv_nodes w) (srv_nodes (record_event e w).2);
  backoff_drift w : drift (srv_nodes w) (srv_nodes (backoff_sleep w).2);
  retry_spec : exists n, forall A (f : St W (result apierr A)) w, retry_on_conflict f w = retry_steps n f w;
  finalizer_contains_spec fs f : contains_finalizer fs f = true <-> f ∈ fs;
  finalizer_add_spec fs f g : g ∈ add_finalizer fs f <-> g = f \/ g ∈ fs;
  finalizer_remove_spec fs f : (remove_finalizer fs f).1 = contains_finalizer fs f /\
    forall g, g ∈ (remove_finalizer fs f).2 <-> g <> f /\ g ∈ fs
}.

(** The NodeTuning store, for the two writers of status.nodes. A status patch
    that carries the base's resourceVersion succeeds only while the stored
    status is still the one the base was read from, and then the list the
    caller wrote replaces it (a merge patch replaces an array as a whole). *)
Class StatusLaws (W : Type) `{Cluster W} := {
  srv_nts : W -> gmap string NodeTuning;
  get_nt_name name w nt w' : get_nt name w = (inr nt, w') -> nt_name nt = name;
  reader_get_nt_name name w nt w' : reader_get_nt name w = (inr nt, w') -> nt_name nt = name;
  status_patch_spec base modified w nt' w' : nt_name base = nt_name modified ->
    patch_nt_status base modified w = (inr nt', w') ->
    exists m before, m !! nt_name base = Some before /\
      nt_resourceVersion before = nt_resourceVersion base /\ nt_nodes before = nt_nodes base /\
      srv_nts w' = <[nt_name base := nt']> m /\ nt_nodes nt' = nt_nodes modified
}.
End Laws.

#[export] Hint Resolve clock_drift list_pods_drift eviction_drift get_nt_drift reader_get_nt_drift
  list_nts_drift update_nt_drift patch_nt_status_drift event_drift backoff_drift : frame.

(** ** Rules for the operations *)

Section Rules.
Context `{LS : LabelSelectors} {W : Type} `{C : !Cluster W} `{CL : !ClusterLaws W}.

(** Reads and writes that cannot move a rollout key. *)
Lemma wp_drift {A} (m : St W A) w (Q : A -> W -> Prop) :
  drift (srv_nodes w) (srv_nodes (m w).2) ->
  (forall a w', drift (srv_nodes w) (srv_nodes w') -> Q a w') -> wp m w Q.
Proof. intros Hd HQ. apply wp_intro. by apply HQ. Qed.

Lemma wp_clock w (Q : time -> W -> Prop) :
  (forall now w', time_ok now -> drift (srv_nodes w) (srv_nodes w') -> Q now w') -> wp clock w Q.
Proof. intros HQ. apply wp_intro. apply HQ; [apply clock_ok | apply clock_drift]. Qed.

(** The local copy of a node agrees with the server on the rollout keys. *)
Definition in_sync (node : Node) (m : Server) : Prop :=
  forall key, key ∈ rollout_keys -> ctl_key m (node_name node) key = node_annotations node !! key.

(** Between [m] and [m'] no rollout key moved but those of [name], and
    the count of lost answers only grew. *)
Definition only_touches (name : string) (m m' : Server) : Prop :=
  (forall other key, key ∈ rollout_keys -> other <> name -> ctl_key m other key = ctl_key m' other key) /\
  (lost m <= lost m')%nat.

Lemma drift_only_touches name m m' : drift m m' -> only_touches name m m'.
Proof. intros [Hd HL]. split; [|lia]. intros other key Hk _. by apply Hd. Qed.

Lemma only_touches_trans name m1 m2 m3 :
  only_touches name m1 m2 -> only_touches name m2 m3 -> only_touches name m1 m3.
Proof. intros [H1 L1] [H2 L2]. split; [|lia]. intros other key Hk Ho. by rewrite H1, H2. Qed.

Lemma in_sync_drift node m m' : in_sync node m -> drift m m' -> in_sync node m'.
Proof. intros Hs [Hd _] key Hk. by rewrite <- Hd, Hs. Qed.

Lemma in_sync_other node name m m' :
  in_sync node m -> only_touches name m m' -> node_name node <> name -> in_sync node m'.
Proof. intros Hs [Ho _] Hne key Hk. by rewrite <- Ho, Hs. Qed.

Lemma patched_key base modified m n' m1 key : patched base modified m n' m1 -> key ∈ rollout_keys ->
  ctl_key m1 (node_name base) key =
  merge_key (node_annotations base !! key) (node_annotations modified !! key) (ctl_key m (node_name base) key).
Proof. intros (n & Hn & -> & Hm) Hk. unfold ctl_key. rewrite Hm, Hn, lookup_insert_eq. apply lookup_merge_strmap. Qed.
Lemma patched_other base modified m n' m1 name key : patched base modified m n' m1 -> name <> node_name base ->
  ctl_key m1 name key = ctl_key m name key.
Proof. intros (n & Hn & -> & Hm) Hne. unfold ctl_key. by rewrite Hm, lookup_insert_ne. Qed.

(** Applied, by an answer or without one. *)
Lemma patched_moves base modified m0 m n' m1 : node_name base = node_name modified ->
  drift m0 m -> in_sync base m0 -> patched base modified m n' m1 -> (lost m <= lost m1)%nat ->
  only_touches (node_name base) m0 m1 /\ in_sync modified m1.
Proof.
  intros Hname [Hd HL] Hsync Hp L1. split; [split|].
  - intros other key Hk Hne. rewrite (patched_other _ _ _ _ _ _ _ Hp Hne). by apply Hd.
  - by rewrite HL.
  - intros key Hk. rewrite <- Hname, (patched_key _ _ _ _ _ _ Hp Hk), <- Hd, Hsync by done.
    unfold merge_key. by case_decide.
Qed.

(** A patch of a node the caller read: a success leaves the server's rollout
    keys of that node as the caller made them; an error moved nothing, or did
    the same and its answer is lost. *)
Lemma wp_patch_node base modified w (Q : result apierr Node -> W -> Prop) :
  node_name base = node_name modified ->
  in_sync base (srv_nodes w) ->
  (forall e w', drift (srv_nodes w) (srv_nodes w') -> Q (inl e) w') ->
  (forall e w', only_touches (node_name base) (srv_nodes w) (srv_nodes w') ->
     in_sync modified (srv_nodes w') -> (lost (srv_nodes w) < lost (srv_nodes w'))%nat -> Q (inl e) w') ->
  (forall n' w', only_touches (node_name base) (srv_nodes w) (srv_nodes w') ->
     in_sync modified (srv_nodes w') ->
     (node_unschedulable base <> node_unschedulable modified ->
      exists n, stored (srv_nodes w') !! node_name base = Some n /\ node_unschedulable n = node_unschedulable modified) ->
     Q (inr n') w') ->
  wp (patch_node base modified) w Q.
Proof.
  intros Hname Hsync Herr Hlost Hok. apply wp_intro.
  pose proof (patch_node_spec base modified w Hname) as Hspec.
  destruct (patch_node base modified w) as [[e|n'] w'].
  - destruct Hspec as [Hd|(m & n' & Hd & Hp & _ & HL)]; [by apply Herr|].
    destruct (patched_moves _ _ _ _ _ _ Hname Hd Hsync Hp) as [Ho Hi]; [lia|]. apply Hlost; [done..|]. destruct Hd as [_ ->]. cbn. lia.
  - destruct Hspec as (m & Hd & Hp & HL). destruct (patched_moves _ _ _ _ _ _ Hname Hd Hsync Hp) as [Ho Hi]; [lia|].
    cbn [fst snd]. apply Hok; [done..|]. intros Hne. destruct Hp as (n & Hn & -> & Hw).
    exists (merge_node base modified n). rewrite Hw, lookup_insert_eq. split; [done|]. simpl. by case_decide.
Qed.
End Rules.

(** Steps through the interface operations that leave the rollout keys alone,
    and through sequencing. *)
Ltac wp_drift_step := eapply wp_drift; [solve [eauto with frame] | intros].
Ltac wp_steps := repeat first [apply wp_bind | apply wp_ret | apply wp_clock; intros | wp_drift_step].

(** Chains the drifts of the context. *)
Ltac drift_solve :=
  first [ eassumption | reflexivity
        | match goal with H : drift ?x _ |- drift ?x _ => etransitivity; [exact H|]; clear H; drift_solve end ].
(** Chains drifts and steps that touch one node only. *)
Ltac touches_solve :=
  first [ eassumption
        | apply drift_only_touches; drift_solve
        | match goal with
          | H : only_touches ?n ?x _ |- only_touches ?n ?x _ =>
              eapply only_touches_trans; [exact H|]; clear H; touches_solve
          | H : drift ?x _ |- only_touches ?n ?x _ =>
              eapply only_touches_trans; [apply drift_only_touches, H|]; clear H; touches_solve
          end ].
