(* ===== verification/FakeCluster.v ===== *)
(** An in-memory API server that satisfies [ClusterLaws]: the instance the
    concrete runs of the development use. Writes can be made to fail by a
    script of outcomes, consumed one per write; with [lost_answer] a node patch
    is applied and its answer lost. *)
From stdpp Require Import base tactics strings list gmap fin_maps.
From Stdlib Require Import ZArith Lia.
From S2P Require Import Prelude GoLib GoTime Kube Cluster.

Open Scope Z_scope.

(** Selectors that match one label; the empty key is invalid. *)
#[export] Instance fake_selectors : LabelSelectors := {|
  LabelSelector := string * string;
  Selector := string * string;
  as_selector s := if bool_decide (s.1 = "") then inl (plain_err "name part must be non-empty") else inr s;
  selector_matches s labels := bool_decide (labels !! s.1 = Some s.2)
|}.

Record World := mkWorld {
  w_nodes : gmap string Node;
  w_pods : list Pod;
  w_nts : gmap string NodeTuning;
  w_now : time;
  w_script : list (option apierr);   (* the outcomes of the next writes; [None] is success *)
  w_events : list Event;
  w_lost : nat
}.

Definition good_nodes (m : gmap string Node) : gmap string Node :=
  filter (fun kv => node_name kv.2 = kv.1 /\ kv.1 <> "") m.

Definition set_w_nodes (w : World) (m : gmap string Node) : World :=
  mkWorld m (w_pods w) (w_nts w) (w_now w) (w_script w) (w_events w) (w_lost w).
Definition set_w_nts (w : World) (m : gmap string NodeTuning) : World :=
  mkWorld (w_nodes w) (w_pods w) m (w_now w) (w_script w) (w_events w) (w_lost w).

Definition pop_script (w : World) : option apierr * World :=
  match w_script w with
  | [] => (None, w)
  | o :: s => (o, mkWorld (w_nodes w) (w_pods w) (w_nts w) (w_now w) s (w_events w) (w_lost w))
  end.

Definition not_found : apierr := ApiErr "not found" true false.

Definition lost_answer : apierr := ApiErr "connection reset by peer" false false.
Definition count_lost (w : World) : World :=
  mkWorld (w_nodes w) (w_pods w) (w_nts w) (w_now w) (w_script w) (w_events w) (S (w_lost w)).
Definition moves_keys (n n' : Node) : bool :=
  negb (forallb (fun k => bool_decide (node_annotations n !! k = node_annotations n' !! k)) rollout_keys).

Definition fake_patch_node (base modified : Node) : St World (result apierr Node) := fun w =>
  let '(o, w) := pop_script w in
  match good_nodes (w_nodes w) !! node_name base with
  | None => (inl (default not_found o), w)
  | Some n =>
    let n' := merge_node base modified n in
    let w' := set_w_nodes w (<[node_name base := n']> (w_nodes w)) in
    match o with
    | None => (inr n', w')
    | Some e => (inl e, if bool_decide (err_text e = err_text lost_answer) && moves_keys n n' then count_lost w' else w)
    end
  end.

Definition fake_write_nt (nt : NodeTuning) : St World (result apierr NodeTuning) := fun w =>
  let '(o, w) := pop_script w in
  match o with
  | Some e => (inl e, w)
  | None => match w_nts w !! nt_name nt with
            | None => (inl not_found, w)
            | Some _ => (inr nt, set_w_nts w (<[nt_name nt := nt]> (w_nts w)))
            end
  end.

Definition conflict : apierr := ApiErr "the object has been modified" false true.

(** A status patch with its resourceVersion precondition. *)
Definition fake_patch_status (base nt : NodeTuning) : St World (result apierr NodeTuning) := fun w =>
  match w_nts w !! nt_name base with
  | Some stored =>
    if decide (nt_resourceVersion stored = nt_resourceVersion base /\ nt_nodes stored = nt_nodes base)
    then fake_write_nt nt w else (inl conflict, w)
  | None => (inl not_found, w)
  end.

(** Names agree with keys in the store the calls see. *)
Definition fake_get_nt (name : string) : St World (result apierr NodeTuning) := fun w =>
  (match w_nts w !! name with
   | Some nt => if decide (nt_name nt = name) then inr nt else inl not_found
   | None => inl not_found
   end, w).

Fixpoint fake_retry {A} (n : nat) (f : St World (result apierr A)) : St World (result apierr A) :=
  r ← f;
  match r, n with
  | inl e, S n => if err_conflict e then fake_retry n f else mret (inl e)
  | _, _ => mret r
  end.

#[export] Instance fake_cluster : Cluster World := {|
  clock w := (if decide (time_ok (w_now w)) then w_now w else at_s 0, w);
  get_node name w := (match good_nodes (w_nodes w) !! name with Some n => inr n | None => inl not_found end, w);
  list_nodes w := (inr (map snd (map_to_list (good_nodes (w_nodes w)))), w);
  list_pods_on name w := (inr (List.filter (fun p => bool_decide (pod_node p = name)) (w_pods w)), w);
  create_eviction p w := (None, w);
  patch_node := fake_patch_node;
  get_nt := fake_get_nt;
  reader_get_nt := fake_get_nt;
  list_nts w := (inr (map snd (map_to_list (w_nts w))), w);
  update_nt := fake_write_nt;
  patch_nt_status := fake_patch_status;
  record_event e w := (tt, mkWorld (w_nodes w) (w_pods w) (w_nts w) (w_now w) (w_script w) (w_events w ++ [e]) (w_lost w));
  contains_finalizer fs f := bool_decide (f ∈ fs);
  add_finalizer fs f := if decide (f ∈ fs) then fs else fs ++ [f];
  remove_finalizer fs f := (bool_decide (f ∈ fs), List.filter (fun g => negb (bool_decide (g = f))) fs);
  retry_on_conflict A f := fake_retry 4 f;
  backoff_sleep w := (tt, w)
|}.

Definition fake_srv (w : World) : Server := mkServer (good_nodes (w_nodes w)) (w_lost w).

Lemma pop_script_srv w : fake_srv (pop_script w).2 = fake_srv w.
Proof. unfold pop_script. by destruct (w_script w). Qed.

Lemma good_lookup m name n :
  good_nodes m !! name = Some n <-> m !! name = Some n /\ node_name n = name /\ name <> "".
Proof. unfold good_nodes. rewrite map_lookup_filter_Some. done. Qed.

Lemma fake_write_nt_nodes nt w : fake_srv (fake_write_nt nt w).2 = fake_srv w.
Proof.
  unfold fake_write_nt. rewrite <- (pop_script_srv w). destruct (pop_script w) as [[e|] w']; [done|]. by case_match.
Qed.

Lemma fake_patch_status_nodes base nt w : fake_srv (fake_patch_status base nt w).2 = fake_srv w.
Proof.
  unfold fake_patch_status. destruct (w_nts w !! _); [|done]. case_decide; [|done]. apply fake_write_nt_nodes.
Qed.

Lemma good_names_nodup m : NoDup (map node_name (map snd (map_to_list (good_nodes m)))).
Proof.
  rewrite map_map. erewrite map_ext_in; [apply NoDup_fst_map_to_list|].
  intros [k n] Hin. apply list_elem_of_In, elem_of_map_to_list, good_lookup in Hin as (_ & Hn & _). done.
Qed.

Lemma fake_retry_steps {A} n (f : St World (result apierr A)) w : fake_retry n f w = retry_steps n f w.
Proof.
  revert w. induction n as [|n IH]; intros w; [done|]. cbn [fake_retry retry_steps].
  rewrite !St_bind_run. destruct (f w).1; [|done]. case_match; [|done].
  rewrite IH. done.
Qed.

#[export] Instance fake_laws : ClusterLaws World.
Proof.
  refine {| srv_nodes := fake_srv |}; try (intros; reflexivity); 
    try (intros; simpl; by rewrite ?fake_write_nt_nodes, ?fake_patch_status_nodes).
  - intros w name n Hn. by apply good_lookup in Hn as (_ & ? & ?).
  - intros w. simpl. case_decide; [done|]. apply (bool_decide_unpack _). by vm_compute.
  - intros w. simpl. exists (fake_srv w). split; [done|]. split; [done|]. split; [apply good_names_nodup|].
    intros name n. split.
    + intros Hn. split; [|by apply good_lookup in Hn as (_ & ? & _)].
      apply list_elem_of_In, in_map_iff. exists (name, n). split; [done|].
      by apply list_elem_of_In, elem_of_map_to_list.
    + intros [Hn <-]. apply list_elem_of_In, in_map_iff in Hn as ([k n'] & <- & Hn).
      apply list_elem_of_In, elem_of_map_to_list in Hn. simpl. pose proof Hn as Hn'.
      apply good_lookup in Hn' as (_ & -> & _). done.
  - intros name w. simpl. destruct (good_nodes (w_nodes w) !! name) as [n|] eqn:E; [|done].
    exists (fake_srv w). done.
  - intros base modified w Hname. cbn [patch_node fake_cluster]. unfold fake_patch_node. rewrite <- (pop_script_srv w).
    destruct (pop_script w) as [o w1]. cbn [snd].
    destruct (good_nodes (w_nodes w1) !! node_name base) as [n|] eqn:Hn; [|by left].
    assert (patched base modified (fake_srv w1) (merge_node base modified n)
      (fake_srv (set_w_nodes w1 (<[node_name base := merge_node base modified n]> (w_nodes w1))))) as Hp.
    { exists n. split; [done|]. split; [done|]. cbn. unfold good_nodes. rewrite map_filter_insert_True; [done|].
      apply good_lookup in Hn as (_ & ? & ?). done. }
    destruct o as [e|]; [|by exists (fake_srv w1)].
    case_match eqn:Hl; [right|by left]. apply andb_true_iff in Hl as [_ Hm]. exists (fake_srv w1), (merge_node base modified n).
    split; [done|]. split; [exact Hp|]. split; [|done]. intros Hk. apply negb_true_iff, not_true_iff_false in Hm. apply Hm, forallb_forall. intros k Hin%list_elem_of_In.
    apply bool_decide_eq_true. specialize (Hk (node_name base) k Hin). unfold ctl_key in Hk. destruct Hp as (n0 & _ & _ & Hs).
    change (stored (fake_srv (count_lost ?x))) with (stored (fake_srv x)) in Hk. rewrite Hs in Hk. cbn in Hk. by rewrite Hn, lookup_insert_eq in Hk.
  - exists 4%nat. intros A f w. apply fake_retry_steps.
  - intros fs f. apply bool_decide_eq_true.
  - intros fs f g. simpl. case_decide; [set_solver|]. rewrite elem_of_app, list_elem_of_singleton. tauto.
  - intros fs f. split; [done|]. intros g. simpl. rewrite !list_elem_of_In, filter_In, <- list_elem_of_In.
    rewrite negb_true_iff, bool_decide_eq_false. tauto.
Defined.

#[export] Instance fake_status_laws : StatusLaws World.
Proof.
  refine {| srv_nts := w_nts |}.
  - intros name w nt w' [= H <-]. repeat (case_match || case_decide); naive_solver.
  - intros name w nt w' [= H <-]. repeat (case_match || case_decide); naive_solver.
  - intros base modified w nt' w' Hn. simpl. unfold fake_patch_status, fake_write_nt.
    destruct (w_nts w !! nt_name base) as [b|] eqn:Eb; [|done]. case_decide as Hd; [|done].
    destruct (pop_script w) as [[e|] w1] eqn:Ep; [done|].
    assert (w_nts w1 = w_nts w) as H1.
    { unfold pop_script in Ep. destruct (w_script w); by simplify_eq. }
    rewrite H1, <- Hn, Eb. intros [= <- <-]. exists (w_nts w), b. simpl.
    repeat split; naive_solver.
Defined.
