(* ===== verification/Rollout.v ===== *)
(** The disruptive half of the NodeTuning lifecycle,
    internal/controller/frame/nodetuning_rollout.go: the campaign lock, and
    cordon, drain, restart request, verification and uncordon of one node. It
    opens with the restart allowlist of internal/agent/apply.go, which the
    controller and the agent share. *)
From stdpp Require Import base tactics strings list gmap.
From Stdlib Require Import ZArith Lia.
From S2P Require Import Prelude GoLib GoTime Kube Cluster.

Open Scope Z_scope.

(** ** The restart allowlist *)

Definition restartableUnits : gmap string bool :=
  {[ "k3s" := true; "k3s-agent" := true; "kubelet" := true; "containerd" := true ]}.

(** A Go map lookup gives the zero value for a missing key. *)
Definition IsRestartable (unit : string) : bool := default false (restartableUnits !! unit).

(** Exact names only: no prefix, suffix or path that contains one passes. *)
Lemma IsRestartable_iff (unit : string) :
  IsRestartable unit = true <-> unit ∈ ["k3s"; "k3s-agent"; "kubelet"; "containerd"].
Proof.
  unfold IsRestartable, restartableUnits. rewrite !lookup_insert, lookup_singleton.
  rewrite !elem_of_cons, elem_of_nil. repeat case_decide; naive_solver.
Qed.

(** ** The rollout *)

Definition defaultDrainTimeout : Z := 10 * minute.
Definition defaultRestartTimeout : Z := 5 * minute.
Definition rolloutRequeueInterval : Z := 10 * second.

(** The fields of NodeTuningReconciler that are not clients. *)
Record Reconciler := mkReconciler { DrainTimeout : Z; RestartTimeout : Z }.

Definition releaseHaltHint (nodeName : string) : string :=
  "release with `kubectl annotate node " +:+ nodeName +:+ " " +:+ TuningRolloutStartedAnnotation +:+ "-` to retry".

Definition drainTimeout (r : Reconciler) : Z :=
  if 0 <? DrainTimeout r then DrainTimeout r else defaultDrainTimeout.
Definition restartTimeout (r : Reconciler) : Z :=
  if 0 <? RestartTimeout r then RestartTimeout r else defaultRestartTimeout.

(** ** The campaign lock *)

Record campaignLock := mkLock { holder : string }.

Definition rolloutInFlight (node : Node) : bool :=
  bool_decide (is_Some (node_annotations node !! TuningRolloutStartedAnnotation)).

(** [node.Annotations[key]], the empty string when the key is missing. *)
Definition annotation (node : Node) (key : string) : string :=
  default "" (node_annotations node !! key).

Definition rolloutOwnedBy (node : Node) (ntName : string) : bool :=
  rolloutInFlight node && bool_decide (annotation node TuningRolloutOwnerAnnotation = ntName).

Definition rolloutHalted (node : Node) : bool :=
  bool_decide (is_Some (node_annotations node !! TuningRolloutFailedAnnotation)).

Fixpoint newCampaignLock (nodes : list Node) : campaignLock :=
  match nodes with
  | [] => mkLock ""
  | n :: nodes' => if rolloutInFlight n then mkLock (node_name n) else newCampaignLock nodes'
  end.

Definition heldByOther (l : campaignLock) (name : string) : string :=
  if bool_decide (holder l <> "") && bool_decide (holder l <> name) then holder l else "".
Definition acquire (l : campaignLock) (name : string) : campaignLock := mkLock name.
Definition release (l : campaignLock) (name : string) : campaignLock :=
  if bool_decide (holder l = name) then mkLock "" else l.

(** ** Reading nodes *)

Fixpoint ready_condition (cs : list (string * string)) : bool :=
  match cs with
  | [] => false
  | (ty, st) :: cs' => if bool_decide (ty = "Ready") then bool_decide (st = "True") else ready_condition cs'
  end.
Definition nodeIsReady (node : Node) : bool := ready_condition (node_conditions node).

Definition notReadyNodes (nodes : list Node) : list string :=
  sort_strings (map node_name (List.filter (fun n => negb (nodeIsReady n)) nodes)).

Definition annotationTime (node : Node) (key : string) : result string time :=
  match node_annotations node !! key with
  | None => inl ("node " +:+ node_name node +:+ " has no " +:+ key +:+ " annotation")
  | Some raw =>
    match parse_nano raw with
    | Some t => inr t
    | None => inl ("node " +:+ node_name node +:+ ": " +:+ key +:+ "=" +:+ quote raw +:+
                   " is not an RFC3339 timestamp")
    end
  end.

Definition restartedForGeneration (ns : NodeTuningNodeStatus) (generation : Z) : bool :=
  bool_decide (is_Some (ns_restartedAt ns)) && (ns_restartedGeneration ns =? generation).

(** ** Writing nodes *)

Definition setNodeAnnotation (node : Node) (key value : string) : Node :=
  set_annotations node (<[key := value]> (node_annotations node)).
Definition deleteAnnotation (node : Node) (key : string) : Node :=
  set_annotations node (delete key (node_annotations node)).

Definition clearRolloutAnnotations (node : Node) : Node :=
  foldl deleteAnnotation node
    [TuningRolloutStartedAnnotation; TuningRolloutOwnerAnnotation; TuningRolloutFailedAnnotation;
     TuningRestartBaselineAnnotation; TuningRestartRequestedAnnotation].

(** The two node mutations built from these, named because both the rollout
    and its deletion path patch with them. *)
Definition uncordoned (n : Node) : Node := clearRolloutAnnotations (set_unschedulable n false).

Definition cordoned (ntName : string) (now : time) (n : Node) : Node :=
  let n := set_unschedulable n true in
  let n := setNodeAnnotation n TuningRolloutStartedAnnotation (format_nano now) in
  let n := setNodeAnnotation n TuningRolloutOwnerAnnotation ntName in
  let n := deleteAnnotation n TuningRestartRequestedAnnotation in
  let n := deleteAnnotation n TuningRestartBaselineAnnotation in
  deleteAnnotation n TuningRolloutFailedAnnotation.

(** ** Draining *)

Definition PodSucceeded : string := "Succeeded".
Definition PodFailed : string := "Failed".
Definition MirrorPodAnnotationKey : string := "kubernetes.io/config.mirror".

Definition blocksDrain (pod : Pod) : bool :=
  if bool_decide (pod_phase pod = PodSucceeded) || bool_decide (pod_phase pod = PodFailed) then false
  else if bool_decide (is_Some (pod_annotations pod !! MirrorPodAnnotationKey)) then false
  else negb (existsb (fun k => bool_decide (k = "DaemonSet")) (pod_owner_kinds pod)).

Section Rollout.
Context `{LabelSelectors} {W : Type} `{!Cluster W}.
Context (r : Reconciler).

Definition patchNode (node : Node) (mutate : Node -> Node) : St W (result apierr Node) :=
  patch_node node (mutate node).

Definition releaseNode (node : Node) : St W (result apierr Node) := patchNode node uncordoned.

(** The loop of evictPods over the pods of the node: an eviction is
    requested for each pod that blocks the drain and is not already going;
    a refused eviction is not an error. *)
Fixpoint evict_loop (pods : list Pod) (remaining : Z) : St W Z :=
  match pods with
  | [] => mret remaining
  | pod :: pods' =>
    if negb (blocksDrain pod) then evict_loop pods' remaining
    else if pod_deleting pod then evict_loop pods' (remaining + 1)
    else _ ← create_eviction pod; evict_loop pods' (remaining + 1)
  end.

Definition evictPods (nodeName : string) : St W (result apierr Z) :=
  res ← list_pods_on nodeName;
  match res with
  | inl err => mret (inl (wrap_err ("listing pods on " +:+ nodeName) err))
  | inr pods => n ← evict_loop pods 0; mret (inr n)
  end.

Definition failRollout (node : Node) (ns : NodeTuningNodeStatus) (msg : string) : St W NodeTuningNodeStatus :=
  now ← clock;
  _ ← patchNode node (fun n => setNodeAnnotation n TuningRolloutFailedAnnotation (format_nano now));
  _ ← record_event (mkEvent EventTypeWarning "RestartFailed" (node_name node +:+ ": " +:+ msg));
  mret (set_phase ns PhaseFailed msg).

Definition drainAndRequest (node : Node) (ns : NodeTuningNodeStatus) (unit : string) :
    St W NodeTuningNodeStatus :=
  res ← evictPods (node_name node);
  match res with
  | inl err => mret (set_phase ns PhaseApplying ("draining " +:+ node_name node +:+ ": " +:+ err_text err))
  | inr remaining =>
    if 0 <? remaining then
      let waiting := mret (set_phase ns PhaseApplying
        ("draining: " +:+ itoa remaining +:+ " pod(s) still on " +:+ node_name node)) in
      match annotationTime node TuningRolloutStartedAnnotation with
      | inl _ => waiting
      | inr started =>
        now ← clock;
        if drainTimeout r <? sub now started then
          failRollout node ns
            ("draining " +:+ node_name node +:+ " did not finish within " +:+ duration_string (drainTimeout r) +:+
             " (" +:+ itoa remaining +:+ " pod(s) still there); leaving it cordoned and halting the rollout (" +:+
             releaseHaltHint (node_name node) +:+ ")")
        else waiting
      end
    else
      match annotationTime node TuningUnitActiveEnterAnnotation with
      | inl err => mret (set_phase ns PhaseApplying
          ("drained; waiting for a verifiable baseline before requesting the restart: " +:+ err))
      | inr baseline =>
        now ← clock;
        res ← patchNode node (fun n =>
          setNodeAnnotation (setNodeAnnotation n TuningRestartBaselineAnnotation (format_nano baseline))
            TuningRestartRequestedAnnotation (format_nano now));
        match res with
        | inl err => mret (set_phase ns PhaseApplying
            ("requesting restart on " +:+ node_name node +:+ ": " +:+ err_text err))
        | inr _ =>
          _ ← record_event (mkEvent EventTypeNormal "RestartRequested"
                ("Asked the node agent on " +:+ node_name node +:+ " to schedule a detached restart of " +:+
                 unit +:+ ".service"));
          mret (set_phase ns PhaseApplying ("drained; restart of " +:+ unit +:+ ".service requested"))
        end
      end
  end.

(** Drives a node that is already cordoned. The lock is threaded: only the
    branch that uncordoned the node releases it. *)
Definition continueRollout (nt : NodeTuning) (node : Node) (ns : NodeTuningNodeStatus) (lock : campaignLock) :
    St W (NodeTuningNodeStatus * campaignLock) :=
  let unit := annotation node TuningUnitAnnotation in
  match annotationTime node TuningRestartRequestedAnnotation with
  | inl _ => ns ← drainAndRequest node ns unit; mret (ns, lock)
  | inr requested =>
    let baseline := annotationTime node TuningRestartBaselineAnnotation in
    let current := annotationTime node TuningUnitActiveEnterAnnotation in
    let wait_or_fail :=
      now ← clock;
      if restartTimeout r <? sub now requested then
        let detail := match current with
                      | inl err => err
                      | inr _ => "its ActiveEnterTimestamp has not advanced"
                      end in
        ns ← failRollout node ns
          (unit +:+ ".service on " +:+ node_name node +:+ " did not come back within " +:+
           duration_string (restartTimeout r) +:+ " of the restart request: " +:+ detail +:+
           "; leaving it cordoned and halting the rollout (" +:+ releaseHaltHint (node_name node) +:+ ")");
        mret (ns, lock)
      else
        let msg := match current, baseline with
          | inl err, _ => "waiting for " +:+ unit +:+ ".service to restart (no readable timestamp yet: " +:+ err +:+ ")"
          | _, inl err => "waiting for " +:+ unit +:+ ".service to restart (no readable baseline yet: " +:+ err +:+ ")"
          | inr cur, _ => "waiting for " +:+ unit +:+ ".service to restart (still at " +:+ format_rfc3339 cur +:+ ")"
          end in
        mret (set_phase ns PhaseApplying msg, lock) in
    match baseline, current with
    | inr base, inr cur =>
      if after cur base then
        if negb (nodeIsReady node) then
          now ← clock;
          if restartTimeout r <? sub now requested then
            ns ← failRollout node ns
              (unit +:+ ".service restarted at " +:+ format_rfc3339 cur +:+ " but " +:+ node_name node +:+
               " never reported Ready within " +:+ duration_string (restartTimeout r) +:+
               "; leaving it cordoned (" +:+ releaseHaltHint (node_name node) +:+ ")");
            mret (ns, lock)
          else
            mret (set_phase ns PhaseApplying
              (unit +:+ ".service restarted at " +:+ format_rfc3339 cur +:+ "; waiting for " +:+ node_name node +:+
               " to report Ready before uncordoning"), lock)
        else
          res ← patchNode node uncordoned;
          match res with
          | inl err =>
            mret (set_phase ns PhaseApplying ("uncordoning " +:+ node_name node +:+ ": " +:+ err_text err), lock)
          | inr _ =>
            let lock := release lock (node_name node) in
            _ ← record_event (mkEvent EventTypeNormal "RestartVerified"
                  (unit +:+ ".service on " +:+ node_name node +:+ " restarted at " +:+ format_rfc3339 cur +:+
                   "; node uncordoned"));
            let ns := set_applied (set_restarted ns cur (nt_generation nt)) (nt_generation nt) in
            mret (set_phase ns PhaseApplying
              (unit +:+ ".service restarted at " +:+ format_rfc3339 cur +:+
               "; uncordoned, waiting for the agent to re-observe"), lock)
          end
      else wait_or_fail
    | _, _ => wait_or_fail
    end
  end.

Definition nodeTuningFinalizer : string := "frame.plume-labs.io/nodetuning-rollout".

(** Returns the NodeTuning as the caller holds it afterwards: the finalizer
    is added to the local object first, and stays there if the Update
    fails. *)
Definition ensureFinalizer (nt : NodeTuning) : St W (NodeTuning * option apierr) :=
  if contains_finalizer (nt_finalizers nt) nodeTuningFinalizer then mret (nt, None)
  else
    let nt := set_finalizers nt (add_finalizer (nt_finalizers nt) nodeTuningFinalizer) in
    res ← update_nt nt;
    match res with
    | inl err => mret (nt, Some err)
    | inr nt' => mret (nt', None)
    end.

Definition startRollout (nt : NodeTuning) (node : Node) (ns : NodeTuningNodeStatus) (reason : string)
    (allNodes : list Node) (lock : campaignLock) : St W (NodeTuningNodeStatus * campaignLock * NodeTuning) :=
  let other := heldByOther lock (node_name node) in
  if bool_decide (other <> "") then
    mret (set_phase ns PhaseRebootPending
      ("waiting: node " +:+ other +:+ " is mid-rollout or left cordoned by a failed one (one node at a time; a failed node halts the campaign until "
       +:+ TuningRolloutStartedAnnotation +:+ " is cleared from it)"), lock, nt)
  else
  let notReady := notReadyNodes allNodes in
  if bool_decide (notReady <> []) then
    mret (set_phase ns PhaseRebootPending
      ("refusing to start: node(s) " +:+ join ", " notReady +:+
       " are not Ready; taking a second node down is an outage, not a rolling restart"), lock, nt)
  else
  let unit := annotation node TuningUnitAnnotation in
  if bool_decide (unit = "") then
    mret (set_phase ns PhaseRebootPending
      ("waiting for the node agent to report " +:+ TuningUnitAnnotation), lock, nt)
  else if negb (IsRestartable unit) then
    mret (set_phase ns PhaseFailed
      ("refusing to restart unit " +:+ quote unit +:+ " on " +:+ node_name node +:+
       ": not on the compile-time restart allowlist"), lock, nt)
  else
  match annotationTime node TuningUnitActiveEnterAnnotation with
  | inl err => mret (set_phase ns PhaseRebootPending ("waiting for a verifiable baseline: " +:+ err), lock, nt)
  | inr _ =>
    '(nt, ferr) ← ensureFinalizer nt;
    match ferr with
    | Some err => mret (set_phase ns PhaseRebootPending
        ("preparing to cordon " +:+ node_name node +:+ ": " +:+ err_text err), lock, nt)
    | None =>
      now ← clock;
      res ← patchNode node (cordoned (nt_name nt) now);
      match res with
      | inl err => mret (set_phase ns PhaseRebootPending
          ("cordoning " +:+ node_name node +:+ ": " +:+ err_text err), lock, nt)
      | inr _ =>
        let lock := acquire lock (node_name node) in
        _ ← record_event (mkEvent EventTypeNormal "NodeCordoned"
              ("Cordoned " +:+ node_name node +:+ " to restart " +:+ unit +:+ ".service: " +:+ reason));
        mret (set_phase ns PhaseApplying
          ("cordoned; draining before restarting " +:+ unit +:+ ".service (" +:+ reason +:+ ")"), lock, nt)
      end
    end
  end.
End Rollout.
