(* ===== verification/RolloutSafety.v ===== *)
(** What the rollout of one node may do to the cluster, proved against the
    API-server interface: every branch of continueRollout and startRollout as
    a transition of the node's rollout state, the evidence each transition
    needs, and the campaign lock. *)
From stdpp Require Import base tactics strings list gmap.
From Stdlib Require Import ZArith Lia.
From S2P Require Import Prelude GoLib GoTime Kube Cluster Rollout.

Open Scope Z_scope.

(** ** The abstract machine

    A node's rollout state, read off the annotations on the server. *)
Inductive rstate := Idle | Draining | Waiting | Halted.

#[export] Instance rstate_eq : EqDecision rstate.
Proof. solve_decision. Defined.

Definition rstate_of (started failed requested : option string) : rstate :=
  match started with
  | None => Idle
  | Some _ => match failed with
              | Some _ => Halted
              | None => match requested ≫= parse_nano with
                        | Some _ => Waiting
                        | None => Draining
                        end
              end
  end.

Definition node_rstate (m : Server) (name : string) : rstate :=
  rstate_of (ctl_key m name TuningRolloutStartedAnnotation)
            (ctl_key m name TuningRolloutFailedAnnotation)
            (ctl_key m name TuningRestartRequestedAnnotation).

(** The moves one reconcile pass may make; staying is always allowed. *)
Inductive rstep : rstate -> rstate -> Prop :=
| rs_stay s : rstep s s
| rs_cordon : rstep Idle Draining       (* startRollout *)
| rs_request : rstep Draining Waiting   (* drained, restart requested *)
| rs_verified : rstep Waiting Idle      (* restart verified, uncordoned *)
| rs_fail_drain : rstep Draining Halted
| rs_fail_wait : rstep Waiting Halted.

Definition in_flight (m : Server) (name : string) : Prop :=
  is_Some (ctl_key m name TuningRolloutStartedAnnotation).

Lemma in_flight_rstate m name : in_flight m name <-> node_rstate m name <> Idle.
Proof.
  unfold in_flight, node_rstate, rstate_of. destruct (ctl_key m name _); split.
  - intros _. repeat case_match; done.
  - eauto.
  - by intros [].
  - done.
Qed.

Lemma started_key : TuningRolloutStartedAnnotation ∈ rollout_keys.
Proof. by apply (bool_decide_unpack _); vm_compute. Qed.
Lemma owner_key : TuningRolloutOwnerAnnotation ∈ rollout_keys.
Proof. by apply (bool_decide_unpack _); vm_compute. Qed.
Lemma failed_key : TuningRolloutFailedAnnotation ∈ rollout_keys.
Proof. by apply (bool_decide_unpack _); vm_compute. Qed.
Lemma baseline_key : TuningRestartBaselineAnnotation ∈ rollout_keys.
Proof. by apply (bool_decide_unpack _); vm_compute. Qed.
Lemma requested_key : TuningRestartRequestedAnnotation ∈ rollout_keys.
Proof. by apply (bool_decide_unpack _); vm_compute. Qed.
#[export] Hint Resolve started_key owner_key failed_key baseline_key requested_key : frame.

Lemma drift_in_flight m m' name : drift m m' -> in_flight m name <-> in_flight m' name.
Proof. intros [Hd _]. unfold in_flight. by rewrite (Hd name _ started_key). Qed.

Lemma drift_rstate m m' name : drift m m' -> node_rstate m name = node_rstate m' name.
Proof.
  intros [Hd _]. unfold node_rstate.
  by rewrite (Hd name _ started_key), (Hd name _ failed_key), (Hd name _ requested_key).
Qed.

Lemma only_touches_rstate name m m' other :
  only_touches name m m' -> other <> name -> node_rstate m other = node_rstate m' other.
Proof.
  intros [Ho _] Hne. unfold node_rstate.
  by rewrite (Ho _ _ started_key Hne), (Ho _ _ failed_key Hne), (Ho _ _ requested_key Hne).
Qed.

Lemma in_sync_rstate node m :
  in_sync node m ->
  node_rstate m (node_name node) =
  rstate_of (node_annotations node !! TuningRolloutStartedAnnotation)
            (node_annotations node !! TuningRolloutFailedAnnotation)
            (node_annotations node !! TuningRestartRequestedAnnotation).
Proof.
  intros Hs. unfold node_rstate.
  by rewrite (Hs _ started_key), (Hs _ failed_key), (Hs _ requested_key).
Qed.

Lemma annotationTime_inr node key t :
  annotationTime node key = inr t -> node_annotations node !! key ≫= parse_nano = Some t.
Proof.
  unfold annotationTime. destruct (node_annotations node !! key) as [raw|]; [|done]. simpl.
  destruct (parse_nano raw); naive_solver.
Qed.

Lemma annotationTime_inl node key e :
  annotationTime node key = inl e -> node_annotations node !! key ≫= parse_nano = None.
Proof.
  unfold annotationTime. destruct (node_annotations node !! key) as [raw|]; [|done]. simpl.
  destruct (parse_nano raw); naive_solver.
Qed.

(** ** Node mutations *)

Lemma uncordoned_keys node key :
  key ∈ rollout_keys -> node_annotations (uncordoned node) !! key = None.
Proof.
  unfold rollout_keys. rewrite !elem_of_cons, elem_of_nil.
  unfold uncordoned, clearRolloutAnnotations. simpl.
  intros H. rewrite !lookup_delete. destruct_or!; subst; repeat case_decide; try done.
Qed.

Lemma uncordoned_unschedulable node : node_unschedulable (uncordoned node) = false.
Proof. done. Qed.

(** Reading the rollout keys of a mutated copy. *)
Ltac ann_simpl :=
  cbn [node_annotations set_annotations set_unschedulable setNodeAnnotation deleteAnnotation cordoned];
  rewrite ?lookup_insert, ?lookup_delete, ?lookup_insert, ?lookup_delete;
  repeat case_decide; try done.

Definition blocking (pods : list Pod) : Z := Z.of_nat (length (List.filter blocksDrain pods)).

Lemma blocking_zero (pods : list Pod) : blocking pods = 0 -> Forall (fun p => blocksDrain p = false) pods.
Proof.
  unfold blocking. intros H. induction pods as [|p pods IH]; [constructor|]. simpl in H.
  destruct (blocksDrain p) eqn:E; simpl in H; [lia|]. constructor; auto.
Qed.

Lemma notReadyNodes_nil (nodes : list Node) :
  notReadyNodes nodes = [] -> Forall (fun n => nodeIsReady n = true) nodes.
Proof.
  unfold notReadyNodes, sort_strings. intros H.
  assert (Hl : length (List.filter (fun n => negb (nodeIsReady n)) nodes) = 0%nat).
  { rewrite <- (length_map node_name), <- (sort_by_length str_leb), H. done. }
  clear H. induction nodes as [|n nodes IH]; [constructor|]. simpl in Hl.
  destruct (nodeIsReady n) eqn:E; simpl in Hl; [|done]. constructor; auto.
Qed.

(** The restart record of a status entry, which only a verified restart may
    change. *)
Definition same_restart (a b : NodeTuningNodeStatus) : Prop :=
  ns_restartedAt a = ns_restartedAt b /\ ns_restartedGeneration a = ns_restartedGeneration b.

Section Handlers.
Context `{LS : LabelSelectors} {W : Type} `{C : !Cluster W} `{CL : !ClusterLaws W}.
Context (r : Reconciler).

Lemma evict_loop_spec pods n w :
  wp (evict_loop pods n) w (fun k w' => drift (srv_nodes w) (srv_nodes w') /\ k = n + blocking pods).
Proof.
  unfold blocking. revert n w. induction pods as [|p pods IH]; intros n w; simpl.
  - apply wp_ret. split; [done|lia].
  - destruct (blocksDrain p); simpl; [|apply IH].
    destruct (pod_deleting p).
    + eapply wp_mono; [apply IH|]. simpl. intros k w' [Hd ->]. split; [done|lia].
    + wp_steps. eapply wp_mono; [apply IH|]. simpl. intros k w'' [Hd ->]. split; [drift_solve|lia].
Qed.

Lemma evictPods_spec name w :
  wp (evictPods name) w (fun res w' => drift (srv_nodes w) (srv_nodes w') /\
    forall k, res = inr k -> exists pods w1, list_pods_on name w = (inr pods, w1) /\ k = blocking pods).
Proof.
  unfold evictPods. apply wp_bind, wp_intro.
  pose proof (list_pods_drift name w) as Hd.
  destruct (list_pods_on name w) as [[e|pods] w1]; cbn [fst snd] in *.
  - apply wp_ret. by split.
  - apply wp_bind. eapply wp_mono; [apply evict_loop_spec|]. intros k w2 [Hd2 ->].
    apply wp_ret. split; [drift_solve|]. intros k [= <-]. exists pods, w1. split; [done|lia].
Qed.

(** A failure marks the node and leaves its other rollout keys alone; if
    the mark cannot be written, nothing moved. *)
Lemma failRollout_spec node ns msg w :
  in_sync node (srv_nodes w) ->
  wp (failRollout node ns msg) w (fun ns' w' =>
    ns_phase ns' = PhaseFailed /\ same_restart ns ns' /\
    (drift (srv_nodes w) (srv_nodes w') \/
     exists now, only_touches (node_name node) (srv_nodes w) (srv_nodes w') /\
       in_sync (setNodeAnnotation node TuningRolloutFailedAnnotation (format_nano now)) (srv_nodes w'))).
Proof.
  intros Hs. unfold failRollout. wp_steps. unfold patchNode.
  apply wp_patch_node; [done | by eapply in_sync_drift | | |].
  - intros e w1 Hd. wp_steps. split; [done|]. split; [by split|]. left. drift_solve.
  - intros e w1 Ho Hi _. wp_steps. split; [done|]. split; [by split|]. right.
    exists now. split; [touches_solve | by eapply in_sync_drift].
  - intros n' w1 Ho Hi _. wp_steps. split; [done|]. split; [by split|]. right.
    exists now. split; [touches_solve | by eapply in_sync_drift].
Qed.

(** The outcomes of continueRollout on [node], from server state [m] to
    [m']. *)
Inductive continued (nt : NodeTuning) (node : Node) (ns : NodeTuningNodeStatus) (lock : campaignLock)
    (w : W) (m' : Server) (ns' : NodeTuningNodeStatus) (lock' : campaignLock) : Prop :=
| C_stay :
    drift (srv_nodes w) m' -> lock' = lock -> same_restart ns ns' ->
    ns_phase ns' = PhaseApplying \/ ns_phase ns' = PhaseFailed ->
    continued nt node ns lock w m' ns' lock'
| C_failed now :
    only_touches (node_name node) (srv_nodes w) m' ->
    in_sync (setNodeAnnotation node TuningRolloutFailedAnnotation (format_nano now)) m' ->
    lock' = lock -> same_restart ns ns' -> ns_phase ns' = PhaseFailed ->
    continued nt node ns lock w m' ns' lock'
| C_requested baseline now pods w1 :
    annotationTime node TuningUnitActiveEnterAnnotation = inr baseline ->
    list_pods_on (node_name node) w = (inr pods, w1) -> blocking pods = 0 ->
    (forall t, annotationTime node TuningRestartRequestedAnnotation <> inr t) ->
    time_ok now -> only_touches (node_name node) (srv_nodes w) m' ->
    in_sync (setNodeAnnotation (setNodeAnnotation node TuningRestartBaselineAnnotation (format_nano baseline))
               TuningRestartRequestedAnnotation (format_nano now)) m' ->
    lock' = lock -> same_restart ns ns' -> ns_phase ns' = PhaseApplying ->
    continued nt node ns lock w m' ns' lock'
| C_verified requested baseline current :
    annotationTime node TuningRestartRequestedAnnotation = inr requested ->
    annotationTime node TuningRestartBaselineAnnotation = inr baseline ->
    annotationTime node TuningUnitActiveEnterAnnotation = inr current ->
    after current baseline = true -> nodeIsReady node = true ->
    only_touches (node_name node) (srv_nodes w) m' -> in_sync (uncordoned node) m' ->
    lock' = release lock (node_name node) ->
    ns_restartedAt ns' = Some current -> ns_restartedGeneration ns' = nt_generation nt ->
    ns_appliedGeneration ns' = nt_generation nt -> ns_phase ns' = PhaseApplying ->
    continued nt node ns lock w m' ns' lock'
| C_verified_lost requested baseline current :
    annotationTime node TuningRestartRequestedAnnotation = inr requested ->
    annotationTime node TuningRestartBaselineAnnotation = inr baseline ->
    annotationTime node TuningUnitActiveEnterAnnotation = inr current ->
    after current baseline = true -> nodeIsReady node = true ->
    only_touches (node_name node) (srv_nodes w) m' -> in_sync (uncordoned node) m' ->
    lock' = lock -> same_restart ns ns' -> ns_phase ns' = PhaseApplying ->
    continued nt node ns lock w m' ns' lock'.

Lemma failRollout_continued nt node ns lock msg w w0 :
  in_sync node (srv_nodes w0) -> drift (srv_nodes w0) (srv_nodes w) ->
  wp (failRollout node ns msg) w (fun ns' w' => continued nt node ns lock w0 (srv_nodes w') ns' lock).
Proof.
  intros Hs Hd. eapply wp_mono; [apply failRollout_spec; by eapply in_sync_drift|].
  intros ns' w' (Hp & Hr & [Hd'|(now & Ho & Hi)]).
  - apply C_stay; [drift_solve | done | done | by right].
  - eapply C_failed; eauto. touches_solve.
Qed.

Lemma drainAndRequest_spec nt node ns lock unit w :
  in_sync node (srv_nodes w) ->
  (forall t, annotationTime node TuningRestartRequestedAnnotation <> inr t) ->
  wp (drainAndRequest r node ns unit) w (fun ns' w' => continued nt node ns lock w (srv_nodes w') ns' lock).
Proof.
  intros Hs Hreq. unfold drainAndRequest. apply wp_bind.
  eapply wp_mono; [apply evictPods_spec|]. intros [e|k] w1 [Hd Hk].
  { apply wp_ret, C_stay; auto; by split. }
  destruct (Hk k eq_refl) as (pods & w2 & Hpods & ->). destruct (0 <? blocking pods) eqn:Hb.
  - destruct (annotationTime node TuningRolloutStartedAnnotation) as [e|started].
    { apply wp_ret, C_stay; auto; by split. }
    wp_steps. case_match.
    + apply failRollout_continued; [done | drift_solve].
    + apply wp_ret, C_stay; auto; [drift_solve | by split].
  - destruct (annotationTime node TuningUnitActiveEnterAnnotation) as [e|baseline] eqn:Hbase.
    { apply wp_ret, C_stay; auto; by split. }
    assert (blocking pods = 0) as Hz by (bool_to_prop; unfold blocking in *; lia).
    wp_steps. unfold patchNode. apply wp_patch_node; [done | | | |].
    + eapply in_sync_drift; [done | drift_solve].
    + intros e w3 Hd3. apply wp_ret, C_stay; auto; [drift_solve | by split].
    + intros e w3 Ho Hi _. apply wp_ret. eapply C_requested; eauto; [touches_solve | by split].
    + intros n' w3 Ho Hi _. wp_steps. eapply C_requested; eauto; [touches_solve | by eapply in_sync_drift | by split].
Qed.

Lemma continueRollout_spec nt node ns lock w :
  in_sync node (srv_nodes w) ->
  wp (continueRollout r nt node ns lock) w (fun res w' =>
    continued nt node ns lock w (srv_nodes w') res.1 res.2).
Proof.
  intros Hs. unfold continueRollout.
  destruct (annotationTime node TuningRestartRequestedAnnotation) as [e|requested] eqn:Hreq.
  { apply wp_bind. eapply wp_mono; [apply (drainAndRequest_spec nt node ns lock); [done|congruence]|].
    intros ns' w' Hc. by apply wp_ret. }
  match goal with |- context [match _ with inl _ => ?m | inr _ => _ end] => set (wait_or_fail := m) end.
  assert (Hwait : wp wait_or_fail w (fun res w' => continued nt node ns lock w (srv_nodes w') res.1 res.2)).
  { subst wait_or_fail. wp_steps. case_match.
    - apply wp_bind. eapply wp_mono; [apply (failRollout_continued nt node ns lock _ _ w); [done | drift_solve]|].
      intros ns' w2 Hc. by apply wp_ret.
    - apply wp_ret, C_stay; auto. by split. }
  destruct (annotationTime node TuningRestartBaselineAnnotation) as [e|baseline] eqn:Hbase; [exact Hwait|].
  destruct (annotationTime node TuningUnitActiveEnterAnnotation) as [e|current] eqn:Hcur; [exact Hwait|].
  destruct (after current baseline) eqn:Haft; [|exact Hwait]. clear Hwait wait_or_fail.
  destruct (nodeIsReady node) eqn:Hready; simpl.
  - apply wp_bind. apply wp_patch_node; [done | done | | |].
    + intros e w1 Hd. apply wp_ret, C_stay; auto; by split.
    + intros e w1 Ho Hi HL. apply wp_ret. eapply C_verified_lost; eauto; by split.
    + intros n' w1 Ho Hi _. wp_steps. eapply C_verified; eauto; [touches_solve | by eapply in_sync_drift].
  - wp_steps. case_match.
    + apply wp_bind. eapply wp_mono; [apply (failRollout_continued nt node ns lock _ _ w); [done | drift_solve]|].
      intros ns' w2 Hc. by apply wp_ret.
    + apply wp_ret, C_stay; auto. by split.
Qed.

(** The outcomes of startRollout: a refusal that leaves the node as it was,
    or the cordon, with everything that had to hold before it. *)
Inductive started (nt : NodeTuning) (node : Node) (ns : NodeTuningNodeStatus) (allNodes : list Node)
    (lock : campaignLock) (m m' : Server) (ns' : NodeTuningNodeStatus) (lock' : campaignLock) : Prop :=
| S_refused :
    drift m m' -> lock' = lock -> same_restart ns ns' ->
    ns_phase ns' = PhaseRebootPending \/ ns_phase ns' = PhaseFailed ->
    started nt node ns allNodes lock m m' ns' lock'
| S_cordoned owner now :
    heldByOther lock (node_name node) = "" -> notReadyNodes allNodes = [] ->
    IsRestartable (annotation node TuningUnitAnnotation) = true ->
    (exists t, annotationTime node TuningUnitActiveEnterAnnotation = inr t) ->
    time_ok now -> only_touches (node_name node) m m' -> in_sync (cordoned owner now node) m' ->
    (lock' = acquire lock (node_name node) /\ ns_phase ns' = PhaseApplying \/
     lock' = lock /\ (lost m < lost m')%nat /\ (ns_phase ns' = PhaseRebootPending \/ ns_phase ns' = PhaseFailed)) ->
    same_restart ns ns' ->
    started nt node ns allNodes lock m m' ns' lock'.

Lemma ensureFinalizer_spec nt w :
  wp (ensureFinalizer nt) w (fun res w' => drift (srv_nodes w) (srv_nodes w')).
Proof. unfold ensureFinalizer. repeat case_match; wp_steps; repeat case_match; wp_steps; done. Qed.

Lemma startRollout_spec nt node ns reason allNodes lock w :
  in_sync node (srv_nodes w) ->
  wp (startRollout nt node ns reason allNodes lock) w (fun res w' =>
    started nt node ns allNodes lock (srv_nodes w) (srv_nodes w') res.1.1 res.1.2).
Proof.
  intros Hs. unfold startRollout.
  case_match eqn:Hheld; [apply wp_ret, S_refused; auto; by split|]. bool_to_prop. apply dec_stable in Hheld.
  case_match eqn:Hrdy; [apply wp_ret, S_refused; auto; by split|]. bool_to_prop. apply dec_stable in Hrdy.
  case_match; [apply wp_ret, S_refused; auto; by split|].
  case_match eqn:Hunit; [apply wp_ret, S_refused; auto; by split|]. bool_to_prop.
  destruct (annotationTime node TuningUnitActiveEnterAnnotation) as [e|t] eqn:Hact;
    [apply wp_ret, S_refused; auto; by split|].
  apply wp_bind. eapply wp_mono; [apply ensureFinalizer_spec|]. intros [nt' ferr] w1 Hd1.
  destruct ferr as [e|]; [apply wp_ret, S_refused; auto; by split|].
  wp_steps. unfold patchNode. apply wp_patch_node; [done | | | |].
  - eapply in_sync_drift; [done | drift_solve].
  - intros e w3 Hd3. apply wp_ret, S_refused; auto; [drift_solve | by split].
  - intros e w3 Ho Hi HL. apply wp_ret. eapply S_cordoned; eauto; [touches_solve | | by split].
    right. destruct Hd1 as [_ L1]. match goal with H : drift (srv_nodes w1) _ |- _ => destruct H as [_ L2] end.
    split; [done|]. split; [lia|by left].
  - intros n' w3 Ho Hi _. wp_steps. eapply S_cordoned; eauto; [touches_solve | by eapply in_sync_drift | by split].
Qed.
End Handlers.

(** ** Refinement of the abstract machine *)

Section Refinement.
Context `{LS : LabelSelectors} {W : Type} `{C : !Cluster W} `{CL : !ClusterLaws W}.
Implicit Types (node : Node) (m : Server).

Lemma rolloutInFlight_spec node :
  rolloutInFlight node = true <-> is_Some (node_annotations node !! TuningRolloutStartedAnnotation).
Proof. unfold rolloutInFlight. apply bool_decide_eq_true. Qed.
Lemma rolloutHalted_spec node :
  rolloutHalted node = true <-> is_Some (node_annotations node !! TuningRolloutFailedAnnotation).
Proof. unfold rolloutHalted. apply bool_decide_eq_true. Qed.

Lemma rstate_running node m :
  in_sync node m -> rolloutInFlight node = true -> rolloutHalted node = false ->
  node_rstate m (node_name node) =
    match annotationTime node TuningRestartRequestedAnnotation with inr _ => Waiting | inl _ => Draining end.
Proof.
  intros Hs Hf Hh. rewrite in_sync_rstate by done. apply rolloutInFlight_spec in Hf as [x ->].
  unfold rolloutHalted in Hh. bool_to_prop. apply eq_None_not_Some in Hh as ->. simpl.
  destruct (annotationTime node TuningRestartRequestedAnnotation) as [e|t] eqn:E.
  - by rewrite (annotationTime_inl _ _ _ E).
  - by rewrite (annotationTime_inr _ _ _ E).
Qed.

Lemma continued_rstep nt node ns lock (w : W) m' ns' lock' :
  in_sync node (srv_nodes w) -> rolloutInFlight node = true -> rolloutHalted node = false ->
  continued nt node ns lock w m' ns' lock' ->
  rstep (node_rstate (srv_nodes w) (node_name node)) (node_rstate m' (node_name node)) /\
  only_touches (node_name node) (srv_nodes w) m'.
Proof.
  intros Hs Hf Hh Hc. pose proof (rstate_running _ _ Hs Hf Hh) as Hst.
  apply rolloutInFlight_spec in Hf as [x Hf].
  destruct Hc as [Hd|now Ho Hi|base now pods w1 Hb Hp Hz Hnr Hok Ho Hi|req base cur Hreq Hb Hc Ha Hr Ho Hi|req base cur Hreq Hb Hc Ha Hr Ho Hi].
  - split; [|by apply drift_only_touches]. rewrite (drift_rstate _ _ _ Hd). constructor.
  - split; [|done]. rewrite Hst, (in_sync_rstate _ _ Hi : node_rstate m' (node_name node) = _).
    ann_simpl. rewrite Hf. simpl. case_match; constructor.
  - split; [|done]. rewrite Hst, (in_sync_rstate _ _ Hi : node_rstate m' (node_name node) = _).
    unfold rolloutHalted in Hh. bool_to_prop. apply eq_None_not_Some in Hh.
    ann_simpl. rewrite Hf, Hh. cbn [rstate_of mbind option_bind]. rewrite parse_format_nano by done.
    destruct (annotationTime node TuningRestartRequestedAnnotation) as [e|t] eqn:E; [constructor|].
    by destruct (Hnr t).
  - split; [|done]. rewrite Hst, (in_sync_rstate _ _ Hi : node_rstate m' (node_name node) = _), Hreq.
    rewrite (uncordoned_keys node _ started_key). constructor.
  - split; [|done]. rewrite Hst, (in_sync_rstate _ _ Hi : node_rstate m' (node_name node) = _), Hreq.
    rewrite (uncordoned_keys node _ started_key). constructor.
Qed.

Lemma started_rstep nt node ns allNodes lock m m' ns' lock' :
  in_sync node m -> rolloutInFlight node = false ->
  started nt node ns allNodes lock m m' ns' lock' ->
  rstep (node_rstate m (node_name node)) (node_rstate m' (node_name node)) /\
  only_touches (node_name node) m m'.
Proof.
  intros Hs Hf Hst.
  destruct Hst as [Hd|owner now Hh Hn Hu Hb Hok Ho Hi].
  - split; [|by apply drift_only_touches]. rewrite (drift_rstate _ _ _ Hd). constructor.
  - split; [|done]. rewrite (in_sync_rstate _ _ Hs), (in_sync_rstate _ _ Hi : node_rstate m' (node_name node) = _).
    unfold rolloutInFlight in Hf. bool_to_prop. apply eq_None_not_Some in Hf. rewrite Hf.
    ann_simpl. constructor.
Qed.
End Refinement.
