(* ===== verification/NodeTuningController.v ===== *)
(** The NodeTuning reconciler, internal/controller/frame/nodetuning_controller.go:
    node selection, the diff of spec against what the agent measured, the
    approval gate, one pass over the nodes ([Reconcile]), the status write
    shared with the agent and the deletion path. *)
From stdpp Require Import base tactics strings list gmap.
From Stdlib Require Import ZArith Lia.
From S2P Require Import Prelude GoLib GoTime Kube Cluster Rollout.

Open Scope Z_scope.

(** ** Pure parts *)

Definition diffTuning_parts (tuned : string) (ksm : option KSMSpec) (observed : ObservedTuning) : list string * bool :=
  let m1 := if bool_decide (tuned <> "") && bool_decide (tuned <> obs_tunedProfile observed)
            then ["tunedProfile: want " +:+ quote tuned +:+ ", observed " +:+ quote (obs_tunedProfile observed)]
            else [] in
  match ksm with
  | None => (m1, false)
  | Some k =>
    let want := ksm_enabled k in
    let got := match obs_ksm observed with Some o => obs_memoryKSM o | None => false end in
    if Bool.eqb want got then (m1, false)
    else (m1 ++ ["ksm.enabled: want " +:+ btoa want +:+ ", observed " +:+ btoa got], true)
  end.

Definition approvedForGeneration (node : Node) (generation : Z) : bool :=
  match node_annotations node !! ApprovalAnnotation with
  | None => false
  | Some raw =>
    match parse_int64 raw with
    | None => false
    | Some approved => if approved <? 0 then false else approved =? generation
    end
  end.

Fixpoint existingNodeStatus (nodes : list NodeTuningNodeStatus) (nodeName : string) : NodeTuningNodeStatus :=
  match nodes with
  | [] => fresh_node_status nodeName
  | n :: nodes' => if bool_decide (ns_name n = nodeName) then n else existingNodeStatus nodes' nodeName
  end.

(** [observed[ns.Name] = ns.Observed] over the current entries: the last one
    of a name wins. *)
Definition observed_by_name (current : list NodeTuningNodeStatus) : gmap string ObservedTuning :=
  foldl (fun m ns => <[ns_name ns := ns_observed ns]> m) ∅ current.

Definition preserveObserved (computed current : list NodeTuningNodeStatus) : list NodeTuningNodeStatus :=
  let observed := observed_by_name current in
  map (fun ns => match observed !! ns_name ns with
                 | Some o => set_observed ns o
                 | None => ns
                 end) computed.

Definition adoptOwnedNodes (all matched : list Node) (ntName : string) : list Node :=
  List.filter (fun n => negb (existsb (fun m => bool_decide (node_name m = node_name n)) matched)
                        && rolloutOwnedBy n ntName) all.

Definition status_leb (a b : NodeTuningNodeStatus) : bool := str_leb (ns_name a) (ns_name b).

Section Controller.
Context `{LabelSelectors} {W : Type} `{!Cluster W}.
Context (r : Reconciler).

Definition diffTuning (spec : NodeTuningSpec) (observed : ObservedTuning) : string * bool :=
  let '(mismatches, needsRestart) := diffTuning_parts (spec_tunedProfile spec) (spec_ksm spec) observed in
  (join "; " mismatches, needsRestart).

Definition selectNodes (nodes : list Node) (sel : option LabelSelector) : result apierr (list Node) :=
  match sel with
  | None => inr []
  | Some sel =>
    match as_selector sel with
    | inl err => inl (wrap_err "invalid nodeSelector" err)
    | inr selector => inr (List.filter (fun n => selector_matches selector (node_labels n)) nodes)
    end
  end.

Definition overlappingNodeTunings (all : list NodeTuning) (selfName : string) (node : Node) : list string :=
  sort_strings (map nt_name (List.filter (fun other =>
    if bool_decide (nt_name other = selfName) then false else
    match spec_nodeSelector (nt_spec other) with
    | None => false
    | Some s => match as_selector s with
                | inl _ => false
                | inr sel => selector_matches sel (node_labels node)
                end
    end) all)).

(** ** Status *)

Fixpoint all_started_after (t : time) (pods : list Pod) : bool :=
  match pods with
  | [] => true
  | pod :: pods' =>
    if bool_decide (pod_phase pod = PodSucceeded) || bool_decide (pod_phase pod = PodFailed)
    then all_started_after t pods'
    else match pod_start pod with
         | None => false
         | Some st => if after st t then all_started_after t pods' else false
         end
  end.

Definition realizeNode (nodeName : string) (ns : NodeTuningNodeStatus) : St W NodeTuningNodeStatus :=
  match ns_restartedAt ns with
  | None => mret (set_realization ns RealizationPending)
  | Some restartedAt =>
    let ns := set_realization ns RealizationEffective in
    res ← list_pods_on nodeName;
    match res with
    | inl _ => mret ns
    | inr pods =>
      mret (if all_started_after restartedAt pods then set_realization ns RealizationFullyRealized else ns)
    end
  end.

(** One attempt of patchStatus; the object it returns is what the caller's
    [nt] becomes. *)
Definition patchStatus_once (key : string) (generation : Z) (nodes : list NodeTuningNodeStatus) :
    St W (result apierr NodeTuning) :=
  res ← reader_get_nt key;
  match res with
  | inl err => mret (inl err)
  | inr fresh =>
    patch_nt_status fresh (set_status fresh generation (preserveObserved nodes (nt_nodes fresh)))
  end.

Definition patchStatus (nt : NodeTuning) (nodes : list NodeTuningNodeStatus) : St W (result apierr NodeTuning) :=
  retry_on_conflict (patchStatus_once (nt_name nt) (nt_generation nt) nodes).

(** ** Finalizer and deletion *)

Definition removeFinalizer (nt : NodeTuning) : St W (option apierr) :=
  let '(changed, fs) := remove_finalizer (nt_finalizers nt) nodeTuningFinalizer in
  if negb changed then mret None
  else res ← update_nt (set_finalizers nt fs);
       mret (match res with inl err => Some err | inr _ => None end).

Fixpoint release_owned (ntName : string) (nodes : list Node) : St W (option apierr) :=
  match nodes with
  | [] => mret None
  | node :: nodes' =>
    if negb (rolloutOwnedBy node ntName) then release_owned ntName nodes'
    else
      res ← releaseNode node;
      match res with
      | inl err => mret (Some (wrap_err ("releasing " +:+ node_name node +:+ " on NodeTuning deletion") err))
      | inr _ =>
        _ ← record_event (mkEvent EventTypeWarning "RolloutAbandoned"
              ("NodeTuning deleted mid-rollout; uncordoned " +:+ node_name node +:+
               " and cleared its restart request"));
        release_owned ntName nodes'
      end
  end.

Definition finishDeletion (nt : NodeTuning) (allNodes : list Node) : St W (option apierr) :=
  err ← release_owned (nt_name nt) allNodes;
  match err with
  | Some e => mret (Some e)
  | None => removeFinalizer nt
  end.

(** ** One pass *)

(** What the loop carries from node to node. *)
Record Pass := mkPass {
  p_nt : NodeTuning;
  p_lock : campaignLock;
  p_rolloutActive : bool;
  p_ownsNode : bool;
  p_newNodes : list NodeTuningNodeStatus
}.

Definition owned_pass (p : Pass) (nt : NodeTuning) (lock : campaignLock) : Pass :=
  mkPass nt lock true true (p_newNodes p).
Definition plain_pass (p : Pass) (nt : NodeTuning) (lock : campaignLock) : Pass :=
  mkPass nt lock (p_rolloutActive p) (p_ownsNode p) (p_newNodes p).

(** The switch of Reconcile on one node. *)
Definition reconcile_switch (allNodes : list Node) (all : list NodeTuning) (node : Node) (p : Pass) :
    St W (NodeTuningNodeStatus * Pass) :=
  let nt := p_nt p in
  let ns := existingNodeStatus (nt_nodes nt) (node_name node) in
  let '(reason, needsRestart) := diffTuning (nt_spec nt) (ns_observed ns) in
  let others := overlappingNodeTunings all (nt_name nt) node in
  if rolloutOwnedBy node (nt_name nt) && rolloutHalted node then
    let msg := if bool_decide (ns_message ns = "")
               then "rollout halted on " +:+ node_name node +:+ " and is waiting for a human (" +:+
                    releaseHaltHint (node_name node) +:+ ")"
               else ns_message ns in
    mret (set_phase ns PhaseFailed msg, owned_pass p nt (p_lock p))
  else if rolloutOwnedBy node (nt_name nt) then
    '(ns, lock) ← continueRollout r nt node ns (p_lock p);
    mret (ns, owned_pass p nt lock)
  else if rolloutInFlight node then
    let owner := annotation node TuningRolloutOwnerAnnotation in
    let owner := if bool_decide (owner = "") then "an unknown owner" else owner in
    mret (set_phase ns PhaseRebootPending
            ("waiting: " +:+ node_name node +:+ " is mid-rollout under " +:+ owner), p)
  else if bool_decide (others <> []) then
    mret (set_phase ns PhaseFailed ("node also selected by NodeTuning " +:+ join ", " others), p)
  else if bool_decide (reason = "") then
    mret (set_phase (set_applied ns (nt_generation nt)) PhaseInSync "", p)
  else if needsRestart && negb (approvedForGeneration node (nt_generation nt)) then
    mret (set_phase ns PhaseRebootPending
            ("restart required to apply: " +:+ reason +:+ "; approve with `kubectl annotate node " +:+
             node_name node +:+ " " +:+ ApprovalAnnotation +:+ "=" +:+ itoa (nt_generation nt) +:+ " --overwrite`"), p)
  else if needsRestart && restartedForGeneration ns (nt_generation nt) then
    mret (set_phase (set_applied ns (nt_generation nt)) PhaseDrifted
            (reason +:+ "; restart already verified at " +:+
             match ns_restartedAt ns with Some t => format_rfc3339 t | None => "" end +:+
             " for generation " +:+ itoa (nt_generation nt) +:+
             of_bytes [byte 32; byte 226; byte 128; byte 148; byte 32] +:+
             "not restarting again (approve a new generation, or clear status.nodes[].restartedAt to retry)"), p)
  else if needsRestart then
    '(ns, lock, nt) ← startRollout nt node ns reason allNodes (p_lock p);
    mret (ns, if bool_decide (ns_phase ns = PhaseApplying) then owned_pass p nt lock else plain_pass p nt lock)
  else
    mret (set_phase (set_applied ns (nt_generation nt)) PhaseDrifted reason, p).

Definition reconcile_node (allNodes : list Node) (all : list NodeTuning) (node : Node) (p : Pass) : St W Pass :=
  '(ns, p) ← reconcile_switch allNodes all node p;
  ns ← realizeNode (node_name node) ns;
  mret (mkPass (p_nt p) (p_lock p) (p_rolloutActive p) (p_ownsNode p) (p_newNodes p ++ [ns])).

Fixpoint reconcile_nodes (allNodes : list Node) (all : list NodeTuning) (work : list Node) (p : Pass) : St W Pass :=
  match work with
  | [] => mret p
  | node :: work' => p ← reconcile_node allNodes all node p; reconcile_nodes allNodes all work' p
  end.

(** What Reconcile does once the node list is read and the object is not
    being deleted. *)
Definition reconcile_live (nt : NodeTuning) (allNodes : list Node) : St W (result apierr Z) :=
  match selectNodes allNodes (spec_nodeSelector (nt_spec nt)) with
  | inl err => mret (inl (wrap_err "listing nodes for selector" err))
  | inr matched =>
    let work := matched ++ adoptOwnedNodes allNodes matched (nt_name nt) in
    res ← list_nts;
    match res with
    | inl err => mret (inl (wrap_err "listing NodeTunings" err))
    | inr all =>
      p ← reconcile_nodes allNodes all work (mkPass nt (newCampaignLock allNodes) false false []);
      res ← patchStatus (p_nt p) (sort_by status_leb (p_newNodes p));
      match res with
      | inl err => mret (inl err)
      | inr nt =>
        ferr ← (if p_ownsNode p then mret None else removeFinalizer nt);
        mret (match ferr with
              | Some err => inl err
              | None => inr (if p_rolloutActive p then rolloutRequeueInterval else 0)
              end)
      end
    end
  end.

(** The whole reconciler: [inr d] is a requeue after [d] (0 for none). *)
Definition Reconcile (name : string) : St W (result apierr Z) :=
  res ← get_nt name;
  match res with
  | inl err => mret (if err_notfound err then inr 0 else inl err)
  | inr nt =>
    res ← list_nodes;
    match res with
    | inl err => mret (inl (wrap_err "listing nodes" err))
    | inr allNodes =>
      if nt_deleting nt then
        err ← finishDeletion nt allNodes;
        mret (match err with Some e => inl e | None => inr 0 end)
      else reconcile_live nt allNodes
    end
  end.

(** ** Watches: which objects an event re-queues *)

Definition nodeTuningRequests (exclude : string) : St W (list string) :=
  res ← list_nts;
  mret (match res with
        | inl _ => []
        | inr l => map nt_name (List.filter (fun nt => negb (bool_decide (nt_name nt = exclude))) l)
        end).
Definition allNodeTunings : St W (list string) := nodeTuningRequests "".
Definition otherNodeTunings (name : string) : St W (list string) := nodeTuningRequests name.
End Controller.
