(* ===== verification/Demo.v ===== *)
(** A small cluster for the concrete runs: two Ready worker nodes whose agent
    has reported, and a NodeTuning that wants KSM on both. *)
From stdpp Require Import base tactics strings list gmap.
From Stdlib Require Import ZArith Lia.
From S2P Require Import Prelude GoLib GoTime Kube Cluster FakeCluster Rollout NodeTuningController.

Open Scope Z_scope.

Definition demo_reconciler : Reconciler := mkReconciler 0 0.

(** A worker whose unit last entered active at second [t]; [approved] is the
    value of the approval annotation. *)
Definition demo_node (name approved : string) (t : Z) : Node :=
  mkNode name {[ "role" := "worker" ]}
    {[ TuningUnitAnnotation := "k3s-agent"; TuningUnitActiveEnterAnnotation := format_nano (at_s t);
       ApprovalAnnotation := approved ]}
    false [("Ready", "True")].

Definition demo_spec : NodeTuningSpec :=
  mkSpec (Some ("role", "worker")) "" (Some (mkKSMSpec true None None None)) "".
Definition demo_nt : NodeTuning := mkNodeTuning "t" 4 false [] "1" demo_spec 0 [].

Definition demo_pod (name node : string) : Pod := mkPod "default" name node "Running" ∅ ["ReplicaSet"] false (Some (at_s 0)).

Definition demo_world (nodes : list Node) (pods : list Pod) (nt : NodeTuning) (now : Z) (script : list (option apierr)) : World :=
  mkWorld (list_to_map (map (fun n => (node_name n, n)) nodes)) pods {[ nt_name nt := nt ]} (at_s now) script [] 0.

(** Both nodes approved for generation 4, nothing started. *)
Definition demo0 : World := demo_world [demo_node "n1" "4" 10; demo_node "n2" "4" 10] [] demo_nt 100 [].

(** [n] after its rollout started at second [t] under [owner], with the other
    annotations [extra]. *)
Definition demo_rolling (n : Node) (owner : string) (t : Z) (extra : strmap) : Node :=
  let n := cordoned owner (at_s t) n in set_annotations n (extra ∪ node_annotations n).

(** The restart was requested at second 110 against the baseline 10. *)
Definition demo_requested : strmap :=
  {[ TuningRestartRequestedAnnotation := format_nano (at_s 110);
     TuningRestartBaselineAnnotation := format_nano (at_s 10) ]}.

Example demo_pass_1 :
  let w := (Reconcile demo_reconciler "t" demo0).2 in
  (map (fun n => (node_name n, node_unschedulable n, rolloutInFlight n)) (map snd (map_to_list (w_nodes w))),
   map ev_reason (w_events w)) =
  ([("n1", true, true); ("n2", false, false)], ["NodeCordoned"]).
Proof. vm_compute. reflexivity. Qed.
