(* ===== verification/NodeTuningSafety.v ===== *)
(** Cluster-wide safety of the NodeTuning reconciler: one pass moves every
    node along the rollout state machine, the nodes mid-rollout are at most one
    more than the node patches whose answer was lost, whatever the order of
    passes, agent writes and human releases, and a node
    is cordoned only behind the whole gate. *)
From stdpp Require Import base tactics strings list gmap relations.
From Stdlib Require Import ZArith Lia.
From S2P Require Import Prelude GoLib GoTime Kube Cluster Rollout RolloutSafety NodeTuningController FakeCluster Demo.

Open Scope Z_scope.

(** The nodes mid-rollout. *)
Definition rolling (m : Server) : gset string :=
  dom (filter (fun kv => is_Some (node_annotations kv.2 !! TuningRolloutStartedAnnotation)) (stored m)).
Lemma elem_of_rolling m a : a ∈ rolling m <-> in_flight m a.
Proof.
  unfold rolling, in_flight, ctl_key. rewrite elem_of_dom. split.
  - intros [n Hn]. apply map_lookup_filter_Some in Hn as [-> Hn]. done.
  - destruct (stored m !! a) as [n|] eqn:E; [|by intros []]. cbn. intros H. exists n. by apply map_lookup_filter_Some.
Qed.

(** At most one node holds a rollout, and one more for each patch whose answer
    was lost. *)
Definition one_in_flight (m : Server) : Prop := (size (rolling m) <= 1 + lost m)%nat.

(** The lock a pass carries names one of them. *)
Definition lock_covers (lock : campaignLock) (m : Server) : Prop :=
  (size (rolling m ∖ {[holder lock]}) <= lost m)%nat.

Lemma rolling_shrinks m m' a b : rolling m' ∖ {[b]} ⊆ rolling m ∖ {[a]} -> (lost m <= lost m')%nat ->
  (size (rolling m ∖ {[a]}) <= lost m -> size (rolling m' ∖ {[b]}) <= lost m')%nat.
Proof. intros Hs Hl H. apply subseteq_size in Hs. lia. Qed.
Lemma size_add (a : string) (X : gset string) : (size ({[a]} ∪ X) <= S (size X))%nat.
Proof.
  destruct (decide (a ∈ X)) as [Ha|Ha]; [replace ({[a]} ∪ X) with X by set_solver; lia|].
  rewrite size_union by set_solver. rewrite size_singleton. lia.
Qed.
Lemma lock_covers_one lock m : lock_covers lock m -> one_in_flight m.
Proof.
  unfold lock_covers, one_in_flight. intros H. assert (rolling m ⊆ {[holder lock]} ∪ (rolling m ∖ {[holder lock]})) as Hs.
  { intros x Hx. destruct (decide (x = holder lock)); set_solver. }
  apply subseteq_size in Hs. pose proof (size_add (holder lock) (rolling m ∖ {[holder lock]})). lia.
Qed.

Lemma one_in_flight_unique m : one_in_flight m -> lost m = 0%nat -> forall a b, in_flight m a -> in_flight m b -> a = b.
Proof.
  unfold one_in_flight. intros H1 HL a b. rewrite <- !elem_of_rolling. intros Ha Hb.
  apply (size_singleton_inv (rolling m) a b); [|done..]. assert (size (rolling m) <> 0%nat); [|lia].
  intros Hz%size_empty_inv. set_solver.
Qed.

Lemma drift_rolling m m' : drift m m' -> rolling m = rolling m'.
Proof. intros Hd. apply set_eq. intros a. rewrite !elem_of_rolling. by apply drift_in_flight. Qed.
Lemma lock_covers_drift lock m m' : drift m m' -> lock_covers lock m -> lock_covers lock m'.
Proof. intros Hd H. unfold lock_covers in *. destruct (Hd) as [_ <-]. by rewrite <- (drift_rolling _ _ Hd). Qed.
Lemma one_in_flight_drift m m' : drift m m' -> one_in_flight m -> one_in_flight m'.
Proof. intros Hd H. unfold one_in_flight in *. destruct (Hd) as [_ <-]. by rewrite <- (drift_rolling _ _ Hd). Qed.

Lemma newCampaignLock_covers (nodes : list Node) (m : Server) :
  one_in_flight m ->
  (forall name n, stored m !! name = Some n <-> n ∈ nodes /\ node_name n = name) ->
  lock_covers (newCampaignLock nodes) m.
Proof.
  intros H1 Hm.
  assert (Hfl : forall n, n ∈ nodes -> rolloutInFlight n = true -> in_flight m (node_name n)).
  { intros n Hn Hf. apply rolloutInFlight_spec in Hf. unfold in_flight, ctl_key.
    assert (stored m !! node_name n = Some n) as -> by (by apply Hm). done. }
  assert (Hall : forall a, a ∈ rolling m -> exists n, n ∈ nodes /\ rolloutInFlight n = true).
  { intros a [x Ha]%elem_of_rolling. unfold ctl_key in Ha. destruct (stored m !! a) as [n|] eqn:E; [|done].
    apply Hm in E as [Hn <-]. exists n. split; [done|]. apply rolloutInFlight_spec. by exists x. }
  assert (rolling m = ∅ \/ holder (newCampaignLock nodes) ∈ rolling m) as [He|Hin].
  { destruct (set_choose_or_empty (rolling m)) as [[a Ha]|He]; [right|left; by apply leibniz_equiv].
    destruct (Hall a Ha) as (n & Hn & Hf). clear Hall Ha Hm. induction nodes as [|n' nodes IH]; [by apply elem_of_nil in Hn|]. simpl.
    destruct (rolloutInFlight n') eqn:E; [apply elem_of_rolling, Hfl; [by left|done]|].
    apply elem_of_cons in Hn as [->|Hn]; [congruence|]. apply IH; [|done]. intros n0 Hn0. apply Hfl. by right. }
  - unfold lock_covers. rewrite He. replace (∅ ∖ _ : gset string) with (∅ : gset string) by set_solver. rewrite size_empty. lia.
  - unfold lock_covers, one_in_flight in *. rewrite size_difference by set_solver. rewrite size_singleton. lia.
Qed.

Lemma heldByOther_free lock name : heldByOther lock name = "" -> holder lock = "" \/ holder lock = name.
Proof.
  unfold heldByOther. destruct (decide (holder lock = "")) as [|Hne]; [by left|].
  destruct (decide (holder lock = name)) as [|Hne']; [by right|].
  rewrite !bool_decide_true by done. done.
Qed.

Section Pass.
Context `{LS : LabelSelectors} {W : Type} `{C : !Cluster W} `{CL : !ClusterLaws W}.
Context (r : Reconciler).

Lemma srv_name_nonempty (w : W) a : in_flight (srv_nodes w) a -> a <> "".
Proof.
  intros [x Ha]. unfold ctl_key in Ha. destruct (stored (srv_nodes w) !! a) as [n|] eqn:E; [|done].
  by apply srv_names in E as [_ ?].
Qed.

Lemma in_flight_other name m m' a :
  only_touches name m m' -> a <> name -> in_flight m a <-> in_flight m' a.
Proof. intros [Ho _] Hne. unfold in_flight. by rewrite (Ho a _ started_key Hne). Qed.

Lemma rolling_touched name m m' : only_touches name m m' -> rolling m' ⊆ {[name]} ∪ rolling m.
Proof.
  intros Ho a Ha%elem_of_rolling. destruct (decide (a = name)) as [->|Hne]; [set_solver|].
  apply (in_flight_other _ _ _ a Ho Hne), elem_of_rolling in Ha. set_solver.
Qed.

Lemma continued_lock nt node ns lock (w : W) m' ns' lock' :
  in_sync node (srv_nodes w) -> rolloutInFlight node = true ->
  lock_covers lock (srv_nodes w) -> continued nt node ns lock w m' ns' lock' -> lock_covers lock' m'.
Proof.
  intros Hs Hf Hl Hc. apply rolloutInFlight_spec in Hf.
  assert (Hin : node_name node ∈ rolling (srv_nodes w)) by (apply elem_of_rolling; unfold in_flight; by rewrite (Hs _ started_key)).
  assert (Hkeep : only_touches (node_name node) (srv_nodes w) m' -> lock_covers lock m').
  { intros Ho. eapply rolling_shrinks; [|apply Ho|exact Hl]. pose proof (rolling_touched _ _ _ Ho). set_solver. }
  destruct Hc as [Hd ->|now Ho Hi ->|base now pods w1 _ _ _ _ _ Ho Hi ->|req base cur _ _ _ _ _ Ho Hi ->|req base cur _ _ _ _ _ Ho Hi ->]; [|by apply Hkeep..| |by apply Hkeep].
  - by eapply lock_covers_drift.
  - unfold release. case_bool_decide as Hh; [|by apply Hkeep]. eapply rolling_shrinks; [|apply Ho|exact Hl]. rewrite Hh.
    pose proof (rolling_touched _ _ _ Ho). assert (node_name node ∉ rolling m') as Hout; [|set_solver].
    rewrite elem_of_rolling. intros [x Ha]. rewrite (Hi _ started_key : ctl_key m' (node_name node) _ = _) in Ha.
    by rewrite (uncordoned_keys node _ started_key) in Ha.
Qed.

Lemma started_lock nt node ns allNodes lock (w : W) m' ns' lock' :
  lock_covers lock (srv_nodes w) ->
  started nt node ns allNodes lock (srv_nodes w) m' ns' lock' -> lock_covers lock' m'.
Proof.
  intros Hl Hst. destruct Hst as [Hd ->|owner now Hh _ _ _ _ Ho Hi Hlock _]; [by eapply lock_covers_drift|].
  pose proof (rolling_touched _ _ _ Ho) as Hsub. destruct Hlock as [[-> _]|(-> & Hlost & _)].
  - eapply rolling_shrinks; [|apply Ho|exact Hl]. cbn. destruct (heldByOther_free _ _ Hh) as [->| ->]; [|set_solver].
    intros x Hx. assert (x ∈ rolling (srv_nodes w)) as Hx' by set_solver. pose proof (srv_name_nonempty w x). rewrite elem_of_rolling in Hx'. set_solver.
  - unfold lock_covers in *. assert (rolling m' ∖ {[holder lock]} ⊆ {[node_name node]} ∪ (rolling (srv_nodes w) ∖ {[holder lock]})) as Hs.
    { intros x Hx. destruct (decide (x = node_name node)); set_solver. }
    apply subseteq_size in Hs. pose proof (size_add (node_name node) (rolling (srv_nodes w) ∖ {[holder lock]})). lia.
Qed.

(** What has to hold before a node is cordoned. *)
Definition gate (allNodes : list Node) (all : list NodeTuning) (node : Node) (nt : NodeTuning) : Prop :=
  let ns := existingNodeStatus (nt_nodes nt) (node_name node) in
  (diffTuning (nt_spec nt) (ns_observed ns)).2 = true /\
  approvedForGeneration node (nt_generation nt) = true /\
  restartedForGeneration ns (nt_generation nt) = false /\
  overlappingNodeTunings all (nt_name nt) node = [] /\
  notReadyNodes allNodes = [] /\
  IsRestartable (annotation node TuningUnitAnnotation) = true.

(** One node of the pass: only that node's rollout keys move, by one step
    of the machine, the lock still covers the cluster, and a node newly in
    flight went through the gate. *)
Definition node_pass (allNodes : list Node) (all : list NodeTuning) (node : Node) (nt : NodeTuning)
    (m m' : Server) (lock lock' : campaignLock) : Prop :=
  only_touches (node_name node) m m' /\
  rstep (node_rstate m (node_name node)) (node_rstate m' (node_name node)) /\
  (lock_covers lock m -> lock_covers lock' m') /\
  (in_flight m' (node_name node) -> in_flight m (node_name node) \/ gate allNodes all node nt).

Lemma node_pass_stay allNodes all node nt m m' lock :
  drift m m' -> node_pass allNodes all node nt m m' lock lock.
Proof.
  intros Hd. split; [by apply drift_only_touches|]. split.
  { rewrite (drift_rstate _ _ _ Hd). constructor. }
  split; [by eapply lock_covers_drift|]. intros Hf. left. by rewrite (drift_in_flight _ _ _ Hd).
Qed.

Lemma reconcile_switch_spec allNodes all node p w :
  in_sync node (srv_nodes w) ->
  wp (reconcile_switch r allNodes all node p) w (fun res w' =>
    node_pass allNodes all node (p_nt p) (srv_nodes w) (srv_nodes w') (p_lock p) (p_lock res.2)).
Proof.
  intros Hs. unfold reconcile_switch.
  destruct (diffTuning _ _) as [reason needs] eqn:Hdiff.
  destruct (rolloutOwnedBy node (nt_name (p_nt p))) eqn:Hown; simpl.
  { assert (Hf : rolloutInFlight node = true) by (unfold rolloutOwnedBy in Hown; bool_to_prop; done).
    assert (Hin : in_flight (srv_nodes w) (node_name node))
      by (apply rolloutInFlight_spec in Hf; unfold in_flight; by rewrite (Hs _ started_key)).
    destruct (rolloutHalted node) eqn:Hh; [by apply wp_ret, node_pass_stay|].
    apply wp_bind. eapply wp_mono; [by apply continueRollout_spec|]. intros [ns' lock'] w' Hc.
    apply wp_ret. simpl in *. destruct (continued_rstep _ _ _ _ _ _ _ _ Hs Hf Hh Hc) as [Hst Ho].
    split; [done|]. split; [done|]. split; [intros; by eapply continued_lock | by left]. }
  destruct (rolloutInFlight node) eqn:Hf; [by apply wp_ret, node_pass_stay|].
  destruct (decide (overlappingNodeTunings all (nt_name (p_nt p)) node = [])) as [Hov|Hov];
    [rewrite bool_decide_false by tauto | rewrite bool_decide_true by done; by apply wp_ret, node_pass_stay].
  case_match; [by apply wp_ret, node_pass_stay|].
  destruct needs; simpl; [|by apply wp_ret, node_pass_stay].
  destruct (approvedForGeneration node _) eqn:Happ; simpl; [|by apply wp_ret, node_pass_stay].
  destruct (restartedForGeneration _ _) eqn:Hres; [by apply wp_ret, node_pass_stay|].
  apply wp_bind. eapply wp_mono; [by apply startRollout_spec|]. intros [[ns' lock'] nt'] w' Hst.
  apply wp_ret. simpl in *. destruct (started_rstep _ _ _ _ _ _ _ _ _ Hs Hf Hst) as [Hrs Ho].
  split; [done|]. split; [done|]. split; [intros Hl; assert (lock_covers lock' (srv_nodes w')) by (by eapply started_lock); by case_match|]. intros Hin.
  destruct Hst as [Hd|]; [left; by rewrite (drift_in_flight _ _ _ Hd) | right].
  unfold gate. rewrite Hdiff. by repeat split.
Qed.

Lemma realizeNode_drift name ns w :
  wp (realizeNode name ns) w (fun _ w' => drift (srv_nodes w) (srv_nodes w')).
Proof. unfold realizeNode. repeat case_match; wp_steps; repeat case_match; wp_steps; done. Qed.

Lemma node_pass_drift allNodes all node nt m m1 m2 lock0 lock :
  node_pass allNodes all node nt m m1 lock0 lock -> drift m1 m2 -> node_pass allNodes all node nt m m2 lock0 lock.
Proof.
  intros (Ho & Hr & Hl & Hg) Hd. split; [|split; [|split]].
  - touches_solve.
  - by rewrite <- (drift_rstate _ _ _ Hd).
  - intros H. by eapply lock_covers_drift, Hl.
  - intros Hf. apply Hg. by rewrite (drift_in_flight _ _ _ Hd).
Qed.

Lemma reconcile_node_spec allNodes all node p w :
  in_sync node (srv_nodes w) ->
  wp (reconcile_node r allNodes all node p) w (fun p' w' =>
    node_pass allNodes all node (p_nt p) (srv_nodes w) (srv_nodes w') (p_lock p) (p_lock p')).
Proof.
  intros Hs. unfold reconcile_node. apply wp_bind.
  eapply wp_mono; [by apply reconcile_switch_spec|]. intros [ns p'] w1 Hp. simpl in Hp.
  apply wp_bind. eapply wp_mono; [apply realizeNode_drift|]. intros ns' w2 Hd.
  apply wp_ret. by eapply node_pass_drift.
Qed.

Lemma reconcile_nodes_spec allNodes all work p w :
  NoDup (map node_name work) -> Forall (fun n => in_sync n (srv_nodes w)) work ->
  wp (reconcile_nodes r allNodes all work p) w (fun p' w' =>
    (lock_covers (p_lock p) (srv_nodes w) -> lock_covers (p_lock p') (srv_nodes w')) /\
    (forall name, name ∉ map node_name work -> node_rstate (srv_nodes w) name = node_rstate (srv_nodes w') name) /\
    (forall name, rstep (node_rstate (srv_nodes w) name) (node_rstate (srv_nodes w') name))).
Proof.
  revert p w. induction work as [|node work IH]; intros p w Hnd Hsync; cbn [reconcile_nodes].
  { apply wp_ret. split; [done|]; split; [done|]; constructor. }
  apply Forall_cons in Hsync as [Hs Hsync]. simpl in Hnd. apply NoDup_cons in Hnd as [Hni Hnd].
  apply wp_bind. eapply wp_mono; [by apply reconcile_node_spec|]. intros p1 w1 (Ho & Hr & Hl1 & _).
  eapply wp_mono; [apply IH; [done|]|].
  { rewrite Forall_forall in Hsync |- *. intros n Hn. eapply in_sync_other; [by apply Hsync | done |].
    intros E. apply Hni. rewrite <- E. by apply list_elem_of_fmap_2. }
  intros p2 w2 (Hl2 & Hout & Hin). split; [auto|]. split.
  - intros name Hname. simpl in Hname. apply not_elem_of_cons in Hname as [Hne Hname].
    rewrite <- (Hout name Hname). by eapply only_touches_rstate.
  - intros name. destruct (decide (name = node_name node)) as [->|Hne].
    + by rewrite <- (Hout _ Hni).
    + rewrite (only_touches_rstate _ _ _ _ Ho Hne). apply Hin.
Qed.

Lemma retry_steps_drift {A} n (f : St W (result apierr A)) w :
  (forall w0, wp f w0 (fun _ w' => drift (srv_nodes w0) (srv_nodes w'))) ->
  wp (retry_steps n f) w (fun _ w' => drift (srv_nodes w) (srv_nodes w')).
Proof.
  intros Hf. revert w. induction n as [|n IH]; intros w; simpl; apply wp_bind;
    (eapply wp_mono; [apply Hf|]); intros [e|a] w1 Hd; try (by apply wp_ret).
  case_match; [|by apply wp_ret]. wp_steps.
  eapply wp_mono; [apply IH|]. intros ? w2 Hd2. drift_solve.
Qed.

Lemma patchStatus_drift nt nodes w :
  wp (patchStatus nt nodes) w (fun _ w' => drift (srv_nodes w) (srv_nodes w')).
Proof.
  unfold patchStatus. destruct retry_spec as [n Hn].
  apply wp_intro. rewrite Hn.
  eapply (wp_run (retry_steps n _) w (fun _ w' => drift (srv_nodes w) (srv_nodes w')));
    [apply retry_steps_drift | apply surjective_pairing].
  intros w0. unfold patchStatus_once. wp_steps. case_match; wp_steps; drift_solve.
Qed.

Lemma removeFinalizer_drift nt w :
  wp (removeFinalizer nt) w (fun _ w' => drift (srv_nodes w) (srv_nodes w')).
Proof. unfold removeFinalizer. repeat case_match; wp_steps; done. Qed.

(** ** The work list *)

Lemma filter_names_nodup (f : Node -> bool) (l : list Node) :
  NoDup (map node_name l) -> NoDup (map node_name (List.filter f l)).
Proof.
  induction l as [|n l IH]; simpl; [done|]. intros [Hn Hnd]%NoDup_cons.
  destruct (f n); [|by apply IH]. simpl. apply NoDup_cons. split; [|by apply IH].
  intros Hin. apply Hn. apply list_elem_of_fmap in Hin as (n' & -> & Hn'). apply list_elem_of_fmap_2.
  apply list_elem_of_In. apply list_elem_of_In, filter_In in Hn'. by destruct Hn'.
Qed.

Lemma selectNodes_sub nodes sel matched :
  selectNodes nodes sel = inr matched -> exists f, matched = List.filter f nodes.
Proof.
  unfold selectNodes. destruct sel as [sel|]; [destruct (as_selector sel) as [|s]; [done|]|].
  - intros [= <-]. eauto.
  - intros [= <-]. exists (fun _ => false). induction nodes as [|n nodes IH]; [done|]. simpl. done.
Qed.

Lemma work_spec nodes matched ntName f :
  matched = List.filter f nodes -> NoDup (map node_name nodes) ->
  NoDup (map node_name (matched ++ adoptOwnedNodes nodes matched ntName)) /\
  (forall n, n ∈ matched ++ adoptOwnedNodes nodes matched ntName -> n ∈ nodes).
Proof.
  intros -> Hnd. split.
  - rewrite map_app. apply NoDup_app. repeat split; [by apply filter_names_nodup | |by apply filter_names_nodup].
    intros x Hx Hx'. apply list_elem_of_fmap in Hx as (n & -> & Hn). apply list_elem_of_fmap in Hx' as (n' & E & Hn').
    apply list_elem_of_In, filter_In in Hn' as [_ Hn']. bool_to_prop.
    assert (existsb (fun m => bool_decide (node_name m = node_name n')) (List.filter f nodes) = true); [|congruence].
    apply existsb_exists. exists n. split; [by apply list_elem_of_In | by apply bool_decide_eq_true].
  - intros n Hn. apply list_elem_of_In. apply list_elem_of_In, in_app_iff in Hn.
    by destruct Hn as [Hn|Hn]; apply filter_In in Hn as [Hn _].
Qed.

(** ** The whole pass *)

Lemma reconcile_live_spec nt allNodes m0 w :
  drift m0 (srv_nodes w) -> NoDup (map node_name allNodes) ->
  (forall name n, stored m0 !! name = Some n <-> n ∈ allNodes /\ node_name n = name) ->
  wp (reconcile_live r nt allNodes) w (fun _ w' =>
    (one_in_flight m0 -> one_in_flight (srv_nodes w')) /\
    forall name, rstep (node_rstate (srv_nodes w) name) (node_rstate (srv_nodes w') name)).
Proof.
  intros Hd Hnd Hm.
  assert (Hlock : one_in_flight m0 -> lock_covers (newCampaignLock allNodes) (srv_nodes w))
    by (intros H1; eapply lock_covers_drift; [done | by apply newCampaignLock_covers]).
  assert (Hstay : forall w', drift (srv_nodes w) (srv_nodes w') -> (one_in_flight m0 -> one_in_flight (srv_nodes w')) /\
    forall name, rstep (node_rstate (srv_nodes w) name) (node_rstate (srv_nodes w') name)).
  { intros w' Hd'. split; [intros H1; eapply one_in_flight_drift, H1; drift_solve|].
    intros name. rewrite (drift_rstate _ _ _ Hd'). constructor. }
  unfold reconcile_live. destruct (selectNodes _ _) as [e|matched] eqn:Hsel; [by apply wp_ret, Hstay|].
  destruct (selectNodes_sub _ _ _ Hsel) as [f Hf]. destruct (work_spec _ _ (nt_name nt) f Hf Hnd) as [Hwn Hwi].
  wp_steps. case_match; [by apply wp_ret, Hstay|].
  apply wp_bind. eapply wp_mono; [apply reconcile_nodes_spec; [done|]|].
  { apply Forall_forall. intros n Hn. eapply in_sync_drift; [|done]. eapply in_sync_drift; [|exact Hd]. intros key Hk.
    unfold ctl_key. assert (stored m0 !! node_name n = Some n) as -> by (apply Hm; auto). done. }
  intros p w2 (Hl & _ & Hr). cbn in Hl.
  assert (Hend : forall w', drift (srv_nodes w2) (srv_nodes w') -> (one_in_flight m0 -> one_in_flight (srv_nodes w')) /\
    forall name, rstep (node_rstate (srv_nodes w) name) (node_rstate (srv_nodes w') name)).
  { intros w3 Hd3. split; [intros H1; eapply lock_covers_one, lock_covers_drift, Hl, lock_covers_drift, Hlock, H1; done|].
    intros name. rewrite <- (drift_rstate _ _ name Hd3). erewrite (drift_rstate (srv_nodes w)) by done. apply Hr. }
  apply wp_bind. eapply wp_mono; [apply patchStatus_drift|]. intros [e|nt'] w3 Hd3; [by apply wp_ret, Hend|].
  apply wp_bind. destruct (p_ownsNode p).
  - apply wp_ret, wp_ret. by apply Hend.
  - eapply wp_mono; [apply removeFinalizer_drift|]. intros ferr w4 Hd4. apply wp_ret, Hend. drift_solve.
Qed.

(** Deleting the object only ever takes nodes out of a rollout. *)
Definition released (m m' : Server) : Prop :=
  (forall name, node_rstate m' name = node_rstate m name \/ node_rstate m' name = Idle) /\ (lost m <= lost m')%nat.

Lemma released_drift m m1 m2 : released m m1 -> drift m1 m2 -> released m m2.
Proof. intros [Hr Hl] Hd. split; [|destruct Hd; lia]. intros name. rewrite <- (drift_rstate _ _ name Hd). apply Hr. Qed.
Lemma drift_released m m' : drift m m' -> released m m'.
Proof. intros Hd. split; [|destruct Hd; lia]. intros name. left. symmetry. by apply drift_rstate. Qed.
Lemma released_trans m m1 m2 : released m m1 -> released m1 m2 -> released m m2.
Proof. intros [R1 L1] [R2 L2]. split; [|lia]. intros x. destruct (R2 x) as [->|]; [apply R1|by right]. Qed.
Lemma uncordoned_idle node m m' : only_touches (node_name node) m m' -> in_sync (uncordoned node) m' ->
  node_rstate m' (node_name node) = Idle /\ released m m'.
Proof.
  intros Ho Hi. assert (node_rstate m' (node_name node) = Idle) as Hidle.
  { rewrite (in_sync_rstate _ _ Hi : node_rstate _ (node_name node) = _). by rewrite (uncordoned_keys node _ started_key). }
  split; [done|]. split; [|apply Ho]. intros name. destruct (decide (name = node_name node)) as [->|Hne]; [by right|left].
  symmetry. by eapply only_touches_rstate.
Qed.

Lemma release_owned_spec ntName nodes w :
  NoDup (map node_name nodes) -> Forall (fun n => in_sync n (srv_nodes w)) nodes ->
  wp (release_owned ntName nodes) w (fun err w' =>
    released (srv_nodes w) (srv_nodes w') /\
    (forall name, name ∉ map node_name nodes -> node_rstate (srv_nodes w') name = node_rstate (srv_nodes w) name) /\
    (err = None -> forall n, n ∈ nodes -> rolloutOwnedBy n ntName = true ->
       node_rstate (srv_nodes w') (node_name n) = Idle)).
Proof.
  revert w. induction nodes as [|node nodes IH]; intros w Hnd Hsync; cbn [release_owned].
  { apply wp_ret. split; [by apply drift_released|]. split; [done|]. intros _ n Hn. by apply elem_of_nil in Hn. }
  apply Forall_cons in Hsync as [Hs Hsync]. simpl in Hnd. apply NoDup_cons in Hnd as [Hni Hnd].
  assert (Hother : forall w', only_touches (node_name node) (srv_nodes w) (srv_nodes w') ->
    forall name, name ∉ node_name node :: map node_name nodes -> node_rstate (srv_nodes w') name = node_rstate (srv_nodes w) name).
  { intros w' Ho name [Hne _]%not_elem_of_cons. symmetry. by eapply only_touches_rstate. }
  destruct (rolloutOwnedBy node ntName) eqn:Hown; simpl.
  - apply wp_bind. apply wp_patch_node; [done | done | | |].
    + intros e w1 Hd. apply wp_ret. split; [by apply drift_released|]. split; [intros; by rewrite (drift_rstate _ _ _ Hd) | done].
    + intros e w1 Ho Hi _. apply wp_ret. split; [by eapply uncordoned_idle|]. split; [by apply Hother | done].
    + intros n' w1 Ho Hi _. wp_steps. destruct (uncordoned_idle _ _ _ Ho Hi) as [Hidle Hrel1].
      match goal with H : drift (srv_nodes w1) (srv_nodes ?x) |- _ => rename x into w2, H into Hd2 end.
      eapply wp_mono; [apply IH; [done|]|].
      { rewrite Forall_forall in Hsync |- *. intros n Hn. eapply in_sync_drift; [|exact Hd2].
        eapply in_sync_other; [by apply Hsync | done |].
        intros E. apply Hni. rewrite <- E. by apply list_elem_of_fmap_2. }
      intros err w3 (Hrel & Hout & Hdone). split; [|split].
      * eapply released_trans; [|exact Hrel]. by eapply released_drift.
      * intros name Hname. rewrite Hout by (intros ?; apply Hname; by right). rewrite <- (drift_rstate (srv_nodes w1)) by done. by apply Hother.
      * intros He n Hn Hn'. apply elem_of_cons in Hn as [->|Hn]; [|by apply Hdone]. rewrite Hout by done. by rewrite <- (drift_rstate (srv_nodes w1)).
  - eapply wp_mono; [by apply IH|]. intros err w2 (Hrel & Hout & Hdone). split; [done|]. split.
    + intros name Hname. apply Hout. intros Hin. apply Hname. simpl. by right.
    + intros He n Hn Hn'. apply elem_of_cons in Hn as [->|Hn]; [congruence | by apply Hdone].
Qed.

Lemma released_one m m' : released m m' -> one_in_flight m -> one_in_flight m'.
Proof.
  intros [Hr Hl] H1. unfold one_in_flight in *. assert (rolling m' ⊆ rolling m) as Hs; [|apply subseteq_size in Hs; lia].
  intros a. rewrite !elem_of_rolling, !in_flight_rstate. destruct (Hr a) as [<-|]; congruence.
Qed.

Lemma finishDeletion_spec nt nodes w :
  NoDup (map node_name nodes) -> Forall (fun n => in_sync n (srv_nodes w)) nodes ->
  wp (finishDeletion nt nodes) w (fun err w' =>
    released (srv_nodes w) (srv_nodes w') /\
    (err = None -> forall n, n ∈ nodes -> rolloutOwnedBy n (nt_name nt) = true ->
       ~ in_flight (srv_nodes w') (node_name n))).
Proof.
  intros Hnd Hs. unfold finishDeletion. apply wp_bind. eapply wp_mono; [by apply release_owned_spec|].
  intros [e|] w1 (Hr & _ & Hdone); [by apply wp_ret|].
  eapply wp_mono; [apply removeFinalizer_drift|]. intros err w2 Hd. split; [by eapply released_drift|].
  intros _ n Hn Hown. rewrite in_flight_rstate, <- (drift_rstate _ _ _ Hd), Hdone by done. tauto.
Qed.

(** One pass of the reconciler: the lock holds at its end, and every node
    moved by at most one step, or was released by the deletion path. *)
Lemma Reconcile_spec name w :
  wp (Reconcile r name) w (fun _ w' => (one_in_flight (srv_nodes w) -> one_in_flight (srv_nodes w')) /\
    ((forall x, rstep (node_rstate (srv_nodes w) x) (node_rstate (srv_nodes w') x)) \/
     released (srv_nodes w) (srv_nodes w') /\ forall nt, (get_nt name w).1 = inr nt -> nt_deleting nt = true)).
Proof.
  assert (Hstay : forall w', drift (srv_nodes w) (srv_nodes w') -> (one_in_flight (srv_nodes w) -> one_in_flight (srv_nodes w')) /\
    ((forall x, rstep (node_rstate (srv_nodes w) x) (node_rstate (srv_nodes w') x)) \/
     released (srv_nodes w) (srv_nodes w') /\ forall nt, (get_nt name w).1 = inr nt -> nt_deleting nt = true)).
  { intros w' Hd. split; [by apply one_in_flight_drift | left]. intros x. rewrite (drift_rstate _ _ _ Hd). constructor. }
  unfold Reconcile. apply wp_bind, wp_intro. pose proof (get_nt_drift name w) as Hd. destruct (get_nt name w) as [[e|nt] w1]; cbn [fst snd] in *; [by apply wp_ret, Hstay|].
  apply wp_bind, wp_intro. pose proof (list_nodes_spec w1) as Hspec.
  destruct (list_nodes w1) as [[e|allNodes] w2]; cbn [fst snd] in *; [apply wp_ret, Hstay; drift_solve|].
  destruct Hspec as (m0 & Hd0 & Hd1 & Hnd & Hm). assert (Hd2 : drift (srv_nodes w) (srv_nodes w2)) by drift_solve.
  destruct (nt_deleting nt) eqn:Hdel.
  - apply wp_bind. eapply wp_mono; [apply finishDeletion_spec; [done|]|].
    { apply Forall_forall. intros nd Hn. eapply in_sync_drift; [|exact Hd1]. intros key Hk. unfold ctl_key.
      assert (stored m0 !! node_name nd = Some nd) as -> by (by apply Hm). done. }
    intros err w3 [Hr _]. apply wp_ret. assert (released (srv_nodes w) (srv_nodes w3)) as Hr' by (eapply released_trans; [by apply drift_released|done]).
    split; [by apply released_one|]. right. split; [done|]. by intros ? [= <-].
  - eapply wp_mono; [eapply reconcile_live_spec; [exact Hd1 | done | done]|].
    intros res w3 [Ho Hr]. split; [intros H1; apply Ho; eapply one_in_flight_drift, H1; drift_solve|]. left. intros x.
    rewrite (drift_rstate _ _ x Hd2). apply Hr.
Qed.

(** ** The whole system

    Passes of the reconciler on any object, in any order, interleaved with
    everything the controller does not do: what leaves the rollout keys
    alone (agent ticks, the kubelet, nodes joining, other objects), and a
    human releasing a halted node by removing its started annotation. *)
Inductive sys_step (w w' : W) : Prop :=
| sys_reconcile name : (Reconcile r name w).2 = w' -> sys_step w w'
| sys_env : drift (srv_nodes w) (srv_nodes w') -> sys_step w w'
| sys_human name : only_touches name (srv_nodes w) (srv_nodes w') ->
    ctl_key (srv_nodes w') name TuningRolloutStartedAnnotation = None -> sys_step w w'.

Lemma sys_step_one w w' : sys_step w w' -> one_in_flight (srv_nodes w) -> one_in_flight (srv_nodes w').
Proof.
  intros [name <-|Hd|name Ho Hn] H1.
  - by apply (wp_run _ _ _ _ _ (Reconcile_spec name w) (surjective_pairing _)).
  - by eapply one_in_flight_drift.
  - unfold one_in_flight in *. assert (rolling (srv_nodes w') ⊆ rolling (srv_nodes w)) as Hs; [|apply subseteq_size in Hs; destruct Ho; lia].
    pose proof (rolling_touched _ _ _ Ho). assert (name ∉ rolling (srv_nodes w')); [|set_solver].
    rewrite elem_of_rolling. intros [y Hx]. congruence.
Qed.
End Pass.

(** * Properties *)
Section Properties.
Context `{LS : LabelSelectors} {W : Type} `{C : !Cluster W} `{CL : !ClusterLaws W}.

(** C3. One node at a time: from a cluster with no node mid-rollout, in every
    sequence of reconcile passes (of any NodeTuning, with any API failures),
    agent and kubelet writes and human releases, at most one node is
    mid-rollout, and one more for each patch of the rollout that the server
    applied although it answered an error. *)
Theorem one_node_at_a_time (r : Reconciler) (w w' : W) :
  rtc (sys_step r) w w' -> (forall name, ~ in_flight (srv_nodes w) name) ->
  (size (rolling (srv_nodes w')) <= 1 + lost (srv_nodes w'))%nat /\
  (lost (srv_nodes w') = 0%nat -> forall a b, in_flight (srv_nodes w') a -> in_flight (srv_nodes w') b -> a = b).
Proof.
  intros Hrun H0. assert (one_in_flight (srv_nodes w')) as H1.
  { assert (one_in_flight (srv_nodes w)) as H1.
    { unfold one_in_flight. replace (rolling (srv_nodes w)) with (∅ : gset string); [rewrite size_empty; lia|].
      apply set_eq. intros a. rewrite elem_of_rolling. split; [set_solver|]. intros Ha. by destruct (H0 a). }
    clear H0. induction Hrun as [|x y z Hs _ IH]; [done|]. by apply IH, (sys_step_one r x y). }
  split; [exact H1|]. intros HL. by apply one_in_flight_unique.
Qed.

(** C12. A pass over a live object refines the rollout state machine: every
    node of the cluster makes at most one transition of [rstep], whatever
    fails and whichever answers are lost. *)
Theorem pass_refines_machine (r : Reconciler) (name : string) (w : W) (nt : NodeTuning) :
  (get_nt name w).1 = inr nt -> nt_deleting nt = false ->
  forall node, rstep (node_rstate (srv_nodes w) node) (node_rstate (srv_nodes (Reconcile r name w).2) node).
Proof.
  intros Hget Hdel. destruct (wp_run _ _ _ _ _ (Reconcile_spec r name w) (surjective_pairing _)) as [_ [Hr|[_ Hr]]]; [done|].
  by rewrite (Hr nt Hget) in Hdel.
Qed.

(** A failure halts the campaign: while a node is halted, a pass of any
    live NodeTuning leaves it halted and, unless an answer was lost, every other
    node out of a rollout. *)
Theorem halted_node_halts_campaign (r : Reconciler) (name bad : string) (w : W) (nt : NodeTuning) :
  one_in_flight (srv_nodes w) -> (get_nt name w).1 = inr nt -> nt_deleting nt = false ->
  node_rstate (srv_nodes w) bad = Halted -> lost (srv_nodes (Reconcile r name w).2) = 0%nat ->
  node_rstate (srv_nodes (Reconcile r name w).2) bad = Halted /\
  forall other, other <> bad -> node_rstate (srv_nodes (Reconcile r name w).2) other = Idle.
Proof.
  intros H1 Hget Hdel Hbad HL.
  destruct (wp_run _ _ _ _ _ (Reconcile_spec r name w) (surjective_pairing _)) as [Ho [Hs|[_ Hd]]]; [|by rewrite (Hd nt Hget) in Hdel].
  assert (node_rstate (srv_nodes (Reconcile r name w).2) bad = Halted) as Hb by (specialize (Hs bad); rewrite Hbad in Hs; by inversion Hs).
  split; [done|]. intros other Hne. destruct (decide (node_rstate (srv_nodes (Reconcile r name w).2) other = Idle)) as [|Hn]; [done|].
  destruct Hne. apply (one_in_flight_unique _ (Ho H1) HL); apply in_flight_rstate; congruence.
Qed.

(** The same, spelled out. *)
Record gate_open (allNodes : list Node) (all : list NodeTuning) (node : Node) (nt : NodeTuning) : Prop := {
  go_mismatch : exists k, spec_ksm (nt_spec nt) = Some k /\
    ksm_enabled k <> match obs_ksm (ns_observed (existingNodeStatus (nt_nodes nt) (node_name node))) with Some o => obs_memoryKSM o | None => false end;
  go_approved : exists raw, node_annotations node !! ApprovalAnnotation = Some raw /\ parse_int64 raw = Some (nt_generation nt);
  go_pending : forall t, ns_restartedAt (existingNodeStatus (nt_nodes nt) (node_name node)) = Some t ->
    ns_restartedGeneration (existingNodeStatus (nt_nodes nt) (node_name node)) <> nt_generation nt;
  go_alone : forall other s sel, other ∈ all -> nt_name other <> nt_name nt -> spec_nodeSelector (nt_spec other) = Some s ->
    as_selector s = inr sel -> selector_matches sel (node_labels node) = false;
  go_ready : Forall (fun n => nodeIsReady n = true) allNodes;
  go_unit : annotation node TuningUnitAnnotation ∈ ["k3s"; "k3s-agent"; "kubelet"; "containerd"]
}.

Lemma overlapping_nil all self node : overlappingNodeTunings all self node = [] ->
  forall other s sel, other ∈ all -> nt_name other <> self -> spec_nodeSelector (nt_spec other) = Some s ->
    as_selector s = inr sel -> selector_matches sel (node_labels node) = false.
Proof.
  intros H other s sel Hin Hne Hs Hsel. apply not_true_iff_false. intros Hm.
  assert (Hx : nt_name other ∈ overlappingNodeTunings all self node); [|rewrite H in Hx; by apply elem_of_nil in Hx].
  unfold overlappingNodeTunings, sort_strings. apply elem_of_sort_by, list_elem_of_In, in_map, filter_In.
  split; [by apply list_elem_of_In|]. rewrite bool_decide_false by done. by rewrite Hs, Hsel.
Qed.

Lemma gate_opens allNodes all node nt : gate allNodes all node nt -> gate_open allNodes all node nt.
Proof.
  intros (H1 & H2 & H3 & H4 & H5 & H6). constructor; [| | |by apply overlapping_nil|by apply notReadyNodes_nil|by apply IsRestartable_iff].
  - unfold diffTuning, diffTuning_parts in H1. destruct (spec_ksm (nt_spec nt)) as [k|]; [|done]. exists k. split; [done|].
    destruct (Bool.eqb _ _) eqn:E; [done|]. by apply eqb_false_iff.
  - unfold approvedForGeneration in H2. destruct (_ !! ApprovalAnnotation) as [raw|]; [|done]. exists raw. split; [done|].
    destruct (parse_int64 raw) as [g|]; [|done]. destruct (g <? 0); [done|]. apply Z.eqb_eq in H2. by subst.
  - intros t Ht Hg. unfold restartedForGeneration in H3. rewrite Ht, Hg, Z.eqb_refl in H3. done.
Qed.

(** A node enters a rollout only behind the whole gate: its KSM state
    disagrees with what was measured, the approval annotation is this very generation,
    no restart was verified for it yet, no other NodeTuning selects the node,
    every node of the cluster is Ready, and its unit is on the allowlist. *)
Theorem cordon_only_behind_gate (r : Reconciler) (allNodes : list Node) (all : list NodeTuning)
    (node : Node) (p : Pass) (w : W) :
  in_sync node (srv_nodes w) ->
  rolloutInFlight node = false ->
  in_flight (srv_nodes (reconcile_node r allNodes all node p w).2) (node_name node) ->
  gate_open allNodes all node (p_nt p).
Proof.
  intros Hs Hf Hin.
  destruct (wp_run _ _ _ _ _ (reconcile_node_spec r allNodes all node p w Hs) (surjective_pairing _))
    as (_ & _ & _ & Hg).
  destruct (Hg Hin) as [Hold|Hgate].
  - exfalso. unfold in_flight in Hold. rewrite (Hs _ started_key) in Hold.
    apply rolloutInFlight_spec in Hold. congruence.
  - by apply gate_opens.
Qed.

(** A node is handed its workloads back only on evidence: continueRollout
    takes it out of the rollout only when the unit's ActiveEnterTimestamp is
    after the baseline and the node is Ready, and then records that very
    timestamp and the generation, and releases the lock; or, the answer lost,
    leaves both as they were. *)
Theorem uncordon_needs_evidence (r : Reconciler) (nt : NodeTuning) (node : Node)
    (ns ns' : NodeTuningNodeStatus) (lock lock' : campaignLock) (w w' : W) :
  in_sync node (srv_nodes w) -> rolloutInFlight node = true ->
  continueRollout r nt node ns lock w = ((ns', lock'), w') ->
  ~ in_flight (srv_nodes w') (node_name node) ->
  exists baseline current,
    annotationTime node TuningRestartBaselineAnnotation = inr baseline /\
    annotationTime node TuningUnitActiveEnterAnnotation = inr current /\
    after current baseline = true /\ nodeIsReady node = true /\
    (ns_restartedAt ns' = Some current /\ ns_restartedGeneration ns' = nt_generation nt /\
     lock' = release lock (node_name node) \/ same_restart ns ns' /\ lock' = lock).
Proof.
  intros Hs Hf Hrun Hout. apply rolloutInFlight_spec in Hf.
  pose proof (wp_run _ _ _ _ _ (continueRollout_spec r nt node ns lock w Hs) Hrun) as Hc. simpl in Hc.
  assert (Hin : in_flight (srv_nodes w) (node_name node)) by (unfold in_flight; by rewrite (Hs _ started_key)).
  assert (Hkeep : forall node', node_name node' = node_name node -> in_sync node' (srv_nodes w') ->
    node_annotations node' !! TuningRolloutStartedAnnotation = node_annotations node !! TuningRolloutStartedAnnotation ->
    in_flight (srv_nodes w') (node_name node)).
  { intros node' Hn Hi E. unfold in_flight. rewrite <- Hn, (Hi _ started_key), E. done. }
  destruct Hc as [Hd|now Ho Hi|b now pods w1 _ _ _ _ _ Ho Hi|req b c Hreq Hb Hc Ha Hr Ho Hi Hlk H1 H2 H3 H4|req b c Hreq Hb Hc Ha Hr Ho Hi Hlk H1 H2].
  - destruct Hout. by rewrite <- (drift_in_flight _ _ _ Hd).
  - destruct Hout. eapply Hkeep; [|exact Hi|]; [done|]. ann_simpl.
  - destruct Hout. eapply Hkeep; [|exact Hi|]; [done|]. ann_simpl.
  - exists b, c. by auto 8.
  - exists b, c. by auto 8.
Qed.

(** A restart is requested only once the drain is over: when the restart
    request appears, the pods listed on the node held none that blocks the
    drain, and the baseline written with it is the unit's timestamp at that
    moment. *)
Theorem request_needs_drain (r : Reconciler) (nt : NodeTuning) (node : Node)
    (ns ns' : NodeTuningNodeStatus) (lock lock' : campaignLock) (w w' : W) :
  in_sync node (srv_nodes w) -> rolloutInFlight node = true -> rolloutHalted node = false ->
  continueRollout r nt node ns lock w = ((ns', lock'), w') ->
  node_rstate (srv_nodes w) (node_name node) = Draining ->
  node_rstate (srv_nodes w') (node_name node) = Waiting ->
  exists pods baseline,
    (list_pods_on (node_name node) w).1 = inr pods /\ Forall (fun pod => blocksDrain pod = false) pods /\
    annotationTime node TuningUnitActiveEnterAnnotation = inr baseline /\
    ctl_key (srv_nodes w') (node_name node) TuningRestartBaselineAnnotation = Some (format_nano baseline).
Proof.
  intros Hs Hf Hh Hrun Hst Hst'.
  pose proof (wp_run _ _ _ _ _ (continueRollout_spec r nt node ns lock w Hs) Hrun) as Hc. simpl in Hc.
  rewrite (rstate_running _ _ Hs Hf Hh) in Hst. apply rolloutInFlight_spec in Hf as [x Hf].
  destruct Hc as [Hd|now Ho Hi|b now pods w1 Hb Hp Hz _ _ Ho Hi|req b c Hreq|req b c Hreq].
  - rewrite <- (drift_rstate _ _ _ Hd), (rstate_running _ _ Hs) in Hst' by (done || by apply rolloutInFlight_spec).
    congruence.
  - rewrite (in_sync_rstate _ _ Hi : node_rstate (srv_nodes w') (node_name node) = _) in Hst'.
    revert Hst'. ann_simpl. by rewrite Hf.
  - exists pods, b. rewrite Hp. split; [done|]. split; [by apply blocking_zero|]. split; [done|].
    rewrite (Hi _ baseline_key : ctl_key (srv_nodes w') (node_name node) _ = _). ann_simpl.
  - by rewrite Hreq in Hst.
  - by rewrite Hreq in Hst.
Qed.

(** C38. The wait is bounded: with a restart requested and no evidence yet
    (or the node not Ready), the outcome is Failed exactly when the restart
    timeout has passed, and Applying before. *)
Theorem wait_is_bounded (r : Reconciler) (nt : NodeTuning) (node : Node)
    (ns : NodeTuningNodeStatus) (lock : campaignLock) (w : W) (requested : time) :
  annotationTime node TuningRestartRequestedAnnotation = inr requested ->
  (forall baseline current, annotationTime node TuningRestartBaselineAnnotation = inr baseline ->
     annotationTime node TuningUnitActiveEnterAnnotation = inr current -> after current baseline = true ->
     nodeIsReady node = false) ->
  ns_phase (continueRollout r nt node ns lock w).1.1 =
    if (if 0 <? RestartTimeout r then RestartTimeout r else 5 * 60 * 10 ^ 9) <? sub (clock w).1 requested
    then PhaseFailed else PhaseApplying.
Proof.
  intros Hreq Hno. assert ((if 0 <? RestartTimeout r then RestartTimeout r else 5 * 60 * 10 ^ 9) = restartTimeout r) as -> by reflexivity.
  unfold continueRollout. rewrite Hreq.
  assert (Hfail : forall msg w0, ns_phase (failRollout node ns msg w0).1 = PhaseFailed).
  { intros msg w0. unfold failRollout. by rewrite !St_bind_run. }
  destruct (annotationTime node TuningRestartBaselineAnnotation) as [e|b] eqn:Hb;
  destruct (annotationTime node TuningUnitActiveEnterAnnotation) as [e'|c] eqn:Hc;
  try destruct (after c b) eqn:Ha; try rewrite (Hno b c eq_refl eq_refl Ha); cbn [negb];
  rewrite St_bind_run; case_match; rewrite ?St_bind_run; cbn [mret St_ret fst]; rewrite ?Hfail; done.
Qed.

(** Deleting a NodeTuning strands no node: when finishDeletion reports
    success, none of the nodes it owned is mid-rollout, and it never moves a
    node that was not. *)
Theorem deletion_releases_nodes (nt : NodeTuning) (nodes : list Node) (w w' : W) :
  NoDup (map node_name nodes) -> Forall (fun n => in_sync n (srv_nodes w)) nodes ->
  finishDeletion nt nodes w = (None, w') ->
  released (srv_nodes w) (srv_nodes w') /\
  forall n, n ∈ nodes -> rolloutOwnedBy n (nt_name nt) = true -> ~ in_flight (srv_nodes w') (node_name n).
Proof.
  intros Hnd Hs Hrun.
  destruct (wp_run _ _ _ _ _ (finishDeletion_spec nt nodes w Hnd Hs) Hrun) as [Hr Hd]. by split; [|apply Hd].
Qed.
End Properties.

(** * Concrete runs *)

Lemma rolling_by_check (m : Server) : bool_decide (rolling m = ∅) = true -> forall name, ~ in_flight m name.
Proof. intros H%bool_decide_eq_true name. rewrite <- elem_of_rolling, H. set_solver. Qed.

(** n1's cordon is applied and its answer lost: the pass takes n1 as not
    started, the lock is free, and n2 is cordoned too. *)
Definition demo_lost : World :=
  demo_world [demo_node "n1" "4" 10; demo_node "n2" "4" 10] [] demo_nt 100 [None; Some lost_answer].

Lemma one_node_at_a_time_witness :
  let w := (Reconcile demo_reconciler "t" (Reconcile demo_reconciler "t" demo0).2).2 in
  size (rolling (srv_nodes w)) = 1%nat /\ forall a b, in_flight (srv_nodes w) a -> in_flight (srv_nodes w) b -> a = b.
Proof.
  split; [vm_compute; reflexivity|].
  apply (one_node_at_a_time demo_reconciler demo0 (Reconcile demo_reconciler "t" (Reconcile demo_reconciler "t" demo0).2).2).
  - apply (rtc_l _ _ (Reconcile demo_reconciler "t" demo0).2); [|apply rtc_once];
      exact (sys_reconcile _ _ _ "t" eq_refl).
  - apply rolling_by_check. vm_compute. reflexivity.
  - vm_compute. reflexivity.
Defined.

(** After a lost answer two nodes are mid-rollout, by one pass. *)
Theorem lost_answer_two_nodes : rolling (srv_nodes demo_lost) = ∅ /\
  rolling (srv_nodes (Reconcile demo_reconciler "t" demo_lost).2) = {["n1"; "n2"]} /\
  lost (srv_nodes (Reconcile demo_reconciler "t" demo_lost).2) = 1%nat.
Proof. split; [vm_compute; reflexivity|]. split; vm_compute; reflexivity. Qed.

Lemma pass_refines_machine_witness :
  rstep (node_rstate (srv_nodes demo0) "n1") (node_rstate (srv_nodes (Reconcile demo_reconciler "t" demo0).2) "n1").
Proof.
  apply (pass_refines_machine demo_reconciler "t" demo0 demo_nt).
  - vm_compute. reflexivity.
  - reflexivity.
Defined.

(** n1 failed its restart; n2 is approved and waiting. *)
Definition demo_halted : World :=
  demo_world [demo_rolling (demo_node "n1" "4" 10) "t" 100 (<[TuningRolloutFailedAnnotation := format_nano (at_s 999)]> demo_requested);
              demo_node "n2" "4" 10] [] demo_nt 1000 [].

Lemma halted_node_halts_campaign_witness :
  node_rstate (srv_nodes (Reconcile demo_reconciler "t" demo_halted).2) "n2" = Idle.
Proof.
  apply (halted_node_halts_campaign demo_reconciler "t" "n1" demo_halted demo_nt).
  - apply Nat.leb_le. vm_compute. reflexivity.
  - vm_compute. reflexivity.
  - reflexivity.
  - vm_compute. reflexivity.
  - vm_compute. reflexivity.
  - discriminate.
Defined.

(** The local copy is the server's node. *)
Lemma in_sync_self (m : Server) (n : Node) : stored m !! node_name n = Some n -> in_sync n m.
Proof. intros H key _. unfold ctl_key. by rewrite H. Qed.

Definition demo_pass : Pass := mkPass demo_nt (mkLock "") false false [].

Lemma cordon_only_behind_gate_witness :
  gate_open [demo_node "n1" "4" 10; demo_node "n2" "4" 10] [demo_nt] (demo_node "n1" "4" 10) demo_nt.
Proof.
  apply (cordon_only_behind_gate demo_reconciler [demo_node "n1" "4" 10; demo_node "n2" "4" 10] [demo_nt]
           (demo_node "n1" "4" 10) demo_pass demo0).
  - apply in_sync_self. vm_compute. reflexivity.
  - reflexivity.
  - apply (bool_decide_unpack _). vm_compute. exact I.
Defined.

(** n1 was asked to restart at second 110; its unit came back at second 120. *)
Definition demo_back : Node := demo_rolling (demo_node "n1" "4" 120) "t" 100 demo_requested.
Definition demo_restarted : World := demo_world [demo_back; demo_node "n2" "4" 10] [] demo_nt 130 [].

Lemma uncordon_needs_evidence_witness :
  exists baseline current,
    annotationTime demo_back TuningRestartBaselineAnnotation = inr baseline /\
    annotationTime demo_back TuningUnitActiveEnterAnnotation = inr current /\
    after current baseline = true.
Proof.
  destruct (uncordon_needs_evidence demo_reconciler demo_nt demo_back (fresh_node_status "n1")
              (continueRollout demo_reconciler demo_nt demo_back (fresh_node_status "n1") (mkLock "n1") demo_restarted).1.1
              (mkLock "n1")
              (continueRollout demo_reconciler demo_nt demo_back (fresh_node_status "n1") (mkLock "n1") demo_restarted).1.2
              demo_restarted
              (continueRollout demo_reconciler demo_nt demo_back (fresh_node_status "n1") (mkLock "n1") demo_restarted).2)
    as (b & c & Hb & Hc & Ha & _).
  - apply in_sync_self. vm_compute. reflexivity.
  - vm_compute. reflexivity.
  - rewrite <- !surjective_pairing. reflexivity.
  - vm_compute. intros [x Hx]. discriminate Hx.
  - exists b, c. auto.
Defined.

(** n1 is cordoned and drained, its restart not requested yet. *)
Definition demo_drained : Node := demo_rolling (demo_node "n1" "4" 10) "t" 100 ∅.
Definition demo_draining : World := demo_world [demo_drained; demo_node "n2" "4" 10] [demo_pod "p" "n2"] demo_nt 110 [].

Lemma request_needs_drain_witness :
  exists pods baseline,
    (list_pods_on "n1" demo_draining).1 = inr pods /\ Forall (fun pod => blocksDrain pod = false) pods /\
    annotationTime demo_drained TuningUnitActiveEnterAnnotation = inr baseline.
Proof.
  destruct (request_needs_drain demo_reconciler demo_nt demo_drained (fresh_node_status "n1")
              (continueRollout demo_reconciler demo_nt demo_drained (fresh_node_status "n1") (mkLock "n1") demo_draining).1.1
              (mkLock "n1")
              (continueRollout demo_reconciler demo_nt demo_drained (fresh_node_status "n1") (mkLock "n1") demo_draining).1.2
              demo_draining
              (continueRollout demo_reconciler demo_nt demo_drained (fresh_node_status "n1") (mkLock "n1") demo_draining).2)
    as (pods & b & Hp & Hf & Hb & _).
  - apply in_sync_self. vm_compute. reflexivity.
  - vm_compute. reflexivity.
  - vm_compute. reflexivity.
  - rewrite <- !surjective_pairing. reflexivity.
  - vm_compute. reflexivity.
  - vm_compute. reflexivity.
  - exists pods, b. auto.
Defined.

(** n1 was asked at second 110 and never came back; at second 1000 the five
    minutes are over. *)
Definition demo_stuck : Node := demo_rolling (demo_node "n1" "4" 10) "t" 100 demo_requested.

Lemma wait_is_bounded_witness :
  ns_phase (continueRollout demo_reconciler demo_nt demo_stuck (fresh_node_status "n1") (mkLock "n1")
    (demo_world [demo_stuck] [] demo_nt 1000 [])).1.1 = PhaseFailed.
Proof.
  rewrite (wait_is_bounded demo_reconciler demo_nt demo_stuck (fresh_node_status "n1") (mkLock "n1")
             (demo_world [demo_stuck] [] demo_nt 1000 []) (at_s 110)).
  - vm_compute. reflexivity.
  - vm_compute. reflexivity.
  - intros b c Hb Hc. vm_compute in Hb, Hc. injection Hb as <-. injection Hc as <-.
    vm_compute. discriminate.
Defined.

Lemma deletion_releases_nodes_witness :
  ~ in_flight (srv_nodes (finishDeletion demo_nt [demo_stuck] (demo_world [demo_stuck] [] demo_nt 120 [])).2) "n1".
Proof.
  apply (deletion_releases_nodes demo_nt [demo_stuck] (demo_world [demo_stuck] [] demo_nt 120 [])
           (finishDeletion demo_nt [demo_stuck] (demo_world [demo_stuck] [] demo_nt 120 [])).2) with (n := demo_stuck).
  - apply (bool_decide_unpack _). vm_compute. exact I.
  - constructor; [|constructor]. apply in_sync_self. vm_compute. reflexivity.
  - vm_compute. reflexivity.
  - by left.
  - vm_compute. reflexivity.
Defined.

(** ** The finalizer and a failed Update

    The first node's ensureFinalizer adds the finalizer to the local object and
    its Update fails; the second node's ensureFinalizer then finds it there. *)
Definition demo_conflict : World :=
  demo_world [demo_node "n1" "4" 10; demo_node "n2" "4" 10] [] demo_nt 100
    [Some (ApiErr "the object has been modified" false true)].

(** When the Update that adds the finalizer fails for one node, the same
    pass goes on to cordon the next one although the stored NodeTuning carries
    no finalizer: a deletion of the object would then not release the node. *)
Theorem finalizer_lost_on_failed_update :
  let w := (Reconcile demo_reconciler "t" demo_conflict).2 in
  (exists n, w_nodes w !! "n2" = Some n /\ rolloutOwnedBy n "t" = true /\ node_unschedulable n = true) /\
  (exists nt, w_nts w !! "t" = Some nt /\ nt_finalizers nt = []).
Proof.
  split; [exists (demo_rolling (demo_node "n2" "4" 10) "t" 100 ∅) |]; vm_compute.
  - repeat split.
  - eexists. split; reflexivity.
Qed.
