(* ===== verification/Agent.v ===== *)
(** The node agent: internal/agent (apply.go, observe.go, systemd.go,
    status.go) and the tuning half of cmd/agent/main.go. The node's filesystem
    is an explicit state; the command runner is a parameter, as in the source
    (the CommandRunner interface). *)
From stdpp Require Import base tactics strings list gmap.
From Stdlib Require Import ZArith Lia Ascii.
From S2P Require Import Prelude GoLib GoTime Kube Cluster Rollout.

Open Scope Z_scope.

(** ** The node's files

    [h_files] are the files by path; an operation on a path of [h_faults]
    fails with that text (EACCES, EBUSY). Directories are implicit. [h_ran] is
    the trace of the commands executed so far, newest first: nothing in the
    program reads it, the theorems do. *)
Record Host := mkHost {
  h_files : gmap string string;
  h_faults : gmap string string;
  h_ran : list (string * list string)
}.

Inductive fserr := NotExist | FsErr (text : string).

Definition read_file (path : string) : St Host (result fserr string) := fun h =>
  (match h_faults h !! path with
   | Some e => inl (FsErr e)
   | None => match h_files h !! path with Some s => inr s | None => inl NotExist end
   end, h).

Definition write_file (path content : string) : St Host (option string) := fun h =>
  match h_faults h !! path with
  | Some e => (Some e, h)
  | None => (None, mkHost (<[path := content]> (h_files h)) (h_faults h) (h_ran h))
  end.

Definition mkdir_all (dir : string) : St Host (option string) := fun h => (h_faults h !! dir, h).

Definition stat_ok (path : string) : St Host bool := fun h =>
  (bool_decide (h_faults h !! path = None) && bool_decide (is_Some (h_files h !! path)), h).

(** [filepath.Join] on the paths this package builds, and [filepath.Dir]. *)
Definition join_path (a b : string) : string := a +:+ "/" +:+ b.
Fixpoint drop_to_slash (l : bytes) : bytes :=
  match l with [] => [] | c :: l' => if Ascii.eqb c "/" then l' else drop_to_slash l' end.
Definition dir_of (path : string) : string := of_bytes (rev (drop_to_slash (rev (to_bytes path)))).

(** ** observe.go *)

Definition memoryKSMCachePath : string := "run/frame-agent/memory-ksm".
Definition ksmGeneralProfitPath : string := "sys/kernel/mm/ksm/general_profit".
Definition ksmPagesSharingPath : string := "sys/kernel/mm/ksm/pages_sharing".
Definition tunedActiveProfilePath : string := "etc/tuned/active_profile".

(** The trimmed content and whether the file exists. *)
Definition readTrimmed (path : string) : St Host (result string (string * bool)) :=
  r ← read_file path;
  mret (match r with
        | inl NotExist => inr ("", false)
        | inl (FsErr e) => inl (path +:+ ": " +:+ e)
        | inr raw => inr (trim_space raw, true)
        end).

Definition readBool (path : string) : St Host (result string bool) :=
  r ← readTrimmed path;
  mret (match r with
        | inl e => inl e
        | inr (_, false) => inr false
        | inr (s, true) => inr (bool_decide (s = "yes") || bool_decide (s = "true"))
        end).

Definition readInt64 (path : string) : St Host (result string Z) :=
  r ← readTrimmed path;
  mret (match r with
        | inl e => inl e
        | inr (_, false) => inr 0
        | inr (s, true) => match parse_int64 s with
                           | Some v => inr v
                           | None => inl (path +:+ ": not an integer: " +:+ quote s)
                           end
        end).

Definition readString (path : string) : St Host (result string string) :=
  r ← readTrimmed path;
  mret (match r with inl e => inl e | inr (s, _) => inr s end).

Definition Observe (root : string) : St Host (result string ObservedTuning) :=
  r1 ← readBool (join_path root memoryKSMCachePath);
  match r1 with
  | inl e => mret (inl ("reading MemoryKSM cache: " +:+ e))
  | inr memoryKSM =>
    r2 ← readInt64 (join_path root ksmGeneralProfitPath);
    match r2 with
    | inl e => mret (inl ("reading KSM general_profit: " +:+ e))
    | inr generalProfit =>
      r3 ← readInt64 (join_path root ksmPagesSharingPath);
      match r3 with
      | inl e => mret (inl ("reading KSM pages_sharing: " +:+ e))
      | inr pagesSharing =>
        r4 ← readString (join_path root tunedActiveProfilePath);
        match r4 with
        | inl e => mret (inl ("reading tuned active profile: " +:+ e))
        | inr tuned => mret (inr (mkObserved (Some (mkObservedKSM memoryKSM generalProfit pagesSharing)) tuned))
        end
      end
    end
  end.

(** ** apply.go *)

Definition ksmRunPath : string := "sys/kernel/mm/ksm/run".
Definition ksmPagesToScanPath : string := "sys/kernel/mm/ksm/pages_to_scan".
Definition ksmSleepMillisecsPath : string := "sys/kernel/mm/ksm/sleep_millisecs".
Definition ksmMergeAcrossNodesPath : string := "sys/kernel/mm/ksm/merge_across_nodes".
Definition migProfileCachePath : string := "run/frame-agent/mig-profile".
Definition ksmDropInDir (unit : string) : string := "etc/systemd/system/" +:+ unit +:+ ".service.d".
Definition ksmDropInFile : string := "10-ksm.conf".

Definition boolKnob (b : bool) : string := if b then "1" else "0".

Definition ksmDropInContent (enabled : bool) : string :=
  "[Service]" +:+ nl +:+ "MemoryKSM=" +:+ (if enabled then "yes" else "no") +:+ nl.

Definition ksmUnitCandidates : list string := ["k3s-agent"; "k3s"].
Definition ksmUnitSearchDirs : list string := ["etc/systemd/system"; "usr/lib/systemd/system"].

Fixpoint detect_in_dirs (root name : string) (dirs : list string) : St Host bool :=
  match dirs with
  | [] => mret false
  | dir :: dirs' =>
    ok ← stat_ok (join_path (join_path root dir) (name +:+ ".service"));
    if (ok : bool) then mret true else detect_in_dirs root name dirs'
  end.
Fixpoint detect_unit (root : string) (names : list string) : St Host (option string) :=
  match names with
  | [] => mret None
  | name :: names' =>
    found ← detect_in_dirs root name ksmUnitSearchDirs;
    if (found : bool) then mret (Some name) else detect_unit root names'
  end.

(** The [%v] of a string slice: "[a b]". *)
Definition show_list (l : list string) : string := "[" +:+ join " " l +:+ "]".

Definition DetectKSMUnit (root : string) : St Host (result string string) :=
  u ← detect_unit root ksmUnitCandidates;
  mret (match u with
        | Some name => inr name
        | None => inl ("no k3s or k3s-agent unit found under " +:+ root +:+ " (checked " +:+
                       show_list ksmUnitCandidates +:+ " in " +:+ show_list ksmUnitSearchDirs +:+ ")")
        end).

Definition writeFileIfChanged (path content : string) : St Host (result string bool) :=
  r ← read_file path;
  let rewrite_it :=
    e ← mkdir_all (dir_of path);
    match e with
    | Some e => mret (inl (path +:+ ": " +:+ e))
    | None =>
      e ← write_file path content;
      mret (match e with Some e => inl (path +:+ ": " +:+ e) | None => inr true end)
    end in
  match r with
  | inl (FsErr e) => mret (inl (path +:+ ": " +:+ e))
  | inr existing => if bool_decide (existing = content) then mret (inr false) else rewrite_it
  | inl NotExist => rewrite_it
  end.

Definition writeSysfsKnobTolerant (path value : string) : St Host unit :=
  e ← mkdir_all (dir_of path);
  match e with
  | Some _ => mret tt
  | None => _ ← write_file path value; mret tt
  end.

Definition recordMIGProfile (root profile : string) : St Host (option string) :=
  let path := join_path root migProfileCachePath in
  e ← mkdir_all (dir_of path);
  match e with
  | Some e => mret (Some (path +:+ ": " +:+ e))
  | None =>
    e ← write_file path profile;
    mret (match e with Some e => Some (path +:+ ": " +:+ e) | None => None end)
  end.

Definition RecordedMIGProfile (root : string) : St Host (result string string) :=
  r ← read_file (join_path root migProfileCachePath);
  mret (match r with
        | inl NotExist => inr ""
        | inl (FsErr e) => inl ("reading recorded MIG profile: " +:+ e)
        | inr raw => inr (trim_space raw)
        end).

Definition knob_opt {A} (show : A -> string) (root path : string) (v : option A) : St Host unit :=
  match v with
  | None => mret tt
  | Some x => writeSysfsKnobTolerant (join_path root path) (show x)
  end.

Definition applyKSM (root : string) (ksm : KSMSpec) : St Host (result string bool) :=
  u ← DetectKSMUnit root;
  match u with
  | inl e => mret (inl ("applying KSM: " +:+ e))
  | inr unit =>
    if negb (IsRestartable unit) then
      mret (inl ("applying KSM: detected unit " +:+ quote unit +:+ " is not on the restart allowlist"))
    else
      r ← writeFileIfChanged (join_path (join_path root (ksmDropInDir unit)) ksmDropInFile)
            (ksmDropInContent (ksm_enabled ksm));
      match r with
      | inl e => mret (inl ("writing KSM drop-in: " +:+ e))
      | inr changed =>
        _ ← writeSysfsKnobTolerant (join_path root ksmRunPath) (boolKnob (ksm_enabled ksm));
        _ ← knob_opt itoa root ksmPagesToScanPath (ksm_pagesToScan ksm);
        _ ← knob_opt itoa root ksmSleepMillisecsPath (ksm_sleepMillisecs ksm);
        _ ← knob_opt boolKnob root ksmMergeAcrossNodesPath (ksm_mergeAcrossNodes ksm);
        mret (inr changed)
      end
  end.

(** ** systemd.go

    [exec] is os/exec's CombinedOutput: the output and, when the command
    failed, the error's text. *)
Class Exec := exec : string -> list string -> St Host (string * option string).

(** *** Reading ActiveEnterTimestamp

    [time.Parse] with activeEnterLayouts. The two layouts accept the same
    strings: a fraction after the seconds is optional in the first and taken
    as part of the seconds in the second. The weekday is matched without
    regard to case and not checked against the date; a run of spaces matches
    the layout's one; an abbreviation other than UTC is resolved by the local
    zone database ([LocalZones]: offset in seconds, given the clock reading as
    if it were UTC). *)
Class LocalZones := zone_abbrev : Z -> bytes -> option Z.

Definition shortDayNames : list string := ["Sun"; "Mon"; "Tue"; "Wed"; "Thu"; "Fri"; "Sat"].
Definition fold_case (c : ascii) : Z := Z.lor (byteZ c) 32.
Definition letter_eqb (a b : ascii) : bool :=
  Ascii.eqb a b || ((fold_case a =? fold_case b) && (97 <=? fold_case a) && (fold_case a <=? 122)).
Fixpoint match_name (v l : bytes) : option bytes :=
  match v, l with
  | [], _ => Some l
  | c :: v', d :: l' => if letter_eqb c d then match_name v' l' else None
  | _, [] => None
  end.
Fixpoint cutspace (l : bytes) : bytes :=
  match l with c :: l' => if Ascii.eqb c " " then cutspace l' else l | [] => [] end.
Definition skip_space (l : bytes) : option bytes :=
  match l with c :: _ => if Ascii.eqb c " " then Some (cutspace l) else None | [] => Some [] end.

Section Systemd.
Context `{LabelSelectors} `{Exec} `{LocalZones}.

Definition parse_active_enter (s : string) : option time :=
  l ← first_some (fun d => match_name (to_bytes d) (to_bytes s)) shortDayNames;
  l ← skip_space l; '(y, l) ← getfixed 4 0 l;
  l ← expect "-" l; '(mo, l) ← getfixed 2 0 l;
  l ← expect "-" l; '(d, l) ← getfixed 2 0 l;
  l ← skip_space l; '(h, l) ← getnum l;
  l ← expect ":" l; '(mi, l) ← getfixed 2 0 l;
  l ← expect ":" l; '(sec, l) ← getfixed 2 0 l;
  '(nsec, l) ← parse_frac l;
  l ← skip_space l;
  let at_utc := days_of_civil y mo d * 86400 + h * 3600 + mi * 60 + sec in
  off ← (match strip_prefix (to_bytes "UTC") l with
         | Some rest => if bool_decide (rest = []) then Some 0 else None
         | None => zone_abbrev at_utc l
         end);
  if (1 <=? mo) && (mo <=? 12) && (1 <=? d) && (d <=? days_in mo y) && (h <? 24) && (mi <? 60) && (sec <? 60)
  then Some (Time ((at_utc - off) * second + nsec) off)
  else None.

(** ExecCommandRunner.Run, with the command put on the trace. *)
Definition exec_run (name : string) (args : list string) : St Host (string * option string) := fun h =>
  exec name args (mkHost (h_files h) (h_faults h) ((name, args) :: h_ran h)).

Definition nsenterArgs : list string := ["--target"; "1"; "--mount"; "--uts"; "--ipc"; "--net"; "--pid"; "--"].

(** HostCommandRunner.Run over the production runner: the command in PID 1's
    namespaces. *)
Definition Run (name : string) (args : list string) : St Host (string * option string) :=
  exec_run "nsenter" (nsenterArgs ++ name :: args).

(** [run] is what the caller of Apply passed, [None] for nil. *)
Definition applyTunedProfile (root profile : string) (run : option (string -> list string -> St Host (string * option string))) :
    St Host (option string) :=
  r ← readString (join_path root tunedActiveProfilePath);
  match r with
  | inl e => mret (Some ("reading current tuned profile: " +:+ e))
  | inr current =>
    if bool_decide (current = profile) then mret None else
    match run with
    | None => mret (Some ("applying tuned profile " +:+ profile +:+ ": no command runner"))
    | Some run =>
      o ← run "tuned-adm" ["profile"; profile];
      mret (match o with
            | (_, None) => None
            | (out, Some e) => Some ("tuned-adm profile " +:+ profile +:+ ": " +:+ e +:+ ": " +:+ trim_space out)
            end)
    end
  end.

(** The MIG profile first, then KSM, then tuned; the first error ends it. *)
Definition Apply (root : string) (spec : NodeTuningSpec)
    (run : option (string -> list string -> St Host (string * option string))) : St Host (result string bool) :=
  e1 ← (if bool_decide (spec_migProfile spec <> "") then recordMIGProfile root (spec_migProfile spec) else mret None);
  match e1 with
  | Some e => mret (inl e)
  | None =>
    r2 ← (match spec_ksm spec with Some k => applyKSM root k | None => mret (inr false) end);
    match r2 with
    | inl e => mret (inl e)
    | inr needsRestart =>
      e3 ← (if bool_decide (spec_tunedProfile spec <> "")
            then applyTunedProfile root (spec_tunedProfile spec) run else mret None);
      mret (match e3 with Some e => inl e | None => inr needsRestart end)
    end
  end.

Definition RefreshSystemdCache (root unit : string) : St Host (option string) :=
  if negb (IsRestartable unit) then
    mret (Some ("refreshing systemd cache: unit " +:+ quote unit +:+ " is not on the restart allowlist"))
  else
    o ← Run "systemctl" ["show"; unit +:+ ".service"; "-p"; "MemoryKSM"; "--value"];
    match o with
    | (_, Some e) => mret (Some ("systemctl show " +:+ unit +:+ ".service -p MemoryKSM: " +:+ e))
    | (out, None) =>
      let path := join_path root memoryKSMCachePath in
      e ← mkdir_all (dir_of path);
      match e with
      | Some e => mret (Some (path +:+ ": " +:+ e))
      | None =>
        e ← write_file path (trim_space out +:+ nl);
        mret (match e with Some e => Some (path +:+ ": " +:+ e) | None => None end)
      end
    end.

Definition UnitActiveEnterTimestamp (unit : string) : St Host (result string time) :=
  if negb (IsRestartable unit) then
    mret (inl ("reading ActiveEnterTimestamp: unit " +:+ quote unit +:+ " is not on the restart allowlist"))
  else
    o ← Run "systemctl" ["show"; unit +:+ ".service"; "-p"; "ActiveEnterTimestamp"; "--value"; "--timestamp=us+utc"];
    mret (match o with
          | (out, Some e) => inl ("systemctl show " +:+ unit +:+ ".service -p ActiveEnterTimestamp: " +:+ e +:+ ": " +:+ trim_space out)
          | (out, None) =>
            let raw := trim_space out in
            if bool_decide (raw = "") || bool_decide (raw = "n/a") then
              inl (unit +:+ ".service reports no ActiveEnterTimestamp (" +:+ quote raw +:+ ")")
            else match parse_active_enter raw with
                 | Some t => inr (utc t)
                 | None => inl (unit +:+ ".service ActiveEnterTimestamp " +:+ quote raw +:+ " is not a UTC systemd timestamp")
                 end
          end).

Definition defaultRestartDelay : Z := 5 * second.

(** [Duration.Round] to the second, for a positive duration: half up,
    saturating at the largest duration. *)
Definition round_second (d : Z) : Z :=
  let r := d `mod` second in
  if wrap64 (r + r) <? second then d - r
  else let d1 := wrap64 (d + (second - r)) in if d <? d1 then d1 else 2 ^ 63 - 1.

(** The argument list of systemd-run. *)
Definition restart_args (unit : string) (delay : Z) : list string :=
  ["--collect"; "--on-active=" +:+ itoa (round_second delay / second);
   "--unit=frame-agent-restart-" +:+ unit; "systemctl"; "restart"; unit +:+ ".service"].

Definition ScheduleDetachedRestart (unit : string) (delay : Z) : St Host (option string) :=
  if negb (IsRestartable unit) then
    mret (Some ("scheduling restart: unit " +:+ quote unit +:+ " is not on the restart allowlist"))
  else
    let delay := if delay <=? 0 then defaultRestartDelay else delay in
    o ← Run "systemd-run" (restart_args unit delay);
    mret (match o with
          | (_, None) => None
          | (out, Some e) => Some ("systemd-run restart " +:+ unit +:+ ".service: " +:+ e +:+ ": " +:+ trim_space out)
          end).
End Systemd.

Example parse_active_enter_ex :
  let _ : LocalZones := fun _ _ => None in
  map parse_active_enter ["Mon 2025-09-15 10:00:05.12 UTC"; "mon 2025-09-15 10:00:05 UTC"; "Mon 2025-09-15 10:00:05 CEST"; "n/a"] =
  [Some (Time 1757930405120000000 0); Some (at_s 5); None; None].
Proof. vm_compute. reflexivity. Qed.
