(* ===== verification/AgentTick.v ===== *)
(** One tick of the agent's tuning half: cmd/agent/main.go (steps 1-5 of
    [tick]) and internal/agent/status.go. The state is the node's files beside
    the API server. Step 6 (disks, local storage, network) shares no state with
    it; NodeLinks models it and puts the two together as [tick]. *)
From stdpp Require Import base tactics strings list gmap.
From Stdlib Require Import ZArith Lia Ascii.
From S2P Require Import Prelude GoLib GoTime Kube Cluster Rollout NodeTuningController Agent.

Open Scope Z_scope.

Definition migConfigLabel : string := "nvidia.com/mig.config".
Definition restartRequestCachePath : string := "run/frame-agent/restart-request".

(** ** The restart request *)

Definition lastActedRequest (root : string) : St Host string :=
  r ← read_file (join_path root restartRequestCachePath);
  mret (match r with inl _ => "" | inr raw => trim_space raw end).

Definition recordActedRequest (root value : string) : St Host (option string) :=
  let path := join_path root restartRequestCachePath in
  e ← mkdir_all (dir_of path);
  match e with
  | Some e => mret (Some (path +:+ ": " +:+ e))
  | None =>
    e ← write_file path (value +:+ nl);
    mret (match e with Some e => Some (path +:+ ": " +:+ e) | None => None end)
  end.

Definition serviceRestartRequest `{Exec} (node : Node) (root unitName : string) : St Host unit :=
  let requested := annotation node TuningRestartRequestedAnnotation in
  if bool_decide (requested = "") then mret tt else
  last ← lastActedRequest root;
  if bool_decide (requested = last) then mret tt else
  e ← ScheduleDetachedRestart unitName 0;
  match e with
  | Some _ => mret tt
  | None => _ ← recordActedRequest root requested; mret tt
  end.

(** ** What the agent publishes on its node *)

(** A nil map and an empty one are not told apart anywhere here. *)
Definition setNodeState (node : Node) (unit : string) (activeEnter : time) (migProfile : string) : Node :=
  let node := setNodeAnnotation node TuningUnitAnnotation unit in
  let node := if negb (is_zero activeEnter)
              then setNodeAnnotation node TuningUnitActiveEnterAnnotation (format_nano (utc activeEnter))
              else node in
  if bool_decide (migProfile <> "")
  then set_labels node (<[migConfigLabel := migProfile]> (node_labels node)) else node.

(** The loop over [a] in the order Go ranges over it, which does not matter:
    it asks whether some entry differs. A missing key reads as "". *)
Definition equalStringMaps (a b : strmap) : bool :=
  (size a =? size b)%nat && forallb (fun kv => bool_decide (default "" (b !! kv.1) = kv.2)) (map_to_list a).

Definition equalNodeMetadata (a b : Node) : bool :=
  equalStringMaps (node_annotations a) (node_annotations b) && equalStringMaps (node_labels a) (node_labels b).

Section Tick.
Context `{LS : LabelSelectors} `{EX : Exec} `{LZ : LocalZones} {W : Type} `{C : !Cluster W}.

Definition on_host {A} (m : St Host A) : St (Host * W) A := fun w => let '(a, h) := m w.1 in (a, (h, w.2)).
Definition on_api {A} (m : St W A) : St (Host * W) A := fun w => let '(a, x) := m w.2 in (a, (w.1, x)).

Definition selectorMatches (sel : option LabelSelector) (labelSet : strmap) : result apierr bool :=
  match sel with
  | None => inr false
  | Some sel => match as_selector sel with
                | inl err => inl err
                | inr selector => inr (selector_matches selector labelSet)
                end
  end.

Definition selecting (items : list NodeTuning) (nodeLabels : strmap) : list NodeTuning :=
  List.filter (fun nt => match selectorMatches (spec_nodeSelector (nt_spec nt)) nodeLabels with
                         | inl _ => false
                         | inr matches => matches
                         end) items.

Definition applyMatched (root : string) (matching : list NodeTuning) : St Host unit :=
  match matching with
  | [nt] => _ ← Apply root (nt_spec nt) (Some Run); mret tt
  | _ => mret tt
  end.

(** The node the rest of the tick goes on with: the caller's object, as set
    here and, after a successful patch, as the server answered. *)
Definition publishNodeState (node : Node) (root unit : string) : St (Host * W) Node :=
  mig ← on_host (RecordedMIGProfile root);
  let migProfile := match mig with inl _ => "" | inr p => p end in
  t ← on_host (UnitActiveEnterTimestamp unit);
  let activeEnter := match t with inl _ => zero_time | inr t => t end in
  let node' := setNodeState node unit activeEnter migProfile in
  if equalNodeMetadata node node' then mret node' else
  r ← on_api (patch_node node node');
  mret (match r with inl _ => node' | inr n => n end).

(** ** status.go *)

Fixpoint upsert_observed (nodes : list NodeTuningNodeStatus) (nodeName : string) (observed : ObservedTuning) :
    list NodeTuningNodeStatus :=
  match nodes with
  | [] => [set_observed (fresh_node_status nodeName) observed]
  | ns :: nodes' =>
    if bool_decide (ns_name ns = nodeName) then set_observed ns observed :: nodes'
    else ns :: upsert_observed nodes' nodeName observed
  end.

Definition PatchObserved_once (key nodeName : string) (observed : ObservedTuning) : St W (result apierr NodeTuning) :=
  r ← get_nt key;
  match r with
  | inl err => mret (inl err)
  | inr fresh =>
    patch_nt_status fresh (set_status fresh (nt_observedGeneration fresh)
                             (upsert_observed (nt_nodes fresh) nodeName observed))
  end.

Definition PatchObserved (nt : NodeTuning) (nodeName : string) (observed : ObservedTuning) : St W (option apierr) :=
  r ← retry_on_conflict (PatchObserved_once (nt_name nt) nodeName observed);
  mret (match r with inl err => Some err | inr _ => None end).

(** ** The tick *)

Fixpoint report_observed (matching : list NodeTuning) (nodeName : string) (observed : ObservedTuning) : St W unit :=
  match matching with
  | [] => mret tt
  | nt :: rest => _ ← PatchObserved nt nodeName observed; report_observed rest nodeName observed
  end.

Definition systemd_half (node : Node) (root : string) : St (Host * W) unit :=
  u ← on_host (DetectKSMUnit root);
  match u with
  | inl _ => mret tt
  | inr unitName =>
    _ ← on_host (RefreshSystemdCache root unitName);
    node ← publishNodeState node root unitName;
    on_host (serviceRestartRequest node root unitName)
  end.

(** Steps 1 to 5, and whether the tick goes on to the sixth, the storage of the node, which it
    does when it could read its own node and the NodeTunings. *)
Definition tuning_half (nodeName root : string) : St (Host * W) bool :=
  r ← on_api (get_node nodeName);
  match r with
  | inl _ => mret false
  | inr node =>
    l ← on_api list_nts;
    match l with
    | inl _ => mret false
    | inr items =>
      let matching := selecting items (node_labels node) in
      _ ← on_host (applyMatched root matching);
      _ ← systemd_half node root;
      o ← on_host (Observe root);
      _ ← match o with
          | inl _ => mret tt
          | inr observed => on_api (report_observed matching nodeName observed)
          end;
      mret true
    end
  end.
End Tick.
