(* ===== verification/AgentSafety.v ===== *)
(** The agent's guarantees: which commands a tick can run on the node, that a
    restart request is acted on once, that applying is idempotent, that what
    it publishes is what the controller reads, and that its writes leave the
    controller's part of every object alone. *)
From stdpp Require Import base tactics strings list gmap.
From Stdlib Require Import ZArith Lia Ascii.
From S2P Require Import Prelude GoLib GoTime Kube Cluster FakeCluster Rollout RolloutSafety NodeTuningController Demo Agent AgentTick.

Open Scope Z_scope.

(** ** The trace of commands *)

(** Every command [m] runs satisfies [P]. *)
Definition emits {A} (P : string * list string -> Prop) (m : St Host A) : Prop :=
  forall h, exists new, h_ran (m h).2 = new ++ h_ran h /\ Forall P new.

(** [m] runs nothing. *)
Definition silent {A} (m : St Host A) : Prop := forall h, h_ran (m h).2 = h_ran h.

Lemma silent_emits {A} P (m : St Host A) : silent m -> emits P m.
Proof. intros Hm h. exists []. by rewrite Hm. Qed.
Lemma silent_ret {A} (a : A) : silent (mret a).
Proof. done. Qed.
Lemma silent_bind {A B} (m : St Host A) (k : A -> St Host B) :
  silent m -> (forall a, silent (k a)) -> silent (m ≫= k).
Proof. intros Hm Hk h. rewrite (St_bind_run m k). by rewrite Hk, Hm. Qed.
Lemma tick_emits_bind {A B} P (m : St Host A) (k : A -> St Host B) :
  emits P m -> (forall a, emits P (k a)) -> emits P (m ≫= k).
Proof.
  intros Hm Hk h. rewrite (St_bind_run m k). destruct (Hm h) as (n1 & E1 & F1).
  destruct (Hk (m h).1 (m h).2) as (n2 & E2 & F2). exists (n2 ++ n1).
  rewrite E2, E1, app_assoc, Forall_app. done.
Qed.

Lemma silent_read path : silent (read_file path). Proof. done. Qed.
Lemma silent_write path c : silent (write_file path c).
Proof. intros h. unfold write_file. by case_match. Qed.
Lemma silent_mkdir d : silent (mkdir_all d). Proof. done. Qed.
Lemma silent_stat p : silent (stat_ok p). Proof. done. Qed.

Create HintDb trace.
#[export] Hint Constants Opaque : trace.
#[export] Hint Resolve silent_ret silent_read silent_write silent_mkdir silent_stat : trace.

(** Decomposes file-only code. *)
Ltac silent_tac :=
  repeat first
    [ solve [eauto with trace]
    | apply silent_bind; [|intros]
    | match goal with |- context [match ?x with _ => _ end] => destruct x end ].

Lemma silent_detect_in_dirs root name dirs : silent (detect_in_dirs root name dirs).
Proof. induction dirs; simpl; silent_tac. Qed.
#[export] Hint Resolve silent_detect_in_dirs : trace.
Lemma silent_detect_unit root names : silent (detect_unit root names).
Proof. induction names; simpl; silent_tac. Qed.
#[export] Hint Resolve silent_detect_unit : trace.
Lemma silent_DetectKSMUnit root : silent (DetectKSMUnit root).
Proof. unfold DetectKSMUnit. silent_tac. Qed.
Lemma silent_readTrimmed path : silent (readTrimmed path).
Proof. unfold readTrimmed. silent_tac. Qed.
#[export] Hint Resolve silent_DetectKSMUnit silent_readTrimmed : trace.
Lemma silent_readString path : silent (readString path).
Proof. unfold readString. silent_tac. Qed.
Lemma silent_knob path v : silent (writeSysfsKnobTolerant path v).
Proof. unfold writeSysfsKnobTolerant. silent_tac. Qed.
Lemma silent_changed path c : silent (writeFileIfChanged path c).
Proof. unfold writeFileIfChanged. silent_tac. Qed.
#[export] Hint Resolve silent_readString silent_knob silent_changed : trace.
Lemma silent_knob_opt {A} (show : A -> string) root path v : silent (knob_opt show root path v).
Proof. unfold knob_opt. silent_tac. Qed.
#[export] Hint Resolve silent_knob_opt : trace.
Lemma silent_applyKSM root ksm : silent (applyKSM root ksm).
Proof. unfold applyKSM. silent_tac. Qed.
Lemma silent_recordMIG root p : silent (recordMIGProfile root p).
Proof. unfold recordMIGProfile. silent_tac. Qed.
Lemma silent_RecordedMIG root : silent (RecordedMIGProfile root).
Proof. unfold RecordedMIGProfile. silent_tac. Qed.
Lemma silent_last root : silent (lastActedRequest root).
Proof. unfold lastActedRequest. silent_tac. Qed.
Lemma silent_record root v : silent (recordActedRequest root v).
Proof. unfold recordActedRequest. silent_tac. Qed.
Lemma silent_Observe root : silent (Observe root).
Proof. unfold Observe, readBool, readInt64. silent_tac. Qed.
#[export] Hint Resolve silent_applyKSM silent_recordMIG silent_RecordedMIG silent_last silent_record
  silent_Observe silent_emits : trace.

(** Executing a command leaves the trace to the agent: it is the agent's own
    record. *)
Definition exec_traceless `{Exec} : Prop := forall name args h, h_ran (exec name args h).2 = h_ran h.

(** The commands the agent may run: in PID 1's namespaces, a query of an
    allowlisted unit, the detached restart of an allowlisted unit five seconds
    on, or a switch to a tuned profile out of [profiles]. *)
Inductive permitted (profiles : list string) : string * list string -> Prop :=
| permit_show unit prop tl : IsRestartable unit = true ->
    permitted profiles ("nsenter", nsenterArgs ++ ["systemctl"; "show"; unit +:+ ".service"; "-p"; prop; "--value"] ++ tl)
| permit_restart unit : IsRestartable unit = true ->
    permitted profiles ("nsenter", nsenterArgs ++
      ["systemd-run"; "--collect"; "--on-active=5"; "--unit=frame-agent-restart-" +:+ unit;
       "systemctl"; "restart"; unit +:+ ".service"])
| permit_tuned profile : profile ∈ profiles ->
    permitted profiles ("nsenter", nsenterArgs ++ ["tuned-adm"; "profile"; profile]).

Section Trace.
Context `{LS : LabelSelectors} `{EX : Exec} `{LZ : LocalZones} {W : Type} `{C : !Cluster W}.
Context (traceless : exec_traceless) (profiles : list string).

Lemma emits_Run (P : string * list string -> Prop) name args : P ("nsenter", nsenterArgs ++ name :: args) -> emits P (Run name args).
Proof using traceless.
  intros HP h. unfold Run, exec_run. rewrite traceless. simpl. eexists [_]. split; [done|]. by constructor.
Qed.

Ltac emits_tac :=
  repeat first
    [ solve [eauto with trace]
    | apply tick_emits_bind; [|intros]
    | match goal with |- emits _ (match ?x with _ => _ end) => destruct x eqn:? end ].

Lemma emits_refresh root unit : emits (permitted profiles) (RefreshSystemdCache root unit).
Proof using traceless.
  unfold RefreshSystemdCache. destruct (IsRestartable unit) eqn:E; simpl; [|eauto with trace].
  apply tick_emits_bind; [|intros [out [e|]]]; [|solve [eauto with trace]|].
  - apply emits_Run. by apply (permit_show _ _ "MemoryKSM" []).
  - apply silent_emits. silent_tac.
Qed.

Lemma emits_active unit : emits (permitted profiles) (UnitActiveEnterTimestamp unit).
Proof using traceless.
  unfold UnitActiveEnterTimestamp. destruct (IsRestartable unit) eqn:E; simpl; [|eauto with trace].
  apply tick_emits_bind; [|intros; by eauto with trace].
  apply emits_Run. by apply (permit_show _ _ "ActiveEnterTimestamp" ["--timestamp=us+utc"]).
Qed.

Lemma emits_service node root unit : emits (permitted profiles) (serviceRestartRequest node root unit).
Proof using traceless.
  unfold serviceRestartRequest. case_match; [eauto with trace|].
  apply tick_emits_bind; [eauto with trace|intros last]. case_match; [eauto with trace|].
  apply tick_emits_bind; [|intros [e|]; apply silent_emits; silent_tac].
  unfold ScheduleDetachedRestart. destruct (IsRestartable unit) eqn:E; simpl; [|eauto with trace].
  apply tick_emits_bind; [|intros; by eauto with trace]. apply emits_Run. by apply permit_restart.
Qed.

Lemma emits_applyMatched root matching :
  (forall nt, matching = [nt] -> spec_tunedProfile (nt_spec nt) ∈ profiles) ->
  emits (permitted profiles) (applyMatched root matching).
Proof using traceless.
  intros Hp. unfold applyMatched. destruct matching as [|nt [|]]; [eauto with trace| |eauto with trace].
  apply tick_emits_bind; [|intros; eauto with trace]. unfold Apply.
  apply tick_emits_bind; [case_match; eauto with trace|intros [e|]; [eauto with trace|]].
  apply tick_emits_bind; [case_match; eauto with trace|intros [e|b]; [eauto with trace|]].
  apply tick_emits_bind; [|intros; by eauto with trace].
  case_match; [|eauto with trace]. unfold applyTunedProfile.
  apply tick_emits_bind; [eauto with trace|intros [e|cur]; [eauto with trace|]].
  case_match; [eauto with trace|]. apply tick_emits_bind; [|intros; by eauto with trace].
  apply emits_Run. apply permit_tuned. by apply Hp.
Qed.

(** The same for code that also talks to the API server. *)
Definition emits_at {A} (P : string * list string -> Prop) (m : St (Host * W) A) : Prop :=
  forall w, exists new, h_ran (m w).2.1 = new ++ h_ran w.1 /\ Forall P new.

Lemma emits_on_host {A} P (m : St Host A) : emits P m -> emits_at P (on_host m).
Proof using. intros Hm [h x]. specialize (Hm h). unfold on_host. simpl. by destruct (m h). Qed.
Lemma emits_on_api {A} P (m : St W A) : emits_at P (on_api m).
Proof using. intros [h x]. exists []. unfold on_api. simpl. by destruct (m x). Qed.
Lemma emits_at_ret {A} P (a : A) : emits_at P (mret a).
Proof using. intros w. by exists []. Qed.
Lemma emits_at_bind {A B} P (m : St (Host * W) A) (k : A -> St (Host * W) B) :
  emits_at P m -> (forall a, emits_at P (k a)) -> emits_at P (m ≫= k).
Proof using.
  intros Hm Hk w. rewrite (St_bind_run m k). destruct (Hm w) as (n1 & E1 & F1).
  destruct (Hk (m w).1 (m w).2) as (n2 & E2 & F2). exists (n2 ++ n1).
  rewrite E2, E1, app_assoc, Forall_app. done.
Qed.

Lemma bind_on_api {A B} (m : St W A) (k : A -> St (Host * W) B) h x :
  (on_api m ≫= k) (h, x) = k (m x).1 (h, (m x).2).
Proof using. unfold on_api, mbind, St_bind. simpl. by destruct (m x). Qed.

Lemma emits_systemd_half node root : emits_at (permitted profiles) (systemd_half node root).
Proof using traceless.
  unfold systemd_half. apply emits_at_bind; [apply emits_on_host; eauto with trace|].
  intros [e|unit]; [apply emits_at_ret|].
  apply emits_at_bind; [by apply emits_on_host, emits_refresh|intros _].
  apply emits_at_bind; [|intros; by apply emits_on_host, emits_service].
  unfold publishNodeState.
  apply emits_at_bind; [apply emits_on_host; eauto with trace|intros mig].
  apply emits_at_bind; [by apply emits_on_host, emits_active|intros t]. cbv zeta.
  case_match; [apply emits_at_ret|]. apply emits_at_bind; [apply emits_on_api|intros; apply emits_at_ret].
Qed.

Lemma emits_rest_of_tick node nodeName root matching :
  (forall nt, matching = [nt] -> spec_tunedProfile (nt_spec nt) ∈ profiles) ->
  emits_at (permitted profiles) (
    _ ← on_host (applyMatched root matching);
    _ ← systemd_half node root;
    o ← on_host (Observe root);
    _ ← match o with inl _ => mret () | inr observed => on_api (report_observed matching nodeName observed) end;
    mret true).
Proof using traceless.
  intros Hm. apply emits_at_bind; [by apply emits_on_host, emits_applyMatched|intros _].
  apply emits_at_bind; [apply emits_systemd_half|intros _].
  apply emits_at_bind; [apply emits_on_host; eauto with trace|].
  intros o. apply emits_at_bind; [|intros _; apply emits_at_ret]. destruct o; [apply emits_at_ret|apply emits_on_api].
Qed.

(** The tuning half of a tick runs on the node only permitted commands: whatever the node's
    annotations, labels and files and the NodeTunings say, each command it
    executes is a query or a five-second-delayed restart of a unit on the
    compiled-in allowlist, or a switch to a tuned profile some NodeTuning
    declares, always through nsenter. *)
Theorem tick_runs_permitted nodeName root (w : Host * W) :
  (forall items nt, (list_nts (get_node nodeName w.2).2).1 = inr items -> nt ∈ items ->
     spec_tunedProfile (nt_spec nt) ∈ profiles) ->
  exists new, h_ran (tuning_half nodeName root w).2.1 = new ++ h_ran w.1 /\ Forall (permitted profiles) new.
Proof using traceless.
  intros Hp. destruct w as [h x]. cbn [fst snd] in Hp. unfold tuning_half. rewrite bind_on_api.
  destruct (get_node nodeName x) as [[e|node] x1]; cbn [fst snd] in *; [by exists []|].
  rewrite bind_on_api.
  destruct (list_nts x1) as [[e|items] x2] eqn:El; cbn [fst snd]; [by exists []|].
  assert (Hsel : forall nt, selecting items (node_labels node) = [nt] -> spec_tunedProfile (nt_spec nt) ∈ profiles).
  { intros nt Hm. apply (Hp items); [first [done | by rewrite El]|]. apply list_elem_of_In.
    assert (Hin : In nt (selecting items (node_labels node))) by (rewrite Hm; by left).
    by apply filter_In in Hin as [? _]. }
  by apply (emits_rest_of_tick node nodeName root _ Hsel (h, x2)).
Qed.
End Trace.

(** ** A small node for the concrete runs *)

#[local] Instance demo_exec : Exec := fun name args h =>
  ((if bool_decide ("ActiveEnterTimestamp" ∈ args) then "Mon 2025-09-15 10:00:05 UTC" +:+ nl
    else if bool_decide ("MemoryKSM" ∈ args) then "yes" +:+ nl else "", None), h).
#[local] Instance demo_zones : LocalZones := fun _ _ => None.

Definition demo_host : Host :=
  mkHost {[ "/host/etc/systemd/system/k3s-agent.service" := "[Unit]" ]} ∅ [].

Lemma demo_traceless : exec_traceless.
Proof. done. Qed.

(** The demo node, asked to restart. *)
Definition demo_asked : Node := setNodeAnnotation (demo_node "n1" "4" 10) TuningRestartRequestedAnnotation (format_nano (at_s 110)).

Definition demo_asked_world : World := demo_world [demo_asked] [] demo_nt 100 [].

Lemma tick_runs_permitted_witness :
  h_ran (tuning_half "n1" "/host" (demo_host, demo_asked_world)).2.1 <> [] /\
  exists new, h_ran (tuning_half "n1" "/host" (demo_host, demo_asked_world)).2.1 = new ++ [] /\ Forall (permitted [""]) new.
Proof.
  split; [by vm_compute|].
  apply (tick_runs_permitted demo_traceless [""] "n1" "/host" (demo_host, demo_asked_world)).
  intros items nt H Hnt.
  assert (match (list_nts (get_node "n1" demo_asked_world).2).1 with
          | inr l => forallb (fun nt => bool_decide (spec_tunedProfile (nt_spec nt) = "")) l
          | inl _ => true end = true) as Hall by (vm_compute; reflexivity).
  cbn [snd] in H. rewrite H, forallb_forall in Hall. apply list_elem_of_singleton, (bool_decide_unpack _), Is_true_true, Hall.
  by apply list_elem_of_In.
Defined.

(** ** A request is acted on once *)

Definition record_path (root : string) : string := join_path root restartRequestCachePath.

(** The record can be read and written. *)
Definition recordable (root : string) (h : Host) : Prop :=
  h_faults h !! record_path root = None /\ h_faults h !! dir_of (record_path root) = None.

(** Commands run on the node leave the agent's own record and the mounts
    alone. *)
Definition exec_private `{Exec} (root : string) : Prop := forall name args h,
  h_files (exec name args h).2 !! record_path root = h_files h !! record_path root /\
  h_faults (exec name args h).2 = h_faults h.

Section Once.
Context `{EX : Exec} (root : string) (priv : exec_private root).

Lemma last_acted_spec h v :
  recordable root h -> Forall (fun c => solid c = true) (to_bytes v) -> v <> "" ->
  h_files h !! record_path root = Some (v +:+ nl) -> lastActedRequest root h = (v, h).
Proof using.
  intros [Hf _] Hv Hne Hr. unfold lastActedRequest. rewrite St_bind_run. unfold read_file.
  fold (record_path root). rewrite Hf, Hr. simpl. by rewrite trim_space_nl.
Qed.

Lemma record_acted_spec h v :
  recordable root h ->
  recordActedRequest root v h = (None, mkHost (<[record_path root := v +:+ nl]> (h_files h)) (h_faults h) (h_ran h)).
Proof using.
  intros [Hf Hd]. unfold recordActedRequest. fold (record_path root). cbv zeta.
  rewrite St_bind_run. unfold mkdir_all. cbn [fst snd]. rewrite Hd. rewrite St_bind_run.
  unfold write_file. by rewrite Hf.
Qed.

Lemma recordable_schedule unit delay h :
  recordable root h -> recordable root (ScheduleDetachedRestart unit delay h).2.
Proof using priv.
  intros Hr. unfold ScheduleDetachedRestart. case_match; [done|]. rewrite St_bind_run. unfold Run, exec_run. simpl.
  unfold recordable. by rewrite (proj2 (priv _ _ _)).
Qed.

(** A restart request is acted on once. When the restart for a request
    could be armed, the record kept on the node makes every later tick that
    still finds the same request value do nothing at all, whatever happened in
    between to the other files of the node. *)
Theorem request_acted_once node unit t h :
  annotation node TuningRestartRequestedAnnotation = format_nano t ->
  recordable root h -> (ScheduleDetachedRestart unit 0 h).1 = None ->
  let h1 := (serviceRestartRequest node root unit h).2 in
  forall node' h2, annotation node' TuningRestartRequestedAnnotation = format_nano t ->
    recordable root h2 -> h_files h2 !! record_path root = h_files h1 !! record_path root ->
    serviceRestartRequest node' root unit h2 = (tt, h2).
Proof using priv.
  intros Hreq Hrec Hok h1 node' h2 Hreq' Hrec2 Hsame. unfold serviceRestartRequest.
  pose proof (format_nano_nonempty t) as Hne. pose proof (format_nano_solid t) as Hsol.
  rewrite Hreq', bool_decide_false by done.
  assert (Hlast : (lastActedRequest root h2).1 = format_nano t).
  { unfold h1, serviceRestartRequest in Hsame. rewrite Hreq, bool_decide_false in Hsame by done.
    rewrite St_bind_run in Hsame. case_bool_decide as Hl.
    - cbn [snd mret St_ret] in Hsame. revert Hl Hsame. unfold lastActedRequest. rewrite !St_bind_run. unfold read_file.
      fold (record_path root). destruct Hrec as [-> _], Hrec2 as [-> _]. cbn [fst snd]. intros Hl ->.
      by symmetry.
    - replace (lastActedRequest root h).2 with h in Hsame by done. rewrite St_bind_run, Hok in Hsame.
      rewrite St_bind_run, record_acted_spec in Hsame by (by apply recordable_schedule).
      simpl in Hsame. rewrite lookup_insert_eq in Hsame. by rewrite (last_acted_spec h2 (format_nano t)). }
  rewrite St_bind_run, Hlast, bool_decide_true by done. done.
Qed.

(** A request that could not be armed, or that differs from the last one
    acted on, is not swallowed: with a new value the restart of exactly this
    unit is attempted, and if systemd-run fails the record still holds the old
    value, so the next tick tries again. *)
Theorem new_request_attempted node unit h :
  annotation node TuningRestartRequestedAnnotation <> "" ->
  annotation node TuningRestartRequestedAnnotation <> (lastActedRequest root h).1 ->
  serviceRestartRequest node root unit h =
  match ScheduleDetachedRestart unit 0 h with
  | (Some _, h') => (tt, h')
  | (None, h') => (tt, (recordActedRequest root (annotation node TuningRestartRequestedAnnotation) h').2)
  end /\
  (forall e h', ScheduleDetachedRestart unit 0 h = (Some e, h') -> h_files h' !! record_path root = h_files h !! record_path root).
Proof using priv.
  intros Hne Hnew. split.
  - unfold serviceRestartRequest. rewrite bool_decide_false by done. rewrite St_bind_run, bool_decide_false by done.
    replace (lastActedRequest root h).2 with h by done. rewrite St_bind_run.
    destruct (ScheduleDetachedRestart unit 0 h) as [[e|] h']; [done|]. cbn [fst snd]. by rewrite St_bind_run.
  - intros e h'. unfold ScheduleDetachedRestart. case_match; [by intros [= _ <-]|]. rewrite St_bind_run.
    intros [= _ <-]. unfold Run, exec_run. by rewrite (proj1 (priv _ _ _)).
Qed.
End Once.

Lemma demo_private : exec_private "/host".
Proof. done. Qed.

Lemma request_acted_once_witness :
  h_ran (serviceRestartRequest demo_asked "/host" "k3s-agent" demo_host).2 <> [] /\
  let h1 := (serviceRestartRequest demo_asked "/host" "k3s-agent" demo_host).2 in
  serviceRestartRequest demo_asked "/host" "k3s-agent" h1 = (tt, h1).
Proof.
  split; [by vm_compute|].
  apply (request_acted_once "/host" demo_private demo_asked "k3s-agent" (at_s 110) demo_host);
    try (by vm_compute); by split; vm_compute.
Defined.

Lemma new_request_attempted_witness :
  exists h', serviceRestartRequest demo_asked "/host" "k3s-agent" demo_host = (tt, h') /\
    h_files h' !! "/host/run/frame-agent/restart-request" = Some (format_nano (at_s 110) +:+ nl).
Proof.
  eexists. split; [apply (new_request_attempted "/host" demo_private demo_asked "k3s-agent" demo_host); by vm_compute|].
  by vm_compute.
Defined.

(** ** Applying is idempotent *)

Lemma join_path_inj root a b : join_path root a = join_path root b -> a = b.
Proof. unfold join_path. intros H. apply (inj (String.app root)) in H. by injection H. Qed.

Section Idempotent.
Context (root : string).

(** What a successful pass leaves: a host on which another pass with the same
    spec changes nothing. The file writes are described by the list of
    (path, content) pairs the pass may have put. *)
Definition put (h : Host) (l : list (string * string)) : Host :=
  mkHost (foldl (fun m kv => if bool_decide (h_faults h !! kv.1 = None) && bool_decide (h_faults h !! dir_of kv.1 = None)
                             then <[kv.1 := kv.2]> m else m) (h_files h) l)
    (h_faults h) (h_ran h).

Lemma knob_put path v h : writeSysfsKnobTolerant path v h = (tt, put h [(path, v)]).
Proof using.
  unfold writeSysfsKnobTolerant. rewrite St_bind_run. unfold mkdir_all, put. cbn [fst snd foldl].
  destruct (h_faults h !! dir_of path) eqn:Ed.
  - rewrite (bool_decide_false (Some s = None)) by done. rewrite andb_false_r. by destruct h.
  - rewrite (bool_decide_true (None = None)), andb_true_r by done. rewrite St_bind_run. unfold write_file.
    destruct (h_faults h !! path) eqn:Ef; [rewrite bool_decide_false by done; by destruct h|].
    by rewrite bool_decide_true.
Qed.

Lemma put_app h a b : put (put h a) b = put h (a ++ b).
Proof using. unfold put. simpl. by rewrite foldl_app. Qed.

Definition ksm_knobs (ksm : KSMSpec) : list (string * string) :=
  [(join_path root ksmRunPath, boolKnob (ksm_enabled ksm))] ++
  match ksm_pagesToScan ksm with Some v => [(join_path root ksmPagesToScanPath, itoa v)] | None => [] end ++
  match ksm_sleepMillisecs ksm with Some v => [(join_path root ksmSleepMillisecsPath, itoa v)] | None => [] end ++
  match ksm_mergeAcrossNodes ksm with Some b => [(join_path root ksmMergeAcrossNodesPath, boolKnob b)] | None => [] end.

Lemma knob_opt_put {A} (show : A -> string) path v h :
  knob_opt show root path v h =
  (tt, put h (match v with Some x => [(join_path root path, show x)] | None => [] end)).
Proof using. destruct v; simpl; [apply knob_put|]. unfold put. by destruct h. Qed.

Lemma applyKSM_run ksm h : applyKSM root ksm h =
  match DetectKSMUnit root h with
  | (inl e, h) => (inl ("applying KSM: " +:+ e), h)
  | (inr unit, h) =>
    if negb (IsRestartable unit)
    then (inl ("applying KSM: detected unit " +:+ quote unit +:+ " is not on the restart allowlist"), h)
    else match writeFileIfChanged (join_path (join_path root (ksmDropInDir unit)) ksmDropInFile)
                 (ksmDropInContent (ksm_enabled ksm)) h with
         | (inl e, h) => (inl ("writing KSM drop-in: " +:+ e), h)
         | (inr changed, h) => (inr changed, put h (ksm_knobs ksm))
         end
  end.
Proof using.
  unfold applyKSM. rewrite St_bind_run. destruct (DetectKSMUnit root h) as [[e|unit] h0]; [done|]. cbn [fst snd].
  destruct (negb _); [done|]. rewrite St_bind_run.
  destruct (writeFileIfChanged _ _ h0) as [[e|changed] h1]; [done|]. cbn [fst snd].
  rewrite St_bind_run, knob_put. cbn [fst snd]. do 3 rewrite St_bind_run, knob_opt_put; cbn [fst snd].
  rewrite !put_app. unfold ksm_knobs. by rewrite !app_assoc.
Qed.

(** The content [put] leaves at a path. *)
Lemma put_lookup h l k :
  h_files (put h l) !! k =
  foldl (fun acc kv => if bool_decide (kv.1 = k) && bool_decide (h_faults h !! k = None) && bool_decide (h_faults h !! dir_of k = None)
                       then Some kv.2 else acc) (h_files h !! k) l.
Proof using.
  unfold put. cbn [h_files]. generalize (h_files h) as m. induction l as [|[p v] l IH]; intros m; [done|].
  cbn [foldl fst snd]. rewrite IH. f_equal. destruct (decide (p = k)) as [->|Hne].
  - rewrite (bool_decide_true (k = k)) by done. simpl. case_match; [by rewrite lookup_insert_eq|done].
  - rewrite (bool_decide_false (p = k)) by done. simpl. case_match; [by rewrite lookup_insert_ne|done].
Qed.

Lemma put_other h l k : k ∉ l.*1 -> h_files (put h l) !! k = h_files h !! k.
Proof using.
  intros Hk. rewrite put_lookup. generalize (h_files h !! k) as m. induction l as [|[p v] l IH]; intros m; [done|].
  rewrite fmap_cons, not_elem_of_cons in Hk. destruct Hk as [Hne Hk]. cbn [foldl fst].
  rewrite (bool_decide_false (p = k)) by (cbn in Hne; congruence). by apply IH.
Qed.

Lemma put_twice h l : put (put h l) l = put h l.
Proof using.
  rewrite put_app. unfold put. f_equal. apply map_eq. intros k.
  change (h_files (put h (l ++ l)) !! k = h_files (put h l) !! k). rewrite !put_lookup, foldl_app.
  set (f := fun acc kv => _). generalize (h_files h !! k) as m.
  assert (forall m m', foldl f m l = foldl f m' l \/ foldl f m l = m) as Hf.
  { induction l as [|[p v] l' IH]; intros m m'; [by right|]. cbn [foldl].
    assert ((f m (p, v) = f m' (p, v)) \/ (f m (p, v) = m /\ f m' (p, v) = m')) as [-> | [-> ->]]
      by (unfold f; cbn [fst snd]; case_match; auto); auto. }
  intros m. destruct (Hf m (foldl f m l)) as [E|E]; [done | by rewrite !E].
Qed.

Lemma ksm_knobs_paths ksm : (ksm_knobs ksm).*1 ⊆ map (join_path root) [ksmRunPath; ksmPagesToScanPath; ksmSleepMillisecsPath; ksmMergeAcrossNodesPath].
Proof using.
  unfold ksm_knobs. rewrite !fmap_app. intros p. rewrite !elem_of_app.
  destruct (ksm_pagesToScan ksm), (ksm_sleepMillisecs ksm), (ksm_mergeAcrossNodes ksm); simpl; set_solver.
Qed.

Definition unit_path (dir name : string) : string := join_path (join_path root dir) (name +:+ ".service").
Definition has_unit (h : Host) (name : string) : bool :=
  existsb (fun dir => (stat_ok (unit_path dir name) h).1) ksmUnitSearchDirs.

Lemma detect_in_dirs_run name dirs h :
  detect_in_dirs root name dirs h = (existsb (fun dir => (stat_ok (unit_path dir name) h).1) dirs, h).
Proof using.
  induction dirs as [|d dirs IH]; [done|]. cbn [detect_in_dirs existsb]. rewrite St_bind_run.
  fold (unit_path d name). destruct (stat_ok (unit_path d name) h).1; [done|]. exact IH.
Qed.

Lemma detect_unit_run names h : detect_unit root names h = (List.find (has_unit h) names, h).
Proof using.
  induction names as [|n names IH]; [done|]. cbn [detect_unit List.find]. rewrite St_bind_run, detect_in_dirs_run.
  cbn [fst snd]. unfold has_unit at 1. case_match; [done|]. apply IH.
Qed.

Lemma DetectKSMUnit_run h u h1 : DetectKSMUnit root h = (inr u, h1) ->
  h1 = h /\ List.find (has_unit h) ksmUnitCandidates = Some u.
Proof using.
  unfold DetectKSMUnit. rewrite St_bind_run, detect_unit_run. cbn [fst snd].
  destruct (List.find _ _) as [u'|]; intros [=]; by subst.
Qed.

Lemma DetectKSMUnit_stable h h' :
  h_faults h' = h_faults h ->
  (forall dir name, dir ∈ ksmUnitSearchDirs -> name ∈ ksmUnitCandidates ->
     h_files h' !! unit_path dir name = h_files h !! unit_path dir name) ->
  DetectKSMUnit root h' = ((DetectKSMUnit root h).1, h').
Proof using.
  intros Hf Hl. unfold DetectKSMUnit. rewrite !St_bind_run, !detect_unit_run. cbn [fst snd].
  assert (List.find (has_unit h') ksmUnitCandidates = List.find (has_unit h) ksmUnitCandidates) as ->; [|done].
  assert (forall names, names ⊆ ksmUnitCandidates -> List.find (has_unit h') names = List.find (has_unit h) names) as H.
  { induction names as [|n names IH]; intros Hn; [done|]. cbn [List.find].
    assert (has_unit h' n = has_unit h n) as ->.
    { unfold has_unit, stat_ok. simpl. rewrite Hf, !Hl; set_solver. }
    rewrite IH; [done|set_solver]. }
  by apply H.
Qed.

(** Writing a file only when its content differs. *)
Lemma writeFileIfChanged_spec path content h b h1 :
  writeFileIfChanged path content h = (inr b, h1) ->
  h_files h1 = <[path := content]> (h_files h) /\ h_faults h1 = h_faults h /\ h_ran h1 = h_ran h /\
  h_faults h !! path = None /\ b = negb (bool_decide (h_files h !! path = Some content)).
Proof using.
  unfold writeFileIfChanged. rewrite St_bind_run. unfold read_file. cbn [fst snd].
  destruct (h_faults h !! path) as [e|] eqn:Ef; [done|].
  assert (forall r, (e ← mkdir_all (dir_of path);
      match e with
      | Some e => mret (inl (path +:+ ": " +:+ e))
      | None => e ← write_file path content;
                mret (match e with Some e => inl (path +:+ ": " +:+ e) | None => inr true end)
      end) h = (inr r, h1) -> r = true /\ h1 = mkHost (<[path := content]> (h_files h)) (h_faults h) (h_ran h)) as Hw.
  { intros r. rewrite St_bind_run. unfold mkdir_all. cbn [fst snd]. destruct (h_faults h !! dir_of path); [done|].
    rewrite St_bind_run. unfold write_file. rewrite Ef. by intros [= <- <-]. }
  destruct (h_files h !! path) as [c|] eqn:Ec.
  - case_bool_decide as Hc.
    + intros [= <- <-]. subst. rewrite bool_decide_true, insert_id by done. done.
    + intros H. apply Hw in H as [-> ->]. rewrite bool_decide_false by congruence. done.
  - intros H. apply Hw in H as [-> ->]. done.
Qed.

Lemma writeFileIfChanged_same path content h :
  h_faults h !! path = None -> h_files h !! path = Some content -> writeFileIfChanged path content h = (inr false, h).
Proof using.
  intros Hf Hc. unfold writeFileIfChanged. rewrite St_bind_run. unfold read_file. rewrite Hf, Hc. cbn [fst snd].
  by rewrite bool_decide_true.
Qed.

Lemma join_path_assoc a b : join_path (join_path root a) b = join_path root (a +:+ "/" +:+ b).
Proof using. unfold join_path. apply to_bytes_inj. by rewrite !to_bytes_app, <- !(assoc_L (++)). Qed.

Definition dropin_path (unit : string) : string := join_path (join_path root (ksmDropInDir unit)) ksmDropInFile.

(** No two of the paths a pass writes or looks at coincide. *)
Lemma dropin_not_unit u dir name :
  u ∈ ksmUnitCandidates -> dir ∈ ksmUnitSearchDirs -> name ∈ ksmUnitCandidates -> unit_path dir name <> dropin_path u.
Proof using.
  intros Hu Hd Hn. unfold unit_path, dropin_path. rewrite !join_path_assoc. intros E%join_path_inj. revert E.
  unfold ksmUnitCandidates, ksmUnitSearchDirs in *.
  repeat (apply elem_of_cons in Hu as [->|Hu] || apply elem_of_nil in Hu);
  repeat (apply elem_of_cons in Hd as [->|Hd] || apply elem_of_nil in Hd);
  repeat (apply elem_of_cons in Hn as [->|Hn] || apply elem_of_nil in Hn); try done.
Qed.

Lemma knob_not_unit ksm dir name :
  dir ∈ ksmUnitSearchDirs -> name ∈ ksmUnitCandidates -> unit_path dir name ∉ (ksm_knobs ksm).*1.
Proof using.
  intros Hd Hn Hin%ksm_knobs_paths. unfold unit_path in Hin. rewrite join_path_assoc in Hin.
  apply list_elem_of_In, in_map_iff in Hin as (p & E%join_path_inj & Hp). apply list_elem_of_In in Hp. revert E.
  unfold ksmUnitCandidates, ksmUnitSearchDirs in *.
  repeat (apply elem_of_cons in Hp as [->|Hp] || apply elem_of_nil in Hp);
  repeat (apply elem_of_cons in Hd as [->|Hd] || apply elem_of_nil in Hd);
  repeat (apply elem_of_cons in Hn as [->|Hn] || apply elem_of_nil in Hn); try done.
Qed.

Lemma knob_not_dropin ksm u : u ∈ ksmUnitCandidates -> dropin_path u ∉ (ksm_knobs ksm).*1.
Proof using.
  intros Hu Hin%ksm_knobs_paths. unfold dropin_path in Hin. rewrite join_path_assoc in Hin.
  apply list_elem_of_In, in_map_iff in Hin as (p & E%join_path_inj & Hp). apply list_elem_of_In in Hp. revert E.
  unfold ksmUnitCandidates in *.
  repeat (apply elem_of_cons in Hp as [->|Hp] || apply elem_of_nil in Hp);
  repeat (apply elem_of_cons in Hu as [->|Hu] || apply elem_of_nil in Hu); try done.
Qed.

(** Applying KSM converges. After a pass that succeeded, the drop-in of
    the detected unit has the declared content, the pass asked for a restart
    exactly when it had not had it before, and another pass with the same spec
    asks for none and leaves the node's files exactly as they are. *)
Theorem applyKSM_idempotent ksm h b h1 :
  applyKSM root ksm h = (inr b, h1) ->
  exists unit, (DetectKSMUnit root h).1 = inr unit /\ IsRestartable unit = true /\
    h_files h1 !! dropin_path unit = Some (ksmDropInContent (ksm_enabled ksm)) /\
    (b = true <-> h_files h !! dropin_path unit <> Some (ksmDropInContent (ksm_enabled ksm))) /\
    applyKSM root ksm h1 = (inr false, h1).
Proof using.
  rewrite applyKSM_run. destruct (DetectKSMUnit root h) as [[e|u] h0] eqn:Ed; [done|].
  destruct (DetectKSMUnit_run _ _ _ Ed) as [-> Hu]. apply find_some in Hu as [Hu%list_elem_of_In _].
  destruct (IsRestartable u) eqn:Er; [|done]. cbn [negb]. fold (dropin_path u).
  destruct (writeFileIfChanged _ _ h) as [[e|c] h2] eqn:Ew; [done|]. intros [= <- <-].
  destruct (writeFileIfChanged_spec _ _ _ _ _ Ew) as (Hf & Hfa & Hr & Hok & ->).
  exists u. assert (Hd : h_files (put h2 (ksm_knobs ksm)) !! dropin_path u = Some (ksmDropInContent (ksm_enabled ksm))).
  { rewrite put_other by (by apply knob_not_dropin). by rewrite Hf, lookup_insert_eq. }
  split; [done|]. split; [done|]. split; [done|]. split.
  { rewrite negb_true_iff. apply bool_decide_eq_false. }
  rewrite applyKSM_run, (DetectKSMUnit_stable h), Ed.
  - cbn [fst]. rewrite Er. cbn [negb]. fold (dropin_path u).
    rewrite writeFileIfChanged_same; [by rewrite put_twice| |done]. simpl. by rewrite Hfa.
  - done.
  - intros dir name Hdir Hname. rewrite put_other by (by apply knob_not_unit). rewrite Hf.
    apply lookup_insert_ne. intros E. by apply (dropin_not_unit u dir name).
Qed.
End Idempotent.

Definition demo_ksm : KSMSpec := mkKSMSpec true (Some 200) None (Some false).

Lemma applyKSM_idempotent_witness :
  let h1 := (applyKSM "/host" demo_ksm demo_host).2 in
  (applyKSM "/host" demo_ksm demo_host).1 = inr true /\ applyKSM "/host" demo_ksm h1 = (inr false, h1).
Proof.
  intros h1. assert ((applyKSM "/host" demo_ksm demo_host).1 = inr true) as H1 by (vm_compute; reflexivity).
  split; [exact H1|].
  assert (applyKSM "/host" demo_ksm demo_host = (inr true, h1)) as E by (rewrite <- H1; apply surjective_pairing).
  destruct (applyKSM_idempotent "/host" demo_ksm demo_host true h1 E) as (u & _ & _ & _ & _ & H2). exact H2.
Defined.

(** ** What the controller reads of it *)

(** A published timestamp reaches the controller. When systemd reports
    when the unit last started, the annotation the agent sets is read back by
    the controller's annotationTime as exactly that instant; when it reports
    none, the previous annotation is left as it was. *)
Theorem published_timestamp_readable node unit t mig :
  time_ok (utc t) ->
  let node' := setNodeState node unit t mig in
  annotation node' TuningUnitAnnotation = unit /\
  annotationTime node' TuningUnitActiveEnterAnnotation =
    (if is_zero t then annotationTime node TuningUnitActiveEnterAnnotation else inr (utc t)).
Proof.
  intros Ht. unfold setNodeState, setNodeAnnotation, annotation, annotationTime.
  destruct (is_zero t); cbn [negb]; case_bool_decide; cbn [node_annotations node_name set_annotations set_labels];
    rewrite ?lookup_insert_eq, ?lookup_insert_ne by done; rewrite ?lookup_insert_eq, ?lookup_insert_ne by done;
    try done; by rewrite parse_format_nano.
Qed.

Lemma published_timestamp_readable_witness :
  annotationTime (setNodeState demo_asked "k3s-agent" (Time (1757930405 * second) 7200) "all-1g.5gb") TuningUnitActiveEnterAnnotation
  = inr (at_s 5).
Proof.
  destruct (published_timestamp_readable demo_asked "k3s-agent" (Time (1757930405 * second) 7200) "all-1g.5gb") as [_ H].
  - apply (bool_decide_unpack _). by vm_compute.
  - exact H.
Defined.

(** A patch is skipped exactly when there is nothing to write: the new maps
    only ever gain keys, so equal sizes and entries mean equal maps. (In
    general [equalStringMaps] takes {x: ""} and {y: ""} for equal, a missing
    key reading as "".) *)
Lemma equalStringMaps_iff (a b : strmap) : dom a ⊆ dom b -> equalStringMaps a b = true <-> a = b.
Proof.
  intros Hd. unfold equalStringMaps. rewrite andb_true_iff, Nat.eqb_eq, forallb_forall. split.
  - intros [Hs He]. assert (dom a = dom b) as Hdom.
    { apply set_subseteq_size_eq; [done|]. by rewrite !size_dom, Hs. }
    apply map_eq. intros k. destruct (a !! k) as [v|] eqn:Ea.
    + assert (In (k, v) (map_to_list a)) as Hin by (apply list_elem_of_In; by apply elem_of_map_to_list).
      specialize (He _ Hin). apply bool_decide_eq_true in He. cbn [fst snd] in He.
      assert (is_Some (b !! k)) as [v' Hv'] by (apply elem_of_dom, Hd, elem_of_dom; eauto).
      rewrite Hv' in *. simpl in He. by subst.
    + symmetry. apply not_elem_of_dom. rewrite <- Hdom. by apply not_elem_of_dom.
  - intros <-. split; [done|]. intros [k v] Hin%list_elem_of_In%elem_of_map_to_list. apply bool_decide_eq_true.
    cbn [fst snd]. by rewrite Hin.
Qed.

Lemma setNodeState_grows node unit t mig :
  dom (node_annotations node) ⊆ dom (node_annotations (setNodeState node unit t mig)) /\
  dom (node_labels node) ⊆ dom (node_labels (setNodeState node unit t mig)).
Proof.
  unfold setNodeState, setNodeAnnotation. destruct (is_zero t); cbn [negb]; case_bool_decide; simpl;
    rewrite ?dom_insert_L; set_solver.
Qed.

Lemma setNodeState_keys node unit t mig key :
  key ∈ rollout_keys -> node_annotations (setNodeState node unit t mig) !! key = node_annotations node !! key.
Proof.
  intros Hk. assert (key <> TuningUnitAnnotation /\ key <> TuningUnitActiveEnterAnnotation) as [H1 H2].
  { unfold rollout_keys in Hk. split; intros ->; by apply (bool_decide_unpack _) in Hk || set_solver. }
  unfold setNodeState, setNodeAnnotation. destruct (is_zero t); cbn [negb]; case_bool_decide; simpl;
    by rewrite ?lookup_insert_ne by done.
Qed.

Section Drift.
Context `{LS : LabelSelectors} `{EX : Exec} `{LZ : LocalZones} {W : Type} `{C : !Cluster W} `{CL : !ClusterLaws W}.

Definition api_drift {A} (m : St (Host * W) A) : Prop :=
  forall w, drift (srv_nodes w.2) (srv_nodes (m w).2.2).

Lemma api_drift_ret {A} (a : A) : api_drift (mret a).
Proof using. done. Qed.
Lemma api_drift_bind {A B} (m : St (Host * W) A) (k : A -> St (Host * W) B) :
  api_drift m -> (forall a, api_drift (k a)) -> api_drift (m ≫= k).
Proof using. intros Hm Hk w. rewrite (St_bind_run m k). etransitivity; [apply Hm | apply Hk]. Qed.
Lemma api_drift_host {A} (m : St Host A) : api_drift (on_host m).
Proof using. intros [h x]. unfold on_host. simpl. by destruct (m h). Qed.
Lemma api_drift_api {A} (m : St W A) : (forall x, drift (srv_nodes x) (srv_nodes (m x).2)) -> api_drift (on_api m).
Proof using. intros Hm [h x]. specialize (Hm x). unfold on_api. simpl. by destruct (m x). Qed.

Lemma patch_state_drift node unit t mig x :
  drift (srv_nodes x) (srv_nodes (patch_node node (setNodeState node unit t mig) x).2).
Proof using.
  assert (node_name node = node_name (setNodeState node unit t mig)) as Hn.
  { unfold setNodeState, setNodeAnnotation. destruct (is_zero t); cbn [negb]; by case_bool_decide. }
  pose proof (patch_node_spec node (setNodeState node unit t mig) x Hn) as H.
  assert (Hk : forall m n' m', patched node (setNodeState node unit t mig) m n' m' -> same_keys m m').
  { intros m n' m' Hp name key Hk. destruct (decide (name = node_name node)) as [->|Hne]; [|by rewrite (patched_other _ _ _ _ _ _ _ Hp Hne)].
    rewrite (patched_key _ _ _ _ _ _ Hp Hk), setNodeState_keys by done. unfold merge_key. by rewrite decide_True. }
  destruct (patch_node _ _ x) as [[e|n'] x']; cbn [snd].
  - destruct H as [Hd|(m & n' & _ & Hp & Hno & _)]; [done|]. by destruct (Hno (Hk _ _ _ Hp)).
  - destruct H as (m & Hd & Hp & HL). etransitivity; [exact Hd|]. split; [by eapply Hk|done].
Qed.

Lemma retry_moves_nothing {A} n (f : St W (result apierr A)) x :
  (forall x, drift (srv_nodes x) (srv_nodes (f x).2)) -> drift (srv_nodes x) (srv_nodes (retry_steps n f x).2).
Proof using.
  intros Hf. revert x. induction n as [|n IH]; intros x; cbn [retry_steps]; rewrite St_bind_run;
    (destruct (f x).1 as [e|a]; [|apply Hf]); [apply Hf|]. case_match; [|apply Hf].
  rewrite St_bind_run. etransitivity; [apply Hf|]. etransitivity; [apply backoff_drift | apply IH].
Qed.

Lemma PatchObserved_drift nt nodeName o x : drift (srv_nodes x) (srv_nodes (PatchObserved nt nodeName o x).2).
Proof using.
  unfold PatchObserved. rewrite St_bind_run. cbn [snd mret St_ret].
  destruct retry_spec as [n Hn]. rewrite Hn. apply retry_moves_nothing. intros x'. unfold PatchObserved_once.
  rewrite St_bind_run. etransitivity; [apply (get_nt_drift (nt_name nt))|]. case_match; [done|].
  apply patch_nt_status_drift.
Qed.

Lemma report_drift matching nodeName o x : drift (srv_nodes x) (srv_nodes (report_observed matching nodeName o x).2).
Proof using.
  revert x. induction matching as [|nt rest IH]; intros x; [done|]. cbn [report_observed]. rewrite St_bind_run.
  etransitivity; [apply PatchObserved_drift | apply IH].
Qed.

(** The tuning half of a tick never moves a rollout: on every node of the
    cluster, its own included, the annotations the controller's state machine
    is made of are after the tick what they were before, also when the agent's
    copy of the node was stale. This is what the controller's campaign lock
    relies on between its own writes. *)
Theorem tick_leaves_rollouts nodeName root (w : Host * W) :
  drift (srv_nodes w.2) (srv_nodes (tuning_half nodeName root w).2.2).
Proof using.
  revert w. change (api_drift (tuning_half nodeName root)). unfold tuning_half.
  apply api_drift_bind.
  { apply api_drift_api. intros x. pose proof (get_node_spec nodeName x) as H.
    destruct (get_node nodeName x) as [[e|n] x']; [done|]. destruct H as (m & H1 & H2 & _). by etransitivity. }
  intros [e|node]; [apply api_drift_ret|]. apply api_drift_bind; [apply api_drift_api, list_nts_drift|].
  intros [e|items]; [apply api_drift_ret|]. cbv zeta.
  apply api_drift_bind; [apply api_drift_host|intros _]. apply api_drift_bind.
  - unfold systemd_half. apply api_drift_bind; [apply api_drift_host|intros [e|u]; [apply api_drift_ret|]].
    apply api_drift_bind; [apply api_drift_host|intros _]. apply api_drift_bind; [|intros; apply api_drift_host].
    unfold publishNodeState. do 2 (apply api_drift_bind; [apply api_drift_host|intros ?]). cbv zeta.
    case_match; [apply api_drift_ret|]. apply api_drift_bind; [|intros; apply api_drift_ret].
    apply api_drift_api. intros x. apply patch_state_drift.
  - intros _. apply api_drift_bind; [apply api_drift_host|]. intros o. apply api_drift_bind; [|intros _; apply api_drift_ret].
    destruct o; [apply api_drift_ret|]. apply api_drift_api. intros x. apply report_drift.
Qed.
End Drift.

(** ** Two writers of status.nodes *)

(** What [upsert_observed] changes: the Observed of the first entry of that
    name, or a new entry at the end. *)
Lemma upsert_observed_spec l name o :
  (forall i ns, l !! i = Some ns -> exists o', upsert_observed l name o !! i = Some (set_observed ns o') /\
     (ns_name ns <> name -> o' = ns_observed ns)) /\
  ns_observed (existingNodeStatus (upsert_observed l name o) name) = o /\
  (forall i ns, upsert_observed l name o !! i = Some ns -> l !! i = None -> ns = set_observed (fresh_node_status name) o).
Proof.
  induction l as [|x l (IH1 & IH2 & IH3)]; simpl.
  { split; [done|]. rewrite bool_decide_true by done. split; [done|]. intros [|i] ns H; by simplify_eq/=. }
  case_bool_decide as Hx.
  - split; [|split].
    + intros [|i] ns H; simplify_eq/=; [by eexists|]. exists (ns_observed ns). destruct ns. by rewrite H.
    + simpl. by rewrite bool_decide_true.
    + intros [|i] ns H H'; by simplify_eq/=.
  - split; [|split].
    + intros [|i] ns H; simplify_eq/=; [|by apply IH1]. exists (ns_observed ns). by destruct ns.
    + simpl. by rewrite bool_decide_false.
    + intros [|i] ns H H'; simplify_eq/=. by eapply IH3.
Qed.

Lemma observed_by_name_spec (current : list NodeTuningNodeStatus) b :
  NoDup (map ns_name current) -> b ∈ current -> observed_by_name current !! ns_name b = Some (ns_observed b).
Proof.
  unfold observed_by_name. generalize (∅ : gmap string ObservedTuning) as m.
  assert (forall l (m : gmap string ObservedTuning) k, k ∉ map ns_name l ->
    foldl (fun m ns => <[ns_name ns := ns_observed ns]> m) m l !! k = m !! k) as Hout.
  { induction l as [|x l IH]; intros m k Hk; [done|]. cbn [foldl map] in *.
    rewrite not_elem_of_cons in Hk. rewrite IH by tauto. apply lookup_insert_ne. naive_solver. }
  induction current as [|x l IH]; intros m Hnd Hb; [by apply elem_of_nil in Hb|]. cbn [foldl map] in *.
  apply NoDup_cons in Hnd as [Hx Hnd]. apply elem_of_cons in Hb as [->|Hb]; [|by apply IH].
  rewrite Hout by done. apply lookup_insert_eq.
Qed.

Section TwoWriters.
Context `{LS : LabelSelectors} {W : Type} `{C : !Cluster W} `{CL : !ClusterLaws W} `{SL : !StatusLaws W}.

(** A successful retry is a successful attempt. *)
Lemma retry_success {A} (f : St W (result apierr A)) w a w' :
  retry_on_conflict f w = (inr a, w') -> exists w0, f w0 = (inr a, w').
Proof using CL.
  destruct retry_spec as [n Hn]. rewrite Hn. clear Hn. revert w. induction n as [|n IH]; intros w; cbn [retry_steps];
    rewrite St_bind_run; destruct (f w) as [[e|a0] w1] eqn:E; cbn [fst snd]; try done.
  - intros [= <- <-]. eauto.
  - case_match; [|done]. rewrite St_bind_run. apply IH.
  - intros [= <- <-]. eauto.
Qed.

(** The agent's status write is local. When PatchObserved succeeds, the
    list it replaced is the one stored at that moment, every entry of it is
    still at its place with every field but Observed unchanged, the Observed
    of the other nodes is unchanged too, and this node's entry carries what
    was observed (a new bare entry if it had none). *)
Theorem agent_status_write nt nodeName o w w' :
  PatchObserved nt nodeName o w = (None, w') ->
  exists m before after, m !! nt_name nt = Some before /\ srv_nts w' = <[nt_name nt := after]> m /\
    (forall i ns, nt_nodes before !! i = Some ns -> exists o', nt_nodes after !! i = Some (set_observed ns o') /\
       (ns_name ns <> nodeName -> o' = ns_observed ns)) /\
    ns_observed (existingNodeStatus (nt_nodes after) nodeName) = o /\
    (forall i ns, nt_nodes after !! i = Some ns -> nt_nodes before !! i = None ->
       ns = set_observed (fresh_node_status nodeName) o).
Proof using CL.
  unfold PatchObserved. rewrite St_bind_run. cbn [mret St_ret]. intros [= H Hw].
  destruct (retry_on_conflict _ w) as [[e|after] w2] eqn:E; [done|]. cbn [snd] in Hw. subst w2.
  apply retry_success in E as [w0 E]. unfold PatchObserved_once in E. rewrite St_bind_run in E.
  destruct (get_nt (nt_name nt) w0) as [[e|fresh] w1] eqn:Eg; [done|]. cbn [fst snd] in E.
  apply get_nt_name in Eg. apply status_patch_spec in E as (m & before & Hm & _ & Hb & Hs & Ha); [|done].
  exists m, before, after. rewrite Hb, Ha, <- Eg. split; [done|]. split; [done|]. apply upsert_observed_spec.
Qed.

(** The controller's status write keeps what the agents reported. When
    patchStatus succeeds, the stored list is the computed one in every field
    but Observed; and a node that had an entry at the moment of the write
    keeps the Observed of that entry, however long ago the controller read its
    own copy. *)
Theorem controller_status_write nt nodes w nt' w' :
  patchStatus nt nodes w = (inr nt', w') ->
  exists m before, m !! nt_name nt = Some before /\ srv_nts w' = <[nt_name nt := nt']> m /\
    length (nt_nodes nt') = length nodes /\
    forall i ns, nodes !! i = Some ns -> exists o, nt_nodes nt' !! i = Some (set_observed ns o) /\
      (NoDup (map ns_name (nt_nodes before)) ->
       forall b, b ∈ nt_nodes before -> ns_name b = ns_name ns -> o = ns_observed b).
Proof using CL.
  unfold patchStatus. intros E. apply retry_success in E as [w0 E]. unfold patchStatus_once in E.
  rewrite St_bind_run in E. destruct (reader_get_nt (nt_name nt) w0) as [[e|fresh] w1] eqn:Eg; [done|].
  cbn [fst snd] in E. apply reader_get_nt_name in Eg.
  apply status_patch_spec in E as (m & before & Hm & _ & Hb & Hs & Ha); [|done].
  exists m, before. rewrite Ha, Hb, <- Eg. split; [done|]. split; [done|]. cbn [nt_nodes set_status].
  unfold preserveObserved. split; [by rewrite length_map|].
  intros i ns Hi. change (map ?f nodes) with (f <$> nodes). rewrite list_lookup_fmap, Hi. simpl.
  destruct (observed_by_name (nt_nodes fresh) !! ns_name ns) as [o|] eqn:Eo.
  - exists o. split; [done|]. intros Hnd b Hin Hn. rewrite <- Hn in Eo.
    rewrite observed_by_name_spec in Eo by done. by injection Eo.
  - exists (ns_observed ns). split; [by destruct ns|]. intros Hnd b Hin Hn. rewrite <- Hn in Eo.
    by rewrite observed_by_name_spec in Eo.
Qed.
End TwoWriters.

(** The store after the agent of n2 reported on an object that has entries
    for n1 and n2. *)
Definition demo_report : World :=
  let ns n g := set_applied (fresh_node_status n) g in
  demo_world [] [] (set_status demo_nt 4 [ns "n1" 3; ns "n2" 4]) 100 [].
Definition demo_observed : ObservedTuning := mkObserved (Some (mkObservedKSM true 7 9)) "virtual-host".

Lemma agent_status_write_witness :
  exists m before after, m !! "t" = Some before /\
    srv_nts (PatchObserved demo_nt "n2" demo_observed demo_report).2 = <["t" := after]> m /\
    ns_observed (existingNodeStatus (nt_nodes after) "n2") = demo_observed.
Proof.
  assert ((PatchObserved demo_nt "n2" demo_observed demo_report).1 = None) as E by (vm_compute; reflexivity).
  destruct (agent_status_write demo_nt "n2" demo_observed demo_report (PatchObserved demo_nt "n2" demo_observed demo_report).2)
    as (m & b & a & Hm & Hs & _ & Ho & _); [rewrite <- E; apply surjective_pairing|].
  exists m, b, a. done.
Defined.

Lemma controller_status_write_witness :
  exists nt' m, (patchStatus demo_nt [fresh_node_status "n2"] demo_report).1 = inr nt' /\
    srv_nts (patchStatus demo_nt [fresh_node_status "n2"] demo_report).2 = <["t" := nt']> m.
Proof.
  assert (match (patchStatus demo_nt [fresh_node_status "n2"] demo_report).1 with inr _ => True | inl _ => False end) as E
    by (vm_compute; exact I).
  destruct (patchStatus demo_nt [fresh_node_status "n2"] demo_report) as [[e|nt'] w'] eqn:Ep; [done|].
  destruct (controller_status_write demo_nt [fresh_node_status "n2"] demo_report nt' w' Ep) as (m & b & _ & Hs & _).
  by exists nt', m.
Defined.

(** ** Agent and controller refuse alike *)

Section Agree.
Context `{LS : LabelSelectors} {W : Type} `{C : !Cluster W}.

Definition selects (nt : NodeTuning) (labels : strmap) : bool :=
  match selectorMatches (spec_nodeSelector (nt_spec nt)) labels with inr b => b | inl _ => false end.

Lemma overlapping_selects all self node :
  overlappingNodeTunings all self node =
  sort_strings (map nt_name (List.filter (fun nt => negb (bool_decide (nt_name nt = self)) && selects nt (node_labels node)) all)).
Proof using.
  unfold overlappingNodeTunings. do 2 f_equal. apply filter_ext. intros nt. unfold selects, selectorMatches.
  case_bool_decide; simpl; [done|]. destruct (spec_nodeSelector (nt_spec nt)) as [s|]; [|done]. by destruct (as_selector s).
Qed.

(** The agent applies an object exactly when the controller finds no
    overlap for it: for an object that selects the node, [selecting] returns
    it alone (so applyMatched applies it) if and only if
    overlappingNodeTunings is empty (so the controller does not report
    Failed). *)
Theorem agent_controller_agree (all : list NodeTuning) (nt : NodeTuning) (node : Node) :
  NoDup (map nt_name all) -> nt ∈ all -> selects nt (node_labels node) = true ->
  selecting all (node_labels node) = [nt] <-> overlappingNodeTunings all (nt_name nt) node = [].
Proof using.
  intros Hnd Hin Hsel. rewrite overlapping_selects. change (selecting all (node_labels node)) with
    (List.filter (fun nt => selects nt (node_labels node)) all). unfold sort_strings.
  transitivity (List.filter (fun x => negb (bool_decide (nt_name x = nt_name nt)) && selects x (node_labels node)) all = []).
  - induction all as [|x all IH]; [by apply elem_of_nil in Hin|]. cbn [map] in Hnd. apply NoDup_cons in Hnd as [Hx Hnd].
    assert (forall l, nt_name nt ∉ map nt_name l ->
      List.filter (fun x => negb (bool_decide (nt_name x = nt_name nt)) && selects x (node_labels node)) l =
      List.filter (fun nt => selects nt (node_labels node)) l) as Hrest.
    { intros l Hl. apply filter_ext_in. intros y Hy. rewrite bool_decide_false; [done|].
      intros E. apply Hl. rewrite <- E. by apply list_elem_of_In, in_map. }
    cbn [List.filter]. apply elem_of_cons in Hin as [<-|Hin].
    + rewrite bool_decide_true, Hsel by done. simpl. rewrite Hrest by done. split; [by intros [= ->] | by intros ->].
    + assert (nt_name x <> nt_name nt) as Hne.
      { intros E. apply Hx. rewrite E. by apply list_elem_of_In, in_map, list_elem_of_In. }
      rewrite bool_decide_false by done. simpl. destruct (selects x (node_labels node)); [|by apply IH].
      split; [|done]. intros [= -> _]. done.
  - split; [by intros -> |]. intros E. apply (f_equal length) in E. rewrite sort_by_length, length_map in E.
    by apply nil_length_inv.
Qed.

(** FullyRealized is earned. realizeNode reports it exactly when the
    node's restart is on record and the pods were listed and every pod that
    has not finished started after that restart. *)
Theorem fully_realized_iff name ns (w : W) :
  ns_realization (realizeNode name ns w).1 = RealizationFullyRealized <->
  exists t pods, ns_restartedAt ns = Some t /\ (list_pods_on name w).1 = inr pods /\
    forall p, p ∈ pods -> pod_phase p <> PodSucceeded -> pod_phase p <> PodFailed ->
      exists st, pod_start p = Some st /\ unix_nano t < unix_nano st.
Proof using.
  assert (forall t pods, all_started_after t pods = true <-> forall p, p ∈ pods -> pod_phase p <> PodSucceeded ->
    pod_phase p <> PodFailed -> exists st, pod_start p = Some st /\ unix_nano t < unix_nano st) as Hall.
  { intros t. induction pods as [|p pods IH]; [split; [set_solver|done]|]. cbn [all_started_after].
    setoid_rewrite elem_of_cons.
    destruct (decide (pod_phase p = PodSucceeded)) as [E1|E1]; [rewrite bool_decide_true by done; naive_solver|].
    destruct (decide (pod_phase p = PodFailed)) as [E2|E2];
      [rewrite (bool_decide_true (pod_phase p = PodFailed)), orb_true_r by done; naive_solver|].
    rewrite !bool_decide_false by done. cbn [orb]. unfold after in *.
    destruct (pod_start p) as [st|] eqn:Es; [|naive_solver].
    destruct (unix_nano t <? unix_nano st) eqn:El; bool_to_prop; [naive_solver|].
    split; [done|]. intros H. destruct (H p) as (st' & H1 & H2); naive_solver lia. }
  unfold realizeNode. destruct (ns_restartedAt ns) as [t|]; [|naive_solver].
  rewrite St_bind_run. destruct (list_pods_on name w) as [[e|pods] w1]; [naive_solver|]. cbn [fst].
  destruct (all_started_after t pods) eqn:E; simpl; [rewrite Hall in E; naive_solver|].
  split; [done|]. intros (t' & pods' & [= <-] & [= <-] & H). apply Hall in H. congruence.
Qed.
End Agree.

Lemma agent_controller_agree_witness :
  selecting [demo_nt] {[ "role" := "worker" ]} = [demo_nt] /\
  overlappingNodeTunings [demo_nt] "t" (demo_node "n1" "" 10) = [].
Proof.
  split; [reflexivity|].
  apply (agent_controller_agree [demo_nt] demo_nt (demo_node "n1" "" 10)); try reflexivity.
  - apply NoDup_singleton.
  - by left.
Defined.
