(* ===== verification/StorageTypes.v ===== *)
(** The reading of a machine as the API stores it: local storage stacks,
    disks, BMC inventory and links (api/frame/v1beta1/localstorage_types.go,
    framemachine_types.go, machinenetwork_types.go) and the two health
    policies. A pointer field is an [option], a slice a [list]; a stack's
    state is the string the agent wrote, known or not. *)
From stdpp Require Import base tactics strings list gmap.
From Stdlib Require Import ZArith.
From S2P Require Import Prelude GoTime.

Open Scope Z_scope.

Definition StackState : Type := string.
Definition StackPresent : StackState := "present".
Definition StackAbsent : StackState := "absent".
Definition StackError : StackState := "error".
Definition StackBusy : StackState := "busy".

Record ZVdev := mkZVdev {
  zv_Name : string;
  zv_Depth : Z;
  zv_State : string;
  zv_ReadErrors : Z;
  zv_WriteErrors : Z;
  zv_ChecksumErrors : Z;
  zv_Note : string
}.

Record ZPool := mkZPool {
  zp_Name : string;
  zp_Health : string;
  zp_SizeBytes : Z;
  zp_AllocatedBytes : Z;
  zp_FreeBytes : Z;
  zp_FragmentationPercent : option Z;
  zp_CapacityPercent : option Z;
  zp_Scan : string;
  zp_ScrubErrors : option Z;
  zp_LastScrub : string;
  zp_Errors : string;
  zp_Vdevs : list ZVdev;
  zp_VdevsOmitted : Z
}.

Record ZFSDataset := mkZFSDataset {
  zd_Name : string;
  zd_Type : string;
  zd_UsedBytes : Z;
  zd_AvailBytes : Z;
  zd_ReferBytes : Z;
  zd_MountPoint : string
}.

Record ZFSStatus := mkZFSStatus {
  zfs_State : StackState;
  zfs_ReadAt : option time;
  zfs_Error : string;
  zfs_Pools : list ZPool;
  zfs_PoolsOmitted : Z;
  zfs_Datasets : list ZFSDataset;
  zfs_DatasetsOmitted : Z
}.

Record MDMember := mkMDMember {
  mdm_Device : string;
  mdm_Serial : string;
  mdm_Failed : bool;
  mdm_Spare : bool
}.

Record MDArray := mkMDArray {
  mda_Name : string;
  mda_Level : string;
  mda_State : string;
  mda_RaidDisks : Z;
  mda_ActiveDisks : Z;
  mda_Slots : string;
  mda_Degraded : bool;
  mda_Sync : string;
  mda_Members : list MDMember;
  mda_MembersOmitted : Z
}.

Record MDStatus := mkMDStatus {
  md_State : StackState;
  md_ReadAt : option time;
  md_Error : string;
  md_Arrays : list MDArray;
  md_ArraysOmitted : Z
}.

Record LVMPhysicalVolume := mkLVMPhysicalVolume {
  pv_Name : string;
  pv_VG : string;
  pv_SizeBytes : Z;
  pv_FreeBytes : Z;
  pv_Attr : string;
  pv_Serial : string
}.

Record LVMVolumeGroup := mkLVMVolumeGroup {
  vg_Name : string;
  vg_SizeBytes : Z;
  vg_FreeBytes : Z;
  vg_PVCount : Z;
  vg_LVCount : Z;
  vg_Attr : string
}.

Record LVMLogicalVolume := mkLVMLogicalVolume {
  lv_Name : string;
  lv_VG : string;
  lv_SizeBytes : Z;
  lv_Attr : string;
  lv_SegType : string;
  lv_DataPercent : string
}.

Record LVMStatus := mkLVMStatus {
  lvm_State : StackState;
  lvm_ReadAt : option time;
  lvm_Error : string;
  lvm_PVs : list LVMPhysicalVolume;
  lvm_VGs : list LVMVolumeGroup;
  lvm_LVs : list LVMLogicalVolume;
  lvm_Omitted : Z
}.

Record LocalStorage := mkLocalStorage {
  ls_ZFS : ZFSStatus;
  ls_MD : MDStatus;
  ls_LVM : LVMStatus
}.

Record ProcessorInfo := mkProcessorInfo {
  pr_Socket : string;
  pr_Model : string;
  pr_Cores : Z;
  pr_Threads : Z
}.

Record MemoryModuleInfo := mkMemoryModuleInfo {
  mm_Slot : string;
  mm_SizeMiB : Z;
  mm_Type : string;
  mm_Manufacturer : string
}.

Record DriveInfo := mkDriveInfo {
  dr_Name : string;
  dr_Model : string;
  dr_SizeGB : Z;
  dr_Protocol : string;
  dr_Health : string;
  dr_SerialNumber : string;
  dr_Location : string;
  dr_MediaType : string;
  dr_StatusReasons : list string;
  dr_Firmware : string;
  dr_RotationSpeedRPM : Z;
  dr_LinkSpeedMbps : Z;
  dr_TemperatureCelsius : option Z;
  dr_PowerOnHours : option Z;
  dr_SSDEnduranceUsedPercent : option Z
}.

Record StorageControllerInfo := mkStorageControllerInfo {
  sc_Location : string;
  sc_Model : string;
  sc_Firmware : string;
  sc_Health : string;
  sc_BackupPowerStatus : string;
  sc_CacheStatus : string
}.

Record NetworkAdapterInfo := mkNetworkAdapterInfo {
  na_Name : string;
  na_MAC : string;
  na_Status : string
}.

Record MachineInventory := mkMachineInventory {
  inv_Manufacturer : string;
  inv_Model : string;
  inv_SerialNumber : string;
  inv_BIOSVersion : string;
  inv_BMCFirmware : string;
  inv_Processors : list ProcessorInfo;
  inv_MemoryModules : list MemoryModuleInfo;
  inv_TotalMemoryGiB : Z;
  inv_Drives : list DriveInfo;
  inv_StorageControllers : list StorageControllerInfo;
  inv_NetworkAdapters : list NetworkAdapterInfo
}.

Record DiskSMART := mkDiskSMART {
  sm_ReadAt : option time;
  sm_Passed : option bool;
  sm_WearUsedPercent : option Z;
  sm_Error : string
}.

Record ObservedDisk := mkObservedDisk {
  od_Path : string;
  od_SerialNumber : string;
  od_SizeGB : Z;
  od_Occupancy : string;
  od_WWN : string;
  od_ByIDPath : string;
  od_Model : string;
  od_Rotational : option bool;
  od_MountPoint : string;
  od_FSType : string;
  od_Members : list string;
  od_SMART : option DiskSMART
}.

Record DiskDivergence := mkDiskDivergence {
  dd_SerialNumber : string;
  dd_Reason : string;
  dd_Detail : string
}.

Record MachineStorage := mkMachineStorage {
  ms_Observed : list ObservedDisk;
  ms_Divergences : list DiskDivergence;
  ms_ObservedAt : option time;
  ms_Local : option LocalStorage
}.

Record LinkTraffic := mkLinkTraffic {
  lt_HistorySeconds : Z;
  lt_RxBytesPerSecond : Z;
  lt_TxBytesPerSecond : Z;
  lt_PeakRxBytesPerSecond : Z;
  lt_PeakTxBytesPerSecond : Z;
  lt_CapacityMbps : option Z;
  lt_UtilizationPercent : option Z;
  lt_SustainedUtilizationPercent : option Z;
  lt_PeakUtilizationPercent : option Z;
  lt_ErrorsPerMinute : Z;
  lt_DropsPerMinute : Z
}.

Record NetworkInterface := mkNetworkInterface {
  ni_Name : string;
  ni_OperState : string;
  ni_SpeedMbps : option Z;
  ni_Duplex : string;
  ni_MTU : Z;
  ni_Master : string;
  ni_RxErrors : Z;
  ni_TxErrors : Z;
  ni_RxDropped : Z;
  ni_TxDropped : Z;
  ni_Traffic : option LinkTraffic
}.

Record BondMember := mkBondMember {
  bm_Name : string;
  bm_MIIStatus : string;
  bm_State : string;
  bm_LinkFailures : Z;
  bm_AggregatorID : Z
}.

Record NetworkBond := mkNetworkBond {
  nb_Name : string;
  nb_Mode : string;
  nb_MIIStatus : string;
  nb_MTU : Z;
  nb_AggregatorID : Z;
  nb_PortsInAggregator : Z;
  nb_Traffic : option LinkTraffic;
  nb_PartnerMAC : string;
  nb_Members : list BondMember;
  nb_MembersOmitted : Z;
  nb_MembersUnread : bool;
  nb_AdminDown : bool
}.

Record MachineNetwork := mkMachineNetwork {
  mn_ObservedAt : option time;
  mn_Error : string;
  mn_Interfaces : list NetworkInterface;
  mn_InterfacesOmitted : Z;
  mn_Bonds : list NetworkBond;
  mn_BondsOmitted : Z
}.

Record ExpectedLink := mkExpectedLink {
  el_Node : string;
  el_Interface : string;
  el_SpeedMbps : Z;
  el_Members : Z
}.

Record NetworkHealthPolicySpec := mkNetworkHealthPolicySpec {
  nhp_MinLinkSpeedMbps : Z;
  nhp_LinkSaturatedPercent : Z;
  nhp_LinkErrorsPerMinute : Z;
  nhp_Links : list ExpectedLink
}.

Record StorageHealthPolicySpec := mkStorageHealthPolicySpec {
  shp_ZFSCapacityPercent : Z;
  shp_SSDWearPercent : Z
}.

(** The parts of FrameMachineStatus the health checks read. *)
Record MachineReading := mkMachineReading {
  st_Inventory : option MachineInventory;
  st_Storage : option MachineStorage;
  st_Network : option MachineNetwork
}.

Definition DefaultZFSCapacityPercent : Z := 80.
Definition DefaultSSDWearPercent : Z := 80.
Definition DefaultMinLinkSpeedMbps : Z := 1000.
Definition DefaultLinkSaturatedPercent : Z := 80.
Definition DefaultLinkErrorsPerMinute : Z := 1.
