(* ===== verification/StorageHealth.v ===== *)
(** internal/storage/health.go and network_health.go: what a machine's reading
    says, as findings, held alerts and condition verdicts. [Assessment] is the
    state the Go methods mutate; each method is a function on it. A Go map is
    a [gmap], a map only ever set to true a [gset]. *)
From stdpp Require Import base tactics strings list gmap.
From Stdlib Require Import ZArith Lia.
From S2P Require Import Prelude GoLib GoTime StorageTypes.

Open Scope Z_scope.

Definition CheckDegraded : string := "StorageDegraded".
Definition CheckScrubErrors : string := "ScrubErrors".
Definition CheckCapacityHigh : string := "StorageCapacityHigh".
Definition CheckWearHigh : string := "DiskWearHigh".
Definition CheckNetDegraded : string := "NetworkDegraded".
Definition CheckLinkSlow : string := "LinkSpeedLow".
Definition CheckSaturated : string := "LinkSaturated".
Definition CheckLinkErrors : string := "LinkErrorsRising".

Definition Checks : list string :=
  [CheckDegraded; CheckScrubErrors; CheckCapacityHigh; CheckWearHigh; CheckNetDegraded; CheckLinkSlow;
   CheckSaturated; CheckLinkErrors].

Abbreviation Scope := string (only parsing).
Definition ScopeMD : Scope := "md".
Definition ScopeZFS : Scope := "zfs".
Definition ScopeDrives : Scope := "drives".
Definition ScopeSMART : Scope := "smart".
Definition ScopeNet : Scope := "network".
Definition ScopeNetExpected : Scope := "network-expected".
Definition scopeNetState : Scope := "network-state".
Definition scopeNetTraffic : Scope := "network-traffic".
Definition scopeNetSustained : Scope := "network-sustained".

Definition checkScopes : gmap string (list Scope) :=
  {[ CheckDegraded := [ScopeMD; ScopeZFS; ScopeSMART];
     CheckScrubErrors := [ScopeZFS];
     CheckCapacityHigh := [ScopeZFS];
     CheckWearHigh := [ScopeDrives];
     CheckNetDegraded := [ScopeNet; scopeNetState];
     CheckLinkSlow := [ScopeNet];
     CheckSaturated := [ScopeNet; scopeNetSustained];
     CheckLinkErrors := [ScopeNet; scopeNetTraffic] ]}.

Definition severityCritical : string := "critical".
Definition severityWarning : string := "warning".
Definition capacityHysteresis : Z := 2.
Definition MaxInventoryDrives : Z := 32.
Definition MaxObservedDisks : Z := 64.
Definition mediaSSD : string := "SSD".
Definition AgentSilentAfter : Z := 10 * minute.
Definition modeLACP : string := "802.3ad".
Definition saturationHysteresis : Z := 5.
Definition FullHistorySeconds : Z := 285.

Record Key := mkKey { key_Check : string; key_Device : string }.
#[export] Instance Key_eq : EqDecision Key.
Proof. solve_decision. Defined.
#[export] Instance Key_countable : Countable Key.
Proof. apply (inj_countable' (fun k => (key_Check k, key_Device k)) (fun p => mkKey p.1 p.2)). by intros []. Defined.

Definition Open : Type := gmap Key Scope.
Definition has (o : Open) (k : Key) : bool := bool_decide (is_Some (o !! k)).

Record Finding := mkFinding { f_Key : Key; f_Scope : Scope; f_Severity : string; f_Message : string }.
#[export] Instance Finding_eq : EqDecision Finding.
Proof. solve_decision. Defined.

Record Assessment := mkAssessment {
  Findings : list Finding;
  Unread : gmap Scope string;
  Cut : gmap Scope string;
  Held : gset Key;
  WearUnreported : Z;
  SMARTSilent : list string;
  SpeedUnreported : Z;
  CapacityUnreported : Z
}.

Definition empty_assessment : Assessment := mkAssessment [] ∅ ∅ ∅ 0 [] 0 0.

(** The writes the methods make. *)
Definition add (check device : string) (scope : Scope) (severity message : string) (a : Assessment) : Assessment :=
  mkAssessment (Findings a ++ [mkFinding (mkKey check device) scope severity message]) (Unread a) (Cut a) (Held a)
    (WearUnreported a) (SMARTSilent a) (SpeedUnreported a) (CapacityUnreported a).
Definition set_unread (scope : Scope) (why : string) (a : Assessment) : Assessment :=
  mkAssessment (Findings a) (<[scope := why]> (Unread a)) (Cut a) (Held a)
    (WearUnreported a) (SMARTSilent a) (SpeedUnreported a) (CapacityUnreported a).
Definition set_cut (scope : Scope) (why : string) (a : Assessment) : Assessment :=
  mkAssessment (Findings a) (Unread a) (<[scope := why]> (Cut a)) (Held a)
    (WearUnreported a) (SMARTSilent a) (SpeedUnreported a) (CapacityUnreported a).
Definition hold_all (ks : gset Key) (a : Assessment) : Assessment :=
  mkAssessment (Findings a) (Unread a) (Cut a) (Held a ∪ ks)
    (WearUnreported a) (SMARTSilent a) (SpeedUnreported a) (CapacityUnreported a).
Definition wear_unreported (a : Assessment) : Assessment :=
  mkAssessment (Findings a) (Unread a) (Cut a) (Held a)
    (wrap64 (WearUnreported a + 1)) (SMARTSilent a) (SpeedUnreported a) (CapacityUnreported a).
Definition smart_silent (serial : string) (a : Assessment) : Assessment :=
  mkAssessment (Findings a) (Unread a) (Cut a) (Held a)
    (WearUnreported a) (SMARTSilent a ++ [serial]) (SpeedUnreported a) (CapacityUnreported a).
Definition speed_unreported (a : Assessment) : Assessment :=
  mkAssessment (Findings a) (Unread a) (Cut a) (Held a)
    (WearUnreported a) (SMARTSilent a) (wrap64 (SpeedUnreported a + 1)) (CapacityUnreported a).
Definition capacity_unreported (a : Assessment) : Assessment :=
  mkAssessment (Findings a) (Unread a) (Cut a) (Held a)
    (WearUnreported a) (SMARTSilent a) (SpeedUnreported a) (wrap64 (CapacityUnreported a + 1)).

(** [if open.has(key) { a.Held[key] = true }]. *)
Definition hold_open (open : Open) (k : Key) (a : Assessment) : Assessment :=
  if has open k then hold_all {[ k ]} a else a.

Definition when (b : bool) (f : Assessment -> Assessment) (a : Assessment) : Assessment := if b then f a else a.

(** Thresholds *)
Record Thresholds := mkThresholds { ZFSCapacityPercent : Z; SSDWearPercent : Z }.

Definition ThresholdsFrom (p : option StorageHealthPolicySpec) : Thresholds :=
  match p with
  | None => mkThresholds DefaultZFSCapacityPercent DefaultSSDWearPercent
  | Some p => mkThresholds
      (if 0 <? shp_ZFSCapacityPercent p then shp_ZFSCapacityPercent p else DefaultZFSCapacityPercent)
      (if 0 <? shp_SSDWearPercent p then shp_SSDWearPercent p else DefaultSSDWearPercent)
  end.

(** [stackUnread]: why a stack's lists are not to be looked at, or "". *)
Definition stackUnread (state : StackState) (errText : string) : string :=
  if bool_decide (state = StackPresent) || bool_decide (state = StackAbsent) then ""
  else if bool_decide (state = StackError) then "read failed: " +:+ errText
  else if bool_decide (state = StackBusy) then "previous read still running on the node"
  else "unknown stack state " +:+ quote state.

(** The range over [open] only adds keys to a set: its order does not matter. *)
Definition holdUnlisted (open : Open) (scope : Scope) (listed : list string) (a : Assessment) : Assessment :=
  hold_all (dom (filter (fun ks => ks.2 = scope /\ key_Device ks.1 ∉ listed) open)) a.

Definition serialNote (serial : string) : string :=
  if bool_decide (serial = "") then "" else " (serial " +:+ serial +:+ ")".

Definition mdMessage (arr : MDArray) : string :=
  let failed := map (fun m => mdm_Device m +:+ serialNote (mdm_Serial m)) (List.filter mdm_Failed (mda_Members arr)) in
  let msg := "md array " +:+ mda_Name arr +:+ " (" +:+ mda_Level arr +:+ ") is degraded: state " +:+ mda_State arr +:+
             ", " +:+ itoa (mda_ActiveDisks arr) +:+ " of " +:+ itoa (mda_RaidDisks arr) +:+ " disks active, slots [" +:+
             mda_Slots arr +:+ "]" in
  match failed with [] => msg | _ => msg +:+ "; failed: " +:+ join ", " failed end.

Definition assessMD (md : MDStatus) (open : Open) (a : Assessment) : Assessment :=
  let why := stackUnread (md_State md) (md_Error md) in
  if bool_decide (why <> "") then set_unread ScopeMD why a else
  let a := foldl (fun a arr => when (mda_Degraded arr)
                    (add CheckDegraded (mda_Name arr) ScopeMD severityCritical (mdMessage arr)) a) a (md_Arrays md) in
  let a := holdUnlisted open ScopeMD (map mda_Name (md_Arrays md)) a in
  when (0 <? md_ArraysOmitted md)
    (set_cut ScopeMD (itoa (md_ArraysOmitted md) +:+ " array(s) past the agent's list limit")) a.

Definition bad_states : list string := ["DEGRADED"; "FAULTED"; "OFFLINE"; "UNAVAIL"; "REMOVED"].

(** The error counters are int64: their sum wraps. *)
Definition bad_vdev (v : ZVdev) : list string :=
  if bool_decide (zv_State v ∈ bad_states) then [zv_Name v +:+ " (" +:+ zv_State v +:+ ")"]
  else if 0 <? wrap64 (wrap64 (zv_ReadErrors v + zv_WriteErrors v) + zv_ChecksumErrors v)
  then [zv_Name v +:+ " (errors)"] else [].

Definition poolProblems (p : ZPool) : string :=
  let bad := flat_map bad_vdev (zp_Vdevs p) in
  if (bool_decide (zp_Health p = "") || bool_decide (zp_Health p = "ONLINE")) && bool_decide (bad = []) then "" else
  let msg := "pool " +:+ zp_Name p +:+ " is " +:+ zp_Health p in
  match bad with [] => msg | _ => msg +:+ ": " +:+ join ", " bad end.

Definition assessPool (p : ZPool) (t : Thresholds) (open : Open) (a : Assessment) : Assessment :=
  let msg := poolProblems p in
  let a :=
    if bool_decide (msg <> "") then add CheckDegraded (zp_Name p) ScopeZFS severityCritical msg a
    else when ((0 <? zp_VdevsOmitted p) || bool_decide (zp_Health p = ""))
           (fun a => hold_open open (mkKey CheckDegraded (zp_Name p))
                       (set_cut ScopeZFS ("pool " +:+ zp_Name p +:+ " was not read in full") a)) a in
  let skey := mkKey CheckScrubErrors (zp_Name p) in
  let a :=
    match zp_ScrubErrors p with
    | Some n => when (0 <? n) (add CheckScrubErrors (zp_Name p) ScopeZFS severityCritical
        ("pool " +:+ zp_Name p +:+ ": last scrub found " +:+ itoa n +:+ " errors (" +:+ zp_LastScrub p +:+ ")")) a
    | None => when (bool_decide (zp_Scan p <> "none requested")) (hold_open open skey) a
    end in
  let key := mkKey CheckCapacityHigh (zp_Name p) in
  match zp_CapacityPercent p with
  | None => hold_open open key a
  | Some used =>
    let limit := if has open key then wrap32 (ZFSCapacityPercent t - capacityHysteresis) else ZFSCapacityPercent t in
    when (limit <=? used) (add CheckCapacityHigh (zp_Name p) ScopeZFS severityWarning
      ("pool " +:+ zp_Name p +:+ " is over the capacity threshold of " +:+ itoa (ZFSCapacityPercent t) +:+ " %")) a
  end.

Definition assessZFS (z : ZFSStatus) (t : Thresholds) (open : Open) (a : Assessment) : Assessment :=
  let why := stackUnread (zfs_State z) (zfs_Error z) in
  if bool_decide (why <> "") then set_unread ScopeZFS why a else
  let a := foldl (fun a p => assessPool p t open a) a (zfs_Pools z) in
  let a := holdUnlisted open ScopeZFS (map zp_Name (zfs_Pools z)) a in
  when (0 <? zfs_PoolsOmitted z)
    (set_cut ScopeZFS (itoa (zfs_PoolsOmitted z) +:+ " pool(s) past the agent's list limit")) a.

Definition local_unread (why : string) (a : Assessment) : Assessment :=
  set_unread ScopeSMART why (set_unread ScopeZFS why (set_unread ScopeMD why a)).

(** The agent's report is missing or older than AgentSilentAfter. *)
Definition silent_since (at_ : option time) (now : time) : bool :=
  match at_ with None => true | Some t => AgentSilentAfter <? sub now t end.

Definition assessLocal (s : option MachineStorage) (t : Thresholds) (open : Open) (now : time) (a : Assessment) : Assessment :=
  match s with
  | None => local_unread "the agent has not reported the node's stacks" a
  | Some s =>
    match ms_Local s with
    | None => local_unread "the agent has not reported the node's stacks" a
    | Some l =>
      if silent_since (ms_ObservedAt s) now then local_unread "the agent has stopped reporting" a
      else assessZFS (ls_ZFS l) t open (assessMD (ls_MD l) open a)
    end
  end.

(** ** Drives and SMART *)

Definition smartReportsWear (a : Assessment) (s : option MachineStorage) (serial : string) : bool :=
  match Unread a !! ScopeSMART, s with
  | None, Some s => existsb (fun d => bool_decide (od_SerialNumber d = serial) &&
                       match od_SMART d with Some m => bool_decide (is_Some (sm_WearUsedPercent m)) | None => false end)
                     (ms_Observed s)
  | _, _ => false
  end.

Definition drive_device (d : DriveInfo) : string :=
  if bool_decide (dr_SerialNumber d = "") then dr_Location d else dr_SerialNumber d.

Definition assessDrive (d : DriveInfo) (s : option MachineStorage) (t : Thresholds) (open : Open) (a : Assessment) : Assessment :=
  let device := drive_device d in
  match dr_SSDEnduranceUsedPercent d with
  | Some used => when (SSDWearPercent t <=? used) (add CheckWearHigh device ScopeDrives severityWarning
      ("drive " +:+ device +:+ " (bay " +:+ dr_Location d +:+ ", " +:+ dr_Model d +:+ ") has used " +:+ itoa used +:+
       " % of its endurance")) a
  | None =>
    let reported := smartReportsWear a s (dr_SerialNumber d) in
    let a := when (negb reported) (hold_open open (mkKey CheckWearHigh device)) a in
    when (bool_decide (dr_MediaType d = mediaSSD) && negb reported) wear_unreported a
  end.

Definition assessDrives (inv : option MachineInventory) (s : option MachineStorage) (t : Thresholds) (fresh : bool)
    (open : Open) (a : Assessment) : Assessment :=
  if negb fresh then set_unread ScopeDrives "the BMC did not answer the last probe" a else
  let drives := match inv with None => [] | Some inv => inv_Drives inv end in
  match drives with
  | [] => set_unread ScopeDrives "the BMC lists no drives" a
  | _ =>
    let a := foldl (fun a d => assessDrive d s t open a) a drives in
    let a := holdUnlisted open ScopeDrives (map drive_device drives) a in
    when (MaxInventoryDrives <=? Z.of_nat (length drives))
      (set_cut ScopeDrives ("the inventory holds " +:+ itoa MaxInventoryDrives +:+ " drives at most")) a
  end.

Definition maybeSolidState (d : ObservedDisk) : bool :=
  match od_Rotational d with None => true | Some r => negb r end.

Definition wearOwed (bmc : option DriveInfo) : bool :=
  match bmc with
  | None => true
  | Some b => bool_decide (dr_SSDEnduranceUsedPercent b = None) && bool_decide (dr_MediaType b <> mediaSSD)
  end.

Definition bmcDrive (inv : option MachineInventory) (serial : string) : option DriveInfo :=
  match inv with
  | None => None
  | Some inv => List.find (fun d => bool_decide (dr_SerialNumber d = serial)) (inv_Drives inv)
  end.

Definition smart_passed (d : ObservedDisk) : option bool := m ← od_SMART d; sm_Passed m.
Definition smart_wear (d : ObservedDisk) : option Z := m ← od_SMART d; sm_WearUsedPercent m.

Definition assessDisk (d : ObservedDisk) (inv : option MachineInventory) (t : Thresholds) (open : Open) (a : Assessment) : Assessment :=
  let serial := od_SerialNumber d in
  let bmc := bmcDrive inv serial in
  let owed := bool_decide (is_Some (od_SMART d)) || maybeSolidState d ||
              match bmc with Some b => bool_decide (dr_MediaType b = mediaSSD) | None => false end in
  let a := when (owed && bool_decide (smart_passed d = None)) (smart_silent serial) a in
  let a := match smart_passed d with
           | None => hold_open open (mkKey CheckDegraded serial) a
           | Some passed => when (negb passed) (add CheckDegraded serial ScopeSMART severityCritical
               ("disk " +:+ serial +:+ " (" +:+ od_Path d +:+ ", " +:+ od_Model d +:+ ") reports a failing SMART self-assessment")) a
           end in
  match (b ← bmc; dr_SSDEnduranceUsedPercent b), smart_wear d with
  | Some _, _ => a
  | None, None =>
    let a := hold_open open (mkKey CheckWearHigh serial) a in
    when (owed && wearOwed bmc) wear_unreported a
  | None, Some used => when (SSDWearPercent t <=? used) (add CheckWearHigh serial ScopeSMART severityWarning
      ("disk " +:+ serial +:+ " (" +:+ od_Path d +:+ ", " +:+ od_Model d +:+ ") has used " +:+ itoa used +:+
       " % of its endurance")) a
  end.

Definition assessSMART (s : option MachineStorage) (inv : option MachineInventory) (t : Thresholds) (open : Open)
    (a : Assessment) : Assessment :=
  match s with
  | None => a
  | Some s =>
    match Unread a !! ScopeSMART with
    | Some _ => foldl (fun a d => when (maybeSolidState d && wearOwed (bmcDrive inv (od_SerialNumber d))) wear_unreported a)
                  a (ms_Observed s)
    | None =>
      let a := foldl (fun a d => assessDisk d inv t open a) a (ms_Observed s) in
      let a := holdUnlisted open ScopeSMART (map od_SerialNumber (ms_Observed s)) a in
      when (MaxObservedDisks <=? Z.of_nat (length (ms_Observed s)))
        (set_cut ScopeSMART ("the agent lists " +:+ itoa MaxObservedDisks +:+ " disks at most")) a
    end
  end.

(** ** Links *)

Record NetExpectations := mkNetExpectations {
  ne_MinSpeedMbps : Z;
  ne_SaturatedPercent : Z;
  ne_ErrorsPerMinute : Z;
  ne_Links : gmap string ExpectedLink;
  ne_Unread : string
}.

Definition positive_or (v d : Z) : Z := if 0 <? v then v else d.

(** A later entry for the same interface replaces an earlier one. *)
Definition NetExpectationsFrom (p : option NetworkHealthPolicySpec) (node : string) : NetExpectations :=
  match p with
  | None => mkNetExpectations DefaultMinLinkSpeedMbps DefaultLinkSaturatedPercent DefaultLinkErrorsPerMinute ∅ ""
  | Some p => mkNetExpectations
      (positive_or (nhp_MinLinkSpeedMbps p) DefaultMinLinkSpeedMbps)
      (positive_or (nhp_LinkSaturatedPercent p) DefaultLinkSaturatedPercent)
      (positive_or (nhp_LinkErrorsPerMinute p) DefaultLinkErrorsPerMinute)
      (foldl (fun m l => if bool_decide (el_Node l = node) then <[el_Interface l := l]> m else m) ∅ (nhp_Links p)) ""
  end.

Definition memberDevice (bond member : string) : string := bond +:+ "/" +:+ member.

Definition unsure (key : Key) (open : Open) (why : string) (a : Assessment) : Assessment :=
  set_cut scopeNetState why (hold_open open key a).

Definition assessTraffic (name : string) (t : option LinkTraffic) (carrying up : bool) (e : NetExpectations)
    (open : Open) (a : Assessment) : Assessment :=
  let saturated := mkKey CheckSaturated name in
  let errs := mkKey CheckLinkErrors name in
  if negb carrying then hold_open open errs (hold_open open saturated a) else
  match t with
  | None =>
    let why := "link " +:+ name +:+ " has no rates" in
    set_cut scopeNetSustained why (set_cut scopeNetTraffic why (hold_open open errs (hold_open open saturated a)))
  | Some t =>
    let a :=
      if ne_ErrorsPerMinute e <=? lt_ErrorsPerMinute t
      then add CheckLinkErrors name ScopeNet severityWarning ("link " +:+ name +:+ " is counting errors") a
      else when (lt_HistorySeconds t <? FullHistorySeconds)
             (fun a => set_cut scopeNetTraffic ("link " +:+ name +:+ " has under five minutes of readings") (hold_open open errs a)) a in
    match lt_CapacityMbps t, lt_SustainedUtilizationPercent t with
    | None, _ => when up capacity_unreported (hold_open open saturated a)
    | Some _, None =>
      set_cut scopeNetSustained ("link " +:+ name +:+ " has under five minutes of readings") (hold_open open saturated a)
    | Some _, Some used =>
      let limit := if has open saturated then Z.max 1 (wrap32 (ne_SaturatedPercent e - saturationHysteresis))
                   else ne_SaturatedPercent e in
      when (limit <=? used) (add CheckSaturated name ScopeNet severityWarning
        ("link " +:+ name +:+ " is near its speed over five minutes, threshold " +:+ itoa (ne_SaturatedPercent e) +:+ " %")) a
    end
  end.

Definition assessInterface (i : NetworkInterface) (e : NetExpectations) (open : Open) (a : Assessment) : Assessment :=
  let expected := ne_Links e !! ni_Name i in
  let named := bool_decide (is_Some expected) in
  let state := ni_OperState i in
  let up := bool_decide (state = "up") in
  let carrying := up || bool_decide (state = "unknown") in
  let key := mkKey CheckLinkSlow (ni_Name i) in
  let a := assessTraffic (ni_Name i) (ni_Traffic i) carrying up e open a in
  if bool_decide (state = "") then
    let why := "link " +:+ ni_Name i +:+ " gives no state" in
    set_cut ScopeNet why (unsure key open why (unsure (mkKey CheckNetDegraded (ni_Name i)) open why a))
  else
  let a :=
    if named && bool_decide (state = "unknown") then
      unsure (mkKey CheckNetDegraded (ni_Name i)) open ("link " +:+ ni_Name i +:+ " gives no state") a
    else when (named && negb up) (add CheckNetDegraded (ni_Name i) ScopeNet severityCritical
           ("expected link " +:+ ni_Name i +:+ " is " +:+ state)) a in
  match (if carrying then ni_SpeedMbps i else None) with
  | None => when up speed_unreported (hold_open open key a)
  | Some speed =>
    let want := match expected with
                | Some x => if 0 <? el_SpeedMbps x then el_SpeedMbps x else ne_MinSpeedMbps e
                | None => ne_MinSpeedMbps e
                end in
    when (speed <? want) (add CheckLinkSlow (ni_Name i) ScopeNet severityWarning
      ("link " +:+ ni_Name i +:+ " runs at " +:+ itoa speed +:+ " Mb/s, " +:+ itoa want +:+ " expected")) a
  end.

Definition assessMember (b : NetworkBond) (open : Open) (m : BondMember) (a : Assessment) : Assessment :=
  let lacp := bool_decide (nb_Mode b = modeLACP) in
  let p1 := if bool_decide (bm_MIIStatus m <> "") && bool_decide (bm_MIIStatus m <> "up")
            then ["link " +:+ bm_MIIStatus m] else [] in
  let silent := bool_decide (bm_MIIStatus m = "") || bool_decide (nb_Mode b = "") ||
                (lacp && ((nb_AggregatorID b =? 0) || (bm_AggregatorID m =? 0))) in
  let p2 := if lacp && (0 <? nb_AggregatorID b) && (0 <? bm_AggregatorID m) && negb (bm_AggregatorID m =? nb_AggregatorID b)
            then ["in aggregator " +:+ itoa (bm_AggregatorID m) +:+ ", the bond uses " +:+ itoa (nb_AggregatorID b)] else [] in
  let device := memberDevice (nb_Name b) (bm_Name m) in
  match p1 ++ p2 with
  | [] => when silent (unsure (mkKey CheckNetDegraded device) open
            ("bond " +:+ nb_Name b +:+ " member " +:+ bm_Name m +:+ " gives no status")) a
  | problems => add CheckNetDegraded device ScopeNet severityWarning
      ("bond " +:+ nb_Name b +:+ " member " +:+ bm_Name m +:+ ": " +:+ join ", " problems) a
  end.

Definition assessBond (b : NetworkBond) (e : NetExpectations) (open : Open) (a : Assessment) : Assessment :=
  let key := mkKey CheckNetDegraded (nb_Name b) in
  let up := bool_decide (nb_MIIStatus b = "up") in
  let a := assessTraffic (nb_Name b) (nb_Traffic b) (bool_decide (nb_MIIStatus b <> "down")) up e open a in
  let named := bool_decide (is_Some (ne_Links e !! nb_Name b)) in
  let unused := negb named && nb_AdminDown b && negb (nb_MembersUnread b) && bool_decide (nb_Members b = []) in
  let '(bad, a) :=
    if up || unused then ([], a)
    else if bool_decide (nb_MIIStatus b = "") then ([], unsure key open ("bond " +:+ nb_Name b +:+ " gives no status") a)
    else (["is " +:+ nb_MIIStatus b], a) in
  let a := when (bool_decide (nb_Mode b = "")) (unsure key open ("bond " +:+ nb_Name b +:+ " gives no mode")) a in
  let want := match ne_Links e !! nb_Name b with Some x => el_Members x | None => 0 end in
  let members := Z.of_nat (length (nb_Members b)) in
  let '(bad, a) :=
    if nb_MembersUnread b then (bad, unsure key open ("bond " +:+ nb_Name b +:+ ": its members could not be read") a)
    else if (0 <? want) && (wrap32 (wrap32 members + nb_MembersOmitted b) <? want)
    then (bad ++ ["holds " +:+ itoa members +:+ " member(s), " +:+ itoa want +:+ " expected"], a)
    else (bad, a) in
  let a := match bad with
           | [] => a
           | _ => add CheckNetDegraded (nb_Name b) ScopeNet severityCritical ("bond " +:+ nb_Name b +:+ " " +:+ join ", " bad) a
           end in
  let a := when (0 <? nb_MembersOmitted b) (set_cut ScopeNet
             ("bond " +:+ nb_Name b +:+ ": " +:+ itoa (nb_MembersOmitted b) +:+ " member(s) past the agent's list limit")) a in
  foldl (fun a m => assessMember b open m a) a (nb_Members b).

(** Go ranges over a map in an order of its own: [range_links] stands for it. *)
Class RangeOrder := range_links : gmap string ExpectedLink -> list string.
Class RangeLaws `{RangeOrder} := range_links_perm : forall m, range_links m ≡ₚ elements (dom m).

Section Net.
Context `{RangeOrder}.

Definition listed_links (n : MachineNetwork) : list string :=
  map ni_Name (mn_Interfaces n) ++
  flat_map (fun b => nb_Name b :: map (fun m => memberDevice (nb_Name b) (bm_Name m)) (nb_Members b)) (mn_Bonds n).

(** A link the policy names and the node does not list. *)
Definition assessExpected (listed : list string) (cut : bool) (open : Open) (a : Assessment) (name : string) : Assessment :=
  if bool_decide (name ∈ listed) then a
  else if cut then hold_open open (mkKey CheckNetDegraded name) a
  else add CheckNetDegraded name ScopeNetExpected severityCritical ("expected link " +:+ name +:+ " is not on the node") a.

Definition net_unread (why : string) (a : Assessment) : Assessment :=
  set_unread ScopeNetExpected why (set_unread ScopeNet why a).

Definition assessNetwork (n : option MachineNetwork) (e : NetExpectations) (open : Open) (now : time) (a : Assessment) : Assessment :=
  if bool_decide (ne_Unread e <> "") then net_unread (ne_Unread e) a else
  match n with
  | None => net_unread "the agent has not reported the node's links" a
  | Some n =>
    if bool_decide (mn_Error n <> "") then net_unread ("read failed: " +:+ mn_Error n) a
    else if silent_since (mn_ObservedAt n) now then net_unread "the agent has stopped reporting" a
    else
      let a := foldl (fun a i => assessInterface i e open a) a (mn_Interfaces n) in
      let a := foldl (fun a b => assessBond b e open a) a (mn_Bonds n) in
      let listed := listed_links n in
      let '(cut, a) :=
        if (0 <? mn_InterfacesOmitted n) || (0 <? mn_BondsOmitted n) then
          (true, set_cut ScopeNet (itoa (mn_InterfacesOmitted n) +:+ " port(s) and " +:+ itoa (mn_BondsOmitted n) +:+
                                   " bond(s) past the agent's list limit") a)
        else if bool_decide (listed = []) then (true, set_cut ScopeNet "the agent lists no port and no bond" a)
        else (false, a) in
      let a := foldl (assessExpected listed cut open) a (range_links (ne_Links e)) in
      holdUnlisted open ScopeNet listed a
  end.

Definition Assess (st : MachineReading) (t : Thresholds) (net : NetExpectations) (inventoryFresh : bool) (open : Open)
    (now : time) : Assessment :=
  let a := assessLocal (st_Storage st) t open now empty_assessment in
  let a := assessDrives (st_Inventory st) (st_Storage st) t inventoryFresh open a in
  let a := assessSMART (st_Storage st) (st_Inventory st) t open a in
  assessNetwork (st_Network st) net open now a.
End Net.

(** ** Verdicts *)

Record Verdict_ := mkVerdict { v_Status : string; v_Reason : string; v_Message : string }.

Definition maxConditionMessage : nat := 1024.

(** [clipRunes] of join.go: the first [n] runes, invalid bytes as U+FFFD. *)
Definition clipRunes (s : string) (n : nat) : string :=
  if (rune_count s <=? n)%nat then s else string_of_runes (take n (runes s)).

Definition Keeps (a : Assessment) (k : Key) (scope : Scope) : bool :=
  bool_decide (is_Some (Unread a !! scope)) || bool_decide (k ∈ Held a).

Definition unread_scope (a : Assessment) (s : Scope) : list string :=
  match Unread a !! s, Cut a !! s with
  | Some why, _ => [s +:+ ": " +:+ why]
  | None, Some why => [s +:+ ": " +:+ why]
  | None, None => []
  end.

Definition unread_reasons (a : Assessment) (check : string) : list string :=
  flat_map (unread_scope a) (default [] (checkScopes !! check)) ++
  (if bool_decide (check = CheckDegraded) && bool_decide (SMARTSilent a <> [])
   then [ScopeSMART +:+ ": nothing read from " +:+ join ", " (SMARTSilent a)] else []).

Definition Verdict (a : Assessment) (check : string) (open : Open) : Verdict_ :=
  let msgs := map f_Message (List.filter (fun f => bool_decide (key_Check (f_Key f) = check)) (Findings a)) in
  if bool_decide (msgs <> []) then mkVerdict "True" "Detected" (clipRunes (join "; " msgs) maxConditionMessage) else
  if existsb (fun ks => bool_decide (key_Check ks.1 = check) && Keeps a ks.1 ks.2) (map_to_list open)
  then mkVerdict "True" "LastReadHeld" "an open alert could not be re-read, it stays open" else
  let unread := unread_reasons a check in
  if bool_decide (unread <> []) then mkVerdict "Unknown" "ReadUnavailable" (clipRunes (join "; " unread) maxConditionMessage) else
  match (if bool_decide (check = CheckWearHigh) then Cut a !! ScopeSMART else None) with
  | Some why => mkVerdict "Unknown" "ReadUnavailable" (ScopeSMART +:+ ": " +:+ why)
  | None =>
    if bool_decide (check = CheckWearHigh) && (0 <? WearUnreported a) then
      mkVerdict "Unknown" "WearNotReported" ("no current endurance figure for " +:+ itoa (WearUnreported a) +:+ " SSD(s)")
    else if bool_decide (check = CheckLinkSlow) && (0 <? SpeedUnreported a) then
      mkVerdict "Unknown" "SpeedNotReported" (itoa (SpeedUnreported a) +:+ " link(s) up give no speed")
    else if bool_decide (check = CheckSaturated) && (0 <? CapacityUnreported a) then
      mkVerdict "Unknown" "SpeedNotReported" (itoa (CapacityUnreported a) +:+ " link(s) up give no speed")
    else mkVerdict "False" "Healthy" ""
  end.
