(* ===== verification/StorageHealthSafety.v ===== *)
(** The rule the storage and network checks serve: only a complete read may
    change anything. No finding rests on an unread scope, an alert is let go
    only when the read lists its device, and a condition says False only when
    everything it rests on was read and is healthy. *)
From stdpp Require Import base tactics strings list gmap.
From Stdlib Require Import ZArith Lia.
From S2P Require Import Prelude GoLib GoTime StorageTypes StorageHealth.

Open Scope Z_scope.

(** ** Steps of an assessment

    [step Q a a']: [a'] has the findings of [a] and new ones that satisfy [Q],
    leaves Unread alone, and only adds to Held and Cut and to the counters of
    silent devices. *)
Record step (Q : Finding -> Prop) (a a' : Assessment) : Prop := {
  step_findings : exists new, Findings a' = Findings a ++ new /\ Forall Q new;
  step_unread : Unread a' = Unread a;
  step_held : Held a ⊆ Held a';
  step_cut : dom (Cut a) ⊆ dom (Cut a');
  step_silent : forall d, d ∈ SMARTSilent a -> d ∈ SMARTSilent a'
}.

Lemma step_refl Q a : step Q a a.
Proof. split; try done. exists []. by rewrite app_nil_r. Qed.

Lemma step_trans Q a b c : step Q a b -> step Q b c -> step Q a c.
Proof.
  intros [(n1 & E1 & F1) U1 H1 C1 S1] [(n2 & E2 & F2) U2 H2 C2 S2]. split; [|congruence|set_solver..|auto].
  exists (n1 ++ n2). rewrite E2, E1, <- (assoc_L (++)), Forall_app. done.
Qed.

Lemma step_weaken Q Q' a b : (forall f, Q f -> Q' f) -> step Q a b -> step Q' a b.
Proof. intros HQ [(n & E & F) ? ? ? ?]. split; try done. exists n. split; [done|]. by eapply Forall_impl. Qed.

Lemma step_add Q a x c d s sev m : Q (mkFinding (mkKey c d) s sev m) -> step Q a x -> step Q a (add c d s sev m x).
Proof.
  intros HQ H. eapply step_trans; [exact H|]. split; try done. eexists. split; [done|]. by repeat constructor.
Qed.
Lemma step_set_cut Q a x s why : step Q a x -> step Q a (set_cut s why x).
Proof.
  intros H. eapply step_trans; [exact H|]. split; try done; [by exists []; rewrite app_nil_r|].
  simpl. rewrite dom_insert_L. set_solver.
Qed.
Lemma step_hold_all Q a x ks : step Q a x -> step Q a (hold_all ks x).
Proof.
  intros H. eapply step_trans; [exact H|]. split; try done; [by exists []; rewrite app_nil_r|]. simpl. set_solver.
Qed.
Lemma step_hold_open Q a x open k : step Q a x -> step Q a (hold_open open k x).
Proof. intros H. unfold hold_open. destruct (has open k); [by apply step_hold_all|done]. Qed.
Lemma step_wear Q a x : step Q a x -> step Q a (wear_unreported x).
Proof. intros H. eapply step_trans; [exact H|]. split; try done. exists []. by rewrite app_nil_r. Qed.
Lemma step_speed Q a x : step Q a x -> step Q a (speed_unreported x).
Proof. intros H. eapply step_trans; [exact H|]. split; try done. exists []. by rewrite app_nil_r. Qed.
Lemma step_capacity Q a x : step Q a x -> step Q a (capacity_unreported x).
Proof. intros H. eapply step_trans; [exact H|]. split; try done. exists []. by rewrite app_nil_r. Qed.
Lemma step_smart_silent Q a x s : step Q a x -> step Q a (smart_silent s x).
Proof.
  intros H. eapply step_trans; [exact H|]. split; try done; [by exists []; rewrite app_nil_r|].
  intros d Hd. simpl. apply elem_of_app. by left.
Qed.
Lemma step_foldl {X} Q (f : Assessment -> X -> Assessment) (l : list X) a x :
  (forall y a, y ∈ l -> step Q a (f a y)) -> step Q a x -> step Q a (foldl f x l).
Proof.
  revert x. induction l as [|y l IH]; intros x Hf H; [done|]. simpl. apply IH.
  - intros z a' Hz. apply Hf. by right.
  - eapply step_trans; [exact H|]. apply Hf. by left.
Qed.
Lemma step_unlisted Q a x open s l : step Q a x -> step Q a (holdUnlisted open s l x).
Proof. apply step_hold_all. Qed.

(** Walks down the writes of a method, splitting its conditions; the goals
    left are [Q] of each finding it can add. *)
Ltac step_tac :=
  repeat match goal with
  | |- step _ ?a ?a => apply step_refl
  | |- step _ _ (add _ _ _ _ _ _) => apply step_add
  | |- step _ _ (set_cut _ _ _) => apply step_set_cut
  | |- step _ _ (hold_all _ _) => apply step_hold_all
  | |- step _ _ (hold_open _ _ _) => apply step_hold_open
  | |- step _ _ (holdUnlisted _ _ _ _) => apply step_unlisted
  | |- step _ _ (wear_unreported _) => apply step_wear
  | |- step _ _ (speed_unreported _) => apply step_speed
  | |- step _ _ (capacity_unreported _) => apply step_capacity
  | |- step _ _ (smart_silent _ _) => apply step_smart_silent
  | |- step _ _ (unsure _ _ _ _) => unfold unsure
  | |- step _ _ (when ?b _ _) => unfold when at 1; destruct b eqn:?
  | |- step _ _ (if ?b then _ else _) => destruct b eqn:?
  | |- step _ _ (match ?x with _ => _ end) => destruct x eqn:?
  | |- step _ _ (let _ := _ in _) => cbv zeta
  | |- step _ _ ((fun _ => _) _) => cbv beta
  end.

Section Scopes.
Context (Q : Finding -> Prop).
Definition emits_on (scope : Scope) (checks : list string) : Prop :=
  forall f, f_Scope f = scope -> key_Check (f_Key f) ∈ checks -> Q f.

Ltac emit H := apply H; [reflexivity | cbn; set_solver].

Lemma step_assessPool p t open a :
  emits_on ScopeZFS [CheckDegraded; CheckScrubErrors; CheckCapacityHigh] -> step Q a (assessPool p t open a).
Proof using. intros H. unfold assessPool. step_tac; emit H. Qed.

Lemma step_assessDrive d s t open a : emits_on ScopeDrives [CheckWearHigh] -> step Q a (assessDrive d s t open a).
Proof using. intros H. unfold assessDrive. step_tac; emit H. Qed.

Lemma step_assessDisk d inv t open a : emits_on ScopeSMART [CheckDegraded; CheckWearHigh] -> step Q a (assessDisk d inv t open a).
Proof using. intros H. unfold assessDisk. step_tac; emit H. Qed.

Lemma step_assessTraffic n t c u e open a x :
  emits_on ScopeNet [CheckLinkErrors; CheckSaturated] -> step Q a x -> step Q a (assessTraffic n t c u e open x).
Proof using. intros H Hx. unfold assessTraffic. step_tac; first [exact Hx | emit H]. Qed.

Definition net_checks : list string := [CheckNetDegraded; CheckLinkSlow; CheckLinkErrors; CheckSaturated].

Lemma step_assessInterface i e open a : emits_on ScopeNet net_checks -> step Q a (assessInterface i e open a).
Proof using.
  intros H. assert (Ht : step Q a (assessTraffic (ni_Name i) (ni_Traffic i)
    (bool_decide (ni_OperState i = "up") || bool_decide (ni_OperState i = "unknown"))
    (bool_decide (ni_OperState i = "up")) e open a)).
  { apply step_assessTraffic; [|apply step_refl]. intros f Hs Hc. apply H; [done|]. unfold net_checks. set_solver. }
  unfold assessInterface. cbv zeta.
  set (x := assessTraffic _ _ _ _ _ _ _) in *. clearbody x. step_tac; first [exact Ht | emit H].
Qed.

Lemma step_assessMember b open m a x : emits_on ScopeNet net_checks -> step Q a x -> step Q a (assessMember b open m x).
Proof using. intros H Hx. unfold assessMember. step_tac; first [exact Hx | emit H]. Qed.

Lemma step_assessBond b e open a : emits_on ScopeNet net_checks -> step Q a (assessBond b e open a).
Proof using.
  intros H. assert (Ht : step Q a (assessTraffic (nb_Name b) (nb_Traffic b) (bool_decide (nb_MIIStatus b <> "down"))
    (bool_decide (nb_MIIStatus b = "up")) e open a)).
  { apply step_assessTraffic; [|apply step_refl]. intros f Hs Hc. apply H; [done|]. unfold net_checks. set_solver. }
  unfold assessBond. cbv zeta. set (x := assessTraffic _ _ _ _ _ _ _) in *. clearbody x.
  repeat match goal with |- context [let '(_, _) := ?y in _] => destruct y as [] eqn:? end.
  apply step_foldl; [intros; by apply step_assessMember; [|apply step_refl]|].
  unfold when. repeat (case_match; simplify_eq/=); step_tac; first [exact Ht | emit H].
Qed.
End Scopes.

(** ** The stages of a pass *)

(** What every stage does at least: nothing already found, held, cut or unread
    is taken back. *)
Record grows (a a' : Assessment) : Prop := {
  grows_findings : exists new, Findings a' = Findings a ++ new;
  grows_unread : dom (Unread a) ⊆ dom (Unread a');
  grows_held : Held a ⊆ Held a';
  grows_cut : dom (Cut a) ⊆ dom (Cut a');
  grows_silent : forall d, d ∈ SMARTSilent a -> d ∈ SMARTSilent a'
}.

#[export] Instance grows_preorder : PreOrder grows.
Proof.
  split.
  - intros a. split; try done. exists []. by rewrite app_nil_r.
  - intros a b c [[n1 E1] U1 H1 C1 S1] [[n2 E2] U2 H2 C2 S2]. split; [|set_solver..|auto].
    exists (n1 ++ n2). by rewrite E2, E1, (assoc_L (++)).
Qed.

Lemma step_grows Q a a' : step Q a a' -> grows a a'.
Proof. intros [(n & E & _) U H C S]. split; [by exists n| |done..]. by rewrite U. Qed.
Lemma set_unread_grows s why a : grows a (set_unread s why a).
Proof. split; try done; [by exists []; rewrite app_nil_r|]. simpl. rewrite dom_insert_L. set_solver. Qed.

(** A stage over the scopes [S] either could not read, and then says so for
    one of them and finds nothing, or read, and then its findings satisfy [Q]
    and it leaves Unread alone. *)
Inductive stage (Q : Finding -> Prop) (S : list Scope) (a a' : Assessment) : Prop :=
| stage_unread : Findings a' = Findings a -> grows a a' ->
    (forall s, s ∉ S -> Unread a' !! s = Unread a !! s) -> stage Q S a a'
| stage_read : step Q a a' -> stage Q S a a'.

Lemma stage_grows Q S a a' : stage Q S a a' -> grows a a'.
Proof. intros [? ? ?|?]; [done|]. by eapply step_grows. Qed.
Lemma stage_other Q S a a' s : stage Q S a a' -> s ∉ S -> Unread a' !! s = Unread a !! s.
Proof. intros [? ? Hu|Hs] Hn; [by apply Hu|]. by rewrite (step_unread _ _ _ Hs). Qed.
Lemma stage_new Q S a a' f : stage Q S a a' -> f ∈ Findings a' -> f ∈ Findings a \/ Q f.
Proof.
  intros [E _ _|Hs] Hf; [left; by rewrite E in Hf|]. destruct (step_findings _ _ _ Hs) as (new & E & HF).
  rewrite E in Hf. apply elem_of_app in Hf as [?|Hf]; [by left|right]. rewrite Forall_forall in HF. by apply HF.
Qed.

Lemma stage_set_unread Q S a s why : s ∈ S -> stage Q S a (set_unread s why a).
Proof.
  intros Hs. apply stage_unread; [done|apply set_unread_grows|]. intros s' Hs'. simpl. apply lookup_insert_ne. set_solver.
Qed.

Section Stages.
Context (Q : Finding -> Prop).

Lemma assessMD_stage md open a : emits_on Q ScopeMD [CheckDegraded] -> stage Q [ScopeMD] a (assessMD md open a).
Proof using.
  intros HQ. unfold assessMD. cbv zeta. case_bool_decide; [apply stage_set_unread; set_solver|]. apply stage_read.
  step_tac; (apply step_foldl; [intros; step_tac; apply HQ; [done|set_solver]|apply step_refl]).
Qed.
Lemma assessZFS_stage z t open a :
  emits_on Q ScopeZFS [CheckDegraded; CheckScrubErrors; CheckCapacityHigh] -> stage Q [ScopeZFS] a (assessZFS z t open a).
Proof using.
  intros HQ. unfold assessZFS. cbv zeta. case_bool_decide; [apply stage_set_unread; set_solver|]. apply stage_read.
  step_tac; (apply step_foldl; [intros; by apply step_assessPool|apply step_refl]).
Qed.
Lemma assessDrives_stage inv s t fresh open a :
  emits_on Q ScopeDrives [CheckWearHigh] -> stage Q [ScopeDrives] a (assessDrives inv s t fresh open a).
Proof using.
  intros HQ. unfold assessDrives. cbv zeta. case_match; [apply stage_set_unread; set_solver|].
  destruct (match inv with None => [] | Some i => inv_Drives i end) as [|d l] eqn:E; [apply stage_set_unread; set_solver|].
  apply stage_read. step_tac; (apply step_foldl; [intros; by apply step_assessDrive|apply step_refl]).
Qed.
Lemma assessSMART_stage s inv t open a :
  emits_on Q ScopeSMART [CheckDegraded; CheckWearHigh] -> stage Q [ScopeSMART] a (assessSMART s inv t open a).
Proof using.
  intros HQ. unfold assessSMART. cbv zeta. destruct s as [s|]; [|apply stage_read, step_refl]. apply stage_read.
  case_match.
  - apply step_foldl; [intros; step_tac|apply step_refl].
  - step_tac; (apply step_foldl; [intros; by apply step_assessDisk|apply step_refl]).
Qed.
Lemma assessNetwork_stage `{RangeOrder} n e open now a :
  emits_on Q ScopeNet net_checks -> emits_on Q ScopeNetExpected [CheckNetDegraded] ->
  stage Q [ScopeNet; ScopeNetExpected] a (assessNetwork n e open now a).
Proof using.
  intros HQ HQe.
  assert (Hun : forall why, stage Q [ScopeNet; ScopeNetExpected] a (net_unread why a)).
  { intros why. apply stage_unread; [done| |].
    - etransitivity; apply set_unread_grows.
    - intros s Hs. unfold net_unread. simpl. rewrite !lookup_insert_ne; set_solver. }
  unfold assessNetwork. repeat (case_bool_decide; [apply Hun|]). destruct n as [n|]; [|apply Hun].
  repeat (case_bool_decide; [apply Hun|]). case_match; [apply Hun|]. cbv zeta. apply stage_read.
  assert (Hl : forall listed cut x, step Q a x -> step Q a
       (holdUnlisted open ScopeNet (listed_links n) (foldl (assessExpected listed cut open) x (range_links (ne_Links e))))).
  { intros. apply step_unlisted, step_foldl; [|done]. intros. unfold assessExpected. step_tac. apply HQe; [done|cbn; set_solver]. }
  assert (Hx : step Q a
    (foldl (fun a b => assessBond b e open a) (foldl (fun a i => assessInterface i e open a) a (mn_Interfaces n)) (mn_Bonds n))).
  { apply step_foldl; [intros; by apply step_assessBond|].
    apply step_foldl; [intros; by apply step_assessInterface|apply step_refl]. }
  repeat case_match; simplify_eq/=; apply Hl; by step_tac.
Qed.
End Stages.

(** The scopes of a stage's findings, and what holds of any stage. *)
Definition of_scopes (S : list Scope) (f : Finding) : Prop := f_Scope f ∈ S.
Lemma emits_of_scopes S s checks : s ∈ S -> emits_on (of_scopes S) s checks.
Proof. intros Hs f E _. unfold of_scopes. by rewrite E. Qed.
Definition anything (f : Finding) : Prop := True.
Lemma emits_anything s checks : emits_on anything s checks.
Proof. done. Qed.
#[export] Hint Resolve emits_anything : frame.
#[export] Hint Extern 1 (emits_on (of_scopes _) _ _) => apply emits_of_scopes; set_solver : frame.

Lemma assessLocal_grows s t open now a : grows a (assessLocal s t open now a).
Proof.
  assert (forall why, grows a (local_unread why a)) as H.
  { intros why. unfold local_unread. repeat (etransitivity; [|apply set_unread_grows]). done. }
  unfold assessLocal. destruct s as [s|]; [|done]. destruct (ms_Local s) as [l|]; [|done]. case_match; [done|].
  etransitivity; eapply (stage_grows anything); [apply assessMD_stage|apply assessZFS_stage]; auto with frame.
Qed.

(** ** Nothing is found in what was not read *)

Definition sound_in (L : list Scope) (a : Assessment) : Prop :=
  (forall f, f ∈ Findings a -> f_Scope f ∈ L /\ Unread a !! f_Scope f = None).

Lemma sound_stage L S a a' :
  sound_in L a -> (forall s, s ∈ S -> s ∉ L) ->
  stage (of_scopes S) S a a' -> (Findings a' = Findings a \/ forall s, s ∈ S -> Unread a' !! s = None) -> sound_in (S ++ L) a'.
Proof.
  intros Ha Hdis Hst Hread f Hf.
  destruct (decide (f ∈ Findings a)) as [Hin|Hout].
  - destruct (Ha f Hin) as [HL HU]. split; [set_solver|]. rewrite (stage_other (of_scopes S) S a a'); [done..|]. set_solver.
  - destruct Hread as [E|Hread]; [by rewrite E in Hf|].
    destruct Hst as [E _ _|Hs]; [by rewrite E in Hf|]. destruct (step_findings _ _ _ Hs) as (new & E & HF).
    rewrite E in Hf. apply elem_of_app in Hf as [?|Hf]; [done|].
    rewrite Forall_forall in HF. specialize (HF f Hf). split; [set_solver|]. by apply Hread.
Qed.

Lemma sound_mono L L' a : L ⊆ L' -> sound_in L a -> sound_in L' a.
Proof. intros HL H f Hf. destruct (H f Hf). split; [set_solver|done]. Qed.

Lemma assessLocal_sound s t open now :
  sound_in [ScopeZFS; ScopeMD] (assessLocal s t open now empty_assessment).
Proof.
  assert (forall L, sound_in L empty_assessment) as H0 by (intros L f Hf; set_solver).
  assert (forall why, sound_in [ScopeZFS; ScopeMD] (local_unread why empty_assessment)) as Hu by (intros why f Hf; set_solver).
  unfold assessLocal. destruct s as [s|]; [|done]. destruct (ms_Local s) as [l|]; [|done]. case_match; [done|].
  apply (sound_stage [ScopeMD] [ScopeZFS] (assessMD (ls_MD l) open empty_assessment));
    [|set_solver|apply assessZFS_stage; auto with frame|].
  - apply (sound_stage [] [ScopeMD] empty_assessment); [done|set_solver|apply assessMD_stage; auto with frame|].
    destruct (assessMD_stage anything (ls_MD l) open empty_assessment (emits_anything _ _)) as [E _ _|Hs]; [by left|right].
    intros x _. by rewrite (step_unread _ _ _ Hs).
  - unfold assessZFS. cbv zeta. case_bool_decide; [by left|right]. intros x ->%list_elem_of_singleton.
    assert (Unread (assessMD (ls_MD l) open empty_assessment) !! ScopeZFS = None) as Hz.
    { rewrite (stage_other anything _ _ _ ScopeZFS (assessMD_stage anything (ls_MD l) open empty_assessment (emits_anything _ _))); [done|set_solver]. }
    unfold when. set (x := assessMD _ _ _) in *. clearbody x.
    assert (forall l a, Unread (foldl (fun a p => assessPool p t open a) a l) = Unread a) as Hf.
    { induction l0 as [|p l0 IH]; intros a; [done|]. cbn [foldl]. rewrite IH.
      by apply (step_unread (fun _ => True)), step_assessPool. }
    case_match; simpl; by rewrite Hf.
Qed.

Lemma assessLocal_unread_other s t open now s' :
  s' ∉ [ScopeMD; ScopeZFS; ScopeSMART] -> Unread (assessLocal s t open now empty_assessment) !! s' = None.
Proof.
  intros Hs. assert (forall why, Unread (local_unread why empty_assessment) !! s' = None) as Hu.
  { intros why. unfold local_unread. simpl. rewrite !lookup_insert_ne; set_solver. }
  unfold assessLocal. destruct s as [s|]; [|done]. destruct (ms_Local s) as [l|]; [|done]. case_match; [done|].
  rewrite (stage_other anything _ _ _ s' (assessZFS_stage anything _ _ _ _ (emits_anything _ _))) by set_solver.
  by rewrite (stage_other anything _ _ _ s' (assessMD_stage anything _ _ _ (emits_anything _ _))) by set_solver.
Qed.

(** The reading looked at scope [scope] and lists device [d] there. *)
Inductive read_lists (st : MachineReading) (net : NetExpectations) (fresh : bool) (now : time) : Scope -> string -> Prop :=
| lists_md s l d : st_Storage st = Some s -> ms_Local s = Some l -> silent_since (ms_ObservedAt s) now = false ->
    stackUnread (md_State (ls_MD l)) (md_Error (ls_MD l)) = "" -> d ∈ map mda_Name (md_Arrays (ls_MD l)) ->
    read_lists st net fresh now ScopeMD d
| lists_zfs s l d : st_Storage st = Some s -> ms_Local s = Some l -> silent_since (ms_ObservedAt s) now = false ->
    stackUnread (zfs_State (ls_ZFS l)) (zfs_Error (ls_ZFS l)) = "" -> d ∈ map zp_Name (zfs_Pools (ls_ZFS l)) ->
    read_lists st net fresh now ScopeZFS d
| lists_drive inv d : fresh = true -> st_Inventory st = Some inv -> d ∈ map drive_device (inv_Drives inv) ->
    read_lists st net fresh now ScopeDrives d
| lists_smart s l d : st_Storage st = Some s -> ms_Local s = Some l -> silent_since (ms_ObservedAt s) now = false ->
    d ∈ map od_SerialNumber (ms_Observed s) -> read_lists st net fresh now ScopeSMART d
| lists_net n d : ne_Unread net = "" -> st_Network st = Some n -> mn_Error n = "" ->
    silent_since (mn_ObservedAt n) now = false -> d ∈ listed_links n -> read_lists st net fresh now ScopeNet d.

Lemma holdUnlisted_held open k scope listed a :
  open !! k = Some scope -> key_Device k ∉ listed -> k ∈ Held (holdUnlisted open scope listed a).
Proof.
  intros Ho Hl. simpl. apply elem_of_union. right. apply elem_of_dom. exists scope.
  by apply map_lookup_filter_Some.
Qed.

Lemma assessMD_unlisted md open a k :
  open !! k = Some ScopeMD -> Unread (assessMD md open a) !! ScopeMD = None -> k ∉ Held (assessMD md open a) ->
  stackUnread (md_State md) (md_Error md) = "" /\ key_Device k ∈ map mda_Name (md_Arrays md).
Proof.
  intros Ho. unfold assessMD. cbv zeta. case_bool_decide as Hw; [simpl; by rewrite lookup_insert_eq|].
  intros _ Hh. split; [exact Hw|]. apply dec_stable. intros Hn. apply Hh.
  unfold when. case_match; by apply (holdUnlisted_held open k ScopeMD).
Qed.
Lemma assessZFS_unlisted z t open a k :
  open !! k = Some ScopeZFS -> Unread (assessZFS z t open a) !! ScopeZFS = None -> k ∉ Held (assessZFS z t open a) ->
  stackUnread (zfs_State z) (zfs_Error z) = "" /\ key_Device k ∈ map zp_Name (zfs_Pools z).
Proof.
  intros Ho. unfold assessZFS. cbv zeta. case_bool_decide as Hw; [simpl; by rewrite lookup_insert_eq|].
  intros _ Hh. split; [exact Hw|]. apply dec_stable. intros Hn. apply Hh.
  unfold when. case_match; by apply (holdUnlisted_held open k ScopeZFS).
Qed.
Lemma assessDrives_unlisted inv s t fresh open a k :
  open !! k = Some ScopeDrives -> Unread (assessDrives inv s t fresh open a) !! ScopeDrives = None ->
  k ∉ Held (assessDrives inv s t fresh open a) ->
  fresh = true /\ exists i, inv = Some i /\ key_Device k ∈ map drive_device (inv_Drives i).
Proof.
  intros Ho. unfold assessDrives. cbv zeta. destruct fresh; [|simpl; by rewrite lookup_insert_eq]. cbn [negb].
  destruct inv as [i|]; [|simpl; by rewrite lookup_insert_eq].
  destruct (inv_Drives i) as [|d l] eqn:E; [simpl; by rewrite lookup_insert_eq|].
  intros _ Hh. split; [done|]. exists i. split; [done|]. rewrite E. apply dec_stable. intros Hn. apply Hh.
  unfold when. case_match; by apply (holdUnlisted_held open k ScopeDrives).
Qed.
Lemma assessSMART_unlisted s inv t open a k :
  open !! k = Some ScopeSMART -> Unread a !! ScopeSMART = None -> k ∉ Held (assessSMART (Some s) inv t open a) ->
  key_Device k ∈ map od_SerialNumber (ms_Observed s).
Proof.
  intros Ho Hu. unfold assessSMART. rewrite Hu. cbv zeta. intros Hh. apply dec_stable. intros Hn. apply Hh.
  unfold when. case_match; by apply (holdUnlisted_held open k ScopeSMART).
Qed.
Lemma assessNetwork_unlisted `{RangeOrder} n e open now a k :
  open !! k = Some ScopeNet -> Unread (assessNetwork n e open now a) !! ScopeNet = None ->
  k ∉ Held (assessNetwork n e open now a) ->
  ne_Unread e = "" /\ exists m, n = Some m /\ mn_Error m = "" /\ silent_since (mn_ObservedAt m) now = false /\
    key_Device k ∈ listed_links m.
Proof.
  intros Ho. assert (forall why, Unread (net_unread why a) !! ScopeNet <> None) as Hun.
  { intros why. unfold net_unread. simpl. by rewrite lookup_insert_ne, lookup_insert_eq. }
  unfold assessNetwork. case_bool_decide as He; [intros H1; by apply Hun in H1|].
  destruct n as [m|]; [|intros H1; by apply Hun in H1].
  case_bool_decide as Hm; [intros H1; by apply Hun in H1|].
  destruct (silent_since _ _) eqn:Es; [intros H1; by apply Hun in H1|]. cbv zeta.
  intros _ Hh. split; [exact He|]. exists m. split; [done|]. split; [exact Hm|]. split; [done|].
  apply dec_stable. intros Hn. apply Hh. repeat (case_match; simplify_eq/=); by apply (holdUnlisted_held open k ScopeNet).
Qed.

Section Pass.
Context `{RO : RangeOrder} (st : MachineReading) (t : Thresholds) (net : NetExpectations) (fresh : bool) (open : Open) (now : time).

Let a1 := assessLocal (st_Storage st) t open now empty_assessment.
Let a2 := assessDrives (st_Inventory st) (st_Storage st) t fresh open a1.
Let a3 := assessSMART (st_Storage st) (st_Inventory st) t open a2.
Let a4 := assessNetwork (st_Network st) net open now a3.

Lemma Assess_stages : Assess st t net fresh open now = a4.
Proof. done. Qed.

Lemma drives_read_or_silent :
  Findings a2 = Findings a1 \/ Unread a2 !! ScopeDrives = None.
Proof.
  destruct (assessDrives_stage anything (st_Inventory st) (st_Storage st) t fresh open a1 (emits_anything _ _)) as [E _ _|Hs]; [by left|right].
  fold a2 in Hs. rewrite (step_unread _ _ _ Hs). apply assessLocal_unread_other. set_solver.
Qed.

Lemma smart_read_or_silent : Findings a3 = Findings a2 \/ Unread a3 !! ScopeSMART = None.
Proof.
  unfold a3, assessSMART. destruct (st_Storage st) as [s|]; [|by left].
  destruct (Unread a2 !! ScopeSMART) as [why|] eqn:E.
  - left. generalize a2 as x. induction (ms_Observed s) as [|d l IH]; intros x; [done|]. cbn [foldl]. rewrite IH.
    unfold when. by case_match.
  - right. cbv zeta. unfold when.
    assert (forall l a, Unread (foldl (fun a d => assessDisk d (st_Inventory st) t open a) a l) = Unread a) as Hf.
    { induction l as [|p l0 IH]; intros a; [done|]. cbn [foldl]. rewrite IH.
      by apply (step_unread (fun _ => True)), step_assessDisk. }
    case_match; simpl; by rewrite Hf.
Qed.

Lemma net_read_or_silent :
  Findings a4 = Findings a3 \/ forall s, s ∈ [ScopeNet; ScopeNetExpected] -> Unread a4 !! s = None.
Proof.
  destruct (assessNetwork_stage anything (st_Network st) net open now a3 (emits_anything _ _) (emits_anything _ _)) as [E _ _|Hs]; [by left|right].
  intros s Hin. fold a4 in Hs. rewrite (step_unread _ _ _ Hs).
  unfold a3. rewrite (stage_other anything _ _ _ s (assessSMART_stage anything _ _ _ _ _ (emits_anything _ _))) by set_solver.
  unfold a2. rewrite (stage_other anything _ _ _ s (assessDrives_stage anything _ _ _ _ _ _ (emits_anything _ _))) by set_solver.
  apply assessLocal_unread_other. set_solver.
Qed.

(** No finding rests on a reading nobody made: every finding of a pass has
    a scope the pass did not count as unread. *)
Theorem findings_from_reads f :
  f ∈ Findings (Assess st t net fresh open now) -> Unread (Assess st t net fresh open now) !! f_Scope f = None.
Proof.
  rewrite Assess_stages. intros Hf.
  assert (sound_in ([ScopeNet; ScopeNetExpected] ++ [ScopeSMART] ++ [ScopeDrives] ++ [ScopeZFS; ScopeMD]) a4) as H;
    [|by apply H].
  apply (sound_stage _ _ a3); [|set_solver|apply assessNetwork_stage; auto with frame|apply net_read_or_silent].
  apply (sound_stage _ _ a2); [|set_solver|apply assessSMART_stage; auto with frame|].
  2: { destruct smart_read_or_silent as [?|E]; [by left|right]. by intros s ->%list_elem_of_singleton. }
  apply (sound_stage _ _ a1); [apply assessLocal_sound|set_solver|apply assessDrives_stage; auto with frame|].
  destruct drives_read_or_silent as [?|E]; [by left|right]. by intros s ->%list_elem_of_singleton.
Qed.

Lemma grows_12 : grows a1 a2. Proof. eapply (stage_grows anything), assessDrives_stage; auto with frame. Qed.
Lemma grows_23 : grows a2 a3. Proof. eapply (stage_grows anything), assessSMART_stage; auto with frame. Qed.
Lemma grows_34 : grows a3 a4. Proof. eapply (stage_grows anything), assessNetwork_stage; auto with frame. Qed.

Lemma unread_back s x : grows x a4 -> Unread a4 !! s = None -> Unread x !! s = None.
Proof.
  intros [_ Hu _ _ _] Hn. apply not_elem_of_dom. intros Hin. apply Hu, elem_of_dom in Hin as [? Hin]. congruence.
Qed.
Lemma held_back k x : grows x a4 -> k ∉ Held a4 -> k ∉ Held x.
Proof. intros [_ _ Hh _ _] Hn Hin. by apply Hn, Hh. Qed.

Lemma local_read s why_scope : st_Storage st = s -> why_scope ∈ [ScopeMD; ScopeZFS; ScopeSMART] ->
  Unread a1 !! why_scope = None ->
  exists x l, s = Some x /\ ms_Local x = Some l /\ silent_since (ms_ObservedAt x) now = false.
Proof.
  intros <- Hs. unfold a1, assessLocal.
  assert (forall why, Unread (local_unread why empty_assessment) !! why_scope <> None) as Hun.
  { intros why. unfold local_unread. simpl. rewrite !lookup_insert. repeat case_decide; set_solver. }
  destruct (st_Storage st) as [x|]; [|by intros ?%Hun]. destruct (ms_Local x) as [l|] eqn:El; [|by intros ?%Hun].
  destruct (silent_since _ _) eqn:E; [by intros ?%Hun|]. intros _. by exists x, l.
Qed.

Lemma unlisted_kept k scope :
  open !! k = Some scope -> scope ∈ [ScopeMD; ScopeZFS; ScopeDrives; ScopeSMART; ScopeNet] ->
  Keeps (Assess st t net fresh open now) k scope = false ->
  read_lists st net fresh now scope (key_Device k).
Proof.
  rewrite Assess_stages. intros Ho Hscope HK. unfold Keeps in HK. bool_to_prop.
  match goal with H : ~ is_Some _ |- _ => apply eq_None_not_Some in H; rename H into Hu end.
  match goal with H : k ∉ _ |- _ => rename H into Hh end.
  assert (G2 : grows a2 a4) by (etransitivity; [apply grows_23|apply grows_34]).
  assert (G1 : grows a1 a4) by (etransitivity; [apply grows_12|done]).
  assert (Hmd : grows empty_assessment a1) by apply assessLocal_grows.
  repeat (apply elem_of_cons in Hscope as [->|Hscope]); [..|by apply elem_of_nil in Hscope].
  - pose proof (unread_back _ _ G1 Hu) as Hu1. destruct (local_read _ ScopeMD eq_refl ltac:(set_solver) Hu1) as (s & l & Es & El & Esil).
    pose proof (held_back _ _ G1 Hh) as Hh1. unfold a1, assessLocal in Hu1, Hh1. rewrite Es, El, Esil in Hu1, Hh1.
    destruct (assessMD_unlisted (ls_MD l) open empty_assessment k Ho) as [? ?]; [| |by eapply lists_md].
    + by rewrite <- (stage_other anything _ _ _ ScopeMD (assessZFS_stage anything (ls_ZFS l) t open _ (emits_anything _ _))) by set_solver.
    + intros Hin. apply Hh1. by apply (grows_held _ _ (stage_grows anything _ _ _ (assessZFS_stage anything _ _ _ _ (emits_anything _ _)))).
  - pose proof (unread_back _ _ G1 Hu) as Hu1. destruct (local_read _ ScopeZFS eq_refl ltac:(set_solver) Hu1) as (s & l & Es & El & Esil).
    pose proof (held_back _ _ G1 Hh) as Hh1. unfold a1, assessLocal in Hu1, Hh1. rewrite Es, El, Esil in Hu1, Hh1.
    destruct (assessZFS_unlisted _ _ _ _ _ Ho Hu1 Hh1). by eapply lists_zfs.
  - destruct (assessDrives_unlisted _ _ _ _ _ _ _ Ho (unread_back _ _ G2 Hu) (held_back _ _ G2 Hh)) as (? & i & ? & ?).
    by eapply lists_drive.
  - pose proof (unread_back _ _ G1 Hu) as Hu1. destruct (local_read _ ScopeSMART eq_refl ltac:(set_solver) Hu1) as (s & l & Es & El & Esil).
    pose proof (held_back _ _ grows_34 Hh) as Hh3. unfold a3 in Hh3. rewrite Es in Hh3.
    eapply lists_smart; [done..|]. by eapply assessSMART_unlisted; [exact Ho|apply (unread_back _ _ G2 Hu)|exact Hh3].
  - destruct (assessNetwork_unlisted _ _ _ _ _ _ Ho Hu Hh) as (? & m & ? & ? & ? & ?). by eapply lists_net.
Qed.

(** An open alert is let go only when the pass read the scope it rests on
    and the reading lists its device. A device a read does not mention, a
    stack in error or busy, a silent agent, a BMC that did not answer: none of
    them clears anything. *)
Theorem unlisted_never_released k scope :
  open !! k = Some scope -> scope ∈ [ScopeMD; ScopeZFS; ScopeDrives; ScopeSMART; ScopeNet] ->
  Keeps (Assess st t net fresh open now) k scope = false ->
  read_lists st net fresh now scope (key_Device k).
Proof. apply unlisted_kept. Qed.
End Pass.

(** ** False is earned *)

(** What the code says False on. *)
Lemma Verdict_false a check open :
  v_Status (Verdict a check open) = "False" ->
  (forall f, f ∈ Findings a -> key_Check (f_Key f) <> check) /\
  (forall k s, open !! k = Some s -> key_Check k = check -> Keeps a k s = false) /\
  (forall s, s ∈ default [] (checkScopes !! check) -> Unread a !! s = None /\ Cut a !! s = None) /\
  (check = CheckDegraded -> SMARTSilent a = []) /\
  (check = CheckWearHigh -> Cut a !! ScopeSMART = None /\ WearUnreported a <= 0) /\
  (check = CheckLinkSlow -> SpeedUnreported a <= 0) /\
  (check = CheckSaturated -> CapacityUnreported a <= 0).
Proof.
  unfold Verdict. cbv zeta. case_bool_decide as Hm; [done|].
  destruct (existsb _ (map_to_list open)) eqn:He; [done|]. case_bool_decide as Hu; [done|].
  destruct (if bool_decide (check = CheckWearHigh) then _ else _) eqn:Hc; [done|].
  destruct (_ && (0 <? WearUnreported a)) eqn:H1; [done|]. destruct (_ && (0 <? SpeedUnreported a)) eqn:H2; [done|].
  destruct (_ && (0 <? CapacityUnreported a)) eqn:H3; [done|]. intros _.
  split; [|split; [|split; [|split; [|split; [|split]]]]].
  - intros f Hf Hk. assert (In (f_Message f) (map f_Message (List.filter (fun f => bool_decide (key_Check (f_Key f) = check)) (Findings a)))) as Hin.
    { apply in_map, filter_In. split; [by apply list_elem_of_In|]. by apply bool_decide_eq_true. }
    by rewrite Hm in Hin.
  - intros k s Ho Hk. apply not_true_iff_false. intros HK.
    assert (existsb (fun ks => bool_decide (key_Check ks.1 = check) && Keeps a ks.1 ks.2) (map_to_list open) = true); [|congruence].
    apply existsb_exists. exists (k, s). split; [apply list_elem_of_In; by apply elem_of_map_to_list|].
    cbn [fst snd]. by rewrite bool_decide_true.
  - intros s Hs. unfold unread_reasons in Hu. apply app_eq_nil in Hu as [Hu _].
    assert (unread_scope a s = []) as E.
    { destruct (unread_scope a s) as [|x l] eqn:E; [done|]. assert (In x (flat_map (unread_scope a) (default [] (checkScopes !! check)))) as Hin.
      { apply in_flat_map. exists s. split; [by apply list_elem_of_In|]. rewrite E. by left. }
      by rewrite Hu in Hin. }
    unfold unread_scope in E. by destruct (Unread a !! s), (Cut a !! s).
  - intros ->. apply dec_stable. intros Hs. unfold unread_reasons in Hu. rewrite !bool_decide_true in Hu by done.
    by apply app_eq_nil in Hu as [_ ?].
  - intros ->. rewrite bool_decide_true in Hc, H1 by done. simpl in H1. bool_to_prop. done.
  - intros ->. rewrite bool_decide_true in H2 by done. simpl in H2. by bool_to_prop.
  - intros ->. rewrite bool_decide_true in H3 by done. simpl in H3. by bool_to_prop.
Qed.

(** Something a pass can only gain, gained on one item of a loop, is there at
    its end. *)
Lemma foldl_gains {X} (Phi : Assessment -> Prop) (g : Assessment -> X -> Assessment) (l : list X) y a :
  (forall a a', grows a a' -> Phi a -> Phi a') -> (forall z a, z ∈ l -> grows a (g a z)) ->
  y ∈ l -> (forall a, Phi (g a y)) -> Phi (foldl g a l).
Proof.
  intros Hm Hg Hy Hp. revert a Hg. induction l as [|z l IH]; intros a Hg; [by apply elem_of_nil in Hy|]. cbn [foldl].
  assert (Hrest : forall a, grows a (foldl g a l)).
  { clear IH Hy. assert (forall z a, z ∈ l -> grows a (g a z)) as Hg' by (intros; apply Hg; by right). clear Hg.
    induction l as [|z' l IH]; intros a'; [done|]. cbn [foldl].
    etransitivity; [apply Hg'; by left|]. apply IH. intros. apply Hg'. by right. }
  apply elem_of_cons in Hy as [->|Hy]; [|apply IH; [done|intros; apply Hg; by right]].
  eapply Hm; [apply Hrest|]. apply Hp.
Qed.

Definition found (check device : string) (a : Assessment) : Prop :=
  exists f, f ∈ Findings a /\ f_Key f = mkKey check device.
Lemma found_mono c d a a' : grows a a' -> found c d a -> found c d a'.
Proof. intros [[n E] _ _ _ _] (f & Hf & Hk). exists f. rewrite E. split; [|done]. apply elem_of_app. by left. Qed.
Lemma found_add c d s sev m a : found c d (add c d s sev m a).
Proof. exists (mkFinding (mkKey c d) s sev m). split; [|done]. simpl. apply elem_of_app. right. by left. Qed.
Definition is_cut (s : Scope) (a : Assessment) : Prop := s ∈ dom (Cut a).
Lemma is_cut_mono s a a' : grows a a' -> is_cut s a -> is_cut s a'.
Proof. intros [_ _ _ Hc _]. apply Hc. Qed.
Definition is_silent (d : string) (a : Assessment) : Prop := d ∈ SMARTSilent a.
Lemma is_silent_mono d a a' : grows a a' -> is_silent d a -> is_silent d a'.
Proof. intros [_ _ _ _ Hs]. apply Hs. Qed.

Lemma poolProblems_none p : poolProblems p = "" ->
  (zp_Health p = "" \/ zp_Health p = "ONLINE") /\ forall v, v ∈ zp_Vdevs p -> bad_vdev v = [].
Proof.
  unfold poolProblems. cbv zeta. destruct (_ && bool_decide (flat_map bad_vdev (zp_Vdevs p) = [])) eqn:E.
  - intros _. bool_to_prop. split.
    + match goal with H : (_ || _)%bool = true |- _ => apply orb_true_iff in H as [H|H]; bool_to_prop; auto end.
    + intros v Hv. match goal with H : flat_map _ _ = [] |- _ => rename H into Hf end.
      destruct (bad_vdev v) as [|x l] eqn:Ev; [done|].
      assert (In x (flat_map bad_vdev (zp_Vdevs p))) as Hin
        by (apply in_flat_map; exists v; split; [by apply list_elem_of_In | rewrite Ev; by left]).
      by rewrite Hf in Hin.
  - by destruct (flat_map bad_vdev (zp_Vdevs p)).
Qed.

(** A pool nobody can call degraded: read in full, ONLINE, every vdev in a
    good state with no errors. *)
Definition pool_healthy (p : ZPool) : Prop :=
  zp_Health p = "ONLINE" /\ zp_VdevsOmitted p <= 0 /\ Forall (fun v => bad_vdev v = []) (zp_Vdevs p).
#[export] Instance pool_healthy_dec p : Decision (pool_healthy p).
Proof. unfold pool_healthy. apply _. Defined.
(** A disk that says it is well, or that is known to spin and is not read. *)
Definition disk_healthy (d : ObservedDisk) : Prop :=
  smart_passed d = Some true \/ (od_SMART d = None /\ od_Rotational d = Some true).
#[export] Instance disk_healthy_dec d : Decision (disk_healthy d).
Proof. unfold disk_healthy. apply _. Defined.

Lemma assessPool_unhealthy p t open a :
  ~ pool_healthy p -> found CheckDegraded (zp_Name p) (assessPool p t open a) \/ is_cut ScopeZFS (assessPool p t open a).
Proof.
  intros Hp. unfold assessPool. cbv zeta.
  set (x := if bool_decide (poolProblems p <> "") then _ else _).
  assert (Hx : found CheckDegraded (zp_Name p) x \/ is_cut ScopeZFS x).
  { unfold x. case_bool_decide as Hq; [left; apply found_add|]. unfold when.
    destruct ((0 <? zp_VdevsOmitted p) || bool_decide (zp_Health p = "")) eqn:E.
    - right. unfold is_cut, hold_open. case_match; simpl; rewrite dom_insert_L; set_solver.
    - exfalso. apply Hp. bool_to_prop. apply poolProblems_none in Hq as [[?|?] ?]; [done|]. split; [done|]. split; [lia|]. by apply Forall_forall. }
  clearbody x. match goal with |- found _ _ ?y \/ _ => assert (grows x y) as Hg end.
  { apply (step_grows (fun _ => True)). step_tac; done. }
  destruct Hx; [left; by eapply found_mono | right; by eapply is_cut_mono].
Qed.

Lemma assessDisk_unhealthy d inv t open a :
  ~ disk_healthy d ->
  found CheckDegraded (od_SerialNumber d) (assessDisk d inv t open a) \/ is_silent (od_SerialNumber d) (assessDisk d inv t open a).
Proof.
  intros Hd. unfold assessDisk. cbv zeta.
  set (owed := (bool_decide (is_Some (od_SMART d)) || maybeSolidState d || _)%bool).
  set (x := match smart_passed d with Some _ => _ | None => _ end).
  assert (Hx : found CheckDegraded (od_SerialNumber d) x \/ is_silent (od_SerialNumber d) x).
  { unfold x. destruct (smart_passed d) as [[]|] eqn:Ep.
    - exfalso. apply Hd. by left.
    - left. apply found_add.
    - right. assert (owed = true) as ->.
      { unfold owed, maybeSolidState. destruct (od_SMART d) as [m|] eqn:Em; [by rewrite bool_decide_true|].
        destruct (od_Rotational d) as [[]|] eqn:Er; [|by rewrite orb_true_r..]. exfalso. apply Hd. by right. }
      rewrite bool_decide_true by done. unfold is_silent, hold_open, when. simpl.
      case_match; simpl; apply elem_of_app; right; by left. }
  clearbody x owed. match goal with |- found _ _ ?y \/ _ => assert (grows x y) as Hg end.
  { apply (step_grows (fun _ => True)). step_tac; done. }
  destruct Hx; [left; by eapply found_mono | right; by eapply is_silent_mono].
Qed.

Lemma grows_foldl {X} (g : Assessment -> X -> Assessment) l a : (forall z a, grows a (g a z)) -> grows a (foldl g a l).
Proof. intros Hg. revert a. induction l as [|z l IH]; intros a; [done|]. cbn [foldl]. etransitivity; [apply Hg|apply IH]. Qed.
Lemma grows_unlisted open s l a : grows a (holdUnlisted open s l a).
Proof. apply (step_grows (fun _ => True)), step_unlisted, step_refl. Qed.
Lemma grows_pool p t open a : grows a (assessPool p t open a).
Proof. by apply (step_grows (fun _ => True)), step_assessPool. Qed.
Lemma grows_disk d inv t open a : grows a (assessDisk d inv t open a).
Proof. by apply (step_grows (fun _ => True)), step_assessDisk. Qed.
Lemma grows_when b f a : (forall x, grows x (f x)) -> grows a (when b f a).
Proof. intros Hf. destruct b; [apply Hf|done]. Qed.
Lemma grows_set_cut s why a : grows a (set_cut s why a).
Proof. apply (step_grows (fun _ => True)), step_set_cut, step_refl. Qed.
Lemma grows_add c d s sev m a : grows a (add c d s sev m a).
Proof. by apply (step_grows (fun _ => True)), step_add; [|apply step_refl]. Qed.
#[export] Hint Resolve grows_pool grows_disk grows_unlisted grows_set_cut grows_add grows_when : frame.

(** [Phi] holds at the end of a stage that loops over a list and then looks at
    what it did not list and at the list's limit. *)
Lemma loop_gains {X} (Phi : Assessment -> Prop) (g : Assessment -> X -> Assessment) l y open scope listed b c a :
  (forall a a', grows a a' -> Phi a -> Phi a') -> (forall z a, grows a (g a z)) -> y ∈ l -> (forall a, Phi (g a y)) ->
  Phi (when b (set_cut scope c) (holdUnlisted open scope listed (foldl g a l))).
Proof.
  intros Hm Hg Hy Hp. eapply Hm; [by eauto with frame|]. eapply Hm; [by eauto with frame|]. by eapply foldl_gains.
Qed.
Lemma loop_cut {X} (g : Assessment -> X -> Assessment) l open scope listed (b : bool) c a :
  b = true -> is_cut scope (when b (set_cut scope c) (holdUnlisted open scope listed (foldl g a l))).
Proof. intros ->. unfold is_cut, when. simpl. rewrite dom_insert_L. set_solver. Qed.

(** An assessment that says nothing against the disks: what False rests on. *)
Definition clean (a : Assessment) : Prop :=
  (forall d, ~ found CheckDegraded d a) /\
  (forall s, s ∈ [ScopeMD; ScopeZFS; ScopeSMART] -> ~ is_cut s a /\ Unread a !! s = None) /\
  (forall d, ~ is_silent d a).

Lemma clean_back a a' : grows a a' -> clean a' -> clean a.
Proof.
  intros Hg (Hf & Hs & Hq). split; [|split].
  - intros d H. by apply (Hf d), (found_mono _ _ a).
  - intros s Hin. destruct (Hs s Hin) as [Hc Hu]. split; [by intros H; apply Hc, (is_cut_mono _ a)|].
    apply not_elem_of_dom. intros H. apply (grows_unread _ _ Hg), elem_of_dom in H as [? H]. congruence.
  - intros d H. by apply (Hq d), (is_silent_mono _ a).
Qed.

Lemma Verdict_clean a open : v_Status (Verdict a CheckDegraded open) = "False" -> clean a.
Proof.
  intros (Hnf & _ & Hsc & Hsil & _)%Verdict_false. split; [|split].
  - intros d (f & Hf & Hk). apply (Hnf f Hf). by rewrite Hk.
  - intros s Hs. destruct (Hsc s) as [Hu Hc]; [exact Hs|]. split; [|done]. unfold is_cut. by apply not_elem_of_dom.
  - intros d H. unfold is_silent in H. rewrite (Hsil eq_refl) in H. by apply elem_of_nil in H.
Qed.

Lemma md_clean md open a : clean (assessMD md open a) ->
  stackUnread (md_State md) (md_Error md) = "" /\ md_ArraysOmitted md <= 0 /\
  forall arr, arr ∈ md_Arrays md -> mda_Degraded arr = false.
Proof.
  unfold assessMD. cbv zeta. case_bool_decide as Hw; intros (Hf & Hs & _).
  { destruct (Hs ScopeMD ltac:(set_solver)) as [_ Hu]. simpl in Hu. by rewrite lookup_insert_eq in Hu. }
  split; [done|]. split.
  - apply Z.nlt_ge. intros Hlt. apply (Hs ScopeMD ltac:(set_solver)). apply loop_cut. by apply Z.ltb_lt.
  - intros arr Harr. apply not_true_iff_false. intros Hd. apply (Hf (mda_Name arr)).
    eapply (loop_gains (found CheckDegraded (mda_Name arr))); [by apply found_mono|by eauto with frame|exact Harr|].
    intros x. rewrite Hd. apply found_add.
Qed.

Lemma zfs_clean z t open a : clean (assessZFS z t open a) ->
  stackUnread (zfs_State z) (zfs_Error z) = "" /\ zfs_PoolsOmitted z <= 0 /\ forall p, p ∈ zfs_Pools z -> pool_healthy p.
Proof.
  unfold assessZFS. cbv zeta. case_bool_decide as Hw; intros (Hf & Hs & _).
  { destruct (Hs ScopeZFS ltac:(set_solver)) as [_ Hu]. simpl in Hu. by rewrite lookup_insert_eq in Hu. }
  split; [done|]. split.
  - apply Z.nlt_ge. intros Hlt. apply (Hs ScopeZFS ltac:(set_solver)). apply loop_cut. by apply Z.ltb_lt.
  - intros p Hp. apply dec_stable. intros Hbad. set (x := when _ _ _) in *.
    assert (found CheckDegraded (zp_Name p) x \/ is_cut ScopeZFS x) as [H|H].
    { eapply (loop_gains (fun a => found CheckDegraded (zp_Name p) a \/ is_cut ScopeZFS a)); [|by eauto with frame|exact Hp|].
      - intros y y' Hg [?|?]; [left; by eapply found_mono|right; by eapply is_cut_mono].
      - intros y. by apply assessPool_unhealthy. }
    + by apply (Hf (zp_Name p)).
    + by apply (Hs ScopeZFS ltac:(set_solver)).
Qed.

Lemma smart_clean s inv t open a : Unread a !! ScopeSMART = None -> clean (assessSMART (Some s) inv t open a) ->
  Z.of_nat (length (ms_Observed s)) < MaxObservedDisks /\ forall d, d ∈ ms_Observed s -> disk_healthy d.
Proof.
  intros Hu. unfold assessSMART. rewrite Hu. cbv zeta. intros (Hf & Hs & Hq). split.
  - apply Z.nle_gt. intros Hle. apply (Hs ScopeSMART ltac:(set_solver)). apply loop_cut. by apply Z.leb_le.
  - intros d Hd. apply dec_stable. intros Hbad. set (x := when _ _ _) in *.
    assert (found CheckDegraded (od_SerialNumber d) x \/ is_silent (od_SerialNumber d) x) as [H|H].
    { eapply (loop_gains (fun a => found CheckDegraded (od_SerialNumber d) a \/ is_silent (od_SerialNumber d) a));
        [|by eauto with frame|exact Hd|].
      - intros y y' Hg [?|?]; [left; by eapply found_mono|right; by eapply is_silent_mono].
      - intros y. by apply assessDisk_unhealthy. }
    + by apply (Hf (od_SerialNumber d)).
    + by apply (Hq (od_SerialNumber d)).
Qed.

(** "Not degraded" is earned. When the StorageDegraded condition says
    False, the agent's report is current, md and ZFS were read and their lists
    are whole, no md array is degraded, every pool is ONLINE and read in full
    with every vdev clean, the disk list is whole, and every disk either
    passes its SMART self-assessment or is a spinning disk nobody reads. *)
Theorem degraded_false_is_earned `{RangeOrder} st t net fresh open now :
  v_Status (Verdict (Assess st t net fresh open now) CheckDegraded open) = "False" ->
  exists s l, st_Storage st = Some s /\ ms_Local s = Some l /\ silent_since (ms_ObservedAt s) now = false /\
    (stackUnread (md_State (ls_MD l)) (md_Error (ls_MD l)) = "" /\ md_ArraysOmitted (ls_MD l) <= 0 /\
     forall arr, arr ∈ md_Arrays (ls_MD l) -> mda_Degraded arr = false) /\
    (stackUnread (zfs_State (ls_ZFS l)) (zfs_Error (ls_ZFS l)) = "" /\ zfs_PoolsOmitted (ls_ZFS l) <= 0 /\
     forall p, p ∈ zfs_Pools (ls_ZFS l) -> pool_healthy p) /\
    Z.of_nat (length (ms_Observed s)) < MaxObservedDisks /\
    forall d, d ∈ ms_Observed s -> disk_healthy d.
Proof.
  intros H4%Verdict_clean. rewrite Assess_stages in H4.
  apply (clean_back _ _ (grows_34 st t net fresh open now)) in H4 as H3.
  apply (clean_back _ _ (grows_23 st t fresh open now)) in H3 as H2.
  apply (clean_back _ _ (grows_12 st t fresh open now)) in H2 as H1.
  destruct H1 as (? & Hs1 & ?) eqn:E1. clear E1.
  destruct (local_read st t net fresh open now _ ScopeMD eq_refl ltac:(set_solver) (proj2 (Hs1 ScopeMD ltac:(set_solver)))) as (s & l & Es & El & Esil).
  exists s, l. split; [done|]. split; [done|]. split; [done|].
  assert (Hz : clean (assessZFS (ls_ZFS l) t open (assessMD (ls_MD l) open empty_assessment))).
  { clear - Es El Esil H1. unfold assessLocal in H1. by rewrite Es, El, Esil in H1. }
  split; [|split; [by eapply zfs_clean|]].
  - eapply md_clean, clean_back, Hz. apply (stage_grows anything _ _ _ (assessZFS_stage anything _ _ _ _ (emits_anything _ _))).
  - rewrite Es in H2, H3. eapply smart_clean, H3. destruct H2 as (_ & Hs2 & _). apply (Hs2 ScopeSMART). set_solver.
Qed.

(** ** The capacity threshold and its hysteresis *)

(** The pool is at or over the threshold, or less than two points under it
    with its alert open. *)
Definition over_capacity (t : Thresholds) (open : Open) (p : ZPool) : Prop :=
  exists used, zp_CapacityPercent p = Some used /\
    ZFSCapacityPercent t - (if has open (mkKey CheckCapacityHigh (zp_Name p)) then capacityHysteresis else 0) <= used.

Definition limit_ok (t : Thresholds) : Prop := 0 < ZFSCapacityPercent t <= 100.

Lemma assessPool_capacity_only p t open a f :
  limit_ok t -> f ∈ Findings (assessPool p t open a) -> key_Check (f_Key f) = CheckCapacityHigh ->
  f ∈ Findings a \/ (f_Key f = mkKey CheckCapacityHigh (zp_Name p) /\ over_capacity t open p).
Proof.
  intros Ht Hf Hc. unfold assessPool in Hf. cbv zeta in Hf. set (x := if bool_decide _ then _ else _) in Hf.
  set (y := match zp_ScrubErrors p with Some _ => _ | None => _ end) in Hf.
  assert (Hy : f ∈ Findings y -> f ∈ Findings a).
  { assert (step (fun f => key_Check (f_Key f) <> CheckCapacityHigh) a y) as Hs by (unfold y, x; step_tac; done).
    intros Hin. destruct (stage_new _ [] _ _ _ (stage_read _ _ _ _ Hs) Hin); done. }
  destruct (zp_CapacityPercent p) as [used|] eqn:Eu.
  - unfold when in Hf. destruct (_ <=? used) eqn:El; [|auto]. simpl in Hf.
    apply elem_of_app in Hf as [Hf|Hf]; [auto|]. apply list_elem_of_singleton in Hf as ->. right. split; [done|].
    exists used. split; [done|]. bool_to_prop. unfold limit_ok in Ht. destruct (has open _); [|lia].
    rewrite wrap32_small in El; [done|]. unfold int32_ok, capacityHysteresis. lia.
  - left. apply Hy. unfold hold_open in Hf. by case_match.
Qed.

Lemma assessPool_capacity_found p t open a :
  limit_ok t -> over_capacity t open p -> found CheckCapacityHigh (zp_Name p) (assessPool p t open a).
Proof.
  intros Ht (used & Eu & Hle). unfold assessPool. cbv zeta. rewrite Eu. unfold when at 3.
  assert (((if has open (mkKey CheckCapacityHigh (zp_Name p)) then wrap32 (ZFSCapacityPercent t - capacityHysteresis)
           else ZFSCapacityPercent t) <=? used) = true) as ->; [|apply found_add].
  apply Z.leb_le. unfold limit_ok in Ht. destruct (has open _); [|lia].
  rewrite wrap32_small; [done|]. unfold int32_ok, capacityHysteresis. lia.
Qed.

Definition other_check (f : Finding) : Prop := key_Check (f_Key f) <> CheckCapacityHigh.
Lemma emits_other s checks : CheckCapacityHigh ∉ checks -> emits_on other_check s checks.
Proof. intros Hn f _ Hin E. apply Hn. by rewrite <- E. Qed.
#[export] Hint Extern 1 (emits_on other_check _ _) => apply emits_other; set_solver : frame.

Lemma capacity_back a a' f S : stage other_check S a a' -> key_Check (f_Key f) = CheckCapacityHigh ->
  f ∈ Findings a' -> f ∈ Findings a.
Proof. intros Hs Hc Hf. destruct (stage_new _ _ _ _ _ Hs Hf); done. Qed.

Lemma assessZFS_capacity z t open a n :
  limit_ok t -> (forall f, f ∈ Findings a -> key_Check (f_Key f) <> CheckCapacityHigh) ->
  found CheckCapacityHigh n (assessZFS z t open a) <->
  stackUnread (zfs_State z) (zfs_Error z) = "" /\ exists p, p ∈ zfs_Pools z /\ zp_Name p = n /\ over_capacity t open p.
Proof.
  intros Ht Ha. unfold assessZFS. cbv zeta. case_bool_decide as Hw.
  { split; [|by intros [? _]]. intros (f & Hf & Hk). destruct (Ha f Hf). by rewrite Hk. }
  split.
  - intros (f & Hf & Hk). split; [done|].
    assert (f ∈ Findings (foldl (fun a p => assessPool p t open a) a (zfs_Pools z))) as Hf'.
    { unfold when in Hf. by case_match. }
    assert (forall l a, f ∈ Findings (foldl (fun a p => assessPool p t open a) a l) ->
      f ∈ Findings a \/ exists p, p ∈ l /\ zp_Name p = n /\ over_capacity t open p) as Hl.
    { induction l as [|p l IH]; intros a0 H0; [by left|]. cbn [foldl] in H0.
      apply IH in H0 as [H0|(p' & ? & ?)]; [|right; exists p'; split; [by right|done]].
      apply assessPool_capacity_only in H0 as [?|[Ek ?]]; [by left| |done|by rewrite Hk].
      right. exists p. split; [by left|]. split; [|done]. rewrite Hk in Ek. by injection Ek. }
    destruct (Hl _ _ Hf') as [Hin|?]; [|done]. destruct (Ha f Hin). by rewrite Hk.
  - intros (_ & p & Hp & <- & Ho).
    eapply (loop_gains (found CheckCapacityHigh (zp_Name p))); [by apply found_mono|by eauto with frame|exact Hp|].
    intros x. by apply assessPool_capacity_found.
Qed.

(** A capacity alert fires exactly when a pool of that name, in a current
    and complete ZFS reading, is over the threshold: at or above it to open,
    and down to two points under it while open, so a pool that hovers at the
    threshold does not open and close its alert on every pass. *)
Theorem capacity_alert_iff `{RangeOrder} st t net fresh open now n :
  limit_ok t ->
  found CheckCapacityHigh n (Assess st t net fresh open now) <->
  exists s l p, st_Storage st = Some s /\ ms_Local s = Some l /\ silent_since (ms_ObservedAt s) now = false /\
    stackUnread (zfs_State (ls_ZFS l)) (zfs_Error (ls_ZFS l)) = "" /\
    p ∈ zfs_Pools (ls_ZFS l) /\ zp_Name p = n /\ over_capacity t open p.
Proof.
  intros Ht. rewrite Assess_stages.
  set (a1 := assessLocal (st_Storage st) t open now empty_assessment).
  transitivity (found CheckCapacityHigh n a1).
  { split.
    - intros (f & Hf & Hk). exists f. split; [|done]. assert (key_Check (f_Key f) = CheckCapacityHigh) as Hc by by rewrite Hk.
      eapply capacity_back in Hf; [|apply assessNetwork_stage; auto with frame|done].
      eapply capacity_back in Hf; [|apply assessSMART_stage; auto with frame|done].
      eapply capacity_back in Hf; [done|apply assessDrives_stage; auto with frame|done].
    - apply found_mono. etransitivity; [apply (grows_12 st t fresh open now)|].
      etransitivity; [apply (grows_23 st t fresh open now)|apply grows_34]. }
  assert (forall why, ~ found CheckCapacityHigh n (local_unread why empty_assessment)) as Hu.
  { intros why (f & Hf & _). by apply elem_of_nil in Hf. }
  unfold a1, assessLocal. destruct (st_Storage st) as [s|].
  2: { split; [by intros ?%Hu | by intros (? & ? & ? & ? & _)]. }
  destruct (ms_Local s) as [l|] eqn:El.
  2: { split; [by intros ?%Hu | intros (? & ? & ? & ? & ? & _); congruence]. }
  destruct (silent_since _ _) eqn:Es.
  { split; [by intros ?%Hu | intros (? & ? & ? & ? & ? & ? & _); congruence]. }
  rewrite assessZFS_capacity; [|done|].
  { split; [intros (? & p & ? & ? & ?); by exists s, l, p|].
    intros (s' & l' & p & [= <-] & El' & _ & Hw & ? & ? & ?). rewrite El in El'. injection El' as <-. split; [done|]. by exists p. }
  intros f Hf Hc. eapply capacity_back in Hf; [|apply assessMD_stage; auto with frame|done]. by apply elem_of_nil in Hf.
Qed.

(** ** Concrete readings *)

#[local] Instance demo_range : RangeOrder := fun m => elements (dom m).

Definition demo_pool (name health : string) (cap : option Z) : ZPool :=
  mkZPool name health 0 0 0 None cap "none requested" None "" "" [mkZVdev "raidz1-0" 1 "ONLINE" 0 0 0 ""] 0.
Definition demo_disk (serial : string) (passed : option bool) : ObservedDisk :=
  mkObservedDisk "/dev/sda" serial 480 "zfs-member" "" "" "X" (Some false) "" "" [] (Some (mkDiskSMART None passed (Some 3) "")).
Definition demo_reading (pools : list ZPool) (disks : list ObservedDisk) : MachineReading :=
  mkMachineReading None
    (Some (mkMachineStorage disks [] (Some (at_s 0))
       (Some (mkLocalStorage (mkZFSStatus StackPresent None "" pools 0 [] 0) (mkMDStatus StackAbsent None "" [] 0)
                (mkLVMStatus StackAbsent None "" [] [] [] 0)))))
    None.
Definition demo_thresholds : Thresholds := ThresholdsFrom None.
Definition demo_net : NetExpectations := NetExpectationsFrom None "n1".
Definition demo_assess (st : MachineReading) (open : Open) : Assessment :=
  Assess st demo_thresholds demo_net false open (at_s 60).

Definition tank_full : MachineReading := demo_reading [demo_pool "tank" "ONLINE" (Some 85)] [demo_disk "S1" (Some true)].

Lemma findings_from_reads_witness :
  exists f, f ∈ Findings (demo_assess tank_full ∅) /\ f_Scope f = ScopeZFS /\ Unread (demo_assess tank_full ∅) !! ScopeZFS = None.
Proof.
  exists (mkFinding (mkKey CheckCapacityHigh "tank") ScopeZFS severityWarning "pool tank is over the capacity threshold of 80 %").
  assert (Hf : mkFinding (mkKey CheckCapacityHigh "tank") ScopeZFS severityWarning "pool tank is over the capacity threshold of 80 %"
    ∈ Findings (demo_assess tank_full ∅)) by (apply (bool_decide_unpack _); vm_compute; exact I).
  split; [exact Hf|]. split; [reflexivity|].
  exact (findings_from_reads tank_full demo_thresholds demo_net false ∅ (at_s 60) _ Hf).
Defined.

(** The alert of a pool that now reads healthy is let go, that of a pool the
    reading does not list is kept. *)
Definition demo_open : Open := {[ mkKey CheckDegraded "tank" := ScopeZFS; mkKey CheckDegraded "gone" := ScopeZFS ]}.

Lemma unlisted_never_released_witness :
  Keeps (demo_assess tank_full demo_open) (mkKey CheckDegraded "gone") ScopeZFS = true /\
  read_lists tank_full demo_net false (at_s 60) ScopeZFS "tank".
Proof.
  split; [by vm_compute|].
  apply (unlisted_never_released tank_full demo_thresholds demo_net false demo_open (at_s 60) (mkKey CheckDegraded "tank") ScopeZFS).
  - reflexivity.
  - apply (bool_decide_unpack _). by vm_compute.
  - by vm_compute.
Defined.

Lemma degraded_false_is_earned_witness :
  exists s l, st_Storage tank_full = Some s /\ ms_Local s = Some l /\ forall p, p ∈ zfs_Pools (ls_ZFS l) -> pool_healthy p.
Proof.
  destruct (degraded_false_is_earned tank_full demo_thresholds demo_net false ∅ (at_s 60)) as (s & l & H1 & H2 & _ & _ & (_ & _ & H3) & _).
  - by vm_compute.
  - by exists s, l.
Defined.

Lemma capacity_alert_iff_witness :
  found CheckCapacityHigh "tank" (demo_assess tank_full ∅) /\
  ~ found CheckCapacityHigh "tank" (demo_assess (demo_reading [demo_pool "tank" "ONLINE" (Some 79)] []) ∅) /\
  found CheckCapacityHigh "tank" (demo_assess (demo_reading [demo_pool "tank" "ONLINE" (Some 79)] []) {[ mkKey CheckCapacityHigh "tank" := ScopeZFS ]}).
Proof.
  assert (Ht : limit_ok demo_thresholds) by (vm_compute; split; [reflexivity|discriminate]).
  split; [|split].
  - apply (capacity_alert_iff tank_full demo_thresholds demo_net false ∅ (at_s 60) "tank" Ht).
    eexists _, _, (demo_pool "tank" "ONLINE" (Some 85)).
    split_and!; [reflexivity..|by left|reflexivity|]. exists 85. split; [done|]. by vm_compute.
  - intros (s & l & p & [= <-] & [= <-] & _ & _ & Hp & _ & (used & Hu & Hle))%(capacity_alert_iff _ demo_thresholds _ _ _ _ _ Ht).
    apply list_elem_of_singleton in Hp as ->. injection Hu as <-. vm_compute in Hle. by destruct Hle.
  - apply (capacity_alert_iff _ demo_thresholds demo_net false _ (at_s 60) "tank" Ht).
    eexists _, _, (demo_pool "tank" "ONLINE" (Some 79)).
    split_and!; [reflexivity..|by left|reflexivity|]. exists 79. split; [done|]. by vm_compute.
Defined.

(** A pool zpool cannot size reads as not over capacity: with no alert
    open, nothing marks the reading as partial, and the condition says False
    although no figure was read for that pool. *)
Theorem unsized_pool_reads_false :
  let st := demo_reading [demo_pool "tank" "ONLINE" None] [demo_disk "S1" (Some true)] in
  Verdict (demo_assess st ∅) CheckCapacityHigh ∅ = mkVerdict "False" "Healthy" "".
Proof. vm_compute. reflexivity. Qed.
