(* ===== verification/StorageJoin.v ===== *)
(** internal/storage/join.go: the disagreements between the BMC's drive list
    and the disks the node's kernel reports, matched on serial number. *)
From stdpp Require Import base tactics strings list gmap sorting.
From Stdlib Require Import ZArith Lia.
From S2P Require Import Prelude GoLib StorageTypes StorageHealth.

Open Scope Z_scope.

Definition MaxDivergences : nat := 64.
Definition maxDetailLen : nat := 256.

(** [byBMC[d.SerialNumber] = d]: a later drive of the same serial replaces an
    earlier one. *)
Definition byBMC (bmc : list DriveInfo) : gmap string DriveInfo :=
  foldl (fun m d => if bool_decide (dr_SerialNumber d = "") then m else <[dr_SerialNumber d := d]> m) ∅ bmc.

Definition unidentified_drive (d : DriveInfo) : list DiskDivergence :=
  if bool_decide (dr_SerialNumber d = "")
  then [mkDiskDivergence "" "bmc-only" ("bay " +:+ dr_Location d +:+ " reports no serial number, so it cannot be matched")]
  else [].

Definition observed_divergence (by_ : gmap string DriveInfo) (o : ObservedDisk) : list DiskDivergence :=
  let serial := od_SerialNumber o in
  if bool_decide (serial = "")
  then [mkDiskDivergence "" "os-only" (od_Path o +:+ " reports no serial number, so it cannot be matched")]
  else match by_ !! serial with
       | None => [mkDiskDivergence serial "os-only" (od_Path o +:+ " is not in the BMC's drive list")]
       | Some b => if negb (dr_SizeGB b =? od_SizeGB o)
                   then [mkDiskDivergence serial "mismatch"
                           ("BMC says " +:+ itoa (dr_SizeGB b) +:+ " GB, node says " +:+ itoa (od_SizeGB o) +:+ " GB")]
                   else []
       end.

Definition seen (observed : list ObservedDisk) : gset string :=
  list_to_set (List.filter (fun s => negb (bool_decide (s = ""))) (map od_SerialNumber observed)).

Definition unseen_drive (sn : gset string) (d : DriveInfo) : list DiskDivergence :=
  if bool_decide (dr_SerialNumber d = "") || bool_decide (dr_SerialNumber d ∈ sn) then []
  else [mkDiskDivergence (dr_SerialNumber d) "bmc-only"
          ("bay " +:+ dr_Location d +:+ ": the BMC lists it, the node's kernel does not")].

Definition clip_detail (d : DiskDivergence) : DiskDivergence :=
  mkDiskDivergence (dd_SerialNumber d) (dd_Reason d) (clipRunes (dd_Detail d) maxDetailLen).

(** Every disagreement, before sorting and the cap. *)
Definition divergences (bmc : list DriveInfo) (observed : list ObservedDisk) : list DiskDivergence :=
  map clip_detail
    (flat_map unidentified_drive bmc ++ flat_map (observed_divergence (byBMC bmc)) observed
     ++ flat_map (unseen_drive (seen observed)) bmc).

(** Serial, then reason; the comparison of both SliceStable calls. *)
Definition divergence_leb (a b : DiskDivergence) : bool :=
  if bool_decide (dd_SerialNumber a = dd_SerialNumber b) then str_leb (dd_Reason a) (dd_Reason b)
  else str_leb (dd_SerialNumber a) (dd_SerialNumber b).

Definition priority : list string := ["bmc-only"; "mismatch"; "os-only"].
Definition with_reason (out : list DiskDivergence) (reason : string) : list DiskDivergence :=
  List.filter (fun d => bool_decide (dd_Reason d = reason)) out.

Definition Join (bmc : list DriveInfo) (observed : list ObservedDisk) : list DiskDivergence :=
  let out := sort_by divergence_leb (divergences bmc observed) in
  if (length out <=? MaxDivergences)%nat then out
  else sort_by divergence_leb (take MaxDivergences (flat_map (with_reason out) priority)).

(** ** Bounds and order *)

Lemma divergence_leb_total a b : divergence_leb a b = true \/ divergence_leb b a = true.
Proof.
  unfold divergence_leb. destruct (decide (dd_SerialNumber a = dd_SerialNumber b)) as [E|E].
  - rewrite E, !bool_decide_true by done. apply str_leb_total.
  - rewrite !bool_decide_false by congruence. apply str_leb_total.
Qed.

Lemma divergence_leb_trans a b c : divergence_leb a b = true -> divergence_leb b c = true -> divergence_leb a c = true.
Proof.
  unfold divergence_leb.
  destruct (decide (dd_SerialNumber a = dd_SerialNumber b)) as [E1|E1];
    [rewrite (bool_decide_true (dd_SerialNumber a = dd_SerialNumber b)) by done
    |rewrite (bool_decide_false (dd_SerialNumber a = dd_SerialNumber b)) by done];
  destruct (decide (dd_SerialNumber b = dd_SerialNumber c)) as [E2|E2];
    [rewrite (bool_decide_true (dd_SerialNumber b = dd_SerialNumber c)) by done
    |rewrite (bool_decide_false (dd_SerialNumber b = dd_SerialNumber c)) by done
    |rewrite (bool_decide_true (dd_SerialNumber b = dd_SerialNumber c)) by done
    |rewrite (bool_decide_false (dd_SerialNumber b = dd_SerialNumber c)) by done].
  - rewrite bool_decide_true by congruence. apply str_leb_trans.
  - rewrite bool_decide_false by congruence. intros _. by rewrite E1.
  - rewrite bool_decide_false by congruence. rewrite E2. done.
  - intros L1 L2. case_bool_decide as E3; [|by eapply str_leb_trans].
    exfalso. apply E1, str_leb_antisym; [done|]. by rewrite E3.
Qed.

Lemma Join_sorted bmc observed : StronglySorted (fun a b => divergence_leb a b = true) (Join bmc observed).
Proof.
  unfold Join. cbv zeta. case_match; apply sort_by_sorted; auto using divergence_leb_total; apply divergence_leb_trans.
Qed.

Lemma clipRunes_bound s n : (rune_count (clipRunes s n) <= n)%nat.
Proof.
  unfold clipRunes. destruct (rune_count s <=? n)%nat eqn:E; [by apply Nat.leb_le|].
  rewrite rune_count_of_runes; [rewrite length_take; lia|]. apply Forall_take, runes_fuel_decoded.
Qed.

Lemma with_reason_in out reason d : d ∈ with_reason out reason <-> d ∈ out /\ dd_Reason d = reason.
Proof. unfold with_reason. rewrite !list_elem_of_In, filter_In, bool_decide_eq_true. done. Qed.

Lemma elem_of_flat_map {A B} (f : A -> list B) l y : y ∈ flat_map f l <-> exists x, x ∈ l /\ y ∈ f x.
Proof. rewrite list_elem_of_In, in_flat_map. by setoid_rewrite list_elem_of_In. Qed.

Lemma take_sub {A} n (l : list A) x : x ∈ take n l -> x ∈ l.
Proof. intros H. rewrite <- (take_drop n l). apply elem_of_app. by left. Qed.

Lemma Join_sub bmc observed d : d ∈ Join bmc observed -> d ∈ divergences bmc observed.
Proof.
  unfold Join. cbv zeta. case_match; rewrite elem_of_sort_by; [done|]. intros Hd%take_sub.
  apply elem_of_flat_map in Hd as (r & _ & Hd). apply with_reason_in in Hd as [Hd _]. by apply elem_of_sort_by in Hd.
Qed.

(** What Join returns always fits the CRD: at most 64 entries, every
    detail within 256 characters, ordered by serial then reason so the status
    field does not churn, and nothing that is not a disagreement. *)
Theorem Join_fits bmc observed :
  (length (Join bmc observed) <= MaxDivergences)%nat /\
  (forall d, d ∈ Join bmc observed -> d ∈ divergences bmc observed /\ (rune_count (dd_Detail d) <= maxDetailLen)%nat) /\
  StronglySorted (fun a b => divergence_leb a b = true) (Join bmc observed).
Proof.
  split; [|split; [|apply Join_sorted]].
  - unfold Join. cbv zeta. destruct (_ <=? _)%nat eqn:E; [by apply Nat.leb_le|]. rewrite sort_by_length, length_take. lia.
  - intros d Hd%Join_sub. split; [done|]. apply list_elem_of_In, in_map_iff in Hd as (d0 & <- & _). apply clipRunes_bound.
Qed.

(** ** What is a disagreement *)

Lemma byBMC_spec bmc s b : byBMC bmc !! s = Some b -> b ∈ bmc /\ dr_SerialNumber b = s /\ s <> "".
Proof.
  unfold byBMC. assert (forall l (m : gmap string DriveInfo), 
    foldl (fun m d => if bool_decide (dr_SerialNumber d = "") then m else <[dr_SerialNumber d := d]> m) m l !! s = Some b ->
    (b ∈ l /\ dr_SerialNumber b = s /\ s <> "") \/ m !! s = Some b) as H.
  { induction l as [|d l IH]; intros m Hl; [by right|]. cbn [foldl] in Hl. apply IH in Hl as [(? & ? & ?)|Hl].
    - left. split; [by right|done].
    - case_bool_decide as Hd; [by right|]. destruct (decide (dr_SerialNumber d = s)) as [<-|Hne].
      + rewrite lookup_insert_eq in Hl. injection Hl as <-. left. split; [by left|done].
      + rewrite lookup_insert_ne in Hl by done. by right. }
  intros Hb. by destruct (H _ _ Hb).
Qed.

Lemma byBMC_none bmc s : s <> "" -> byBMC bmc !! s = None <-> s ∉ map dr_SerialNumber bmc.
Proof.
  intros Hs. unfold byBMC. assert (forall l (m : gmap string DriveInfo),
    foldl (fun m d => if bool_decide (dr_SerialNumber d = "") then m else <[dr_SerialNumber d := d]> m) m l !! s = None <->
    (s ∉ map dr_SerialNumber l /\ m !! s = None)) as H.
  { induction l as [|d l IH]; intros m; [set_solver|]. cbn [foldl map]. rewrite IH, not_elem_of_cons.
    case_bool_decide as Hd.
    - assert (s <> dr_SerialNumber d) by congruence. tauto.
    - destruct (decide (dr_SerialNumber d = s)) as [<-|Hne].
      + rewrite lookup_insert_eq. naive_solver.
      + rewrite lookup_insert_ne by done. naive_solver. }
  rewrite H. set_solver.
Qed.

Lemma seen_spec observed s : s ∈ seen observed <-> s <> "" /\ s ∈ map od_SerialNumber observed.
Proof.
  unfold seen. rewrite elem_of_list_to_set, list_elem_of_In, filter_In, <- list_elem_of_In, negb_true_iff, bool_decide_eq_false.
  tauto.
Qed.

(** The disagreement of one reason on one serial. *)
Definition diverges (bmc : list DriveInfo) (observed : list ObservedDisk) (serial reason : string) : Prop :=
  exists d, d ∈ divergences bmc observed /\ dd_SerialNumber d = serial /\ dd_Reason d = reason.

Lemma diverges_raw bmc observed s r : diverges bmc observed s r <->
  exists d, (d ∈ flat_map unidentified_drive bmc ++ flat_map (observed_divergence (byBMC bmc)) observed
             ++ flat_map (unseen_drive (seen observed)) bmc) /\ dd_SerialNumber d = s /\ dd_Reason d = r.
Proof.
  unfold diverges, divergences. split.
  - intros (d & Hd & ? & ?). apply list_elem_of_In, in_map_iff in Hd as (d0 & <- & Hd). exists d0. by apply list_elem_of_In in Hd.
  - intros (d & Hd & ? & ?). exists (clip_detail d). split; [|done]. by apply list_elem_of_In, in_map, list_elem_of_In.
Qed.

Lemma unidentified_in bmc d : d ∈ flat_map unidentified_drive bmc -> dd_SerialNumber d = "" /\ dd_Reason d = "bmc-only".
Proof.
  intros (x & _ & Hd)%elem_of_flat_map. unfold unidentified_drive in Hd. case_bool_decide; [|by apply elem_of_nil in Hd].
  by apply list_elem_of_singleton in Hd as ->.
Qed.

Lemma observed_in by_ observed d s r : s <> "" ->
  d ∈ flat_map (observed_divergence by_) observed -> dd_SerialNumber d = s -> dd_Reason d = r ->
  exists o, o ∈ observed /\ od_SerialNumber o = s /\
    ((r = "os-only" /\ by_ !! s = None) \/
     (r = "mismatch" /\ exists b, by_ !! s = Some b /\ dr_SizeGB b <> od_SizeGB o)).
Proof.
  intros Hs (o & Ho & Hd)%elem_of_flat_map <- <-. unfold observed_divergence in Hd.
  case_bool_decide as He; [apply list_elem_of_singleton in Hd as ->; done|].
  destruct (by_ !! od_SerialNumber o) as [b|] eqn:Eb.
  - destruct (dr_SizeGB b =? od_SizeGB o) eqn:Ez; [by apply elem_of_nil in Hd|]. apply list_elem_of_singleton in Hd as ->.
    exists o. bool_to_prop. split; [done|]. split; [done|]. right. split; [done|]. by exists b.
  - apply list_elem_of_singleton in Hd as ->. exists o. split; [done|]. split; [done|]. by left.
Qed.

Lemma unseen_in sn bmc d : d ∈ flat_map (unseen_drive sn) bmc <->
  exists b, b ∈ bmc /\ dr_SerialNumber b <> "" /\ dr_SerialNumber b ∉ sn /\
    d = mkDiskDivergence (dr_SerialNumber b) "bmc-only" ("bay " +:+ dr_Location b +:+ ": the BMC lists it, the node's kernel does not").
Proof.
  rewrite elem_of_flat_map. unfold unseen_drive. split; intros (b & Hb & Hd); exists b; (split; [done|]).
  - repeat case_bool_decide; simpl in Hd; try (by apply elem_of_nil in Hd). by apply list_elem_of_singleton in Hd.
  - destruct Hd as (? & ? & ->). rewrite !bool_decide_false by done. by left.
Qed.

(** C40. Disks are matched on serial numbers and nothing else. For a serial
    that identifies a disk: bmc-only exactly when the BMC lists it and the
    kernel does not, os-only exactly when the kernel lists it and the BMC does
    not, mismatch exactly when both do and the sizes differ; and whatever is
    not truncated is listed. *)
Theorem Join_exact bmc observed s :
  s <> "" ->
  (diverges bmc observed s "bmc-only" <-> s ∈ map dr_SerialNumber bmc /\ s ∉ map od_SerialNumber observed) /\
  (diverges bmc observed s "os-only" <-> s ∈ map od_SerialNumber observed /\ s ∉ map dr_SerialNumber bmc) /\
  (diverges bmc observed s "mismatch" <->
     exists o b, o ∈ observed /\ od_SerialNumber o = s /\ byBMC bmc !! s = Some b /\ dr_SizeGB b <> od_SizeGB o) /\
  ((length (divergences bmc observed) <= MaxDivergences)%nat ->
     forall d, d ∈ Join bmc observed <-> d ∈ divergences bmc observed).
Proof.
  intros Hs. rewrite !diverges_raw. setoid_rewrite elem_of_app. setoid_rewrite elem_of_app.
  split; [|split; [|split]].
  - split.
    + intros (d & [Hd|[Hd|Hd]] & Es & Er).
      * by apply unidentified_in in Hd as [? _]; congruence.
      * destruct (observed_in _ _ _ s _ Hs Hd Es Er) as (_ & _ & _ & [[? _]|[? _]]); done.
      * apply unseen_in in Hd as (b & Hb & _ & Hn & ->). simpl in Es. subst s. rewrite seen_spec in Hn.
        split; [by apply list_elem_of_In, in_map, list_elem_of_In|tauto].
    + intros [(b & <- & Hb)%list_elem_of_In%in_map_iff Hn]. apply list_elem_of_In in Hb. eexists. split; [right; right; apply unseen_in; exists b; rewrite seen_spec; by split_and!; [| |naive_solver|]|done].
  - split.
    + intros (d & [Hd|[Hd|Hd]] & Es & Er).
      * by apply unidentified_in in Hd as [? _]; congruence.
      * destruct (observed_in _ _ _ s _ Hs Hd Es Er) as (o & Ho & <- & [[_ Hn]|[? _]]); [|done].
        split; [by apply list_elem_of_In, in_map, list_elem_of_In|]. by apply byBMC_none.
      * apply unseen_in in Hd as (b & _ & _ & _ & ->). done.
    + intros [(o & <- & Ho)%list_elem_of_In%in_map_iff Hn]. apply list_elem_of_In in Ho. eexists. split; [right; left; apply elem_of_flat_map; exists o; split; [done|]|].
      * unfold observed_divergence. rewrite bool_decide_false by done. apply byBMC_none in Hn as ->; [by left|done].
      * done.
  - split.
    + intros (d & [Hd|[Hd|Hd]] & Es & Er).
      * by apply unidentified_in in Hd as [? _]; congruence.
      * destruct (observed_in _ _ _ s _ Hs Hd Es Er) as (o & Ho & Eo & [[? _]|[_ (b & Hb & Hne)]]); [done|]. by exists o, b.
      * apply unseen_in in Hd as (b & _ & _ & _ & ->). done.
    + intros (o & b & Ho & <- & Hb & Hne). eexists. split; [right; left; apply elem_of_flat_map; exists o; split; [done|]|].
      * unfold observed_divergence. rewrite bool_decide_false by done. rewrite Hb.
        assert ((dr_SizeGB b =? od_SizeGB o) = false) as -> by (by apply Z.eqb_neq). by left.
      * done.
  - intros Hlen d. unfold Join. cbv zeta. rewrite sort_by_length. apply Nat.leb_le in Hlen as ->. apply elem_of_sort_by.
Qed.

(** Two unidentified disks are never taken for the same disk: every drive
    and every disk without a serial number comes back as a divergence of its
    own. *)
Theorem unidentified_never_matched bmc observed :
  length (List.filter (fun d => bool_decide (dd_SerialNumber d = "")) (divergences bmc observed)) =
  (length (List.filter (fun b => bool_decide (dr_SerialNumber b = "")) bmc) +
   length (List.filter (fun o => bool_decide (od_SerialNumber o = "")) observed))%nat.
Proof.
  unfold divergences. assert (forall l, length (List.filter (fun d => bool_decide (dd_SerialNumber d = "")) (map clip_detail l)) =
    length (List.filter (fun d => bool_decide (dd_SerialNumber d = "")) l)) as ->.
  { induction l as [|d l IH]; [done|]. cbn [map List.filter]. simpl (dd_SerialNumber (clip_detail d)). by case_bool_decide; simpl; rewrite IH. }
  rewrite !List.filter_app, !length_app.
  assert (length (List.filter (fun d => bool_decide (dd_SerialNumber d = "")) (flat_map unidentified_drive bmc)) =
    length (List.filter (fun b => bool_decide (dr_SerialNumber b = "")) bmc)) as ->.
  { induction bmc as [|b l IH]; [done|]. cbn [flat_map List.filter]. rewrite List.filter_app, length_app, IH.
    unfold unidentified_drive. by case_bool_decide. }
  assert (length (List.filter (fun d => bool_decide (dd_SerialNumber d = "")) (flat_map (observed_divergence (byBMC bmc)) observed)) =
    length (List.filter (fun o => bool_decide (od_SerialNumber o = "")) observed)) as ->.
  { induction observed as [|o l IH]; [done|]. cbn [flat_map List.filter]. rewrite List.filter_app, length_app, IH.
    unfold observed_divergence. case_bool_decide as E; [done|].
    destruct (byBMC bmc !! od_SerialNumber o) as [b|]; [case_match|]; cbn [List.filter dd_SerialNumber]; rewrite ?bool_decide_false by done; done. }
  assert (length (List.filter (fun d => bool_decide (dd_SerialNumber d = "")) (flat_map (unseen_drive (seen observed)) bmc)) = 0%nat) as ->; [|lia].
  induction bmc as [|b l IH]; [done|]. cbn [flat_map]. rewrite List.filter_app, length_app, IH. unfold unseen_drive.
  case_bool_decide as E; [done|]. simpl. case_bool_decide; [done|]. cbn [List.filter dd_SerialNumber]. by rewrite bool_decide_false.
Qed.

(** The rank of a reason: what survives the cap first. *)
Definition rank (d : DiskDivergence) : nat :=
  if bool_decide (dd_Reason d = "bmc-only") then 0%nat else if bool_decide (dd_Reason d = "mismatch") then 1%nat else 2%nat.

Lemma sorted_const (l : list DiskDivergence) n : (forall d, d ∈ l -> rank d = n) ->
  StronglySorted (fun a b => rank a <= rank b)%nat l.
Proof.
  induction l as [|d l IH]; intros Hl; [constructor|]. constructor.
  - apply IH. intros x Hx. apply Hl. by right.
  - apply Forall_forall. intros x Hx. rewrite (Hl d), (Hl x); [done| |]; [by right|by left].
Qed.

Lemma by_priority_sorted out : StronglySorted (fun a b => rank a <= rank b)%nat (flat_map (with_reason out) priority).
Proof.
  assert (forall r n, (forall d, dd_Reason d = r -> rank d = n) -> forall d, d ∈ with_reason out r -> rank d = n) as Hr.
  { intros r n H d [_ Hd]%with_reason_in. by apply H. }
  assert (H0 := Hr "bmc-only" 0%nat ltac:(intros d Hd; unfold rank; by rewrite Hd)).
  assert (H1 := Hr "mismatch" 1%nat ltac:(intros d Hd; unfold rank; by rewrite Hd)).
  assert (H2 := Hr "os-only" 2%nat ltac:(intros d Hd; unfold rank; by rewrite Hd)).
  cbn [flat_map priority]. rewrite app_nil_r. apply StronglySorted_app_2.
  - intros x y Hx%H0 _. lia.
  - by eapply sorted_const.
  - apply StronglySorted_app_2; [|by eapply sorted_const..]. intros x y Hx%H1 Hy%H2. lia.
Qed.

Lemma reasons_known bmc observed d : d ∈ divergences bmc observed -> dd_Reason d ∈ priority.
Proof.
  intros (d0 & <- & Hd)%list_elem_of_In%in_map_iff. apply list_elem_of_In in Hd. simpl.
  rewrite !elem_of_app in Hd. destruct Hd as [Hd|[Hd|Hd]].
  - apply unidentified_in in Hd as [_ ->]. set_solver.
  - apply elem_of_flat_map in Hd as (o & _ & Hd). unfold observed_divergence in Hd.
    repeat case_match; try (by apply elem_of_nil in Hd); apply list_elem_of_singleton in Hd as ->; set_solver.
  - apply unseen_in in Hd as (b & _ & _ & _ & ->). set_solver.
Qed.

(** What the cap drops is what matters least: nothing kept ranks behind
    something dropped, in the order bmc-only, mismatch, os-only. *)
Theorem Join_keeps_priority bmc observed d d' :
  d ∈ divergences bmc observed -> d ∉ Join bmc observed -> d' ∈ Join bmc observed -> (rank d' <= rank d)%nat.
Proof.
  intros Hd Hn Hd'. unfold Join in *. cbv zeta in *. destruct (_ <=? _)%nat; rewrite !elem_of_sort_by in *; [done|].
  set (l := flat_map _ _) in *. assert (d ∈ l) as Hl.
  { apply elem_of_flat_map. exists (dd_Reason d). split; [by eapply reasons_known|]. apply with_reason_in. by rewrite elem_of_sort_by. }
  assert (d ∈ drop MaxDivergences l) as Hdrop.
  { rewrite <- (take_drop MaxDivergences l) in Hl. by apply elem_of_app in Hl as [?|?]. }
  pose proof (by_priority_sorted (sort_by divergence_leb (divergences bmc observed))) as Hs. fold l in Hs.
  rewrite <- (take_drop MaxDivergences l) in Hs.
  exact (StronglySorted_app_1_elem_of _ _ _ d' d Hs Hd' Hdrop).
Qed.

(** ** Concrete lists *)

Definition drive_of (serial : string) (gb : Z) : DriveInfo :=
  mkDriveInfo "" "" gb "" "OK" serial "2I:6:8" "" [] "" 0 0 None None None.
Definition disk_of (serial : string) (gb : Z) : ObservedDisk :=
  mkObservedDisk "/dev/sda" serial gb "free" "" "" "" None "" "" [] None.

Lemma Join_exact_witness :
  diverges [drive_of "A" 480; drive_of "" 480] [disk_of "" 480; disk_of "B" 480] "A" "bmc-only" /\
  ~ diverges [drive_of "A" 480; drive_of "" 480] [disk_of "" 480; disk_of "B" 480] "A" "mismatch".
Proof.
  destruct (Join_exact [drive_of "A" 480; drive_of "" 480] [disk_of "" 480; disk_of "B" 480] "A") as (H1 & _ & H3 & _); [done|].
  split.
  - apply H1. split; [by left|]. apply (bool_decide_unpack _). by vm_compute.
  - intros (o & b & Ho & Hs & _)%H3. repeat (apply elem_of_cons in Ho as [->|Ho]; [done|]). by apply elem_of_nil in Ho.
Defined.

(** Forty drives the kernel does not see and forty disks the BMC does not
    list: sixteen os-only entries are dropped, no bmc-only one. *)
Definition many_drives : list DriveInfo := map (fun i => drive_of ("b" +:+ itoa (Z.of_nat i)) 480) (seq 0 40).
Definition many_disks : list ObservedDisk := map (fun i => disk_of ("o" +:+ itoa (Z.of_nat i)) 480) (seq 0 40).

#[export] Instance DiskDivergence_eq : EqDecision DiskDivergence.
Proof. solve_decision. Defined.

Lemma Join_keeps_priority_witness :
  let dropped := mkDiskDivergence "o9" "os-only" "/dev/sda is not in the BMC's drive list" in
  let kept := mkDiskDivergence "b9" "bmc-only" "bay 2I:6:8: the BMC lists it, the node's kernel does not" in
  dropped ∉ Join many_drives many_disks /\ kept ∈ Join many_drives many_disks /\ (rank kept <= rank dropped)%nat.
Proof.
  intros dropped kept.
  assert (Hn : dropped ∉ Join many_drives many_disks) by (apply (bool_decide_unpack _); vm_compute; exact I).
  assert (Hk : kept ∈ Join many_drives many_disks) by (apply (bool_decide_unpack _); vm_compute; exact I).
  split; [exact Hn|]. split; [exact Hk|].
  apply (Join_keeps_priority many_drives many_disks dropped kept); [|exact Hn|exact Hk].
  apply (bool_decide_unpack _). vm_compute. exact I.
Defined.
