(* ===== verification/Sha256.v ===== *)
(** crypto/sha256, crypto/hmac and encoding/hex, as the alerting and Ceph
    packages use them: SHA-256 on byte strings (FIPS 180-4), HMAC-SHA-256
    (RFC 2104), lower-case hexadecimal. *)
From stdpp Require Import base tactics strings list.
From Stdlib Require Import ZArith Lia Ascii.
From S2P Require Import Prelude GoLib.

Open Scope Z_scope.

Definition w32 (x : Z) : Z := Z.land x 0xffffffff.
Definition rotr (n x : Z) : Z := w32 (Z.lor (Z.shiftr x n) (Z.shiftl x (32 - n))).

(** The constants, by their definition: the first 32 bits of the fractional
    parts of the cube roots of the first 64 primes, and of the square roots of
    the first eight. [root3 n x] is the integer cube root of [x], found bit by
    bit from bit [n] down. *)
Fixpoint root3_from (n : nat) (x r : Z) : Z :=
  let r' := r + 2 ^ Z.of_nat n in
  let r := if r' * r' * r' <=? x then r' else r in
  match n with O => r | S n => root3_from n x r end.
Definition is_prime (p : nat) : bool := forallb (fun q => negb (p mod q =? 0)%nat) (seq 2 (p - 2)).
Definition primes : list Z := map Z.of_nat (List.filter is_prime (seq 2 310)).

Definition sha_k : list Z := Eval vm_compute in map (fun p => w32 (root3_from 35 (p * 2 ^ 96) 0)) primes.
Definition sha_h0 : list Z := Eval vm_compute in map (fun p => w32 (Z.sqrt (p * 2 ^ 64))) (take 8 primes).

Definition ch (x y z : Z) : Z := Z.lxor (Z.land x y) (Z.land (Z.lxor x 0xffffffff) z).
Definition maj (x y z : Z) : Z := Z.lxor (Z.lxor (Z.land x y) (Z.land x z)) (Z.land y z).
Definition big0 (x : Z) : Z := Z.lxor (Z.lxor (rotr 2 x) (rotr 13 x)) (rotr 22 x).
Definition big1 (x : Z) : Z := Z.lxor (Z.lxor (rotr 6 x) (rotr 11 x)) (rotr 25 x).
Definition small0 (x : Z) : Z := Z.lxor (Z.lxor (rotr 7 x) (rotr 18 x)) (Z.shiftr x 3).
Definition small1 (x : Z) : Z := Z.lxor (Z.lxor (rotr 17 x) (rotr 19 x)) (Z.shiftr x 10).

(** The message schedule: [w] holds the last sixteen words, newest first. *)
Definition next_word (w : list Z) : Z :=
  w32 (small1 (nth 1 w 0) + nth 6 w 0 + small0 (nth 14 w 0) + nth 15 w 0).

(** One round per constant left; the words still to come are [ws], then the
    schedule goes on from [w]. *)
Fixpoint rounds (ks : list Z) (ws w : list Z) (st : list Z) : list Z :=
  match ks, st with
  | k :: ks', [a; b; c; d; e; f; g; h] =>
    let '(x, ws') := match ws with x :: ws' => (x, ws') | [] => (next_word w, []) end in
    let t1 := w32 (h + big1 e + ch e f g + k + x) in
    let t2 := w32 (big0 a + maj a b c) in
    rounds ks' ws' (take 16 (x :: w)) [w32 (t1 + t2); a; b; c; w32 (d + t1); e; f; g]
  | _, _ => st
  end.

Definition compress (st block : list Z) : list Z := zip_with (fun x y => w32 (x + y)) st (rounds sha_k block [] st).

Fixpoint words (l : list Z) : list Z :=
  match l with
  | a :: b :: c :: d :: l' => (a * 2 ^ 24 + b * 2 ^ 16 + c * 2 ^ 8 + d) :: words l'
  | _ => []
  end.

Definition be_bytes (n : nat) (x : Z) : list Z := map (fun i => Z.land (Z.shiftr x (8 * Z.of_nat i)) 255) (rev (seq 0 n)).

(** One 1 bit, zeros to the length of a block less eight bytes, the length. *)
Definition sha_pad (l : list Z) : list Z :=
  let n := Z.of_nat (length l) in
  let zeros := Z.to_nat ((55 - n) `mod` 64) in
  l ++ [128] ++ replicate zeros 0 ++ be_bytes 8 (8 * n).

Fixpoint blocks (n : nat) (st : list Z) (l : list Z) : list Z :=
  match n with
  | O => st
  | S n => blocks n (compress st (take 16 l)) (drop 16 l)
  end.

(** [sha256.Sum256], on the values of the bytes. *)
Definition sum256 (l : list Z) : list Z :=
  let ws := words (sha_pad l) in
  flat_map (be_bytes 4) (blocks (length ws / 16) sha_h0 ws).

Definition string_bytes (s : string) : list Z := map byteZ (to_bytes s).

(** [hex.EncodeToString]. *)
Definition hex_encode (l : list Z) : string := of_bytes (flat_map hex2 l).

(** [hmac.New(sha256.New, key)] over [msg]. *)
Definition hmac256 (key msg : list Z) : list Z :=
  let k0 := if (64 <? length key)%nat then sum256 key else key in
  let k := k0 ++ replicate (64 - length k0) 0 in
  sum256 (map (Z.lxor 0x5c) k ++ sum256 (map (Z.lxor 0x36) k ++ msg)).

(** ** A digest is 32 bytes *)

Lemma rounds_length ks ws w st : length st = 8%nat -> length (rounds ks ws w st) = 8%nat.
Proof.
  revert ws w st. induction ks as [|k ks IH]; intros ws w st Hst; [done|].
  do 9 (destruct st as [|? st]; try done). cbn [rounds]. destruct ws; by apply IH.
Qed.
Lemma compress_length st b : length st = 8%nat -> length (compress st b) = 8%nat.
Proof. intros Hst. unfold compress. by rewrite length_zip_with, rounds_length, Hst. Qed.
Lemma blocks_length n st l : length st = 8%nat -> length (blocks n st l) = 8%nat.
Proof. revert st l. induction n as [|n IH]; intros st l Hst; [done|]. simpl. by apply IH, compress_length. Qed.

(** A byte's value. *)
Definition octet (x : Z) : Prop := 0 <= x < 256.
Lemma be_bytes_ok n x : length (be_bytes n x) = n /\ Forall octet (be_bytes n x).
Proof.
  unfold be_bytes. split; [by rewrite length_map, length_rev, length_seq|].
  apply Forall_forall. intros y (i & <- & _)%list_elem_of_In%in_map_iff. unfold octet.
  change 255 with (Z.ones 8). rewrite Z.land_ones by lia. change (2 ^ 8) with 256. apply Z.mod_pos_bound. lia.
Qed.
Lemma sum256_ok l : length (sum256 l) = 32%nat /\ Forall octet (sum256 l).
Proof.
  unfold sum256. cbv zeta. pose proof (blocks_length (length (words (sha_pad l)) / 16) sha_h0 (words (sha_pad l)) eq_refl) as Hb.
  set (bs := blocks _ _ _) in *. clearbody bs. split.
  - do 9 (destruct bs as [|? bs]; try done).
  - clear Hb. induction bs as [|b bs IH]; [constructor|]. cbn [flat_map]. apply Forall_app. split; [apply be_bytes_ok|exact IH].
Qed.

(** ** Published test vectors *)

Example sha_abc : hex_encode (sum256 (string_bytes "abc")) = "ba7816bf8f01cfea414140de5dae2223b00361a396177a9cb410ff61f20015ad".
Proof. vm_compute. reflexivity. Qed.
Example sha_empty : hex_encode (sum256 []) = "e3b0c44298fc1c149afbf4c8996fb92427ae41e4649b934ca495991b7852b855".
Proof. vm_compute. reflexivity. Qed.
Example sha_two_blocks :
  hex_encode (sum256 (string_bytes "abcdbcdecdefdefgefghfghighijhijkijkljklmklmnlmnomnopnopq")) =
  "248d6a61d20638b8e5c026930c3e6039a33ce45964ff2167f6ecedd419db06c1".
Proof. vm_compute. reflexivity. Qed.
Example hmac_jefe : hex_encode (hmac256 (string_bytes "Jefe") (string_bytes "what do ya want for nothing?")) =
  "5bdcc146bf60754e6a042426089575c75a003f089d2739839dec58b964ec3843".
Proof. vm_compute. reflexivity. Qed.
