(* ===== verification/LoginGate.v ===== *)
(** The Ceph dashboard login gate: internal/cephmgr/refusal.go and the login
    half of client.go. The intention of every login is written before the
    login is sent; a state that cannot be read, or that already knows the
    account, forbids the login.

    The API server holding the state Secret, crypto/rand and the HTTP client
    are the methods of [GateWorld]; [GateLaws] is what the theorems use of
    them. Other writers (another replica, an operator) may change the Secret
    between any two calls. *)
From stdpp Require Import base tactics strings list gmap.
From Stdlib Require Import ZArith Lia Ascii.
From S2P Require Import Prelude GoLib Sha256.

Open Scope Z_scope.

Record Config := mkConfig { BaseURL : string; Username : string; Password : string }.

(** A Secret: its data, and the resourceVersion an Update is checked against. *)
Record Secret := mkSecret { sec_data : gmap string string; sec_version : string }.

Definition data_of (sec : Secret) (k : string) : string := default "" (sec_data sec !! k).

Definition MaxRefused : nat := 64.
Definition writeAttempts : nat := 3.

(** The errors of the gate; [ErrOther] carries a read, write or randomness
    failure's text. *)
Inductive gate_err :=
| ErrStateMissing | ErrStateCorrupt | ErrLoginRefusedBefore | ErrLoginOutcomeUnknown | ErrTooManyUnresolved
| ErrOther (text : string).
#[export] Instance gate_err_eq : EqDecision gate_err.
Proof. solve_decision. Defined.

(** ** MACs *)

Definition nul : string := String zero "".

Definition accountMAC (key : string) (c : Config) : string :=
  hex_encode (hmac256 (string_bytes key) (string_bytes (Username c +:+ nul +:+ Password c))).

Definition keyFingerprint (key : string) : string := hex_encode (take 8 (sum256 (string_bytes key))).

(** ** The state *)

Record state := mkState { st_key : string; st_pending : list string; st_refused : list string }.

Definition is_hex (c : ascii) : bool := in_range 48 57 c || in_range 97 102 c || in_range 65 70 c.

(** [hex.DecodeString] succeeds and gives 32 bytes. *)
Definition is_mac (l : string) : bool :=
  forallb is_hex (to_bytes l) && (length (to_bytes l) =? 64)%nat.

(** [parseList]: the trimmed, non-empty lines, if each is a MAC. *)
Fixpoint parse_lines (ls : list string) : result gate_err (list string) :=
  match ls with
  | [] => inr []
  | l :: ls' =>
    let l := trim_space l in
    if bool_decide (l = "") then parse_lines ls'
    else if negb (is_mac l) then inl ErrStateCorrupt
    else match parse_lines ls' with inl e => inl e | inr out => inr (l :: out) end
  end.
Definition parseList (raw : string) : result gate_err (list string) := parse_lines (split_on newline raw).

(** The state and whether the Secret is empty. *)
Definition parseState (sec : Secret) : result gate_err (state * bool) :=
  let key := data_of sec "hmac-key" in
  let fp := data_of sec "key-fp" in
  if bool_decide (key = "") && bool_decide (fp = "") && bool_decide (trim_space (data_of sec "pending") = "")
     && bool_decide (trim_space (data_of sec "refused") = "")
  then inr (mkState "" [] [], true)
  else if negb (length (to_bytes key) =? 32)%nat then inl ErrStateCorrupt
  else if bool_decide (fp <> keyFingerprint key) then inl ErrStateCorrupt
  else match parseList (data_of sec "pending") with
       | inl e => inl e
       | inr pending =>
         match parseList (data_of sec "refused") with
         | inl e => inl e
         | inr refused => inr (mkState key pending refused, false)
         end
       end.

Definition contains (l : list string) (mac : string) : bool := existsb (fun x => bool_decide (x = mac)) l.

Definition bounded (l : list string) : list string :=
  if (MaxRefused <? length l)%nat then drop (length l - MaxRefused) l else l.

Definition print_state (st : state) (sec : Secret) : Secret :=
  mkSecret (<["refused" := join nl (bounded (st_refused st))]>
           (<["pending" := join nl (st_pending st)]>
           (<["key-fp" := keyFingerprint (st_key st)]>
           (<["hmac-key" := st_key st]> (sec_data sec))))) (sec_version sec).

(** ** The outside *)

(** The answer of http.Client.Do to the login POST: an error with whether the
    request had been written, or a response. [resp_code] and [resp_token] are
    the decoded "code" and "token" of its body, [None] when the body does not
    decode. *)
Inductive login_answer :=
| Failed (wrote : bool) (text : string)
| Answered (status : Z) (resp_code resp_token : option string).

Class GateWorld (W : Type) := {
  get_secret : St W (result (option string) Secret);  (* [inl None]: not found *)
  update_secret : Secret -> St W (option string);
  random_key : St W (result string string);
  http_login : Config -> St W login_answer
}.

(** What is relied on: the stored Secret after a read is the one read, after a
    successful Update the one written; a random key has 32 bytes; only
    [http_login] sends a login, one per call. *)
Class GateLaws (W : Type) `{GateWorld W} := {
  srv_secret : W -> option Secret;
  sent : W -> list Config;
  get_secret_spec w s w' : get_secret w = (inr s, w') -> srv_secret w' = Some s;
  update_secret_spec s w w' : update_secret s w = (None, w') ->
    exists s', srv_secret w' = Some s' /\ sec_data s' = sec_data s;
  random_key_spec w k w' : random_key w = (inr k, w') -> length (to_bytes k) = 32%nat;
  get_secret_sent w : sent (get_secret w).2 = sent w;
  update_secret_sent s w : sent (update_secret s w).2 = sent w;
  random_key_sent w : sent (random_key w).2 = sent w;
  http_login_sent c w : sent (http_login c w).2 = c :: sent w
}.

Section Gate.
Context {W : Type} `{GW : GateWorld W}.

Definition get : St W (result gate_err Secret) :=
  r ← get_secret;
  mret (match r with inl None => inl ErrStateMissing | inl (Some e) => inl (ErrOther e) | inr s => inr s end).

(** One round: [inl] ends it, [inr None] is done, [inr (Some e)] a failed write. *)
Definition update_round (generateKey : bool) (change : state -> result gate_err state) :
    St W (result gate_err (option string)) :=
  r ← get;
  match r with
  | inl e => mret (inl e)
  | inr sec =>
    match parseState sec with
    | inl e => mret (inl e)
    | inr (st, empty) =>
      if empty && negb generateKey then mret (inr None) else
      k ← (if empty then random_key else mret (inr (st_key st)));
      match k with
      | inl e => mret (inl (ErrOther e))
      | inr key =>
        match change (mkState key (st_pending st) (st_refused st)) with
        | inl e => mret (inl e)
        | inr st' => e ← update_secret (print_state st' sec); mret (inr e)
        end
      end
    end
  end.

(** [None] is success. *)
Fixpoint update_loop (n : nat) (generateKey : bool) (change : state -> result gate_err state) (last : string) :
    St W (option gate_err) :=
  match n with
  | O => mret (Some (ErrOther ("writing the state Secret: " +:+ last)))
  | S n =>
    r ← update_round generateKey change;
    match r with
    | inl e => mret (Some e)
    | inr None => mret None
    | inr (Some e) => update_loop n generateKey change e
    end
  end.
Definition update (generateKey : bool) (change : state -> result gate_err state) : St W (option gate_err) :=
  update_loop writeAttempts generateKey change "".

Definition begin_change (c : Config) (st : state) : result gate_err state :=
  let mac := accountMAC (st_key st) c in
  if contains (st_refused st) mac then inl ErrLoginRefusedBefore
  else if contains (st_pending st) mac then inl ErrLoginOutcomeUnknown
  else if (MaxRefused <=? length (st_pending st))%nat then inl ErrTooManyUnresolved
  else inr (mkState (st_key st) (st_pending st ++ [mac]) (st_refused st)).
Definition Begin (c : Config) : St W (option gate_err) := update true (begin_change c).

Definition without (mac : string) (l : list string) : list string := List.filter (fun x => negb (bool_decide (x = mac))) l.

Definition clear_change (c : Config) (st : state) : result gate_err state :=
  inr (mkState (st_key st) (without (accountMAC (st_key st) c) (st_pending st)) (st_refused st)).
Definition Succeeded (c : Config) : St W (option gate_err) := update false (clear_change c).
Definition NotSent (c : Config) : St W (option gate_err) := Succeeded c.

Definition refuse_change (c : Config) (st : state) : result gate_err state :=
  let mac := accountMAC (st_key st) c in
  inr (mkState (st_key st) (without mac (st_pending st))
         (if contains (st_refused st) mac then st_refused st else st_refused st ++ [mac])).
Definition Refused (c : Config) : St W (option gate_err) := update true (refuse_change c).

(** ** client.go *)

Inductive login_err := GateError (e : gate_err) | ErrAuthRefused | NotSentErr (text : string) | LoginFailed (text : string).

(** The token, or why there is none. *)
Definition doLogin (c : Config) : St W (result login_err string) :=
  r ← http_login c;
  mret (match r with
        | Failed wrote e => if wrote then inl (LoginFailed ("dashboard login: " +:+ e)) else inl (NotSentErr e)
        | Answered status code token =>
          if status =? 401 then inl ErrAuthRefused
          else if status =? 400 then
            if bool_decide (code = Some "invalid_credentials") then inl ErrAuthRefused
            else inl (LoginFailed "dashboard login: HTTP 400")
          else if negb (status =? 201) && negb (status =? 200) then inl (LoginFailed ("dashboard login: HTTP " +:+ itoa status))
          else match token with
               | Some t => if bool_decide (t = "") then inl (LoginFailed "dashboard login: no token in the answer") else inr t
               | None => inl (LoginFailed "dashboard login: no token in the answer")
               end
        end).

(** The result, and the gate error of recording it that setNote reports. *)
Definition login (c : Config) : St W (result login_err string * option gate_err) :=
  b ← Begin c;
  match b with
  | Some e => mret (inl (GateError e), None)
  | None =>
    r ← doLogin c;
    note ← (match r with
            | inr _ => Succeeded c
            | inl ErrAuthRefused => Refused c
            | inl (NotSentErr _) => NotSent c
            | inl _ => mret None
            end);
    mret (r, note)
  end.
End Gate.
