(* ===== verification/LoginGateSafety.v ===== *)
(** What the login gate guarantees: its state survives a write and a read, a
    login is only ever sent after its intention is stored, and a pending or
    refused account is never tried again. *)
From stdpp Require Import base tactics strings list gmap.
From Stdlib Require Import ZArith Lia Ascii.
From S2P Require Import Prelude GoLib Sha256 LoginGate.

Open Scope Z_scope.

(** ** MACs are MACs *)

Lemma hex2_ok z : octet z -> length (hex2 z) = 2%nat /\ forallb is_hex (hex2 z) = true.
Proof.
  intros Hz. split; [done|]. unfold hex2, octet in *.
  assert (forall d, 0 <= d < 16 -> is_hex (hex_digit d) = true) as Hd.
  { intros d Hd. assert (d ∈ map Z.of_nat (seq 0 16)) as Hin.
    { replace d with (Z.of_nat (Z.to_nat d)) by lia. apply list_elem_of_In, in_map, in_seq. lia. }
    assert (forallb (fun d => is_hex (hex_digit d)) (map Z.of_nat (seq 0 16)) = true) as Hall by (vm_compute; reflexivity).
    rewrite forallb_forall in Hall. apply Hall. by apply list_elem_of_In. }
  cbn [forallb]. rewrite !Hd; [done| |]; [apply Z.mod_pos_bound; lia|].
  split; [apply Z.div_pos; lia|]. apply Z.div_lt_upper_bound; lia.
Qed.

Lemma hex_encode_ok l : Forall octet l ->
  length (to_bytes (hex_encode l)) = (2 * length l)%nat /\ forallb is_hex (to_bytes (hex_encode l)) = true.
Proof.
  unfold hex_encode. rewrite to_of_bytes. induction 1 as [|z l Hz Hl [IH1 IH2]]; [done|]. cbn [flat_map].
  destruct (hex2_ok z Hz) as [H1 H2]. rewrite length_app, forallb_app, H1, H2, IH1, IH2. simpl. split; [lia|done].
Qed.

Lemma accountMAC_is_mac key c : is_mac (accountMAC key c) = true.
Proof.
  unfold is_mac, accountMAC, hmac256. cbv zeta.
  match goal with |- context [hex_encode (sum256 ?x)] => destruct (sum256_ok x) as [H1 H2]; set (h := sum256 x) in * end.
  destruct (hex_encode_ok h H2) as [H3 H4]. by rewrite H4, H3, H1.
Qed.

(** ** What is written is read back *)

Lemma is_hex_solid c : is_hex c = true -> solid c = true /\ Ascii.eqb c newline = false.
Proof. destruct c as [[] [] [] [] [] [] [] []]; vm_compute; auto. Qed.

Lemma is_mac_solid l : is_mac l = true ->
  Forall (fun c => solid c = true) (to_bytes l) /\ Forall (fun c => Ascii.eqb c newline = false) (to_bytes l) /\ l <> "".
Proof.
  intros H. unfold is_mac in H. apply andb_true_iff in H as [H1 H2]. rewrite forallb_forall in H1. split; [|split].
  - apply Forall_forall. intros c Hc. by apply is_hex_solid, H1, list_elem_of_In.
  - apply Forall_forall. intros c Hc. by apply is_hex_solid, H1, list_elem_of_In.
  - intros ->. done.
Qed.

Lemma parse_lines_macs l : Forall (fun x => is_mac x = true) l -> parse_lines l = inr l.
Proof.
  induction 1 as [|x l Hx Hl IH]; [done|]. cbn [parse_lines]. destruct (is_mac_solid x Hx) as (Hs & _ & Hne).
  rewrite trim_space_solid by done. rewrite bool_decide_false by done. rewrite Hx, IH. done.
Qed.

Lemma parseList_join l : Forall (fun x => is_mac x = true) l -> parseList (join nl l) = inr l.
Proof.
  intros Hl. unfold parseList. destruct l as [|x l]; [done|]. unfold nl. rewrite split_join; [by apply parse_lines_macs|done|].
  eapply Forall_impl; [exact Hl|]. intros y Hy. by apply is_mac_solid in Hy as (_ & ? & _).
Qed.

(** A state the gate may write: a full key and lists of MACs. *)
Definition wf_state (st : state) : Prop :=
  length (to_bytes (st_key st)) = 32%nat /\ Forall (fun x => is_mac x = true) (st_pending st) /\
  Forall (fun x => is_mac x = true) (st_refused st).

Lemma bounded_length l : (length (bounded l) <= MaxRefused)%nat.
Proof. unfold bounded. destruct (_ <? _)%nat eqn:E; [rewrite length_drop; lia|]. by apply Nat.ltb_ge in E. Qed.
Lemma bounded_sub l x : x ∈ bounded l -> x ∈ l.
Proof.
  unfold bounded. case_match; [|done]. intros Hx. rewrite <- (take_drop (length l - MaxRefused) l). apply elem_of_app. by right.
Qed.

(** The state survives storage. Whatever well-formed state a round writes
    into the Secret, over whatever the Secret held, strict validation accepts
    it and reads back the same key, the same pending list and the refused list
    cut to its 64 newest. *)
Theorem state_roundtrip st sec :
  wf_state st ->
  parseState (print_state st sec) = inr (mkState (st_key st) (st_pending st) (bounded (st_refused st)), false).
Proof.
  intros (Hk & Hp & Hr). unfold parseState, data_of, print_state. cbn [sec_data]. cbv zeta.
  rewrite !(lookup_insert_ne _ "refused") by done. rewrite !(lookup_insert_ne _ "pending") by done.
  rewrite !(lookup_insert_ne _ "key-fp") by done. rewrite !lookup_insert_eq. cbn [from_option id].
  rewrite bool_decide_false by (intros E; by rewrite E in Hk). cbn [andb].
  rewrite Hk. cbn [negb Nat.eqb]. rewrite bool_decide_false by (by intros []).
  rewrite parseList_join by done. rewrite parseList_join; [done|].
  apply Forall_forall. intros x Hx%bounded_sub. rewrite Forall_forall in Hr. by apply Hr.
Qed.

Lemma parse_lines_wf ls out : parse_lines ls = inr out -> Forall (fun x => is_mac x = true) out.
Proof.
  revert out. induction ls as [|l ls IH]; intros out; cbn [parse_lines]; [intros [= <-]; constructor|]. cbv zeta.
  case_bool_decide; [apply IH|]. destruct (is_mac (trim_space l)) eqn:Em; [|done]. cbn [negb].
  destruct (parse_lines ls) as [e|o]; [done|]. intros [= <-]. constructor; [done|]. by apply IH.
Qed.

Lemma parseState_wf sec st : parseState sec = inr (st, false) -> wf_state st.
Proof.
  unfold parseState. cbv zeta. destruct (_ && bool_decide (trim_space (data_of sec "refused") = "")); [done|].
  destruct (_ =? 32)%nat eqn:Ek; [|done]. cbn [negb].
  case_bool_decide; [done|]. destruct (parseList (data_of sec "pending")) as [e|p] eqn:Ep; [done|].
  destruct (parseList (data_of sec "refused")) as [e|r] eqn:Er; [done|]. intros [= <-].
  apply Nat.eqb_eq in Ek. split; [done|]. split; by eapply parse_lines_wf.
Qed.

Lemma parseState_empty sec st : parseState sec = inr (st, true) -> st = mkState "" [] [].
Proof.
  unfold parseState. cbv zeta. destruct (_ && bool_decide (trim_space (data_of sec "refused") = "")); [by intros [= <-]|].
  destruct (negb _); [done|]. case_bool_decide; [done|].
  by destruct (parseList (data_of sec "pending")), (parseList (data_of sec "refused")).
Qed.

Lemma parseState_data s s' : sec_data s = sec_data s' -> parseState s = parseState s'.
Proof. intros E. unfold parseState, data_of. by rewrite E. Qed.

Lemma contains_spec l mac : contains l mac = true <-> mac ∈ l.
Proof.
  unfold contains. rewrite existsb_exists. setoid_rewrite bool_decide_eq_true. setoid_rewrite <- list_elem_of_In. naive_solver.
Qed.

Section Safety.
Context {W : Type} `{GW : !GateWorld W} `{GL : !GateLaws W}.

(** The stored Secret holds the state [st]. *)
Definition stored (w : W) (st : state) : Prop :=
  exists s, srv_secret w = Some s /\ parseState s = inr (st, false).

(** A change that keeps the key and the lists well-formed. *)
Definition wf_change (change : state -> result gate_err state) : Prop :=
  forall st st', wf_state st -> change st = inr st' -> wf_state st'.

Lemma get_run w r w' : get w = (inr r, w') -> srv_secret w' = Some r /\ sent w' = sent w.
Proof.
  unfold get. rewrite St_bind_run. pose proof (get_secret_sent w) as Hs.
  destruct (get_secret w) as [[[e|]|s] w1] eqn:E; try done. intros [= <- <-]. split; [by eapply get_secret_spec|done].
Qed.
Lemma get_sent w : sent (get w).2 = sent w.
Proof. unfold get. rewrite St_bind_run. cbn. apply get_secret_sent. Qed.

(** A round that succeeds either found nothing to change, or stored the
    changed state. *)
Lemma update_round_success gen change w w' : wf_change change ->
  update_round gen change w = (inr None, w') ->
  (gen = false /\ exists s st, srv_secret w' = Some s /\ parseState s = inr (st, true)) \/
  exists st st', wf_state st /\ change st = inr st' /\
    stored w' (mkState (st_key st') (st_pending st') (bounded (st_refused st'))).
Proof.
  intros Hc. unfold update_round. rewrite St_bind_run. destruct (get w) as [[e|sec] w1] eqn:Eg; [done|].
  apply get_run in Eg as [Hsrv _]. cbn [fst snd]. destruct (parseState sec) as [e|[st empty]] eqn:Ep; [done|].
  destruct (empty && negb gen) eqn:Ee.
  { apply andb_true_iff in Ee as [-> Hg%negb_true_iff]. intros [= <-]. left. split; [done|]. by exists sec, st. }
  rewrite St_bind_run. destruct ((if empty then random_key else mret (inr (st_key st))) w1) as [[e|key] w2] eqn:Ek; [done|].
  cbn [fst snd]. assert (Hwf : wf_state (mkState key (st_pending st) (st_refused st))).
  { destruct empty.
    - rewrite (parseState_empty _ _ Ep). split; [by eapply random_key_spec|]. split; constructor.
    - injection Ek as <- _. apply parseState_wf in Ep as (? & ? & ?). by split. }
  destruct (change _) as [e|st'] eqn:Ech; [done|]. rewrite St_bind_run.
  destruct (update_secret _ w2) as [e w3] eqn:Eu. intros [= -> <-]. right. exists (mkState key (st_pending st) (st_refused st)), st'.
  split; [done|]. split; [done|]. apply update_secret_spec in Eu as (s' & Hs' & Hd). exists s'. split; [done|].
  rewrite (parseState_data _ _ Hd). apply state_roundtrip. by eapply Hc.
Qed.

Lemma update_success gen change w w' : wf_change change ->
  update gen change w = (None, w') ->
  (gen = false /\ exists s st, srv_secret w' = Some s /\ parseState s = inr (st, true)) \/
  exists st st', wf_state st /\ change st = inr st' /\
    stored w' (mkState (st_key st') (st_pending st') (bounded (st_refused st'))).
Proof.
  intros Hc. unfold update. generalize "" as last. generalize writeAttempts as n. intros n. revert w.
  induction n as [|n IH]; intros w last; cbn [update_loop]; [done|]. rewrite St_bind_run.
  destruct (update_round gen change w) as [[e|[e|]] w1] eqn:E; [done|apply IH|]. intros [= <-].
  by apply (update_round_success gen change w).
Qed.

Lemma update_sent gen change w : sent (update gen change w).2 = sent w.
Proof.
  unfold update. generalize "" as last. generalize writeAttempts as n. intros n. revert w.
  assert (forall w, sent (update_round gen change w).2 = sent w) as Hr.
  { intros w. unfold update_round. rewrite St_bind_run. pose proof (get_sent w) as Hg.
    destruct (get w) as [[e|sec] w1]; [done|]. cbn [fst snd] in *. destruct (parseState sec) as [e|[st empty]]; [done|].
    case_match; [done|]. rewrite St_bind_run.
    assert (sent ((if empty then random_key else mret (inr (st_key st))) w1).2 = sent w) as Hk.
    { rewrite <- Hg. destruct empty; [apply random_key_sent|done]. }
    destruct ((if empty then random_key else mret (inr (st_key st))) w1) as [[e|key] w2]; [done|]. cbn [fst snd] in *. case_match; [done|].
    rewrite St_bind_run. cbn. by rewrite update_secret_sent. }
  induction n as [|n IH]; intros w last; cbn [update_loop]; [done|]. rewrite St_bind_run. specialize (Hr w).
  destruct (update_round gen change w) as [[e|[e|]] w1]; cbn [fst snd] in *; [done| |done]. by rewrite IH.
Qed.

Lemma begin_wf c : wf_change (begin_change c).
Proof.
  intros st st' (Hk & Hp & Hr). unfold begin_change. cbv zeta. repeat (case_match; [done|]). intros [= <-].
  split; [done|]. split; [|done]. apply Forall_app. split; [done|]. constructor; [apply accountMAC_is_mac|constructor].
Qed.
Lemma without_sub mac l x : x ∈ without mac l <-> x <> mac /\ x ∈ l.
Proof. unfold without. rewrite !list_elem_of_In, filter_In, negb_true_iff, bool_decide_eq_false. tauto. Qed.
Lemma without_wf mac l : Forall (fun x => is_mac x = true) l -> Forall (fun x => is_mac x = true) (without mac l).
Proof. intros H. apply Forall_forall. intros x [_ Hx]%without_sub. rewrite Forall_forall in H. by apply H. Qed.
Lemma clear_wf c : wf_change (clear_change c).
Proof. intros st st' (Hk & Hp & Hr) [= <-]. split; [done|]. split; [|done]. by apply without_wf. Qed.
Lemma refuse_wf c : wf_change (refuse_change c).
Proof.
  intros st st' (Hk & Hp & Hr) [= <-]. split; [done|]. split; [by apply without_wf|]. cbn [st_refused]. case_match; [done|].
  apply Forall_app. split; [done|]. constructor; [apply accountMAC_is_mac|constructor].
Qed.

(** The intention to log in with [c] is stored, in a state strict validation
    accepts and within its bounds. *)
Definition intended (w : W) (c : Config) : Prop :=
  exists st, stored w st /\ accountMAC (st_key st) c ∈ st_pending st /\ accountMAC (st_key st) c ∉ st_refused st /\
    (length (st_pending st) <= MaxRefused)%nat /\ (length (st_refused st) <= MaxRefused)%nat.

Lemma Begin_intended c w w' : Begin c w = (None, w') -> intended w' c.
Proof.
  intros H. destruct (update_success _ _ _ _ (begin_wf c) H) as [[? _]|(st & st' & Hwf & Hc & Hs)]; [done|].
  unfold begin_change in Hc. cbv zeta in Hc. destruct (contains (st_refused st) _) eqn:E1; [done|].
  destruct (contains (st_pending st) _); [done|]. destruct (MaxRefused <=? _)%nat eqn:E3; [done|]. injection Hc as <-.
  eexists. split; [exact Hs|]. cbn [st_key st_pending st_refused]. split; [apply elem_of_app; right; by left|]. split.
  - intros Hin%bounded_sub. apply contains_spec in Hin. congruence.
  - split; [|apply bounded_length]. apply Nat.leb_gt in E3. rewrite length_app. simpl. lia.
Qed.

(** Write-ahead. A call to login sends at most one login request, and when
    it sends one, the intention was stored first: at that moment the Secret
    validates, lists the account as pending and not as refused, and is within
    its bounds. When the gate says no, nothing is sent. *)
Theorem login_after_intention c w r note w' :
  login c w = ((r, note), w') ->
  (sent w' = sent w /\ exists e, r = inl (GateError e)) \/
  (sent w' = c :: sent w /\ exists w1, Begin c w = (None, w1) /\ intended w1 c /\ sent w1 = sent w).
Proof.
  unfold login. rewrite St_bind_run. pose proof (update_sent true (begin_change c) w) as Hs. fold (Begin c) in Hs.
  destruct (Begin c w) as [[e|] w1] eqn:Eb; cbn [fst snd] in *; [intros [= <- _ <-]; left; eauto|].
  rewrite St_bind_run.
  assert (sent (doLogin c w1).2 = c :: sent w1) as Hl by (unfold doLogin; rewrite St_bind_run; apply http_login_sent).
  destruct (doLogin c w1) as [r0 w2]; cbn [fst snd] in *. rewrite St_bind_run. intros [= _ _ <-]. right.
  split; [|exists w1; split; [done|]; split; [by eapply Begin_intended|done]].
  rewrite <- Hs, <- Hl. repeat case_match; try done; apply update_sent.
Qed.

(** The gate refuses [c] on this Secret: it does not validate, or it knows the
    account's credentials, or too many outcomes are unknown. *)
Definition forbids (sec : Secret) (c : Config) : Prop :=
  match parseState sec with
  | inl _ => True
  | inr (_, true) => False
  | inr (st, false) => accountMAC (st_key st) c ∈ st_refused st \/ accountMAC (st_key st) c ∈ st_pending st \/
                       (MaxRefused <= length (st_pending st))%nat
  end.

(** A blocked account is never tried. When the Secret read back is missing
    or corrupt, or lists these credentials as pending or refused, or has a
    full pending list, login returns a gate error after that one read: it
    sends nothing and writes nothing. The URL plays no part in it. *)
Theorem blocked_never_tried c w r w1 :
  get_secret w = (r, w1) -> (forall sec, r = inr sec -> forbids sec c) ->
  exists e, login c w = ((inl (GateError e), None), w1) /\ sent w1 = sent w.
Proof.
  intros Hg Hf. assert (exists e, Begin c w = (Some e, w1)) as [e Hb].
  { unfold Begin, update, writeAttempts. cbn [update_loop]. rewrite St_bind_run. unfold update_round, get.
    rewrite !St_bind_run, Hg. cbn [fst snd mret St_ret]. destruct r as [[e|]|sec]; [by eexists..|].
    specialize (Hf sec eq_refl). unfold forbids in Hf. destruct (parseState sec) as [e|[st []]]; [by eexists|done|].
    cbn [andb]. rewrite St_bind_run. cbn [fst snd mret St_ret]. unfold begin_change. cbn [st_key st_refused st_pending].
    destruct (contains (st_refused st) _) eqn:E1; [by eexists|]. destruct (contains (st_pending st) _) eqn:E2; [by eexists|].
    destruct (MaxRefused <=? _)%nat eqn:E3; [by eexists|]. exfalso. rewrite <- !contains_spec in Hf.
    apply Nat.leb_gt in E3. destruct Hf as [?|[?|?]]; [congruence..|lia]. }
  exists e. split; [unfold login; by rewrite St_bind_run, Hb|].
  pose proof (get_secret_sent w) as Hs. by rewrite Hg in Hs.
Qed.

(** A refusal is on record: the account is among the refused, unless the
    Secret already listed it in a list longer than the gate ever writes. *)
Definition refusal_recorded (st : state) (mac : string) : Prop :=
  mac ∈ st_refused st \/ exists old, (MaxRefused < length old)%nat /\ mac ∈ old /\ st_refused st = bounded old.

Lemma bounded_last l x : x ∈ bounded (l ++ [x]).
Proof.
  unfold bounded. rewrite length_app. cbn [length]. destruct (_ <? _)%nat eqn:E; [|apply elem_of_app; right; by left].
  apply Nat.ltb_lt in E. rewrite drop_app_le; [apply elem_of_app; right; by left|]. unfold MaxRefused in *. lia.
Qed.

Lemma Refused_recorded c w w' : Refused c w = (None, w') ->
  exists st, stored w' st /\ refusal_recorded st (accountMAC (st_key st) c) /\ accountMAC (st_key st) c ∉ st_pending st.
Proof.
  intros H. destruct (update_success _ _ _ _ (refuse_wf c) H) as [[? _]|(st & st' & _ & Hc & Hs)]; [done|].
  eexists. split; [exact Hs|]. injection Hc as <-. cbn [st_key st_pending st_refused]. split; [|by intros [? _]%without_sub].
  unfold refusal_recorded. cbn [st_refused]. destruct (contains (st_refused st) _) eqn:E; [|left; apply bounded_last].
  apply contains_spec in E. destruct (decide (MaxRefused < length (st_refused st))%nat); [right; eauto|left].
  unfold bounded. assert ((MaxRefused <? length (st_refused st))%nat = false) as -> by (by apply Nat.ltb_nlt). done.
Qed.

Lemma Succeeded_recorded c w w' : Succeeded c w = (None, w') ->
  (exists st, stored w' st /\ accountMAC (st_key st) c ∉ st_pending st) \/
  (exists s st, srv_secret w' = Some s /\ parseState s = inr (st, true)).
Proof.
  intros H. destruct (update_success _ _ _ _ (clear_wf c) H) as [[_ ?]|(st & st' & _ & Hc & Hs)]; [by right|left].
  eexists. split; [exact Hs|]. injection Hc as <-. cbn [st_key st_pending]. by intros [? _]%without_sub.
Qed.

(** Outcomes are recorded. After a refusal that could be recorded, the
    account is among the refused and no longer pending; after a success, or a
    request that never left, that could be recorded, it is no longer pending
    (or the Secret was emptied meanwhile); after anything else nothing more is
    written, so the intention written first stays. *)
Theorem login_outcome_recorded c w r w' :
  login c w = ((r, None), w') ->
  match r with
  | inl (GateError _) => sent w' = sent w
  | inl ErrAuthRefused =>
      exists st, stored w' st /\ refusal_recorded st (accountMAC (st_key st) c) /\ accountMAC (st_key st) c ∉ st_pending st
  | inr _ | inl (NotSentErr _) =>
      (exists st, stored w' st /\ accountMAC (st_key st) c ∉ st_pending st) \/
      (exists s st, srv_secret w' = Some s /\ parseState s = inr (st, true))
  | inl (LoginFailed _) => exists w1, Begin c w = (None, w1) /\ intended w1 c /\ w' = (http_login c w1).2
  end.
Proof.
  unfold login. rewrite St_bind_run. pose proof (update_sent true (begin_change c) w) as Hs. fold (Begin c) in Hs.
  destruct (Begin c w) as [[e|] w1] eqn:Eb; cbn [fst snd] in *; [by intros [= <- <-]|]. rewrite St_bind_run.
  assert ((doLogin c w1).2 = (http_login c w1).2) as Hw by (unfold doLogin; rewrite St_bind_run; done).
  assert (forall e, (doLogin c w1).1 <> inl (GateError e)) as Hng.
  { intros e. unfold doLogin. rewrite St_bind_run. cbn [fst mret St_ret]. by repeat case_match. }
  destruct (doLogin c w1) as [[e|tok] w2]; cbn [fst snd] in *; rewrite St_bind_run.
  - destruct e as [e| | |]; [by destruct (Hng e)|..].
    + intros [= <- Hn <-]. apply (Refused_recorded c w2). rewrite <- Hn. apply surjective_pairing.
    + intros [= <- Hn <-]. apply (Succeeded_recorded c w2). rewrite <- Hn. apply surjective_pairing.
    + intros [= <- <-]. exists w1. split; [done|]. split; [by eapply Begin_intended|done].
  - intros [= <- Hn <-]. apply (Succeeded_recorded c w2). rewrite <- Hn. apply surjective_pairing.
Qed.
End Safety.

(** ** A world for the concrete runs *)

Record GWorld := mkGWorld { gw_secret : option Secret; gw_answers : list login_answer; gw_sent : list Config }.

Definition demo_key : string := "0123456789abcdef0123456789abcdef".

#[local] Instance gw_ops : GateWorld GWorld := {|
  get_secret w := (match gw_secret w with Some s => inr s | None => inl None end, w);
  update_secret s w := match gw_secret w with
                       | Some _ => (None, mkGWorld (Some s) (gw_answers w) (gw_sent w))
                       | None => (Some "not found", w)
                       end;
  random_key w := (inr demo_key, w);
  http_login c w := match gw_answers w with
                    | a :: l => (a, mkGWorld (gw_secret w) l (c :: gw_sent w))
                    | [] => (Failed true "timeout", mkGWorld (gw_secret w) [] (c :: gw_sent w))
                    end
|}.

#[local] Instance gw_laws : GateLaws GWorld.
Proof.
  refine {| srv_secret := gw_secret; sent := gw_sent |}; try done.
  - intros w s w'. simpl. destruct (gw_secret w) eqn:E; by intros [= -> <-].
  - intros s w w'. simpl. destruct (gw_secret w); [|done]. intros [= <-]. by exists s.
  - intros w k w' [= <- _]. reflexivity.
  - intros s w. simpl. by destruct (gw_secret w).
  - intros c w. simpl. by destruct (gw_answers w).
Defined.

Definition demo_account : Config := mkConfig "https://ceph:8443" "frame" "secret".
Definition demo_gate (answers : list login_answer) : GWorld := mkGWorld (Some (mkSecret ∅ "1")) answers [].

Lemma state_roundtrip_witness :
  parseState (print_state (mkState demo_key [accountMAC demo_key demo_account] []) (mkSecret ∅ "1")) =
  inr (mkState demo_key [accountMAC demo_key demo_account] [], false).
Proof.
  apply (state_roundtrip (mkState demo_key [accountMAC demo_key demo_account] []) (mkSecret ∅ "1")).
  split; [reflexivity|]. split; [constructor; [apply accountMAC_is_mac|constructor]|constructor].
Defined.

Definition demo_logged_in : (result login_err string * option gate_err) * GWorld :=
  login demo_account (demo_gate [Answered 201 None (Some "tok")]).

Lemma login_after_intention_witness :
  demo_logged_in.1 = (inr "tok", None) /\ sent demo_logged_in.2 = [demo_account] /\
  exists w1, Begin demo_account (demo_gate [Answered 201 None (Some "tok")]) = (None, w1) /\ intended w1 demo_account.
Proof.
  assert (H : demo_logged_in.1 = (inr "tok", None)) by (vm_compute; reflexivity). split; [exact H|].
  destruct (login_after_intention demo_account (demo_gate [Answered 201 None (Some "tok")]) (inr "tok") None demo_logged_in.2)
    as [(_ & e & He)|(Hs & w1 & Hb & Hi & _)].
  - rewrite <- H. apply surjective_pairing.
  - discriminate He.
  - split; [exact Hs|]. exists w1. split; [exact Hb|exact Hi].
Defined.

(** After a login whose answer was lost, the same credentials at another URL
    are refused. *)
Definition after_timeout : GWorld := (login demo_account (demo_gate [Failed true "timeout"])).2.

Lemma blocked_never_tried_witness :
  sent after_timeout = [demo_account] /\
  exists e w1, login (mkConfig "https://10.0.0.1:8443/" "frame" "secret") after_timeout = ((inl (GateError e), None), w1) /\
    sent w1 = [demo_account].
Proof.
  split; [vm_compute; reflexivity|].
  destruct (blocked_never_tried (mkConfig "https://10.0.0.1:8443/" "frame" "secret") after_timeout
    (get_secret after_timeout).1 (get_secret after_timeout).2) as (e & H1 & H2).
  - apply surjective_pairing.
  - intros sec Hsec. assert (match (get_secret after_timeout).1 with
      | inr s => match parseState s with
                 | inr (st, false) => contains (st_pending st) (accountMAC (st_key st) (mkConfig "https://10.0.0.1:8443/" "frame" "secret"))
                 | _ => false end
      | inl _ => false end = true) as Hc by (vm_compute; reflexivity).
    rewrite Hsec in Hc. unfold forbids. destruct (parseState sec) as [|[st []]]; try done. right. left. by apply contains_spec.
  - exists e, (get_secret after_timeout).2. split; [exact H1|]. rewrite H2. vm_compute. reflexivity.
Defined.

Definition demo_refused : (result login_err string * option gate_err) * GWorld :=
  login demo_account (demo_gate [Answered 400 (Some "invalid_credentials") None]).

Lemma login_outcome_recorded_witness :
  exists st, stored demo_refused.2 st /\ refusal_recorded st (accountMAC (st_key st) demo_account) /\
    accountMAC (st_key st) demo_account ∉ st_pending st.
Proof.
  assert (H : demo_refused.1 = (inl ErrAuthRefused, None)) by (vm_compute; reflexivity).
  apply (login_outcome_recorded demo_account (demo_gate [Answered 400 (Some "invalid_credentials") None]) (inl ErrAuthRefused) demo_refused.2).
  rewrite <- H. apply surjective_pairing.
Defined.
