(* ===== verification/GoJson.v ===== *)
(** encoding/json as the code uses it: the JSON values, the text Marshal
    writes for one (compact, with HTML escaping), the text Unmarshal accepts,
    and the theorem that the second reads back what the first wrote. How a
    struct becomes a value is its tags', and is defined beside the struct. *)
From stdpp Require Import base tactics strings list.
From Stdlib Require Import Ascii ZArith Lia.
From S2P Require Import Prelude GoLib.

Open Scope Z_scope.

(** A number is kept as its literal. *)
Inductive json : Type :=
| JNull
| JBool (b : bool)
| JNum (lit : bytes)
| JStr (s : string)
| JArr (l : list json)
| JObj (l : list (string * json)).

(** ** Marshal *)

Definition dquote : ascii := byte 34.
Definition backslash : ascii := byte 92.

(** encoding/json's appendString: quotes, backslashes, control characters and
    the HTML ones are escaped, so are U+2028 and U+2029, and a byte that is
    not UTF-8 becomes an escaped U+FFFD. *)
Definition escape_ascii (c : ascii) : bytes :=
  let z := byteZ c in
  if (z =? 34) || (z =? 92) then [backslash; c]
  else if z =? 8 then to_bytes "\b"
  else if z =? 12 then to_bytes "\f"
  else if z =? 10 then to_bytes "\n"
  else if z =? 13 then to_bytes "\r"
  else if z =? 9 then to_bytes "\t"
  else if (z <? 32) || (z =? 60) || (z =? 62) || (z =? 38) then to_bytes "\u00" ++ hex2 z
  else [c].
Definition escape_rune (r : rune) : bytes :=
  match r with
  | RuneInvalid _ => to_bytes "\ufffd"
  | RuneBytes [c] => escape_ascii c
  | RuneBytes b =>
    if bool_decide (b = [byte 226; byte 128; byte 168]) then to_bytes "\u2028"
    else if bool_decide (b = [byte 226; byte 128; byte 169]) then to_bytes "\u2029"
    else b
  end.
Definition print_string (s : string) : bytes :=
  dquote :: concat (map escape_rune (runes s)) ++ [dquote].

Fixpoint commas (l : list bytes) : bytes :=
  match l with
  | [] => []
  | [x] => x
  | x :: l' => x ++ ","%char :: commas l'
  end.

Fixpoint print (v : json) : bytes :=
  match v with
  | JNull => to_bytes "null"
  | JBool true => to_bytes "true"
  | JBool false => to_bytes "false"
  | JNum lit => lit
  | JStr s => print_string s
  | JArr l => "["%char :: commas (map print l) ++ ["]"%char]
  | JObj l => "{"%char :: commas (map (fun '(k, v) => print_string k ++ ":"%char :: print v) l) ++ ["}"%char]
  end.

(** ** Unmarshal *)

Definition hex_val (c : ascii) : option Z :=
  if in_range 48 57 c then Some (byteZ c - 48)
  else if in_range 97 102 c then Some (byteZ c - 87)
  else if in_range 65 70 c then Some (byteZ c - 55) else None.

(** getu4: the four hexadecimal digits of an escape. *)
Definition getu4 (l : bytes) : option (Z * bytes) :=
  match l with
  | a :: b :: c :: d :: t =>
    a ← hex_val a; b ← hex_val b; c ← hex_val c; d ← hex_val d;
    Some (a * 4096 + b * 256 + c * 16 + d, t)
  | _ => None
  end.

(** [utf8.AppendRune]. *)
Definition utf8_encode (z : Z) : bytes :=
  if z <? 128 then [byteN z]
  else if z <? 2048 then [byteN (192 + z `div` 64); byteN (128 + z `mod` 64)]
  else if z <? 65536 then [byteN (224 + z `div` 4096); byteN (128 + (z `div` 64) `mod` 64); byteN (128 + z `mod` 64)]
  else [byteN (240 + z `div` 262144); byteN (128 + (z `div` 4096) `mod` 64); byteN (128 + (z `div` 64) `mod` 64); byteN (128 + z `mod` 64)].
Definition replacement : bytes := [byte 239; byte 191; byte 189].

Definition high_surrogate (u : Z) : bool := (55296 <=? u) && (u <? 56320).
Definition low_surrogate (u : Z) : bool := (56320 <=? u) && (u <? 57344).

(** What follows [\u]: a surrogate pair is one rune, and a surrogate alone
    is U+FFFD. *)
Definition unescape_u (l : bytes) : option (bytes * bytes) :=
  '(u, t) ← getu4 l;
  if high_surrogate u || low_surrogate u then
    match t with
    | b :: c :: t2 =>
      if Ascii.eqb b backslash && Ascii.eqb c "u" then
        match getu4 t2 with
        | Some (u2, t3) =>
          if high_surrogate u && low_surrogate u2
          then Some (utf8_encode (65536 + (u - 55296) * 1024 + (u2 - 56320)), t3)
          else Some (replacement, t)
        | None => Some (replacement, t)
        end
      else Some (replacement, t)
    | _ => Some (replacement, t)
    end
  else Some (utf8_encode u, t).

(** What follows a backslash. *)
Definition unescape (l : bytes) : option (bytes * bytes) :=
  match l with
  | [] => None
  | c :: t =>
    if Ascii.eqb c dquote || Ascii.eqb c backslash || Ascii.eqb c "/" then Some ([c], t)
    else if Ascii.eqb c "b" then Some ([byte 8], t)
    else if Ascii.eqb c "f" then Some ([byte 12], t)
    else if Ascii.eqb c "n" then Some ([byte 10], t)
    else if Ascii.eqb c "r" then Some ([byte 13], t)
    else if Ascii.eqb c "t" then Some ([byte 9], t)
    else if Ascii.eqb c "u" then unescape_u t
    else None
  end.

(** A string after its opening quote: its bytes, and what is after the
    closing one. Every step takes a byte, so the length is fuel enough. *)
Fixpoint scan_string (n : nat) (l : bytes) : option (bytes * bytes) :=
  match n, l with
  | S n, c :: t =>
    if Ascii.eqb c dquote then Some ([], t)
    else if Ascii.eqb c backslash then
      '(b, t') ← unescape t; '(s, r) ← scan_string n t'; Some (b ++ s, r)
    else if byteZ c <? 32 then None
    else '(b, t') ← next_rune l; '(s, r) ← scan_string n t'; Some (encode_rune b ++ s, r)
  | _, _ => None
  end.
Definition parse_string (l : bytes) : option (string * bytes) :=
  '(s, r) ← scan_string (length l) l; Some (of_bytes s, r).

Definition is_ws (c : ascii) : bool := existsb (Ascii.eqb c) (map byte [32; 9; 10; 13]%N).
Fixpoint skip_ws (l : bytes) : bytes :=
  match l with c :: t => if is_ws c then skip_ws t else l | [] => [] end.

(** The number literals of the grammar: the longest run of the bytes a number
    may have is one, or the text is refused. *)
Definition is_digit (c : ascii) : bool := in_range 48 57 c.
Definition num_byte (c : ascii) : bool := is_digit c || existsb (Ascii.eqb c) (to_bytes "+-.eE").
Fixpoint span (p : ascii -> bool) (l : bytes) : bytes * bytes :=
  match l with
  | c :: t => if p c then let '(a, b) := span p t in (c :: a, b) else ([], l)
  | [] => ([], [])
  end.
Definition valid_exp (l : bytes) : bool :=
  match l with
  | [] => true
  | c :: t =>
    (Ascii.eqb c "e" || Ascii.eqb c "E") &&
    let t := match t with s :: t' => if Ascii.eqb s "+" || Ascii.eqb s "-" then t' else t | [] => t end in
    negb (bool_decide (t = [])) && forallb is_digit t
  end.
Definition valid_frac (l : bytes) : bool :=
  match l with
  | c :: t => if Ascii.eqb c "." then let '(ds, r) := span is_digit t in negb (bool_decide (ds = [])) && valid_exp r
              else valid_exp l
  | [] => true
  end.
Definition valid_num (l : bytes) : bool :=
  let l := match l with c :: t => if Ascii.eqb c "-" then t else l | [] => l end in
  match l with
  | c :: t => if Ascii.eqb c "0" then valid_frac t
              else if is_digit c then valid_frac (span is_digit t).2 else false
  | [] => false
  end.

Definition maxNestingDepth : Z := 10000.

(** [d] is the number of arrays and objects that are open. *)
Fixpoint parse_value (n : nat) (d : Z) (l : bytes) : option (json * bytes) :=
  match n with
  | O => None
  | S n =>
    match skip_ws l with
    | [] => None
    | c :: t =>
      if Ascii.eqb c dquote then '(s, r) ← parse_string t; Some (JStr s, r)
      else if Ascii.eqb c "[" then
        if maxNestingDepth <=? d then None else
        match skip_ws t with
        | [] => None
        | e :: r => if Ascii.eqb e "]" then Some (JArr [], r)
                    else '(vs, r) ← parse_elems n (d + 1) t; Some (JArr vs, r)
        end
      else if Ascii.eqb c "{" then
        if maxNestingDepth <=? d then None else
        match skip_ws t with
        | [] => None
        | e :: r => if Ascii.eqb e "}" then Some (JObj [], r)
                    else '(ms, r) ← parse_members n (d + 1) t; Some (JObj ms, r)
        end
      else if Ascii.eqb c "n" then r ← strip_prefix (to_bytes "ull") t; Some (JNull, r)
      else if Ascii.eqb c "t" then r ← strip_prefix (to_bytes "rue") t; Some (JBool true, r)
      else if Ascii.eqb c "f" then r ← strip_prefix (to_bytes "alse") t; Some (JBool false, r)
      else let '(lit, r) := span num_byte (c :: t) in
           if valid_num lit then Some (JNum lit, r) else None
    end
  end
with parse_elems (n : nat) (d : Z) (l : bytes) : option (list json * bytes) :=
  match n with
  | O => None
  | S n =>
    '(v, t) ← parse_value n d l;
    match skip_ws t with
    | c :: t' => if Ascii.eqb c "," then '(vs, r) ← parse_elems n d t'; Some (v :: vs, r)
                 else if Ascii.eqb c "]" then Some ([v], t') else None
    | [] => None
    end
  end
with parse_members (n : nat) (d : Z) (l : bytes) : option (list (string * json) * bytes) :=
  match n with
  | O => None
  | S n =>
    match skip_ws l with
    | q :: t =>
      if Ascii.eqb q dquote then
        '(k, t1) ← parse_string t;
        match skip_ws t1 with
        | co :: t2 =>
          if Ascii.eqb co ":" then
            '(v, t3) ← parse_value n d t2;
            match skip_ws t3 with
            | c :: t' => if Ascii.eqb c "," then '(ms, r) ← parse_members n d t'; Some ((k, v) :: ms, r)
                         else if Ascii.eqb c "}" then Some ([(k, v)], t') else None
            | [] => None
            end
          else None
        | [] => None
        end
      else None
    | [] => None
    end
  end.

(** The whole text is one value, with white space around it. Every call of the
    three functions above that does not end takes a byte, but the one of
    [parse_elems] into [parse_value]: twice the length is fuel enough. *)
Definition parse (s : string) : option json :=
  let l := to_bytes s in
  '(v, r) ← parse_value (2 * length l + 2)%nat 0 l;
  if bool_decide (skip_ws r = []) then Some v else None.

Example parse_text_ex :
  parse (of_bytes (to_bytes " {" ++ [dquote] ++ to_bytes "a\u00e9\ud83d\ude00" ++ [dquote] ++ to_bytes " : [1,-2.5e3 ,null,true, {}]} ")) =
  Some (JObj [(of_bytes [byte 97; byte 195; byte 169; byte 240; byte 159; byte 152; byte 128],
               JArr [JNum (to_bytes "1"); JNum (to_bytes "-2.5e3"); JNull; JBool true; JObj []])]) /\
  map (fun s => bool_decide (parse s = None)) ["01"; "1.";  "[1,]"; "{}x"; "truex"; "nul"; ""; "1-2"] = replicate 8 true.
Proof. vm_compute. split; reflexivity. Qed.

(** ** Strings round trip *)

Definition decoded (r : rune) : Prop := exists l l', next_rune l = Some (r, l').

(** A rune outside ASCII is written as it is and read back by the UTF-8
    decoder; the others are a matter of computation. *)
Lemma scan_rune r n tl : decoded r ->
  scan_string (S n) (escape_rune r ++ tl) =
  '(s, r') ← scan_string n tl; Some (encode_rune r ++ s, r').
Proof.
  intros (l & l' & Hr). pose proof (next_rune_encode _ _ _ tl Hr) as He.
  destruct r as [b|c]; [|reflexivity].
  destruct l as [|c0 r0]; [done|]. unfold next_rune in Hr. simpl escape_rune. simpl encode_rune.
  destruct (byteZ c0 <? 128) eqn:H0.
  { simplify_eq. clear He. destruct c0 as [[] [] [] [] [] [] [] []]; try discriminate H0; reflexivity. }
  assert (exists c1 t, b = c0 :: c1 :: t) as (c1 & t & ->) by (repeat break_match_in Hr; simplify_eq; eauto).
  clear Hr. simpl in He |- *.
  case_bool_decide as E1; [simplify_eq; reflexivity|].
  case_bool_decide as E2; [simplify_eq; reflexivity|].
  apply Z.ltb_ge in H0. simpl.
  assert (Ascii.eqb c0 dquote = false /\ Ascii.eqb c0 backslash = false /\ (byteZ c0 <? 32) = false) as (-> & -> & ->).
  { repeat split; [apply Ascii.eqb_neq; intros ->; by vm_compute in H0..|apply Z.ltb_ge; lia]. }
  simpl in He. rewrite He. reflexivity.
Qed.

Lemma scan_escaped rs n rest : Forall decoded rs -> (length rs < n)%nat ->
  scan_string n (concat (map escape_rune rs) ++ dquote :: rest) = Some (concat (map encode_rune rs), rest).
Proof.
  intros HF. revert n. induction HF as [|r rs Hr HF IH]; intros n Hn; (destruct n as [|n]; [simpl in Hn; lia|]).
  - reflexivity.
  - simpl concat. rewrite <- app_assoc, scan_rune by done. rewrite IH by (simpl in Hn; lia). done.
Qed.

Lemma escape_rune_nonempty r : decoded r -> (1 <= length (escape_rune r))%nat.
Proof.
  intros (l & l' & Hr). destruct r as [b|c]; [|simpl; lia]. pose proof (encode_rune_nonempty _ _ _ Hr) as Hn.
  simpl in Hn. destruct b as [|c [|c1 t]]; [simpl in Hn; lia| |].
  - simpl. unfold escape_ascii. repeat case_match; simpl; lia.
  - unfold escape_rune. repeat case_match; simpl; lia.
Qed.

Lemma length_escaped rs : Forall decoded rs -> (length rs <= length (concat (map escape_rune rs)))%nat.
Proof.
  induction 1 as [|r rs Hr HF IH]; simpl; [lia|]. rewrite length_app.
  pose proof (escape_rune_nonempty r Hr). lia.
Qed.

(** Marshal of a valid string, read back: any text may follow. *)
Lemma parse_print_string s rest : valid_utf8 (to_bytes s) = true ->
  parse_string (concat (map escape_rune (runes s)) ++ dquote :: rest) = Some (s, rest).
Proof.
  intros Hv. unfold parse_string. pose proof (runes_fuel_decoded (length (to_bytes s)) (to_bytes s)) as HF.
  rewrite scan_escaped; [|done|].
  - simpl. unfold runes. rewrite decoded_whole by done. by rewrite of_to_bytes.
  - rewrite length_app. pose proof (length_escaped _ HF). unfold runes in *. simpl. lia.
Qed.

(** ** Values round trip *)

(** What Marshal can be given: strings of UTF-8 and number literals. *)
Fixpoint json_ok (v : json) : bool :=
  match v with
  | JNull | JBool _ => true
  | JNum lit => valid_num lit && forallb num_byte lit
  | JStr s => valid_utf8 (to_bytes s)
  | JArr l => forallb json_ok l
  | JObj l => forallb (fun '(k, v) => valid_utf8 (to_bytes k) && json_ok v) l
  end.

Definition max_of (l : list Z) : Z := foldr Z.max 0 l.
(** The arrays and objects open at the deepest place. *)
Fixpoint depth (v : json) : Z :=
  match v with
  | JArr l => 1 + max_of (map depth l)
  | JObj l => 1 + max_of (map (fun '(_, v) => depth v) l)
  | _ => 0
  end.

(** The fuel a value takes. *)
Definition list_size (l : list nat) : nat := foldr (fun n m => S (n + m)) O l.
Fixpoint size (v : json) : nat :=
  match v with
  | JArr l => S (list_size (map size l))
  | JObj l => S (list_size (map (fun '(_, v) => size v) l))
  | _ => 1
  end.

Fixpoint json_nested_ind (P : json -> Prop)
  (Hnull : P JNull) (Hbool : forall b, P (JBool b)) (Hnum : forall l, P (JNum l)) (Hstr : forall s, P (JStr s))
  (Harr : forall l, Forall P l -> P (JArr l)) (Hobj : forall l, Forall (fun '(_, v) => P v) l -> P (JObj l))
  (v : json) : P v :=
  let IH := json_nested_ind P Hnull Hbool Hnum Hstr Harr Hobj in
  match v with
  | JNull => Hnull
  | JBool b => Hbool b
  | JNum l => Hnum l
  | JStr s => Hstr s
  | JArr l => Harr l ((fix go l := match l return Forall P l with
                       | [] => Forall_nil_2 P
                       | v :: l => Forall_cons_2 P v l (IH v) (go l) end) l)
  | JObj l => Hobj l ((fix go l := match l return Forall (fun '(_, v) => P v) l with
                       | [] => Forall_nil_2 _
                       | (k, v) :: l => Forall_cons_2 (fun '(_, v) => P v) (k, v) l (IH v) (go l) end) l)
  end.

(** What may follow a value: nothing, or the punctuation after it. *)
Definition ended (l : bytes) : bool :=
  match l with [] => true | c :: _ => negb (num_byte c) && negb (is_ws c) end.

Lemma span_all p l rest : forallb p l = true -> match rest with [] => True | c :: _ => p c = false end ->
  span p (l ++ rest) = (l, rest).
Proof.
  intros Hl Hr. induction l as [|c l IH]; simpl in *.
  - destruct rest as [|c rest]; [done|]. simpl. by rewrite Hr.
  - apply andb_true_iff in Hl as [-> Hl]. by rewrite IH.
Qed.

(** The first byte of a value is none of the white space and none of the
    closing brackets. *)
Definition opens (l : bytes) : Prop :=
  exists c t, l = c :: t /\ is_ws c = false /\ Ascii.eqb c "]" = false /\ Ascii.eqb c "}" = false.

Lemma valid_num_first l : valid_num l = true -> exists c t, l = c :: t /\ (Ascii.eqb c "-" || is_digit c) = true.
Proof.
  unfold valid_num. destruct l as [|c t]; [done|]. intros H. exists c, t. split; [done|].
  destruct (Ascii.eqb c "-"); [done|]. simpl. destruct (Ascii.eqb c "0") eqn:E; [by apply Ascii.eqb_eq in E as ->|].
  by destruct (is_digit c).
Qed.

Lemma num_opens l : valid_num l = true -> opens l /\
  exists c t, l = c :: t /\ Ascii.eqb c dquote = false /\ Ascii.eqb c "[" = false /\ Ascii.eqb c "{" = false /\
    Ascii.eqb c "n" = false /\ Ascii.eqb c "t" = false /\ Ascii.eqb c "f" = false.
Proof.
  intros (c & t & -> & H)%valid_num_first. split; [exists c, t|exists c, t]; (split; [done|]);
    destruct c as [[] [] [] [] [] [] [] []]; try discriminate H; vm_compute; auto 10.
Qed.

Lemma print_opens v rest : json_ok v = true -> opens (print v ++ rest).
Proof.
  destruct v as [|[]|l|s|l|l]; intros Hok; try (eexists _, _; split; [reflexivity|done]).
  simpl in Hok. apply andb_true_iff in Hok as [H _]. apply num_opens in H as [(c & t & -> & H) _].
  exists c, (t ++ rest). done.
Qed.

Lemma skip_opens l : opens l -> skip_ws l = l.
Proof. intros (c & t & -> & H & _). simpl. by rewrite H. Qed.

Definition reads (v : json) : Prop := forall n d rest,
  json_ok v = true -> d + depth v <= maxNestingDepth -> (size v <= n)%nat -> ended rest = true ->
  parse_value n d (print v ++ rest) = Some (v, rest).

Lemma commas_cons x y l : commas (x :: y :: l) = x ++ ","%char :: commas (y :: l).
Proof. done. Qed.

(** One member of an object, up to what follows its value. *)
Lemma parse_member n d k v tl : valid_utf8 (to_bytes k) = true -> reads v -> json_ok v = true ->
  d + depth v <= maxNestingDepth -> (size v <= n)%nat -> ended tl = true ->
  parse_members (S n) d ((print_string k ++ ":"%char :: print v) ++ tl) =
  match skip_ws tl with
  | c :: t' => if Ascii.eqb c "," then ('(ms, r) ← parse_members n d t'; Some ((k, v) :: ms, r))
               else if Ascii.eqb c "}" then Some ([(k, v)], t') else None
  | [] => None
  end.
Proof.
  intros Hk Hv Hok Hd Hn Ht. cbn [parse_members].
  assert ((print_string k ++ ":"%char :: print v) ++ tl =
          dquote :: concat (map escape_rune (runes k)) ++ dquote :: ":"%char :: print v ++ tl) as ->.
  { unfold print_string. by rewrite <- !app_assoc, <- !app_comm_cons, <- !app_assoc. }
  change (skip_ws (dquote :: ?x)) with (dquote :: x). cbv iota beta. rewrite parse_print_string by done.
  cbn [mbind option_bind]. change (skip_ws (":"%char :: ?x)) with (":"%char :: x). cbv iota beta.
  rewrite Hv by done. reflexivity.
Qed.

Lemma parse_elems_print l n d rest : Forall reads l -> l <> [] ->
  forallb json_ok l = true -> d + max_of (map depth l) <= maxNestingDepth -> (list_size (map size l) <= n)%nat ->
  parse_elems n d (commas (map print l) ++ "]"%char :: rest) = Some (l, rest).
Proof.
  intros HF. revert n. induction HF as [|v l Hv HF IH]; intros n Hne Hok Hd Hn; [done|]. clear Hne.
  simpl in Hok, Hd, Hn. apply andb_true_iff in Hok as [Hok Hoks].
  destruct n as [|n]; [lia|]. destruct l as [|v' l].
  - cbn [map commas parse_elems]. rewrite Hv by (done || lia). reflexivity.
  - specialize (IH n ltac:(done) Hoks ltac:(lia) ltac:(lia)). cbn [map] in *.
    rewrite commas_cons, <- app_assoc, <- app_comm_cons. cbn [parse_elems]. rewrite Hv by (done || lia).
    cbn [mbind option_bind]. change (skip_ws (","%char :: ?x)) with (","%char :: x). cbv iota beta.
    change (Ascii.eqb "," ",") with true. cbv iota. rewrite IH. reflexivity.
Qed.

Lemma parse_members_print l n d rest : Forall (fun '(_, v) => reads v) l -> l <> [] ->
  forallb (fun '(k, v) => valid_utf8 (to_bytes k) && json_ok v) l = true ->
  d + max_of (map (fun '(_, v) => depth v) l) <= maxNestingDepth ->
  (list_size (map (fun '(_, v) => size v) l) <= n)%nat ->
  parse_members n d (commas (map (fun '(k, v) => print_string k ++ ":"%char :: print v) l) ++ "}"%char :: rest) = Some (l, rest).
Proof.
  intros HF. revert n. induction HF as [|[k v] l Hv HF IH]; intros n Hne Hok Hd Hn; [done|]. clear Hne.
  simpl in Hok, Hd, Hn. apply andb_true_iff in Hok as [[Hk Hok]%andb_true_iff Hoks].
  destruct n as [|n]; [lia|]. destruct l as [|[k' v'] l].
  - cbn [map commas]. rewrite parse_member by (done || lia). reflexivity.
  - specialize (IH n ltac:(done) Hoks ltac:(lia) ltac:(lia)). cbn [map] in *.
    rewrite commas_cons, <- app_assoc, <- app_comm_cons, parse_member by (done || lia).
    change (skip_ws (","%char :: ?x)) with (","%char :: x). cbv iota beta.
    change (Ascii.eqb "," ",") with true. cbv iota. rewrite IH. reflexivity.
Qed.

Lemma opens_closed_by l c : opens l -> (c = "]"%char \/ c = "}"%char) ->
  exists e t, l = e :: t /\ skip_ws l = e :: t /\ Ascii.eqb e c = false.
Proof.
  intros (e & t & -> & Hw & H1 & H2) Hc. exists e, t. split; [done|]. split; [simpl; by rewrite Hw|].
  by destruct Hc as [-> | ->].
Qed.

Lemma max_of_nonneg l : 0 <= max_of l.
Proof. unfold max_of. induction l; simpl; lia. Qed.

Lemma read_num lit : reads (JNum lit).
Proof.
  intros n d rest Hok _ Hn Hr. destruct n as [|n]; [simpl in Hn; lia|]. cbn [print json_ok] in *.
  apply andb_true_iff in Hok as [Hnum Hb].
  pose proof (num_opens _ Hnum) as [(c & t & -> & Hw & _) (c' & t' & E & H1 & H2 & H3 & H4 & H5 & H6)].
  simplify_eq. cbn [parse_value app skip_ws]. rewrite Hw, H1, H2, H3, H4, H5, H6.
  rewrite (app_comm_cons _ _ c'), span_all; [by rewrite Hnum|done|].
  destruct rest as [|c1 rest]; [done|]. simpl in Hr. by apply andb_true_iff in Hr as [?%negb_true_iff _].
Qed.

Lemma read_arr l : Forall reads l -> reads (JArr l).
Proof.
  intros HF n d rest Hok Hd Hn Hr. destruct n as [|n]; [simpl in Hn; lia|]. cbn [print json_ok] in *.
  rewrite <- app_comm_cons, <- app_assoc. cbn [app parse_value depth] in *.
  change (skip_ws ("["%char :: ?x)) with ("["%char :: x). cbv iota beta.
  change (Ascii.eqb "[" dquote) with false. change (Ascii.eqb "[" "[") with true. cbv iota.
  pose proof (max_of_nonneg (map depth l)). rewrite (proj2 (Z.leb_gt _ _)) by lia.
  destruct l as [|v l]; [reflexivity|].
  destruct (opens_closed_by (commas (map print (v :: l)) ++ "]"%char :: rest) "]"%char) as (e & t & _ & Es & Ee); [|by left|].
  { cbn [forallb] in Hok. apply andb_true_iff in Hok as [Hv _]. cbn [map]. destruct l; cbn [map]; [by apply print_opens|].
    rewrite commas_cons, <- app_assoc. by apply print_opens. }
  rewrite Es, Ee. simpl in Hn. rewrite parse_elems_print; [done|done|done|done|lia|simpl; lia].
Qed.

Lemma read_obj l : Forall (fun '(_, v) => reads v) l -> reads (JObj l).
Proof.
  intros HF n d rest Hok Hd Hn Hr. destruct n as [|n]; [simpl in Hn; lia|]. cbn [print json_ok] in *.
  rewrite <- app_comm_cons, <- app_assoc. cbn [app parse_value depth] in *.
  change (skip_ws ("{"%char :: ?x)) with ("{"%char :: x). cbv iota beta.
  change (Ascii.eqb "{" dquote) with false. change (Ascii.eqb "{" "[") with false. change (Ascii.eqb "{" "{") with true. cbv iota.
  pose proof (max_of_nonneg (map (fun '(_, v) => depth v) l)). rewrite (proj2 (Z.leb_gt _ _)) by lia.
  destruct l as [|[k v] l]; [reflexivity|]. set (body := commas _ ++ _).
  assert (exists t, body = dquote :: t) as [t Eb].
  { unfold body. destruct l as [|[]]; cbn [map]; rewrite ?commas_cons; eexists; reflexivity. }
  assert (skip_ws body = body) as -> by (rewrite Eb; reflexivity). rewrite Eb at 1.
  change (Ascii.eqb dquote "}") with false. cbv iota. simpl in Hn. unfold body.
  rewrite parse_members_print; [done|done|done|done|lia|simpl; lia].
Qed.

Lemma print_reads v : reads v.
Proof.
  induction v as [|b|lit|s|l HF|l HF] using json_nested_ind; [| |apply read_num| |by apply read_arr|by apply read_obj];
    intros n d rest Hok Hd Hn Hr; (destruct n as [|n]; [simpl in Hn; lia|]); [reflexivity|by destruct b|].
  cbn [print]. unfold print_string. cbn [parse_value app]. rewrite <- app_assoc. cbn [app].
  change (skip_ws (dquote :: ?x)) with (dquote :: x). cbv iota beta.
  change (Ascii.eqb dquote dquote) with true. cbv iota. by rewrite parse_print_string.
Qed.

(** The fuel [parse] takes is enough: a value's size is within its text's. *)
Lemma list_size_commas (ns : list nat) (ts : list bytes) : Forall2 (fun n t => (n <= length t)%nat) ns ts ->
  (list_size ns <= S (length (commas ts)))%nat.
Proof.
  induction 1 as [|n t ns ts Hnt HF IH]; [simpl; lia|]. destruct HF as [|n' t' ns ts]; [simpl; lia|].
  rewrite commas_cons, length_app. simpl in *. lia.
Qed.

Lemma size_print v : json_ok v = true -> (size v <= length (print v))%nat.
Proof.
  induction v as [|b|lit|s|l HF|l HF] using json_nested_ind; intros Hok; cbn [size print json_ok] in *.
  - simpl. lia.
  - destruct b; simpl; lia.
  - apply andb_true_iff in Hok as [(c & t & -> & _)%valid_num_first _]. simpl. lia.
  - simpl. lia.
  - assert (list_size (map size l) <= S (length (commas (map print l))))%nat; [|simpl; rewrite length_app; simpl; lia].
    apply list_size_commas. induction HF as [|v l Hv HF IH]; constructor; apply andb_true_iff in Hok as [H1 H2]; auto.
  - set (f := fun '(k, v) => print_string k ++ ":"%char :: print v).
    assert (list_size (map (fun '(_, v) => size v) l) <= S (length (commas (map f l))))%nat; [|simpl; rewrite length_app; simpl; lia].
    apply list_size_commas. induction HF as [|[k v] l Hv HF IH]; constructor; apply andb_true_iff in Hok as [[_ H1]%andb_true_iff H2]; auto.
    unfold f. rewrite length_app. simpl. specialize (Hv H1). lia.
Qed.

(** Unmarshal reads what Marshal wrote, whatever the strings hold. *)
Theorem parse_print v : json_ok v = true -> depth v <= maxNestingDepth -> parse (of_bytes (print v)) = Some v.
Proof.
  intros Hok Hd. unfold parse. rewrite to_of_bytes.
  pose proof (print_reads v (2 * length (print v) + 2)%nat 0 [] Hok ltac:(lia)) as H. rewrite app_nil_r in H.
  rewrite H; [done| |done]. pose proof (size_print v Hok). lia.
Qed.

Lemma parse_print_witness :
  let v := JObj [("a", JArr [JNum (to_bytes "-1.5"); JStr (of_bytes [byte 60; byte 34; byte 10; byte 226; byte 128; byte 168])]); ("", JNull)] in
  parse (of_bytes (print v)) = Some v.
Proof. apply parse_print; vm_compute; reflexivity || discriminate. Defined.
