(* ===== verification/Alerting.v ===== *)
(** internal/alerting: payload.go, filter.go and receiver.go. What an alert
    looks like on the wire and in the FrameAlert it is written to, the bounds
    every stored value is cut to, and the receiver: Record, and the webhook
    handler in front of it. The API server is the class [AlertApi];
    encoding/json's Unmarshal of the payload is its [decode_payload]. *)
From stdpp Require Import base tactics strings list gmap.
From Stdlib Require Import ZArith Lia Ascii.
From S2P Require Import Prelude GoLib GoTime Kube Cluster Sha256.

Open Scope Z_scope.

(** ** payload.go *)

Definition MaxBodyBytes : Z := 2 ^ 20.
Definition MaxAlertsPerRequest : nat := 100.
Definition maxMapEntries : nat := 64.
Definition maxKeyBytes : nat := 256.
Definition maxValueBytes : nat := 4096.
Definition StatusFiring : string := "firing".
Definition StatusResolved : string := "resolved".

Record Alert := mkAlert {
  al_Status : string;
  al_Labels : strmap;
  al_Annotations : strmap;
  al_StartsAt : time;
  al_EndsAt : time;
  al_GeneratorURL : string;
  al_Fingerprint : string
}.
Record Payload := mkPayload { pl_Version : string; pl_Status : string; pl_Receiver : string; pl_Alerts : list Alert }.

(** [^[0-9a-f]{1,64}$]. *)
Definition fingerprint_ok (s : string) : bool :=
  let l := to_bytes s in
  (1 <=? length l)%nat && (length l <=? 64)%nat && forallb (fun c => in_range 48 57 c || in_range 97 102 c) l.

Definition valid_status (s : string) : bool := bool_decide (s = StatusFiring) || bool_decide (s = StatusResolved).

Fixpoint validate_alerts (i : Z) (l : list Alert) : option string :=
  match l with
  | [] => None
  | a :: l' =>
    if negb (fingerprint_ok (al_Fingerprint a)) then Some ("alert " +:+ itoa i +:+ ": fingerprint " +:+ quote (al_Fingerprint a))
    else if negb (valid_status (al_Status a)) then Some ("alert " +:+ itoa i +:+ ": status " +:+ quote (al_Status a))
    else validate_alerts (i + 1) l'
  end.

Definition Validate (p : Payload) : option string :=
  if bool_decide (pl_Version p <> "4") then Some ("unsupported payload version " +:+ quote (pl_Version p))
  else if bool_decide (length (pl_Alerts p) = 0%nat) then Some "no alerts"
  else if (MaxAlertsPerRequest <? length (pl_Alerts p))%nat
  then Some (itoa (Z.of_nat (length (pl_Alerts p))) +:+ " alerts, at most " +:+ itoa (Z.of_nat MaxAlertsPerRequest))
  else validate_alerts 0 (pl_Alerts p).

Definition AlertObjectName (fingerprint : string) : string := "fa-" +:+ fingerprint.

(** [strings.ToValidUTF8(s, "\uFFFD")]: a run of invalid bytes becomes one
    replacement character. *)
Fixpoint to_valid (in_run : bool) (rs : list rune) : bytes :=
  match rs with
  | [] => []
  | RuneBytes b :: rs' => b ++ to_valid false rs'
  | RuneInvalid c :: rs' => (if in_run then [] else encode_rune (RuneInvalid c)) ++ to_valid true rs'
  end.

(** The longest prefix of at most [n] bytes the loop stops at. *)
Fixpoint back_off (l : bytes) (n : nat) : bytes :=
  match n with
  | O => []
  | S n' => if valid_utf8 (take n l) then take n l else back_off l n'
  end.

Definition truncate (s : string) (max : nat) : string :=
  let l := to_valid false (runes s) in
  of_bytes (if (length l <=? max)%nat then l else back_off l max).

Definition bound_key (m out : strmap) (k : string) : strmap :=
  let tk := truncate k maxKeyBytes in
  match out !! tk with
  | Some _ => out
  | None => <[tk := truncate (default "" (m !! k)) maxValueBytes]> out
  end.
(** A nil map stays nil; the two are not told apart by any reader. *)
Definition BoundMap (m : strmap) : strmap :=
  foldl (bound_key m) ∅ (take maxMapEntries (sort_strings (map fst (map_to_list m)))).

Definition LocalFingerprint (parts : list string) : string :=
  hex_encode (take 16 (sum256 (string_bytes (join (String zero "") parts)))).

(** ** The stored alert *)

Record FrameAlertSpec := mkFASpec {
  fas_Fingerprint : string;
  fas_AlertName : string;
  fas_Severity : string;
  fas_Namespace : string;
  fas_Labels : strmap;
  fas_Annotations : strmap;
  fas_StartsAt : time;
  fas_EndsAt : option time;
  fas_GeneratorURL : string
}.
#[export] Instance FrameAlertSpec_eq : EqDecision FrameAlertSpec.
Proof. solve_decision. Defined.

Definition AlertStateFiring : string := "Firing".
Definition AlertStateResolved : string := "Resolved".

(** The status' deliveries belong to the relay and are not written here. *)
Record FrameAlert := mkFrameAlert {
  fa_Name : string;
  fa_Spec : FrameAlertSpec;
  fa_State : string;
  fa_LastReceivedAt : option time
}.

Record AlertFilter := mkAlertFilter {
  flt_ExcludeAlertNames : list string;
  flt_Severities : list string;
  flt_Namespaces : list string
}.

Definition Matches (f : AlertFilter) (a : FrameAlert) : bool :=
  if bool_decide (fas_AlertName (fa_Spec a) ∈ flt_ExcludeAlertNames f) then false
  else if bool_decide (flt_Severities f <> []) && bool_decide (fas_Severity (fa_Spec a) ∉ flt_Severities f) then false
  else if bool_decide (flt_Namespaces f <> []) && bool_decide (fas_Namespace (fa_Spec a) ∉ flt_Namespaces f) then false
  else true.

(** ** receiver.go *)

Definition lastReceivedRefresh : Z := 15 * minute.

(** [t.Truncate(time.Second)]. *)
Definition truncate_second (t : time) : time := Time (unix_nano t - unix_nano t `mod` second) (zone t).

(** [equality.Semantic.DeepEqual]: times are equal when they are the same
    instant, and nil and empty maps are equal. *)
Definition spec_utc (s : FrameAlertSpec) : FrameAlertSpec := mkFASpec
  (fas_Fingerprint s) (fas_AlertName s) (fas_Severity s) (fas_Namespace s) (fas_Labels s) (fas_Annotations s)
  (utc (fas_StartsAt s)) (option_map utc (fas_EndsAt s)) (fas_GeneratorURL s).
Definition spec_equal (s t : FrameAlertSpec) : bool := bool_decide (spec_utc s = spec_utc t).

(** The calls on FrameAlerts, the token Secret's "token" entry, and the clock.
    A write fills the caller's object with the server's answer; a patch sends
    what differs between the object as read and as modified. The list is of
    the receiver's namespace. *)
Class AlertApi (W : Type) := {
  api_now : St W time;
  get_fa : string -> St W (result apierr FrameAlert);
  list_fas : St W (result apierr (list FrameAlert));
  create_fa : FrameAlert -> St W (result apierr FrameAlert);
  patch_fa : FrameAlert -> FrameAlert -> St W (result apierr FrameAlert);
  patch_fa_status : FrameAlert -> FrameAlert -> St W (result apierr FrameAlert);
  get_token : St W (result apierr string);
  decode_payload : string -> option Payload
}.

Definition alert_state (a : Alert) : string :=
  if bool_decide (al_Status a = StatusResolved) then AlertStateResolved else AlertStateFiring.

Definition label (m : strmap) (k : string) : string := default "" (m !! k).

Definition alert_spec (a : Alert) : FrameAlertSpec := mkFASpec
  (al_Fingerprint a)
  (truncate (label (al_Labels a) "alertname") 256)
  (truncate (label (al_Labels a) "severity") 64)
  (truncate (label (al_Labels a) "namespace") 63)
  (BoundMap (al_Labels a)) (BoundMap (al_Annotations a))
  (truncate_second (al_StartsAt a))
  (if bool_decide (al_Status a = StatusResolved) then Some (truncate_second (al_EndsAt a)) else None)
  (truncate (al_GeneratorURL a) 2048).

Section Receiver.
Context {W : Type} `{AA : AlertApi W}.

Definition patchStatus_fa (fa : FrameAlert) (state : string) (now : time) : St W (option apierr) :=
  r ← patch_fa_status fa (mkFrameAlert (fa_Name fa) (fa_Spec fa) state (Some now));
  mret (match r with inl e => Some e | inr _ => None end).

Definition stale (fa : FrameAlert) (now : time) : bool :=
  match fa_LastReceivedAt fa with None => true | Some t => lastReceivedRefresh <=? sub now t end.

Definition Record_ (a : Alert) : St W (option apierr) :=
  now ← api_now;
  let state := alert_state a in
  let spec := alert_spec a in
  let name := AlertObjectName (al_Fingerprint a) in
  r ← get_fa name;
  match r with
  | inl err =>
    if err_notfound err then
      r ← create_fa (mkFrameAlert name spec "" None);
      match r with
      | inl e => mret (Some e)
      | inr fa => patchStatus_fa fa state now
      end
    else mret (Some err)
  | inr fa =>
    r ← (if negb (spec_equal (fa_Spec fa) spec)
         then patch_fa fa (mkFrameAlert (fa_Name fa) spec (fa_State fa) (fa_LastReceivedAt fa))
         else mret (inr fa));
    match r with
    | inl e => mret (Some e)
    | inr fa =>
      if bool_decide (fa_State fa <> state) || stale fa now then patchStatus_fa fa state now else mret None
    end
  end.

(** The request: path, method, Authorization header and body ([None] when
    reading it fails before the size limit). *)
Record Request := mkRequest { rq_Path : string; rq_Method : string; rq_Auth : string; rq_Body : option string }.

(** 0 is authorised. *)
Definition authorize (req : Request) : St W Z :=
  match cut_prefix "Bearer " (rq_Auth req) with
  | None => mret 401
  | Some got =>
    if bool_decide (got = "") then mret 401 else
    r ← get_token;
    mret (match r with
          | inl err => if err_notfound err then 401 else 503
          | inr want => if bool_decide (want = "") || bool_decide (got <> want) then 401 else 0
          end)
  end.

Fixpoint record_all (l : list Alert) : St W Z :=
  match l with
  | [] => mret 200
  | a :: l' =>
    e ← Record_ a;
    match e with Some _ => mret 503 | None => record_all l' end
  end.

Definition serve (req : Request) : St W Z :=
  if bool_decide (rq_Path req <> "/alertmanager") || bool_decide (rq_Method req <> "POST") then mret 404 else
  code ← authorize req;
  if negb (code =? 0) then mret code else
  match rq_Body req with
  | None => mret 400
  | Some body =>
    if MaxBodyBytes <? Z.of_nat (length (to_bytes body)) then mret 413 else
    match decode_payload body with
    | None => mret 400
    | Some p => match Validate p with
                | Some _ => mret 400
                | None => record_all (pl_Alerts p)
                end
    end
  end.
End Receiver.
