(* ===== verification/AlertingSafety.v ===== *)
(** Alerting: every stored string is valid UTF-8 within its bound, Record
    stores what it was told and does not rewrite what is already stored, and
    the webhook writes nothing before a request is authorised and valid. *)
From stdpp Require Import base tactics strings list gmap.
From Stdlib Require Import ZArith Lia Ascii.
From S2P Require Import Prelude GoLib GoTime Kube Cluster Sha256 Alerting.

Open Scope Z_scope.

(** ** Bounds *)

(** The runes [to_valid] writes. *)
Fixpoint collapse (in_run : bool) (rs : list rune) : list rune :=
  match rs with
  | [] => []
  | RuneBytes b :: rs' => RuneBytes b :: collapse false rs'
  | RuneInvalid c :: rs' => (if in_run then [] else [RuneInvalid c]) ++ collapse true rs'
  end.

Lemma to_valid_collapse b rs : to_valid b rs = concat (map encode_rune (collapse b rs)).
Proof.
  revert b. induction rs as [|[l|c] rs IH]; intros b; [done|..]; simpl; rewrite IH; [done|]. by destruct b.
Qed.
Lemma collapse_decoded b rs :
  Forall (fun r => exists l l', next_rune l = Some (r, l')) rs ->
  Forall (fun r => exists l l', next_rune l = Some (r, l')) (collapse b rs).
Proof.
  intros HF. revert b. induction HF as [|[l|c] rs Hr HF IH]; intros b; simpl; [constructor|by constructor|].
  destruct b; [apply IH|]. by constructor.
Qed.

Lemma valid_encoded rs : Forall (fun r => exists l l', next_rune l = Some (r, l')) rs ->
  valid_utf8 (concat (map encode_rune rs)) = true.
Proof.
  intros HF. unfold valid_utf8. rewrite runes_fuel_encode by (done || by apply length_concat_encode).
  apply forallb_forall. intros r (r0 & <- & _)%in_map_iff. done.
Qed.

Lemma to_valid_valid s : valid_utf8 (to_valid false (runes s)) = true.
Proof. rewrite to_valid_collapse. apply valid_encoded, collapse_decoded, runes_fuel_decoded. Qed.

Lemma back_off_ok l n : valid_utf8 (back_off l n) = true /\ (length (back_off l n) <= n)%nat.
Proof.
  induction n as [|n [IH1 IH2]]; [done|]. cbn [back_off]. destruct (valid_utf8 (take (S n) l)) eqn:E.
  - split; [done|]. rewrite length_take. lia.
  - split; [done|lia].
Qed.

(** A string that needs no cut is kept as it is. *)
Lemma truncate_ok s max :
  valid_utf8 (to_bytes (truncate s max)) = true /\ (length (to_bytes (truncate s max)) <= max)%nat.
Proof.
  unfold truncate. cbv zeta. rewrite to_of_bytes. destruct (_ <=? max)%nat eqn:E; [|apply back_off_ok].
  split; [apply to_valid_valid|by apply Nat.leb_le].
Qed.

Lemma truncate_id s max : valid_utf8 (to_bytes s) = true -> (length (to_bytes s) <= max)%nat -> truncate s max = s.
Proof.
  intros Hv Hl. unfold truncate, runes. cbv zeta.
  assert (to_valid false (runes_fuel (length (to_bytes s)) (to_bytes s)) = to_bytes s) as E.
  { rewrite to_valid_collapse.
    assert (collapse false (runes_fuel (length (to_bytes s)) (to_bytes s)) = runes_fuel (length (to_bytes s)) (to_bytes s)) as ->.
    { unfold valid_utf8 in Hv. revert Hv. generalize (runes_fuel (length (to_bytes s)) (to_bytes s)) as rs.
      induction rs as [|[b|c] rs IH]; simpl; [done| |done]. intros H. by rewrite IH. }
    apply decoded_whole; [done|exact Hv]. }
  rewrite E. apply Nat.leb_le in Hl as ->. apply of_to_bytes.
Qed.

Definition bounded_string (s : string) (max : nat) : Prop :=
  valid_utf8 (to_bytes s) = true /\ (length (to_bytes s) <= max)%nat.
#[export] Instance bounded_string_dec s max : Decision (bounded_string s max).
Proof. unfold bounded_string. apply _. Defined.

Lemma bound_keys_ok m keys out :
  (forall k v, out !! k = Some v -> bounded_string k maxKeyBytes /\ bounded_string v maxValueBytes) ->
  (forall k v, foldl (bound_key m) out keys !! k = Some v -> bounded_string k maxKeyBytes /\ bounded_string v maxValueBytes) /\
  (size (foldl (bound_key m) out keys) <= size out + length keys)%nat.
Proof.
  revert out. induction keys as [|k keys IH]; intros out Hout; [split; [done|simpl; lia]|]. cbn [foldl].
  unfold bound_key at 2 4. destruct (out !! truncate k maxKeyBytes) as [v|] eqn:E.
  - destruct (IH out Hout) as [H1 H2]. split; [done|]. simpl. lia.
  - destruct (IH (<[truncate k maxKeyBytes := truncate (default "" (m !! k)) maxValueBytes]> out)) as [H1 H2].
    + intros k' v' Hk'. destruct (decide (k' = truncate k maxKeyBytes)) as [->|Hne].
      * rewrite lookup_insert_eq in Hk'. injection Hk' as <-. split; apply truncate_ok.
      * rewrite lookup_insert_ne in Hk' by done. by apply Hout.
    + split; [done|]. rewrite map_size_insert_None in H2 by done. simpl. lia.
Qed.

(** A stored map of labels or annotations is bounded whatever came in: at
    most 64 entries, every key valid UTF-8 of at most 256 bytes, every value
    of at most 4096; and a map already within the bounds is stored as it is. *)
Theorem BoundMap_bounds m :
  (size (BoundMap m) <= maxMapEntries)%nat /\
  (forall k v, BoundMap m !! k = Some v -> bounded_string k maxKeyBytes /\ bounded_string v maxValueBytes) /\
  ((size m <= maxMapEntries)%nat -> map_Forall (fun k v => bounded_string k maxKeyBytes /\ bounded_string v maxValueBytes) m ->
   BoundMap m = m).
Proof.
  unfold BoundMap. set (keys := take _ _).
  destruct (bound_keys_ok m keys ∅) as [H1 H2]; [done|]. split; [|split; [done|]].
  - rewrite map_size_empty in H2. unfold keys in *. rewrite length_take in H2. lia.
  - intros Hsize Hall.
    assert (keys = sort_strings (map fst (map_to_list m))) as ->.
    { unfold keys. apply take_ge. unfold sort_strings. rewrite sort_by_length, length_map, length_map_to_list. done. }
    assert (forall ks out, NoDup ks -> (forall k, k ∈ ks -> is_Some (m !! k)) -> (forall k, k ∈ ks -> out !! k = None) ->
      forall k, foldl (bound_key m) out ks !! k = if decide (k ∈ ks) then m !! k else out !! k) as Hf.
    { induction ks as [|x ks IH]; intros out Hnd Hin Hout k; [done|]. apply NoDup_cons in Hnd as [Hx Hnd]. cbn [foldl].
      destruct (Hin x) as [v Hv]; [by left|]. destruct (Hall x v Hv) as [[Hk1 Hk2] [Hv1 Hv2]].
      assert (bound_key m out x = <[x := v]> out) as ->.
      { unfold bound_key. cbv zeta. rewrite truncate_id by done. rewrite (Hout x) by (by left). rewrite Hv. simpl. by rewrite truncate_id. }
      rewrite IH; [|done|intros; apply Hin; by right|].
      - destruct (decide (k ∈ ks)) as [Hk|Hk]; [rewrite decide_True by (by right); done|].
        destruct (decide (k = x)) as [->|Hne]; [rewrite lookup_insert_eq, decide_True by (by left); done|].
        rewrite lookup_insert_ne by done. rewrite decide_False by (rewrite elem_of_cons; tauto). done.
      - intros k' Hk'. rewrite lookup_insert_ne by (intros ->; done). apply Hout. by right. }
    apply map_eq. intros k. unfold sort_strings. rewrite Hf.
    + case_decide as Hk; [done|]. symmetry. apply eq_None_not_Some. intros [v Hv]. apply Hk, elem_of_sort_by.
      apply list_elem_of_In, in_map_iff. exists (k, v). split; [done|]. by apply list_elem_of_In, elem_of_map_to_list.
    + rewrite sort_by_perm. apply NoDup_fst_map_to_list.
    + intros x Hx. apply elem_of_sort_by, list_elem_of_In, in_map_iff in Hx as ([x' v] & <- & Hx).
      apply list_elem_of_In, elem_of_map_to_list in Hx. by exists v.
    + done.
Qed.

(** ** The store

    metav1.Time is whole seconds of UTC in JSON, and its zero value is null. *)
Definition json_time (t : time) : time := utc (truncate_second t).
Definition json_opt_time (t : option time) : option time :=
  match t with Some t => if is_zero t then None else Some (json_time t) | None => None end.
Definition json_spec (s : FrameAlertSpec) : FrameAlertSpec := mkFASpec
  (fas_Fingerprint s) (fas_AlertName s) (fas_Severity s) (fas_Namespace s) (fas_Labels s) (fas_Annotations s)
  (json_time (fas_StartsAt s)) (json_opt_time (fas_EndsAt s)) (fas_GeneratorURL s).
Definition json_fa (fa : FrameAlert) : FrameAlert :=
  mkFrameAlert (fa_Name fa) (json_spec (fa_Spec fa)) (fa_State fa) (json_opt_time (fa_LastReceivedAt fa)).

(** A merge patch of an object with plain fields and two maps. *)
Definition merge_field {A} `{EqDecision A} (base modified server : A) : A :=
  if decide (base = modified) then server else modified.
Definition merge_spec (b m s : FrameAlertSpec) : FrameAlertSpec := mkFASpec
  (merge_field (fas_Fingerprint b) (fas_Fingerprint m) (fas_Fingerprint s))
  (merge_field (fas_AlertName b) (fas_AlertName m) (fas_AlertName s))
  (merge_field (fas_Severity b) (fas_Severity m) (fas_Severity s))
  (merge_field (fas_Namespace b) (fas_Namespace m) (fas_Namespace s))
  (merge_strmap (fas_Labels b) (fas_Labels m) (fas_Labels s))
  (merge_strmap (fas_Annotations b) (fas_Annotations m) (fas_Annotations s))
  (merge_field (fas_StartsAt b) (fas_StartsAt m) (fas_StartsAt s))
  (merge_field (fas_EndsAt b) (fas_EndsAt m) (fas_EndsAt s))
  (merge_field (fas_GeneratorURL b) (fas_GeneratorURL m) (fas_GeneratorURL s)).

(** What the API server promises about FrameAlerts: a failed call and a read
    change nothing; create takes a name that is free and drops the status; a
    patch merges into the stored object, the spec on the main resource and the
    status on the subresource; the answer is the object as stored. *)
Class AlertLaws (W : Type) `{AlertApi W} := {
  fas : W -> gmap string FrameAlert;
  now_reads w : fas (api_now w).2 = fas w;
  get_reads name w : fas (get_fa name w).2 = fas w;
  get_named name w fa : (get_fa name w).1 = inr fa -> fa_Name fa = name;
  list_reads w : fas (list_fas w).2 = fas w;
  token_reads w : fas (get_token w).2 = fas w;
  create_spec fa w : match create_fa fa w with
    | (inl _, w') => fas w' = fas w
    | (inr fa', w') => fas w !! fa_Name fa = None /\ fa_Name fa' = fa_Name fa /\
        json_fa fa' = json_fa (mkFrameAlert (fa_Name fa) (fa_Spec fa) "" None) /\
        fas w' = <[fa_Name fa := json_fa fa']> (fas w)
    end;
  patch_spec b m w : match patch_fa b m w with
    | (inl _, w') => fas w' = fas w
    | (inr fa', w') => exists s, fas w !! fa_Name b = Some s /\
        json_fa fa' = mkFrameAlert (fa_Name b) (merge_spec (json_spec (fa_Spec b)) (json_spec (fa_Spec m)) (fa_Spec s))
                        (fa_State s) (fa_LastReceivedAt s) /\
        fas w' = <[fa_Name b := json_fa fa']> (fas w)
    end;
  patch_status_spec b m w : match patch_fa_status b m w with
    | (inl _, w') => fas w' = fas w
    | (inr fa', w') => exists s, fas w !! fa_Name b = Some s /\
        json_fa fa' = mkFrameAlert (fa_Name b) (fa_Spec s) (merge_field (fa_State b) (fa_State m) (fa_State s))
          (merge_field (json_opt_time (fa_LastReceivedAt b)) (json_opt_time (fa_LastReceivedAt m)) (fa_LastReceivedAt s)) /\
        fas w' = <[fa_Name b := json_fa fa']> (fas w)
    end
}.

Lemma merge_field_base {A} `{EqDecision A} (b m : A) : merge_field b m b = m.
Proof. unfold merge_field. by case_decide. Qed.
Lemma merge_strmap_base (b m : strmap) : merge_strmap b m b = m.
Proof. apply map_eq. intros k. rewrite lookup_merge_strmap. unfold merge_key. by case_decide. Qed.
Lemma merge_spec_base b m : merge_spec b m b = m.
Proof. destruct m. unfold merge_spec. by rewrite !merge_field_base, !merge_strmap_base. Qed.
Lemma json_spec_utc s t : spec_utc s = spec_utc t -> json_spec s = json_spec t.
Proof.
  destruct s as [??????[u z] e ?], t as [??????[u' z'] e' ?]. intros H. injection H as -> -> -> -> -> -> -> He ->.
  unfold json_spec. f_equal. destruct e as [[]|], e' as [[]|]; simplify_eq/=; done.
Qed.
Lemma truncate_second_idem t : truncate_second (truncate_second t) = truncate_second t.
Proof. unfold truncate_second. simpl. f_equal. assert (second = 1000000000) as -> by done. dlia. Qed.

Section Store.
Context {W : Type} `{AL : AlertLaws W}.

(** The cache behind the read is current. *)
Definition fresh_read (name : string) (w : W) : Prop :=
  match get_fa name w with
  | (inr fa, w') => fas w' !! name = Some (json_fa fa)
  | (inl _, _) => True
  end.
(** The read answers with the stored object, whose times are those decoded from
    JSON: whole seconds, in any zone. *)
Definition reads (name : string) (w : W) (fa : FrameAlert) : Prop :=
  (get_fa name w).1 = inr fa /\ spec_utc (fa_Spec fa) = json_spec (fa_Spec fa) /\ fas w !! name = Some (json_fa fa).

(** The stored object [name] is what the alert [a] says. *)
Definition stored_as (a : Alert) (w : W) : Prop :=
  exists fa, fas w !! AlertObjectName (al_Fingerprint a) = Some fa /\
    fa_Spec fa = json_spec (alert_spec a) /\ fa_State fa = alert_state a.

Definition others_kept (name : string) (w w' : W) : Prop := forall n, n <> name -> fas w' !! n = fas w !! n.

Lemma patchStatus_stores fa spec state now w : fas w !! fa_Name fa = Some (json_fa fa) -> json_spec (fa_Spec fa) = spec ->
  wp (patchStatus_fa fa state now) w (fun r w' => others_kept (fa_Name fa) w w' /\ (r = None ->
    exists fa', fas w' !! fa_Name fa = Some fa' /\ fa_Spec fa' = spec /\ fa_State fa' = state)).
Proof.
  intros Hs Hspec. unfold patchStatus_fa. apply wp_bind, wp_intro.
  pose proof (patch_status_spec fa (mkFrameAlert (fa_Name fa) (fa_Spec fa) state (Some now)) w) as H1.
  destruct (patch_fa_status _ _ w) as [[e|fa'] w']; simpl in *; apply wp_ret.
  { split; [|done]. intros n _. by rewrite H1. }
  destruct H1 as (s & Hs' & Hfa & Hw). split; [intros n Hn; by rewrite Hw, lookup_insert_ne|]. intros _. eexists.
  split; [rewrite Hw; apply lookup_insert_eq|].
  rewrite Hs in Hs'. injection Hs' as <-. rewrite Hfa. simpl. split; [done|apply merge_field_base].
Qed.

Lemma Record_stores a w : let name := AlertObjectName (al_Fingerprint a) in
  fresh_read name (api_now w).2 ->
  wp (Record_ a) w (fun r w' => others_kept name w w' /\ (r = None -> stored_as a w')).
Proof.
  intros name Hfresh. unfold Record_. fold name. apply wp_bind, wp_intro. pose proof (now_reads w) as Hn.
  destruct (api_now w) as [now w1]. cbn [fst snd] in *. apply wp_bind, wp_intro. unfold fresh_read in Hfresh.
  pose proof (get_reads name w1) as Hg. pose proof (get_named name w1) as Hnamed.
  destruct (get_fa name w1) as [[e|fa] w2]; cbn [fst snd] in *; rewrite Hn in Hg.
  - destruct (err_notfound e); [|apply wp_ret; split; [intros n _; by rewrite Hg|done]].
    apply wp_bind, wp_intro. pose proof (create_spec (mkFrameAlert name (alert_spec a) "" None) w2) as Hc.
    destruct (create_fa _ w2) as [[e'|fa] w3]; cbn [fst snd fa_Name] in *;
      [apply wp_ret; split; [intros n _; by rewrite Hc, Hg|done]|].
    destruct Hc as (_ & Hname & Hfa & Hw3). eapply wp_mono; [apply (patchStatus_stores fa (json_spec (alert_spec a)))|].
    + rewrite Hname, Hw3. apply lookup_insert_eq.
    + change (json_spec (fa_Spec fa)) with (fa_Spec (json_fa fa)). by rewrite Hfa.
    + intros r w' [Ho Hr]. rewrite Hname in *. split; [|exact Hr]. intros n Hne. by rewrite Ho, Hw3, lookup_insert_ne, Hg by done.
  - pose proof (Hnamed fa eq_refl) as Hname. rename Hfresh into Hst. apply wp_bind.
    apply (wp_mono _ _ (fun r w' => others_kept name w w' /\ forall fa', r = inr fa' -> fa_Name fa' = name /\
      fas w' !! name = Some (json_fa fa') /\ json_spec (fa_Spec fa') = json_spec (alert_spec a))).
    { destruct (spec_equal (fa_Spec fa) (alert_spec a)) eqn:E; cbn [negb].
      - apply wp_ret. split; [intros n _; by rewrite Hg|]. intros fa' [= <-]. split; [done|]. split; [done|].
        apply bool_decide_eq_true in E. by apply json_spec_utc.
      - apply wp_intro. match goal with |- context [patch_fa ?b ?m _] => pose proof (patch_spec b m w2) as Hp end.
        destruct (patch_fa _ _ w2) as [[e|fa'] w3]; cbn [fst snd fa_Spec] in *; [split; [intros n _; by rewrite Hp, Hg|done]|].
        destruct Hp as (s & Hs & Hfa & Hw3). rewrite Hname in *. rewrite Hst in Hs. injection Hs as <-.
        split; [intros n Hne; by rewrite Hw3, lookup_insert_ne, Hg by done|]. intros ? [= <-].
        split; [change (fa_Name (json_fa fa') = name); by rewrite Hfa|]. split; [rewrite Hw3; apply lookup_insert_eq|].
        change (fa_Spec (json_fa fa') = json_spec (alert_spec a)). rewrite Hfa. apply merge_spec_base. }
    intros [e|fa'] w3 [Ho3 H3]; [by apply wp_ret|]. destruct (H3 fa' eq_refl) as (Hname' & Hst' & Hspec').
    destruct (bool_decide (fa_State fa' <> alert_state a) || stale fa' now) eqn:E.
    + eapply wp_mono; [by apply (patchStatus_stores fa' (json_spec (alert_spec a))); rewrite ?Hname'|].
      intros r w' [Ho Hr]. rewrite Hname' in *. split; [|exact Hr]. intros n Hne. by rewrite Ho, Ho3.
    + apply wp_ret. split; [done|]. intros _. eexists. split; [exact Hst'|]. split; [exact Hspec'|].
      apply orb_false_iff in E as [E _]. apply bool_decide_eq_false in E. simpl. by destruct (decide (fa_State fa' = alert_state a)).
Qed.

(** An EndsAt that JSON can carry. *)
Definition ends_nonzero (a : Alert) : Prop := al_Status a = StatusResolved -> is_zero (truncate_second (al_EndsAt a)) = false.

Lemma alert_spec_whole a : ends_nonzero a -> spec_utc (alert_spec a) = json_spec (alert_spec a).
Proof.
  intros He. unfold alert_spec, json_spec, spec_utc, json_time. cbn [fas_StartsAt fas_EndsAt fas_Fingerprint fas_AlertName
    fas_Severity fas_Namespace fas_Labels fas_Annotations fas_GeneratorURL]. rewrite truncate_second_idem. f_equal.
  case_bool_decide as Hs; [|done]. simpl. rewrite (He Hs). unfold json_time. by rewrite truncate_second_idem.
Qed.

(** Record writes the alert's own object and no other, and when it
    succeeds that object says what the alert says: the bounded spec, to the
    second, and the state. The same alert resent within 15 minutes of the
    stored lastReceivedAt is then read and not written: a resend costs no
    patch, whatever sub-second part its times carry. *)
Theorem Record_stores_once (a : Alert) (w w' : W) :
  let name := AlertObjectName (al_Fingerprint a) in
  fresh_read name (api_now w).2 ->
  Record_ a w = (None, w') ->
  stored_as a w' /\ others_kept name w w' /\
  forall w2 fa t, reads name (api_now w2).2 fa -> fas w2 !! name = fas w' !! name -> ends_nonzero a ->
    fa_LastReceivedAt fa = Some t -> sub (api_now w2).1 t < lastReceivedRefresh ->
    Record_ a w2 = (None, (get_fa name (api_now w2).2).2).
Proof.
  intros name Hfresh Hrun. destruct (wp_run _ _ _ _ _ (Record_stores a w Hfresh) Hrun) as [Ho Hst].
  specialize (Hst eq_refl). split; [done|]. split; [done|]. intros w2 fa t (Hget & Hutc & Hfa) Hsame Hends Hlast Hsub.
  destruct Hst as (fa' & Hfa' & Hspec & Hstate). fold name in Hfa'. rewrite now_reads, Hsame, Hfa' in Hfa. injection Hfa as ->.
  unfold Record_. fold name. rewrite St_bind_run. destruct (api_now w2) as [now w3]. cbn [fst snd] in *.
  rewrite St_bind_run. destruct (get_fa name w3) as [r w4]. cbn [fst snd] in *. subst r. cbn [fa_Spec json_fa] in Hspec.
  assert (spec_equal (fa_Spec fa) (alert_spec a) = true) as ->.
  { apply bool_decide_eq_true. by rewrite Hutc, Hspec, alert_spec_whole. }
  cbn [negb]. rewrite St_bind_run. cbn [fst snd mret St_ret]. cbn [fa_State json_fa] in Hstate. rewrite Hstate.
  rewrite bool_decide_false by (intros Hne; by apply Hne). unfold stale. rewrite Hlast.
  apply Z.leb_gt in Hsub as ->. done.
Qed.

(** ** The webhook *)

Definition alert_valid (a : Alert) : Prop := fingerprint_ok (al_Fingerprint a) = true /\ valid_status (al_Status a) = true.

Lemma validate_alerts_ok i l : validate_alerts i l = None <-> Forall alert_valid l.
Proof.
  revert i. induction l as [|a l IH]; intros i; [done|]. cbn [validate_alerts]. rewrite Forall_cons, <- (IH (i + 1)). unfold alert_valid.
  destruct (fingerprint_ok _); simpl; [|naive_solver]. destruct (valid_status _); simpl; naive_solver.
Qed.

Definition payload_valid (p : Payload) : Prop :=
  pl_Version p = "4" /\ (1 <= length (pl_Alerts p) <= MaxAlertsPerRequest)%nat /\ Forall alert_valid (pl_Alerts p).

Lemma Validate_ok p : Validate p = None <-> payload_valid p.
Proof.
  unfold Validate, payload_valid. case_bool_decide as Hv; [split; [done|naive_solver]|].
  case_bool_decide as H0; [split; [done|lia]|]. destruct (_ <? _)%nat eqn:E; bool_to_prop.
  - apply Nat.ltb_lt in E. split; [done|lia].
  - apply Nat.ltb_ge in E. rewrite validate_alerts_ok. split; [|tauto]. intros. split; [done|]. split; [lia|done].
Qed.

(** The bearer token the request carries is the one in the Secret. *)
Definition bears_token (req : Request) (w : W) : Prop :=
  exists token, token <> "" /\ rq_Auth req = "Bearer " +:+ token /\ (get_token w).1 = inr token.

Lemma authorize_ok req w : wp (authorize req) w (fun code w' => fas w' = fas w /\ (code = 0 -> bears_token req w) /\
  (code <> 0 -> code = 401 \/ code = 503)).
Proof.
  unfold authorize. destruct (cut_prefix _ _) as [got|] eqn:E; [|apply wp_ret; split; [done|]; split; [done|]; auto].
  case_bool_decide as Hgot; [apply wp_ret; split; [done|]; split; [done|]; auto|]. apply wp_bind, wp_intro. pose proof (token_reads w) as Ht.
  apply wp_ret. split; [exact Ht|]. unfold bears_token. destruct (get_token w) as [[e|want] w']; cbn [fst snd].
  - destruct (err_notfound e); (split; [done|auto]).
  - destruct (bool_decide (want = "") || bool_decide (got <> want)) eqn:E2; [split; [done|auto]|]. split; [|done]. intros _.
    bool_to_prop. exists got. split; [done|]. split; [by apply cut_prefix_some|]. f_equal. symmetry. by apply dec_stable.
Qed.

Lemma record_all_stores l w : (forall n w, fresh_read n w) -> NoDup (map al_Fingerprint l) ->
  wp (record_all l) w (fun code w' => (forall n, n ∉ map (fun a => AlertObjectName (al_Fingerprint a)) l -> fas w' !! n = fas w !! n) /\
    (code = 200 -> Forall (fun a => stored_as a w') l) /\ (code = 200 \/ code = 503)).
Proof.
  intros Hfresh. revert w. induction l as [|a l IH]; intros w Hnd; [apply wp_ret; by auto|]. cbn [record_all map] in *.
  apply NoDup_cons in Hnd as [Ha Hnd]. apply wp_bind. eapply wp_mono; [apply Record_stores, Hfresh|]. intros [e|] w1 [Ho Hst].
  { apply wp_ret. split; [|split; [done|by right]]. intros n Hn. apply Ho. by intros ->; apply Hn; left. }
  eapply wp_mono; [by apply IH|]. intros code w2 (Ho2 & Hst2 & Hcode). split; [|split; [|done]].
  - intros n Hn. rewrite Ho2 by (intros ?; apply Hn; by right). apply Ho. by intros ->; apply Hn; left.
  - intros Hc. constructor; [|by apply Hst2]. destruct (Hst eq_refl) as (fa & Hfa & Hrest). exists fa. split; [|done].
    rewrite Ho2; [done|]. intros (a' & Heq & Ha')%list_elem_of_In%in_map_iff. apply Ha, list_elem_of_In, in_map_iff.
    exists a'. split; [|done]. unfold AlertObjectName in Heq. by injection Heq.
Qed.

(** What a request must be for the webhook to act on it. *)
Definition accepted (req : Request) (w : W) (p : Payload) : Prop :=
  rq_Path req = "/alertmanager" /\ rq_Method req = "POST" /\ bears_token req w /\
  (exists body, rq_Body req = Some body /\ Z.of_nat (length (to_bytes body)) <= MaxBodyBytes /\ decode_payload body = Some p) /\
  payload_valid p.

(** The handler, up to the loop that records. *)
Lemma serve_spec req w :
  wp (serve req) w (fun code w' =>
    (code ∈ [404; 401; 503; 400; 413] /\ fas w' = fas w) \/
    exists p w1, accepted req w p /\ fas w1 = fas w /\ record_all (pl_Alerts p) w1 = (code, w')).
Proof.
  unfold serve. destruct (bool_decide (rq_Path req <> "/alertmanager") || bool_decide (rq_Method req <> "POST")) eqn:E;
    [apply wp_ret; left; by set_solver|].
  apply orb_false_iff in E as [Hpath%bool_decide_eq_false%dec_stable Hmethod%bool_decide_eq_false%dec_stable].
  apply wp_bind. eapply wp_mono; [apply authorize_ok|]. intros code w1 (Hw1 & Hok & Hcode).
  destruct (code =? 0) eqn:Ec; bool_to_prop; cbn [negb].
  2: { apply wp_ret. left. split; [|done]. destruct (Hcode Ec) as [-> | ->]; set_solver. }
  destruct (rq_Body req) as [body|] eqn:Eb; [|apply wp_ret; left; split; [set_solver|done]].
  destruct (_ <? _) eqn:El; bool_to_prop; [apply wp_ret; left; split; [set_solver|done]|].
  destruct (decode_payload body) as [p|] eqn:Ep; [|apply wp_ret; left; split; [set_solver|done]].
  destruct (Validate p) eqn:Ev; [apply wp_ret; left; split; [set_solver|done]|]. apply Validate_ok in Ev.
  apply wp_intro. right. exists p, w1. split; [|split; [done|apply surjective_pairing]].
  split; [done|]. split; [done|]. split; [by apply Hok|]. split; [|done]. by exists body.
Qed.

(** The webhook writes nothing, and does not answer 200, unless the request
    is a POST to /alertmanager bearing the configured, non-empty token with a
    body of at most 1 MiB that decodes to a valid payload: version 4, between 1
    and 100 alerts, each with a hexadecimal fingerprint of at most 64 digits
    and a known status. *)
Theorem serve_gated (req : Request) (w w' : W) (code : Z) :
  serve req w = (code, w') -> code = 200 \/ fas w' <> fas w -> exists p, accepted req w p.
Proof.
  intros Hrun Hor. destruct (wp_run _ _ _ _ _ (serve_spec req w) Hrun) as [[Hc Hw]|(p & w1 & Hacc & _)]; [|by exists p].
  destruct Hor as [->|?]; [|done]. set_solver.
Qed.

(** A 200 means every alert of the payload is stored as it was sent, and
    Alertmanager is not told anything is stored that is not; no FrameAlert but
    those the payload names is touched, whatever the answer. *)
Theorem serve_200_stored (req : Request) (w w' : W) (code : Z) (p : Payload) :
  (forall n w, fresh_read n w) ->
  serve req w = (code, w') -> accepted req w p -> NoDup (map al_Fingerprint (pl_Alerts p)) ->
  (forall n, n ∉ map (fun a => AlertObjectName (al_Fingerprint a)) (pl_Alerts p) -> fas w' !! n = fas w !! n) /\
  (code = 200 -> Forall (fun a => stored_as a w') (pl_Alerts p)).
Proof.
  intros Hfresh Hrun Hacc Hnd. destruct (wp_run _ _ _ _ _ (serve_spec req w) Hrun) as [[Hc Hw]|(p' & w1 & Hacc' & Hw1 & Hrec)].
  { split; [by intros; rewrite Hw|]. intros ->. set_solver. }
  assert (p' = p) as ->.
  { destruct Hacc as (_ & _ & _ & (b & Hb & _ & Hp) & _), Hacc' as (_ & _ & _ & (b' & Hb' & _ & Hp') & _). congruence. }
  destruct (wp_run _ _ _ _ _ (record_all_stores _ w1 Hfresh Hnd) Hrec) as (Ho & Hst & _). rewrite <- Hw1. done.
Qed.
End Store.

(** ** A store that keeps the laws, for the concrete runs *)

#[export] Instance FrameAlert_eq : EqDecision FrameAlert.
Proof. solve_decision. Defined.

(** The stored FrameAlerts, the clock, the token, and the outcomes of the next
    writes ([None] is success). *)
Record AWorld := mkAWorld {
  aw_fas : gmap string FrameAlert;
  aw_now : time;
  aw_token : string;
  aw_script : list (option apierr)
}.
Definition not_found_fa : apierr := ApiErr "not found" true false.

(** The write [f] decides on, unless the script fails it. *)
Definition fake_write (name : string) (f : option FrameAlert -> option (FrameAlert * FrameAlert)) : St AWorld (result apierr FrameAlert) :=
  fun w =>
  let w' m := mkAWorld m (aw_now w) (aw_token w) (tail (aw_script w)) in
  match hd None (aw_script w), f (aw_fas w !! name) with
  | Some e, _ => (inl e, w' (aw_fas w))
  | None, None => (inl not_found_fa, w' (aw_fas w))
  | None, Some (answer, stored) => (inr answer, w' (<[name := stored]> (aw_fas w)))
  end.
Definition keep_json (fa : FrameAlert) : option (FrameAlert * FrameAlert) :=
  if decide (json_fa fa = fa) then Some (fa, fa) else None.

Definition demo_alert : Alert := mkAlert StatusFiring {[ "alertname" := "DiskFull"; "severity" := "warning" ]} ∅
  (Time (1757930400 * second + 123) 7200) zero_time "http://prometheus/graph" "0a1b".

#[export] Instance fake_alerts : AlertApi AWorld := {|
  api_now w := (aw_now w, w);
  get_fa name w := (match aw_fas w !! name with
                    | Some fa => if decide (json_fa fa = fa /\ fa_Name fa = name) then inr fa else inl not_found_fa
                    | None => inl not_found_fa
                    end, w);
  list_fas w := (inr (map snd (map_to_list (aw_fas w))), w);
  create_fa fa := fake_write (fa_Name fa) (fun s =>
    let fa' := mkFrameAlert (fa_Name fa) (fa_Spec fa) "" None in
    match s with Some _ => None | None => Some (fa', json_fa fa') end);
  patch_fa b m := fake_write (fa_Name b) (fun s => s ≫= fun s =>
    keep_json (mkFrameAlert (fa_Name b) (merge_spec (json_spec (fa_Spec b)) (json_spec (fa_Spec m)) (fa_Spec s)) (fa_State s) (fa_LastReceivedAt s)));
  patch_fa_status b m := fake_write (fa_Name b) (fun s => s ≫= fun s =>
    keep_json (mkFrameAlert (fa_Name b) (fa_Spec s) (merge_field (fa_State b) (fa_State m) (fa_State s))
      (merge_field (json_opt_time (fa_LastReceivedAt b)) (json_opt_time (fa_LastReceivedAt m)) (fa_LastReceivedAt s))));
  get_token w := (inr (aw_token w), w);
  decode_payload body := if bool_decide (body = "{}") then Some (mkPayload "4" "firing" "frame" [demo_alert]) else None
|}.

Lemma fake_write_law name f w : match fake_write name f w with
  | (inl _, w') => aw_fas w' = aw_fas w
  | (inr answer, w') => exists stored, f (aw_fas w !! name) = Some (answer, stored) /\ aw_fas w' = <[name := stored]> (aw_fas w)
  end.
Proof.
  unfold fake_write. destruct (hd None (aw_script w)) as [e|]; [done|]. destruct (f _) as [[answer stored]|]; [|done]. by exists stored.
Qed.
Lemma keep_json_some fa p : keep_json fa = Some p -> p = (fa, fa) /\ json_fa fa = fa.
Proof. unfold keep_json. case_decide; [|done]. by intros [= <-]. Qed.

Ltac fake_write_case w Hf Hw :=
  let H := fresh "H" in
  match goal with |- context [fake_write ?n ?f w] => pose proof (fake_write_law n f w) as H end;
  destruct (fake_write _ _ w) as [[?|?] ?]; [done|]; destruct H as (? & Hf & Hw).

#[export] Instance fake_alert_laws : AlertLaws AWorld.
Proof.
  refine {| fas := aw_fas |}; try done.
  - intros name w fa. cbn [get_fa fake_alerts fst]. destruct (aw_fas w !! name); [|done]. case_decide as H; [|done].
    intros [= <-]. apply H.
  - intros fa w. cbn [create_fa fake_alerts]. fake_write_case w Hf Hw.
    destruct (aw_fas w !! fa_Name fa) eqn:E; [done|]. injection Hf as <- <-. done.
  - intros b m w. cbn [patch_fa fake_alerts]. fake_write_case w Hf Hw.
    destruct (aw_fas w !! fa_Name b) as [o|] eqn:E; [|done]. exists o. split; [done|]. cbn [mbind option_bind] in Hf.
    apply keep_json_some in Hf as [[= -> ->] Hj]. by rewrite Hj.
  - intros b m w. cbn [patch_fa_status fake_alerts]. fake_write_case w Hf Hw.
    destruct (aw_fas w !! fa_Name b) as [o|] eqn:E; [|done]. exists o. split; [done|]. cbn [mbind option_bind] in Hf.
    apply keep_json_some in Hf as [[= -> ->] Hj]. by rewrite Hj.
Defined.

Lemma fake_fresh n w : fresh_read n w.
Proof.
  unfold fresh_read. cbn [get_fa fake_alerts fas fake_alert_laws]. destruct (aw_fas w !! n) as [fa|] eqn:E; [|done].
  case_decide as H; [|done]. destruct H as [Hj Hn]. by rewrite Hj.
Qed.

Definition demo_aw : AWorld := mkAWorld ∅ (at_s 0) "s3cret" [].
Definition demo_req : Request := mkRequest "/alertmanager" "POST" "Bearer s3cret" (Some "{}").

Lemma Record_stores_once_witness :
  let name := AlertObjectName "0a1b" in
  let w1 := (Record_ demo_alert demo_aw).2 in
  stored_as demo_alert w1 /\
  Record_ demo_alert (mkAWorld (aw_fas w1) (at_s 600) "s3cret" []) = (None, mkAWorld (aw_fas w1) (at_s 600) "s3cret" []).
Proof.
  cbv zeta. assert ((Record_ demo_alert demo_aw).1 = None) as H1 by (vm_compute; reflexivity).
  set (w1 := (Record_ demo_alert demo_aw).2).
  destruct (Record_stores_once demo_alert demo_aw w1 (fake_fresh _ _)) as (Hst & _ & Hre).
  { unfold w1. rewrite <- H1. apply surjective_pairing. }
  split; [exact Hst|].
  set (fa := default (mkFrameAlert "" (alert_spec demo_alert) "" None) (aw_fas w1 !! "fa-0a1b")).
  apply (Hre (mkAWorld (aw_fas w1) (at_s 600) "s3cret" []) fa (at_s 0)).
  - split; [vm_compute; reflexivity|]. split; vm_compute; reflexivity.
  - reflexivity.
  - intros H. vm_compute in H. discriminate H.
  - vm_compute. reflexivity.
  - vm_compute. reflexivity.
Defined.

Lemma serve_gated_witness : (serve demo_req demo_aw).1 = 200 /\ exists p, accepted demo_req demo_aw p.
Proof.
  assert ((serve demo_req demo_aw).1 = 200) as H1 by (vm_compute; reflexivity). split; [exact H1|].
  apply (serve_gated demo_req demo_aw (serve demo_req demo_aw).2 200).
  - rewrite <- H1. apply surjective_pairing.
  - by left.
Defined.

Lemma demo_accepted : accepted demo_req demo_aw (mkPayload "4" "firing" "frame" [demo_alert]).
Proof.
  split; [done|]. split; [done|]. split; [by exists "s3cret"|]. split.
  - exists "{}". split; [done|]. split; [vm_compute; discriminate|done].
  - split; [done|]. split; [split; vm_compute; lia|]. constructor; [|constructor]. split; vm_compute; reflexivity.
Qed.

Lemma serve_200_stored_witness : Forall (fun a => stored_as a (serve demo_req demo_aw).2) [demo_alert].
Proof.
  assert ((serve demo_req demo_aw).1 = 200) as H1 by (vm_compute; reflexivity).
  apply (serve_200_stored demo_req demo_aw (serve demo_req demo_aw).2 (serve demo_req demo_aw).1
    (mkPayload "4" "firing" "frame" [demo_alert]) fake_fresh).
  - apply surjective_pairing.
  - exact demo_accepted.
  - apply NoDup_singleton.
  - exact H1.
Defined.
