(* ===== verification/StorageAlerts.v ===== *)
(** internal/controller/frame/framemachine_storagehealth.go: one pass of a
    machine's storage assessment. The open alerts are listed from the
    FrameAlerts, the reading is assessed against them, what is found is
    recorded, what is no longer found and not held is resolved, and the
    conditions are written on the machine. The alert writes are
    [Alerting.Record_]; the assessment is [StorageHealth.Assess]. *)
From stdpp Require Import base tactics strings list gmap.
From Stdlib Require Import ZArith Lia.
From S2P Require Import Prelude GoLib GoTime Kube StorageTypes StorageHealth Sha256 Alerting.

Open Scope Z_scope.

Definition storageAlertSource : string := "frame-storage-health".
Definition labelAlertName : string := "alertname".
Definition labelSeverity : string := "severity".
Definition labelSource : string := "source".
Definition labelMachine : string := "machine".
Definition labelMachineNamespace : string := "machine_namespace".
Definition labelNode : string := "node".
Definition labelDevice : string := "device".
Definition labelStack : string := "stack".
Definition annotationSummary : string := "summary".

Record AlertReleaseRequest := mkAlertRelease { ar_Device : string; ar_RequestedAt : time }.

(** metav1.Condition; its lastTransitionTime is SetStatusCondition's. *)
Record Condition := mkCondition {
  c_Type : string;
  c_Status : string;
  c_Reason : string;
  c_Message : string;
  c_ObservedGeneration : Z
}.

(** The parts of a FrameMachine this pass reads and writes. *)
Record FrameMachine := mkFrameMachine {
  fm_Name : string;
  fm_Namespace : string;
  fm_Generation : Z;
  fm_NodeRef : string;
  fm_AlertRelease : option AlertReleaseRequest;
  fm_Reading : MachineReading;
  fm_LastAlertReleaseAt : option time;
  fm_LastAlertRelease : string;
  fm_Conditions : list Condition
}.
Definition set_release (fm : FrameMachine) (at_ : time) (said : string) : FrameMachine :=
  mkFrameMachine (fm_Name fm) (fm_Namespace fm) (fm_Generation fm) (fm_NodeRef fm) (fm_AlertRelease fm) (fm_Reading fm)
    (Some at_) said (fm_Conditions fm).
Definition set_conditions (fm : FrameMachine) (cs : list Condition) : FrameMachine :=
  mkFrameMachine (fm_Name fm) (fm_Namespace fm) (fm_Generation fm) (fm_NodeRef fm) (fm_AlertRelease fm) (fm_Reading fm)
    (fm_LastAlertReleaseAt fm) (fm_LastAlertRelease fm) cs.

(** A namespaced name: (namespace, name). *)
Abbreviation NamespacedName := (string * string)%type.

(** The rest of the world this pass touches: the two policies, whether a
    machine exists, [time.Now], the order Go ranges over a map of alerts (its
    own each time), and apimachinery's [meta.SetStatusCondition]. *)
Class MachineApi (W : Type) := {
  get_storage_policy : St W (result apierr StorageHealthPolicySpec);
  get_network_policy : St W (result apierr NetworkHealthPolicySpec);
  get_machine : NamespacedName -> St W (option apierr);
  wall_now : St W time;
  range_alerts : gmap Key FrameAlert -> St W (list (Key * FrameAlert));
  set_status_condition : list Condition -> Condition -> list Condition
}.

(** [truncateString] of framemachine_controller.go. *)
Definition truncateString (s : string) (n : nat) : string :=
  if (rune_count s <=? n)%nat then s else string_of_runes (take n (runes s)).

Definition fa_label (fa : FrameAlert) (k : string) : string := label (fas_Labels (fa_Spec fa)) k.
Definition alert_owner (fa : FrameAlert) : NamespacedName := (fa_label fa labelMachineNamespace, fa_label fa labelMachine).
Definition alert_key (fa : FrameAlert) : Key := mkKey (fas_AlertName (fa_Spec fa)) (fa_label fa labelDevice).
Definition alert_scope (fa : FrameAlert) : Scope := fa_label fa labelStack.
Definition firing_keys (a : Assessment) : gset Key := list_to_set (map f_Key (Findings a)).

Section Pass.
Context {W : Type} `{AA : AlertApi W} `{MA : MachineApi W} `{RO : RangeOrder}.
(** [r.Alerts != nil]. *)
Context (alerts_on : bool).

Definition resolveStorageAlert (fa : FrameAlert) : St W (option apierr) :=
  now ← wall_now;
  Record_ (mkAlert StatusResolved (fas_Labels (fa_Spec fa)) (fas_Annotations (fa_Spec fa)) (fas_StartsAt (fa_Spec fa))
    now "" (fas_Fingerprint (fa_Spec fa))).

Fixpoint open_loop (machine : NamespacedName) (l : list FrameAlert) (open : gmap Key FrameAlert)
    : St W (result apierr (gmap Key FrameAlert)) :=
  match l with
  | [] => mret (inr open)
  | fa :: l' =>
    if bool_decide (fa_label fa labelSource <> storageAlertSource) || bool_decide (fa_State fa = AlertStateResolved)
    then open_loop machine l' open
    else if bool_decide (alert_owner fa = machine) then open_loop machine l' (<[alert_key fa := fa]> open)
    else
      e ← get_machine (alert_owner fa);
      if match e with Some e => err_notfound e | None => false end then
        e ← resolveStorageAlert fa;
        match e with
        | Some e => mret (inl e)
        | None => open_loop machine l' open
        end
      else open_loop machine l' open
  end.

Definition openStorageAlerts (machine : NamespacedName) : St W (result apierr (gmap Key FrameAlert)) :=
  if negb alerts_on then mret (inr ∅) else
  r ← list_fas;
  match r with
  | inl e => mret (inl e)
  | inr l => open_loop machine l ∅
  end.

(** The two maps the callee deletes from are the caller's: they come back. *)
Record Maps := mkMaps { m_alerts : gmap Key FrameAlert; m_open : Open }.

Fixpoint release_loop (a : Assessment) (device : string) (l : list (Key * FrameAlert)) (m : Maps) (closed kept : Z)
    : St W (result apierr (Z * Z) * Maps) :=
  match l with
  | [] => mret (inr (closed, kept), m)
  | (k, fa) :: l' =>
    if bool_decide (key_Device k <> device) then release_loop a device l' m closed kept
    else if bool_decide (k ∈ firing_keys a) then release_loop a device l' m closed (wrap64 (kept + 1))
    else if Keeps a k (default "" (m_open m !! k)) then
      e ← resolveStorageAlert fa;
      match e with
      | Some e => mret (inl e, m)
      | None => release_loop a device l' (mkMaps (delete k (m_alerts m)) (delete k (m_open m))) (wrap64 (closed + 1)) kept
      end
    else release_loop a device l' m closed kept
  end.

(** The request is there and newer than the last one acted on. *)
Definition release_due (fm : FrameMachine) : option AlertReleaseRequest :=
  match fm_AlertRelease fm with
  | None => None
  | Some req =>
    if negb alerts_on then None else
    match fm_LastAlertReleaseAt fm with
    | Some last => if after (ar_RequestedAt req) last then Some req else None
    | None => Some req
    end
  end.

Definition releaseStorageAlerts (fm : FrameMachine) (a : Assessment) (m : Maps) : St W (option apierr * FrameMachine * Maps) :=
  match release_due fm with
  | None => mret (None, fm, m)
  | Some req =>
    l ← range_alerts (m_alerts m);
    r ← release_loop a (ar_Device req) l m 0 0;
    match r with
    | (inl e, m) => mret (Some e, fm, m)
    | (inr (closed, kept), m) =>
      stamp ← wall_now;
      mret (None, set_release fm stamp (truncateString (ar_Device req +:+ ": " +:+ itoa closed +:+ " alert(s) closed, " +:+
        itoa kept +:+ " kept because a read still shows them") 256), m)
    end
  end.

Definition firing_alert (fm : FrameMachine) (f : Finding) (startsAt : time) : Alert :=
  mkAlert StatusFiring
    {[ labelAlertName := key_Check (f_Key f); labelSeverity := f_Severity f; labelSource := storageAlertSource;
       labelMachine := fm_Name fm; labelMachineNamespace := fm_Namespace fm; labelNode := fm_NodeRef fm;
       labelDevice := key_Device (f_Key f); labelStack := f_Scope f ]}
    {[ annotationSummary := f_Message f ]} startsAt zero_time ""
    (LocalFingerprint [storageAlertSource; fm_Namespace fm; fm_Name fm; key_Check (f_Key f); key_Device (f_Key f)]).

Fixpoint raise_loop (fm : FrameMachine) (now : time) (open : gmap Key FrameAlert) (l : list Finding) : St W (option apierr) :=
  match l with
  | [] => mret None
  | f :: l' =>
    let startsAt := match open !! f_Key f with Some fa => fas_StartsAt (fa_Spec fa) | None => now end in
    e ← Record_ (firing_alert fm f startsAt);
    match e with Some e => mret (Some e) | None => raise_loop fm now open l' end
  end.

Fixpoint resolve_loop (a : Assessment) (l : list (Key * FrameAlert)) : St W (option apierr) :=
  match l with
  | [] => mret None
  | (k, fa) :: l' =>
    if bool_decide (k ∈ firing_keys a) || Keeps a k (alert_scope fa) then resolve_loop a l'
    else
      e ← resolveStorageAlert fa;
      match e with Some e => mret (Some e) | None => resolve_loop a l' end
  end.

Definition writeStorageAlerts (fm : FrameMachine) (a : Assessment) (open : gmap Key FrameAlert) : St W (option apierr) :=
  if negb alerts_on then mret None else
  now ← wall_now;
  e ← raise_loop fm now open (Findings a);
  match e with
  | Some e => mret (Some e)
  | None => l ← range_alerts open; resolve_loop a l
  end.

Definition verdict_condition (fm : FrameMachine) (a : Assessment) (open : Open) (check : string) : Condition :=
  let v := Verdict a check open in mkCondition check (v_Status v) (v_Reason v) (v_Message v) (fm_Generation fm).

Definition set_net_unread (e : NetExpectations) (why : string) : NetExpectations :=
  mkNetExpectations (ne_MinSpeedMbps e) (ne_SaturatedPercent e) (ne_ErrorsPerMinute e) (ne_Links e) why.
Definition netUnreadText : string := "the NetworkHealthPolicy could not be read".

(** [fm] comes back with what the pass wrote on it. *)
Definition assessStorage (fm : FrameMachine) (inventoryFresh : bool) : St W FrameMachine :=
  p ← get_storage_policy;
  match (match p with inr p => inr (Some p) | inl e => if err_notfound e then inr None else inl e end) with
  | inl _ => mret fm
  | inr policy =>
    np ← get_network_policy;
    let '(netPolicy, netUnread) :=
      match np with
      | inr np => (Some np, "")
      | inl e => (None, if err_notfound e then "" else netUnreadText)
      end in
    r ← openStorageAlerts (fm_Namespace fm, fm_Name fm);
    match r with
    | inl _ => mret fm
    | inr alerts =>
      let open := fmap alert_scope alerts in
      now ← wall_now;
      let expectations := set_net_unread (NetExpectationsFrom netPolicy (fm_NodeRef fm)) netUnread in
      let a := Assess (fm_Reading fm) (ThresholdsFrom policy) expectations inventoryFresh open now in
      r ← releaseStorageAlerts fm a (mkMaps alerts open);
      let '(_, fm, m) := r in
      _ ← writeStorageAlerts fm a (m_alerts m);
      mret (set_conditions fm (foldl set_status_condition (fm_Conditions fm)
              (map (verdict_condition fm a (m_open m)) Checks)))
    end
  end.

Fixpoint resolve_all (l : list (Key * FrameAlert)) : St W (option apierr) :=
  match l with
  | [] => mret None
  | (_, fa) :: l' =>
    e ← resolveStorageAlert fa;
    match e with Some e => mret (Some e) | None => resolve_all l' end
  end.
Definition resolveStorageAlerts (machine : NamespacedName) : St W (option apierr) :=
  r ← openStorageAlerts machine;
  match r with
  | inl e => mret (Some e)
  | inr open => l ← range_alerts open; resolve_all l
  end.
End Pass.
