(* ===== verification/StorageAlertsSafety.v ===== *)
(** A pass of the storage assessment: an alert is resolved only when a read
    earned it, an admin released it or its machine is gone; a release is acted
    on once; and the conditions are the assessment's verdicts or untouched. *)
From stdpp Require Import base tactics strings list gmap.
From Stdlib Require Import ZArith Lia.
From S2P Require Import Prelude GoLib GoTime Kube StorageTypes StorageHealth StorageHealthSafety Alerting AlertingSafety StorageAlerts.

Open Scope Z_scope.

(** The reads of a pass change no FrameAlert, a range visits each entry once,
    and SetStatusCondition sets the condition of its type and no other. *)
Class MachineLaws (W : Type) `{AlertLaws W} `{MachineApi W} := {
  storage_policy_reads w : fas (get_storage_policy w).2 = fas w;
  network_policy_reads w : fas (get_network_policy w).2 = fas w;
  machine_reads n w : fas (get_machine n w).2 = fas w;
  wall_reads w : fas (wall_now w).2 = fas w;
  range_reads m w : fas (range_alerts m w).2 = fas w;
  range_perm m w : (range_alerts m w).1 ≡ₚ map_to_list m;
  set_condition_in cs c : c ∈ set_status_condition cs c;
  set_condition_other cs c c' : c_Type c' <> c_Type c -> c' ∈ set_status_condition cs c <-> c' ∈ cs
}.

Section Safety.
Context {W : Type} {AA : AlertApi W} {AL : AlertLaws W} {MA : MachineApi W} {ML : MachineLaws W} {RO : RangeOrder}.
Context (alerts_on : bool).

Definition is_resolved (w : W) (n : string) : Prop :=
  exists fa, fas w !! n = Some fa /\ fa_State fa = AlertStateResolved.

(** Between [w] and [w'] only the objects [P] were resolved. *)
Definition resolves (P : string -> Prop) (w w' : W) : Prop := forall n, is_resolved w' n -> is_resolved w n \/ P n.

Lemma resolves_same P w w' : fas w' = fas w -> resolves P w w'.
Proof. intros E n (fa & Hfa & Hs). left. exists fa. by rewrite <- E. Qed.
Lemma resolves_trans P w w1 w2 : resolves P w w1 -> resolves P w1 w2 -> resolves P w w2.
Proof. intros H1 H2 n Hn. destruct (H2 n Hn) as [Hn1|]; [|by right]. by apply H1. Qed.
Lemma resolves_mono (P Q : string -> Prop) w w' : (forall n, P n -> Q n) -> resolves P w w' -> resolves Q w w'.
Proof. intros H H1 n Hn. destruct (H1 n Hn); auto. Qed.
Lemma resolves_insert (P : string -> Prop) w w' n fa : fas w' = <[n := fa]> (fas w) ->
  (fa_State fa = AlertStateResolved -> is_resolved w n \/ P n) -> resolves P w w'.
Proof.
  intros E Hn n' (fa' & Hfa' & Hs). rewrite E in Hfa'. destruct (decide (n' = n)) as [->|Hne].
  - rewrite lookup_insert_eq in Hfa'. injection Hfa' as <-. auto.
  - rewrite lookup_insert_ne in Hfa' by done. left. by exists fa'.
Qed.
(** Runs a step whose resolutions are among [P]. *)
Lemma wp_resolves {A B} (m : St W A) (k : A -> St W B) P w0 w :
  resolves P w0 w -> wp m w (fun _ w1 => resolves P w w1) ->
  (forall a w1, resolves P w0 w1 -> wp (k a) w1 (fun _ w2 => resolves P w0 w2)) ->
  wp (m ≫= k) w (fun _ w2 => resolves P w0 w2).
Proof. intros H0 Hm Hk. apply wp_bind. eapply wp_mono; [exact Hm|]. intros a w1 H1. by apply Hk, (resolves_trans _ _ w). Qed.
Lemma wp_reads {A} (m : St W A) P w : fas (m w).2 = fas w -> wp m w (fun _ w1 => resolves P w w1).
Proof. intros. by apply wp_intro, resolves_same. Qed.

(** What one Record call can resolve, whether or not it succeeds. *)
Definition resolved_by (a : Alert) (n : string) : Prop :=
  n = AlertObjectName (al_Fingerprint a) /\ al_Status a = StatusResolved.

Lemma alert_state_resolved a : alert_state a = AlertStateResolved -> al_Status a = StatusResolved.
Proof. unfold alert_state. by case_bool_decide. Qed.

Lemma patchStatus_resolves a fa now w : fa_Name fa = AlertObjectName (al_Fingerprint a) ->
  wp (patchStatus_fa fa (alert_state a) now) w (fun _ w' => resolves (resolved_by a) w w').
Proof.
  intros Hname. unfold patchStatus_fa. apply wp_bind, wp_intro, wp_ret.
  match goal with |- context [patch_fa_status ?b ?m w] => pose proof (patch_status_spec b m w) as Hp end.
  destruct (patch_fa_status _ _ w) as [[e|fa'] w']; cbn [snd]; [by apply resolves_same|].
  destruct Hp as (s & Hs & Hfa & Hw). eapply resolves_insert; [exact Hw|]. rewrite Hfa. cbn [fa_State]. unfold merge_field.
  case_decide; [intros E; left; by exists s|]. intros E. right. split; [done|]. by apply alert_state_resolved.
Qed.

Lemma Record_resolves a w : wp (Record_ a) w (fun _ w' => resolves (resolved_by a) w w').
Proof.
  unfold Record_. eapply wp_resolves; [by apply resolves_same|apply wp_reads, now_reads|]. intros now w1 H1.
  apply wp_bind, wp_intro. set (name := AlertObjectName _). pose proof (get_reads name w1) as Hg.
  pose proof (get_named name w1) as Hnamed. destruct (get_fa name w1) as [[e|fa] w2]; cbn [fst snd] in *;
    (assert (resolves (resolved_by a) w w2) as H2 by (eapply resolves_trans; [exact H1|by apply resolves_same])); clear H1.
  - destruct (err_notfound e); [|by apply wp_ret]. apply wp_bind, wp_intro.
    match goal with |- context [create_fa ?b _] => pose proof (create_spec b w2) as Hc end.
    destruct (create_fa _ w2) as [[e'|fa] w3]; cbn [fst snd fa_Name] in *.
    + apply wp_ret. eapply resolves_trans; [exact H2|by apply resolves_same].
    + destruct Hc as (_ & Hname & Hfa & Hw). eapply wp_mono; [by apply patchStatus_resolves|]. intros r w4 H4.
      eapply resolves_trans; [exact H2|]. eapply resolves_trans; [|exact H4]. eapply resolves_insert; [exact Hw|].
      rewrite Hfa. done.
  - specialize (Hnamed fa eq_refl). apply wp_bind.
    apply (wp_mono _ _ (fun r w3 => resolves (resolved_by a) w w3 /\ forall fa', r = inr fa' -> fa_Name fa' = name)).
    { destruct (negb _); [|apply wp_ret; split; [done|by intros ? [= <-]]]. apply wp_intro.
      match goal with |- context [patch_fa ?b ?m _] => pose proof (patch_spec b m w2) as Hp end.
      destruct (patch_fa _ _ w2) as [[e|fa'] w3]; cbn [fst snd].
      - split; [|done]. eapply resolves_trans; [exact H2|by apply resolves_same].
      - destruct Hp as (s & Hs & Hfa & Hw). split.
        + eapply resolves_trans; [exact H2|]. eapply resolves_insert; [exact Hw|]. rewrite Hfa. intros E. left. by exists s.
        + intros ? [= <-]. change (fa_Name (json_fa fa') = name). by rewrite Hfa. }
    intros [e|fa'] w3 [H3 Hn3]; [by apply wp_ret|]. destruct (_ || _); [|by apply wp_ret].
    eapply wp_mono; [by apply patchStatus_resolves, Hn3|]. intros r w4 H4. by eapply resolves_trans.
Qed.

(** The object a FrameAlert's resolution goes to. *)
Definition object_of (fa : FrameAlert) : string := AlertObjectName (fas_Fingerprint (fa_Spec fa)).

Lemma resolveStorageAlert_resolves fa P w : P (object_of fa) ->
  wp (resolveStorageAlert fa) w (fun _ w' => resolves P w w').
Proof.
  intros HP. unfold resolveStorageAlert. eapply wp_resolves; [by apply resolves_same|apply wp_reads, wall_reads|]. intros now w1 H1.
  eapply wp_mono; [apply Record_resolves|]. intros r w2 H2. eapply resolves_trans; [exact H1|].
  eapply resolves_mono; [|exact H2]. intros n [-> _]. exact HP.
Qed.
Lemma firing_resolves fm f t P w : wp (Record_ (firing_alert fm f t)) w (fun _ w' => resolves P w w').
Proof. eapply wp_mono; [apply Record_resolves|]. intros r w2. apply resolves_mono. intros n [_ H]. done. Qed.

(** ** The open alerts *)

(** [fa] is listed, ours, and not resolved as listed. *)
Definition listed_open (l : list FrameAlert) (fa : FrameAlert) : Prop :=
  fa ∈ l /\ fa_label fa labelSource = storageAlertSource /\ fa_State fa <> AlertStateResolved.
(** Its machine is gone. *)
Definition machine_gone (fa : FrameAlert) : Prop :=
  exists w e, (get_machine (alert_owner fa) w).1 = Some e /\ err_notfound e = true.
Definition orphan_object (l : list FrameAlert) (n : string) : Prop :=
  exists fa, n = object_of fa /\ listed_open l fa /\ machine_gone fa.
Definition open_of (l : list FrameAlert) (machine : NamespacedName) (m : gmap Key FrameAlert) : Prop :=
  forall k fa, m !! k = Some fa -> k = alert_key fa /\ listed_open l fa /\ alert_owner fa = machine.

Lemma open_loop_ok l0 machine l m w : l ⊆ l0 -> open_of l0 machine m ->
  wp (open_loop machine l m) w (fun r w' => resolves (orphan_object l0) w w' /\ forall m', r = inr m' -> open_of l0 machine m').
Proof.
  revert m w. induction l as [|fa l IH]; intros m w Hsub Hm.
  { apply wp_ret. split; [by apply resolves_same|]. by intros ? [= <-]. }
  cbn [open_loop]. assert (l ⊆ l0) as Hsub' by set_solver. assert (fa ∈ l0) as Hin by set_solver.
  destruct (bool_decide (fa_label fa labelSource <> storageAlertSource) || bool_decide (fa_State fa = AlertStateResolved)) eqn:E;
    [by apply IH|].
  apply orb_false_iff in E as [Hsrc%bool_decide_eq_false%dec_stable Hst%bool_decide_eq_false].
  case_bool_decide as Ho.
  { apply IH; [done|]. intros k fa' Hk. destruct (decide (k = alert_key fa)) as [->|Hne].
    - rewrite lookup_insert_eq in Hk. by injection Hk as <-.
    - rewrite lookup_insert_ne in Hk by done. by apply Hm. }
  apply wp_bind, wp_intro. pose proof (machine_reads (alert_owner fa) w) as Hr.
  destruct (get_machine (alert_owner fa) w) as [e w1] eqn:Eg. cbn [fst snd] in *.
  assert (forall P w2, resolves P w1 w2 -> resolves P w w2) as Hback.
  { intros P w2. apply resolves_trans. by apply resolves_same. }
  destruct e as [e|]; [destruct (err_notfound e) eqn:Ee|]; try (eapply wp_mono; [by apply IH|]; intros r w2 [H1 H2]; auto).
  apply wp_bind. eapply wp_mono; [apply (resolveStorageAlert_resolves fa (orphan_object l0))|].
  { exists fa. split; [done|]. split; [done|]. exists w, e. by rewrite Eg. }
  intros [e'|] w2 H2; [apply wp_ret; split; [by apply Hback|done]|].
  eapply wp_mono; [by apply IH|]. intros r w3 [H3 H4]. split; [|done]. apply Hback. by eapply resolves_trans.
Qed.

(** The list the pass works from, if it got one. *)
Definition list_read (w : W) (l : list FrameAlert) : Prop :=
  l = [] \/ alerts_on = true /\ exists w1, fas w1 = fas w /\ (list_fas w1).1 = inr l.

Lemma openStorageAlerts_ok machine w :
  wp (openStorageAlerts alerts_on machine) w (fun r w' => exists l, list_read w l /\ resolves (orphan_object l) w w' /\
    forall m, r = inr m -> open_of l machine m).
Proof.
  unfold openStorageAlerts, list_read. destruct alerts_on; cbn [negb].
  2: { apply wp_ret. exists []. split; [by left|]. split; [by apply resolves_same|]. by intros ? [= <-]. }
  apply wp_bind, wp_intro. pose proof (list_reads w) as Hr. destruct (list_fas w) as [[e|l] w1] eqn:El; cbn [fst snd] in *.
  { apply wp_ret. exists []. split; [by left|]. split; [by apply resolves_same|done]. }
  eapply wp_mono; [by apply (open_loop_ok l machine l ∅ w1)|]. intros r w2 [H1 H2]. exists l.
  split; [right; split; [done|]; exists w; by rewrite El|]. split; [|done].
  eapply resolves_trans; [by apply resolves_same|exact H1].
Qed.

(** ** Releasing and resolving *)

(** The release closes an alert that is held, does not fire, and is of the
    requested device. *)
Definition released (a : Assessment) (device : string) (alerts : gmap Key FrameAlert) (n : string) : Prop :=
  exists k fa, alerts !! k = Some fa /\ n = object_of fa /\ key_Device k = device /\ k ∉ firing_keys a /\ Keeps a k (alert_scope fa) = true.
Definition cleared (a : Assessment) (alerts : gmap Key FrameAlert) (n : string) : Prop :=
  exists k fa, alerts !! k = Some fa /\ n = object_of fa /\ k ∉ firing_keys a /\ Keeps a k (alert_scope fa) = false.

Lemma release_loop_ok a device alerts l m c kp w : NoDup l.*1 ->
  (forall k fa, (k, fa) ∈ l -> alerts !! k = Some fa /\ m_open m !! k = Some (alert_scope fa)) -> m_alerts m ⊆ alerts ->
  wp (release_loop a device l m c kp) w (fun r w' => resolves (released a device alerts) w w' /\ m_alerts r.2 ⊆ alerts).
Proof.
  revert m c kp w. induction l as [|[k fa] l IH]; intros m c kp w Hnd Hl Hm; [apply wp_ret; split; [by apply resolves_same|done]|].
  cbn [release_loop]. apply NoDup_cons in Hnd as [Hk Hnd].
  assert (forall k fa, (k, fa) ∈ l -> alerts !! k = Some fa /\ m_open m !! k = Some (alert_scope fa)) as Hl' by (intros; apply Hl; by right).
  case_bool_decide as Hd; [by apply IH|]. case_bool_decide as Hf; [by apply IH|].
  destruct (Hl k fa) as [Ha Ho]; [by left|]. rewrite Ho. change (default "" (Some (alert_scope fa))) with (alert_scope fa). destruct (Keeps a k (alert_scope fa)) eqn:EK; [|by apply IH].
  apply wp_bind. eapply wp_mono; [apply (resolveStorageAlert_resolves fa (released a device alerts))|].
  { exists k, fa. split; [done|]. split; [done|]. by split. }
  intros [e|] w1 H1; [by apply wp_ret|]. eapply wp_mono; [apply IH; [done| |]|].
  - intros k' fa' Hin. destruct (Hl' k' fa' Hin) as [??]. split; [done|]. cbn [m_open]. etransitivity; [apply (lookup_delete_ne (M:=gmap Key))|done].
    intros ->. apply Hk, list_elem_of_fmap. by exists (k', fa').
  - cbn [m_alerts]. etransitivity; [apply delete_subseteq|done].
  - intros r w2 [H2 H3]. split; [by eapply resolves_trans|done].
Qed.

Lemma releaseStorageAlerts_ok fm a alerts w :
  wp (releaseStorageAlerts alerts_on fm a (mkMaps alerts (alert_scope <$> alerts))) w (fun r w' =>
    resolves (fun n => exists req, release_due alerts_on fm = Some req /\ released a (ar_Device req) alerts n) w w' /\
    m_alerts r.2 ⊆ alerts).
Proof.
  unfold releaseStorageAlerts. destruct (release_due alerts_on fm) as [req|] eqn:Er;
    [|apply wp_ret; split; [by apply resolves_same|done]].
  set (P := fun n : string => exists req0, _). apply wp_bind, wp_intro. cbn [m_alerts]. pose proof (range_reads alerts w) as Hr. pose proof (range_perm alerts w) as Hp.
  destruct (range_alerts alerts w) as [l w1]. cbn [fst snd] in *. apply wp_bind.
  eapply wp_mono; [apply (release_loop_ok a (ar_Device req) alerts)|].
  - rewrite Hp. apply NoDup_fst_map_to_list.
  - intros k fa Hin. rewrite Hp in Hin. apply elem_of_map_to_list in Hin. split; [done|]. cbn [m_open].
    etransitivity; [apply (lookup_fmap (M:=gmap Key))|by rewrite Hin].
  - done.
  - intros [r m] w2 [H2 H3]. cbn [snd] in H3. assert (resolves P w w2) as HP.
    { eapply resolves_trans; [by apply resolves_same|]. eapply resolves_mono; [|exact H2]. intros n Hn. by exists req. }
    destruct r as [e|[closed kept]]; [by apply wp_ret|]. apply wp_bind, wp_intro, wp_ret. split; [|done].
    eapply resolves_trans; [exact HP|]. apply resolves_same, wall_reads.
Qed.

Lemma raise_loop_resolves fm now open l P w : wp (raise_loop fm now open l) w (fun _ w' => resolves P w w').
Proof.
  revert w. induction l as [|f l IH]; intros w; [apply wp_ret; by apply resolves_same|]. cbn [raise_loop].
  eapply wp_resolves; [by apply resolves_same|apply firing_resolves|]. intros [e|] w1 H1; [by apply wp_ret|].
  eapply wp_mono; [apply IH|]. intros r w2 H2. by eapply resolves_trans.
Qed.

Lemma resolve_loop_ok a alerts l w : (forall k fa, (k, fa) ∈ l -> alerts !! k = Some fa) ->
  wp (resolve_loop a l) w (fun _ w' => resolves (cleared a alerts) w w').
Proof.
  revert w. induction l as [|[k fa] l IH]; intros w Hl; [apply wp_ret; by apply resolves_same|]. cbn [resolve_loop].
  assert (forall k fa, (k, fa) ∈ l -> alerts !! k = Some fa) as Hl' by (intros; apply Hl; by right).
  destruct (bool_decide (k ∈ firing_keys a) || Keeps a k (alert_scope fa)) eqn:E; [by apply IH|].
  apply orb_false_iff in E as [Hf%bool_decide_eq_false HK].
  eapply wp_resolves; [by apply resolves_same|apply resolveStorageAlert_resolves|].
  { exists k, fa. split; [apply Hl; by left|done]. }
  intros [e|] w1 H1; [by apply wp_ret|]. eapply wp_mono; [by apply IH|]. intros r w2 H2. by eapply resolves_trans.
Qed.

Lemma writeStorageAlerts_ok fm a alerts open w : open ⊆ alerts ->
  wp (writeStorageAlerts alerts_on fm a open) w (fun _ w' => resolves (cleared a alerts) w w').
Proof.
  intros Hsub. unfold writeStorageAlerts. destruct (negb alerts_on); [by apply wp_ret, resolves_same|].
  eapply wp_resolves; [by apply resolves_same|apply wp_reads, wall_reads|]. intros now w1 H1.
  eapply wp_resolves; [done|apply raise_loop_resolves|]. intros [e|] w2 H2; [by apply wp_ret|].
  apply wp_bind, wp_intro. pose proof (range_reads open w2) as Hr. pose proof (range_perm open w2) as Hp.
  destruct (range_alerts open w2) as [l w3]. cbn [fst snd] in *. eapply wp_mono; [apply (resolve_loop_ok a alerts)|].
  - intros k fa Hin. rewrite Hp in Hin. apply elem_of_map_to_list in Hin. by eapply lookup_weaken.
  - intros r w4 H4. eapply resolves_trans; [exact H2|]. eapply resolves_trans; [by apply resolves_same|exact H4].
Qed.

(** ** One pass *)

(** The assessment a pass computes, for the policies it read and its clock. *)
Definition assessed (fm : FrameMachine) (fresh : bool) (policy : option StorageHealthPolicySpec) (net : NetExpectations)
    (alerts : gmap Key FrameAlert) (now : time) : Assessment :=
  Assess (fm_Reading fm) (ThresholdsFrom policy) net fresh (alert_scope <$> alerts) now.

Lemma foldl_conditions cs l c : NoDup (map c_Type l) -> c ∈ l -> c ∈ foldl set_status_condition cs l.
Proof.
  revert cs. induction l as [|x l IH]; intros cs Hnd Hc; [by apply elem_of_nil in Hc|]. cbn [foldl map] in *. apply NoDup_cons in Hnd as [Hx Hnd].
  apply elem_of_cons in Hc as [->|Hc]; [|by apply IH]. clear IH Hnd. pose proof (set_condition_in cs x) as Hin. revert Hin.
  generalize (set_status_condition cs x). induction l as [|y l IH]; intros cs' Hin; [done|]. cbn [foldl map] in *.
  apply IH; [set_solver|]. apply set_condition_other; [|done]. intros E. apply Hx. rewrite E. by left.
Qed.

(** A pass, from start to end: nothing concluded, or an assessment whose
    verdicts are the conditions. *)
Definition pass_result (fm : FrameMachine) (fresh : bool) (w : W) (fm' : FrameMachine) (w' : W) : Prop :=
  exists l, list_read w l /\
  (fm' = fm /\ resolves (orphan_object l) w w' \/
   exists policy net alerts now open, open_of l (fm_Namespace fm, fm_Name fm) alerts /\
     let a := assessed fm fresh policy net alerts now in
     (forall check, check ∈ Checks -> verdict_condition fm a open check ∈ fm_Conditions fm') /\
     resolves (fun n => orphan_object l n \/ cleared a alerts n \/
       exists req, release_due alerts_on fm = Some req /\ released a (ar_Device req) alerts n) w w').

Lemma list_read_same w w1 l : fas w1 = fas w -> list_read w1 l -> list_read w l.
Proof. unfold list_read. intros E [->|(Ha & w2 & Hw2 & Hl)]; [by left|]. right. split; [done|]. exists w2. by rewrite <- E. Qed.

Lemma Checks_nodup : NoDup Checks.
Proof. apply (bool_decide_unpack _). vm_compute. exact I. Qed.

Lemma release_fm fm a m w : wp (releaseStorageAlerts alerts_on fm a m) w (fun r _ => fm_Generation r.1.2 = fm_Generation fm).
Proof.
  unfold releaseStorageAlerts. destruct (release_due alerts_on fm) as [req|]; [|by apply wp_ret].
  apply wp_bind, wp_intro, wp_bind, wp_intro. destruct (release_loop _ _ _ _ _ _ _) as [[[e|[c k]] m'] w1]; cbn [fst snd];
    [by apply wp_ret|]. by apply wp_bind, wp_intro, wp_ret.
Qed.

Lemma assessStorage_ok fm fresh w : wp (assessStorage alerts_on fm fresh) w (pass_result fm fresh w).
Proof.
  unfold assessStorage. apply wp_bind, wp_intro. pose proof (storage_policy_reads w) as Hp.
  destruct (get_storage_policy w) as [p w1]. cbn [fst snd] in *.
  destruct (match p with inr p => _ | inl e => _ end) as [e|policy].
  { apply wp_ret. exists []. split; [by left|]. left. split; [done|]. by apply resolves_same. }
  apply wp_bind, wp_intro. pose proof (network_policy_reads w1) as Hn. destruct (get_network_policy w1) as [np w2]. cbn [fst snd] in *.
  destruct (match np with inr np => _ | inl e => _ end) as [netPolicy netUnread]. rewrite Hp in Hn. clear Hp np p w1.
  apply wp_bind. eapply wp_mono; [apply openStorageAlerts_ok|]. intros r w3 (l & Hl & H3 & Hm). apply (list_read_same w) in Hl; [|done].
  assert (resolves (orphan_object l) w w3) as H3' by (eapply resolves_trans; [by apply resolves_same|exact H3]). clear H3.
  destruct r as [e|alerts]; [apply wp_ret; exists l; split; [done|]; by left|]. specialize (Hm alerts eq_refl).
  cbv zeta. apply wp_bind, wp_intro. pose proof (wall_reads w3) as Hw. destruct (wall_now w3) as [now w4]. cbn [fst snd] in *.
  set (net := set_net_unread _ _). fold (assessed fm fresh policy net alerts now).
  set (a := assessed fm fresh policy net alerts now). set (P := fun n : string => orphan_object l n \/ cleared a alerts n \/
       exists req, release_due alerts_on fm = Some req /\ released a (ar_Device req) alerts n).
  assert (resolves P w w4) as H4.
  { eapply resolves_trans; [|by apply resolves_same]. eapply resolves_mono; [|exact H3']. intros n Hn'. by left. }
  apply wp_bind, wp_intro. pose proof (wp_run _ _ _ _ _ (releaseStorageAlerts_ok fm a alerts w4) (surjective_pairing _)) as [H5 Hsub].
  pose proof (wp_run _ _ _ _ _ (release_fm fm a (mkMaps alerts (alert_scope <$> alerts)) w4) (surjective_pairing _)) as Hgen.
  destruct (releaseStorageAlerts _ _ _ _ w4) as [[[e fm'] m] w5]. cbn [fst snd] in *.
  apply wp_bind. eapply wp_mono; [by apply (writeStorageAlerts_ok fm' a alerts)|]. intros r w6 H6. apply wp_ret.
  exists l. split; [done|]. right. exists policy, net, alerts, now, (m_open m). split; [done|]. cbv zeta. fold a. split.
  - intros check Hc. assert (verdict_condition fm a (m_open m) check = verdict_condition fm' a (m_open m) check) as ->
      by (unfold verdict_condition; by rewrite Hgen).
    apply foldl_conditions; [rewrite map_map; cbn [c_Type verdict_condition]; rewrite map_id; apply Checks_nodup|].
    apply list_elem_of_In, in_map, list_elem_of_In, Hc.
  - fold P. eapply resolves_trans; [exact H4|]. eapply resolves_trans.
    + eapply resolves_mono; [|exact H5]. intros n Hr. right. by right.
    + eapply resolves_mono; [|exact H6]. intros n Hr. right. by left.
Qed.

(** Why a pass may resolve an alert [fa] of the machine [fm]: the finding is
    gone and the stack that raised it was read and lists the device, or an
    admin released that device while a read held the alert and none showed the
    fault. *)
Inductive earned (fm : FrameMachine) (fresh : bool) (fa : FrameAlert) : Prop :=
| earned_read policy net alerts now :
    alerts !! alert_key fa = Some fa -> alert_key fa ∉ firing_keys (assessed fm fresh policy net alerts now) ->
    (alert_scope fa ∈ [ScopeMD; ScopeZFS; ScopeDrives; ScopeSMART; ScopeNet] ->
     read_lists (fm_Reading fm) net fresh now (alert_scope fa) (fa_label fa labelDevice)) ->
    earned fm fresh fa
| earned_release policy net alerts now req :
    alerts !! alert_key fa = Some fa -> alert_key fa ∉ firing_keys (assessed fm fresh policy net alerts now) ->
    Keeps (assessed fm fresh policy net alerts now) (alert_key fa) (alert_scope fa) = true ->
    release_due alerts_on fm = Some req -> ar_Device req = fa_label fa labelDevice ->
    earned fm fresh fa.

(** A pass resolves a FrameAlert only with a reason: the object is a
    storage-health alert, listed as not resolved, and either it belongs to this
    machine and its resolution is earned (the fault is no longer found and the
    stack was read and lists the device, or an admin released a device a read
    was holding), or the machine it belongs to no longer exists. A failed read
    of the policy, of the alerts or of a stack resolves nothing. *)
Theorem pass_resolves_with_reason (fm : FrameMachine) (fresh : bool) (w w' : W) (fm' : FrameMachine) (n : string) :
  assessStorage alerts_on fm fresh w = (fm', w') -> is_resolved w' n -> ~ is_resolved w n ->
  exists l fa, list_read w l /\ listed_open l fa /\ n = object_of fa /\
    (alert_owner fa = (fm_Namespace fm, fm_Name fm) /\ earned fm fresh fa \/ machine_gone fa).
Proof.
  intros Hrun Hn Hnot. destruct (wp_run _ _ _ _ _ (assessStorage_ok fm fresh w) Hrun) as (l & Hl & [[-> Hres]|Hpass]).
  - destruct (Hres n Hn) as [|(fa & -> & Hfa & Hgone)]; [done|]. exists l, fa. auto.
  - destruct Hpass as (policy & net & alerts & now & open & Hopen & _ & Hres). exists l.
    destruct (Hres n Hn) as [|[(fa & -> & Hfa & Hgone)|[(k & fa & Hk & -> & Hf & HK)|(req & Hreq & k & fa & Hk & -> & Hd & Hf & HK)]]];
      [done|exists fa; by auto|..]; destruct (Hopen k fa Hk) as (-> & Hlo & Ho); exists fa;
      (split; [done|]; split; [done|]; split; [done|]; left; split; [done|]).
    + apply (earned_read _ _ _ policy net alerts now); [done|done|]. intros Hs.
      apply (unlisted_kept _ (ThresholdsFrom policy) net fresh (alert_scope <$> alerts) now (alert_key fa)); [|done|exact HK].
      etransitivity; [apply (lookup_fmap (M:=gmap Key))|by rewrite Hk].
    + by apply (earned_release _ _ _ policy net alerts now req).
Qed.

(** The conditions are the assessment's: either nothing was concluded (the
    policy or the alerts could not be read) and the machine is left exactly as
    it was, or each of the eight conditions is the verdict of one assessment. *)
Theorem pass_conditions (fm : FrameMachine) (fresh : bool) (w w' : W) (fm' : FrameMachine) :
  assessStorage alerts_on fm fresh w = (fm', w') ->
  fm' = fm \/ exists policy net alerts now open, forall check, check ∈ Checks ->
    verdict_condition fm (assessed fm fresh policy net alerts now) open check ∈ fm_Conditions fm'.
Proof.
  intros Hrun. destruct (wp_run _ _ _ _ _ (assessStorage_ok fm fresh w) Hrun) as (l & Hl & [[-> _]|Hpass]); [by left|right].
  destruct Hpass as (policy & net & alerts & now & open & _ & Hc & _). by exists policy, net, alerts, now, open.
Qed.

(** The machine as its status comes back from the API server. *)
Definition release_stored (fm : FrameMachine) : FrameMachine :=
  mkFrameMachine (fm_Name fm) (fm_Namespace fm) (fm_Generation fm) (fm_NodeRef fm) (fm_AlertRelease fm) (fm_Reading fm)
    (option_map json_time (fm_LastAlertReleaseAt fm)) (fm_LastAlertRelease fm) (fm_Conditions fm).

(** A release is acted on once. When a release that was due succeeds and
    its requestedAt, in whole seconds, is not ahead of the manager's clock, the
    stamp it leaves makes every later pass over the same request do nothing,
    also after the stamp was cut to the second by the API server. *)
Theorem release_acts_once (fm fm' : FrameMachine) (a : Assessment) (m m' : Maps) (w w' : W) (req : AlertReleaseRequest) :
  release_due alerts_on fm = Some req ->
  releaseStorageAlerts alerts_on fm a m w = (None, fm', m', w') ->
  truncate_second (ar_RequestedAt req) = ar_RequestedAt req ->
  (forall stamp, fm_LastAlertReleaseAt fm' = Some stamp -> unix_nano (ar_RequestedAt req) <= unix_nano stamp) ->
  forall a2 m2 w2, releaseStorageAlerts alerts_on (release_stored fm') a2 m2 w2 = (None, release_stored fm', m2, w2).
Proof.
  intros Hdue Hrun Hsec Hclock a2 m2 w2. unfold releaseStorageAlerts in Hrun. rewrite Hdue in Hrun.
  rewrite !St_bind_run in Hrun. destruct (range_alerts _ w) as [l w1]. cbn [fst snd] in Hrun.
  destruct (release_loop _ _ _ _ _ _ w1) as [[[e|[c k]] m1] w3]; cbn [fst snd] in Hrun; [done|].
  rewrite St_bind_run in Hrun. destruct (wall_now w3) as [stamp w4]. cbn [fst snd mret St_ret] in Hrun.
  injection Hrun as <- <- <-. specialize (Hclock stamp eq_refl).
  assert (release_due alerts_on (release_stored (set_release fm stamp (truncateString (ar_Device req +:+ ": " +:+ itoa c +:+
    " alert(s) closed, " +:+ itoa k +:+ " kept because a read still shows them") 256))) = None) as Hnone.
  { unfold release_due in *. cbn [fm_AlertRelease fm_LastAlertReleaseAt release_stored set_release option_map] in *.
    destruct (fm_AlertRelease fm) as [req0|]; [|done]. destruct (negb alerts_on); [done|].
    assert (req0 = req) as -> by (destruct (fm_LastAlertReleaseAt fm); [destruct (after _ _)|]; congruence).
    unfold after. cbn [json_time utc truncate_second unix_nano]. destruct (_ <? _) eqn:E; [|done]. bool_to_prop.
    destruct (ar_RequestedAt req) as [rq z]. unfold truncate_second in Hsec. injection Hsec as Hsec. cbn [unix_nano] in *.
    assert (second = 1000000000) as Hs by done. rewrite Hs in *. dlia. }
  unfold releaseStorageAlerts. by rewrite Hnone.
Qed.
End Safety.

(** ** Concrete passes *)

(** No policies, one machine, and the FrameAlerts of [fake_alerts]. *)
#[export] Instance fake_machines : MachineApi AWorld := {|
  get_storage_policy w := (inl not_found_fa, w);
  get_network_policy w := (inl not_found_fa, w);
  get_machine n w := (if bool_decide (n = ("ns", "m1")) then None else Some not_found_fa, w);
  wall_now w := (aw_now w, w);
  range_alerts m w := (map_to_list m, w);
  set_status_condition cs c := c :: filter (fun c' => c_Type c' <> c_Type c) cs
|}.
#[export] Instance fake_machine_laws : MachineLaws AWorld.
Proof.
  split; try done.
  - intros cs c. by left.
  - intros cs c c' Hne. cbn [set_status_condition fake_machines]. rewrite elem_of_cons, list_elem_of_filter. split; [|by right].
    intros [->|[_ ?]]; done.
Defined.
#[local] Instance demo_range_links : RangeOrder := fun m => elements (dom m).

(** An open alert of check [check] on [device], raised from ZFS. *)
Definition demo_fa (fp check device : string) : FrameAlert :=
  mkFrameAlert (AlertObjectName fp)
    (mkFASpec fp check "critical" ""
       {[ labelAlertName := check; labelSource := storageAlertSource; labelMachine := "m1"; labelMachineNamespace := "ns";
          labelDevice := device; labelStack := ScopeZFS ]} ∅ (at_s 0) None "")
    AlertStateFiring (Some (at_s 0)).
Definition demo_machine (st : MachineReading) (req : option AlertReleaseRequest) : FrameMachine :=
  mkFrameMachine "m1" "ns" 1 "n1" req st None "" [].
(** A degraded pool that reads healthy again, and one no read lists. *)
Definition demo_healthy : MachineReading := demo_reading [demo_pool "tank" "ONLINE" (Some 20)] [demo_disk "S1" (Some true)].
Definition demo_alert_world : AWorld :=
  mkAWorld {[ "fa-aa" := demo_fa "aa" CheckDegraded "tank"; "fa-bb" := demo_fa "bb" CheckDegraded "gone" ]} (at_s 60) "" [].

Definition demo_pass (req : option AlertReleaseRequest) : FrameMachine * AWorld :=
  assessStorage true (demo_machine demo_healthy req) false demo_alert_world.
Definition state_of (w : AWorld) (n : string) : option string := fa_State <$> (aw_fas w !! n).

(** The healthy pool's alert is resolved, the unlisted one's is not, unless an
    admin releases it. *)
Example demo_pass_states :
  (state_of (demo_pass None).2 "fa-aa", state_of (demo_pass None).2 "fa-bb") = (Some "Resolved", Some "Firing").
Proof. vm_compute. reflexivity. Qed.
Example demo_release_states :
  let p := demo_pass (Some (mkAlertRelease "gone" (at_s 30))) in
  (state_of p.2 "fa-aa", state_of p.2 "fa-bb", fm_LastAlertRelease p.1) =
  (Some "Resolved", Some "Resolved", "gone: 1 alert(s) closed, 0 kept because a read still shows them").
Proof. vm_compute. reflexivity. Qed.

Lemma state_resolved w n : state_of w n = Some AlertStateResolved -> is_resolved w n.
Proof. unfold state_of, is_resolved. simpl. destruct (aw_fas w !! n) as [fa|]; [|done]. intros [= <-]. by exists fa. Qed.
Lemma state_not_resolved w n : state_of w n <> Some AlertStateResolved -> ~ is_resolved w n.
Proof. intros Hs (fa & Hfa & Hst). apply Hs. unfold state_of. simpl in Hfa. rewrite Hfa. simpl. by rewrite Hst. Qed.

Lemma pass_resolves_with_reason_witness :
  exists l fa, list_read true demo_alert_world l /\ listed_open l fa /\ "fa-aa" = object_of fa /\
    (alert_owner fa = ("ns", "m1") /\ earned true (demo_machine demo_healthy None) false fa \/ machine_gone fa).
Proof.
  apply (pass_resolves_with_reason true (demo_machine demo_healthy None) false demo_alert_world (demo_pass None).2 (demo_pass None).1).
  - apply surjective_pairing.
  - apply state_resolved. vm_compute. reflexivity.
  - apply state_not_resolved. vm_compute. discriminate.
Defined.

Lemma pass_conditions_witness :
  (demo_pass None).1 = demo_machine demo_healthy None \/
  exists policy net alerts now open, forall check, check ∈ Checks ->
    verdict_condition (demo_machine demo_healthy None) (assessed (demo_machine demo_healthy None) false policy net alerts now) open check
      ∈ fm_Conditions (demo_pass None).1.
Proof.
  apply (pass_conditions true (demo_machine demo_healthy None) false demo_alert_world (demo_pass None).2 (demo_pass None).1).
  apply surjective_pairing.
Defined.

Lemma release_acts_once_witness :
  let fm := demo_machine demo_healthy (Some (mkAlertRelease "gone" (at_s 30))) in
  let r := releaseStorageAlerts true fm empty_assessment (mkMaps ∅ ∅) demo_alert_world in
  releaseStorageAlerts true (release_stored r.1.1.2) empty_assessment (mkMaps ∅ ∅) r.2 =
    (None, release_stored r.1.1.2, mkMaps ∅ ∅, r.2).
Proof.
  cbv zeta. set (fm := demo_machine _ _). set (r := releaseStorageAlerts _ _ _ _ _).
  apply (release_acts_once true fm r.1.1.2 empty_assessment (mkMaps ∅ ∅) r.1.2 demo_alert_world r.2 (mkAlertRelease "gone" (at_s 30))).
  - vm_compute. reflexivity.
  - vm_compute. reflexivity.
  - vm_compute. reflexivity.
  - intros stamp H. vm_compute in H. injection H as <-. vm_compute. discriminate.
Defined.
