(* ===== verification/GoNet.v ===== *)
(** The parts of Go's net package the provisioning code uses: ParseIP and
    ParseCIDR (both over netip.ParseAddr), IP.To4, IPNet.Contains and
    JoinHostPort. An address is its 128-bit number; an IPv4 address is the
    number of its IPv4-mapped form, as net.IP has it after ParseIP. *)
From stdpp Require Import base tactics strings list.
From Stdlib Require Import ZArith Lia Ascii.
From S2P Require Import Prelude GoLib.

Open Scope Z_scope.

Definition dot : ascii := byte 46.
Definition colon : ascii := byte 58.
Definition slash : ascii := byte 47.
Definition percent : ascii := byte 37.

(** The bytes before the first [c], and those after it when there is one. *)
Fixpoint cut_at (c : ascii) (l : bytes) : bytes * option bytes :=
  match l with
  | [] => ([], None)
  | x :: l' => if Ascii.eqb x c then ([], Some l') else let '(a, b) := cut_at c l' in (x :: a, b)
  end.
Definition has_byte (c : ascii) (l : bytes) : bool := existsb (Ascii.eqb c) l.

(** ** netip.ParseAddr *)

(** An octet: decimal, at most 255, no leading zero. *)
Definition parse_octet (l : bytes) : option Z :=
  match l with
  | [] => None
  | c :: r => if Ascii.eqb c (byte 48) && negb (bool_decide (r = [])) then None else
              v ← parse_digits 0 l; if v <=? 255 then Some v else None
  end.
(** parseIPv4Fields: exactly four octets. *)
Definition parse_ipv4 (l : bytes) : option Z :=
  match split_bytes dot l [] with
  | [a; b; c; d] =>
    a ← parse_octet a; b ← parse_octet b; c ← parse_octet c; d ← parse_octet d;
    Some (((a * 256 + b) * 256 + c) * 256 + d)
  | _ => None
  end.
Definition v4_mapped (v : Z) : Z := 0xffff * 2 ^ 32 + v.

Definition hex_val (c : ascii) : option Z :=
  let z := byteZ c in
  if in_range 48 57 c then Some (z - 48) else if in_range 97 102 c then Some (z - 87)
  else if in_range 65 70 c then Some (z - 55) else None.
(** The hex digits at the front: their value, how many, and the rest. A fifth
    digit is an error. *)
Fixpoint hex_group (acc : Z) (n : nat) (l : bytes) : option (Z * nat * bytes) :=
  match l with
  | [] => Some (acc, n, l)
  | c :: l' => match hex_val c with
               | None => Some (acc, n, l)
               | Some v => if (3 <? n)%nat then None else hex_group (acc * 16 + v) (S n) l'
               end
  end.

(** The loop of parseIPv6: the 16-bit fields read, where the "::" stands among
    them (counted in fields), until the text ends. [fuel] bounds the fields; an
    address has at most 8. *)
Fixpoint ipv6_loop (fuel : nat) (fields : list Z) (ell : option nat) (l : bytes) : option (list Z * option nat * bytes) :=
  match fuel with
  | O => Some (fields, ell, l)
  | S fuel' =>
    if (8 <=? length fields)%nat then Some (fields, ell, l) else
    '(acc, n, rest) ← hex_group 0 0 l;
    if (n =? 0)%nat then None else
    match rest with
    | c :: _ =>
      if Ascii.eqb c dot then
        if (negb (bool_decide (is_Some ell)) && negb (length fields =? 6)%nat) || (6 <? length fields)%nat then None else
        v ← parse_ipv4 l; Some (fields ++ [v `div` 65536; v `mod` 65536], ell, [])
      else
      match rest with
      | c :: ((d :: rest2) as rest1) =>
        if negb (Ascii.eqb c colon) then None else
        if Ascii.eqb d colon then
          if bool_decide (is_Some ell) then None else
          let ell := Some (S (length fields)) in
          if bool_decide (rest2 = []) then Some (fields ++ [acc], ell, []) else ipv6_loop fuel' (fields ++ [acc]) ell rest2
        else ipv6_loop fuel' (fields ++ [acc]) ell rest1
      | _ => None
      end
    | [] => Some (fields ++ [acc], ell, [])
    end
  end.

Definition fields_value (l : list Z) : Z := foldl (fun acc f => acc * 65536 + f) 0 l.

(** parseIPv6 without a zone. *)
Definition parse_ipv6 (l : bytes) : option Z :=
  let finish (r : list Z * option nat * bytes) :=
    let '(fields, ell, rest) := r in
    if negb (bool_decide (rest = [])) then None else
    if (length fields <? 8)%nat then
      e ← ell; Some (fields_value (take e fields ++ repeat 0 (8 - length fields) ++ drop e fields))
    else if bool_decide (is_Some ell) then None else Some (fields_value fields) in
  match l with
  | c :: d :: l' =>
    if Ascii.eqb c colon && Ascii.eqb d colon then
      if bool_decide (l' = []) then Some 0 else r ← ipv6_loop 9 [] (Some 0%nat) l'; finish r
    else r ← ipv6_loop 9 [] None l; finish r
  | _ => r ← ipv6_loop 9 [] None l; finish r
  end.

Inductive Addr := Addr4 (v : Z) | Addr6 (v : Z).
(** Whichever of '.', ':' and '%' comes first decides; an address with a zone
    is no address to the net package. *)
Fixpoint parse_addr (whole l : bytes) : option Addr :=
  match l with
  | [] => None
  | c :: l' =>
    if Ascii.eqb c dot then Addr4 <$> parse_ipv4 whole
    else if Ascii.eqb c colon then if has_byte percent whole then None else Addr6 <$> parse_ipv6 whole
    else if Ascii.eqb c percent then None else parse_addr whole l'
  end.
Definition ParseAddr (s : string) : option Addr := parse_addr (to_bytes s) (to_bytes s).
Definition as16 (a : Addr) : Z := match a with Addr4 v => v4_mapped v | Addr6 v => v end.
Definition bit_len (a : Addr) : Z := match a with Addr4 _ => 32 | Addr6 _ => 128 end.

(** ** net *)

Definition ParseIP (s : string) : option Z := as16 <$> ParseAddr s.
(** [ip.To4() != nil]. *)
Definition is4 (ip : Z) : bool := Z.shiftr ip 32 =? 0xffff.
Definition low32 (ip : Z) : Z := Z.land ip 0xffffffff.

(** CIDRMask(ones, bits) as a number. *)
Definition cidr_mask (ones bits : Z) : Z := Z.shiftl (Z.ones ones) (bits - ones).

Record IPNet := mkIPNet { net_ip : Z; net_ones : Z; net_bits : Z }.

(** dtoi: leading digits, fewer than 0xFFFFFF. *)
Definition ParseCIDR (s : string) : option (Z * IPNet) :=
  match cut_at slash (to_bytes s) with
  | (addr, Some mask) =>
    a ← ParseAddr (of_bytes addr);
    n ← parse_nat mask;
    if (n <? 0xffffff) && (n <=? bit_len a) then
      let ip := as16 a in
      Some (ip, match a with
                | Addr4 v => mkIPNet (v4_mapped (Z.land v (cidr_mask n 32))) n 32
                | Addr6 v => mkIPNet (Z.land v (cidr_mask n 128)) n 128
                end)
    else None
  | (_, None) => None
  end.

(** IPNet.Contains: both as 4 bytes or both as 16. *)
Definition Contains (n : IPNet) (ip : Z) : bool :=
  let mask := if net_bits n =? 32 then cidr_mask (net_ones n) 32 else cidr_mask (net_ones n) 128 in
  if is4 (net_ip n) then
    let m := if net_bits n =? 32 then mask else low32 mask in
    is4 ip && (Z.land (low32 (net_ip n)) m =? Z.land (low32 ip) m)
  else negb (is4 ip) && (Z.land (net_ip n) mask =? Z.land ip mask).

(** [IPNet.String] of the network of an address that is IPv4: dotted, unless an
    IPv6 mask shorter than 96 bits cut into the mapping prefix. *)
Definition ip4_string (v : Z) : string :=
  itoa (Z.shiftr v 24) +:+ "." +:+ itoa (Z.land (Z.shiftr v 16) 255) +:+ "." +:+ itoa (Z.land (Z.shiftr v 8) 255) +:+ "." +:+
  itoa (Z.land v 255).
Definition net_String (n : IPNet) : string :=
  if net_bits n =? 32 then ip4_string (low32 (net_ip n)) +:+ "/" +:+ itoa (net_ones n)
  else if is4 (net_ip n) then ip4_string (low32 (net_ip n)) +:+ "/" +:+ itoa (net_ones n - 96)
  else let f := Z.shiftr (net_ip n) 32 in
       (if f =? 0 then "::" else "::" +:+ of_bytes (hex2 (f `div` 256) ++ hex2 (f `mod` 256)) +:+ ":0:0") +:+ "/" +:+ itoa (net_ones n).

Definition JoinHostPort (host port : string) : string :=
  if has_byte colon (to_bytes host) || has_byte percent (to_bytes host)
  then "[" +:+ host +:+ "]:" +:+ port else host +:+ ":" +:+ port.

Example parse_ip_examples :
  (ParseIP "192.0.2.210", ParseIP "192.0.02.1", ParseIP "1.2.3", ParseIP "::1", ParseIP "fe80::1%eth0", ParseIP "::ffff:1.2.3.4",
   ParseIP "1:2:3:4:5:6:7:8", ParseIP "1:2:3:4:5:6:7::", ParseIP "1::2:3:4:5:6:7:8", ParseIP ":1", ParseIP "12345::") =
  (Some (v4_mapped 0xc00002d2), None, None, Some 1, None, Some (v4_mapped 0x01020304),
   Some 0x00010002000300040005000600070008, Some 0x00010002000300040005000600070000, None, None, None).
Proof. vm_compute. reflexivity. Qed.
Example cidr_examples :
  (fmap (fun p => Contains p.2 <$> ParseIP "192.0.2.1") (ParseCIDR "192.0.2.210/24"),
   fmap (fun p => Contains p.2 <$> ParseIP "192.0.3.1") (ParseCIDR "192.0.2.210/24"), fmap fst (ParseCIDR "192.0.2.210/33"),
   fmap (fun p => net_String p.2) (ParseCIDR "192.0.2.210/24"), fmap (fun p => net_String p.2) (ParseCIDR "::ffff:1.2.3.4/88"),
   JoinHostPort "::1" "22", JoinHostPort "192.0.2.210" "22") =
  (Some (Some true), Some (Some false), None, Some "192.0.2.0/24", Some "::ff00:0:0/88", "[::1]:22", "192.0.2.210:22").
Proof. vm_compute. reflexivity. Qed.
