(* ===== verification/Provision.v ===== *)
(** internal/provision, the part that decides before a machine is touched:
    types.go, layout.go, the validation half of autoinstall.go and join.go,
    and the command lines Join builds. An error is its message.

    golang.org/x/crypto's ParseAuthorizedKey, net/url's Parse and yaml.v3's
    Unmarshal and Marshal are the class [ProvisionLibs]. *)
From stdpp Require Import base tactics strings list gmap.
From Stdlib Require Import ZArith Lia Ascii.
From S2P Require Import Prelude GoLib GoNet.

Open Scope Z_scope.

(** ** types.go *)

Record Network := mkNetwork { net_Address : string; net_Gateway : string; net_DNS : list string }.
Definition LayoutKind : Type := string.
Definition LayoutSingleDisk : LayoutKind := "single-disk".
Definition LayoutMirror : LayoutKind := "mirror".
Record Disk := mkDisk { dk_ByID : string; dk_SizeBytes : Z }.
Record Layout := mkLayout { lay_Kind : LayoutKind; lay_Disks : list Disk }.
Definition ClusterMode : Type := string.
Definition ClusterInit : ClusterMode := "init".
Definition ClusterJoin : ClusterMode := "join".
Record ClusterTarget := mkClusterTarget {
  ct_Mode : ClusterMode;
  ct_ServerURL : string;
  ct_JoinToken : string;
  ct_K3sVersion : string
}.
Record Spec := mkSpec {
  sp_UID : string;
  sp_Hostname : string;
  sp_Network : Network;
  sp_Layout : Layout;
  sp_SSHPublicKey : string;
  sp_Cluster : ClusterTarget;
  sp_BootMode : string
}.

Definition Phase : Type := string.
Definition PhasePending : Phase := "Pending".
Definition PhasePreparing : Phase := "Preparing".
Definition PhaseMediaAttached : Phase := "MediaAttached".
Definition PhaseInstalling : Phase := "Installing".
Definition PhaseInstalled : Phase := "Installed".
Definition PhaseJoining : Phase := "Joining".
Definition PhaseReady : Phase := "Ready".
Definition PhaseFailed : Phase := "Failed".

Record Options := mkOptions {
  o_BootMode : string;
  o_SSHUser : string;
  o_SSHKey : string;
  o_NodeAddress : string;
  o_ConfirmSerial : string;
  o_PhaseTimeout : gmap Phase Z;
  o_Poll : Z
}.

(** [FailedPhase] is empty until something failed; a nil [Kubeconfig] is [None]. *)
Record Result := mkResult {
  r_Phase : Phase;
  r_FailedPhase : Phase;
  r_HostKey : string;
  r_Kubeconfig : option string;
  r_NodeName : string
}.

(** ** Libraries *)

(** A parsed URL, as far as it is looked at. *)
Record URL := mkURL {
  u_Scheme : string;
  u_Host : string;
  u_Hostname : string;
  u_HasUser : bool;
  u_Path : string;
  u_RawQuery : string;
  u_Fragment : string;
  u_Redacted : string
}.
(** A YAML document as yaml.v3 hands it out in an [any]. *)
Inductive Yaml : Type :=
| YMap (m : list (string * Yaml))
| YList (l : list Yaml)
| YScalar (s : string).

Class ProvisionLibs := {
  url_parse : string -> result string URL;
  (* comment and options of an authorized_keys line *)
  parse_authorized_key : string -> result string (string * list string);
  yaml_unmarshal : string -> result string (list (string * Yaml));
  yaml_marshal : list (string * Yaml) -> result string string
}.

(** ** Shapes *)

Definition digit (c : ascii) : bool := in_range 48 57 c.
Definition lower (c : ascii) : bool := in_range 97 122 c.
Definition upper (c : ascii) : bool := in_range 65 90 c.
Definition alnum (c : ascii) : bool := digit c || lower c || upper c.
Definition one_of (s : string) (c : ascii) : bool := has_byte c (to_bytes s).

(** [^[A-Za-z0-9-]{1,64}$] *)
Definition uidShape (s : string) : bool :=
  let l := to_bytes s in
  (1 <=? length l)%nat && (length l <=? 64)%nat && forallb (fun c => alnum c || one_of "-" c) l.
(** [^[a-z0-9]([a-z0-9-]{0,61}[a-z0-9])?$] *)
Definition hostnameShape (s : string) : bool :=
  let l := to_bytes s in let edge o := match o with Some c => digit c || lower c | None => false end in
  (length l <=? 63)%nat && edge (head l) && edge (last l) && forallb (fun c => digit c || lower c || one_of "-" c) l.
(** [^/dev/disk/by-id/[A-Za-z0-9_.:+-]+$] *)
Definition byIDName (s : string) : bool :=
  match strip_prefix (to_bytes "/dev/disk/by-id/") (to_bytes s) with
  | Some l => negb (bool_decide (l = [])) && forallb (fun c => alnum c || one_of "_.:+-" c) l
  | None => false
  end.
(** One or more digits, then the rest. *)
Fixpoint skip_digits (l : bytes) : bytes :=
  match l with c :: l' => if digit c then skip_digits l' else l | [] => [] end.
Definition digits1 (l : bytes) : option bytes :=
  match l with c :: l' => if digit c then Some (skip_digits l') else None | [] => None end.
(** [^v[0-9]+\.[0-9]+\.[0-9]+\+k3s[0-9]+$] *)
Definition k3sVersionPattern (s : string) : bool :=
  bool_decide (Some [] =
    (l ← strip_prefix (to_bytes "v") (to_bytes s); l ← digits1 l; l ← strip_prefix (to_bytes ".") l; l ← digits1 l;
     l ← strip_prefix (to_bytes ".") l; l ← digits1 l; l ← strip_prefix (to_bytes "+k3s") l; digits1 l)).
(** [^[A-Za-z0-9:._-]+$] *)
Definition joinTokenPattern (s : string) : bool :=
  negb (bool_decide (s = "")) && forallb (fun c => alnum c || one_of ":._-" c) (to_bytes s).

(** ** Refusals *)

Definition contains_any (chars s : string) : bool := existsb (one_of chars) (to_bytes s).
Definition cr : ascii := byte 13.
Definition newlines : string := String newline (String cr "").

Definition checkShellValue (field v : string) : option string :=
  if contains_any newlines v then Some (field +:+ ": must not contain a newline")
  else if contains_any "'\" v
  then Some (field +:+ ": must not contain a quote or a backslash; this value is interpolated into a shell command in the installer")
  else if existsb (fun c => (byteZ c <? 32) || (byteZ c =? 127)) (to_bytes v)
  then Some (field +:+ ": must not contain control characters") else None.

Fixpoint validate_disks (seen : gset string) (l : list Disk) : option string :=
  match l with
  | [] => None
  | d :: l' =>
    match checkShellValue "disk by-id" (dk_ByID d) with
    | Some e => Some e
    | None =>
      if negb (byIDName (dk_ByID d)) then Some ("disk " +:+ quote (dk_ByID d) +:+ ": must be a /dev/disk/by-id path with no subdirectories")
      else if dk_SizeBytes d <=? 0
      then Some ("disk " +:+ quote (dk_ByID d) +:+ ": size must be known, so the installer can refuse the wrong disk")
      else if bool_decide (dk_ByID d ∈ seen)
      then Some ("disk " +:+ quote (dk_ByID d) +:+ ": named twice in the same layout; a mirror needs two different disks")
      else validate_disks ({[ dk_ByID d ]} ∪ seen) l'
    end
  end.
Definition validateDisks (disks : list Disk) : option string := validate_disks ∅ disks.

(** The shell test run on the machine before anything is wiped. *)
Definition diskSizeAssertion (l : Layout) : string :=
  if bool_decide (lay_Disks l = []) then "true" else
  let q := String (byte 34) "" in
  join " && " (map (fun d => "[ " +:+ q +:+ "$(blockdev --getsize64 " +:+ dk_ByID d +:+ " 2>/dev/null)" +:+ q +:+ " = " +:+
    q +:+ itoa (dk_SizeBytes d) +:+ q +:+ " ]") (lay_Disks l)).

(** Does [sub] occur in [l]? *)
Fixpoint contains_sub (sub l : bytes) : bool :=
  bool_decide (is_Some (strip_prefix sub l)) || match l with [] => false | _ :: l' => contains_sub sub l' end.

Definition bootUEFI : string := "UEFI".
Definition bootLegacy : string := "Legacy".

Section Validation.
Context `{PL : ProvisionLibs}.

Definition checkPublicKeyOnly (key : string) : option string :=
  let k := trim_space key in
  let n := rune_count k in
  if (n =? 0)%nat || (1024 <? n)%nat then Some ("ssh key: must be between 1 and 1024 characters, got " +:+ itoa (Z.of_nat n))
  else if contains_sub (to_bytes "PRIVATE KEY") (to_bytes k)
  then Some "ssh key: this is private key material, which must never enter an installer image"
  else if contains_any newlines k then Some "ssh key: must be one key on one line; a second line is a second key"
  else
    match parse_authorized_key k with
    | inl e => Some ("ssh key: not a usable authorized_keys line: " +:+ e)
    | inr (comment, options) =>
      if negb (bool_decide (options = []))
      then Some ("ssh key: carries authorized_keys options (" +:+ quote (join "," options) +:+ "); this value must be a bare key")
      else match parse_authorized_key (trim_space comment) with
           | inr _ => Some "ssh key: more than one key in this value; the second is hidden in the first one's comment field"
           | inl _ => None
           end
    end.

Fixpoint check_dns (l : list string) : option string :=
  match l with
  | [] => None
  | d :: l' => match ParseIP d with
               | None => Some ("network DNS " +:+ quote d +:+ " is not an IP address")
               | Some _ => check_dns l'
               end
  end.

Definition layout_wants (k : LayoutKind) : nat :=
  if bool_decide (k = LayoutSingleDisk) then 1 else if bool_decide (k = LayoutMirror) then 2 else 0.

Definition ValidateSpec (s : Spec) : option string :=
  if negb (uidShape (sp_UID s))
  then Some ("spec: UID " +:+ quote (sp_UID s) +:+ " must be 1-64 letters, digits or dashes; without it the installed system could not be told apart from any other machine at that address")
  else if negb (hostnameShape (sp_Hostname s))
  then Some ("spec: hostname " +:+ quote (sp_Hostname s) +:+ " must be a lowercase RFC 1123 label (letters, digits, dashes, 1-63 characters); it becomes the node name")
  else if negb (bool_decide (sp_BootMode s = bootUEFI)) && negb (bool_decide (sp_BootMode s = bootLegacy))
  then Some ("spec: boot mode " +:+ quote (sp_BootMode s) +:+ " must be exactly " +:+ quote bootUEFI +:+ " or " +:+ quote bootLegacy +:+
             "; the disk layout differs between the two")
  else match checkPublicKeyOnly (sp_SSHPublicKey s) with
  | Some e => Some e
  | None =>
    let nw := sp_Network s in
    match ParseCIDR (net_Address nw) with
    | None => Some ("network address " +:+ quote (net_Address nw) +:+ ": invalid CIDR address: " +:+ net_Address nw)
    | Some (addr, ipnet) =>
      if negb (is4 addr) then Some ("network address " +:+ quote (net_Address nw) +:+ ": must be IPv4") else
      match ParseIP (net_Gateway nw) with
      | None => Some ("network gateway " +:+ quote (net_Gateway nw) +:+ " is not an IP address")
      | Some gw =>
        if gw =? addr then Some ("network gateway " +:+ quote (net_Gateway nw) +:+ " is the machine's own address")
        else if negb (Contains ipnet gw)
        then Some ("network gateway " +:+ quote (net_Gateway nw) +:+ " is outside " +:+ net_String ipnet +:+ ", the subnet of the machine's address")
        else if bool_decide (net_DNS nw = []) then Some "network DNS: at least one resolver is required"
        else match check_dns (net_DNS nw) with
        | Some e => Some e
        | None =>
          let want := layout_wants (lay_Kind (sp_Layout s)) in
          if (want =? 0)%nat then Some ("layout " +:+ quote (lay_Kind (sp_Layout s)) +:+ ": unknown kind")
          else if negb (length (lay_Disks (sp_Layout s)) =? want)%nat
          then Some ("layout " +:+ lay_Kind (sp_Layout s) +:+ ": needs exactly " +:+ itoa (Z.of_nat want) +:+ " disks, got " +:+
                     itoa (Z.of_nat (length (lay_Disks (sp_Layout s)))))
          else validateDisks (lay_Disks (sp_Layout s))
        end
      end
    end
  end.

(** ** join.go: shapes *)

Definition validateK3sVersion (v : string) : option string :=
  if k3sVersionPattern v then None
  else Some ("k3s version " +:+ quote v +:+ " does not look like a k3s version (want vX.Y.Z+k3sN)").

Definition maxJoinTokenLen : nat := 512.
Definition validateJoinToken (v : string) : option string :=
  if (maxJoinTokenLen <? length (to_bytes v))%nat
  then Some ("join token: must be between 1 and " +:+ itoa (Z.of_nat maxJoinTokenLen) +:+ " characters, got " +:+
             itoa (Z.of_nat (length (to_bytes v))))
  else if negb (joinTokenPattern v) then Some "join token: contains a character outside [A-Za-z0-9:._-]" else None.

Definition validateServerURL (v : string) : option string :=
  match url_parse v with
  | inl _ => Some "server URL does not parse as a URL"
  | inr u =>
    let name := quote (u_Redacted u) in
    if bool_decide (u_Scheme u <> "https")
    then Some ("server URL " +:+ name +:+ ": scheme must be https, got " +:+ quote (u_Scheme u))
    else if bool_decide (u_Host u = "") then Some ("server URL " +:+ name +:+ ": no host")
    else if u_HasUser u then Some ("server URL " +:+ name +:+ ": must not carry embedded credentials")
    else if bool_decide (u_Path u <> "") || bool_decide (u_RawQuery u <> "") || bool_decide (u_Fragment u <> "")
    then Some ("server URL " +:+ name +:+ ": must be scheme and host only, no path, query or fragment")
    else None
  end.

Definition validateNodeAddress (v : string) : option string :=
  match ParseIP v with
  | None => Some ("node address " +:+ quote v +:+ " is not an IP address")
  | Some _ => None
  end.

Definition prefix_err (p : string) (e : option string) : option string := option_map (fun e => p +:+ e) e.

Definition ValidateClusterTarget (t : ClusterTarget) : option string :=
  match validateK3sVersion (ct_K3sVersion t) with
  | Some e => Some ("cluster target: " +:+ e)
  | None =>
    if bool_decide (ct_Mode t = ClusterInit) then None
    else if bool_decide (ct_Mode t = ClusterJoin) then
      match validateJoinToken (ct_JoinToken t) with
      | Some e => Some ("cluster target: " +:+ e)
      | None => prefix_err "cluster target: " (validateServerURL (ct_ServerURL t))
      end
    else Some ("cluster target: unknown mode " +:+ quote (ct_Mode t) +:+ " (want " +:+ quote ClusterInit +:+ " or " +:+ quote ClusterJoin +:+ ")")
  end.

(** ** server.go: the media URL *)

Definition ValidateMediaURLSyntax (raw : string) : option string :=
  if bool_decide (trim_space raw = "")
  then Some "is not set: every built image bakes this address into its own boot arguments, so an image built against it would fetch its autoinstall seed from nowhere"
  else match url_parse raw with
  | inl e => Some (quote raw +:+ ": " +:+ e)
  | inr u =>
    if bool_decide (u_Scheme u <> "http") && bool_decide (u_Scheme u <> "https")
    then Some (quote raw +:+ ": scheme must be http or https, got " +:+ quote (u_Scheme u))
    else if bool_decide (u_Host u = "") then Some (quote raw +:+ ": has no host") else None
  end.

(** [strings.ToLower] on ASCII. *)
Definition ascii_lower (c : ascii) : ascii := if upper c then byte (N_of_ascii c + 32) else c.
Definition has_suffix (suf l : bytes) : bool := bool_decide (is_Some (strip_prefix (rev suf) (rev l))).

Definition ValidateMediaURL (raw : string) : option string :=
  match ValidateMediaURLSyntax raw with
  | Some e => Some e
  | None =>
    match url_parse raw with
    | inl e => Some (quote raw +:+ ": " +:+ e)
    | inr u =>
      let host := map ascii_lower (to_bytes (u_Hostname u)) in
      if bool_decide (host = to_bytes "invalid") || has_suffix (to_bytes ".invalid") host
      then Some (quote raw +:+ ": .invalid is reserved by RFC 2606 and never resolves -- this is the placeholder the shipped manifests carry, not an address any BMC can fetch from")
      else None
    end
  end.
End Validation.
