(* ===== verification/Install.v ===== *)
(** internal/provision, the part that drives a machine: Join and
    RewriteKubeconfigServer of join.go, WaitForOurSystem of ssh.go and Install
    of install.go.

    The collaborators Install is handed (BMC, image store, SSH client, node
    checker, the caller's callbacks) and the phase contexts are the class
    [Machine]. A loop that polls until its phase's context is done takes
    fuel and returns [None] without it; [InstallSafety] shows how much is
    enough. *)
From stdpp Require Import base tactics strings list gmap.
From Stdlib Require Import ZArith Lia Ascii.
From S2P Require Import Prelude GoLib GoNet Provision.

Open Scope Z_scope.

(** ** join.go: command lines *)

Definition k3sKubeconfigPath : string := "/etc/rancher/k3s/k3s.yaml".
Definition k3sInstallerURL : string := "https://get.k3s.io".
Definition k3sInstallerPath : string := "frame-k3s-install.sh".
Definition k3sJoinTokenPath : string := "/etc/rancher/k3s/frame-join-token".
Definition writeJoinTokenCmd : string :=
  "sudo -n sh -c 'umask 077 && mkdir -p /etc/rancher/k3s && cat > " +:+ k3sJoinTokenPath +:+ "'".

Definition squote : ascii := byte 39.
Definition backslash : ascii := byte 92.
(** [strings.ReplaceAll(s, "'", `'\''`)] between single quotes. *)
Definition quote_byte (c : ascii) : bytes := if Ascii.eqb c squote then [squote; backslash; squote; squote] else [c].
Definition shellQuote (s : string) : string := of_bytes ([squote] ++ flat_map quote_byte (to_bytes s) ++ [squote]).

(** The first line that is not blank, when it is one of sudo's. *)
Fixpoint sudo_lines (l : list string) : option string :=
  match l with
  | [] => None
  | line :: l' =>
    let t := trim_space line in
    if bool_decide (t = "") then sudo_lines l'
    else if bool_decide (is_Some (strip_prefix (to_bytes "sudo:") (to_bytes t))) then Some t else None
  end.
Definition sudoPreamble (out : string) : option string := sudo_lines (split_on newline out).

(** ** RewriteKubeconfigServer *)

Fixpoint get_key (k : string) (m : list (string * Yaml)) : option Yaml :=
  match m with [] => None | (k', v) :: m' => if bool_decide (k' = k) then Some v else get_key k m' end.
Fixpoint set_key (k : string) (v : Yaml) (m : list (string * Yaml)) : list (string * Yaml) :=
  match m with
  | [] => [(k, v)]
  | (k', v') :: m' => if bool_decide (k' = k) then (k, v) :: m' else (k', v') :: set_key k v m'
  end.

(** An entry with a cluster map gets its server set; any other is skipped. *)
Definition rewrite_entry (server : string) (c : Yaml) : Yaml * nat :=
  match c with
  | YMap entry =>
    match get_key "cluster" entry with
    | Some (YMap cluster) => (YMap (set_key "cluster" (YMap (set_key "server" (YScalar server) cluster)) entry), 1%nat)
    | _ => (c, 0%nat)
    end
  | _ => (c, 0%nat)
  end.
Definition rewrite_clusters (server : string) (l : list Yaml) : list Yaml * nat :=
  (map (fun c => (rewrite_entry server c).1) l, sum_list (map (fun c => (rewrite_entry server c).2) l)).

Definition RewriteKubeconfigServer `{ProvisionLibs} (input address : string) : result string string :=
  match yaml_unmarshal input with
  | inl e => inl ("parsing kubeconfig: " +:+ e)
  | inr doc =>
    match get_key "clusters" doc with
    | None => inl "kubeconfig has no clusters field"
    | Some (YList clusters) =>
      if bool_decide (clusters = []) then inl "kubeconfig has no clusters" else
      let '(clusters, rewritten) := rewrite_clusters ("https://" +:+ JoinHostPort address "6443") clusters in
      if (rewritten =? 0)%nat then inl "kubeconfig has no cluster.server field to rewrite" else
      match yaml_marshal (set_key "clusters" (YList clusters) doc) with
      | inl e => inl ("marshaling kubeconfig: " +:+ e)
      | inr out => inr out
      end
    | Some _ => inl "kubeconfig clusters field is not a list"
    end
  end.

(** ** The collaborators *)

Inductive CtxErr := DeadlineExceeded | Canceled.
Definition ctx_text (e : CtxErr) : string :=
  match e with DeadlineExceeded => "context deadline exceeded" | Canceled => "context canceled" end.

(** [ctx_err p] is the Err of phase p's context; [select_done p] waits for that
    context or for the poll interval, and tells whether it was the context. A
    nil callback does nothing. *)
Class Machine (W : Type) := {
  Session : Type;
  bmc_Serial : St W (result string string);
  bmc_InsertMedia : string -> St W (option string);
  bmc_MediaInserted : St W (result string bool);
  bmc_EjectMedia : St W (option string);
  bmc_SetBootOnce : string -> string -> St W (option string);
  bmc_ClearBootOverride : St W (option string);
  bmc_Reset : string -> St W (option string);
  images_Build : Spec -> St W (result string (string * string));
  images_Remove : string -> St W (option string);
  ssh_Dial : string -> string -> string -> string -> St W (result string Session);
  sess_HostKey : Session -> string;
  sess_Run : Session -> string -> St W (result string string);
  sess_Output : Session -> string -> St W (result string string);
  sess_RunWithInput : Session -> string -> string -> St W (result string string);
  sess_ReadFile : Session -> string -> St W (result string string);
  sess_Close : Session -> St W unit;
  nodes_NodeReady : option string -> string -> St W (result string bool);
  d_Report : Phase -> St W unit;
  d_ReportToken : string -> St W unit;
  d_BeforeMediaAttached : St W (option string);
  ctx_err : Phase -> St W (option CtxErr);
  select_done : Phase -> St W bool
}.

Section Run.
Context {W : Type} `{MM : Machine W} `{PL : ProvisionLibs}.

(** ** join.go: Join *)

Definition installK3s (sess : Session) (env args : string) : St W (option string) :=
  r ← sess_Run sess ("curl -sfL -o " +:+ k3sInstallerPath +:+ " " +:+ k3sInstallerURL);
  match r with
  | inl e => mret (Some ("downloading the k3s installer from " +:+ k3sInstallerURL +:+ ": " +:+ e))
  | inr _ =>
    r ← sess_Run sess (env +:+ " sh " +:+ k3sInstallerPath +:+ " " +:+ args +:+ "; rc=$?; rm -f " +:+ k3sInstallerPath +:+ "; exit $rc");
    mret (match r with inl e => Some e | inr _ => None end)
  end.

Definition Join (sess : Session) (t : ClusterTarget) (nodeAddress : string) : St W (result string (option string)) :=
  match validateK3sVersion (ct_K3sVersion t) with
  | Some e => mret (inl ("cluster: " +:+ e +:+ "; an unpinned or malformed install makes two machines built a week apart different machines"))
  | None =>
  match validateNodeAddress nodeAddress with
  | Some e => mret (inl ("cluster: " +:+ e))
  | None =>
  if bool_decide (ct_Mode t = ClusterInit) then
    e ← installK3s sess ("INSTALL_K3S_VERSION=" +:+ shellQuote (ct_K3sVersion t))
          ("server --cluster-init --node-ip " +:+ shellQuote nodeAddress);
    match e with
    | Some e => mret (inl ("k3s server --cluster-init: " +:+ e))
    | None =>
      r ← sess_Output sess ("sudo -n cat " +:+ k3sKubeconfigPath);
      mret (match r with
      | inl e => inl ("the cluster started but its kubeconfig is not readable, so nobody can talk to it: " +:+ e)
      | inr raw =>
        match sudoPreamble raw with
        | Some msg => inl ("the kubeconfig read came back with sudo's own output in front of it (" +:+ quote msg +:+
            "), so it is not the file: fix that warning on the machine -- most often an /etc/hosts entry for its own hostname -- rather than parsing around it")
        | None => match RewriteKubeconfigServer raw nodeAddress with inl e => inl e | inr out => inr (Some out) end
        end
      end)
    end
  else if bool_decide (ct_Mode t = ClusterJoin) then
    match validateJoinToken (ct_JoinToken t) with
    | Some e => mret (inl ("cluster join: " +:+ e +:+ ". It lives at /var/lib/rancher/k3s/server/node-token on a server node and must be placed in a Secret first"))
    | None =>
    match validateServerURL (ct_ServerURL t) with
    | Some e => mret (inl ("cluster join: " +:+ e))
    | None =>
      r ← sess_RunWithInput sess writeJoinTokenCmd (ct_JoinToken t);
      match r with
      | inl e => mret (inl ("writing the join token to " +:+ k3sJoinTokenPath +:+ " on the node: " +:+ e))
      | inr _ =>
        e ← installK3s sess ("INSTALL_K3S_VERSION=" +:+ shellQuote (ct_K3sVersion t) +:+ " K3S_URL=" +:+ shellQuote (ct_ServerURL t) +:+
              " K3S_TOKEN_FILE=" +:+ shellQuote k3sJoinTokenPath) ("agent --node-ip " +:+ shellQuote nodeAddress);
        mret (match e with Some e => inl ("k3s agent: " +:+ e) | None => inr None end)
      end
    end
    end
  else mret (inl ("cluster: unknown mode " +:+ quote (ct_Mode t)))
  end
  end.

(** ** ssh.go: WaitForOurSystem *)

Definition markerPath : string := "/etc/frame-install-uid".

Fixpoint wait_loop (fuel : nat) (addr user key uid : string) (last : option string) : St W (option (result string string)) :=
  match fuel with
  | O => mret None
  | S fuel' =>
    c ← ctx_err PhaseInstalling;
    match c with
    | Some ce =>
      mret (Some (inl (match last with
        | None => "waiting for " +:+ addr +:+ " to come up as our system: " +:+ ctx_text ce +:+ ", and no attempt had completed before it"
        | Some l => "waiting for " +:+ addr +:+ " to come up as our system: " +:+ ctx_text ce +:+ " (last attempt: " +:+ l +:+ ")"
        end)))
    | None =>
      r ← ssh_Dial addr user key "";
      match r with
      | inl e => _ ← select_done PhaseInstalling; wait_loop fuel' addr user key uid (Some e)
      | inr sess =>
        let hostKey := trim_space (sess_HostKey sess) in
        b ← sess_ReadFile sess markerPath;
        _ ← sess_Close sess;
        match b with
        | inl _ =>
          _ ← select_done PhaseInstalling;
          wait_loop fuel' addr user key uid (Some (addr +:+ " has no " +:+ markerPath +:+ ": this is a system we did not install"))
        | inr b =>
          if bool_decide (trim_space b <> uid) then
            _ ← select_done PhaseInstalling;
            wait_loop fuel' addr user key uid (Some (addr +:+ " carries install UID " +:+ quote (trim_space b) +:+ ", not " +:+ quote uid +:+
              ": this is a different system at that address"))
          else mret (Some (inr hostKey))
        end
      end
    end
  end.

Definition WaitForOurSystem (fuel : nat) (addr user key uid : string) : St W (option (result string string)) :=
  let uid := trim_space uid in
  if bool_decide (uid = "")
  then mret (Some (inl ("waiting for " +:+ addr +:+ ": no install UID to check against, so no machine could be told apart from any other at that address")))
  else wait_loop fuel addr user key uid None.

(** ** install.go *)

Definition requiredPhaseTimeouts : list Phase :=
  [PhasePending; PhasePreparing; PhaseMediaAttached; PhaseInstalling; PhaseJoining; PhaseReady].

Definition validateOptions (o : Options) : option string :=
  if bool_decide (o_BootMode o <> bootUEFI) && bool_decide (o_BootMode o <> bootLegacy)
  then Some ("boot mode " +:+ quote (o_BootMode o) +:+ ": must be exactly " +:+ quote bootUEFI +:+ " or " +:+ quote bootLegacy +:+
             ", never inherited from the machine")
  else match List.find (fun p => default 0 (o_PhaseTimeout o !! p) <=? 0) requiredPhaseTimeouts with
       | Some p => Some ("phase " +:+ p +:+ " has no configured timeout")
       | None => None
       end.

Definition validatePendingSpec (s : Spec) (nodeAddress : string) : option string :=
  match ValidateSpec s with
  | Some e => Some e
  | None => match ValidateClusterTarget (sp_Cluster s) with
            | Some e => Some e
            | None => prefix_err "cluster target: " (validateNodeAddress nodeAddress)
            end
  end.

Definition phaseErr (p : Phase) (underlying : string) : St W string :=
  c ← ctx_err p;
  mret (match c with
        | Some DeadlineExceeded => "this phase's own timeout expired: " +:+ underlying
        | Some Canceled => "the request was canceled: " +:+ underlying
        | None => underlying
        end).

Definition checkConfirmedSerial (serial confirmed : string) : option string :=
  if bool_decide (confirmed = "")
  then Some "no serial was confirmed for this install: refusing, because an empty confirmation proves nothing about which machine this is"
  else if bool_decide (serial = "")
  then Some ("the machine reports an empty serial: refusing, because it cannot be compared against the confirmed serial " +:+ quote confirmed)
  else if bool_decide (serial <> confirmed)
  then Some ("this machine reports serial " +:+ quote serial +:+ " and the request confirmed " +:+ quote confirmed +:+
             ": refusing, because the cost of being wrong here is a wiped disk on the wrong machine")
  else None.

Definition attachMediaAndBoot (url bootMode : string) : St W (option string) :=
  let fail what e := (msg ← phaseErr PhaseMediaAttached (what +:+ e); mret (Some msg)) in
  e ← bmc_InsertMedia url;
  match e with
  | Some e => fail "inserting installer media: " e
  | None =>
    r ← bmc_MediaInserted;
    match r with
    | inl e => fail "reading media-inserted status: " e
    | inr false => mret (Some "the BMC accepted the insert but reports no media attached")
    | inr true =>
      e ← bmc_SetBootOnce "Cd" bootMode;
      match e with
      | Some e => fail "setting the one-time boot override: " e
      | None =>
        e ← bmc_Reset "ForceRestart";
        match e with
        | Some e => fail "power-cycling the machine: " e
        | None => mret None
        end
      end
    end
  end.

(** What Install returns. *)
Definition Outcome : Type := Result * option string.

(** [report], and [fail]: the phase that failed, then the Failed report. *)
Definition report (res : Result) (p : Phase) : St W Result :=
  _ ← d_Report p; mret (mkResult p (r_FailedPhase res) (r_HostKey res) (r_Kubeconfig res) (r_NodeName res)).
Definition fail (res : Result) (p : Phase) (e : string) : St W Outcome :=
  res ← report (mkResult (r_Phase res) p (r_HostKey res) (r_Kubeconfig res) (r_NodeName res)) PhaseFailed;
  mret (res, Some e).

Definition show_err (e : option string) : string := default "<nil>" e.

(** The deferred cleanup, on the outcome the rest decided. *)
Definition cleanup (token : string) (out : Outcome) : St W Outcome :=
  let '(res, err) := out in
  ejectErr ← bmc_EjectMedia;
  clearErr ← bmc_ClearBootOverride;
  removeErr ← (match ejectErr with None => images_Remove token | Some _ => mret None end);
  match ejectErr, clearErr, removeErr with
  | None, None, None => mret (res, err)
  | _, _, _ =>
    let priorPhase := r_Phase res in
    res ← report res PhaseFailed;
    let res := if bool_decide (r_FailedPhase res = "")
               then mkResult (r_Phase res) priorPhase (r_HostKey res) (r_Kubeconfig res) (r_NodeName res) else res in
    let cleanupErr := "cleanup failed and the machine needs attention -- it may still have installer media attached and a one-time boot override set (eject: " +:+
      show_err ejectErr +:+ ", clear boot override: " +:+ show_err clearErr +:+ ", remove image: " +:+ show_err removeErr +:+ ")" in
    mret (res, Some (match err with Some e => e +:+ "; additionally, " +:+ cleanupErr | None => cleanupErr end))
  end.

(** Ready: poll the target cluster until the node is there. *)
Fixpoint ready_loop (fuel : nat) (res : Result) (kubeconfig : option string) (name : string) (lastErr : option string) : St W (option Outcome) :=
  match fuel with
  | O => mret None
  | S fuel' =>
    r ← nodes_NodeReady kubeconfig name;
    match r with
    | inr true => res ← report res PhaseReady; mret (Some (res, None))
    | _ =>
      let lastErr := match r with inl e => Some e | inr _ => lastErr end in
      done ← select_done PhaseReady;
      if (done : bool) then
        msg ← phaseErr PhaseReady (match lastErr with
          | Some e => "node " +:+ name +:+ " never became Ready: " +:+ e
          | None => "node " +:+ name +:+ " never became Ready"
          end);
        out ← fail res PhaseReady msg; mret (Some out)
      else ready_loop fuel' res kubeconfig name lastErr
    end
  end.

Definition set_kubeconfig (res : Result) (k : option string) (name : string) : Result :=
  mkResult (r_Phase res) (r_FailedPhase res) (r_HostKey res) k name.

(** Joining and Ready, once the machine proved it is ours. *)
Definition join_and_wait (fuel : nat) (res : Result) (s : Spec) (o : Options) : St W (option Outcome) :=
  res ← report res PhaseJoining;
  r ← ssh_Dial (JoinHostPort (o_NodeAddress o) "22") (o_SSHUser o) (o_SSHKey o) (r_HostKey res);
  match r with
  | inl e => msg ← phaseErr PhaseJoining e; out ← fail res PhaseJoining msg; mret (Some out)
  | inr sess =>
    r ← Join sess (sp_Cluster s) (o_NodeAddress o);
    _ ← sess_Close sess;
    match r with
    | inl e => msg ← phaseErr PhaseJoining e; out ← fail res PhaseJoining msg; mret (Some out)
    | inr kubeconfig => ready_loop fuel (set_kubeconfig res kubeconfig (sp_Hostname s)) kubeconfig (sp_Hostname s) None
    end
  end.

(** Everything the cleanup is registered for. *)
Definition install_built (fuel : nat) (res : Result) (url : string) (s : Spec) (o : Options) : St W (option Outcome) :=
  e ← d_BeforeMediaAttached;
  match e with
  | Some e =>
    msg ← phaseErr PhasePreparing ("the last check before media is attached refused: " +:+ e);
    out ← fail res PhasePreparing msg; mret (Some out)
  | None =>
    res ← report res PhaseMediaAttached;
    e ← attachMediaAndBoot url (o_BootMode o);
    match e with
    | Some e => out ← fail res PhaseMediaAttached e; mret (Some out)
    | None =>
      res ← report res PhaseInstalling;
      r ← WaitForOurSystem fuel (JoinHostPort (o_NodeAddress o) "22") (o_SSHUser o) (o_SSHKey o) (sp_UID s);
      match r with
      | None => mret None
      | Some (inl e) => out ← fail res PhaseInstalling e; mret (Some out)
      | Some (inr hostKey) =>
        res ← report (mkResult (r_Phase res) (r_FailedPhase res) hostKey (r_Kubeconfig res) (r_NodeName res)) PhaseInstalled;
        join_and_wait fuel res s o
      end
    end
  end.

Definition set_boot_mode (s : Spec) (mode : string) : Spec :=
  mkSpec (sp_UID s) (sp_Hostname s) (sp_Network s) (sp_Layout s) (sp_SSHPublicKey s) (sp_Cluster s) mode.

Definition Install (fuel : nat) (s : Spec) (o : Options) : St W (option Outcome) :=
  let s := set_boot_mode s (o_BootMode o) in
  res ← report (mkResult PhasePending "" "" None "") PhasePending;
  match validateOptions o with
  | Some e => out ← fail res PhasePending e; mret (Some out)
  | None =>
  match validatePendingSpec s (o_NodeAddress o) with
  | Some e => out ← fail res PhasePending e; mret (Some out)
  | None =>
    r ← bmc_Serial;
    match r with
    | inl e =>
      msg ← phaseErr PhasePending ("reading the machine's serial: " +:+ e);
      out ← fail res PhasePending msg; mret (Some out)
    | inr serial =>
      match checkConfirmedSerial serial (o_ConfirmSerial o) with
      | Some e => out ← fail res PhasePending e; mret (Some out)
      | None =>
        res ← report res PhasePreparing;
        r ← images_Build s;
        match r with
        | inl e =>
          msg ← phaseErr PhasePreparing ("building the installer image: " +:+ e);
          out ← fail res PhasePreparing msg; mret (Some out)
        | inr (url, token) =>
          _ ← d_ReportToken token;
          out ← install_built fuel res url s o;
          match out with
          | None => mret None
          | Some out => out ← cleanup token out; mret (Some out)
          end
        end
      end
    end
  end
  end.
End Run.
