(* ===== verification/InstallSafety.v ===== *)
(** What Install guarantees, as statements about the trace of the calls it
    makes: nothing is written to a machine before its serial was confirmed,
    every exit after the image was built cleans up, no command runs on a
    system that did not prove it is ours, the result says how it ended, and
    with enough polls it does end. *)
From stdpp Require Import base tactics strings list gmap.
From Stdlib Require Import ZArith Lia Ascii.
From S2P Require Import Prelude Trace GoLib GoNet Provision Install.

Open Scope Z_scope.

(** One event per call, with its arguments and its answer. *)
Inductive Ev {S : Type} : Type :=
| ESerial (r : result string string)
| EInsert (url : string) (e : option string)
| EInserted (r : result string bool)
| EEject (e : option string)
| EBootOnce (target mode : string) (e : option string)
| EClear (e : option string)
| EReset (kind : string) (e : option string)
| EBuild (s : Spec) (r : result string (string * string))
| ERemove (token : string) (e : option string)
| EDial (addr user key expected : string) (r : result string S)
| ERun (s : S) (cmd : string)
| EOutput (s : S) (cmd : string)
| EInput (s : S) (cmd input : string)
| ERead (s : S) (path : string) (r : result string string)
| EClose (s : S)
| ENode (kubeconfig : option string) (name : string) (r : result string bool)
| EReport (p : Phase)
| EToken (token : string)
| EBefore (e : option string)
| ESelect (p : Phase) (done : bool).
#[global] Arguments Ev : clear implicits.

(** A history of the calls of one Install. *)
Class Traced (W : Type) `{MM : Machine W} := {
  trace : W -> list (Ev Session);
  t_Serial w : trace (bmc_Serial w).2 = trace w ++ [ESerial (bmc_Serial w).1];
  t_Insert u w : trace (bmc_InsertMedia u w).2 = trace w ++ [EInsert u (bmc_InsertMedia u w).1];
  t_Inserted w : trace (bmc_MediaInserted w).2 = trace w ++ [EInserted (bmc_MediaInserted w).1];
  t_Eject w : trace (bmc_EjectMedia w).2 = trace w ++ [EEject (bmc_EjectMedia w).1];
  t_Boot a b w : trace (bmc_SetBootOnce a b w).2 = trace w ++ [EBootOnce a b (bmc_SetBootOnce a b w).1];
  t_Clear w : trace (bmc_ClearBootOverride w).2 = trace w ++ [EClear (bmc_ClearBootOverride w).1];
  t_Reset k w : trace (bmc_Reset k w).2 = trace w ++ [EReset k (bmc_Reset k w).1];
  t_Build s w : trace (images_Build s w).2 = trace w ++ [EBuild s (images_Build s w).1];
  t_Remove t w : trace (images_Remove t w).2 = trace w ++ [ERemove t (images_Remove t w).1];
  t_Dial a u k x w : trace (ssh_Dial a u k x w).2 = trace w ++ [EDial a u k x (ssh_Dial a u k x w).1];
  t_Run s c w : trace (sess_Run s c w).2 = trace w ++ [ERun s c];
  t_Output s c w : trace (sess_Output s c w).2 = trace w ++ [EOutput s c];
  t_Input s c i w : trace (sess_RunWithInput s c i w).2 = trace w ++ [EInput s c i];
  t_Read s p w : trace (sess_ReadFile s p w).2 = trace w ++ [ERead s p (sess_ReadFile s p w).1];
  t_Close s w : trace (sess_Close s w).2 = trace w ++ [EClose s];
  t_Node k n w : trace (nodes_NodeReady k n w).2 = trace w ++ [ENode k n (nodes_NodeReady k n w).1];
  t_Report p w : trace (d_Report p w).2 = trace w ++ [EReport p];
  t_Token t w : trace (d_ReportToken t w).2 = trace w ++ [EToken t];
  t_Before w : trace (d_BeforeMediaAttached w).2 = trace w ++ [EBefore (d_BeforeMediaAttached w).1];
  t_ctx p w : trace (ctx_err p w).2 = trace w;
  t_select p w : trace (select_done p w).2 = trace w ++ [ESelect p (select_done p w).1]
}.

Section Traces.
Context {W : Type} {MM : Machine W} {TR : Traced W} {PL : ProvisionLibs}.

Abbreviation emits := (Trace.emits trace).
Abbreviation emits_ret := (Trace.emits_ret trace).
Abbreviation emits_bind := (Trace.emits_bind trace).
Abbreviation emits_mono := (Trace.emits_mono trace).
Abbreviation emits_call := (Trace.emits_call trace).
Abbreviation emits_call0 := (Trace.emits_call0 trace).
Abbreviation emits_skip := (Trace.emits_skip trace).
Abbreviation emits_op := (Trace.emits_op trace).
Abbreviation emits_quiet := (Trace.emits_quiet trace).

Lemma phaseErr_quiet p e : emits (phaseErr p e) (fun _ t => t = []).
Proof. unfold phaseErr. eapply emits_skip; [apply t_ctx|]. intros c. by apply emits_ret. Qed.
Lemma emits_phaseErr {B} p e (k : string -> St W B) (Q : B -> list (Ev Session) -> Prop) :
  (forall msg, emits (k msg) Q) -> emits (phaseErr p e ≫= k) Q.
Proof. intros Hk. eapply emits_bind; [apply phaseErr_quiet|]. intros a t ->. apply Hk. Qed.

Definition with_phase (res : Result) (p : Phase) : Result :=
  mkResult p (r_FailedPhase res) (r_HostKey res) (r_Kubeconfig res) (r_NodeName res).
Definition failed_in (res : Result) (p : Phase) : Result := mkResult PhaseFailed p (r_HostKey res) (r_Kubeconfig res) (r_NodeName res).

Lemma emits_report {B} res p (k : Result -> St W B) (Q : B -> list (Ev Session) -> Prop) :
  emits (k (with_phase res p)) (fun b t => Q b (EReport p :: t)) -> emits (report res p ≫= k) Q.
Proof.
  intros Hk. eapply (emits_bind _ _ (fun r t => r = with_phase res p /\ t = [EReport p])).
  - unfold report. eapply emits_call0; [apply t_Report|]. intros _. by apply emits_ret.
  - intros r t [-> ->]. exact Hk.
Qed.
(** [fail], as the last step. *)
Lemma emits_fail res p e (Q : option Outcome -> list (Ev Session) -> Prop) :
  Q (Some (failed_in res p, Some e)) [EReport PhaseFailed] -> emits (out ← fail res p e; mret (Some out)) Q.
Proof.
  intros HQ. eapply (emits_bind _ _ (fun out t => out = (failed_in res p, Some e) /\ t = [EReport PhaseFailed])).
  - unfold fail. apply emits_report. by apply emits_ret.
  - intros out t [-> ->]. by apply emits_ret.
Qed.

(** ** The pieces *)

(** Calls that leave the machine as it is. *)
Definition harmless (e : Ev Session) : bool :=
  match e with EInsert _ _ | EBootOnce _ _ _ | EReset _ _ => false | _ => true end.
(** Commands, on whichever session. *)
Definition command (e : Ev Session) : bool :=
  match e with ERun _ _ | EOutput _ _ | EInput _ _ _ => true | _ => false end.
Definition reports (t : list (Ev Session)) : list Phase :=
  omap (fun e => match e with EReport p => Some p | _ => None end) t.
Lemma reports_app t1 t2 : reports (t1 ++ t2) = reports t1 ++ reports t2.
Proof. apply omap_app. Qed.

(** attachMediaAndBoot: the four BMC calls in order, each after the one before
    it succeeded, and no reports. *)
Definition attach_trace (url mode : string) (e : option string) (t : list (Ev Session)) : Prop :=
  (exists r e1 e2, t = [EInsert url None; EInserted r; EBootOnce "Cd" mode e1; EReset "ForceRestart" e2] /\
     r = inr true /\ e1 = None /\ (e = None <-> e2 = None)) \/
  (e <> None /\ (exists e0, t = [EInsert url e0] \/ (exists r, t = [EInsert url e0; EInserted r]) \/
     (exists e1, t = [EInsert url e0; EInserted (inr true); EBootOnce "Cd" mode e1]))).

Lemma attach_emits url mode : emits (attachMediaAndBoot url mode) (attach_trace url mode).
Proof.
  unfold attachMediaAndBoot. eapply emits_call; [apply t_Insert|]. intros [e|]; cbn beta.
  { apply emits_phaseErr. intros msg. apply emits_ret. right. split; [done|]. exists (Some e). by left. }
  eapply emits_call; [apply t_Inserted|]. intros [e|[]].
  { apply emits_phaseErr. intros msg. apply emits_ret. right. split; [done|]. exists None. right. left. by eexists. }
  2: { apply emits_ret. right. split; [done|]. exists None. right. left. by eexists. }
  eapply emits_call; [apply t_Boot|]. intros [e|].
  { apply emits_phaseErr. intros msg. apply emits_ret. right. split; [done|]. exists None. right. right. by eexists. }
  eapply emits_call; [apply t_Reset|]. intros [e|].
  - apply emits_phaseErr. intros msg. apply emits_ret. left. eexists _, _, _. split; [reflexivity|]. split; [done|]. by split.
  - apply emits_ret. left. eexists _, _, _. split; [reflexivity|]. split; [done|]. by split.
Qed.

(** Join: the session it was given, and command lines that are a function of
    the target with its token erased. *)
Definition erase_token (t : ClusterTarget) : ClusterTarget := mkClusterTarget (ct_Mode t) (ct_ServerURL t) "" (ct_K3sVersion t).
Definition k3s_command (env args : string) : string :=
  env +:+ " sh " +:+ k3sInstallerPath +:+ " " +:+ args +:+ "; rc=$?; rm -f " +:+ k3sInstallerPath +:+ "; exit $rc".
Definition join_commands (t : ClusterTarget) (addr : string) : list string :=
  ["curl -sfL -o " +:+ k3sInstallerPath +:+ " " +:+ k3sInstallerURL;
   k3s_command ("INSTALL_K3S_VERSION=" +:+ shellQuote (ct_K3sVersion t)) ("server --cluster-init --node-ip " +:+ shellQuote addr);
   "sudo -n cat " +:+ k3sKubeconfigPath;
   k3s_command ("INSTALL_K3S_VERSION=" +:+ shellQuote (ct_K3sVersion t) +:+ " K3S_URL=" +:+ shellQuote (ct_ServerURL t) +:+
     " K3S_TOKEN_FILE=" +:+ shellQuote k3sJoinTokenPath) ("agent --node-ip " +:+ shellQuote addr)].
Definition join_event (sess : Session) (t : ClusterTarget) (addr : string) (e : Ev Session) : Prop :=
  match e with
  | ERun s c | EOutput s c => s = sess /\ c ∈ join_commands (erase_token t) addr
  | EInput s c i => s = sess /\ c = writeJoinTokenCmd /\ i = ct_JoinToken t
  | _ => False
  end.

Lemma installK3s_emits sess t addr env args : k3s_command env args ∈ join_commands (erase_token t) addr ->
  emits (installK3s sess env args) (fun _ tr => Forall (join_event sess t addr) tr).
Proof.
  intros Hin. unfold installK3s. eapply emits_call0; [apply t_Run|]. intros [e|out].
  - apply emits_ret. constructor; [|constructor]. split; [done|]. by left.
  - eapply emits_call0; [apply t_Run|]. intros r. apply emits_ret. constructor; [split; [done|by left]|].
    constructor; [by split|constructor].
Qed.

Lemma Join_emits sess t addr : emits (Join sess t addr) (fun _ tr => Forall (join_event sess t addr) tr).
Proof.
  unfold Join. destruct (validateK3sVersion _); [by apply emits_ret; constructor|].
  destruct (validateNodeAddress addr); [by apply emits_ret; constructor|]. case_bool_decide as Hinit.
  - eapply emits_bind; [apply (installK3s_emits sess t addr); right; left|]. intros [e|] tr Htr; [apply emits_ret; by rewrite app_nil_r|].
    eapply emits_call0; [apply t_Output|]. intros r. apply emits_ret. apply Forall_app. split; [done|].
    constructor; [|constructor]. split; [done|]. right. right. by left.
  - case_bool_decide as Hjoin; [|by apply emits_ret; constructor]. destruct (validateJoinToken _); [by apply emits_ret; constructor|].
    destruct (validateServerURL _); [by apply emits_ret; constructor|].
    eapply emits_call0; [apply t_Input|]. intros [e|out]; [apply emits_ret; by repeat constructor|].
    eapply emits_bind; [apply (installK3s_emits sess t addr); do 3 right; left|]. intros e tr Htr. apply emits_ret.
    rewrite app_nil_r. constructor; [by split|done].
Qed.

(** WaitForOurSystem: dials and marker reads, and on success the last session
    carried the install's UID. *)
Definition wait_event (addr user key : string) (e : Ev Session) : Prop :=
  match e with EDial a u k x _ => a = addr /\ u = user /\ k = key /\ x = "" | ERead _ p _ => p = markerPath | EClose _ => True
  | ESelect p _ => p = PhaseInstalling | _ => False end.
Definition proved (addr user key uid hostKey : string) (t : list (Ev Session)) : Prop :=
  exists t0 sess b, t = t0 ++ [EDial addr user key "" (inr sess); ERead sess markerPath (inr b); EClose sess] /\
    trim_space b = trim_space uid /\ trim_space uid <> "" /\ hostKey = trim_space (sess_HostKey sess).

Lemma proved_cons addr user key uid hk e t : proved addr user key uid hk t -> proved addr user key uid hk (e ++ t).
Proof. intros (t0 & sess & b & -> & H). exists (e ++ t0), sess, b. by rewrite app_assoc. Qed.

Lemma wait_emits fuel addr user key uid : emits (WaitForOurSystem fuel addr user key uid) (fun r t =>
  Forall (wait_event addr user key) t /\ forall hk, r = Some (inr hk) -> proved addr user key uid hk t).
Proof.
  unfold WaitForOurSystem. cbv zeta. case_bool_decide as Hne; [by apply emits_ret|]. generalize (@None string) as last.
  induction fuel as [|fuel IH]; intros last; [by apply emits_ret|]. cbn [wait_loop].
  eapply emits_skip; [apply t_ctx|]. intros [ce|]; [by apply emits_ret|].
  eapply emits_call; [apply t_Dial|]. intros [e|sess].
  { eapply emits_call; [apply t_select|]. intros b. eapply emits_mono; [apply IH|]. intros r t [Ht Hr].
    split; [by repeat constructor|]. intros hk Hhk. apply (proved_cons _ _ _ _ _ [_; _]). by apply Hr. }
  eapply emits_call; [apply t_Read|]. intros b. eapply emits_call0; [apply t_Close|]. intros _.
  assert (forall (r : option (result string string)) t, (Forall (wait_event addr user key) t /\ forall hk, r = Some (inr hk) -> proved addr user key uid hk t) ->
    forall d, Forall (wait_event addr user key)
      (EDial addr user key "" (inr sess) :: ERead sess markerPath b :: EClose sess :: ESelect PhaseInstalling d :: t) /\
    forall hk, r = Some (inr hk) -> proved addr user key uid hk
      (EDial addr user key "" (inr sess) :: ERead sess markerPath b :: EClose sess :: ESelect PhaseInstalling d :: t)) as Hstep.
  { intros r t [Ht Hr] d. split; [by repeat constructor|]. intros hk Hhk. apply (proved_cons _ _ _ _ _ [_; _; _; _]). by apply Hr. }
  destruct b as [e|b].
  { eapply emits_call; [apply t_select|]. intros d. eapply emits_mono; [apply IH|]. intros r t Hrt. by apply Hstep. }
  case_bool_decide as Hb.
  { eapply emits_call; [apply t_select|]. intros d. eapply emits_mono; [apply IH|]. intros r t Hrt. by apply Hstep. }
  apply emits_ret. split; [by repeat constructor|]. intros hk [= <-]. exists [], sess, b. by split_and!.
Qed.

(** The poll for the node: node reads, then Ready exactly when one of them said
    so. *)
Definition node_event (e : Ev Session) : Prop := match e with ENode _ _ _ | ESelect _ _ => True | _ => False end.
Inductive ready_trace (res : Result) : option Outcome -> list (Ev Session) -> Prop :=
| ready_yes t k n : Forall node_event t ->
    ready_trace res (Some (with_phase res PhaseReady, None)) (t ++ [ENode k n (inr true); EReport PhaseReady])
| ready_no t e : Forall node_event t ->
    ready_trace res (Some (failed_in res PhaseReady, Some e)) (t ++ [EReport PhaseFailed])
| ready_polling t : Forall node_event t -> ready_trace res None t.

Lemma ready_trace_cons res r e t : node_event e -> ready_trace res r t -> ready_trace res r (e :: t).
Proof.
  intros He Ht. inversion_clear Ht; rewrite ?app_comm_cons; constructor; by constructor.
Qed.
Lemma ready_emits fuel res k n last : emits (ready_loop fuel res k n last) (ready_trace res).
Proof.
  revert last. induction fuel as [|fuel IH]; intros last; [by apply emits_ret; constructor|]. cbn [ready_loop].
  eapply emits_call; [apply t_Node|]. intros r.
  assert (forall lastErr, emits (done ← select_done PhaseReady;
      if (done : bool) then msg ← phaseErr PhaseReady (match lastErr with
          | Some e => "node " +:+ n +:+ " never became Ready: " +:+ e | None => "node " +:+ n +:+ " never became Ready" end);
        out ← fail res PhaseReady msg; mret (Some out)
      else ready_loop fuel res k n lastErr) (fun b t' => ready_trace res b (ENode k n r :: t'))) as Hgo.
  { intros lastErr. eapply emits_call; [apply t_select|]. intros [].
    - apply emits_phaseErr. intros msg. apply emits_fail. apply (ready_no res [_; _]). by repeat constructor.
    - eapply emits_mono; [apply IH|]. intros b t Ht. apply ready_trace_cons; [done|]. by apply ready_trace_cons. }
  destruct r as [e|[]]; [apply (Hgo (Some e))| |apply (Hgo last)]. apply emits_report. apply emits_ret. by apply (ready_yes res []).
Qed.

(** ** The whole sequence *)

(** Joining and Ready: the dial pins the host key, the commands run on the
    session it opened. *)
Inductive join_trace (res : Result) (s : Spec) (o : Options) : option Outcome -> list (Ev Session) -> Prop :=
| join_undialled e0 e : join_trace res s o (Some (failed_in res PhaseJoining, Some e))
    [EReport PhaseJoining; EDial (JoinHostPort (o_NodeAddress o) "22") (o_SSHUser o) (o_SSHKey o) (r_HostKey res) (inl e0); EReport PhaseFailed]
| join_failed sess t e : Forall (join_event sess (sp_Cluster s) (o_NodeAddress o)) t ->
    join_trace res s o (Some (failed_in res PhaseJoining, Some e))
      (EReport PhaseJoining :: EDial (JoinHostPort (o_NodeAddress o) "22") (o_SSHUser o) (o_SSHKey o) (r_HostKey res) (inr sess) ::
       t ++ [EClose sess; EReport PhaseFailed])
| join_done sess t k r t' : Forall (join_event sess (sp_Cluster s) (o_NodeAddress o)) t ->
    ready_trace (set_kubeconfig res k (sp_Hostname s)) r t' ->
    join_trace res s o r
      (EReport PhaseJoining :: EDial (JoinHostPort (o_NodeAddress o) "22") (o_SSHUser o) (o_SSHKey o) (r_HostKey res) (inr sess) ::
       t ++ EClose sess :: t').

Lemma ready_trace_phase res q k n r t : ready_trace (set_kubeconfig (with_phase res q) k n) r t -> ready_trace (set_kubeconfig res k n) r t.
Proof.
  intros H. inversion_clear H as [t0 k0 n0 Ht|t0 e Ht|t0 Ht].
  - exact (ready_yes (set_kubeconfig res k n) t0 k0 n0 Ht).
  - exact (ready_no (set_kubeconfig res k n) t0 e Ht).
  - by apply ready_polling.
Qed.

Lemma join_emits fuel res s o : emits (join_and_wait fuel res s o) (join_trace res s o).
Proof.
  unfold join_and_wait. apply emits_report. eapply emits_call; [apply t_Dial|]. intros [e0|sess].
  { apply emits_phaseErr. intros msg. apply emits_fail. exact (join_undialled res s o e0 msg). }
  eapply emits_bind; [apply Join_emits|]. intros r t Ht. eapply emits_call0; [apply t_Close|]. intros _. destruct r as [e|k].
  - apply emits_phaseErr. intros msg. apply emits_fail. exact (join_failed res s o sess t msg Ht).
  - eapply emits_mono; [apply ready_emits|]. intros out t' Ht'. apply (join_done res s o sess t k); [done|].
    by apply (ready_trace_phase res PhaseJoining).
Qed.

(** Between the build and the cleanup. *)
Inductive built_trace (res : Result) (url : string) (s : Spec) (o : Options) : option Outcome -> list (Ev Session) -> Prop :=
| built_stopped e0 e :
    built_trace res url s o (Some (failed_in res PhasePreparing, Some e)) [EBefore (Some e0); EReport PhaseFailed]
| built_unattached t e : attach_trace url (o_BootMode o) (Some e) t ->
    built_trace res url s o (Some (failed_in res PhaseMediaAttached, Some e))
      (EBefore None :: EReport PhaseMediaAttached :: t ++ [EReport PhaseFailed])
| built_waiting t tw : attach_trace url (o_BootMode o) None t ->
    Forall (wait_event (JoinHostPort (o_NodeAddress o) "22") (o_SSHUser o) (o_SSHKey o)) tw ->
    built_trace res url s o None (EBefore None :: EReport PhaseMediaAttached :: t ++ EReport PhaseInstalling :: tw)
| built_silent t tw e : attach_trace url (o_BootMode o) None t ->
    Forall (wait_event (JoinHostPort (o_NodeAddress o) "22") (o_SSHUser o) (o_SSHKey o)) tw ->
    built_trace res url s o (Some (failed_in res PhaseInstalling, Some e))
      (EBefore None :: EReport PhaseMediaAttached :: t ++ EReport PhaseInstalling :: tw ++ [EReport PhaseFailed])
| built_ours t tw hk r tj : attach_trace url (o_BootMode o) None t ->
    Forall (wait_event (JoinHostPort (o_NodeAddress o) "22") (o_SSHUser o) (o_SSHKey o)) tw ->
    proved (JoinHostPort (o_NodeAddress o) "22") (o_SSHUser o) (o_SSHKey o) (sp_UID s) hk tw ->
    join_trace (mkResult PhaseInstalled (r_FailedPhase res) hk (r_Kubeconfig res) (r_NodeName res)) s o r tj ->
    built_trace res url s o r
      (EBefore None :: EReport PhaseMediaAttached :: t ++ EReport PhaseInstalling :: tw ++ EReport PhaseInstalled :: tj).

Lemma built_emits fuel res url s o : emits (install_built fuel res url s o) (built_trace res url s o).
Proof.
  unfold install_built. eapply emits_call; [apply t_Before|]. intros [e0|].
  { apply emits_phaseErr. intros msg. apply emits_fail. exact (built_stopped res url s o e0 msg). }
  apply emits_report. eapply emits_bind; [apply attach_emits|]. intros [e|] t Ht.
  { apply emits_fail. exact (built_unattached res url s o t e Ht). }
  apply emits_report. eapply emits_bind; [apply wait_emits|]. intros [[e|hk]|] tw [Htw Hproved].
  - apply emits_fail. exact (built_silent res url s o t tw e Ht Htw).
  - apply emits_report. eapply emits_mono; [apply join_emits|]. intros r tj Hj.
    apply (built_ours res url s o t tw hk r tj); [done|done|by apply Hproved|exact Hj].
  - apply emits_ret. rewrite app_nil_r. by constructor.
Qed.

(** The cleanup: eject, clear, remove the image only once ejected; anything
    that fails makes the outcome Failed. *)
Definition any_failed (e1 e2 e3 : option string) : bool := match e1, e2, e3 with None, None, None => false | _, _, _ => true end.
Definition cleanup_trace (token : string) (out1 out : Outcome) (t : list (Ev Session)) : Prop :=
  exists e1 e2 e3,
    t = EEject e1 :: EClear e2 :: (match e1 with None => [ERemove token e3] | Some _ => [] end) ++
        (if any_failed e1 e2 e3 then [EReport PhaseFailed] else []) /\
    (if any_failed e1 e2 e3 then r_Phase out.1 = PhaseFailed /\ is_Some out.2 /\
       r_FailedPhase out.1 = (if bool_decide (r_FailedPhase out1.1 = "") then r_Phase out1.1 else r_FailedPhase out1.1) /\
       r_HostKey out.1 = r_HostKey out1.1 /\ r_Kubeconfig out.1 = r_Kubeconfig out1.1 /\ r_NodeName out.1 = r_NodeName out1.1
     else out = out1).

Lemma cleanup_emits token out1 : emits (cleanup token out1) (cleanup_trace token out1).
Proof.
  unfold cleanup. destruct out1 as [res err]. eapply emits_call; [apply t_Eject|]. intros e1. eapply emits_call; [apply t_Clear|]. intros e2.
  eapply (emits_bind _ _ (fun e3 t => t = match e1 with None => [ERemove token e3] | Some _ => [] end /\ (e1 <> None -> e3 = None))).
  { destruct e1; [by apply emits_ret|]. eapply emits_mono; [apply (emits_op _ (fun e => [ERemove token e])), t_Remove|]. by intros e t ->. }
  intros e3 t [-> He3].
  assert (any_failed e1 e2 e3 = true -> emits (res' ← report res PhaseFailed;
      let res' := if bool_decide (r_FailedPhase res' = "")
               then mkResult (r_Phase res') (r_Phase res) (r_HostKey res') (r_Kubeconfig res') (r_NodeName res') else res' in
      let cleanupErr := "cleanup failed and the machine needs attention -- it may still have installer media attached and a one-time boot override set (eject: " +:+
        show_err e1 +:+ ", clear boot override: " +:+ show_err e2 +:+ ", remove image: " +:+ show_err e3 +:+ ")" in
      mret (res', Some (match err with Some e => e +:+ "; additionally, " +:+ cleanupErr | None => cleanupErr end)))
    (fun b t' => cleanup_trace token (res, err) b (EEject e1 :: EClear e2 :: match e1 with None => [ERemove token e3] | Some _ => [] end ++ t'))) as Hfail.
  { intros Hb. apply emits_report, emits_ret. exists e1, e2, e3. rewrite Hb. split; [done|]. cbn [fst snd with_phase r_FailedPhase].
    case_bool_decide; by split_and!. }
  destruct e1 as [e1|]; [by apply Hfail|]. destruct e2 as [e2|]; [by apply Hfail|]. destruct e3 as [e3|]; [by apply Hfail|].
  apply emits_ret. by exists None, None, None.
Qed.

Definition res0 : Result := mkResult PhasePending "" "" None "".
(** Before an image exists. *)
Definition early_event (e : Ev Session) : Prop :=
  match e with ESerial _ | EBuild _ (inl _) => True | EReport p => p = PhasePreparing | _ => False end.

(** The checks that all have to pass first. *)
Definition admitted (s : Spec) (o : Options) (serial : string) : Prop :=
  validateOptions o = None /\ validatePendingSpec (set_boot_mode s (o_BootMode o)) (o_NodeAddress o) = None /\
  serial = o_ConfirmSerial o /\ serial <> "".

Inductive install_trace (s : Spec) (o : Options) : option Outcome -> list (Ev Session) -> Prop :=
| install_refused p e t : Forall early_event t -> p <> "" ->
    reports t = (if bool_decide (p = PhasePending) then [] else [PhasePreparing]) ->
    install_trace s o (Some (failed_in res0 p, Some e)) (EReport PhasePending :: t ++ [EReport PhaseFailed])
| install_running serial url token t : admitted s o serial ->
    built_trace (with_phase res0 PhasePreparing) url (set_boot_mode s (o_BootMode o)) o None t ->
    install_trace s o None (EReport PhasePending :: ESerial (inr serial) :: EReport PhasePreparing ::
      EBuild (set_boot_mode s (o_BootMode o)) (inr (url, token)) :: EToken token :: t)
| install_ended serial url token out1 out t tc : admitted s o serial ->
    built_trace (with_phase res0 PhasePreparing) url (set_boot_mode s (o_BootMode o)) o (Some out1) t ->
    cleanup_trace token out1 out tc ->
    install_trace s o (Some out) (EReport PhasePending :: ESerial (inr serial) :: EReport PhasePreparing ::
      EBuild (set_boot_mode s (o_BootMode o)) (inr (url, token)) :: EToken token :: t ++ tc).

Lemma confirmed_ok serial confirmed : checkConfirmedSerial serial confirmed = None -> serial = confirmed /\ serial <> "".
Proof. unfold checkConfirmedSerial. repeat case_bool_decide; naive_solver. Qed.

Lemma Install_emits fuel s o : emits (Install fuel s o) (install_trace s o).
Proof.
  unfold Install. cbv zeta. apply emits_report. change (with_phase _ PhasePending) with res0.
  destruct (validateOptions o) as [e|] eqn:Eo; [apply emits_fail; by apply (install_refused s o PhasePending e [])|].
  destruct (validatePendingSpec _ _) as [e|] eqn:Es; [apply emits_fail; by apply (install_refused s o PhasePending e [])|].
  eapply emits_call; [apply t_Serial|]. intros [e|serial].
  { apply emits_phaseErr. intros msg. apply emits_fail. apply (install_refused s o PhasePending msg [_]); by repeat constructor. }
  destruct (checkConfirmedSerial serial _) as [e|] eqn:Ec.
  { apply emits_fail. apply (install_refused s o PhasePending e [_]); by repeat constructor. }
  apply confirmed_ok in Ec as [Hser Hne]. apply emits_report. eapply emits_call; [apply t_Build|]. intros [e|[url token]].
  { apply emits_phaseErr. intros msg. apply emits_fail.
    apply (install_refused s o PhasePreparing msg [_; _; _]); by repeat constructor. }
  eapply emits_call0; [apply t_Token|]. intros _. eapply emits_bind; [apply built_emits|]. intros [out1|] t Ht.
  - eapply emits_bind; [apply cleanup_emits|]. intros out tc Htc. apply emits_ret. rewrite app_nil_r.
    apply (install_ended s o serial url token out1 out t tc); [by split_and!|exact Ht|exact Htc].
  - apply emits_ret. rewrite app_nil_r. apply (install_running s o serial url token t); [by split_and!|exact Ht].
Qed.

(** ** Theorems *)

Lemma skip_prefix (P : Ev Session -> Prop) pre rest t1 e t2 : Forall P pre -> ~ P e -> pre ++ rest = t1 ++ e :: t2 ->
  exists t1', t1 = pre ++ t1' /\ rest = t1' ++ e :: t2.
Proof.
  intros Hpre He. revert t1. induction Hpre as [|x pre Hx Hpre IH]; intros t1 Heq; [by exists t1|].
  destruct t1 as [|y t1]; simplify_eq/=; [done|]. destruct (IH t1) as (t1' & -> & ->); [done|]. by exists t1'.
Qed.
Lemma no_elem (P : Ev Session -> Prop) l t1 e t2 : Forall P l -> ~ P e -> l <> t1 ++ e :: t2.
Proof. intros Hl He ->. apply Forall_app in Hl as [_ Hl]. by apply Forall_cons in Hl as [? _]. Qed.

(** What the pieces consist of. *)
Lemma attach_ok url mode t : attach_trace url mode None t ->
  t = [EInsert url None; EInserted (inr true); EBootOnce "Cd" mode None; EReset "ForceRestart" None].
Proof. intros [(r & e1 & e2 & -> & -> & -> & He)|[? _]]; [|done]. by rewrite (proj1 He eq_refl). Qed.
Definition bmc_event (e : Ev Session) : Prop :=
  match e with EInsert _ _ | EInserted _ | EBootOnce _ _ _ | EReset _ _ => True | _ => False end.
Lemma attach_events url mode e t : attach_trace url mode e t -> Forall bmc_event t.
Proof. intros [(r & e1 & e2 & -> & _)|[_ (e0 & [->|[[r ->]|[e1 ->]]])]]; by repeat constructor. Qed.
Definition cleanup_event (e : Ev Session) : Prop :=
  match e with EEject _ | EClear _ | ERemove _ _ => True | EReport p => p = PhaseFailed | _ => False end.
Lemma cleanup_events token out1 out t : cleanup_trace token out1 out t -> Forall cleanup_event t.
Proof. intros (e1 & e2 & e3 & -> & _). destruct e1, e2, e3; by repeat constructor. Qed.

(** What happens between the build and the cleanup. *)
Definition run_event (e : Ev Session) : Prop :=
  match e with ESerial _ | EBuild _ _ | EToken _ | EEject _ | EClear _ | ERemove _ _ => False | _ => True end.
Lemma ready_events res r t : ready_trace res r t -> Forall run_event t.
Proof.
  assert (forall l, Forall node_event l -> Forall run_event l) as Hn by (intros l Hl; eapply Forall_impl; [exact Hl|by intros []]).
  intros H. inversion_clear H; rewrite ?Forall_app; repeat split; auto; by repeat constructor.
Qed.
Lemma join_run_events res s o r t : join_trace res s o r t -> Forall run_event t.
Proof.
  assert (forall ss c a l, Forall (join_event ss c a) l -> Forall run_event l) as Hj
    by (intros ss c a l Hl; eapply Forall_impl; [exact Hl|by intros []]).
  intros H. inversion_clear H as [|sess tj e Htj|sess tj k ? tr Htj Htr]; repeat constructor; rewrite Forall_app; (split; [by eapply Hj|]).
  - by repeat constructor.
  - constructor; [done|]. by eapply ready_events.
Qed.
Lemma built_run_events res url s o r t : built_trace res url s o r t -> Forall run_event t.
Proof.
  assert (forall l, Forall bmc_event l -> Forall run_event l) as Hb by (intros l Hl; eapply Forall_impl; [exact Hl|by intros []]).
  assert (forall a u k l, Forall (wait_event a u k) l -> Forall run_event l) as Hw
    by (intros a u k l Hl; eapply Forall_impl; [exact Hl|by intros []]).
  intros H. inversion_clear H as [|ta e Ha|ta tw Ha Htw|ta tw e Ha Htw|ta tw hk ? tj Ha Htw _ Hj]; repeat constructor;
    (apply Forall_app; split; [by eapply Hb, attach_events|]); repeat (constructor; [done|]);
    rewrite ?Forall_app; [by constructor|by eapply Hw|split; [by eapply Hw|by repeat constructor]|].
  split; [by eapply Hw|]. constructor; [done|]. by eapply join_run_events.
Qed.

Lemma Install_run fuel s o w r w' : Install fuel s o w = (r, w') -> exists t, trace w' = trace w ++ t /\ install_trace s o r t.
Proof. intros E. destruct (Install_emits fuel s o w) as (t & Ht & HP). rewrite E in *. by exists t. Qed.

Definition install_head (s : Spec) (o : Options) (serial url token : string) : list (Ev Session) :=
  [EReport PhasePending; ESerial (inr serial); EReport PhasePreparing;
   EBuild (set_boot_mode s (o_BootMode o)) (inr (url, token)); EToken token].

Lemma built_write res url s o r t t1 e t2 : built_trace res url s o r t -> t = t1 ++ e :: t2 -> harmless e = false ->
  EBefore None ∈ t1.
Proof.
  intros Ht Heq He. assert (~ (fun e => Is_true (harmless e)) e) as Hne by (intros Hh; cbv beta in Hh; by rewrite He in Hh).
  assert ((exists t', t = EBefore None :: t') \/ Forall (fun e => Is_true (harmless e)) t) as [(t' & ->)|Hq].
  { destruct Ht; [right; by repeat constructor|left; by eexists..]. }
  - destruct (skip_prefix (fun e => Is_true (harmless e)) [EBefore None] t' t1 e t2) as (t1' & -> & _); [by repeat constructor|done|done|].
    by left.
  - by destruct (no_elem _ _ t1 e t2 Hq Hne).
Qed.

(** C2. Nothing is inserted, overridden or reset on a machine before its BMC
    reported exactly the serial that was retyped by hand, which is not empty,
    every check of the request passed, the image was built and the caller's
    last check let it through. *)
Theorem machine_written_only_confirmed fuel s o w w' r t t1 e t2 :
  Install fuel s o w = (r, w') -> trace w' = trace w ++ t -> t = t1 ++ e :: t2 -> harmless e = false ->
  admitted s o (o_ConfirmSerial o) /\ ESerial (inr (o_ConfirmSerial o)) ∈ t1 /\ EBefore None ∈ t1 /\
  exists url token, EBuild (set_boot_mode s (o_BootMode o)) (inr (url, token)) ∈ t1.
Proof.
  intros (t' & Ht' & Htr)%Install_run Ht Heq He. rewrite Ht in Ht'. apply app_inv_head in Ht' as <-.
  assert (~ (fun e => Is_true (harmless e)) e) as Hne by (intros Hh; cbv beta in Hh; by rewrite He in Hh).
  assert (exists serial url token r1 tb tc, admitted s o serial /\
    built_trace (with_phase res0 PhasePreparing) url (set_boot_mode s (o_BootMode o)) o r1 tb /\
    Forall (fun e => Is_true (harmless e)) tc /\ t = install_head s o serial url token ++ tb ++ tc) as (serial & url & token & r1 & tb & tc & Hadm & Hb & Htc & Ht0).
  { destruct Htr as [p err tq Hq|serial url token tb Hadm Hb|serial url token out1 out tb tc Hadm Hb Hc].
    - exfalso. revert Heq. apply (no_elem (fun e => Is_true (harmless e))); [|done]. constructor; [done|].
      apply Forall_app. split; [|by repeat constructor]. eapply Forall_impl; [exact Hq|]. by intros [].
    - exists serial, url, token, None, tb, []. rewrite app_nil_r. by split_and!.
    - exists serial, url, token, (Some out1), tb, tc. split_and!; try done. eapply Forall_impl; [by eapply cleanup_events|]. by intros []. }
  rewrite Ht0 in Heq. apply (skip_prefix (fun e => Is_true (harmless e))) in Heq as (t1' & -> & Heq); [|by repeat constructor|done].
  destruct Hadm as (Ho & Hs & -> & Hne0). assert (EBefore None ∈ t1') as Hbefore.
  { destruct (app_eq_inv _ _ _ _ Heq) as [(k & Hk & Hk2)|(k & -> & Hk2)].
    - destruct k as [|x k]; [exfalso; by apply (no_elem (fun e => Is_true (harmless e)) tc [] e t2)|].
      injection Hk2 as <- ->. by eapply (built_write _ _ _ _ _ tb t1' e k).
    - exfalso. by apply (no_elem (fun e => Is_true (harmless e)) tc k e t2). }
  split; [by split_and!|]. split; [apply elem_of_app; left; set_solver|]. split; [apply elem_of_app; by right|].
  exists url, token. apply elem_of_app. left. set_solver.
Qed.

(** C10. Once an image was built, every return goes through the cleanup: media
    is ejected and the boot override cleared, nothing is written to the machine
    after that, the image is removed only if the eject worked, and if any of it
    failed the install is Failed with an error, whatever it had reached. *)
Theorem every_exit_cleans_up fuel s o w w' out t url token :
  Install fuel s o w = (Some out, w') -> trace w' = trace w ++ t ->
  EBuild (set_boot_mode s (o_BootMode o)) (inr (url, token)) ∈ t ->
  exists t0 e1 e2 e3, t = t0 ++ EEject e1 :: EClear e2 :: (match e1 with None => [ERemove token e3] | Some _ => [] end) ++
      (if any_failed e1 e2 e3 then [EReport PhaseFailed] else []) /\
    (any_failed e1 e2 e3 = true -> r_Phase out.1 = PhaseFailed /\ is_Some out.2).
Proof.
  intros (t' & Ht' & Htr)%Install_run Ht Hin. rewrite Ht in Ht'. apply app_inv_head in Ht' as <-.
  remember (Some out) as r eqn:Er. destruct Htr as [p err tq Hq|serial url' token' tb Hadm Hb|serial url' token' out1 out' tb tc Hadm Hb Hc]; [|done|].
  - exfalso. apply elem_of_cons in Hin as [|Hin]; [done|]. apply elem_of_app in Hin as [Hin|Hin]; [|set_solver].
    rewrite Forall_forall in Hq. by apply Hq in Hin.
  - injection Er as <-. assert (token' = token) as ->.
    { apply (elem_of_app (install_head s o serial url' token') (tb ++ tc)) in Hin as [Hin|Hin]; [set_solver|]. exfalso.
      apply elem_of_app in Hin as [Hin|Hin].
      - assert (Forall (fun e => match e with EBuild _ _ => False | _ => True end) tb) as Hno.
        { eapply Forall_impl; [by eapply built_run_events|]. by intros []. }
        rewrite Forall_forall in Hno. by apply Hno in Hin.
      - apply cleanup_events in Hc. rewrite Forall_forall in Hc. by apply Hc in Hin. }
    destruct Hc as (e1 & e2 & e3 & -> & Hout). exists (install_head s o serial url' token ++ tb), e1, e2, e3.
    split; [by rewrite <- app_assoc|]. intros Hf. rewrite Hf in Hout. tauto.
Qed.

(** ** No command before the machine proved it is ours *)

Lemma not_command (P : Ev Session -> Prop) l : (forall e, P e -> command e = false) -> Forall P l -> Forall (fun e => command e = false) l.
Proof. intros H Hl. by eapply Forall_impl. Qed.
Lemma split_quiet (P : Ev Session -> Prop) l rest t1 e t2 : (forall e, P e -> command e = false) -> Forall P l -> command e = true ->
  l ++ rest = t1 ++ e :: t2 -> exists t1', t1 = l ++ t1' /\ rest = t1' ++ e :: t2.
Proof. intros H Hl He. apply (skip_prefix (fun e => command e = false)); [by eapply not_command|by rewrite He]. Qed.
Lemma no_quiet (P : Ev Session -> Prop) l t1 e t2 : (forall e, P e -> command e = false) -> Forall P l -> command e = true -> l <> t1 ++ e :: t2.
Proof. intros H Hl He. apply (no_elem (fun e => command e = false)); [by eapply not_command|by rewrite He]. Qed.

Lemma cleanup_quiet e : cleanup_event e -> command e = false. Proof. by destruct e. Qed.
Lemma bmc_quiet e : bmc_event e -> command e = false. Proof. by destruct e. Qed.
Lemma wait_quiet a u k e : wait_event a u k e -> command e = false. Proof. by destruct e. Qed.
Lemma node_quiet e : node_event e -> command e = false. Proof. by destruct e. Qed.
Lemma early_quiet e : early_event e -> command e = false. Proof. by destruct e. Qed.

Lemma ready_quiet res r t : ready_trace res r t -> Forall (fun e => command e = false) t.
Proof.
  intros H. inversion_clear H as [tn k n Hn|tn e Hn|tn Hn]; apply (not_command _ _ node_quiet) in Hn; [..|done];
    (apply Forall_app; split; [done|by repeat constructor]).
Qed.

(** The dial with the pinned key, then [e] on the session it opened. *)
Definition pinned (hk : string) (s : Spec) (o : Options) (t1 : list (Ev Session)) (e : Ev Session) : Prop :=
  exists sess, EDial (JoinHostPort (o_NodeAddress o) "22") (o_SSHUser o) (o_SSHKey o) hk (inr sess) ∈ t1 /\
    join_event sess (sp_Cluster s) (o_NodeAddress o) e.

Lemma join_pinned res s o r t tc t1 e t2 : join_trace res s o r t -> Forall (fun e => command e = false) tc ->
  t ++ tc = t1 ++ e :: t2 -> command e = true -> pinned (r_HostKey res) s o t1 e.
Proof.
  intros Hj Htc Heq He. inversion Hj as [e0 e' Hr|sess tj e' Htj Hr|sess tj k r' tr Htj Htr Hr]; subst.
  - exfalso. revert Heq. apply (no_quiet (fun e => command e = false)); [done|by repeat constructor|done].
  - apply (split_quiet (fun e => command e = false) [_; _] ((tj ++ [EClose sess; EReport PhaseFailed]) ++ tc)) in Heq
      as (t1' & -> & Heq); [|done|by repeat constructor|done].
    exists sess. split; [set_solver|].
    assert (e ∈ (tj ++ [EClose sess; EReport PhaseFailed]) ++ tc) as [[Hin|Hin]%elem_of_app|Hin]%elem_of_app by (rewrite Heq; set_solver);
      [by eapply Forall_forall in Hin|exfalso..].
    + apply elem_of_cons in Hin as [->|Hin]; [done|]. apply list_elem_of_singleton in Hin as ->. done.
    + rewrite Forall_forall in Htc. apply Htc in Hin. congruence.
  - apply (split_quiet (fun e => command e = false) [_; _] ((tj ++ EClose sess :: tr) ++ tc)) in Heq
      as (t1' & -> & Heq); [|done|by repeat constructor|done].
    exists sess. split; [set_solver|].
    assert (e ∈ (tj ++ EClose sess :: tr) ++ tc) as [[Hin|[->|Hin]%elem_of_cons]%elem_of_app|Hin]%elem_of_app by (rewrite Heq; set_solver);
      [by eapply Forall_forall in Hin|done|exfalso..].
    + apply ready_quiet in Htr. rewrite Forall_forall in Htr. apply Htr in Hin. congruence.
    + rewrite Forall_forall in Htc. apply Htc in Hin. congruence.
Qed.

Lemma built_pinned res url s o r t tc t1 e t2 : built_trace res url s o r t -> Forall (fun e => command e = false) tc ->
  t ++ tc = t1 ++ e :: t2 -> command e = true ->
  exists hk ta tb, t1 = ta ++ tb /\ proved (JoinHostPort (o_NodeAddress o) "22") (o_SSHUser o) (o_SSHKey o) (sp_UID s) hk ta /\ pinned hk s o tb e.
Proof.
  intros Hb Htc Heq He.
  assert (forall l, Forall bmc_event l -> Forall (fun e => command e = false) l) as Hq by (intros l; apply not_command, bmc_quiet).
  assert (forall l, Forall (wait_event (JoinHostPort (o_NodeAddress o) "22") (o_SSHUser o) (o_SSHKey o)) l -> Forall (fun e => command e = false) l) as Hqw
    by (intros l; apply not_command, wait_quiet).
  destruct Hb as [e0 e'|ta e' Ha|ta tw Ha Htw|ta tw e' Ha Htw|ta tw hk r' tj Ha Htw Hp Hj]; try (apply attach_events, Hq in Ha).
  1-4: exfalso; revert Heq; apply (no_quiet (fun e => command e = false)); [done| |done]; apply Forall_app; split; [|done].
  - by repeat constructor.
  - repeat (constructor; [done|]). apply Forall_app. split; [done|]. by repeat constructor.
  - repeat (constructor; [done|]). apply Forall_app. split; [done|]. constructor; [done|]. by apply Hqw.
  - repeat (constructor; [done|]). apply Forall_app. split; [done|]. constructor; [done|]. apply Forall_app. split; [by apply Hqw|by repeat constructor].
  - replace ((EBefore None :: EReport PhaseMediaAttached :: ta ++ EReport PhaseInstalling :: tw ++ EReport PhaseInstalled :: tj) ++ tc)
    with ((EBefore None :: EReport PhaseMediaAttached :: ta ++ EReport PhaseInstalling :: tw) ++ (EReport PhaseInstalled :: tj ++ tc)) in Heq
    by (simpl; rewrite <- !app_assoc; simpl; by rewrite <- !app_assoc).
  apply (split_quiet (fun e => command e = false)) in Heq as (t1' & -> & Heq); [|done| |done].
  2: { repeat (constructor; [done|]). apply Forall_app. split; [done|]. constructor; [done|]. by apply Hqw. }
  apply (split_quiet (fun e => command e = false) [EReport PhaseInstalled] (tj ++ tc)) in Heq as (t1'' & -> & Heq); [|done|by repeat constructor|done].
  exists hk. eexists _, _. split; [reflexivity|]. split.
  { replace (EBefore None :: EReport PhaseMediaAttached :: ta ++ EReport PhaseInstalling :: tw)
      with ((EBefore None :: EReport PhaseMediaAttached :: ta ++ [EReport PhaseInstalling]) ++ tw) by (simpl; by rewrite <- app_assoc).
    by apply proved_cons. }
  destruct (join_pinned _ _ _ _ _ _ _ _ _ Hj Htc Heq He) as (sess & Hd & Hje). exists sess. split; [set_solver|done].
Qed.

(** C32. No command ever runs on a machine before it proved to be the one this
    install made: the SSH session that read the marker file found this
    install's UID in it, and the session commands run on was dialled with that
    session's host key pinned. What runs is Join's commands, which are a
    function of the target with the join token erased: the token only ever
    travels as the input of the command that stores it. *)
Theorem commands_only_on_ours fuel s o w w' r t t1 e t2 :
  Install fuel s o w = (r, w') -> trace w' = trace w ++ t -> t = t1 ++ e :: t2 -> command e = true ->
  exists ta tb sess0 b sess,
    t1 = ta ++ [EDial (JoinHostPort (o_NodeAddress o) "22") (o_SSHUser o) (o_SSHKey o) "" (inr sess0);
                ERead sess0 markerPath (inr b); EClose sess0] ++ tb /\
    trim_space b = trim_space (sp_UID s) /\ trim_space (sp_UID s) <> "" /\
    EDial (JoinHostPort (o_NodeAddress o) "22") (o_SSHUser o) (o_SSHKey o) (trim_space (sess_HostKey sess0)) (inr sess) ∈ tb /\
    join_event sess (sp_Cluster s) (o_NodeAddress o) e.
Proof.
  intros (t' & Ht' & Htr)%Install_run Ht Heq He. rewrite Ht in Ht'. apply app_inv_head in Ht' as <-.
  assert (exists serial url token r1 tb tc, built_trace (with_phase res0 PhasePreparing) url (set_boot_mode s (o_BootMode o)) o r1 tb /\
    Forall (fun e => command e = false) tc /\ t = install_head s o serial url token ++ tb ++ tc) as (serial & url & token & r1 & tb & tc & Hb & Htc & Ht0).
  { destruct Htr as [p err tq Hq|serial url token tb Hadm Hb|serial url token out1 out tb tc Hadm Hb Hc].
    - exfalso. revert Heq. apply (no_quiet (fun e => command e = false)); [done| |done]. constructor; [done|].
      apply Forall_app. split; [by eapply not_command; [apply early_quiet|]|by repeat constructor].
    - exists serial, url, token, None, tb, []. rewrite app_nil_r. by split_and!.
    - exists serial, url, token, (Some out1), tb, tc. split_and!; try done. eapply not_command; [apply cleanup_quiet|by eapply cleanup_events]. }
  rewrite Ht0 in Heq. apply (split_quiet (fun e => command e = false)) in Heq as (t1' & -> & Heq); [|done|by repeat constructor|done].
  destruct (built_pinned _ _ _ _ _ _ _ _ _ _ Hb Htc Heq He) as (hk & ta & tb' & -> & (t0 & sess0 & b & -> & Hb1 & Hb2 & ->) & sess & Hd & Hj).
  exists (install_head s o serial url token ++ t0), tb', sess0, b, sess. split; [by rewrite <- !app_assoc|]. done.
Qed.

(** ** How it ended *)

Definition install_order : list Phase :=
  [PhasePending; PhasePreparing; PhaseMediaAttached; PhaseInstalling; PhaseInstalled; PhaseJoining; PhaseReady].
Definition ended (out : Outcome) : Prop :=
  (out.2 = None /\ r_Phase out.1 = PhaseReady /\ r_FailedPhase out.1 = "") \/
  (is_Some out.2 /\ r_Phase out.1 = PhaseFailed /\ r_FailedPhase out.1 <> "").

Lemma reports_cons e t : reports (e :: t) = (match e with EReport p => [p] | _ => [] end) ++ reports t.
Proof. by destruct e. Qed.
Lemma reports_none (P : Ev Session -> Prop) l : (forall e, P e -> match e with EReport _ => False | _ => True end) -> Forall P l -> reports l = [].
Proof. intros H. induction 1 as [|e l He Hl IH]; [done|]. apply H in He. by destruct e. Qed.
Lemma reports_attach url mode e t : attach_trace url mode e t -> reports t = [].
Proof. intros H. eapply (reports_none bmc_event); [by intros []|by eapply attach_events]. Qed.
Lemma reports_wait a u k t : Forall (wait_event a u k) t -> reports t = [].
Proof. apply reports_none. by intros []. Qed.
Lemma reports_join ss c a t : Forall (join_event ss c a) t -> reports t = [].
Proof. apply reports_none. by intros []. Qed.
Lemma reports_node t : Forall node_event t -> reports t = [].
Proof. apply reports_none. by intros []. Qed.

(** The phases in order up to some point, then Failed if that is the outcome. *)
Definition ran (l order : list Phase) (out : Outcome) : Prop :=
  exists k, l = take k order ++ (if bool_decide (r_Phase out.1 = PhaseFailed) then [PhaseFailed] else []) /\
    (r_Phase out.1 = PhaseReady -> take k order = order).
Lemma ran_cons l p order out : ran l order out -> ran (p :: l) (p :: order) out.
Proof. intros (k & -> & Hk). exists (S k). split; [done|]. intros H. simpl. by rewrite Hk. Qed.
Lemma ran_failed order res p e : ran [PhaseFailed] order (failed_in res p, e).
Proof. by exists 0%nat. Qed.
Lemma ended_failed res p e : p <> "" -> ended (failed_in res p, Some e).
Proof. intros. right. by split_and!. Qed.

Lemma ready_ended res out t : r_FailedPhase res = "" -> ready_trace res (Some out) t -> ended out /\ ran (reports t) [PhaseReady] out.
Proof.
  intros Hf Ht. inversion Ht as [tn k n Hn Hr|tn e Hn Hr|]; subst; rewrite reports_app, (reports_node _ Hn); simpl.
  - split; [left; by split_and!|]. by exists 1%nat.
  - split; [by apply ended_failed|apply ran_failed].
Qed.
Lemma join_ended res s o out t : r_FailedPhase res = "" -> join_trace res s o (Some out) t ->
  ended out /\ ran (reports t) [PhaseJoining; PhaseReady] out.
Proof.
  intros Hf Hj. inversion Hj as [e0 e' Hr|sess tj e' Htj Hr|sess tj k r' tr Htj Htr Hr]; subst;
    rewrite !reports_cons, ?reports_app, ?(reports_join _ _ _ _ Htj), ?reports_cons; simpl.
  1-2: split; [by apply ended_failed|apply ran_cons, ran_failed].
  apply ready_ended in Htr as [He Hr]; [|done]. split; [done|]. by apply ran_cons.
Qed.
Lemma built_ended res url s o out t : r_FailedPhase res = "" -> built_trace res url s o (Some out) t ->
  ended out /\ ran (reports t) (drop 2 install_order) out.
Proof.
  intros Hf Hb. inversion Hb as [e0 e' Hr|ta e' Ha Hr|ta tw Ha Htw Hr|ta tw e' Ha Htw Hr|ta tw hk r' tj Ha Htw Hp Hj Hr]; subst;
    rewrite !reports_cons, ?reports_app, ?(reports_attach _ _ _ _ Ha), ?reports_cons, ?reports_app, ?(reports_wait _ _ _ _ Htw), ?reports_cons; simpl.
  1-3: split; [by apply ended_failed|repeat (apply ran_cons || apply ran_failed)].
  apply join_ended in Hj as [He Hr]; [|done]. split; [done|]. by do 3 apply ran_cons.
Qed.

(** A finished install says how it ended, and says it once: either no error,
    phase Ready and no failed phase, or an error, phase Failed and the phase it
    failed in. The phases it reported are an initial part of the fixed order,
    the whole of it when it ended Ready, followed only by Failed reports, at
    most two, and the last report is the phase of the result. *)
Theorem install_outcome fuel s o w w' out t :
  Install fuel s o w = (Some out, w') -> trace w' = trace w ++ t ->
  ended out /\ last (reports t) = Some (r_Phase out.1) /\
  exists k n, reports t = take k install_order ++ repeat PhaseFailed n /\ (n <= 2)%nat /\
    (r_Phase out.1 = PhaseReady -> take k install_order = install_order /\ n = 0%nat).
Proof.
  intros (t' & Ht' & Htr)%Install_run Ht. rewrite Ht in Ht'. apply app_inv_head in Ht' as <-.
  remember (Some out) as r eqn:Er. destruct Htr as [p err tq Hq Hp Hrep|serial url token tb Hadm Hb|serial url token out1 out' tb tc Hadm Hb Hc]; [|done|].
  - injection Er as <-. split; [by apply ended_failed|]. rewrite reports_cons, reports_app, Hrep. case_bool_decide.
    + split; [done|]. exists 1%nat, 1%nat. split_and!; [done|lia|done].
    + split; [done|]. exists 2%nat, 1%nat. split_and!; [done|lia|done].
  - injection Er as <-. apply built_ended in Hb as [He (k & Hk & Hready)]; [|done].
    rewrite !reports_cons, reports_app, Hk. cbn [app]. destruct Hc as (e1 & e2 & e3 & -> & Hout).
    assert (reports (EEject e1 :: EClear e2 :: match e1 with None => [ERemove token e3] | Some _ => [] end ++
      (if any_failed e1 e2 e3 then [EReport PhaseFailed] else [])) = if any_failed e1 e2 e3 then [PhaseFailed] else []) as ->
      by (destruct e1, e2, e3; done).
    destruct (any_failed e1 e2 e3); [destruct Hout as (Hph & Herr & Hfp & _)|subst out'].
    + assert (r_FailedPhase out'.1 <> "") as Hfp' by (rewrite Hfp; case_bool_decide; [destruct He as [(_ & -> & _)|(_ & -> & _)]|]; done).
      split; [right; by split_and!|]. split; [by rewrite !last_cons, last_app, Hph|]. rewrite Hph.
      exists (S (S k)). destruct (decide (r_Phase out1.1 = PhaseFailed)).
      * exists 2%nat. rewrite bool_decide_true by done. split_and!; [by rewrite <- app_assoc|lia|done].
      * exists 1%nat. rewrite bool_decide_false by done. split_and!; [by rewrite <- app_assoc|lia|done].
    + rewrite app_nil_r. split; [done|]. split.
      * destruct He as [(_ & Hph & _)|(_ & Hph & _)]; rewrite Hph.
        -- rewrite (Hready Hph). done.
        -- by rewrite !last_cons, last_app.
      * exists (S (S k)). destruct (decide (r_Phase out1.1 = PhaseFailed)) as [Hph|Hph].
        -- exists 1%nat. rewrite bool_decide_true by done. split_and!; [done|lia|]. by rewrite Hph.
        -- exists 0%nat. rewrite bool_decide_false by done. split_and!; [done|lia|]. intros Hr. split; [|done].
           change (PhasePending :: PhasePreparing :: take k (drop 2 install_order) = install_order). by rewrite (Hready Hr).
Qed.
End Traces.
