(* ===== verification/InstallRuns.v ===== *)
(** Install returns: with each phase's context done after so many polls, more
    fuel than that is enough. Values on a command line reach the remote shell
    as one word each. And the concrete installs the theorems are applied to. *)
From stdpp Require Import base tactics strings list gmap.
From Stdlib Require Import ZArith Lia Ascii.
From S2P Require Import Prelude GoLib GoNet Provision Install InstallSafety.

Open Scope Z_scope.

(** ** Install returns *)

Definition selects {S} (p : Phase) (t : list (Ev S)) : nat :=
  length (List.filter (fun e => match e with ESelect q _ => bool_decide (q = p) | _ => false end) t).
Lemma selects_snoc {S} p (t : list (Ev S)) d : selects p (t ++ [ESelect p d]) = (selects p t + 1)%nat.
Proof. unfold selects. rewrite List.filter_app, length_app. simpl. by rewrite bool_decide_true. Qed.
Lemma selects_le {S} p (t t' : list (Ev S)) : (selects p t <= selects p (t ++ t'))%nat.
Proof. unfold selects. rewrite List.filter_app, length_app. lia. Qed.

(** A phase's context carries a deadline: after [budget p] poll intervals it is
    done, and stays done. *)
Class Deadlines (W : Type) `{TR : Traced W} := {
  budget : Phase -> nat;
  ctx_expires p w : (budget p <= selects p (trace w))%nat -> (ctx_err p w).1 <> None;
  select_expires p w : (budget p <= selects p (trace w))%nat -> (select_done p w).1 = true
}.

Section Returns.
Context {W : Type} {MM : Machine W} {TR : Traced W} {DL : Deadlines W} {PL : ProvisionLibs}.

Definition returns {A} (m : St W (option A)) (w : W) : Prop := wp m w (fun r _ => r <> None).

Lemma returns_bind {A B} (m : St W A) (k : A -> St W (option B)) w : (forall a w', returns (k a) w') -> returns (m ≫= k) w.
Proof. intros H. apply wp_bind, wp_intro, H. Qed.
Lemma returns_some {A} (a : A) w : returns (mret (Some a)) w.
Proof. by apply wp_ret. Qed.
Hint Resolve returns_some : core.

(** Polls left in phase p. *)
Definition left (p : Phase) (w : W) : nat := (budget p - selects p (trace w))%nat.
(** A step that only adds to the trace keeps the polls left. *)
Lemma left_call {A} (m : St W A) ev p w : trace (m w).2 = trace w ++ ev -> (left p (m w).2 <= left p w)%nat.
Proof. intros H. unfold left. rewrite H. pose proof (selects_le p (trace w) ev). lia. Qed.
Lemma left_select p w : (0 < left p w)%nat -> (left p (select_done p w).2 < left p w)%nat.
Proof. unfold left. rewrite t_select, selects_snoc. lia. Qed.
Lemma left_ctx p w : (ctx_err p w).1 = None -> (0 < left p w)%nat.
Proof. intros H. unfold left. destruct (decide (budget p <= selects p (trace w))%nat) as [Hle|]; [|lia]. by apply ctx_expires in Hle. Qed.
Lemma left_not_done p w : (select_done p w).1 = false -> (0 < left p w)%nat.
Proof.
  intros H. unfold left. destruct (decide (budget p <= selects p (trace w))%nat) as [Hle|]; [|lia]. apply select_expires in Hle. congruence.
Qed.

Lemma wait_returns fuel addr user key uid last w : (left PhaseInstalling w < fuel)%nat -> returns (wait_loop fuel addr user key uid last) w.
Proof.
  revert last w. induction fuel as [|fuel IH]; intros last w Hf; [lia|]. cbn [wait_loop]. apply wp_bind, wp_intro.
  destruct (ctx_err PhaseInstalling w).1 as [ce|] eqn:Ec; [by apply wp_ret|]. apply left_ctx in Ec.
  set (w1 := (ctx_err PhaseInstalling w).2). assert (left PhaseInstalling w1 = left PhaseInstalling w) as Hw1 by (unfold left, w1; by rewrite t_ctx).
  clearbody w1. apply wp_bind, wp_intro. pose proof (left_call (ssh_Dial addr user key "") _ PhaseInstalling w1 (t_Dial _ _ _ _ _)) as Hd.
  destruct (ssh_Dial addr user key "" w1) as [[e|sess] w2]; cbn [fst snd] in *.
  - apply wp_bind, wp_intro, IH. destruct (decide (0 < left PhaseInstalling w2)%nat) as [Hp|Hp]; [apply left_select in Hp; lia|].
    pose proof (left_call (select_done PhaseInstalling) _ PhaseInstalling w2 (t_select _ _)). lia.
  - apply wp_bind, wp_intro. pose proof (left_call (sess_ReadFile sess markerPath) _ PhaseInstalling w2 (t_Read _ _ _)) as Hr.
    destruct (sess_ReadFile sess markerPath w2) as [b w3]; cbn [fst snd] in *. apply wp_bind, wp_intro.
    pose proof (left_call (sess_Close sess) _ PhaseInstalling w3 (t_Close _ _)) as Hc. set (w4 := (sess_Close sess w3).2) in *. clearbody w4.
    assert (forall l, returns (_ ← select_done PhaseInstalling; wait_loop fuel addr user key uid l) w4) as Hgo.
    { intros l. apply wp_bind, wp_intro, IH. destruct (decide (0 < left PhaseInstalling w4)%nat) as [Hp|Hp]; [apply left_select in Hp; lia|].
      pose proof (left_call (select_done PhaseInstalling) _ PhaseInstalling w4 (t_select _ _)). lia. }
    destruct b as [e|b]; [apply Hgo|]. case_bool_decide; [apply Hgo|]. by apply wp_ret.
Qed.

Lemma ready_returns fuel res k n last w : (left PhaseReady w < fuel)%nat -> returns (ready_loop fuel res k n last) w.
Proof.
  revert last w. induction fuel as [|fuel IH]; intros last w Hf; [lia|]. cbn [ready_loop]. apply wp_bind, wp_intro.
  pose proof (left_call (nodes_NodeReady k n) _ PhaseReady w (t_Node _ _ _)) as Hn. destruct (nodes_NodeReady k n w) as [r w1]; cbn [fst snd] in *.
  assert (forall l, returns (done ← select_done PhaseReady; if (done : bool) then msg ← phaseErr PhaseReady (match l with
      | Some e => "node " +:+ n +:+ " never became Ready: " +:+ e | None => "node " +:+ n +:+ " never became Ready" end);
      out ← fail res PhaseReady msg; mret (Some out) else ready_loop fuel res k n l) w1) as Hgo.
  { intros l. apply wp_bind, wp_intro. destruct (select_done PhaseReady w1).1 eqn:Ed; [do 2 (apply returns_bind; intros); auto|].
    apply IH. apply left_not_done, left_select in Ed. lia. }
  destruct r as [e|[]]; [apply (Hgo (Some e))| |apply (Hgo last)]. apply returns_bind. auto.
Qed.

(** C37. Install always returns: its only loops are the wait for the installed
    system and the wait for the node, each is cut by its own phase's deadline,
    and so many polls as the longer of the two allows are enough. *)
Theorem install_returns fuel s o w :
  (budget PhaseInstalling < fuel)%nat -> (budget PhaseReady < fuel)%nat -> exists out, (Install fuel s o w).1 = Some out.
Proof.
  intros Hi Hr. assert (returns (Install fuel s o) w) as H.
  2: { unfold returns in H. pose proof (wp_run _ _ _ _ _ H (surjective_pairing _)) as Hne. cbv beta in Hne.
       destruct (Install fuel s o w).1 as [out|]; [by exists out|done]. }
  unfold Install. cbv zeta. apply returns_bind. intros res w1.
  destruct (validateOptions o); [apply returns_bind; auto|]. destruct (validatePendingSpec _ _); [apply returns_bind; auto|].
  apply returns_bind. intros [e|serial] w2; [do 2 (apply returns_bind; intros); auto|].
  destruct (checkConfirmedSerial _ _); [apply returns_bind; auto|]. apply returns_bind. intros res' w3. apply returns_bind.
  intros [e|[url token]] w4; [do 2 (apply returns_bind; intros); auto|]. apply returns_bind. intros _ w5. apply wp_bind.
  apply (wp_mono _ _ (fun r _ => r <> None)); [|intros [out|] w6 Hne; [apply returns_bind; auto|done]].
  unfold install_built. apply returns_bind. intros [e|] w6; [do 2 (apply returns_bind; intros); auto|].
  apply returns_bind. intros res1 w7. apply returns_bind. intros [e|] w8; [apply returns_bind; auto|]. apply returns_bind. intros res2 w9.
  apply wp_bind. apply (wp_mono _ _ (fun r _ => r <> None)).
  { unfold WaitForOurSystem. cbv zeta. case_bool_decide; [by apply wp_ret|]. apply wait_returns. unfold left. lia. }
  intros [[e|hk]|] w10 Hne; [apply returns_bind; auto| |done]. apply returns_bind. intros res3 w11.
  unfold join_and_wait. apply returns_bind. intros res4 w12. apply returns_bind. intros [e|sess] w13; [do 2 (apply returns_bind; intros); auto|].
  apply returns_bind. intros [e|k] w14; apply returns_bind; intros _ w15; [do 2 (apply returns_bind; intros); auto|].
  apply ready_returns. unfold left. lia.
Qed.
End Returns.

(** ** Quoting *)

(** The word a POSIX shell reads at the front of its input when every character
    of it is quoted: literal between single quotes, and the character after a
    backslash outside them. [fuel] bounds the characters read. *)
Fixpoint sh_word (fuel : nat) (inq : bool) (l : bytes) : option (bytes * bytes) :=
  match fuel with
  | O => None
  | S fuel =>
    match inq, l with
    | true, [] => None
    | true, c :: l' => if Ascii.eqb c squote then sh_word fuel false l' else '(w, r) ← sh_word fuel true l'; Some (c :: w, r)
    | false, c :: l' =>
      if Ascii.eqb c squote then sh_word fuel true l'
      else if Ascii.eqb c backslash then match l' with d :: l'' => '(w, r) ← sh_word fuel false l''; Some (d :: w, r) | [] => None end
      else Some ([], l)
    | false, [] => Some ([], [])
    end
  end.

Definition quoted_end (rest : bytes) : bool :=
  match rest with [] => true | c :: _ => negb (Ascii.eqb c squote) && negb (Ascii.eqb c backslash) end.

Lemma sh_word_quoted l rest fuel : quoted_end rest = true -> (4 * length l + 2 <= fuel)%nat ->
  sh_word fuel true (flat_map quote_byte l ++ squote :: rest) = Some (l, rest).
Proof.
  intros Hrest. revert fuel. induction l as [|c l IH]; intros fuel Hf.
  - destruct fuel as [|[|fuel]]; [simpl in Hf; lia..|]. cbn [flat_map app sh_word]. rewrite Ascii.eqb_refl.
    destruct rest as [|c rest]; [done|]. simpl in Hrest. apply andb_true_iff in Hrest as [H1%negb_true_iff H2%negb_true_iff]. by rewrite H1, H2.
  - cbn [length] in Hf. cbn [flat_map]. unfold quote_byte at 1. destruct (Ascii.eqb c squote) eqn:E.
    + apply Ascii.eqb_eq in E as ->. do 3 (destruct fuel as [|fuel]; [lia|]). cbn [app sh_word]. rewrite !Ascii.eqb_refl.
      change (Ascii.eqb backslash squote) with false. cbn iota. rewrite IH by lia. done.
    + destruct fuel as [|fuel]; [lia|]. cbn [app sh_word]. rewrite E, IH by lia. done.
Qed.

(** Whatever a value holds, quotes, backslashes, newlines, shellQuote of
    it is read by a POSIX shell as exactly one word, the value, and what
    follows on the command line is left as it is. *)
Theorem shellQuote_one_word s rest :
  quoted_end rest = true ->
  sh_word (4 * length (to_bytes s) + 3) false (to_bytes (shellQuote s) ++ rest) = Some (to_bytes s, rest).
Proof.
  intros Hrest. unfold shellQuote. rewrite to_of_bytes. replace (4 * length (to_bytes s) + 3)%nat with (S (4 * length (to_bytes s) + 2)) by lia.
  cbn [app sh_word]. rewrite Ascii.eqb_refl. rewrite <- app_assoc. by apply sh_word_quoted.
Qed.
Lemma shellQuote_one_word_witness :
  let s := of_bytes [squote; byte 59; backslash; byte 32] in
  sh_word 19 false (to_bytes (shellQuote s) ++ to_bytes " sh x") = Some (to_bytes s, to_bytes " sh x").
Proof. exact (shellQuote_one_word (of_bytes [squote; byte 59; backslash; byte 32]) (to_bytes " sh x") eq_refl). Defined.

(** ** Concrete installs *)

(** A machine that reports [iw_serial], boots into a system whose marker file
    holds [iw_marker], joins when asked and is Ready at once; [iw_eject] is what
    ejecting its media says. Contexts are done after three polls. *)
Record IWorld := mkIWorld {
  iw_trace : list (Ev nat);
  iw_serial : string;
  iw_marker : string;
  iw_eject : option string
}.
Definition log (e : Ev nat) (w : IWorld) : IWorld := mkIWorld (iw_trace w ++ [e]) (iw_serial w) (iw_marker w) (iw_eject w).
Definition expired (p : Phase) (w : IWorld) : bool := (3 <=? selects p (iw_trace w))%nat.

#[export] Instance demo_libs : ProvisionLibs := {|
  url_parse s := inr (mkURL "https" "192.0.2.1:6443" "192.0.2.1" false "" "" "" s);
  parse_authorized_key s := if bool_decide (s = "") then inl "no key" else inr ("", []);
  yaml_unmarshal s := inr [("clusters", YList [YMap [("cluster", YMap [("server", YScalar "https://127.0.0.1:6443")])]])];
  yaml_marshal doc := inr "kubeconfig"
|}.
#[export] Instance demo_install : Machine IWorld := {|
  Session := nat;
  bmc_Serial w := (inr (iw_serial w), log (ESerial (inr (iw_serial w))) w);
  bmc_InsertMedia u w := (None, log (EInsert u None) w);
  bmc_MediaInserted w := (inr true, log (EInserted (inr true)) w);
  bmc_EjectMedia w := (iw_eject w, log (EEject (iw_eject w)) w);
  bmc_SetBootOnce a b w := (None, log (EBootOnce a b None) w);
  bmc_ClearBootOverride w := (None, log (EClear None) w);
  bmc_Reset k w := (None, log (EReset k None) w);
  images_Build s w := (inr ("http://192.0.2.9/i.iso", "tok"), log (EBuild s (inr ("http://192.0.2.9/i.iso", "tok"))) w);
  images_Remove t w := (None, log (ERemove t None) w);
  ssh_Dial a u k x w := (inr 0%nat, log (EDial a u k x (inr 0%nat)) w);
  sess_HostKey _ := "ssh-ed25519 AAAA";
  sess_Run s c w := (inr "", log (ERun s c) w);
  sess_Output s c w := (inr "yaml", log (EOutput s c) w);
  sess_RunWithInput s c i w := (inr "", log (EInput s c i) w);
  sess_ReadFile s p w := (inr (iw_marker w), log (ERead s p (inr (iw_marker w))) w);
  sess_Close s w := (tt, log (EClose s) w);
  nodes_NodeReady k n w := (inr true, log (ENode k n (inr true)) w);
  d_Report p w := (tt, log (EReport p) w);
  d_ReportToken t w := (tt, log (EToken t) w);
  d_BeforeMediaAttached w := (None, log (EBefore None) w);
  ctx_err p w := (if expired p w then Some DeadlineExceeded else None, w);
  select_done p w := (expired p w, log (ESelect p (expired p w)) w)
|}.
#[export] Instance demo_traced : Traced IWorld.
Proof. by refine {| trace := iw_trace |}. Defined.
#[export] Instance demo_deadlines : Deadlines IWorld.
Proof.
  refine {| budget := fun _ => 3%nat |}.
  - intros p w H. apply Nat.leb_le in H. change (expired p w = true) in H. cbn [ctx_err demo_install fst]. by rewrite H.
  - intros p w H. apply Nat.leb_le in H. exact H.
Defined.

Definition demo_network : Network := mkNetwork "192.0.2.210/24" "192.0.2.1" ["192.0.2.1"].
Definition demo_ispec (mode token : string) : Spec :=
  mkSpec "uid-1" "node1" demo_network (mkLayout LayoutSingleDisk [mkDisk "/dev/disk/by-id/wwn-0x5" 480103981056]) "ssh-ed25519 AAAA"
    (mkClusterTarget mode "https://192.0.2.1:6443" token "v1.33.4+k3s1") "".
Definition demo_options (serial : string) : Options :=
  mkOptions bootUEFI "frame" "key" "192.0.2.210" serial (list_to_map (map (fun p => (p, 60)) requiredPhaseTimeouts)) 5.
Definition demo_machine_world (serial marker : string) (eject : option string) : IWorld := mkIWorld [] serial marker eject.
(** The run the witnesses use: the right machine, joining a cluster. *)
Definition demo_run (eject : option string) : option Outcome * IWorld :=
  Install 4 (demo_ispec ClusterJoin "K10abc::server:x") (demo_options "CZ1234") (demo_machine_world "CZ1234" "uid-1" eject).

Definition summary (r : option Outcome * IWorld) : option (Phase * Phase) * list Phase :=
  (fmap (fun out : Outcome => (r_Phase out.1, r_FailedPhase out.1)) r.1, reports (iw_trace r.2)).

Example demo_install_ready : summary (demo_run None) = (Some (PhaseReady, ""), install_order).
Proof. vm_compute. reflexivity. Qed.
Example demo_install_stuck_media :
  summary (demo_run (Some "BMC timeout")) = (Some (PhaseFailed, PhaseReady), install_order ++ [PhaseFailed]).
Proof. vm_compute. reflexivity. Qed.
Example demo_install_wrong_machine :
  summary (Install 4 (demo_ispec ClusterInit "") (demo_options "CZ1234") (demo_machine_world "CZ9999" "uid-1" None)) =
  (Some (PhaseFailed, PhasePending), [PhasePending; PhaseFailed]).
Proof. vm_compute. reflexivity. Qed.
Example demo_install_other_system :
  summary (Install 5 (demo_ispec ClusterInit "") (demo_options "CZ1234") (demo_machine_world "CZ1234" "uid-0" None)) =
  (Some (PhaseFailed, PhaseInstalling), [PhasePending; PhasePreparing; PhaseMediaAttached; PhaseInstalling; PhaseFailed]).
Proof. vm_compute. reflexivity. Qed.

Lemma install_returns_witness : exists out, (demo_run None).1 = Some out.
Proof. apply install_returns; cbn; lia. Defined.

(** The demo trace cut before its [n]th event. *)
Definition demo_cut (n : nat) : list (Ev nat) := take n (iw_trace (demo_run None).2).
Lemma demo_cut_at n e : nth_error (iw_trace (demo_run None).2) n = Some e ->
  iw_trace (demo_run None).2 = demo_cut n ++ e :: drop (S n) (iw_trace (demo_run None).2).
Proof. intros H. unfold demo_cut. apply nth_error_split in H as (l1 & l2 & E & <-). rewrite E.
  rewrite take_app_length. f_equal. f_equal. rewrite drop_app_ge by lia. by replace (S (length l1) - length l1)%nat with 1%nat by lia.
Qed.

Lemma machine_written_only_confirmed_witness :
  admitted (demo_ispec ClusterJoin "K10abc::server:x") (demo_options "CZ1234") "CZ1234" /\ ESerial (inr "CZ1234") ∈ demo_cut 10.
Proof.
  destruct (machine_written_only_confirmed (MM:=demo_install) 4 (demo_ispec ClusterJoin "K10abc::server:x") (demo_options "CZ1234")
    (demo_machine_world "CZ1234" "uid-1" None) (demo_run None).2 (demo_run None).1 (iw_trace (demo_run None).2) (demo_cut 10)
    (EReset "ForceRestart" None) (drop 11 (iw_trace (demo_run None).2))) as (H1 & H2 & _).
  - apply surjective_pairing.
  - reflexivity.
  - apply demo_cut_at. vm_compute. reflexivity.
  - reflexivity.
  - exact (conj H1 H2).
Defined.

Lemma every_exit_cleans_up_witness :
  exists out, (demo_run (Some "BMC timeout")).1 = Some out /\ r_Phase out.1 = PhaseFailed.
Proof.
  destruct ((demo_run (Some "BMC timeout")).1) as [out|] eqn:E; [|vm_compute in E; discriminate E]. exists out. split; [reflexivity|].
  destruct (every_exit_cleans_up (MM:=demo_install) 4 (demo_ispec ClusterJoin "K10abc::server:x") (demo_options "CZ1234")
    (demo_machine_world "CZ1234" "uid-1" (Some "BMC timeout")) (demo_run (Some "BMC timeout")).2 out
    (iw_trace (demo_run (Some "BMC timeout")).2) "http://192.0.2.9/i.iso" "tok") as (t0 & e1 & e2 & e3 & Ht & Hf).
  - rewrite <- E. apply surjective_pairing.
  - reflexivity.
  - apply list_elem_of_In. vm_compute. tauto.
  - assert (r_Phase <$> (fst <$> (demo_run (Some "BMC timeout")).1) = Some PhaseFailed) as Hp by (vm_compute; reflexivity).
    rewrite E in Hp. injection Hp as Hp. exact Hp.
Defined.

Lemma commands_only_on_ours_witness :
  exists ta tb sess0 b sess,
    demo_cut 19 = ta ++ [EDial "192.0.2.210:22" "frame" "key" "" (inr sess0); ERead sess0 markerPath (inr b); EClose sess0] ++ tb /\
    trim_space b = "uid-1" /\ EDial "192.0.2.210:22" "frame" "key" "ssh-ed25519 AAAA" (inr sess) ∈ tb.
Proof.
  destruct (commands_only_on_ours (MM:=demo_install) 4 (demo_ispec ClusterJoin "K10abc::server:x") (demo_options "CZ1234")
    (demo_machine_world "CZ1234" "uid-1" None) (demo_run None).2 (demo_run None).1 (iw_trace (demo_run None).2) (demo_cut 19)
    (ERun 0%nat "curl -sfL -o frame-k3s-install.sh https://get.k3s.io") (drop 20 (iw_trace (demo_run None).2)))
    as (ta & tb & sess0 & b & sess & H1 & H2 & H3 & H4 & _).
  - apply surjective_pairing.
  - reflexivity.
  - apply demo_cut_at. vm_compute. reflexivity.
  - reflexivity.
  - exists ta, tb, sess0, b, sess. split; [exact H1|]. split; [exact H2|exact H4].
Defined.

Lemma install_outcome_witness : exists out, (demo_run None).1 = Some out /\ ended out /\ last (reports (iw_trace (demo_run None).2)) = Some (r_Phase out.1).
Proof.
  destruct ((demo_run None).1) as [out|] eqn:E; [|vm_compute in E; discriminate E]. exists out. split; [reflexivity|].
  destruct (install_outcome (MM:=demo_install) 4 (demo_ispec ClusterJoin "K10abc::server:x") (demo_options "CZ1234")
    (demo_machine_world "CZ1234" "uid-1" None) (demo_run None).2 out (iw_trace (demo_run None).2)) as (H1 & H2 & _).
  - rewrite <- E. apply surjective_pairing.
  - reflexivity.
  - exact (conj H1 H2).
Defined.
