(* ===== verification/BeaconStore.v ===== *)
(** internal/provision/beacon.go and beaconstore.go: the progress beacons a
    running installer sends, the shell commands that send them, and
    provisiond's bounded record of what arrived.

    The mutex makes each operation atomic, so a run of the store is a list of
    operations. Reading order[0] of an empty slice panics in Go; here [Record_beacon]
    answers [None] then, and no reachable store does it. *)
From stdpp Require Import base tactics strings list gmap.
From Stdlib Require Import ZArith Lia Ascii.
From S2P Require Import Prelude GoLib GoTime GoNet Provision Install InstallRuns.

Open Scope Z_scope.

(** ** beacon.go *)

Definition CheckpointEarly : string := "early".
Definition CheckpointLate : string := "late".
Definition CheckpointFailed : string := "failed".

Definition lower_hex (c : ascii) : bool := in_range 97 102 c || digit c.
Definition beaconToken (s : string) : bool := (length (to_bytes s) =? 32)%nat && forallb lower_hex (to_bytes s).

Definition ValidCheckpoint (s : string) : bool :=
  bool_decide (s = CheckpointEarly) || bool_decide (s = CheckpointLate) || bool_decide (s = CheckpointFailed).

(** A Go map read gives zero for a missing key. *)
Definition checkpointRank (s : string) : Z :=
  if bool_decide (s = CheckpointEarly) then 0 else if bool_decide (s = CheckpointLate) then 1
  else if bool_decide (s = CheckpointFailed) then 2 else 0.

Definition ValidateBeaconBase (base : string) : option string :=
  if bool_decide (trim_space base = "") then None else checkShellValue "beacon base URL" base.

Definition trim_suffix (s suf : string) : string :=
  match strip_prefix (rev (to_bytes suf)) (rev (to_bytes s)) with Some l => of_bytes (rev l) | None => s end.

Definition BeaconURL (base token checkpoint : string) : string :=
  trim_suffix base "/" +:+ "/beacon/" +:+ token +:+ "/" +:+ checkpoint.

Definition BeaconSend (base token checkpoint : string) : string :=
  if bool_decide (trim_space base = "") then ""
  else "wget -q -T 5 -O /dev/null '" +:+ BeaconURL base token checkpoint +:+ "' || true".

Definition BeaconHeartbeat (base token checkpoint : string) : string :=
  if bool_decide (trim_space base = "") then ""
  else "(while true; do " +:+ BeaconSend base token checkpoint +:+ "; sleep 15; done) </dev/null >/dev/null 2>&1 &".

(** ** beaconstore.go *)

Definition defaultBeaconCapacity : Z := 64.

Record BeaconState := mkBeaconState {
  LastCheckpoint : string;
  LastSeen : time;
  FailedAt : time;
  bs_Count : Z
}.
Definition zero_beacon : BeaconState := mkBeaconState "" zero_time zero_time 0.

Record BeaconStore := mkBeaconStore {
  capacity : Z;
  entries : gmap string BeaconState;
  order : list string
}.

Definition NewBeaconStore (c : Z) : BeaconStore :=
  mkBeaconStore (if c <=? 0 then defaultBeaconCapacity else c) ∅ [].

(** The insertion of a token not yet in the store: the oldest makes room. *)
Definition make_room (s : BeaconStore) (token : string) : option BeaconStore :=
  if capacity s <=? Z.of_nat (length (order s)) then
    match order s with
    | [] => None
    | oldest :: rest => Some (mkBeaconStore (capacity s) (delete oldest (entries s)) (rest ++ [token]))
    end
  else Some (mkBeaconStore (capacity s) (entries s) (order s ++ [token])).

Definition next_state (prev : option BeaconState) (checkpoint : string) (now : time) : BeaconState :=
  let p := default zero_beacon prev in
  mkBeaconState
    (if bool_decide (is_Some prev) && (checkpointRank checkpoint <? checkpointRank (LastCheckpoint p))
     then LastCheckpoint p else checkpoint)
    now
    (if bool_decide (checkpoint = CheckpointFailed) && is_zero (FailedAt p) then now else FailedAt p)
    (wrap64 (bs_Count p + 1)).

Definition Record_beacon (token checkpoint : string) (now : time) (s : BeaconStore) : option (bool * BeaconStore) :=
  if negb (beaconToken token) || negb (ValidCheckpoint checkpoint) then Some (false, s)
  else
    let prev := entries s !! token in
    s' ← (if bool_decide (is_Some prev) then Some s else make_room s token);
    Some (true, mkBeaconStore (capacity s') (<[token := next_state prev checkpoint now]> (entries s')) (order s')).

Definition Get (token : string) (s : BeaconStore) : option BeaconState := entries s !! token.

Fixpoint remove_first (t : string) (l : list string) : list string :=
  match l with [] => [] | k :: l => if bool_decide (k = t) then l else k :: remove_first t l end.

Definition Forget (token : string) (s : BeaconStore) : BeaconStore :=
  if bool_decide (entries s !! token = None) then s
  else mkBeaconStore (capacity s) (delete token (entries s)) (remove_first token (order s)).

(** ** Runs of the store *)

Inductive Op := ORecord (token checkpoint : string) (now : time) | OForget (token : string).

Definition step_store (s : BeaconStore) (o : Op) : option BeaconStore :=
  match o with
  | ORecord t c now => snd <$> Record_beacon t c now s
  | OForget t => Some (Forget t s)
  end.

Definition run_store (c : Z) (ops : list Op) : option BeaconStore :=
  foldl (fun s o => s ← s; step_store s o) (Some (NewBeaconStore c)) ops.

Lemma run_store_snoc c ops o : run_store c (ops ++ [o]) = s ← run_store c ops; step_store s o.
Proof. unfold run_store. by rewrite foldl_app. Qed.

Definition beacon_ok (st : BeaconState) : Prop := ValidCheckpoint (LastCheckpoint st) = true.

Record store_ok (c : Z) (s : BeaconStore) : Prop := {
  so_capacity : capacity s = (if c <=? 0 then defaultBeaconCapacity else c);
  so_nodup : NoDup (order s);
  so_dom : forall t, t ∈ order s <-> is_Some (entries s !! t);
  so_bound : Z.of_nat (length (order s)) <= capacity s;
  so_tokens : Forall (fun t => beaconToken t = true) (order s);
  so_states : map_Forall (fun _ st => beacon_ok st) (entries s)
}.
Arguments so_capacity {_ _}. Arguments so_nodup {_ _}. Arguments so_dom {_ _}. Arguments so_bound {_ _}.
Arguments so_tokens {_ _}. Arguments so_states {_ _}.

Lemma store_capacity_pos c s : store_ok c s -> 0 < capacity s.
Proof. intros H. rewrite (so_capacity H). destruct (Z.leb_spec c 0); unfold defaultBeaconCapacity; lia. Qed.

Lemma remove_first_filter t l : NoDup l -> remove_first t l = filter (fun k => k <> t) l.
Proof.
  induction 1 as [|k l Hk Hl IH]; [done|]. simpl. rewrite filter_cons. repeat case_bool_decide; try case_decide; simplify_eq; [|by rewrite IH].
  symmetry. clear -Hk. induction l as [|a l IH]; [done|]. rewrite filter_cons. rewrite not_elem_of_cons in Hk.
  destruct Hk. rewrite decide_True by done. f_equal. by apply IH.
Qed.

Lemma next_state_ok prev c now : (forall p, prev = Some p -> beacon_ok p) -> ValidCheckpoint c = true -> beacon_ok (next_state prev c now).
Proof.
  intros Hp Hc. unfold beacon_ok, next_state. simpl. case_bool_decide as Hs; simpl; [|done].
  destruct Hs as [p ->]. simpl. case_match; [by apply Hp|done].
Qed.

Lemma make_room_ok c s t : store_ok c s -> entries s !! t = None -> beaconToken t = true ->
  exists s', make_room s t = Some s' /\ capacity s' = capacity s /\ NoDup (order s') /\
    (forall u, u ∈ order s' <-> u = t \/ is_Some (entries s' !! u)) /\ entries s' !! t = None /\
    Z.of_nat (length (order s')) <= capacity s /\ Forall (fun t => beaconToken t = true) (order s') /\
    entries s' ⊆ entries s.
Proof.
  intros H Ht Htok. pose proof (store_capacity_pos c s H) as Hpos. destruct H as [_ Hnd Hdom Hb Htk _].
  assert (Hnot : t ∉ order s) by (rewrite Hdom; by intros [? ?]; simplify_eq).
  unfold make_room. destruct (Z.leb_spec (capacity s) (Z.of_nat (length (order s)))) as [Hge|Hlt].
  - destruct (order s) as [|o r] eqn:E; [simpl in Hge; lia|]. apply NoDup_cons in Hnd as [Ho Hr].
    apply Forall_cons in Htk as [_ Htk]. rewrite not_elem_of_cons in Hnot. destruct Hnot as [Hne Hnr].
    eexists. split; [done|]. simpl. split; [done|]. split.
    { apply NoDup_app. split; [done|]. split; [|apply NoDup_singleton]. intros x Hx ->%list_elem_of_singleton. done. }
    split. { intros u. rewrite elem_of_app, list_elem_of_singleton. specialize (Hdom u). rewrite elem_of_cons in Hdom.
      destruct (decide (u = o)) as [->|Hu]; [rewrite lookup_delete_eq; split; [naive_solver|intros [->|[? ?]]; [by right|done]]|].
      rewrite lookup_delete_ne by done. naive_solver. }
    rewrite lookup_delete_ne by done. split; [done|]. rewrite length_app. cbn [length] in *. split; [lia|].
    split; [by apply Forall_app; auto using Forall_singleton|]. apply delete_subseteq.
  - eexists. split; [done|]. simpl. split; [done|]. split.
    { apply NoDup_app. split; [done|]. split; [|apply NoDup_singleton]. intros x Hx ->%list_elem_of_singleton. done. }
    split. { intros u. rewrite elem_of_app, list_elem_of_singleton, Hdom. naive_solver. }
    split; [done|]. rewrite length_app. simpl. split; [lia|]. split; [|done]. apply Forall_app. split; [done|]. by apply Forall_singleton.
Qed.

Definition accepts (t cp : string) : bool := beaconToken t && ValidCheckpoint cp.

(** What a beacon does to a well-formed store. *)
Lemma record_ok c s t cp now : store_ok c s -> exists s', Record_beacon t cp now s = Some (accepts t cp, s') /\ store_ok c s' /\
  (accepts t cp = false -> s' = s) /\
  (accepts t cp = true -> entries s' !! t = Some (next_state (entries s !! t) cp now) /\
     forall u st, u <> t -> entries s' !! u = Some st -> entries s !! u = Some st).
Proof.
  intros H. unfold Record_beacon, accepts. destruct (beaconToken t) eqn:Et; simpl; [|naive_solver].
  destruct (ValidCheckpoint cp) eqn:Ec; simpl; [|naive_solver].
  assert (Hst : beacon_ok (next_state (entries s !! t) cp now)) by (apply next_state_ok; [intros p Hp; exact (so_states H t p Hp)|done]).
  case_bool_decide as Hs; simpl.
  - eexists. split; [done|]. split; [|split; [done|intros _; simpl; split; [apply lookup_insert_eq|]]].
    + destruct H as [H1 H2 H3 H4 H5 H6]. constructor; simpl; [done|done| |done|done|by apply map_Forall_insert_2].
      intros u. rewrite H3, lookup_insert. case_decide; naive_solver.
    + intros u st Hu. by rewrite lookup_insert_ne.
  - apply eq_None_not_Some in Hs. destruct (make_room_ok c s t H Hs Et) as (s' & -> & Hcap & Hnd & Hdom & Hnew & Hb & Htk & Hsub). simpl.
    eexists. split; [done|]. split; [|split; [done|intros _; simpl; split; [apply lookup_insert_eq|]]].
    + constructor; simpl; [by rewrite Hcap, (so_capacity H)|done| |lia|done|].
      * intros u. rewrite Hdom, lookup_insert. case_decide; naive_solver.
      * apply map_Forall_insert_2; [done|]. intros u st Hu. exact (so_states H u st (lookup_weaken _ _ _ _ Hu Hsub)).
    + intros u st Hu. rewrite lookup_insert_ne by done. intros E. exact (lookup_weaken _ _ _ _ E Hsub).
Qed.

Lemma forget_ok c s t : store_ok c s -> store_ok c (Forget t s).
Proof.
  intros H. unfold Forget. case_bool_decide as E; [done|]. destruct H as [H1 H2 H3 H4 H5 H6].
  constructor; simpl; rewrite ?(remove_first_filter _ _ H2); [done|by apply NoDup_filter| | | |].
  - intros u. rewrite list_elem_of_filter, H3, lookup_delete. case_decide; naive_solver.
  - pose proof (length_filter (fun k => k <> t) (order s)). lia.
  - rewrite list.Forall_forall in *. intros u [_ Hu]%list_elem_of_filter. by apply H5.
  - by apply map_Forall_delete.
Qed.

Lemma step_store_ok c s o : store_ok c s -> exists s', step_store s o = Some s' /\ store_ok c s'.
Proof.
  intros H. destruct o as [t cp now|t]; simpl; [|eauto using forget_ok].
  destruct (record_ok c s t cp now H) as (s' & -> & H' & _). by exists s'.
Qed.

Lemma run_store_ok c ops : exists s, run_store c ops = Some s /\ store_ok c s.
Proof.
  induction ops as [|o ops (s & E & H)] using rev_ind.
  - eexists. split; [done|]. constructor; simpl; [done|apply NoDup_nil_2| | |by apply Forall_nil|by apply map_Forall_empty].
    + intros t. rewrite lookup_empty. split; [by intros ?%elem_of_nil|by intros []].
    + case_match; unfold defaultBeaconCapacity; lia.
  - rewrite run_store_snoc, E. simpl. by apply step_store_ok.
Qed.

(** C35. The store never panics and stays bounded: after any sequence of
    beacons, valid or not, and removals, its order lists exactly the keys of
    its entries, once each, at most [capacity] of them, every key is a token
    this package could have produced and every stored checkpoint one of the
    three. *)
Theorem beacon_store_bounded c ops : exists s, run_store c ops = Some s /\ store_ok c s.
Proof. apply run_store_ok. Qed.

(** ** What one entry says *)

(** The beacons the store accepted for a token, oldest first. *)
Definition accepted (t : string) (ops : list Op) : list (string * time) :=
  omap (fun o => match o with
    | ORecord t' c now => if bool_decide (t' = t) && accepts t' c then Some (c, now) else None
    | OForget _ => None end) ops.

(** The furthest checkpoint of a list of beacons. *)
Definition furthest (l : list (string * time)) : string :=
  if bool_decide (CheckpointFailed ∈ l.*1) then CheckpointFailed
  else if bool_decide (CheckpointLate ∈ l.*1) then CheckpointLate else CheckpointEarly.

Definition first_failed (l : list (string * time)) : time :=
  default zero_time (snd <$> head (filter (fun b => b.1 = CheckpointFailed) l)).

Definition summary (l : list (string * time)) : BeaconState :=
  mkBeaconState (furthest l) (default zero_time (snd <$> last l)) (first_failed l) (wrap64 (Z.of_nat (length l))).

Lemma wrap64_succ x : wrap64 (wrap64 x + 1) = wrap64 (x + 1).
Proof.
  unfold wrap64, wrap. f_equal.
  replace ((x + 2 ^ (64 - 1)) `mod` 2 ^ 64 - 2 ^ (64 - 1) + 1 + 2 ^ (64 - 1)) with ((x + 2 ^ (64 - 1)) `mod` 2 ^ 64 + 1) by lia.
  rewrite Zplus_mod_idemp_l. f_equal. lia.
Qed.

Lemma mem_snoc (x : string) (l : list (string * time)) c now :
  bool_decide (x ∈ (l ++ [(c, now)]).*1) = bool_decide (x ∈ l.*1) || bool_decide (x = c).
Proof. rewrite <- bool_decide_or. apply bool_decide_ext. rewrite fmap_app, elem_of_app. simpl. by rewrite list_elem_of_singleton. Qed.

Lemma checkpoint_cases c : ValidCheckpoint c = true -> c = CheckpointEarly \/ c = CheckpointLate \/ c = CheckpointFailed.
Proof. unfold ValidCheckpoint. repeat case_bool_decide; simpl; intros; simplify_eq; auto. Qed.

Lemma furthest_snoc l c now : ValidCheckpoint c = true ->
  furthest (l ++ [(c, now)]) = if checkpointRank c <? checkpointRank (furthest l) then furthest l else c.
Proof.
  intros Hc. unfold furthest. rewrite !mem_snoc. destruct (checkpoint_cases c Hc) as [->|[->| ->]];
    destruct (bool_decide (CheckpointFailed ∈ l.*1)), (bool_decide (CheckpointLate ∈ l.*1)); vm_compute; done.
Qed.

Lemma first_failed_snoc l c now : Forall (fun b => is_zero b.2 = false) l ->
  first_failed (l ++ [(c, now)]) = if bool_decide (c = CheckpointFailed) && is_zero (first_failed l) then now else first_failed l.
Proof.
  intros Hz. unfold first_failed. rewrite filter_app, filter_cons, filter_nil. simpl.
  destruct (filter (fun b => b.1 = CheckpointFailed) l) as [|[c' n'] r] eqn:E; simpl.
  - repeat case_bool_decide; try case_decide; simplify_eq; done.
  - assert (Hin : (c', n') ∈ l) by (eapply list_elem_of_filter; rewrite E; left).
    rewrite list.Forall_forall in Hz. specialize (Hz _ Hin). simpl in Hz. rewrite Hz. by rewrite andb_false_r.
Qed.

Lemma first_failed_nonzero l : Forall (fun b => is_zero b.2 = false) l -> CheckpointFailed ∈ l.*1 -> is_zero (first_failed l) = false.
Proof.
  intros Hz Hin. unfold first_failed. destruct (filter (fun b => b.1 = CheckpointFailed) l) as [|b r] eqn:E.
  - apply list_elem_of_fmap in Hin as (b & Eb & Hb). assert (H : b ∈ filter (fun b => b.1 = CheckpointFailed) l)
      by (apply list_elem_of_filter; by split). rewrite E in H. by apply elem_of_nil in H.
  - rewrite list.Forall_forall in Hz. apply (Hz b). eapply list_elem_of_filter. rewrite E. left.
Qed.

Lemma next_summary l c now : l <> [] -> ValidCheckpoint c = true -> Forall (fun b => is_zero b.2 = false) l ->
  next_state (Some (summary l)) c now = summary (l ++ [(c, now)]).
Proof.
  intros Hl Hc Hz. unfold next_state, summary. simpl. rewrite furthest_snoc, first_failed_snoc, last_snoc, wrap64_succ by done.
  rewrite length_app. simpl. f_equal. f_equal. lia.
Qed.
Lemma next_summary_new c now : ValidCheckpoint c = true -> is_zero now = false -> next_state None c now = summary [(c, now)].
Proof. intros Hc Hn. unfold next_state, summary, first_failed. simpl. by destruct (checkpoint_cases c Hc) as [->|[->| ->]]. Qed.

(** No operation carries the zero time, as the process's clock never does. *)
Definition clock_ok (ops : list Op) : Prop :=
  Forall (fun o => match o with ORecord _ _ now => is_zero now = false | OForget _ => True end) ops.

Lemma accepted_snoc t ops o : accepted t (ops ++ [o]) = accepted t ops ++ accepted t [o].
Proof. apply omap_app. Qed.
Lemma accepted_clock t ops : clock_ok ops -> Forall (fun b => is_zero b.2 = false) (accepted t ops).
Proof.
  unfold clock_ok. rewrite !list.Forall_forall. intros H b Hb. apply list_elem_of_omap in Hb as ([t' c now|] & Hin & E); [|done].
  specialize (H _ Hin). simpl in H. case_match; by simplify_eq.
Qed.

(** An entry of the store is the summary of the beacons accepted for its
    token since the entry was made. *)
Definition entry_says (ops : list Op) (t : string) (st : BeaconState) : Prop :=
  exists l, l <> [] /\ l `suffix_of` accepted t ops /\ st = summary l.

Lemma entry_says_mono ops o t st : entry_says ops t st -> accepted t [o] = [] -> entry_says (ops ++ [o]) t st.
Proof. intros (l & ? & ? & ?) E. exists l. rewrite accepted_snoc, E, app_nil_r. done. Qed.

Lemma forget_entries t s u st : entries (Forget t s) !! u = Some st -> entries s !! u = Some st.
Proof. unfold Forget. case_bool_decide; [done|]. simpl. by intros [_ ?]%lookup_delete_Some. Qed.

(** What an accepted beacon adds to the account of its own token. *)
Lemma entry_says_record c s ops t cp now : store_ok c s -> clock_ok (ops ++ [ORecord t cp now]) ->
  accepts t cp = true -> (forall st, entries s !! t = Some st -> entry_says ops t st) ->
  entry_says (ops ++ [ORecord t cp now]) t (next_state (entries s !! t) cp now).
Proof.
  intros H Hclk Ea IH. assert (Ec : ValidCheckpoint cp = true) by (by apply andb_true_iff in Ea as [_ ?]). apply Forall_app in Hclk as [Hclk [Hnow _]%Forall_cons]. unfold entry_says. rewrite accepted_snoc.
  assert (E : accepted t [ORecord t cp now] = [(cp, now)]) by (unfold accepted; simpl; by rewrite bool_decide_true, Ea by done).
  rewrite E. destruct (entries s !! t) as [p|] eqn:Ep.
  - destruct (IH p eq_refl) as (l & Hne & Hsuf & ->). exists (l ++ [(cp, now)]).
    split; [by destruct l|]. split; [by apply suffix_app, Hsuf|]. apply next_summary; [done..|].
    pose proof (accepted_clock t ops Hclk) as Hz. destruct Hsuf as [k Hk]. rewrite Hk in Hz. by apply Forall_app in Hz as [_ ?].
  - exists [(cp, now)]. split; [done|]. split; [by apply suffix_app_r|]. apply next_summary_new; [exact Ec|exact Hnow].
Qed.

Lemma entry_summary c ops s t st :
  clock_ok ops -> run_store c ops = Some s -> Get t s = Some st -> entry_says ops t st.
Proof.
  revert s t st. induction ops as [|o ops IH] using rev_ind; intros s t st Hclk Hrun Hget.
  { unfold run_store in Hrun. simpl in Hrun. by simplify_eq. }
  rewrite run_store_snoc in Hrun. destruct (run_store_ok c ops) as (s0 & E0 & H0). rewrite E0 in Hrun. simpl in Hrun.
  assert (Hops : clock_ok ops) by (by apply Forall_app in Hclk as [? _]).
  assert (IH' : forall u st, entries s0 !! u = Some st -> entry_says ops u st) by eauto.
  destruct o as [t' cp now|t']; simpl in Hrun.
  - destruct (record_ok c s0 t' cp now H0) as (s' & E & _ & Hno & Hyes). rewrite E in Hrun. simplify_eq/=.
    assert (Hskip : bool_decide (t' = t) && accepts t' cp = false -> accepted t [ORecord t' cp now] = []) by (intros Hs; unfold accepted; simpl; by rewrite Hs).
    destruct (accepts t' cp) eqn:Ea; [destruct (Hyes eq_refl) as [Hnew Hold]|rewrite (Hno eq_refl) in Hget].
    + destruct (decide (t = t')) as [->|Hne].
      * unfold Get in Hget. rewrite Hnew in Hget. simplify_eq. eauto using entry_says_record.
      * apply entry_says_mono; [by eapply IH', Hold|]. apply Hskip. by rewrite bool_decide_false.
    + apply entry_says_mono; [by apply IH'|]. apply Hskip, andb_false_r.
  - simplify_eq. apply entry_says_mono; [by eapply IH', forget_entries|done].
Qed.

(** Refinement of the store by the list of beacons it accepted: what Get
    answers for a token is the summary of a non-empty run of its most recent
    accepted beacons, the checkpoint the furthest of them, LastSeen the time of
    the last, FailedAt the time of the first `failed` and never a later one's,
    Count how many there were. A heartbeat that repeats `early` therefore never
    hides `late` or `failed`. *)
Theorem beacon_entry_summary c ops s t st :
  clock_ok ops -> run_store c ops = Some s -> Get t s = Some st -> entry_says ops t st.
Proof. apply entry_summary. Qed.

Definition demo_token : string := "0123456789abcdef0123456789abcdef".
Definition demo_ops : list Op :=
  [ORecord demo_token "early" (at_s 1); ORecord demo_token "failed" (at_s 2); ORecord "x" "early" (at_s 3);
   ORecord demo_token "early" (at_s 4)].
Lemma beacon_entry_summary_witness :
  (exists s, run_store 1 demo_ops = Some s /\ Get demo_token s = Some (mkBeaconState "failed" (at_s 4) (at_s 2) 3)) /\
  entry_says demo_ops demo_token (mkBeaconState "failed" (at_s 4) (at_s 2) 3).
Proof.
  split; [eexists; split; vm_compute; reflexivity|].
  eapply (beacon_entry_summary 1 demo_ops); [repeat constructor|vm_compute; reflexivity|vm_compute; reflexivity].
Defined.

(** ** The commands that send a beacon *)

Definition no_quote (l : bytes) : Prop := Forall (fun c => c <> squote) l.

Lemma no_quote_flat l : no_quote l -> flat_map quote_byte l = l.
Proof.
  induction 1 as [|c l Hc Hl IH]; [done|]. cbn [flat_map]. unfold quote_byte at 1.
  destruct (Ascii.eqb_spec c squote); [done|]. by rewrite IH.
Qed.

Lemma strip_prefix_split p l r : strip_prefix p l = Some r -> l = p ++ r.
Proof.
  revert l. induction p as [|a p IH]; intros [|b l]; simpl; try by intros [= ->].
  destruct (Ascii.eqb_spec a b) as [->|]; [|done]. by intros ->%IH.
Qed.

Lemma no_quote_trim base suf : no_quote (to_bytes base) -> no_quote (to_bytes (trim_suffix base suf)).
Proof.
  unfold no_quote, trim_suffix. intros H. destruct (strip_prefix _ _) as [r|] eqn:E; [|done].
  apply strip_prefix_split in E. rewrite to_of_bytes. rewrite <- (rev_involutive (to_bytes base)), E, rev_app_distr in H.
  by apply Forall_app in H as [? _].
Qed.

Lemma accepts_no_quote token cp : accepts token cp = true -> no_quote (to_bytes token) /\ no_quote (to_bytes cp).
Proof.
  intros [[_ Ht]%andb_true_iff Hc]%andb_true_iff. split.
  - apply list.Forall_forall. intros c Hin ->. rewrite forallb_forall in Ht. by specialize (Ht squote (proj1 (list_elem_of_In _ _) Hin)).
  - destruct (checkpoint_cases cp Hc) as [->|[->| ->]]; repeat constructor; done.
Qed.

Lemma base_no_quote base : trim_space base <> "" -> ValidateBeaconBase base = None -> no_quote (to_bytes base).
Proof.
  unfold ValidateBeaconBase, checkShellValue. intros Hb. rewrite bool_decide_false by done.
  case_match; [done|]. destruct (contains_any "'\" base) eqn:E; [done|]. intros _. clear -E.
  unfold contains_any in E. apply list.Forall_forall. intros c Hc ->. apply not_true_iff_false in E. apply E.
  apply existsb_exists. exists squote. split; [by apply list_elem_of_In|done].
Qed.

(** A base URL that passes ValidateBeaconBase, with a token and a checkpoint
    of the shapes the package produces, stays inside the quotes BeaconSend puts
    around it: what a POSIX shell reads after the fixed wget prefix is one word,
    the URL, followed by the fixed suffix. *)
Theorem beacon_url_one_word base token cp :
  trim_space base <> "" -> ValidateBeaconBase base = None -> accepts token cp = true ->
  exists rest, to_bytes (BeaconSend base token cp) = to_bytes "wget -q -T 5 -O /dev/null " ++ rest /\
    sh_word (4 * length (to_bytes (BeaconURL base token cp)) + 3) false rest = Some (to_bytes (BeaconURL base token cp), to_bytes " || true").
Proof.
  intros Hb Hv Ha. destruct (accepts_no_quote token cp Ha) as [Ht Hc]. pose proof (base_no_quote base Hb Hv) as Hq.
  exists ([squote] ++ to_bytes (BeaconURL base token cp) ++ squote :: to_bytes " || true"). unfold BeaconSend.
  rewrite bool_decide_false by done. split.
  { rewrite !to_bytes_app. change (to_bytes "wget -q -T 5 -O /dev/null '") with (to_bytes "wget -q -T 5 -O /dev/null " ++ [squote]).
    change (to_bytes "' || true") with (squote :: to_bytes " || true"). by rewrite <- !app_assoc. }
  assert (Hu : no_quote (to_bytes (BeaconURL base token cp))).
  { unfold BeaconURL. rewrite !to_bytes_app. repeat apply Forall_app_2; [by apply no_quote_trim| |done| |done]; repeat constructor; done. }
  rewrite Nat.add_comm. change (3 + 4 * ?n)%nat with (S (2 + 4 * n)). cbn [app sh_word]. rewrite Ascii.eqb_refl.
  rewrite <- (no_quote_flat _ Hu) at 2. apply sh_word_quoted; [done|lia].
Qed.
Lemma beacon_url_one_word_witness :
  exists rest, to_bytes (BeaconSend "http://192.0.2.9:8080/" demo_token "early") = to_bytes "wget -q -T 5 -O /dev/null " ++ rest /\
    sh_word (4 * length (to_bytes (BeaconURL "http://192.0.2.9:8080/" demo_token "early")) + 3) false rest =
      Some (to_bytes (BeaconURL "http://192.0.2.9:8080/" demo_token "early"), to_bytes " || true").
Proof. apply beacon_url_one_word; [by vm_compute|by vm_compute|by vm_compute]. Defined.
