(* ===== verification/InstallController.v ===== *)
(** internal/controller/frame/frameinstall_controller.go: the reconciler that
    turns a FrameInstall into one run of provision.Install, with the types of
    api/frame/v1beta1/frameinstall_types.go.

    The run is a goroutine. [spawn] hands it over, [runInstall] is its body, and
    what it and every other actor may do between two calls of a pass is the
    drift of InstallControllerLaws. A method under r.mu is one [locked] step on
    the maps the mutex guards. controller-runtime's Patch and Update replace the
    object they are given by the server's answer, and so do these. *)
From stdpp Require Import base tactics strings list gmap.
From Stdlib Require Import ZArith Lia Ascii.
From S2P Require Import Prelude GoLib GoTime Kube Cluster Rollout StorageTypes StorageHealth Alerting StorageAlerts GoNet Provision Install InstallRuns BeaconStore.

Open Scope Z_scope.

(** ** frameinstall_types.go *)

Record InstallNetwork := mkInstallNetwork { in_Address : string; in_Gateway : string; in_DNS : list string }.
Record InstallDisk := mkInstallDisk { id_ByID : string; id_SizeBytes : Z }.
Record InstallLayout := mkInstallLayout { il_Kind : string; il_Disks : list InstallDisk }.
Record InstallCluster := mkInstallCluster {
  ic_Mode : string;
  ic_ServerURL : string;
  ic_JoinTokenRef : string;
  ic_K3sVersion : string
}.
Record FrameInstallSpec := mkFrameInstallSpec {
  fis_MachineRef : string;
  fis_ConfirmSerial : string;
  fis_Hostname : string;
  fis_Network : InstallNetwork;
  fis_Layout : InstallLayout;
  fis_Cluster : InstallCluster;
  fis_BootMode : string;
  fis_SSHKeyRef : string
}.
Record FrameInstallStatus := mkFrameInstallStatus {
  is_Phase : string;
  is_PhaseSince : option time;
  is_FailedPhase : string;
  is_Message : string;
  is_HostKey : string;
  is_NodeName : string;
  is_KubeconfigSecret : string;
  is_Conditions : list Condition;
  is_ObservedGeneration : Z
}.
Record FrameInstall := mkFrameInstall {
  fi_Namespace : string;
  fi_Name : string;
  fi_UID : string;
  fi_Generation : Z;
  fi_Finalizers : list string;
  fi_Deleting : bool;
  fi_Spec : FrameInstallSpec;
  fi_Status : FrameInstallStatus
}.
#[export] Instance Condition_eq : EqDecision Condition.
Proof. solve_decision. Defined.

Definition fi_key (fi : FrameInstall) : NamespacedName := (fi_Namespace fi, fi_Name fi).
Definition fi_ref (fi : FrameInstall) : string := fis_MachineRef (fi_Spec fi).
Definition fi_phase (fi : FrameInstall) : string := is_Phase (fi_Status fi).
Definition fi_observed (fi : FrameInstall) : Z := is_ObservedGeneration (fi_Status fi).

Definition with_status (fi : FrameInstall) (s : FrameInstallStatus) : FrameInstall :=
  mkFrameInstall (fi_Namespace fi) (fi_Name fi) (fi_UID fi) (fi_Generation fi) (fi_Finalizers fi) (fi_Deleting fi) (fi_Spec fi) s.
Definition with_finalizers (fi : FrameInstall) (fs : list string) : FrameInstall :=
  mkFrameInstall (fi_Namespace fi) (fi_Name fi) (fi_UID fi) (fi_Generation fi) fs (fi_Deleting fi) (fi_Spec fi) (fi_Status fi).

(** The assignments the code makes to status fields. *)
Definition put_phase (s : FrameInstallStatus) (p : string) (now : time) : FrameInstallStatus :=
  mkFrameInstallStatus p (Some now) (is_FailedPhase s) (is_Message s) (is_HostKey s) (is_NodeName s)
    (is_KubeconfigSecret s) (is_Conditions s) (is_ObservedGeneration s).
Definition put_failure (s : FrameInstallStatus) (failed msg : string) : FrameInstallStatus :=
  mkFrameInstallStatus (is_Phase s) (is_PhaseSince s) failed msg (is_HostKey s) (is_NodeName s)
    (is_KubeconfigSecret s) (is_Conditions s) (is_ObservedGeneration s).
Definition put_conditions (s : FrameInstallStatus) (cs : list Condition) : FrameInstallStatus :=
  mkFrameInstallStatus (is_Phase s) (is_PhaseSince s) (is_FailedPhase s) (is_Message s) (is_HostKey s) (is_NodeName s)
    (is_KubeconfigSecret s) cs (is_ObservedGeneration s).
Definition put_host (s : FrameInstallStatus) (hostKey nodeName : string) : FrameInstallStatus :=
  mkFrameInstallStatus (is_Phase s) (is_PhaseSince s) (is_FailedPhase s) (is_Message s) hostKey nodeName
    (is_KubeconfigSecret s) (is_Conditions s) (is_ObservedGeneration s).
Definition put_secret (s : FrameInstallStatus) (name : string) : FrameInstallStatus :=
  mkFrameInstallStatus (is_Phase s) (is_PhaseSince s) (is_FailedPhase s) (is_Message s) (is_HostKey s) (is_NodeName s)
    name (is_Conditions s) (is_ObservedGeneration s).
Definition put_observed (s : FrameInstallStatus) (g : Z) : FrameInstallStatus :=
  mkFrameInstallStatus (is_Phase s) (is_PhaseSince s) (is_FailedPhase s) (is_Message s) (is_HostKey s) (is_NodeName s)
    (is_KubeconfigSecret s) (is_Conditions s) g.

(** ** What the reconciler reads besides *)

Record BMCSpec := mkBMCSpec {
  bmc_Address : string;
  bmc_CredentialsRef : string;
  bmc_InsecureSkipVerify : bool;
  bmc_CABundleRef : string
}.
(** A FrameMachine, as far as an install reads it. *)
Record TargetMachine := mkTargetMachine { tm_Name : string; tm_BMC : BMCSpec }.
(** A Node with its status.addresses. *)
Record ClusterNode := mkClusterNode { cn_Node : Node; cn_Addresses : list string }.
(** A Secret to create; [sec_Owner] is the UID of its controller reference. *)
Record Secret := mkSecret { sec_Namespace : string; sec_Name : string; sec_Data : strmap; sec_Owner : option string }.
Record FrameTask := mkFrameTask {
  ft_Namespace : string;
  ft_GenerateName : string;
  ft_User : string;
  ft_Verb : string;
  ft_Target : string * string * string;
  ft_Action : string
}.
Definition TaskVerbCreate : string := "create".
Definition TaskVerbUpdate : string := "update".
Definition TaskPhaseSucceeded : string := "Succeeded".

(** ** Constants *)

Definition frameInstallFinalizer : string := "frame.plume-labs.io/frameinstall".
Definition frameInstallSSHUser : string := "frame".
Definition frameInstallControllerUser : string := "system:controller:frameinstall".
Definition defaultPhaseTimeouts : gmap Phase Z :=
  list_to_map [(PhasePending, 30 * second); (PhasePreparing, 30 * minute); (PhaseMediaAttached, 2 * minute);
               (PhaseInstalling, 90 * minute); (PhaseJoining, 5 * minute); (PhaseReady, 5 * minute)].
Definition defaultPoll : Z := 5 * second.
Definition beaconLostAfter : Z := 60 * second.
Definition reasonInstallerUnavailable : string := "Unavailable".
Definition clusterModeJoin : string := "join".

(** ** installerRespondingCondition *)

(** [Duration.Round]: to the nearest multiple, half away from zero, held inside
    int64. *)
Definition duration_round (d m : Z) : Z :=
  if m <=? 0 then d
  else
    let r := Z.abs (Z.rem d m) in
    if d <? 0 then (if r + r <? m then d + r else Z.max (d - m + r) (- 2 ^ 63))
    else (if r + r <? m then d - r else Z.min (d + m - r) (2 ^ 63 - 1)).

Definition ago (now t : time) : string := duration_string (duration_round (sub now t) second).

Definition InstallerResponding : string := "InstallerResponding".
Definition responding (status reason msg : string) : Condition := mkCondition InstallerResponding status reason msg 0.

Definition installerRespondingCondition (st : BeaconState) (known everKnown : bool) (err : option string) (now : time) : Condition :=
  match err with
  | Some e => responding "Unknown" reasonInstallerUnavailable ("could not read installer progress: " +:+ e)
  | None =>
    if negb known && everKnown then
      responding "Unknown" reasonInstallerUnavailable
        "beacon history was lost (frame-provisiond likely restarted); this says nothing about whether the installer is still running"
    else if negb known then
      responding "False" "NeverSeen"
        "nothing has been heard from the installer: it may not have booted the media, or the network may never have come up"
    else if bool_decide (LastCheckpoint st = CheckpointFailed) then
      responding "False" "InstallerFailed"
        (if is_zero (FailedAt st) then "the installer reported that the install failed; the cause is on the machine's console"
         else "the installer reported that the install failed at " +:+ format_rfc3339 (utc (FailedAt st)) +:+ ", " +:+
              ago now (FailedAt st) +:+ " ago; the cause is on the machine's console")
    else if (beaconLostAfter <? sub now (LastSeen st)) && bool_decide (LastCheckpoint st = CheckpointLate) then
      responding "False" "Rebooting" ("base system installed " +:+ ago now (LastSeen st) +:+ " ago; the machine is rebooting into it")
    else if beaconLostAfter <? sub now (LastSeen st) then
      responding "False" "HeartbeatLost"
        ("last reached " +:+ LastCheckpoint st +:+ ", " +:+ ago now (LastSeen st) +:+ " ago, and has not reported since")
    else
      responding "True" "Heartbeat"
        ("at " +:+ LastCheckpoint st +:+ ", last reported " +:+ ago now (LastSeen st) +:+
         " ago; an installer that stays here is waiting on a question")
  end.

Example ago_ex : map (fun d => duration_string (duration_round d second)) [1499999999; 1500000000; -1500000000; 61 * second] =
  ["1s"; "2s"; "-2s"; "1m1s"].
Proof. vm_compute. reflexivity. Qed.

(** ** The reconciler *)

Record FrameInstallReconciler := mkInstallReconciler {
  ri_HasProgress : bool;                 (* Progress is not nil *)
  ri_ProvisiondMediaURL : string;
  ri_OperatorNamespace : string;
  ri_PhaseTimeout : option (gmap Phase Z);
  ri_Poll : Z
}.

(** What r.mu guards. *)
Record Mem := mkMem {
  inFlight : gmap string string;
  tokens : gmap string string;
  seenBeacon : gset string
}.

(** The goroutine of one install; [j_Generation] is the generation its pass
    committed, which the code keeps in the object only. *)
Record Job (B : Type) := mkJob {
  j_Ref : string;
  j_UID : string;
  j_Key : NamespacedName;
  j_Bmc : B;
  j_Spec : Spec;
  j_Opts : Options;
  j_Generation : Z
}.
Arguments mkJob {B}. Arguments j_Ref {B}. Arguments j_UID {B}. Arguments j_Key {B}. Arguments j_Bmc {B}.
Arguments j_Spec {B}. Arguments j_Opts {B}. Arguments j_Generation {B}.

(** The cluster, the BMCs, the clock and the process's own memory. [hw b] holds
    the interfaces an install over the BMC [b] is given and its contexts; its
    callbacks are not used. *)
Class InstallApi (W : Type) := {
  Bmc : Type;
  fi_get : NamespacedName -> St W (result apierr FrameInstall);
  fi_list : St W (result apierr (list FrameInstall));
  fi_update : FrameInstall -> St W (result apierr FrameInstall);
  fi_patch_status : FrameInstall -> FrameInstall -> St W (result apierr FrameInstall);
  machine_get : NamespacedName -> St W (result apierr TargetMachine);
  secret_get : NamespacedName -> St W (result apierr strmap);
  configmap_get : NamespacedName -> St W (result apierr strmap);
  secret_create : Secret -> St W (option apierr);
  node_list : St W (result apierr (list ClusterNode));
  node_get : string -> St W (result apierr ClusterNode);
  task_create : FrameTask -> St W (result apierr string);
  task_status : string -> string -> time -> St W (option apierr);
  fi_event : NamespacedName -> Event -> St W unit;
  wall : St W time;
  rand16 : St W (result string bytes);
  progress : string -> St W (result string (BeaconState * bool));
  new_bmc : string -> BMCSpec -> St W (result string Bmc);
  hw : Bmc -> Machine W;
  locked : forall {A : Type}, (Mem -> A * Mem) -> St W A;
  spawn : Job Bmc -> St W unit;
  fin_add : list string -> string -> list string;
  fin_remove : list string -> string -> list string;
  set_condition : list Condition -> Condition -> list Condition;
  remove_condition : list Condition -> string -> list Condition;
  append_certs_from_pem : string -> bool;
  rest_config : string -> option string;     (* clientcmd.RESTConfigFromKubeConfig's error *)
  new_clientset : string -> option string;   (* kubernetes.NewForConfig's error *)
  remote_node_get : string -> string -> St W (result apierr ClusterNode)
}.

(** The result of a pass: RequeueAfter in nanoseconds, and the error. *)
Abbreviation Rec := (Z * option apierr)%type.
Definition done_ : Rec := (0, None).
Definition requeue (d : Z) : Rec := (d, None).
Definition errored (e : apierr) : Rec := (0, Some e).

Definition terminal (phase : string) : bool := bool_decide (phase = PhaseReady) || bool_decide (phase = PhaseFailed).

Definition addressWithoutCIDR (s : string) : string :=
  match cut_at slash (to_bytes s) with (before, Some _) => of_bytes before | _ => s end.

Definition toProvisionSpec (fi : FrameInstall) (installUID sshPublicKey joinToken : string) : Spec :=
  let s := fi_Spec fi in
  Provision.mkSpec installUID (fis_Hostname s)
    (mkNetwork (in_Address (fis_Network s)) (in_Gateway (fis_Network s)) (in_DNS (fis_Network s)))
    (mkLayout (il_Kind (fis_Layout s)) (map (fun d => mkDisk (id_ByID d) (id_SizeBytes d)) (il_Disks (fis_Layout s))))
    sshPublicKey
    (mkClusterTarget (ic_Mode (fis_Cluster s)) (ic_ServerURL (fis_Cluster s)) joinToken (ic_K3sVersion (fis_Cluster s)))
    "".

Definition options (r : FrameInstallReconciler) (fi : FrameInstall) (sshKey : string) : Options :=
  let s := fi_Spec fi in
  mkOptions (fis_BootMode s) frameInstallSSHUser sshKey (addressWithoutCIDR (in_Address (fis_Network s)))
    (fis_ConfirmSerial s) (default defaultPhaseTimeouts (ri_PhaseTimeout r))
    (if ri_Poll r <=? 0 then defaultPoll else ri_Poll r).

(** The two guards' judgments on what was listed. *)
Fixpoint live_member (hostname address : string) (l : list ClusterNode) : option string :=
  match l with
  | [] => None
  | n :: l =>
    if negb (nodeIsReady (cn_Node n)) then live_member hostname address l
    else if bool_decide (node_name (cn_Node n) = hostname)
    then Some ("a Node named " +:+ quote hostname +:+ " is Ready in this cluster; remove it from the cluster before reinstalling it")
    else if bool_decide (address ∈ cn_Addresses n)
    then Some ("a Ready Node (" +:+ quote (node_name (cn_Node n)) +:+ ") already carries address " +:+ address +:+
               "; remove it from the cluster before reinstalling it")
    else live_member hostname address l
  end.

Fixpoint hostname_claimed (fi : FrameInstall) (l : list FrameInstall) : option string :=
  match l with
  | [] => None
  | other :: l =>
    if bool_decide (fi_UID other = fi_UID fi) || bool_decide (fis_Hostname (fi_Spec other) <> fis_Hostname (fi_Spec fi))
    then hostname_claimed fi l
    else if terminal (fi_phase other) then hostname_claimed fi l
    else Some ("FrameInstall " +:+ quote (fi_Namespace other +:+ "/" +:+ fi_Name other) +:+ " already targets hostname " +:+
               quote (fis_Hostname (fi_Spec fi)) +:+ " and has not reached a terminal phase")
  end.

Section Controller.
Context {W : Type} {IA : InstallApi W} {PL : ProvisionLibs}.
Variable r : FrameInstallReconciler.

(** ** Under the mutex *)

Definition running (machineRef : string) : St W bool :=
  locked (fun m => (bool_decide (is_Some (inFlight m !! machineRef)), m)).

Definition startInstall (machineRef uid : string) : St W bool :=
  locked (fun m =>
    if bool_decide (is_Some (inFlight m !! machineRef)) then (false, m)
    else (true, mkMem (<[machineRef := uid]> (inFlight m)) (tokens m) (seenBeacon m))).

Definition finishInstall (machineRef uid : string) : St W unit :=
  locked (fun m => (tt, mkMem (delete machineRef (inFlight m)) (delete uid (tokens m)) (seenBeacon m ∖ {[uid]}))).

Definition rememberToken (uid token : string) : St W unit :=
  locked (fun m => (tt, mkMem (inFlight m) (<[uid := token]> (tokens m)) (seenBeacon m))).

Definition tokenFor (uid : string) : St W (option string) := locked (fun m => (tokens m !! uid, m)).

Definition markSeenBeacon (uid : string) : St W unit :=
  locked (fun m => (tt, mkMem (inFlight m) (tokens m) ({[uid]} ∪ seenBeacon m))).

Definition everSeenBeacon (uid : string) : St W bool := locked (fun m => (bool_decide (uid ∈ seenBeacon m), m)).

(** ** Records *)

Definition recordTask (fi : FrameInstall) (verb action : string) : St W unit :=
  t ← task_create (mkFrameTask (fi_Namespace fi) "frameinstall-task-" frameInstallControllerUser verb
        ("frameinstalls", fi_Namespace fi, fi_Name fi) (truncateString action 200));
  match t with
  | inl _ => mret tt
  | inr name => startedAt ← wall; _ ← task_status name TaskPhaseSucceeded startedAt; mret tt
  end.

Definition setCondition (fi : FrameInstall) (cond : Condition) : St W unit :=
  g ← fi_get (fi_key fi);
  match g with
  | inl _ => mret tt
  | inr latest =>
    if bool_decide (fi_phase latest <> PhaseInstalling) then mret tt
    else
      let c := mkCondition (c_Type cond) (c_Status cond) (c_Reason cond) (c_Message cond) (fi_Generation latest) in
      _ ← fi_patch_status latest
            (with_status latest (put_conditions (fi_Status latest) (set_condition (is_Conditions (fi_Status latest)) c)));
      mret tt
  end.

Definition reportInstallerLiveness (fi : FrameInstall) : St W unit :=
  if negb (ri_HasProgress r) || bool_decide (fi_phase fi <> PhaseInstalling) then mret tt
  else
    tok ← tokenFor (fi_UID fi);
    match tok with
    | None =>
      ever ← everSeenBeacon (fi_UID fi);
      now ← wall;
      setCondition fi (installerRespondingCondition zero_beacon false ever
        (Some ("this manager holds no image token for this installation -- another FrameInstall now owns machine " +:+ quote (fi_ref fi))) now)
    | Some token =>
      p ← progress token;
      let '(st, known, err) := match p with inl e => (zero_beacon, false, Some e) | inr (st, known) => (st, known, None) end in
      _ ← (if bool_decide (err = None) && known then markSeenBeacon (fi_UID fi) else mret tt);
      ever ← everSeenBeacon (fi_UID fi);
      now ← wall;
      setCondition fi (installerRespondingCondition st known ever err now)
    end.

Definition reportPhase (key : NamespacedName) (p : Phase) : St W unit :=
  g ← fi_get key;
  match g with
  | inl _ => mret tt
  | inr fi =>
    now ← wall;
    _ ← fi_patch_status fi (with_status fi (put_phase (fi_Status fi) p now));
    mret tt
  end.

Definition failPending (fi : FrameInstall) (msg : string) : St W Rec :=
  now ← wall;
  let fi' := with_status fi (put_failure (put_phase (fi_Status fi) PhaseFailed now) PhasePending (truncateString msg 512)) in
  p ← fi_patch_status fi fi';
  match p with
  | inl e => mret (errored e)
  | inr fi =>
    _ ← fi_event (fi_key fi) (mkEvent EventTypeWarning "InstallRefused" msg);
    _ ← recordTask fi TaskVerbUpdate
          ("refused: " +:+ msg +:+ " (install " +:+ fis_Hostname (fi_Spec fi) +:+ " on machine " +:+ fi_ref fi +:+ ")");
    mret done_
  end.

(** ** The guards and the reads *)

Definition getMachine (namespace name : string) : St W (result apierr TargetMachine) := machine_get (namespace, name).

Definition checkNotALiveClusterMember (hostname cidrAddress : string) : St W (option string) :=
  l ← node_list;
  mret (match l with
  | inl e => Some ("listing nodes: " +:+ err_text e)
  | inr l => live_member hostname (addressWithoutCIDR cidrAddress) l
  end).

Definition checkHostnameNotTaken (fi : FrameInstall) : St W (option string) :=
  let hostname := fis_Hostname (fi_Spec fi) in
  n ← node_get hostname;
  match n with
  | inr _ => mret (Some ("a Node named " +:+ quote hostname +:+ " already exists"))
  | inl e =>
    if negb (err_notfound e) then mret (Some ("checking for a Node named " +:+ quote hostname +:+ ": " +:+ err_text e))
    else
      l ← fi_list;
      mret (match l with
      | inl e => Some ("listing FrameInstalls: " +:+ err_text e)
      | inr l => hostname_claimed fi l
      end)
  end.

(** A key of a Secret's data, absent and empty alike. *)
Definition sec_data (d : strmap) (k : string) : string := default "" (d !! k).

Definition readSSHKey (namespace name : string) : St W (result string (string * string)) :=
  s ← secret_get (namespace, name);
  mret (match s with
  | inl e => inl (err_text e)
  | inr d =>
    if bool_decide (sec_data d "id.pub" = "") then inl ("secret " +:+ namespace +:+ "/" +:+ name +:+ " has no id.pub")
    else if bool_decide (sec_data d "id" = "") then inl ("secret " +:+ namespace +:+ "/" +:+ name +:+ " has no id")
    else inr (trim_space (sec_data d "id.pub"), sec_data d "id")
  end).

Definition readJoinToken (namespace name : string) : St W (result string string) :=
  s ← secret_get (namespace, name);
  mret (match s with
  | inl e => inl (err_text e)
  | inr d =>
    if bool_decide (sec_data d "node-token" <> "") then inr (trim_space (sec_data d "node-token"))
    else if bool_decide (sec_data d "token" <> "") then inr (trim_space (sec_data d "token"))
    else inl ("secret " +:+ namespace +:+ "/" +:+ name +:+ " has neither a node-token nor a token key")
  end).

Definition writeKubeconfigSecret (namespace : string) (owner : FrameInstall) (kubeconfig : string) : St W (option apierr) :=
  secret_create (mkSecret namespace (fi_Name owner +:+ "-kubeconfig") {["kubeconfig" := kubeconfig]}
    (if bool_decide (namespace = fi_Namespace owner) then Some (fi_UID owner) else None)).

Definition newInstallUID : St W (result string string) :=
  b ← rand16;
  mret (match b with
  | inl e => inl ("generating install UID: " +:+ e)
  | inr b => inr (of_bytes (flat_map (fun c => hex2 (byteZ c)) b))
  end).

(** ** Cleanup outside a run *)

(** EjectMedia and ClearBootOverride, both attempted. *)
Definition eject_and_clear (b : Bmc) : St W (option string * option string) :=
  ejectErr ← @bmc_EjectMedia W (hw b);
  clearErr ← @bmc_ClearBootOverride W (hw b);
  mret (ejectErr, clearErr).

Definition restartedText (prevPhase : string) : string :=
  "the controller restarted mid-install (was in phase " +:+ prevPhase +:+ "); a mid-install restart cannot be resumed safely and is not retried automatically -- the machine may still have installer media attached and a one-time boot override set".

Definition failRestarted (fi : FrameInstall) : St W Rec :=
  let prevPhase := if bool_decide (fi_phase fi = "") then PhasePending else fi_phase fi in
  fm ← getMachine (fi_Namespace fi) (fi_ref fi);
  msg ← match fm with
        | inl _ => mret (restartedText prevPhase)
        | inr fm =>
          b ← new_bmc (fi_Namespace fi) (tm_BMC fm);
          match b with
          | inl _ => mret (restartedText prevPhase)
          | inr b =>
            c ← eject_and_clear b;
            mret (if bool_decide (c.1 = None) && bool_decide (c.2 = None) then restartedText prevPhase
                  else restartedText prevPhase +:+ " (cleanup also failed: eject=" +:+ show_err c.1 +:+ " clear=" +:+ show_err c.2 +:+ ")")
          end
        end;
  now ← wall;
  let st := put_failure (put_phase (fi_Status fi) PhaseFailed now) prevPhase (truncateString msg 512) in
  let fi' := with_status fi (put_conditions st (remove_condition (is_Conditions st) InstallerResponding)) in
  p ← fi_patch_status fi fi';
  match p with
  | inl e => mret (errored e)
  | inr fi =>
    _ ← fi_event (fi_key fi) (mkEvent EventTypeWarning "InstallRestarted" msg);
    _ ← recordTask fi TaskVerbUpdate ("install " +:+ fis_Hostname (fi_Spec fi) +:+ " on machine " +:+ fi_ref fi +:+
          " reached Failed: controller restarted mid-install");
    mret done_
  end.

Definition finalize (fi : FrameInstall) : St W Rec :=
  if negb (bool_decide (frameInstallFinalizer ∈ fi_Finalizers fi)) then mret done_
  else
    busy ← running (fi_ref fi);
    if (busy : bool) then mret (requeue (5 * second))
    else
      fm ← getMachine (fi_Namespace fi) (fi_ref fi);
      stuck ← match fm with
              | inl _ => mret None
              | inr fm =>
                b ← new_bmc (fi_Namespace fi) (tm_BMC fm);
                match b with
                | inl _ => mret None
                | inr b =>
                  c ← eject_and_clear b;
                  mret (if bool_decide (c.1 = None) && bool_decide (c.2 = None) then None
                        else Some (plain_err ("finalizer: ejecting media / clearing boot override for " +:+ fi_Name fi +:+
                               ": eject=" +:+ show_err c.1 +:+ " clear=" +:+ show_err c.2)))
                end
              end;
      match stuck with
      | Some e => mret (errored e)
      | None =>
        u ← fi_update (with_finalizers fi (fin_remove (fi_Finalizers fi) frameInstallFinalizer));
        mret (match u with inl e => errored e | inr _ => done_ end)
      end.

(** ** The end of a run *)

(** The status finishStatus computes before it saves a kubeconfig. *)
Definition result_status (st : FrameInstallStatus) (res : Result) (installErr : option string) (now : time) : FrameInstallStatus :=
  let st := put_failure (put_phase st (r_Phase res) now) (r_FailedPhase res)
              (match installErr with Some e => truncateString e 512 | None => "" end) in
  let st := put_host st (r_HostKey res) (r_NodeName res) in
  put_conditions st (remove_condition (is_Conditions st) InstallerResponding).

(** What a failed save makes of it. *)
Definition unsaved_status (st : FrameInstallStatus) (ns name e : string) : FrameInstallStatus :=
  let msg := "the cluster was created but saving kubeconfig Secret " +:+ ns +:+ "/" +:+ name +:+
             "-kubeconfig failed, so nobody can talk to it: " +:+ e in
  let msg := if bool_decide (is_Message st <> "") then is_Message st +:+ "; additionally, " +:+ msg else msg in
  mkFrameInstallStatus PhaseFailed (is_PhaseSince st)
    (if bool_decide (is_FailedPhase st = "") then PhaseReady else is_FailedPhase st) (truncateString msg 512)
    (is_HostKey st) (is_NodeName st) (is_KubeconfigSecret st) (is_Conditions st) (is_ObservedGeneration st).

(** The kubeconfig there is to save, if any. *)
Definition to_save (fi : FrameInstall) (res : Result) : option string :=
  match r_Kubeconfig res with
  | Some k => if bool_decide (ic_Mode (fis_Cluster (fi_Spec fi)) = "init") && bool_decide (k <> "") then Some k else None
  | None => None
  end.

Definition secret_namespace (fi : FrameInstall) : string :=
  if bool_decide (ri_OperatorNamespace r = "") then fi_Namespace fi else ri_OperatorNamespace r.

Definition finishStatus (key : NamespacedName) (machineRef : string) (res : Result) (installErr : option string) : St W unit :=
  g ← fi_get key;
  match g with
  | inl _ => mret tt
  | inr fi =>
    now ← wall;
    let st := result_status (fi_Status fi) res installErr now in
    st ← match to_save fi res with
         | None => mret st
         | Some k =>
           e ← writeKubeconfigSecret (secret_namespace fi) fi k;
           mret (match e with
                 | Some e => unsaved_status st (secret_namespace fi) (fi_Name fi) (err_text e)
                 | None => put_secret st (fi_Name fi +:+ "-kubeconfig")
                 end)
         end;
    p ← fi_patch_status fi (with_status fi st);
    match p with
    | inl _ => mret tt
    | inr fi =>
      _ ← fi_event (fi_key fi)
            (if bool_decide (fi_phase fi = PhaseReady) then mkEvent EventTypeNormal "InstallReady" "installation reached Ready"
             else mkEvent EventTypeWarning "InstallFailed" (is_Message (fi_Status fi)));
      recordTask fi TaskVerbUpdate
        ("install " +:+ fis_Hostname (fi_Spec fi) +:+ " on machine " +:+ machineRef +:+ " reached " +:+ fi_phase fi)
    end
  end.

(** The Deps of an install: the interfaces over its BMC, and the reconciler's
    two callbacks. *)
Definition deps (key : NamespacedName) (uid : string) (b : Bmc) : Machine W := {|
  Session := @Session W (hw b);
  bmc_Serial := @bmc_Serial W (hw b);
  bmc_InsertMedia := @bmc_InsertMedia W (hw b);
  bmc_MediaInserted := @bmc_MediaInserted W (hw b);
  bmc_EjectMedia := @bmc_EjectMedia W (hw b);
  bmc_SetBootOnce := @bmc_SetBootOnce W (hw b);
  bmc_ClearBootOverride := @bmc_ClearBootOverride W (hw b);
  bmc_Reset := @bmc_Reset W (hw b);
  images_Build := @images_Build W (hw b);
  images_Remove := @images_Remove W (hw b);
  ssh_Dial := @ssh_Dial W (hw b);
  sess_HostKey := @sess_HostKey W (hw b);
  sess_Run := @sess_Run W (hw b);
  sess_Output := @sess_Output W (hw b);
  sess_RunWithInput := @sess_RunWithInput W (hw b);
  sess_ReadFile := @sess_ReadFile W (hw b);
  sess_Close := @sess_Close W (hw b);
  nodes_NodeReady := @nodes_NodeReady W (hw b);
  d_Report := reportPhase key;
  d_ReportToken := rememberToken uid;
  d_BeforeMediaAttached := mret None;
  ctx_err := @ctx_err W (hw b);
  select_done := @select_done W (hw b)
|}.

(** The goroutine; [false] when [fuel] polls were not enough. *)
Definition runInstall (fuel : nat) (j : Job Bmc) : St W bool :=
  out ← @Install W (deps (j_Key j) (j_UID j) (j_Bmc j)) PL fuel (j_Spec j) (j_Opts j);
  match out with
  | None => mret false
  | Some (res, err) =>
    _ ← finishStatus (j_Key j) (j_Ref j) res err;
    _ ← finishInstall (j_Ref j) (j_UID j);
    mret true
  end.

(** ** Reconcile *)

Definition mediaURLText (e : string) : string :=
  "frame-provisiond's media URL (the manager's -provisiond-media-url flag, the chart's provisiond.media.url) " +:+ e +:+
  " -- this cluster is not configured to provision machines: expose the frame-provisiond-media Service (ClusterIP, closed, by default) to the BMCs' network and set this URL to the address they reach it at".

(** From the claim of the machine to the goroutine. *)
Definition commit_and_start (fi : FrameInstall) (bmc : Bmc) (sshPub sshPriv joinToken : string) : St W Rec :=
  won ← startInstall (fi_ref fi) (fi_UID fi);
  if negb won then mret (requeue (15 * second))
  else
    let g := fi_Generation fi in
    p ← fi_patch_status fi (with_status fi (put_observed (fi_Status fi) g));
    match p with
    | inl e => _ ← finishInstall (fi_ref fi) (fi_UID fi); mret (errored e)
    | inr fi =>
      u ← newInstallUID;
      match u with
      | inl e =>
        _ ← finishInstall (fi_ref fi) (fi_UID fi);
        failPending fi ("generating an install UID: " +:+ e)
      | inr installUID =>
        _ ← recordTask fi TaskVerbCreate ("install " +:+ fis_Hostname (fi_Spec fi) +:+ " on machine " +:+ fi_ref fi);
        _ ← spawn (mkJob (fi_ref fi) (fi_UID fi) (fi_key fi) bmc (toProvisionSpec fi installUID sshPub joinToken)
              (options r fi sshPriv) g);
        mret (requeue (15 * second))
      end
    end.

(** The guards and reads of a pass that may start an install. *)
Definition check_and_start (fi : FrameInstall) : St W Rec :=
  fm ← getMachine (fi_Namespace fi) (fi_ref fi);
  match fm with
  | inl e => failPending fi ("machine " +:+ quote (fi_ref fi) +:+ ": " +:+ err_text e)
  | inr fm =>
  match ValidateMediaURL (ri_ProvisiondMediaURL r) with
  | Some e => failPending fi (mediaURLText e)
  | None =>
  e ← checkNotALiveClusterMember (fis_Hostname (fi_Spec fi)) (in_Address (fis_Network (fi_Spec fi)));
  match e with
  | Some e => failPending fi e
  | None =>
  e ← checkHostnameNotTaken fi;
  match e with
  | Some e => failPending fi e
  | None =>
  b ← new_bmc (fi_Namespace fi) (tm_BMC fm);
  match b with
  | inl e => failPending fi ("building a BMC client for machine " +:+ tm_Name fm +:+ ": " +:+ e)
  | inr bmc =>
  k ← readSSHKey (fi_Namespace fi) (fis_SSHKeyRef (fi_Spec fi));
  match k with
  | inl e => failPending fi ("reading SSH key " +:+ fis_SSHKeyRef (fi_Spec fi) +:+ ": " +:+ e)
  | inr (sshPub, sshPriv) =>
  let c := fis_Cluster (fi_Spec fi) in
  t ← (if bool_decide (ic_Mode c = clusterModeJoin) then readJoinToken (fi_Namespace fi) (ic_JoinTokenRef c) else mret (inr ""));
  match t with
  | inl e => failPending fi ("reading join token " +:+ ic_JoinTokenRef c +:+ ": " +:+ e)
  | inr joinToken => commit_and_start fi bmc sshPub sshPriv joinToken
  end end end end end end end.

Definition Reconcile (req : NamespacedName) : St W Rec :=
  g ← fi_get req;
  match g with
  | inl e => mret (if err_notfound e then done_ else errored e)
  | inr fi =>
    if fi_Deleting fi then finalize fi
    else if negb (bool_decide (frameInstallFinalizer ∈ fi_Finalizers fi)) then
      u ← fi_update (with_finalizers fi (fin_add (fi_Finalizers fi) frameInstallFinalizer));
      mret (match u with inl e => errored e | inr _ => done_ end)
    else if terminal (fi_phase fi) then mret done_
    else
      busy ← running (fi_ref fi);
      if (busy : bool) then _ ← reportInstallerLiveness fi; mret (requeue (15 * second))
      else if fi_observed fi =? fi_Generation fi then failRestarted fi
      else check_and_start fi
  end.

(** ** BuildRedfishBMC and ClusterNodeChecker *)

(** What NewRedfishBMC is given; [rb_CA] is the bundle of its root pool. *)
Record RedfishTarget := mkRedfishTarget {
  rb_BaseURL : string;
  rb_Username : string;
  rb_Password : string;
  rb_Insecure : bool;
  rb_CA : option string
}.

Definition BuildRedfishBMC (namespace : string) (bmc : BMCSpec) : St W (result string RedfishTarget) :=
  s ← secret_get (namespace, bmc_CredentialsRef bmc);
  match s with
  | inl e => mret (inl (err_text e))
  | inr d =>
    let user := sec_data d "username" in
    let pass := sec_data d "password" in
    if bool_decide (user = "") || bool_decide (pass = "")
    then mret (inl ("secret " +:+ namespace +:+ "/" +:+ bmc_CredentialsRef bmc +:+ " must carry both username and password"))
    else
      let target := mkRedfishTarget ("https://" +:+ bmc_Address bmc) user pass in
      if bmc_InsecureSkipVerify bmc then mret (inr (target true None))
      else if bool_decide (bmc_CABundleRef bmc <> "") then
        cm ← configmap_get (namespace, bmc_CABundleRef bmc);
        mret (match cm with
        | inl e => inl (err_text e)
        | inr d =>
          if append_certs_from_pem (sec_data d "ca.crt") then inr (target false (Some (sec_data d "ca.crt")))
          else inl ("configmap " +:+ namespace +:+ "/" +:+ bmc_CABundleRef bmc +:+ " has no usable ca.crt")
        end)
      else mret (inr (target false None))
  end.

Definition NodeReady (kubeconfig : option string) (name : string) : St W (result string bool) :=
  match kubeconfig with
  | None => n ← node_get name; mret (match n with inl e => inl (err_text e) | inr n => inr (nodeIsReady (cn_Node n)) end)
  | Some k =>
    match rest_config k with
    | Some e => mret (inl ("parsing the new cluster's kubeconfig: " +:+ e))
    | None =>
      match new_clientset k with
      | Some e => mret (inl ("building a client for the new cluster: " +:+ e))
      | None => n ← remote_node_get k name; mret (match n with inl e => inl (err_text e) | inr n => inr (nodeIsReady (cn_Node n)) end)
      end
    end
  end.
End Controller.
