(* ===== verification/InstallControllerLaws.v ===== *)
(** What the FrameInstall reconciler relies on: the API server's rules on UIDs,
    generations, finalizers and merge patches, and what the other actors, users
    and this process's own install goroutines, may change between two of its
    calls ([drift]). A write that failed may or may not have reached the server.
    Of what a read answers nothing is assumed: FrameInstalls and Nodes are read from
    the manager's cache, which may be behind. *)
From stdpp Require Import base tactics strings list gmap relations.
From Stdlib Require Import ZArith Lia Ascii.
From S2P Require Import Prelude GoLib GoTime Kube Cluster Rollout StorageTypes StorageHealth Alerting StorageAlerts GoNet Provision Install InstallRuns BeaconStore InstallController.

Open Scope Z_scope.

(** ** Install, one call at a time

    A relation every call of an install keeps is kept by the install. *)
Inductive machine_call {W} (M : Machine W) : forall A, St W A -> Prop :=
| mc_serial : machine_call M _ bmc_Serial
| mc_insert u : machine_call M _ (bmc_InsertMedia u)
| mc_inserted : machine_call M _ bmc_MediaInserted
| mc_eject : machine_call M _ bmc_EjectMedia
| mc_boot a b : machine_call M _ (bmc_SetBootOnce a b)
| mc_clear : machine_call M _ bmc_ClearBootOverride
| mc_reset k : machine_call M _ (bmc_Reset k)
| mc_build s : machine_call M _ (images_Build s)
| mc_remove t : machine_call M _ (images_Remove t)
| mc_dial a u k x : machine_call M _ (ssh_Dial a u k x)
| mc_run s c : machine_call M _ (sess_Run s c)
| mc_output s c : machine_call M _ (sess_Output s c)
| mc_input s c i : machine_call M _ (sess_RunWithInput s c i)
| mc_read s p : machine_call M _ (sess_ReadFile s p)
| mc_close s : machine_call M _ (sess_Close s)
| mc_node k n : machine_call M _ (nodes_NodeReady k n)
| mc_ctx p : machine_call M _ (ctx_err p)
| mc_select p : machine_call M _ (select_done p).
Arguments machine_call {W} M {A} m.
#[export] Hint Constructors machine_call : frame.

Section Within.
Context {W : Type} {M : Machine W} {PL : ProvisionLibs} (R : relation W) {HR : PreOrder R}.

Definition within {A} (m : St W A) : Prop := forall w, R w (m w).2.
Lemma within_ret {A} (a : A) : within (mret a).
Proof. intros w. reflexivity. Qed.
Lemma within_bind {A B} (m : St W A) (k : A -> St W B) : within m -> (forall a, within (k a)) -> within (m ≫= k).
Proof. intros Hm Hk w. unfold mbind, St_bind. pose proof (Hm w). destruct (m w) as [a w'] eqn:E. simpl in *. etrans; [done|apply Hk]. Qed.
(** For values that carry over a bind. *)
Lemma within_ret_bind {A B} (a : A) (k : A -> St W B) : within (k a) -> within (mret a ≫= k).
Proof. done. Qed.
Lemma within_assoc {A B C} (m : St W A) (k : A -> St W B) (h : B -> St W C) : within (m ≫= (fun a => k a ≫= h)) -> within ((m ≫= k) ≫= h).
Proof. intros H w. specialize (H w). unfold mbind, St_bind in *. by destruct (m w). Qed.

Hypothesis calls : forall A (m : St W A), machine_call M m -> within m.
Hypothesis report_within : forall p, within (d_Report p).
Hypothesis token_within : forall t, within (d_ReportToken t).
Hypothesis before_within : within d_BeforeMediaAttached.

Local Ltac go :=
  repeat first
    [ apply within_bind; [|intros ?] | apply within_ret | apply report_within | apply token_within | apply before_within
    | solve [apply calls; auto with frame] | progress cbv zeta
    | match goal with
      | |- within (match ?x with _ => _ end) => destruct x
      | |- within (if ?x then _ else _) => destruct x
      | |- within (let '(_, _) := ?x in _) => destruct x
      end ].

Lemma wait_within fuel addr user key uid last : within (wait_loop fuel addr user key uid last).
Proof. revert last. induction fuel as [|fuel IH]; intros last; cbn [wait_loop]; go; apply IH. Qed.
Lemma ready_within fuel res k n last : within (ready_loop fuel res k n last).
Proof. revert last. induction fuel as [|fuel IH]; intros last; cbn [ready_loop]; unfold report, fail, report, phaseErr; go; apply IH. Qed.
Lemma Join_within sess t addr : within (Join sess t addr).
Proof. unfold Join, installK3s. go. Qed.
Lemma Install_within fuel s o : within (Install fuel s o).
Proof.
  unfold Install, install_built, join_and_wait, WaitForOurSystem, cleanup, attachMediaAndBoot, fail, report, phaseErr.
  go; try apply wait_within; try apply ready_within; try apply Join_within; go.
Qed.
End Within.

(** JSON merge patch between [base] and [m], applied to what the server has:
    the fields that differ are sent. *)
Definition pick {A} `{EqDecision A} (base m server : A) : A := if decide (base = m) then server else m.
Definition merge_status (base m s : FrameInstallStatus) : FrameInstallStatus :=
  mkFrameInstallStatus
    (pick (is_Phase base) (is_Phase m) (is_Phase s))
    (pick (is_PhaseSince base) (is_PhaseSince m) (is_PhaseSince s))
    (pick (is_FailedPhase base) (is_FailedPhase m) (is_FailedPhase s))
    (pick (is_Message base) (is_Message m) (is_Message s))
    (pick (is_HostKey base) (is_HostKey m) (is_HostKey s))
    (pick (is_NodeName base) (is_NodeName m) (is_NodeName s))
    (pick (is_KubeconfigSecret base) (is_KubeconfigSecret m) (is_KubeconfigSecret s))
    (pick (is_Conditions base) (is_Conditions m) (is_Conditions s))
    (pick (is_ObservedGeneration base) (is_ObservedGeneration m) (is_ObservedGeneration s)).

Abbreviation Installs := (gmap NamespacedName FrameInstall).

Definition protected (fi : FrameInstall) : Prop := frameInstallFinalizer ∈ fi_Finalizers fi.

(** The same object, later: others may edit its spec, which raises the
    generation, and the install running for it reports its phase;
    observedGeneration is the reconciler's own. *)
Record same_object (a b : FrameInstall) : Prop := {
  sm_key : fi_key b = fi_key a;
  sm_uid : fi_UID b = fi_UID a;
  sm_gen : fi_Generation a <= fi_Generation b;
  sm_obs : fi_observed b = fi_observed a;
  sm_spec : fi_Generation b = fi_Generation a -> fi_Spec b = fi_Spec a
}.
Arguments sm_key {_ _}. Arguments sm_uid {_ _}. Arguments sm_gen {_ _}. Arguments sm_obs {_ _}. Arguments sm_spec {_ _}.

Record api_ok (uids : gset string) (m : Installs) : Prop := {
  ao_key : forall k fi, m !! k = Some fi -> fi_key fi = k;
  ao_uid : forall k fi, m !! k = Some fi -> fi_UID fi ∈ uids;
  ao_unique : forall k k' a b, m !! k = Some a -> m !! k' = Some b -> fi_UID a = fi_UID b -> k = k'
}.

(** The state the statements are about. *)
Record View (B : Type) := mkView {
  v_fis : Installs;
  v_uids : gset string;             (* every UID the server ever gave *)
  v_mem : Mem;
  v_jobs : list (Job B);            (* the goroutines alive *)
  v_started : list (string * Z)     (* the installs handed over: UID, committed generation *)
}.
Arguments mkView {B}. Arguments v_fis {B}. Arguments v_uids {B}. Arguments v_mem {B}. Arguments v_jobs {B}. Arguments v_started {B}.

Section Drift.
Context {B : Type}.
Implicit Types v : View B.

Definition refs v : list string := j_Ref <$> v_jobs v.

Definition fresh_object v (k : NamespacedName) (fi : FrameInstall) : Prop :=
  fi_key fi = k /\ fi_UID fi ∉ v_uids v /\ fi_observed fi = 0 /\ 0 < fi_Generation fi.

Record drift v v' : Prop := {
  dr_api : api_ok (v_uids v) (v_fis v) -> api_ok (v_uids v') (v_fis v');
  dr_uids : v_uids v ⊆ v_uids v';
  dr_fis : forall k b, v_fis v' !! k = Some b -> (exists a, v_fis v !! k = Some a /\ same_object a b) \/ fresh_object v k b;
  dr_kept : forall k a, v_fis v !! k = Some a -> protected a -> exists b, v_fis v' !! k = Some b /\ same_object a b /\ protected b;
  dr_started : v_started v' = v_started v;
  dr_jobs : sublist (v_jobs v') (v_jobs v);
  dr_flight : forall ref, inFlight (v_mem v') !! ref = inFlight (v_mem v) !! ref \/
    (inFlight (v_mem v') !! ref = None /\ ref ∈ refs v /\ ref ∉ refs v')
}.

Lemma same_object_refl a : same_object a a.
Proof. by constructor. Qed.
Lemma same_object_trans a b c : same_object a b -> same_object b c -> same_object a c.
Proof. intros [A1 A2 A3 A4 A5] [B1 B2 B3 B4 B5]. constructor; [congruence|congruence|lia|congruence|]. intros Hg. rewrite B5, A5 by lia. done. Qed.

#[export] Instance drift_refl : Reflexive drift.
Proof. intros v. constructor; eauto using same_object_refl. Qed.
#[export] Instance drift_trans : Transitive drift.
Proof.
  intros v v1 v2 H1 H2. constructor.
  - intros H. by apply (dr_api _ _ H2), (dr_api _ _ H1).
  - etrans; [apply (dr_uids _ _ H1)|apply (dr_uids _ _ H2)].
  - intros k c Hc. destruct (dr_fis _ _ H2 k c Hc) as [(b & Hb & Hbc)|(Hk & Hf & Ho & Hg)].
    + destruct (dr_fis _ _ H1 k b Hb) as [(a & Ha & Hab)|(Hk & Hf & Ho & Hg)]; [left; eauto using same_object_trans|].
      right. destruct Hbc as [H3 H4 H5 H6 H7]. split_and!; [congruence|congruence|congruence|lia].
    + right. split_and!; try done. pose proof (dr_uids _ _ H1). set_solver.
  - intros k a Ha Hp. destruct (dr_kept _ _ H1 k a Ha Hp) as (b & Hb & Hab & Hpb).
    destruct (dr_kept _ _ H2 k b Hb Hpb) as (c & Hc & Hbc & Hpc). eauto using same_object_trans.
  - rewrite (dr_started _ _ H2). apply H1.
  - etrans; [apply H2|apply H1].
  - intros ref. pose proof (fun H => elem_of_sublist _ _ ref H (fmap_sublist j_Ref _ _ (dr_jobs _ _ H1))) as S1.
    pose proof (fun H => elem_of_sublist _ _ ref H (fmap_sublist j_Ref _ _ (dr_jobs _ _ H2))) as S2. fold (refs v) (refs v1) (refs v2) in *.
    destruct (dr_flight _ _ H1 ref) as [E1|(E1 & ? & ?)], (dr_flight _ _ H2 ref) as [E2|(E2 & ? & ?)];
      [left; congruence|right; eauto|right; split_and!; [congruence|done|auto]|right; auto].
Qed.
End Drift.

(** What an operation does at the state it reaches. *)
Section Effects.
Context {B : Type}.
Implicit Types v : View B.

Definition store v (m : Installs) : View B := mkView m (v_uids v) (v_mem v) (v_jobs v) (v_started v).
Definition store_mem v (m : Mem) : View B := mkView (v_fis v) (v_uids v) m (v_jobs v) (v_started v).
Definition add_job v (j : Job B) : View B :=
  mkView (v_fis v) (v_uids v) (v_mem v) (v_jobs v ++ [j]) (v_started v ++ [(j_UID j, j_Generation j)]).

(** A status patch that reached the server. *)
Definition patched (base m fi : FrameInstall) v v' : Prop :=
  exists cur, v_fis v !! fi_key base = Some cur /\ fi = with_status cur (merge_status (fi_Status base) (fi_Status m) (fi_Status cur)) /\
    v' = store v (<[fi_key base := fi]> (v_fis v)).

(** An update that reached the server; the resource version makes it one of the
    object that was read. An object being deleted goes with its last finalizer. *)
Definition updated (given : FrameInstall) v v' : Prop :=
  exists cur, v_fis v !! fi_key given = Some cur /\ same_object given cur /\
    (v' = store v (<[fi_key given := with_finalizers cur (fi_Finalizers given)]> (v_fis v)) \/
     fi_Deleting cur = true /\ fi_Finalizers given = [] /\ v' = store v (delete (fi_key given) (v_fis v))).
End Effects.

Class InstallLaws (W : Type) {IA : InstallApi W} := {
  view : W -> View Bmc;
  secrets_of : W -> gmap NamespacedName strmap;
  il_get k w : wp (fi_get k) w (fun _ w' => drift (view w) (view w'));
  il_list w : wp fi_list w (fun _ w' => drift (view w) (view w'));
  il_update fi w : wp (fi_update fi) w (fun a w' => exists v1, drift (view w) v1 /\
    match a with inr _ => updated fi v1 (view w') | inl _ => view w' = v1 \/ updated fi v1 (view w') end);
  il_patch base m w : wp (fi_patch_status base m) w (fun a w' => exists v1, drift (view w) v1 /\
    match a with inr fi => patched base m fi v1 (view w') | inl _ => view w' = v1 \/ exists fi, patched base m fi v1 (view w') end);
  il_locked {A} (f : Mem -> A * Mem) w : wp (locked f) w (fun a w' => exists v1, drift (view w) v1 /\
    a = (f (v_mem v1)).1 /\ view w' = store_mem v1 (f (v_mem v1)).2);
  il_spawn j w : wp (spawn j) w (fun _ w' => exists v1, drift (view w) v1 /\ view w' = add_job v1 j);
  il_machine k w : wp (machine_get k) w (fun _ w' => drift (view w) (view w'));
  il_secret k w : wp (secret_get k) w (fun _ w' => drift (view w) (view w'));
  il_configmap k w : wp (configmap_get k) w (fun _ w' => drift (view w) (view w'));
  il_create sec w : wp (secret_create sec) w (fun a w' => drift (view w) (view w') /\
    (a = None -> secrets_of w' !! (sec_Namespace sec, sec_Name sec) = Some (sec_Data sec)));
  il_nodes w : wp node_list w (fun _ w' => drift (view w) (view w'));
  il_node n w : wp (node_get n) w (fun _ w' => drift (view w) (view w'));
  il_task t w : wp (task_create t) w (fun _ w' => drift (view w) (view w'));
  il_task_status n p t w : wp (task_status n p t) w (fun _ w' => drift (view w) (view w'));
  il_event k e w : wp (fi_event k e) w (fun _ w' => drift (view w) (view w'));
  il_wall w : wp wall w (fun _ w' => drift (view w) (view w'));
  il_rand w : wp rand16 w (fun _ w' => drift (view w) (view w'));
  il_progress t w : wp (progress t) w (fun _ w' => drift (view w) (view w'));
  il_bmc ns s w : wp (new_bmc ns s) w (fun _ w' => drift (view w) (view w'));
  il_hw (b : Bmc) {A} (m : St W A) w : machine_call (hw b) m -> wp m w (fun _ w' => drift (view w) (view w'));
  il_remove cs ty c : c ∈ remove_condition cs ty -> c_Type c <> ty
}.
