(* ===== verification/InstallControllerSafety.v ===== *)
(** The FrameInstall reconciler's safety: in every state it can reach, with
    other actors and its own goroutines interleaved between its calls and
    managers restarting, an install is handed over at most once per UID and
    generation and at most one goroutine drives a machine, for histories whose
    reads meet the conditions the theorems state (the cached reads may be behind,
    and a claim may be edited: the runs that end the file show what happens then);
    a pass hands one over only behind its guards; the goroutines stay inside what the passes rely on.

    The second part is the reconciler on concrete clusters, and the condition it
    derives from the beacons. [fake_api errs tick] is an in-memory cluster: its
    [n]th call fails when [errs n] says so, and [tick] is what another actor
    does just before a call. With nobody else acting it satisfies InstallLaws,
    which the witnesses use; the runs that show a flaw use the others. *)
From stdpp Require Import base tactics strings list gmap relations.
From Stdlib Require Import ZArith Lia Ascii.
From S2P Require Import Prelude GoLib GoTime Kube Cluster Rollout StorageTypes StorageHealth Alerting StorageAlerts GoNet Provision Install InstallRuns BeaconStore InstallController InstallControllerLaws.

Open Scope Z_scope.

(** ** The invariant *)

Record installs_ok {B} (v : View B) : Prop := {
  iok_api : api_ok (v_uids v) (v_fis v);
  iok_observed : forall k fi, v_fis v !! k = Some fi -> fi_observed fi <= fi_Generation fi;
  iok_once : NoDup (v_started v);
  iok_started : forall u g, (u, g) ∈ v_started v -> u ∈ v_uids v /\
    forall k fi, v_fis v !! k = Some fi -> fi_UID fi = u -> g <= fi_observed fi;
  iok_refs : NoDup (refs v);
  iok_claims : forall j, j ∈ v_jobs v -> inFlight (v_mem v) !! j_Ref j = Some (j_UID j)
}.
Arguments iok_api {_ _}. Arguments iok_observed {_ _}. Arguments iok_once {_ _}. Arguments iok_started {_ _}.
Arguments iok_refs {_ _}. Arguments iok_claims {_ _}.

Section Views.
Context {B : Type}.
Implicit Types v : View B.

Lemma drift_refs v v' ref : drift v v' -> ref ∈ refs v' -> ref ∈ refs v.
Proof. intros D H. exact (elem_of_sublist _ _ ref H (fmap_sublist j_Ref _ _ (dr_jobs _ _ D))). Qed.

Lemma installs_ok_drift v v' : installs_ok v -> drift v v' -> installs_ok v'.
Proof.
  intros [H1 H2 H3 H4 H5 H6] D. constructor.
  - by apply (dr_api _ _ D).
  - intros k b Hb. destruct (dr_fis _ _ D k b Hb) as [(a & Ha & S)|(_ & _ & Ho & Hg)]; [|lia].
    specialize (H2 k a Ha). destruct S as [_ _ Hgen Hobs _]. rewrite Hobs. lia.
  - by rewrite (dr_started _ _ D).
  - intros u g. rewrite (dr_started _ _ D). intros Hin. destruct (H4 u g Hin) as [Hu Hle].
    split; [by apply (dr_uids _ _ D)|]. intros k b Hb Eu. destruct (dr_fis _ _ D k b Hb) as [(a & Ha & S)|(_ & Hf & _)]; [|by rewrite Eu in Hf].
    rewrite (sm_obs S). apply (Hle k a Ha). by rewrite <- (sm_uid S).
  - eapply sublist_NoDup; [exact H5|]. exact (fmap_sublist j_Ref _ _ (dr_jobs _ _ D)).
  - intros j Hj. destruct (dr_flight _ _ D (j_Ref j)) as [->|(_ & _ & Hn)].
    + apply H6. exact (elem_of_sublist _ _ _ Hj (dr_jobs _ _ D)).
    + destruct Hn. by apply list_elem_of_fmap_2.
Qed.

(** A patch that leaves observedGeneration alone is one of the changes the
    drift already allows. *)
Lemma with_status_same cur s : is_ObservedGeneration s = fi_observed cur -> same_object cur (with_status cur s).
Proof. intros H. by constructor. Qed.

Lemma store_drift v k cur fi : v_fis v !! k = Some cur -> same_object cur fi -> (protected cur -> protected fi) ->
  drift v (store v (<[k := fi]> (v_fis v))).
Proof.
  intros Hc S P. constructor; simpl; [|done| | |done|done|by left].
  - intros [A1 A2 A3].
    assert (Hlook : forall k' x, <[k := fi]> (v_fis v) !! k' = Some x -> exists y, v_fis v !! k' = Some y /\ fi_UID x = fi_UID y /\ fi_key x = fi_key y).
    { intros k' x [[<- <-]|[_ ?]]%lookup_insert_Some; [|eauto]. exists cur. split; [done|]. destruct S. done. }
    constructor.
    + intros k' x (y & Hy & _ & ->)%Hlook. by apply A1.
    + intros k' x (y & Hy & -> & _)%Hlook. exact (A2 _ _ Hy).
    + intros k1 k2 a b (a' & Ha & -> & _)%Hlook (b' & Hb & -> & _)%Hlook. by apply (A3 _ _ a' b').
  - intros k' x [[<- <-]|[_ ?]]%lookup_insert_Some; left; eauto using same_object_refl.
  - intros k' a Ha Hp. destruct (decide (k' = k)) as [->|Hne].
    + simplify_eq. exists fi. rewrite lookup_insert_eq. auto.
    + exists a. rewrite lookup_insert_ne by done. auto using same_object_refl.
Qed.

Lemma patched_drift base m fi v v' : is_ObservedGeneration (fi_Status m) = is_ObservedGeneration (fi_Status base) ->
  patched base m fi v v' -> drift v v'.
Proof.
  intros Ho (cur & Hc & -> & ->). eapply store_drift; [exact Hc| |done]. apply with_status_same. simpl.
  unfold pick. by rewrite decide_True.
Qed.

Lemma installs_ok_store v k cur fi : installs_ok v -> v_fis v !! k = Some cur -> same_object cur fi -> installs_ok (store v (<[k := fi]> (v_fis v))).
Proof.
  intros H Hc S.
  assert (Hlook : forall k' x, <[k := fi]> (v_fis v) !! k' = Some x ->
    exists y, v_fis v !! k' = Some y /\ fi_UID x = fi_UID y /\ fi_key x = fi_key y /\ fi_observed x = fi_observed y /\ fi_Generation y <= fi_Generation x).
  { intros k' x [[<- <-]|[_ ?]]%lookup_insert_Some; [|exists x; split_and!; [done..|lia]]. exists cur. split; [done|]. destruct S. done. }
  destruct H as [[A1 A2 A3] H2 H3 H4 H5 H6]. constructor; simpl; [constructor| |done| |done|done].
  - intros k' x (y & Hy & _ & -> & _)%Hlook. by apply A1.
  - intros k' x (y & Hy & -> & _)%Hlook. exact (A2 _ _ Hy).
  - intros k1 k2 a b (a' & Ha & -> & _)%Hlook (b' & Hb & -> & _)%Hlook. by apply (A3 _ _ a' b').
  - intros k' x (y & Hy & _ & _ & -> & Hg)%Hlook. specialize (H2 _ _ Hy). lia.
  - intros u g Hin. destruct (H4 u g Hin) as [Hu Hle]. split; [done|]. intros k' x (y & Hy & -> & _ & -> & _)%Hlook. by apply (Hle _ _ Hy).
Qed.

Lemma installs_ok_delete v k : installs_ok v -> installs_ok (store v (delete k (v_fis v))).
Proof.
  intros [[A1 A2 A3] H2 H3 H4 H5 H6].
  assert (Hlook : forall k' x, delete k (v_fis v) !! k' = Some x -> v_fis v !! k' = Some x) by (by intros k' x [_ ?]%lookup_delete_Some).
  constructor; simpl; [constructor| |done| |done|done]; try by eauto.
  intros u g Hin. destruct (H4 u g Hin) as [Hu Hle]. eauto.
Qed.

Lemma installs_ok_updated v v' given : installs_ok v -> updated given v v' -> installs_ok v'.
Proof.
  intros H (cur & Hc & _ & [->|(_ & _ & ->)]); [|by apply installs_ok_delete].
  eapply installs_ok_store; [done|exact Hc|]. by constructor.
Qed.
End Views.

(** ** The operations that stay inside the drift *)

Section Passes.
Context {W : Type} {IA : InstallApi W} {IL : InstallLaws W} {PL : ProvisionLibs}.
Variable r : FrameInstallReconciler.

Definition drifts (w w' : W) : Prop := drift (view w) (view w').
#[local] Instance drifts_preorder : PreOrder drifts.
Proof. split; [intros w; apply drift_refl|intros w1 w2 w3; apply drift_trans]. Qed.

Lemma within_wp {A} (m : St W A) : (forall w, wp m w (fun _ w' => drifts w w')) -> within drifts m.
Proof. intros H w. apply (wp_run m w (fun _ w' => drifts w w') (m w).1 _ (H w)). apply surjective_pairing. Qed.

Lemma wp_elim {A} (m : St W A) w Q : wp m w Q -> Q (m w).1 (m w).2.
Proof. intros H. apply (wp_run m w Q _ _ H), surjective_pairing. Qed.

Lemma get_within k : within drifts (fi_get k).
Proof. apply within_wp. intros w. apply il_get. Qed.
Lemma list_within : within drifts fi_list.
Proof. apply within_wp. intros w. apply il_list. Qed.
Lemma nodes_within : within drifts node_list.
Proof. apply within_wp. intros w. apply il_nodes. Qed.
Lemma node_within n : within drifts (node_get n).
Proof. apply within_wp. intros w. apply il_node. Qed.
Lemma create_within s : within drifts (secret_create s).
Proof. apply within_wp. intros w. eapply wp_mono; [apply il_create|]. by intros a w' [? _]. Qed.
Lemma patch_within base m : is_ObservedGeneration (fi_Status m) = is_ObservedGeneration (fi_Status base) -> within drifts (fi_patch_status base m).
Proof.
  intros Ho. apply within_wp. intros w. eapply wp_mono; [apply il_patch|]. intros [e|fi] w' (v1 & D & E); unfold drifts.
  - destruct E as [->|[fi E]]; [done|]. etrans; [exact D|]. by eapply patched_drift.
  - etrans; [exact D|]. by eapply patched_drift.
Qed.
(** A critical section that leaves the claims alone. *)
Lemma locked_within {A} (f : Mem -> A * Mem) : (forall m, inFlight (f m).2 = inFlight m) -> within drifts (locked f).
Proof.
  intros Hf. apply within_wp. intros w. eapply wp_mono; [apply il_locked|]. intros a w' (v1 & D & _ & E). unfold drifts. etrans; [exact D|].
  rewrite E. constructor; simpl; [done|done| |by eauto using same_object_refl|done|done|intros ref; left; by rewrite Hf].
  intros k b Hb. left. eauto using same_object_refl.
Qed.

Ltac drift_step :=
  repeat first
    [ apply (within_bind drifts); [|intros ?] | apply (within_ret drifts) | apply get_within | apply list_within | apply nodes_within | apply node_within
    | apply create_within | (apply patch_within; reflexivity) | (apply locked_within; intros ?; reflexivity)
    | solve [apply within_wp; intros ?; first [apply il_machine|apply il_secret|apply il_configmap|apply il_task|apply il_task_status|apply il_event
             |apply il_wall|apply il_rand|apply il_progress|apply il_bmc]]
    | solve [apply within_wp; intros ?; eapply il_hw; constructor]
    | progress cbv zeta
    | match goal with
      | |- within _ (match ?x with _ => _ end) => destruct x
      | |- within _ (if ?x then _ else _) => destruct x
      | |- within _ (let '(_, _) := ?x in _) => destruct x
      end ].

Lemma recordTask_within fi verb action : within drifts (recordTask fi verb action).
Proof. unfold recordTask. drift_step. Qed.
Lemma setCondition_within fi c : within drifts (setCondition fi c).
Proof. unfold setCondition. drift_step. Qed.
Lemma reportPhase_within k p : within drifts (reportPhase k p).
Proof. unfold reportPhase. drift_step. Qed.
Lemma liveness_within fi : within drifts (reportInstallerLiveness r fi).
Proof. unfold reportInstallerLiveness, tokenFor, everSeenBeacon, markSeenBeacon. drift_step; apply setCondition_within. Qed.
Lemma failPending_within fi msg : within drifts (failPending fi msg).
Proof. unfold failPending. drift_step; apply recordTask_within. Qed.
Lemma eject_within b : within drifts (eject_and_clear b).
Proof. unfold eject_and_clear. drift_step. Qed.
Lemma failRestarted_within fi : within drifts (failRestarted fi).
Proof. unfold failRestarted, getMachine. drift_step; try apply eject_within; try apply recordTask_within. Qed.
Lemma running_within ref : within drifts (running ref).
Proof. unfold running. drift_step. Qed.
Lemma finishStatus_within k ref res err : within drifts (finishStatus r k ref res err).
Proof.
  unfold finishStatus, writeKubeconfigSecret. apply (within_bind drifts); [apply get_within|]. intros [e|fi]; [apply (within_ret drifts)|].
  apply (within_bind drifts); [drift_step|]. intros now. cbv zeta.
  assert (Hend : forall st, is_ObservedGeneration st = fi_observed fi -> within drifts (
    p ← fi_patch_status fi (with_status fi st);
    match p with
    | inl _ => mret tt
    | inr fi =>
      _ ← fi_event (fi_key fi)
            (if bool_decide (fi_phase fi = PhaseReady) then mkEvent EventTypeNormal "InstallReady" "installation reached Ready"
             else mkEvent EventTypeWarning "InstallFailed" (is_Message (fi_Status fi)));
      recordTask fi TaskVerbUpdate
        ("install " +:+ fis_Hostname (fi_Spec fi) +:+ " on machine " +:+ ref +:+ " reached " +:+ fi_phase fi)
    end)).
  { intros st Ho. apply (within_bind drifts); [by apply patch_within|]. intros [e|fi']; [apply (within_ret drifts)|].
    apply (within_bind drifts); [drift_step|]. intros _. apply recordTask_within. }
  destruct (to_save fi res) as [kc|]; [|by apply within_ret_bind, Hend].
  apply within_assoc. apply (within_bind drifts); [apply create_within|]. intros [e|]; by apply within_ret_bind, Hend.
Qed.
Lemma rememberToken_within uid t : within drifts (rememberToken uid t).
Proof. unfold rememberToken. drift_step. Qed.

(** ** The claim of a machine *)

(** The object of UID [uid] is stored under [k] with observedGeneration [o], and
    its machine is claimed for it while no goroutine drives it. *)
Record claimed (v : View Bmc) (k : NamespacedName) (uid ref : string) (g o : Z) : Prop := {
  cl_ok : installs_ok v;
  cl_cur : exists cur, v_fis v !! k = Some cur /\ fi_UID cur = uid /\ (fi_Generation cur = g -> fi_ref cur = ref) /\ protected cur /\
             fi_observed cur = o /\ g <= fi_Generation cur;
  cl_flight : inFlight (v_mem v) !! ref = Some uid;
  cl_free : ref ∉ refs v
}.

Lemma claimed_drift v v' k uid ref g o : claimed v k uid ref g o -> drift v v' -> claimed v' k uid ref g o.
Proof.
  intros [H1 (cur & Hc & Hu & Hr & Hp & Ho & Hg) H3 H4] D. constructor.
  - by eapply installs_ok_drift.
  - destruct (dr_kept _ _ D k cur Hc Hp) as (b & Hb & S & Hpb). exists b. destruct S as [S1 S2 S3 S4 S5].
    split_and!; [done|congruence| |done|congruence|lia]. intros Hb'. unfold fi_ref. rewrite S5 by lia. apply Hr. lia.
  - destruct (dr_flight _ _ D ref) as [->|(_ & Hin & _)]; done.
  - intros Hin. by apply H4, (drift_refs _ _ _ D).
Qed.

Lemma store_mem_id {B} (v : View B) : store_mem v (v_mem v) = v.
Proof. by destruct v. Qed.

Lemma installs_ok_mem {B} (v : View B) m : installs_ok v ->
  (forall j, j ∈ v_jobs v -> inFlight m !! j_Ref j = inFlight (v_mem v) !! j_Ref j) -> installs_ok (store_mem v m).
Proof. intros [H1 H2 H3 H4 H5 H6] Hm. constructor; simpl; [done..|]. intros j Hj. rewrite Hm by done. by apply H6. Qed.

(** Taking a free claim: no goroutine drives the machine then. *)
Lemma claim_free {B} (v : View B) ref : installs_ok v -> inFlight (v_mem v) !! ref = None -> ref ∉ refs v.
Proof.
  intros H Hn (j & -> & Hj)%list_elem_of_fmap. rewrite (iok_claims H j Hj) in Hn. done.
Qed.
Lemma claim_ok (v : View Bmc) k fi cur : installs_ok v -> v_fis v !! k = Some cur -> same_object fi cur -> protected cur ->
  inFlight (v_mem v) !! fi_ref fi = None ->
  claimed (store_mem v (mkMem (<[fi_ref fi := fi_UID fi]> (inFlight (v_mem v))) (tokens (v_mem v)) (seenBeacon (v_mem v))))
    k (fi_UID fi) (fi_ref fi) (fi_Generation fi) (fi_observed fi).
Proof.
  intros H Hc S Hp Hn. pose proof (claim_free v _ H Hn) as Hfree. constructor; simpl; [|exists cur; destruct S as [S1 S2 S3 S4 S5]; split_and!; try done; intros Hg; unfold fi_ref; by rewrite S5|by rewrite lookup_insert_eq|done].
  apply installs_ok_mem; [done|]. intros j Hj. simpl. rewrite lookup_insert_ne; [done|]. intros E. apply Hfree.
  rewrite E. by apply list_elem_of_fmap_2.
Qed.
Lemma unclaim_ok v k uid ref uid' g o : claimed v k uid ref g o ->
  installs_ok (store_mem v (mkMem (delete ref (inFlight (v_mem v))) (delete uid' (tokens (v_mem v))) (seenBeacon (v_mem v) ∖ {[uid']}))).
Proof.
  intros [H _ _ Hfree]. apply installs_ok_mem; [done|]. intros j Hj. simpl. rewrite lookup_delete_ne; [done|]. intros E. apply Hfree.
  rewrite E. by apply list_elem_of_fmap_2.
Qed.

(** The commit: observedGeneration moves to a generation no install of this
    object was handed over for. *)
Lemma started_below v k uid ref g o g' : claimed v k uid ref g o -> (uid, g') ∈ v_started v -> g' <= o.
Proof. intros [H (cur & Hc & Hu & _ & _ & Ho & _) _ _] Hin. rewrite <- Ho. by apply (proj2 (iok_started H _ _ Hin) k cur). Qed.

Lemma commit_claimed v v' fi fi' o : o < fi_Generation fi -> fi_observed fi = o ->
  claimed v (fi_key fi) (fi_UID fi) (fi_ref fi) (fi_Generation fi) o ->
  patched fi (with_status fi (put_observed (fi_Status fi) (fi_Generation fi))) fi' v v' ->
  claimed v' (fi_key fi) (fi_UID fi) (fi_ref fi) (fi_Generation fi) (fi_Generation fi) /\ (fi_UID fi, fi_Generation fi) ∉ v_started v' /\
  v_fis v' !! fi_key fi = Some fi' /\ fi_UID fi' = fi_UID fi /\ fi_key fi' = fi_key fi.
Proof.
  intros Hlt Hobs C (cur & Hc & -> & ->). pose proof (started_below _ _ _ _ _ _ (fi_Generation fi) C) as Hbelow.
  destruct C as [H (cur' & Hc' & Hu & Hr & Hp & Ho & Hg) Hf Hfree]. rewrite Hc in Hc'. injection Hc' as <-.
  assert (Hnew : fi_observed (with_status cur (merge_status (fi_Status fi) (put_observed (fi_Status fi) (fi_Generation fi)) (fi_Status cur))) = fi_Generation fi).
  { unfold fi_observed. simpl. unfold pick. rewrite decide_False; [done|]. fold (fi_observed fi). lia. }
  set (new := with_status cur _) in *.
  split; [|split; [|split_and!; [apply lookup_insert_eq|done|exact (ao_key _ _ (iok_api H) _ _ Hc)]]].
  2: { simpl. intros Hin. specialize (Hbelow Hin). lia. }
  constructor; [|exists new; split_and!; [apply lookup_insert_eq|done..]|done|done].
  assert (Hlook : forall k' x, <[fi_key fi := new]> (v_fis v) !! k' = Some x ->
    exists y, v_fis v !! k' = Some y /\ fi_UID x = fi_UID y /\ fi_key x = fi_key y /\ fi_observed y <= fi_observed x /\ fi_observed x <= fi_Generation x).
  { intros k' x [[<- <-]|[_ Hx]]%lookup_insert_Some.
    - exists cur. split_and!; [done|done|done|lia|rewrite Hnew; exact Hg].
    - exists x. split_and!; [done..|lia|by apply (iok_observed H _ _ Hx)]. }
  destruct H as [[A1 A2 A3] H2 H3 H4 H5 H6]. constructor; simpl; [constructor| |done| |done|done].
  - intros k' x (y & Hy & _ & -> & _)%Hlook. by apply A1.
  - intros k' x (y & Hy & -> & _)%Hlook. exact (A2 _ _ Hy).
  - intros k1 k2 a b (a' & Ha & -> & _)%Hlook (b' & Hb & -> & _)%Hlook. by apply (A3 _ _ a' b').
  - intros k' x (y & _ & _ & _ & _ & Hle)%Hlook. done.
  - intros u g Hin. destruct (H4 u g Hin) as [Hin' Hle]. split; [done|]. intros k' x (y & Hy & -> & _ & Hmono & _)%Hlook Eu.
    specialize (Hle _ _ Hy Eu). lia.
Qed.

Lemma spawn_ok v (j : Job Bmc) : claimed v (j_Key j) (j_UID j) (j_Ref j) (j_Generation j) (j_Generation j) ->
  (j_UID j, j_Generation j) ∉ v_started v -> installs_ok (add_job v j).
Proof.
  intros [[H1 H2 H3 H4 H5 H6] (cur & Hc & Hu & Hr & Hp & Ho & Hg) Hf Hfree] Hnew. constructor; simpl; [done|done| | | |].
  - apply NoDup_app. split; [done|]. split; [|apply NoDup_singleton]. by intros x Hx ->%list_elem_of_singleton.
  - intros u g [Hin|[= -> ->]%list_elem_of_singleton]%elem_of_app; [by apply H4|]. split.
    { rewrite <- Hu. by apply (ao_uid _ _ H1 (j_Key j)). }
    intros k fi Hk Eu. assert (k = j_Key j) as -> by (apply (ao_unique _ _ H1 _ _ fi cur); congruence). simplify_eq. lia.
  - unfold refs. simpl. rewrite fmap_app. apply NoDup_app. split; [done|]. split; [|apply NoDup_singleton].
    intros x Hx ->%list_elem_of_singleton. done.
  - intros x [Hx| ->%list_elem_of_singleton]%elem_of_app; [by apply H6|done].
Qed.

Lemma within_elim {A} (m : St W A) w Q : within drifts m -> (forall a w', m w = (a, w') -> drift (view w) (view w') -> Q a w') -> wp m w Q.
Proof. intros Hm HQ. apply wp_intro. apply HQ; [apply surjective_pairing|apply Hm]. Qed.

Lemma finishInstall_ok v k ref uid uid' g o w : view w = v -> claimed v k uid ref g o ->
  wp (finishInstall ref uid') w (fun _ w' => installs_ok (view w')).
Proof.
  intros <- C. unfold finishInstall. eapply wp_mono; [apply il_locked|]. intros a w' (v1 & D & _ & ->).
  pose proof (claimed_drift _ _ _ _ _ _ _ C D) as C1. by eapply unclaim_ok.
Qed.

(** After the commit reached the server: the UID, the record, the goroutine. *)
Definition the_start (fi : FrameInstall) (g : Z) (b : Bmc) (pub priv tok : string) : St W Rec :=
  u ← newInstallUID;
  match u with
  | inl e => _ ← finishInstall (fi_ref fi) (fi_UID fi); failPending fi ("generating an install UID: " +:+ e)
  | inr installUID =>
    _ ← recordTask fi TaskVerbCreate ("install " +:+ fis_Hostname (fi_Spec fi) +:+ " on machine " +:+ fi_ref fi);
    _ ← spawn (mkJob (fi_ref fi) (fi_UID fi) (fi_key fi) b (toProvisionSpec fi installUID pub tok) (options r fi priv) g);
    mret (requeue (15 * second))
  end.

Lemma start_ok fi g w (b : Bmc) pub priv tok : claimed (view w) (fi_key fi) (fi_UID fi) (fi_ref fi) g g -> (fi_UID fi, g) ∉ v_started (view w) ->
  wp (the_start fi g b pub priv tok) w (fun _ w' => installs_ok (view w')).
Proof.
  intros C Hnew. unfold the_start. apply wp_bind. apply within_elim; [unfold newInstallUID; drift_step|]. intros [e|iuid] w2 _ D2.
  - apply wp_bind. eapply wp_mono; [eapply finishInstall_ok; [done|]; by eapply claimed_drift|]. cbv beta.
    intros _ w3 H3. apply within_elim; [apply failPending_within|]. intros _ w4 _ D4. by eapply installs_ok_drift.
  - apply wp_bind. apply within_elim; [apply recordTask_within|]. intros _ w3 _ D3. apply wp_bind.
    eapply wp_mono; [apply il_spawn|]. intros _ w4 (v & D4 & E4). apply wp_ret. rewrite E4.
    assert (D : drift (view w) v) by (etrans; [exact D2|]; etrans; [exact D3|exact D4]).
    apply spawn_ok; simpl; [by eapply claimed_drift|]. by rewrite (dr_started _ _ D).
Qed.

(** The object has moved past a generation: its spec was edited. *)
Definition ahead (k : NamespacedName) (uid : string) (g : Z) (v : View Bmc) : Prop :=
  exists cur, v_fis v !! k = Some cur /\ fi_UID cur = uid /\ protected cur /\ g < fi_Generation cur.
Lemma ahead_drift k uid g v v' : ahead k uid g v -> drift v v' -> ahead k uid g v'.
Proof.
  intros (cur & Hc & Hu & Hp & Hg) D. destruct (dr_kept _ _ D k cur Hc Hp) as (b & Hb & [S1 S2 S3 S4 S5] & Hpb). exists b. split_and!; [done|congruence|done|lia].
Qed.
Lemma starting_ahead k uid g fi g' w (b : Bmc) pub priv tok : ahead k uid g (view w) ->
  wp (the_start fi g' b pub priv tok) w (fun _ w' => ahead k uid g (view w')).
Proof.
  intros H. unfold the_start. apply wp_bind. apply within_elim; [unfold newInstallUID; drift_step|]. intros [e|iuid] w2 _ D2.
  - apply wp_bind. unfold finishInstall. eapply wp_mono; [apply il_locked|]. intros _ w3 (v & D3 & _ & E3). apply within_elim; [apply failPending_within|].
    intros _ w4 _ D4. eapply ahead_drift; [|exact D4]. rewrite E3. eapply (ahead_drift _ _ _ _ v); [|exact D3]. by eapply ahead_drift.
  - apply wp_bind. apply within_elim; [apply recordTask_within|]. intros _ w3 _ D3. apply wp_bind.
    eapply wp_mono; [apply il_spawn|]. intros _ w4 (v & D4 & E4). apply wp_ret. rewrite E4.
    assert (D : drift (view w) v) by (etrans; [exact D2|]; etrans; [exact D3|exact D4]). by eapply (ahead_drift _ _ _ _ v).
Qed.

(** The object a pass read is the stored one, as far as its spec and its
    observedGeneration go. *)
Definition current (fi : FrameInstall) (v : View Bmc) : Prop :=
  exists cur, v_fis v !! fi_key fi = Some cur /\ same_object fi cur /\ protected cur.
Lemma current_drift fi v v' : current fi v -> drift v v' -> current fi v'.
Proof.
  intros (cur & Hc & S & Hp) D. destruct (dr_kept _ _ D _ _ Hc Hp) as (b & Hb & S' & Hpb). exists b. eauto using same_object_trans.
Qed.
(** Its spec is still the one that was read. *)
Definition unedited (fi : FrameInstall) (v : View Bmc) : Prop :=
  forall cur, v_fis v !! fi_key fi = Some cur -> fi_UID cur = fi_UID fi -> fi_Generation cur = fi_Generation fi.
Lemma ahead_edited fi v : ahead (fi_key fi) (fi_UID fi) (fi_Generation fi) v -> ~ unedited fi v.
Proof. intros (cur & Hc & Hu & _ & Hg) H. specialize (H cur Hc Hu). lia. Qed.

Lemma commit_and_start_ok fi b pub priv tok w : installs_ok (view w) -> current fi (view w) -> fi_observed fi < fi_Generation fi ->
  wp (commit_and_start r fi b pub priv tok) w (fun _ w' => unedited fi (view w') -> installs_ok (view w')).
Proof.
  intros H Hcur Hlt. unfold commit_and_start. cbv zeta. apply wp_bind. unfold startInstall. eapply wp_mono; [apply il_locked|].
  intros won w1 (v1 & D1 & Ewon & E1). pose proof (installs_ok_drift _ _ H D1) as H1. destruct (current_drift _ _ _ Hcur D1) as (cur & Hc & S & Hp).
  case_bool_decide as Htaken; simpl in *; subst won; simpl.
  { apply wp_ret. by rewrite E1, store_mem_id. }
  apply eq_None_not_Some in Htaken. pose proof (claim_ok v1 _ fi cur H1 Hc S Hp Htaken) as C. rewrite <- E1 in C.
  apply wp_bind. eapply wp_mono; [apply il_patch|]. intros [e|fi'] w2 (v2 & D2 & E2); pose proof (claimed_drift _ _ _ _ _ _ _ C D2) as C2.
  - apply wp_bind. assert (exists o, claimed (view w2) (fi_key fi) (fi_UID fi) (fi_ref fi) (fi_Generation fi) o) as (o & C3).
    { destruct E2 as [->|[fi' E2]]; [by exists (fi_observed fi)|]. exists (fi_Generation fi). by eapply commit_claimed. }
    eapply wp_mono; [by eapply finishInstall_ok|]. cbv beta. intros _ w3 H3. by apply wp_ret.
  - destruct (commit_claimed _ _ _ _ _ Hlt eq_refl C2 E2) as (C3 & Hnew & Hfi & Eu & Ek).
    destruct (cl_cur _ _ _ _ _ _ C3) as (cur' & Hc' & _ & Hr & Hp' & _ & Hg). rewrite Hfi in Hc'. injection Hc' as <-.
    destruct (decide (fi_Generation fi' = fi_Generation fi)) as [Eg|Eg].
    + eapply wp_mono; [apply (start_ok fi' (fi_Generation fi)); rewrite Eu, ?Ek, ?(Hr Eg); done|]. by intros.
    + eapply wp_mono; [apply (starting_ahead (fi_key fi) (fi_UID fi) (fi_Generation fi) fi' (fi_Generation fi)); exists fi'; split_and!; [done..|lia]|].
      cbv beta. intros _ w' Ha Hun. by apply ahead_edited in Ha.
Qed.

Lemma failed_keeps fi msg w : installs_ok (view w) -> wp (failPending fi msg) w (fun _ w' => unedited fi (view w') -> installs_ok (view w')).
Proof. intros H. apply within_elim; [apply failPending_within|]. intros _ w' _ D _. by eapply installs_ok_drift. Qed.

Lemma check_and_start_ok fi w : installs_ok (view w) -> current fi (view w) -> fi_observed fi < fi_Generation fi ->
  wp (check_and_start r fi) w (fun _ w' => unedited fi (view w') -> installs_ok (view w')).
Proof.
  intros H Hcur Hlt. unfold check_and_start.
  assert (Hd : forall w', drifts w w' -> installs_ok (view w') /\ current fi (view w')) by (intros w' D; split; [by eapply installs_ok_drift|by eapply current_drift]).
  apply wp_bind. apply within_elim; [unfold getMachine; drift_step|]. intros [e|tm] w1 _ D1; destruct (Hd w1 D1); [by apply failed_keeps|].
  destruct (ValidateMediaURL _); [by apply failed_keeps|].
  apply wp_bind. apply within_elim; [unfold checkNotALiveClusterMember; drift_step|]. intros [e|] w2 _ D2; (assert (D02 : drifts w w2) by (etrans; [exact D1|exact D2])); destruct (Hd w2 D02); [by apply failed_keeps|].
  apply wp_bind. apply within_elim; [unfold checkHostnameNotTaken; drift_step|]. intros [e|] w3 _ D3; (assert (D03 : drifts w w3) by (etrans; [exact D02|exact D3])); destruct (Hd w3 D03); [by apply failed_keeps|].
  apply wp_bind. apply within_elim; [drift_step|]. intros [e|b] w4 _ D4; (assert (D04 : drifts w w4) by (etrans; [exact D03|exact D4])); destruct (Hd w4 D04); [by apply failed_keeps|].
  apply wp_bind. apply within_elim; [unfold readSSHKey; drift_step|]. intros [e|[pub priv]] w5 _ D5; (assert (D05 : drifts w w5) by (etrans; [exact D04|exact D5])); destruct (Hd w5 D05); [by apply failed_keeps|].
  cbv zeta. apply wp_bind. apply within_elim; [unfold readJoinToken; drift_step|]. intros [e|tok] w6 _ D6; (assert (D06 : drifts w w6) by (etrans; [exact D05|exact D6])); destruct (Hd w6 D06); [by apply failed_keeps|].
  by apply commit_and_start_ok.
Qed.

Lemma finalize_ok fi w : installs_ok (view w) -> wp (finalize fi) w (fun _ w' => installs_ok (view w')).
Proof.
  intros H. unfold finalize, getMachine. case_bool_decide; simpl; [|by apply wp_ret].
  apply wp_bind. apply within_elim; [apply running_within|]. intros [] w1 _ D1; [apply wp_ret; by eapply installs_ok_drift|].
  apply wp_bind. apply within_elim; [drift_step|]. intros fm w2 _ D2. apply wp_bind. apply within_elim; [drift_step; apply eject_within|].
  intros stuck w3 _ D3. assert (D03 : drifts w w3) by (etrans; [exact D1|etrans; [exact D2|exact D3]]).
  destruct stuck as [e|]; [apply wp_ret; by eapply installs_ok_drift|]. apply wp_bind. eapply wp_mono; [apply il_update|]. intros u w4 (v & D4 & E4).
  apply wp_ret. assert (D : drift (view w) v) by (etrans; [exact D03|exact D4]). pose proof (installs_ok_drift _ _ H D) as Hv.
  assert (E : view w4 = v \/ updated (with_finalizers fi (fin_remove (fi_Finalizers fi) frameInstallFinalizer)) v (view w4)) by (destruct u; tauto).
  destruct E as [->|E]; [done|by eapply installs_ok_updated].
Qed.

(** ** A whole pass *)

(** Two things a pass of the manager relies on, and nothing guarantees: the copy of
    the object it reads from its cache is of the stored object, with the spec and
    the observedGeneration that are stored; and nobody edits the spec between
    that read and the end of the pass. The phase, the message and the
    conditions it reads may be old. *)
Definition reads_current (k : NamespacedName) (w : W) : Prop :=
  forall fi, (fi_get k w).1 = inr fi -> fi_key fi = k /\
    exists cur, v_fis (view (fi_get k w).2) !! k = Some cur /\ same_object fi cur /\ fi_Generation cur = fi_Generation fi /\ (protected fi -> protected cur).
Definition spec_kept (k : NamespacedName) (w : W) : Prop :=
  forall fi, (fi_get k w).1 = inr fi -> unedited fi (view (Reconcile r k w).2).

Lemma Reconcile_ok k w : installs_ok (view w) -> reads_current k w -> spec_kept k w -> installs_ok (view (Reconcile r k w).2).
Proof.
  intros H Hcur Hkept.
  assert (wp (Reconcile r k) w (fun _ w' => (forall fi, (fi_get k w).1 = inr fi -> unedited fi (view w')) -> installs_ok (view w'))) as Hwp; [|by apply (wp_elim _ _ _ Hwp)].
  clear Hkept. unfold Reconcile. apply wp_bind. apply within_elim; [apply get_within|]. intros [e|fi] w1 Eg D1; [apply wp_ret; intros _; by eapply installs_ok_drift|].
  unfold reads_current in Hcur. rewrite Eg in *. cbn [fst snd] in *. destruct (Hcur fi eq_refl) as (Ek & cur & Hc & S & Eg' & Hpp).
  pose proof (installs_ok_drift _ _ H D1) as H1. destruct (fi_Deleting fi).
  { eapply wp_mono; [by apply finalize_ok|]. cbv beta. by intros _ w2 H2. }
  case_bool_decide as Hp; simpl.
  2: { apply wp_bind. eapply wp_mono; [apply il_update|]. intros u w2 (v & D2 & E2). apply wp_ret. intros _.
    pose proof (installs_ok_drift _ _ H1 D2) as Hv.
    assert (E : view w2 = v \/ updated (with_finalizers fi (fin_add (fi_Finalizers fi) frameInstallFinalizer)) v (view w2)) by (destruct u; tauto).
    destruct E as [->|E]; [done|by eapply installs_ok_updated]. }
  destruct (terminal (fi_phase fi)); [by apply wp_ret|].
  apply wp_bind. apply within_elim; [apply running_within|]. intros [] w2 _ D2; pose proof (installs_ok_drift _ _ H1 D2) as H2.
  { apply wp_bind. apply within_elim; [apply liveness_within|]. intros _ w3 _ D3. apply wp_ret. intros _. by eapply installs_ok_drift. }
  destruct (Z.eqb_spec (fi_observed fi) (fi_Generation fi)) as [Ho|Ho].
  { apply within_elim; [apply failRestarted_within|]. intros _ w3 _ D3 _. by eapply installs_ok_drift. }
  pose proof (iok_observed H1 _ _ Hc). pose proof (sm_obs S).
  eapply wp_mono; [apply (check_and_start_ok fi); [done| |lia]|]; [|cbv beta; intros _ w' Hw Hun; by apply Hw, Hun].
  eapply current_drift; [|exact D2]. exists cur. rewrite Ek. auto.
Qed.

Lemma update_started fi w : wp (fi_update fi) w (fun _ w' => v_started (view w') = v_started (view w)).
Proof.
  eapply wp_mono; [apply il_update|]. intros u w' (v & D & E). assert (view w' = v \/ updated fi v (view w')) as [->|(cur & _ & _ & [->|(_ & _ & ->)])] by (destruct u; tauto);
    apply (dr_started _ _ D).
Qed.
Lemma finalize_started fi w : v_started (view (finalize fi w).2) = v_started (view w).
Proof.
  apply (wp_elim (finalize fi) w (fun _ w' => v_started (view w') = v_started (view w))).
  unfold finalize, getMachine. case_bool_decide; simpl; [|by apply wp_ret].
  apply wp_bind. apply within_elim; [apply running_within|]. intros [] w1 _ D1; [apply wp_ret; apply (dr_started _ _ D1)|].
  apply wp_bind. apply within_elim; [drift_step|]. intros fm w2 _ D2. apply wp_bind. apply within_elim; [drift_step; apply eject_within|].
  intros stuck w3 _ D3. assert (D03 : drifts w w3) by (etrans; [exact D1|etrans; [exact D2|exact D3]]).
  destruct stuck as [e|]; [apply wp_ret; apply (dr_started _ _ D03)|]. apply wp_bind. eapply wp_mono; [apply update_started|]. cbv beta.
  intros u w4 S4. apply wp_ret. by rewrite S4, (dr_started _ _ D03).
Qed.

(** ** Runs of the system *)

(** A pass over some object, anything the other actors and the goroutines do,
    or a manager that restarts and forgets what it held in memory. *)
Inductive sys_step (w w' : W) : Prop :=
| step_pass k : w' = (Reconcile r k w).2 -> reads_current k w -> spec_kept k w -> sys_step w w'
| step_env : drifts w w' -> sys_step w w'
| step_restart : view w' = mkView (v_fis (view w)) (v_uids (view w)) (mkMem ∅ ∅ ∅) [] (v_started (view w)) -> sys_step w w'.

Lemma sys_steps_ok w w' : installs_ok (view w) -> rtc sys_step w w' -> installs_ok (view w').
Proof.
  intros H Hrun. revert H. induction Hrun as [w|w w1 w2 Hs _ IH]; [done|]. intros H. apply IH. clear IH.
  destruct Hs as [k -> Hc Hk|D|E].
  - by apply Reconcile_ok.
  - by eapply installs_ok_drift.
  - rewrite E. destruct H as [H1 H2 H3 H4 _ _]. constructor; simpl; [done..|apply NoDup_nil_2|by intros j ?%elem_of_nil].
Qed.

(** C1. In every run of passes, goroutines, other actors and manager restarts in
    which each pass reads the stored spec and observedGeneration of its object and
    no pass has that spec edited under it, an install is handed over at most once per object and
    generation: a resync or a restart does not replay a destructive operation.
    [stale_read_replays] is a run without the first condition. *)
Theorem install_started_once w w' : installs_ok (view w) -> rtc sys_step w w' -> NoDup (v_started (view w')).
Proof. intros H Hrun. exact (iok_once (sys_steps_ok w w' H Hrun)). Qed.

(** C31. In every such run no two goroutines drive the same machine, and the
    machine of each is claimed for the object it runs for. [edited_ref_leaks_claim] is a run
    without the second condition. *)
Theorem one_install_per_machine w w' : installs_ok (view w) -> rtc sys_step w w' ->
  NoDup (refs (view w')) /\ forall j, j ∈ v_jobs (view w') -> inFlight (v_mem (view w')) !! j_Ref j = Some (j_UID j).
Proof. intros H Hrun. pose proof (sys_steps_ok w w' H Hrun) as H'. split; [exact (iok_refs H')|exact (iok_claims H')]. Qed.

(** ** The guards *)

(** A node whose first Ready condition is True. *)
Definition ready_node (n : Node) : Prop :=
  exists pre post, node_conditions n = (pre ++ ("Ready", "True") :: post)%list /\ Forall (fun c => c.1 <> "Ready") pre.
Lemma ready_node_iff n : ready_node n -> nodeIsReady n = true.
Proof.
  unfold nodeIsReady. intros (pre & post & -> & Hp). induction Hp as [|[ty st] pre Hc _ IH]; [done|]. cbn in *. by rewrite bool_decide_false.
Qed.
(** An address without its prefix length. *)
Definition host_part (s a : string) : Prop := slash ∉ to_bytes a /\ (s = a \/ exists p, s = a +:+ "/" +:+ p).
Lemma cut_at_before c l rest : c ∉ l -> cut_at c (l ++ c :: rest) = (l, Some rest) /\ cut_at c l = (l, None).
Proof.
  induction l as [|x l IH]; intros Hn; [cbn; by rewrite Ascii.eqb_refl|]. apply not_elem_of_cons in Hn as [Hx Hn]. destruct (IH Hn) as [E1 E2].
  cbn. destruct (Ascii.eqb_spec x c) as [->|_]; [done|]. by rewrite E1, E2.
Qed.
Lemma host_part_cut s a : host_part s a -> addressWithoutCIDR s = a.
Proof.
  unfold addressWithoutCIDR. intros [Hn [->|[p ->]]].
  - by rewrite (proj2 (cut_at_before slash _ [] Hn)).
  - rewrite !to_bytes_app. change (to_bytes "/") with [slash]. cbn [app]. rewrite (proj1 (cut_at_before slash _ (to_bytes p) Hn)). apply of_to_bytes.
Qed.
Definition ended_phase (p : string) : Prop := p = "Ready" \/ p = "Failed".
Lemma terminal_iff p : terminal p = true <-> ended_phase p.
Proof. unfold terminal, ended_phase. rewrite orb_true_iff, !bool_decide_eq_true. done. Qed.

Lemma live_member_none hostname address l : live_member hostname address l = None ->
  forall n, n ∈ l -> ready_node (cn_Node n) -> node_name (cn_Node n) <> hostname /\ address ∉ cn_Addresses n.
Proof.
  induction l as [|x l IH]; [by intros _ n ?%elem_of_nil|]. simpl. intros Hl n [->|Hin]%elem_of_cons Hr.
  - rewrite (ready_node_iff _ Hr) in Hl. simpl in Hl. repeat case_bool_decide; done.
  - destruct (nodeIsReady (cn_Node x)); simpl in Hl; [repeat case_bool_decide; try done|]; by apply IH.
Qed.
Lemma hostname_claimed_none fi l : hostname_claimed fi l = None ->
  forall o, o ∈ l -> fi_UID o <> fi_UID fi -> fis_Hostname (fi_Spec o) = fis_Hostname (fi_Spec fi) -> ended_phase (fi_phase o).
Proof.
  induction l as [|x l IH]; [by intros _ n ?%elem_of_nil|]. simpl. intros Hl o [->|Hin]%elem_of_cons Hu Hh.
  - rewrite !bool_decide_false in Hl by (try congruence; auto). simpl in Hl. apply terminal_iff. by destruct (terminal (fi_phase x)).
  - destruct (_ || _); [by apply IH|]. destruct (terminal _); [by apply IH|done].
Qed.

(** A media URL that a BMC could fetch from: set, http or https, with a host outside the reserved .invalid. *)
Definition usable_media (raw : string) : Prop :=
  trim_space raw <> "" /\ exists u, url_parse raw = inr u /\ (u_Scheme u = "http" \/ u_Scheme u = "https") /\ u_Host u <> "" /\
    let host := map ascii_lower (to_bytes (u_Hostname u)) in host <> to_bytes "invalid" /\ forall pre, host <> (pre ++ to_bytes ".invalid")%list.
Lemma media_usable raw : ValidateMediaURL raw = None -> usable_media raw.
Proof.
  unfold ValidateMediaURL, ValidateMediaURLSyntax, usable_media. case_bool_decide as Hs; [done|]. destruct (url_parse raw) as [e|u]; [done|].
  destruct (bool_decide (u_Scheme u <> "http") && bool_decide (u_Scheme u <> "https")) eqn:Es; [done|].
  destruct (bool_decide (u_Host u = "")) eqn:Hh; [done|]. apply bool_decide_eq_false in Hh. cbv zeta.
  destruct (_ || _) eqn:Ei; [done|]. intros _. apply orb_false_iff in Ei as [Ei1%bool_decide_eq_false Ei2]. split; [done|]. exists u. split; [done|].
  apply andb_false_iff in Es. rewrite !bool_decide_eq_false in Es. split; [destruct (decide (u_Scheme u = "http")); [by left|right; apply dec_stable; tauto]|].
  split; [done|]. split; [done|]. intros pre Hpre. unfold has_suffix in Ei2. apply bool_decide_eq_false in Ei2. apply Ei2. rewrite Hpre, rev_app_distr.
  generalize (rev (to_bytes ".invalid")) as suf. intros suf. induction suf as [|c suf IH]; [by eexists|]. cbn. by rewrite Ascii.eqb_refl.
Qed.

(** What the pass was answered before it handed an install over for the object [fi] it had read. *)
Record guards (w : W) (fi : FrameInstall) (b : Bmc) (pub priv : string) : Prop := {
  gd_media : usable_media (ri_ProvisiondMediaURL r);
  gd_live : exists w1 l, drifts w w1 /\ (node_list w1).1 = inr l /\ forall n a, n ∈ l -> ready_node (cn_Node n) ->
    host_part (in_Address (fis_Network (fi_Spec fi))) a -> node_name (cn_Node n) <> fis_Hostname (fi_Spec fi) /\ a ∉ cn_Addresses n;
  gd_node : exists w1 e, drifts w w1 /\ (node_get (fis_Hostname (fi_Spec fi)) w1).1 = inl e /\ err_notfound e = true;
  gd_host : exists w1 l, drifts w w1 /\ (fi_list w1).1 = inr l /\ forall o, o ∈ l -> fi_UID o <> fi_UID fi ->
    fis_Hostname (fi_Spec o) = fis_Hostname (fi_Spec fi) -> ended_phase (fi_phase o);
  gd_bmc : exists w1 w2 tm, drifts w w1 /\ (machine_get (fi_Namespace fi, fi_ref fi) w1).1 = inr tm /\ drifts w1 w2 /\
    (new_bmc (fi_Namespace fi) (tm_BMC tm) w2).1 = inr b;
  gd_key : exists w1 d, drifts w w1 /\ (secret_get (fi_Namespace fi, fis_SSHKeyRef (fi_Spec fi)) w1).1 = inr d /\
    sec_data d "id.pub" <> "" /\ priv = sec_data d "id" /\ priv <> "" /\ pub = trim_space (sec_data d "id.pub")
}.

(** The goroutine of an object: its machine, its identity and its spec. *)
Definition job_of (fi : FrameInstall) (b : Bmc) (pub priv : string) (g : Z) (j : Job Bmc) : Prop :=
  let s := fi_Spec fi in
  j_Ref j = fis_MachineRef s /\ j_UID j = fi_UID fi /\ j_Key j = (fi_Namespace fi, fi_Name fi) /\ j_Bmc j = b /\ j_Generation j = g /\
  sp_Hostname (j_Spec j) = fis_Hostname s /\ net_Address (sp_Network (j_Spec j)) = in_Address (fis_Network s) /\
  net_Gateway (sp_Network (j_Spec j)) = in_Gateway (fis_Network s) /\ net_DNS (sp_Network (j_Spec j)) = in_DNS (fis_Network s) /\
  lay_Kind (sp_Layout (j_Spec j)) = il_Kind (fis_Layout s) /\
  map (fun d => (dk_ByID d, dk_SizeBytes d)) (lay_Disks (sp_Layout (j_Spec j))) = map (fun d => (id_ByID d, id_SizeBytes d)) (il_Disks (fis_Layout s)) /\
  sp_SSHPublicKey (j_Spec j) = pub /\ ct_Mode (sp_Cluster (j_Spec j)) = ic_Mode (fis_Cluster s) /\
  o_BootMode (j_Opts j) = fis_BootMode s /\ o_SSHKey (j_Opts j) = priv /\ o_ConfirmSerial (j_Opts j) = fis_ConfirmSerial s /\
  forall a, host_part (in_Address (fis_Network s)) a -> o_NodeAddress (j_Opts j) = a.

(** What a pass that hands an install over leaves: one more entry, for the object the
    commit was answered with, on the machine that was free when it was claimed. *)
Definition handed_over (fi : FrameInstall) (b : Bmc) (pub priv : string) (w w' : W) : Prop :=
  (exists v1, drift (view w) v1 /\ inFlight (v_mem v1) !! fi_ref fi = None) /\
  exists w1 fi' j, (fi_patch_status fi (with_status fi (put_observed (fi_Status fi) (fi_Generation fi))) w1).1 = inr fi' /\
    job_of fi' b pub priv (fi_Generation fi) j /\
    v_started (view w') = (v_started (view w) ++ [(fi_UID fi', fi_Generation fi)])%list /\ last (v_jobs (view w')) = Some j.

Lemma locked_started {A} (f : Mem -> A * Mem) w : wp (locked f) w (fun _ w' => v_started (view w') = v_started (view w)).
Proof. eapply wp_mono; [apply il_locked|]. intros a w' (v1 & D & _ & ->). apply (dr_started _ _ D). Qed.
Lemma patch_started base m w : wp (fi_patch_status base m) w (fun _ w' => v_started (view w') = v_started (view w)).
Proof.
  eapply wp_mono; [apply il_patch|]. intros [e|fi] w' (v1 & D & E).
  - destruct E as [->|[fi (cur & _ & _ & ->)]]; apply (dr_started _ _ D).
  - destruct E as (cur & _ & _ & ->). apply (dr_started _ _ D).
Qed.
Lemma starting_started fi g (b : Bmc) pub priv tok w : wp (the_start fi g b pub priv tok) w (fun _ w' => v_started (view w') = v_started (view w) \/
  exists j, job_of fi b pub priv g j /\ v_started (view w') = (v_started (view w) ++ [(fi_UID fi, g)])%list /\ last (v_jobs (view w')) = Some j).
Proof.
  unfold the_start. apply wp_bind. apply within_elim; [unfold newInstallUID; drift_step|]. intros [e|iuid] w2 _ D2.
  - apply wp_bind. unfold finishInstall. eapply wp_mono; [apply locked_started|]. cbv beta. intros _ w3 H3. apply within_elim; [apply failPending_within|].
    intros _ w4 _ D4. left. rewrite (dr_started _ _ D4), H3. apply (dr_started _ _ D2).
  - apply wp_bind. apply within_elim; [apply recordTask_within|]. intros _ w3 _ D3. apply wp_bind.
    eapply wp_mono; [apply il_spawn|]. intros _ w4 (v & D4 & E4). apply wp_ret. rewrite E4.
    assert (D : drift (view w) v) by (etrans; [exact D2|]; etrans; [exact D3|exact D4]). right.
    exists (mkJob (fi_ref fi) (fi_UID fi) (fi_key fi) b (toProvisionSpec fi iuid pub tok) (options r fi priv) g).
    split; [|simpl; split; [by rewrite (dr_started _ _ D)|apply last_snoc]]. unfold job_of. cbv zeta. cbn. split_and!; try done; [by rewrite map_map|].
    by intros a ->%host_part_cut.
Qed.
Lemma commit_and_start_started fi b pub priv tok w : wp (commit_and_start r fi b pub priv tok) w (fun _ w' =>
  v_started (view w') = v_started (view w) \/ handed_over fi b pub priv w w').
Proof.
  unfold commit_and_start. cbv zeta. apply wp_bind. unfold startInstall. eapply wp_mono; [apply il_locked|].
  intros won w1 (v1 & D1 & Ewon & E1). assert (S1 : v_started (view w1) = v_started (view w)) by (rewrite E1; apply (dr_started _ _ D1)).
  case_bool_decide as Htaken; simpl in *; subst won; simpl; [apply wp_ret; by left|]. apply eq_None_not_Some in Htaken.
  apply wp_bind, wp_intro. pose proof (wp_elim _ _ _ (patch_started fi (with_status fi (put_observed (fi_Status fi) (fi_Generation fi))) w1)) as S2.
  destruct (fi_patch_status fi _ w1) as [[e|fi'] w2] eqn:Ep; cbn [fst snd] in *.
  - apply wp_bind. unfold finishInstall. eapply wp_mono; [apply locked_started|]. cbv beta. intros _ w3 S3. apply wp_ret. left. congruence.
  - eapply wp_mono; [apply (starting_started fi' (fi_Generation fi))|]. cbv beta. intros _ w' [S3|(j & Hj & S3 & Hl)]; [left; congruence|right].
    split; [by exists v1|]. exists w1, fi', j. rewrite Ep. split_and!; [done|done|congruence|done].
Qed.

Lemma guards_from w w1 fi b pub priv : drifts w w1 -> guards w1 fi b pub priv -> guards w fi b pub priv.
Proof.
  intros D [G1 (x1 & l1 & ? & ?) (x2 & e2 & ? & ?) (x3 & l3 & ? & ?) (x4 & x5 & tm & ? & ? & ? & ?) (x6 & d & ? & ?)].
  assert (T : forall x, drifts w1 x -> drifts w x) by (intros x; by transitivity w1).
  constructor; [done|exists x1, l1|exists x2, e2|exists x3, l3|exists x4, x5, tm|exists x6, d]; auto 10.
Qed.
Lemma handed_over_from fi b pub priv w w1 w' : drifts w w1 -> handed_over fi b pub priv w1 w' -> handed_over fi b pub priv w w'.
Proof.
  intros D ((v1 & D1 & H1) & w2 & fi' & j & H2 & H3 & H4 & H5). split; [exists v1; split; [etrans; [exact D|exact D1]|done]|].
  exists w2, fi', j. split_and!; [done|done| |done]. rewrite H4. f_equal. apply (dr_started _ _ D).
Qed.

Definition pass_post (fi : FrameInstall) (w w' : W) : Prop :=
  v_started (view w') = v_started (view w) \/ exists b pub priv, guards w fi b pub priv /\ handed_over fi b pub priv w w'.
Lemma fail_post fi w w1 msg : drifts w w1 -> wp (failPending fi msg) w1 (fun _ w' => pass_post fi w w').
Proof. intros D. apply within_elim; [apply failPending_within|]. intros _ w' _ D'. left. rewrite (dr_started _ _ D'). apply (dr_started _ _ D). Qed.

Lemma check_live_ok fi w Q : (forall e w', drifts w w' ->
    (e = None -> exists l, (node_list w).1 = inr l /\ forall n a, n ∈ l -> ready_node (cn_Node n) ->
      host_part (in_Address (fis_Network (fi_Spec fi))) a -> node_name (cn_Node n) <> fis_Hostname (fi_Spec fi) /\ a ∉ cn_Addresses n) -> Q e w') ->
  wp (checkNotALiveClusterMember (fis_Hostname (fi_Spec fi)) (in_Address (fis_Network (fi_Spec fi)))) w Q.
Proof.
  intros HQ. unfold checkNotALiveClusterMember. apply wp_bind. apply within_elim; [apply nodes_within|]. intros [e|l] w1 E D; apply wp_ret; (apply HQ; [done|]); [done|].
  intros Hn. exists l. rewrite E. split; [done|]. intros n a Hin Hr <-%host_part_cut. by eapply live_member_none.
Qed.
Lemma check_host_ok fi w Q : (forall e w', drifts w w' ->
    (e = None -> (exists e', (node_get (fis_Hostname (fi_Spec fi)) w).1 = inl e' /\ err_notfound e' = true) /\
      exists w1 l, drifts w w1 /\ (fi_list w1).1 = inr l /\ forall o, o ∈ l -> fi_UID o <> fi_UID fi ->
        fis_Hostname (fi_Spec o) = fis_Hostname (fi_Spec fi) -> ended_phase (fi_phase o)) -> Q e w') ->
  wp (checkHostnameNotTaken fi) w Q.
Proof.
  intros HQ. unfold checkHostnameNotTaken. cbv zeta. apply wp_bind. apply within_elim; [apply node_within|]. intros [e|n] w1 E1 D1.
  2: { apply wp_ret. by apply HQ. }
  destruct (err_notfound e) eqn:Ee; simpl; [|apply wp_ret; by apply HQ].
  apply wp_bind. apply within_elim; [apply list_within|]. intros l w2 E2 D2. apply wp_ret. apply HQ; [etrans; [exact D1|exact D2]|].
  destruct l as [e'|l]; [done|]. intros Hc. rewrite E1. split; [by exists e|]. exists w1, l. rewrite E2. split_and!; [done|done|]. by apply hostname_claimed_none.
Qed.
Lemma read_key_ok ns name w Q : (forall a w', drifts w w' -> (forall pub priv, a = inr (pub, priv) -> exists d, (secret_get (ns, name) w).1 = inr d /\
    sec_data d "id.pub" <> "" /\ priv = sec_data d "id" /\ priv <> "" /\ pub = trim_space (sec_data d "id.pub")) -> Q a w') ->
  wp (readSSHKey ns name) w Q.
Proof.
  intros HQ. unfold readSSHKey. apply wp_bind. apply within_elim; [drift_step|]. intros [e|d] w' E D; apply wp_ret; apply HQ; [done|done|done|].
  intros pub priv. rewrite E. repeat case_bool_decide; try done. intros [= <- <-]. exists d. by split_and!.
Qed.

Lemma check_and_start_guarded fi w : wp (check_and_start r fi) w (fun _ w' => pass_post fi w w').
Proof.
  unfold check_and_start, getMachine. apply wp_bind. apply within_elim; [drift_step|]. intros [e|tm] w1 E1 D1; [by apply fail_post|].
  destruct (ValidateMediaURL (ri_ProvisiondMediaURL r)) as [e|] eqn:Emedia; [by apply fail_post|].
  apply wp_bind. apply check_live_ok. intros [e|] w2 D2 Hlive; (assert (D02 : drifts w w2) by (etrans; [exact D1|exact D2])); [by apply fail_post|].
  apply wp_bind. apply check_host_ok. intros [e|] w3 D3 Hhost; (assert (D03 : drifts w w3) by (etrans; [exact D02|exact D3])); [by apply fail_post|].
  apply wp_bind. apply within_elim; [drift_step|]. intros [e|b] w4 E4 D4; (assert (D04 : drifts w w4) by (etrans; [exact D03|exact D4])); [by apply fail_post|].
  apply wp_bind. apply read_key_ok. intros [e|[pub priv]] w5 D5 Hkey; (assert (D05 : drifts w w5) by (etrans; [exact D04|exact D5])); [by apply fail_post|].
  cbv zeta. apply wp_bind. apply within_elim; [unfold readJoinToken; drift_step|]. intros [e|tok] w6 _ D6; (assert (D06 : drifts w w6) by (etrans; [exact D05|exact D6])); [by apply fail_post|].
  eapply wp_mono; [apply commit_and_start_started|]. cbv beta. intros _ w' [Hs|Hs]; [left; by rewrite Hs, (dr_started _ _ D06)|right].
  exists b, pub, priv. split; [|by eapply handed_over_from].
  destruct (Hlive eq_refl) as (l1 & Hl1), (Hhost eq_refl) as [(e2 & He2) (x3 & l3 & X3 & Hl3)]. constructor.
  - by apply media_usable.
  - exists w1, l1. by split.
  - exists w2, e2. by split.
  - exists x3, l3. split; [etrans; [exact D02|exact X3]|done].
  - exists w, w3, tm. split; [reflexivity|]. rewrite E1, E4. by split_and!.
  - destruct (Hkey pub priv eq_refl) as (d & Hd). exists w4, d. split; [exact D04|exact Hd].
Qed.

Definition start_post (k : NamespacedName) (w w' : W) : Prop :=
  v_started (view w') = v_started (view w) \/
  exists fi b pub priv, (fi_get k w).1 = inr fi /\ fi_Deleting fi = false /\ protected fi /\ ~ ended_phase (fi_phase fi) /\
    fi_observed fi <> fi_Generation fi /\ guards w fi b pub priv /\ handed_over fi b pub priv w w'.

(** C11. A pass that hands an install over does so for an object it was given as alive,
    under the finalizer, not ended and not committed at its generation, after it
    found the machine of that object claimed by nobody in this process, with a media URL a BMC could fetch
    from, after it was answered a node list with no Ready node of that name or address,
    that there is no node of that name, and a list with no unfinished install of that hostname, with a BMC
    built for the machine and both halves of the SSH key; and what it hands over
    is the machine, the spec and the confirmed serial of the object its
    commit was answered with. *)
Theorem start_is_guarded k w : start_post k w (Reconcile r k w).2.
Proof.
  apply (wp_elim (Reconcile r k) w (fun _ w' => start_post k w w')). assert (Hd : forall w', drifts w w' -> start_post k w w') by (intros w' D; left; apply (dr_started _ _ D)).
  unfold Reconcile. apply wp_bind. apply within_elim; [apply get_within|]. intros [e|fi] w1 Eg D1; [apply wp_ret; by apply Hd|]. destruct (fi_Deleting fi) eqn:Edel.
  { apply wp_intro. left. rewrite <- (dr_started _ _ D1). apply finalize_started. }
  case_bool_decide as Hp; simpl.
  2: { apply wp_bind. eapply wp_mono; [apply update_started|]. cbv beta. intros u w2 S2. apply wp_ret. left. by rewrite S2, (dr_started _ _ D1). }
  destruct (terminal (fi_phase fi)) eqn:Et; [apply wp_ret; by apply Hd|].
  apply wp_bind. apply within_elim; [apply running_within|]. intros [] w2 _ D2; (assert (D02 : drifts w w2) by (etrans; [exact D1|exact D2])).
  { apply wp_bind. apply within_elim; [apply liveness_within|]. intros _ w3 _ D3. apply wp_ret. apply Hd. etrans; [exact D02|exact D3]. }
  destruct (Z.eqb_spec (fi_observed fi) (fi_Generation fi)) as [Ho|Ho].
  { apply within_elim; [apply failRestarted_within|]. intros _ w3 _ D3. apply Hd. etrans; [exact D02|exact D3]. }
  eapply wp_mono; [apply (check_and_start_guarded fi)|]. cbv beta. intros _ w' [Hs|(b & pub & priv & G & HO)]; [left; by rewrite Hs, (dr_started _ _ D02)|right].
  exists fi, b, pub, priv. rewrite Eg. split_and!; [done..| |done|by eapply guards_from|by eapply handed_over_from]. intros Hend%terminal_iff. congruence.
Qed.

(** ** The goroutine *)

Definition end_job (v : View Bmc) (j : Job Bmc) : View Bmc :=
  mkView (v_fis v) (v_uids v) (v_mem v) (filter (fun x => j_Ref x <> j_Ref j) (v_jobs v)) (v_started v).

Lemma drift_end_job v v1 (j : Job Bmc) m : drift v v1 -> j ∈ v_jobs v -> inFlight m = delete (j_Ref j) (inFlight (v_mem v1)) ->
  drift v (end_job (store_mem v1 m) j).
Proof.
  intros [D1 D2 D3 D4 D5 D6 D7] Hj Hm.
  assert (Hrefs : forall ref, ref ∈ refs (end_job (store_mem v1 m) j) -> ref ∈ refs v1 /\ ref <> j_Ref j).
  { intros ref (x & -> & [Hx Hin]%list_elem_of_filter)%list_elem_of_fmap. split; [by apply list_elem_of_fmap_2|done]. }
  constructor; simpl; [done..| |].
  - etrans; [apply sublist_filter|exact D6].
  - intros ref. rewrite Hm. destruct (decide (ref = j_Ref j)) as [->|Hne].
    + right. rewrite lookup_delete_eq. split_and!; [done|by apply list_elem_of_fmap_2|by intros [_ ?]%Hrefs].
    + rewrite lookup_delete_ne by done. destruct (D7 ref) as [E|(E & Hin & Hout)]; [by left|right]. split_and!; [done|done|by intros [? _]%Hrefs].
Qed.

Lemma deps_within fuel j : within drifts (@Install W (deps (j_Key j) (j_UID j) (j_Bmc j)) PL fuel (j_Spec j) (j_Opts j)).
Proof.
  apply (@Install_within W (deps (j_Key j) (j_UID j) (j_Bmc j)) PL drifts _).
  - intros A m Hm. apply within_wp. intros w. apply (il_hw (j_Bmc j)). destruct Hm; unfold deps; cbn; constructor.
  - intros p. apply reportPhase_within.
  - intros t. apply rememberToken_within.
  - apply (within_ret drifts).
Qed.

(** The goroutine keeps to what the passes rely on: whatever its install
    does, the whole of runInstall, phase reports, token, result and release of
    the machine, is one of the changes allowed between two calls of a pass. In
    particular it never moves an observedGeneration and frees no machine but
    its own. *)
Theorem goroutine_within_rely fuel j w v' :
  j ∈ v_jobs (view w) -> (runInstall r fuel j w).1 = true -> v' = end_job (view (runInstall r fuel j w).2) j -> drift (view w) v'.
Proof.
  intros Hj. unfold runInstall. rewrite St_bind_run. pose proof (deps_within fuel j w) as D1.
  destruct (Install fuel (j_Spec j) (j_Opts j) w) as [[[res err]|] w1]; [|done]. cbn [fst snd] in *. intros _ ->.
  rewrite St_bind_run. pose proof (finishStatus_within (j_Key j) (j_Ref j) res err w1) as D2.
  destruct (finishStatus r (j_Key j) (j_Ref j) res err w1) as [[] w2]. cbn [fst snd] in *. rewrite St_bind_run. cbn [snd mret St_ret].
  assert (D : drift (view w) (view w2)) by (etrans; [exact D1|exact D2]).
  destruct (wp_elim _ _ _ (il_locked (fun m => (tt, mkMem (delete (j_Ref j) (inFlight m)) (delete (j_UID j) (tokens m)) (seenBeacon m ∖ {[j_UID j]}))) w2)) as (v1 & D3 & _ & E3).
  unfold finishInstall. cbn [mret St_ret snd]. rewrite E3. apply drift_end_job; [etrans; [exact D|exact D3]|done|done].
Qed.

(** ** The ends of an install *)

(** A status write of the phase Failed over an object read not terminal. *)
Definition made_failed (k : NamespacedName) (w w' : W) : Prop :=
  exists w1 cur, drifts w w1 /\ drifts w1 w' /\ v_fis (view w1) !! k = Some cur /\ fi_phase cur = PhaseFailed.

Lemma patched_failed base m fi (v v' : View Bmc) : fi_phase base <> PhaseFailed -> fi_phase m = PhaseFailed -> patched base m fi v v' ->
  v_fis v' !! fi_key base = Some fi /\ fi_phase fi = PhaseFailed.
Proof.
  intros Hb Hm (cur & Hc & -> & ->). split; [apply lookup_insert_eq|]. unfold fi_phase in *. simpl. unfold pick. rewrite decide_False; [done|congruence].
Qed.

Lemma failRestarted_ok fi w : fi_phase fi <> PhaseFailed -> wp (failRestarted fi) w (fun out w' =>
  drifts w w' /\ (out.2 = None -> made_failed (fi_key fi) w w')).
Proof.
  intros Hne. unfold failRestarted, getMachine. cbv zeta. apply wp_bind. apply within_elim; [drift_step|]. intros fm w1 _ D1.
  apply wp_bind. apply within_elim; [drift_step; apply eject_within|]. intros msg w2 _ D2. apply wp_bind. apply within_elim; [drift_step|]. intros now w3 _ D3.
  assert (D03 : drifts w w3) by (etrans; [exact D1|etrans; [exact D2|exact D3]]).
  apply wp_bind. eapply wp_mono; [apply il_patch|]. intros [e|fi'] w4 (v & D4 & E4).
  - apply wp_ret. split; [|done]. etrans; [exact D03|]. unfold drifts. destruct E4 as [->|[fi' E4]]; [done|]. etrans; [exact D4|]. (eapply patched_drift; [|exact E4]; reflexivity).
  - assert (D34 : drifts w3 w4) by (unfold drifts; etrans; [exact D4|]; (eapply patched_drift; [|exact E4]; reflexivity)).
    apply wp_bind. apply within_elim; [drift_step|]. intros _ w5 _ D5. apply wp_bind. apply within_elim; [apply recordTask_within|].
    intros _ w6 _ D6. apply wp_ret. assert (D46 : drifts w4 w6) by (etrans; [exact D5|exact D6]).
    split; [etrans; [exact D03|etrans; [exact D34|exact D46]]|]. intros _.
    edestruct patched_failed as [Hk Hf]; [exact Hne| |exact E4|]; [reflexivity|]. exists w4, fi'. split_and!; [etrans; [exact D03|exact D34]|done..].
Qed.

(** A manager restart mid-install ends the install and resumes nothing: a
    pass that finds an object committed at its generation, not terminal and with
    no goroutine hands nothing over, and unless a write fails, the stored object
    says Failed. *)
Theorem restart_ends_failed k w fi :
  (fi_get k w).1 = inr fi -> fi_key fi = k -> fi_Deleting fi = false -> frameInstallFinalizer ∈ fi_Finalizers fi ->
  terminal (fi_phase fi) = false -> fi_observed fi = fi_Generation fi -> (running (fi_ref fi) (fi_get k w).2).1 = false ->
  let '(out, w') := Reconcile r k w in
  v_started (view w') = v_started (view w) /\ (out.2 = None -> made_failed k w w').
Proof.
  intros Hget Hk Hdel Hp Ht Ho Hrun. unfold Reconcile. rewrite St_bind_run, Hget, Hdel. rewrite bool_decide_true by done. simpl.
  rewrite Ht, St_bind_run, Hrun. rewrite Ho, Z.eqb_refl. pose proof (get_within k w) as D1. pose proof (running_within (fi_ref fi) (fi_get k w).2) as D2.
  set (w2 := (running (fi_ref fi) (fi_get k w).2).2) in *. assert (D02 : drifts w w2) by (etrans; [exact D1|exact D2]).
  assert (Hne : fi_phase fi <> PhaseFailed) by (intros E; unfold terminal in Ht; rewrite E in Ht; done).
  destruct (wp_elim _ _ _ (failRestarted_ok fi w2 Hne)) as [D3 Hf]. destruct (failRestarted fi w2) as [out w']. cbn [fst snd] in *.
  split; [rewrite (dr_started _ _ D3); apply (dr_started _ _ D02)|]. intros Hout. destruct (Hf Hout) as (w3 & cur & Ha & Hb & Hc & Hd).
  exists w3, cur. rewrite <- Hk. split_and!; [etrans; [exact D02|exact Ha]|done..].
Qed.

(** A kubeconfig that exists is saved or the object says so: when
    finishStatus could read the object of an init install, the Secret holds the
    kubeconfig, or the stored object says Failed, or the copy that was read said
    so already, or the status write itself was refused. *)
Theorem kubeconfig_saved_or_failed key ref res err w fi kc :
  (fi_get key w).1 = inr fi -> fi_key fi = key -> to_save fi res = Some kc ->
  (exists w1, drifts w w1 /\ secrets_of w1 !! (secret_namespace r fi, fi_Name fi +:+ "-kubeconfig") = Some {["kubeconfig" := kc]}) \/
  (exists w1 cur, drifts w w1 /\ v_fis (view w1) !! key = Some cur /\ fi_phase cur = PhaseFailed) \/ fi_phase fi = PhaseFailed \/
  (exists w1 base m e, drifts w w1 /\ (fi_patch_status base m w1).1 = inl e /\ (finishStatus r key ref res err w).2 = (fi_patch_status base m w1).2).
Proof.
  intros Hget Hk Hsave. unfold finishStatus. rewrite St_bind_run, Hget, St_bind_run, Hsave. cbv zeta.
  pose proof (get_within key w) as D1. set (w1 := (fi_get key w).2) in *.
  pose proof (within_wp wall il_wall w1) as D2. set (w2 := (wall w1).2) in *. assert (D02 : drifts w w2) by (etrans; [exact D1|exact D2]).
  unfold writeKubeconfigSecret. set (sec := mkSecret _ _ _ _). destruct (wp_elim _ _ _ (il_create sec w2)) as [D3 Hs].
  destruct (secret_create sec w2) as [[e|] w3] eqn:Ec; cbn [fst snd] in *; (assert (D03 : drifts w w3) by (etrans; [exact D02|exact D3])).
  2: { left. exists w3. split; [done|]. by apply Hs. }
  right. destruct (decide (fi_phase fi = PhaseFailed)) as [Hf|Hf]; [right; by left|].
  rewrite !St_bind_run, Ec. cbn [fst snd mret St_ret]. set (m := with_status fi _).
  destruct (wp_elim _ _ _ (il_patch fi m w3)) as (v & D4 & E4). destruct (fi_patch_status fi m w3) as [[e'|fi'] w4] eqn:Ep; cbn [fst snd] in *.
  - right. right. exists w3, fi, m, e'. rewrite Ep. by split_and!.
  - left. edestruct patched_failed as [Hk4 Hf4]; [exact Hf| |exact E4|]; [reflexivity|]. exists w4, fi'. rewrite <- Hk. split_and!; [|done..].
    etrans; [exact D03|]. unfold drifts. etrans; [exact D4|]. (eapply patched_drift; [|exact E4]; reflexivity).
Qed.

(** Deletion waits for the machine: finalize touches the finalizer only when,
    at moments of that call, no install ran on the machine, and either the
    machine or its BMC could not be reached or ejecting the media and clearing
    the boot override both succeeded. Otherwise the object stays protected. *)
Theorem deletion_waits_for_cleanup fi w :
  drifts w (finalize fi w).2 \/
  exists w1, drifts w w1 /\ (running (fi_ref fi) w1).1 = false /\
    exists w2, drifts w1 w2 /\
      ((exists e, (machine_get (fi_Namespace fi, fi_ref fi) w2).1 = inl e) \/
       exists tm w3, (machine_get (fi_Namespace fi, fi_ref fi) w2).1 = inr tm /\ drifts w2 w3 /\
         ((exists e, (new_bmc (fi_Namespace fi) (tm_BMC tm) w3).1 = inl e) \/
          exists b w4, (new_bmc (fi_Namespace fi) (tm_BMC tm) w3).1 = inr b /\ drifts w3 w4 /\ (eject_and_clear b w4).1 = (None, None))).
Proof.
  unfold finalize, getMachine. case_bool_decide; simpl; [|left; reflexivity]. rewrite St_bind_run.
  pose proof (running_within (fi_ref fi) w) as D1. destruct (running (fi_ref fi) w) as [[] w1] eqn:E1; cbn [fst snd] in *; [by left|].
  rewrite St_bind_run. pose proof (within_wp _ (il_machine (fi_Namespace fi, fi_ref fi)) w1) as D2.
  assert (Hw : exists w1, drifts w w1 /\ (running (fi_ref fi) w1).1 = false) by (exists w; rewrite E1; by split).
  destruct (machine_get (fi_Namespace fi, fi_ref fi) w1) as [[e|tm] w2] eqn:E2; cbn [fst snd] in *.
  { right. exists w. rewrite E1. split_and!; [done|done|]. exists w1. rewrite E2. split; [done|]. eauto. }
  rewrite !St_bind_run. pose proof (within_wp _ (il_bmc (fi_Namespace fi) (tm_BMC tm)) w2) as D3.
  destruct (new_bmc (fi_Namespace fi) (tm_BMC tm) w2) as [[e|b] w3] eqn:E3; cbn [fst snd] in *.
  { right. exists w. rewrite E1. split_and!; [done|done|]. exists w1. rewrite E2. split; [done|]. right. exists tm, w2. rewrite E3. split_and!; eauto. }
  rewrite !St_bind_run. pose proof (eject_within b w3) as D4. destruct (eject_and_clear b w3) as [[e1 e2] w4] eqn:E4; cbn [fst snd mret St_ret] in *.
  destruct e1 as [e1|], e2 as [e2|]; simpl; try (left; etrans; [exact D1|etrans; [exact D2|etrans; [exact D3|exact D4]]]).
  right. exists w. rewrite E1. split_and!; [done|done|]. exists w1. rewrite E2. split; [done|]. right. exists tm, w2. rewrite E3.
  split_and!; [done|done|]. right. exists b, w3. rewrite E4. by split_and!.
Qed.
End Passes.

(** ** InstallerResponding *)

(** InstallerResponding is True exactly when provisiond answered, knows the
    installation, its installer did not report failure and its last beacon is at
    most 60 seconds old. *)
Theorem responding_true_iff st known ever err now :
  c_Status (installerRespondingCondition st known ever err now) = "True" <->
  err = None /\ known = true /\ LastCheckpoint st <> CheckpointFailed /\ sub now (LastSeen st) <= beaconLostAfter.
Proof.
  unfold installerRespondingCondition. destruct err as [e|]; [split; [done|by intros [? _]]|].
  destruct known; simpl; [|destruct ever; split; simpl; try done; by intros (_ & ? & _)].
  case_bool_decide as Hf; simpl; [split; [done|tauto]|].
  destruct (Z.ltb_spec beaconLostAfter (sub now (LastSeen st))); simpl; [|by split].
  case_bool_decide; simpl; (split; [done|intros (_ & _ & _ & ?); lia]).
Qed.

(** The store and the condition together: whatever beacons arrived, in
    whatever order, once the entry provisiond holds has seen `failed` the
    condition is False with the reason InstallerFailed, and its message dates
    the failure by the first `failed`, however many heartbeats came after. *)
Theorem heartbeat_never_hides_failure c ops s t st ever now :
  clock_ok ops -> run_store c ops = Some s -> Get t s = Some st ->
  exists l, l <> [] /\ l `suffix_of` accepted t ops /\
    (CheckpointFailed ∈ l.*1 ->
       let c := installerRespondingCondition st true ever None now in
       c_Status c = "False" /\ c_Reason c = "InstallerFailed" /\
       c_Message c = "the installer reported that the install failed at " +:+ format_rfc3339 (utc (first_failed l)) +:+ ", " +:+
                     ago now (first_failed l) +:+ " ago; the cause is on the machine's console") /\
    (CheckpointFailed ∉ l.*1 -> LastCheckpoint st <> CheckpointFailed).
Proof.
  intros Hclk Hrun Hget. destruct (entry_summary c ops s t st Hclk Hrun Hget) as (l & Hne & Hsuf & ->). exists l.
  split; [done|]. split; [done|]. split; [intros Hin; cbv zeta|intros Hout].
  - assert (Hl : LastCheckpoint (summary l) = CheckpointFailed) by (simpl; unfold furthest; by rewrite bool_decide_true).
    unfold installerRespondingCondition. cbn [negb andb]. rewrite (bool_decide_true _ Hl). cbn [c_Status c_Reason c_Message responding].
    split; [done|]. split; [done|]. cbn [summary FailedAt].
    assert (Hz : Forall (fun b => is_zero b.2 = false) l).
    { pose proof (accepted_clock t ops Hclk) as Hz. destruct Hsuf as [k Hk]. rewrite Hk in Hz. by apply Forall_app in Hz as [_ ?]. }
    by rewrite first_failed_nonzero.
  - simpl. unfold furthest. rewrite (bool_decide_false _ Hout). by case_bool_decide.
Qed.

(** ** A cluster in memory *)

(** A BMC is its address; [fw_marker] is the UID of the last image built, which
    the installed machine carries. *)
Record FWorld := mkFWorld {
  fw_view : View string;
  fw_nodes : list ClusterNode;
  fw_secrets : gmap NamespacedName strmap;
  fw_machines : gmap NamespacedName TargetMachine;
  fw_calls : nat;
  fw_marker : string
}.
Definition fw_set (w : FWorld) (v : View string) : FWorld :=
  mkFWorld v (fw_nodes w) (fw_secrets w) (fw_machines w) (fw_calls w) (fw_marker w).
Definition fw_count (w : FWorld) : FWorld :=
  mkFWorld (fw_view w) (fw_nodes w) (fw_secrets w) (fw_machines w) (S (fw_calls w)) (fw_marker w).
Definition fw_mark (w : FWorld) (uid : string) : FWorld :=
  mkFWorld (fw_view w) (fw_nodes w) (fw_secrets w) (fw_machines w) (fw_calls w) uid.
Definition fw_add_secret (w : FWorld) (k : NamespacedName) (d : strmap) : FWorld :=
  mkFWorld (fw_view w) (fw_nodes w) (<[k := d]> (fw_secrets w)) (fw_machines w) (fw_calls w) (fw_marker w).

Definition refused : apierr := plain_err "the server is not available".
Definition not_found : apierr := ApiErr "not found" true false.

Definition fake_hw : Machine FWorld := {|
  Session := unit;
  bmc_Serial w := (inr "CZ1234", w);
  bmc_InsertMedia u w := (None, w);
  bmc_MediaInserted w := (inr true, w);
  bmc_EjectMedia w := (None, w);
  bmc_SetBootOnce a b w := (None, w);
  bmc_ClearBootOverride w := (None, w);
  bmc_Reset k w := (None, w);
  images_Build s w := (inr ("http://192.0.2.9/i.iso", "tok"), fw_mark w (sp_UID s));
  images_Remove t w := (None, w);
  ssh_Dial a u k x w := (inr tt, w);
  sess_HostKey _ := "ssh-ed25519 AAAA";
  sess_Run s c w := (inr "", w);
  sess_Output s c w := (inr "yaml", w);
  sess_RunWithInput s c i w := (inr "", w);
  sess_ReadFile s p w := (inr (fw_marker w), w);
  sess_Close s w := (tt, w);
  nodes_NodeReady k n w := (inr true, w);
  d_Report p w := (tt, w);
  d_ReportToken t w := (tt, w);
  d_BeforeMediaAttached w := (None, w);
  ctx_err p w := (None, w);
  select_done p w := (true, w)
|}.

Section Fake.
Variable errs : nat -> bool.
Variable tick : FWorld -> FWorld.

(** One call: the others act, then it fails or runs. *)
Definition call {A} (f : FWorld -> result apierr A * FWorld) : St FWorld (result apierr A) := fun w =>
  let w := tick (fw_count w) in if errs (fw_calls w) then (inl refused, w) else f w.

Definition listed (m : Installs) : list FrameInstall :=
  omap (fun kv : NamespacedName * FrameInstall => if decide (fi_key kv.2 = kv.1) then Some kv.2 else None) (map_to_list m).

#[local] Instance layout_eqdec : EqDecision InstallLayout.
Proof. intros x y. unfold Decision. repeat decide equality. Defined.
#[local] Instance fispec_eqdec : EqDecision FrameInstallSpec.
Proof. intros x y. unfold Decision. repeat decide equality. Defined.
Definition fake_update (fi : FrameInstall) (w : FWorld) : result apierr FrameInstall * FWorld :=
  match v_fis (fw_view w) !! fi_key fi with
  | None => (inl not_found, w)
  | Some cur =>
    if bool_decide (fi_key cur = fi_key fi) && bool_decide (fi_UID cur = fi_UID fi) && (fi_Generation cur =? fi_Generation fi) &&
       (fi_observed cur =? fi_observed fi) && bool_decide (fi_Spec cur = fi_Spec fi) then
      let new := with_finalizers cur (fi_Finalizers fi) in
      if fi_Deleting cur && bool_decide (fi_Finalizers fi = [])
      then (inr new, fw_set w (store (fw_view w) (delete (fi_key fi) (v_fis (fw_view w)))))
      else (inr new, fw_set w (store (fw_view w) (<[fi_key fi := new]> (v_fis (fw_view w)))))
    else (inl (ApiErr "the object has been modified" false true), w)
  end.
Definition fake_patch (base m : FrameInstall) (w : FWorld) : result apierr FrameInstall * FWorld :=
  match v_fis (fw_view w) !! fi_key base with
  | None => (inl not_found, w)
  | Some cur =>
    let fi := with_status cur (merge_status (fi_Status base) (fi_Status m) (fi_Status cur)) in
    (inr fi, fw_set w (store (fw_view w) (<[fi_key base := fi]> (v_fis (fw_view w)))))
  end.

Definition lookup_in {A} (m : gmap NamespacedName A) (k : NamespacedName) : result apierr A :=
  match m !! k with Some a => inr a | None => inl not_found end.

(** [cache] is what the manager's reads of FrameInstalls are answered from. *)
Definition cached_api (cache : FWorld -> Installs) : InstallApi FWorld := {|
  Bmc := string;
  fi_get k := call (fun w => (lookup_in (cache w) k, w));
  fi_list := call (fun w => (inr (listed (cache w)), w));
  fi_update fi := call (fake_update fi);
  fi_patch_status base m := call (fake_patch base m);
  machine_get k := call (fun w => (lookup_in (fw_machines w) k, w));
  secret_get k := call (fun w => (lookup_in (fw_secrets w) k, w));
  configmap_get k := call (fun w => (inl not_found, w));
  secret_create s w :=
    let '(r, w) := call (fun w => (inr tt, fw_add_secret w (sec_Namespace s, sec_Name s) (sec_Data s))) w in
    (match r with inl e => Some e | inr _ => None end, w);
  node_list := call (fun w => (inr (fw_nodes w), w));
  node_get n := call (fun w => (match List.find (fun x => bool_decide (node_name (cn_Node x) = n)) (fw_nodes w) with
                                | Some x => inr x | None => inl not_found end, w));
  task_create t := call (fun w => (inr "task-1", w));
  task_status n p t w := (None, w);
  fi_event k e w := (tt, w);
  wall w := (at_s 0, w);
  rand16 w := (inr (to_bytes "0123456789abcdef"), w);
  progress t w := (inr (zero_beacon, false), w);
  new_bmc ns s w := (inr (bmc_Address s), w);
  hw _ := fake_hw;
  locked A f w := let w := tick (fw_count w) in let '(a, m) := f (v_mem (fw_view w)) in (a, fw_set w (store_mem (fw_view w) m));
  spawn j w := (tt, fw_set w (add_job (fw_view w) j));
  fin_add fs f := if bool_decide (f ∈ fs) then fs else fs ++ [f];
  fin_remove fs f := List.filter (fun x => negb (bool_decide (x = f))) fs;
  set_condition cs c := c :: List.filter (fun x => negb (bool_decide (c_Type x = c_Type c))) cs;
  remove_condition cs ty := List.filter (fun x => negb (bool_decide (c_Type x = ty))) cs;
  append_certs_from_pem s := true;
  rest_config _ := None;
  new_clientset _ := None;
  remote_node_get k n := call (fun w => (inl not_found, w))
|}.
Definition fake_api : InstallApi FWorld := cached_api (fun w => v_fis (fw_view w)).
End Fake.

(** Nobody else acts; calls may fail. *)
Definition nobody (w : FWorld) : FWorld := w.
Section Quiet.
Variable errs : nat -> bool.

Lemma call_quiet {A} (f : FWorld -> result apierr A * FWorld) (Q : result apierr A -> FWorld -> Prop) w :
  (forall w1, fw_view w1 = fw_view w -> Q (inl refused) w1) ->
  (forall w1, fw_view w1 = fw_view w -> Q (f w1).1 (f w1).2) -> wp (call errs nobody f) w Q.
Proof. intros He Hf. apply wp_intro. unfold call, nobody. destruct (errs _); [by apply He|by apply Hf]. Qed.

Lemma quiet_call {A} (f : FWorld -> result apierr A * FWorld) w : (forall w1, fw_view (f w1).2 = fw_view w1) ->
  wp (call errs nobody f) w (fun _ w' => drift (fw_view w) (fw_view w')).
Proof. intros Hf. apply call_quiet; intros w1 E; rewrite ?Hf, E; reflexivity. Qed.

Lemma fake_patch_ok base m w : match (fake_patch base m w).1 with
  | inr fi => patched base m fi (fw_view w) (fw_view (fake_patch base m w).2) | inl _ => fw_view (fake_patch base m w).2 = fw_view w end.
Proof. unfold fake_patch. destruct (_ !! fi_key base) as [cur|] eqn:E; [|done]. exists cur. by split_and!. Qed.

Lemma fake_update_ok fi w : match (fake_update fi w).1 with
  | inr _ => updated fi (fw_view w) (fw_view (fake_update fi w).2) | inl _ => fw_view (fake_update fi w).2 = fw_view w end.
Proof.
  unfold fake_update. destruct (_ !! fi_key fi) as [cur|] eqn:E; [|done]. destruct (_ && _) eqn:C; [|done]. bool_to_prop.
  assert (S : same_object fi cur) by (constructor; [done..|lia|done|done]). destruct (fi_Deleting cur && _) eqn:G; exists cur; (split; [done|]); (split; [done|]).
  - right. bool_to_prop. by split_and!.
  - by left.
Qed.

#[export] Instance quiet_laws : @InstallLaws FWorld (fake_api errs nobody).
Proof.
  refine (@Build_InstallLaws FWorld (fake_api errs nobody) fw_view fw_secrets _ _ _ _ _ _ _ _ _ _ _ _ _ _ _ _ _ _ _ _ _);
    cbn [fi_get fi_list fi_update fi_patch_status machine_get secret_get configmap_get secret_create node_list node_get task_create
         task_status fi_event wall rand16 progress new_bmc hw locked spawn remove_condition cached_api fake_api Bmc].
  - intros k w. by apply quiet_call.
  - intros w. by apply quiet_call.
  - intros fi w. apply call_quiet; intros w1 E.
    + exists (fw_view w). split; [reflexivity|]. by left.
    + pose proof (fake_update_ok fi w1) as H. exists (fw_view w). split; [reflexivity|]. rewrite <- E. destruct (fake_update fi w1) as [[e|x] w2]; [by left|done].
  - intros base m w. apply call_quiet; intros w1 E.
    + exists (fw_view w). split; [reflexivity|]. by left.
    + pose proof (fake_patch_ok base m w1) as H. exists (fw_view w). split; [reflexivity|]. rewrite <- E. destruct (fake_patch base m w1) as [[e|x] w2]; [by left|done].
  - intros A f w. apply wp_intro. unfold nobody. cbn [fw_view fw_count]. destruct (f (v_mem (fw_view w))) as [a m] eqn:E. exists (fw_view w). rewrite E. split; [reflexivity|]. by split.
  - intros j w. apply wp_intro. exists (fw_view w). split; [reflexivity|done].
  - intros k w. by apply quiet_call.
  - intros k w. by apply quiet_call.
  - intros k w. by apply quiet_call.
  - intros s w. apply wp_intro. unfold call, nobody. destruct (errs _); (split; [reflexivity|]); [done|]. intros _. apply lookup_insert_eq.
  - intros w. by apply quiet_call.
  - intros n w. by apply quiet_call.
  - intros t w. by apply quiet_call.
  - intros. apply wp_intro. reflexivity.
  - intros. apply wp_intro. reflexivity.
  - intros. apply wp_intro. reflexivity.
  - intros. apply wp_intro. reflexivity.
  - intros. apply wp_intro. reflexivity.
  - intros. apply wp_intro. reflexivity.
  - intros b A m w H. apply wp_intro. destruct H; reflexivity.
  - intros cs ty c [_ H]%list_elem_of_In%filter_In. apply negb_true_iff, bool_decide_eq_false in H. done.
Defined.
End Quiet.

(** ** Concrete runs *)

Definition no_errs (n : nat) : bool := false.
Definition demo_key : NamespacedName := ("frame", "fi1").
Definition zero_install_status : FrameInstallStatus := mkFrameInstallStatus "" None "" "" "" "" "" [] 0.
Definition demo_fispec (ref : string) : FrameInstallSpec :=
  mkFrameInstallSpec ref "CZ1234" "node1" (mkInstallNetwork "192.0.2.210/24" "192.0.2.1" ["192.0.2.1"])
    (mkInstallLayout LayoutSingleDisk [mkInstallDisk "/dev/disk/by-id/wwn-0x5" 480103981056])
    (mkInstallCluster "init" "" "" "v1.33.4+k3s1") bootUEFI "ssh".
Definition demo_fi (fins : list string) (deleting : bool) (st : FrameInstallStatus) : FrameInstall :=
  mkFrameInstall "frame" "fi1" "u1" 1 fins deleting (demo_fispec "m1") st.
Definition demo_mem : Mem := mkMem ∅ ∅ ∅.
Definition demo_fworld (fi : FrameInstall) : FWorld :=
  mkFWorld (mkView {[demo_key := fi]} {["u1"]} demo_mem [] []) []
    {[("frame", "ssh") := list_to_map [("id.pub", "ssh-ed25519 AAAA"); ("id", "key")]]}
    {[("frame", "m1") := mkTargetMachine "m1" (mkBMCSpec "192.0.2.50" "bmc" true "")]} 0 "".
Definition demo_ri : FrameInstallReconciler := mkInstallReconciler false "http://192.0.2.9:8080" "" None 0.

Definition fresh_fi : FrameInstall := demo_fi [frameInstallFinalizer] false zero_install_status.
(** One pass over an object that was never started. *)
Definition demo_start : FWorld := (@Reconcile FWorld (fake_api no_errs nobody) demo_libs demo_ri demo_key (demo_fworld fresh_fi)).2.

Definition seen_phase (w : FWorld) : option string := fi_phase <$> (v_fis (fw_view w) !! demo_key).

Example demo_start_runs :
  v_started (fw_view demo_start) = [("u1", 1)] /\ map j_Ref (v_jobs (fw_view demo_start)) = ["m1"] /\
  inFlight (v_mem (fw_view demo_start)) = {["m1" := "u1"]}.
Proof. split_and!; vm_compute; reflexivity. Qed.

Lemma demo_installs_ok fi : fi_key fi = demo_key -> fi_UID fi = "u1" -> fi_observed fi <= fi_Generation fi ->
  installs_ok (fw_view (demo_fworld fi)).
Proof.
  intros Hk Hu Ho. constructor; simpl; [constructor| |apply NoDup_nil_2|by intros u g ?%elem_of_nil|apply NoDup_nil_2|by intros j ?%elem_of_nil].
  - intros k x [<- <-]%lookup_singleton_Some. done.
  - intros k x [<- <-]%lookup_singleton_Some. set_solver.
  - intros k1 k2 a b [<- _]%lookup_singleton_Some [<- _]%lookup_singleton_Some. done.
  - intros k x [<- <-]%lookup_singleton_Some. done.
Qed.

(** The manager restarts: its memory and its goroutines are gone. *)
Definition demo_restarted (w : FWorld) : FWorld :=
  fw_set w (mkView (v_fis (fw_view w)) (v_uids (fw_view w)) (mkMem ∅ ∅ ∅) [] (v_started (fw_view w))).
Definition demo_again : FWorld := (@Reconcile FWorld (fake_api no_errs nobody) demo_libs demo_ri demo_key (demo_restarted demo_start)).2.

Example demo_again_fails : seen_phase demo_again = Some PhaseFailed /\ v_started (fw_view demo_again) = [("u1", 1)].
Proof. split; vm_compute; reflexivity. Qed.

Lemma quiet_step w w' : w' = (@Reconcile FWorld (fake_api no_errs nobody) demo_libs demo_ri demo_key w).2 ->
  (fi_key <$> v_fis (fw_view w) !! demo_key) = Some demo_key -> (fi_Generation <$> v_fis (fw_view w') !! demo_key) = (fi_Generation <$> v_fis (fw_view w) !! demo_key) ->
  @sys_step FWorld (fake_api no_errs nobody) (quiet_laws no_errs) demo_libs demo_ri w w'.
Proof.
  intros -> Hk Hg. apply (@step_pass FWorld (fake_api no_errs nobody) (quiet_laws no_errs) demo_libs demo_ri _ _ demo_key eq_refl);
    intros fi Hfi; cbn [fi_get fake_api cached_api] in Hfi; unfold call, lookup_in in Hfi; cbn [no_errs nobody fst snd fw_count fw_view] in Hfi;
    (destruct (v_fis (fw_view w) !! demo_key) as [cur|] eqn:E; [|discriminate Hfi]); injection Hfi as ->; apply (inj Some) in Hk.
  - split; [exact Hk|]. exists fi. split; [exact E|]. split; [apply same_object_refl|]. split; [reflexivity|]. intros Hp; exact Hp.
  - intros cur Hc _. rewrite Hk in Hc.
    match type of Hg with fi_Generation <$> ?l = _ => assert (l = Some cur) as Hl by exact Hc; rewrite Hl in Hg end. by apply (inj Some) in Hg.
Qed.

Lemma install_started_once_witness : NoDup (v_started (fw_view demo_again)) /\ v_started (fw_view demo_again) = [("u1", 1)].
Proof.
  split; [|vm_compute; reflexivity].
  apply (@install_started_once FWorld (fake_api no_errs nobody) (quiet_laws no_errs) demo_libs demo_ri (demo_fworld fresh_fi)).
  - apply demo_installs_ok; [reflexivity|reflexivity|cbn; lia].
  - eapply (rtc_l _ _ demo_start); [apply quiet_step; vm_compute; reflexivity|].
    eapply (rtc_l _ _ (demo_restarted demo_start)).
    + exact (@step_restart FWorld (fake_api no_errs nobody) (quiet_laws no_errs) demo_libs demo_ri demo_start (demo_restarted demo_start) eq_refl).
    + eapply (rtc_l _ _ demo_again); [apply quiet_step; vm_compute; reflexivity|apply rtc_refl].
Defined.

Lemma one_install_per_machine_witness : NoDup (refs (fw_view demo_start)) /\ refs (fw_view demo_start) = ["m1"].
Proof.
  split; [|vm_compute; reflexivity].
  refine (proj1 (@one_install_per_machine FWorld (fake_api no_errs nobody) (quiet_laws no_errs) demo_libs demo_ri (demo_fworld fresh_fi) demo_start _ _)).
  - apply demo_installs_ok; [reflexivity|reflexivity|cbn; lia].
  - eapply (rtc_l _ _ demo_start); [apply quiet_step; vm_compute; reflexivity|apply rtc_refl].
Defined.

Lemma start_is_guarded_witness :
  v_started (fw_view demo_start) <> [] /\
  @start_post FWorld (fake_api no_errs nobody) (quiet_laws no_errs) demo_libs demo_ri demo_key (demo_fworld fresh_fi) demo_start.
Proof.
  split; [vm_compute; discriminate|].
  apply (@start_is_guarded FWorld (fake_api no_errs nobody) (quiet_laws no_errs) demo_libs demo_ri demo_key (demo_fworld fresh_fi)).
Defined.

(** The goroutine of that pass, run to its end. *)
Definition demo_job : Job string :=
  mkJob "m1" "u1" demo_key "192.0.2.50" (toProvisionSpec fresh_fi "30313233343536373839616263646566" "ssh-ed25519 AAAA" "")
    (options demo_ri fresh_fi "key") 1.
Definition demo_ran : bool * FWorld := @runInstall FWorld (fake_api no_errs nobody) demo_libs demo_ri 5 demo_job demo_start.

Example demo_ran_ready : demo_ran.1 = true /\ seen_phase demo_ran.2 = Some PhaseReady /\ inFlight (v_mem (fw_view demo_ran.2)) = ∅ /\
  fw_secrets demo_ran.2 !! ("frame", "fi1-kubeconfig") = Some {["kubeconfig" := "kubeconfig"]}.
Proof. split_and!; vm_compute; reflexivity. Qed.

Lemma demo_job_runs : demo_job ∈ v_jobs (fw_view demo_start).
Proof. assert (E : v_jobs (fw_view demo_start) = [demo_job]) by (vm_compute; reflexivity). rewrite E. apply list_elem_of_singleton. reflexivity. Qed.

Lemma goroutine_within_rely_witness : drift (fw_view demo_start) (@end_job FWorld (fake_api no_errs nobody) (fw_view demo_ran.2) demo_job).
Proof.
  apply (@goroutine_within_rely FWorld (fake_api no_errs nobody) (quiet_laws no_errs) demo_libs demo_ri 5 demo_job demo_start).
  - apply demo_job_runs.
  - vm_compute. reflexivity.
  - reflexivity.
Defined.

(** Committed, Installing, and nobody driving it. *)
Definition orphan_fi : FrameInstall :=
  demo_fi [frameInstallFinalizer] false (mkFrameInstallStatus PhaseInstalling None "" "" "" "" "" [] 1).
Lemma restart_ends_failed_witness :
  @made_failed FWorld (fake_api no_errs nobody) (quiet_laws no_errs) demo_key (demo_fworld orphan_fi)
    (@Reconcile FWorld (fake_api no_errs nobody) demo_libs demo_ri demo_key (demo_fworld orphan_fi)).2.
Proof.
  pose proof (@restart_ends_failed FWorld (fake_api no_errs nobody) (quiet_laws no_errs) demo_libs demo_ri demo_key (demo_fworld orphan_fi) orphan_fi
    eq_refl eq_refl eq_refl (list_elem_of_here _ _) eq_refl eq_refl eq_refl) as H.
  destruct (@Reconcile FWorld (fake_api no_errs nobody) demo_libs demo_ri demo_key (demo_fworld orphan_fi)) as [out w'] eqn:E.
  destruct H as [_ H]. apply H. transitivity (@Reconcile FWorld (fake_api no_errs nobody) demo_libs demo_ri demo_key (demo_fworld orphan_fi)).1.2.
  - rewrite E. reflexivity.
  - vm_compute. reflexivity.
Defined.

Definition demo_result : Result := mkResult PhaseReady "" "ssh-ed25519 AAAA" (Some "kubeconfig") "node1".
Lemma kubeconfig_saved_or_failed_witness :
  let w := demo_fworld orphan_fi in
  to_save orphan_fi demo_result = Some "kubeconfig" /\
  ((exists w1, @drifts FWorld (fake_api no_errs nobody) (quiet_laws no_errs) w w1 /\ fw_secrets w1 !! ("frame", "fi1-kubeconfig") = Some {["kubeconfig" := "kubeconfig"]}) \/
   (exists w1 cur, @drifts FWorld (fake_api no_errs nobody) (quiet_laws no_errs) w w1 /\ v_fis (fw_view w1) !! demo_key = Some cur /\ fi_phase cur = PhaseFailed) \/
   fi_phase orphan_fi = PhaseFailed \/
   (exists w1 base m e, @drifts FWorld (fake_api no_errs nobody) (quiet_laws no_errs) w w1 /\ (@fi_patch_status FWorld (fake_api no_errs nobody) base m w1).1 = inl e /\
      (@finishStatus FWorld (fake_api no_errs nobody) demo_ri demo_key "m1" demo_result None w).2 = (@fi_patch_status FWorld (fake_api no_errs nobody) base m w1).2)).
Proof.
  split; [reflexivity|].
  exact (@kubeconfig_saved_or_failed FWorld (fake_api no_errs nobody) (quiet_laws no_errs) demo_ri demo_key "m1" demo_result None
    (demo_fworld orphan_fi) orphan_fi "kubeconfig" eq_refl eq_refl eq_refl).
Defined.

Lemma demo_clock : clock_ok demo_ops.
Proof. repeat (constructor; [vm_compute; reflexivity|]). constructor. Qed.
Lemma heartbeat_never_hides_failure_witness :
  exists s st, run_store 1 demo_ops = Some s /\ Get demo_token s = Some st /\
  exists l, l <> [] /\ l `suffix_of` accepted demo_token demo_ops /\
    (CheckpointFailed ∈ l.*1 -> c_Reason (installerRespondingCondition st true true None (at_s 5)) = "InstallerFailed").
Proof.
  destruct (run_store 1 demo_ops) as [s|] eqn:E; [|vm_compute in E; discriminate E].
  destruct (Get demo_token s) as [st|] eqn:G.
  - exists s, st. split; [reflexivity|]. split; [exact G|].
    destruct (heartbeat_never_hides_failure 1 demo_ops s demo_token st true (at_s 5) demo_clock E G) as (l & H1 & H2 & H3 & _).
    exists l. split; [exact H1|]. split; [exact H2|]. intros Hin. exact (proj1 (proj2 (H3 Hin))).
  - vm_compute in E. injection E as <-. vm_compute in G. discriminate G.
Defined.

(** ** What the code does not guarantee *)

(** The [n]th call is preceded by [f], the others by nothing. *)
Definition at_call (n : nat) (f : FWorld -> FWorld) (w : FWorld) : FWorld := if (fw_calls w =? n)%nat then f w else w.

(** When the one read at the start of finishStatus fails, the kubeconfig of
    the new cluster is gone: the install ended, no Secret was written, and the
    stored object says Ready, as the last phase report left it. *)
Theorem kubeconfig_lost_on_failed_read :
  exists ran : bool * FWorld,
    ran = @runInstall FWorld (fake_api (fun n => (n =? 26)%nat) nobody) demo_libs demo_ri 5 demo_job demo_start /\
    ran.1 = true /\ seen_phase ran.2 = Some PhaseReady /\ fw_secrets ran.2 !! ("frame", "fi1-kubeconfig") = None.
Proof. eexists. split; [reflexivity|]. split_and!; vm_compute; reflexivity. Qed.

(** A pass whose read is behind the commit replays the install: the manager
    restarts after a commit, its cache still shows the object as it was before, and
    the machine is handed over a second time for the same object and generation. *)
Theorem stale_read_replays :
  let stale := cached_api no_errs nobody (fun _ => {[demo_key := fresh_fi]}) in
  let w := (@Reconcile FWorld stale demo_libs demo_ri demo_key (demo_restarted demo_start)).2 in
  v_started (fw_view demo_start) = [("u1", 1)] /\ v_started (fw_view w) = [("u1", 1); ("u1", 1)].
Proof. split; vm_compute; reflexivity. Qed.

(** The spec of the object is edited, which raises its generation. *)
Definition edit_spec (ref : string) (fi : FrameInstall) : FrameInstall :=
  mkFrameInstall (fi_Namespace fi) (fi_Name fi) (fi_UID fi) (fi_Generation fi + 1) (fi_Finalizers fi) (fi_Deleting fi)
    (demo_fispec ref) (fi_Status fi).
Definition edited (ref : string) (w : FWorld) : FWorld :=
  fw_set w (store (fw_view w) (alter (edit_spec ref) demo_key (v_fis (fw_view w)))).

(** A spec edited while an install runs turns the manager restart that
    follows into a second install of the same machine: the restarted manager
    finds the new generation uncommitted and hands the object over again, with
    no cleanup in between, although its phase says the first one was
    Installing. *)
Theorem edited_install_replayed :
  exists w : FWorld,
    w = (@Reconcile FWorld (fake_api no_errs nobody) demo_libs demo_ri demo_key
           (demo_restarted (edited "m1" (@reportPhase FWorld (fake_api no_errs nobody) demo_key PhaseInstalling demo_start).2))).2 /\
    v_started (fw_view w) = [("u1", 1); ("u1", 2)] /\ seen_phase w = Some PhaseInstalling.
Proof. eexists. split; [reflexivity|]. split; vm_compute; reflexivity. Qed.

(** The pass over which machineRef is edited, just before its commit. *)
Definition leaky_pass : FWorld :=
  (@Reconcile FWorld (fake_api no_errs (at_call 8 (edited "m2"))) demo_libs demo_ri demo_key (demo_fworld fresh_fi)).2.
Definition leaky_end : option (bool * FWorld) :=
  j ← head (v_jobs (fw_view leaky_pass)); Some (@runInstall FWorld (fake_api no_errs nobody) demo_libs demo_ri 5 j leaky_pass).

(** The machine a pass claimed is not always the one it releases: the commit
    patch replaces the object by the server's, so an edit of machineRef that
    lands during the pass gives the goroutine, which drives the first machine's
    BMC, the second machine's name; when it ends, the claim of the first
    machine is left behind with nothing running. *)
Theorem edited_ref_leaks_claim :
  map (fun j => (j_Ref j, j_Bmc j)) (v_jobs (fw_view leaky_pass)) = [("m2", "192.0.2.50")] /\
  fmap (fun out => (out.1, inFlight (v_mem (fw_view out.2)))) leaky_end = Some (true, {["m1" := "u1"]}).
Proof. split; vm_compute; reflexivity. Qed.

Definition joining : FWorld := (@reportPhase FWorld (fake_api no_errs nobody) demo_key PhaseJoining demo_start).2.
(** The goroutine's last steps. *)
Definition goroutine_ends (w : FWorld) : FWorld :=
  let w1 := (@reportPhase FWorld (fake_api no_errs nobody) demo_key PhaseReady w).2 in
  let w2 := (@finishStatus FWorld (fake_api no_errs nobody) demo_ri demo_key "m1" demo_result None w1).2 in
  (@finishInstall FWorld (fake_api no_errs nobody) "m1" "u1" w2).2.
(** The pass whose read precedes them and whose look at the running installs
    follows them. *)
Definition racing_pass : FWorld :=
  (@Reconcile FWorld (fake_api no_errs (at_call (fw_calls joining + 2) goroutine_ends)) demo_libs demo_ri demo_key joining).2.

(** An install that ends between a pass's read of its object and its look at
    the running installs is recorded as a restart: the pass, which read the
    phase Joining, finds the machine free and the generation committed, and
    writes Failed over the Ready the goroutine had just recorded. *)
Theorem ready_overwritten_by_race :
  seen_phase (goroutine_ends joining) = Some PhaseReady /\ seen_phase racing_pass = Some PhaseFailed /\
  (is_FailedPhase ∘ fi_Status <$> v_fis (fw_view racing_pass) !! demo_key) = Some PhaseJoining.
Proof. split_and!; vm_compute; reflexivity. Qed.
