(* ===== verification/V1beta1.v ===== *)
(** The storage version's kinds that convert to v1alpha1
    (api/frame/v1beta1/{framejob,framenode,frameresourcequota,schedulingpolicy,frameuser}_types.go),
    with the store of maps that an ObjectMeta points into.

    A slice is [None] when it is nil and [Some []] when it is empty but
    present, and so is a map: the conversions keep the two apart. Slices and
    pointers that are copied and never written are their values; the
    annotation map is shared by the two objects of a conversion and copied
    before it is written, so annotations are a reference into [heap]. *)
From stdpp Require Import base tactics strings list gmap.
From Stdlib Require Import ZArith Lia.
From S2P Require Import Prelude GoLib GoTime Kube GoJson.

Open Scope Z_scope.

(** The types of k8s.io/api and k8s.io/apimachinery: what the conversions
    carry through, [meta.FindStatusCondition], and how the types inside a
    container's spec go to JSON and back (a decoder is given the value it
    decodes into). [json_error] is the text of Unmarshal's error. *)
Class Foreign := {
  MetaRest : Type;  (* metav1.ObjectMeta but its name, namespace and annotations *)
  Cond : Type;      (* metav1.Condition *)
  cond_Type : Cond -> string;
  cond_Reason : Cond -> string;
  find_condition : list Cond -> string -> option Cond;
  Quantity : Type;
  EnvVar : Type;
  EnvFromSource : Type;
  ResourceRequirements : Type;
  zero_meta : MetaRest;
  zero_rr : ResourceRequirements;
  env_json : EnvVar -> result string json;
  env_decode : json -> option EnvVar;
  envfrom_json : EnvFromSource -> result string json;
  envfrom_decode : json -> option EnvFromSource;
  rr_json : ResourceRequirements -> result string json;
  rr_decode : ResourceRequirements -> json -> option ResourceRequirements;
  json_error : string -> string
}.

(** What the code relies on of them: the condition found has the type that was
    asked for and is found when there is one; and the values that a write and
    a read of their JSON leave as they are ([env_ok] and the others), whose
    JSON is within Marshal's vocabulary. Not every value is one: an empty list
    of limits comes back absent. *)
Class ForeignLaws `{Foreign} := {
  find_condition_type cs t c : find_condition cs t = Some c -> c ∈ cs /\ cond_Type c = t;
  find_condition_none cs t : find_condition cs t = None -> forall c, c ∈ cs -> cond_Type c <> t;
  env_ok : EnvVar -> Prop;
  envfrom_ok : EnvFromSource -> Prop;
  rr_ok : ResourceRequirements -> Prop;
  env_round e : env_ok e -> exists j, env_json e = inr j /\ json_ok j = true /\ depth j <= 64 /\ env_decode j = Some e;
  envfrom_round e : envfrom_ok e -> exists j, envfrom_json e = inr j /\ json_ok j = true /\ depth j <= 64 /\ envfrom_decode j = Some e;
  rr_round r : rr_ok r -> exists j, rr_json r = inr j /\ json_ok j = true /\ depth j <= 64 /\ rr_decode zero_rr j = Some r
}.

(** ** The store of maps *)

Abbreviation heap := (list strmap).

(** [make] of a map: a reference no object has yet. *)
Definition alloc (m : strmap) : St heap nat := fun h => (length h, h ++ [m]).
(** Reading a map: a nil one is empty. *)
Definition deref (h : heap) (r : option nat) : strmap :=
  match r with Some i => default ∅ (h !! i) | None => ∅ end.

Section Types.
Context `{F : Foreign}.

Record ObjectMeta := mkMeta {
  om_Name : string;
  om_Namespace : string;
  om_Annotations : option nat;   (* a map of the store *)
  om_Rest : MetaRest
}.
Definition zero_om : ObjectMeta := mkMeta "" "" None zero_meta.
Definition set_annots (m : ObjectMeta) (r : option nat) : ObjectMeta :=
  mkMeta (om_Name m) (om_Namespace m) r (om_Rest m).

Definition ResourceList : Type := option (gmap string Quantity).

(** *** FrameJob *)

Record ContainerSpec := mkContainer {
  cs_Image : string;
  cs_Command : option (list string);
  cs_Args : option (list string);
  cs_Env : option (list EnvVar);
  cs_Resources : ResourceRequirements;
  cs_EnvFrom : option (list EnvFromSource)
}.

Record FrameJobSpec := mkFJSpec {
  js_Pipeline : string;
  js_Container : option ContainerSpec;
  js_Type : string;
  js_ServiceClass : string;
  js_Priority : string;
  js_GPUCount : Z;
  js_Parameters : option strmap;
  js_Suspended : bool
}.

Record FrameJobStatus := mkFJStatus {
  jt_ObservedGeneration : Z;
  jt_Conditions : option (list Cond);
  jt_ArgoWorkflowName : string;
  jt_ContainerJobName : string;
  jt_ContainerJobKind : string;
  jt_StartTime : option time;
  jt_CompletionTime : option time;
  jt_Message : string
}.

Record FrameJob := mkFJ { j_Meta : ObjectMeta; j_Spec : FrameJobSpec; j_Status : FrameJobStatus }.
Definition zero_job : FrameJob :=
  mkFJ zero_om (mkFJSpec "" None "" "" "" 0 None false) (mkFJStatus 0 None "" "" "" None None "").

(** *** FrameNode *)

Record NetworkSpec := mkNet {
  nw_Address : string; nw_Gateway : string; nw_DNS : option (list string);
  nw_VLAN : option Z; nw_Bond : option string
}.
Record FrameNodeSpec := mkFNSpec {
  ns_IP : string; ns_Role : string; ns_Network : NetworkSpec; ns_RDMAInterface : string;
  ns_Hostname : string; ns_Rack : string; ns_Zone : string; ns_ServiceClass : string
}.
Record FrameNodeStatus := mkFNStatus {
  nt_ObservedGeneration : Z; nt_Conditions : option (list Cond); nt_KubeletVersion : string;
  nt_Capacity : ResourceList; nt_Allocatable : ResourceList; nt_NodeName : string
}.
Record FrameNode := mkFN { n_Meta : ObjectMeta; n_Spec : FrameNodeSpec; n_Status : FrameNodeStatus }.
Definition zero_node : FrameNode :=
  mkFN zero_om (mkFNSpec "" "" (mkNet "" "" None None None) "" "" "" "" "") (mkFNStatus 0 None "" None None "").

(** *** FrameResourceQuota *)

Record FrameResourceQuotaSpec := mkFQSpec {
  qs_ServiceClass : string; qs_MaxGPUs : Z; qs_MaxCPU : option Quantity; qs_MaxMemory : option Quantity; qs_MaxJobs : Z
}.
Record FrameResourceQuotaStatus := mkFQStatus {
  qt_ObservedGeneration : Z; qt_Used : ResourceList; qt_Namespaces : Z; qt_Conditions : option (list Cond)
}.
Record FrameResourceQuota := mkFQ { q_Meta : ObjectMeta; q_Spec : FrameResourceQuotaSpec; q_Status : FrameResourceQuotaStatus }.
Definition zero_quota : FrameResourceQuota :=
  mkFQ zero_om (mkFQSpec "" 0 None None 0) (mkFQStatus 0 None 0 None).

(** *** SchedulingPolicy *)

Record SchedulingPolicySpec := mkSPSpec {
  ps_Scheduler : string; ps_QueueName : string; ps_PriorityClass : string; ps_Preemption : bool;
  ps_PriorityValue : option Z; ps_QueueWeight : option Z
}.
Record SchedulingPolicyStatus := mkSPStatus {
  pt_ObservedGeneration : Z; pt_Conditions : option (list Cond);
  pt_OwnedPriorityClass : string; pt_OwnedQueue : string; pt_OwnedQueueScheduler : string
}.
Record SchedulingPolicy := mkSP { p_Meta : ObjectMeta; p_Spec : SchedulingPolicySpec; p_Status : SchedulingPolicyStatus }.
Definition zero_policy : SchedulingPolicy :=
  mkSP zero_om (mkSPSpec "" "" "" false None None) (mkSPStatus 0 None "" "" "").

(** *** FrameUser *)

Record WebAuthnCredential := mkCred {
  wc_ID : string; wc_PublicKey : string; wc_SignCount : Z; wc_AddedAt : time; wc_Label : string
}.
Record FrameUserSpec := mkFUSpec { us_Email : string; us_Role : string; us_PasswordAuth : string; us_State : string }.
Record FrameUserStatus := mkFUStatus {
  ut_ObservedGeneration : Z; ut_PasswordHash : string; ut_Credentials : option (list WebAuthnCredential)
}.
Record FrameUser := mkFU { u_Meta : ObjectMeta; u_Spec : FrameUserSpec; u_Status : FrameUserStatus }.
Definition zero_user : FrameUser := mkFU zero_om (mkFUSpec "" "" "" "") (mkFUStatus 0 "" None).

(** conversion.Hub: a pointer to one of the five kinds. *)
Inductive Hub : Type :=
| HubFrameJob (j : FrameJob)
| HubFrameNode (n : FrameNode)
| HubFrameResourceQuota (q : FrameResourceQuota)
| HubSchedulingPolicy (p : SchedulingPolicy)
| HubFrameUser (u : FrameUser).

(** The [%T] verb on one. *)
Definition hub_type (x : Hub) : string :=
  match x with
  | HubFrameJob _ => "*v1beta1.FrameJob"
  | HubFrameNode _ => "*v1beta1.FrameNode"
  | HubFrameResourceQuota _ => "*v1beta1.FrameResourceQuota"
  | HubSchedulingPolicy _ => "*v1beta1.SchedulingPolicy"
  | HubFrameUser _ => "*v1beta1.FrameUser"
  end.

End Types.
