(* ===== verification/V1alpha1.v ===== *)
(** The deprecated version's kinds (api/frame/v1alpha1/*_types.go), with the
    projections of phase.go that compute its status.phase out of the
    conditions. The names follow V1beta1.v, with an [a] in the prefix. *)
From stdpp Require Import base tactics strings list gmap.
From Stdlib Require Import ZArith Lia.
From S2P Require Import Prelude GoLib GoTime Kube GoJson V1beta1.

Open Scope Z_scope.

Section Types.
Context `{F : Foreign}.

(** *** FrameJob *)

Record FrameJobSpec := mkFJSpec {
  ajs_Pipeline : string;
  ajs_ServiceClass : string;
  ajs_Priority : string;
  ajs_Namespace : string;
  ajs_GPUCount : Z;
  ajs_Parameters : option strmap;
  ajs_Suspended : bool
}.
Record FrameJobStatus := mkFJStatus {
  ajt_ObservedGeneration : Z;
  ajt_Phase : string;
  ajt_Conditions : option (list Cond);
  ajt_ArgoWorkflowName : string;
  ajt_StartTime : option time;
  ajt_CompletionTime : option time;
  ajt_Message : string
}.
Record FrameJob := mkFJ { aj_Meta : ObjectMeta; aj_Spec : FrameJobSpec; aj_Status : FrameJobStatus }.
Definition zero_job : FrameJob :=
  mkFJ zero_om (mkFJSpec "" "" "" "" 0 None false) (mkFJStatus 0 "" None "" None None "").

(** *** FrameNode *)

Record NetworkSpec := mkNet {
  anw_Address : string; anw_Gateway : string; anw_DNS : option (list string);
  anw_VLAN : option Z; anw_Bond : option string
}.
Record FrameNodeSpec := mkFNSpec {
  ans_IP : string; ans_Role : string; ans_Network : NetworkSpec; ans_RDMAInterface : string;
  ans_Hostname : string; ans_Rack : string; ans_Zone : string; ans_ServiceClass : string
}.
Record FrameNodeStatus := mkFNStatus {
  ant_ObservedGeneration : Z; ant_Phase : string; ant_Conditions : option (list Cond); ant_KubeletVersion : string;
  ant_Capacity : ResourceList; ant_Allocatable : ResourceList; ant_NodeName : string
}.
Record FrameNode := mkFN { an_Meta : ObjectMeta; an_Spec : FrameNodeSpec; an_Status : FrameNodeStatus }.
Definition zero_node : FrameNode :=
  mkFN zero_om (mkFNSpec "" "" (mkNet "" "" None None None) "" "" "" "" "") (mkFNStatus 0 "" None "" None None "").

(** *** FrameResourceQuota *)

Record FrameResourceQuotaSpec := mkFQSpec {
  aqs_ServiceClass : string; aqs_MaxGPUs : Z; aqs_MaxCPU : option Quantity; aqs_MaxMemory : option Quantity; aqs_MaxJobs : Z
}.
Record FrameResourceQuotaStatus := mkFQStatus {
  aqt_ObservedGeneration : Z; aqt_Used : ResourceList; aqt_Namespaces : Z; aqt_Conditions : option (list Cond)
}.
Record FrameResourceQuota := mkFQ { aq_Meta : ObjectMeta; aq_Spec : FrameResourceQuotaSpec; aq_Status : FrameResourceQuotaStatus }.
Definition zero_quota : FrameResourceQuota :=
  mkFQ zero_om (mkFQSpec "" 0 None None 0) (mkFQStatus 0 None 0 None).

(** *** SchedulingPolicy *)

Record SchedulingPolicySpec := mkSPSpec {
  aps_Scheduler : string; aps_QueueName : string; aps_PriorityClass : string; aps_Preemption : bool;
  aps_PriorityValue : option Z; aps_QueueWeight : option Z
}.
Record SchedulingPolicyStatus := mkSPStatus {
  apt_ObservedGeneration : Z; apt_OwnedPriorityClass : string; apt_OwnedQueue : string; apt_OwnedQueueScheduler : string;
  apt_Conditions : option (list Cond)
}.
Record SchedulingPolicy := mkSP { ap_Meta : ObjectMeta; ap_Spec : SchedulingPolicySpec; ap_Status : SchedulingPolicyStatus }.
Definition zero_policy : SchedulingPolicy :=
  mkSP zero_om (mkSPSpec "" "" "" false None None) (mkSPStatus 0 "" "" "" None).

(** *** FrameUser *)

Record WebAuthnCredential := mkCred {
  awc_ID : string; awc_PublicKey : string; awc_SignCount : Z; awc_AddedAt : time; awc_Label : string
}.
Record FrameUserSpec := mkFUSpec {
  aus_Email : string; aus_Role : string; aus_PasswordAuth : string; aus_State : string; aus_PasswordHash : string
}.
Record FrameUserStatus := mkFUStatus { aut_ObservedGeneration : Z; aut_Credentials : option (list WebAuthnCredential) }.
Record FrameUser := mkFU { au_Meta : ObjectMeta; au_Spec : FrameUserSpec; au_Status : FrameUserStatus }.
Definition zero_user : FrameUser := mkFU zero_om (mkFUSpec "" "" "" "" "") (mkFUStatus 0 None).

(** ** phase.go *)

Definition legacyPhasePending : string := "Pending".
Definition legacyPhaseSubmitted : string := "Submitted".
Definition legacyPhaseRunning : string := "Running".
Definition legacyPhaseSuspended : string := "Suspended".
Definition legacyPhaseCompleted : string := "Completed".
Definition legacyPhaseFailed : string := "Failed".
Definition legacyPhaseDiscovered : string := "Discovered".
Definition legacyPhaseProvisioning : string := "Provisioning".
Definition legacyPhaseOnline : string := "Online".
Definition legacyPhaseDegraded : string := "Degraded".
Definition legacyPhaseOffline : string := "Offline".
Definition conditionTypeReady : string := "Ready".
Definition conditionTypeSubmitted : string := "Submitted".

(** A nil slice of conditions is read as an empty one. *)
Definition FrameJobPhaseFromConditions (conditions : option (list Cond)) : string :=
  let cs := default [] conditions in
  match find_condition cs conditionTypeReady with
  | None =>
    match find_condition cs conditionTypeSubmitted with
    | Some _ => legacyPhaseSubmitted
    | None => legacyPhasePending
    end
  | Some ready =>
    if bool_decide (cond_Reason ready ∈ [legacyPhaseSubmitted; legacyPhaseRunning; legacyPhaseSuspended;
                                         legacyPhaseCompleted; legacyPhaseFailed])
    then cond_Reason ready else legacyPhaseSubmitted
  end.

Definition FrameNodePhaseFromConditions (conditions : option (list Cond)) : string :=
  match find_condition (default [] conditions) conditionTypeReady with
  | None => ""
  | Some ready =>
    if bool_decide (cond_Reason ready ∈ [legacyPhaseDiscovered; legacyPhaseProvisioning; legacyPhaseOnline;
                                         legacyPhaseDegraded; legacyPhaseOffline])
    then cond_Reason ready else ""
  end.

End Types.
