(* ===== verification/SchedulingPolicy.v ===== *)
(** internal/controller/frame/schedulingpolicy_controller.go and
    internal/scheduling/priority.go: the reconciler that owns cluster-scoped
    PriorityClasses and scheduler Queues on behalf of namespaced
    SchedulingPolicies. Log lines and metrics are left out. *)
From stdpp Require Import base tactics strings list gmap.
From Stdlib Require Import ZArith Lia.
From S2P Require Import Prelude GoLib GoTime Kube Cluster StorageAlerts GoJson V1beta1.

Open Scope Z_scope.

(** ** internal/scheduling *)

Definition PriorityClassCritical : string := "frame-critical".
Definition PriorityClassHigh : string := "frame-high".
Definition PriorityClassMedium : string := "frame-medium".
Definition PriorityClassLow : string := "frame-low".

Definition PriorityClassForJobPriority (priority : string) : string :=
  if bool_decide (priority = "critical") then PriorityClassCritical
  else if bool_decide (priority = "high") then PriorityClassHigh
  else if bool_decide (priority = "medium") then PriorityClassMedium
  else if bool_decide (priority = "low") then PriorityClassLow
  else "".

Definition PriorityClassForServiceClass (serviceClass : string) : string :=
  if bool_decide (serviceClass = "HIGH") then PriorityClassHigh
  else if bool_decide (serviceClass = "MEDIUM") then PriorityClassMedium
  else if bool_decide (serviceClass = "LOW") then PriorityClassLow
  else "".

(** ** Objects *)

(** A SchedulingPolicy as the controller holds it; the conditions are those of
    status, [pol_Deleting] that the deletion timestamp is set. *)
Record Policy := mkPolicy {
  pol_Namespace : string;
  pol_Name : string;
  pol_Generation : Z;
  pol_Finalizers : list string;
  pol_Deleting : bool;
  pol_Spec : SchedulingPolicySpec;
  pol_ObservedGeneration : Z;
  pol_Conditions : list Condition;
  pol_OwnedPriorityClass : string;
  pol_OwnedQueue : string;
  pol_OwnedQueueScheduler : string
}.

Definition set_pol_finalizers (sp : Policy) (fs : list string) : Policy :=
  mkPolicy (pol_Namespace sp) (pol_Name sp) (pol_Generation sp) fs (pol_Deleting sp) (pol_Spec sp)
    (pol_ObservedGeneration sp) (pol_Conditions sp) (pol_OwnedPriorityClass sp) (pol_OwnedQueue sp) (pol_OwnedQueueScheduler sp).
Definition set_owned_class (sp : Policy) (name : string) : Policy :=
  mkPolicy (pol_Namespace sp) (pol_Name sp) (pol_Generation sp) (pol_Finalizers sp) (pol_Deleting sp) (pol_Spec sp)
    (pol_ObservedGeneration sp) (pol_Conditions sp) name (pol_OwnedQueue sp) (pol_OwnedQueueScheduler sp).
Definition set_owned_queue (sp : Policy) (name scheduler : string) : Policy :=
  mkPolicy (pol_Namespace sp) (pol_Name sp) (pol_Generation sp) (pol_Finalizers sp) (pol_Deleting sp) (pol_Spec sp)
    (pol_ObservedGeneration sp) (pol_Conditions sp) (pol_OwnedPriorityClass sp) name scheduler.
Definition set_observation (sp : Policy) (g : Z) (cs : list Condition) : Policy :=
  mkPolicy (pol_Namespace sp) (pol_Name sp) (pol_Generation sp) (pol_Finalizers sp) (pol_Deleting sp) (pol_Spec sp)
    g cs (pol_OwnedPriorityClass sp) (pol_OwnedQueue sp) (pol_OwnedQueueScheduler sp).

Record PriorityClass := mkPC {
  pc_UID : string;
  pc_Labels : strmap;
  pc_Annotations : strmap;
  pc_Value : Z;
  pc_GlobalDefault : bool;
  pc_Description : string;
  pc_PreemptionPolicy : string
}.

Record GVK := mkGVK { gvk_Group : string; gvk_Version : string; gvk_Kind : string }.

(** An unstructured Queue; [qu_Spec] is [None] when there is no spec, or one
    that is no map. *)
Record Queue := mkQueue {
  qu_UID : string;
  qu_Labels : strmap;
  qu_Annotations : strmap;
  qu_Spec : option (gmap string json)
}.

(** An error about a kind that discovery may not know (meta.IsNoMatchError). *)
Record kinderr := KindErr { ke_err : apierr; ke_nomatch : bool }.

(** The API server. [pc_apply] and [q_apply] are controllerutil.CreateOrUpdate
    of a name with its mutate function; a delete has a UID precondition; a
    status patch answers with the object as stored. *)
Class PolicyApi (W : Type) := {
  sp_get : NamespacedName -> St W (result apierr Policy);
  sp_update : Policy -> St W (option apierr);
  sp_patch_status : Policy -> Policy -> St W (result apierr Policy);
  pc_get : string -> St W (result apierr PriorityClass);
  pc_delete : string -> string -> St W (option apierr);
  pc_apply : string -> (PriorityClass -> PriorityClass) -> St W (option apierr);
  q_get : GVK -> string -> St W (result kinderr Queue);
  q_delete : GVK -> string -> string -> St W (option apierr);
  q_apply : GVK -> string -> (Queue -> Queue) -> St W (option apierr);
  sp_event : NamespacedName -> Event -> St W unit;
  contains_finalizer : list string -> string -> bool;
  add_finalizer : list string -> string -> list string;
  remove_finalizer : list string -> string -> list string;
  put_condition : list Condition -> Condition -> list Condition   (* meta.SetStatusCondition *)
}.

(** ** Constants *)

Definition schedulingPolicyFinalizer : string := "frame.plume-labs.io/schedulingpolicy".
Definition policyNamespaceLabel : string := "frame.plume-labs.io/policy-namespace".
Definition policyNameLabel : string := "frame.plume-labs.io/policy-name".
Definition policySchedulerLabel : string := "frame.plume-labs.io/scheduler".
Definition reservedPriorityClassPrefix : string := "system-".
Definition schedulerVolcano : string := "volcano".
Definition schedulerYunikorn : string := "yunikorn".
Definition schedulerDefault : string := "default".
Definition reservedQueueNames : list string := ["default"; "root"].
Definition reasonPriorityClassNotOwned : string := "PriorityClassNotOwned".
Definition reasonPriorityClassReserved : string := "PriorityClassReserved".
Definition reasonQueueNotOwned : string := "QueueNotOwned".
Definition reasonQueueReserved : string := "QueueReserved".

(** What a claim answers but nil: an ownershipRefusal, a
    queueKindUnavailable, or another error. *)
Inductive claimErr :=
| ownershipRefusal (Reason Message : string)
| queueKindUnavailable (err : apierr)
| claimFailed (err : apierr).

Definition pol_key (sp : Policy) : NamespacedName := (pol_Namespace sp, pol_Name sp).
Definition pol_text (sp : Policy) : string := pol_Namespace sp +:+ "/" +:+ pol_Name sp.

Definition reservedPriorityClassName (name : string) : bool := has_prefix reservedPriorityClassPrefix name.
Definition reservedQueueName (name : string) : bool := bool_decide (name ∈ reservedQueueNames).

(** A label or annotation of a map; one that is absent reads as empty. *)
Definition at_key (m : strmap) (k : string) : string := default "" (m !! k).

Definition markedBy (labels : strmap) (sp : Policy) : bool :=
  bool_decide (at_key labels policyNamespaceLabel = pol_Namespace sp) &&
  bool_decide (at_key labels policyNameLabel = pol_Name sp).

Definition describeManager (labels annotations : strmap) : string :=
  let rel := at_key annotations "meta.helm.sh/release-name" in
  let ns := at_key annotations "meta.helm.sh/release-namespace" in
  let by_ := at_key labels "app.kubernetes.io/managed-by" in
  if negb (bool_decide (rel = "")) then
    if negb (bool_decide (ns = "")) then "it belongs to Helm release " +:+ ns +:+ "/" +:+ rel
    else "it belongs to Helm release " +:+ rel
  else if negb (bool_decide (by_ = "")) then "it is managed by " +:+ quote by_
  else if bool_decide (is_Some (annotations !! "kubectl.kubernetes.io/last-applied-configuration"))
  then "it was created with kubectl apply"
  else "it predates this SchedulingPolicy".

Definition queueGVKFor (scheduler : string) : option GVK :=
  if bool_decide (scheduler = schedulerVolcano) then Some (mkGVK "scheduling.volcano.sh" "v1beta1" "Queue")
  else if bool_decide (scheduler = schedulerYunikorn) then Some (mkGVK "yunikorn.apache.org" "v1alpha1" "Queue")
  else None.

Definition zero_gvk : GVK := mkGVK "" "" "".

(** The spec's map is nil for a scheduler that has no Queue kind. *)
Definition queueGVKAndSpec (sp : Policy) : GVK * gmap string json :=
  let s := pol_Spec sp in
  match queueGVKFor (ps_Scheduler s) with
  | None => (zero_gvk, ∅)
  | Some gvk =>
    let weight := JNum (to_bytes (itoa (default 1 (ps_QueueWeight s)))) in
    (gvk,
     if bool_decide (ps_Scheduler s = schedulerYunikorn)
     then {["weight" := weight; "preemption" := JObj [("allowPreemptSelf", JBool (ps_Preemption s))]]}
     else {["weight" := weight; "reclaimable" := JBool (ps_Preemption s)]})
  end.

Definition appliedMsg (sp : Policy) : string :=
  let s := pol_Spec sp in
  "scheduler=" +:+ ps_Scheduler s +:+
  (if bool_decide (ps_PriorityClass s = "") then "" else " priorityClass=" +:+ ps_PriorityClass s) +:+
  (if bool_decide (ps_QueueName s = "") then "" else " queue=" +:+ ps_QueueName s).

(** The queue a policy wants: a name and a scheduler, both empty for none. *)
Definition wants_queue (sp : Policy) : bool :=
  negb (bool_decide (ps_QueueName (pol_Spec sp) = "")) && negb (bool_decide (ps_Scheduler (pol_Spec sp) = schedulerDefault)).
Definition wanted_queue (sp : Policy) : string * string :=
  if wants_queue sp then (ps_QueueName (pol_Spec sp), ps_Scheduler (pol_Spec sp)) else ("", "").

(** The mutate functions of the two CreateOrUpdates. *)
Definition class_of (sp : Policy) (pc : PriorityClass) : PriorityClass :=
  let s := pol_Spec sp in
  mkPC (pc_UID pc)
    (<[policySchedulerLabel := ps_Scheduler s]> (<[policyNameLabel := pol_Name sp]> (<[policyNamespaceLabel := pol_Namespace sp]> (pc_Labels pc))))
    (pc_Annotations pc) (default 0 (ps_PriorityValue s)) false
    ("Managed by SchedulingPolicy " +:+ pol_text sp)
    (if ps_Preemption s then "PreemptLowerPriority" else "Never").

Definition queue_of (sp : Policy) (q : Queue) : Queue :=
  mkQueue (qu_UID q)
    (<[policyNameLabel := pol_Name sp]> (<[policyNamespaceLabel := pol_Namespace sp]> (qu_Labels q)))
    (qu_Annotations q) (Some ((queueGVKAndSpec sp).2 ∪ default ∅ (qu_Spec q))).

(** ** The reconciler *)

Section Controller.
Context {W : Type} {PA : PolicyApi W}.

Definition releasePriorityClass (sp : Policy) (name : string) : St W (option apierr) :=
  if reservedPriorityClassName name then mret None else
  r ← pc_get name;
  match r with
  | inl e => if err_notfound e then mret None
             else mret (Some (wrap_err ("reading PriorityClass " +:+ quote name +:+ " before deleting it") e))
  | inr pc =>
    if negb (markedBy (pc_Labels pc) sp) then mret None else
    e ← pc_delete name (pc_UID pc);
    match ignore_not_found e with
    | Some e => mret (Some (wrap_err ("deleting PriorityClass " +:+ quote name) e))
    | None => mret None
    end
  end.

(** From the release of the old name on: the record moves. *)
Definition record_class (sp : Policy) (want : string) : St W (result claimErr Policy) :=
  let owned := pol_OwnedPriorityClass sp in
  rel ← (if bool_decide (owned = "") then mret None else releasePriorityClass sp owned);
  match rel with
  | Some e => mret (inl (claimFailed e))
  | None =>
    r ← sp_patch_status sp (set_owned_class sp want);
    match r with
    | inl e => mret (inl (claimFailed (wrap_err ("recording ownership of PriorityClass " +:+ quote want) e)))
    | inr sp' => mret (inr sp')
    end
  end.

Definition claimPriorityClass (sp : Policy) : St W (result claimErr Policy) :=
  let want := ps_PriorityClass (pol_Spec sp) in
  let owned := pol_OwnedPriorityClass sp in
  if bool_decide (want = owned) then mret (inr sp) else
  if bool_decide (want = "") then record_class sp want else
  if reservedPriorityClassName want then
    mret (inl (ownershipRefusal reasonPriorityClassReserved
      ("PriorityClass " +:+ quote want +:+ " is reserved: Kubernetes reserves the " +:+ quote reservedPriorityClassPrefix +:+
       " prefix, and this controller will neither create, adopt nor delete a name under it")))
  else
    r ← pc_get want;
    match r with
    | inr existing =>
      mret (inl (ownershipRefusal reasonPriorityClassNotOwned
        ("PriorityClass " +:+ quote want +:+ " already exists and was not created by SchedulingPolicy " +:+ pol_text sp +:+
         " (" +:+ describeManager (pc_Labels existing) (pc_Annotations existing) +:+ "); refusing to adopt it")))
    | inl e => if err_notfound e then record_class sp want
               else mret (inl (claimFailed (wrap_err ("checking whether PriorityClass " +:+ quote want +:+ " is free") e)))
    end.

Definition releaseQueue (sp : Policy) (scheduler name : string) : St W (option apierr) :=
  if reservedQueueName name then mret None else
  match queueGVKFor scheduler with
  | None => mret None
  | Some gvk =>
    r ← q_get gvk name;
    match r with
    | inl e => if err_notfound (ke_err e) then mret None
               else if ke_nomatch e then mret None
               else mret (Some (wrap_err ("reading " +:+ scheduler +:+ " Queue " +:+ quote name +:+ " before deleting it") (ke_err e)))
    | inr q =>
      if negb (markedBy (qu_Labels q) sp) then mret None else
      e ← q_delete gvk name (qu_UID q);
      match ignore_not_found e with
      | Some e => mret (Some (wrap_err ("deleting " +:+ scheduler +:+ " Queue " +:+ quote name) e))
      | None => mret None
      end
    end
  end.

Definition record_queue (sp : Policy) (wantName wantScheduler : string) : St W (result claimErr Policy) :=
  rel ← (if bool_decide (pol_OwnedQueue sp = "") then mret None
         else releaseQueue sp (pol_OwnedQueueScheduler sp) (pol_OwnedQueue sp));
  match rel with
  | Some e => mret (inl (claimFailed e))
  | None =>
    r ← sp_patch_status sp (set_owned_queue sp wantName wantScheduler);
    match r with
    | inl e => mret (inl (claimFailed (wrap_err ("recording ownership of " +:+ wantScheduler +:+ " Queue " +:+ quote wantName) e)))
    | inr sp' => mret (inr sp')
    end
  end.

Definition claimQueue (sp : Policy) : St W (result claimErr Policy) :=
  let '(wantName, wantScheduler) := wanted_queue sp in
  if bool_decide (wantName = pol_OwnedQueue sp) && bool_decide (wantScheduler = pol_OwnedQueueScheduler sp) then mret (inr sp) else
  if bool_decide (wantName = "") then record_queue sp wantName wantScheduler else
  if reservedQueueName wantName then
    mret (inl (ownershipRefusal reasonQueueReserved
      ("Queue " +:+ quote wantName +:+ " is reserved by the scheduler itself, and this controller will neither create, adopt nor delete it")))
  else
    match queueGVKFor wantScheduler with
    | None => mret (inl (claimFailed (plain_err ("no Queue kind is known for scheduler " +:+ quote wantScheduler))))
    | Some gvk =>
      r ← q_get gvk wantName;
      match r with
      | inr existing =>
        mret (inl (ownershipRefusal reasonQueueNotOwned
          (wantScheduler +:+ " Queue " +:+ quote wantName +:+ " already exists and was not created by SchedulingPolicy " +:+ pol_text sp +:+
           " (" +:+ describeManager (qu_Labels existing) (qu_Annotations existing) +:+ "); refusing to adopt it")))
      | inl e =>
        if ke_nomatch e then
          mret (inl (queueKindUnavailable (wrap_err ("the " +:+ wantScheduler +:+ " Queue kind is not installed on this cluster") (ke_err e))))
        else if err_notfound (ke_err e) then record_queue sp wantName wantScheduler
        else mret (inl (claimFailed (wrap_err ("checking whether " +:+ wantScheduler +:+ " Queue " +:+ quote wantName +:+ " is free") (ke_err e))))
      end
    end.

Definition ready_condition_of (sp : Policy) (status reason msg : string) : Condition :=
  mkCondition "Ready" status reason msg (pol_Generation sp).
Definition observed (sp : Policy) (c : Condition) : Policy :=
  set_observation sp (pol_Generation sp) (put_condition (pol_Conditions sp) c).

Definition refuse (sp : Policy) (reason msg : string) : St W (option apierr) :=
  _ ← sp_event (pol_key sp) (mkEvent EventTypeWarning reason msg);
  r ← sp_patch_status sp (observed sp (ready_condition_of sp "False" reason msg));
  match r with
  | inl e => mret (Some (wrap_err ("recording " +:+ reason +:+ " on SchedulingPolicy " +:+ pol_text sp) e))
  | inr _ => mret None
  end.

Definition reconcilePriorityClass (sp : Policy) : St W (option apierr) :=
  let name := ps_PriorityClass (pol_Spec sp) in
  if bool_decide (pol_OwnedPriorityClass sp <> name) then
    mret (Some (plain_err ("refusing to write PriorityClass " +:+ quote name +:+ ": SchedulingPolicy " +:+ pol_text sp +:+
                           " owns " +:+ quote (pol_OwnedPriorityClass sp))))
  else if reservedPriorityClassName name then mret (Some (plain_err ("refusing to write reserved PriorityClass " +:+ quote name)))
  else pc_apply name (class_of sp).

Definition reconcileQueue (sp : Policy) : St W (option apierr) :=
  let s := pol_Spec sp in
  if bool_decide (pol_OwnedQueue sp <> ps_QueueName s) || bool_decide (pol_OwnedQueueScheduler sp <> ps_Scheduler s) then
    mret (Some (plain_err ("refusing to write " +:+ ps_Scheduler s +:+ " Queue " +:+ quote (ps_QueueName s) +:+ ": SchedulingPolicy " +:+
                           pol_text sp +:+ " owns " +:+ quote (pol_OwnedQueue sp) +:+ " (" +:+ pol_OwnedQueueScheduler sp +:+ ")")))
  else if reservedQueueName (ps_QueueName s) then mret (Some (plain_err ("refusing to write reserved Queue " +:+ quote (ps_QueueName s))))
  else q_apply (queueGVKAndSpec sp).1 (ps_QueueName s) (queue_of sp).

Definition reconcileDelete (sp : Policy) : St W (option apierr) :=
  e ← (if bool_decide (pol_OwnedPriorityClass sp = "") then mret None else releasePriorityClass sp (pol_OwnedPriorityClass sp));
  match e with
  | Some e => mret (Some e)
  | None =>
    e ← (if bool_decide (pol_OwnedQueue sp = "") then mret None
         else releaseQueue sp (pol_OwnedQueueScheduler sp) (pol_OwnedQueue sp));
    match e with
    | Some e => mret (Some e)
    | None => sp_update (set_pol_finalizers sp (remove_finalizer (pol_Finalizers sp) schedulingPolicyFinalizer))
    end
  end.

(** The queue half of a pass past its claims: the error that degrades it. *)
Definition queue_half (sp : Policy) (queueClaimErr : option apierr) : St W (option string) :=
  if negb (wants_queue sp) then mret None else
  err ← match queueClaimErr with Some e => mret (Some e) | None => reconcileQueue sp end;
  match err with
  | None => mret None
  | Some e =>
    _ ← sp_event (pol_key sp) (mkEvent EventTypeWarning "QueueCRDMissing"
          (ps_Scheduler (pol_Spec sp) +:+ " queue CRD not installed: " +:+ err_text e));
    mret (Some ("Queue: " +:+ err_text e))
  end.

(** What Reconcile does once both names are claimed. *)
Definition apply_claimed (sp : Policy) (queueClaimErr : option apierr) : St W (option apierr) :=
  if negb (contains_finalizer (pol_Finalizers sp) schedulingPolicyFinalizer)
  then sp_update (set_pol_finalizers sp (add_finalizer (pol_Finalizers sp) schedulingPolicyFinalizer))
  else
    e ← (if bool_decide (ps_PriorityClass (pol_Spec sp) = "") then mret None else reconcilePriorityClass sp);
    match e with
    | Some e => mret (Some (wrap_err "reconciling PriorityClass" e))
    | None =>
      q ← queue_half sp queueClaimErr;
      sp' ← match q with
            | Some msg => mret (observed sp (ready_condition_of sp "False" "ReconcileError" ("[" +:+ msg +:+ "]")))
            | None =>
              _ ← sp_event (pol_key sp) (mkEvent EventTypeNormal "Applied" (appliedMsg sp));
              mret (observed sp (ready_condition_of sp "True" "Applied" (appliedMsg sp)))
            end;
      r ← sp_patch_status sp sp';
      mret (match r with inl e => Some e | inr _ => None end)
    end.

(** A pass; its result's requeue is always zero. *)
Definition Reconcile (key : NamespacedName) : St W (option apierr) :=
  r ← sp_get key;
  match r with
  | inl e => mret (ignore_not_found (Some e))
  | inr sp =>
    if pol_Deleting sp then reconcileDelete sp else
    c ← claimPriorityClass sp;
    match c with
    | inl (ownershipRefusal reason msg) => refuse sp reason msg
    | inl (queueKindUnavailable e) | inl (claimFailed e) => mret (Some (wrap_err "claiming PriorityClass" e))
    | inr sp =>
      q ← claimQueue sp;
      match q with
      | inl (ownershipRefusal reason msg) => refuse sp reason msg
      | inl (queueKindUnavailable e) => apply_claimed sp (Some e)
      | inl (claimFailed e) => mret (Some (wrap_err "claiming Queue" e))
      | inr sp => apply_claimed sp None
      end
    end
  end.

End Controller.
