(* ===== verification/SchedulingPolicySafety.v ===== *)
(** What a pass over a SchedulingPolicy may do to the cluster-scoped objects,
    as statements about the calls it makes and their answers: whatever else
    happens in the cluster between two calls; and runs
    on an in-memory API server. *)
From stdpp Require Import base tactics strings list gmap.
From Stdlib Require Import ZArith Lia.
From S2P Require Import Prelude Trace GoLib GoTime Kube Cluster StorageAlerts GoJson V1beta1 SchedulingPolicy.

Open Scope Z_scope.

(** One entry per call, with its arguments and its answer. *)
Inductive Call : Type :=
| CGet (key : NamespacedName) (r : result apierr Policy)
| CUpdate (sp : Policy) (e : option apierr)
| CPatch (base sp : Policy) (r : result apierr Policy)
| CPCGet (name : string) (r : result apierr PriorityClass)
| CPCDelete (name uid : string) (e : option apierr)
| CPCApply (name : string) (f : PriorityClass -> PriorityClass) (e : option apierr)
| CQGet (gvk : GVK) (name : string) (r : result kinderr Queue)
| CQDelete (gvk : GVK) (name uid : string) (e : option apierr)
| CQApply (gvk : GVK) (name : string) (f : Queue -> Queue) (e : option apierr)
| CEvent (key : NamespacedName) (ev : Event).

Class TracedPolicies (W : Type) `{PA : PolicyApi W} := {
  calls : W -> list Call;
  c_get k w : calls (sp_get k w).2 = (calls w ++ [CGet k (sp_get k w).1])%list;
  c_update sp w : calls (sp_update sp w).2 = (calls w ++ [CUpdate sp (sp_update sp w).1])%list;
  c_patch b sp w : calls (sp_patch_status b sp w).2 = (calls w ++ [CPatch b sp (sp_patch_status b sp w).1])%list;
  c_pc_get n w : calls (pc_get n w).2 = (calls w ++ [CPCGet n (pc_get n w).1])%list;
  c_pc_delete n u w : calls (pc_delete n u w).2 = (calls w ++ [CPCDelete n u (pc_delete n u w).1])%list;
  c_pc_apply n f w : calls (pc_apply n f w).2 = (calls w ++ [CPCApply n f (pc_apply n f w).1])%list;
  c_q_get g n w : calls (q_get g n w).2 = (calls w ++ [CQGet g n (q_get g n w).1])%list;
  c_q_delete g n u w : calls (q_delete g n u w).2 = (calls w ++ [CQDelete g n u (q_delete g n u w).1])%list;
  c_q_apply g n f w : calls (q_apply g n f w).2 = (calls w ++ [CQApply g n f (q_apply g n f w).1])%list;
  c_event k e w : calls (sp_event k e w).2 = (calls w ++ [CEvent k e])%list
}.

(** ** What a pass has learnt *)

(** The policy as the server last answered it. *)
Definition answered (cur : option Policy) (c : Call) : option Policy :=
  match c with CGet _ (inr sp) | CPatch _ _ (inr sp) => Some sp | _ => cur end.
Definition held (h : list Call) : option Policy := foldl answered None h.

(** Nothing more of the recorded name is this policy's to delete: it is
    reserved, was not there, does not carry the policy's marks, or was
    deleted. *)
Definition class_released (h : list Call) (sp : Policy) (name : string) : Prop :=
  name = "" \/ reservedPriorityClassName name = true \/
  (exists e, CPCGet name (inl e) ∈ h /\ err_notfound e = true) \/
  (exists pc, CPCGet name (inr pc) ∈ h /\ markedBy (pc_Labels pc) sp = false) \/
  (exists uid e, CPCDelete name uid e ∈ h /\ ignore_not_found e = None).
(** For a queue also: no kind is known for the scheduler, or it is not
    installed. *)
Definition queue_released (h : list Call) (sp : Policy) (scheduler name : string) : Prop :=
  name = "" \/ reservedQueueName name = true \/ queueGVKFor scheduler = None \/
  exists gvk, queueGVKFor scheduler = Some gvk /\
  ((exists e, CQGet gvk name (inl e) ∈ h /\ (err_notfound (ke_err e) = true \/ ke_nomatch e = true)) \/
   (exists q, CQGet gvk name (inr q) ∈ h /\ markedBy (qu_Labels q) sp = false) \/
   (exists uid e, CQDelete gvk name uid e ∈ h /\ ignore_not_found e = None)).

(** The name was free when it was looked at. *)
Definition class_free (h : list Call) (name : string) : Prop :=
  name = "" \/ (reservedPriorityClassName name = false /\ exists e, CPCGet name (inl e) ∈ h /\ err_notfound e = true).
Definition queue_free (h : list Call) (scheduler name : string) : Prop :=
  name = "" \/ (reservedQueueName name = false /\
  exists gvk e, queueGVKFor scheduler = Some gvk /\ CQGet gvk name (inl e) ∈ h /\ err_notfound (ke_err e) = true).

(** ** What a pass may do, after the calls [h] *)

Section Permitted.
Context {W : Type} {PA : PolicyApi W}.

Definition permitted (h : list Call) (c : Call) : Prop :=
  match c with
  | CPCDelete name uid _ =>
    exists sp pc, held h = Some sp /\ pol_OwnedPriorityClass sp = name /\ name <> "" /\ reservedPriorityClassName name = false /\
      CPCGet name (inr pc) ∈ h /\ pc_UID pc = uid /\ markedBy (pc_Labels pc) sp = true
  | CPCApply name f _ =>
    exists sp, held h = Some sp /\ pol_OwnedPriorityClass sp = name /\ ps_PriorityClass (pol_Spec sp) = name /\ name <> "" /\
      reservedPriorityClassName name = false /\ f = class_of sp
  | CQDelete gvk name uid _ =>
    exists sp q, held h = Some sp /\ pol_OwnedQueue sp = name /\ name <> "" /\ reservedQueueName name = false /\
      queueGVKFor (pol_OwnedQueueScheduler sp) = Some gvk /\ CQGet gvk name (inr q) ∈ h /\ qu_UID q = uid /\ markedBy (qu_Labels q) sp = true
  | CQApply gvk name f _ =>
    exists sp, held h = Some sp /\ pol_OwnedQueue sp = name /\ ps_QueueName (pol_Spec sp) = name /\ name <> "" /\
      pol_OwnedQueueScheduler sp = ps_Scheduler (pol_Spec sp) /\ reservedQueueName name = false /\
      gvk = (queueGVKAndSpec sp).1 /\ f = queue_of sp
  | CPatch base sp _ =>
    held h = Some base /\ pol_Finalizers sp = pol_Finalizers base /\
    (pol_OwnedPriorityClass sp <> pol_OwnedPriorityClass base ->
       pol_OwnedPriorityClass sp = ps_PriorityClass (pol_Spec base) /\ class_free h (pol_OwnedPriorityClass sp) /\
       class_released h base (pol_OwnedPriorityClass base)) /\
    ((pol_OwnedQueue sp, pol_OwnedQueueScheduler sp) <> (pol_OwnedQueue base, pol_OwnedQueueScheduler base) ->
       (pol_OwnedQueue sp, pol_OwnedQueueScheduler sp) = wanted_queue base /\ queue_free h (pol_OwnedQueueScheduler sp) (pol_OwnedQueue sp) /\
       queue_released h base (pol_OwnedQueueScheduler base) (pol_OwnedQueue base))
  | CUpdate sp' _ =>
    exists sp, held h = Some sp /\
      (sp' = set_pol_finalizers sp (add_finalizer (pol_Finalizers sp) schedulingPolicyFinalizer) \/
       (sp' = set_pol_finalizers sp (remove_finalizer (pol_Finalizers sp) schedulingPolicyFinalizer) /\ pol_Deleting sp = true /\
        class_released h sp (pol_OwnedPriorityClass sp) /\ queue_released h sp (pol_OwnedQueueScheduler sp) (pol_OwnedQueue sp)))
  | _ => True
  end.

Fixpoint safe (h t : list Call) : Prop :=
  match t with [] => True | c :: t => permitted h c /\ safe (h ++ [c]) t end.

Lemma safe_app h t t' : safe h (t ++ t') <-> safe h t /\ safe (h ++ t) t'.
Proof.
  revert h. induction t as [|c t IH]; intros h; simpl; [rewrite app_nil_r; tauto|].
  rewrite IH, <- app_assoc. simpl. tauto.
Qed.

Lemma held_snoc h c : held (h ++ [c]) = answered (held h) c.
Proof. unfold held. by rewrite foldl_app. Qed.
Lemma held_app h t : held (h ++ t) = foldl answered (held h) t.
Proof. unfold held. by rewrite foldl_app. Qed.

End Permitted.

Section Safety.
Context {W : Type} {PA : PolicyApi W} {TP : TracedPolicies W}.

Abbreviation emits := (Trace.emits calls).
Abbreviation emits_ret := (Trace.emits_ret calls).
Abbreviation emits_bind := (Trace.emits_bind calls).
Abbreviation emits_call := (Trace.emits_call calls).
Abbreviation emits_op := (Trace.emits_op calls).

(** Membership of a call in the history it was just added to. *)
Ltac in_trace := rewrite ?elem_of_app, ?elem_of_cons; tauto.
Ltac call H := eapply emits_call; [intros; apply H|]; intros ?.

(** A part of a pass that leaves the policy as it was answered. *)
Definition steady (sp : Policy) (t : list Call) : Prop :=
  forall h, held h = Some sp -> safe h t /\ held (h ++ t) = Some sp.

Lemma releaseClass_calls sp : pol_OwnedPriorityClass sp <> "" ->
  emits (releasePriorityClass sp (pol_OwnedPriorityClass sp)) (fun e t =>
    steady sp t /\ (e = None -> forall h, class_released (h ++ t) sp (pol_OwnedPriorityClass sp))).
Proof.
  intros Hne. unfold releasePriorityClass. set (name := pol_OwnedPriorityClass sp) in *.
  destruct (reservedPriorityClassName name) eqn:Hr.
  { apply emits_ret. split; [by intros h Hh; rewrite app_nil_r|]. intros _ h. right. by left. }
  call c_pc_get. destruct a as [e|pc].
  - assert (steady sp [CPCGet name (inl e)]) as Hs by (intros h Hh; rewrite held_snoc; by simpl).
    destruct (err_notfound e) eqn:He; apply emits_ret; (split; [done|]); [|done].
    intros _ h. right; right; left. exists e. split; [in_trace|done].
  - destruct (markedBy (pc_Labels pc) sp) eqn:Hm; simpl negb; cbv iota.
    + call c_pc_delete.
      assert (steady sp [CPCGet name (inr pc); CPCDelete name (pc_UID pc) a]) as Hs.
      { intros h Hh. rewrite held_app. simpl. split; [|done]. split; [done|]. split; [|done].
        exists sp, pc. rewrite held_snoc. simpl. repeat split; try done. in_trace. }
      destruct (ignore_not_found a) eqn:Ei; apply emits_ret; (split; [done|]); [done|].
      intros _ h. right; right; right; right. exists (pc_UID pc), a. split; [in_trace|done].
    + apply emits_ret. split; [intros h Hh; rewrite held_snoc; by simpl|]. intros _ h. right; right; right; left. exists pc. split; [in_trace|done].
Qed.

Lemma releaseQueue_calls sp : pol_OwnedQueue sp <> "" ->
  emits (releaseQueue sp (pol_OwnedQueueScheduler sp) (pol_OwnedQueue sp)) (fun e t =>
    steady sp t /\ (e = None -> forall h, queue_released (h ++ t) sp (pol_OwnedQueueScheduler sp) (pol_OwnedQueue sp))).
Proof.
  intros Hne. unfold releaseQueue. set (name := pol_OwnedQueue sp) in *. set (sch := pol_OwnedQueueScheduler sp).
  destruct (reservedQueueName name) eqn:Hr.
  { apply emits_ret. split; [by intros h Hh; rewrite app_nil_r|]. intros _ h. right. by left. }
  destruct (queueGVKFor sch) as [gvk|] eqn:Hg.
  2:{ apply emits_ret. split; [by intros h Hh; rewrite app_nil_r|]. intros _ h. right. right. by left. }
  assert (forall h, (exists e, CQGet gvk name (inl e) ∈ h /\ (err_notfound (ke_err e) = true \/ ke_nomatch e = true)) \/
     (exists q, CQGet gvk name (inr q) ∈ h /\ markedBy (qu_Labels q) sp = false) \/
     (exists uid e, CQDelete gvk name uid e ∈ h /\ ignore_not_found e = None) -> queue_released h sp sch name) as Hrel.
  { intros h Hh. right. right. right. exists gvk. by split. }
  call c_q_get. destruct a as [e|q].
  - assert (steady sp [CQGet gvk name (inl e)]) as Hs by (intros h Hh; rewrite held_snoc; by simpl).
    destruct (err_notfound (ke_err e)) eqn:He; [|destruct (ke_nomatch e) eqn:Hn]; apply emits_ret; (split; [done|]); [| |done];
      intros _ h; apply Hrel; left; exists e; (split; [in_trace|auto]).
  - destruct (markedBy (qu_Labels q) sp) eqn:Hm; simpl negb; cbv iota.
    + call c_q_delete.
      assert (steady sp [CQGet gvk name (inr q); CQDelete gvk name (qu_UID q) a]) as Hs.
      { intros h Hh. rewrite held_app. simpl. split; [|done]. split; [done|]. split; [|done].
        exists sp, q. rewrite held_snoc. simpl. repeat split; try done. in_trace. }
      destruct (ignore_not_found a) eqn:Ei; apply emits_ret; (split; [done|]); [done|].
      intros _ h. apply Hrel. right; right. exists (qu_UID q), a. split; [in_trace|done].
    + apply emits_ret. split; [intros h Hh; rewrite held_snoc; by simpl|]. intros _ h. apply Hrel. right; left. exists q. split; [in_trace|done].
Qed.

Lemma class_released_mono h t sp name : class_released h sp name -> class_released (h ++ t) sp name.
Proof.
  assert (forall c, c ∈ h -> c ∈ (h ++ t)%list) as Hin by (intros c Hc; apply elem_of_app; by left).
  intros [H|[H|[(e & H & He)|[(pc & H & Hm)|(u & e & H & He)]]]].
  - by left.
  - right; by left.
  - right; right; left. exists e. auto.
  - right; right; right; left. exists pc. auto.
  - right; right; right; right. exists u, e. auto.
Qed.

(** A release that is due only for a name on record. *)
Lemma releaseClass_due sp :
  emits (if bool_decide (pol_OwnedPriorityClass sp = "") then mret None else releasePriorityClass sp (pol_OwnedPriorityClass sp)) (fun e t =>
    steady sp t /\ (e = None -> forall h, class_released (h ++ t) sp (pol_OwnedPriorityClass sp))).
Proof.
  case_bool_decide as E; [|by apply releaseClass_calls]. apply emits_ret. split; [by intros h Hh; rewrite app_nil_r|]. intros _ h. by left.
Qed.
Lemma releaseQueue_due sp :
  emits (if bool_decide (pol_OwnedQueue sp = "") then mret None else releaseQueue sp (pol_OwnedQueueScheduler sp) (pol_OwnedQueue sp)) (fun e t =>
    steady sp t /\ (e = None -> forall h, queue_released (h ++ t) sp (pol_OwnedQueueScheduler sp) (pol_OwnedQueue sp))).
Proof.
  case_bool_decide as E; [|by apply releaseQueue_calls]. apply emits_ret. split; [by intros h Hh; rewrite app_nil_r|]. intros _ h. by left.
Qed.

(** After a part of a pass with the answer [r], the policy is the one it was
    or the one that was answered. *)
Definition leads (sp : Policy) {X} (r : result X Policy) (t : list Call) : Prop :=
  forall h, held h = Some sp -> safe h t /\ held (h ++ t) = Some (match r with inl _ => sp | inr sp' => sp' end).

Lemma leads_steady {X} sp (x : X) t : steady sp t -> leads sp (inl x) t.
Proof. intros H h Hh. by apply H. Qed.

Lemma record_class_calls sp h0 : ps_PriorityClass (pol_Spec sp) <> pol_OwnedPriorityClass sp ->
  (forall h, class_free (h ++ h0) (ps_PriorityClass (pol_Spec sp))) -> steady sp h0 ->
  emits (record_class sp (ps_PriorityClass (pol_Spec sp))) (fun r t => leads sp r (h0 ++ t)).
Proof.
  intros Hne Hfree Hs0. unfold record_class. cbv zeta. eapply emits_bind; [apply releaseClass_due|]. intros e t [Hs Hrel].
  assert (steady sp (h0 ++ t)) as Hs'.
  { intros h Hh. destruct (Hs0 h Hh) as [S1 H1]. destruct (Hs _ H1) as [S2 H2]. rewrite safe_app, app_assoc. auto. }
  destruct e as [e|]; [apply emits_ret; rewrite app_nil_r; by apply leads_steady|].
  call c_patch.
  assert (forall h, held h = Some sp -> safe h (h0 ++ t ++ [CPatch sp (set_owned_class sp (ps_PriorityClass (pol_Spec sp))) a])) as Hsafe.
  { intros h Hh. destruct (Hs' h Hh) as [S1 H1]. rewrite app_assoc, safe_app. split; [done|]. split; [|done].
    split; [done|]. split; [done|]. split; [|done]. intros _. split; [done|]. split.
    - specialize (Hfree h). rewrite app_assoc. simpl. unfold class_free in *. setoid_rewrite elem_of_app. naive_solver.
    - rewrite app_assoc. by apply Hrel. }
  destruct a as [e|sp']; apply emits_ret; intros h Hh; (split; [by apply Hsafe|]);
    rewrite app_assoc, app_assoc, held_snoc; [|done]. rewrite <- app_assoc. by destruct (Hs' h Hh) as [_ ->].
Qed.

Lemma claimClass_calls sp : emits (claimPriorityClass sp) (fun r t => leads sp r t).
Proof.
  unfold claimPriorityClass. cbv zeta.
  case_bool_decide as E1; [apply emits_ret; intros h Hh; by rewrite app_nil_r|].
  case_bool_decide as E2.
  { apply (record_class_calls sp []); [done|by left|]. intros h Hh. by rewrite app_nil_r. }
  destruct (reservedPriorityClassName _) eqn:Hr; [apply emits_ret; intros h Hh; by rewrite app_nil_r|].
  call c_pc_get.
  assert (steady sp [CPCGet (ps_PriorityClass (pol_Spec sp)) a]) as Hs by (intros h Hh; rewrite held_snoc; by simpl).
  destruct a as [e|pc]; [|by apply emits_ret, leads_steady].
  destruct (err_notfound e) eqn:He; [|by apply emits_ret, leads_steady].
  apply (record_class_calls sp [CPCGet (ps_PriorityClass (pol_Spec sp)) (inl e)]); [done| |done].
  intros h. right. split; [done|]. exists e. split; [in_trace|done].
Qed.

Lemma record_queue_calls sp h0 n s : wanted_queue sp = (n, s) -> (n, s) <> (pol_OwnedQueue sp, pol_OwnedQueueScheduler sp) ->
  (forall h, queue_free (h ++ h0) s n) -> steady sp h0 ->
  emits (record_queue sp n s) (fun r t => leads sp r (h0 ++ t)).
Proof.
  intros Hw Hne Hfree Hs0. unfold record_queue. eapply emits_bind; [apply releaseQueue_due|]. intros e t [Hs Hrel].
  assert (steady sp (h0 ++ t)) as Hs'.
  { intros h Hh. destruct (Hs0 h Hh) as [S1 H1]. destruct (Hs _ H1) as [S2 H2]. rewrite safe_app, app_assoc. auto. }
  destruct e as [e|]; [apply emits_ret; rewrite app_nil_r; by apply leads_steady|].
  call c_patch.
  assert (forall h, held h = Some sp -> safe h (h0 ++ t ++ [CPatch sp (set_owned_queue sp n s) a])) as Hsafe.
  { intros h Hh. destruct (Hs' h Hh) as [S1 H1]. rewrite app_assoc, safe_app. split; [done|]. split; [|done].
    split; [done|]. split; [done|]. split; [done|]. intros _. split; [done|]. split.
    - specialize (Hfree h). rewrite app_assoc. simpl. unfold queue_free in *. setoid_rewrite elem_of_app. naive_solver.
    - rewrite app_assoc. by apply Hrel. }
  destruct a as [e|sp']; apply emits_ret; intros h Hh; (split; [by apply Hsafe|]);
    rewrite app_assoc, app_assoc, held_snoc; [|done]. rewrite <- app_assoc. by destruct (Hs' h Hh) as [_ ->].
Qed.

Lemma claimQueue_calls sp : emits (claimQueue sp) (fun r t => leads sp r t).
Proof.
  unfold claimQueue. destruct (wanted_queue sp) as [n s] eqn:Hw.
  destruct (bool_decide (n = pol_OwnedQueue sp) && bool_decide (s = pol_OwnedQueueScheduler sp)) eqn:E1.
  { apply emits_ret. intros h Hh. by rewrite app_nil_r. }
  assert ((n, s) <> (pol_OwnedQueue sp, pol_OwnedQueueScheduler sp)) as Hne.
  { intros E. simplify_eq. by rewrite !bool_decide_true in E1. }
  clear E1.
  case_bool_decide as E2.
  { apply (record_queue_calls sp []); [done|done|by left|]. intros h Hh. by rewrite app_nil_r. }
  destruct (reservedQueueName n) eqn:Hr; [apply emits_ret; intros h Hh; by rewrite app_nil_r|].
  destruct (queueGVKFor s) as [gvk|] eqn:Hg; [|apply emits_ret; intros h Hh; by rewrite app_nil_r].
  call c_q_get.
  assert (steady sp [CQGet gvk n a]) as Hs by (intros h Hh; rewrite held_snoc; by simpl).
  destruct a as [e|q]; [|by apply emits_ret, leads_steady].
  destruct (ke_nomatch e) eqn:Hn; [by apply emits_ret, leads_steady|].
  destruct (err_notfound (ke_err e)) eqn:He; [|by apply emits_ret, leads_steady].
  apply (record_queue_calls sp [CQGet gvk n (inl e)]); [done|done| |done].
  intros h. right. split; [done|]. exists gvk, e. split; [done|]. split; [in_trace|done].
Qed.

(** ** The pass *)

Lemma observed_permitted h sp c r : held h = Some sp -> permitted h (CPatch sp (observed sp c) r).
Proof. intros Hh. split; [done|]. split; [done|]. by split. Qed.

Lemma refuse_calls sp reason msg : emits (refuse sp reason msg) (fun _ t => forall h, held h = Some sp -> safe h t).
Proof.
  unfold refuse. eapply Trace.emits_call0; [intros; apply c_event|]. intros _. call c_patch.
  destruct a; apply emits_ret; intros h Hh; cbn [safe]; (split; [done|]); (split; [|done]);
    apply observed_permitted; by rewrite held_snoc.
Qed.

Lemma reconcileClass_calls sp : emits (if bool_decide (ps_PriorityClass (pol_Spec sp) = "") then mret None else reconcilePriorityClass sp) (fun _ t => steady sp t).
Proof.
  assert (steady sp []) as Hnil by (intros h Hh; by rewrite app_nil_r).
  case_bool_decide as E; [by apply emits_ret|]. unfold reconcilePriorityClass. cbv zeta.
  destruct (decide (pol_OwnedPriorityClass sp <> ps_PriorityClass (pol_Spec sp))) as [D|D]; [rewrite bool_decide_true by done; by apply emits_ret|].
  rewrite bool_decide_false by done. apply dec_stable in D.
  destruct (reservedPriorityClassName _) eqn:Hr; [by apply emits_ret|].
  eapply Trace.emits_mono; [apply (emits_op _ (fun e => [CPCApply (ps_PriorityClass (pol_Spec sp)) (class_of sp) e])); intros; apply c_pc_apply|].
  intros e t -> h Hh. rewrite held_snoc. simpl. split; [|done]. split; [|done]. exists sp. done.
Qed.

Lemma queue_half_calls sp qe : emits (queue_half sp qe) (fun _ t => steady sp t).
Proof.
  assert (steady sp []) as Hnil by (intros h Hh; by rewrite app_nil_r).
  unfold queue_half. destruct (wants_queue sp) eqn:Hw; simpl negb; cbv iota; [|by apply emits_ret].
  eapply (emits_bind _ _ (fun _ t => steady sp t)).
  - destruct qe as [e|]; [by apply emits_ret|]. unfold reconcileQueue. cbv zeta.
    destruct (bool_decide _ || bool_decide _) eqn:E; [by apply emits_ret|]. apply orb_false_iff in E as [E1 E2].
    apply bool_decide_eq_false, dec_stable in E1. apply bool_decide_eq_false, dec_stable in E2.
    destruct (reservedQueueName _) eqn:Hr; [by apply emits_ret|].
    eapply Trace.emits_mono; [apply (emits_op _ (fun e => [CQApply (queueGVKAndSpec sp).1 (ps_QueueName (pol_Spec sp)) (queue_of sp) e])); intros; apply c_q_apply|].
    intros e t -> h Hh. rewrite held_snoc. simpl. split; [|done]. split; [|done]. exists sp. repeat split; try done.
    unfold wants_queue in Hw. apply andb_true_iff in Hw as [Hw _]. apply negb_true_iff, bool_decide_eq_false in Hw. done.
  - intros [e|] t Hs; [|apply emits_ret; by rewrite app_nil_r].
    eapply Trace.emits_call0; [intros; apply c_event|]. intros _. apply emits_ret.
    intros h Hh. destruct (Hs h Hh) as [S1 H1]. rewrite safe_app, app_assoc, held_snoc, H1. by simpl.
Qed.

Lemma apply_claimed_calls sp qe : emits (apply_claimed sp qe) (fun _ t => forall h, held h = Some sp -> safe h t).
Proof.
  unfold apply_claimed. destruct (contains_finalizer _ _); simpl negb; cbv iota.
  - eapply emits_bind; [apply reconcileClass_calls|]. intros e t Hs.
    destruct e as [e|]; [apply emits_ret; intros h Hh; rewrite app_nil_r; by apply Hs|].
    eapply emits_bind; [apply queue_half_calls|]. intros q t' Hs'.
    eapply (emits_bind _ _ (fun sp' t => (exists c, sp' = observed sp c) /\ steady sp t)).
    + destruct q as [msg|]; [apply emits_ret; split; [by eexists|]; intros h Hh; by rewrite app_nil_r|].
      eapply Trace.emits_call0; [intros; apply c_event|]. intros _. apply emits_ret. split; [by eexists|].
      intros h Hh. rewrite held_snoc, Hh. by simpl.
    + intros sp' t'' [[c ->] Hs'']. call c_patch. apply emits_ret. intros h Hh.
      destruct (Hs h Hh) as [S1 H1]. destruct (Hs' _ H1) as [S2 H2]. destruct (Hs'' _ H2) as [S3 H3].
      rewrite safe_app. split; [done|]. rewrite safe_app. split; [done|]. rewrite safe_app. split; [done|]. split; [|done].
      by apply observed_permitted.
  - eapply Trace.emits_mono; [apply (emits_op _ (fun e => [CUpdate (set_pol_finalizers sp (add_finalizer (pol_Finalizers sp) schedulingPolicyFinalizer)) e])); intros; apply c_update|].
    intros e t -> h Hh. split; [|done]. exists sp. split; [done|]. by left.
Qed.

Lemma reconcileDelete_calls sp : pol_Deleting sp = true -> emits (reconcileDelete sp) (fun _ t => forall h, held h = Some sp -> safe h t).
Proof.
  intros Hd. unfold reconcileDelete. eapply emits_bind; [apply releaseClass_due|]. intros e t [Hs Hrel].
  destruct e as [e|]; [apply emits_ret; intros h Hh; rewrite app_nil_r; by apply Hs|].
  eapply emits_bind; [apply releaseQueue_due|]. intros e t' [Hs' Hrel'].
  destruct e as [e|].
  { apply emits_ret. intros h Hh. destruct (Hs h Hh) as [S1 H1]. rewrite app_nil_r, safe_app. split; [done|]. by apply Hs'. }
  eapply Trace.emits_mono; [apply (emits_op _ (fun e => [CUpdate (set_pol_finalizers sp (remove_finalizer (pol_Finalizers sp) schedulingPolicyFinalizer)) e])); intros; apply c_update|].
  intros e u -> h Hh. destruct (Hs h Hh) as [S1 H1]. destruct (Hs' _ H1) as [S2 H2].
  rewrite safe_app. split; [done|]. rewrite safe_app. split; [done|]. split; [|done].
  exists sp. split; [done|]. right. split; [done|]. split; [done|]. split; [apply class_released_mono|]; auto.
Qed.

(** A part of a pass after another, which left the policy [sp']. *)
Lemma emits_then {A} (m : St W A) sp sp' t :
  (forall h, held h = Some sp -> safe h t /\ held (h ++ t) = Some sp') ->
  emits m (fun _ t' => forall h, held h = Some sp' -> safe h t') ->
  emits m (fun _ t' => forall h, held h = Some sp -> safe h (t ++ t')).
Proof.
  intros Ht Hm. eapply Trace.emits_mono; [exact Hm|]. intros x u Hu h Hh. destruct (Ht h Hh) as [S1 H1].
  rewrite safe_app. split; [done|]. by apply Hu.
Qed.

Lemma stop_safe {A} (x : A) sp : emits (mret x) (fun _ t' => forall h, held h = Some sp -> safe h t').
Proof. by apply emits_ret. Qed.

Lemma Reconcile_calls key : emits (Reconcile key) (fun _ t => safe [] t).
Proof.
  unfold Reconcile. call c_get. destruct a as [e|sp]; [by apply emits_ret|]. cbn [safe app].
  apply (Trace.emits_mono calls _ (fun _ t => forall h, held h = Some sp -> safe h t)); [|intros x t Ht; split; [done|]; by apply Ht].
  destruct (pol_Deleting sp) eqn:Hd; [by apply reconcileDelete_calls|].
  eapply emits_bind; [apply claimClass_calls|]. intros c t Hl.
  destruct c as [[reason msg|e|e]|sp']; [eapply emits_then; [exact Hl|]; apply refuse_calls || apply stop_safe..|].
  eapply emits_bind; [apply claimQueue_calls|]. intros q t' Hl'.
  apply (Trace.emits_mono calls _ (fun _ u => forall h, held h = Some sp -> safe h ((t ++ t') ++ u))); [|by intros x u Hu; rewrite app_assoc].
  assert (forall h, held h = Some sp -> safe h (t ++ t') /\ held (h ++ t ++ t') = Some (match q with inl _ => sp' | inr s => s end)) as Hl2.
  { intros h Hh. destruct (Hl h Hh) as [S1 H1]. destruct (Hl' _ H1) as [S2 H2]. rewrite safe_app, app_assoc. auto. }
  destruct q as [[reason msg|e|e]|sp'']; (eapply emits_then; [exact Hl2|]);
    apply refuse_calls || apply apply_claimed_calls || apply stop_safe.
Qed.

Lemma safe_spelled h t : safe h t -> forall t1 c t2, t = (t1 ++ c :: t2)%list -> permitted (h ++ t1) c.
Proof. intros Hs t1 c t2 ->. rewrite safe_app in Hs. simpl in Hs. tauto. Qed.

(** Whatever the cluster answers, each call of a pass is permitted by the calls
    before it. A PriorityClass or Queue is deleted only when the policy's
    status records it, its name is not reserved, and the object read in this
    pass, whose UID the delete carries, bears the policy's marks; one is
    written only when spec and record both name it and it is not reserved;
    the record moves only to a name that was read as absent, after what it
    named was let go; and the finalizer is removed only after both were. *)
Theorem policy_writes_owned key w :
  exists t, calls (Reconcile key w).2 = (calls w ++ t)%list /\ forall t1 c t2, t = (t1 ++ c :: t2)%list -> permitted t1 c.
Proof.
  destruct (Reconcile_calls key w) as (t & Ht & Hs). exists t. split; [done|]. exact (safe_spelled [] t Hs).
Qed.

(** ** Refusals *)

Definition refusal_reasons : list string :=
  [reasonPriorityClassNotOwned; reasonPriorityClassReserved; reasonQueueNotOwned; reasonQueueReserved].
Definition refused (t : list Call) : Prop := exists k ev, CEvent k ev ∈ t /\ ev_reason ev ∈ refusal_reasons.

(** Calls that give the policy nothing: no finalizer, no object written. *)
Definition takes_nothing (c : Call) : Prop :=
  match c with CUpdate _ _ | CPCApply _ _ _ | CQApply _ _ _ _ => False | _ => True end.
Definition no_refusal (c : Call) : Prop :=
  match c with CEvent _ ev => ev_reason ev ∉ refusal_reasons | _ => True end.
(** A call of a claim: neither. *)
Definition claiming (c : Call) : Prop := takes_nothing c /\ match c with CEvent _ _ => False | _ => True end.

Ltac quiet := repeat first [apply Forall_nil_2 | apply Forall_cons_2; [first [exact I | by split]|]].

Lemma releaseClass_claiming sp name : emits (releasePriorityClass sp name) (fun _ t => Forall claiming t).
Proof.
  unfold releasePriorityClass. destruct (reservedPriorityClassName name); [apply emits_ret; quiet|].
  call c_pc_get. destruct a as [e|pc]; [destruct (err_notfound e); apply emits_ret; quiet|].
  destruct (negb _); [apply emits_ret; quiet|]. call c_pc_delete. destruct (ignore_not_found a); apply emits_ret; quiet.
Qed.
Lemma releaseQueue_claiming sp s name : emits (releaseQueue sp s name) (fun _ t => Forall claiming t).
Proof.
  unfold releaseQueue. destruct (reservedQueueName name); [apply emits_ret; quiet|].
  destruct (queueGVKFor s) as [g|]; [|apply emits_ret; quiet].
  call c_q_get. destruct a as [e|pc]; [destruct (err_notfound _); [|destruct (ke_nomatch e)]; apply emits_ret; quiet|].
  destruct (negb _); [apply emits_ret; quiet|]. call c_q_delete. destruct (ignore_not_found a); apply emits_ret; quiet.
Qed.

(** A claim makes claiming calls only, and a refusal names its reason. *)
Definition claims {A} (r : result claimErr A) (t : list Call) : Prop :=
  match r with inl (ownershipRefusal reason _) => reason ∈ refusal_reasons | _ => True end /\ Forall claiming t.

Lemma record_class_claiming sp n : emits (record_class sp n) claims.
Proof.
  unfold record_class. cbv zeta. eapply (emits_bind _ _ (fun _ t => Forall claiming t)).
  { case_bool_decide; [apply emits_ret; quiet|apply releaseClass_claiming]. }
  intros e t Ht. destruct e; [apply emits_ret; by rewrite app_nil_r|].
  call c_patch. destruct a; apply emits_ret; (split; [done|]); (apply Forall_app; split; [done|quiet]).
Qed.
Lemma record_queue_claiming sp n s : emits (record_queue sp n s) claims.
Proof.
  unfold record_queue. eapply (emits_bind _ _ (fun _ t => Forall claiming t)).
  { case_bool_decide; [apply emits_ret; quiet|apply releaseQueue_claiming]. }
  intros e t Ht. destruct e; [apply emits_ret; by rewrite app_nil_r|].
  call c_patch. destruct a; apply emits_ret; (split; [done|]); (apply Forall_app; split; [done|quiet]).
Qed.

(** [m] after a call of a claim. *)
Lemma claims_cons {A} (m : St W (result claimErr A)) c : claiming c -> emits m claims -> emits m (fun r t => claims r (c :: t)).
Proof. intros Hc Hm. eapply Trace.emits_mono; [exact Hm|]. intros r t [Hr Ht]. split; [done|]. by constructor. Qed.

Lemma reason_ok n : (n < 4)%nat -> default "" (refusal_reasons !! n) ∈ refusal_reasons.
Proof. intros Hn. destruct (lookup_lt_is_Some_2 refusal_reasons n Hn) as [x Hx]. rewrite Hx. by apply list_elem_of_lookup_2 in Hx. Qed.

Lemma claimClass_claiming sp : emits (claimPriorityClass sp) claims.
Proof.
  unfold claimPriorityClass. cbv zeta. case_bool_decide; [apply emits_ret; split; [done|quiet]|].
  case_bool_decide; [apply record_class_claiming|].
  destruct (reservedPriorityClassName _); [apply emits_ret; split; [exact (reason_ok 1 ltac:(lia))|quiet]|].
  call c_pc_get. destruct a as [e|pc]; [|apply emits_ret; split; [exact (reason_ok 0 ltac:(lia))|quiet]].
  destruct (err_notfound e); [apply claims_cons; [by split|apply record_class_claiming]|apply emits_ret; split; [done|quiet]].
Qed.

Lemma claimQueue_claiming sp : emits (claimQueue sp) claims.
Proof.
  unfold claimQueue. destruct (wanted_queue sp) as [n s].
  destruct (_ && _); [apply emits_ret; split; [done|quiet]|]. case_bool_decide; [apply record_queue_claiming|].
  destruct (reservedQueueName n); [apply emits_ret; split; [exact (reason_ok 3 ltac:(lia))|quiet]|].
  destruct (queueGVKFor s) as [g|]; [|apply emits_ret; split; [done|quiet]].
  call c_q_get. destruct a as [e|q]; [|apply emits_ret; split; [exact (reason_ok 2 ltac:(lia))|quiet]].
  destruct (ke_nomatch e); [apply emits_ret; split; [done|quiet]|].
  destruct (err_notfound _); [apply claims_cons; [by split|apply record_queue_claiming]|apply emits_ret; split; [done|quiet]].
Qed.

(** A refusal's two calls. *)
Definition refusal_calls (t : list Call) : Prop :=
  exists sp reason msg r, reason ∈ refusal_reasons /\
    t = [CEvent (pol_key sp) (mkEvent EventTypeWarning reason msg);
         CPatch sp (observed sp (ready_condition_of sp "False" reason msg)) r].

Lemma refuse_refuses sp reason msg : reason ∈ refusal_reasons -> emits (refuse sp reason msg) (fun _ t => refusal_calls t).
Proof.
  intros Hr. unfold refuse. eapply Trace.emits_call0; [intros; apply c_event|]. intros _. call c_patch.
  destruct a; apply emits_ret; unfold refusal_calls; eauto 10.
Qed.

Lemma emits_one {A} (m : St W A) (ev : A -> Call) (P : Call -> Prop) :
  (forall w, calls (m w).2 = (calls w ++ [ev (m w).1])%list) -> (forall a, P (ev a)) -> emits m (fun _ t => Forall P t).
Proof. intros Hm HP. eapply Trace.emits_mono; [by apply (emits_op _ (fun a => [ev a]))|]. intros a t ->. by constructor. Qed.

Lemma not_reasons : ("QueueCRDMissing" ∉ refusal_reasons) /\ ("Applied" ∉ refusal_reasons).
Proof. split; apply (bool_decide_eq_true_1 _); reflexivity. Qed.

Lemma apply_claimed_unrefused sp qe : emits (apply_claimed sp qe) (fun _ t => Forall no_refusal t).
Proof.
  destruct not_reasons as [Hq Ha]. unfold apply_claimed. destruct (negb _).
  { eapply emits_one; [intros; apply c_update|done]. }
  eapply (emits_bind _ _ (fun _ t => Forall no_refusal t)).
  { case_bool_decide; [apply emits_ret; quiet|]. unfold reconcilePriorityClass. cbv zeta. case_bool_decide; [apply emits_ret; quiet|].
    destruct (reservedPriorityClassName _); [apply emits_ret; quiet|].
    eapply emits_one; [intros; apply c_pc_apply|done]. }
  intros e t Ht. destruct e; [apply emits_ret; by rewrite app_nil_r|].
  eapply (emits_bind _ _ (fun _ t => Forall no_refusal t)).
  { unfold queue_half. destruct (negb _); [apply emits_ret; quiet|]. eapply (emits_bind _ _ (fun _ t => Forall no_refusal t)).
    - destruct qe; [apply emits_ret; quiet|]. unfold reconcileQueue. cbv zeta. destruct (_ || _); [apply emits_ret; quiet|].
      destruct (reservedQueueName _); [apply emits_ret; quiet|].
      eapply emits_one; [intros; apply c_q_apply|done].
    - intros [e|] t' Ht'; [|apply emits_ret; by rewrite app_nil_r].
      eapply Trace.emits_call0; [intros; apply c_event|]. intros _. apply emits_ret. apply Forall_app. split; [done|]. by constructor. }
  intros q t' Ht'. eapply (emits_bind _ _ (fun _ t => Forall no_refusal t)).
  { destruct q; [apply emits_ret; quiet|]. eapply Trace.emits_call0; [intros; apply c_event|]. intros _. apply emits_ret. by constructor. }
  intros sp' t'' Ht''. call c_patch. apply emits_ret. rewrite !Forall_app. split; [done|]. split; [done|]. split; [done|]. quiet.
Qed.

(** A pass is refused with a last two calls that say so, having taken nothing;
    or it is not refused. *)
Definition refused_well (t : list Call) : Prop :=
  (exists t0 u, t = (t0 ++ u)%list /\ Forall claiming t0 /\ refusal_calls u) \/ Forall no_refusal t.

Lemma claiming_unrefused t : Forall claiming t -> Forall no_refusal t.
Proof. intros H. eapply Forall_impl; [exact H|]. by intros [] []. Qed.

Lemma refused_app t t' : Forall claiming t -> refused_well t' -> refused_well (t ++ t').
Proof.
  intros Ht [(t0 & u & -> & H0 & Hu)|H].
  - left. exists (t ++ t0)%list, u. rewrite app_assoc, Forall_app. auto.
  - right. apply Forall_app. split; [by apply claiming_unrefused|done].
Qed.

Lemma refusal_well u : refusal_calls u -> refused_well u.
Proof. intros Hu. left. by exists [], u. Qed.

Lemma Reconcile_refusals key : emits (Reconcile key) (fun _ t => refused_well t).
Proof.
  assert (forall {A} (m : St W A) t, Forall claiming t -> emits m (fun _ t' => refused_well t') -> emits m (fun _ t' => refused_well (t ++ t'))) as Hpre.
  { intros A m t Ht Hm. eapply Trace.emits_mono; [exact Hm|]. intros x t' Ht'. by apply refused_app. }
  assert (forall {A} (x : A), emits (mret x) (fun _ t' => refused_well t')) as Hstop by (intros A x; apply emits_ret; right; quiet).
  assert (forall sp reason msg, reason ∈ refusal_reasons -> emits (refuse sp reason msg) (fun _ t => refused_well t)) as Href.
  { intros sp reason msg Hr. eapply Trace.emits_mono; [by apply refuse_refuses|]. intros x t. apply refusal_well. }
  assert (forall sp qe, emits (apply_claimed sp qe) (fun _ t => refused_well t)) as Happ.
  { intros sp qe. eapply Trace.emits_mono; [apply apply_claimed_unrefused|]. intros x t Ht. by right. }
  unfold Reconcile. call c_get. apply (Hpre _ _ [CGet key a]); [quiet|]. destruct a as [e|sp]; [apply Hstop|].
  destruct (pol_Deleting sp).
  { unfold reconcileDelete. eapply (emits_bind _ _ (fun _ t => Forall claiming t)).
    { case_bool_decide; [apply emits_ret; quiet|apply releaseClass_claiming]. }
    intros e t Ht. apply Hpre; [done|]. destruct e; [apply Hstop|]. eapply (emits_bind _ _ (fun _ t => Forall claiming t)).
    { case_bool_decide; [apply emits_ret; quiet|apply releaseQueue_claiming]. }
    intros e t' Ht'. apply Hpre; [done|]. destruct e; [apply Hstop|].
    eapply Trace.emits_mono; [eapply (emits_one _ _ no_refusal); [intros; apply c_update|done]|]. intros x u Hu. by right. }
  eapply emits_bind; [apply claimClass_claiming|]. intros c t [Hr Ht]. apply Hpre; [done|].
  destruct c as [[reason msg|e|e]|sp']; [by apply Href|apply Hstop..|].
  eapply emits_bind; [apply claimQueue_claiming|]. intros q t' [Hr' Ht']. apply Hpre; [done|].
  destruct q as [[reason msg|e|e]|sp'']; [by apply Href|apply Happ|apply Hstop|apply Happ].
Qed.

(** What makes a claim of a PriorityClass refused, of the calls [t] from the
    claim on. *)
Definition must_refuse (sp : Policy) (t : list Call) : Prop :=
  let want := ps_PriorityClass (pol_Spec sp) in
  want <> "" /\ want <> pol_OwnedPriorityClass sp /\
  (reservedPriorityClassName want = true \/ exists pc rest, t = CPCGet want (inr pc) :: rest).

Lemma claimClass_must sp : emits (claimPriorityClass sp) (fun r t => claims r t /\
  forall t', must_refuse sp (t ++ t') -> exists reason msg, r = inl (ownershipRefusal reason msg)).
Proof.
  pose proof (claimClass_claiming sp) as Hc. intros w. destruct (Hc w) as (t & Ht & Hcl). exists t. split; [done|]. split; [done|].
  intros t' (Hne & Hno & Hcase). revert Ht Hcl. unfold claimPriorityClass. cbv zeta. rewrite !bool_decide_false by done.
  destruct (reservedPriorityClassName _) eqn:Hr; [by eauto|]. destruct Hcase as [?|(pc & rest & Hcase)]; [done|].
  rewrite !St_bind_run. pose proof (c_pc_get (ps_PriorityClass (pol_Spec sp)) w) as Hg.
  destruct (pc_get (ps_PriorityClass (pol_Spec sp)) w) as [[e|pc'] w']; cbn [fst snd] in *; [|by eauto].
  intros Ht _. exfalso.
  assert (exists u, t = CPCGet (ps_PriorityClass (pol_Spec sp)) (inl e) :: u) as [u ->]; [|by simplify_eq].
  destruct (err_notfound e).
  - destruct (record_class_claiming sp (ps_PriorityClass (pol_Spec sp)) w') as (u & Hu & _). rewrite Hu, Hg, <- app_assoc in Ht.
    apply app_inv_head in Ht. subst t. by eexists.
  - cbn [mret St_ret snd] in Ht. rewrite Hg in Ht. apply app_inv_head in Ht. subst t. by eexists.
Qed.

Lemma Reconcile_must key : emits (Reconcile key) (fun _ t => forall sp rest,
  t = CGet key (inr sp) :: rest -> pol_Deleting sp = false -> must_refuse sp rest -> refused t).
Proof.
  assert (forall {A} (m : St W A) (Q : A -> list Call -> Prop), emits m (fun _ _ => True) -> (forall x t, Q x t) -> emits m Q) as Hany.
  { intros A m Q Hm HQ. eapply Trace.emits_mono; [exact Hm|]. auto. }
  unfold Reconcile. call c_get. destruct a as [e|sp]; [by apply emits_ret|].
  destruct (pol_Deleting sp) eqn:Hd.
  { apply Hany; [eapply Trace.emits_mono; [by apply reconcileDelete_calls|done]|]. intros x t sp' rest E. simplify_eq. congruence. }
  eapply emits_bind; [apply claimClass_must|]. intros c t [[Hr Hcl] Hm].
  destruct c as [[reason msg|e|e]|sp'].
  - eapply Trace.emits_mono; [by apply refuse_refuses|]. intros x u (sp0 & re & ms & r & Hre & ->) sp' rest _ _ _.
    exists (pol_key sp0), (mkEvent EventTypeWarning re ms). split; [|exact Hre]. simpl. rewrite ?elem_of_cons, ?elem_of_app, ?elem_of_cons. tauto.
  - apply emits_ret. intros sp' rest E _ Hmu. simplify_eq. by destruct (Hm [] Hmu) as (? & ? & ?).
  - apply emits_ret. intros sp' rest E _ Hmu. simplify_eq. by destruct (Hm [] Hmu) as (? & ? & ?).
  - apply Hany.
    + eapply (emits_bind _ _ (fun _ _ => True)); [eapply Trace.emits_mono; [apply claimQueue_claiming|done]|]. intros q t' _.
      destruct q as [[reason msg|e|e]|sp'']; [|by apply Hany; [eapply Trace.emits_mono; [apply apply_claimed_unrefused|]|]|by apply emits_ret|by apply Hany; [eapply Trace.emits_mono; [apply apply_claimed_unrefused|]|]].
      by apply Hany; [eapply Trace.emits_mono; [apply refuse_calls|]|].
    + intros x u sp0 rest E _ Hmu. simplify_eq. by destruct (Hm u Hmu) as (? & ? & ?).
Qed.

(** A policy that asks for a PriorityClass which its status does not record,
    and which is reserved or exists, is refused; and a refused pass takes
    nothing: no finalizer, and no PriorityClass or Queue written. Its last
    call records Ready False with the reason. *)
Theorem refused_takes_nothing key w :
  exists t, calls (Reconcile key w).2 = (calls w ++ t)%list /\
    (refused t -> Forall takes_nothing t /\ exists t0 u, t = (t0 ++ u)%list /\ refusal_calls u) /\
    (forall sp rest, t = CGet key (inr sp) :: rest -> pol_Deleting sp = false -> must_refuse sp rest -> refused t).
Proof.
  destruct (Reconcile_refusals key w) as (t & Ht & Hw). destruct (Reconcile_must key w) as (t' & Ht' & Hm).
  rewrite Ht in Ht'. apply app_inv_head in Ht' as <-. exists t. split; [done|]. split; [|exact Hm].
  intros (k & ev & Hin & Hr). destruct Hw as [(t0 & u & -> & H0 & Hu)|Hno].
  - split; [|by exists t0, u]. apply Forall_app. split; [by eapply Forall_impl; [exact H0|]; intros c []|].
    destruct Hu as (sp & reason & msg & r & _ & ->). quiet.
  - rewrite Forall_forall in Hno. by destruct (Hno _ Hin).
Qed.

End Safety.

(** * Runs on an in-memory API server: the theorems at work, and what the gap between recording a
    name and creating its object lets happen *)

Record PWorld := mkPWorld {
  f_pols : gmap (string * string) Policy;
  f_pcs : gmap string PriorityClass;
  f_queues : gmap (string * string) Queue;   (* by API group and name *)
  f_kinds : list string;                     (* the API groups whose Queue is installed *)
  f_calls : list Call
}.
Definition log_call (c : Call) (w : PWorld) : PWorld :=
  mkPWorld (f_pols w) (f_pcs w) (f_queues w) (f_kinds w) (f_calls w ++ [c]).
Definition put_pols (w : PWorld) m : PWorld := mkPWorld m (f_pcs w) (f_queues w) (f_kinds w) (f_calls w).
Definition put_pcs (w : PWorld) m : PWorld := mkPWorld (f_pols w) m (f_queues w) (f_kinds w) (f_calls w).
Definition put_queues (w : PWorld) m : PWorld := mkPWorld (f_pols w) (f_pcs w) m (f_kinds w) (f_calls w).

(** An operation on the objects that is logged with its answer. *)
Definition logged {A} (m : St PWorld A) (ev : A -> Call) : St PWorld A := fun w =>
  let r := (m w).1 in (r, mkPWorld (f_pols (m w).2) (f_pcs (m w).2) (f_queues (m w).2) (f_kinds (m w).2) (f_calls w ++ [ev r])).

Definition absent : apierr := ApiErr "not found" true false.
Definition no_kind : kinderr := KindErr (plain_err "no matches for kind Queue") true.

Definition of_opt {A} (o : option A) : result apierr A := match o with Some x => inr x | None => inl absent end.

(** A merge patch of the status: the fields that differ. *)
Definition pick {A} `{EqDecision A} (base new cur : A) : A := if decide (base = new) then cur else new.
#[export] Instance Condition_eq' : EqDecision Condition.
Proof. solve_decision. Defined.
Definition merge_status (base sp cur : Policy) : Policy :=
  mkPolicy (pol_Namespace cur) (pol_Name cur) (pol_Generation cur) (pol_Finalizers cur) (pol_Deleting cur) (pol_Spec cur)
    (pick (pol_ObservedGeneration base) (pol_ObservedGeneration sp) (pol_ObservedGeneration cur))
    (pick (pol_Conditions base) (pol_Conditions sp) (pol_Conditions cur))
    (pick (pol_OwnedPriorityClass base) (pol_OwnedPriorityClass sp) (pol_OwnedPriorityClass cur))
    (pick (pol_OwnedQueue base) (pol_OwnedQueue sp) (pol_OwnedQueue cur))
    (pick (pol_OwnedQueueScheduler base) (pol_OwnedQueueScheduler sp) (pol_OwnedQueueScheduler cur)).

(** An update keeps the stored status; a policy being deleted whose last
    finalizer goes is gone. *)
Definition do_update (sp : Policy) : St PWorld (option apierr) := fun w =>
  match f_pols w !! pol_key sp with
  | None => (Some absent, w)
  | Some cur =>
    let new := set_pol_finalizers cur (pol_Finalizers sp) in
    (None, put_pols w (if pol_Deleting cur && bool_decide (pol_Finalizers sp = []) then delete (pol_key sp) (f_pols w)
                       else <[pol_key sp := new]> (f_pols w)))
  end.
Definition do_patch (base sp : Policy) : St PWorld (result apierr Policy) := fun w =>
  match f_pols w !! pol_key base with
  | None => (inl absent, w)
  | Some cur => let new := merge_status base sp cur in (inr new, put_pols w (<[pol_key base := new]> (f_pols w)))
  end.
Definition gone_unless {A} (uid : string) (o : option A) (u : A -> string) : option apierr :=
  match o with
  | None => Some absent
  | Some x => if bool_decide (u x = uid) then None else Some (ApiErr "precondition failed: UID" false true)
  end.

Definition new_pc : PriorityClass := mkPC "new" ∅ ∅ 0 false "" "".
Definition new_queue : Queue := mkQueue "new" ∅ ∅ None.

#[export] Instance demo_policies : PolicyApi PWorld := {|
  sp_get k := logged (fun w => (of_opt (f_pols w !! k), w)) (CGet k);
  sp_update sp := logged (do_update sp) (CUpdate sp);
  sp_patch_status b sp := logged (do_patch b sp) (CPatch b sp);
  pc_get n := logged (fun w => (of_opt (f_pcs w !! n), w)) (CPCGet n);
  pc_delete n u := logged (fun w => let e := gone_unless u (f_pcs w !! n) pc_UID in
    (e, if e then w else put_pcs w (delete n (f_pcs w)))) (CPCDelete n u);
  pc_apply n f := logged (fun w => (None, put_pcs w (<[n := f (default new_pc (f_pcs w !! n))]> (f_pcs w)))) (CPCApply n f);
  q_get g n := logged (fun w =>
    (if bool_decide (gvk_Group g ∈ f_kinds w)
     then match f_queues w !! (gvk_Group g, n) with Some q => inr q | None => inl (KindErr absent false) end
     else inl no_kind, w)) (CQGet g n);
  q_delete g n u := logged (fun w => let e := gone_unless u (f_queues w !! (gvk_Group g, n)) qu_UID in
    (e, if e then w else put_queues w (delete (gvk_Group g, n) (f_queues w)))) (CQDelete g n u);
  q_apply g n f := logged (fun w =>
    if bool_decide (gvk_Group g ∈ f_kinds w)
    then (None, put_queues w (<[(gvk_Group g, n) := f (default new_queue (f_queues w !! (gvk_Group g, n)))]> (f_queues w)))
    else (Some (ke_err no_kind), w)) (CQApply g n f);
  sp_event k e := logged (fun w => (tt, w)) (fun _ => CEvent k e);
  contains_finalizer fs f := bool_decide (f ∈ fs);
  add_finalizer fs f := fs ++ [f];
  remove_finalizer fs f := filter (fun x => x <> f) fs;
  put_condition cs c := filter (fun x => c_Type x <> c_Type c) cs ++ [c]
|}.

#[export] Instance demo_traced : TracedPolicies PWorld.
Proof. refine {| calls := f_calls |}; reflexivity. Defined.

(** ** Two policies for one class *)

Definition policy (ns : string) : Policy :=
  mkPolicy ns "p" 1 [] false (V1beta1.mkSPSpec "default" "" "gold" false (Some 10) None) 0 [] "" "" "".
Definition two_policies : PWorld :=
  mkPWorld {[("a", "p") := policy "a"; ("b", "p") := policy "b"]} ∅ ∅ [] [].

Fixpoint passes (ks : list (string * string)) (w : PWorld) : PWorld :=
  match ks with [] => w | k :: ks => passes ks (Reconcile k w).2 end.

Definition ready_of (w : PWorld) (k : string * string) : option (string * list string) :=
  (fun p => (pol_OwnedPriorityClass p, c_Status <$> pol_Conditions p)) <$> f_pols w !! k.
Definition marks_of (w : PWorld) (n : string) : option string :=
  (fun pc => at_key (pc_Labels pc) policyNamespaceLabel) <$> f_pcs w !! n.

(** The record is written a pass before the object is created: two policies
    whose first passes come before the second pass of either both record the
    name, both say Ready, and each pass of one takes the class from the
    other. *)
Theorem two_policies_own_one_class :
  let w := passes [("a", "p"); ("b", "p"); ("a", "p"); ("b", "p")] two_policies in
  ready_of w ("a", "p") = Some ("gold", ["True"]) /\ ready_of w ("b", "p") = Some ("gold", ["True"]) /\
  marks_of w "gold" = Some "b" /\ marks_of (passes [("a", "p")] w) "gold" = Some "a".
Proof. vm_compute. repeat split. Qed.

(** ** A class that came in between *)

Definition helm_class : PriorityClass :=
  mkPC "helm-uid" ∅ {["meta.helm.sh/release-name" := "r"]} 10 false "" "".
Definition deleted (w : PWorld) (k : string * string) : PWorld :=
  match f_pols w !! k with
  | None => w
  | Some p => put_pols w (<[k := mkPolicy (pol_Namespace p) (pol_Name p) (pol_Generation p) (pol_Finalizers p) true (pol_Spec p)
      (pol_ObservedGeneration p) (pol_Conditions p) (pol_OwnedPriorityClass p) (pol_OwnedQueue p) (pol_OwnedQueueScheduler p)]> (f_pols w))
  end.

(** A class that a Helm release creates after the policy's first pass is taken
    over by its second and deleted with the policy. *)
Theorem late_class_adopted :
  let w1 := passes [("a", "p")] two_policies in
  let w2 := put_pcs w1 {["gold" := helm_class]} in
  let w3 := passes [("a", "p")] w2 in
  let w4 := passes [("a", "p")] (deleted w3 ("a", "p")) in
  pc_UID <$> f_pcs w3 !! "gold" = Some "helm-uid" /\ marks_of w3 "gold" = Some "a" /\
  f_pcs w4 !! "gold" = None /\ f_pols w4 !! ("a", "p") = None.
Proof. vm_compute. repeat split. Qed.

(** A class that is there from the start is refused and stays as it is. *)
Lemma refused_takes_nothing_witness :
  let w := put_pcs two_policies {["gold" := helm_class]} in
  exists t, calls (Reconcile ("a", "p") w).2 = (calls w ++ t)%list /\ refused t /\ Forall takes_nothing t /\
    f_pcs (Reconcile ("a", "p") w).2 = {["gold" := helm_class]}.
Proof.
  intros w. destruct (refused_takes_nothing ("a", "p") w) as (t & Ht & H1 & H2). exists t. split; [exact Ht|].
  assert (refused t) as Hr.
  { assert (exists c1 c2 u, t = CGet ("a", "p") (inr (policy "a")) :: CPCGet "gold" (inr helm_class) :: c1 :: c2 :: u) as (c1 & c2 & u & ->).
    { vm_compute in Ht. subst t. eexists _, _, _. reflexivity. }
    eapply H2; [reflexivity|reflexivity|]. split; [discriminate|]. split; [discriminate|]. right. eauto. }
  split; [exact Hr|]. split; [by apply H1|]. vm_compute. reflexivity.
Defined.

(** The pass that deletes the class of a deleted policy makes permitted calls. *)
Lemma policy_writes_owned_witness :
  let w := deleted (passes [("a", "p"); ("a", "p")] two_policies) ("a", "p") in
  exists t, calls (Reconcile ("a", "p") w).2 = (calls w ++ t)%list /\
    (forall t1 c t2, t = (t1 ++ c :: t2)%list -> permitted t1 c) /\ f_pcs w !! "gold" <> None /\ f_pcs (Reconcile ("a", "p") w).2 = ∅.
Proof.
  intros w. destruct (policy_writes_owned ("a", "p") w) as (t & Ht & Hp). exists t.
  split; [exact Ht|]. split; [exact Hp|]. split; [vm_compute; discriminate|vm_compute; reflexivity].
Defined.
