(* ===== verification/Conversion.v ===== *)
(** api/frame/v1alpha1/conversion.go: the conversion between v1alpha1 and the
    hub v1beta1, kind by kind, with the annotation that carries what v1alpha1
    has no field for. A conversion writes into the object it is given and
    returns an error or none; both are results here, in the store of maps the
    two objects share. *)
From stdpp Require Import base tactics strings list gmap.
From Stdlib Require Import ZArith Lia Ascii.
From S2P Require Import Prelude GoLib GoTime Kube GoJson V1beta1 V1alpha1.

Open Scope Z_scope.

(** ** encoding/json on structs *)

(** foldName: names that differ in case only are one. Of the runes outside
    ASCII only two fold to a letter of a name here, U+017F and U+212A. *)
Definition fold_rune (r : rune) : bytes :=
  match r with
  | RuneBytes [c] => if in_range 97 122 c then [byteN (byteZ c - 32)] else [c]
  | RuneBytes b =>
    if bool_decide (b = [byte 197; byte 191]) then ["S"%char]
    else if bool_decide (b = [byte 226; byte 132; byte 170]) then ["K"%char] else b
  | RuneInvalid c => [c]
  end.
Definition fold_name (s : string) : bytes := concat (map fold_rune (runes s)).

(** The field a key of an object is for: the one of that name, or else the
    one whose name folds to the same. Other keys are skipped. *)
Fixpoint find_field {A} (p : string -> bool) (fields : list (string * A)) : option A :=
  match fields with
  | [] => None
  | (n, f) :: l => if p n then Some f else find_field p l
  end.
Definition field_of {A} (fields : list (string * A)) (key : string) : option A :=
  match find_field (fun n => bool_decide (n = key)) fields with
  | Some f => Some f
  | None => find_field (fun n => bool_decide (fold_name n = fold_name key)) fields
  end.

(** Decoding an object: its members in order, each into the value the ones
    before it left. *)
Fixpoint decode_members {A S} (fields : list (string * A)) (step : A -> S -> json -> option S) (x : S) (ms : list (string * json)) : option S :=
  match ms with
  | [] => Some x
  | (k, v) :: ms =>
    match field_of fields k with
    | Some f => x ← step f x v; decode_members fields step x ms
    | None => decode_members fields step x ms
    end
  end.

Definition decode_string (old : string) (v : json) : option string :=
  match v with JStr s => Some s | JNull => Some old | _ => None end.

(** Into a pointer to a slice. An array of any length, the empty one too,
    gives a slice that is not nil. A key that occurs again starts over; that
    its null and object elements would be merged into the elements of the
    first is left out. *)
Definition decode_slice {A} (dec : json -> option A) (v : json) : option (option (option (list A))) :=
  match v with
  | JNull => Some None
  | JArr l => l ← mapM dec l; Some (Some (Some l))
  | _ => None
  end.

(** A member with [omitempty]: absent, or its value. *)
Definition omit_string (k s : string) : list (string * json) :=
  if bool_decide (s = "") then [] else [(k, JStr s)].
Definition encode_all {A} (enc : A -> result string json) : list A -> result string (list json) :=
  fix go l := match l with
              | [] => inr []
              | x :: l => match enc x with
                          | inl e => inl e
                          | inr j => match go l with inl e => inl e | inr js => inr (j :: js) end
                          end
              end.
Definition omit_slice {A} (enc : A -> result string json) (k : string) (p : option (option (list A))) : result string (list (string * json)) :=
  match p with
  | None => inr []
  | Some None => inr [(k, JNull)]
  | Some (Some l) => match encode_all enc l with inl e => inl e | inr js => inr [(k, JArr js)] end
  end.

Section Conversion.
Context `{F : Foreign}.

Definition framejobContainerAnnotation : string := "frame.plume-labs.io/framejob-container".

(** The slices are behind pointers, so that empty and absent differ. *)
Record framejobContainerPayload := mkCPayload {
  cp_Image : string;
  cp_Command : option (option (list string));
  cp_Args : option (option (list string));
  cp_Env : option (option (list EnvVar));
  cp_EnvFrom : option (option (list EnvFromSource));
  cp_Resources : ResourceRequirements
}.

Record framejobContainerAnnotationPayload := mkPayload {
  fp_Type : string;
  fp_Container : option framejobContainerPayload;
  fp_ContainerJobName : string;
  fp_ContainerJobKind : string
}.
Definition zero_payload : framejobContainerAnnotationPayload := mkPayload "" None "" "".
Definition zero_cpayload : framejobContainerPayload := mkCPayload "" None None None None zero_rr.

(** *** json.Marshal of the payload, by its tags *)

Definition str_json (s : string) : result string json := inr (JStr s).

Definition encode_container (p : framejobContainerPayload) : result string json :=
  match omit_slice str_json "command" (cp_Command p), omit_slice str_json "args" (cp_Args p),
        omit_slice env_json "env" (cp_Env p), omit_slice envfrom_json "envFrom" (cp_EnvFrom p), rr_json (cp_Resources p) with
  | inr c, inr a, inr e, inr f, inr r =>
    inr (JObj ([("image", JStr (cp_Image p))] ++ c ++ a ++ e ++ f ++ [("resources", r)]))
  | inl e, _, _, _, _ | _, inl e, _, _, _ | _, _, inl e, _, _ | _, _, _, inl e, _ | _, _, _, _, inl e => inl e
  end.

Definition encode_payload (p : framejobContainerAnnotationPayload) : result string json :=
  let rest := omit_string "containerJobName" (fp_ContainerJobName p) ++ omit_string "containerJobKind" (fp_ContainerJobKind p) in
  match fp_Container p with
  | None => inr (JObj (omit_string "type" (fp_Type p) ++ rest))
  | Some c =>
    match encode_container c with
    | inl e => inl e
    | inr j => inr (JObj (omit_string "type" (fp_Type p) ++ ("container", j) :: rest))
    end
  end.

Definition Marshal (p : framejobContainerAnnotationPayload) : result string string :=
  match encode_payload p with inl e => inl e | inr j => inr (of_bytes (print j)) end.

(** *** json.Unmarshal into the payload *)

Inductive cfield := FImage | FCommand | FArgs | FEnv | FEnvFrom | FResources.
Definition container_fields : list (string * cfield) :=
  [("image", FImage); ("command", FCommand); ("args", FArgs); ("env", FEnv); ("envFrom", FEnvFrom); ("resources", FResources)].

Definition container_step (f : cfield) (p : framejobContainerPayload) (v : json) : option framejobContainerPayload :=
  let '(mkCPayload i c a e ef r) := p in
  match f with
  | FImage => i ← decode_string i v; Some (mkCPayload i c a e ef r)
  | FCommand => c ← decode_slice (decode_string "") v; Some (mkCPayload i c a e ef r)
  | FArgs => a ← decode_slice (decode_string "") v; Some (mkCPayload i c a e ef r)
  | FEnv => e ← decode_slice env_decode v; Some (mkCPayload i c a e ef r)
  | FEnvFrom => ef ← decode_slice envfrom_decode v; Some (mkCPayload i c a e ef r)
  | FResources => r ← rr_decode r v; Some (mkCPayload i c a e ef r)
  end.

Definition decode_container (old : option framejobContainerPayload) (v : json) : option (option framejobContainerPayload) :=
  match v with
  | JNull => Some None
  | JObj ms => c ← decode_members container_fields container_step (default zero_cpayload old) ms; Some (Some c)
  | _ => None
  end.

Inductive pfield := FType | FContainer | FJobName | FJobKind.
Definition payload_fields : list (string * pfield) :=
  [("type", FType); ("container", FContainer); ("containerJobName", FJobName); ("containerJobKind", FJobKind)].

Definition payload_step (f : pfield) (p : framejobContainerAnnotationPayload) (v : json) : option framejobContainerAnnotationPayload :=
  let '(mkPayload t c n k) := p in
  match f with
  | FType => t ← decode_string t v; Some (mkPayload t c n k)
  | FContainer => c ← decode_container c v; Some (mkPayload t c n k)
  | FJobName => n ← decode_string n v; Some (mkPayload t c n k)
  | FJobKind => k ← decode_string k v; Some (mkPayload t c n k)
  end.

Definition Unmarshal (raw : string) : result string framejobContainerAnnotationPayload :=
  match (v ← parse raw;
         match v with
         | JNull => Some zero_payload
         | JObj ms => decode_members payload_fields payload_step zero_payload ms
         | _ => None
         end) with
  | Some p => inr p
  | None => inl (json_error raw)
  end.

(** ** FrameJob *)

Definition toFramejobContainerPayload (c : option ContainerSpec) : option framejobContainerPayload :=
  match c with
  | None => None
  | Some c =>
    Some (mkCPayload (cs_Image c)
      (match cs_Command c with Some _ => Some (cs_Command c) | None => None end)
      (match cs_Args c with Some _ => Some (cs_Args c) | None => None end)
      (match cs_Env c with Some _ => Some (cs_Env c) | None => None end)
      (match cs_EnvFrom c with Some _ => Some (cs_EnvFrom c) | None => None end)
      (cs_Resources c))
  end.

Definition fromFramejobContainerPayload (p : option framejobContainerPayload) : option ContainerSpec :=
  match p with
  | None => None
  | Some p =>
    Some (mkContainer (cp_Image p)
      (match cp_Command p with Some s => s | None => None end)
      (match cp_Args p with Some s => s | None => None end)
      (match cp_Env p with Some s => s | None => None end)
      (cp_Resources p)
      (match cp_EnvFrom p with Some s => s | None => None end))
  end.

(** The payload of a job, when it has something to stash. *)
Definition stash_due (src : V1beta1.FrameJob) : bool :=
  negb (bool_decide (js_Container (j_Spec src) = None)) || negb (bool_decide (js_Type (j_Spec src) = "")) ||
  negb (bool_decide (jt_ContainerJobName (j_Status src) = "")) || negb (bool_decide (jt_ContainerJobKind (j_Status src) = "")).
Definition stash_payload (src : V1beta1.FrameJob) : framejobContainerAnnotationPayload :=
  mkPayload (js_Type (j_Spec src)) (toFramejobContainerPayload (js_Container (j_Spec src)))
    (jt_ContainerJobName (j_Status src)) (jt_ContainerJobKind (j_Status src)).

Definition read_map (r : option nat) : St heap strmap := fun h => (deref h r, h).

(** [dst.Annotations] and [src.Annotations] are one map until the copy. *)
Definition stashFrameJobContainer (dst : V1alpha1.FrameJob) (src : V1beta1.FrameJob) : St heap (V1alpha1.FrameJob * option string) :=
  if negb (stash_due src) then mret (dst, None) else
  match Marshal (stash_payload src) with
  | inl e => mret (dst, Some ("stashing spec.container/spec.type for v1alpha1: " +:+ e))
  | inr raw =>
    annotations ← read_map (om_Annotations (aj_Meta dst));
    r ← alloc (<[framejobContainerAnnotation := raw]> annotations);
    mret (V1alpha1.mkFJ (set_annots (aj_Meta dst) (Some r)) (aj_Spec dst) (aj_Status dst), None)
  end.

(** The fields restoreFrameJobContainer fills. *)
Definition fill_container (dst : V1beta1.FrameJob) (p : framejobContainerAnnotationPayload) (m : ObjectMeta) : V1beta1.FrameJob :=
  let s := j_Spec dst in
  let t := j_Status dst in
  V1beta1.mkFJ m
    (V1beta1.mkFJSpec (js_Pipeline s) (fromFramejobContainerPayload (fp_Container p)) (fp_Type p) (js_ServiceClass s) (js_Priority s)
       (js_GPUCount s) (js_Parameters s) (js_Suspended s))
    (V1beta1.mkFJStatus (jt_ObservedGeneration t) (jt_Conditions t) (jt_ArgoWorkflowName t) (fp_ContainerJobName p)
       (fp_ContainerJobKind p) (jt_StartTime t) (jt_CompletionTime t) (jt_Message t)).

Definition restoreFrameJobContainer (dst : V1beta1.FrameJob) (src : V1alpha1.FrameJob) : St heap (V1beta1.FrameJob * option string) :=
  annots ← read_map (om_Annotations (aj_Meta src));
  match annots !! framejobContainerAnnotation with
  | None => mret (dst, None)
  | Some raw =>
    match Unmarshal raw with
    | inl e => mret (dst, Some ("restoring spec.container/spec.type from v1alpha1: " +:+ e))
    | inr payload =>
      own ← read_map (om_Annotations (j_Meta dst));
      if bool_decide (own = ∅) then mret (fill_container dst payload (j_Meta dst), None) else
      let annotations := delete framejobContainerAnnotation own in
      r ← alloc annotations;
      mret (fill_container dst payload (set_annots (j_Meta dst) (if bool_decide (annotations = ∅) then None else Some r)), None)
    end
  end.

(** v1beta1 names the type of a parameter's value; the maps are the same. *)
Definition toParameterValues (m : option strmap) : option strmap :=
  match m with None => None | Some m => Some (list_to_map (map (fun '(k, v) => (k, v)) (map_to_list m))) end.
Definition fromParameterValues (m : option strmap) : option strmap :=
  match m with None => None | Some m => Some (list_to_map (map (fun '(k, v) => (k, v)) (map_to_list m))) end.

Definition expected (op want : string) (got : Hub) : option string :=
  Some (op +:+ ": expected " +:+ want +:+ ", got " +:+ hub_type got).

Definition FrameJob_ConvertTo (src : V1alpha1.FrameJob) (dstRaw : Hub) : St heap (Hub * option string) :=
  match dstRaw with
  | HubFrameJob dst =>
    let s := aj_Spec src in
    let dst := V1beta1.mkFJ (aj_Meta src)
      (V1beta1.mkFJSpec (ajs_Pipeline s) (js_Container (j_Spec dst)) (js_Type (j_Spec dst)) (ajs_ServiceClass s) (ajs_Priority s)
         (ajs_GPUCount s) (toParameterValues (ajs_Parameters s)) (ajs_Suspended s)) (j_Status dst) in
    res ← restoreFrameJobContainer dst src;
    let '(dst, err) := res in
    match err with
    | Some e => mret (HubFrameJob dst, Some e)
    | None =>
      let t := aj_Status src in
      mret (HubFrameJob (V1beta1.mkFJ (j_Meta dst) (j_Spec dst)
        (V1beta1.mkFJStatus (ajt_ObservedGeneration t) (ajt_Conditions t) (ajt_ArgoWorkflowName t)
           (jt_ContainerJobName (j_Status dst)) (jt_ContainerJobKind (j_Status dst))
           (ajt_StartTime t) (ajt_CompletionTime t) (ajt_Message t))), None)
    end
  | _ => mret (dstRaw, expected "ConvertTo" "*v1beta1.FrameJob" dstRaw)
  end.

Definition FrameJob_ConvertFrom (dst : V1alpha1.FrameJob) (srcRaw : Hub) : St heap (V1alpha1.FrameJob * option string) :=
  match srcRaw with
  | HubFrameJob src =>
    let dst := V1alpha1.mkFJ (j_Meta src) (aj_Spec dst) (aj_Status dst) in
    res ← stashFrameJobContainer dst src;
    let '(dst, err) := res in
    match err with
    | Some e => mret (dst, Some e)
    | None =>
      let s := j_Spec src in
      let t := j_Status src in
      mret (V1alpha1.mkFJ (aj_Meta dst)
        (V1alpha1.mkFJSpec (js_Pipeline s) (js_ServiceClass s) (js_Priority s) (om_Namespace (j_Meta src)) (js_GPUCount s)
           (fromParameterValues (js_Parameters s)) (js_Suspended s))
        (V1alpha1.mkFJStatus (jt_ObservedGeneration t) (FrameJobPhaseFromConditions (jt_Conditions t)) (jt_Conditions t)
           (jt_ArgoWorkflowName t) (jt_StartTime t) (jt_CompletionTime t) (jt_Message t)), None)
    end
  | _ => mret (dst, expected "ConvertFrom" "*v1beta1.FrameJob" srcRaw)
  end.

(** ** FrameNode *)

Definition FrameNode_ConvertTo (src : V1alpha1.FrameNode) (dstRaw : Hub) : Hub * option string :=
  match dstRaw with
  | HubFrameNode _ =>
    let s := an_Spec src in
    let w := ans_Network s in
    let t := an_Status src in
    (HubFrameNode (V1beta1.mkFN (an_Meta src)
      (V1beta1.mkFNSpec (ans_IP s) (ans_Role s)
         (V1beta1.mkNet (anw_Address w) (anw_Gateway w) (anw_DNS w) (anw_VLAN w) (anw_Bond w))
         (ans_RDMAInterface s) (ans_Hostname s) (ans_Rack s) (ans_Zone s) (ans_ServiceClass s))
      (V1beta1.mkFNStatus (ant_ObservedGeneration t) (ant_Conditions t) (ant_KubeletVersion t) (ant_Capacity t)
         (ant_Allocatable t) (ant_NodeName t))), None)
  | _ => (dstRaw, expected "ConvertTo" "*v1beta1.FrameNode" dstRaw)
  end.

Definition FrameNode_ConvertFrom (dst : V1alpha1.FrameNode) (srcRaw : Hub) : V1alpha1.FrameNode * option string :=
  match srcRaw with
  | HubFrameNode src =>
    let s := n_Spec src in
    let w := ns_Network s in
    let t := n_Status src in
    (V1alpha1.mkFN (n_Meta src)
      (V1alpha1.mkFNSpec (ns_IP s) (ns_Role s)
         (V1alpha1.mkNet (nw_Address w) (nw_Gateway w) (nw_DNS w) (nw_VLAN w) (nw_Bond w))
         (ns_RDMAInterface s) (ns_Hostname s) (ns_Rack s) (ns_Zone s) (ns_ServiceClass s))
      (V1alpha1.mkFNStatus (nt_ObservedGeneration t) (FrameNodePhaseFromConditions (nt_Conditions t)) (nt_Conditions t)
         (nt_KubeletVersion t) (nt_Capacity t) (nt_Allocatable t) (nt_NodeName t)), None)
  | _ => (dst, expected "ConvertFrom" "*v1beta1.FrameNode" srcRaw)
  end.

(** ** FrameResourceQuota *)

Definition FrameResourceQuota_ConvertTo (src : V1alpha1.FrameResourceQuota) (dstRaw : Hub) : Hub * option string :=
  match dstRaw with
  | HubFrameResourceQuota _ =>
    let s := aq_Spec src in
    let t := aq_Status src in
    (HubFrameResourceQuota (V1beta1.mkFQ (aq_Meta src)
      (V1beta1.mkFQSpec (aqs_ServiceClass s) (aqs_MaxGPUs s) (aqs_MaxCPU s) (aqs_MaxMemory s) (aqs_MaxJobs s))
      (V1beta1.mkFQStatus (aqt_ObservedGeneration t) (aqt_Used t) (aqt_Namespaces t) (aqt_Conditions t))), None)
  | _ => (dstRaw, expected "ConvertTo" "*v1beta1.FrameResourceQuota" dstRaw)
  end.

Definition FrameResourceQuota_ConvertFrom (dst : V1alpha1.FrameResourceQuota) (srcRaw : Hub) : V1alpha1.FrameResourceQuota * option string :=
  match srcRaw with
  | HubFrameResourceQuota src =>
    let s := q_Spec src in
    let t := q_Status src in
    (V1alpha1.mkFQ (q_Meta src)
      (V1alpha1.mkFQSpec (qs_ServiceClass s) (qs_MaxGPUs s) (qs_MaxCPU s) (qs_MaxMemory s) (qs_MaxJobs s))
      (V1alpha1.mkFQStatus (qt_ObservedGeneration t) (qt_Used t) (qt_Namespaces t) (qt_Conditions t)), None)
  | _ => (dst, expected "ConvertFrom" "*v1beta1.FrameResourceQuota" srcRaw)
  end.

(** ** SchedulingPolicy *)

Definition SchedulingPolicy_ConvertTo (src : V1alpha1.SchedulingPolicy) (dstRaw : Hub) : Hub * option string :=
  match dstRaw with
  | HubSchedulingPolicy _ =>
    let s := ap_Spec src in
    let t := ap_Status src in
    (HubSchedulingPolicy (V1beta1.mkSP (ap_Meta src)
      (V1beta1.mkSPSpec (aps_Scheduler s) (aps_QueueName s) (aps_PriorityClass s) (aps_Preemption s) (aps_PriorityValue s) (aps_QueueWeight s))
      (V1beta1.mkSPStatus (apt_ObservedGeneration t) (apt_Conditions t) (apt_OwnedPriorityClass t) (apt_OwnedQueue t)
         (apt_OwnedQueueScheduler t))), None)
  | _ => (dstRaw, expected "ConvertTo" "*v1beta1.SchedulingPolicy" dstRaw)
  end.

Definition SchedulingPolicy_ConvertFrom (dst : V1alpha1.SchedulingPolicy) (srcRaw : Hub) : V1alpha1.SchedulingPolicy * option string :=
  match srcRaw with
  | HubSchedulingPolicy src =>
    let s := p_Spec src in
    let t := p_Status src in
    (V1alpha1.mkSP (p_Meta src)
      (V1alpha1.mkSPSpec (ps_Scheduler s) (ps_QueueName s) (ps_PriorityClass s) (ps_Preemption s) (ps_PriorityValue s) (ps_QueueWeight s))
      (V1alpha1.mkSPStatus (pt_ObservedGeneration t) (pt_OwnedPriorityClass t) (pt_OwnedQueue t) (pt_OwnedQueueScheduler t)
         (pt_Conditions t)), None)
  | _ => (dst, expected "ConvertFrom" "*v1beta1.SchedulingPolicy" srcRaw)
  end.

(** ** FrameUser *)

Definition toBetaCredentials (l : option (list V1alpha1.WebAuthnCredential)) : option (list V1beta1.WebAuthnCredential) :=
  match l with
  | None => None
  | Some l => Some (map (fun c => V1beta1.mkCred (awc_ID c) (awc_PublicKey c) (awc_SignCount c) (awc_AddedAt c) (awc_Label c)) l)
  end.
Definition fromBetaCredentials (l : option (list V1beta1.WebAuthnCredential)) : option (list V1alpha1.WebAuthnCredential) :=
  match l with
  | None => None
  | Some l => Some (map (fun c => V1alpha1.mkCred (wc_ID c) (wc_PublicKey c) (wc_SignCount c) (wc_AddedAt c) (wc_Label c)) l)
  end.

Definition FrameUser_ConvertTo (src : V1alpha1.FrameUser) (dstRaw : Hub) : Hub * option string :=
  match dstRaw with
  | HubFrameUser _ =>
    let s := au_Spec src in
    let t := au_Status src in
    (HubFrameUser (V1beta1.mkFU (au_Meta src)
      (V1beta1.mkFUSpec (aus_Email s) (aus_Role s) (aus_PasswordAuth s) (aus_State s))
      (V1beta1.mkFUStatus (aut_ObservedGeneration t) (aus_PasswordHash s) (toBetaCredentials (aut_Credentials t)))), None)
  | _ => (dstRaw, expected "ConvertTo" "*v1beta1.FrameUser" dstRaw)
  end.

Definition FrameUser_ConvertFrom (dst : V1alpha1.FrameUser) (srcRaw : Hub) : V1alpha1.FrameUser * option string :=
  match srcRaw with
  | HubFrameUser src =>
    let s := u_Spec src in
    let t := u_Status src in
    (V1alpha1.mkFU (u_Meta src)
      (V1alpha1.mkFUSpec (us_Email s) (us_Role s) (us_PasswordAuth s) (us_State s) (ut_PasswordHash t))
      (V1alpha1.mkFUStatus (ut_ObservedGeneration t) (fromBetaCredentials (ut_Credentials t))), None)
  | _ => (dst, expected "ConvertFrom" "*v1beta1.FrameUser" srcRaw)
  end.

End Conversion.
