(* ===== verification/GoDecode.v ===== *)
(** Reading text and JSON the way Go's library does: encoding/json's Unmarshal into a struct,
    float64 arithmetic and strconv.ParseFloat, and regexp.

    A Go struct that JSON is decoded into is a [ty], its fields with the keys of their tags. A
    finite float64 is [f_m * 2 ^ f_e], and an operation on floats is the exact one, rounded to the
    nearest ([Float]). A regular expression is a [re]; [Regexp.exec] is the match Go's leftmost-first rule
    prefers, and [matches_anchored] says when an anchored expression has one. *)
From stdpp Require Import base tactics strings list gmap.
From Stdlib Require Import ZArith Lia Ascii.
From S2P Require Import Prelude GoLib GoTime GoNet GoJson Conversion.

Open Scope Z_scope.

(** ** encoding/json into a struct *)

(** A float64 is [f_m * 2 ^ f_e]. *)
Record float64 := mkFloat { f_m : Z; f_e : Z }.
Definition round_half_even (a b : Z) : Z :=
  let q := a / b in let r := a `mod` b in
  if 2 * r <? b then q else if b <? 2 * r then q + 1 else if Z.even q then q else q + 1.
(** The nearest to [n / d], for positive [n] and [d]; None when it is over the range. *)
Definition nearest (n d : Z) : option (Z * Z) :=
  let e0 := Z.log2 n - Z.log2 d in
  let under := if 0 <=? e0 then n <? d * 2 ^ e0 else n * 2 ^ (- e0) <? d in
  let e := if under then e0 - 1 else e0 in
  let k := Z.max (e - 52) (-1074) in
  let m := if 0 <=? k then round_half_even n (d * 2 ^ k) else round_half_even (n * 2 ^ (- k)) d in
  if (971 <=? k) && (2 ^ (1024 - k) <=? m) then None else Some (m, k).
(** A literal as encoding/json accepts it: sign, digits, fraction, exponent. *)
Definition digits_value (l : bytes) : Z := fold_left (fun acc c => 10 * acc + (byteZ c - 48)) l 0.
Definition parse_float (lit : bytes) : option float64 :=
  let '(neg, l) := match lit with c :: t => if Ascii.eqb c "-" then (true, t) else (false, lit) | [] => (false, []) end in
  let '(ip, l) := GoJson.span GoJson.is_digit l in
  let '(fp, l) := match l with c :: t => if Ascii.eqb c "." then GoJson.span GoJson.is_digit t else ([], l) | [] => ([], []) end in
  let exp := match l with
             | _ :: s :: t => if Ascii.eqb s "-" then - digits_value t else if Ascii.eqb s "+" then digits_value t else digits_value (s :: t)
             | _ => 0
             end in
  let n := digits_value (ip ++ fp) in
  let x := exp - Z.of_nat (length fp) in
  if n =? 0 then Some (mkFloat 0 0)
  else match nearest (n * 10 ^ Z.max x 0) (10 ^ Z.max (- x) 0) with
  | None => None
  | Some (m, k) => Some (mkFloat (if neg : bool then - m else m) k)
  end.
Definition float_lt (f : float64) (z : Z) : bool := if 0 <=? f_e f then f_m f * 2 ^ f_e f <? z else f_m f <? z * 2 ^ (- f_e f).
Definition float_gt (f : float64) (z : Z) : bool := if 0 <=? f_e f then z <? f_m f * 2 ^ f_e f else z * 2 ^ (- f_e f) <? f_m f.
Definition float_trunc (f : float64) : Z := if 0 <=? f_e f then f_m f * 2 ^ f_e f else Z.quot (f_m f) (2 ^ (- f_e f)).
(** math.Round: the nearest integer, away from zero on a tie. *)
Definition float_round (f : float64) : Z :=
  if 0 <=? f_e f then f_m f * 2 ^ f_e f
  else let d := 2 ^ (- f_e f) in Z.sgn (f_m f) * ((2 * Z.abs (f_m f) + d) / (2 * d)).

Definition int_range (bits : Z) (z : Z) : bool := (- 2 ^ (bits - 1) <=? z) && (z <? 2 ^ (bits - 1)).

(** time.Time.UnmarshalJSON: RFC 3339, without what time.Parse lets through. *)
Definition strict_time (s : string) : option time :=
  match parse_nano s with
  | None => None
  | Some t =>
    let l := to_bytes s in
    let colon_at i := bool_decide (l !! i = Some ":"%char) in
    let zone_part := drop (length l - 6) l in
    let zone_ok := match List.last l " "%char with
                   | "Z"%char => true
                   | _ => match getfixed 2 0 (drop 1 zone_part), getfixed 2 0 (drop 4 zone_part) with
                          | Some (hh, _), Some (mm, _) => (hh <? 24) && (mm <? 60)
                          | _, _ => false
                          end
                   end in
    if negb (colon_at 12%nat) && negb (bool_decide (l !! 19%nat = Some ","%char)) && zone_ok then Some t else None
  end.

Inductive ty : Type :=
| TStr | TBool | TInt (bits : Z) | TFloat | TTime | TRaw
| TPtr (t : ty) | TSlice (t : ty) | TRawMap
| TStruct (fs : list (string * ty)).
(** [VSlice l rest]: the elements, and what the cells of the array behind them still hold. *)
Inductive val : Type :=
| VStr (s : string) | VBool (b : bool) | VInt (z : Z) | VFloat (f : float64) | VTime (t : time) | VRaw (j : option json)
| VPtr (v : option val) | VSlice (l rest : list val) | VRawMap (m : option (list (string * json)))
| VStruct (fs : list (string * val)).

Fixpoint zero_val (t : ty) : val :=
  match t with
  | TStr => VStr "" | TBool => VBool false | TInt _ => VInt 0 | TFloat => VFloat (mkFloat 0 0) | TTime => VTime zero_time | TRaw => VRaw None
  | TPtr _ => VPtr None | TSlice _ => VSlice [] [] | TRawMap => VRawMap None
  | TStruct fs => VStruct (List.map (fun p => (p.1, zero_val p.2)) fs)
  end.
Fixpoint get_field (n : string) (l : list (string * val)) : option val :=
  match l with [] => None | (k, v) :: l => if bool_decide (k = n) then Some v else get_field n l end.
Fixpoint put_field (n : string) (x : val) (l : list (string * val)) : list (string * val) :=
  match l with [] => [] | (k, v) :: l => if bool_decide (k = n) then (k, x) :: l else (k, v) :: put_field n x l end.

(** The members of an object in order, each into the field it is for. *)
Fixpoint decode_fields (setters : list (string * (string * (val -> json -> val * bool)))) (ms : list (string * json)) (l : list (string * val)) : list (string * val) * bool :=
  match ms with
  | [] => (l, true)
  | (k, j) :: ms =>
    match field_of setters k with
    | None => decode_fields setters ms l
    | Some (n, dec) =>
      match get_field n l with
      | None => decode_fields setters ms l
      | Some old =>
        let '(v, ok) := dec old j in
        let '(l, ok') := decode_fields setters ms (put_field n v l) in
        (l, ok && ok')
      end
    end
  end.

(** Each element into the cell it falls on, into a zero value past them: a key that comes twice decodes its
    second array over the first, and an array that shrank is still there behind its end. *)
Fixpoint zip_cells {A} (dec : A -> json -> A * bool) (zero : A) (cells : list A) (l : list json) : list (A * bool) :=
  match l with [] => [] | j :: l => dec (hd zero cells) j :: zip_cells dec zero (tail cells) l end.

(** What the value is afterwards, and whether there was no type error: encoding/json goes on past
    one and reports it at the end. *)
Fixpoint decode_into (t : ty) (old : val) (j : json) {struct t} : val * bool :=
  match t with
  | TRaw => (VRaw (Some j), true)
  | TStr => match j with JStr s => (VStr s, true) | JNull => (old, true) | _ => (old, false) end
  | TBool => match j with JBool b => (VBool b, true) | JNull => (old, true) | _ => (old, false) end
  | TInt bits =>
    match j with
    | JNum lit => match parse_int64 (of_bytes lit) with Some z => if int_range bits z then (VInt z, true) else (old, false) | None => (old, false) end
    | JNull => (old, true) | _ => (old, false)
    end
  | TFloat => match j with JNum lit => match parse_float lit with Some f => (VFloat f, true) | None => (old, false) end | JNull => (old, true) | _ => (old, false) end
  | TTime => match j with JStr s => match strict_time s with Some x => (VTime x, true) | None => (old, false) end | JNull => (old, true) | _ => (old, false) end
  | TPtr t =>
    match j with
    | JNull => (VPtr None, true)
    | _ => let '(v, ok) := decode_into t (match old with VPtr (Some v) => v | _ => zero_val t end) j in (VPtr (Some v), ok)
    end
  | TSlice t =>
    match j with
    | JNull => (VSlice [] [], true)
    | JArr l =>
      let cells := match old with VSlice l rest => (l ++ rest)%list | _ => [] end in
      let r := zip_cells (decode_into t) (zero_val t) cells l in
      (VSlice (List.map fst r) (match l with [] => [] | _ => drop (length l) cells end), forallb snd r)
    | _ => (old, false)
    end
  | TRawMap =>
    match j with
    | JNull => (VRawMap None, true)
    | JObj ms => (VRawMap (Some (match old with VRawMap (Some m) => m | _ => [] end ++ ms)%list), true)
    | _ => (old, false)
    end
  | TStruct fs =>
    match j, old with
    | JNull, _ => (old, true)
    | JObj ms, VStruct l =>
      let '(l, ok) := decode_fields (List.map (fun p => (p.1, (p.1, decode_into p.2))) fs) ms l in (VStruct l, ok)
    | _, _ => (old, false)
    end
  end.

(** json.NewDecoder(body).Decode: the first value of the body. *)
Definition decode_body (t : ty) (body : string) : val * bool :=
  let l := to_bytes body in
  match parse_value (2 * length l + 2)%nat 0 l with None => (zero_val t, false) | Some (j, _) => decode_into t (zero_val t) j end.

(** Reading what was decoded. *)
Definition field (v : val) (n : string) : val := match v with VStruct l => default (VStr "") (get_field n l) | _ => VStr "" end.
Fixpoint at_path (v : val) (ns : list string) : val := match ns with [] => v | n :: ns => at_path (field v n) ns end.
Definition str (v : val) (ns : list string) : string := match at_path v ns with VStr s => s | _ => "" end.
Definition int (v : val) (ns : list string) : Z := match at_path v ns with VInt z => z | _ => 0 end.
Definition truth (v : val) (ns : list string) : bool := match at_path v ns with VBool b => b | _ => false end.
Definition num (v : val) (ns : list string) : float64 := match at_path v ns with VFloat f => f | _ => mkFloat 0 0 end.
Definition when (v : val) (ns : list string) : time := match at_path v ns with VTime t => t | _ => zero_time end.
Definition items (v : val) (ns : list string) : list val := match at_path v ns with VSlice l _ => l | _ => [] end.
Definition strings_at (v : val) (ns : list string) : list string := map (fun x => str x []) (items v ns).
Definition opt_int (v : val) (ns : list string) : option Z := match at_path v ns with VPtr (Some (VInt z)) => Some z | _ => None end.
Definition opt_num (v : val) (ns : list string) : option float64 := match at_path v ns with VPtr (Some (VFloat f)) => Some f | _ => None end.
Definition raw (v : val) (ns : list string) : option json := match at_path v ns with VRaw j => j | _ => None end.
Definition raw_map (v : val) (ns : list string) : option (list (string * json)) := match at_path v ns with VRawMap m => m | _ => None end.
(** The last of a key is the one a map holds. *)
Definition raw_lookup (k : string) (m : list (string * json)) : option json := (fun p => p.2) <$> List.find (fun p => bool_decide (p.1 = k)) (rev m).

(** ** float64 arithmetic *)

Module Float.
(** The float64 nearest to [n / d], for a positive [d]; None when it is infinite. *)
Definition float_of (n d : Z) : option float64 :=
  if n =? 0 then Some (mkFloat 0 0)
  else match nearest (Z.abs n) d with None => None | Some (m, k) => Some (mkFloat (Z.sgn n * m) k) end.
Definition up (e : Z) : Z := 2 ^ Z.max e 0.
Definition down (e : Z) : Z := 2 ^ Z.max (- e) 0.
Definition float_mul (a b : float64) : option float64 := let e := f_e a + f_e b in float_of (f_m a * f_m b * up e) (down e).
(** For a divisor that is not zero. *)
Definition float_div (a b : float64) : option float64 :=
  let e := f_e a - f_e b in float_of (Z.sgn (f_m b) * f_m a * up e) (Z.abs (f_m b) * down e).
Definition float_add (a b : float64) : option float64 :=
  let e := Z.min (f_e a) (f_e b) in float_of ((f_m a * 2 ^ (f_e a - e) + f_m b * 2 ^ (f_e b - e)) * up e) (down e).
Definition float_of_Z (z : Z) : option float64 := float_of z 1.

(** What a conversion or a product of floats may also be. *)
Inductive number := Fin (f : float64) | NotFin.
Definition num_op (op : float64 -> float64 -> option float64) (a b : number) : number :=
  match a, b with Fin a, Fin b => match op a b with Some f => Fin f | None => NotFin end | _, _ => NotFin end.

(** *** strconv.ParseFloat *)

Definition lower_byte (c : ascii) : ascii := if in_range 65 90 c then byteN (byteZ c + 32) else c.
Definition lower_bytes (l : bytes) : bytes := map lower_byte l.
(** [base] digits with one point at most: the digits' value and how many are after the point. *)
Definition digit_in (base : Z) (c : ascii) : option Z :=
  match hex_val c with Some v => if v <? base then Some v else None | None => None end.
Fixpoint mantissa (base : Z) (acc : Z) (dot any : bool) (frac : Z) (l : bytes) : Z * bool * Z * bytes :=
  match l with
  | [] => (acc, any, frac, [])
  | c :: t =>
    match digit_in base c with
    | Some v => mantissa base (base * acc + v) dot true (if dot then frac + 1 else frac) t
    | None => if Ascii.eqb c "." && negb dot then mantissa base acc true any frac t else (acc, any, frac, l)
    end
  end.
(** The exponent that ends the text, after its letter. *)
Definition exponent (mark : ascii) (l : bytes) : option Z :=
  match l with
  | c :: t =>
    if Ascii.eqb (lower_byte c) mark then
      let '(neg, t) := match t with c :: r => if Ascii.eqb c "-" then (true, r) else if Ascii.eqb c "+" then (false, r) else (false, t) | [] => (false, []) end in
      v ← parse_nat t; Some (if neg : bool then - v else v)
    else None
  | [] => None
  end.
(** underscoreOK: each between two digits, a base prefix counting as one. [prev] is the digit,
    underscore or other byte before. *)
Fixpoint underscores_ok (hex : bool) (prev : ascii) (l : bytes) : bool :=
  match l with
  | [] => negb (Ascii.eqb prev "_")
  | c :: t =>
    if GoJson.is_digit c || (hex && bool_decide (is_Some (hex_val c))) then underscores_ok hex "0" t
    else if Ascii.eqb c "_" then Ascii.eqb prev "0" && underscores_ok hex "_" t
    else negb (Ascii.eqb prev "_") && underscores_ok hex "!" t
  end.
Definition plain (l : bytes) : bytes := List.filter (fun c => negb (Ascii.eqb c "_")) l.
Definition signed (neg : bool) (n d : Z) : option number :=
  match float_of (if neg then - n else n) d with Some f => Some (Fin f) | None => None end.
Definition decimal_float (neg : bool) (l : bytes) : option number :=
  let '(m, any, frac, rest) := mantissa 10 0 false false 0 (plain l) in
  e ← (if bool_decide (rest = []) then Some 0 else exponent "e" rest);
  let e := e - frac in
  if any && (negb (has_byte "_" l) || underscores_ok false "!" l) then signed neg (m * 10 ^ Z.max e 0) (10 ^ Z.max (- e) 0) else None.
Definition hex_float (neg : bool) (l : bytes) : option number :=
  let '(m, any, frac, rest) := mantissa 16 0 false false 0 (plain l) in
  e ← exponent "p" rest;
  let e := e - 4 * frac in
  if any && (negb (has_byte "_" l) || underscores_ok true "0" l) then signed neg (m * up e) (down e) else None.
Definition unsigned_float (neg : bool) (l : bytes) : option number :=
  match l with
  | z :: x :: c :: t => if Ascii.eqb z "0" && Ascii.eqb (lower_byte x) "x" then hex_float neg (c :: t) else decimal_float neg l
  | _ => decimal_float neg l
  end.
Definition is_name (l : bytes) (names : list string) : bool := existsb (fun n => bool_decide (lower_bytes l = to_bytes n)) names.
(** None is an error, a number out of range included. *)
Definition ParseFloat (s : string) : option number :=
  let l := to_bytes s in
  if is_name l ["nan"] then Some NotFin else
  let '(neg, l) := match l with c :: t => if Ascii.eqb c "-" then (true, t) else if Ascii.eqb c "+" then (false, t) else (false, l) | [] => (false, []) end in
  if is_name l ["inf"; "infinity"] then Some NotFin else unsigned_float neg l.

Example floats_read : ParseFloat "1.2" = Some (Fin (mkFloat 5404319552844595 (-52))) /\ ParseFloat "0x1p3" = Some (Fin (mkFloat (2 ^ 52) (-49))) /\ ParseFloat "1_0" = Some (Fin (mkFloat (10 * 2 ^ 49) (-49))) /\
  ParseFloat "1_" = None /\ ParseFloat "." = None /\ ParseFloat "+Inf" = Some NotFin /\ ParseFloat "1e400" = None.
Proof. vm_compute. done. Qed.
End Float.

(** ** regexp *)

Module Regexp.
Inductive re : Type :=
| Eps
| Bol                                  (* ^ *)
| Eol                                  (* $ *)
| One (p : ascii -> bool)              (* a class of ASCII bytes *)
| Dot                                  (* any character but a newline *)
| Cat (a b : re)
| Or (a b : re)
| Star (greedy : bool) (a : re)
| Cap (n : nat) (a : re).              (* a group that is captured *)

Definition caps : Type := list (nat * bytes).
(** The text of group [n], empty when the match did not go through it. *)
Fixpoint group (n : nat) (c : caps) : bytes :=
  match c with [] => [] | (k, t) :: c => if (k =? n)%nat then t else group n c end.
Definition one_line (r : rune) : bool := match r with RuneBytes b => negb (bool_decide (b = [newline])) | RuneInvalid _ => true end.
Definition or_else {A} (a b : option A) : option A := match a with Some _ => a | None => b end.

Section Match.
Context {R : Type} (whole : nat).

(** [l] is what is left of a text of [whole] bytes; [k] goes on after the match. The first
    alternative that leads to a match is the one taken; a repetition goes on only over text it
    takes. *)
Fixpoint run (r : re) (l : bytes) (c : caps) (k : bytes -> caps -> option R) {struct r} : option R :=
  match r with
  | Eps => k l c
  | Bol => if (length l =? whole)%nat then k l c else None
  | Eol => match l with [] => k l c | _ => None end
  | One p => match l with b :: l' => if p b then k l' c else None | [] => None end
  | Dot => match next_rune l with Some (x, l') => if one_line x then k l' c else None | None => None end
  | Cat a b => run a l c (fun l c => run b l c k)
  | Or a b => or_else (run a l c k) (run b l c k)
  | Cap n a => run a l c (fun l' c => k l' ((n, take (length l - length l') l) :: c))
  | Star greedy a =>
    (fix loop (n : nat) (l : bytes) (c : caps) : option R :=
       match n with
       | O => k l c
       | S n =>
         let more := run a l c (fun l' c => if (length l' <? length l)%nat then loop n l' c else None) in
         if greedy then or_else more (k l c) else or_else (k l c) more
       end) (length l) l c
  end.
End Match.

(** FindStringSubmatch: the groups of the leftmost match. *)
Fixpoint search (r : re) (whole fuel : nat) (l : bytes) : option caps :=
  or_else (run whole r l [] (fun _ c => Some c))
    (match fuel, next_rune l with S n, Some (_, l') => search r whole n l' | _, _ => None end).
Definition exec (r : re) (s : string) : option caps := let l := to_bytes s in search r (length l) (length l) l.
Definition matches (r : re) (s : string) : bool := match exec r s with Some _ => true | None => false end.
Definition group_text (n : nat) (c : caps) : string := of_bytes (group n c).

(** *** Writing expressions *)

Fixpoint cats (l : list re) : re := match l with [] => Eps | [r] => r | r :: l => Cat r (cats l) end.
Fixpoint lit_re (l : bytes) : re := match l with [] => Eps | [c] => One (Ascii.eqb c) | c :: l => Cat (One (Ascii.eqb c)) (lit_re l) end.
Definition lit (s : string) : re := lit_re (to_bytes s).
Definition opt (a : re) : re := Or a Eps.
Definition plus (a : re) : re := Cat a (Star true a).
(** a{lo,lo+n} *)
Fixpoint upto (n : nat) (a : re) : re := match n with O => Eps | S n => opt (Cat a (upto n a)) end.
Fixpoint times (n : nat) (a : re) : re := match n with O => Eps | S n => Cat a (times n a) end.
Definition between (lo hi : nat) (a : re) : re := Cat (times lo a) (upto (hi - lo) a).
Definition in_class (s : string) (c : ascii) : bool := has_byte c (to_bytes s).
Definition digit_class : re := One GoJson.is_digit.
Definition word_byte (c : ascii) : bool := in_range 48 57 c || in_range 65 90 c || in_range 97 122 c || Ascii.eqb c "_".
Definition space_byte (c : ascii) : bool := existsb (Ascii.eqb c) (map byte [9; 10; 12; 13; 32]%N).
Definition alts (l : list string) : re := match l with [] => Eps | s :: l => fold_left (fun r s => Or r (lit s)) l (lit s) end.

(** *** What an expression takes *)

Section Takes.
Context (whole : nat).
Inductive takes : re -> bytes -> bytes -> Prop :=
| takes_eps l : takes Eps l l
| takes_bol l : length l = whole -> takes Bol l l
| takes_eol : takes Eol [] []
| takes_one p b l : p b = true -> takes (One p) (b :: l) l
| takes_dot x l l' : next_rune l = Some (x, l') -> one_line x = true -> takes Dot l l'
| takes_cat a b l l1 l2 : takes a l l1 -> takes b l1 l2 -> takes (Cat a b) l l2
| takes_left a b l l' : takes a l l' -> takes (Or a b) l l'
| takes_right a b l l' : takes b l l' -> takes (Or a b) l l'
| takes_cap n a l l' : takes a l l' -> takes (Cap n a) l l'
| takes_none g a l : takes (Star g a) l l
| takes_more g a l l1 l2 : takes a l l1 -> takes (Star g a) l1 l2 -> takes (Star g a) l l2.
#[local] Hint Constructors takes : core.

Lemma or_else_some {A} (a b : option A) : is_Some (or_else a b) <-> is_Some a \/ is_Some b.
Proof. destruct a; cbn; naive_solver. Qed.

(** The matcher finds only what the expression takes. *)
Lemma run_sound {R} r l c (k : bytes -> caps -> option R) : is_Some (run whole r l c k) -> exists l' c', takes r l l' /\ is_Some (k l' c').
Proof.
  revert l c k. induction r as [| | |p| |a IHa b IHb|a IHa b IHb|g a IH|n a IH]; intros l c k; cbn.
  - eauto.
  - destruct (Nat.eqb_spec (length l) whole); [eauto|]. by intros [? ?].
  - destruct l; [eauto|]. by intros [? ?].
  - destruct l as [|x l]; [by intros [? ?]|]. destruct (p x) eqn:?; [eauto 6|by intros [? ?]].
  - destruct (next_rune l) as [[x l']|] eqn:?; [|by intros [? ?]]. destruct (one_line x) eqn:?; [eauto 6|by intros [? ?]].
  - intros (l1 & c1 & H1 & (l2 & c2 & H2 & Hk)%IHb)%IHa. eauto.
  - intros [(l1 & c1 & ? & ?)%IHa|(l1 & c1 & ? & ?)%IHb]%or_else_some; eauto.
  - generalize (length l) as n. intros n. revert l c. induction n as [|n IHn]; intros l c; [eauto|].
    assert (is_Some (run whole a l c (fun l' c0 => if (length l' <? length l)%nat then
      (fix loop (n : nat) (l : bytes) (c : caps) : option R := match n with O => k l c | S n =>
         let more := run whole a l c (fun l' c => if (length l' <? length l)%nat then loop n l' c else None) in
         if g then or_else more (k l c) else or_else (k l c) more end) n l' c0 else None)) -> exists l' c', takes (Star g a) l l' /\ is_Some (k l' c')) as Hm.
    { intros (l1 & c1 & H1 & H2)%IH. destruct (length l1 <? length l)%nat; [|by destruct H2]. apply IHn in H2 as (l2 & c2 & H2 & Hk). eauto. }
    destruct g; intros [H|H]%or_else_some; eauto.
  - intros (l1 & c1 & ? & ?)%IH. eauto.
Qed.

Lemma next_rune_suffix l x l' : next_rune l = Some (x, l') -> exists p, l = (p ++ l')%list /\ p <> [].
Proof.
  unfold next_rune. destruct l as [|a l]; [done|]. intros H.
  repeat (case_match; try discriminate); simplify_eq; first [by exists [a] | by eexists [_; _] | by eexists [_; _; _] | by eexists [_; _; _; _]].
Qed.
Lemma takes_suffix r l l' : takes r l l' -> exists p, l = (p ++ l')%list.
Proof.
  induction 1 as [| | | |? ? ? (p & -> & _)%next_rune_suffix|? ? ? ? ? _ [p1 ->] _ [p2 ->]| | | | |? ? ? ? ? _ [p1 ->] _ [p2 ->]]; try done; try (by exists []); try by eexists.
  - by exists [b].
  - exists (p1 ++ p2)%list. by rewrite app_assoc.
  - exists (p1 ++ p2)%list. by rewrite app_assoc.
Qed.

(** And it finds a match when there is one. *)
Lemma run_complete {R} r l l' : takes r l l' -> forall c (k : bytes -> caps -> option R), (forall c', is_Some (k l' c')) -> is_Some (run whole r l c k).
Proof.
  revert l l'. induction r as [| | |p| |a IHa b IHb|a IHa b IHb|g a IH|n a IH]; intros l l' Ht c k Hk; cbn.
  - inversion Ht; by subst.
  - inversion Ht; simplify_eq. by case_match; [|rewrite Nat.eqb_neq in *].
  - inversion Ht; by subst.
  - inversion Ht as [| | |? ? ? Hp| | | | | | |]; subst. by rewrite Hp.
  - inversion Ht as [| | | |? ? ? Hn Ho| | | | | |]; subst. by rewrite Hn, Ho.
  - inversion Ht; subst. eapply IHa; [done|]. intros c'. by eapply IHb.
  - inversion Ht; subst; apply or_else_some; [left; by eapply IHa|right; by eapply IHb].
  - enough (forall n c l, takes (Star g a) l l' -> (length l <= n)%nat -> is_Some
      ((fix loop (n : nat) (l : bytes) (c : caps) : option R := match n with O => k l c | S n =>
         let more := run whole a l c (fun l' c => if (length l' <? length l)%nat then loop n l' c else None) in
         if g then or_else more (k l c) else or_else (k l c) more end) n l c)) as H by (by apply H).
    clear c l Ht. intros n. induction n as [n IHn] using lt_wf_ind. intros c l Ht. revert c. remember (Star g a) as s eqn:Hs. induction Ht as [| | | | | | | | |? ? ? |? ? l l1 l2 Ha _ Hs1 IHs]; try discriminate; intros c Hn.
    + destruct n as [|n]; [done|]. injection Hs as -> ->. destruct g; apply or_else_some; eauto.
    + injection Hs as -> ->. destruct (takes_suffix _ _ _ Ha) as [q ->]. destruct q as [|x q]; [by apply IHs|]. rewrite length_app in Hn. cbn in Hn. destruct n as [|n]; [lia|].
      assert (forall b : bytes, (length l1 < length b)%nat -> (length l1 <? length b)%nat = true) as Hlt by (intros; by apply Nat.ltb_lt).
      destruct g; apply or_else_some; [left|right]; (eapply IH; [exact Ha|]); intros c'; rewrite Hlt by (rewrite length_app; cbn; lia); apply IHn; try done; lia.
  - inversion Ht; subst. by eapply IH.
Qed.
End Takes.


Lemma search_past r whole fuel l : (length l < whole)%nat -> search (Cat Bol r) whole fuel l = None.
Proof.
  revert l. induction fuel as [|n IH]; intros l Hl; cbn; rewrite (proj2 (Nat.eqb_neq _ _)) by lia; [done|].
  destruct (next_rune l) as [[x l']|] eqn:E; [|done]. apply next_rune_suffix in E as (p & -> & Hp). rewrite length_app in Hl. apply IH. lia.
Qed.

(** An anchored expression matches exactly the texts it takes from the start. *)
Lemma matches_anchored r s : matches (Cat Bol r) s = true <-> exists l', takes (length (to_bytes s)) r (to_bytes s) l'.
Proof.
  unfold matches, exec. set (l := to_bytes s).
  assert (forall n, search (Cat Bol r) (length l) n l = or_else (run (length l) r l [] (fun _ c => Some c)) None) as Hs.
  { intros [|n]; cbn; rewrite Nat.eqb_refl; [done|]. destruct (run _ _ _ _ _); [done|]. cbn.
    destruct (next_rune l) as [[x l']|] eqn:E; [|done]. apply next_rune_suffix in E as (p & E & Hp). apply search_past. rewrite E, length_app. destruct p; [done|]. cbn. lia. }
  rewrite Hs. split.
  - intros H. destruct (run (length l) r l [] (fun _ c => Some c)) as [c|] eqn:E; [|done].
    destruct (run_sound (length l) r l [] (fun _ c => Some c)) as (l' & _ & Ht & _); [by rewrite E|]. eauto.
  - intros [l' Ht]. pose proof (run_complete (length l) r l l' Ht [] (fun _ c => Some c) ltac:(eauto)) as [c ->]. done.
Qed.

(** What the expressions built above take. *)
Lemma takes_one_iff w p l l' : takes w (One p) l l' <-> exists b, p b = true /\ l = b :: l'.
Proof. split; [intros H; inversion H; subst; eauto|]. intros (b & Hb & ->). by constructor. Qed.
Lemma takes_cat_iff w a b l l' : takes w (Cat a b) l l' <-> exists l1, takes w a l l1 /\ takes w b l1 l'.
Proof. split; [intros H; inversion H; subst; eauto|]. intros (l1 & Ha & Hb). by econstructor. Qed.
Lemma takes_or_iff w a b l l' : takes w (Or a b) l l' <-> takes w a l l' \/ takes w b l l'.
Proof. split; [intros H; inversion H; subst; eauto|]. intros [H|H]; [by apply takes_left|by apply takes_right]. Qed.
Lemma takes_eps_iff w l l' : takes w Eps l l' <-> l = l'.
Proof. split; [intros H; by inversion H|]. intros ->. constructor. Qed.
Lemma takes_cap_iff w n a l l' : takes w (Cap n a) l l' <-> takes w a l l'.
Proof. split; [intros H; by inversion H|]. by constructor. Qed.
Lemma takes_eol_iff w l l' : takes w Eol l l' <-> l = [] /\ l' = [].
Proof. split; [intros H; by inversion H|]. intros [-> ->]. constructor. Qed.
Lemma takes_lit w s l l' : takes w (lit s) l l' <-> l = (to_bytes s ++ l')%list.
Proof.
  unfold lit. generalize (to_bytes s) as t. intros t. revert l. induction t as [|c t IH]; intros l; [apply takes_eps_iff|].
  assert (takes w (Cat (One (Ascii.eqb c)) (lit_re t)) l l' <-> l = (c :: t ++ l')%list) as H.
  { rewrite takes_cat_iff. setoid_rewrite takes_one_iff. setoid_rewrite IH. split.
    - intros (l1 & (b & ->%Ascii.eqb_eq & ->) & ->). done.
    - intros ->. eexists. split; [|done]. exists c. by rewrite Ascii.eqb_refl. }
  destruct t as [|d t]; [|exact H]. cbn [lit_re]. rewrite takes_one_iff. cbn. split; [by intros (b & ->%Ascii.eqb_eq & ->)|]. intros ->. exists c. by rewrite Ascii.eqb_refl.
Qed.
Definition run_of (p : ascii -> bool) (lo hi : nat) (x : bytes) : Prop := forallb p x = true /\ (lo <= length x <= hi)%nat.
Lemma takes_times w p n l l' : takes w (times n (One p)) l l' <-> exists x, run_of p n n x /\ l = (x ++ l')%list.
Proof.
  unfold run_of. revert l. induction n as [|n IH]; intros l; cbn [times].
  - rewrite takes_eps_iff. split; [intros ->; exists []; cbn; auto|]. intros (x & [_ Hl] & ->). by destruct x; [|cbn in Hl; lia].
  - rewrite takes_cat_iff. setoid_rewrite takes_one_iff. setoid_rewrite IH. split.
    + intros (l1 & (b & Hb & ->) & x & [Hx Hl] & ->). exists (b :: x). cbn. rewrite Hb, Hx. split; [split; [done|lia]|done].
    + intros ([|b x] & [Hx Hl] & ->); cbn in *; [lia|]. apply andb_prop in Hx as [Hb Hx]. eexists. split; [eauto|]. exists x. split; [split; [done|lia]|done].
Qed.
Lemma takes_upto w p n l l' : takes w (upto n (One p)) l l' <-> exists x, run_of p 0 n x /\ l = (x ++ l')%list.
Proof.
  unfold run_of. revert l. induction n as [|n IH]; intros l; cbn [upto].
  - rewrite takes_eps_iff. split; [intros ->; exists []; cbn; auto|]. intros (x & [_ Hl] & ->). by destruct x; [|cbn in Hl; lia].
  - unfold opt. rewrite takes_or_iff, takes_cat_iff, takes_eps_iff. setoid_rewrite takes_one_iff. setoid_rewrite IH. split.
    + intros [(l1 & (b & Hb & ->) & x & [Hx Hl] & ->)| ->]; [|exists []; cbn; split; [split; [done|lia]|done]]. exists (b :: x). cbn. rewrite Hb, Hx. split; [split; [done|lia]|done].
    + intros ([|b x] & [Hx Hl] & ->); cbn in *; [by right|]. left. apply andb_prop in Hx as [Hb Hx]. eexists. split; [eauto|]. exists x. split; [split; [done|lia]|done].
Qed.
Lemma takes_between w p lo n l l' : takes w (between lo (lo + n) (One p)) l l' <-> exists x, run_of p lo (lo + n) x /\ l = (x ++ l')%list.
Proof.
  unfold between. rewrite takes_cat_iff. setoid_rewrite takes_times. replace (lo + n - lo)%nat with n by lia. setoid_rewrite takes_upto. unfold run_of. split.
  - intros (l1 & (x & [Hx Hl] & ->) & y & [Hy Hl'] & ->). exists (x ++ y)%list. rewrite forallb_app, length_app, <- app_assoc. split; [split; [by rewrite Hx, Hy|lia]|done].
  - intros (x & [Hx Hl] & ->). rewrite <- (take_drop lo x) in Hx. rewrite forallb_app in Hx. apply andb_prop in Hx as [Hx Hy].
    exists (drop lo x ++ l')%list. split.
    + exists (take lo x). rewrite app_assoc, take_drop. split; [|done]. split; [done|]. rewrite length_take. lia.
    + exists (drop lo x). split; [|done]. split; [done|]. rewrite length_drop. lia.
Qed.

Example leftmost_first : exec (cats [lit "a"; Cap 1 (Star false (One word_byte)); Or (lit ";") Eol]) "xxab1;c;" = Some [(1%nat, to_bytes "b1")].
Proof. vm_compute. reflexivity. Qed.
End Regexp.
