(* ===== verification/ConversionSafety.v ===== *)
(** What the conversions of Conversion.v keep: the JSON of the stash read back,
    the round trips of the five kinds in both directions, the annotation maps
    of the source untouched, and the vocabulary of the computed phases; and runs, with the k8s.io types of V1beta1.v as
    concrete ones: a container job that makes the round trip, and the two objects that do not
    come back as they were. *)
From stdpp Require Import base tactics strings list gmap.
From Stdlib Require Import ZArith Lia Ascii.
From S2P Require Import Prelude GoLib GoTime Kube GoJson V1beta1 V1alpha1 Conversion.

Open Scope Z_scope.

(** ** The stash *)

(** A member that Marshal writes and Unmarshal reads, with at most [b] arrays
    and objects inside one another. *)
Definition member_ok (b : Z) (m : string * json) : Prop :=
  valid_utf8 (to_bytes m.1) = true /\ json_ok m.2 = true /\ depth m.2 <= b.

Lemma member_intro b k v : valid_utf8 (to_bytes k) = true -> json_ok v = true -> depth v <= b -> member_ok b (k, v).
Proof. done. Qed.

Lemma max_of_le l b : 0 <= b -> Forall (fun x => x <= b) l -> max_of l <= b.
Proof. unfold max_of. intros Hb. induction 1; simpl; lia. Qed.

Lemma members_ok b ms : 0 <= b -> Forall (member_ok b) ms -> json_ok (JObj ms) = true /\ depth (JObj ms) <= 1 + b.
Proof.
  intros Hb HF. split.
  - simpl. induction HF as [|[k v] ms (H1 & H2 & _) HF IH]; [done|]. simpl in *. by rewrite H1, H2, IH.
  - assert (max_of (map (fun '(_, v) => depth v) ms) <= b); [|simpl; lia].
    apply max_of_le; [done|]. induction HF as [|[k v] ms (_ & _ & H) HF IH]; constructor; done.
Qed.

Lemma member_ok_weaken b b' m : b <= b' -> member_ok b m -> member_ok b' m.
Proof. intros Hb (H1 & H2 & H3). repeat split; [done|done|lia]. Qed.

Lemma decode_members_app {A S} fs (step : A -> S -> json -> option S) x ms ms' :
  decode_members fs step x (ms ++ ms') = x' ← decode_members fs step x ms; decode_members fs step x' ms'.
Proof.
  revert x. induction ms as [|[k v] ms IH]; intros x; [done|]. simpl. destruct (field_of fs k); [|apply IH].
  destruct (step _ x v); simpl; [apply IH|done].
Qed.

(** A coder of elements that loses nothing on the elements that are [ok]. *)
Definition coder {A} (enc : A -> result string json) (dec : json -> option A) (ok : A -> Prop) : Prop :=
  forall x, ok x -> exists j, enc x = inr j /\ json_ok j = true /\ depth j <= 64 /\ dec j = Some x.

Lemma str_coder : coder str_json (decode_string "") (fun s => valid_utf8 (to_bytes s) = true).
Proof. intros s Hs. exists (JStr s). repeat split; [done|simpl; lia]. Qed.

Lemma encode_all_round {A} enc dec (ok : A -> Prop) l : coder enc dec ok -> Forall ok l ->
  exists js, encode_all enc l = inr js /\ forallb json_ok js = true /\ Forall (fun j => depth j <= 64) js /\ mapM dec js = Some l.
Proof.
  intros Hc. induction 1 as [|x l Hx HF (js & IH1 & IH2 & IH3 & IH4)]; [by exists []|].
  destruct (Hc x Hx) as (j & H1 & H2 & H3 & H4). exists (j :: js). simpl. rewrite H1, IH1, H2, IH2, H4. simpl. rewrite IH4.
  repeat split; [by constructor].
Qed.

(** The pointer toFramejobContainerPayload takes to a slice. *)
Definition slice_ptr {A} (s : option (list A)) : option (option (list A)) :=
  match s with Some _ => Some s | None => None end.

Definition all_ok {A} (ok : A -> Prop) (s : option (list A)) : Prop := from_option (Forall ok) True s.

(** A slice with [omitempty] behind its pointer: its member is within Marshal's
    vocabulary, and decodes to the slice, nil and empty told apart. *)
Lemma slice_round {A S P} (enc : A -> result string json) dec ok k s fs (step : P -> S -> json -> option S) f p (put : option (option (list A)) -> S) :
  coder enc dec ok -> all_ok ok s -> valid_utf8 (to_bytes k) = true -> field_of fs k = Some f ->
  (forall v, step f p v = x ← decode_slice dec v; Some (put x)) -> put None = p ->
  exists ms, omit_slice enc k (slice_ptr s) = inr ms /\ Forall (member_ok 65) ms /\
    decode_members fs step p ms = Some (put (slice_ptr s)).
Proof.
  intros Hc Hs Hk Hf Hstep Hp. destruct s as [l|]; simpl.
  - destruct (encode_all_round enc dec ok l Hc Hs) as (js & H1 & H2 & H3 & H4). rewrite H1. eexists. split; [reflexivity|]. split.
    + constructor; [|done]. split; [done|]. split; [done|]. simpl. assert (max_of (map depth js) <= 64); [|lia].
      apply max_of_le; [lia|]. by apply Forall_map.
    + simpl. rewrite Hf, Hstep. simpl. by rewrite H4.
  - exists []. split; [done|]. split; [done|]. simpl. by rewrite Hp.
Qed.

(** A string with [omitempty]. *)
Lemma string_round {S P} k s fs (step : P -> S -> json -> option S) f p (put : string -> S) :
  valid_utf8 (to_bytes s) = true -> valid_utf8 (to_bytes k) = true -> field_of fs k = Some f ->
  (forall v, step f p v = x ← decode_string "" v; Some (put x)) -> put "" = p ->
  Forall (member_ok 0) (omit_string k s) /\ decode_members fs step p (omit_string k s) = Some (put s).
Proof.
  intros Hs Hk Hf Hstep Hp. unfold omit_string. case_bool_decide as E.
  - subst s. split; [done|]. simpl. by rewrite Hp.
  - split; [constructor; [|done]; apply member_intro; [done|done|simpl; lia]|]. simpl. by rewrite Hf, Hstep.
Qed.

Section Safety.
Context `{FL : ForeignLaws}.

Definition utf8 (s : string) : Prop := valid_utf8 (to_bytes s) = true.

(** The containers whose JSON is exact. *)
Definition container_exact (c : ContainerSpec) : Prop :=
  utf8 (cs_Image c) /\ all_ok utf8 (cs_Command c) /\ all_ok utf8 (cs_Args c) /\
  all_ok env_ok (cs_Env c) /\ all_ok envfrom_ok (cs_EnvFrom c) /\ rr_ok (cs_Resources c).

Lemma container_round c p : container_exact c -> toFramejobContainerPayload (Some c) = Some p ->
  exists ms, encode_container p = inr (JObj ms) /\ Forall (member_ok 65) ms /\
    decode_members container_fields container_step zero_cpayload ms = Some p.
Proof.
  intros (Hi & Hc & Ha & He & Hf & Hr) E. simpl in E. fold (slice_ptr (cs_Command c)) (slice_ptr (cs_Args c)) (slice_ptr (cs_Env c)) (slice_ptr (cs_EnvFrom c)) in E.
  simplify_eq. destruct c as [i cmd args env rr ef]. simpl in *.
  destruct (slice_round str_json _ _ "command" cmd container_fields container_step FCommand (mkCPayload i None None None None zero_rr)
    (fun x => mkCPayload i x None None None zero_rr) str_coder Hc) as (m1 & E1 & O1 & D1); [done..|].
  destruct (slice_round str_json _ _ "args" args container_fields container_step FArgs (mkCPayload i (slice_ptr cmd) None None None zero_rr)
    (fun x => mkCPayload i (slice_ptr cmd) x None None zero_rr) str_coder Ha) as (m2 & E2 & O2 & D2); [done..|].
  destruct (slice_round env_json _ _ "env" env container_fields container_step FEnv (mkCPayload i (slice_ptr cmd) (slice_ptr args) None None zero_rr)
    (fun x => mkCPayload i (slice_ptr cmd) (slice_ptr args) x None zero_rr) env_round He) as (m3 & E3 & O3 & D3); [done..|].
  destruct (slice_round envfrom_json _ _ "envFrom" ef container_fields container_step FEnvFrom (mkCPayload i (slice_ptr cmd) (slice_ptr args) (slice_ptr env) None zero_rr)
    (fun x => mkCPayload i (slice_ptr cmd) (slice_ptr args) (slice_ptr env) x zero_rr) envfrom_round Hf) as (m4 & E4 & O4 & D4); [done..|].
  destruct (rr_round rr Hr) as (j & E5 & O5 & Dj & D5).
  unfold encode_container. simpl. rewrite E1, E2, E3, E4, E5. eexists. split; [reflexivity|]. split.
  - constructor; [apply member_intro; [done|done|simpl; lia]|]. rewrite !Forall_app.
    assert (member_ok 65 ("resources", j)) by (apply member_intro; [done|done|lia]). eauto 10 using Forall_cons_2, Forall_nil_2.
  - simpl. change (field_of container_fields "image") with (Some FImage). simpl.
    rewrite decode_members_app, D1. simpl. rewrite decode_members_app, D2. simpl. rewrite decode_members_app, D3. simpl.
    rewrite decode_members_app, D4. simpl. change (field_of container_fields "resources") with (Some FResources). simpl. by rewrite D5.
Qed.

(** What a hub job stashes goes through its JSON unchanged. *)
Definition stash_exact (j : V1beta1.FrameJob) : Prop :=
  utf8 (js_Type (j_Spec j)) /\ utf8 (jt_ContainerJobName (j_Status j)) /\ utf8 (jt_ContainerJobKind (j_Status j)) /\
  from_option container_exact True (js_Container (j_Spec j)).

(** The payload's member for the container. *)
Lemma container_member t c n k : from_option container_exact True c ->
  exists ms, encode_payload (mkPayload t (toFramejobContainerPayload c) n k) =
      inr (JObj (omit_string "type" t ++ ms ++ omit_string "containerJobName" n ++ omit_string "containerJobKind" k)) /\
    Forall (member_ok 66) ms /\
    decode_members payload_fields payload_step (mkPayload t None "" "") ms = Some (mkPayload t (toFramejobContainerPayload c) "" "").
Proof.
  intros Hc. destruct c as [c|]; [|by exists []].
  destruct (toFramejobContainerPayload (Some c)) as [p|] eqn:Ep; [|done].
  destruct (container_round c p Hc Ep) as (cms & E & O & D).
  exists [("container", JObj cms)]. unfold encode_payload. simpl. rewrite E. split; [done|]. split.
  - constructor; [|done]. destruct (members_ok 65 cms) as [H1 H2]; [lia|done|]. apply member_intro; [done|done|lia].
  - change (field_of payload_fields "container") with (Some FContainer). simpl. by rewrite D.
Qed.

Lemma payload_round t c n k : utf8 t -> utf8 n -> utf8 k -> from_option container_exact True c ->
  exists raw, Marshal (mkPayload t (toFramejobContainerPayload c) n k) = inr raw /\
    Unmarshal raw = inr (mkPayload t (toFramejobContainerPayload c) n k).
Proof.
  intros Ht Hn Hk Hc. destruct (container_member t c n k Hc) as (ms & Ee & Om & Dm). set (cp := toFramejobContainerPayload c) in *.
  destruct (string_round "type" t payload_fields payload_step FType zero_payload (fun x => mkPayload x None "" "")) as [Ot Dt]; [done..|].
  destruct (string_round "containerJobName" n payload_fields payload_step FJobName (mkPayload t cp "" "") (fun x => mkPayload t cp x "")) as [On Dn]; [done..|].
  destruct (string_round "containerJobKind" k payload_fields payload_step FJobKind (mkPayload t cp n "") (fun x => mkPayload t cp n x)) as [Ok Dk]; [done..|].
  set (rest := omit_string "containerJobName" n ++ omit_string "containerJobKind" k) in *.
  unfold Marshal. rewrite Ee. eexists. split; [reflexivity|]. unfold Unmarshal.
  destruct (members_ok 66 (omit_string "type" t ++ ms ++ rest)) as [Hok Hd]; [lia| |].
  { rewrite !Forall_app. unfold rest. rewrite Forall_app. repeat split; [|done| |];
      (eapply Forall_impl; [eassumption|]; intros m; apply member_ok_weaken; lia). }
  rewrite parse_print by (done || (unfold maxNestingDepth; lia)). cbn [mbind option_bind].
  unfold rest. rewrite decode_members_app, Dt. cbn [mbind option_bind]. rewrite decode_members_app, Dm. cbn [mbind option_bind].
  rewrite decode_members_app, Dn. cbn [mbind option_bind]. by rewrite Dk.
Qed.

(** ** FrameJob *)

(** The annotations an object has in a store: none, or the map it points to. *)
Definition annots (h : heap) (m : ObjectMeta) : option strmap :=
  match om_Annotations m with None => None | Some r => Some (deref h (Some r)) end.
(** Equality of Go values, through the references: reflect.DeepEqual. *)
Definition same_meta (h : heap) (m : ObjectMeta) (h' : heap) (m' : ObjectMeta) : Prop :=
  om_Name m = om_Name m' /\ om_Namespace m = om_Namespace m' /\ om_Rest m = om_Rest m' /\ annots h m = annots h' m'.
Definition same_job (h : heap) (j : V1beta1.FrameJob) (h' : heap) (j' : V1beta1.FrameJob) : Prop :=
  same_meta h (j_Meta j) h' (j_Meta j') /\ j_Spec j = j_Spec j' /\ j_Status j = j_Status j'.

Lemma parameters_to m : toParameterValues m = m.
Proof. destruct m as [m|]; [|done]. simpl. rewrite (map_ext _ id) by (by intros []). by rewrite map_id, list_to_map_to_list. Qed.
Lemma parameters_from m : fromParameterValues m = m.
Proof. exact (parameters_to m). Qed.

Lemma container_payload_inv c : fromFramejobContainerPayload (toFramejobContainerPayload c) = c.
Proof. destruct c as [[i [|] [|] [|] r [|]]|]; reflexivity. Qed.

Lemma deref_alloc (h : heap) m : deref (h ++ [m]) (Some (length h)) = m.
Proof. simpl. by rewrite list_lookup_middle. Qed.
Lemma annots_deref h m : deref h (om_Annotations m) = default ∅ (annots h m).
Proof. unfold annots. by destruct (om_Annotations m). Qed.

(** What ConvertFrom makes of a hub job, but its annotations. *)
Definition down (j : V1beta1.FrameJob) (r : option nat) : V1alpha1.FrameJob :=
  let s := j_Spec j in
  let t := j_Status j in
  V1alpha1.mkFJ (set_annots (j_Meta j) r)
    (V1alpha1.mkFJSpec (js_Pipeline s) (js_ServiceClass s) (js_Priority s) (om_Namespace (j_Meta j)) (js_GPUCount s) (js_Parameters s) (js_Suspended s))
    (V1alpha1.mkFJStatus (jt_ObservedGeneration t) (FrameJobPhaseFromConditions (jt_Conditions t)) (jt_Conditions t)
       (jt_ArgoWorkflowName t) (jt_StartTime t) (jt_CompletionTime t) (jt_Message t)).

Lemma ConvertFrom_plain h dst j : stash_due j = false ->
  FrameJob_ConvertFrom dst (HubFrameJob j) h = ((down j (om_Annotations (j_Meta j)), None), h).
Proof.
  intros Hs. unfold FrameJob_ConvertFrom, stashFrameJobContainer. rewrite St_bind_run, Hs. simpl.
  rewrite parameters_from. by destruct j as [[] [] []].
Qed.

Lemma ConvertFrom_stash h dst j raw : stash_due j = true -> Marshal (stash_payload j) = inr raw ->
  FrameJob_ConvertFrom dst (HubFrameJob j) h =
    ((down j (Some (length h)), None), h ++ [<[framejobContainerAnnotation := raw]> (deref h (om_Annotations (j_Meta j)))]).
Proof.
  intros Hs Hm. unfold FrameJob_ConvertFrom, stashFrameJobContainer. rewrite St_bind_run, Hs. simpl. rewrite Hm. simpl.
  rewrite parameters_from. by destruct j as [[] [] []].
Qed.

Lemma ConvertTo_plain h j r : stash_due j = false -> deref h r !! framejobContainerAnnotation = None ->
  FrameJob_ConvertTo (down j r) (HubFrameJob V1beta1.zero_job) h =
    ((HubFrameJob (V1beta1.mkFJ (set_annots (j_Meta j) r) (j_Spec j) (j_Status j)), None), h).
Proof.
  intros Hs Ha. unfold FrameJob_ConvertTo, restoreFrameJobContainer. rewrite !St_bind_run. simpl. rewrite Ha. simpl.
  rewrite parameters_to. destruct j as [m [pl c ty sc pr g pa su] [og cd aw cn ck st ct ms]]. unfold stash_due in Hs. simpl in *.
  repeat match goal with H : _ || _ = false |- _ => apply orb_false_iff in H as [? ?] end.
  repeat match goal with H : negb (bool_decide _) = false |- _ => apply negb_false_iff, bool_decide_eq_true in H; subst end. done.
Qed.

Lemma ConvertTo_stash h j r raw : deref h (Some r) !! framejobContainerAnnotation = Some raw -> Unmarshal raw = inr (stash_payload j) ->
  FrameJob_ConvertTo (down j (Some r)) (HubFrameJob V1beta1.zero_job) h =
    let a := delete framejobContainerAnnotation (deref h (Some r)) in
    ((HubFrameJob (V1beta1.mkFJ (set_annots (j_Meta j) (if bool_decide (a = ∅) then None else Some (length h))) (j_Spec j) (j_Status j)), None), h ++ [a]).
Proof.
  intros Ha Hu. unfold FrameJob_ConvertTo, restoreFrameJobContainer. rewrite !St_bind_run.
  cbn [read_map fst snd down aj_Meta set_annots om_Annotations]. rewrite Ha, Hu, St_bind_run.
  cbn [read_map fst snd j_Meta set_annots om_Annotations]. rewrite bool_decide_false by (intros E; by rewrite E in Ha).
  cbv zeta. rewrite St_bind_run. cbn [alloc fst snd]. simpl. rewrite container_payload_inv, parameters_to.
  by destruct j as [[] [] []].
Qed.

(** C33. A hub job that carries no stash annotation of its own and whose stashed
    values are exact in JSON (valid UTF-8, and k8s.io values that read back), read
    at v1alpha1 and written back, is the job it was, without an error: its names,
    its spec and its status are equal with nil and empty told apart, and so are
    its annotations, but that annotations which were present and empty may come
    back absent. The maps that existed, the source's own annotations among them,
    are as they were. *)
Theorem hub_roundtrip_job h j dst :
  stash_exact j -> deref h (om_Annotations (j_Meta j)) !! framejobContainerAnnotation = None ->
  exists a h1 j' h2,
    FrameJob_ConvertFrom dst (HubFrameJob j) h = ((a, None), h1) /\
    FrameJob_ConvertTo a (HubFrameJob V1beta1.zero_job) h1 = ((HubFrameJob j', None), h2) /\
    (same_job h j h2 j' \/
     annots h (j_Meta j) = Some ∅ /\ annots h2 (j_Meta j') = None /\
     om_Name (j_Meta j) = om_Name (j_Meta j') /\ om_Namespace (j_Meta j) = om_Namespace (j_Meta j') /\ om_Rest (j_Meta j) = om_Rest (j_Meta j') /\
     j_Spec j = j_Spec j' /\ j_Status j = j_Status j') /\
    h `prefix_of` h1 /\ h1 `prefix_of` h2.
Proof.
  intros (Ht & Hn & Hk & Hc) Hno. destruct (stash_due j) eqn:Hs.
  - destruct (payload_round _ _ _ _ Ht Hn Hk Hc) as (raw & Hm & Hu).
    set (own := deref h (om_Annotations (j_Meta j))) in *. set (h1 := h ++ [<[framejobContainerAnnotation := raw]> own]).
    eexists _, h1, _, _. split; [by apply ConvertFrom_stash|]. split.
    { eapply ConvertTo_stash; [|exact Hu]. unfold h1. rewrite deref_alloc. by rewrite lookup_insert_eq. }
    unfold h1. rewrite deref_alloc, delete_insert_id by done. split; [|by split; eexists].
    destruct (decide (annots h (j_Meta j) = Some ∅)) as [He|Hne].
    + right. split; [done|]. split; [|done]. unfold annots at 1. simpl. unfold own. by rewrite annots_deref, He, bool_decide_true.
    + left. split; [|done]. repeat split; simpl. unfold annots at 2. simpl. unfold own. rewrite annots_deref in *.
      destruct (annots h (j_Meta j)) as [m|] eqn:Ea; simpl.
      * rewrite bool_decide_false by (intros ->; by apply Hne). simpl. by rewrite list_lookup_middle by done.
      * by rewrite bool_decide_true.
  - eexists _, h, _, h. split; [by apply ConvertFrom_plain|]. split; [by apply ConvertTo_plain|].
    split; [|done]. left. repeat split.
Qed.

(** Whatever a v1alpha1 client wrote, a job that ConvertTo accepts has no stash
    annotation, keeps every other annotation, and the maps that existed are as
    they were; it is refused only for a stash that does not decode. *)
Theorem stash_never_stored h a dst :
  match FrameJob_ConvertTo a (HubFrameJob dst) h with
  | ((HubFrameJob j, None), h') =>
    deref h' (om_Annotations (j_Meta j)) = delete framejobContainerAnnotation (deref h (om_Annotations (aj_Meta a))) /\
    h `prefix_of` h'
  | ((_, Some _), h') =>
    h' = h /\ exists raw e, deref h (om_Annotations (aj_Meta a)) !! framejobContainerAnnotation = Some raw /\ Unmarshal raw = inl e
  | _ => False
  end.
Proof.
  unfold FrameJob_ConvertTo, restoreFrameJobContainer. rewrite !St_bind_run. cbn [read_map fst snd].
  destruct (deref h (om_Annotations (aj_Meta a)) !! framejobContainerAnnotation) as [raw|] eqn:Ha.
  - destruct (Unmarshal raw) as [e|p] eqn:Hu; cbn [mret St_ret fst snd]; [by eauto|].
    rewrite St_bind_run. cbn [read_map fst snd j_Meta]. rewrite bool_decide_false by (intros E; by rewrite E in Ha).
    cbv zeta. rewrite St_bind_run. cbn [alloc fst snd mret St_ret j_Meta fill_container set_annots om_Annotations].
    split; [|by eexists]. case_bool_decide as E; [by rewrite E|]. by rewrite deref_alloc.
  - cbn [mret St_ret fst snd j_Meta]. split; [|done]. by rewrite delete_id.
Qed.

(** A v1alpha1 job without a stash that goes up and comes down again changes
    in two fields: the namespace is the object's own, and the phase the one
    its conditions say. *)
Theorem spoke_roundtrip_job h a dst :
  deref h (om_Annotations (aj_Meta a)) !! framejobContainerAnnotation = None ->
  let s := aj_Spec a in
  let t := aj_Status a in
  exists j, FrameJob_ConvertTo a (HubFrameJob V1beta1.zero_job) h = ((HubFrameJob j, None), h) /\
    FrameJob_ConvertFrom dst (HubFrameJob j) h =
      ((V1alpha1.mkFJ (aj_Meta a)
          (V1alpha1.mkFJSpec (ajs_Pipeline s) (ajs_ServiceClass s) (ajs_Priority s) (om_Namespace (aj_Meta a)) (ajs_GPUCount s) (ajs_Parameters s) (ajs_Suspended s))
          (V1alpha1.mkFJStatus (ajt_ObservedGeneration t) (FrameJobPhaseFromConditions (ajt_Conditions t)) (ajt_Conditions t)
             (ajt_ArgoWorkflowName t) (ajt_StartTime t) (ajt_CompletionTime t) (ajt_Message t)), None), h).
Proof.
  intros Ha s t. unfold FrameJob_ConvertTo, restoreFrameJobContainer. rewrite !St_bind_run. cbn [read_map fst snd]. rewrite Ha.
  cbn [mret St_ret fst snd]. eexists. split; [reflexivity|]. rewrite ConvertFrom_plain by done. unfold down. simpl. rewrite parameters_to.
  by destruct a as [[] [] []].
Qed.

(** ** The other kinds *)

Lemma credentials_beta l : toBetaCredentials (fromBetaCredentials l) = l.
Proof. destruct l as [l|]; [|done]. simpl. f_equal. rewrite map_map. rewrite (map_ext _ id) by (by intros []). apply map_id. Qed.
Lemma credentials_alpha l : fromBetaCredentials (toBetaCredentials l) = l.
Proof. destruct l as [l|]; [|done]. simpl. f_equal. rewrite map_map. rewrite (map_ext _ id) by (by intros []). apply map_id. Qed.

(** A hub object of the four other kinds read at v1alpha1 and written back is
    the object it was, with no condition on it: the password hash included. *)
Theorem hub_roundtrip_kinds :
  (forall n dst dst', let '(a, e) := FrameNode_ConvertFrom dst (HubFrameNode n) in
     e = None /\ FrameNode_ConvertTo a (HubFrameNode dst') = (HubFrameNode n, None)) /\
  (forall q dst dst', let '(a, e) := FrameResourceQuota_ConvertFrom dst (HubFrameResourceQuota q) in
     e = None /\ FrameResourceQuota_ConvertTo a (HubFrameResourceQuota dst') = (HubFrameResourceQuota q, None)) /\
  (forall p dst dst', let '(a, e) := SchedulingPolicy_ConvertFrom dst (HubSchedulingPolicy p) in
     e = None /\ SchedulingPolicy_ConvertTo a (HubSchedulingPolicy dst') = (HubSchedulingPolicy p, None)) /\
  (forall u dst dst', let '(a, e) := FrameUser_ConvertFrom dst (HubFrameUser u) in
     e = None /\ FrameUser_ConvertTo a (HubFrameUser dst') = (HubFrameUser u, None)).
Proof.
  repeat split.
  - destruct n as [m [ip ro [] rd ho ra zo sc] []]. done.
  - destruct q as [m [] []]. done.
  - destruct p as [m [] []]. done.
  - destruct u as [m [] [og ph l]]. simpl. by rewrite credentials_beta.
Qed.

(** And a v1alpha1 object that goes up and comes down again changes in the
    phase of a node only. *)
Theorem spoke_roundtrip_kinds :
  (forall a dst dst', exists x, FrameNode_ConvertTo a (HubFrameNode dst') = (x, None) /\
     let t := an_Status a in
     FrameNode_ConvertFrom dst x = (V1alpha1.mkFN (an_Meta a) (an_Spec a)
       (V1alpha1.mkFNStatus (ant_ObservedGeneration t) (FrameNodePhaseFromConditions (ant_Conditions t)) (ant_Conditions t)
          (ant_KubeletVersion t) (ant_Capacity t) (ant_Allocatable t) (ant_NodeName t)), None)) /\
  (forall a dst dst', exists x, FrameResourceQuota_ConvertTo a (HubFrameResourceQuota dst') = (x, None) /\
     FrameResourceQuota_ConvertFrom dst x = (a, None)) /\
  (forall a dst dst', exists x, SchedulingPolicy_ConvertTo a (HubSchedulingPolicy dst') = (x, None) /\
     SchedulingPolicy_ConvertFrom dst x = (a, None)) /\
  (forall a dst dst', exists x, FrameUser_ConvertTo a (HubFrameUser dst') = (x, None) /\
     FrameUser_ConvertFrom dst x = (a, None)).
Proof.
  repeat split; intros a dst dst'; eexists; (split; [reflexivity|]).
  - destruct a as [m [ip ro [] rd ho ra zo sc] []]. done.
  - destruct a as [m [] []]. done.
  - destruct a as [m [] []]. done.
  - destruct a as [m [] [og l]]. simpl. by rewrite credentials_alpha.
Qed.

(** ** Phases *)

(** The values v1alpha1's enum admits; the empty string is an absent field. *)
Definition job_phases : list string := ["Pending"; "Submitted"; "Running"; "Suspended"; "Completed"; "Failed"].
Definition node_phases : list string := [""; "Discovering"; "Discovered"; "Provisioning"; "Online"; "Degraded"; "Offline"; "Failed"].

(** The phase of a job is in v1alpha1's enum whatever the reasons say, is never
    a final one unless the Ready condition's reason says so, and is Pending
    exactly when neither condition is there; a node's is in its enum or
    absent, and names what the Ready condition's reason says. *)
Theorem phases_legal cs :
  FrameJobPhaseFromConditions cs ∈ job_phases /\
  (FrameJobPhaseFromConditions cs ∈ ["Running"; "Suspended"; "Completed"; "Failed"] ->
     exists c, c ∈ default [] cs /\ cond_Type c = "Ready" /\ cond_Reason c = FrameJobPhaseFromConditions cs) /\
  (FrameJobPhaseFromConditions cs = "Pending" <-> forall c, c ∈ default [] cs -> cond_Type c <> "Ready" /\ cond_Type c <> "Submitted") /\
  FrameNodePhaseFromConditions cs ∈ node_phases /\
  (FrameNodePhaseFromConditions cs <> "" ->
     exists c, c ∈ default [] cs /\ cond_Type c = "Ready" /\ cond_Reason c = FrameNodePhaseFromConditions cs).
Proof.
  unfold FrameJobPhaseFromConditions, FrameNodePhaseFromConditions, conditionTypeReady, conditionTypeSubmitted, job_phases, node_phases. cbv zeta.
  generalize (default [] cs) as l. intros l. destruct (find_condition l "Ready") as [c|] eqn:Er.
  - apply find_condition_type in Er as [Hin Ht]. split; [|split; [|split; [split|split]]].
    + case_bool_decide as Hr; [|unfold legacyPhaseSubmitted; set_solver]. revert Hr. unfold legacyPhaseSubmitted, legacyPhaseRunning, legacyPhaseSuspended, legacyPhaseCompleted, legacyPhaseFailed. set_solver.
    + case_bool_decide as Hr; [by exists c|]. unfold legacyPhaseSubmitted. intros H'. set_solver.
    + case_bool_decide as Hr; [|done]. intros E. rewrite E in Hr. exfalso. revert Hr. apply (bool_decide_eq_false_1 _). reflexivity.
    + intros Hno. by destruct (Hno c Hin) as [? _].
    + case_bool_decide as Hr; [|set_solver]. revert Hr. unfold legacyPhaseDiscovered, legacyPhaseProvisioning, legacyPhaseOnline, legacyPhaseDegraded, legacyPhaseOffline. set_solver.
    + case_bool_decide as Hr; [by exists c|done].
  - pose proof (find_condition_none _ _ Er) as Hno. destruct (find_condition l "Submitted") as [c|] eqn:Es.
    + apply find_condition_type in Es as [Hin Ht]. split; [|split; [|split; [split|split]]]; unfold legacyPhaseSubmitted; [set_solver|set_solver|done| |set_solver|done].
      intros Hn. by destruct (Hn c Hin) as [_ ?].
    + pose proof (find_condition_none _ _ Es) as Hno'. split; [|split; [|split; [split|split]]]; unfold legacyPhasePending; [set_solver|set_solver|auto|done|set_solver|done].
Qed.

End Safety.

(** * Runs *)

(** ** The parameters *)

Definition demo_find (cs : list (string * string)) (t : string) : option (string * string) :=
  find (fun c => bool_decide (c.1 = t)) cs.
Definition demo_env (e : string * string) : result string json := inr (JObj [("name", JStr e.1); ("value", JStr e.2)]).
Definition demo_env_decode (j : json) : option (string * string) :=
  match j with JObj [(_, JStr n); (_, JStr v)] => Some (n, v) | _ => None end.
(** Limits, with [omitempty]: an empty list is not written. *)
Definition demo_rr (r : option (list string)) : result string json :=
  inr (JObj (match r with Some (x :: l) => [("limits", JArr (map JStr (x :: l)))] | _ => [] end)).
Definition demo_rr_decode (old : option (list string)) (j : json) : option (option (list string)) :=
  match j with
  | JObj [] => Some old
  | JObj [(_, JArr l)] => l ← mapM (decode_string "") l; Some (Some l)
  | _ => None
  end.

#[export] Instance demo_foreign : Foreign := {|
  MetaRest := unit; Cond := string * string; cond_Type := fst; cond_Reason := snd; find_condition := demo_find;
  Quantity := Z; EnvVar := string * string; EnvFromSource := string * string; ResourceRequirements := option (list string);
  zero_meta := tt; zero_rr := None; env_json := demo_env; env_decode := demo_env_decode;
  envfrom_json := demo_env; envfrom_decode := demo_env_decode; rr_json := demo_rr; rr_decode := demo_rr_decode;
  json_error := fun _ => "invalid"
|}.

Lemma demo_env_round (e : string * string) : utf8 e.1 /\ utf8 e.2 ->
  exists j, demo_env e = inr j /\ json_ok j = true /\ depth j <= 64 /\ demo_env_decode j = Some e.
Proof.
  destruct e as [n v]. intros [Hn Hv]. eexists. split; [reflexivity|]. simpl in *. unfold utf8 in *. rewrite Hn, Hv.
  split; [done|]. by split.
Qed.

Definition demo_rr_ok (r : option (list string)) : Prop :=
  match r with Some [] => False | Some l => Forall utf8 l | None => True end.

Lemma demo_rr_round r : demo_rr_ok r ->
  exists j, demo_rr r = inr j /\ json_ok j = true /\ depth j <= 64 /\ demo_rr_decode None j = Some r.
Proof.
  intros Hr. destruct r as [[|x l]|]; [done| |by eexists]. eexists. split; [reflexivity|]. simpl in Hr.
  destruct (encode_all_round str_json _ _ (x :: l) str_coder Hr) as (js & E & H1 & H2 & H3).
  assert (js = map JStr (x :: l)) as ->.
  { clear -E. revert js E. induction (x :: l) as [|y k IH]; intros js E; simpl in E; [by simplify_eq|].
    destruct (encode_all str_json k) eqn:E'; [done|]. simplify_eq. simpl. f_equal. by apply IH. }
  set (k := x :: l) in *. change (json_ok _) with (forallb json_ok (map JStr k) && true). rewrite H1. split; [done|].
  split; [|cbn [demo_rr_decode]; by rewrite H3].
  change (1 + max_of [1 + max_of (map depth (map JStr k))] <= 64). assert (max_of (map depth (map JStr k)) <= 0).
  { clear. induction k; simpl; [done|]. unfold max_of in *. simpl in *. lia. }
  change (max_of [?x]) with (Z.max x 0). lia.
Qed.

#[export] Instance demo_laws : ForeignLaws.
Proof.
  refine {| env_ok := fun e => utf8 e.1 /\ utf8 e.2; envfrom_ok := fun e => utf8 e.1 /\ utf8 e.2; rr_ok := demo_rr_ok |}.
  - intros cs t c Hc. simpl in *. unfold demo_find in Hc. apply find_some in Hc as [Hin Ht].
    split; [by apply list_elem_of_In|]. by apply bool_decide_eq_true in Ht.
  - intros cs t Hn c Hc Ht. simpl in *. unfold demo_find in Hn. apply list_elem_of_In in Hc.
    pose proof (find_none _ _ Hn c Hc) as H. simpl in H. by rewrite bool_decide_true in H.
  - apply demo_env_round.
  - apply demo_env_round.
  - apply demo_rr_round.
Defined.

(** ** A container job *)

(** Commands present but empty, arguments absent, a value to escape. *)
Definition demo_container : ContainerSpec :=
  mkContainer "busybox" (Some []) None (Some [("A", "<&>")]) (Some ["cpu=1"]) None.
Definition demo_job (a : option nat) : V1beta1.FrameJob :=
  V1beta1.mkFJ (mkMeta "j" "ns" a tt)
    (V1beta1.mkFJSpec "" (Some demo_container) "batch" "LOW" "" 1 (Some {["k" := "v"]}) false)
    (V1beta1.mkFJStatus 3 (Some [("Ready", "Completed")]) "" "j-1" "Job" None None "").
Definition demo_heap : heap := [{["team" := "x"]}; ∅].

Lemma demo_exact a : stash_exact (demo_job a).
Proof. repeat split; try (vm_compute; reflexivity); repeat constructor; vm_compute; reflexivity. Qed.

Lemma hub_roundtrip_job_witness :
  exists a h1 j' h2, FrameJob_ConvertFrom V1alpha1.zero_job (HubFrameJob (demo_job (Some 0%nat))) demo_heap = ((a, None), h1) /\
    FrameJob_ConvertTo a (HubFrameJob V1beta1.zero_job) h1 = ((HubFrameJob j', None), h2) /\
    same_job demo_heap (demo_job (Some 0%nat)) h2 j' /\ demo_heap `prefix_of` h1 /\ h1 `prefix_of` h2.
Proof.
  destruct (hub_roundtrip_job demo_heap (demo_job (Some 0%nat)) V1alpha1.zero_job) as (a & h1 & j' & h2 & H1 & H2 & Hs & Hp); [apply demo_exact|vm_compute; reflexivity|].
  exists a, h1, j', h2. split; [exact H1|]. split; [exact H2|]. split; [|exact Hp]. destruct Hs as [Hs|[E _]]; [exact Hs|]. vm_compute in E. discriminate E.
Defined.

Lemma spoke_roundtrip_job_witness :
  let a := V1alpha1.mkFJ (mkMeta "j" "ns" (Some 0%nat) tt) (V1alpha1.mkFJSpec "p" "LOW" "" "other" 0 None false)
             (V1alpha1.mkFJStatus 1 "Completed" (Some [("Ready", "Failed")]) "w" None None "") in
  exists j, FrameJob_ConvertTo a (HubFrameJob V1beta1.zero_job) demo_heap = ((HubFrameJob j, None), demo_heap) /\
    exists b, FrameJob_ConvertFrom V1alpha1.zero_job (HubFrameJob j) demo_heap = ((b, None), demo_heap) /\
      ajs_Namespace (aj_Spec b) = "ns" /\ ajt_Phase (aj_Status b) = "Failed".
Proof.
  intros a. destruct (spoke_roundtrip_job demo_heap a V1alpha1.zero_job) as (j & H1 & H2); [vm_compute; reflexivity|].
  exists j. split; [exact H1|]. eexists. split; [exact H2|]. split; vm_compute; reflexivity.
Defined.

(** Annotations that are present but empty come back absent when the job has
    something to stash. *)
Theorem empty_annotations_lost :
  exists j', let '((a, _), h1) := FrameJob_ConvertFrom V1alpha1.zero_job (HubFrameJob (demo_job (Some 1%nat))) demo_heap in
  (FrameJob_ConvertTo a (HubFrameJob V1beta1.zero_job) h1).1 = (HubFrameJob j', None) /\
  annots demo_heap (j_Meta (demo_job (Some 1%nat))) = Some ∅ /\ om_Annotations (j_Meta j') = None.
Proof. eexists. vm_compute. split; [reflexivity|]. split; reflexivity. Qed.

(** A pipeline job stored with a stash annotation of its own, which no rule
    forbids at v1beta1, gets the container of the stash when it is read at
    v1alpha1 and written back unchanged. *)
Definition stashed_pipeline : V1beta1.FrameJob :=
  V1beta1.mkFJ (mkMeta "p" "ns" (Some 0%nat) tt) (V1beta1.mkFJSpec "train" None "" "LOW" "" 0 None false)
    (V1beta1.mkFJStatus 0 None "" "" "" None None "").
Theorem own_stash_replayed :
  let raw := of_bytes (to_bytes "{" ++ dquote :: to_bytes "container" ++ dquote :: to_bytes ":{" ++ dquote :: to_bytes "image" ++
               dquote :: ":"%char :: dquote :: to_bytes "x" ++ dquote :: to_bytes "}}") in
  exists j', let '((a, _), h1) := FrameJob_ConvertFrom V1alpha1.zero_job (HubFrameJob stashed_pipeline) [{[framejobContainerAnnotation := raw]}] in
  (FrameJob_ConvertTo a (HubFrameJob V1beta1.zero_job) h1).1 = (HubFrameJob j', None) /\
  js_Pipeline (j_Spec j') = "train" /\ js_Container (j_Spec j') = Some (mkContainer "x" None None None None None).
Proof. eexists. vm_compute. split; [reflexivity|]. split; reflexivity. Qed.

Lemma phases_legal_witness :
  FrameJobPhaseFromConditions (F := demo_foreign) (Some [("Ready", "Odd")]) ∈ job_phases /\
  FrameNodePhaseFromConditions (F := demo_foreign) (Some [("Ready", "Online")]) ∈ node_phases.
Proof.
  split; [apply (phases_legal (FL := demo_laws) (Some [("Ready", "Odd")]))|apply (phases_legal (FL := demo_laws) (Some [("Ready", "Online")]))].
Defined.
