(* ===== verification/GoText.v ===== *)
(** More of Go's library on text: encoding/base64 without padding, the
    percent-encoding of url.QueryEscape, and the case functions of strings.

    Case mapping outside ASCII is the table of package unicode, which is a
    parameter ([Unicode]): what unicode.ToLower makes of a rune, and the runes
    that unicode.SimpleFold cycles through. *)
From stdpp Require Import base tactics strings list.
From Stdlib Require Import ZArith Lia Ascii.
From S2P Require Import Prelude GoLib GoJson Sha256.

Open Scope Z_scope.

(** * encoding/base64

    Bytes are their values, as in [Sha256]. *)

(** RawURLEncoding and RawStdEncoding differ in their last two digits. *)
Inductive Encoding := RawURLEncoding | RawStdEncoding.

Definition digit62 (e : Encoding) : ascii := match e with RawURLEncoding => "-"%char | RawStdEncoding => "+"%char end.
Definition digit63 (e : Encoding) : ascii := match e with RawURLEncoding => "_"%char | RawStdEncoding => "/"%char end.

Definition b64_digit (e : Encoding) (v : Z) : ascii :=
  if v <? 26 then byteN (65 + v)
  else if v <? 52 then byteN (97 + (v - 26))
  else if v <? 62 then byteN (48 + (v - 52))
  else if v =? 62 then digit62 e else digit63 e.

Definition b64_value (e : Encoding) (c : ascii) : option Z :=
  if in_range 65 90 c then Some (byteZ c - 65)
  else if in_range 97 122 c then Some (byteZ c - 97 + 26)
  else if in_range 48 57 c then Some (byteZ c - 48 + 52)
  else if Ascii.eqb c (digit62 e) then Some 62
  else if Ascii.eqb c (digit63 e) then Some 63
  else None.

(** [EncodeToString]: three bytes to four digits. *)
Fixpoint b64_groups (l : list Z) : list Z :=
  match l with
  | a :: b :: c :: l => [a / 4; a mod 4 * 16 + b / 16; b mod 16 * 4 + c / 64; c mod 64] ++ b64_groups l
  | [a; b] => [a / 4; a mod 4 * 16 + b / 16; b mod 16 * 4]
  | [a] => [a / 4; a mod 4 * 16]
  | [] => []
  end.
Definition EncodeToString (e : Encoding) (l : list Z) : string := of_bytes (map (b64_digit e) (b64_groups l)).

(** [DecodeString]: carriage returns and newlines are skipped, any other byte
    that is no digit is an error, and so is a lone digit at the end; the spare
    bits of the last digit are ignored (neither encoding is Strict). *)
Fixpoint b64_ungroup (l : list Z) : option (list Z) :=
  match l with
  | a :: b :: c :: d :: l => r ← b64_ungroup l; Some ([a * 4 + b / 16; b mod 16 * 16 + c / 4; c mod 4 * 64 + d] ++ r)
  | [a; b; c] => Some [a * 4 + b / 16; b mod 16 * 16 + c / 4]
  | [a; b] => Some [a * 4 + b / 16]
  | [_] => None
  | [] => Some []
  end.
Definition is_crlf (c : ascii) : bool := Ascii.eqb c (byte 13) || Ascii.eqb c (byte 10).
Definition DecodeString (e : Encoding) (s : string) : option (list Z) :=
  vs ← mapM (b64_value e) (List.filter (fun c => negb (is_crlf c)) (to_bytes s));
  b64_ungroup vs.

Example b64_vectors :
  map (fun s => EncodeToString RawStdEncoding (string_bytes s)) [""; "f"; "fo"; "foo"; "foob"; "fooba"; "foobar"] =
  [""; "Zg"; "Zm8"; "Zm9v"; "Zm9vYg"; "Zm9vYmE"; "Zm9vYmFy"] /\
  EncodeToString RawURLEncoding [251; 255] = "-_8" /\
  DecodeString RawURLEncoding (of_bytes (to_bytes "-_" ++ [newline] ++ to_bytes "9")) = Some [251; 255] /\
  map (DecodeString RawURLEncoding) ["A"; "+/8"; "AA="; "AAAAA"] = replicate 4 None.
Proof. vm_compute. repeat split; reflexivity. Qed.

Definition sextet (x : Z) : Prop := 0 <= x < 64.

Lemma octet_ascii (c : ascii) : octet (byteZ c).
Proof. unfold octet, byteZ. pose proof (N_ascii_bounded c). lia. Qed.

(** What holds of every byte is checked by computation. *)
Definition all_bytes : list ascii := map (fun n => byteN (Z.of_nat n)) (seq 0 256).
Lemma in_all_bytes c : c ∈ all_bytes.
Proof.
  apply list_elem_of_fmap. exists (Z.to_nat (byteZ c)). pose proof (octet_ascii c) as Hc. unfold octet in Hc. split.
  - rewrite Z2Nat.id by lia. unfold byteN, byte, byteZ. by rewrite N2Z.id, ascii_N_embedding.
  - apply elem_of_seq. lia.
Qed.
Lemma byte_forall (f : ascii -> bool) : forallb f all_bytes = true -> forall c, f c = true.
Proof. intros H c. rewrite forallb_forall in H. apply H, list_elem_of_In, in_all_bytes. Qed.

Lemma string_bytes_octets (s : string) : Forall octet (string_bytes s).
Proof. unfold string_bytes. apply Forall_forall. intros x Hx. apply list_elem_of_fmap in Hx as (c & -> & _). apply octet_ascii. Qed.

(** A check of all the digits, by computation. *)
Definition digits : list Z := map Z.of_nat (seq 0 64).
Lemma sextet_digits (P : Z -> bool) v : forallb P digits = true -> sextet v -> P v = true.
Proof.
  intros H [H0 H1]. rewrite forallb_forall in H. apply H. unfold digits. apply in_map_iff.
  exists (Z.to_nat v). split; [lia|]. apply in_seq. lia.
Qed.

Definition value_is (o : option Z) (v : Z) : bool := match o with Some x => x =? v | None => false end.

Lemma b64_value_digit e v : sextet v -> b64_value e (b64_digit e v) = Some v.
Proof.
  intros Hv. assert (value_is (b64_value e (b64_digit e v)) v = true) as H.
  { apply (sextet_digits (fun v => value_is (b64_value e (b64_digit e v)) v)); [destruct e; by vm_compute|done]. }
  destruct (b64_value e (b64_digit e v)) as [x|]; [|done]. cbn in H. bool_to_prop. by subst.
Qed.

Lemma b64_groups_sextets l : Forall octet l -> Forall sextet (b64_groups l).
Proof.
  unfold octet, sextet. induction l as [l IH] using (induction_ltof1 _ (@length Z)). unfold ltof in IH. intros H.
  destruct l as [|a [|b [|c l]]]; cbn [b64_groups]; decompose_Forall_hyps; [constructor| | |].
  3: do 4 (apply Forall_cons_2; [Z.to_euclidean_division_equations; lia|]); apply IH; [cbn; lia|done].
  all: repeat constructor; Z.to_euclidean_division_equations; lia.
Qed.

Lemma b64_ungroup_groups l : Forall octet l -> b64_ungroup (b64_groups l) = Some l.
Proof.
  unfold octet. induction l as [l IH] using (induction_ltof1 _ (@length Z)). unfold ltof in IH. intros H.
  destruct l as [|a [|b [|c l]]]; cbn [b64_groups b64_ungroup app]; decompose_Forall_hyps; [done| | |].
  1,2: do 2 f_equal; repeat f_equal; Z.to_euclidean_division_equations; lia.
  rewrite IH by (done || cbn; lia). cbn. do 2 f_equal; [|f_equal; [|f_equal]]; Z.to_euclidean_division_equations; lia.
Qed.

Lemma mapM_digits e vs : Forall sextet vs -> mapM (b64_value e) (map (b64_digit e) vs) = Some vs.
Proof. induction 1 as [|v vs Hv Hvs IH]; [done|]. cbn. rewrite b64_value_digit by done. cbn. by rewrite IH. Qed.

(** A predicate on bytes that holds where there is a value holds of an encoding. *)
Lemma encoded_bytes e l (P : ascii -> bool) : forallb (fun v => P (b64_digit e v)) digits = true -> Forall octet l ->
  Forall (fun c => P c = true) (to_bytes (EncodeToString e l)).
Proof.
  intros HP Hl. unfold EncodeToString. rewrite to_of_bytes. apply Forall_fmap, Forall_forall. intros v Hv.
  apply b64_groups_sextets in Hl. rewrite Forall_forall in Hl. apply (sextet_digits (fun v => P (b64_digit e v))); auto.
Qed.

Lemma filter_all {A} (P : A -> bool) l : Forall (fun x => P x = true) l -> List.filter P l = l.
Proof. induction 1 as [|x l Hx Hl IH]; [done|]. cbn. by rewrite Hx, IH. Qed.

(** What was encoded is decoded. *)
Lemma DecodeString_EncodeToString e l : Forall octet l -> DecodeString e (EncodeToString e l) = Some l.
Proof.
  intros Hl. unfold DecodeString. rewrite filter_all.
  - unfold EncodeToString. rewrite to_of_bytes, mapM_digits by by apply b64_groups_sextets. cbn. by apply b64_ungroup_groups.
  - apply encoded_bytes; [destruct e; by vm_compute|done].
Qed.

(** * url.QueryEscape *)

Definition unreserved (c : ascii) : bool :=
  in_range 97 122 c || in_range 65 90 c || in_range 48 57 c || existsb (Ascii.eqb c) (to_bytes "-_.~").
Definition upper_hex (n : Z) : ascii := if n <? 10 then byteN (48 + n) else byteN (55 + n).
Definition query_escape_byte (c : ascii) : bytes :=
  if unreserved c then [c]
  else if Ascii.eqb c " " then ["+"%char]
  else ["%"%char; upper_hex (byteZ c / 16); upper_hex (byteZ c mod 16)].
Definition QueryEscape (s : string) : string := of_bytes (flat_map query_escape_byte (to_bytes s)).

Lemma QueryEscape_unreserved s : Forall (fun c => unreserved c = true) (to_bytes s) -> QueryEscape s = s.
Proof.
  intros H. unfold QueryEscape. rewrite <- (of_to_bytes s) at 2. f_equal.
  induction H as [|c l Hc Hl IH]; [done|]. cbn. unfold query_escape_byte at 1. by rewrite Hc, IH.
Qed.

(** * Case *)

(** Package unicode, for a rune outside ASCII by its encoding: the encoding of
    its lower case, and a representative of the runes that fold to each other
    (SimpleFold's orbit), which is the lower-case letter where that orbit has an
    ASCII letter. *)
Class Unicode := {
  unicode_lower : bytes -> bytes;
  unicode_fold : bytes -> bytes
}.

Definition lower_ascii (c : ascii) : ascii := if in_range 65 90 c then byteN (byteZ c + 32) else c.

Section Case.
Context `{U : Unicode}.

(** [strings.ToLower]: a byte that is not UTF-8 becomes U+FFFD unless the
    string is ASCII, where there is none. *)
Definition lower_rune (r : rune) : bytes :=
  match r with
  | RuneBytes [c] => [lower_ascii c]
  | RuneBytes b => unicode_lower b
  | RuneInvalid _ => replacement
  end.
Definition ToLower (s : string) : string := of_bytes (flat_map lower_rune (runes s)).

(** [strings.EqualFold]: the same number of runes, pairwise in one orbit. A
    byte that is not UTF-8 reads as U+FFFD. *)
Definition fold_case (r : rune) : bytes :=
  match r with
  | RuneBytes [c] => [lower_ascii c]
  | RuneBytes b => unicode_fold b
  | RuneInvalid _ => unicode_fold replacement
  end.
Definition folded (s : string) : list bytes := map fold_case (runes s).
Definition EqualFold (s t : string) : bool := bool_decide (folded s = folded t).

Lemma EqualFold_spec s t : EqualFold s t = true <-> folded s = folded t.
Proof. apply bool_decide_eq_true. Qed.
Lemma EqualFold_refl s : EqualFold s s = true.
Proof. by apply EqualFold_spec. Qed.
Lemma EqualFold_sym s t : EqualFold s t = EqualFold t s.
Proof. unfold EqualFold. apply bool_decide_ext. naive_solver. Qed.

Lemma folded_nil s : folded s = [] -> s = "".
Proof.
  unfold folded, runes. intros H%map_eq_nil. rewrite <- (of_to_bytes s) in *. rewrite to_of_bytes in H.
  destruct (to_bytes s) as [|c l]; [done|]. cbn [length runes_fuel] in H. destruct (next_rune (c :: l)) as [[r l']|] eqn:E; [done|].
  exfalso. revert E. clear. unfold next_rune. repeat case_match; done.
Qed.
End Case.

(** [strings.ReplaceAll] of one byte. *)
Definition replace_byte (c : ascii) (by_ : bytes) (l : bytes) : bytes :=
  flat_map (fun x => if Ascii.eqb x c then by_ else [x]) l.

(** [strings.TrimRight], [strings.Trim] with a set of ASCII bytes. *)
Fixpoint trim_left_set (p : ascii -> bool) (l : bytes) : bytes :=
  match l with c :: t => if p c then trim_left_set p t else l | [] => [] end.
Definition trim_right_set (p : ascii -> bool) (l : bytes) : bytes := rev (trim_left_set p (rev l)).
Definition trim_set (p : ascii -> bool) (l : bytes) : bytes := trim_right_set p (trim_left_set p l).

Lemma trim_left_set_spec p l : exists k, l = (k ++ trim_left_set p l)%list /\
  match trim_left_set p l with c :: _ => p c = false | [] => True end.
Proof.
  induction l as [|c t (k & Hk & Hh)]; [by exists []|]. cbn. destruct (p c) eqn:E; [|by exists []].
  exists (c :: k). split; [|done]. cbn. by rewrite <- Hk.
Qed.

Lemma trim_right_set_spec p l : exists k, l = (trim_right_set p l ++ k)%list /\
  forall c t, rev (trim_right_set p l) = c :: t -> p c = false.
Proof.
  unfold trim_right_set. destruct (trim_left_set_spec p (rev l)) as (k & Hk & Hh). exists (rev k). split.
  - rewrite <- rev_app_distr, <- Hk. by rewrite rev_involutive.
  - rewrite rev_involutive. intros c t E. by rewrite E in Hh.
Qed.
