(* ===== verification/Authd.v ===== *)
(** The authentication daemon, internal/authd: sealed tokens (challenge.go), the
    store of accounts (store.go, state.go), identity tokens (issuer.go), the
    WebAuthn ceremonies (webauthn.go) and the HTTP routes (server*.go).

    What the code does not hold itself is in three classes: [AuthWorld], the API
    server and the clock; [Jose], the signer of identity tokens; [WebAuthn],
    github.com/go-webauthn. net/http's mux is left out: a request comes with the
    route that matched it. Log lines are left out. *)
From stdpp Require Import base tactics strings list.
From Stdlib Require Import ZArith Lia Ascii.
From S2P Require Import Prelude GoLib GoTime GoJson GoNet Sha256 GoText V1beta1 Conversion.

Open Scope Z_scope.

(** * Errors

    The text of an error, and the sentinel errors.Is finds in it. *)
Inductive sentinel :=
| ErrUserNotFound | ErrLastCredential | ErrAccountDisabled | ErrCounterRegression | ErrUserNotVerified | ErrBadChallenge
| AlreadyExists | NotFound.   (* the last two as apierrors tells them *)
#[export] Instance sentinel_eq : EqDecision sentinel.
Proof. solve_decision. Defined.

Record error := mkError { e_text : string; e_is : option sentinel }.
Definition errors_New (text : string) (s : sentinel) : error := mkError text (Some s).
(** [fmt.Errorf] without and with [%w] at its end. *)
Definition Errorf (text : string) : error := mkError text None.
Definition wrapf (prefix : string) (e : error) : error := mkError (prefix +:+ ": " +:+ e_text e) (e_is e).
Definition errors_Is (e : error) (s : sentinel) : bool := bool_decide (e_is e = Some s).

Definition errBadChallenge : error := errors_New "challenge is missing, expired or has been tampered with" ErrBadChallenge.
Definition errUserNotFound : error := errors_New "no such user" ErrUserNotFound.
Definition errAccountDisabled : error := errors_New "account is disabled" ErrAccountDisabled.

(** * Constants of frameuser_types.go *)

Definition RoleAdmin : string := "admin".
Definition RoleOperator : string := "operator".
Definition RoleViewer : string := "viewer".
Definition PasswordDisabled : string := "disabled".
Definition StateEnabled : string := "enabled".
Definition StateDisabled : string := "disabled".

(** * Sealed tokens *)

Inductive Purpose := PurposeSession | PurposeChallenge | PurposeInvite | PurposeEnrol.
#[export] Instance Purpose_eq : EqDecision Purpose.
Proof. solve_decision. Defined.
Definition purpose_string (p : Purpose) : string :=
  match p with PurposeSession => "session" | PurposeChallenge => "challenge" | PurposeInvite => "invite" | PurposeEnrol => "enrol" end.

Definition nul_byte : string := String zero "".
Definition bytes_string (l : list Z) : string := of_bytes (map byteN l).

(** The codec is its key. *)
Definition sign (key : string) (purpose : Purpose) (encoded : string) : list Z :=
  hmac256 (string_bytes key) (string_bytes (purpose_string purpose +:+ nul_byte +:+ encoded)).

(** [uint64(t.Unix())], and what [time.Unix(int64(u), 0)] is compared by: the
    seconds since year 1, which wrap. *)
Definition unix_of (nanos : Z) : Z := nanos / second.
Definition unixToInternal : Z := 62135596800.
Definition internal_sec (secs : Z) : Z := wrap64 (secs + unixToInternal).
(** [time.Now().After(time.Unix(secs, 0))]. *)
Definition now_after (nanos secs : Z) : bool :=
  let s := internal_sec (unix_of nanos) in
  (internal_sec secs <? s) || ((internal_sec secs =? s) && (0 <? nanos mod second)).

Definition uint64_be (l : list Z) : Z := foldl (fun acc b => acc * 256 + b) 0 l.

(** Seal returns no error on any path, so the branches behind one are left out
    of its callers. *)
Definition Seal (key : string) (purpose : Purpose) (data : string) (ttl nanos : Z) : string :=
  let payload := (be_bytes 8 (unix_of (nanos + ttl)) ++ string_bytes data)%list in
  let encoded := EncodeToString RawURLEncoding payload in
  encoded +:+ "." +:+ EncodeToString RawURLEncoding (sign key purpose encoded).

(** [strings.Cut(token, ".")]. *)
Definition cut_dot (token : string) : option (string * string) :=
  match cut_at "."%char (to_bytes token) with
  | (a, Some b) => Some (of_bytes a, of_bytes b)
  | (_, None) => None
  end.

(** Open up to the clock: the expiry and the data, if the signature holds. *)
Definition verify (key : string) (purpose : Purpose) (token : string) : option (Z * string) :=
  match cut_dot token with
  | None => None
  | Some (encoded, sig) =>
    match DecodeString RawURLEncoding sig with
    | None => None
    | Some gotSig =>
      if bool_decide (gotSig = sign key purpose encoded) then
        match DecodeString RawURLEncoding encoded with
        | None => None
        | Some payload =>
          if (length payload <? 8)%nat then None
          else Some (wrap64 (uint64_be (take 8 payload)), bytes_string (drop 8 payload))
        end
      else None
    end
  end.

(** * Identity tokens *)

Definition GroupForRole (role : string) : string :=
  if bool_decide (role = RoleAdmin) then "admins"
  else if bool_decide (role = RoleOperator) then "operators"
  else if bool_decide (role = RoleViewer) then "viewers"
  else "".

(** jwt.Claims and the two fields beside it; the dates are the arguments of
    NewNumericDate. *)
Record Claims := mkClaims {
  c_Issuer : string; c_Subject : string; c_Audience : list string;
  c_IssuedAt : Z; c_NotBefore : Z; c_Expiry : Z;
  c_Email : string; c_Groups : list string
}.

Record Issuer := mkIssuer { i_url : string; i_clientID : string }.

(** * User verification *)

Inductive UserVerificationMode := UserVerificationLog | UserVerificationRequired.
#[export] Instance uvmode_eq : EqDecision UserVerificationMode.
Proof. solve_decision. Defined.

Definition ParseUserVerificationMode (s : string) : result error UserVerificationMode :=
  if bool_decide (s = "") || bool_decide (s = "log") then inr UserVerificationLog
  else if bool_decide (s = "required") then inr UserVerificationRequired
  else inl (Errorf ("unknown user verification mode " +:+ quote s +:+ " (want " +:+ quote "log" +:+ " or " +:+ quote "required" +:+ ")")).

(** * The outside *)

(** webauthn.Credential and webauthn.User, as far as the code looks at them. *)
Record WCredential := mkWCred {
  w_ID : list Z; w_PublicKey : list Z; w_SignCount : Z; w_CloneWarning : bool; w_UserVerified : bool
}.
Record WUser := mkWUser { wu_ID : list Z; wu_Name : string; wu_DisplayName : string; wu_Credentials : list WCredential }.

(** The options the two ceremonies are begun with. *)
Inductive ceremony_option := ResidentKeyRequired | VerificationRequired.

Section Outside.
Context `{F : Foreign}.

Class AuthWorld (W : Type) := {
  now : St W Z;                                           (* time.Now, in nanoseconds *)
  list_users : string -> St W (result error (list FrameUser));
  create_user : FrameUser -> St W (result error FrameUser);   (* the object as the server answers *)
  update_user_status : FrameUser -> St W (result error FrameUser);
  delete_secret : string -> string -> St W (option error)
}.

Class Jose (W : Type) := {
  sign_claims : Claims -> St W (result error string);
  jwks : result error string
}.

(** github.com/go-webauthn/webauthn. A session's UserVerification is a string;
    [sd_json] and [sd_decode] are encoding/json on SessionData, [options_json]
    on the options a ceremony sends. The callback of ValidateDiscoverableLogin
    writes a variable of its caller, the [option FrameUser]. *)
Class WebAuthn (W : Type) := {
  SessionData : Type;
  sd_UserVerification : SessionData -> string;
  set_UserVerification : SessionData -> string -> SessionData;
  sd_json : SessionData -> result error string;
  sd_decode : string -> result error SessionData;
  CeremonyOptions : Type;
  options_json : CeremonyOptions -> result error string;
  ParsedCreation : Type;
  ParsedAssertion : Type;
  begin_registration : WUser -> list ceremony_option -> St W (result error (CeremonyOptions * SessionData));
  begin_discoverable_login : list ceremony_option -> St W (result error (CeremonyOptions * SessionData));
  parse_creation : string -> result error ParsedCreation;
  parse_assertion : string -> result error ParsedAssertion;
  create_credential : WUser -> SessionData -> ParsedCreation -> St W (result error WCredential);
  validate_login : (list Z -> list Z -> St (W * option FrameUser) (result error WUser)) ->
    SessionData -> ParsedAssertion -> St (W * option FrameUser) (result error WCredential)
}.
End Outside.

(** ServerConfig; the Secret's name is empty, and [cfg_Client] false, where the
    source has no client to delete it with. *)
Record ServerConfig := mkServerConfig {
  cfg_Namespace : string;              (* of the server and of its Store *)
  cfg_Issuer : Issuer;
  cfg_Key : string;                    (* the codec's *)
  cfg_UVMode : UserVerificationMode;   (* the Authenticator's *)
  cfg_BootstrapSecret : string;
  cfg_BootstrapSecretName : string;
  cfg_Client : bool;
  cfg_TokenTTL : Z;
  cfg_SessionTTL : Z;
  cfg_ConsoleOrigin : string;
  cfg_InviteTTL : Z
}.

(** The defaults of NewServer. *)
Definition with_defaults (c : ServerConfig) : ServerConfig :=
  mkServerConfig (cfg_Namespace c) (cfg_Issuer c) (cfg_Key c) (cfg_UVMode c) (cfg_BootstrapSecret c) (cfg_BootstrapSecretName c)
    (cfg_Client c) (cfg_TokenTTL c) (if cfg_SessionTTL c =? 0 then 12 * hour else cfg_SessionTTL c) (cfg_ConsoleOrigin c)
    (if cfg_InviteTTL c =? 0 then 24 * hour else cfg_InviteTTL c).

Definition challengeTTL : Z := 5 * minute.
Definition enrolSessionTTL : Z := 15 * minute.
Definition maxEmailLength : Z := 254.
Definition sessionCookie : string := "frame_session".
Definition challengeCookie : string := "frame_challenge".

(** * Requests and responses *)

(** A body is [None] when it cannot be read. *)
Record Request := mkRequest {
  r_cookies : list (string * string);
  r_query : list (string * string);
  r_body : option string
}.

Record Cookie := mkCookie {
  ck_Name : string; ck_Value : string; ck_Path : string; ck_HttpOnly : bool; ck_Secure : bool; ck_SameSiteStrict : bool; ck_MaxAge : Z
}.

Inductive Body := NoBody | ErrorText (s : string) | Raw (s : string) | Json (v : json).
Record Response := mkResponse { status : Z; set_cookies : list Cookie; headers : list (string * string); body : Body }.

(** [http.Error], a bare status, and a body in JSON. *)
Definition http_Error (text : string) (code : Z) : Response := mkResponse code [] [] (ErrorText text).
Definition http_NotFound : Response := http_Error "404 page not found" 404.
Definition NoContent (cks : list Cookie) : Response := mkResponse 204 cks [] NoBody.
Definition content_json : string * string := ("Content-Type", "application/json").
Definition no_store : string * string := ("Cache-Control", "no-store").

(** [int(d.Seconds())]: exact in a float64 for durations under 97 days. *)
Definition int_seconds (d : Z) : Z := Z.quot d second.

Fixpoint assoc (k : string) (l : list (string * string)) : option string :=
  match l with
  | [] => None
  | (k', v) :: l => if bool_decide (k' = k) then Some v else assoc k l
  end.
Definition query_get (r : Request) (k : string) : string := default "" (assoc k (r_query r)).

(** [json.NewDecoder(r.Body).Decode] into a struct of strings: the first value
    of the stream, an object or null. *)
Fixpoint set_nth (i : nat) (s : string) (l : list string) : list string :=
  match l, i with
  | [], _ => []
  | _ :: l, O => s :: l
  | x :: l, S i => x :: set_nth i s l
  end.
Definition string_step (i : nat) (l : list string) (v : json) : option (list string) :=
  s ← decode_string (nth i l "") v; Some (set_nth i s l).
Definition decode_body (fields : list string) (b : option string) : option (list string) :=
  text ← b;
  let l := to_bytes text in
  '(v, _) ← parse_value (2 * length l + 2)%nat 0 l;
  match v with
  | JObj ms => decode_members (zip fields (seq 0 (length fields))) string_step (replicate (length fields) "") ms
  | JNull => Some (replicate (length fields) "")
  | _ => None
  end.

(** [emailPattern], [^[^@\s]+@[^@\s]+$]. *)
Definition email_byte (c : ascii) : bool := negb (existsb (Ascii.eqb c) (map byte [64; 9; 10; 12; 13; 32]%N)).
Definition emailPattern (s : string) : bool :=
  match cut_at "@"%char (to_bytes s) with
  | (a, Some b) => negb (bool_decide (a = [])) && forallb email_byte a && negb (bool_decide (b = [])) && forallb email_byte b
  | (_, None) => false
  end.
Definition len (s : string) : Z := Z.of_nat (length (to_bytes s)).

Section Names.
Context `{U : Unicode}.

Definition name_rune (r : rune) : ascii :=
  match r with
  | RuneBytes [c] => if in_range 97 122 c || in_range 48 57 c || Ascii.eqb c "-" || Ascii.eqb c "." then c else "-"%char
  | _ => "-"%char
  end.
Definition dash_dot (c : ascii) : bool := Ascii.eqb c "-" || Ascii.eqb c ".".
Definition maxNameLength : nat := 64.
Definition name_suffix (lower : string) : bytes :=
  "-"%char :: take 8 (to_bytes (hex_encode (sum256 (string_bytes lower)))).

Definition frameUserNameForEmail (email : string) : string :=
  let lower := ToLower email in
  let spelled := replace_byte "@"%char (to_bytes "-at-") (to_bytes lower) in
  let base := trim_set dash_dot (map name_rune (runes (of_bytes spelled))) in
  if bool_decide (base = []) then ""
  else
    let suffix := name_suffix lower in
    let base := if (maxNameLength <? length base + length suffix)%nat
                then trim_right_set dash_dot (take (maxNameLength - length suffix) base) else base in
    of_bytes (base ++ suffix).
End Names.

Example name_ex (U : Unicode) :
  frameUserNameForEmail "Bob+ops@Example.com" = "bob-ops-at-example.com-5dcce29d".
Proof. vm_compute. reflexivity. Qed.

Section Server.
Context `{F : Foreign} {U : Unicode} {W : Type} {AW : AuthWorld W} {JO : Jose W} {WA : WebAuthn W}.
Variable cfg : ServerConfig.

(** ** The codec at the clock *)

Definition seal_now (purpose : Purpose) (data : string) (ttl : Z) : St W string :=
  t ← now; mret (Seal (cfg_Key cfg) purpose data ttl t).

Definition Open (purpose : Purpose) (token : string) : St W (result error string) :=
  match verify (cfg_Key cfg) purpose token with
  | None => mret (inl errBadChallenge)
  | Some (expiry, data) => t ← now; mret (if now_after t expiry then inl errBadChallenge else inr data)
  end.

(** ** The store *)

Definition email_of (u : FrameUser) : string := us_Email (u_Spec u).
Definition role_of (u : FrameUser) : string := us_Role (u_Spec u).
Definition credentials (u : FrameUser) : list WebAuthnCredential := default [] (ut_Credentials (u_Status u)).
Definition set_credentials (u : FrameUser) (cs : list WebAuthnCredential) : FrameUser :=
  mkFU (u_Meta u) (u_Spec u) (mkFUStatus (ut_ObservedGeneration (u_Status u)) (ut_PasswordHash (u_Status u)) (Some cs)).

Definition list_ : St W (result error (list FrameUser)) :=
  r ← list_users (cfg_Namespace cfg);
  mret (match r with inl e => inl (wrapf "listing users" e) | inr items => inr items end).

Definition has_email (email : string) (u : FrameUser) : bool := bool_decide (email_of u = email).
Definition has_credential (id : string) (u : FrameUser) : bool := existsb (fun c => bool_decide (wc_ID c = id)) (credentials u).
(** The first account of a list, or ErrUserNotFound. *)
Definition first_or_not_found (p : FrameUser -> bool) (items : list FrameUser) : result error FrameUser :=
  match List.find p items with Some u => inr u | None => inl errUserNotFound end.

Definition ByEmail (email : string) : St W (result error FrameUser) :=
  r ← list_;
  mret (match r with inl e => inl e | inr items => first_or_not_found (has_email email) items end).

Definition ByCredentialID (id : string) : St W (result error FrameUser) :=
  r ← list_;
  mret (match r with inl e => inl e | inr items => first_or_not_found (has_credential id) items end).

Definition is_admin (u : FrameUser) : bool := bool_decide (role_of u = RoleAdmin).
Definition AdminCount : St W (result error Z) :=
  r ← list_;
  mret (match r with inl e => inl e | inr items => inr (Z.of_nat (length (List.filter is_admin items))) end).

Definition set_namespace (u : FrameUser) (ns : string) : FrameUser :=
  mkFU (mkMeta (om_Name (u_Meta u)) ns (om_Annotations (u_Meta u)) (om_Rest (u_Meta u))) (u_Spec u) (u_Status u).
Definition Create (u : FrameUser) : St W (result error FrameUser) :=
  let u := if bool_decide (om_Namespace (u_Meta u) = "") then set_namespace u (cfg_Namespace cfg) else u in
  r ← create_user u;
  mret (match r with inl e => inl (wrapf "creating user" e) | inr u => inr u end).

Definition AddCredential (u : FrameUser) (cred : WebAuthnCredential) : St W (option error) :=
  if has_credential (wc_ID cred) u then mret (Some (Errorf ("credential " +:+ wc_ID cred +:+ " is already enrolled")))
  else r ← update_user_status (set_credentials u (credentials u ++ [cred]));
       mret (match r with inl e => Some e | inr _ => None end).

Definition set_SignCount (c : WebAuthnCredential) (n : Z) : WebAuthnCredential :=
  mkCred (wc_ID c) (wc_PublicKey c) n (wc_AddedAt c) (wc_Label c).
(** The first credential of that ID; [None] when there is none. *)
Fixpoint count_first (id : string) (n : Z) (cs : list WebAuthnCredential) : option (list WebAuthnCredential) :=
  match cs with
  | [] => None
  | c :: cs => if bool_decide (wc_ID c = id) then Some (set_SignCount c n :: cs)
               else cs' ← count_first id n cs; Some (c :: cs')
  end.
(** The account as the server answers, which the pointer the caller holds then
    points to. *)
Definition UpdateSignCount (u : FrameUser) (id : string) (n : Z) : St W (result error FrameUser) :=
  match count_first id n (credentials u) with
  | Some cs => update_user_status (set_credentials u cs)
  | None => mret (inl errUserNotFound)
  end.

Definition RemoveCredential (u : FrameUser) (id : string) : St W (option error) :=
  let kept := List.filter (fun c => negb (bool_decide (wc_ID c = id))) (credentials u) in
  if negb (has_credential id u) then mret (Some errUserNotFound)
  else if bool_decide (kept = []) then
    mret (Some (mkError ("refusing to remove an account's last credential: " +:+ email_of u +:+ " would become unreachable") (Some ErrLastCredential)))
  else r ← update_user_status (set_credentials u kept);
       mret (match r with inl e => Some e | inr _ => None end).

Definition requireIssuable (u : option FrameUser) : option error :=
  match u with
  | None => Some errAccountDisabled
  | Some u => if bool_decide (us_State (u_Spec u) = StateDisabled) then Some errAccountDisabled else None
  end.

(** ** The issuer *)

Definition Mint (email role : string) (ttl : Z) : St W (result error string) :=
  let group := GroupForRole role in
  if bool_decide (group = "") then mret (inl (Errorf ("unknown role " +:+ quote role)))
  else t ← now;
       sign_claims (mkClaims (i_url (cfg_Issuer cfg)) email [i_clientID (cfg_Issuer cfg)] t t (t + ttl) email [group]).

Definition JWKS : result error string := jwks.
Definition Discovery : json :=
  let url := i_url (cfg_Issuer cfg) in
  JObj [("claims_supported", JArr (map JStr ["iss"; "sub"; "aud"; "exp"; "iat"; "email"; "groups"]));
        ("id_token_signing_alg_values_supported", JArr [JStr "ES256"]);
        ("issuer", JStr url);
        ("jwks_uri", JStr (url +:+ "/keys"));
        ("response_types_supported", JArr [JStr "id_token"]);
        ("subject_types_supported", JArr [JStr "public"])].

(** ** The ceremonies *)

Definition requiresUV : bool := bool_decide (cfg_UVMode cfg = UserVerificationRequired).

Definition withoutUVRequirement (s : SessionData) : SessionData :=
  if bool_decide (sd_UserVerification s = "required") then set_UserVerification s "preferred" else s.

Definition credentialFingerprint (rawID : list Z) : string := of_bytes (take 12 (to_bytes (hex_encode (sum256 rawID)))).

Definition webauthn_credential (c : WebAuthnCredential) : option WCredential :=
  id ← DecodeString RawURLEncoding (wc_ID c);
  pk ← DecodeString RawStdEncoding (wc_PublicKey c);
  Some (mkWCred id pk (wc_SignCount c) false false).
Definition webauthnUser (u : FrameUser) : WUser :=
  mkWUser (string_bytes (om_Name (u_Meta u))) (email_of u) (email_of u) (omap webauthn_credential (credentials u)).

Definition seal (r : CeremonyOptions * SessionData) : St W (result error (string * string)) :=
  match options_json r.1 with
  | inl e => mret (inl (wrapf "encoding options" e))
  | inr raw =>
    match sd_json r.2 with
    | inl e => mret (inl (wrapf "encoding session" e))
    | inr encoded => sealed ← seal_now PurposeChallenge encoded challengeTTL; mret (inr (raw, sealed))
    end
  end.

Definition openSession (sealed : string) : St W (result error SessionData) :=
  r ← Open PurposeChallenge sealed;
  mret (match r with
        | inl e => inl e
        | inr payload => match sd_decode payload with inl e => inl (wrapf "decoding challenge" e) | inr s => inr s end
        end).

Definition BeginRegistration (u : FrameUser) : St W (result error (string * string)) :=
  r ← begin_registration (webauthnUser u) (ResidentKeyRequired :: if requiresUV then [VerificationRequired] else []);
  match r with
  | inl e => mret (inl (wrapf "begin registration" e))
  | inr os => seal os
  end.

Definition new_credential (cred : WCredential) (t : Z) (label : string) : WebAuthnCredential :=
  mkCred (EncodeToString RawURLEncoding (w_ID cred)) (EncodeToString RawStdEncoding (w_PublicKey cred)) (w_SignCount cred) (Time t 0) label.

Definition FinishRegistration (u : FrameUser) (sealed response label : string) : St W (option error) :=
  r ← openSession sealed;
  match r with
  | inl e => mret (Some e)
  | inr session =>
    match parse_creation response with
    | inl e => mret (Some (wrapf "parsing registration response" e))
    | inr parsed =>
      r ← create_credential (webauthnUser u) (withoutUVRequirement session) parsed;
      match r with
      | inl e => mret (Some (wrapf "verifying registration" e))
      | inr cred =>
        if requiresUV && negb (w_UserVerified cred) then
          mret (Some (mkError ("authenticator did not verify the user: registration of credential " +:+ credentialFingerprint (w_ID cred))
                        (Some ErrUserNotVerified)))
        else t ← now; AddCredential u (new_credential cred t label)
      end
    end
  end.

Definition BeginLogin : St W (result error (string * string)) :=
  r ← begin_discoverable_login (if requiresUV then [VerificationRequired] else []);
  match r with
  | inl e => mret (inl (wrapf "begin login" e))
  | inr os => seal os
  end.

(** The callback: it keeps the account it found in the caller's [matched]. *)
Definition lookup_user (rawID _handle : list Z) : St (W * option FrameUser) (result error WUser) := fun '(w, matched) =>
  match ByCredentialID (EncodeToString RawURLEncoding rawID) w with
  | (inl e, w) => (inl e, (w, matched))
  | (inr u, w) => (inr (webauthnUser u), (w, Some u))
  end.

(** A local variable of a function, for the extent of a call. *)
Definition with_local {S A} (s : S) (m : St (W * S) A) : St W (A * S) := fun w =>
  let '(a, (w, s)) := m (w, s) in ((a, s), w).

Record LoginResult := mkLoginResult { UserVerified : bool; Credential : string }.

(** A nil account, which only a library that validated an assertion without
    asking for its user would leave, is dereferenced: the panic ends the request
    without an answer or a write, and is an error here. *)
Definition recordLoginCounter (matched : option FrameUser) (cred : WCredential) : St W (result error FrameUser) :=
  if w_CloneWarning cred then
    mret (inl (mkError ("authenticator sign counter did not advance: authenticator reported counter " +:+ itoa (w_SignCount cred)) (Some ErrCounterRegression)))
  else match matched with
       | None => mret (inl (Errorf "nil pointer dereference"))
       | Some u => r ← UpdateSignCount u (EncodeToString RawURLEncoding (w_ID cred)) (w_SignCount cred);
                   mret (match r with inl e => inl (wrapf "recording sign count" e) | inr u => inr u end)
       end.

Definition FinishLogin (sealed response : string) : St W (result error (FrameUser * LoginResult)) :=
  r ← openSession sealed;
  match r with
  | inl e => mret (inl e)
  | inr session =>
    match parse_assertion response with
    | inl e => mret (inl (wrapf "parsing assertion" e))
    | inr parsed =>
      '(r, matched) ← with_local None (validate_login lookup_user (withoutUVRequirement session) parsed);
      match r with
      | inl e => mret (inl (wrapf "verifying assertion" e))
      | inr cred =>
        let result := mkLoginResult (w_UserVerified cred) (credentialFingerprint (w_ID cred)) in
        if requiresUV && negb (UserVerified result) then
          mret (inl (mkError ("authenticator did not verify the user: credential " +:+ Credential result) (Some ErrUserNotVerified)))
        else r ← recordLoginCounter matched cred;
             mret (match r with inl e => inl e | inr u => inr (u, result) end)
      end
    end
  end.

(** ** Session cookies *)

Definition session_cookie (value : string) (maxAge : Z) : Cookie := mkCookie sessionCookie value "/" true true true maxAge.

Definition setSessionFor (u : FrameUser) (purpose : Purpose) (ttl : Z) : St W Cookie :=
  sealed ← seal_now purpose (email_of u) ttl;
  mret (session_cookie sealed (int_seconds ttl)).
Definition setSession (u : FrameUser) : St W Cookie := setSessionFor u PurposeSession (cfg_SessionTTL cfg).
Definition setEnrolSession (u : FrameUser) : St W Cookie := setSessionFor u PurposeEnrol enrolSessionTTL.

Definition unauthorized : Response := http_Error "unauthorized" 401.
Definition forbidden : Response := http_Error "forbidden" 403.
Definition internal_error : Response := http_Error "internal error" 500.
Definition invalid_request : Response := http_Error "invalid request" 400.

Fixpoint open_first (purposes : list Purpose) (token : string) : St W (option string) :=
  match purposes with
  | [] => mret None
  | p :: ps => r ← Open p token;
               match r with inr email => mret (Some email) | inl _ => open_first ps token end
  end.

(** [inl] is the response already written. *)
Definition sessionUserFor (purposes : list Purpose) (r : Request) : St W (result Response FrameUser) :=
  match assoc sessionCookie (r_cookies r) with
  | None => mret (inl unauthorized)
  | Some value =>
    opened ← open_first purposes value;
    match opened with
    | None => mret (inl unauthorized)
    | Some email =>
      found ← ByEmail email;
      mret (match found with
            | inl _ => inl unauthorized
            | inr u => match requireIssuable (Some u) with Some _ => inl unauthorized | None => inr u end
            end)
    end
  end.
Definition sessionUser : Request -> St W (result Response FrameUser) := sessionUserFor [PurposeSession].

(** ** The routes *)

Definition handleDiscovery : St W Response := mret (mkResponse 200 [] [content_json] (Json Discovery)).
Definition handleJWKS : St W Response :=
  mret (match JWKS with inl _ => internal_error | inr body => mkResponse 200 [] [content_json] (Raw body) end).

Definition handleToken (r : Request) : St W Response :=
  s ← sessionUser r;
  match s with
  | inl resp => mret resp
  | inr u =>
    m ← Mint (email_of u) (role_of u) (cfg_TokenTTL cfg);
    mret (match m with
          | inl _ => internal_error
          | inr token => mkResponse 200 [] [content_json]
              (Json (JObj [("expires_in", JNum (to_bytes (itoa (int_seconds (cfg_TokenTTL cfg))))); ("id_token", JStr token)]))
          end)
  end.

Definition handleLogout : St W Response := mret (NoContent [session_cookie "" (-1)]).

Definition setChallenge (sealed : string) : Cookie :=
  mkCookie challengeCookie sealed "/auth" true true true (int_seconds challengeTTL).

Definition begin_response (b : result error (string * string)) : Response :=
  match b with
  | inl _ => internal_error
  | inr (options, sealed) => mkResponse 200 [setChallenge sealed] [content_json] (Raw options)
  end.
Definition handleLoginBegin : St W Response := b ← BeginLogin; mret (begin_response b).

(** [io.ReadAll(io.LimitReader(r.Body, 1<<20))]. *)
Definition read_limited (b : option string) : option string :=
  s ← b; Some (of_bytes (take (Z.to_nat (2 ^ 20)) (to_bytes s))).

Definition handleLoginFinish (r : Request) : St W Response :=
  match assoc challengeCookie (r_cookies r) with
  | None => mret unauthorized
  | Some value =>
    match read_limited (r_body r) with
    | None => mret invalid_request
    | Some response =>
      f ← FinishLogin value response;
      match f with
      | inl _ => mret unauthorized
      | inr (u, _) =>
        match requireIssuable (Some u) with
        | Some _ => mret unauthorized
        | None => c ← setSession u; mret (NoContent [c])
        end
      end
    end
  end.

Definition handleRegisterBegin (r : Request) : St W Response :=
  s ← sessionUserFor [PurposeSession; PurposeEnrol] r;
  match s with
  | inl resp => mret resp
  | inr u => b ← BeginRegistration u; mret (begin_response b)
  end.

Definition handleRegisterFinish (r : Request) : St W Response :=
  s ← sessionUserFor [PurposeSession; PurposeEnrol] r;
  match s with
  | inl resp => mret resp
  | inr u =>
    match assoc challengeCookie (r_cookies r) with
    | None => mret unauthorized
    | Some value =>
      match read_limited (r_body r) with
      | None => mret invalid_request
      | Some response =>
        e ← FinishRegistration u value response (query_get r "label");
        mret (match e with Some _ => http_Error "registration failed" 400 | None => NoContent [] end)
      end
    end
  end.

Definition inviteeAlreadyExists (email : string) : St W (result error bool) :=
  r ← list_;
  mret (match r with inl e => inl e | inr items => inr (existsb (fun u => EqualFold (email_of u) email) items) end).

Definition bad_role (role : string) : Response :=
  http_Error ("an invitation may only create an operator or a viewer." +:+
    (if bool_decide (role = RoleAdmin) then
       " Create the account as one of those, then promote it from the Accounts screen, which acts under your own identity rather than authd's"
     else "")) 400.

(** A new object of that name and address in the server's namespace. *)
Definition new_user (name email role state : string) : FrameUser :=
  mkFU (mkMeta name (cfg_Namespace cfg) None zero_meta) (mkFUSpec email role PasswordDisabled state) (mkFUStatus 0 "" None).

(** The link of an invitation, sealed for an address. *)
Definition invite_link (email : string) : St W Response :=
  sealed ← seal_now PurposeInvite email (cfg_InviteTTL cfg);
  mret (mkResponse 200 [] [content_json; no_store]
          (Json (JObj [("url", JStr (cfg_ConsoleOrigin cfg +:+ "/invite#token=" +:+ QueryEscape sealed))]))).

Definition handleInvite (r : Request) : St W Response :=
  s ← sessionUser r;
  match s with
  | inl resp => mret resp
  | inr caller =>
    if negb (is_admin caller) then mret forbidden
    else match decode_body ["email"; "role"] (r_body r) with
    | Some [email; role] =>
      if negb (emailPattern email) || (maxEmailLength <? len email) then mret (http_Error "invalid request: email" 400)
      else if negb (bool_decide (role = RoleOperator)) && negb (bool_decide (role = RoleViewer)) then mret (bad_role role)
      else
        x ← inviteeAlreadyExists email;
        match x with
        | inl _ => mret internal_error
        | inr true => mret (http_Error "an account with that email already exists" 409)
        | inr false =>
          let name := frameUserNameForEmail email in
          if bool_decide (name = "") then mret (http_Error "invalid request: email" 400)
          else
            c ← Create (new_user name email role StateEnabled);
            match c with
            | inl e => mret (if errors_Is e AlreadyExists then http_Error "an account with that name already exists" 409 else internal_error)
            | inr _ => invite_link email
            end
        end
    | _ => mret invalid_request
    end
  end.

(** The account already holds a credential. *)
Definition enrolled (u : FrameUser) : bool :=
  (0 <? length (credentials u))%nat || negb (bool_decide (ut_PasswordHash (u_Status u) = "")).

Definition handleInviteLink (r : Request) : St W Response :=
  s ← sessionUser r;
  match s with
  | inl resp => mret resp
  | inr caller =>
    if negb (is_admin caller) then mret forbidden
    else match decode_body ["email"] (r_body r) with
    | Some [email] =>
      found ← ByEmail email;
      match found with
      | inl e => mret (if errors_Is e ErrUserNotFound then http_Error "no account with that email" 404 else internal_error)
      | inr u =>
        match requireIssuable (Some u) with
        | Some _ => mret (http_Error "this account is disabled" 403)
        | None => if enrolled u then mret (http_Error "this account already has a credential" 410) else invite_link (email_of u)
        end
      end
    | _ => mret invalid_request
    end
  end.

Definition bad_invitation : Response := http_Error "this invitation link is invalid or has expired" 401.

Definition handleInviteAccept (r : Request) : St W Response :=
  match decode_body ["token"] (r_body r) with
  | Some [token] =>
    o ← Open PurposeInvite token;
    match o with
    | inl _ => mret bad_invitation
    | inr email =>
      found ← ByEmail email;
      match found with
      | inl _ => mret bad_invitation
      | inr u =>
        match requireIssuable (Some u) with
        | Some _ => mret (http_Error "this account is disabled" 403)
        | None => if enrolled u then mret (http_Error "this account already has a credential" 410)
                  else c ← setEnrolSession u; mret (NoContent [c])
        end
      end
    end
  | _ => mret invalid_request
  end.

Definition subjectOf (r : Request) (caller : FrameUser) : St W (result Response FrameUser) :=
  let email := query_get r "user" in
  if bool_decide (email = "") || bool_decide (email = email_of caller) then mret (inr caller)
  else if negb (is_admin caller) then mret (inl forbidden)
  else found ← ByEmail email;
       mret (match found with inl _ => inl (http_Error "no such account" 404) | inr u => inr u end).

(** One entry of the list, by the tags of credentialView; the time is what
    metav1.Time prints. *)
Definition credential_view (c : WebAuthnCredential) : json :=
  JObj ([("id", JStr (wc_ID c))] ++ (if bool_decide (wc_Label c = "") then [] else [("label", JStr (wc_Label c))]) ++
        [("addedAt", if is_zero (wc_AddedAt c) then JNull else JStr (format_rfc3339 (utc (wc_AddedAt c))));
         ("signCount", JNum (to_bytes (itoa (wc_SignCount c))))]).

Definition handleListCredentials (r : Request) : St W Response :=
  s ← sessionUser r;
  match s with
  | inl resp => mret resp
  | inr caller =>
    s ← subjectOf r caller;
    match s with
    | inl resp => mret resp
    | inr subject => mret (mkResponse 200 [] [content_json; no_store]
        (Json (JObj [("credentials", JArr (map credential_view (credentials subject)))])))
    end
  end.

Definition handleRevokeCredential (r : Request) (id : string) : St W Response :=
  s ← sessionUser r;
  match s with
  | inl resp => mret resp
  | inr caller =>
    s ← subjectOf r caller;
    match s with
    | inl resp => mret resp
    | inr subject =>
      e ← RemoveCredential subject id;
      mret (match e with
            | None => NoContent []
            | Some e =>
              if errors_Is e ErrUserNotFound then http_Error "no such credential" 404
              else if errors_Is e ErrLastCredential then
                http_Error "refusing to remove this account's last credential: it would become unreachable" 409
              else internal_error
            end)
    end
  end.

Definition deleteBootstrapSecret : St W unit :=
  if negb (cfg_Client cfg) || bool_decide (cfg_BootstrapSecretName cfg = "") then mret tt
  else _ ← delete_secret (cfg_Namespace cfg) (cfg_BootstrapSecretName cfg); mret tt.

Definition handleBootstrap (r : Request) : St W Response :=
  n ← AdminCount;
  match n with
  | inl _ => mret http_NotFound
  | inr n =>
    if 0 <? n then mret http_NotFound
    else if bool_decide (cfg_BootstrapSecret cfg = "") then mret http_NotFound
    else match decode_body ["token"; "email"] (r_body r) with
    | Some [token; email] =>
      if negb (bool_decide (token = cfg_BootstrapSecret cfg)) then mret unauthorized
      else if negb (emailPattern email) || (maxEmailLength <? len email) then mret invalid_request
      else
        let name := frameUserNameForEmail email in
        if bool_decide (name = "") then mret invalid_request
        else
          c ← Create (new_user name email RoleAdmin "");
          match c with
          | inl _ => mret internal_error
          | inr user => _ ← deleteBootstrapSecret; c ← setSession user; mret (NoContent [c])
          end
    | _ => mret invalid_request
    end
  end.

(** The patterns NewServer registers. *)
Inductive Route :=
| GetDiscovery | GetKeys | GetHealthz | PostBootstrap | PostToken | PostLogout | PostLoginBegin | PostLoginFinish
| PostRegisterBegin | PostRegisterFinish | PostInvite | PostInviteLink | PostInviteAccept
| GetCredentials | DeleteCredential (id : string).

Definition serve (route : Route) (r : Request) : St W Response :=
  match route with
  | GetDiscovery => handleDiscovery
  | GetKeys => handleJWKS
  | GetHealthz => mret (mkResponse 200 [] [] NoBody)
  | PostBootstrap => handleBootstrap r
  | PostToken => handleToken r
  | PostLogout => handleLogout
  | PostLoginBegin => handleLoginBegin
  | PostLoginFinish => handleLoginFinish r
  | PostRegisterBegin => handleRegisterBegin r
  | PostRegisterFinish => handleRegisterFinish r
  | PostInvite => handleInvite r
  | PostInviteLink => handleInviteLink r
  | PostInviteAccept => handleInviteAccept r
  | GetCredentials => handleListCredentials r
  | DeleteCredential id => handleRevokeCredential r id
  end.
End Server.
