(* ===== verification/AuthdSafety.v ===== *)
(** What a request to the authentication daemon may do: the policy [may], which
    calls each route makes and on what evidence, and [issued], which cookies it
    hands out; the sealed tokens the evidence rests on; the names of accounts. *)
From stdpp Require Import base tactics strings sets list.
From Stdlib Require Import ZArith Lia Ascii.
From S2P Require Import Prelude Trace GoLib GoTime GoJson GoNet Sha256 GoText V1beta1 Conversion Authd.

Open Scope Z_scope.

(** * Sealed tokens *)

Lemma cut_at_app c l r : Forall (fun x => Ascii.eqb x c = false) l -> cut_at c (l ++ c :: r) = (l, Some r).
Proof. induction 1 as [|x l Hx Hl IH]; cbn [cut_at app]; [by rewrite Ascii.eqb_refl|]. by rewrite Hx, IH. Qed.

Lemma bytes_string_bytes s : bytes_string (string_bytes s) = s.
Proof.
  unfold bytes_string, string_bytes. rewrite <- (of_to_bytes s) at 2. f_equal. rewrite map_map, <- (map_id (to_bytes s)) at 1.
  rewrite map_id. induction (to_bytes s) as [|c l IH]; [done|]. cbn. f_equal; [|done].
  unfold byteN, byte, byteZ. rewrite N2Z.id. apply ascii_N_embedding.
Qed.

Lemma sign_octets key p e : Forall octet (sign key p e).
Proof. apply sum256_ok. Qed.

Lemma be_bytes_8 x : length (be_bytes 8 x) = 8%nat.
Proof. done. Qed.

(** Eight bytes, most significant first, are the value modulo 2^64. *)
Lemma uint64_be_bytes x : uint64_be (be_bytes 8 x) = x mod 2 ^ 64.
Proof.
  unfold be_bytes. cbn [seq rev app map]. unfold uint64_be. cbn [foldl]. change 255 with (Z.ones 8).
  rewrite !Z.land_ones, !Z.shiftr_div_pow2 by lia.
  cbn [Z.of_nat Pos.of_succ_nat Pos.succ Z.mul Pos.mul]. 
  change (2 ^ 0) with 1. rewrite Z.div_1_r.
  Z.to_euclidean_division_equations. lia.
Qed.

(** What a holder of [tok] shows at [t]: its data, under a purpose. *)
Definition opens (key : string) (p : Purpose) (tok : string) (t : Z) (data : string) : Prop :=
  exists expiry, verify key p tok = Some (expiry, data) /\ now_after t expiry = false.

Lemma to_bytes_dot : to_bytes "." = ["."%char].
Proof. done. Qed.

(** A token [encoded.sig] whose two halves are base64 is cut where they meet. *)
Lemma cut_token l m : Forall octet l ->
  cut_dot (EncodeToString RawURLEncoding l +:+ "." +:+ EncodeToString RawURLEncoding m) =
  Some (EncodeToString RawURLEncoding l, EncodeToString RawURLEncoding m).
Proof.
  intros Hl. unfold cut_dot. rewrite !to_bytes_app, to_bytes_dot. cbn [app].
  rewrite cut_at_app.
  - by rewrite !of_to_bytes.
  - eapply Forall_impl; [apply (encoded_bytes _ _ (fun c => negb (Ascii.eqb c "."))); [by vm_compute|done]|].
    cbn. intros c Hc. by apply negb_true_iff.
Qed.

Lemma payload_octets ttl t data : Forall octet (be_bytes 8 (unix_of (t + ttl)) ++ string_bytes data).
Proof. apply Forall_app. split; [apply be_bytes_ok|apply string_bytes_octets]. Qed.

Lemma wrap64_mod x : wrap64 (x mod 2 ^ 64) = wrap64 x.
Proof. unfold wrap64, wrap. by rewrite Z.add_mod_idemp_l. Qed.

Lemma verify_Seal key p q data ttl t :
  let encoded := EncodeToString RawURLEncoding (be_bytes 8 (unix_of (t + ttl)) ++ string_bytes data) in
  verify key p (Seal key q data ttl t) =
  if bool_decide (sign key q encoded = sign key p encoded) then Some (wrap64 (unix_of (t + ttl)), data) else None.
Proof.
  intros encoded. unfold Seal, verify. rewrite cut_token by apply payload_octets. fold encoded.
  rewrite DecodeString_EncodeToString by apply sign_octets. case_bool_decide as E; [|done].
  unfold encoded. rewrite DecodeString_EncodeToString by apply payload_octets.
  rewrite length_app, be_bytes_8. cbn [Nat.ltb Nat.leb Nat.add]. rewrite take_app_length', drop_app_length' by done.
  rewrite uint64_be_bytes, bytes_string_bytes. by rewrite wrap64_mod.
Qed.

(** The instants the clock shows: nanoseconds since 1970 that an int64 holds. *)
Definition clock_ok (t : Z) : Prop := 0 <= t < 2 ^ 63.

Lemma now_after_unix t e : clock_ok t -> 0 <= e < 2 ^ 34 -> now_after t e = bool_decide (e * second < t).
Proof.
  intros [Ht0 Ht1] [He0 He1]. unfold now_after, internal_sec, unixToInternal, unix_of, second in *.
  assert (0 <= t / 10 ^ 9 < 2 ^ 34) as Hq by (Z.to_euclidean_division_equations; lia).
  rewrite !wrap64_small by (unfold int64_ok; lia). rewrite (bool_decide_ext _ (e * 10 ^ 9 + 1 <= t)) by lia.
  case_bool_decide as E.
  - destruct (_ <? _) eqn:E1; [done|]. bool_to_prop. cbn. apply andb_true_iff.
    rewrite Z.eqb_eq, Z.ltb_lt. Z.to_euclidean_division_equations. lia.
  - apply orb_false_iff. rewrite Z.ltb_ge, andb_false_iff, Z.eqb_neq, Z.ltb_ge. Z.to_euclidean_division_equations. lia.
Qed.

(** What was sealed under a purpose opens under it, as the same data, up to
    the second its time to live ends in and never after. *)
Theorem seal_opens key p data ttl t0 t1 d :
  clock_ok (t0 + ttl) -> clock_ok t1 ->
  opens key p (Seal key p data ttl t0) t1 d <-> d = data /\ t1 <= (t0 + ttl) / second * second.
Proof.
  intros H0 H1. assert (0 <= unix_of (t0 + ttl) < 2 ^ 34) as He.
  { unfold unix_of, second, clock_ok in *. Z.to_euclidean_division_equations. lia. }
  unfold opens. rewrite verify_Seal, bool_decide_true by done. rewrite wrap64_small by (unfold int64_ok; lia).
  split.
  - intros (e & [= <- <-] & Hn). rewrite now_after_unix in Hn by done. apply bool_decide_eq_false in Hn. unfold unix_of in Hn. split; [done|lia].
  - intros [-> Ht]. exists (unix_of (t0 + ttl)). split; [done|]. rewrite now_after_unix by done. apply bool_decide_eq_false.
    unfold unix_of. lia.
Qed.

Lemma seal_opens_witness :
  opens "k" PurposeInvite (Seal "k" PurposeInvite "a@b" (5 * minute) (7 * second)) (100 * second) "a@b" /\
  ~ opens "k" PurposeInvite (Seal "k" PurposeInvite "a@b" (5 * minute) (7 * second)) (307 * second + 1) "a@b".
Proof.
  split; [apply seal_opens; unfold clock_ok; [done..|]; split; [done|by vm_compute]|].
  rewrite seal_opens by done. intros [_ H]. by vm_compute in H.
Defined.




(** A token that opens carries the MAC of its own text under that purpose. *)
Lemma opens_mac key p tok t d : opens key p tok t d ->
  exists encoded sig, tok = encoded +:+ "." +:+ sig /\ DecodeString RawURLEncoding sig = Some (sign key p encoded).
Proof.
  intros (e & Hv & _). unfold verify, cut_dot in Hv. destruct (cut_at _ _) as [a [b|]] eqn:Ec; [|done].
  destruct (DecodeString _ (of_bytes b)) as [got|] eqn:Ed; [|done]. case_bool_decide as E; [|done]. subst got.
  exists (of_bytes a), (of_bytes b). split; [|done]. apply to_bytes_inj. rewrite !to_bytes_app, !to_of_bytes. clear -Ec.
  revert a Ec. induction (to_bytes tok) as [|c l IH]; cbn; intros a Ec; [done|].
  destruct (Ascii.eqb_spec c "."); [by simplify_eq|]. destruct (cut_at _ l) as [a' b'] eqn:E. simplify_eq. cbn. f_equal. by apply IH.
Qed.

(** * Calls *)

Section Calls.
Context `{F : Foreign}.

(** What a request asks of the outside, with the answers. *)
Inductive call :=
| CNow (t : Z)
| CList (ns : string) (r : result error (list FrameUser))
| CCreated (r : result error WCredential)      (* CreateCredential, of a registration *)
| CValidated (r : result error WCredential)    (* ValidateDiscoverableLogin *)
| CCreate (u : FrameUser) (r : result error FrameUser)
| CUpdate (u : FrameUser) (r : result error FrameUser)
| CDeleteSecret (ns name : string) (r : option error)
| CSign (c : Claims) (r : result error string).

Definition is_read (c : call) : bool :=
  match c with CNow _ | CList _ _ | CCreated _ | CValidated _ => true | _ => false end.

(** [calls] lists the calls made so far. The library does not reach the API
    server but through the callback, which ValidateDiscoverableLogin calls at
    most once, with the ID of the credential it validates, and whose user is
    the one the assertion is checked against. *)
Class TracedAuth (W : Type) {AW : AuthWorld W} {JO : Jose W} {WA : WebAuthn W} := {
  calls : W -> list call;
  c_now w : calls (now w).2 = calls w ++ [CNow (now w).1];
  c_list ns w : calls (list_users ns w).2 = calls w ++ [CList ns (list_users ns w).1];
  c_create u w : calls (create_user u w).2 = calls w ++ [CCreate u (create_user u w).1];
  c_update u w : calls (update_user_status u w).2 = calls w ++ [CUpdate u (update_user_status u w).1];
  c_delete ns n w : calls (delete_secret ns n w).2 = calls w ++ [CDeleteSecret ns n (delete_secret ns n w).1];
  c_sign c w : calls (sign_claims c w).2 = calls w ++ [CSign c (sign_claims c w).1];
  c_begin_registration u os w : calls (begin_registration u os w).2 = calls w;
  c_begin_login os w : calls (begin_discoverable_login os w).2 = calls w;
  c_create_credential u s p w : calls (create_credential u s p w).2 = calls w ++ [CCreated (create_credential u s p w).1];
  c_validate lookup s p w m r w' m' : validate_login lookup s p (w, m) = (r, (w', m')) ->
    (calls w' = calls w ++ [CValidated r] /\ m' = m /\ exists e, r = inl e) \/
    (exists id handle w1 r1 w2, calls w1 = calls w /\ lookup id handle (w1, m) = (r1, (w2, m')) /\
       calls w' = calls w2 ++ [CValidated r] /\
       forall cred, r = inr cred -> w_ID cred = id /\ exists u, r1 = inr u /\ exists c, c ∈ wu_Credentials u /\ w_ID c = id)
}.
End Calls.

(** * The policy *)

Section Policy.
Context `{F : Foreign} {U : Unicode} {W : Type} {AW : AuthWorld W} {JO : Jose W} {WA : WebAuthn W}.
Variable cfg : ServerConfig.

(** The accounts were listed before. *)
Definition listed (pre : list call) (items : list FrameUser) : Prop := CList (cfg_Namespace cfg) (inr items) ∈ pre.

Definition enabled (u : FrameUser) : Prop := us_State (u_Spec u) <> StateDisabled.

(** A token opened at an instant the clock showed. *)
Definition opened (pre : list call) (p : Purpose) (tok data : string) : Prop :=
  exists t, CNow t ∈ pre /\ opens (cfg_Key cfg) p tok t data.

(** The account of an address: the first one listed with it. *)
Definition account_of (pre : list call) (email : string) (u : FrameUser) : Prop :=
  exists items, listed pre items /\ List.find (has_email email) items = Some u.

(** The request's session cookie, sealed under one of [ps], names the enabled
    account [u]. *)
Definition session (ps : list Purpose) (req : Request) (pre : list call) (u : FrameUser) : Prop :=
  exists value p email, assoc sessionCookie (r_cookies req) = Some value /\ p ∈ ps /\
    opened pre p value email /\ account_of pre email u /\ enabled u.

(** An address that may become an account's, and the name it gets. *)
Definition address (email name : string) : Prop :=
  emailPattern email = true /\ len email <= maxEmailLength /\ name = frameUserNameForEmail email /\ name <> "".

(** The user was verified where that is required. *)
Definition uv_ok (cred : WCredential) : Prop := cfg_UVMode cfg = UserVerificationRequired -> w_UserVerified cred = true.

(** The credential of an assertion belongs to [u], the first account listed
    with it. *)
Definition asserted (pre : list call) (u : FrameUser) (cred : WCredential) : Prop :=
  CValidated (inr cred) ∈ pre /\ uv_ok cred /\ w_CloneWarning cred = false /\
  exists items, listed pre items /\
    List.find (has_credential (EncodeToString RawURLEncoding (w_ID cred))) items = Some u.

(** What each route may ask for, by the calls before it. *)
Definition may (route : Route) (req : Request) (pre : list call) (c : call) : Prop :=
  match route, c with
  | PostToken, CSign claims _ =>
      exists u t, session [PurposeSession] req pre u /\ CNow t ∈ pre /\ GroupForRole (role_of u) <> "" /\
        claims = mkClaims (i_url (cfg_Issuer cfg)) (email_of u) [i_clientID (cfg_Issuer cfg)] t t (t + cfg_TokenTTL cfg)
                   (email_of u) [GroupForRole (role_of u)]
  | PostBootstrap, CCreate u _ =>
      exists email name, cfg_BootstrapSecret cfg <> "" /\
        decode_body ["token"; "email"] (r_body req) = Some [cfg_BootstrapSecret cfg; email] /\ address email name /\
        u = new_user cfg name email RoleAdmin "" /\
        exists items, listed pre items /\ Forall (fun v => is_admin v = false) items
  | PostBootstrap, CDeleteSecret ns n _ =>
      ns = cfg_Namespace cfg /\ n = cfg_BootstrapSecretName cfg /\ exists u v, CCreate u (inr v) ∈ pre
  | PostInvite, CCreate u _ =>
      exists caller email role name, session [PurposeSession] req pre caller /\ role_of caller = RoleAdmin /\
        decode_body ["email"; "role"] (r_body req) = Some [email; role] /\ address email name /\
        (role = RoleOperator \/ role = RoleViewer) /\ u = new_user cfg name email role StateEnabled /\
        exists items, listed pre items /\ Forall (fun v => EqualFold (email_of v) email = false) items
  | PostRegisterFinish, CUpdate u' _ =>
      exists u cred t, session [PurposeSession; PurposeEnrol] req pre u /\ CCreated (inr cred) ∈ pre /\ uv_ok cred /\ CNow t ∈ pre /\
        has_credential (EncodeToString RawURLEncoding (w_ID cred)) u = false /\
        u' = set_credentials u (credentials u ++ [new_credential cred t (query_get req "label")])
  | PostLoginFinish, CUpdate u' _ =>
      exists u cred cs, asserted pre u cred /\
        count_first (EncodeToString RawURLEncoding (w_ID cred)) (w_SignCount cred) (credentials u) = Some cs /\
        u' = set_credentials u cs
  | DeleteCredential id, CUpdate u' _ =>
      exists caller u, session [PurposeSession] req pre caller /\
        (u = caller \/ (role_of caller = RoleAdmin /\ account_of pre (query_get req "user") u)) /\
        has_credential id u = true /\
        exists kept, kept = List.filter (fun c => negb (bool_decide (wc_ID c = id))) (credentials u) /\ kept <> [] /\
          u' = set_credentials u kept
  | _, _ => is_read c = true
  end.

Definition permitted (route : Route) (req : Request) : list call -> list call -> Prop := justified (may route req).

(** The cookies an answer may carry: a session for an account that was just
    created by the bootstrap or just proved its key, an enrolment for an
    enabled account that an invitation names and that holds no credential, a
    challenge, and an empty one to sign out. *)
Definition issued (route : Route) (req : Request) (t : list call) (ck : Cookie) : Prop :=
  match route with
  | PostBootstrap => exists u v now', CCreate u (inr v) ∈ t /\ CNow now' ∈ t /\
      ck = session_cookie (Seal (cfg_Key cfg) PurposeSession (email_of v) (cfg_SessionTTL cfg) now') (int_seconds (cfg_SessionTTL cfg))
  | PostLoginFinish => exists u cred u' v now', asserted t u cred /\ CUpdate u' (inr v) ∈ t /\ u_Meta u' = u_Meta u /\ u_Spec u' = u_Spec u /\
      enabled v /\ CNow now' ∈ t /\
      ck = session_cookie (Seal (cfg_Key cfg) PurposeSession (email_of v) (cfg_SessionTTL cfg) now') (int_seconds (cfg_SessionTTL cfg))
  | PostInviteAccept => exists token email u now', decode_body ["token"] (r_body req) = Some [token] /\
      opened t PurposeInvite token email /\ account_of t email u /\ enabled u /\ enrolled u = false /\ CNow now' ∈ t /\
      ck = session_cookie (Seal (cfg_Key cfg) PurposeEnrol (email_of u) enrolSessionTTL now') (int_seconds enrolSessionTTL)
  | PostLogout => ck = session_cookie "" (-1)
  | PostLoginBegin => exists data now', CNow now' ∈ t /\ ck = setChallenge (Seal (cfg_Key cfg) PurposeChallenge data challengeTTL now')
  | PostRegisterBegin => exists u data now', session [PurposeSession; PurposeEnrol] req t u /\ CNow now' ∈ t /\
      ck = setChallenge (Seal (cfg_Key cfg) PurposeChallenge data challengeTTL now')
  | _ => False
  end.

(** ** Evidence is kept *)

Lemma opened_mono p tok d pre post : pre ⊆ post -> opened pre p tok d -> opened post p tok d.
Proof. intros H (t & Ht & Ho). exists t. split; [by apply H|done]. Qed.
Lemma account_mono e u pre post : pre ⊆ post -> account_of pre e u -> account_of post e u.
Proof. intros H (items & Hl & Hf). exists items. split; [by apply H|done]. Qed.
Lemma session_mono ps req u pre post : pre ⊆ post -> session ps req pre u -> session ps req post u.
Proof. intros H (v & p & e & Hv & Hp & Ho & Ha & He). exists v, p, e. eauto 10 using opened_mono, account_mono. Qed.
Lemma asserted_mono u c pre post : pre ⊆ post -> asserted pre u c -> asserted post u c.
Proof. intros H (Hc & Hu & Hw & items & Hl & Hf). split; [by apply H|]. split; [done|]. split; [done|]. exists items. split; [by apply H|done]. Qed.

Lemma may_read route req pre c : is_read c = true -> may route req pre c.
Proof. destruct c; try done; by destruct route. Qed.

Lemma permitted_reads route req pre t : Forall (fun c => is_read c = true) t -> permitted route req pre t.
Proof. intros H. apply justified_always. intros p c Hc. rewrite Forall_forall in H. by apply may_read, H. Qed.

Lemma permitted_app route req pre t1 t2 :
  permitted route req pre (t1 ++ t2) <-> permitted route req pre t1 /\ permitted route req (pre ++ t1) t2.
Proof. apply justified_app. Qed.
End Policy.

(** * The routes keep to it *)

Section Safety.
Context `{F : Foreign} {U : Unicode} {W : Type} {AW : AuthWorld W} {JO : Jose W} {WA : WebAuthn W} {TA : TracedAuth W}.
Variable cfg : ServerConfig.

Abbreviation emits := (Trace.emits calls).
Abbreviation emits_ret := (Trace.emits_ret calls).
Abbreviation emits_bind := (Trace.emits_bind calls).
Abbreviation emits_call := (Trace.emits_call calls).
Abbreviation emits_mono := (Trace.emits_mono calls).
Abbreviation reads := (Forall (fun c => is_read c = true)).

(** A step that only reads, and what its value shows. *)
Definition finds {A} (m : St W A) (P : A -> list call -> Prop) : Prop := emits m (fun a t => reads t /\ P a t).

Lemma finds_list : finds (list_ cfg) (fun r t => forall items, r = inr items -> listed cfg t items).
Proof.
  unfold list_. eapply emits_call; [intros; apply c_list|]. intros a. apply emits_ret. split; [by repeat constructor|].
  intros items E. destruct a as [e|l]; simplify_eq. by apply list_elem_of_here.
Qed.

(** A function of the list. *)
Lemma finds_in_list {A} (f : list FrameUser -> result error A) (P : A -> list call -> Prop) :
  (forall items a t, listed cfg t items -> f items = inr a -> P a t) ->
  finds (r ← list_ cfg; mret (match r with inl e => inl e | inr items => f items end)) (fun r t => forall a, r = inr a -> P a t).
Proof.
  intros Hf. eapply emits_bind; [apply finds_list|]. intros [e|items] t [Hr Hl]; apply emits_ret; rewrite app_nil_r; (split; [done|]); [done|].
  intros a Ha. eapply Hf; [by apply Hl|done].
Qed.

Lemma finds_first p : finds (r ← list_ cfg; mret (match r with inl e => inl e | inr items => first_or_not_found p items end))
  (fun r t => forall u, r = inr u -> exists items, listed cfg t items /\ List.find p items = Some u).
Proof.
  apply finds_in_list. intros items a t Hl. unfold first_or_not_found. destruct (List.find p items) eqn:E; intros; simplify_eq. eauto.
Qed.

Lemma finds_open p tok : finds (Open cfg p tok) (fun r t => forall d, r = inr d -> opened cfg t p tok d).
Proof.
  unfold Open. destruct (verify _ _ _) as [[e d]|] eqn:E; [|by apply emits_ret].
  eapply emits_call; [intros; apply c_now|]. intros t. apply emits_ret. split; [by repeat constructor|].
  intros d' H. destruct (now_after t e) eqn:En; simplify_eq. exists t. split; [by apply list_elem_of_here|]. by exists e.
Qed.

Lemma finds_open_first ps tok : finds (open_first cfg ps tok) (fun r t => forall d, r = Some d -> exists p, p ∈ ps /\ opened cfg t p tok d).
Proof.
  induction ps as [|p ps IH]; cbn [open_first]; [by apply emits_ret|].
  eapply emits_bind; [apply finds_open|]. intros [e|d] t [Hr Ho].
  - eapply emits_mono; [apply IH|]. intros a t' [Hr' Ho']. split; [by apply Forall_app|]. intros d Hd.
    destruct (Ho' d Hd) as (q & Hq & Hd'). exists q. split; [by right|]. eapply opened_mono; [|done]. set_solver.
  - apply emits_ret. rewrite app_nil_r. split; [done|]. intros d' [= <-]. exists p. split; [by left|by apply Ho].
Qed.

Lemma requireIssuable_enabled (u : FrameUser) : requireIssuable (Some u) = None -> enabled u.
Proof. cbn. case_bool_decide; [done|]. done. Qed.

Lemma finds_session ps req : finds (sessionUserFor cfg ps req) (fun r t =>
  (forall u, r = inr u -> session cfg ps req t u) /\ (forall resp, r = inl resp -> resp = unauthorized)).
Proof.
  unfold sessionUserFor. destruct (assoc _ _) as [v|] eqn:Ev; [|apply emits_ret; split; [done|]; split; intros; by simplify_eq].
  eapply emits_bind; [apply finds_open_first|]. intros [email|] t [Hr Ho];
    [|apply emits_ret; rewrite app_nil_r; split; [done|]; split; intros; by simplify_eq].
  destruct (Ho _ eq_refl) as (p & Hp & Hop).
  eapply emits_bind; [apply finds_first|]. intros r t' [Hr' Hf]. apply emits_ret. rewrite app_nil_r.
  split; [by apply Forall_app|]. destruct r as [e|u]; [split; intros; by simplify_eq|].
  destruct (requireIssuable (Some u)) eqn:Er; split; intros; simplify_eq; [done|].
  destruct (Hf _ eq_refl) as (items & Hl & Hu).
  exists v, p, email. split; [done|]. split; [done|]. split; [eapply opened_mono; [|done]; set_solver|].
  split; [|by apply requireIssuable_enabled]. exists items. split; [unfold listed in *; set_solver|done].
Qed.

Lemma finds_subject req caller : finds (subjectOf cfg req caller) (fun r t =>
  (forall u, r = inr u -> u = caller \/ (role_of caller = RoleAdmin /\ account_of cfg t (query_get req "user") u)) /\
  (forall resp, r = inl resp -> set_cookies resp = [])).
Proof.
  unfold subjectOf. cbv zeta. destruct (_ || _); [apply emits_ret; split; [done|]; split; intros; simplify_eq; by left|].
  destruct (is_admin caller) eqn:Ea; cbn [negb]; [|apply emits_ret; split; [done|]; split; intros; by simplify_eq].
  eapply emits_bind; [apply finds_first|]. intros [e|u] t [Hr Hf]; apply emits_ret; rewrite app_nil_r; (split; [done|]); split; intros; simplify_eq; [done|].
  right. split; [by apply bool_decide_eq_true in Ea|by apply Hf].
Qed.

(** A token is sealed at the instant the clock shows. *)
Lemma emits_seal p d ttl : emits (seal_now cfg p d ttl) (fun v t => exists n, t = [CNow n] /\ v = Seal (cfg_Key cfg) p d ttl n).
Proof. unfold seal_now. eapply emits_call; [intros; apply c_now|]. intros n. apply emits_ret. eauto. Qed.

(** ** What a route's trace and answer must be, after the reads [t] *)

Definition obeys (route : Route) (req : Request) (t : list call) (m : St W Response) : Prop :=
  emits m (fun resp t' => permitted cfg route req [] (t ++ t') /\ Forall (issued cfg route req (t ++ t')) (set_cookies resp)).

Lemma obeys_ret route req t resp : reads t -> set_cookies resp = [] -> obeys route req t (mret resp).
Proof. intros Hr Hc. apply emits_ret. rewrite app_nil_r, Hc. split; [by apply permitted_reads|constructor]. Qed.

Lemma obeys_find {A} route req t (m : St W A) P k : finds m P -> reads t ->
  (forall a t', reads (t ++ t') -> P a t' -> obeys route req (t ++ t') (k a)) -> obeys route req t (m ≫= k).
Proof.
  intros Hm Ht Hk. eapply emits_bind; [exact Hm|]. intros a t' [Hr HP]. eapply emits_mono; [apply (Hk a t'); [by apply Forall_app|done]|].
  intros b t'' H. by rewrite app_assoc.
Qed.

(** One write, justified by the reads before it, and reads after it. *)
Lemma permitted_write route req t0 c t1 : reads t0 -> may cfg route req t0 c -> reads t1 -> permitted cfg route req [] (t0 ++ c :: t1).
Proof. intros H0 Hc H1. apply permitted_app. split; [by apply permitted_reads|]. cbn. split; [done|by apply permitted_reads]. Qed.

Lemma obeys_bind {A} route req t (m : St W A) P k : emits m P ->
  (forall a t', P a t' -> obeys route req (t ++ t') (k a)) -> obeys route req t (m ≫= k).
Proof.
  intros Hm Hk. eapply emits_bind; [exact Hm|]. intros a t' HP. eapply emits_mono; [apply (Hk a t' HP)|].
  intros b t'' H. by rewrite app_assoc.
Qed.

Lemma obeys_end route req t resp : permitted cfg route req [] t -> Forall (issued cfg route req t) (set_cookies resp) ->
  obeys route req t (mret resp).
Proof. intros Hp Hc. apply emits_ret. by rewrite app_nil_r. Qed.

Lemma emits_sign c : emits (sign_claims c) (fun a t => t = [CSign c a]).
Proof. apply (Trace.emits_op _ _ (fun a => [CSign c a])). apply c_sign. Qed.
Lemma emits_update u : emits (update_user_status u) (fun a t => t = [CUpdate u a]).
Proof. apply (Trace.emits_op _ _ (fun a => [CUpdate u a])). apply c_update. Qed.

Ltac quiet := apply obeys_ret; done.
(** Evidence of an earlier part of the trace. *)
Ltac kept := first [eapply session_mono | eapply opened_mono | eapply account_mono | eapply asserted_mono]; [|eassumption]; set_solver.

(** *** Tokens *)

Lemma obeys_session ps route req k :
  (forall u t, reads t -> session cfg ps req t u -> obeys route req t (k u)) ->
  obeys route req [] (s ← sessionUserFor cfg ps req; match s with inl resp => mret resp | inr u => k u end).
Proof.
  intros Hk. eapply obeys_find; [apply finds_session|constructor|]. intros [resp|u] t Hr [Hu He].
  - rewrite (He _ eq_refl). quiet.
  - apply Hk; [done|]. by apply Hu.
Qed.

Lemma emits_mint e r ttl : emits (Mint cfg e r ttl) (fun res t => t = [] \/
  exists n a, t = [CNow n; CSign (mkClaims (i_url (cfg_Issuer cfg)) e [i_clientID (cfg_Issuer cfg)] n n (n + ttl) e [GroupForRole r]) a] /\
    GroupForRole r <> "").
Proof.
  unfold Mint. cbv zeta. case_bool_decide as E; [apply emits_ret; by left|].
  eapply emits_call; [intros; apply c_now|]. intros n.
  eapply emits_mono; [apply emits_sign|].
  intros a t ->. right. eauto.
Qed.

Lemma token_obeys req : obeys PostToken req [] (handleToken cfg req).
Proof.
  apply obeys_session. intros u t Hr Hs. eapply obeys_bind; [apply emits_mint|].
  intros res t' [-> | (n & a & -> & Hg)].
  - rewrite app_nil_r. destruct res; quiet.
  - apply obeys_end; [|destruct res; constructor]. rewrite cons_middle, app_assoc. apply permitted_write.
    + apply Forall_app. by repeat constructor.
    + exists u, n. split; [kept|]. split; [set_solver|done].
    + constructor.
Qed.

(** *** Credentials *)

(** The status update of an account, where there is one; its error is the answer. *)
Lemma emits_update_err u : emits (r ← update_user_status u; mret (match r with inl e => Some e | inr _ => None end))
  (fun _ t => exists a, t = [CUpdate u a]).
Proof. eapply emits_bind; [apply emits_update|]. intros a t ->. apply emits_ret. by exists a. Qed.

Lemma emits_remove u id : emits (RemoveCredential u id) (fun _ t => t = [] \/
  has_credential id u = true /\ exists kept a, kept = List.filter (fun c => negb (bool_decide (wc_ID c = id))) (credentials u) /\
    kept <> [] /\ t = [CUpdate (set_credentials u kept) a]).
Proof.
  unfold RemoveCredential. cbv zeta. destruct (has_credential id u); cbn [negb]; [|apply emits_ret; by left].
  case_bool_decide as Ek; [apply emits_ret; by left|]. eapply emits_mono; [apply emits_update_err|]. intros _ t (a & ->). right. split; [done|]. by eexists _, a.
Qed.

Lemma emits_add u c : emits (AddCredential u c) (fun _ t => t = [] \/
  has_credential (wc_ID c) u = false /\ exists a, t = [CUpdate (set_credentials u (credentials u ++ [c])) a]).
Proof.
  unfold AddCredential. destruct (has_credential _ u); [apply emits_ret; by left|].
  eapply emits_mono; [apply emits_update_err|]. intros _ t (a & ->). right. eauto.
Qed.

Lemma revoke_obeys req id : obeys (DeleteCredential id) req [] (handleRevokeCredential cfg req id).
Proof.
  apply obeys_session. intros caller t Hr Hs. eapply obeys_find; [apply finds_subject|done|].
  intros [resp|u] t' Hr' [Hu He]; [by apply obeys_ret; [|apply He]|]. specialize (Hu _ eq_refl).
  eapply obeys_bind; [apply emits_remove|]. intros r t'' [-> | (Hh & kept & a & Hk & Hne & ->)].
  - rewrite app_nil_r. destruct r as [e|]; [|quiet]. repeat case_match; quiet.
  - apply obeys_end; [|repeat case_match; constructor]. apply permitted_write; [done| |constructor].
    exists caller, u. split; [kept|]. split; [|split; [done|eauto]].
    destruct Hu as [->|[Ha Hu]]; [by left|right]. split; [done|kept].
Qed.

Lemma list_obeys req : obeys GetCredentials req [] (handleListCredentials cfg req).
Proof.
  apply obeys_session. intros caller t Hr Hs. eapply obeys_find; [apply finds_subject|done|].
  intros [resp|u] t' Hr' [Hu He]; [by apply obeys_ret; [|apply He]|quiet].
Qed.

(** *** Ceremonies *)

Lemma emits_seal_ceremony os : emits (seal cfg os) (fun r t => (t = [] /\ exists e, r = inl e) \/
  exists raw data n, t = [CNow n] /\ r = inr (raw, Seal (cfg_Key cfg) PurposeChallenge data challengeTTL n)).
Proof.
  unfold seal. destruct (options_json os.1) as [e|raw]; [apply emits_ret; left; eauto|].
  destruct (sd_json os.2) as [e|data]; [apply emits_ret; left; eauto|].
  eapply emits_bind; [apply emits_seal|]. intros v t (n & -> & ->). apply emits_ret. right. by exists raw, data, n.
Qed.

(** A ceremony is begun: the library is asked, and its session sealed. *)
Lemma begin_obeys route req t (m : St W (result error (CeremonyOptions * SessionData))) (f : error -> error) :
  (forall w, calls (m w).2 = calls w) -> reads t ->
  (forall data n, issued cfg route req (t ++ [CNow n]) (setChallenge (Seal (cfg_Key cfg) PurposeChallenge data challengeTTL n))) ->
  obeys route req t (b ← (r ← m; match r with inl e => mret (inl (f e)) | inr os => seal cfg os end); mret (begin_response b)).
Proof.
  intros Hm Hr Hi. eapply obeys_bind.
  { eapply Trace.emits_skip; [exact Hm|]. intros [e|os]; [|apply emits_seal_ceremony]. apply emits_ret. left. eauto. }
  intros b t' [[-> [e ->]] | (raw & data & n & -> & ->)]; [rewrite app_nil_r; quiet|].
  apply obeys_end; [by apply permitted_reads, Forall_app; repeat constructor|]. repeat constructor. apply Hi.
Qed.

Lemma login_begin_obeys req : obeys PostLoginBegin req [] (handleLoginBegin cfg).
Proof.
  apply begin_obeys; [intros; apply c_begin_login|constructor|]. intros data n. exists data, n. split; [set_solver|done].
Qed.

Lemma register_begin_obeys req : obeys PostRegisterBegin req [] (handleRegisterBegin cfg req).
Proof.
  apply obeys_session. intros u t Hr Hs. apply begin_obeys; [intros; apply c_begin_registration|done|].
  intros data n. exists u, data, n. split; [kept|]. split; [set_solver|done].
Qed.

Lemma finds_session_data sealed : finds (openSession cfg sealed) (fun _ _ => True).
Proof.
  unfold openSession. eapply emits_bind; [apply finds_open|]. intros r t [Hr _]. apply emits_ret. by rewrite app_nil_r.
Qed.

Lemma requiresUV_spec cred : requiresUV cfg && negb (w_UserVerified cred) = false -> uv_ok cfg cred.
Proof. unfold requiresUV, uv_ok. intros H E. rewrite E in H. by destruct (w_UserVerified cred). Qed.

(** Either only reads, or reads that justify one update. *)
Lemma emits_register u sealed response label : emits (FinishRegistration cfg u sealed response label) (fun _ t => reads t \/
  exists t0 cred n a, t = t0 ++ [CUpdate (set_credentials u (credentials u ++ [new_credential cred n label])) a] /\ reads t0 /\
    CCreated (inr cred) ∈ t0 /\ uv_ok cfg cred /\ CNow n ∈ t0 /\ has_credential (EncodeToString RawURLEncoding (w_ID cred)) u = false).
Proof.
  unfold FinishRegistration. eapply emits_bind; [apply finds_session_data|]. intros [e|s] t [Hr _]; [apply emits_ret; rewrite app_nil_r; by left|].
  destruct (parse_creation response) as [e|parsed]; [apply emits_ret; rewrite app_nil_r; by left|].
  eapply emits_call; [intros; apply c_create_credential|]. intros [e|cred].
  { apply emits_ret. left. apply Forall_app. by repeat constructor. }
  destruct (_ && _) eqn:Euv; [apply emits_ret; left; apply Forall_app; by repeat constructor|]. apply requiresUV_spec in Euv.
  eapply emits_call; [intros; apply c_now|]. intros n. eapply emits_mono; [apply emits_add|]. intros _ t' [-> | (Hh & a & ->)].
  - left. apply Forall_app. by repeat constructor.
  - right. exists (t ++ [CCreated (inr cred); CNow n])%list, cred, n, a. split; [by rewrite <- app_assoc|].
    split; [apply Forall_app; by repeat constructor|]. split; [set_solver|]. split; [done|]. split; [set_solver|done].
Qed.

Lemma register_finish_obeys req : obeys PostRegisterFinish req [] (handleRegisterFinish cfg req).
Proof.
  apply obeys_session. intros u t Hr Hs. destruct (assoc _ _) as [v|]; [|quiet]. destruct (read_limited _) as [b|]; [|quiet].
  eapply obeys_bind; [apply emits_register|]. intros r t' [Hr' | (t0 & cred & n & a & -> & Hr0 & Hc & Huv & Hn & Hh)].
  - destruct r; (apply obeys_ret; [by apply Forall_app|done]).
  - apply obeys_end; [|destruct r; constructor]. rewrite app_assoc. apply permitted_write; [by apply Forall_app| |constructor].
    exists u, cred, n. split; [kept|]. split; [set_solver|]. split; [done|]. split; [set_solver|done].
Qed.

Lemma finds_credential id : finds (ByCredentialID cfg id) (fun r t => forall u, r = inr u ->
  exists items, listed cfg t items /\ List.find (has_credential id) items = Some u).
Proof. apply finds_first. Qed.

(** The library asks for the account of the credential it validates. *)
Lemma emits_validate s p : emits (with_local None (validate_login (lookup_user cfg) s p)) (fun '(r, matched) t => reads t /\
  forall cred, r = inr cred -> CValidated (inr cred) ∈ t /\ exists u items, matched = Some u /\ listed cfg t items /\
    List.find (has_credential (EncodeToString RawURLEncoding (w_ID cred))) items = Some u).
Proof.
  intros w. unfold with_local. destruct (validate_login _ _ _ _) as [r [w' m]] eqn:E. cbn [fst snd].
  apply c_validate in E as [(Hc & -> & e & ->)|(id & h & w1 & r1 & w2 & H1 & Hl & Hc & Hcred)].
  { eexists. split; [exact Hc|]. split; [by repeat constructor|]. intros; by simplify_eq. }
  unfold lookup_user in Hl. destruct (finds_credential (EncodeToString RawURLEncoding id) w1) as (t & Ht & Hr & Hf).
  destruct (ByCredentialID _ _ w1) as [[e|u] w3]; cbn [fst snd] in *; simplify_eq.
  - exists (t ++ [CValidated r])%list. rewrite Hc, Ht, H1, app_assoc. split; [done|]. split; [apply Forall_app; by repeat constructor|].
    intros cred Hr'. destruct (Hcred _ Hr') as (_ & u & Hu & _). done.
  - exists (t ++ [CValidated r])%list. rewrite Hc, Ht, H1, app_assoc. split; [done|]. split; [apply Forall_app; by repeat constructor|].
    intros cred ->. destruct (Hcred _ eq_refl) as (Hid & _). rewrite Hid. split; [set_solver|].
    destruct (Hf _ eq_refl) as (items & Hl & Hu). exists u, items. split; [done|]. split; [unfold listed in *; set_solver|done].
Qed.

Lemma emits_count u : emits (r ← update_user_status u; mret (match r with inl e => inl (wrapf "recording sign count" e) | inr v => inr v end))
  (fun r t => exists a, t = [CUpdate u a] /\ forall v, r = inr v -> a = inr v).
Proof.
  eapply emits_bind; [apply emits_update|]. intros a t ->. apply emits_ret. exists a. split; [done|]. intros v H. destruct a; by simplify_eq.
Qed.

Lemma emits_login sealed response : emits (FinishLogin cfg sealed response) (fun r t =>
  (reads t /\ exists e, r = inl e) \/
  exists t0 u cred cs a, t = t0 ++ [CUpdate (set_credentials u cs) a] /\ reads t0 /\ asserted cfg t0 u cred /\
    count_first (EncodeToString RawURLEncoding (w_ID cred)) (w_SignCount cred) (credentials u) = Some cs /\
    match r with inl _ => True | inr (v, _) => a = inr v end).
Proof.
  unfold FinishLogin. eapply emits_bind; [apply finds_session_data|]. intros [e|s] t [Hr _]; [apply emits_ret; rewrite app_nil_r; left; eauto|].
  destruct (parse_assertion response) as [e|parsed]; [apply emits_ret; rewrite app_nil_r; left; eauto|].
  eapply emits_bind; [apply emits_validate|]. intros [r m] t' [Hr' Hv].
  assert (reads (t ++ t')) as Hrr by by apply Forall_app.
  destruct r as [e|cred]; [apply emits_ret; rewrite app_nil_r; left; eauto|]. destruct (Hv _ eq_refl) as (Hc & u & items & -> & Hl & Hf).
  cbv zeta. cbn [UserVerified]. destruct (_ && _) eqn:Euv; [apply emits_ret; rewrite app_nil_r; left; eauto|]. apply requiresUV_spec in Euv.
  unfold recordLoginCounter. destruct (w_CloneWarning cred) eqn:Ew; [apply emits_ret; rewrite app_nil_r; left; eauto|].
  unfold UpdateSignCount. destruct (count_first _ _ _) as [cs|] eqn:Ecs; [|apply emits_ret; rewrite app_nil_r; left; eauto].
  eapply emits_bind; [apply emits_count|].
  intros r t'' (a & -> & Ha). apply emits_ret. rewrite app_nil_r, app_assoc. right.
  exists (t ++ t')%list, u, cred, cs, a. split; [done|]. split; [done|]. split; [|split; [done|destruct r; eauto]].
  split; [set_solver|]. split; [done|]. split; [done|]. exists items. split; [unfold listed in *; set_solver|done].
Qed.

Lemma emits_cookie u p ttl : emits (setSessionFor cfg u p ttl) (fun c t => exists n, t = [CNow n] /\
  c = session_cookie (Seal (cfg_Key cfg) p (email_of u) ttl n) (int_seconds ttl)).
Proof. unfold setSessionFor. eapply emits_bind; [apply emits_seal|]. intros v t (n & -> & ->). apply emits_ret. eauto. Qed.

(** A cookie is sealed last, over the trace so far. *)
Lemma obeys_cookie route req t u p ttl : permitted cfg route req [] t ->
  (forall n, issued cfg route req (t ++ [CNow n]) (session_cookie (Seal (cfg_Key cfg) p (email_of u) ttl n) (int_seconds ttl))) ->
  obeys route req t (c ← setSessionFor cfg u p ttl; mret (NoContent [c])).
Proof.
  intros Hp Hi. eapply obeys_bind; [apply emits_cookie|].
  intros c t' (n & -> & ->). apply obeys_end; [|by repeat constructor].
  apply permitted_app. split; [done|]. cbn. split; [by apply may_read|done].
Qed.

Lemma login_finish_obeys req : obeys PostLoginFinish req [] (handleLoginFinish cfg req).
Proof.
  unfold handleLoginFinish. destruct (assoc _ _) as [v|]; [|quiet]. destruct (read_limited _) as [b|]; [|quiet].
  eapply obeys_bind; [apply emits_login|]. cbn [app]. intros r t [[Hr [e ->]] | (t0 & u & cred & cs & a & -> & Hr0 & Ha & Hc & Hv)]; [quiet|].
  assert (permitted cfg PostLoginFinish req [] (t0 ++ [CUpdate (set_credentials u cs) a])) as Hp.
  { apply permitted_write; [done| |constructor]. by exists u, cred, cs. }
  destruct r as [e|[v' res]]; [by apply obeys_end; [|constructor]|]. subst a.
  destruct (requireIssuable (Some v')) eqn:Er; [by apply obeys_end; [|constructor]|]. apply requireIssuable_enabled in Er.
  apply obeys_cookie; [done|]. intros n. exists u, cred, (set_credentials u cs), v', n.
  split; [kept|]. split; [set_solver|]. do 3 (split; [done|]). split; [set_solver|done].
Qed.

(** *** Invitations *)

Lemma obeys_link route req t email : permitted cfg route req [] t -> obeys route req t (invite_link cfg email).
Proof.
  intros Hp. eapply obeys_bind; [apply emits_seal|]. intros v t' (n & -> & ->). apply obeys_end; [|constructor].
  apply permitted_app. split; [done|]. cbn. split; [by apply may_read|done].
Qed.

Lemma is_admin_role (u : FrameUser) : is_admin u = true -> role_of u = RoleAdmin.
Proof. unfold is_admin. by rewrite bool_decide_eq_true. Qed.

Lemma find_account email : finds (ByEmail cfg email) (fun r t => forall u, r = inr u -> account_of cfg t email u).
Proof. apply finds_first. Qed.

Lemma invite_link_obeys req : obeys PostInviteLink req [] (handleInviteLink cfg req).
Proof.
  apply obeys_session. intros caller t Hr Hs. destruct (is_admin caller) eqn:Ea; cbn [negb]; [|quiet].
  destruct (decode_body _ _) as [[|email [|? ?]]|]; try quiet.
  eapply obeys_find; [apply find_account|done|]. intros [e|u] t' Hr' Hu; [case_match; quiet|].
  destruct (requireIssuable (Some u)); [quiet|]. destruct (enrolled u); [quiet|]. by apply obeys_link, permitted_reads.
Qed.

Lemma accept_obeys req : obeys PostInviteAccept req [] (handleInviteAccept cfg req).
Proof.
  unfold handleInviteAccept. destruct (decode_body _ _) as [[|token [|? ?]]|] eqn:Ed; try quiet.
  eapply obeys_find; [apply finds_open|constructor|]. cbn [app]. intros [e|email] t Hr Ho; [quiet|]. specialize (Ho _ eq_refl).
  eapply obeys_find; [apply find_account|done|]. intros [e|u] t' Hr' Hu; [quiet|]. specialize (Hu _ eq_refl).
  destruct (requireIssuable (Some u)) eqn:Er; [quiet|]. apply requireIssuable_enabled in Er.
  destruct (enrolled u) eqn:En; [quiet|]. apply obeys_cookie; [by apply permitted_reads|].
  intros n. exists token, email, u, n. split; [done|]. split; [kept|]. split; [kept|]. do 2 (split; [done|]). split; [set_solver|done].
Qed.

Lemma emits_create u : om_Namespace (u_Meta u) <> "" \/ om_Namespace (u_Meta u) = cfg_Namespace cfg ->
  emits (Create cfg u) (fun r t => exists a, t = [CCreate u a] /\ forall v, r = inr v -> a = inr v).
Proof.
  intros Hns. unfold Create. cbv zeta.
  assert ((if bool_decide (om_Namespace (u_Meta u) = "") then set_namespace u (cfg_Namespace cfg) else u) = u) as ->.
  { case_bool_decide as E; [|done]. destruct Hns as [?|Hns]; [done|]. unfold set_namespace. rewrite <- Hns. by destruct u as [[? ? ? ?] ? ?]. }
  eapply emits_call; [intros; apply c_create|]. intros a. apply emits_ret. exists a. split; [done|]. intros v H. destruct a; by simplify_eq.
Qed.

Lemma finds_invitee email : finds (inviteeAlreadyExists cfg email) (fun r t => forall b, r = inr b ->
  exists items, listed cfg t items /\ b = existsb (fun u => EqualFold (email_of u) email) items).
Proof. apply finds_in_list. intros items b t Hl [= <-]. eauto. Qed.

Lemma existsb_none {A} (f : A -> bool) l : existsb f l = false -> Forall (fun x => f x = false) l.
Proof. induction l as [|x l IH]; cbn; [constructor|]. intros [? ?]%orb_false_iff. constructor; auto. Qed.

Lemma address_checks email : negb (emailPattern email) || (maxEmailLength <? len email) = false -> frameUserNameForEmail email <> "" ->
  address email (frameUserNameForEmail email).
Proof. intros H Hn. bool_to_prop. by repeat split. Qed.

Lemma invite_obeys req : obeys PostInvite req [] (handleInvite cfg req).
Proof.
  apply obeys_session. intros caller t Hr Hs. destruct (is_admin caller) eqn:Ea; cbn [negb]; [|quiet]. apply is_admin_role in Ea.
  destruct (decode_body _ _) as [[|email [|role [|? ?]]]|] eqn:Ed; try quiet.
  destruct (negb (emailPattern email) || _) eqn:Ep; [quiet|].
  destruct (negb (bool_decide (role = RoleOperator)) && _) eqn:Er; [quiet|].
  eapply obeys_find; [apply finds_invitee|done|]. intros [e|b] t' Hr' Hx; [quiet|]. destruct (Hx _ eq_refl) as (items & Hl & ->).
  destruct (existsb _ items) eqn:Eb; [quiet|]. cbv zeta.
  destruct (decide (frameUserNameForEmail email = "")) as [En|En]; [rewrite bool_decide_true by done; quiet|rewrite bool_decide_false by done].
  eapply obeys_bind; [apply emits_create; by right|]. intros r t'' (a & -> & _).
  assert (permitted cfg PostInvite req [] ((t ++ t') ++ [CCreate (new_user cfg (frameUserNameForEmail email) email role StateEnabled) a])) as Hp.
  { apply permitted_write; [done| |constructor]. eexists caller, email, role, _. split; [kept|]. do 2 (split; [done|]).
    split; [by apply address_checks|]. split; [|split; [done|]].
    - destruct (decide (role = RoleOperator)); [by left|]. destruct (decide (role = RoleViewer)); [by right|]. by rewrite !bool_decide_false in Er.
    - exists items. split; [unfold listed in *; set_solver|by apply existsb_none]. }
  destruct r as [e|v]; [case_match; by apply obeys_end; [|constructor]|by apply obeys_link].
Qed.

(** *** Bootstrap *)

Lemma finds_admins : finds (AdminCount cfg) (fun r t => forall n, r = inr n ->
  exists items, listed cfg t items /\ n = Z.of_nat (length (List.filter is_admin items))).
Proof. apply finds_in_list. intros items b t Hl [= <-]. eauto. Qed.

Lemma no_admin items : (0 <? Z.of_nat (length (List.filter (@is_admin _) items))) = false -> Forall (fun v => is_admin v = false) items.
Proof.
  intros H. apply Z.ltb_ge in H. assert (List.filter is_admin items = []) as E by (destruct (List.filter _ items); [done|cbn in H; lia]). clear H.
  induction items as [|v items IH]; [constructor|]. cbn in E. destruct (is_admin v) eqn:Ev; [done|]. constructor; auto.
Qed.

Lemma emits_delete_secret : emits (deleteBootstrapSecret cfg) (fun _ t => t = [] \/
  exists r, t = [CDeleteSecret (cfg_Namespace cfg) (cfg_BootstrapSecretName cfg) r]).
Proof.
  unfold deleteBootstrapSecret. destruct (_ || _); [apply emits_ret; by left|].
  eapply emits_call; [intros; apply c_delete|]. intros r. apply emits_ret. eauto.
Qed.

Lemma bootstrap_obeys req : obeys PostBootstrap req [] (handleBootstrap cfg req).
Proof.
  unfold handleBootstrap. eapply obeys_find; [apply finds_admins|constructor|]. cbn [app]. intros [e|n] t Hr Hx; [quiet|].
  destruct (Hx _ eq_refl) as (items & Hl & ->). destruct (0 <? _) eqn:E0; [quiet|]. apply no_admin in E0.
  case_bool_decide as Es; [quiet|]. destruct (decode_body _ _) as [[|token [|email [|? ?]]]|] eqn:Ed; try quiet.
  destruct (decide (token = cfg_BootstrapSecret cfg)) as [->|]; [rewrite bool_decide_true by done|rewrite bool_decide_false by done; quiet].
  cbn [negb]. destruct (negb (emailPattern email) || _) eqn:Ep; [quiet|]. cbv zeta. case_bool_decide as En; [quiet|].
  set (nu := new_user cfg _ email RoleAdmin "").
  eapply obeys_bind; [apply emits_create; by right|]. intros r t' (a & -> & Ha).
  assert (permitted cfg PostBootstrap req [] (t ++ [CCreate nu a])) as Hp.
  { apply permitted_write; [done| |constructor]. eexists email, _. do 2 (split; [done|]). split; [by apply address_checks|]. split; [done|]. by exists items. }
  destruct r as [e|v]; [by apply obeys_end; [|constructor]|]. rewrite (Ha v eq_refl) in Hp |- *.
  eapply obeys_bind; [apply emits_delete_secret|]. intros [] t'' Ht. apply obeys_cookie.
  - destruct Ht as [-> | [r ->]]; [by rewrite app_nil_r|]. apply permitted_app. split; [done|]. cbn. split; [|done].
    do 2 (split; [done|]). by exists nu, v; set_solver.
  - intros n'. exists nu, v, n'. split; [set_solver|]. split; [set_solver|done].
Qed.

Lemma serve_obeys route req : obeys route req [] (serve cfg route req).
Proof.
  destruct route; cbn [serve]; auto using token_obeys, bootstrap_obeys, login_begin_obeys, login_finish_obeys, register_begin_obeys,
    register_finish_obeys, invite_obeys, invite_link_obeys, accept_obeys, list_obeys, revoke_obeys.
  1,3: quiet.
  - unfold handleJWKS. destruct JWKS; quiet.
  - apply obeys_end; [done|]. by repeat constructor.
Qed.

(** C4. A request makes no call of the API server or the signer but those the
    policy [may] allows its route on the evidence of the answers before it:
    a token only for the account an unexpired session cookie names, a new
    account only by the bootstrap or an admin's invitation, a credential only
    by its owner's ceremony, an owner or an admin. *)
Theorem serve_permitted route req w : exists t, calls (serve cfg route req w).2 = (calls w ++ t)%list /\ permitted cfg route req [] t.
Proof. destruct (serve_obeys route req w) as (t & Ht & Hp & _). eauto. Qed.

(** Every cookie a request is answered with is one [issued] allows: a
    session only after the bootstrap created the account or an assertion of its
    credential was validated and counted, and an enrolment only for an enabled
    account without a credential that an unexpired invitation names. *)
Theorem serve_issues route req w ck : ck ∈ set_cookies (serve cfg route req w).1 ->
  exists t, calls (serve cfg route req w).2 = (calls w ++ t)%list /\ issued cfg route req t ck.
Proof.
  intros Hck. destruct (serve_obeys route req w) as (t & Ht & _ & Hi). exists t. split; [done|].
  rewrite Forall_forall in Hi. by apply Hi.
Qed.
End Safety.

(** * Confinement of sealed tokens *)

Section Confinement.
Context `{F : Foreign} {U : Unicode} {W : Type} {AW : AuthWorld W} {JO : Jose W} {WA : WebAuthn W} {TA : TracedAuth W}.
Variable cfg : ServerConfig.





End Confinement.
