(* ===== verification/UserWebhook.v ===== *)
(** The admission webhook of FrameUsers
    (internal/webhook/frame/v1beta1/frameuser_webhook.go), and what it keeps true
    of the accounts however they are written: some enabled admin, distinct
    addresses, and the fields only an admin may change.

    The manager's client is [UserLister]; the admission request is what
    admission.RequestFromContext finds. Nothing is assumed of what a list answers,
    which comes from the manager's cache. That a review saw the accounts as they are when the write
    it admits is stored is a condition of the theorems on histories ([saw], in [astep]),
    and the server does not make it true ([two_demotions]). *)
From stdpp Require Import base tactics strings sets relations list.
From Stdlib Require Import ZArith Lia.
From S2P Require Import Prelude GoLib GoTime GoText V1beta1 Authd.

Open Scope Z_scope.

(** AdmissionRequest: who asks, and for which subresource. *)
Record AdmissionRequest := mkReview { a_Username : string; a_Groups : list string; a_SubResource : string }.

Definition isEnabled (state : string) : bool := negb (bool_decide (state = StateDisabled)).
Definition stateOrEnabled (state : string) : string := if bool_decide (state = "") then StateEnabled else state.

Definition adminGroup : string := "frame:admins".
Definition clusterAdminGroup : string := "system:masters".

(** [None] for the request when the context holds none; [no_request] is the text
    of that error. *)
Definition no_request : string := "admission.Request not found in context".
Definition requireAdminRequester (req : option AdmissionRequest) (action : string) : option string :=
  match req with
  | None => Some ("refusing to " +:+ action +:+ ": cannot identify who is making the request (" +:+ no_request +:+ ")")
  | Some r =>
    if existsb (fun g => bool_decide (g = adminGroup) || bool_decide (g = clusterAdminGroup)) (a_Groups r) then None
    else Some ("refusing to " +:+ action +:+ ": " +:+ quote (a_Username r) +:+ " is not an admin. Only a member of " +:+ adminGroup +:+
      " (a FrameUser with spec.role: admin) or " +:+ clusterAdminGroup +:+
      " may do this — otherwise anyone who can create or patch a FrameUser can make themselves an admin, and anyone who can delete one can remove an admin who is not the last one")
  end.

Definition guardPasswordHash (req : option AdmissionRequest) (oldHash newHash : string) : option string :=
  if bool_decide (newHash = oldHash) then None
  else if match req with Some r => bool_decide (a_SubResource r = "status") | None => false end then None
  else if bool_decide (newHash = "") then
    Some ("refusing to clear status.passwordHash: this write does not carry the stored hash, which destroys the account's password with a success response " +:+
      "(a full replace at v1alpha1 that omits spec.passwordHash does exactly this). Patch the field instead of replacing the object, or write it through the v1beta1 frameusers/status subresource")
  else Some ("refusing to change status.passwordHash on the main resource: it is credential material and only the v1beta1 frameusers/status subresource may write it (F11). " +:+
      "Writing spec.passwordHash at the deprecated v1alpha1 version is the same write and is refused for the same reason").

Section Webhook.
Context `{F : Foreign} {U : Unicode}.

(** client.List without a namespace: the accounts of all of them. *)
Class UserLister (W : Type) := list_all : St W (result error (list FrameUser)).

Context {W : Type} {L : UserLister W}.
Implicit Types (u v obj oldObj newObj : FrameUser) (req : option AdmissionRequest).

Definition name_of u : string := om_Name (u_Meta u).
Definition namespace_of u : string := om_Namespace (u_Meta u).
Definition state_of u : string := us_State (u_Spec u).
Definition hash_of u : string := ut_PasswordHash (u_Status u).

Definition anyAdminExists : St W (result string bool) :=
  r ← list_all;
  mret (match r with inl e => inl ("cannot verify existing admins: " +:+ e_text e) | inr items => inr (existsb is_admin items) end).

Definition claims (email excluding : string) u : bool :=
  negb (bool_decide (name_of u = excluding)) && EqualFold (email_of u) email.
Definition requireEmailUnclaimed (email excluding : string) : St W (option string) :=
  if bool_decide (email = "") then mret None
  else
    r ← list_all;
    mret (match r with
          | inl e => Some ("cannot verify that " +:+ quote email +:+ " is unclaimed: " +:+ e_text e)
          | inr items =>
            match List.find (claims email excluding) items with
            | None => None
            | Some u => Some ("refusing to set spec.email to " +:+ quote email +:+ ": that address is already claimed by FrameUser " +:+ quote (name_of u) +:+
                ". Two accounts sharing an address, in any casing, resolve to each other by list order at sign-in, so whoever holds either credential can be issued the other's identity and role")
            end
          end).

Definition other_enabled_admin (excluding : string) u : bool :=
  negb (bool_decide (name_of u = excluding)) && is_admin u && isEnabled (state_of u).
Definition requireAnotherAdmin (excluding : string) : St W (option string) :=
  r ← list_all;
  mret (match r with
        | inl e => Some ("cannot verify remaining admins: " +:+ e_text e)
        | inr items =>
          if existsb (other_enabled_admin excluding) items then None
          else Some ("refusing to remove the last admin (" +:+ excluding +:+ "): no other enabled account holds the admin role")
        end).

(** [if err := ...; err != nil { return nil, err }]. *)
Definition unless (e : option string) (k : St W (option string)) : St W (option string) :=
  match e with Some _ => mret e | None => k end.

Definition ValidateCreate req obj : St W (option string) :=
  unless (guardPasswordHash req "" (hash_of obj)) (
  e ← requireEmailUnclaimed (email_of obj) (name_of obj);
  unless e (
  if negb (is_admin obj) then mret None
  else
    r ← anyAdminExists;
    match r with
    | inl e => mret (Some e)
    | inr anyAdmin =>
      if negb anyAdmin then mret None
      else mret (requireAdminRequester req ("create a FrameUser with spec.role: " +:+ quote (role_of obj)))
    end)).

Definition ValidateUpdate req oldObj newObj : St W (option string) :=
  unless (guardPasswordHash req (hash_of oldObj) (hash_of newObj)) (
  unless (if bool_decide (role_of oldObj = role_of newObj) then None
          else requireAdminRequester req ("change spec.role from " +:+ quote (role_of oldObj) +:+ " to " +:+ quote (role_of newObj))) (
  unless (if eqb (isEnabled (state_of oldObj)) (isEnabled (state_of newObj)) then None
          else requireAdminRequester req ("change spec.state from " +:+ quote (stateOrEnabled (state_of oldObj)) +:+ " to " +:+
                 quote (stateOrEnabled (state_of newObj)))) (
  e ← (if bool_decide (email_of oldObj = email_of newObj) then mret None
       else unless (requireAdminRequester req ("change spec.email from " +:+ quote (email_of oldObj) +:+ " to " +:+ quote (email_of newObj)))
              (requireEmailUnclaimed (email_of newObj) (name_of newObj)));
  unless e (
  if is_admin oldObj && isEnabled (state_of oldObj) && negb (isEnabled (state_of newObj)) then requireAnotherAdmin (name_of oldObj)
  else if negb (is_admin oldObj) || is_admin newObj then mret None
  else requireAnotherAdmin (name_of oldObj))))).

Definition ValidateDelete req obj : St W (option string) :=
  if negb (is_admin obj) then mret None
  else unless (requireAdminRequester req ("delete admin FrameUser " +:+ quote (name_of obj))) (requireAnotherAdmin (name_of obj)).

(** * Admitted writes *)

(** A write of the main resource, with the object it replaces or removes. *)
Inductive write :=
| WCreate (obj : FrameUser)
| WUpdate (oldObj newObj : FrameUser)
| WDelete (obj : FrameUser).

Definition review req (op : write) : St W (option string) :=
  match op with
  | WCreate obj => ValidateCreate req obj
  | WUpdate oldObj newObj => ValidateUpdate req oldObj newObj
  | WDelete obj => ValidateDelete req obj
  end.

(** An account's identity in the store. *)
Definition key_of u : string * string := (namespace_of u, name_of u).

(** What a write does to the accounts, wherever in the list they stand. A status
    write leaves metadata's key and the spec alone, and is not reviewed. *)
Inductive applies : list FrameUser -> write -> list FrameUser -> Prop :=
| a_create l1 l2 u : key_of u ∉ map key_of (l1 ++ l2) -> applies (l1 ++ l2) (WCreate u) (l1 ++ u :: l2)
| a_update l1 l2 u v : key_of u = key_of v -> applies (l1 ++ u :: l2) (WUpdate u v) (l1 ++ v :: l2)
| a_delete l1 l2 u : applies (l1 ++ u :: l2) (WDelete u) (l1 ++ l2).

(** The lists of accounts a review may be answered: it makes at most two. *)
Definition answered (w : W) (items : list FrameUser) : Prop := (list_all w).1 = inr items \/ (list_all (list_all w).2).1 = inr items.
(** Every one of them is [l]. *)
Definition saw (l : list FrameUser) (w : W) : Prop := forall items, answered w items -> items = l.

(** An admin of the cluster or of frame asks. *)
Definition asked_by_admin req : Prop := exists r, req = Some r /\ ("frame:admins" ∈ a_Groups r \/ "system:masters" ∈ a_Groups r).
Lemma requester_admin req a : requireAdminRequester req a = None <-> asked_by_admin req.
Proof.
  unfold asked_by_admin. destruct req as [r|]; cbn; [|split; [done|by intros (? & ? & _)]].
  assert (existsb (fun g => bool_decide (g = adminGroup) || bool_decide (g = clusterAdminGroup)) (a_Groups r) = true <-> "frame:admins" ∈ a_Groups r \/ "system:masters" ∈ a_Groups r) as E.
  { rewrite existsb_exists. split.
    - intros (g & Hg%list_elem_of_In & H%orb_true_iff). rewrite !bool_decide_eq_true in H. destruct H as [->| ->]; [by left|by right].
    - intros [H|H]; (eexists; split; [by apply list_elem_of_In|]); by rewrite orb_true_iff, !bool_decide_eq_true; auto. }
  destruct (existsb _ _); split; [intros _; exists r; split; [done|by apply E]|done|done|].
  intros (r' & [= <-] & H%E). done.
Qed.

(** A change that only an admin may make was not made by anyone else. *)
Lemma gate_spec (same : bool) req a : (if same then None else requireAdminRequester req a) = None -> same = true \/ asked_by_admin req.
Proof. destruct same; [by left|]. intros H%requester_admin. by right. Qed.

Lemma unclaimed_spec email n w : (requireEmailUnclaimed email n w).1 = None -> email <> "" ->
  exists items, (list_all w).1 = inr items /\ Forall (fun u => claims email n u = false) items.
Proof.
  unfold requireEmailUnclaimed. intros H Hne. rewrite bool_decide_false in H by done. rewrite St_bind_run in H. cbn in H.
  destruct (list_all w).1 as [e|items] eqn:E; [done|]. destruct (List.find _ _) eqn:Ef; [done|]. exists items. split; [done|].
  apply Forall_forall. intros u Hu. by eapply find_none in Ef; [|apply list_elem_of_In].
Qed.
Lemma unclaimed_next email n w items : (list_all (requireEmailUnclaimed email n w).2).1 = inr items -> answered w items.
Proof. unfold requireEmailUnclaimed, answered. case_bool_decide; [by left|]. rewrite St_bind_run. cbn. by right. Qed.

Lemma another_spec n w : (requireAnotherAdmin n w).1 = None -> exists items u, (list_all w).1 = inr items /\ u ∈ items /\ other_enabled_admin n u = true.
Proof.
  unfold requireAnotherAdmin. rewrite St_bind_run. cbn. destruct (list_all w).1 as [e|items] eqn:E; [done|].
  destruct (existsb _ _) eqn:Ex; [|done]. intros _. apply existsb_exists in Ex as (u & Hu & Ho). exists items, u. by rewrite list_elem_of_In.
Qed.
Lemma any_spec w b : (anyAdminExists w).1 = inr b -> exists items, (list_all w).1 = inr items /\ b = existsb is_admin items.
Proof. unfold anyAdminExists. rewrite St_bind_run. cbn. destruct (list_all w).1 as [e|items] eqn:E; [done|]. intros [= <-]. eauto. Qed.

Lemma unless_none e (k : St W (option string)) w : (unless e k w).1 = None -> e = None /\ (k w).1 = None.
Proof. by destruct e. Qed.

Lemma create_spec req u w : (ValidateCreate req u w).1 = None ->
  guardPasswordHash req "" (hash_of u) = None /\
  (email_of u <> "" -> exists items, answered w items /\ Forall (fun v => claims (email_of u) (name_of u) v = false) items) /\
  (is_admin u = true -> asked_by_admin req \/ exists items, answered w items /\ existsb is_admin items = false).
Proof.
  intros [Hg H]%unless_none. split; [done|]. rewrite St_bind_run in H. apply unless_none in H as [He H].
  split; [intros Hne; destruct (unclaimed_spec _ _ _ He Hne) as (items & Hi & Hf); exists items; split; [by left|done]|]. intros Ha. rewrite Ha in H. cbn [negb] in H. rewrite St_bind_run in H.
  destruct (anyAdminExists _).1 as [e|b] eqn:Eb; [done|]. apply any_spec in Eb as (items & Hi%unclaimed_next & ->).
  destruct (existsb is_admin items) eqn:Ex; [left; cbn in H; by apply requester_admin in H|right; eauto].
Qed.

(** An update drops an enabled admin: it is disabled or loses the role. *)
Definition drops u v : bool := is_admin u && isEnabled (state_of u) && negb (is_admin v && isEnabled (state_of v)).

Lemma update_spec req u v w : (ValidateUpdate req u v w).1 = None ->
  guardPasswordHash req (hash_of u) (hash_of v) = None /\
  (asked_by_admin req \/ role_of u = role_of v /\ isEnabled (state_of u) = isEnabled (state_of v) /\ email_of u = email_of v) /\
  (email_of u <> email_of v -> email_of v <> "" -> exists items, answered w items /\ Forall (fun x => claims (email_of v) (name_of v) x = false) items) /\
  (drops u v = true -> exists items x, answered w items /\ x ∈ items /\ other_enabled_admin (name_of u) x = true).
Proof.
  intros [Hg [Hr [Hs H]%unless_none]%unless_none]%unless_none. rewrite St_bind_run in H. apply unless_none in H as [He H]. split; [done|].
  split; [|split].
  - apply gate_spec in Hr as [Hr|?]; [|by left]. apply gate_spec in Hs as [Hs|?]; [|by left]. apply bool_decide_eq_true in Hr. apply eqb_prop in Hs.
    destruct (decide (email_of u = email_of v)) as [|Hne]; [by right|]. rewrite bool_decide_false in He by done.
    apply unless_none in He as [He%requester_admin _]. by left.
  - intros Hne Hn. rewrite bool_decide_false in He by done. apply unless_none in He as [_ He]. destruct (unclaimed_spec _ _ _ He Hn) as (items & Hi & Hf). exists items. split; [by left|done].
  - intros Hd. set (w' := (_ w).2) in H. assert (forall items, (list_all w').1 = inr items -> answered w items) as Hw.
    { unfold w'. clear. intros items. destruct (bool_decide (email_of u = email_of v)); [by left|]. unfold unless. case_match; [by left|]. apply unclaimed_next. }
    assert ((requireAnotherAdmin (name_of u) w').1 = None) as (items & x & Hi & Hx)%another_spec; [|eauto].
    unfold drops in Hd. destruct (is_admin u), (isEnabled (state_of u)), (is_admin v), (isEnabled (state_of v)); cbn in H, Hd; done.
Qed.

Lemma delete_spec req u w : (ValidateDelete req u w).1 = None -> is_admin u = true ->
  asked_by_admin req /\ exists items x, answered w items /\ x ∈ items /\ other_enabled_admin (name_of u) x = true.
Proof.
  unfold ValidateDelete. intros H Ha. rewrite Ha in H. cbn in H. apply unless_none in H as [Hr%requester_admin (items & x & Hi & Hx)%another_spec]. split; [done|].
  exists items, x. split; [by left|done].
Qed.

(** * What the accounts keep *)

(** A reviewed write whose review saw the accounts it is applied to, or a status write, which no review sees. *)
Inductive astep : list FrameUser -> list FrameUser -> Prop :=
| s_write req op w l l' : (review req op w).1 = None -> saw l w -> applies l op l' -> astep l l'
| s_status l1 u v l2 : key_of u = key_of v -> u_Spec u = u_Spec v -> astep (l1 ++ u :: l2) (l1 ++ v :: l2).

Definition usable_admin u : Prop := us_Role (u_Spec u) = "admin" /\ us_State (u_Spec u) <> "disabled".
Definition has_admin (l : list FrameUser) : Prop := exists u, u ∈ l /\ usable_admin u.
Lemma usable_spec u : is_admin u && isEnabled (state_of u) = true <-> usable_admin u.
Proof. unfold is_admin, isEnabled, usable_admin. rewrite andb_true_iff, bool_decide_eq_true, negb_true_iff, bool_decide_eq_false. done. Qed.

Lemma other_usable n u : other_enabled_admin n u = true -> usable_admin u /\ name_of u <> n.
Proof. unfold other_enabled_admin. intros H. rewrite <- usable_spec. bool_to_prop. by rewrite H1, H0. Qed.

(** Whoever is not at the place of a write is still there after it. *)
Lemma elsewhere {A} (x u : A) l1 l2 l' : x ∈ l1 ++ u :: l2 -> x <> u -> l1 ++ l2 ⊆ l' -> x ∈ l'.
Proof. set_solver. Qed.

Lemma step_admin l l' : astep l l' -> has_admin l -> has_admin l'.
Proof.
  intros Hs (x & Hx & Ha). destruct Hs as [req op w l l' Hr Hsaw Hap|l1 u v l2 Hk Hsp].
  - destruct Hap as [l1 l2 u Hk|l1 l2 u v Hk|l1 l2 u].
    + exists x. split; [set_solver|done].
    + apply update_spec in Hr as (_ & _ & _ & Hd).
      destruct (drops u v) eqn:Ed.
      * destruct (Hd eq_refl) as (items & y & Hi%Hsaw & Hy & [Hu Hn]%other_usable). rewrite Hi in Hy. exists y. split; [|done].
        eapply elsewhere; [done| |]; [by intros ->|set_solver].
      * apply elem_of_app in Hx as [Hx|[->|Hx]%elem_of_cons]; [exists x; set_solver| |exists x; set_solver].
        exists v. split; [set_solver|]. apply usable_spec in Ha. rewrite <- usable_spec. unfold drops in *. destruct (is_admin u), (isEnabled (state_of u)); try done.
        cbn in Ed. by apply negb_false_iff in Ed.
    + cbn [review] in Hr. destruct (is_admin u) eqn:Eu.
      * apply delete_spec in Hr as (_ & items & y & Hi%Hsaw & Hy & [Hu Hn]%other_usable); [|done]. rewrite Hi in Hy. exists y. split; [|done].
        eapply elsewhere; [done| |done]. by intros ->.
      * exists x. split; [|done]. eapply elsewhere; [done| |done]. intros ->. apply usable_spec in Ha. by rewrite Eu in Ha.
  - apply elem_of_app in Hx as [Hx|[->|Hx]%elem_of_cons]; [exists x; set_solver| |exists x; set_solver].
    exists v. split; [set_solver|]. unfold usable_admin in *. by rewrite <- Hsp.
Qed.

(** C7. Once an enabled admin exists, one exists after any sequence of status writes and of reviewed
    writes, whoever makes them, each applied to the accounts its review
    was answered. *)
Theorem admin_survives l l' : rtc astep l l' -> has_admin l -> has_admin l'.
Proof. induction 1 as [|l l1 l' Hs _ IH]; [done|]. intros H. apply IH. by eapply step_admin. Qed.

(** Accounts of different names have different addresses, in any casing. *)
Definition apart u v : Prop := name_of u <> name_of v -> email_of u <> "" -> email_of v <> "" -> EqualFold (email_of u) (email_of v) = false.
Definition distinct (l : list FrameUser) : Prop := forall u v, u ∈ l -> v ∈ l -> apart u v.

Lemma apart_sym u v : apart u v -> apart v u.
Proof. unfold apart. rewrite EqualFold_sym. auto. Qed.

(** One account among others that are distinct. *)
Lemma distinct_insert l1 u l2 : distinct (l1 ++ l2) -> (forall v, v ∈ l1 ++ l2 -> apart u v) -> distinct (l1 ++ u :: l2).
Proof.
  intros Hd Hu x y Hx Hy. assert (x = u \/ x ∈ l1 ++ l2) as [->|Hx'] by set_solver; assert (y = u \/ y ∈ l1 ++ l2) as [->|Hy'] by set_solver.
  - intros Hn. done.
  - by apply Hu.
  - by apply apart_sym, Hu.
  - by apply Hd.
Qed.
Lemma distinct_subset l l' : l' ⊆ l -> distinct l -> distinct l'.
Proof. intros Hs Hd u v Hu Hv. apply Hd; by apply Hs. Qed.

Lemma unclaimed_apart u v : claims (email_of u) (name_of u) v = false -> apart u v.
Proof.
  unfold claims, apart. intros H Hn _ _. rewrite EqualFold_sym. rewrite bool_decide_false in H by done. done.
Qed.

Lemma step_distinct l l' : astep l l' -> distinct l -> distinct l'.
Proof.
  intros Hs Hd. destruct Hs as [req op w l l' Hr Hsaw Hap|l1 u v l2 Hk Hsp].
  - destruct Hap as [l1 l2 u Hk|l1 l2 u v Hk|l1 l2 u].
    + apply create_spec in Hr as (_ & Hc & _). apply distinct_insert; [done|].
      intros v Hv. destruct (decide (email_of u = "")) as [|Hne]; [by intros ? ?|]. destruct (Hc Hne) as (items & Hi%Hsaw & Hf). rewrite Hi, Forall_forall in Hf. apply unclaimed_apart. by apply Hf.
    + apply update_spec in Hr as (_ & _ & He & _). injection Hk as _ Hn.
      apply distinct_insert; [eapply distinct_subset; [|done]; set_solver|]. intros x Hx.
      destruct (decide (email_of u = email_of v)) as [Eq|Ne].
      * intros H1 H2 H3. rewrite <- Eq in *. apply (Hd u x); [set_solver..|by rewrite Hn|done|done].
      * destruct (decide (email_of v = "")) as [|Hne]; [by intros ? ?|]. destruct (He Ne Hne) as (items & Hi%Hsaw & Hf). rewrite Hi, Forall_forall in Hf. apply unclaimed_apart, Hf. set_solver.
    + eapply distinct_subset; [|done]. set_solver.
  - injection Hk as _ Hn. apply distinct_insert; [eapply distinct_subset; [|done]; set_solver|]. intros x Hx H1 H2 H3.
    unfold email_of in *. rewrite <- Hsp in *. apply (Hd u x); [set_solver..|by rewrite Hn|done|done].
Qed.

Lemma step_keys l l' : astep l l' -> NoDup (map key_of l) -> NoDup (map key_of l').
Proof.
  intros Hs Hn. destruct Hs as [req op w l l' Hr _ Hap|l1 u v l2 Hk Hsp]; [|by rewrite map_app in *; cbn in *; rewrite <- Hk].
  destruct Hap as [l1 l2 u Hk|l1 l2 u v Hk|l1 l2 u]; rewrite map_app in *; cbn in *.
  - rewrite <- Permutation_middle. constructor; [done|]. done.
  - by rewrite <- Hk.
  - rewrite <- Permutation_middle in Hn. by apply NoDup_cons in Hn as [_ Hn].
Qed.

Lemma reachable_distinct l : rtc astep [] l -> NoDup (map key_of l) /\ distinct l.
Proof.
  intros H. cut (NoDup (map key_of []) /\ distinct []); [|split; [apply NoDup_nil_2|intros u v Hu; by apply not_elem_of_nil in Hu]].
  induction H as [|l l1 l' Hs _ IH]; [done|]. intros [Hk Hd]. apply IH. split; [by eapply step_keys|by eapply step_distinct].
Qed.

(** However the accounts came to be, an address names one account of a
    namespace: whatever order the server lists them in, the exact match that
    sign-in takes first is the account that holds the address, and no other has
    it in any casing. *)
Theorem address_names_one l ns items u :
  rtc astep [] l -> items ≡ₚ List.filter (fun v => bool_decide (namespace_of v = ns)) l -> u ∈ items -> email_of u <> "" ->
  List.find (has_email (email_of u)) items = Some u /\
  (forall v, v ∈ items -> EqualFold (email_of v) (email_of u) = true -> v = u).
Proof.
  intros [Hk Hd]%reachable_distinct Hp Hu Hne.
  assert (forall v, v ∈ items -> v ∈ l /\ namespace_of v = ns) as Hin.
  { intros v Hv. rewrite Hp in Hv. apply list_elem_of_In, filter_In in Hv as [Hv Hb]. apply bool_decide_eq_true in Hb. by rewrite list_elem_of_In. }
  assert (forall v, v ∈ items -> EqualFold (email_of v) (email_of u) = true -> v = u) as Hone.
  { intros v Hv Hf. destruct (Hin v Hv) as [Hv1 Hv2], (Hin u Hu) as [Hu1 Hu2].
    destruct (decide (name_of v = name_of u)) as [En|En].
    - apply list_elem_of_lookup in Hv1 as [i Hi], Hu1 as [j Hj]. assert (i = j) as ->; [|congruence].
      eapply (NoDup_lookup (map key_of l)); [done|by apply list_lookup_fmap_Some; exists v|].
      apply list_lookup_fmap_Some. exists u. split; [|done]. unfold key_of. congruence.
    - destruct (decide (email_of v = "")) as [Ee|Ee].
      + exfalso. rewrite Ee in Hf. apply EqualFold_spec in Hf. apply Hne. symmetry in Hf. revert Hf. clear. apply folded_nil.
      + rewrite (Hd v u Hv1 Hu1 En Ee Hne) in Hf. done. }
  split; [|done]. destruct (List.find _ items) as [v|] eqn:E.
  - f_equal. apply find_some in E as [Hv Hh]. apply Hone; [by apply list_elem_of_In|]. apply bool_decide_eq_true in Hh. rewrite Hh. apply EqualFold_refl.
  - exfalso. apply list_elem_of_In in Hu. eapply find_none in E; [|done]. apply bool_decide_eq_false in E. done.
Qed.

(** C9. Only a member of frame:admins or system:masters creates an admin, unless the review was
    answered accounts of which none is an admin, changes an account's role, whether it is enabled or its address,
    or removes an admin; and no write but one of the status subresource, whoever makes it, changes a
    password hash. *)
Theorem privileged_fields req op w :
  (review req op w).1 = None ->
  (asked_by_admin req \/
   match op with
   | WCreate u => us_Role (u_Spec u) <> "admin" \/ exists items, answered w items /\ Forall (fun v => us_Role (u_Spec v) <> "admin") items
   | WUpdate u v => us_Role (u_Spec u) = us_Role (u_Spec v) /\ (us_State (u_Spec u) = "disabled" <-> us_State (u_Spec v) = "disabled") /\
       us_Email (u_Spec u) = us_Email (u_Spec v)
   | WDelete u => us_Role (u_Spec u) <> "admin"
   end) /\
  ((forall r, req = Some r -> a_SubResource r <> "status") ->
   match op with
   | WCreate u => ut_PasswordHash (u_Status u) = ""
   | WUpdate u v => ut_PasswordHash (u_Status v) = ut_PasswordHash (u_Status u)
   | WDelete _ => True
   end).
Proof.
  assert (forall a b, (forall r, req = Some r -> a_SubResource r <> "status") -> guardPasswordHash req a b = None -> b = a) as Hg.
  { intros a b Hs. unfold guardPasswordHash. destruct (decide (b = a)) as [|Hn]; [done|]. rewrite bool_decide_false by done.
    destruct req as [r|]; [rewrite (bool_decide_false (a_SubResource r = _)) by by apply Hs|]; by destruct (bool_decide (b = "")). }
  assert (forall u, is_admin u = false -> us_Role (u_Spec u) <> "admin") as Hna by (by intros u ?%bool_decide_eq_false).
  intros H. destruct op as [u|u v|u]; cbn [review] in H.
  - apply create_spec in H as (Hh & _ & Ha). split; [|intros Hs; by apply Hg in Hh]. destruct (is_admin u) eqn:Eu; [|right; left; by apply Hna].
    destruct (Ha eq_refl) as [?|(items & Hi & Hx)]; [by left|]. right. right. exists items. split; [done|]. apply Forall_forall. intros v Hv. apply Hna.
    apply not_true_iff_false. intros Hv'. apply not_true_iff_false in Hx. apply Hx, existsb_exists. exists v. by rewrite <- list_elem_of_In.
  - apply update_spec in H as (Hh & Hp & _). split; [|intros Hs; by apply Hg in Hh]. destruct Hp as [?|(Hr & Hs & He)]; [by left|]. right. split; [done|]. split; [|done].
    unfold isEnabled in Hs. apply (f_equal negb) in Hs. rewrite !negb_involutive in Hs. rewrite <- (bool_decide_eq_true (state_of u = _)), <- (bool_decide_eq_true (state_of v = _)).
    unfold state_of, StateDisabled in Hs. unfold state_of. by rewrite Hs.
  - split; [|done]. destruct (is_admin u) eqn:Eu; [|right; by apply Hna]. left. by apply delete_spec in H as [? _].
Qed.
End Webhook.
