(* ===== verification/AuthdAccounts.v ===== *)
(** The accounts behind the authentication daemon: what a request does to the
    credentials the API server holds, whom a sign-in makes of the holder of a
    key, and the names accounts get. The daemon and the FrameUser webhook are then run on an
    in-memory server: the witnesses, and runs that show what they do not promise. *)
From stdpp Require Import base tactics strings sets list relations pretty.
From Stdlib Require Import ZArith Lia Ascii.
From S2P Require Import Prelude Trace GoLib GoTime Kube Sha256 GoJson GoNet V1beta1 Conversion GoText Authd AuthdSafety UserWebhook.

Open Scope Z_scope.

(** * Key rings *)

Section Rings.
Context `{F : Foreign}.

(** What may happen to the credentials of an account: a new one is enrolled,
    one is counted on, one is revoked and another is left. *)
Inductive ring_step : list WebAuthnCredential -> list WebAuthnCredential -> Prop :=
| ring_enrol cs c : wc_ID c ∉ map wc_ID cs -> ring_step cs (cs ++ [c])
| ring_count cs1 c cs2 n : ring_step (cs1 ++ c :: cs2) (cs1 ++ set_SignCount c n :: cs2)
| ring_revoke cs id : id ∈ map wc_ID cs -> List.filter (fun c => negb (bool_decide (wc_ID c = id))) cs <> [] ->
    ring_step cs (List.filter (fun c => negb (bool_decide (wc_ID c = id))) cs).

Lemma has_credential_ids id (u : FrameUser) : has_credential id u = true <-> id ∈ map wc_ID (credentials u).
Proof.
  unfold has_credential. rewrite existsb_exists, list_elem_of_fmap. setoid_rewrite <- list_elem_of_In. setoid_rewrite bool_decide_eq_true. naive_solver.
Qed.

Lemma count_first_ring id n cs cs' : count_first id n cs = Some cs' -> exists cs1 c cs2, cs = cs1 ++ c :: cs2 /\ cs' = cs1 ++ set_SignCount c n :: cs2.
Proof.
  revert cs'. induction cs as [|c cs IH]; cbn; [done|]. intros cs'. case_bool_decide; [intros [= <-]; by exists [], c, cs|].
  destruct (count_first id n cs) as [l|]; [|done]. cbn. intros [= <-]. destruct (IH _ eq_refl) as (cs1 & c' & cs2 & -> & ->).
  by exists (c :: cs1), c', cs2.
Qed.

(** The IDs of a ring stay distinct, and a ring with a key keeps one. *)
Lemma ring_step_ids cs cs' : ring_step cs cs' -> NoDup (map wc_ID cs) -> NoDup (map wc_ID cs').
Proof.
  destruct 1 as [cs c Hc|cs1 c cs2 n|cs id Hi Hne]; intros Hn.
  - rewrite map_app. apply NoDup_app. split; [done|]. split; [intros x Hx; cbn; set_solver|apply NoDup_singleton].
  - by rewrite map_app in *.
  - clear Hi Hne. induction cs as [|c cs IH]; cbn; [done|]. cbn in Hn. apply NoDup_cons in Hn as [Hc Hn].
    case_bool_decide; cbn; [by apply IH|]. constructor; [|by apply IH]. intros H'. apply Hc.
    apply list_elem_of_fmap in H' as (x & -> & Hx). apply list_elem_of_fmap. exists x. split; [done|]. apply list_elem_of_In, filter_In in Hx as [Hx _].
    by apply list_elem_of_In.
Qed.
Lemma ring_step_keeps_one cs cs' : ring_step cs cs' -> cs' <> [].
Proof. destruct 1; [by destruct cs|by destruct cs1|done]. Qed.
End Rings.

(** * The API server's optimistic lock *)

Section History.
Context `{F : Foreign} {U : Unicode} {W : Type} {AW : AuthWorld W} {JO : Jose W} {WA : WebAuthn W} {TA : TracedAuth W}.
Variable cfg : ServerConfig.

(** A server that locks optimistically, over the calls made: it held what it
    listed; a resourceVersion is given to one object of a key; and a status
    update that succeeded carried the version of the object it replaced, and
    took its status only. *)
Record Optimistic (cs : list call) := {
  held : FrameUser -> Prop;
  version : ObjectMeta -> string;
  replaced : FrameUser -> FrameUser -> Prop;
  listed_held ns items u : CList ns (inr items) ∈ cs -> u ∈ items -> held u;
  version_once u v : held u -> held v -> key_of u = key_of v -> version (u_Meta u) = version (u_Meta v) -> u = v;
  update_replaces u v : CUpdate u (inr v) ∈ cs ->
    exists old, held old /\ key_of old = key_of u /\ version (u_Meta old) = version (u_Meta u) /\
      replaced old v /\ u_Spec v = u_Spec old /\ u_Status v = u_Status u
}.

Lemma find_listed (p : FrameUser -> bool) pre items u : listed cfg pre items -> List.find p items = Some u ->
  exists ns items, CList ns (inr items) ∈ pre /\ u ∈ items.
Proof. intros Hl Hf. apply find_some in Hf as [Hu _]. apply list_elem_of_In in Hu. by exists (cfg_Namespace cfg), items. Qed.

Lemma session_listed ps req pre u : session cfg ps req pre u -> exists ns items, CList ns (inr items) ∈ pre /\ u ∈ items.
Proof. intros (v & p & e & _ & _ & _ & (items & Hl & Hf) & _). by eapply find_listed. Qed.

Lemma ring_enrol_new u c : has_credential (wc_ID c) u = false -> ring_step (credentials u) (credentials u ++ [c]).
Proof. intros H. constructor. intros Hi%has_credential_ids. by rewrite H in Hi. Qed.

(** An update the policy allows is a step of the ring of a listed account. *)
Lemma may_update route req pre u' r : may cfg route req pre (CUpdate u' r) ->
  exists u cs, (exists ns items, CList ns (inr items) ∈ pre /\ u ∈ items) /\ u' = set_credentials u cs /\ ring_step (credentials u) cs.
Proof.
  destruct route; cbn [may is_read]; try done.
  - intros (u & cred & cs & (_ & _ & _ & items & Hl & Hf) & Hc & ->). exists u, cs. split; [by eapply find_listed|]. split; [done|].
    apply count_first_ring in Hc as (cs1 & c & cs2 & -> & ->). constructor.
  - intros (u & cred & t & Hs & _ & _ & _ & Hh & ->). eexists u, _. split; [by eapply session_listed|]. split; [done|].
    by apply ring_enrol_new.
  - intros (caller & u & Hs & Hu & Hh & kept & -> & Hne & ->). eexists u, _. split.
    + destruct Hu as [->|(_ & items & Hl & Hf)]; [by eapply session_listed|by eapply find_listed].
    + split; [done|]. constructor; [by apply has_credential_ids|done].
Qed.

(** The object a permitted update replaced is the one that was listed. *)
Lemma replaced_listed all (H : Optimistic all) pre u cs v : (exists ns items, CList ns (inr items) ∈ pre /\ u ∈ items) -> pre ⊆ all ->
  CUpdate (set_credentials u cs) (inr v) ∈ all -> replaced _ H u v /\ u_Spec v = u_Spec u /\ credentials v = cs.
Proof.
  intros (ns & items & Hl & Hu) Hpre Hup. apply (update_replaces _ H) in Hup as (old & Hh & Hk & Hv & Hr & Hs & Hst).
  assert (old = u) as ->.
  { eapply (version_once _ H); [done| |done|done]. eapply (listed_held _ H); [by apply Hpre|done]. }
  split; [done|]. split; [done|]. unfold credentials. by rewrite Hst.
Qed.

(** Whatever else writes the accounts meanwhile, a status update of a
    request that the server accepted replaced the very account the request had
    listed, and its credentials moved by one step: a new key enrolled, one key
    counted, or one revoked with another left. No enrolled key is lost and no
    account is left without one. *)
Theorem credentials_step route req w (H : Optimistic (calls (serve cfg route req w).2)) :
  exists t, calls (serve cfg route req w).2 = (calls w ++ t)%list /\
  forall u' v, CUpdate u' (inr v) ∈ t ->
    exists old, replaced _ H old v /\ u_Spec v = u_Spec old /\ ring_step (credentials old) (credentials v) /\ credentials v <> [].
Proof.
  destruct (serve_obeys cfg route req w) as (t & Ht & Hp & _). exists t. split; [done|]. intros u' v Hc.
  destruct (justified_elem _ _ _ _ Hp Hc) as (t1 & Hs & Hm). apply may_update in Hm as (u & cs & Hl & -> & Hr).
  destruct (replaced_listed _ H t1 u cs v) as (Hrep & Hsp & <-); [done|rewrite Ht; set_solver|rewrite Ht; set_solver|].
  exists u. split; [done|]. split; [done|]. split; [done|by eapply ring_step_keeps_one].
Qed.

(** A sign-in with a passkey makes the caller the enabled account that the
    key is enrolled on, and nobody else: the session names the address of the
    first account listed with the credential the library validated, whose user
    was verified where that is required, and whose counter had advanced. *)
Theorem login_identity req w ck (H : Optimistic (calls (serve cfg PostLoginFinish req w).2)) : ck ∈ set_cookies (serve cfg PostLoginFinish req w).1 ->
  exists t u cred n, calls (serve cfg PostLoginFinish req w).2 = (calls w ++ t)%list /\ asserted cfg t u cred /\ enabled u /\ CNow n ∈ t /\
    ck = session_cookie (Seal (cfg_Key cfg) PurposeSession (email_of u) (cfg_SessionTTL cfg) n) (int_seconds (cfg_SessionTTL cfg)).
Proof.
  intros Hck. destruct (serve_obeys cfg PostLoginFinish req w) as (t & Ht & Hp & Hi). rewrite Forall_forall in Hi.
  destruct (Hi ck Hck) as (u & cred & u' & v & n & Ha & Hup & Hm & Hsp & Hen & Hn & ->).
  assert (u_Spec v = u_Spec u) as Hv.
  { destruct (justified_elem _ _ _ _ Hp Hup) as (t1 & Hs & Hmay). apply may_update in Hmay as (u1 & cs & Hl & -> & _). cbn in Hm, Hsp.
    destruct (replaced_listed _ H t1 u1 cs v) as (_ & -> & _); [done|rewrite Ht; set_solver|rewrite Ht; set_solver|done]. }
  exists t, u, cred, n. split; [done|]. split; [done|]. unfold enabled, email_of in *. rewrite Hv in Hen |- *. done.
Qed.
End History.

(** * Names *)

Section NameShape.
Context `{U : Unicode}.

Definition alnum (c : ascii) : bool := in_range 97 122 c || in_range 48 57 c.
Definition name_byte (c : ascii) : bool := alnum c || dash_dot c.

Definition hex_byte (c : ascii) : bool := in_range 48 57 c || in_range 97 102 c.

Lemma hex_digit_byte n : hex_byte (hex_digit n) = true.
Proof.
  unfold hex_digit. destruct (nth_in_or_default (Z.to_nat n) (to_bytes "0123456789abcdef") "0"%char) as [H| ->]; [|done].
  assert (forallb hex_byte (to_bytes "0123456789abcdef") = true) as Hall by done. rewrite forallb_forall in Hall. by apply Hall.
Qed.

Lemma hex_encode_bytes l : length (to_bytes (hex_encode l)) = (2 * length l)%nat /\ Forall (fun c => hex_byte c = true) (to_bytes (hex_encode l)).
Proof.
  unfold hex_encode. rewrite to_of_bytes. induction l as [|z l [IH1 IH2]]; [split; [done|constructor]|].
  cbn [flat_map]. split; [rewrite length_app, IH1; cbn; lia|]. apply Forall_app. split; [|done].
  do 2 (apply Forall_cons_2; [apply hex_digit_byte|]). constructor.
Qed.

(** A dash and eight hexadecimal digits. *)
Lemma suffix_shape s : exists h, name_suffix s = "-"%char :: h /\ length h = 8%nat /\ Forall (fun c => hex_byte c = true) h.
Proof.
  eexists. split; [done|]. destruct (hex_encode_bytes (sum256 (string_bytes s))) as [Hl Hf]. rewrite (proj1 (sum256_ok _)) in Hl.
  split; [by rewrite length_take, Hl|by apply Forall_take].
Qed.

Lemma hex_alnum c : hex_byte c = true -> alnum c = true.
Proof. unfold hex_byte, alnum, in_range. intros H. apply orb_true_iff in H as [H|H]; apply orb_true_iff; [right; done|left]. bool_to_prop. lia. Qed.

Lemma name_rune_byte r : name_byte (name_rune r) = true.
Proof.
  destruct r as [[|c [|? ?]]|]; cbn; try done. destruct (_ || _) eqn:E; [|done]. unfold name_byte, alnum, dash_dot. 
  by rewrite <- !orb_assoc in *.
Qed.

Lemma trim_bytes p l (P : ascii -> Prop) : Forall P l -> Forall P (trim_right_set p l).
Proof. intros H. destruct (trim_right_set_spec p l) as (k & Hk & _). rewrite Hk in H. by apply Forall_app in H as [H _]. Qed.

Lemma trim_right_head p c l : p c = false -> exists l', trim_right_set p (c :: l) = c :: l'.
Proof.
  intros Hc. destruct (trim_right_set_spec p (c :: l)) as (k & Hk & Hl). destruct (trim_right_set p (c :: l)) as [|x l'] eqn:E.
  - exfalso. unfold trim_right_set in E. cbn in E. apply (f_equal (@rev _)) in E. rewrite rev_involutive in E. cbn in E.
    assert (forall l, trim_left_set p (l ++ [c]) <> []) as Hn; [|by apply (Hn (rev l))].
    clear -Hc. induction l as [|x l IH]; cbn; [by rewrite Hc|]. by destruct (p x).
  - injection Hk as -> _. by exists l'.
Qed.

Lemma trim_set_head p l c t : trim_set p l = c :: t -> p c = false.
Proof.
  unfold trim_set. intros E. destruct (trim_left_set_spec p l) as (k & _ & Hh). destruct (trim_left_set p l) as [|x l'].
  - done.
  - destruct (trim_right_head p x l' Hh) as [l'' E']. rewrite E' in E. by injection E as -> _.
Qed.

Lemma name_parts email : frameUserNameForEmail email <> "" ->
  exists c base, to_bytes (frameUserNameForEmail email) = (c :: base ++ name_suffix (ToLower email))%list /\
    (length (c :: base) <= 55)%nat /\ Forall (fun b => name_byte b = true) (c :: base) /\ dash_dot c = false.
Proof.
  unfold frameUserNameForEmail. cbv zeta. set (suffix := name_suffix (ToLower email)). set (base := trim_set _ _).
  assert (Forall (fun b => name_byte b = true) base) as Hb.
  { apply trim_bytes. destruct (trim_left_set_spec dash_dot (map name_rune (runes (of_bytes (replace_byte "@"%char (to_bytes "-at-") (to_bytes (ToLower email))))))) as (k & Hk & _).
    eapply (Forall_app _ k). rewrite <- Hk. apply Forall_fmap, Forall_forall. intros r _. apply name_rune_byte. }
  assert (length suffix = 9%nat) as Hsl. { destruct (suffix_shape (ToLower email)) as (h & Hh & Hl & _). unfold suffix. rewrite Hh. cbn. by rewrite Hl. }
  destruct (decide (base = [])) as [E|E]; [by rewrite bool_decide_true|rewrite bool_decide_false by done]. intros _. rewrite to_of_bytes.
  destruct base as [|c base'] eqn:Eb; [done|]. assert (dash_dot c = false) as Hc by (by eapply trim_set_head).
  rewrite Hsl. destruct (_ <? _)%nat eqn:El.
  - change (take (maxNameLength - 9) (c :: base')) with (c :: take 54 base').
    destruct (trim_right_head dash_dot c (take 54 base') Hc) as [l' Hl']. rewrite Hl'.
    destruct (trim_right_set_spec dash_dot (c :: take 54 base')) as (k & Hk & _). rewrite Hl' in Hk. exists c, l'. split; [done|]. split; [|split; [|done]].
    + apply (f_equal length) in Hk. rewrite length_app in Hk. cbn in Hk |- *. rewrite length_take in Hk. lia.
    + apply (Forall_app _ _ k). rewrite <- Hk. apply Forall_cons in Hb as [Hb1 Hb2]. constructor; [done|]. by apply Forall_take.
  - apply Nat.ltb_ge in El. unfold maxNameLength in El. cbn [length] in El. exists c, base'. split; [done|]. split; [cbn; lia|done].
Qed.

(** The name of a new account fits in the 64 bytes of a WebAuthn user
    handle, has only lower-case letters, figures, dashes and dots, begins and
    ends with a letter or a figure, and ends in the hash of the address: two
    addresses that got one name share the eight digits of their hashes. *)
Theorem name_shape email : frameUserNameForEmail email <> "" ->
  exists c base d, to_bytes (frameUserNameForEmail email) = (c :: base ++ name_suffix (ToLower email))%list /\
    (length (to_bytes (frameUserNameForEmail email)) <= 64)%nat /\
    Forall (fun b => name_byte b = true) (to_bytes (frameUserNameForEmail email)) /\
    alnum c = true /\ last (to_bytes (frameUserNameForEmail email)) = Some d /\ alnum d = true /\
    forall email', frameUserNameForEmail email' = frameUserNameForEmail email -> name_suffix (ToLower email') = name_suffix (ToLower email).
Proof.
  intros Hn. destruct (name_parts email Hn) as (c & base & Hb & Hl & Hf & Hc). destruct (suffix_shape (ToLower email)) as (h & Hh & Hhl & Hhf).
  destruct h as [|d h' _] using rev_ind; [done|]. apply Forall_app in Hhf as Hd. destruct Hd as [_ [Hd _]%Forall_cons].
  exists c, base, d. split; [done|]. rewrite Hb. split; [|split; [|split; [|split; [|split; [by apply hex_alnum|]]]]].
  - rewrite Hh. cbn in Hl |- *. rewrite length_app. cbn. rewrite Hhl. lia.
  - rewrite app_comm_cons, Forall_app. split; [done|]. rewrite Hh. constructor; [done|]. eapply Forall_impl; [done|]. cbn.
    intros x Hx%hex_alnum. unfold name_byte. by rewrite Hx.
  - apply Forall_cons in Hf as [Hf _]. unfold name_byte in Hf. by rewrite Hc, orb_false_r in Hf.
  - by rewrite Hh, !app_comm_cons, app_assoc, last_snoc.
  - intros email' He. destruct (name_parts email') as (c' & base' & Hb' & _); [by rewrite He|]. rewrite He, Hb, !app_comm_cons in Hb'.
    destruct (suffix_shape (ToLower email')) as (g & Hg & Hgl & _).
    apply app_inj_2 in Hb' as [_ H]; [done|]. rewrite Hg, Hh. cbn. by rewrite Hgl, Hhl.
Qed.
End NameShape.

(** ** Parameters

    The resourceVersion stands for the rest of an object's metadata. *)
#[local] Instance run_foreign : Foreign := {|
  MetaRest := string; Cond := unit; cond_Type := fun _ => ""; cond_Reason := fun _ => ""; find_condition := fun _ _ => None;
  Quantity := unit; EnvVar := unit; EnvFromSource := unit; ResourceRequirements := unit;
  zero_meta := ""; zero_rr := tt; env_json := fun _ => inr JNull; env_decode := fun _ => None;
  envfrom_json := fun _ => inr JNull; envfrom_decode := fun _ => None; rr_json := fun _ => inr JNull; rr_decode := fun _ _ => None;
  json_error := fun _ => "invalid"
|}.
#[local] Instance run_unicode : Unicode := {| unicode_lower := id; unicode_fold := id |}.

(** A server with a clock that ticks a second per reading. *)
Record world := mkWorld { log : list call; clock : Z; users : list FrameUser; fresh : Z }.

Definition record (c : call) (w : world) : world := mkWorld (log w ++ [c]) (clock w) (users w) (fresh w).
Definition put_users (us : list FrameUser) (w : world) : world := mkWorld (log w) (clock w) us (fresh w + 1).
Definition with_version (v : string) (u : FrameUser) : FrameUser :=
  mkFU (mkMeta (name_of u) (namespace_of u) (om_Annotations (u_Meta u)) v) (u_Spec u) (u_Status u).
Definition same_key (u v : FrameUser) : bool := bool_decide (key_of u = key_of v).
Definition same_version (u v : FrameUser) : bool := bool_decide (om_Rest (u_Meta u) = om_Rest (u_Meta v)).

Definition run_now : St world Z := fun w => (clock w, mkWorld (log w ++ [CNow (clock w)]) (clock w + second) (users w) (fresh w)).
Definition run_list (ns : string) : St world (result error (list FrameUser)) := fun w =>
  let r := inr (List.filter (fun u => bool_decide (namespace_of u = ns)) (users w)) in (r, record (CList ns r) w).
Definition run_create (u : FrameUser) : St world (result error FrameUser) := fun w =>
  let v := with_version (itoa (fresh w)) u in
  if existsb (same_key u) (users w)
  then let r := inl (errors_New "already exists" AlreadyExists) in (r, record (CCreate u r) w)
  else (inr v, record (CCreate u (inr v)) (put_users (users w ++ [v]) w)).
Definition run_update (u : FrameUser) : St world (result error FrameUser) := fun w =>
  match List.find (fun x => same_key u x && same_version u x) (users w) with
  | Some old =>
    let v := with_version (itoa (fresh w)) (mkFU (u_Meta old) (u_Spec old) (u_Status u)) in
    (inr v, record (CUpdate u (inr v)) (put_users (map (fun x => if same_key u x then v else x) (users w)) w))
  | None => let r := inl (Errorf "conflict") in (r, record (CUpdate u r) w)
  end.
#[local] Instance run_world : AuthWorld world := {|
  now := run_now; list_users := run_list; create_user := run_create; update_user_status := run_update;
  delete_secret := fun ns n w => (None, record (CDeleteSecret ns n None) w)
|}.
#[local] Instance run_jose : Jose world := {|
  sign_claims := fun c w => (inr (c_Email c), record (CSign c (inr (c_Email c))) w); jwks := inr "{}"
|}.

(** A library whose responses are the ID of a key: "touch" is one without a PIN,
    "clone" one whose counter stands still. *)
Definition run_credential (s : string) : WCredential := mkWCred (string_bytes s) [1; 2; 3] 7 (bool_decide (s = "clone")) (negb (bool_decide (s = "touch"))).
Definition run_validate (lookup : list Z -> list Z -> St (world * option FrameUser) (result error WUser)) (s : string) (p : string) :
    St (world * option FrameUser) (result error WCredential) := fun x =>
  let '(r, (w, m)) := lookup (string_bytes p) [] x in
  let r' := match r with
            | inl e => inl e
            | inr u => if existsb (fun c => bool_decide (w_ID c = string_bytes p)) (wu_Credentials u) then inr (run_credential p) else inl (Errorf "no such key")
            end in
  (r', (record (CValidated r') w, m)).
#[local] Instance run_webauthn : WebAuthn world := {|
  SessionData := string; sd_UserVerification := id; set_UserVerification := fun _ s => s;
  sd_json := inr; sd_decode := inr; CeremonyOptions := string; options_json := inr; ParsedCreation := string; ParsedAssertion := string;
  begin_registration := fun _ os w => (inr ("{}", if (1 <? length os)%nat then "required" else ""), w);
  begin_discoverable_login := fun os w => (inr ("{}", if (0 <? length os)%nat then "required" else ""), w);
  parse_creation := inr; parse_assertion := inr;
  create_credential := fun _ _ p w => (inr (run_credential p), record (CCreated (inr (run_credential p))) w);
  validate_login := run_validate
|}.

#[local] Instance run_traced : TracedAuth world.
Proof.
  refine {| calls := log |}; try done.
  - intros u w. cbn. unfold run_create. by case_match.
  - intros u w. cbn. unfold run_update. by case_match.
  - intros lookup s p w m r w' m' E. right. cbn in E. unfold run_validate in E.
    destruct (lookup (string_bytes p) [] (w, m)) as [r1 [w2 m2]] eqn:El. injection E as <- <- <-.
    exists (string_bytes p), [], w, r1, w2. split; [done|]. split; [done|]. split; [done|]. intros cred Hc.
    destruct r1 as [e|u]; [done|]. destruct (existsb _ _) eqn:Ex; [|done]. injection Hc as <-. split; [done|]. exists u. split; [done|].
    apply existsb_exists in Ex as (c & Hin & Hid). exists c. split; [by apply list_elem_of_In|by apply bool_decide_eq_true in Hid].
Defined.

(** ** A first day *)

Definition run_cfg : ServerConfig := with_defaults
  (mkServerConfig "frame" (mkIssuer "https://frame.example" "frame") "key" UserVerificationRequired "boot" "authd-bootstrap" true (15 * minute) 0 "https://frame.example" 0).

Definition start : world := mkWorld [] (1000 * second) [] 1.
Definition text (v : json) : option string := Some (of_bytes (print v)).
Definition jar (r : Response) : list (string * string) := map (fun c => (ck_Name c, ck_Value c)) (set_cookies r).
Definition ask (cookies : list (string * string)) (b : option string) : Request := mkRequest cookies [("label", "k")] b.

(** The requests of a first admin: bootstrap, enrol "yubi", sign in, take a
    token, invite a viewer. *)
Definition boot : Response * world := serve run_cfg PostBootstrap (ask [] (text (JObj [("token", JStr "boot"); ("email", JStr "ann@x.io")]))) start.
Definition admin_jar : list (string * string) := jar boot.1.
Definition begun : Response * world := serve run_cfg PostRegisterBegin (ask admin_jar None) boot.2.
Definition enrol_req : Request := ask (admin_jar ++ jar begun.1) (Some "yubi").
Definition enrolled_w : Response * world := serve run_cfg PostRegisterFinish enrol_req begun.2.
Definition login_begun : Response * world := serve run_cfg PostLoginBegin (ask [] None) enrolled_w.2.
Definition login_req : Request := ask (jar login_begun.1) (Some "yubi").
Definition signed_in : Response * world := serve run_cfg PostLoginFinish login_req login_begun.2.
Definition token_req : Request := ask (jar signed_in.1) None.
Definition minted : Response * world := serve run_cfg PostToken token_req signed_in.2.
Definition invite_req : Request := ask (jar signed_in.1) (text (JObj [("email", JStr "bob@x.io"); ("role", JStr "viewer")])).
Definition invited : Response * world := serve run_cfg PostInvite invite_req minted.2.

Example first_day :
  map (fun x => status x.1) [boot; begun; enrolled_w; login_begun; signed_in; minted; invited] = [204; 200; 204; 200; 204; 200; 200] /\
  body minted.1 = Json (JObj [("expires_in", JNum (to_bytes "900")); ("id_token", JStr "ann@x.io")]) /\
  map (fun u => (email_of u, role_of u, map wc_ID (credentials u))) (users invited.2) =
    [("ann@x.io", "admin", ["eXViaQ"]); ("bob@x.io", "viewer", [])].
Proof. vm_compute. repeat split; reflexivity. Qed.

(** ** Witnesses *)

Lemma serve_permitted_witness :
  (exists t, calls (serve run_cfg PostToken token_req signed_in.2).2 = (calls signed_in.2 ++ t)%list /\ permitted run_cfg PostToken token_req [] t) /\
  (exists claims, CSign claims (inr "ann@x.io") ∈ log minted.2 /\ c_Groups claims = ["admins"]).
Proof.
  split; [exact (serve_permitted run_cfg PostToken token_req signed_in.2)|].
  eexists. split; [apply list_elem_of_lookup_2 with (i := (length (log minted.2) - 1)%nat); vm_compute; reflexivity|vm_compute; reflexivity].
Defined.

Definition first_cookie (r : Response) : Cookie := default (session_cookie "" 0) (head (set_cookies r)).

Lemma serve_issues_witness :
  exists t, calls (serve run_cfg PostLoginFinish login_req login_begun.2).2 = (calls login_begun.2 ++ t)%list /\ issued run_cfg PostLoginFinish login_req t (first_cookie signed_in.1).
Proof. apply (serve_issues run_cfg PostLoginFinish login_req login_begun.2). vm_compute. left. Defined.

(** Bob takes the invitation he was sent. *)
Definition bob_token : string := Seal "key" PurposeInvite "bob@x.io" (24 * hour) (1010 * second).
Definition accepted : Response * world := serve run_cfg PostInviteAccept (ask [] (text (JObj [("token", JStr bob_token)]))) invited.2.
Definition bob_jar : list (string * string) := jar accepted.1.


(** A history that an optimistic server makes, checked on the calls. *)
#[local] Instance run_cred_eq : EqDecision WebAuthnCredential.
Proof. solve_decision. Defined.
#[local] Instance run_meta_eq : EqDecision ObjectMeta.
Proof. intros [n1 s1 a1 r1] [n2 s2 a2 r2]. cbn in r1, r2. solve_decision. Defined.
#[local] Instance run_spec_eq : EqDecision FrameUserSpec.
Proof. solve_decision. Defined.
#[local] Instance run_status_eq : EqDecision FrameUserStatus.
Proof. solve_decision. Defined.
#[local] Instance run_user_eq : EqDecision FrameUser.
Proof. solve_decision. Defined.
Definition all_listed (cs : list call) : list FrameUser := flat_map (fun c => match c with CList _ (inr items) => items | _ => [] end) cs.
Definition replaces (u v old : FrameUser) : bool :=
  same_key old u && same_version old u && bool_decide (u_Spec v = u_Spec old) && bool_decide (u_Status v = u_Status u).
Definition optimistic_ok (cs : list call) : bool :=
  forallb (fun u => forallb (fun v => negb (same_key u v && same_version u v) || bool_decide (u = v)) (all_listed cs)) (all_listed cs) &&
  forallb (fun c => match c with CUpdate u (inr v) => existsb (replaces u v) (all_listed cs) | _ => true end) cs.

Lemma elem_forallb {A} (p : A -> bool) l x : forallb p l = true -> x ∈ l -> p x = true.
Proof. rewrite forallb_forall. intros H Hx. apply H. by apply list_elem_of_In. Qed.

Definition check_history (cs : list call) (H : optimistic_ok cs = true) : Optimistic cs.
Proof.
  apply andb_true_iff in H as [H1 H2].
  refine {| held := fun u => u ∈ all_listed cs; version := om_Rest;
            replaced := fun old v => exists u, CUpdate u (inr v) ∈ cs /\ replaces u v old = true |}.
  - intros ns items u Hc Hu. unfold all_listed. apply list_elem_of_In, in_flat_map. eexists. split; [by apply list_elem_of_In|]. by apply list_elem_of_In.
  - intros u v Hu Hv Hk Hn. pose proof (elem_forallb _ _ v (elem_forallb _ _ u H1 Hu) Hv) as H. cbn in H.
    unfold same_key, same_version in H. rewrite !bool_decide_true in H by done. cbn in H. by apply bool_decide_eq_true in H.
  - intros u v Hc. pose proof (elem_forallb _ _ _ H2 Hc) as H. cbn in H. apply existsb_exists in H as (old & Hin & Hr). exists old.
    split; [by apply list_elem_of_In|]. assert (replaces u v old = true) as Hr' by done.
    unfold replaces, same_key, same_version in Hr'. bool_to_prop. split; [done|]. split; [done|]. split; [by exists u|done].
Defined.

Lemma credentials_step_witness :
  exists H : Optimistic (calls (serve run_cfg PostRegisterFinish enrol_req begun.2).2),
  exists t, calls (serve run_cfg PostRegisterFinish enrol_req begun.2).2 = (calls begun.2 ++ t)%list /\
  forall u' v, CUpdate u' (inr v) ∈ t ->
    exists old, replaced _ H old v /\ u_Spec v = u_Spec old /\ ring_step (credentials old) (credentials v) /\ credentials v <> [].
Proof.
  unshelve eexists; [apply check_history; vm_compute; reflexivity|]. apply credentials_step.
Defined.

Lemma login_identity_witness :
  exists t u cred n, calls (serve run_cfg PostLoginFinish login_req login_begun.2).2 = (calls login_begun.2 ++ t)%list /\ asserted run_cfg t u cred /\
    enabled u /\ CNow n ∈ t /\
    first_cookie signed_in.1 = session_cookie (Seal (cfg_Key run_cfg) PurposeSession (email_of u) (cfg_SessionTTL run_cfg) n) (int_seconds (cfg_SessionTTL run_cfg)).
Proof.
  apply (login_identity run_cfg login_req login_begun.2).
  - apply check_history. vm_compute. reflexivity.
  - vm_compute. left.
Defined.

Lemma name_shape_witness :
  exists c base d, to_bytes (frameUserNameForEmail "ann@x.io") = (c :: base ++ name_suffix (ToLower "ann@x.io"))%list /\
    (length (to_bytes (frameUserNameForEmail "ann@x.io")) <= 64)%nat /\
    Forall (fun b => name_byte b = true) (to_bytes (frameUserNameForEmail "ann@x.io")) /\
    alnum c = true /\ last (to_bytes (frameUserNameForEmail "ann@x.io")) = Some d /\ alnum d = true /\
    forall email', frameUserNameForEmail email' = frameUserNameForEmail "ann@x.io" -> name_suffix (ToLower email') = name_suffix (ToLower "ann@x.io").
Proof. apply name_shape. by vm_compute. Defined.

(** ** The webhook over a list of accounts *)

#[local] Instance run_lister : UserLister (list FrameUser) := fun l => (inr l, l).
Definition account (ns name email role state : string) : FrameUser :=
  mkFU (mkMeta name ns None "1") (mkFUSpec email role "disabled" state) (mkFUStatus 0 "" None).
Definition ann : FrameUser := account "frame" "ann" "ann@x.io" "admin" "enabled".
Definition cid : FrameUser := account "frame" "cid" "cid@x.io" "admin" "enabled".
Definition demoted (u : FrameUser) : FrameUser := account (namespace_of u) (name_of u) (email_of u) "viewer" "enabled".
Definition by_admin : option AdmissionRequest := Some (mkReview "ann@x.io" ["frame:admins"] "").
Definition by_anyone : option AdmissionRequest := Some (mkReview "eve@x.io" ["frame:viewers"] "").

(** Ann bootstraps, makes Cid an admin and steps down. *)
Lemma run_step l req op l' : (review req op l).1 = None -> applies l op l' -> astep l l'.
Proof. intros H1 H2. apply (s_write req op l l l' H1); [|exact H2]. intros items [[= <-]|[= <-]]; reflexivity. Qed.
Lemma run_history : rtc astep [] [ann; cid] /\ rtc astep [ann; cid] [demoted ann; cid].
Proof.
  split; [eapply rtc_l; [|eapply rtc_l; [|apply rtc_refl]]|eapply rtc_l; [|apply rtc_refl]].
  - apply (run_step [] by_anyone (WCreate ann)); [reflexivity|]. apply (a_create [] [] ann). apply not_elem_of_nil.
  - apply (run_step [ann] by_admin (WCreate cid)); [reflexivity|]. apply (a_create [ann] [] cid). cbn. rewrite list_elem_of_singleton. done.
  - apply (run_step [ann; cid] by_admin (WUpdate ann (demoted ann))); [reflexivity|]. by apply (a_update [] [cid] ann (demoted ann)).
Qed.

Lemma admin_survives_witness : has_admin [demoted ann; cid].
Proof. apply (admin_survives [ann; cid]); [apply run_history|]. exists ann. split; [left|]. split; [reflexivity|discriminate]. Defined.

Lemma address_names_one_witness :
  List.find (has_email "cid@x.io") [cid; ann] = Some cid /\
  (forall v, v ∈ [cid; ann] -> EqualFold (email_of v) "cid@x.io" = true -> v = cid).
Proof.
  apply (address_names_one [ann; cid] "frame" [cid; ann] cid); [apply run_history| |left|done]. vm_compute. apply Permutation_swap.
Defined.

Lemma privileged_fields_witness :
  (review by_anyone (WCreate ann) []).1 = None /\ (review by_anyone (WCreate ann) [cid]).1 <> None /\
  (us_Role (u_Spec ann) <> "admin" \/ exists items, answered [] items /\ Forall (fun v => us_Role (u_Spec v) <> "admin") items).
Proof.
  split; [reflexivity|]. split; [discriminate|].
  destruct (privileged_fields by_anyone (WCreate ann) []) as [[H|H] _]; [reflexivity| |exact H].
  exfalso. destruct H as (r & [= <-] & [H|H]); apply list_elem_of_In in H; destruct H as [H|[]]; discriminate H.
Defined.

(** ** What is not promised *)

(** An enrolment cookie outlives the first key: it enrols a second one. Two
    people who took the same link before a key was enrolled can each enrol
    their own. *)
Definition bob_begun : Response * world := serve run_cfg PostRegisterBegin (ask bob_jar None) accepted.2.
Definition bob_enrols (key : string) (w : world) : Response * world :=
  serve run_cfg PostRegisterFinish (ask (bob_jar ++ jar bob_begun.1) (Some key)) w.
Definition bob_first : Response * world := bob_enrols "bobs" bob_begun.2.
Definition bob_second : Response * world := bob_enrols "eves" bob_first.2.

Theorem enrolment_outlives_first_key :
  [status bob_first.1; status bob_second.1] = [204; 204] /\
  map (fun u => (email_of u, length (credentials u))) (users bob_first.2) = [("ann@x.io", 1%nat); ("bob@x.io", 1%nat)] /\
  map (fun u => (email_of u, length (credentials u))) (users bob_second.2) = [("ann@x.io", 1%nat); ("bob@x.io", 2%nat)] /\
  status (serve run_cfg PostInviteAccept (ask [] (text (JObj [("token", JStr bob_token)]))) bob_first.2).1 = 410.
Proof. vm_compute. repeat split; reflexivity. Qed.

(** In "required" mode a key without a PIN is refused, and so is a counter that
    stands still, with nothing written. *)
Example refusals :
  map (fun k => status (serve run_cfg PostRegisterFinish (ask (admin_jar ++ jar begun.1) (Some k)) begun.2).1) ["touch"; "yubi"] = [400; 204] /\
  status (serve run_cfg PostLoginFinish (ask (jar login_begun.1) (Some "nobody")) login_begun.2).1 = 401 /\
  users (serve run_cfg PostLoginFinish (ask (jar login_begun.1) (Some "nobody")) login_begun.2).2 = users login_begun.2.
Proof. vm_compute. repeat split; reflexivity. Qed.

(** RFC 1123 subdomains, which Kubernetes names are: labels that begin and end
    with a letter or a figure, between dots. *)
Definition label_ok (s : string) : bool :=
  match to_bytes s with
  | [] => false
  | c :: l => alnum c && alnum (List.last l c) && forallb (fun b => alnum b || Ascii.eqb b "-") l
  end.
Definition subdomain (s : string) : bool := forallb label_ok (split_on "."%char s).

(** An address that passes both checks of the invitation, and whose name the API
    server refuses: a label begins with the dash that stands for the "@". *)
Theorem name_not_subdomain :
  emailPattern "bob.@x.io" = true /\ len "bob.@x.io" <= maxEmailLength /\ frameUserNameForEmail "bob.@x.io" <> "" /\
  subdomain (frameUserNameForEmail "bob.@x.io") = false /\ subdomain (frameUserNameForEmail "bob@x.io") = true.
Proof. vm_compute. repeat split; done. Qed.

(** Two reviews that read the same accounts admit two demotions, after which no
    admin is left. *)
Theorem two_demotions :
  (review by_admin (WUpdate ann (demoted ann)) [ann; cid]).1 = None /\
  (review by_admin (WUpdate cid (demoted cid)) [ann; cid]).1 = None /\
  ~ has_admin [demoted ann; demoted cid].
Proof.
  split; [reflexivity|]. split; [reflexivity|]. intros (u & Hu & Ha).
  apply elem_of_cons in Hu as [->|[->|[]%not_elem_of_nil]%elem_of_cons]; by destruct Ha as [Ha _].
Qed.

(** The webhook counts the admins of every namespace, the daemon those of its
    own: with an admin elsewhere, the last one who can sign in may be removed.
    Then the daemon's bootstrap would make a new one, and the webhook refuses
    it. *)
Definition far : FrameUser := account "elsewhere" "far" "far@x.io" "admin" "enabled".
Theorem admin_of_another_namespace :
  (review by_admin (WDelete ann) [ann; far]).1 = None /\
  List.filter is_admin (List.filter (fun u => bool_decide (namespace_of u = "frame")) [far]) = [] /\
  (review by_anyone (WCreate ann) [far]).1 <> None.
Proof. vm_compute. repeat split; done. Qed.

(** Only names are compared, so an account may claim the address of one with its
    name in another namespace. *)
Definition twin : FrameUser := account "elsewhere" "ann" "Ann@x.io" "viewer" "enabled".
Theorem twin_claims_address : (review by_anyone (WCreate twin) [ann]).1 = None /\ EqualFold (email_of twin) (email_of ann) = true.
Proof. vm_compute. repeat split; done. Qed.
