(* ===== verification/DiskClaim.v ===== *)
(** The FrameDiskClaim controller, which destroys what is on a disk
    (internal/controller/frame/framediskclaim_controller.go).

    The API server, the clock and the Wiper (an interface; this repository only
    has [unconfiguredWiper], cmd/main.go, which refuses everything) are the
    methods of [ClaimWorld]. *)
From stdpp Require Import base tactics strings sets relations list gmap.
From Stdlib Require Import ZArith Lia.
From S2P Require Import Prelude Trace GoLib GoTime Kube StorageTypes Alerting StorageAlerts SchedulingPolicy.

Open Scope Z_scope.

(** ** The objects *)

Record FrameDiskClaimSpec := mkClaimSpec {
  cl_MachineRef : string; cl_ByIDPath : string; cl_Serial : string; cl_Destination : string
}.
Record FrameDiskClaimStatus := mkClaimStatus {
  cl_Phase : string; cl_ClaimUID : string; cl_Message : string; cl_PhaseSince : option time; cl_Conditions : list Condition
}.
Record FrameDiskClaim := mkClaim {
  cl_Namespace : string; cl_Name : string; cl_UID : string; cl_Generation : Z; cl_Spec : FrameDiskClaimSpec; cl_Status : FrameDiskClaimStatus
}.
Definition with_claim_status (c : FrameDiskClaim) (s : FrameDiskClaimStatus) : FrameDiskClaim :=
  mkClaim (cl_Namespace c) (cl_Name c) (cl_UID c) (cl_Generation c) (cl_Spec c) s.

(** A FrameMachine as the controller reads it: its name and status.storage. *)
Record ClaimMachine := mkClaimMachine { km_Name : string; km_Storage : option MachineStorage }.

Definition conditionCompletionRecorded : string := "CompletionRecorded".
Definition diskClaimPhaseReady : string := "Ready".
Definition diskClaimPhaseFailed : string := "Failed".
Definition observationMaxAge : Z := 5 * minute.

(** [Patch] answers with the object as the server now has it, which the pointer
    the pass holds then points to. *)
Class ClaimWorld (W : Type) := {
  get_disk_claim : NamespacedName -> St W (result apierr FrameDiskClaim);
  get_claim_machine : NamespacedName -> St W (result apierr ClaimMachine);
  patch_claim_status : FrameDiskClaim -> FrameDiskClaim -> St W (result apierr FrameDiskClaim);
  claim_now : St W time;
  add_condition : list Condition -> Condition -> list Condition;   (* meta.SetStatusCondition *)
  ReadMarker : string -> string -> St W (result string (string * bool));
  Wiper_Claim : string -> string -> string -> string -> St W (option string);
  MarkComplete : string -> string -> string -> St W (option string)
}.

(** ** The controller *)

Section Claim.
Context {W : Type} {CW : ClaimWorld W}.

(** What the observed disk of a serial is: [inl] is the refusal. *)
Definition matching (serial : string) (d : ObservedDisk) : bool :=
  negb (bool_decide (od_SerialNumber d = "")) && bool_decide (od_SerialNumber d = serial).

Definition disk_of (c : FrameDiskClaim) (m : ClaimMachine) (st : MachineStorage) : result string ObservedDisk :=
  let serial := cl_Serial (cl_Spec c) in
  match List.filter (matching serial) (ms_Observed st) with
  | [] => inl ("no disk with serial " +:+ quote serial +:+ " is reported on machine " +:+ quote (km_Name m))
  | [d] =>
    if bool_decide (od_Path d <> cl_ByIDPath (cl_Spec c)) then
      inl ("serial " +:+ quote serial +:+ " is at " +:+ od_Path d +:+ " on " +:+ km_Name m +:+ ", not at the requested " +:+ cl_ByIDPath (cl_Spec c))
    else inr d
  | ds => inl ("serial " +:+ quote serial +:+ " matches " +:+ itoa (Z.of_nat (length ds)) +:+ " disks on machine " +:+ quote (km_Name m) +:+
               "; refusing an ambiguous claim")
  end.

(** The machine is returned with the storage report that made it one. *)
Definition identify (c : FrameDiskClaim) : St W (result string (ClaimMachine * MachineStorage * time * ObservedDisk)) :=
  if bool_decide (trim_space (cl_Serial (cl_Spec c)) = "") then
    mret (inl "spec.serial is empty: the retyped serial is the confirmation, and an empty one confirms nothing")
  else if negb (has_prefix "/dev/disk/by-id/" (cl_ByIDPath (cl_Spec c))) then
    mret (inl ("spec.byIDPath " +:+ quote (cl_ByIDPath (cl_Spec c)) +:+ " is not under /dev/disk/by-id: sdX ordering changes across boots"))
  else
    r ← get_claim_machine (cl_Namespace c, cl_MachineRef (cl_Spec c));
    mret (match r with
          | inl e => inl ("reading FrameMachine " +:+ quote (cl_MachineRef (cl_Spec c)) +:+ ": " +:+ err_text e)
          | inr m =>
            match km_Storage m with
            | Some st =>
              match ms_ObservedAt st with
              | Some at_ => match disk_of c m st with inl e => inl e | inr d => inr (m, st, at_, d) end
              | None => inl ("machine " +:+ quote (km_Name m) +:+ " has never reported its disks: not knowing is not an authorisation")
              end
            | None => inl ("machine " +:+ quote (km_Name m) +:+ " has never reported its disks: not knowing is not an authorisation")
            end
          end).

(** [d.Truncate(time.Second)]. *)
Definition truncate_second (d : Z) : Z := d - Z.rem d second.

Definition authoriseDestruction (m : ClaimMachine) (observedAt : time) (d : ObservedDisk) : St W (option string) :=
  now ← claim_now;
  let age := sub now observedAt in
  mret (if observationMaxAge <? age then
          Some ("machine " +:+ quote (km_Name m) +:+ "'s disk report is stale (" +:+ duration_string (truncate_second age) +:+ " old, limit " +:+
                duration_string observationMaxAge +:+ ")")
        else if bool_decide (od_Occupancy d <> "free") then
          Some ("disk " +:+ od_Path d +:+ " is " +:+ od_Occupancy d +:+ "; a claim destroys data and only proceeds on a free disk")
        else None).

Definition put_generation (g : Z) (k : Condition) : Condition := mkCondition (c_Type k) (c_Status k) (c_Reason k) (c_Message k) g.

Definition setPhase (c : FrameDiskClaim) (phase claimUID msg : string) (conditions : list Condition) : St W (result apierr FrameDiskClaim) :=
  now ← claim_now;
  patch_claim_status c (with_claim_status c (mkClaimStatus phase claimUID msg (Some now)
    (foldl add_condition (cl_Conditions (cl_Status c)) (map (put_generation (cl_Generation c)) conditions)))).

(** The error of a function that only returns one. *)
Definition just_error {A} (m : St W (result apierr A)) : St W (option apierr) :=
  r ← m; mret (match r with inl e => Some e | inr _ => None end).

Definition fail (c : FrameDiskClaim) (msg : string) : St W (option apierr) :=
  just_error (setPhase c diskClaimPhaseFailed (cl_ClaimUID (cl_Status c)) msg []).
Definition succeed (c : FrameDiskClaim) (claimUID msg : string) (conditions : list Condition) : St W (option apierr) :=
  just_error (setPhase c diskClaimPhaseReady claimUID msg conditions).

Definition recorded (msg : string) : Condition := mkCondition conditionCompletionRecorded "True" "Recorded" msg 0.

(** The destructive half, from the patch to Claiming on. *)
Definition claim_disk (c : FrameDiskClaim) (d : ObservedDisk) : St W (option apierr) :=
  let claimUID := cl_UID c in
  r ← setPhase c "Claiming" claimUID ("claiming " +:+ od_Path d) [];
  match r with
  | inl e => mret (Some e)
  | inr c =>
    e ← Wiper_Claim (cl_MachineRef (cl_Spec c)) (od_Path d) claimUID (cl_Destination (cl_Spec c));
    match e with
    | Some err =>
      s ← setPhase c "Claiming" claimUID ("claim of " +:+ od_Path d +:+ " did not complete cleanly: " +:+ err) [];
      mret (match s with
            | inl serr => Some serr
            | inr c => Some (plain_err ("claiming " +:+ od_Path d +:+ " on " +:+ cl_MachineRef (cl_Spec c) +:+ ": " +:+ err))
            end)
    | None =>
      k ← MarkComplete (cl_MachineRef (cl_Spec c)) (od_Path d) claimUID;
      let msg := od_Path d +:+ " claimed for " +:+ cl_Destination (cl_Spec c) in
      match k with
      | None => succeed c claimUID msg [recorded "the completion record was written on the machine"]
      | Some err => succeed c claimUID (msg +:+ "; the completion record could not be written: " +:+ err)
                      [mkCondition conditionCompletionRecorded "False" "MarkerWriteFailed" err 0]
      end
    end
  end.

(** The error Reconcile returns; it never asks for a requeue of its own. *)
Definition Reconcile (req : NamespacedName) : St W (option apierr) :=
  g ← get_disk_claim req;
  match g with
  | inl e => mret (ignore_not_found (Some e))
  | inr c =>
    if bool_decide (cl_Phase (cl_Status c) = diskClaimPhaseReady) || bool_decide (cl_Phase (cl_Status c) = diskClaimPhaseFailed) then mret None
    else
      i ← identify c;
      match i with
      | inl e => fail c e
      | inr (m, _, observedAt, d) =>
        let claimUID := cl_UID c in
        r ← ReadMarker (cl_MachineRef (cl_Spec c)) (od_Path d);
        match r with
        | inl e => mret (Some (plain_err ("reading the claim marker on " +:+ cl_MachineRef (cl_Spec c) +:+ ": " +:+ e)))
        | inr (existing, finished) =>
          if bool_decide (existing = claimUID) then
            if (finished : bool) then
              succeed c claimUID (od_Path d +:+ " claimed for " +:+ cl_Destination (cl_Spec c))
                [recorded "the completion record was read back from the machine on resume"]
            else fail c ("this claim already began claiming " +:+ od_Path d +:+ " and its completion is unconfirmed " +:+
                   "(the manager may have restarted, or a previous attempt's cleanup failed); the disk must be inspected before any retry")
          else if negb (bool_decide (existing = "")) then
            fail c ("disk " +:+ od_Path d +:+ " already carries claim marker " +:+ quote existing +:+ "; a second claim on a claimed disk is refused")
          else
            a ← authoriseDestruction m observedAt d;
            match a with
            | Some e => fail c e
            | None => claim_disk c d
            end
        end
      end
  end.
End Claim.

(** cmd/main.go's stand-in: every method errs. *)
Definition unconfigured : string := "destructive backend not configured: this build ships FrameDiskClaim's guards only".
Definition unconfigured_ReadMarker {W} (_machine _path : string) : St W (result string (string * bool)) := mret (inl unconfigured).
Definition unconfigured_Claim {W} (_machine _path _uid _destination : string) : St W (option string) := mret (Some unconfigured).
Definition unconfigured_MarkComplete {W} (_machine _path _uid : string) : St W (option string) := mret (Some unconfigured).
