(* ===== verification/DiskClaimSafety.v ===== *)
(** What the FrameDiskClaim controller guarantees: the evidence behind every
    destructive call and every Ready ([claims_justified]), and that, while no claim's
    reference is edited under the controller, no disk is destroyed twice
    ([disk_destroyed_once]); and runs on an in-memory server. *)
From stdpp Require Import base tactics strings sets relations list gmap.
From Stdlib Require Import ZArith Lia.
From S2P Require Import Prelude Trace GoLib GoTime Kube StorageTypes Alerting StorageAlerts SchedulingPolicy DiskClaim.

Open Scope Z_scope.

(** ** Calls *)

Inductive dcall :=
| DGet (n : NamespacedName) (r : result apierr FrameDiskClaim)
| DMachine (n : NamespacedName) (r : result apierr ClaimMachine)
| DPatch (old new : FrameDiskClaim) (r : result apierr FrameDiskClaim)
| DNow (t : time)
| DRead (machine path : string) (r : result string (string * bool))
| DClaim (machine path uid destination : string) (r : option string)
| DMark (machine path uid : string) (r : option string).

Class TracedClaims (W : Type) `{CW : ClaimWorld W} := {
  calls : W -> list dcall;
  d_get n w : calls (get_disk_claim n w).2 = calls w ++ [DGet n (get_disk_claim n w).1];
  d_machine n w : calls (get_claim_machine n w).2 = calls w ++ [DMachine n (get_claim_machine n w).1];
  d_patch o n w : calls (patch_claim_status o n w).2 = calls w ++ [DPatch o n (patch_claim_status o n w).1];
  d_now w : calls (claim_now w).2 = calls w ++ [DNow (claim_now w).1];
  d_read m p w : calls (ReadMarker m p w).2 = calls w ++ [DRead m p (ReadMarker m p w).1];
  d_claim m p u d w : calls (Wiper_Claim m p u d w).2 = calls w ++ [DClaim m p u d (Wiper_Claim m p u d w).1];
  d_mark m p u w : calls (MarkComplete m p u w).2 = calls w ++ [DMark m p u (MarkComplete m p u w).1]
}.

(** [d] is the one disk of a list that has this serial. *)
Definition sole_disk (serial : string) (ds : list ObservedDisk) (d : ObservedDisk) : Prop :=
  exists l1 l2, ds = (l1 ++ d :: l2)%list /\ od_SerialNumber d = serial /\ Forall (fun x => od_SerialNumber x <> serial) (l1 ++ l2).

(** The claim [c] was read, is not over, and names by its path and its serial
    the one disk [d] of its machine's report. *)
Definition identified (pre : list dcall) (c : FrameDiskClaim) (m : ClaimMachine) (observedAt : time) (d : ObservedDisk) : Prop :=
  (exists n, DGet n (inr c) ∈ pre) /\
  cl_Phase (cl_Status c) <> "Ready" /\ cl_Phase (cl_Status c) <> "Failed" /\
  trim_space (cl_Serial (cl_Spec c)) <> "" /\ (exists rest, cl_ByIDPath (cl_Spec c) = "/dev/disk/by-id/" +:+ rest) /\
  DMachine (cl_Namespace c, cl_MachineRef (cl_Spec c)) (inr m) ∈ pre /\
  exists st, km_Storage m = Some st /\ ms_ObservedAt st = Some observedAt /\
    sole_disk (cl_Serial (cl_Spec c)) (ms_Observed st) d /\ od_Path d = cl_ByIDPath (cl_Spec c).

(** A disk may be destroyed: a claim [c] identified one, whose marker was read and is
    nobody's, whose report is fresh and says it is free, and the server answered the patch of [c]
    to Claiming with [c']. The machine and the destination are those of [c'], which are those
    of [c] when nobody edited the spec between the read and the patch. *)
Definition may_destroy (pre : list dcall) (machine path uid destination : string) : Prop :=
  exists c m observedAt d t c' new finished, identified pre c m observedAt d /\
    DRead (cl_MachineRef (cl_Spec c)) (od_Path d) (inr ("", finished)) ∈ pre /\
    DNow t ∈ pre /\ sub t observedAt <= 5 * 60 * 10 ^ 9 /\ od_Occupancy d = "free" /\
    DPatch c new (inr c') ∈ pre /\ cl_Phase (cl_Status new) = "Claiming" /\
    uid = cl_UID c /\ uid <> "" /\ path = od_Path d /\ machine = cl_MachineRef (cl_Spec c') /\ destination = cl_Destination (cl_Spec c').

Definition dmay (pre : list dcall) (x : dcall) : Prop :=
  match x with
  | DClaim machine path uid destination _ => may_destroy pre machine path uid destination
  | DMark machine path uid _ => exists destination, DClaim machine path uid destination None ∈ pre
  | DPatch _ new _ => cl_Phase (cl_Status new) = "Ready" ->
      (exists machine path destination, DClaim machine path (cl_ClaimUID (cl_Status new)) destination None ∈ pre) \/
      (exists machine path, DRead machine path (inr (cl_ClaimUID (cl_Status new), true)) ∈ pre)
  | _ => True
  end.

Section Safety.
Context {W : Type} {CW : ClaimWorld W} {TC : TracedClaims W}.

Abbreviation emits := (Trace.emits calls).
Abbreviation emits_ret := (Trace.emits_ret calls).
Abbreviation emits_bind := (Trace.emits_bind calls).
Abbreviation emits_call := (Trace.emits_call calls).
Abbreviation emits_mono := (Trace.emits_mono calls).

Abbreviation goes := (Trace.goes calls dmay).
Abbreviation goes_ret := (Trace.goes_ret calls dmay).
Abbreviation goes_call := (Trace.goes_call calls dmay).
Abbreviation goes_bind := (Trace.goes_bind calls dmay).

(** The patch of a status, at the instant the clock shows. *)
Lemma emits_setPhase c phase uid msg cs : emits (setPhase c phase uid msg cs) (fun r t' =>
  exists now new, t' = [DNow now; DPatch c new r] /\ cl_Phase (cl_Status new) = phase /\ cl_ClaimUID (cl_Status new) = uid).
Proof.
  unfold setPhase. eapply emits_call; [intros; apply d_now|]. intros now.
  set (new := with_claim_status _ _). eapply emits_mono.
  { apply (Trace.emits_op _ _ (fun r => [DPatch c new r])). intros. apply d_patch. }
  intros r t' ->. by exists now, new.
Qed.

(** Why a claim may be recorded Ready. *)
Definition ready_evidence (t : list dcall) (uid : string) : Prop :=
  (exists machine path destination, DClaim machine path uid destination None ∈ t) \/ (exists machine path, DRead machine path (inr (uid, true)) ∈ t).

Lemma justified_phase t c new r now : (cl_Phase (cl_Status new) = diskClaimPhaseReady -> ready_evidence t (cl_ClaimUID (cl_Status new))) ->
  justified dmay t [DNow now; DPatch c new r].
Proof.
  intros H. split; [done|]. split; [|done]. intros Hp. destruct (H Hp) as [(m & p & d & Hc)|(m & p & Hc)].
  - left. exists m, p, d. set_solver.
  - right. exists m, p. set_solver.
Qed.

(** A status patch and its error are the last calls of a pass. *)
Lemma goes_setPhase t c phase uid msg cs : (phase = diskClaimPhaseReady -> ready_evidence t uid) -> goes t (just_error (setPhase c phase uid msg cs)).
Proof.
  intros H. eapply goes_bind; [apply emits_setPhase|]. intros r t' (now & new & -> & Hp & Hu).
  split; [|apply goes_ret]. apply justified_phase. by rewrite Hp, Hu.
Qed.

Lemma goes_fail t c msg : goes t (fail c msg).
Proof. by apply goes_setPhase. Qed.
Lemma goes_succeed t c uid msg cs : ready_evidence t uid -> goes t (succeed c uid msg cs).
Proof. intros H. by apply goes_setPhase. Qed.

Lemma goes_claim t c d : (forall c' new, cl_Phase (cl_Status new) = "Claiming" ->
    forall t', t ⊆ t' -> DPatch c new (inr c') ∈ t' -> may_destroy t' (cl_MachineRef (cl_Spec c')) (od_Path d) (cl_UID c) (cl_Destination (cl_Spec c'))) ->
  goes t (claim_disk c d).
Proof.
  intros Hd. unfold claim_disk. cbv zeta. eapply goes_bind; [apply emits_setPhase|]. intros r t' (now & new & -> & Hp & Hu).
  split; [apply justified_phase; by rewrite Hp|]. destruct r as [e|c']; [apply goes_ret|].
  eapply goes_call; [intros; apply d_claim| |].
  { intros a. apply (Hd c' new Hp); set_solver. }
  intros [err|].
  - eapply goes_bind; [apply emits_setPhase|]. intros r t' (now' & new' & -> & Hp' & Hu'). split; [apply justified_phase; by rewrite Hp'|apply goes_ret].
  - eapply goes_call; [intros; apply d_mark| |].
    { intros a. exists (cl_Destination (cl_Spec c')). set_solver. }
    intros k. destruct k; apply goes_succeed; left; eexists _, _, _; rewrite !elem_of_app; left; right; apply list_elem_of_here.
Qed.

(** A machine's one disk of a serial, as [identify] answers it. *)
Lemma filter_sole (f : ObservedDisk -> bool) l d : List.filter f l = [d] -> exists l1 l2, l = (l1 ++ d :: l2)%list /\ f d = true /\ Forall (fun x => f x = false) (l1 ++ l2).
Proof.
  induction l as [|x l IH]; [done|]. cbn. destruct (f x) eqn:E.
  - intros [= -> Hn]. exists [], l. split; [done|]. split; [done|]. apply Forall_forall. intros y Hy. apply not_true_iff_false. intros Hf.
    assert (y ∈ List.filter f l) as H by (apply list_elem_of_In, filter_In; by rewrite <- list_elem_of_In). rewrite Hn in H. by apply not_elem_of_nil in H.
  - intros (l1 & l2 & -> & Hf & Hr)%IH. exists (x :: l1), l2. split; [done|]. split; [done|]. by constructor.
Qed.
Lemma matching_spec serial x : serial <> "" -> matching serial x = true <-> od_SerialNumber x = serial.
Proof.
  intros Hs. unfold matching. rewrite andb_true_iff, negb_true_iff, bool_decide_eq_false, bool_decide_eq_true. split; [tauto|]. intros H. split; [by rewrite H|done].
Qed.
Lemma disk_of_spec c m st d : cl_Serial (cl_Spec c) <> "" -> disk_of c m st = inr d ->
  sole_disk (cl_Serial (cl_Spec c)) (ms_Observed st) d /\ od_Path d = cl_ByIDPath (cl_Spec c).
Proof.
  intros Hs. unfold disk_of. cbv zeta. destruct (List.filter _ _) as [|x [|? ?]] eqn:Ef; try done. case_bool_decide as E; [done|]. intros [= <-].
  split; [|by destruct (decide (od_Path x = cl_ByIDPath (cl_Spec c)))]. apply filter_sole in Ef as (l1 & l2 & E' & Hf & Hr). exists l1, l2. split; [done|].
  split; [by apply matching_spec in Hf|]. eapply Forall_impl; [exact Hr|]. intros y Hy H%matching_spec; [congruence|done].
Qed.
Lemma emits_identify c : emits (identify c) (fun r t' => justified dmay [] t' /\ (forall pre, justified dmay pre t') /\
  forall m st at_ d, r = inr (m, st, at_, d) ->
    trim_space (cl_Serial (cl_Spec c)) <> "" /\ (exists rest, cl_ByIDPath (cl_Spec c) = "/dev/disk/by-id/" +:+ rest) /\
    DMachine (cl_Namespace c, cl_MachineRef (cl_Spec c)) (inr m) ∈ t' /\ km_Storage m = Some st /\ ms_ObservedAt st = Some at_ /\
    sole_disk (cl_Serial (cl_Spec c)) (ms_Observed st) d /\ od_Path d = cl_ByIDPath (cl_Spec c)).
Proof.
  unfold identify. destruct (decide (trim_space (cl_Serial (cl_Spec c)) = "")) as [E|E]; [rewrite bool_decide_true by done|rewrite bool_decide_false by done].
  { by apply emits_ret. }
  destruct (has_prefix _ _) eqn:Ep; cbn [negb]; [|by apply emits_ret].
  eapply emits_call; [intros; apply d_machine|]. intros [e|m]; apply emits_ret; (split; [done|]); (split; [done|]); [done|].
  intros m' st at_ d H. destruct (km_Storage m) as [st'|] eqn:Es; [|done]. destruct (ms_ObservedAt st') as [at'|] eqn:Ea; [|done].
  destruct (disk_of c m st') as [e|d'] eqn:Ed; simplify_eq. apply disk_of_spec in Ed as [Hf Hpath]; [|by intros H0; rewrite H0 in E].
  split; [done|]. split; [by apply has_prefix_spec|]. split; [apply list_elem_of_here|]. by repeat split.
Qed.

Lemma emits_authorise m at_ d : emits (authoriseDestruction m at_ d) (fun r t' =>
  exists now, t' = [DNow now] /\ (r = None -> sub now at_ <= 5 * 60 * 10 ^ 9 /\ od_Occupancy d = "free")).
Proof.
  unfold authoriseDestruction. eapply emits_call; [intros; apply d_now|]. intros now. apply emits_ret. exists now. split; [done|].
  destruct (_ <? _) eqn:E; [done|]. bool_to_prop. case_bool_decide as Eo; [done|]. intros _. split; [done|].
  by destruct (decide (od_Occupancy d = "free")).
Qed.

Lemma pass_goes req : goes [] (Reconcile req).
Proof.
  unfold Reconcile. eapply goes_call; [intros; apply d_get|done|]. intros [e|c]; [apply goes_ret|].
  destruct (bool_decide (cl_Phase (cl_Status c) = diskClaimPhaseReady) || _) eqn:Et; [apply goes_ret|]. bool_to_prop.
  eapply goes_bind; [apply emits_identify|]. intros i t (_ & Hj & Hi). split; [apply Hj|]. destruct i as [e|[[[m st] at_] d]]; [apply goes_fail|].
  destruct (Hi _ _ _ _ eq_refl) as (Hser & Hpre & Hm & Hst & Hat & Hf & Hpath). cbv zeta.
  eapply goes_call; [intros; apply d_read|done|]. intros [e|[existing finished]]; [apply goes_ret|].
  destruct (decide (existing = cl_UID c)) as [->|Hne]; [rewrite bool_decide_true by done|rewrite bool_decide_false by done].
  { destruct finished; [|apply goes_fail]. apply goes_succeed. right. eexists _, _. rewrite !elem_of_app. right. apply list_elem_of_here. }
  destruct (decide (existing = "")) as [->|Hx]; [rewrite bool_decide_true by done|rewrite bool_decide_false by done; apply goes_fail]. cbn [negb].
  eapply goes_bind; [apply emits_authorise|]. intros a t' (now & -> & Ha). split; [done|]. destruct a as [e|]; [apply goes_fail|].
  destruct (Ha eq_refl) as [Hage Hfree]. apply goes_claim. intros c' new Hp t'' Hs Hpatch.
  exists c, m, at_, d, now, c', new, finished. split.
  { split; [exists req; apply Hs; set_solver|]. repeat (split; [done|]). split; [apply Hs; set_solver|]. by exists st. }
  split; [apply Hs; set_solver|]. split; [apply Hs; set_solver|]. by repeat split.
Qed.

(** C13. Wiper.Claim is called only for a claim that was read not over, whose retyped
    serial is that of exactly one disk of its machine's report, at the by-id path
    the claim names, when the marker of that machine for that path was read and is
    nobody's, the report is at most five minutes old and says the disk is free,
    and the server answered the patch of that claim to Claiming; it is called with that path, for the
    machine and the destination of the claim as that answer has it, which are not
    those of the evidence when the spec was edited in between
    ([edited_claim_destroys_elsewhere]). Completion is only recorded on the
    machine after the work succeeded, and Ready only after that or on reading
    that record back. *)
Theorem claims_justified req w : exists t, calls (Reconcile req w).2 = (calls w ++ t)%list /\ justified dmay [] t.
Proof. apply (pass_goes req w). Qed.
End Safety.

(** ** At most once *)

(** The machine's markers and the destructive works begun, per machine and path.
    Claim writes its marker before it works, so a failed one either did neither
    or left the marker; reads are truthful; nothing else writes either. A pass
    that is cut off is one whose remaining calls fail without effect. *)
Class WiperLaws (W : Type) `{CW : ClaimWorld W} := {
  marker : W -> string * string -> option (string * bool);
  begun : W -> string * string -> nat;
  same (w w' : W) : Prop := forall k, marker w' k = marker w k /\ begun w' k = begun w k;
  get_same n w : same w (get_disk_claim n w).2;
  machine_same n w : same w (get_claim_machine n w).2;
  patch_same o n w : same w (patch_claim_status o n w).2;
  now_same w : same w (claim_now w).2;
  read_same m p w : same w (ReadMarker m p w).2;
  read_truth m p w u b : (ReadMarker m p w).1 = inr (u, b) -> marker w (m, p) = if bool_decide (u = "") then None else Some (u, b);
  claim_marks m p u d w : let w' := (Wiper_Claim m p u d w).2 in
    same w w' \/
    (marker w' (m, p) = Some (u, false) /\ begun w' (m, p) = S (begun w (m, p)) /\
     forall k, k <> (m, p) -> marker w' k = marker w k /\ begun w' k = begun w k);
  mark_adds m p u w k : begun (MarkComplete m p u w).2 k = begun w k /\ (is_Some (marker w k) -> is_Some (marker (MarkComplete m p u w).2 k))
}.

Section Once.
Context {W : Type} {CW : ClaimWorld W} {TC : TracedClaims W} {WL : WiperLaws W}.

(** A disk is destroyed at most once, and is marked from then on. *)
Definition once (w : W) : Prop := forall k, (begun w k <= 1)%nat /\ (begun w k = 1%nat -> is_Some (marker w k)).
(** ... and [k] is not marked yet. *)
Definition unmarked (k : string * string) (w : W) : Prop := once w /\ marker w k = None.

Definition keeps {A} (P : W -> Prop) (m : St W A) : Prop := forall w, P w -> P (m w).2.

Lemma same_once w w' : same w w' -> once w -> once w'.
Proof. intros Hs Ho k. destruct (Hs k) as [-> ->]. apply Ho. Qed.
Lemma same_unmarked k w w' : same w w' -> unmarked k w -> unmarked k w'.
Proof. intros Hs [Ho Hm]. split; [by eapply same_once|]. by rewrite (proj1 (Hs k)). Qed.

Lemma claim_once m p u d w : unmarked (m, p) w -> once (Wiper_Claim m p u d w).2.
Proof.
  intros [Ho Hn]. destruct (claim_marks m p u d w) as [Hs|(Hm & Hb & Hr)]; [by eapply same_once|]. intros k.
  destruct (decide (k = (m, p))) as [->|Hk]; [|destruct (Hr k Hk) as [-> ->]; apply Ho].
  rewrite Hm, Hb. split; [|by eauto]. destruct (Ho (m, p)) as [H1 H2]. destruct (begun w (m, p)) as [|[|n]]; [lia| |lia].
  destruct (H2 eq_refl) as [x Hx]. by rewrite Hn in Hx.
Qed.

Lemma mark_once m p u w : once w -> once (MarkComplete m p u w).2.
Proof. intros Ho k. destruct (mark_adds m p u w k) as [-> Hk]. destruct (Ho k) as [H1 H2]. split; [done|auto]. Qed.

Lemma setPhase_same c phase uid msg cs w : same w (setPhase c phase uid msg cs w).2.
Proof.
  unfold setPhase. rewrite St_bind_run. intros k. destruct (now_same w k) as [<- <-]. apply patch_same.
Qed.
Lemma phase_once c phase uid msg cs : keeps once (just_error (setPhase c phase uid msg cs)).
Proof. intros w Hw. unfold just_error. rewrite St_bind_run. by eapply same_once; [apply setPhase_same|]. Qed.

(** The calls an operation makes from a state. *)
Definition made {A} (m : St W A) (w : W) (t : list dcall) : Prop := calls (m w).2 = (calls w ++ t)%list.
Lemma made_bind {A B} (m : St W A) (k : A -> St W B) w t t' : made m w t -> made (k (m w).1) (m w).2 t' -> made (m ≫= k) w (t ++ t').
Proof. unfold made. intros H1 H2. rewrite St_bind_run, H2, H1. by rewrite (assoc_L (++)). Qed.

(** No patch is answered with another machineRef than that of the claim it was computed from. *)
Definition refs_kept (t : list dcall) : Prop := forall old new c', DPatch old new (inr c') ∈ t -> cl_MachineRef (cl_Spec c') = cl_MachineRef (cl_Spec old).

Lemma refs_kept_app t t' : refs_kept (t ++ t') -> refs_kept t'.
Proof. intros H old new c' Hin. apply (H old new c'). apply elem_of_app. by right. Qed.

Lemma setPhase_made c phase uid msg cs w : exists now new, made (setPhase c phase uid msg cs) w [DNow now; DPatch c new (setPhase c phase uid msg cs w).1].
Proof. destruct (emits_setPhase c phase uid msg cs w) as (t & Ht & now & new & -> & _). by exists now, new. Qed.
Lemma claim_disk_once c d w : unmarked (cl_MachineRef (cl_Spec c), od_Path d) w ->
  (forall t, made (claim_disk c d) w t -> refs_kept t) -> once (claim_disk c d w).2.
Proof.
  intros Hu. unfold claim_disk. cbv zeta. set (first := setPhase c "Claiming" (cl_UID c) _ []). set (k := fun r : result apierr FrameDiskClaim => _).
  intros Hkept. rewrite St_bind_run. destruct (setPhase_made c "Claiming" (cl_UID c) ("claiming " +:+ od_Path d) [] w) as (now & new & Hm). fold first in Hm.
  assert (unmarked (cl_MachineRef (cl_Spec c), od_Path d) (first w).2) as Hu1 by (eapply same_unmarked; [apply setPhase_same|done]).
  assert (forall x, Trace.emits calls (k x) (fun _ _ => True)) as Hex.
  { intros [e|c']; [by apply Trace.emits_ret|]. unfold k. eapply Trace.emits_call; [intros; apply d_claim|]. intros [err|].
    - eapply Trace.emits_bind; [apply emits_setPhase|]. intros. by apply Trace.emits_ret.
    - eapply Trace.emits_call; [intros; apply d_mark|]. intros [err|]; unfold succeed, just_error; (eapply Trace.emits_bind; [apply emits_setPhase|]); intros; by apply Trace.emits_ret. }
  destruct (Hex (first w).1 (first w).2) as (t' & Hk & _).
  specialize (Hkept _ (made_bind _ _ _ _ _ Hm Hk)). clear Hk. unfold k. destruct (first w).1 as [e|c'] eqn:Ec; [apply Hu1|].
  assert (cl_MachineRef (cl_Spec c') = cl_MachineRef (cl_Spec c)) as Er by (apply (Hkept c new c'); rewrite !elem_of_app; left; right; apply list_elem_of_here).
  rewrite St_bind_run, Er. pose proof (claim_once (cl_MachineRef (cl_Spec c)) (od_Path d) (cl_UID c) (cl_Destination (cl_Spec c')) _ Hu1) as Ho.
  destruct (Wiper_Claim _ _ _ _ _) as [r w2]. cbn [fst snd] in *. destruct r as [err|].
  - rewrite St_bind_run. by eapply same_once; [apply setPhase_same|].
  - rewrite St_bind_run. pose proof (mark_once (cl_MachineRef (cl_Spec c)) (od_Path d) (cl_UID c) w2 Ho) as Ho3.
    destruct (MarkComplete _ _ _ w2) as [km w3]. cbn [fst snd] in *. destruct km; by apply phase_once.
Qed.

Lemma identify_same c w : same w (identify c w).2.
Proof.
  unfold identify. destruct (bool_decide _); [by intros k|]. destruct (negb _); [by intros k|]. rewrite St_bind_run. apply machine_same.
Qed.
Lemma authorise_same m at_ d w : same w (authoriseDestruction m at_ d w).2.
Proof. unfold authoriseDestruction. rewrite St_bind_run. apply now_same. Qed.

Lemma pass_once req w : once w -> (forall t, made (Reconcile req) w t -> refs_kept t) -> once (Reconcile req w).2.
Proof.
  intros Hw. unfold Reconcile. set (k0 := fun g : result apierr FrameDiskClaim => _). intros Hk. rewrite St_bind_run. pose proof (same_once _ _ (get_same req w) Hw) as H1.
  assert (forall t, made (k0 (get_disk_claim req w).1) (get_disk_claim req w).2 t -> refs_kept t) as Hk1 by (intros t Ht; eapply refs_kept_app, Hk, made_bind; [apply d_get|exact Ht]). clear Hk.
  destruct (get_disk_claim req w) as [[e|c] w1]; cbn [fst snd] in *; [done|]. unfold k0 in *. destruct (_ || _); [done|]. clear k0.
  match goal with |- context [identify c ≫= ?k] => set (k1 := k) in * end. rewrite St_bind_run. pose proof (same_once _ _ (identify_same c w1) H1) as H2.
  assert (forall t, made (k1 (identify c w1).1) (identify c w1).2 t -> refs_kept t) as Hk2.
  { destruct (emits_identify c w1) as (ti & Hti & _). intros t Ht. eapply refs_kept_app, Hk1, made_bind; [exact Hti|exact Ht]. }
  destruct (identify c w1) as [i w2]; cbn [fst snd] in *. unfold k1 in *. clear k1 Hk1.
  destruct i as [e|[[[m st] at_] d]]; [by apply phase_once|]. cbv zeta in *.
  match goal with |- context [ReadMarker ?a ?b ≫= ?k] => set (k2 := k) in * end. rewrite St_bind_run.
  assert (forall t, made (k2 (ReadMarker (cl_MachineRef (cl_Spec c)) (od_Path d) w2).1) (ReadMarker (cl_MachineRef (cl_Spec c)) (od_Path d) w2).2 t -> refs_kept t) as Hk3
    by (intros t Ht; eapply refs_kept_app, Hk2, made_bind; [apply d_read|exact Ht]). clear Hk2.
  pose proof (same_once _ _ (read_same (cl_MachineRef (cl_Spec c)) (od_Path d) w2) H2) as H3.
  pose proof (read_truth (cl_MachineRef (cl_Spec c)) (od_Path d) w2) as Ht. pose proof (read_same (cl_MachineRef (cl_Spec c)) (od_Path d) w2) as Hs.
  destruct (ReadMarker _ _ w2) as [r w3]; cbn [fst snd] in *. unfold k2 in *. clear k2. destruct r as [e|[existing finished]]; [done|].
  destruct (bool_decide (existing = cl_UID c)); [destruct finished; by apply phase_once|].
  destruct (decide (existing = "")) as [->|Hx]; [rewrite bool_decide_true in * by done|rewrite bool_decide_false by done; by apply phase_once]. cbn [negb] in *.
  assert (unmarked (cl_MachineRef (cl_Spec c), od_Path d) w3) as Hu. { split; [done|]. rewrite (proj1 (Hs _)). by rewrite (Ht _ _ eq_refl). }
  match goal with |- context [authoriseDestruction m at_ d ≫= ?k] => set (k3 := k) in * end.
  rewrite St_bind_run. pose proof (same_unmarked _ _ _ (authorise_same m at_ d w3) Hu) as Hu4.
  assert (forall t, made (k3 (authoriseDestruction m at_ d w3).1) (authoriseDestruction m at_ d w3).2 t -> refs_kept t) as Hk4.
  { destruct (emits_authorise m at_ d w3) as (ta & Hta & _). intros t Ht'. eapply refs_kept_app, Hk3, made_bind; [exact Hta|exact Ht']. }
  destruct (authoriseDestruction m at_ d w3) as [a w4]; cbn [fst snd] in *. unfold k3 in *. destruct a; [apply phase_once, Hu4|by apply claim_disk_once].
Qed.

(** A pass over some claim whose machineRef is not edited under it, or anything else that removes no marker and destroys
    nothing: another actor, a restart of the manager. *)
Inductive cstep : W -> W -> Prop :=
| c_pass req w : (forall t, calls (Reconcile req w).2 = (calls w ++ t)%list -> refs_kept t) -> cstep w (Reconcile req w).2
| c_other w w' : (forall k, begun w' k = begun w k /\ (is_Some (marker w k) -> is_Some (marker w' k))) -> cstep w w'.

Lemma steps_once w w' : rtc cstep w w' -> once w -> once w'.
Proof.
  induction 1 as [w|w w1 w' Hs _ IH]; [done|]. intros Ho. apply IH. destruct Hs as [req w Hk|w w1 He]; [by apply pass_once|].
  intros j. destruct (He j) as [-> Hm]. destruct (Ho j) as [H1 H2]. split; [done|auto].
Qed.

(** C14. However many claims name a disk, however often their passes are repeated,
    cut off or lose their status writes, destructive work is begun on it at most
    once, as long as no pass has the machineRef of its claim edited between its read and
    its status patches, and the wiper writes its marker before it works. *)
Theorem disk_destroyed_once w w' k : once w -> rtc cstep w w' -> (begun w' k <= 1)%nat.
Proof. intros Ho H. apply (steps_once w w' H Ho). Qed.
End Once.

(** * Runs on an in-memory machine: witnesses, and one that shows why the claim's spec must
    hold still *)

Record world := mkWorld {
  log : list dcall; the_claim : FrameDiskClaim; marks : gmap (string * string) (string * bool); works : gmap (string * string) nat
}.
Definition note (x : dcall) (w : world) : world := mkWorld (log w ++ [x]) (the_claim w) (marks w) (works w).

Definition disk : ObservedDisk :=
  mkObservedDisk "/dev/disk/by-id/ata-X_S1" "S1" 1000 "free" "" "" "" None "" "" [] None.
Definition report : MachineStorage := mkMachineStorage [disk] [] (Some (Time (100 * second) 0)) None.
Definition noon : time := Time (200 * second) 0.

(** Every machine makes the same report. A patch stores the new status; where
    [edit] is given, someone has edited the spec meanwhile. *)
Definition run_world (edit : option FrameDiskClaimSpec) : ClaimWorld world := {|
  get_disk_claim := fun n w => (inr (the_claim w), note (DGet n (inr (the_claim w))) w);
  get_claim_machine := fun n w => let r := inr (mkClaimMachine n.2 (Some report)) in (r, note (DMachine n r) w);
  patch_claim_status := fun o n w =>
    let c := match edit with
             | Some s => mkClaim (cl_Namespace n) (cl_Name n) (cl_UID n) (cl_Generation n) s (cl_Status n)
             | None => with_claim_status o (cl_Status n)
             end in
    (inr c, note (DPatch o n (inr c)) (mkWorld (log w) c (marks w) (works w)));
  claim_now := fun w => (noon, note (DNow noon) w);
  add_condition := fun cs c => c :: List.filter (fun x => negb (bool_decide (c_Type x = c_Type c))) cs;
  ReadMarker := fun m p w =>
    let r := match marks w !! (m, p) with Some (u, b) => if bool_decide (u = "") then inl "corrupt" else inr (u, b) | None => inr ("", false) end in
    (r, note (DRead m p r) w);
  Wiper_Claim := fun m p u d w =>
    (None, note (DClaim m p u d None)
      (mkWorld (log w) (the_claim w) (<[(m, p) := (u, false)]> (marks w)) (<[(m, p) := S (default O (works w !! (m, p)))]> (works w))));
  MarkComplete := fun m p u w => (None, note (DMark m p u None) (mkWorld (log w) (the_claim w) (<[(m, p) := (u, true)]> (marks w)) (works w)))
|}.

Definition quiet_world : ClaimWorld world := run_world None.
#[local] Existing Instance quiet_world.
#[local] Instance run_traced : TracedClaims world.
Proof. by refine {| calls := log |}. Defined.
#[local] Instance run_laws : WiperLaws world.
Proof.
  refine {| marker := fun w k => marks w !! k; begun := fun w k => default O (works w !! k) |}; try done.
  - intros m p w u b. cbn. destruct (marks w !! (m, p)) as [[u' b']|] eqn:E.
    + case_bool_decide as Eu; [done|]. intros [= -> ->]. by rewrite bool_decide_false.
    + intros [= <- <-]. done.
  - intros m p u d w. right. cbn. rewrite !lookup_insert_eq. split; [done|]. split; [done|]. intros k Hk. by rewrite !lookup_insert_ne.
  - intros m p u w k. cbn. split; [done|]. intros H. destruct (decide (k = (m, p))) as [->|Hk]; [rewrite lookup_insert_eq; eauto|by rewrite lookup_insert_ne].
Defined.

Definition claim1 : FrameDiskClaim :=
  mkClaim "frame" "c1" "uid-1" 1 (mkClaimSpec "m1" "/dev/disk/by-id/ata-X_S1" "S1" "wipe") (mkClaimStatus "" "" "" None []).
Definition start : world := mkWorld [] claim1 ∅ ∅.

(** A pass destroys the disk; its Ready is lost; the next pass reads the record
    back and does nothing more. *)
Definition forgotten (w : world) : world := mkWorld (log w) claim1 (marks w) (works w).
Definition first_pass : option apierr * world := Reconcile ("frame", "c1") start.
Definition resumed : option apierr * world := Reconcile ("frame", "c1") (forgotten first_pass.2).
Definition phase_of (w : world) : string := cl_Phase (cl_Status (the_claim w)).

Example resume_is_quiet :
  phase_of first_pass.2 = "Ready" /\ phase_of resumed.2 = "Ready" /\ works resumed.2 !! ("m1", "/dev/disk/by-id/ata-X_S1") = Some 1%nat /\
  length (List.filter (fun x => match x with DClaim _ _ _ _ _ => true | _ => false end) (log resumed.2)) = 1%nat.
Proof. vm_compute. repeat split; reflexivity. Qed.

Lemma claims_justified_witness :
  (exists t, calls (Reconcile ("frame", "c1") start).2 = (calls start ++ t)%list /\ justified dmay [] t) /\
  DClaim "m1" "/dev/disk/by-id/ata-X_S1" "uid-1" "wipe" None ∈ calls (Reconcile ("frame", "c1") start).2.
Proof.
  split; [apply claims_justified|]. apply list_elem_of_lookup_2 with (i := 6%nat). vm_compute. reflexivity.
Defined.

Definition kept_ref (x : dcall) : bool := match x with DPatch old _ (inr c') => bool_decide (cl_MachineRef (cl_Spec c') = cl_MachineRef (cl_Spec old)) | _ => true end.
Lemma kept_pass req w : forallb kept_ref (log (Reconcile req w).2) = true -> cstep w (Reconcile req w).2.
Proof.
  intros H. apply c_pass. intros t Ht old new c' Hin. rewrite forallb_forall in H. cbn [calls run_traced] in Ht. rewrite Ht in H.
  specialize (H (DPatch old new (inr c')) (proj1 (list_elem_of_In _ _) (proj2 (elem_of_app _ _ _) (or_intror Hin)))). by apply bool_decide_eq_true in H.
Qed.

Lemma disk_destroyed_once_witness :
  (begun resumed.2 ("m1", "/dev/disk/by-id/ata-X_S1") <= 1)%nat /\ begun resumed.2 ("m1", "/dev/disk/by-id/ata-X_S1") = 1%nat.
Proof.
  split; [|vm_compute; reflexivity]. apply (disk_destroyed_once start).
  - intros k. change ((0 <= 1)%nat /\ (0%nat = 1%nat -> is_Some (@None (string * bool)))). split; [lia|done].
  - eapply rtc_l; [apply (kept_pass ("frame", "c1")); vm_compute; reflexivity|]. eapply rtc_l; [apply (c_other _ (forgotten first_pass.2)); intros k; split; [done|by intros H]|].
    eapply rtc_l; [apply (kept_pass ("frame", "c1")); vm_compute; reflexivity|apply rtc_refl].
Defined.

(** The claim's machineRef is edited between the pass's read and its patch to
    Claiming: the disk that was identified, whose marker was read, is m1's, and
    the one that is destroyed is m2's. *)
Definition edited : FrameDiskClaimSpec := mkClaimSpec "m2" "/dev/disk/by-id/ata-X_S1" "S1" "wipe".
Theorem edited_claim_destroys_elsewhere :
  let w' := (@Reconcile world (run_world (Some edited)) ("frame", "c1") start).2 in
  map (fun x => match x with DMachine n _ => n.2 | DRead m _ _ => m | DClaim m _ _ _ _ => m | _ => "" end)
    (List.filter (fun x => match x with DMachine _ _ | DRead _ _ _ | DClaim _ _ _ _ _ => true | _ => false end) (log w')) = ["m1"; "m1"; "m2"] /\
  works w' !! ("m2", "/dev/disk/by-id/ata-X_S1") = Some 1%nat.
Proof. vm_compute. split; reflexivity. Qed.
