(* ===== verification/Relay.v ===== *)
(** The alert relay (internal/alerting/relay_controller.go and sender.go): one
    pass over a FrameAlert sends its state to every subscription it is due to,
    records what became of each, and deletes the alert once it is resolved,
    delivered everywhere and past retention.

    The API server, the token Secrets, the clock and net/http's client (which
    [NewSender] tells not to follow redirects) are the methods of [RelayWorld].
    The Prometheus counters are left out. *)
From stdpp Require Import base tactics strings list gmap.
From Stdlib Require Import ZArith Lia Ascii.
From S2P Require Import Prelude GoLib GoTime Kube GoJson Alerting StorageAlerts.

Open Scope Z_scope.

(** ** The objects *)

Record AlertDelivery := mkDelivery {
  ad_Subscription : string;
  ad_DeliveredState : string;
  ad_Attempts : Z;                          (* int32 *)
  ad_LastError : string;
  ad_LastAttemptAt : option time;
  ad_LastDeliveredAt : option time;
  ad_PermanentFailure : bool;
  ad_FailedState : string;
  ad_SubscriptionGeneration : Z;
  ad_Excluded : bool
}.
#[export] Instance AlertDelivery_eq : EqDecision AlertDelivery.
Proof. solve_decision. Defined.
Definition fresh_delivery (name : string) : AlertDelivery := mkDelivery name "" 0 "" None None false "" 0 false.

(** A FrameAlert with its metadata and the part of its status that is the
    relay's. *)
Record RelayAlert := mkRelayAlert {
  ra_Namespace : string;
  ra_Created : time;
  ra_ResourceVersion : string;
  ra_Alert : FrameAlert;
  ra_Deliveries : list AlertDelivery
}.
Definition with_deliveries (a : RelayAlert) (ds : list AlertDelivery) : RelayAlert :=
  mkRelayAlert (ra_Namespace a) (ra_Created a) (ra_ResourceVersion a) (ra_Alert a) ds.
Definition ra_State (a : RelayAlert) : string := fa_State (ra_Alert a).
Definition ra_EndsAt (a : RelayAlert) : option time := fas_EndsAt (fa_Spec (ra_Alert a)).

Record AlertTokenRef := mkTokenRef { tr_Name : string; tr_Key : string }.
Record FrameAlertSubscriptionSpec := mkSubSpec {
  ss_URL : string; ss_TokenSecretRef : AlertTokenRef; ss_Filter : AlertFilter; ss_Paused : bool
}.
Record FrameAlertSubscriptionStatus := mkSubStatus {
  ss_ObservedGeneration : Z; ss_LastSuccessAt : option time; ss_LastError : string; ss_PendingDeliveries : Z; ss_ComputedAt : option time
}.
Record FrameAlertSubscription := mkSubscription {
  sn_Namespace : string; sn_Name : string; sn_Generation : Z; sn_Created : time;
  sn_Spec : FrameAlertSubscriptionSpec; sn_Status : FrameAlertSubscriptionStatus
}.

(** A Secret: its labels and its data. *)
Record TokenSecret := mkTokenSecret { ts_Labels : strmap; ts_Data : strmap }.

(** ** sender.go *)

Inductive Outcome := Delivered | Retry | Permanent.
#[export] Instance Outcome_eq : EqDecision Outcome.
Proof. solve_decision. Defined.

Record HttpRequest := mkHttpRequest { hr_Method : string; hr_URL : string; hr_ContentType : string; hr_Authorization : string; hr_Body : string }.

Class RelayWorld (W : Type) := {
  relay_get : NamespacedName -> St W (result apierr RelayAlert);
  relay_subs : string -> St W (result apierr (list FrameAlertSubscription));
  relay_now : St W time;
  relay_patch : RelayAlert -> RelayAlert -> St W (result apierr RelayAlert);
  relay_delete : RelayAlert -> string -> St W (option apierr);
  relay_secret : NamespacedName -> St W (result apierr TokenSecret);
  url_error : string -> option string;                      (* http.NewRequest's refusal of a URL *)
  relay_do : HttpRequest -> St W (result string Z)          (* an error, or the status code *)
}.

(** [time.Time.MarshalJSON]. *)
Definition marshal_time (t : time) : result string json :=
  let '(y, _, _) := civil_of_days ((unix_nano t / second + zone t) / 86400) in
  if (y <? 0) || (9999 <? y) then inl "json: error calling MarshalJSON for type time.Time: Time.MarshalJSON: year outside of range [0,9999]"
  else if 24 * 3600 <=? Z.abs (zone t) then inl "json: error calling MarshalJSON for type time.Time: Time.MarshalJSON: timezone hour outside of range [0,23]"
  else inr (JStr (format_nano t)).

(** A map is written with its keys sorted. *)
Definition json_of_map (m : strmap) : json :=
  JObj (map (fun k => (k, JStr (default "" (m !! k)))) (sort_strings (map fst (map_to_list m)))).

Definition json_of_alert (a : Alert) : result string json :=
  match marshal_time (al_StartsAt a), marshal_time (al_EndsAt a) with
  | inl e, _ | _, inl e => inl e
  | inr s, inr e =>
    inr (JObj [("status", JStr (al_Status a)); ("labels", json_of_map (al_Labels a)); ("annotations", json_of_map (al_Annotations a));
               ("startsAt", s); ("endsAt", e); ("generatorURL", JStr (al_GeneratorURL a)); ("fingerprint", JStr (al_Fingerprint a))])
  end.

Fixpoint json_of_alerts (l : list Alert) : result string (list json) :=
  match l with
  | [] => inr []
  | a :: l' => match json_of_alert a with
               | inl e => inl e
               | inr j => match json_of_alerts l' with inl e => inl e | inr js => inr (j :: js) end
               end
  end.

(** [json.Marshal] of a Payload: status and receiver are omitempty. *)
Definition marshal_payload (p : Payload) : result string string :=
  match json_of_alerts (pl_Alerts p) with
  | inl e => inl e
  | inr js =>
    inr (of_bytes (print (JObj (("version", JStr (pl_Version p))
      :: (if bool_decide (pl_Status p = "") then [] else [("status", JStr (pl_Status p))])
      ++ (if bool_decide (pl_Receiver p = "") then [] else [("receiver", JStr (pl_Receiver p))])
      ++ [("alerts", JArr js)]))))
  end.

(** The maps of an alert are never nil here: nil and empty are one. *)
Definition buildPayload (receiver : string) (a : FrameAlert) (state : string) : Payload :=
  let resolved := bool_decide (state = AlertStateResolved) in
  let status := if resolved then StatusResolved else StatusFiring in
  let endsAt := if resolved then default zero_time (fas_EndsAt (fa_Spec a)) else zero_time in
  let s := fa_Spec a in
  mkPayload "4" status receiver
    [mkAlert status (fas_Labels s) (fas_Annotations s) (fas_StartsAt s) endsAt (fas_GeneratorURL s) (fas_Fingerprint s)].

Definition status_outcome (c : Z) : Outcome * option string :=
  if (200 <=? c) && (c <? 300) then (Delivered, None)
  else if (500 <=? c) || (c =? 408) || (c =? 429) then (Retry, Some ("HTTP " +:+ itoa c))
  else (Permanent, Some ("HTTP " +:+ itoa c)).

(** The loop of [Backoff], whose counter goes from [i] to [attempts]: seven
    doublings of five seconds pass ten minutes. *)
Fixpoint double_while (n : nat) (i attempts d : Z) : Z :=
  match n with
  | O => d
  | S n => if (i <? attempts) && (d <? 10 * minute) then double_while n (i + 1) attempts (d * 2) else d
  end.
Definition Backoff (attempts : Z) : Z :=
  if attempts <? 1 then 0 else Z.min (double_while 8 1 attempts (5 * second)) (10 * minute).

Definition add_time (t : time) (d : Z) : time := Time (unix_nano t + d) (zone t).

(** ** relay_controller.go *)

Definition AlertTokenLabel : string := "frame.plume-labs.io/alert-token".

Record RelayReconciler := mkRelay { rr_Namespace : string; rr_Retention : Z }.

Section Relay.
Context {W : Type} {RW : RelayWorld W}.

Definition Send (url token receiver : string) (a : FrameAlert) (state : string) : St W (Outcome * option string) :=
  match marshal_payload (buildPayload receiver a state) with
  | inl e => mret (Permanent, Some e)
  | inr body =>
    match url_error url with
    | Some e => mret (Permanent, Some e)
    | None =>
      r ← relay_do (mkHttpRequest "POST" url "application/json" ("Bearer " +:+ token) body);
      mret (match r with inl e => (Retry, Some e) | inr c => status_outcome c end)
    end
  end.

(** [true] marks errUnlabelledToken. *)
Definition token (sub : FrameAlertSubscription) : St W (result (bool * string) string) :=
  let ref := ss_TokenSecretRef (sn_Spec sub) in
  r ← relay_secret (sn_Namespace sub, tr_Name ref);
  mret (match r with
        | inl e => inl (false, err_text e)
        | inr s =>
          if bool_decide (default "" (ts_Labels s !! AlertTokenLabel) <> "true") then
            inl (true, "token Secret " +:+ tr_Name ref +:+ " is not labelled " +:+ AlertTokenLabel +:+ "=true")
          else match ts_Data s !! tr_Key ref with
               | Some v => if bool_decide (v = "") then inl (false, "secrets " +:+ quote (tr_Name ref +:+ "/" +:+ tr_Key ref) +:+ " not found") else inr v
               | None => inl (false, "secrets " +:+ quote (tr_Name ref +:+ "/" +:+ tr_Key ref) +:+ " not found")
               end
        end).

Definition fail (d : AlertDelivery) (out : Outcome) (err : option string) (state : string) (now : time) : AlertDelivery * Z :=
  let lastError := match err with Some e => truncate e 1024 | None => ad_LastError d end in
  if bool_decide (out = Permanent) then
    (mkDelivery (ad_Subscription d) (ad_DeliveredState d) (ad_Attempts d) lastError (Some now) (ad_LastDeliveredAt d) true state
       (ad_SubscriptionGeneration d) (ad_Excluded d), 0)
  else
    let n := wrap32 (ad_Attempts d + 1) in
    (mkDelivery (ad_Subscription d) (ad_DeliveredState d) n lastError (Some now) (ad_LastDeliveredAt d) (ad_PermanentFailure d) (ad_FailedState d)
       (ad_SubscriptionGeneration d) (ad_Excluded d), Backoff n).

(** What a successful send of [st] leaves. *)
Definition delivered (d : AlertDelivery) (st : string) (now : time) : AlertDelivery :=
  mkDelivery (ad_Subscription d) st 0 "" (Some now) (Some now) (ad_PermanentFailure d) (ad_FailedState d) (ad_SubscriptionGeneration d) false.

Fixpoint send_all (sub : FrameAlertSubscription) (tok : string) (fa : RelayAlert) (d : AlertDelivery) (state : string) (now : time)
    (sequence : list string) : St W (AlertDelivery * Z) :=
  match sequence with
  | [] => mret (d, 0)
  | st :: rest =>
    if bool_decide (ad_DeliveredState d = st) then send_all sub tok fa d state now rest
    else
      r ← Send (ss_URL (sn_Spec sub)) tok (sn_Name sub) (ra_Alert fa) st;
      if bool_decide (r.1 = Delivered) then send_all sub tok fa (delivered d st now) state now rest
      else mret (fail d r.1 r.2 state now)
  end.

(** How long the back-off of a record still lasts at [now]; 0 when it is over. *)
Definition backing_off (d : AlertDelivery) (now : time) : option Z :=
  match ad_LastAttemptAt d with
  | Some at_ =>
    let due := add_time at_ (Backoff (ad_Attempts d)) in
    if (0 <? ad_Attempts d) && before now due then Some (GoTime.sub due now) else None
  | None => None
  end.

Definition deliver (sub : FrameAlertSubscription) (fa : RelayAlert) (d : AlertDelivery) (state : string) (now : time) : St W (AlertDelivery * Z) :=
  if ss_Paused (sn_Spec sub) || ad_PermanentFailure d || bool_decide (ad_DeliveredState d = state) then mret (d, 0)
  else match backing_off d now with
  | Some wait => mret (d, wait)
  | None =>
    t ← token sub;
    match t with
    | inl (true, e) => mret (fail d Permanent (Some e) state now)
    | inl (false, e) => mret (fail d Retry (Some e) state now)
    | inr tok =>
      send_all sub tok fa d state now
        (if bool_decide (ad_DeliveredState d = "") && bool_decide (state = AlertStateResolved) then [AlertStateFiring; state] else [state])
    end
  end.

(** [None]: no entry. *)
Definition unmatchedDelivery (sub : string) (d : option AlertDelivery) (state : string) : option AlertDelivery :=
  if bool_decide (state <> AlertStateResolved) then None
  else match d with
  | Some x => if ad_Excluded x || bool_decide (ad_DeliveredState x = state) then Some x
              else Some (mkDelivery sub state 0 "" None None false "" 0 true)
  | None => Some (mkDelivery sub state 0 "" None None false "" 0 true)
  end.

(** The record a pass starts from: the entry, or a new one, with what a changed
    subscription or a changed state lifts. *)
Definition lift_failure (d : AlertDelivery) : AlertDelivery :=
  mkDelivery (ad_Subscription d) (ad_DeliveredState d) (ad_Attempts d) (ad_LastError d) (ad_LastAttemptAt d) (ad_LastDeliveredAt d) false ""
    (ad_SubscriptionGeneration d) (ad_Excluded d).
Definition at_generation (g : Z) (d : AlertDelivery) : AlertDelivery :=
  mkDelivery (ad_Subscription d) (ad_DeliveredState d) (ad_Attempts d) (ad_LastError d) (ad_LastAttemptAt d) (ad_LastDeliveredAt d)
    (ad_PermanentFailure d) (ad_FailedState d) g (ad_Excluded d).
Definition starting (sub : FrameAlertSubscription) (entry : option AlertDelivery) (state : string) : AlertDelivery :=
  let d := default (fresh_delivery (sn_Name sub)) entry in
  let d := if bool_decide (ad_SubscriptionGeneration d <> sn_Generation sub) then lift_failure (at_generation (sn_Generation sub) d) else d in
  if ad_PermanentFailure d && bool_decide (ad_FailedState d <> state) then lift_failure d else d.
Definition set_delivered (d : AlertDelivery) (state : string) : AlertDelivery :=
  mkDelivery (ad_Subscription d) state (ad_Attempts d) (ad_LastError d) (ad_LastAttemptAt d) (ad_LastDeliveredAt d) (ad_PermanentFailure d)
    (ad_FailedState d) (ad_SubscriptionGeneration d) (ad_Excluded d).

Definition keepDriving (entry : option AlertDelivery) : bool :=
  match entry with Some d => bool_decide (ad_DeliveredState d = AlertStateFiring) && negb (ad_Excluded d) | None => false end.

(** One turn of Reconcile's loop: the record it appends, if any, and the wait. *)
Definition relay_one (fa : RelayAlert) (state : string) (now : time) (entry : option AlertDelivery) (sub : FrameAlertSubscription) :
    St W (option AlertDelivery * Z) :=
  if negb (Matches (ss_Filter (sn_Spec sub)) (ra_Alert fa)) && negb (keepDriving entry) then
    mret (unmatchedDelivery (sn_Name sub) entry state, 0)
  else
    let d := starting sub entry state in
    if bool_decide (entry = None) && bool_decide (state = AlertStateResolved) && after (sn_Created sub) (ra_Created fa) then
      mret (Some (set_delivered d state), 0)
    else
      r ← deliver sub fa d state now;
      mret (Some r.1, r.2).

Definition sooner (wait requeue : Z) : Z := if (0 <? wait) && ((requeue =? 0) || (wait <? requeue)) then wait else requeue.

Definition existing (ds : list AlertDelivery) : gmap string AlertDelivery := foldl (fun m d => <[ad_Subscription d := d]> m) ∅ ds.

Fixpoint relay_loop (fa : RelayAlert) (state : string) (now : time) (subs : list FrameAlertSubscription) (next : list AlertDelivery) (requeue : Z) :
    St W (list AlertDelivery * Z) :=
  match subs with
  | [] => mret (next, requeue)
  | sub :: subs =>
    r ← relay_one fa state now (existing (ra_Deliveries fa) !! sn_Name sub) sub;
    relay_loop fa state now subs (next ++ match r.1 with Some d => [d] | None => [] end) (sooner r.2 requeue)
  end.

Definition delivery_leb (a b : AlertDelivery) : bool := str_leb (ad_Subscription a) (ad_Subscription b).

(** [equality.Semantic.DeepEqual]: times are compared as instants. *)
Definition delivery_utc (d : AlertDelivery) : AlertDelivery :=
  mkDelivery (ad_Subscription d) (ad_DeliveredState d) (ad_Attempts d) (ad_LastError d) (option_map utc (ad_LastAttemptAt d))
    (option_map utc (ad_LastDeliveredAt d)) (ad_PermanentFailure d) (ad_FailedState d) (ad_SubscriptionGeneration d) (ad_Excluded d).
Definition deliveries_equal (a b : list AlertDelivery) : bool := bool_decide (map delivery_utc a = map delivery_utc b).

Definition allDelivered (ds : list AlertDelivery) (state : string) : bool := forallb (fun d => bool_decide (ad_DeliveredState d = state)) ds.

(** The purge, on the object the last call answered with. *)
Definition purge (r : RelayReconciler) (fa : RelayAlert) (next : list AlertDelivery) (state : string) (now : time) (requeue : Z) : St W (result apierr Z) :=
  match ra_EndsAt fa with
  | Some endsAt =>
    if bool_decide (state = AlertStateResolved) && allDelivered next state then
      let purgeAt := add_time endsAt (rr_Retention r) in
      if negb (before now purgeAt) then
        e ← relay_delete fa (ra_ResourceVersion fa);
        mret (match e with
              | None => inr 0
              | Some e => if err_conflict e then inr second else if err_notfound e then inr 0 else inl e
              end)
      else
        let wait := GoTime.sub purgeAt now in
        mret (inr (if (requeue =? 0) || (wait <? requeue) then wait else requeue))
    else mret (inr requeue)
  | None => mret (inr requeue)
  end.

(** RequeueAfter, or the error. *)
Definition Reconcile (r : RelayReconciler) (req : NamespacedName) : St W (result apierr Z) :=
  g ← relay_get req;
  match g with
  | inl e => mret (if err_notfound e then inr 0 else inl e)
  | inr fa =>
    let state := ra_State fa in
    if bool_decide (state = "") then mret (inr 0) else
    s ← relay_subs (rr_Namespace r);
    match s with
    | inl e => mret (inl e)
    | inr subs =>
      now ← relay_now;
      l ← relay_loop fa state now subs [] 0;
      let next := sort_by delivery_leb l.1 in
      p ← (if deliveries_equal next (ra_Deliveries fa) then mret (inr fa) else relay_patch fa (with_deliveries fa next));
      match p with
      | inl e => mret (inl e)
      | inr fa => purge r fa next state now l.2
      end
    end
  end.
End Relay.
