(* ===== verification/RelaySafety.v ===== *)
(** What the alert relay guarantees: why each request it sends, each record it
    writes and each deletion is made ([relay_justified]); that over any passes a
    tenant is told of a resolution only after it took the alert
    ([resolution_follows_firing]); and the back-off ([Backoff_doubles]). *)
From stdpp Require Import base tactics strings sets list gmap.
From Stdlib Require Import ZArith Lia Ascii.
From S2P Require Import Prelude Trace GoLib GoTime Kube GoJson Alerting StorageAlerts Relay.

Open Scope Z_scope.

(** ** Calls *)

Inductive rcall :=
| RGet (n : NamespacedName) (r : result apierr RelayAlert)
| RSubs (ns : string) (r : result apierr (list FrameAlertSubscription))
| RNow (t : time)
| RPatch (old new : RelayAlert) (r : result apierr RelayAlert)
| RDelete (a : RelayAlert) (rv : string) (r : option apierr)
| RSecret (n : NamespacedName) (r : result apierr TokenSecret)
| RDo (q : HttpRequest) (r : result string Z).

Class TracedRelay (W : Type) `{RW : RelayWorld W} := {
  calls : W -> list rcall;
  r_get n w : calls (relay_get n w).2 = calls w ++ [RGet n (relay_get n w).1];
  r_subs n w : calls (relay_subs n w).2 = calls w ++ [RSubs n (relay_subs n w).1];
  r_now w : calls (relay_now w).2 = calls w ++ [RNow (relay_now w).1];
  r_patch o n w : calls (relay_patch o n w).2 = calls w ++ [RPatch o n (relay_patch o n w).1];
  r_delete a v w : calls (relay_delete a v w).2 = calls w ++ [RDelete a v (relay_delete a v w).1];
  r_secret n w : calls (relay_secret n w).2 = calls w ++ [RSecret n (relay_secret n w).1];
  r_do q w : calls (relay_do q w).2 = calls w ++ [RDo q (relay_do q w).1]
}.

(** ** The back-off *)

Lemma double_while_min n : forall i attempts d, 0 < d -> d < 2 ^ 60 -> 1 <= i <= attempts -> 10 * minute <= d * 2 ^ Z.of_nat n ->
  Z.min (double_while n i attempts d) (10 * minute) = Z.min (d * 2 ^ (attempts - i)) (10 * minute).
Proof.
  induction n as [|n IH]; intros i attempts d H0 H60 Hi Hn; cbn [double_while].
  - change (2 ^ Z.of_nat 0) with 1 in Hn. assert (1 <= 2 ^ (attempts - i)) by (apply (Z.pow_le_mono_r 2 0); lia). nia.
  - destruct (_ && _) eqn:E.
    + bool_to_prop. rewrite IH; [|lia|unfold minute, second in *; lia|lia|].
      * f_equal. replace (attempts - i) with (Z.succ (attempts - (i + 1))) by lia. rewrite Z.pow_succ_r by lia. lia.
      * rewrite Nat2Z.inj_succ, Z.pow_succ_r in Hn by lia. lia.
    + apply andb_false_iff in E as [E|E]; apply Z.ltb_ge in E.
      * replace attempts with i by lia. rewrite Z.sub_diag, Z.mul_1_r. done.
      * assert (1 <= 2 ^ (attempts - i)) by (apply (Z.pow_le_mono_r 2 0); lia). nia.
Qed.

(** The wait after a failed attempt is five seconds doubled once per earlier
    failure, and at most ten minutes: nothing for a record without attempts. *)
Theorem Backoff_doubles attempts : Backoff attempts = if attempts <? 1 then 0 else Z.min (5 * second * 2 ^ (attempts - 1)) (10 * minute).
Proof.
  unfold Backoff. destruct (attempts <? 1) eqn:E; [done|]. apply Z.ltb_ge in E.
  rewrite (double_while_min 8 1); [done| | |lia|]; unfold minute, second; vm_compute; try done; lia.
Qed.

(** ** The policy *)

(** The webhook payload that tells a receiver the state [st] of the alert [a]. *)
Definition payload_for (receiver : string) (a : FrameAlert) (st : string) (p : Payload) : Prop :=
  let s := fa_Spec a in
  exists al, pl_Version p = "4" /\ pl_Receiver p = receiver /\ pl_Alerts p = [al] /\ pl_Status p = al_Status al /\
    al_Labels al = fas_Labels s /\ al_Annotations al = fas_Annotations s /\ al_StartsAt al = fas_StartsAt s /\
    al_GeneratorURL al = fas_GeneratorURL s /\ al_Fingerprint al = fas_Fingerprint s /\
    (st = "Resolved" /\ al_Status al = "resolved" /\ al_EndsAt al = default zero_time (fas_EndsAt s) \/ st <> "Resolved" /\ al_Status al = "firing" /\ al_EndsAt al = zero_time).
(** [q] is the POST of state [st] of the alert [a] to [sub]. *)
Definition tells (q : HttpRequest) (tok : string) (sub : FrameAlertSubscription) (a : FrameAlert) (st : string) : Prop :=
  exists p body, payload_for (sn_Name sub) a st p /\ marshal_payload p = inr body /\
    q = mkHttpRequest "POST" (ss_URL (sn_Spec sub)) "application/json" ("Bearer " +:+ tok) body.
Lemma built_payload receiver a st : payload_for receiver a st (buildPayload receiver a st).
Proof.
  unfold buildPayload. cbv zeta. eexists. split; [done|]. split; [done|]. split; [reflexivity|]. do 6 (split; [done|]). cbn [al_Status al_EndsAt].
  unfold AlertStateResolved. case_bool_decide; [by left|by right].
Qed.

(** The tenant took it. *)
Definition took (pre : list rcall) (sub : FrameAlertSubscription) (a : FrameAlert) (st : string) : Prop :=
  exists q tok c, tells q tok sub a st /\ RDo q (inr c) ∈ pre /\ 200 <= c < 300.

(** The Secret of a subscription was read, is labelled for it, and holds [tok]. *)
Definition token_of (pre : list rcall) (sub : FrameAlertSubscription) (tok : string) : Prop :=
  let ref := ss_TokenSecretRef (sn_Spec sub) in
  exists s, RSecret (sn_Namespace sub, tr_Name ref) (inr s) ∈ pre /\
    ts_Labels s !! "frame.plume-labs.io/alert-token" = Some "true" /\ ts_Data s !! tr_Key ref = Some tok /\ tok <> "".

(** The entry of a subscription: the last record of its name. *)
Definition entry_of (name : string) (ds : list AlertDelivery) : option AlertDelivery :=
  last (List.filter (fun d => bool_decide (ad_Subscription d = name)) ds).
Lemma existing_entry name ds : existing ds !! name = entry_of name ds.
Proof.
  unfold existing, entry_of. induction ds as [|d ds IH] using rev_ind; [apply lookup_empty|]. rewrite foldl_app, List.filter_app. cbn [foldl List.filter].
  case_bool_decide as E; [by rewrite E, lookup_insert_eq, last_snoc|]. by rewrite lookup_insert_ne, app_nil_r.
Qed.

(** The pass is over the alert [fa] in a state, and [sub] is a subscription it
    listed, whose entry is [e]. *)
Definition over (pre : list rcall) (fa : RelayAlert) (now : time) (sub : FrameAlertSubscription) (e : option AlertDelivery) : Prop :=
  (exists n, RGet n (inr fa) ∈ pre) /\ ra_State fa <> "" /\
  (exists ns subs, RSubs ns (inr subs) ∈ pre /\ sub ∈ subs) /\ RNow now ∈ pre /\ e = entry_of (sn_Name sub) (ra_Deliveries fa).

(** A filter takes an alert whose name it does not exclude and whose severity and namespace it
    lists, where it lists any. *)
Definition takes (f : AlertFilter) (a : FrameAlert) : Prop :=
  fas_AlertName (fa_Spec a) ∉ flt_ExcludeAlertNames f /\
  (flt_Severities f = [] \/ fas_Severity (fa_Spec a) ∈ flt_Severities f) /\
  (flt_Namespaces f = [] \/ fas_Namespace (fa_Spec a) ∈ flt_Namespaces f).
Lemma Matches_takes f a : Matches f a = true <-> takes f a.
Proof. unfold Matches, takes. repeat case_bool_decide; cbn; try tauto; (split; [done|]); intros (? & [?|?] & [?|?]); tauto. Qed.
(** The tenant was told that the alert fires, and is to hear of its end. *)
Definition open_entry (e : option AlertDelivery) : Prop := exists d, e = Some d /\ ad_DeliveredState d = "Firing" /\ ad_Excluded d = false.
Lemma keepDriving_open e : keepDriving e = true <-> open_entry e.
Proof.
  unfold keepDriving, open_entry. destruct e as [d|]; [|split; [done|by intros (? & ? & _)]]. rewrite andb_true_iff, bool_decide_eq_true, negb_true_iff. naive_solver.
Qed.

(** [sub] takes part: its filter takes the alert, or it has the alert open. *)
Definition concerned (fa : RelayAlert) (sub : FrameAlertSubscription) (e : option AlertDelivery) : Prop :=
  takes (ss_Filter (sn_Spec sub)) (ra_Alert fa) \/ open_entry e.

(** Whether it was told a state before. *)
Definition told_state (e : option AlertDelivery) : string := default "" (ad_DeliveredState <$> e).
(** An attempt is due: the subscription is not paused, was not told this state, has no lasting failure
    of this generation in this state, and the wait after its last failed attempt, five seconds doubled with each
    up to ten minutes, is over. *)
Definition attempt_due (sub : FrameAlertSubscription) (e : option AlertDelivery) (state : string) (now : time) : Prop :=
  ss_Paused (sn_Spec sub) = false /\ told_state e <> state /\
  forall d, e = Some d ->
    (ad_PermanentFailure d = true -> ad_SubscriptionGeneration d <> sn_Generation sub \/ ad_FailedState d <> state) /\
    forall at_, ad_LastAttemptAt d = Some at_ -> 0 < ad_Attempts d ->
      unix_nano at_ + Z.min (5 * 10 ^ 9 * 2 ^ (ad_Attempts d - 1)) (600 * 10 ^ 9) <= unix_nano now.

(** Which state is sent: the alert's; or Firing first, to a subscription that
    was told nothing of an alert now resolved. *)
Definition turn_of (pre : list rcall) (fa : RelayAlert) (sub : FrameAlertSubscription) (e : option AlertDelivery) (st : string) : Prop :=
  if decide (told_state e = "" /\ ra_State fa = "Resolved")
  then st = "Firing" \/ (st = "Resolved" /\ took pre sub (ra_Alert fa) "Firing")
  else st = ra_State fa.

Definition may_send (pre : list rcall) (q : HttpRequest) : Prop :=
  exists fa now sub e tok st, over pre fa now sub e /\ concerned fa sub e /\
    attempt_due sub e (ra_State fa) now /\ token_of pre sub tok /\
    tells q tok sub (ra_Alert fa) st /\ turn_of pre fa sub e st.

(** Why a record says what it says was delivered: it said so before; the tenant answered 2xx; or
    the alert is resolved and was marked so without a request, for a subscription that takes no part,
    or one that has no record and was created after the alert. *)
Definition recorded_for (pre : list rcall) (fa : RelayAlert) (sub : FrameAlertSubscription) (e : option AlertDelivery) (d : AlertDelivery) : Prop :=
  ad_Subscription d = sn_Name sub /\
  (ad_DeliveredState d = told_state e \/
   (took pre sub (ra_Alert fa) (ad_DeliveredState d) /\ (ad_DeliveredState d = ra_State fa \/ ad_DeliveredState d = "Firing")) \/
   (ra_State fa = "Resolved" /\ ad_DeliveredState d = "Resolved" /\
    ((~ concerned fa sub e /\ ad_Excluded d = true) \/ (e = None /\ unix_nano (ra_Created fa) < unix_nano (sn_Created sub))))).

Definition may_record (pre : list rcall) (old new : RelayAlert) : Prop :=
  new = with_deliveries old (ra_Deliveries new) /\
  forall d, d ∈ ra_Deliveries new -> exists now sub e, over pre old now sub e /\ recorded_for pre old sub e d.

(** The records of [a] as the last write or read of the pass left them. *)
Definition stands (pre : list rcall) (fa a : RelayAlert) (ds : list AlertDelivery) : Prop :=
  (a = fa /\ map ad_Subscription ds = map ad_Subscription (ra_Deliveries fa) /\ map ad_DeliveredState ds = map ad_DeliveredState (ra_Deliveries fa)) \/
  (exists new, RPatch fa new (inr a) ∈ pre /\ ds = ra_Deliveries new).

Definition may_purge (retention : Z) (pre : list rcall) (a : RelayAlert) (rv : string) : Prop :=
  rv = ra_ResourceVersion a /\
  exists fa ds n ns subs now endsAt, RGet n (inr fa) ∈ pre /\ ra_State fa = "Resolved" /\ RSubs ns (inr subs) ∈ pre /\ RNow now ∈ pre /\
    stands pre fa a ds /\ ra_EndsAt a = Some endsAt /\ unix_nano endsAt + retention <= unix_nano now /\
    (forall d, d ∈ ds -> ad_DeliveredState d = "Resolved") /\
    forall sub, sub ∈ subs -> exists d, d ∈ ds /\ ad_Subscription d = sn_Name sub.

Definition rmay (retention : Z) (pre : list rcall) (x : rcall) : Prop :=
  match x with
  | RSecret n _ => exists fa now sub e, over pre fa now sub e /\ concerned fa sub e /\ n = (sn_Namespace sub, tr_Name (ss_TokenSecretRef (sn_Spec sub))) /\
      attempt_due sub e (ra_State fa) now
  | RDo q _ => may_send pre q
  | RPatch old new _ => may_record pre old new
  | RDelete a rv _ => may_purge retention pre a rv
  | _ => True
  end.

(** ** Monotonicity *)

Lemma took_mono pre pre' sub a st : pre ⊆ pre' -> took pre sub a st -> took pre' sub a st.
Proof. intros Hs (q & tok & c & Ht & Hq & Hc). exists q, tok, c. auto. Qed.
Lemma over_mono pre pre' fa now sub e : pre ⊆ pre' -> over pre fa now sub e -> over pre' fa now sub e.
Proof. intros Hs ([n Hn] & Hst & (ns & subs & Hl & Hin) & Hnow & He). split; [eauto|]. split; [done|]. split; [by exists ns, subs; auto|]. split; [auto|done]. Qed.
Lemma token_of_mono pre pre' sub tok : pre ⊆ pre' -> token_of pre sub tok -> token_of pre' sub tok.
Proof. intros Hs (s & Hr & H). exists s. auto. Qed.
Lemma recorded_for_mono pre pre' fa sub e d : pre ⊆ pre' -> recorded_for pre fa sub e d -> recorded_for pre' fa sub e d.
Proof. intros Hs [Hn [H|[H|H]]]; (split; [done|]); [by left|right; left; split; [by eapply took_mono; [|apply H]|apply H]|by right; right]. Qed.

(** ** The records *)

Lemma existing_key ds (m : gmap string AlertDelivery) : (forall k d, m !! k = Some d -> ad_Subscription d = k) ->
  forall k d, foldl (fun m d => <[ad_Subscription d := d]> m) m ds !! k = Some d -> ad_Subscription d = k.
Proof.
  revert m. induction ds as [|x ds IH]; intros m Hm k d; cbn; [apply Hm|]. apply IH. intros k' d'.
  destruct (decide (ad_Subscription x = k')) as [<-|Hne]; [rewrite lookup_insert_eq; by intros [= ->]|rewrite lookup_insert_ne by done; apply Hm].
Qed.
Lemma existing_sub ds k d : existing ds !! k = Some d -> ad_Subscription d = k.
Proof. apply existing_key. intros k' d'. by rewrite lookup_empty. Qed.

Lemma existing_in_from ds (m : gmap string AlertDelivery) k d : foldl (fun m d => <[ad_Subscription d := d]> m) m ds !! k = Some d -> d ∈ ds \/ m !! k = Some d.
Proof.
  revert m. induction ds as [|x ds IH]; intros m; cbn; [by right|]. intros [H|H]%IH; [left; by apply list_elem_of_further|].
  destruct (decide (ad_Subscription x = k)) as [<-|Hne]; [rewrite lookup_insert_eq in H; simplify_eq; left; apply list_elem_of_here|].
  rewrite lookup_insert_ne in H by done. by right.
Qed.
Lemma existing_in ds k d : existing ds !! k = Some d -> d ∈ ds.
Proof. intros [H|H]%existing_in_from; [done|by rewrite lookup_empty in H]. Qed.

Lemma starting_sub sub e state : (forall d, e = Some d -> ad_Subscription d = sn_Name sub) -> ad_Subscription (starting sub e state) = sn_Name sub.
Proof.
  intros H. unfold starting. cbv zeta. destruct e as [d|]; cbn [default]; [specialize (H d eq_refl)|]; repeat (case_match; cbn; try done).
Qed.
Lemma starting_state sub e state : ad_DeliveredState (starting sub e state) = told_state e.
Proof. unfold told_state. unfold starting. cbv zeta. destruct e as [d|]; cbn [default]; repeat (case_match; cbn; try done). Qed.

Lemma starting_due sub e state now : ss_Paused (sn_Spec sub) = false -> ad_PermanentFailure (starting sub e state) = false ->
  ad_DeliveredState (starting sub e state) <> state -> backing_off (starting sub e state) now = None -> attempt_due sub e state now.
Proof.
  intros Hp Hpf Hds Hb. rewrite starting_state in Hds. split; [done|]. split; [done|]. intros d ->.
  assert (ad_LastAttemptAt (starting sub (Some d) state) = ad_LastAttemptAt d /\ ad_Attempts (starting sub (Some d) state) = ad_Attempts d) as [El Ea].
  { unfold starting. cbv zeta. cbn [default]. repeat (case_match; cbn; try done). }
  split.
  - intros Hperm. destruct (decide (ad_SubscriptionGeneration d = sn_Generation sub)) as [Eg|Eg]; [right|by left]. intros Ef.
    unfold starting in Hpf. cbv zeta in Hpf. cbn [default] in Hpf. rewrite (bool_decide_false (ad_SubscriptionGeneration d <> _)) in Hpf by auto.
    rewrite (bool_decide_false (ad_FailedState d <> state)), andb_false_r in Hpf by auto. cbn in Hpf. congruence.
  - intros at_ Hat Hn. unfold backing_off in Hb. rewrite El, Ea, Hat in Hb. cbv zeta in Hb. destruct (_ && _) eqn:E; [done|].
    apply andb_false_iff in E as [E|E]; [apply Z.ltb_ge in E; lia|]. unfold before, add_time in E. cbn in E. apply Z.ltb_ge in E.
    rewrite Backoff_doubles in E. rewrite (proj2 (Z.ltb_ge _ _)) in E by lia. exact E.
Qed.

Lemma fail_keeps d out err state now : ad_Subscription (fail d out err state now).1 = ad_Subscription d /\
  ad_DeliveredState (fail d out err state now).1 = ad_DeliveredState d.
Proof. unfold fail. cbv zeta. by destruct (bool_decide (out = Permanent)). Qed.

Lemma status_outcome_delivered c : (status_outcome c).1 = Delivered -> 200 <= c < 300.
Proof. unfold status_outcome. destruct (_ && _) eqn:E; [intros _; bool_to_prop; lia|]. by destruct (_ || _). Qed.

(** ** A pass *)

Section Safety.
Context {W : Type} {RW : RelayWorld W} {TR : TracedRelay W} (retention : Z).

Abbreviation emits := (Trace.emits calls).
Abbreviation emits_ret := (Trace.emits_ret calls).
Abbreviation emits_bind := (Trace.emits_bind calls).
Abbreviation emits_call := (Trace.emits_call calls).
Abbreviation emits_mono := (Trace.emits_mono calls).
Abbreviation goes := (Trace.goes calls (rmay retention)).
Abbreviation goes_ret := (Trace.goes_ret calls (rmay retention)).
Abbreviation goes_call := (Trace.goes_call calls (rmay retention)).
Abbreviation goes_bind := (Trace.goes_bind calls (rmay retention)).
Abbreviation just := (justified (rmay retention)).

Lemma emits_Send sub tok a st : emits (Send (ss_URL (sn_Spec sub)) tok (sn_Name sub) a st) (fun r t =>
  (t = [] /\ r.1 <> Delivered) \/ exists q c, t = [RDo q c] /\ tells q tok sub a st /\ (r.1 = Delivered -> exists code, c = inr code /\ 200 <= code < 300)).
Proof.
  unfold Send. destruct (marshal_payload _) as [e|body] eqn:Em; [apply emits_ret; by left|].
  destruct (url_error _); [apply emits_ret; by left|].
  eapply emits_call; [intros; apply r_do|]. intros c. apply emits_ret. right. eexists _, c. split; [done|]. split; [exists (buildPayload (sn_Name sub) a st), body; split; [apply built_payload|done]|].
  destruct c as [e|code]; [done|]. intros H%status_outcome_delivered. eauto.
Qed.

Lemma emits_token sub : emits (token sub) (fun r t => exists x, t = [RSecret (sn_Namespace sub, tr_Name (ss_TokenSecretRef (sn_Spec sub))) x] /\
  forall tok, r = inr tok -> token_of t sub tok).
Proof.
  unfold token. cbv zeta. eapply emits_call; [intros; apply r_secret|]. intros x. apply emits_ret. exists x. split; [done|]. intros tok Hr.
  destruct x as [e|s]; [done|]. destruct (ts_Labels s !! AlertTokenLabel) as [v|] eqn:El; cbn [default] in Hr; [|done].
  destruct (decide (v = "true")) as [->|Hv]; [rewrite bool_decide_false in Hr by auto|by rewrite bool_decide_true in Hr].
  destruct (ts_Data s !! _) as [v|] eqn:Ed; [|done]. case_bool_decide; simplify_eq.
  exists s. split; [apply list_elem_of_here|]. by repeat split.
Qed.

Lemma took_one pre q tok sub a st code : tells q tok sub a st -> 200 <= code < 300 -> took (pre ++ [RDo q (inr code)]) sub a st.
Proof. intros Ht Hc. exists q, tok, code. split; [done|]. split; [set_solver|done]. Qed.

Lemma emits_send_all sub tok fa state now seq : NoDup seq -> forall pre d, ad_DeliveredState d ∉ seq ->
  (forall l st l', seq = l ++ st :: l' -> forall pre', pre ⊆ pre' -> (forall x, x ∈ l -> took pre' sub (ra_Alert fa) x) ->
     forall q, tells q tok sub (ra_Alert fa) st -> may_send pre' q) ->
  emits (send_all sub tok fa d state now seq) (fun r t => just pre t /\ ad_Subscription r.1 = ad_Subscription d /\
    (ad_DeliveredState r.1 = ad_DeliveredState d \/ (took (pre ++ t) sub (ra_Alert fa) (ad_DeliveredState r.1) /\ ad_DeliveredState r.1 ∈ seq))).
Proof.
  induction 1 as [|st seq Hst Hnd IH]; intros pre d Hd Hmay; cbn [send_all].
  { apply emits_ret. by repeat split; [..|left]. }
  apply not_elem_of_cons in Hd as [Hne Hd]. rewrite bool_decide_false by done. eapply emits_bind; [apply emits_Send|].
  intros r t Hr. case_bool_decide as Ed.
  - destruct Hr as [[_ Hr]|(q & c & -> & Ht & Hc)]; [done|]. destruct (Hc Ed) as (code & -> & Hcode).
    assert (may_send pre q) as Hq. { eapply (Hmay [] st seq); [done|done|by intros x ?%not_elem_of_nil|done]. }
    eapply emits_mono; [apply (IH (pre ++ [RDo q (inr code)]))|].
    + done.
    + intros l st' l' -> pre' Hs Hl q' Hq'. apply (Hmay (st :: l) st' l'); [done|set_solver| |done]. intros x [->|Hx]%elem_of_cons; [|by apply Hl].
      eapply took_mono; [exact Hs|by eapply took_one].
    + intros [d' z] t' (Hj & Hsub & Hst'). cbn [fst] in *. split; [by split|]. split; [done|]. right. rewrite app_assoc.
      destruct Hst' as [->|[H Hin]]; [|split; [done|by apply list_elem_of_further]]. split; [|apply list_elem_of_here]. cbn. eapply took_mono; [|by apply (took_one pre _ _ _ _ _ code Ht)]. set_solver.
  - destruct (fail_keeps d r.1 r.2 state now) as [Hf1 Hf2]. apply emits_ret. rewrite Hf1, Hf2, app_nil_r.
    destruct Hr as [[-> _]|(q & c & -> & Ht & _)]; (split; [|by auto]); [done|]. split; [|done].
    eapply (Hmay [] st seq); [done|done|by intros x ?%not_elem_of_nil|done].
Qed.

Lemma concerned_dec fa sub e : negb (Matches (ss_Filter (sn_Spec sub)) (ra_Alert fa)) && negb (keepDriving e) = false -> concerned fa sub e.
Proof. unfold concerned. rewrite <- Matches_takes, <- keepDriving_open. destruct (Matches _ _); [by left|]. destruct (keepDriving e); [by right|done]. Qed.

Lemma emits_deliver pre fa now sub e : over pre fa now sub e -> concerned fa sub e ->
  emits (deliver sub fa (starting sub e (ra_State fa)) (ra_State fa) now) (fun r t => just pre t /\ recorded_for (pre ++ t) fa sub e r.1).
Proof.
  intros Ho Hc. set (d := starting sub e (ra_State fa)). assert (ad_Subscription d = sn_Name sub) as Hsub.
  { apply starting_sub. intros x ->. destruct Ho as (_ & _ & _ & _ & He). symmetry in He. rewrite <- existing_entry in He. by apply existing_sub in He. }
  assert (forall d' t, just pre t -> ad_Subscription d' = ad_Subscription d ->
    ad_DeliveredState d' = ad_DeliveredState d \/ (took (pre ++ t) sub (ra_Alert fa) (ad_DeliveredState d') /\
      (ad_DeliveredState d' = ra_State fa \/ ad_DeliveredState d' = AlertStateFiring)) ->
    just pre t /\ recorded_for (pre ++ t) fa sub e d') as Hfin.
  { intros d' t Hj Hs Hst. split; [done|]. split; [congruence|]. destruct Hst as [->|H]; [left; apply starting_state|by right; left]. }
  unfold deliver. destruct (_ || _) eqn:Eg; [apply emits_ret; by apply Hfin; auto|]. apply orb_false_iff in Eg as [[Hp Hpf]%orb_false_iff Hds].
  apply bool_decide_eq_false in Hds. destruct (backing_off d now) eqn:Eb; [apply emits_ret; by apply Hfin; auto|].
  assert (attempt_due sub e (ra_State fa) now) as Hdue by by apply starting_due.
  eapply emits_bind; [apply emits_token|]. intros r t (x & -> & Htok).
  assert (rmay retention pre (RSecret (sn_Namespace sub, tr_Name (ss_TokenSecretRef (sn_Spec sub))) x)) as Hsec by by exists fa, now, sub, e.
  set (p1 := [RSecret _ x]) in *.
  destruct r as [[[] err]|tok].
  1, 2: apply emits_ret; cbn [app]; rewrite (app_nil_r p1); apply Hfin; [by split|apply fail_keeps|left; apply fail_keeps].
  assert (forall pre' q st, pre ++ p1 ⊆ pre' -> tells q tok sub (ra_Alert fa) st -> turn_of pre' fa sub e st -> may_send pre' q) as Hsend.
  { intros pre' q st Hs Ht Hturn. exists fa, now, sub, e, tok, st. split; [eapply over_mono; [|exact Ho]; set_solver|]. repeat (split; [done|]).
    split; [|done]. eapply token_of_mono; [|by apply Htok]. set_solver. }
  eapply emits_mono; [apply (emits_send_all _ _ _ _ _ _) with (pre := pre ++ p1)|].
  - destruct (decide (ra_State fa = AlertStateResolved)) as [->|E]; [|rewrite (bool_decide_false _ E), andb_false_r; apply NoDup_singleton].
    destruct (_ && _); [|apply NoDup_singleton]. by apply (bool_decide_unpack _).
  - destruct (bool_decide (ad_DeliveredState d = "") && _) eqn:E; [|by intros ?%list_elem_of_singleton]. bool_to_prop. rewrite !elem_of_cons.
    intros [Hx|[Hx|Hx%not_elem_of_nil]]; [by rewrite Hx in H|done|done].
  - intros l st l' Hl pre' Hs Htk q Ht. eapply Hsend; [done|exact Ht|]. unfold turn_of. rewrite <- (starting_state sub e (ra_State fa)). fold d.
    destruct (decide (ad_DeliveredState d = "" /\ ra_State fa = "Resolved")) as [[E1 E2]|E].
    + rewrite !bool_decide_true in Hl by done. cbn in Hl. rewrite E2 in Hl. destruct l as [|y [|z l]]; simplify_list_eq; [by left|right|by destruct l].
      split; [done|]. apply Htk. set_solver.
    + destruct (bool_decide (ad_DeliveredState d = "") && _) eqn:E'; [bool_to_prop; tauto|]. destruct l as [|y l]; simplify_list_eq; [done|by destruct l].
  - intros [d' z] t' (Hj & Hs & Hst). cbn [fst] in *. apply Hfin; [by split|done|]. rewrite app_assoc. destruct Hst as [?|[? Hin]]; [by left|right; split; [done|]].
    destruct (_ && _); rewrite !elem_of_cons, elem_of_nil in Hin; tauto.
Qed.

Lemma emits_turn pre fa now sub e : over pre fa now sub e ->
  emits (relay_one fa (ra_State fa) now e sub) (fun r t => just pre t /\ (forall d, r.1 = Some d -> recorded_for (pre ++ t) fa sub e d) /\
    (ra_State fa = AlertStateResolved -> is_Some r.1)).
Proof.
  intros Ho. assert (forall x, e = Some x -> ad_Subscription x = sn_Name sub) as Hk.
  { intros x ->. destruct Ho as (_ & _ & _ & _ & He). symmetry in He. rewrite <- existing_entry in He. by apply existing_sub in He. }
  unfold relay_one. destruct (negb _ && negb _) eqn:Em.
  - apply emits_ret. rewrite app_nil_r. split; [done|]. assert (~ concerned fa sub e) as Hnc.
    { apply andb_true_iff in Em as [Hm Hkd]. unfold concerned. rewrite <- Matches_takes, <- keepDriving_open. destruct (Matches _ _), (keepDriving e); naive_solver. }
    cbn [fst]. unfold unmatchedDelivery. destruct (decide (ra_State fa = AlertStateResolved)) as [Hst|Hst];
      [rewrite bool_decide_false by auto|rewrite bool_decide_true by done; done].
    destruct e as [x|].
    + destruct (_ || _) eqn:Ex.
      * split; [|by eauto]. intros d [= <-]. split; [by apply Hk|]. by left.
      * split; [|by eauto]. intros d [= <-]. split; [done|]. right; right. split; [done|]. split; [done|]. by left.
    + split; [|by eauto]. intros d [= <-]. split; [done|]. right; right. split; [done|]. split; [done|]. by left.
  - cbv zeta. apply concerned_dec in Em. destruct (_ && after _ _) eqn:El.
    + apply andb_true_iff in El as [[Hn Hst]%andb_true_iff Ha]. bool_to_prop. apply emits_ret. rewrite app_nil_r. split; [done|]. split; [|by eauto].
      intros d [= <-]. split; [by apply starting_sub|]. right; right. split; [done|]. split; [done|]. right. split; [done|]. by apply Z.ltb_lt in Ha.
    + eapply emits_bind; [by apply emits_deliver|]. intros r t [Hj Hr]. apply emits_ret. rewrite app_nil_r. split; [done|]. split; [|by eauto].
      by intros d [= <-].
Qed.

(** Each record comes from one subscription of the list; a resolved alert has
    one for each. *)
Lemma emits_loop fa now : forall pre subs next requeue,
  (forall sub, sub ∈ subs -> over pre fa now sub (entry_of (sn_Name sub) (ra_Deliveries fa))) ->
  emits (relay_loop fa (ra_State fa) now subs next requeue) (fun r t => just pre t /\ exists new, r.1 = (next ++ new)%list /\
    (forall d, d ∈ new -> exists sub, sub ∈ subs /\ recorded_for (pre ++ t) fa sub (entry_of (sn_Name sub) (ra_Deliveries fa)) d) /\
    (ra_State fa = AlertStateResolved -> forall sub, sub ∈ subs -> exists d, d ∈ new /\ ad_Subscription d = sn_Name sub)).
Proof.
  intros pre subs. revert pre. induction subs as [|sub subs IH]; intros pre next requeue Hov; cbn [relay_loop].
  { apply emits_ret. split; [done|]. exists []. rewrite app_nil_r. split; [done|]. set_solver. }
  rewrite existing_entry. eapply emits_bind; [apply emits_turn, Hov; set_solver|]. intros [o wait] t (Hj & Ho & Hres). cbn [fst snd] in *.
  eapply emits_mono; [apply (IH (pre ++ t))|].
  { intros s Hs. eapply over_mono; [|apply Hov; set_solver]. set_solver. }
  intros [l z] t' (Hj' & new & Hl & Hnew & Hall). cbn [fst] in *. split; [by apply justified_app|].
  exists (match o with Some d => [d] | None => [] end ++ new)%list. split; [by rewrite Hl, app_assoc|]. rewrite app_assoc. split.
  - intros d [Hd|Hd]%elem_of_app.
    + destruct o as [d0|]; [|set_solver]. apply list_elem_of_singleton in Hd as ->. exists sub. split; [set_solver|].
      eapply recorded_for_mono; [|by apply Ho]. set_solver.
    + destruct (Hnew d Hd) as (s & Hs & Hr). exists s. split; [set_solver|done].
  - intros Hst s [->|Hs]%elem_of_cons.
    + destruct (Hres Hst) as [d Hd]. rewrite Hd in *. exists d. split; [set_solver|]. apply (Ho d eq_refl).
    + destruct (Hall Hst s Hs) as (d & Hd & Hn). exists d. split; [set_solver|done].
Qed.

Lemma equal_stands ds ds' : deliveries_equal ds ds' = true ->
  map ad_Subscription ds = map ad_Subscription ds' /\ map ad_DeliveredState ds = map ad_DeliveredState ds'.
Proof.
  unfold deliveries_equal. rewrite bool_decide_eq_true. intros H.
  split; [apply (f_equal (map ad_Subscription)) in H|apply (f_equal (map ad_DeliveredState)) in H]; by rewrite !map_map in H.
Qed.

Lemma goes_purge pre r fa a ds now requeue : rr_Retention r = retention -> (exists n, RGet n (inr fa) ∈ pre) -> stands pre fa a ds -> RNow now ∈ pre ->
  (exists ns subs, RSubs ns (inr subs) ∈ pre /\ (ra_State fa = AlertStateResolved -> forall sub, sub ∈ subs -> exists d, d ∈ ds /\ ad_Subscription d = sn_Name sub)) ->
  goes pre (purge r a ds (ra_State fa) now requeue).
Proof.
  intros Hret [n Hn] Hs Hnow (ns & subs & Hl & Hall). unfold purge. destruct (ra_EndsAt a) as [endsAt|] eqn:Ee; [|apply goes_ret].
  destruct (_ && _) eqn:Eg; [|apply goes_ret]. bool_to_prop. cbv zeta. destruct (negb _) eqn:Eb; [|apply goes_ret].
  eapply goes_call; [intros; apply r_delete| |intros; apply goes_ret]. intros e. split; [done|].
  exists fa, ds, n, ns, subs, now, endsAt. repeat (split; [done|]). split.
  { apply negb_true_iff in Eb. unfold before in Eb. cbn in Eb. apply Z.ltb_ge in Eb. by rewrite <- Hret. }
  split; [|by auto]. intros d Hd. apply forallb_forall with (x := d) in H0; [bool_to_prop; unfold AlertStateResolved in *; congruence|by apply list_elem_of_In].
Qed.

Lemma relay_goes r req : rr_Retention r = retention -> goes [] (Reconcile r req).
Proof.
  intros Hret. unfold Reconcile. eapply goes_call; [intros; apply r_get|done|]. intros [e|fa]; [apply goes_ret|]. cbv zeta.
  case_bool_decide as Est; [apply goes_ret|]. eapply goes_call; [intros; apply r_subs|done|]. intros [e|subs]; [apply goes_ret|].
  eapply goes_call; [intros; apply r_now|done|]. intros now.
  set (pre := ((([] ++ [RGet req (inr fa)]) ++ [RSubs (rr_Namespace r) (inr subs)]) ++ [RNow now])%list).
  assert (forall sub, sub ∈ subs -> over pre fa now sub (entry_of (sn_Name sub) (ra_Deliveries fa))) as Hov.
  { intros sub Hs. split; [exists req; set_solver|]. split; [done|]. split; [exists (rr_Namespace r), subs; split; [set_solver|done]|]. split; [set_solver|done]. }
  eapply goes_bind; [by apply emits_loop|]. intros l t (Hj & new & Hl & Hnew & Hall). split; [done|]. cbn [app] in Hl. rewrite Hl.
  set (next := sort_by delivery_leb new). assert (forall d, d ∈ next <-> d ∈ new) as Hnx by (intros; apply elem_of_sort_by).
  assert (forall p' a, pre ++ t ⊆ p' -> stands p' fa a next -> goes p' (purge r a next (ra_State fa) now l.2)) as Hpurge.
  { intros p' a Hs Hst. apply goes_purge; [done|exists req; set_solver|done|set_solver|]. exists (rr_Namespace r), subs. split; [set_solver|].
    intros HR sub Hsub. destruct (Hall HR sub Hsub) as (d & Hd & Hn). exists d. by rewrite Hnx. }
  destruct (deliveries_equal next (ra_Deliveries fa)) eqn:Eq.
  - eapply goes_bind; [by apply (emits_ret _ (fun x t => x = inr fa /\ t = []))|]. intros x t' [-> ->]. split; [done|].
    apply Hpurge; [set_solver|]. left. split; [done|by apply equal_stands].
  - eapply goes_call; [intros; apply r_patch| |].
    { intros a. split; [done|]. cbn. intros d Hd. apply Hnx in Hd. destruct (Hnew d Hd) as (sub & Hs & Hr). exists now, sub. eexists.
      split; [|exact Hr]. eapply over_mono; [|by apply Hov]. set_solver. }
    intros [e|a]; [apply goes_ret|]. apply Hpurge; [set_solver|]. right. exists (with_deliveries fa next). split; [set_solver|done].
Qed.
End Safety.

Section Pass.
Context {W : Type} {RW : RelayWorld W} {TR : TracedRelay W}.


(** ** Over many passes *)

(** [st] of the alert of fingerprint [fp] was taken by the subscription [name]. *)
Definition told (h : list rcall) (name fp st : string) : Prop :=
  exists sub a, sn_Name sub = name /\ fas_Fingerprint (fa_Spec a) = fp /\ took h sub a st.
Definition fingerprint_of (a : RelayAlert) : string := fas_Fingerprint (fa_Spec (ra_Alert a)).

(** The records of an alert as read are ones an earlier patch of the relay wrote:
    its status says deliveries are the relay's. The patch may have been answered
    with an error, and the version read need not be the newest. *)
Definition from_relay (h : list rcall) (a : RelayAlert) : Prop :=
  forall d, d ∈ ra_Deliveries a -> exists old new r d', RPatch old new r ∈ h /\ d' ∈ ra_Deliveries new /\ fingerprint_of old = fingerprint_of a /\
    ad_Subscription d' = ad_Subscription d /\ ad_DeliveredState d' = ad_DeliveredState d.
Definition known_state (st : string) : Prop := st = "" \/ st = AlertStateFiring \/ st = AlertStateResolved.

(** The calls of passes over any alerts, between which the world changes in any
    way. *)
Inductive relayed : list rcall -> W -> Prop :=
| relayed_start w : relayed [] w
| relayed_meanwhile h w w' : relayed h w -> relayed h w'
| relayed_pass h w r req t : relayed h w -> calls (Reconcile r req w).2 = (calls w ++ t)%list ->
    (forall n a, RGet n (inr a) ∈ t -> from_relay h a /\ known_state (ra_State a)) -> relayed (h ++ t) (Reconcile r req w).2.

Lemma told_mono h h' name fp st : h ⊆ h' -> told h name fp st -> told h' name fp st.
Proof. intros Hs (sub & a & Hn & Hf & Ht). exists sub, a. repeat (split; [done|]). by eapply took_mono. Qed.

Lemma pass_calls r req w t : calls (Reconcile r req w).2 = (calls w ++ t)%list -> justified (rmay (rr_Retention r)) [] t.
Proof. intros Ht. destruct (relay_goes (rr_Retention r) r req eq_refl w) as (t' & Ht' & Hj). rewrite Ht in Ht'. by apply (inj (app (calls w))) in Ht' as ->. Qed.

(** A record that says Firing was told, and says nothing unknown. *)
Definition honest (h : list rcall) : Prop := forall old new r d, RPatch old new r ∈ h -> d ∈ ra_Deliveries new ->
  known_state (ad_DeliveredState d) /\ (ad_DeliveredState d = AlertStateFiring -> told h (ad_Subscription d) (fingerprint_of old) AlertStateFiring).

(** What an entry of an alert that was read says was told before the pass. *)
Lemma entry_honest h fa name e : honest h -> from_relay h fa -> e = entry_of name (ra_Deliveries fa) ->
  known_state (told_state e) /\
  (told_state e = AlertStateFiring -> told h name (fingerprint_of fa) AlertStateFiring).
Proof.
  intros Hh Hf ->. rewrite <- existing_entry. unfold told_state. destruct (existing _ !! name) as [d0|] eqn:Ee; cbn [fmap option_fmap option_map default]; [|split; [by left|done]].
  destruct (Hf d0 (existing_in _ _ _ Ee)) as (old & new & r & d' & Hp & Hd & Hfp & Hs & <-). apply existing_sub in Ee.
  destruct (Hh _ _ _ _ Hp Hd) as [Hk Ht]. split; [done|]. intros H. specialize (Ht H). by rewrite Hs, Ee, Hfp in Ht.
Qed.

Lemma relayed_honest h w : relayed h w -> honest h.
Proof.
  induction 1 as [w|h w w' _ IH|h w r req t _ IH Ht Hget]; [by intros ? ? ? ? ?%not_elem_of_nil|done|].
  apply pass_calls in Ht. intros old new x d [Hp|Hp]%elem_of_app Hd.
  { destruct (IH _ _ _ _ Hp Hd) as [Hk Hf]. split; [done|]. intros H. eapply told_mono; [|by apply Hf]. set_solver. }
  destruct (justified_elem _ _ _ _ Ht Hp) as (t1 & Hs & _ & Hrec). cbn [app] in Hrec.
  destruct (Hrec d Hd) as (now & sub & e & ([n Hn] & _ & _ & _ & He) & Hsub & Hst). destruct (Hget n old) as [Hfr Hks]; [auto|].
  destruct (entry_honest h old (sn_Name sub) e IH Hfr He) as [Hk Hf].
  destruct Hst as [->|[[Htk Hst]|(_ & -> & _)]].
  - split; [done|]. intros H. rewrite Hsub. eapply told_mono; [|by apply Hf]. set_solver.
  - split; [destruct Hst as [->| ->]; [done|by right; left]|]. intros H. rewrite H in Htk. exists sub, (ra_Alert old). split; [done|]. split; [done|].
    eapply took_mono; [|exact Htk]. set_solver.
  - split; [by right; right|done].
Qed.

(** However passes over alerts follow one another, are repeated or lose their
    writes, and whichever version of an alert each reads, every request ever sent
    is one state of one alert for one subscription, and a resolution is only sent
    when the subscription took that alert as firing in an earlier request. *)
Theorem resolution_follows_firing h w h1 q r h2 : relayed h w -> h = (h1 ++ RDo q r :: h2)%list ->
  exists sub a tok st, tells q tok sub a st /\ (st = AlertStateFiring \/
    (st = AlertStateResolved /\ told h1 (sn_Name sub) (fas_Fingerprint (fa_Spec a)) AlertStateFiring)).
Proof.
  intros Hr. revert h1 q r h2. induction Hr as [w|h w w' _ IH|h w r req t Hr IH Ht Hget]; intros h1 q x h2 Hh; [by destruct h1|by eapply IH|].
  apply app_cut in Hh as [[l ->]|(l & -> & ->)]; [by eapply IH|].
  apply pass_calls in Ht. apply justified_split in Ht as (fa & now & sub & e & tok & st & Hov & Hc & Hdue & Htok & Htell & Hturn).
  exists sub, (ra_Alert fa), tok, st. split; [done|]. cbn [app] in *. destruct Hov as ([n Hn] & Hne & _ & _ & He).
  destruct (Hget n fa) as [Hfr Hks]; [set_solver|]. destruct (entry_honest h fa (sn_Name sub) e (relayed_honest _ _ Hr) Hfr He) as [Hk Hf].
  destruct Hdue as (_ & Hds & _). unfold turn_of in Hturn.
  destruct (decide _) as [[E1 E2]|E].
  - destruct Hturn as [->|[-> Htk]]; [by left|]. right. split; [done|]. exists sub, (ra_Alert fa). repeat (split; [done|]).
    eapply took_mono; [|exact Htk]. set_solver.
  - subst st. destruct Hks as [?|[?|Hres]]; [done|by left|]. right. split; [done|]. eapply told_mono; [|apply Hf]; [set_solver|].
    destruct Hk as [Hk|[Hk|Hk]]; [tauto|done|]. by rewrite Hk, Hres in Hds.
Qed.
End Pass.
