(* ===== verification/SubscriptionStatus.v ===== *)
(** internal/alerting/subscription_status_controller.go: what a subscription's
    status says of its deliveries, and that it says what the relay still owes
    ([status_is_owed]), at most once a minute ([status_once_a_minute]).

    The API server and the clock are the methods of [SubWorld]; the in-memory
    map of no-op passes, which a restart empties, is the first half of the state.
    The gauge is left out. The last part runs the relay and the status on an in-memory API
    server: the witnesses, what a receiver makes of a relayed alert, and a run in which a
    tenant never hears of an incident. *)
From stdpp Require Import base tactics strings sets list gmap.
From Stdlib Require Import ZArith Lia.
From S2P Require Import Prelude Trace GoLib GoTime Kube Alerting AlertingSafety StorageAlerts Relay RelaySafety.

Open Scope Z_scope.

Definition statusRecomputeEvery : Z := minute.

(** ** The summary *)

Record deliveryTally := mkTally { t_pending : Z; t_lastSuccess : option time; t_lastErrorAt : option time; t_lastError : string }.

(** The last delivery of a subscription, as the inner loop leaves it. *)
Definition delivery_of (name : string) (ds : list AlertDelivery) : option AlertDelivery :=
  foldl (fun r d => if bool_decide (ad_Subscription d = name) then Some d else r) None ds.

(** [t.After] of what [u] points to; a nil [u] is before everything. *)
Definition later_than (t : time) (u : option time) : bool := match u with Some u => after t u | None => true end.

Definition later_success (t u : option time) : option time :=
  match u with Some x => if later_than x t then u else t | None => t end.

Definition stillOpenForResolution (d : option AlertDelivery) (state : string) : bool :=
  match d with
  | Some d => bool_decide (ad_DeliveredState d = AlertStateFiring) && negb (ad_Excluded d) && bool_decide (state = AlertStateResolved)
  | None => false
  end.

(** One turn of the loop. *)
Definition tally_one (sub : FrameAlertSubscription) (t : deliveryTally) (a : RelayAlert) : deliveryTally :=
  if bool_decide (ra_State a = "") then t else
  let d := delivery_of (sn_Name sub) (ra_Deliveries a) in
  if negb (Matches (ss_Filter (sn_Spec sub)) (ra_Alert a)) && negb (stillOpenForResolution d (ra_State a)) then t else
  match d with
  | None => mkTally (wrap32 (t_pending t + 1)) (t_lastSuccess t) (t_lastErrorAt t) (t_lastError t)
  | Some d =>
    let pending := if bool_decide (ad_DeliveredState d <> ra_State a) then wrap32 (t_pending t + 1) else t_pending t in
    let failed := bool_decide (ad_LastError d <> "") && match ad_LastAttemptAt d with Some u => later_than u (t_lastErrorAt t) | None => false end in
    mkTally pending (later_success (t_lastSuccess t) (ad_LastDeliveredAt d))
      (if failed then ad_LastAttemptAt d else t_lastErrorAt t) (if failed then ad_LastError d else t_lastError t)
  end.
Definition tallyDeliveries (sub : FrameAlertSubscription) (alerts : list RelayAlert) : deliveryTally :=
  foldl (tally_one sub) (mkTally 0 None None "") alerts.

Definition equalTimes (a b : option time) : bool :=
  match a, b with
  | Some x, Some y => unix_nano x =? unix_nano y
  | None, None => true
  | _, _ => false
  end.

(** ** The controller *)

Class SubWorld (W : Type) := {
  sub_get : NamespacedName -> St W (result apierr FrameAlertSubscription);
  sub_alerts : string -> St W (result apierr (list RelayAlert));
  sub_now : St W time;
  sub_patch : FrameAlertSubscription -> FrameAlertSubscription -> St W (result apierr FrameAlertSubscription)
}.

Abbreviation computed_map := (gmap string time).
Definition key_string (k : NamespacedName) : string := k.1 +:+ "/" +:+ k.2.

Definition computedAt (m : computed_map) (key : NamespacedName) (sub : FrameAlertSubscription) : time :=
  let last := match ss_ComputedAt (sn_Status sub) with
              | Some t => if ss_ObservedGeneration (sn_Status sub) =? sn_Generation sub then t else zero_time
              | None => zero_time
              end in
  match m !! key_string key with
  | Some t => if after t last then t else last
  | None => last
  end.
Definition rememberComputedAt (key : NamespacedName) (now : time) (m : computed_map) : computed_map := <[key_string key := now]> m.
Definition forgetComputedAt (key : NamespacedName) (m : computed_map) : computed_map := delete (key_string key) m.

Definition set_sub_status (s : FrameAlertSubscription) (st : FrameAlertSubscriptionStatus) : FrameAlertSubscription :=
  mkSubscription (sn_Namespace s) (sn_Name s) (sn_Generation s) (sn_Created s) (sn_Spec s) st.

(** The wait a pass at [now] still owes to the last computation. *)
Definition gate (m : computed_map) (key : NamespacedName) (sub : FrameAlertSubscription) (now : time) : option Z :=
  let last := computedAt m key sub in
  if is_zero last then None
  else let wait := GoTime.sub (add_time last statusRecomputeEvery) now in if 0 <? wait then Some wait else None.

Section Status.
Context {W : Type} {SW : SubWorld W}.

(** Never older than what the status says. *)
Definition kept_success (sub : FrameAlertSubscription) (found : option time) : option time :=
  match found with
  | None => ss_LastSuccessAt (sn_Status sub)
  | Some t => match ss_LastSuccessAt (sn_Status sub) with
              | Some u => if after u t then Some u else found
              | None => found
              end
  end.

Definition Reconcile (namespace : string) (req : NamespacedName) : St (computed_map * W) (result apierr Z) :=
  g ← beside (sub_get req);
  match g with
  | inl e => if err_notfound e then _ ← remember (forgetComputedAt req); mret (inr 0) else mret (inl e)
  | inr sub =>
    now ← beside sub_now;
    m ← memory;
    match gate m req sub now with
    | Some wait => mret (inr wait)
    | None =>
      l ← beside (sub_alerts namespace);
      match l with
      | inl e => mret (inl e)
      | inr alerts =>
        let t := tallyDeliveries sub alerts in
        let lastSuccess := kept_success sub (t_lastSuccess t) in
        _ ← remember (rememberComputedAt req now);
        let st := sn_Status sub in
        if bool_decide (ss_ObservedGeneration st <> sn_Generation sub) || bool_decide (ss_PendingDeliveries st <> t_pending t) ||
           negb (equalTimes (ss_LastSuccessAt st) lastSuccess) || bool_decide (ss_LastError st <> t_lastError t)
        then
          p ← beside (sub_patch sub (set_sub_status sub (mkSubStatus (sn_Generation sub) lastSuccess (t_lastError t) (t_pending t) (Some now))));
          mret (match p with inl e => inl e | inr _ => inr statusRecomputeEvery end)
        else mret (inr statusRecomputeEvery)
      end
    end
  end.
End Status.

(** ** What is pending is what the relay owes *)

#[export] Instance takes_dec f a : Decision (takes f a).
Proof. unfold takes. apply _. Defined.
#[export] Instance open_entry_dec e : Decision (open_entry e).
Proof.
  destruct e as [d|]; [|right; by intros (? & ? & _)].
  destruct (decide (ad_DeliveredState d = "Firing" /\ ad_Excluded d = false)); [left|right]; unfold open_entry; naive_solver.
Defined.
#[export] Instance concerned_decision fa sub e : Decision (concerned fa sub e).
Proof. unfold concerned. apply _. Defined.

(** The alert concerns the subscription, whose record does not say that its state was delivered. *)
Definition outstanding (sub : FrameAlertSubscription) (a : RelayAlert) : Prop :=
  let e := entry_of (sn_Name sub) (ra_Deliveries a) in
  ra_State a <> "" /\ concerned a sub e /\ told_state e <> ra_State a.
(** The relay passes over a resolved alert that has no record for the subscription and is older than it: it
    marks it delivered and sends nothing. *)
Definition passed_over (sub : FrameAlertSubscription) (a : RelayAlert) : Prop :=
  entry_of (sn_Name sub) (ra_Deliveries a) = None /\ ra_State a = "Resolved" /\ unix_nano (ra_Created a) < unix_nano (sn_Created sub).
(** What it owes is the rest. *)
Definition owes (sub : FrameAlertSubscription) (a : RelayAlert) : Prop := outstanding sub a /\ ~ passed_over sub a.
Definition to_mark (sub : FrameAlertSubscription) (a : RelayAlert) : Prop := outstanding sub a /\ passed_over sub a.
#[export] Instance outstanding_dec sub a : Decision (outstanding sub a).
Proof. unfold outstanding. cbv zeta. apply _. Defined.
#[export] Instance passed_over_dec sub a : Decision (passed_over sub a).
Proof. unfold passed_over. apply _. Defined.
#[export] Instance owes_dec sub a : Decision (owes sub a).
Proof. unfold owes. apply _. Defined.
#[export] Instance to_mark_dec sub a : Decision (to_mark sub a).
Proof. unfold to_mark. apply _. Defined.

(** The relay's turn for a subscription delivers what is owed, and marks what is passed over without a call. *)
Theorem relay_serves_owed {W} `{RW : RelayWorld W} fa now sub : let e := existing (ra_Deliveries fa) !! sn_Name sub in
  (owes sub fa -> relay_one fa (ra_State fa) now e sub = (r ← deliver sub fa (starting sub e (ra_State fa)) (ra_State fa) now; mret (Some r.1, r.2))) /\
  (to_mark sub fa -> exists d, relay_one fa (ra_State fa) now e sub = mret (Some d, 0) /\ ad_DeliveredState d = ra_State fa).
Proof.
  intros e. unfold owes, to_mark, outstanding, passed_over. rewrite <- existing_entry. fold e. unfold concerned. rewrite <- Matches_takes, <- keepDriving_open.
  assert (forall P Q : bool, P = true \/ Q = true -> negb P && negb Q = false) as Hb by (by intros [] [] [?|?]).
  assert (bool_decide (e = None) && bool_decide (ra_State fa = AlertStateResolved) && after (sn_Created sub) (ra_Created fa) = true <->
    e = None /\ ra_State fa = "Resolved" /\ unix_nano (ra_Created fa) < unix_nano (sn_Created sub)) as Hp.
  { rewrite !andb_true_iff, !bool_decide_eq_true. unfold after. rewrite Z.ltb_lt. unfold AlertStateResolved. tauto. }
  unfold relay_one. cbv zeta. split.
  - intros [(_ & Hc & _) Hn]. rewrite Hb by done. destruct (_ && after _ _); [by destruct Hn; apply Hp|done].
  - intros [(_ & Hc & _) Hy%Hp]. rewrite Hb, Hy by done. eexists. split; [done|done].
Qed.

Lemma delivery_of_existing name ds : delivery_of name ds = existing ds !! name.
Proof.
  unfold delivery_of, existing. assert (forall (m : gmap string AlertDelivery) r, m !! name = r ->
    foldl (fun r d => if bool_decide (ad_Subscription d = name) then Some d else r) r ds = foldl (fun m d => <[ad_Subscription d := d]> m) m ds !! name) as H.
  { induction ds as [|d ds IH]; intros m r Hm; cbn; [done|]. apply IH. case_bool_decide as E; [by rewrite E, lookup_insert_eq|by rewrite lookup_insert_ne]. }
  apply H. by rewrite lookup_empty.
Qed.

Lemma tally_one_pending sub t a : known_state (ra_State a) ->
  t_pending (tally_one sub t a) = if decide (outstanding sub a) then wrap32 (t_pending t + 1) else t_pending t.
Proof.
  intros Hk. unfold tally_one. cbv zeta. rewrite delivery_of_existing.
  assert (outstanding sub a <-> ra_State a <> "" /\ (Matches (ss_Filter (sn_Spec sub)) (ra_Alert a) = true \/ keepDriving (existing (ra_Deliveries a) !! sn_Name sub) = true) /\
    told_state (existing (ra_Deliveries a) !! sn_Name sub) <> ra_State a) as Ho.
  { unfold outstanding, concerned. cbv zeta. by rewrite Matches_takes, keepDriving_open, existing_entry. }
  destruct (decide (ra_State a = "")) as [E|E]; [rewrite (bool_decide_true _ E); by rewrite decide_False by tauto|rewrite (bool_decide_false _ E)].
  destruct Hk as [?|Hk]; [done|]. destruct (existing _ !! _) as [d|]; cbn [keepDriving stillOpenForResolution told_state fmap option_fmap option_map default] in *.
  - rewrite andb_true_iff, bool_decide_eq_true, negb_true_iff in Ho.
    destruct (Matches _ _); cbn [negb andb t_pending].
    + case_bool_decide as Ed; [rewrite decide_True by tauto|rewrite decide_False by tauto]; done.
    + destruct (decide (ad_DeliveredState d = AlertStateFiring /\ ad_Excluded d = false)) as [[Ef Ex]|Ef].
      * rewrite Ef, Ex, (bool_decide_true (AlertStateFiring = AlertStateFiring)) by done. cbn [negb andb]. destruct Hk as [Hk|Hk]; rewrite Hk in *.
        -- cbn [t_pending]. rewrite decide_False; [done|]. rewrite Ho, Ef. tauto.
        -- cbn [t_pending]. rewrite decide_True; [done|]. rewrite Ho, Ef. split; [done|]. split; [by right|done].
      * rewrite decide_False by (rewrite Ho; intros (_ & [?|?] & _); [done|tauto]).
        destruct (bool_decide (ad_DeliveredState d = AlertStateFiring)) eqn:E1; [|done]. destruct (ad_Excluded d) eqn:E2; [done|].
        apply bool_decide_eq_true in E1. tauto.
  - destruct (Matches _ _); cbn [negb andb t_pending]; [rewrite decide_True; [done|]|rewrite decide_False; [done|]]; rewrite Ho; [|by intros (_ & [?|?] & _)].
    split; [done|]. split; [by left|]. destruct Hk as [->| ->]; done.
Qed.

Lemma tally_counts sub alerts : Forall (fun a => known_state (ra_State a)) alerts ->
  forall t, 0 <= t_pending t -> t_pending t + Z.of_nat (length alerts) < 2 ^ 31 ->
  t_pending (foldl (tally_one sub) t alerts) = t_pending t + Z.of_nat (length (filter (outstanding sub) alerts)).
Proof.
  induction 1 as [|a alerts Ha _ IH]; intros t H0 Ht; [cbn; lia|]. cbn [length foldl] in *. pose proof (tally_one_pending sub t a Ha) as Hp.
  rewrite filter_cons. destruct (decide (outstanding sub a)); [rewrite wrap32_small in Hp by (unfold int32_ok; lia)|]; rewrite IH; rewrite ?Hp; cbn [length]; lia.
Qed.
Lemma outstanding_split sub alerts : length (filter (outstanding sub) alerts) = (length (filter (owes sub) alerts) + length (filter (to_mark sub) alerts))%nat.
Proof.
  induction alerts as [|a alerts IH]; [done|]. rewrite !filter_cons. unfold owes at 1, to_mark at 1.
  destruct (decide (outstanding sub a)), (decide (passed_over sub a)), (decide _), (decide _); cbn [length]; try tauto; lia.
Qed.

Definition instant_le (t u : option time) : Prop :=
  match t, u with Some x, Some y => unix_nano x <= unix_nano y | Some _, None => False | None, _ => True end.
Lemma instant_le_trans t u v : instant_le t u -> instant_le u v -> instant_le t v.
Proof. destruct t, u, v; cbn; try lia; tauto. Qed.
Lemma kept_success_le sub found : instant_le (ss_LastSuccessAt (sn_Status sub)) (kept_success sub found) /\ instant_le found (kept_success sub found).
Proof.
  unfold kept_success. destruct found as [t|], (ss_LastSuccessAt (sn_Status sub)) as [u|]; cbn; try lia; try tauto.
  unfold after. destruct (_ <? _) eqn:E; cbn; [apply Z.ltb_lt in E|apply Z.ltb_ge in E]; lia.
Qed.

Lemma later_success_le t u : instant_le t (later_success t u) /\ instant_le u (later_success t u).
Proof.
  unfold later_success, later_than, after. destruct u as [x|], t as [y|]; cbn; try lia; try tauto.
  destruct (_ <? _) eqn:E; cbn; [apply Z.ltb_lt in E|apply Z.ltb_ge in E]; lia.
Qed.
Lemma tally_one_success sub t a : instant_le (t_lastSuccess t) (t_lastSuccess (tally_one sub t a)).
Proof.
  assert (instant_le (t_lastSuccess t) (t_lastSuccess t)) as Hr by (destruct (t_lastSuccess t); cbn; lia).
  unfold tally_one. case_bool_decide; [exact Hr|]. cbv zeta. destruct (_ && _); [exact Hr|].
  destruct (delivery_of _ _); [apply later_success_le|exact Hr].
Qed.
Lemma tally_success sub alerts : forall t, instant_le (t_lastSuccess t) (t_lastSuccess (foldl (tally_one sub) t alerts)).
Proof.
  induction alerts as [|a alerts IH]; intros t; cbn; [destruct (t_lastSuccess t); cbn; lia|]. eapply instant_le_trans; [apply tally_one_success|apply IH].
Qed.
(** The success of every delivery of an alert the filter takes is counted. *)
Lemma tally_success_in sub alerts a d : a ∈ alerts -> ra_State a <> "" -> takes (ss_Filter (sn_Spec sub)) (ra_Alert a) ->
  entry_of (sn_Name sub) (ra_Deliveries a) = Some d -> forall t, instant_le (ad_LastDeliveredAt d) (t_lastSuccess (foldl (tally_one sub) t alerts)).
Proof.
  intros Ha Hst Hm%Matches_takes Hd. rewrite <- existing_entry in Hd. induction Ha as [a alerts|a b alerts _ IH]; intros t; cbn; [|by apply IH].
  eapply instant_le_trans; [|apply tally_success]. unfold tally_one. rewrite bool_decide_false by done. cbv zeta.
  rewrite delivery_of_existing, Hd, Hm. apply later_success_le.
Qed.

(** ** The pass *)

Inductive scall :=
| SGet (n : NamespacedName) (r : result apierr FrameAlertSubscription)
| SAlerts (ns : string) (r : result apierr (list RelayAlert))
| SNow (t : time)
| SPatch (old new : FrameAlertSubscription) (r : result apierr FrameAlertSubscription).
Class TracedSubs (W : Type) `{SW : SubWorld W} := {
  scalls : W -> list scall;
  s_get n w : scalls (sub_get n w).2 = scalls w ++ [SGet n (sub_get n w).1];
  s_alerts n w : scalls (sub_alerts n w).2 = scalls w ++ [SAlerts n (sub_alerts n w).1];
  s_now w : scalls (sub_now w).2 = scalls w ++ [SNow (sub_now w).1];
  s_patch o n w : scalls (sub_patch o n w).2 = scalls w ++ [SPatch o n (sub_patch o n w).1]
}.

(** A minute has passed since an instant, where it is one. *)
Definition minute_old (now t : time) : Prop := unix_nano zero_time < unix_nano t -> unix_nano t + 60 * 10 ^ 9 <= unix_nano now.
(** The alerts are listed only when the last computation is a minute old, and the status written says
    what the relay owes or will mark, and of successes the latest. *)
Definition smay (m : computed_map) (req : NamespacedName) (pre : list scall) (x : scall) : Prop :=
  match x with
  | SAlerts _ _ => exists sub now, SGet req (inr sub) ∈ pre /\ SNow now ∈ pre /\
      (forall t, m !! (req.1 +:+ "/" +:+ req.2) = Some t -> minute_old now t) /\
      (forall t, ss_ComputedAt (sn_Status sub) = Some t -> ss_ObservedGeneration (sn_Status sub) = sn_Generation sub -> minute_old now t)
  | SPatch old new _ => SGet req (inr old) ∈ pre /\ exists ns alerts, SAlerts ns (inr alerts) ∈ pre /\
      new = set_sub_status old (sn_Status new) /\ ss_ObservedGeneration (sn_Status new) = sn_Generation old /\
      (Forall (fun a => known_state (ra_State a)) alerts -> Z.of_nat (length alerts) < 2 ^ 31 ->
       ss_PendingDeliveries (sn_Status new) = Z.of_nat (length (filter (owes old) alerts)) + Z.of_nat (length (filter (to_mark old) alerts))) /\
      instant_le (ss_LastSuccessAt (sn_Status old)) (ss_LastSuccessAt (sn_Status new)) /\
      forall a d, a ∈ alerts -> ra_State a <> "" -> takes (ss_Filter (sn_Spec old)) (ra_Alert a) ->
        entry_of (sn_Name old) (ra_Deliveries a) = Some d -> instant_le (ad_LastDeliveredAt d) (ss_LastSuccessAt (sn_Status new))
  | _ => True
  end.

Lemma gate_open m key sub now : gate m key sub now = None ->
  (forall t, m !! key_string key = Some t -> minute_old now t) /\
  (forall t, ss_ComputedAt (sn_Status sub) = Some t -> ss_ObservedGeneration (sn_Status sub) = sn_Generation sub -> minute_old now t).
Proof.
  unfold gate. cbv zeta. set (last := computedAt m key sub). intros Hg.
  assert (minute_old now last) as Hl.
  { unfold minute_old, is_zero, GoTime.sub, add_time, statusRecomputeEvery, minute, second in *. intros Hz. destruct (_ =? _) eqn:E0; [apply Z.eqb_eq in E0; lia|].
    cbn [unix_nano] in Hg. destruct (0 <? _) eqn:Ew; [done|]. apply Z.ltb_ge in Ew. lia. }
  assert (forall t, unix_nano t <= unix_nano last -> minute_old now t) as Hle by (unfold minute_old in *; intros t Ht Hz; lia).
  subst last. unfold computedAt in *. cbv zeta in *. split.
  - intros t Ht. apply Hle. rewrite Ht. match goal with |- _ <= unix_nano (if ?b then _ else _) => destruct b eqn:E end; [done|]. by apply Z.ltb_ge in E.
  - intros t Ht Hgen. apply Hle. rewrite Ht, Hgen, Z.eqb_refl. destruct (m !! _) as [u|]; [|done].
    match goal with |- _ <= unix_nano (if ?b then _ else _) => destruct b eqn:E end; [|done]. apply Z.ltb_lt in E. lia.
Qed.
Lemma gate_remembered m key now now' : after now zero_time = true -> (forall t, rememberComputedAt key now m !! key_string key = Some t -> minute_old now' t) ->
  unix_nano now + minute <= unix_nano now'.
Proof.
  intros Hz%Z.ltb_lt H. apply (H now); [apply lookup_insert_eq|exact Hz].
Qed.

Section Pass.
Context {W : Type} {SW : SubWorld W} {TS : TracedSubs W}.

Lemma written_ok m req sub now ns alerts : let t := tallyDeliveries sub alerts in
  smay m req [SGet req (inr sub); SNow now; SAlerts ns (inr alerts)]
    (SPatch sub (set_sub_status sub (mkSubStatus (sn_Generation sub) (kept_success sub (t_lastSuccess t)) (t_lastError t) (t_pending t) (Some now))) (inl (plain_err ""))).
Proof.
  intros t. split; [set_solver|]. exists ns, alerts. split; [set_solver|]. cbn. split; [done|]. split; [done|]. split.
  { intros Hk Hl. unfold t, tallyDeliveries. rewrite tally_counts by done. rewrite outstanding_split. cbn [t_pending]. lia. }
  split; [apply kept_success_le|]. intros a d Ha Hst Hm Hd. eapply instant_le_trans; [|apply kept_success_le].
  unfold t, tallyDeliveries. by eapply tally_success_in.
Qed.

#[local] Ltac one_now := intros u v; rewrite !elem_of_cons, !elem_of_nil; intros Hu Hv; destruct_or?; by simplify_eq.

(** A pass: the calls it adds, and what it leaves in the map. *)
Lemma status_runs ns req m w : let s' := (Reconcile ns req (m, w)).2 in
  exists t, scalls s'.2 = (scalls w ++ t)%list /\ justified (smay m req) [] t /\ (forall u v, SNow u ∈ t -> SNow v ∈ t -> u = v) /\
    ((exists sub now alerts t', t = SGet req (inr sub) :: SNow now :: SAlerts ns (inr alerts) :: t' /\ s'.1 = rememberComputedAt req now m) \/
     forall n l, SAlerts n (inr l) ∉ t).
Proof.
  unfold Reconcile. cbv zeta. rewrite St_bind_run, beside_run. cbn [fst snd]. pose proof (s_get req w) as Hg.
  destruct (sub_get req w) as [g w1]; cbn [fst snd] in *. destruct g as [e|sub].
  { exists [SGet req (inl e)]. split; [destruct (err_notfound e); exact Hg|]. split; [done|]. split; [one_now|]. right. set_solver. }
  rewrite St_bind_run, beside_run. pose proof (s_now w1) as Hn. cbn [fst snd]. destruct (sub_now w1) as [now w2]; cbn [fst snd] in *.
  rewrite Hg, <- app_assoc in Hn. cbn [app] in Hn. rewrite St_bind_run. unfold memory. cbn [fst snd].
  destruct (gate m req sub now) as [wait|] eqn:Eg.
  { exists [SGet req (inr sub); SNow now]. split; [exact Hn|]. split; [done|]. split; [one_now|]. right. set_solver. }
  rewrite St_bind_run, beside_run. pose proof (s_alerts ns w2) as Hl. cbn [fst snd]. destruct (sub_alerts ns w2) as [l w3]; cbn [fst snd] in *.
  rewrite Hn, <- app_assoc in Hl. cbn [app] in Hl.
  assert (smay m req [SGet req (inr sub); SNow now] (SAlerts ns l)) as Hmay by (exists sub, now; split; [set_solver|]; split; [set_solver|by apply gate_open]).
  destruct l as [e|alerts].
  { exists [SGet req (inr sub); SNow now; SAlerts ns (inl e)]. split; [exact Hl|]. split; [by repeat split|]. split; [one_now|]. right. set_solver. }
  rewrite St_bind_run. unfold remember. cbn [fst snd]. set (new := set_sub_status sub _). destruct (_ || _).
  - rewrite St_bind_run, beside_run. pose proof (s_patch sub new w3) as Hp. cbn [fst snd]. destruct (sub_patch sub new w3) as [p w4]; cbn [fst snd] in *.
    rewrite Hl, <- app_assoc in Hp. cbn [app] in Hp. eexists. split; [exact Hp|].
    split; [|split; [one_now|left; by eexists _, _, _, _]]. split; [done|]. split; [done|]. split; [exact Hmay|]. split; [apply (written_ok m req sub now ns alerts)|done].
  - eexists. split; [exact Hl|]. split; [by repeat split|]. split; [one_now|]. left. by eexists _, _, _, _.
Qed.

(** C39. A pass lists the alerts only when the last computation of this process, or
    the one the status records for this generation, is a minute old; the status it
    writes counts exactly the alerts the relay still owes to the subscription and those it
    has yet to mark delivered without sending ([relay_serves_owed] says what it does with each), and its last success is never older than before nor
    than that of a delivery the filter takes. *)
Theorem status_is_owed ns req m w : exists t, scalls (Reconcile ns req (m, w)).2.2 = (scalls w ++ t)%list /\ justified (smay m req) [] t.
Proof. destruct (status_runs ns req m w) as (t & Ht & Hj & _). eauto. Qed.

(** Two passes of one process over a subscription, with anything in between on
    the API server: when both list the alerts, the second comes at least a minute
    after the first. *)
Theorem status_once_a_minute ns req m w w' t1 t2 now1 now2 l1 l2 :
  let s' := (Reconcile ns req (m, w)).2 in
  scalls s'.2 = (scalls w ++ t1)%list -> SNow now1 ∈ t1 -> SAlerts ns (inr l1) ∈ t1 ->
  scalls (Reconcile ns req (s'.1, w')).2.2 = (scalls w' ++ t2)%list -> SNow now2 ∈ t2 -> SAlerts ns l2 ∈ t2 -> after now1 zero_time = true ->
  unix_nano now1 + minute <= unix_nano now2.
Proof.
  intros s' H1 Hn1 Hl1 H2 Hn2 Hl2 Hz. subst s'. destruct (status_runs ns req m w) as (t & Ht & _ & Hu & Hm). rewrite H1 in Ht. apply (inj (app _)) in Ht as <-.
  destruct Hm as [(sub & now & l & t' & -> & Hm)|Hno]; [|by destruct (Hno ns l1)]. rewrite (Hu now1 now) in * by (done || set_solver).
  destruct (status_runs ns req (Reconcile ns req (m, w)).2.1 w') as (t & Ht & Hj & Hu' & _). rewrite H2 in Ht. apply (inj (app _)) in Ht as <-.
  destruct (justified_elem _ _ _ _ Hj Hl2) as (t1 & Hs & sub' & now' & Hg & Hn' & Hgate & _). cbn [app] in *. rewrite Hm in Hgate.
  rewrite (Hu' now' now2) in Hgate by auto. by apply (gate_remembered m req).
Qed.
End Pass.

(** ** A relayed alert is received as it was *)

(** The payload the relay sends of a recorded alert, in the state it is
    recorded in, is one the receiver takes, and what the receiver would record of
    it is the spec that was relayed: a Frame that subscribes to another stores the
    same alert. *)
Theorem relayed_as_received name al fa receiver :
  fingerprint_ok (al_Fingerprint al) = true -> fa = mkFrameAlert name (alert_spec al) (alert_state al) None ->
  (size (al_Labels al) <= maxMapEntries)%nat ->
  map_Forall (fun k v => bounded_string k maxKeyBytes /\ bounded_string v maxValueBytes) (al_Labels al) ->
  let p := buildPayload receiver fa (fa_State fa) in
  Validate p = None /\ exists b, pl_Alerts p = [b] /\ alert_spec b = fa_Spec fa /\ alert_state b = fa_State fa.
Proof.
  intros Hfp -> Hsize Hlab p. subst p. unfold buildPayload. cbv zeta. cbn [fa_State fa_Spec].
  assert (forall m, BoundMap (BoundMap m) = BoundMap m) as Hbb.
  { intros m. destruct (BoundMap_bounds m) as (H1 & H2 & _). apply (proj2 (proj2 (BoundMap_bounds (BoundMap m)))); [done|]. intros k v. apply H2. }
  assert (forall s n, truncate (truncate s n) n = truncate s n) as Htt by (intros s n; destruct (truncate_ok s n); by apply truncate_id).
  pose proof (proj2 (proj2 (BoundMap_bounds (al_Labels al))) Hsize Hlab) as Hl.
  assert (bool_decide (alert_state al = AlertStateResolved) = bool_decide (al_Status al = StatusResolved)) as Hres.
  { unfold alert_state. destruct (bool_decide (al_Status al = StatusResolved)); done. }
  rewrite Hres. split.
  - apply Validate_ok. split; [done|]. split; [cbn; unfold MaxAlertsPerRequest; lia|]. constructor; [|constructor].
    split; [done|]. cbn [al_Status]. destruct (bool_decide (al_Status al = StatusResolved)); reflexivity.
  - eexists. split; [reflexivity|]. unfold alert_spec, alert_state.
    cbn [al_Status al_Labels al_Annotations al_StartsAt al_EndsAt al_GeneratorURL al_Fingerprint
         fas_Fingerprint fas_AlertName fas_Severity fas_Namespace fas_Labels fas_Annotations fas_StartsAt fas_EndsAt fas_GeneratorURL].
    rewrite !Hbb, !Hl, !Htt, !truncate_second_idem.
    destruct (bool_decide (al_Status al = StatusResolved)); 
      [change (bool_decide (StatusResolved = StatusResolved)) with true|change (bool_decide (StatusFiring = StatusResolved)) with false];
      cbn [default id]; rewrite ?truncate_second_idem; split; reflexivity.
Qed.

(** ** The in-memory world *)

(** One alert; the subscriptions; the clock's remaining readings; and the answers
    of the tenants, in order ([None] is a broken connection). *)
Record world := mkWorld {
  log : list rcall; alert : option RelayAlert; subscriptions : list FrameAlertSubscription; clock : list time; answers : list (option Z)
}.
Definition note (x : rcall) (w : world) : world := mkWorld (log w ++ [x]) (alert w) (subscriptions w) (clock w) (answers w).
Definition secret : TokenSecret := mkTokenSecret {[AlertTokenLabel := "true"]} {["token" := "s3cret"]}.

#[local] Instance mem_relay : RelayWorld world := {|
  relay_get := fun n w => let r := match alert w with Some a => inr a | None => inl (ApiErr "not found" true false) end in (r, note (RGet n r) w);
  relay_subs := fun n w => (inr (subscriptions w), note (RSubs n (inr (subscriptions w))) w);
  relay_now := fun w => let t := default (at_s 0) (head (clock w)) in (t, note (RNow t) (mkWorld (log w) (alert w) (subscriptions w) (tail (clock w)) (answers w)));
  relay_patch := fun o n w =>
    let a := mkRelayAlert (ra_Namespace n) (ra_Created n) (ra_ResourceVersion n +:+ "'") (ra_Alert n) (ra_Deliveries n) in
    (inr a, note (RPatch o n (inr a)) (mkWorld (log w) (Some a) (subscriptions w) (clock w) (answers w)));
  relay_delete := fun a v w => (None, note (RDelete a v None) (mkWorld (log w) None (subscriptions w) (clock w) (answers w)));
  relay_secret := fun n w => (inr secret, note (RSecret n (inr secret)) w);
  url_error := fun _ => None;
  relay_do := fun q w => let r := match head (answers w) with Some (Some c) => inr c | Some None => inl "connection refused" | None => inr 200 end in
    (r, note (RDo q r) (mkWorld (log w) (alert w) (subscriptions w) (clock w) (tail (answers w))))
|}.
#[local] Instance mem_traced : TracedRelay world.
Proof. by refine {| calls := log |}. Defined.

Definition everything : AlertFilter := mkAlertFilter [] [] [].
Definition tenant (created : time) : FrameAlertSubscription :=
  mkSubscription "frame-system" "tenant" 1 created (mkSubSpec "https://tenant.example/hook" (mkTokenRef "tok" "token") everything false)
    (mkSubStatus 0 None "" 0 None).
Definition disk_alert (state : string) (endsAt : option time) : RelayAlert :=
  mkRelayAlert "frame-system" (at_s 0) "1"
    (mkFrameAlert "fa-ab" (mkFASpec "ab" "DiskFull" "critical" "" {["alertname" := "DiskFull"]} ∅ (at_s 0) endsAt "") state (Some (at_s 0))) [].
Definition relay : RelayReconciler := mkRelay "frame-system" (24 * hour).
Definition req : NamespacedName := ("frame-system", "fa-ab").
Definition receives (state : string) (endsAt : option time) (w : world) : world :=
  mkWorld (log w) (match alert w with
                   | Some a => Some (mkRelayAlert (ra_Namespace a) (ra_Created a) (ra_ResourceVersion a) (ra_Alert (disk_alert state endsAt)) (ra_Deliveries a))
                   | None => None end) (subscriptions w) (clock w) (answers w).

(** The alert fires before the subscription exists in its record and is sent;
    it resolves, the tenant is down once, the back-off runs out, the resolution
    is delivered, and a day later the alert is deleted. *)
Definition start : world :=
  mkWorld [] (Some (disk_alert AlertStateFiring None)) [tenant (at_s (-10))] [at_s 1; at_s 100; at_s 102; at_s 106; at_s 90000] [Some 200; None; Some 200].
Definition w1 : world := (Relay.Reconcile relay req start).2.
Definition w2 : world := (Relay.Reconcile relay req (receives AlertStateResolved (Some (at_s 90)) w1)).2.
Definition w3 : world := (Relay.Reconcile relay req w2).2.
Definition w4 : world := (Relay.Reconcile relay req w3).2.
Definition w5 : world := (Relay.Reconcile relay req w4).2.

Definition sends (w : world) : nat := length (List.filter (fun x => match x with RDo _ _ => true | _ => false end) (log w)).
Definition states (w : world) : list string := match alert w with Some a => map ad_DeliveredState (ra_Deliveries a) | None => [] end.
Example relay_runs :
  (sends w1, sends w2, sends w3, sends w4, sends w5) = (1, 2, 2, 3, 3)%nat /\
  (states w1, states w2, states w4) = (["Firing"], ["Firing"], ["Resolved"]) /\ bool_decide (is_Some (alert w4)) = true /\ alert w5 = None /\
  (Relay.Reconcile relay req w2).1 = inr (3 * second).
Proof. vm_compute. repeat split; reflexivity. Qed.


(** The second pass reads what the first one recorded. *)
Definition between : world := receives AlertStateResolved (Some (at_s 90)) w1.
Definition second_calls : list rcall := drop (length (log w1)) (log w2).
Definition gets_only (a : RelayAlert) (x : rcall) : Prop := match x with RGet _ (inr b) => b = a | _ => True end.
Lemma gets_are a t : Forall (gets_only a) t -> forall n b, RGet n (inr b) ∈ t -> b = a.
Proof. intros H n b Hb. rewrite Forall_forall in H. exact (H _ Hb). Qed.

Definition first_record : AlertDelivery := mkDelivery "tenant" "Firing" 0 "" (Some (at_s 1)) (Some (at_s 1)) false "" 1 false.
Definition stored : RelayAlert :=
  mkRelayAlert "frame-system" (at_s 0) "1'" (ra_Alert (disk_alert AlertStateResolved (Some (at_s 90)))) [first_record].

Lemma start_relayed : relayed (log w1) w1.
Proof.
  apply (relayed_pass [] start relay req (log w1)); [constructor|vm_compute; reflexivity|]. intros n a H.
  rewrite (gets_are (disk_alert AlertStateFiring None) (log w1)) with (n := n) (b := a); [|vm_compute; repeat constructor|done].
  split; [by intros d ?%not_elem_of_nil|right; by left].
Qed.

Lemma second_relayed : relayed (log w1 ++ second_calls) w2.
Proof.
  apply (relayed_pass (log w1) between relay req second_calls); [apply (relayed_meanwhile _ w1), start_relayed|vm_compute; reflexivity|]. intros n a H.
  rewrite (gets_are stored second_calls) with (n := n) (b := a); [|vm_compute; repeat constructor|done].
  split; [|right; by right]. intros d ->%list_elem_of_singleton.
  exists (disk_alert AlertStateFiring None), (with_deliveries (disk_alert AlertStateFiring None) [first_record]), (inr (mkRelayAlert "frame-system" (at_s 0) "1'" (ra_Alert (disk_alert AlertStateFiring None)) [first_record])), first_record.
  split; [apply (list_elem_of_lookup_2 _ 5%nat); vm_compute; reflexivity|]. split; [apply list_elem_of_here|done].
Qed.

Definition the_send (t : list rcall) : option (list rcall * rcall * list rcall) :=
  match list_find (fun x => match x with RDo _ _ => true | _ => false end = true) t with
  | Some (i, x) => Some (take i t, x, drop (S i) t)
  | None => None
  end.

Lemma resolution_follows_firing_witness :
  exists h1 q h2, log w1 ++ second_calls = h1 ++ RDo q (inl "connection refused") :: h2 /\
  exists sub a tok st, tells q tok sub a st /\ (st = AlertStateFiring \/
    (st = AlertStateResolved /\ told h1 (sn_Name sub) (fas_Fingerprint (fa_Spec a)) AlertStateFiring)).
Proof.
  destruct (the_send second_calls) as [[[a x] b]|] eqn:E; [|by vm_compute in E].
  assert (exists q, x = RDo q (inl "connection refused") /\ second_calls = a ++ x :: b) as (q & -> & Hs).
  { vm_compute in E. simplify_eq. eexists. split; [reflexivity|]. vm_compute. reflexivity. }
  exists (log w1 ++ a), q, b. rewrite <- app_assoc, <- Hs. split; [done|].
  eapply (resolution_follows_firing _ w2 _ q (inl "connection refused") b); [apply second_relayed|]. by rewrite Hs, <- app_assoc.
Defined.

Lemma relayed_as_received_witness :
  let al := mkAlert StatusResolved {["alertname" := "DiskFull"]} ∅ (at_s 0) (at_s 90) "" "ab" in
  let fa := mkFrameAlert "fa-ab" (alert_spec al) (alert_state al) None in
  Validate (buildPayload "tenant" fa (fa_State fa)) = None.
Proof.
  intros al fa. apply (relayed_as_received "fa-ab" al fa "tenant"); [vm_compute; reflexivity|reflexivity|vm_compute; lia|].
  apply map_Forall_singleton. split; split; vm_compute; try reflexivity; lia.
Defined.

(** ** The status of the subscription *)

Record sworld := mkSWorld { slog : list scall; the_sub : FrameAlertSubscription; the_alerts : list RelayAlert; the_time : time }.
Definition snote (x : scall) (w : sworld) : sworld := mkSWorld (slog w ++ [x]) (the_sub w) (the_alerts w) (the_time w).
#[local] Instance mem_sub : SubWorld sworld := {|
  sub_get := fun n w => (inr (the_sub w), snote (SGet n (inr (the_sub w))) w);
  sub_alerts := fun n w => (inr (the_alerts w), snote (SAlerts n (inr (the_alerts w))) w);
  sub_now := fun w => (the_time w, snote (SNow (the_time w)) w);
  sub_patch := fun o n w => (inr n, snote (SPatch o n (inr n)) (mkSWorld (slog w) n (the_alerts w) (the_time w)))
|}.
#[local] Instance mem_sub_traced : TracedSubs sworld.
Proof. by refine {| scalls := slog |}. Defined.

Definition sreq : NamespacedName := ("frame-system", "tenant").
Definition watched : sworld := mkSWorld [] (tenant (at_s (-10))) [disk_alert AlertStateFiring None] (at_s 1000).
Definition later (n : Z) (w : sworld) : sworld := mkSWorld [] (the_sub w) (the_alerts w) (at_s n).
Definition counted : computed_map * sworld := (SubscriptionStatus.Reconcile "frame-system" sreq (∅, watched)).2.

Lemma status_is_owed_witness :
  (exists t, scalls (SubscriptionStatus.Reconcile "frame-system" sreq (∅, watched)).2.2 = (scalls watched ++ t)%list /\ justified (smay ∅ sreq) [] t) /\
  ss_PendingDeliveries (sn_Status (the_sub counted.2)) = 1.
Proof. split; [apply status_is_owed|vm_compute; reflexivity]. Defined.

Lemma status_once_a_minute_witness :
  unix_nano (at_s 1000) + minute <= unix_nano (at_s 1060) /\
  slog (SubscriptionStatus.Reconcile "frame-system" sreq (counted.1, later 1059 counted.2)).2.2 = [SGet sreq (inr (the_sub counted.2)); SNow (at_s 1059)].
Proof.
  split; [|vm_compute; reflexivity].
  eapply (status_once_a_minute "frame-system" sreq ∅ watched (later 1060 counted.2) _ _ (at_s 1000) (at_s 1060) [disk_alert AlertStateFiring None] (inr [disk_alert AlertStateFiring None]));
    [vm_compute; reflexivity| | |vm_compute; reflexivity| | |reflexivity];
    [apply (list_elem_of_lookup_2 _ 1%nat)|apply (list_elem_of_lookup_2 _ 2%nat)|apply (list_elem_of_lookup_2 _ 1%nat)|apply (list_elem_of_lookup_2 _ 2%nat)];
    vm_compute; reflexivity.
Defined.

(** ** A subscription that is never told *)

(** The alert fires; a subscription is created while it does; the manager is away
    until the alert resolved. The pass that follows marks it delivered and sends
    nothing, although the subscription was there before the alert resolved. *)
Definition while_firing : world := mkWorld [] (Some (disk_alert AlertStateResolved (Some (at_s 600)))) [tenant (at_s 300)] [at_s 700] [].
Theorem open_incident_never_sent :
  let w := (Relay.Reconcile relay req while_firing).2 in
  after (at_s 600) (sn_Created (tenant (at_s 300))) = true /\ sends w = 0%nat /\ states w = ["Resolved"].
Proof. vm_compute. repeat split; reflexivity. Qed.
