(* ===== verification/UiProxy.v ===== *)
(** internal/uiproxy: the proxy in front of the Kubernetes API server
    (proxy.go), the token verifier with its key cache (verifier.go), tokens in
    WebSocket subprotocols (websocket.go), and the recorder of what people do
    (recorder.go).

    go-jose is the class [Jose]; the API server, the key endpoint, the clock and
    what the upstream answers are the methods of [ProxyWorld]. Of net/http the
    header map is modelled, and of httputil.ReverseProxy the headers it forwards
    for a NewSingleHostReverseProxy. *)
From stdpp Require Import base tactics strings list gmap.
From Stdlib Require Import ZArith Lia Ascii.
From S2P Require Import Prelude GoLib GoTime Kube GoText.

Open Scope Z_scope.

(** ** http.Header *)

Abbreviation Header := (gmap string (list string)).

(** textproto.CanonicalMIMEHeaderKey: a name with a byte that is not a token's is
    left as it is. *)
Definition token_byte (c : ascii) : bool :=
  in_range 97 122 c || in_range 65 90 c || in_range 48 57 c || existsb (Ascii.eqb c) (to_bytes "!#$%&'*+-.^_`|~").
Definition upper_ascii (c : ascii) : ascii := if in_range 97 122 c then byteN (byteZ c - 32) else c.
Fixpoint canonical_from (upper : bool) (l : bytes) : bytes :=
  match l with
  | [] => []
  | c :: l' => (if upper then upper_ascii c else lower_ascii c) :: canonical_from (Ascii.eqb c "-") l'
  end.
Definition CanonicalKey (s : string) : string :=
  if forallb token_byte (to_bytes s) then of_bytes (canonical_from true (to_bytes s)) else s.

Definition h_Values (h : Header) (k : string) : list string := default [] (h !! CanonicalKey k).
Definition h_Get (h : Header) (k : string) : string := default "" (head (h_Values h k)).
Definition h_Del (k : string) (h : Header) : Header := delete (CanonicalKey k) h.
Definition h_Set (k v : string) (h : Header) : Header := <[CanonicalKey k := [v]]> h.
Definition h_Add (k v : string) (h : Header) : Header := <[CanonicalKey k := h_Values h k ++ [v]]> h.

(** The request as the handler gets it; [rq_RemoteIP] is the host part of
    RemoteAddr, [rq_Query] the parsed query. *)
Record Request := mkRequest {
  rq_Method : string; rq_Path : string; rq_Query : gmap string (list string); rq_Header : Header; rq_RemoteIP : option string
}.
Definition set_header (r : Request) (h : Header) : Request := mkRequest (rq_Method r) (rq_Path r) (rq_Query r) h (rq_RemoteIP r).

(** ** httputil.ReverseProxy *)

Definition hopHeaders : list string :=
  ["Connection"; "Proxy-Connection"; "Keep-Alive"; "Proxy-Authenticate"; "Proxy-Authorization"; "Te"; "Trailer"; "Transfer-Encoding"; "Upgrade"].

(** textproto.TrimString. *)
Definition trim_ows (s : string) : string := of_bytes (trim_set (fun c => existsb (Ascii.eqb c) (map byte [32; 9; 10; 13]%N)) (to_bytes s)).
(** The header names a Connection header lists. *)
Definition connection_names (h : Header) : list string :=
  List.filter (fun s => negb (bool_decide (s = ""))) (map trim_ows (flat_map (split_on ","%char) (default [] (h !! "Connection")))).
Definition removeHopByHopHeaders (h : Header) : Header :=
  foldl (fun h k => h_Del k h) (foldl (fun h k => h_Del k h) h (connection_names h)) hopHeaders.

Definition lower_string (s : string) : string := of_bytes (map lower_ascii (to_bytes s)).
(** httpguts.HeaderValuesContainsToken. *)
Definition contains_token (values : list string) (tok : string) : bool :=
  existsb (fun s => bool_decide (lower_string (trim_ows s) = lower_string tok)) (flat_map (split_on ","%char) values).
Definition upgradeType (h : Header) : string :=
  if contains_token (default [] (h !! "Connection")) "Upgrade" then h_Get h "Upgrade" else "".
Definition printable (s : string) : bool := forallb (in_range 32 126) (to_bytes s).

(** The headers of the request that goes to the transport. *)
Definition forwarded (r : Request) : Header :=
  let up := upgradeType (rq_Header r) in
  let h := removeHopByHopHeaders (rq_Header r) in
  let h := if contains_token (default [] (rq_Header r !! "Te")) "trailers" then h_Set "Te" "trailers" h else h in
  let h := if bool_decide (up = "") then h else h_Set "Upgrade" up (h_Set "Connection" "Upgrade" h) in
  let h := match rq_RemoteIP r with
           | Some ip => h_Set "X-Forwarded-For" (match default [] (h !! "X-Forwarded-For") with [] => ip | prior => join ", " prior +:+ ", " +:+ ip end) h
           | None => h
           end in
  if bool_decide (is_Some (h !! "User-Agent")) then h else h_Set "User-Agent" "" h.

(** What ReverseProxy does with the writer it was given, and how it ended. *)
Inductive wevent := EWriteHeader (code : Z) | EWrite | EHijack.
Record Answer := mkAnswer { an_Events : list wevent; an_Panicked : bool }.

(** ** recorder.go: the objects *)

Definition TaskPhaseRunning : string := "Running".
Definition TaskPhaseSucceeded : string := "Succeeded".
Definition TaskPhaseFailed : string := "Failed".
Definition TaskVerbCreate : string := "create".
Definition TaskVerbUpdate : string := "update".
Definition TaskVerbPatch : string := "patch".
Definition TaskVerbDelete : string := "delete".

Record ObjectRef := mkRef { rf_Group : string; rf_Resource : string; rf_Namespace : string; rf_Name : string; rf_Subresource : string }.
Record FrameTaskSpec := mkTaskSpec { ft_User : string; ft_Verb : string; ft_Target : ObjectRef; ft_Action : string }.
Record FrameTaskStatus := mkTaskStatus { ft_Phase : string; ft_HTTPCode : Z; ft_StartedAt : option time; ft_FinishedAt : option time }.
Record FrameTask := mkTask { ft_Namespace : string; ft_Name : string; ft_Spec : FrameTaskSpec; ft_Status : FrameTaskStatus }.

Record Identity := mkIdentity { id_User : string; id_Groups : list string }.

(** go-jose: key sets, signed tokens restricted to ES256, and the claims a key
    set opens a token to. *)
Class Jose := {
  KeySet : Type;
  Token : Type;
  TokenClaims : Type;
  claims_subject : TokenClaims -> string;
  claims_groups : TokenClaims -> list string;
  decode_keys : string -> result string KeySet;
  ParseSigned : string -> result string Token;
  token_claims : Token -> KeySet -> result string TokenClaims;
  claims_Validate : TokenClaims -> string -> string -> time -> option string       (* issuer, audience, time *)
}.

Class ProxyWorld (W : Type) := {
  px_now : St W time;
  get_keys : string -> St W (result string (Z * string * string));                 (* status code, status line, body *)
  create_task : FrameTask -> St W (result apierr FrameTask);                       (* with generateName task- *)
  update_task : FrameTask -> St W (result apierr FrameTask);                       (* the status *)
  get_task : string -> string -> St W (result apierr FrameTask);
  list_tasks : string -> St W (result apierr (list FrameTask));
  delete_task : FrameTask -> St W (option apierr);
  upstream : Request -> Header -> St W Answer
}.

(** ** proxy.go: requests *)

Section Requests.
Context `{U : Unicode}.

Definition bearer (r : Request) : string :=
  let h := to_bytes (h_Get (rq_Header r) "Authorization") in
  if (7 <? length h)%nat && EqualFold (of_bytes (take 7 h)) "bearer " then of_bytes (drop 7 h) else "".

(** The map is ranged over while entries are deleted: each key is looked at. *)
Definition stripImpersonation (h : Header) : Header :=
  foldl (fun h k => if has_prefix "Impersonate-" (CanonicalKey k) then h_Del k h else h) h (map fst (map_to_list h)).

Definition isMutating (method : string) : bool := bool_decide (method ∈ ["POST"; "PUT"; "PATCH"; "DELETE"]).

Definition subresourceExec : string := "exec".

(** The path segments after the version, and the group. *)
Definition path_rest (seg : list string) : option (string * list string) :=
  match seg with
  | "api" :: _ :: x :: l => Some ("", x :: l)
  | "apis" :: g :: _ :: x :: l => Some (g, x :: l)
  | _ => None
  end.
Definition parsePath (p : string) : option ObjectRef :=
  match path_rest (split_on "/"%char (of_bytes (trim_set (Ascii.eqb "/"%char) (to_bytes p)))) with
  | None => None
  | Some (group, rest) =>
    let '(ns, rest) := match rest with "namespaces" :: n :: x :: l => (n, x :: l) | _ => ("", rest) end in
    match rest with
    | [] => None
    | res :: l => Some (mkRef group res ns (match l with n :: _ => n | [] => "-" end) (match l with _ :: s :: _ => s | _ => "" end))
    end
  end.

Definition isExecUpgrade (r : Request) : bool :=
  bool_decide (rq_Method r = "GET") && EqualFold (h_Get (rq_Header r) "Upgrade") "websocket" &&
  match parsePath (rq_Path r) with Some ref => bool_decide (rf_Subresource ref = subresourceExec) | None => false end.

(** *** websocket.go *)

Definition bearerProtocolPrefix : string := "base64url.bearer.authorization.k8s.io.".
Definition token_text (l : list Z) : string := of_bytes (map byteN l).

Record Protocols := mkProtocols { ps_token : string; ps_remaining : list string; ps_sawBearer : bool }.
Definition protocol_one (s : Protocols) (p : string) : Protocols :=
  let p := trim_space p in
  if bool_decide (p = "") then s
  else match cut_prefix bearerProtocolPrefix p with
  | None => mkProtocols (ps_token s) (ps_remaining s ++ [p]) (ps_sawBearer s)
  | Some enc => mkProtocols (match DecodeString RawURLEncoding enc with Some raw => token_text raw | None => ps_token s end) (ps_remaining s) true
  end.
Definition tokenFromProtocols (values : list string) : Protocols :=
  foldl protocol_one (mkProtocols "" [] false) (flat_map (split_on ","%char) values).

(** *** statusRecorder *)

Definition WriteHeader (c : Z) (_ : Z) : Z := c.
Definition Write (code : Z) : Z := if code =? 0 then 200 else code.
Definition Hijack (code : Z) : Z := if code =? 0 then 101 else code.
Definition recorded_code (events : list wevent) : Z :=
  foldl (fun code e => match e with EWriteHeader c => WriteHeader c code | EWrite => Write code | EHijack => Hijack code end) 0 events.

(** ** recorder.go *)

Definition verbForMethod (method : string) : string :=
  if bool_decide (method = "POST") then TaskVerbCreate
  else if bool_decide (method = "PUT") then TaskVerbUpdate
  else if bool_decide (method = "PATCH") then TaskVerbPatch
  else if bool_decide (method = "DELETE") then TaskVerbDelete
  else "".
Definition verbForRequest (r : Request) (ref : ObjectRef) : string :=
  if bool_decide (rf_Subresource ref = subresourceExec) && isExecUpgrade r then TaskVerbCreate else verbForMethod (rq_Method r).

Definition maxAction : nat := 200.
Definition boundAction (s : string) : string :=
  if (rune_count s <=? maxAction)%nat then s else string_of_runes (take maxAction (runes s)).
Definition q_Get (q : gmap string (list string)) (k : string) : string := default "" (head (default [] (q !! k))).
Definition execAction (ref : ObjectRef) (q : gmap string (list string)) : string :=
  let s := "open a shell in " +:+ rf_Namespace ref +:+ "/" +:+ rf_Name ref in
  let c := q_Get q "container" in
  boundAction (if bool_decide (c = "") then s else s +:+ " (" +:+ c +:+ ")").
Definition isDryRun (q : gmap string (list string)) : bool := existsb (fun v => negb (bool_decide (v = ""))) (default [] (q !! "dryRun")).

(** The spec Start records; [None] when nothing is. *)
Definition task_spec (id : Identity) (r : Request) : option FrameTaskSpec :=
  match parsePath (rq_Path r) with
  | None => None
  | Some ref =>
    if isDryRun (rq_Query r) then None
    else
      let verb := verbForRequest r ref in
      if bool_decide (verb = "") then None
      else
        let action := boundAction (h_Get (rq_Header r) "X-Frame-Action") in
        let action := if bool_decide (action = "") && bool_decide (rf_Subresource ref = subresourceExec) && isExecUpgrade r
                      then execAction ref (rq_Query r) else action in
        Some (mkTaskSpec (id_User id) verb ref action)
  end.
End Requests.

Definition no_status : FrameTaskStatus := mkTaskStatus "" 0 None None.
Definition set_status (t : FrameTask) (s : FrameTaskStatus) : FrameTask := mkTask (ft_Namespace t) (ft_Name t) (ft_Spec t) s.

Section Recorder.
Context `{U : Unicode} {W : Type} {PW : ProxyWorld W} (ns : string).

Definition Start (id : Identity) (r : Request) : St W string :=
  match task_spec id r with
  | None => mret ""
  | Some spec =>
    c ← create_task (mkTask ns "" spec no_status);
    match c with
    | inl _ => mret ""
    | inr task =>
      now ← px_now;
      _ ← update_task (set_status task (mkTaskStatus TaskPhaseRunning 0 (Some now) None));
      mret (ft_Name task)
    end
  end.

Definition phase_of (httpCode : Z) : string :=
  if negb (httpCode =? 101) && ((httpCode <? 200) || (300 <=? httpCode)) then TaskPhaseFailed else TaskPhaseSucceeded.

Definition Finish (name : string) (httpCode : Z) : St W unit :=
  if bool_decide (name = "") then mret tt else
  g ← get_task ns name;
  match g with
  | inl _ => mret tt
  | inr task =>
    now ← px_now;
    _ ← update_task (set_status task (mkTaskStatus (phase_of httpCode) (wrap32 httpCode) (ft_StartedAt (ft_Status task)) (Some now)));
    mret tt
  end.

Fixpoint purge_loop (cutoff : time) (l : list FrameTask) : St W unit :=
  match l with
  | [] => mret tt
  | t :: l =>
    match ft_FinishedAt (ft_Status t) with
    | None => purge_loop cutoff l
    | Some f => if after f cutoff then purge_loop cutoff l else _ ← delete_task t; purge_loop cutoff l
    end
  end.
Definition Purge (olderThan : Z) : St W (option apierr) :=
  r ← list_tasks ns;
  match r with
  | inl e => mret (Some e)
  | inr l => now ← px_now; _ ← purge_loop (Time (unix_nano now - olderThan) (zone now)) l; mret None
  end.
End Recorder.

(** ** verifier.go *)

Definition jwksMinRefresh : Z := minute.
Definition maxSubjectLen : Z := 254.

Definition has_byte (c : ascii) (s : string) : bool := existsb (Ascii.eqb c) (to_bytes s).
Definition checkSubject (sub : string) : option string :=
  if bool_decide (sub = "") then Some "token has no subject"
  else if maxSubjectLen <? Z.of_nat (length (to_bytes sub)) then Some ("token subject is longer than " +:+ itoa maxSubjectLen +:+ " characters")
  else if has_prefix "system:" sub then Some ("refusing to impersonate a system: identity (" +:+ quote sub +:+ ")")
  else if negb (has_byte "@"%char sub) then Some ("token subject " +:+ quote sub +:+ " is not an email address")
  else None.

Section Verifier.
Context `{J : Jose} {W : Type} {PW : ProxyWorld W}.

Record JWKSVerifier := mkVerifier { v_url : string; v_issuer : string; v_audience : string }.
(** What the mutex guards. *)
Record Cache := mkCache { v_keys : option KeySet; v_fetchAttempted : time; v_refreshAttempted : time; v_lastErr : option string }.
Definition empty_cache : Cache := mkCache None zero_time zero_time None.

Definition last_attempt (refresh : bool) (c : Cache) : time := if refresh then v_refreshAttempted c else v_fetchAttempted c.
Definition set_attempt (refresh : bool) (t : time) (c : Cache) : Cache :=
  if refresh then mkCache (v_keys c) (v_fetchAttempted c) t (v_lastErr c) else mkCache (v_keys c) t (v_refreshAttempted c) (v_lastErr c).

Definition fetch (v : JWKSVerifier) : St W (result string KeySet) :=
  r ← get_keys (v_url v);
  mret (match r with
        | inl e => inl e
        | inr (code, status, body) => if negb (code =? 200) then inl status else decode_keys body
        end).

Definition attempt (refresh : bool) : St (Cache * W) bool :=
  c ← memory;
  let last := last_attempt refresh c in
  too_soon ← (if is_zero last then mret false else now ← beside px_now; mret (sub now last <? jwksMinRefresh));
  if (too_soon : bool) then mret false
  else now ← beside px_now; _ ← remember (set_attempt refresh now); mret true.

(** keySet holds the mutex throughout: it is one step. Where the cache does not
    answer: *)
Definition refetch (v : JWKSVerifier) (refresh : bool) : St (Cache * W) (result string KeySet) :=
  ok ← attempt refresh;
  c ← memory;
  if negb ok then
    match v_keys c with
    | Some keys => mret (inr keys)
    | None =>
      now ← beside px_now;
      let left := duration_string (jwksMinRefresh - sub now (last_attempt refresh c)) in
      mret (inl (match v_lastErr c with
                 | Some e => "jwks: " +:+ e +:+ " (retrying in " +:+ left +:+ ")"
                 | None => "jwks: fetch attempted too recently, retrying in " +:+ left
                 end))
    end
  else
    r ← beside (fetch v);
    match r with
    | inl e => _ ← remember (fun c => mkCache (v_keys c) (v_fetchAttempted c) (v_refreshAttempted c) (Some e)); mret (inl e)
    | inr keys => _ ← remember (fun c => mkCache (Some keys) (v_fetchAttempted c) (v_refreshAttempted c) None); mret (inr keys)
    end.
Definition keySet (v : JWKSVerifier) (refresh : bool) : St (Cache * W) (result string KeySet) :=
  c ← memory;
  match v_keys c, refresh with
  | Some keys, false => mret (inr keys)
  | _, _ => refetch v refresh
  end.

(** The claims a key set opens the token to, with one refresh. *)
Definition open_claims (v : JWKSVerifier) (tok : Token) (set : KeySet) : St (Cache * W) (result string TokenClaims) :=
  match token_claims tok set with
  | inr claims => mret (inr claims)
  | inl e =>
    r ← keySet v true;
    mret (match r with inl _ => inl e | inr set => token_claims tok set end)
  end.

Definition Verify (v : JWKSVerifier) (raw : string) : St (Cache * W) (result string Identity) :=
  match ParseSigned raw with
  | inl e => mret (inl e)
  | inr tok =>
    r ← keySet v false;
    match r with
    | inl e => mret (inl e)
    | inr set =>
      o ← open_claims v tok set;
      match o with
      | inl e => mret (inl e)
      | inr claims =>
        now ← beside px_now;
        mret (match claims_Validate claims (v_issuer v) (v_audience v) now with
              | Some e => inl e
              | None => match checkSubject (claims_subject claims) with
                        | Some e => inl e
                        | None => inr (mkIdentity (claims_subject claims) (claims_groups claims))
                        end
              end)
      end
    end
  end.
End Verifier.

(** ** proxy.go: ServeHTTP *)

(** The proxy's answer: its own 401, or what the reverse proxy did. *)
Inductive Served := Unauthorized (message : string) | Proxied (a : Answer).

Section Serve.
Context `{U : Unicode} `{J : Jose} {W : Type} {PW : ProxyWorld W}.

Record Proxy := mkProxy { px_verifier : JWKSVerifier; px_recorder : option string; px_prefix : string }.

Definition unauthorized (detail : string) : Served := Unauthorized ("not signed in: " +:+ detail +:+ ". Sign in again.").

(** The token presented, and the headers without a bearer subprotocol. *)
Definition presented (r : Request) : string * Header :=
  let ps := tokenFromProtocols (h_Values (rq_Header r) "Sec-WebSocket-Protocol") in
  if ps_sawBearer ps then
    (if bool_decide (bearer r = "") then ps_token ps else bearer r,
     let h := h_Del "Sec-WebSocket-Protocol" (rq_Header r) in
     if bool_decide (ps_remaining ps = []) then h else h_Set "Sec-WebSocket-Protocol" (join ", " (ps_remaining ps)) h)
  else (bearer r, rq_Header r).

Definition impersonated (prefix : string) (id : Identity) (h : Header) : Header :=
  foldl (fun h g => h_Add "Impersonate-Group" (prefix +:+ g) h) (h_Set "Impersonate-User" (id_User id) (h_Del "Authorization" (stripImpersonation h))) (id_Groups id).

(** ReverseProxy.ServeHTTP: an upgrade to a name that cannot be printed goes to
    its error handler. *)
Definition rp_ServeHTTP (r : Request) : St W Answer :=
  if negb (printable (upgradeType (rq_Header r))) then mret (mkAnswer [EWriteHeader 502] false) else upstream r (forwarded r).

(** The code the deferred close records. *)
Definition closing_code (a : Answer) : Z := let code := recorded_code (an_Events a) in if code =? 0 then 500 else code.

Definition ServeHTTP (p : Proxy) (r : Request) : St (Cache * W) Served :=
  let '(tok, h) := presented r in
  if bool_decide (tok = "") then mret (unauthorized "the request carried no bearer token") else
  v ← Verify (px_verifier p) tok;
  match v with
  | inl _ => mret (unauthorized "the bearer token was not accepted")
  | inr id =>
    let r := set_header r (impersonated (px_prefix p) id h) in
    task ← (match px_recorder p with
            | Some ns => if isMutating (rq_Method r) || isExecUpgrade r then beside (Start ns id r) else mret ""
            | None => mret ""
            end);
    a ← beside (rp_ServeHTTP r);
    _ ← (match px_recorder p with
         | Some ns => if bool_decide (task = "") then mret tt else beside (Finish ns task (closing_code a))
         | None => mret tt
         end);
    mret (Proxied a)
  end.
End Serve.
