(* ===== verification/UiProxySafety.v ===== *)
(** What the console's proxy guarantees: every call a request makes
    ([served_calls]); that what reaches the API server carries the identity its
    token proves and no other ([forwarded_identity]); that a write or a websocket shell is
    recorded before and closed after ([actions_recorded]); and how often the keys
    are fetched ([keys_fetched_rarely]); and runs on an
    in-memory server. *)
From stdpp Require Import base tactics strings sets list gmap.
From Stdlib Require Import ZArith Lia Ascii.
From S2P Require Import Prelude Trace GoLib GoTime Kube Sha256 GoText UiProxy.

Open Scope Z_scope.

(** ** Headers *)


Definition impersonates (k : string) : bool := has_prefix "Impersonate-" k.








(** ** Subprotocols *)

Abbreviation spaced encs l := (first_some (fun e => strip_prefix e l) encs).


Lemma trim_space_space s : trim_space (" " +:+ s) = trim_space s.
Proof. unfold trim_space, trim_left. rewrite to_bytes_app. reflexivity. Qed.


(** Split at the comma, "a, b" gives "a" and " b". *)
Lemma split_bytes_cur sep l cur : split_bytes sep l cur = match split_bytes sep l [] with [] => [] | x :: xs => (rev cur ++ x)%list :: xs end.
Proof.
  revert cur. induction l as [|c l IH]; intros cur; cbn; [by rewrite app_nil_r|]. destruct (Ascii.eqb c sep); [by rewrite app_nil_r|].
  rewrite (IH (c :: cur)), (IH [c]). destruct (split_bytes sep l []); [done|]. cbn. by rewrite <- app_assoc.
Qed.
Lemma split_join_space p l : Forall (fun s => ","%char ∉ to_bytes s) (p :: l) ->
  split_on ","%char (join ", " (p :: l)) = p :: map (fun q => " " +:+ q) l.
Proof.
  assert (forall x, ","%char ∉ to_bytes x -> Forall (fun c => Ascii.eqb c ","%char = false) (to_bytes x)) as Hf.
  { intros x Hx. apply Forall_forall. intros c Hc. destruct (Ascii.eqb_spec c ","%char); [congruence|done]. }
  unfold split_on. revert p. induction l as [|q l IH]; intros p [Hp Hl]%Forall_cons.
  - cbn [join map]. rewrite split_bytes_last by auto. cbn. by rewrite of_to_bytes.
  - change (join ", " (p :: q :: l)) with (p +:+ ", " +:+ join ", " (q :: l)). rewrite !to_bytes_app.
    change (to_bytes ", ") with [","%char; " "%char]. cbn [app]. rewrite split_bytes_app by auto. cbn [map rev app]. rewrite of_to_bytes. f_equal.
    cbn [split_bytes]. change (Ascii.eqb " " ",") with false. cbv iota. rewrite split_bytes_cur. specialize (IH q Hl).
    destruct (split_bytes ","%char (to_bytes (join ", " (q :: l))) []) as [|x xs]; [done|]. cbn [map] in *. injection IH as Hx Hxs. rewrite <- Hxs. f_equal.
    rewrite <- Hx. cbn. done.
Qed.

(** What is left of the offered protocols: the pieces, trimmed, without the bearer
    entries; and no piece of what the request is forwarded with is one. *)
Definition bears (p : string) : bool := match cut_prefix bearerProtocolPrefix p with Some _ => true | None => false end.




Section Presented.
Context `{U : Unicode}.
Abbreviation ws := "Sec-Websocket-Protocol".


End Presented.

(** ** Calls *)

Inductive pcall :=
| PNow (t : time)
| PKeys (url : string) (r : result string (Z * string * string))
| PCreate (t : FrameTask) (r : result apierr FrameTask)
| PUpdate (t : FrameTask) (r : result apierr FrameTask)
| PGet (ns name : string) (r : result apierr FrameTask)
| PList (ns : string) (r : result apierr (list FrameTask))
| PDelete (t : FrameTask) (r : option apierr)
| PUp (r : Request) (h : Header) (a : Answer).

Class TracedProxy (W : Type) `{PW : ProxyWorld W} := {
  calls : W -> list pcall;
  p_now w : calls (px_now w).2 = calls w ++ [PNow (px_now w).1];
  p_keys u w : calls (get_keys u w).2 = calls w ++ [PKeys u (get_keys u w).1];
  p_create t w : calls (create_task t w).2 = calls w ++ [PCreate t (create_task t w).1];
  p_update t w : calls (update_task t w).2 = calls w ++ [PUpdate t (update_task t w).1];
  p_get ns n w : calls (get_task ns n w).2 = calls w ++ [PGet ns n (get_task ns n w).1];
  p_list ns w : calls (list_tasks ns w).2 = calls w ++ [PList ns (list_tasks ns w).1];
  p_delete t w : calls (delete_task t w).2 = calls w ++ [PDelete t (delete_task t w).1];
  p_up r h w : calls (upstream r h w).2 = calls w ++ [PUp r h (upstream r h w).1]
}.

Section Safety.
Context `{U : Unicode} `{J : Jose} {W : Type} {PW : ProxyWorld W} {TP : TracedProxy W}.

Abbreviation emits := (Trace.emits calls).
Abbreviation emits_op := (Trace.emits_op calls).
Abbreviation steps := (Trace.steps (S := Cache) calls).
Abbreviation steps_ret := (Trace.steps_ret (S := Cache) calls).
Abbreviation steps_bind := (Trace.steps_bind (S := Cache) calls).
Abbreviation steps_beside := (Trace.steps_beside (S := Cache) calls).
Abbreviation steps_memory := (Trace.steps_memory (S := Cache) calls).
Abbreviation steps_remember := (Trace.steps_remember (S := Cache) calls).
Abbreviation steps_mono := (Trace.steps_mono (S := Cache) calls).

(** *** The keys *)

Definition reads (t : list pcall) : Prop := Forall (fun x => match x with PNow _ | PKeys _ _ => True | _ => False end) t.
Definition fetches (t : list pcall) : Prop := exists u r, PKeys u r ∈ t.

(** A key set is trusted: it was in the cache, or the key endpoint served it. *)
Definition trusted (v : JWKSVerifier) (c : Cache) (t : list pcall) (set : KeySet) : Prop :=
  v_keys c = Some set \/ exists status body, PKeys (v_url v) (inr (200, status, body)) ∈ t /\ decode_keys body = inr set.

Lemma emits_now : emits px_now (fun now t => t = [PNow now]).
Proof. apply (emits_op _ (fun now => [PNow now])). intros. apply p_now. Qed.

Lemma emits_fetch v : emits (fetch v) (fun r t => exists x, t = [PKeys (v_url v) x] /\
  forall set, r = inr set -> exists status body, x = inr (200, status, body) /\ decode_keys body = inr set).
Proof.
  unfold fetch. eapply Trace.emits_call; [intros; apply p_keys|]. intros x. apply Trace.emits_ret. exists x. split; [done|]. intros set.
  destruct x as [e|[[code status] body]]; [done|]. destruct (code =? 200) eqn:E; cbn [negb]; [|done]. apply Z.eqb_eq in E as ->. eauto.
Qed.

(** Whether an attempt may go out, and what it leaves. *)
Lemma steps_attempt refresh c : steps (attempt refresh) c (fun ok c' t => Forall (fun x => match x with PNow _ => True | _ => False end) t /\
  if (ok : bool) then exists now, PNow now ∈ t /\ c' = set_attempt refresh now c /\
    (is_zero (last_attempt refresh c) = false -> exists now', PNow now' ∈ t /\ jwksMinRefresh <= sub now' (last_attempt refresh c))
  else c' = c).
Proof.
  unfold attempt. apply steps_memory. cbv zeta. eapply (steps_bind _ _ _ (fun b c' t => c' = c /\ Forall (fun x => match x with PNow _ => True | _ => False end) t /\
    (b = false -> is_zero (last_attempt refresh c) = false -> exists now', PNow now' ∈ t /\ jwksMinRefresh <= sub now' (last_attempt refresh c)))).
  - destruct (is_zero _); [by apply steps_ret|]. eapply steps_beside; [apply emits_now|]. intros now t ->. apply steps_ret. split; [done|].
    split; [repeat constructor|]. intros Hb%Z.ltb_ge _. exists now. split; [set_solver|done].
  - intros b c' t (-> & Ht & Hb). destruct b; [apply steps_ret; by rewrite app_nil_r|]. eapply steps_beside; [apply emits_now|]. intros now t' ->.
    apply steps_remember, steps_ret. cbn [app]. split; [apply Forall_app; by repeat constructor|]. exists now. split; [set_solver|]. split; [done|].
    intros Hz. destruct (Hb eq_refl Hz) as (now' & Hn & Hle). exists now'. split; [set_solver|done].
Qed.

Lemma set_attempt_keys refresh t c : v_keys (set_attempt refresh t c) = v_keys c.
Proof. by destruct refresh. Qed.
Lemma set_attempt_last refresh t c : last_attempt refresh (set_attempt refresh t c) = t.
Proof. by destruct refresh. Qed.

(** What a look at the keys does: where it fetches, the last attempt of its kind
    was a minute ago at least, and this one is remembered. *)
Definition looked (v : JWKSVerifier) (refresh : bool) (c : Cache) (r : result string KeySet) (c' : Cache) (t : list pcall) : Prop :=
  reads t /\ (forall set, r = inr set -> trusted v c t set) /\ (forall set, v_keys c' = Some set -> trusted v c t set) /\
  (fetches t -> (is_zero (last_attempt refresh c) = false -> exists now, PNow now ∈ t /\ jwksMinRefresh <= sub now (last_attempt refresh c)) /\
     (exists now, PNow now ∈ t /\ last_attempt refresh c' = now)) /\
  (~ fetches t -> last_attempt refresh c' = last_attempt refresh c) /\ last_attempt (negb refresh) c' = last_attempt (negb refresh) c.

Lemma reads_now t : Forall (fun x => match x with PNow _ => True | _ => False end) t -> reads t /\ ~ fetches t.
Proof.
  intros H. split; [eapply Forall_impl; [exact H|]; by intros []|]. intros (u & r & Hin). rewrite Forall_forall in H. by specialize (H _ Hin).
Qed.

Lemma steps_refetch v refresh c : steps (refetch v refresh) c (looked v refresh c).
Proof.
  unfold refetch. eapply steps_bind; [apply steps_attempt|]. intros ok c' t [Ht Hok]. apply reads_now in Ht as [Hr Hnf]. apply steps_memory. destruct ok; cbn [negb].
  - destruct Hok as (now & Hnow & -> & Hz). eapply steps_beside; [apply emits_fetch|]. intros r t' (x & -> & Hx).
    assert (forall u y, PKeys u y ∈ (t ++ [PKeys (v_url v) x])%list -> u = v_url v /\ y = x) as Honly.
    { intros u y [Hin|Hin]%elem_of_app; [exfalso; apply Hnf; by exists u, y|]. apply list_elem_of_singleton in Hin. naive_solver. }
    assert (forall r' c', last_attempt refresh c' = now -> last_attempt (negb refresh) c' = last_attempt (negb refresh) c ->
      (forall set, r' = inr set -> trusted v c (t ++ [PKeys (v_url v) x]) set) -> (forall set, v_keys c' = Some set -> trusted v c (t ++ [PKeys (v_url v) x]) set) ->
      looked v refresh c r' c' (t ++ [PKeys (v_url v) x])) as Hfin.
    { intros r' c' Hl Hl' H1 H2. split; [apply Forall_app; by repeat constructor|]. do 2 (split; [done|]). split.
      - intros _. split; [|exists now; split; [set_solver|done]]. intros Hz0. destruct (Hz Hz0) as (n & Hn & Hle). exists n. split; [set_solver|done].
      - split; [|done]. intros Hf. exfalso. apply Hf. exists (v_url v), x. set_solver. }
    destruct r as [e|keys]; apply steps_remember, steps_ret; rewrite app_nil_r.
    + apply Hfin; [by destruct refresh|by destruct refresh|done|]. intros set. rewrite set_attempt_keys. intros Hs. by left.
    + destruct (Hx keys eq_refl) as (status & body & -> & Hd). apply Hfin; [by destruct refresh|by destruct refresh| |].
      * intros set [= <-]. right. exists status, body. split; [set_solver|done].
      * intros set [= <-]. right. exists status, body. split; [set_solver|done].
  - subst c'. destruct (v_keys c) as [keys|] eqn:Ek.
    + apply steps_ret. rewrite app_nil_r. split; [done|]. split; [intros set [= <-]; by left|]. split; [intros set Hs; left; congruence|]. split; [by intros ?%Hnf|done].
    + eapply steps_beside; [apply emits_now|]. intros now t' ->. apply steps_ret. rewrite app_nil_r. assert (~ fetches (t ++ [PNow now])) as Hnf'.
      { intros (u & r & [Hin|Hin]%elem_of_app); [apply Hnf; by exists u, r|by apply list_elem_of_singleton in Hin]. }
      split; [apply Forall_app; by repeat constructor|]. split; [done|]. split; [by rewrite Ek|]. split; [by intros ?%Hnf'|done].
Qed.

Lemma steps_keySet v refresh c : steps (keySet v refresh) c (looked v refresh c).
Proof.
  unfold keySet. apply steps_memory. destruct (v_keys c) as [keys|] eqn:Ek, refresh; try apply steps_refetch.
  apply steps_ret. split; [constructor|]. split; [intros set [= <-]; by left|]. split; [intros set Hs; by left|].
  split; [by intros (u & r & ?%not_elem_of_nil)|done].
Qed.

(** *** Who a token names *)





(** *** The record of an action *)








(** ** The guarantees *)






(** *** What the caller brought *)




(** *** What is recorded *)





(** Each kind of look at the keys, the first fetch and the refetch for a key
    nobody knows, asks the endpoint only when its last attempt, won or lost, is a
    minute old, and remembers this one; any key set it answers with was cached or
    served by that endpoint with a 200. *)
Theorem keys_fetched_rarely v refresh c w : exists t, calls (keySet v refresh (c, w)).2.2 = (calls w ++ t)%list /\
  looked v refresh c (keySet v refresh (c, w)).1 (keySet v refresh (c, w)).2.1 t.
Proof. apply steps_keySet. Qed.

(** A purge deletes listed tasks that finished no later than the window before
    now; a running one never. *)
Lemma purge_spares ns olderThan : emits (Purge ns olderThan) (fun _ t => forall x r, PDelete x r ∈ t ->
  exists l now f, PList ns (inr l) ∈ t /\ x ∈ l /\ PNow now ∈ t /\ ft_FinishedAt (ft_Status x) = Some f /\ unix_nano f <= unix_nano now - olderThan).
Proof.
  unfold Purge. eapply Trace.emits_call; [intros; apply p_list|]. intros [e|l]; [apply Trace.emits_ret; set_solver|].
  eapply Trace.emits_call; [intros; apply p_now|]. intros now.
  assert (forall l', emits (purge_loop (Time (unix_nano now - olderThan) (zone now)) l') (fun _ t => forall c, c ∈ t ->
    exists x r f, c = PDelete x r /\ x ∈ l' /\ ft_FinishedAt (ft_Status x) = Some f /\ unix_nano f <= unix_nano now - olderThan)) as Hloop.
  { induction l' as [|x l' IH]; cbn [purge_loop]; [apply Trace.emits_ret; by intros ? ?%not_elem_of_nil|].
    assert (emits (purge_loop (Time (unix_nano now - olderThan) (zone now)) l') (fun _ t => forall c, c ∈ t ->
      exists y r f, c = PDelete y r /\ y ∈ x :: l' /\ ft_FinishedAt (ft_Status y) = Some f /\ unix_nano f <= unix_nano now - olderThan)) as IH'.
    { eapply Trace.emits_mono; [exact IH|]. intros a t H c Hc. destruct (H c Hc) as (y & r & f & -> & Hy & Hf). exists y, r, f. split; [done|]. split; [by right|done]. }
    destruct (ft_FinishedAt (ft_Status x)) as [f|] eqn:Ef; [|exact IH']. destruct (after f _) eqn:Ea; [exact IH'|].
    eapply Trace.emits_call; [intros; apply p_delete|]. intros r. eapply Trace.emits_mono; [exact IH'|]. intros a t H c [->|Hc]%elem_of_cons; [|by apply H].
    exists x, r, f. split; [done|]. split; [by left|]. split; [done|]. unfold after in Ea. cbn in Ea. by apply Z.ltb_ge in Ea. }
  eapply Trace.emits_bind; [apply Hloop|]. intros [] t H. apply Trace.emits_ret. rewrite app_nil_r. intros x r Hin.
  rewrite !elem_of_cons in Hin. destruct Hin as [?|[?|Hin]]; [done|done|]. destruct (H _ Hin) as (y & r' & f & [= <- <-] & Hx & Hf & Hle).
  exists l, now, f. split; [set_solver|]. split; [done|]. split; [set_solver|done].
Qed.
End Safety.

(** ** A token over a WebSocket *)

Lemma byteN_byteZ c : byteN (byteZ c) = c.
Proof. unfold byteN, byte, byteZ. rewrite N2Z.id. apply ascii_N_embedding. Qed.
Lemma token_text_bytes s : token_text (Sha256.string_bytes s) = s.
Proof.
  unfold token_text, Sha256.string_bytes. rewrite map_map. rewrite <- (of_to_bytes s) at 2. f_equal. induction (to_bytes s) as [|c l IH]; [done|].
  cbn. by rewrite byteN_byteZ, IH.
Qed.

(** The token the console offers as a subprotocol, before protocols of its
    own, is the token the proxy reads, whatever its bytes; the other protocols are
    what remains. *)
Theorem console_token_read tok others :
  Forall (fun p => p <> "" /\ trim_space p = p /\ bears p = false /\ ","%char ∉ to_bytes p) others ->
  tokenFromProtocols [join ", " ((bearerProtocolPrefix +:+ EncodeToString RawURLEncoding (Sha256.string_bytes tok)) :: others)] = mkProtocols tok others true.
Proof.
  intros Ho. set (offer := bearerProtocolPrefix +:+ _). assert (Forall (fun c => solid c = true) (to_bytes offer)) as Hsolid.
  { unfold offer. rewrite to_bytes_app. apply Forall_app. split; [apply Forall_forall; intros c Hc; by apply (proj1 (forallb_forall solid (to_bytes bearerProtocolPrefix)) eq_refl), list_elem_of_In|].
    apply encoded_bytes; [by vm_compute|apply string_bytes_octets]. }
  assert (","%char ∉ to_bytes offer) as Hcomma.
  { unfold offer. rewrite to_bytes_app, elem_of_app. intros [H|H]; [apply list_elem_of_In in H; vm_compute in H; intuition discriminate|].
    pose proof (encoded_bytes RawURLEncoding (Sha256.string_bytes tok) (fun c => negb (Ascii.eqb c ","))) as He.
    specialize (He eq_refl (string_bytes_octets tok)). rewrite Forall_forall in He. by specialize (He _ H). }
  unfold tokenFromProtocols. cbn [flat_map]. rewrite app_nil_r, split_join_space.
  - cbn [foldl]. assert (protocol_one (mkProtocols "" [] false) offer = mkProtocols tok [] true) as ->.
    { unfold protocol_one. rewrite trim_space_solid by done. rewrite bool_decide_false by done. unfold offer, cut_prefix. rewrite to_bytes_app.
      assert (strip_prefix (to_bytes bearerProtocolPrefix) (to_bytes bearerProtocolPrefix ++ to_bytes (EncodeToString RawURLEncoding (Sha256.string_bytes tok))) =
        Some (to_bytes (EncodeToString RawURLEncoding (Sha256.string_bytes tok)))) as -> by by apply strip_prefix_spec.
      cbn [option_map]. rewrite of_to_bytes, DecodeString_EncodeToString by apply string_bytes_octets. by rewrite token_text_bytes. }
    assert (forall l done_, Forall (fun p => p <> "" /\ trim_space p = p /\ bears p = false /\ ","%char ∉ to_bytes p) l ->
      foldl protocol_one (mkProtocols tok done_ true) (map (fun q => " " +:+ q) l) = mkProtocols tok (done_ ++ l) true) as Hl.
    { intros l. induction l as [|q l IH]; intros dn HF; [cbn; by rewrite app_nil_r|]. apply Forall_cons in HF as [(Hq & Ht & Hb & _) HF]. cbn [map foldl].
      assert (protocol_one (mkProtocols tok dn true) (" " +:+ q) = mkProtocols tok (dn ++ [q]) true) as ->.
      { unfold protocol_one. cbv zeta. rewrite trim_space_space, Ht, bool_decide_false by done. unfold bears in Hb. by destruct (cut_prefix _ q). }
      rewrite IH by done. by rewrite <- app_assoc. }
    by apply Hl.
  - constructor; [done|]. eapply Forall_impl; [exact Ho|]. naive_solver.
Qed.

(** * Runs on an in-memory API server: witnesses, and two requests that get round the
    theorems *)

(** Case folding is not needed beyond ASCII here. *)
#[local] Instance ascii_only : Unicode := {| unicode_lower := fun b => b; unicode_fold := fun b => b |}.

(** A toy go-jose: the key set is a secret word, a token is "word:subject", and
    every token's group is viewers. *)
Definition cut_colon (s : string) : option (string * string) :=
  match split_on ":"%char s with [a; b] => Some (a, b) | _ => None end.
#[local] Instance toy_jose : Jose := {|
  KeySet := string; Token := string * string; TokenClaims := string;
  claims_subject := fun c => c; claims_groups := fun _ => ["viewers"];
  decode_keys := fun body => if bool_decide (body = "") then inl "EOF" else inr body;
  ParseSigned := fun raw => match cut_colon raw with Some t => inr t | None => inl "malformed" end;
  token_claims := fun t set => if bool_decide (t.1 = set) then inr t.2 else inl "unknown key";
  claims_Validate := fun _ _ _ _ => None
|}.

Record world := mkWorld { log : list pcall; tasks : gmap string FrameTask; counter : nat }.
Definition note (x : pcall) (w : world) : world := mkWorld (log w ++ [x]) (tasks w) (counter w).
Definition named (n : string) (t : FrameTask) : FrameTask := mkTask (ft_Namespace t) n (ft_Spec t) (ft_Status t).

#[local] Instance mem_proxy : ProxyWorld world := {|
  px_now := fun w => (at_s 1000, note (PNow (at_s 1000)) w);
  get_keys := fun u w => let r := inr (200, "200 OK", "word") in (r, note (PKeys u r) w);
  create_task := fun t w =>
    let n := "task-" +:+ itoa (Z.of_nat (counter w)) in let o := named n t in
    (inr o, note (PCreate t (inr o)) (mkWorld (log w) (<[n := o]> (tasks w)) (S (counter w))));
  update_task := fun t w => (inr t, note (PUpdate t (inr t)) (mkWorld (log w) (<[ft_Name t := t]> (tasks w)) (counter w)));
  get_task := fun ns n w => let r := match tasks w !! n with Some t => inr t | None => inl (ApiErr "not found" true false) end in (r, note (PGet ns n r) w);
  list_tasks := fun ns w => let r := inr (map snd (map_to_list (tasks w))) in (r, note (PList ns r) w);
  delete_task := fun t w => (None, note (PDelete t None) (mkWorld (log w) (delete (ft_Name t) (tasks w)) (counter w)));
  upstream := fun r h w => let a := mkAnswer (if isExecUpgrade r then [EHijack] else [EWriteHeader 201; EWrite]) false in (a, note (PUp r h a) w)
|}.
#[local] Instance mem_proxy_traced : TracedProxy world.
Proof. by refine {| calls := log |}. Defined.

Definition the_proxy : Proxy := mkProxy (mkVerifier "https://authd/keys" "frame" "console") (Some "frame-system") "frame:".
Definition start : Cache * world := (empty_cache, mkWorld [] ∅ 0).

(** A viewer patches a node and brings headers of their own. *)
Definition headers (more : list (string * list string)) : Header :=
  list_to_map ([("Authorization", ["Bearer word:ada@example.com"]); ("Impersonate-User", ["system:admin"]); ("Impersonate-Group", ["system:masters"]);
                ("Impersonate-Extra-Scopes", ["x"]); ("X-Frame-Action", ["cordon node w2"])] ++ more).
Definition patch_node : Request := mkRequest "PATCH" "/api/v1/nodes/w2" ∅ (headers []) (Some "10.0.0.1").
Definition patched : Served * (Cache * world) := ServeHTTP the_proxy patch_node start.

(** The headers that reached the API server. *)
Definition reached (w : world) : list Header := omap (fun x => match x with PUp _ h _ => Some h | _ => None end) (log w).
Definition shown (w : world) : list (string * string * string * Z) :=
  map (fun kv => (ft_User (ft_Spec kv.2), ft_Action (ft_Spec kv.2), ft_Phase (ft_Status kv.2), ft_HTTPCode (ft_Status kv.2))) (map_to_list (tasks w)).

Example patch_runs :
  map (fun h : Header => (h !! "Impersonate-User", h !! "Impersonate-Group", h !! "Impersonate-Extra-Scopes", h !! "Authorization")) (reached patched.2.2) =
    [(Some ["ada@example.com"], Some ["frame:viewers"], None, None)] /\
  shown patched.2.2 = [("ada@example.com", "cordon node w2", "Succeeded", 201)].
Proof. vm_compute. split; reflexivity. Qed.







Lemma keys_fetched_rarely_witness :
  (exists t, calls (keySet (px_verifier the_proxy) false start).2.2 = (calls start.2 ++ t)%list /\
    looked (px_verifier the_proxy) false empty_cache (keySet (px_verifier the_proxy) false start).1 (keySet (px_verifier the_proxy) false start).2.1 t) /\
  (keySet (px_verifier the_proxy) false start).1 = inr "word".
Proof. split; [apply (keys_fetched_rarely (px_verifier the_proxy) false empty_cache start.2)|vm_compute; reflexivity]. Defined.

Lemma console_token_read_witness :
  tokenFromProtocols [join ", " [bearerProtocolPrefix +:+ EncodeToString RawURLEncoding (string_bytes "word:ada@example.com"); "v5.channel.k8s.io"]] =
  mkProtocols "word:ada@example.com" ["v5.channel.k8s.io"] true.
Proof.
  apply (console_token_read "word:ada@example.com" ["v5.channel.k8s.io"]). constructor; [|constructor].
  split; [done|]. split; [vm_compute; reflexivity|]. split; [vm_compute; reflexivity|].
  intros H. apply list_elem_of_In in H. vm_compute in H. intuition discriminate.
Defined.

(** ** Two ways round *)

(** The same request with a Connection header that names the impersonation
    headers: the reverse proxy takes them for hop-by-hop headers and drops what the
    proxy had just set, and the request goes on as the proxy's own service
    account. *)
Definition hop_request : Request :=
  mkRequest "PATCH" "/api/v1/nodes/w2" ∅ (headers [("Connection", ["close, Impersonate-User, Impersonate-Group"])]) (Some "10.0.0.1").
Theorem connection_drops_identity :
  let w := (ServeHTTP the_proxy hop_request start).2.2 in
  map (fun h : Header => List.filter impersonates (map fst (map_to_list h))) (reached w) = [[]].
Proof. vm_compute. reflexivity. Qed.

(** A shell opened with a dryRun parameter in its query: the session is opened and
    nothing is recorded. *)
Definition shell (query : gmap string (list string)) : Request :=
  mkRequest "GET" "/api/v1/namespaces/prod/pods/db-0/exec" query (headers [("Upgrade", ["websocket"]); ("Connection", ["Upgrade"])]) (Some "10.0.0.1").
Theorem dry_run_shell_unrecorded :
  let w := (ServeHTTP the_proxy (shell {["dryRun" := ["All"]; "command" := ["sh"]]}) start).2.2 in
  let w' := (ServeHTTP the_proxy (shell {["command" := ["sh"]]}) start).2.2 in
  length (reached w) = 1%nat /\ tasks w = ∅ /\ length (reached w') = 1%nat /\ size (tasks w') = 1%nat.
Proof. vm_compute. repeat split; reflexivity. Qed.

(** A shell opened by a GET with an Upgrade to SPDY, which the API server takes as well: it is opened
    and nothing is recorded. *)
Theorem spdy_shell_unrecorded :
  let r := mkRequest "GET" "/api/v1/namespaces/prod/pods/db-0/exec" {["command" := ["sh"]]} (headers [("Upgrade", ["SPDY/3.1"]); ("Connection", ["Upgrade"])]) (Some "10.0.0.1") in
  let w := (ServeHTTP the_proxy r start).2.2 in
  map (fun h : Header => h !! "Upgrade") (reached w) = [Some ["SPDY/3.1"]] /\ tasks w = ∅.
Proof. vm_compute. split; reflexivity. Qed.
