(* ===== verification/MachineController.v ===== *)
(** The FrameMachine controller: internal/controller/frame/
    framemachine_controller.go and framemachine_sessions.go. One pass runs a
    pending power request, probes the machine's BMC over Redfish and records what
    it read; the clients are held from pass to pass for their sessions. The
    storage assessment of a pass is [StorageAlerts.assessStorage].

    The API server, the events, redfish.Client (an interface) and NewClient are
    the methods of [MachineWorld]. The structs of the redfish package that the
    controller copies have the fields of the API's, and share their records. *)
From stdpp Require Import base tactics strings list gmap.
From Stdlib Require Import ZArith Lia.
From S2P Require Import Prelude GoLib GoTime Kube StorageTypes StorageHealth Alerting StorageAlerts Provision Install InstallController.

Open Scope Z_scope.

(** ** The objects *)

Record TemperatureReading := mkTemperature { tp_Name : string; tp_Celsius : Z; tp_UpperCritical : option Z; tp_Health : string }.
Record FanReading := mkFan { fr_Name : string; fr_Reading : Z; fr_Units : string; fr_Health : string }.
Record PowerSupplyReading := mkPowerSupply { pw_Name : string; pw_Health : string; pw_State : string; pw_LastPowerOutputWatts : Z }.
Record MachineSensors := mkSensors {
  se_Temperatures : list TemperatureReading; se_Fans : list FanReading; se_PowerSupplies : list PowerSupplyReading; se_PowerConsumedWatts : Z
}.
Record EventLogEntry := mkLogEntry { le_ID : string; le_Severity : string; le_Message : string; le_Created : time }.

(** redfish.Snapshot. *)
Record Snapshot := mkSnapshot {
  sn_PowerState : string;
  sn_IndicatorLED : string;
  sn_Inventory : MachineInventory;
  sn_Sensors : MachineSensors;
  sn_Log : list EventLogEntry;
  sn_LogTotal : Z;
  sn_LogCounts : option (gmap string Z);     (* nil or a map *)
  sn_PostState : string;
  sn_SensorsTrustworthy : bool;
  sn_LogPossiblyStale : bool
}.

Record PowerRequestSpec := mkPowerRequest { pq_Action : string; pq_RequestedAt : time }.

(** The status beside the parts the storage assessment works on, which are in
    [StorageAlerts.FrameMachine]. *)
Record ProbeStatus := mkProbeStatus {
  ps_ObservedGeneration : Z;
  ps_PowerState : string;
  ps_PostState : string;
  ps_IndicatorLED : string;
  ps_Sensors : option MachineSensors;
  ps_SensorsValidAt : option time;
  ps_EventLog : list EventLogEntry;
  ps_EventLogCounts : option (gmap string Z);
  ps_EventLogTotal : Z;
  ps_EventLogPossiblyStale : bool;
  ps_LastProbeAt : option time
}.
Record PowerStatus := mkPowerStatus { pa_LastPowerAction : string; pa_LastPowerActionAt : option time; pa_LastPowerActionError : string }.
Record Machine := mkMachine {
  mc_FM : FrameMachine; mc_BMC : BMCSpec; mc_PowerRequest : option PowerRequestSpec; mc_Probe : ProbeStatus; mc_Power : PowerStatus
}.
Definition with_fm (m : Machine) (fm : FrameMachine) : Machine := mkMachine fm (mc_BMC m) (mc_PowerRequest m) (mc_Probe m) (mc_Power m).
Definition with_power (m : Machine) (p : PowerStatus) : Machine := mkMachine (mc_FM m) (mc_BMC m) (mc_PowerRequest m) (mc_Probe m) p.
Definition with_probe (m : Machine) (p : ProbeStatus) : Machine := mkMachine (mc_FM m) (mc_BMC m) (mc_PowerRequest m) p (mc_Power m).
Definition set_inventory (fm : FrameMachine) (i : MachineInventory) : FrameMachine :=
  mkFrameMachine (fm_Name fm) (fm_Namespace fm) (fm_Generation fm) (fm_NodeRef fm) (fm_AlertRelease fm)
    (mkMachineReading (Some i) (st_Storage (fm_Reading fm)) (st_Network (fm_Reading fm)))
    (fm_LastAlertReleaseAt fm) (fm_LastAlertRelease fm) (fm_Conditions fm).

Definition PowerActionOn : string := "On".
Definition PowerActionGracefulShutdown : string := "GracefulShutdown".
Definition PowerActionForceOff : string := "ForceOff".
Definition PowerActionForceRestart : string := "ForceRestart".
Definition PowerActionClearSEL : string := "ClearSEL".
Definition PowerActionIndicatorLedOn : string := "IndicatorLedOn".
Definition PowerActionIndicatorLedOff : string := "IndicatorLedOff".

(** An error of a probe: its text and what errors.Is and errors.As find in it. *)
Record ProbeError := mkProbeError {
  pe_text : string; pe_TLS : bool; pe_Auth : bool; pe_Unsupported : bool; pe_DeadlineExceeded : bool; pe_NetTimeout : bool
}.

(** A client is known by its pointer. *)
Class MachineWorld (W : Type) := {
  Rc : Type;
  Rc_eq :: EqDecision Rc;
  SameTarget : Rc -> Rc -> bool;
  machine_get : NamespacedName -> St W (result apierr Machine);
  machine_patch : Machine -> Machine -> St W (result apierr Machine);
  machine_event : string -> string -> string -> St W unit;          (* type, reason, message *)
  NewClient : string -> BMCSpec -> St W (result string Rc);
  rc_Probe : Rc -> St W (result ProbeError Snapshot);
  rc_Reset : Rc -> string -> St W (option string);
  rc_ClearLog : Rc -> St W (option string);
  rc_SetIndicatorLED : Rc -> bool -> St W (option string);
  rc_Logout : Rc -> St W (option string);
  range_clients : gmap NamespacedName Rc -> St W (list (NamespacedName * Rc))
}.

(** ** The snapshot *)

Definition conditionReachable : string := "Reachable".
Definition maxProcessors : nat := 8.
Definition maxMemoryModules : nat := 48.
Definition maxDrives : nat := 32.
Definition maxStorageControllers : nat := 8.
Definition maxNetworkAdapters : nat := 16.
Definition maxStatusReasons : nat := 16.
Definition eventLogMessageMaxLength : nat := 512.
Definition EventLogRetainCount : nat := 25.

Definition clip (s : string) (n : nat) : string := if (rune_count s <=? n)%nat then s else string_of_runes (take n (runes s)).
Definition capped {T} (xs : list T) (n : nat) : list T := if (n <? length xs)%nat then take n xs else xs.

Definition map_processor (p : ProcessorInfo) : ProcessorInfo := mkProcessorInfo (clip (pr_Socket p) 64) (clip (pr_Model p) 256) (pr_Cores p) (pr_Threads p).
Definition map_memory (m : MemoryModuleInfo) : MemoryModuleInfo :=
  mkMemoryModuleInfo (clip (mm_Slot m) 64) (mm_SizeMiB m) (clip (mm_Type m) 64) (clip (mm_Manufacturer m) 256).
Definition map_drive (d : DriveInfo) : DriveInfo :=
  mkDriveInfo (clip (dr_Name d) 256) (clip (dr_Model d) 256) (dr_SizeGB d) (clip (dr_Protocol d) 64) (clip (dr_Health d) 64)
    (clip (dr_SerialNumber d) 128) (clip (dr_Location d) 64) (clip (dr_MediaType d) 32) (capped (dr_StatusReasons d) maxStatusReasons)
    (clip (dr_Firmware d) 64) (dr_RotationSpeedRPM d) (dr_LinkSpeedMbps d) (dr_TemperatureCelsius d) (dr_PowerOnHours d) (dr_SSDEnduranceUsedPercent d).
Definition map_controller (s : StorageControllerInfo) : StorageControllerInfo :=
  mkStorageControllerInfo (clip (sc_Location s) 128) (clip (sc_Model s) 256) (clip (sc_Firmware s) 64) (clip (sc_Health s) 64)
    (clip (sc_BackupPowerStatus s) 64) (clip (sc_CacheStatus s) 64).
Definition map_adapter (n : NetworkAdapterInfo) : NetworkAdapterInfo := mkNetworkAdapterInfo (clip (na_Name n) 256) (clip (na_MAC n) 64) (clip (na_Status n) 64).

Definition mapInventory (inv : MachineInventory) : MachineInventory :=
  mkMachineInventory (clip (inv_Manufacturer inv) 256) (clip (inv_Model inv) 256) (clip (inv_SerialNumber inv) 128) (clip (inv_BIOSVersion inv) 128)
    (clip (inv_BMCFirmware inv) 128) (map map_processor (capped (inv_Processors inv) maxProcessors))
    (map map_memory (capped (inv_MemoryModules inv) maxMemoryModules)) (inv_TotalMemoryGiB inv) (map map_drive (capped (inv_Drives inv) maxDrives))
    (map map_controller (capped (inv_StorageControllers inv) maxStorageControllers)) (map map_adapter (capped (inv_NetworkAdapters inv) maxNetworkAdapters)).

(** Field by field, nothing cut. *)
Definition mapSensors (s : MachineSensors) : MachineSensors :=
  mkSensors (map (fun t => mkTemperature (tp_Name t) (tp_Celsius t) (tp_UpperCritical t) (tp_Health t)) (se_Temperatures s))
    (map (fun f => mkFan (fr_Name f) (fr_Reading f) (fr_Units f) (fr_Health f)) (se_Fans s))
    (map (fun p => mkPowerSupply (pw_Name p) (pw_Health p) (pw_State p) (pw_LastPowerOutputWatts p)) (se_PowerSupplies s)) (se_PowerConsumedWatts s).

Definition mapEventLog (entries : list EventLogEntry) : list EventLogEntry :=
  map (fun e => mkLogEntry (le_ID e) (le_Severity e) (truncateString (le_Message e) eventLogMessageMaxLength) (le_Created e))
    (if (EventLogRetainCount <? length entries)%nat then take EventLogRetainCount entries else entries).

Definition mapLogCounts (counts : option (gmap string Z)) : option (gmap string Z) := option_map (fmap wrap32) counts.

(** The fields but ObservedGeneration; [validAt] and [now] are its two readings of
    the clock. *)
Definition applySnapshot (st : ProbeStatus) (snap : Snapshot) (validAt now : time) : ProbeStatus :=
  mkProbeStatus (ps_ObservedGeneration st) (sn_PowerState snap) (sn_PostState snap) (sn_IndicatorLED snap)
    (if sn_SensorsTrustworthy snap then Some (mapSensors (sn_Sensors snap)) else None)
    (if sn_SensorsTrustworthy snap then Some validAt else ps_SensorsValidAt st)
    (mapEventLog (sn_Log snap)) (mapLogCounts (sn_LogCounts snap)) (wrap32 (sn_LogTotal snap)) (sn_LogPossiblyStale snap) (Some now).
Definition set_observed (g : Z) (st : ProbeStatus) : ProbeStatus :=
  mkProbeStatus g (ps_PowerState st) (ps_PostState st) (ps_IndicatorLED st) (ps_Sensors st) (ps_SensorsValidAt st) (ps_EventLog st)
    (ps_EventLogCounts st) (ps_EventLogTotal st) (ps_EventLogPossiblyStale st) (ps_LastProbeAt st).

Definition probeFailureReason (e : ProbeError) : string :=
  if pe_TLS e then "TLSError" else if pe_Auth e then "AuthFailed" else if pe_Unsupported e then "Unsupported"
  else if pe_DeadlineExceeded e then "Timeout" else if pe_NetTimeout e then "Timeout" else "ProbeFailed".

(** ** framemachine_sessions.go *)

Definition DefaultProbeInterval : Z := 60 * second.
Definition MinProbeInterval : Z := 60 * second.
Definition probeBackoffBase : Z := 5 * minute.
Definition probeBackoffMax : Z := 30 * minute.

Definition probeInterval (r : Z) : Z :=
  if r <? MinProbeInterval then if r =? 0 then DefaultProbeInterval else MinProbeInterval else r.

(** Its loop; three doublings pass the maximum. *)
Fixpoint backoff_loop (fuel : nat) (i n d : Z) : Z :=
  match fuel with
  | O => d
  | S fuel => if i <? n then let d := d * 2 in if probeBackoffMax <=? d then probeBackoffMax else backoff_loop fuel (i + 1) n d else d
  end.
Definition probeBackoff (n : Z) : Z := backoff_loop 3 1 n probeBackoffBase.

Section Controller.
Context {W : Type} {AA : AlertApi W} {MA : MachineApi W} {RO : RangeOrder} {MW : MachineWorld W}.
Context (alerts_on : bool) (interval : Z).

(** What the mutex guards. *)
Record machineClients := mkClients { mx_clients : gmap NamespacedName Rc; mx_failures : gmap NamespacedName Z }.
Definition no_clients : machineClients := mkClients ∅ ∅.

Definition clientFor (key : NamespacedName) (fresh : Rc) : St (machineClients * W) Rc :=
  m ← memory;
  match mx_clients m !! key with
  | Some held =>
    if SameTarget held fresh then mret held
    else
      _ ← remember (fun m => mkClients (<[key := fresh]> (mx_clients m)) (mx_failures m));
      _ ← (if bool_decide (held <> fresh) then beside (rc_Logout held) else mret None);
      mret fresh
  | None => _ ← remember (fun m => mkClients (<[key := fresh]> (mx_clients m)) (mx_failures m)); mret fresh
  end.

Definition forget (key : NamespacedName) : St (machineClients * W) unit :=
  m ← memory;
  _ ← remember (fun m => mkClients (delete key (mx_clients m)) (delete key (mx_failures m)));
  match mx_clients m !! key with
  | Some held => _ ← beside (rc_Logout held); mret tt
  | None => mret tt
  end.

Definition probeFailed (key : NamespacedName) : St (machineClients * W) Z :=
  m ← memory;
  let n := wrap64 (default 0 (mx_failures m !! key) + 1) in
  _ ← remember (fun m => mkClients (mx_clients m) (<[key := n]> (mx_failures m)));
  mret (probeBackoff n).

Definition probeSucceeded (key : NamespacedName) : St (machineClients * W) Z :=
  _ ← remember (fun m => mkClients (mx_clients m) (delete key (mx_failures m)));
  mret (probeInterval interval).

Fixpoint logout_each (l : list (NamespacedName * Rc)) : St (machineClients * W) unit :=
  match l with
  | [] => mret tt
  | (_, rc) :: l => _ ← beside (rc_Logout rc); logout_each l
  end.
Definition logoutAll : St (machineClients * W) unit :=
  m ← memory;
  _ ← remember (fun _ => no_clients);
  l ← beside (range_clients (mx_clients m));
  logout_each l.

(** ** framemachine_controller.go *)

Definition setCondition (m : Machine) (status reason msg : string) : Machine :=
  let fm := mc_FM m in
  with_fm m (set_conditions fm (set_status_condition (fm_Conditions fm) (mkCondition conditionReachable status reason msg (fm_Generation fm)))).

(** The request that is due. *)
Definition power_due (m : Machine) : option PowerRequestSpec :=
  match mc_PowerRequest m with
  | None => None
  | Some req =>
    match pa_LastPowerActionAt (mc_Power m) with
    | Some last => if after (pq_RequestedAt req) last then Some req else None
    | None => Some req
    end
  end.

Definition power_call (rc : Rc) (action : string) : St W (option string) :=
  if bool_decide (action = PowerActionOn) then rc_Reset rc "On"
  else if bool_decide (action = PowerActionGracefulShutdown) then rc_Reset rc "GracefulShutdown"
  else if bool_decide (action = PowerActionForceOff) then rc_Reset rc "ForceOff"
  else if bool_decide (action = PowerActionForceRestart) then rc_Reset rc "ForceRestart"
  else if bool_decide (action = PowerActionClearSEL) then rc_ClearLog rc
  else if bool_decide (action = PowerActionIndicatorLedOn) then rc_SetIndicatorLED rc true
  else if bool_decide (action = PowerActionIndicatorLedOff) then rc_SetIndicatorLED rc false
  else mret (Some ("unknown power action " +:+ quote action)).

(** The machine comes back with what it wrote on it. *)
Definition runPowerRequest (m : Machine) (rc : Rc) : St W Machine :=
  match power_due m with
  | None => mret m
  | Some req =>
    err ← power_call rc (pq_Action req);
    now ← wall_now;
    match err with
    | Some e =>
      _ ← machine_event "Warning" "PowerActionFailed" (pq_Action req +:+ ": " +:+ e);
      mret (with_power m (mkPowerStatus (pq_Action req) (Some now) (truncateString e 256)))
    | None =>
      _ ← machine_event "Normal" "PowerAction" (pq_Action req);
      mret (with_power m (mkPowerStatus (pq_Action req) (Some now) ""))
    end
  end.

Definition assess (m : Machine) (fresh : bool) : St W Machine :=
  fm ← assessStorage alerts_on (mc_FM m) fresh; mret (with_fm m fm).

(** The status write at the end of a branch: [old] is the machine as it was when
    the patch was begun. *)
Definition finish (old m : Machine) : St W (option apierr) :=
  r ← machine_patch old m; mret (match r with inl e => Some e | inr _ => None end).

(** A client was found: the power request, the probe and the record of both. *)
Definition probe_machine (key : NamespacedName) (m : Machine) (rc : Rc) : St (machineClients * W) (result apierr Z) :=
  m1 ← beside (runPowerRequest m rc);
  s ← beside (rc_Probe rc);
  match s with
  | inl e =>
    m2 ← beside (assess (setCondition m1 "False" (probeFailureReason e) (pe_text e)) false);
    p ← beside (finish m m2);
    match p with
    | Some e => mret (inl e)
    | None => retry ← probeFailed key; mret (inr retry)
    end
  | inr snap =>
    validAt ← (if sn_SensorsTrustworthy snap then beside wall_now else mret zero_time);
    now ← beside wall_now;
    let m1 := with_fm m1 (set_inventory (mc_FM m1) (mapInventory (sn_Inventory snap))) in
    let m1 := with_probe m1 (set_observed (fm_Generation (mc_FM m1)) (applySnapshot (mc_Probe m1) snap validAt now)) in
    m2 ← beside (assess (setCondition m1 "True" "Probed" "") true);
    p ← beside (finish m m2);
    match p with
    | Some e => mret (inl e)
    | None => next ← probeSucceeded key; mret (inr next)
    end
  end.

(** RequeueAfter, or the error. *)
Definition Reconcile (key : NamespacedName) : St (machineClients * W) (result apierr Z) :=
  g ← beside (machine_get key);
  match g with
  | inl e =>
    if err_notfound e then
      _ ← forget key;
      r ← beside (resolveStorageAlerts alerts_on key);
      mret (match r with Some e => inl e | None => inr 0 end)
    else mret (inl e)
  | inr m =>
    c ← beside (NewClient (fm_Namespace (mc_FM m)) (mc_BMC m));
    match c with
    | inl e =>
      _ ← forget key;
      m2 ← beside (assess (setCondition m "False" "CredentialsUnavailable" e) false);
      p ← beside (finish m m2);
      mret (match p with Some e => inl e | None => inr (5 * minute) end)
    | inr fresh =>
      rc ← clientFor key fresh;
      probe_machine key m rc
    end
  end.
End Controller.

(** redfish_client.go: the client that keeps its session is built over the
    connection [BuildRedfishBMC] reads, with the same reads and refusals. *)
Record ReusedClient := mkReused { rs_Target : RedfishTarget; rs_SessionReuse : bool }.
Definition BuildRedfishClient {W : Type} {IA : InstallApi W} {PL : ProvisionLibs} (namespace : string) (bmc : BMCSpec) : St W (result string ReusedClient) :=
  r ← BuildRedfishBMC namespace bmc;
  mret (match r with inl e => inl e | inr t => inr (mkReused t true) end).
