(* ===== verification/MachineSafety.v ===== *)
(** What a pass of the FrameMachine controller may do to a machine, over the calls
    it makes: the power request it acts on, what it records when the BMC does not
    answer, the sessions it leaves open, and the bounds of what it writes; and runs on an in-memory API server. *)
From stdpp Require Import base tactics strings list gmap.
From Stdlib Require Import ZArith Lia.
From S2P Require Import Prelude Trace GoLib GoTime Kube StorageTypes StorageHealth Alerting StorageAlerts InstallController MachineController.

Open Scope Z_scope.

(** ** The calls *)

Inductive PowerCommand := PReset (ty : string) | PClearLog | PIndicator (on : bool).

Section Calls.
Context {W : Type} {MW : MachineWorld W}.

Inductive mcall :=
  | MGet (key : NamespacedName) (r : result apierr Machine)
  | MClient (ns : string) (bmc : BMCSpec) (r : result string Rc)
  | MPower (rc : Rc) (c : PowerCommand) (r : option string)
  | MProbe (rc : Rc) (r : result ProbeError Snapshot)
  | MPatch (old new : Machine) (r : result apierr Machine)
  | MLogout (rc : Rc) (r : option string)
  | MEvent (ty reason msg : string).
End Calls.

(** The machine calls are recorded one by one; the alerts, the policies and the
    clock make none. *)
Class TracedMachine (W : Type) {AA : AlertApi W} {MA : MachineApi W} {MW : MachineWorld W} := {
  calls : W -> list mcall;
  c_get w k : calls (machine_get k w).2 = (calls w ++ [MGet k (machine_get k w).1])%list;
  c_client w ns b : calls (NewClient ns b w).2 = (calls w ++ [MClient ns b (NewClient ns b w).1])%list;
  c_reset w rc ty : calls (rc_Reset rc ty w).2 = (calls w ++ [MPower rc (PReset ty) (rc_Reset rc ty w).1])%list;
  c_clear w rc : calls (rc_ClearLog rc w).2 = (calls w ++ [MPower rc PClearLog (rc_ClearLog rc w).1])%list;
  c_led w rc on : calls (rc_SetIndicatorLED rc on w).2 = (calls w ++ [MPower rc (PIndicator on) (rc_SetIndicatorLED rc on w).1])%list;
  c_probe w rc : calls (rc_Probe rc w).2 = (calls w ++ [MProbe rc (rc_Probe rc w).1])%list;
  c_patch w old new : calls (machine_patch old new w).2 = (calls w ++ [MPatch old new (machine_patch old new w).1])%list;
  c_logout w rc : calls (rc_Logout rc w).2 = (calls w ++ [MLogout rc (rc_Logout rc w).1])%list;
  c_event w ty r m : calls (machine_event ty r m w).2 = (calls w ++ [MEvent ty r m])%list;
  q_range w m : calls (range_clients m w).2 = calls w;
  q_api_now w : calls (api_now w).2 = calls w;
  q_get_fa w n : calls (get_fa n w).2 = calls w;
  q_list_fas w : calls (list_fas w).2 = calls w;
  q_create_fa w a : calls (create_fa a w).2 = calls w;
  q_patch_fa w a b : calls (patch_fa a b w).2 = calls w;
  q_patch_fa_status w a b : calls (patch_fa_status a b w).2 = calls w;
  q_storage_policy w : calls (get_storage_policy w).2 = calls w;
  q_network_policy w : calls (get_network_policy w).2 = calls w;
  q_get_machine w k : calls (get_machine k w).2 = calls w;
  q_wall_now w : calls (wall_now w).2 = calls w;
  q_range_alerts w m : calls (range_alerts m w).2 = calls w
}.

(** Go ranges over every entry of a map once; the value of [SameTarget] is that of
    the clients. *)
Class RangedClients (W : Type) {MW : MachineWorld W} := {
  range_all w m : (range_clients m w).1 ≡ₚ map_to_list m
}.

Create HintDb quiet_calls.
#[export] Hint Resolve q_range q_api_now q_get_fa q_list_fas q_create_fa q_patch_fa q_patch_fa_status q_storage_policy q_network_policy q_get_machine
  q_wall_now q_range_alerts : quiet_calls.

(** ** The storage assessment makes no machine call *)

(** What the assessment leaves on a machine: all but its conditions and the record
    of the last release. *)
Definition same_machine (fm fm' : FrameMachine) : Prop :=
  fm_Name fm' = fm_Name fm /\ fm_Namespace fm' = fm_Namespace fm /\ fm_Generation fm' = fm_Generation fm /\ fm_NodeRef fm' = fm_NodeRef fm /\
  fm_AlertRelease fm' = fm_AlertRelease fm /\ fm_Reading fm' = fm_Reading fm.

Section Assessment.
Context {W : Type} {AA : AlertApi W} {MA : MachineApi W} {RO : RangeOrder} {MW : MachineWorld W} {TM : TracedMachine W} (alerts_on : bool).

Abbreviation emits := (Trace.emits calls).
Abbreviation quiet m := (emits m (fun _ t => t = [])).

Ltac silent :=
  repeat first
    [ apply (Trace.emits_ret calls); done
    | apply (Trace.emits_skip calls); [solve [auto with quiet_calls]|intros ?]
    | case_match ].

Lemma quiet_bind {A B} (m : St W A) (k : A -> St W B) (P : B -> list mcall -> Prop) : quiet m -> (forall a, emits (k a) P) -> emits (m ≫= k) P.
Proof. intros Hm Hk. eapply (Trace.emits_bind calls); [exact Hm|]. intros a t ->. apply Hk. Qed.
Lemma quiet_op {A} (m : St W A) : (forall w, calls (m w).2 = calls w) -> quiet m.
Proof. apply Trace.emits_quiet. Qed.

Lemma quiet_status fa state now : quiet (patchStatus_fa fa state now).
Proof. unfold patchStatus_fa. silent. Qed.

Lemma quiet_Record a : quiet (Record_ a).
Proof.
  unfold Record_. do 2 (apply (Trace.emits_skip calls); [auto with quiet_calls|intros ?]). case_match.
  - case_match; [|silent]. apply (Trace.emits_skip calls); [auto with quiet_calls|intros ?]. case_match; [silent|apply quiet_status].
  - apply quiet_bind; [case_match; [apply quiet_op; auto with quiet_calls|silent]|]. intros ?. case_match; [silent|]. case_match; [apply quiet_status|silent].
Qed.

Lemma quiet_resolve fa : quiet (resolveStorageAlert fa).
Proof. unfold resolveStorageAlert. apply (Trace.emits_skip calls); [auto with quiet_calls|intros ?]. apply quiet_Record. Qed.

Lemma quiet_open_loop k l open : quiet (open_loop k l open).
Proof.
  revert open. induction l as [|fa l IH]; intros open; cbn [open_loop]; [silent|]. case_match; [apply IH|]. case_match; [apply IH|].
  apply (Trace.emits_skip calls); [auto with quiet_calls|intros e]. destruct (match e with Some e => err_notfound e | None => false end); [|apply IH].
  apply quiet_bind; [apply quiet_resolve|]. intros [e'|]; [silent|apply IH].
Qed.
Lemma quiet_open k : quiet (openStorageAlerts alerts_on k).
Proof.
  unfold openStorageAlerts. case_match; [silent|]. apply (Trace.emits_skip calls); [auto with quiet_calls|intros ?]. case_match; [silent|apply quiet_open_loop].
Qed.

Lemma quiet_release_loop a device l m c k : quiet (release_loop a device l m c k).
Proof.
  revert m c k. induction l as [|[key fa] l IH]; intros m c k; cbn [release_loop]; [silent|]. repeat (case_match; [apply IH|]). case_match; [|apply IH].
  apply quiet_bind; [apply quiet_resolve|]. intros [e|]; [silent|apply IH].
Qed.

Lemma emits_release fm a m : emits (releaseStorageAlerts alerts_on fm a m) (fun r t => t = [] /\ same_machine fm r.1.2).
Proof.
  unfold releaseStorageAlerts. destruct (release_due alerts_on fm); [|by apply (Trace.emits_ret calls)].
  apply (Trace.emits_skip calls); [auto with quiet_calls|intros l]. apply quiet_bind; [apply quiet_release_loop|]. intros [[e|[c k]] m'].
  - by apply (Trace.emits_ret calls).
  - apply (Trace.emits_skip calls); [auto with quiet_calls|intros now]. by apply (Trace.emits_ret calls).
Qed.

Lemma quiet_raise fm now open l : quiet (raise_loop fm now open l).
Proof. induction l as [|f l IH]; cbn [raise_loop]; [silent|]. cbv zeta. apply quiet_bind; [apply quiet_Record|]. intros [e|]; [silent|apply IH]. Qed.
Lemma quiet_resolve_loop a l : quiet (resolve_loop a l).
Proof.
  induction l as [|[k fa] l IH]; cbn [resolve_loop]; [silent|]. case_match; [apply IH|]. apply quiet_bind; [apply quiet_resolve|]. intros [e|]; [silent|apply IH].
Qed.
Lemma quiet_write fm a open : quiet (writeStorageAlerts alerts_on fm a open).
Proof.
  unfold writeStorageAlerts. case_match; [silent|]. apply (Trace.emits_skip calls); [auto with quiet_calls|intros now].
  apply quiet_bind; [apply quiet_raise|]. intros [e|]; [silent|]. apply (Trace.emits_skip calls); [auto with quiet_calls|intros l]. apply quiet_resolve_loop.
Qed.

Lemma emits_assess fm fresh : emits (assessStorage alerts_on fm fresh) (fun fm' t => t = [] /\ same_machine fm fm').
Proof.
  unfold assessStorage. apply (Trace.emits_skip calls); [auto with quiet_calls|intros p].
  case_match; [by apply (Trace.emits_ret calls)|]. apply (Trace.emits_skip calls); [auto with quiet_calls|intros np].
  destruct (match np with inr _ => _ | inl _ => _ end) as [netPolicy netUnread].
  apply quiet_bind; [apply quiet_open|]. intros [e|alerts]; [by apply (Trace.emits_ret calls)|].
  apply (Trace.emits_skip calls); [auto with quiet_calls|intros now]. eapply (Trace.emits_bind calls); [apply emits_release|].
  intros [[e fm'] m] t [-> Hs]. cbn [fst snd] in Hs. apply quiet_bind; [apply quiet_write|]. intros e'. by apply (Trace.emits_ret calls).
Qed.

Lemma quiet_resolve_all l : quiet (resolve_all l).
Proof. induction l as [|[k fa] l IH]; cbn [resolve_all]; [silent|]. apply quiet_bind; [apply quiet_resolve|]. intros [e|]; [silent|apply IH]. Qed.
Lemma quiet_resolveStorageAlerts k : quiet (resolveStorageAlerts alerts_on k).
Proof.
  unfold resolveStorageAlerts. apply quiet_bind; [apply quiet_open|]. intros [e|open]; [silent|].
  apply (Trace.emits_skip calls); [auto with quiet_calls|intros l]. apply quiet_resolve_all.
Qed.
End Assessment.

(** ** A pass *)

Definition command_of (action : string) : option PowerCommand :=
  ({[ "On" := PReset "On"; "GracefulShutdown" := PReset "GracefulShutdown"; "ForceOff" := PReset "ForceOff"; "ForceRestart" := PReset "ForceRestart";
      "ClearSEL" := PClearLog; "IndicatorLedOn" := PIndicator true; "IndicatorLedOff" := PIndicator false ]} : gmap string PowerCommand) !! action.

(** The record of an action: its outcome and when it was taken. *)
Definition stamp (req : PowerRequestSpec) (now : time) (err : option string) : PowerStatus :=
  mkPowerStatus (pq_Action req) (Some now) (match err with Some e => truncateString e 256 | None => "" end).

Section Pass.
Context {W : Type} {AA : AlertApi W} {MA : MachineApi W} {RO : RangeOrder} {MW : MachineWorld W} {TM : TracedMachine W} {RG : RangedClients W}.
Context (alerts_on : bool) (interval : Z).

Abbreviation emits := (Trace.emits calls).
Abbreviation emits_ret := (Trace.emits_ret calls).
Abbreviation emits_bind := (Trace.emits_bind calls).
Abbreviation emits_call := (Trace.emits_call calls).
Abbreviation emits_skip := (Trace.emits_skip calls).
Abbreviation steps := (Trace.steps calls).
Abbreviation steps_ret := (Trace.steps_ret calls).
Abbreviation steps_beside := (Trace.steps_beside calls).
Abbreviation steps_memory := (Trace.steps_memory calls).
Abbreviation steps_remember := (Trace.steps_remember calls).
Abbreviation steps_bind := (Trace.steps_bind calls).

(** The calls of a power request, and the machine as it stands after. *)
Definition powered (rc : Rc) (m m1 : Machine) (l : list mcall) : Prop :=
  match power_due m with
  | None => m1 = m /\ l = []
  | Some req => exists now err ev, m1 = with_power m (stamp req now err) /\
    match command_of (pq_Action req) with
    | Some c => l = [MPower rc c err; ev]
    | None => is_Some err /\ l = [ev]
    end /\ exists ty why msg, ev = MEvent ty why msg
  end.

Lemma emits_power_call rc action : emits (power_call rc action) (fun err t =>
  match command_of action with Some c => t = [MPower rc c err] | None => is_Some err /\ t = [] end).
Proof.
  unfold power_call, PowerActionOn, PowerActionGracefulShutdown, PowerActionForceOff, PowerActionForceRestart, PowerActionClearSEL,
    PowerActionIndicatorLedOn, PowerActionIndicatorLedOff, command_of.
  repeat (case_bool_decide; [subst; simplify_map_eq; eapply Trace.emits_op; intros; first [apply c_reset|apply c_clear|apply c_led]|]).
  simplify_map_eq. apply emits_ret. eauto.
Qed.

Lemma emits_runPowerRequest m rc : emits (runPowerRequest m rc) (fun m1 t => powered rc m m1 t).
Proof.
  unfold runPowerRequest, powered. destruct (power_due m) as [req|]; [|by apply emits_ret].
  eapply emits_bind; [apply emits_power_call|]. intros err t Ht. apply emits_skip; [auto with quiet_calls|]. intros now.
  destruct err as [e|]; (eapply (Trace.emits_call0 calls); [intros; apply c_event|]; intros _; apply emits_ret); eexists now, (_ : option string), _.
  - split; [by instantiate (1 := Some e)|]. split; [|by eexists _, _, _]. destruct (command_of _); [by subst|]. destruct Ht as [_ ->]. by eauto.
  - split; [by instantiate (1 := None)|]. split; [|by eexists _, _, _]. destruct (command_of _); [by subst|]. by destruct Ht as [[? ?] _].
Qed.

(** What a pass that did not read the BMC leaves of the machine it read. *)
Definition unread (m m1 new : Machine) : Prop :=
  same_machine (mc_FM m) (mc_FM new) /\ mc_BMC new = mc_BMC m /\ mc_PowerRequest new = mc_PowerRequest m /\ mc_Probe new = mc_Probe m /\ mc_Power new = mc_Power m1.

(** And one that did. *)
Definition probed (m m1 : Machine) (snap : Snapshot) (new : Machine) : Prop :=
  exists validAt now, same_machine (set_inventory (mc_FM m) (mapInventory (sn_Inventory snap))) (mc_FM new) /\ mc_BMC new = mc_BMC m /\
    mc_PowerRequest new = mc_PowerRequest m /\ mc_Probe new = set_observed (fm_Generation (mc_FM m)) (applySnapshot (mc_Probe m) snap validAt now) /\
    mc_Power new = mc_Power m1.

Definition hold (key : NamespacedName) (rc : Rc) (s : machineClients) : machineClients := mkClients (<[key := rc]> (mx_clients s)) (mx_failures s).
Definition drop_key (key : NamespacedName) (s : machineClients) : machineClients := mkClients (delete key (mx_clients s)) (delete key (mx_failures s)).

(** The logout of what was held for [key], if it is not [kept]. *)
Definition logged_out (s : machineClients) (key : NamespacedName) (kept : option Rc) (l : list mcall) : Prop :=
  match mx_clients s !! key with
  | Some held => if decide (kept = Some held) then l = [] else exists r, l = [MLogout held r]
  | None => l = []
  end.

Definition chosen (s : machineClients) (key : NamespacedName) (fresh rc : Rc) (s1 : machineClients) (l : list mcall) : Prop :=
  (mx_clients s !! key = Some rc /\ SameTarget rc fresh = true /\ s1 = s /\ l = []) \/
  (rc = fresh /\ s1 = hold key fresh s /\ logged_out s key (Some fresh) l).

Lemma steps_clientFor key fresh s : steps (clientFor key fresh) s (fun rc s1 l => chosen s key fresh rc s1 l).
Proof.
  unfold clientFor. apply steps_memory. destruct (mx_clients s !! key) as [held|] eqn:E.
  - destruct (SameTarget held fresh) eqn:Es; [apply steps_ret; by left|]. apply steps_remember.
    destruct (decide (held = fresh)) as [->|Hne].
    + rewrite bool_decide_false by tauto. eapply steps_bind; [by apply (steps_ret _ _ (fun _ s' t => s' = hold key fresh s /\ t = []))|].
      intros _ s' t [-> ->]. apply steps_ret. right. split; [done|]. split; [done|]. unfold logged_out. rewrite E. by rewrite decide_True.
    + rewrite bool_decide_true by done. eapply steps_beside; [apply (Trace.emits_op calls _ (fun r => [MLogout held r])); intros; apply c_logout|].
      intros r t ->. apply steps_ret. right. split; [done|]. split; [done|]. unfold logged_out. rewrite E. rewrite decide_False by congruence. eauto.
  - apply steps_remember. apply steps_ret. right. split; [done|]. split; [done|]. unfold logged_out. by rewrite E.
Qed.

Lemma steps_forget key s : steps (forget key) s (fun _ s1 l => s1 = drop_key key s /\ logged_out s key None l).
Proof.
  unfold forget. apply steps_memory, steps_remember. unfold logged_out. destruct (mx_clients s !! key) as [held|]; [|by apply steps_ret].
  eapply steps_beside; [apply (Trace.emits_op calls _ (fun r => [MLogout held r])); intros; apply c_logout|]. intros r t ->. apply steps_ret.
  split; [done|]. rewrite decide_False by done. eauto.
Qed.

(** The calls of a pass, with what it answers and what it keeps. *)
Inductive pass_shape (key : NamespacedName) (s : machineClients) : result apierr Z -> machineClients -> list mcall -> Prop :=
  | shape_error e : err_notfound e = false -> pass_shape key s (inl e) s [MGet key (inl e)]
  | shape_gone e l r : err_notfound e = true -> logged_out s key None l -> pass_shape key s r (drop_key key s) (MGet key (inl e) :: l)
  | shape_no_client m e l new p r :
    logged_out s key None l -> unread m m new -> (forall z, r = inr z -> z = 5 * minute) ->
    pass_shape key s r (drop_key key s) (MGet key (inr m) :: MClient (fm_Namespace (mc_FM m)) (mc_BMC m) (inl e) :: l ++ [MPatch m new p])
  | shape_failed m fresh rc s1 s2 l m1 pw e new p r :
    chosen s key fresh rc s1 l -> powered rc m m1 pw -> unread m m1 new ->
    (forall z, r = inr z -> z = probeBackoff (wrap64 (default 0 (mx_failures s1 !! key) + 1))) -> mx_clients s2 = mx_clients s1 ->
    pass_shape key s r s2 (MGet key (inr m) :: MClient (fm_Namespace (mc_FM m)) (mc_BMC m) (inr fresh) :: l ++ pw ++ [MProbe rc (inl e); MPatch m new p])
  | shape_probed m fresh rc s1 s2 l m1 pw snap new p r :
    chosen s key fresh rc s1 l -> powered rc m m1 pw -> probed m m1 snap new ->
    (forall z, r = inr z -> z = probeInterval interval) -> mx_clients s2 = mx_clients s1 ->
    pass_shape key s r s2 (MGet key (inr m) :: MClient (fm_Namespace (mc_FM m)) (mc_BMC m) (inr fresh) :: l ++ pw ++ [MProbe rc (inr snap); MPatch m new p]).

Lemma emits_assess_machine m fresh : emits (assess alerts_on m fresh) (fun m' t => t = [] /\ exists fm', same_machine (mc_FM m) fm' /\ m' = with_fm m fm').
Proof. unfold assess. eapply emits_bind; [apply emits_assess|]. intros fm' t [-> Hs]. apply emits_ret. eauto. Qed.

Lemma emits_finish old m : emits (finish old m) (fun e t => exists p, t = [MPatch old m p]).
Proof. unfold finish. eapply emits_call; [intros; apply c_patch|]. intros p. apply emits_ret. eauto. Qed.

Lemma powered_rest rc m m1 l : powered rc m m1 l -> m1 = with_power m (mc_Power m1).
Proof. unfold powered. destruct (power_due m); [intros (now & err & ev & -> & _); done|intros [-> _]; by destruct m]. Qed.

Lemma steps_probe key m rc s : steps (probe_machine alerts_on interval key m rc) s (fun r s2 t => exists m1 pw x new p, powered rc m m1 pw /\
  t = (pw ++ [MProbe rc x; MPatch m new p])%list /\ mx_clients s2 = mx_clients s /\
  match x with
  | inl _ => unread m m1 new /\ forall z, r = inr z -> z = probeBackoff (wrap64 (default 0 (mx_failures s !! key) + 1))
  | inr snap => probed m m1 snap new /\ forall z, r = inr z -> z = probeInterval interval
  end).
Proof.
  unfold probe_machine. eapply steps_beside; [apply emits_runPowerRequest|]. intros m1 pw Hpw. pose proof (powered_rest _ _ _ _ Hpw) as Hm1.
  eapply steps_beside; [apply (Trace.emits_op calls _ (fun x => [MProbe rc x])); intros; apply c_probe|]. intros [e|snap] t ->.
  - eapply steps_beside; [apply emits_assess_machine|]. intros m2 t [-> (fm' & Hs & ->)].
    assert (unread m m1 (with_fm (setCondition m1 "False" (probeFailureReason e) (pe_text e)) fm')) as Hu by by rewrite Hm1 in Hs |- *.
    eapply steps_beside; [apply emits_finish|]. intros [pe|] t (p & ->).
    + apply steps_ret. eexists m1, pw, (inl e), _, p. split; [done|]. split; [done|]. split; [done|]. by split.
    + unfold probeFailed. eapply steps_bind; [apply steps_memory, steps_remember; by apply (steps_ret _ _ (fun z s2 t =>
        z = probeBackoff (wrap64 (default 0 (mx_failures s !! key) + 1)) /\ mx_clients s2 = mx_clients s /\ t = []))|].
      intros z s2 t (-> & Hc & ->). apply steps_ret. eexists m1, pw, (inl e), _, p. split; [done|]. split; [done|]. split; [done|].
      split; [done|]. by intros z [= <-].
  - eapply (steps_bind _ _ _ (fun _ s' t => s' = s /\ t = [])).
    { destruct (sn_SensorsTrustworthy snap); [|by apply steps_ret]. intros w. rewrite beside_run. exists []. rewrite app_nil_r. by split; [apply q_wall_now|]. }
    intros validAt s' t [-> ->]. eapply steps_beside; [apply quiet_op; auto with quiet_calls|]. intros now t ->. cbv zeta.
    eapply steps_beside; [apply emits_assess_machine|]. intros m2 t [-> (fm' & Hs & ->)].
    match goal with |- context [finish m ?n] => assert (probed m m1 snap n) as Hu by (exists validAt, now; by rewrite Hm1 in Hs |- *) end.
    eapply steps_beside; [apply emits_finish|]. intros [pe|] t (p & ->).
    + apply steps_ret. eexists m1, pw, (inr snap), _, p. split; [done|]. split; [done|]. split; [done|]. by split.
    + unfold probeSucceeded. eapply steps_bind; [apply steps_remember; by apply (steps_ret _ _ (fun z s2 t =>
        z = probeInterval interval /\ mx_clients s2 = mx_clients s /\ t = []))|].
      intros z s2 t (-> & Hc & ->). apply steps_ret. eexists m1, pw, (inr snap), _, p. split; [done|]. split; [done|]. split; [done|].
      split; [done|]. by intros z [= <-].
Qed.

Lemma Reconcile_shape key s : steps (Reconcile alerts_on interval key) s (pass_shape key s).
Proof.
  unfold Reconcile. eapply steps_beside; [apply (Trace.emits_op calls _ (fun r => [MGet key r])); intros; apply c_get|]. intros [e|m] t ->.
  - destruct (err_notfound e) eqn:En; [|apply steps_ret; by apply shape_error].
    eapply steps_bind; [apply steps_forget|]. intros _ s1 l [-> Hl]. eapply steps_beside; [apply quiet_resolveStorageAlerts|].
    intros r t ->. apply steps_ret. rewrite app_nil_r. cbn. by apply shape_gone.
  - eapply steps_beside; [apply (Trace.emits_op calls _ (fun r => [MClient (fm_Namespace (mc_FM m)) (mc_BMC m) r])); intros; apply c_client|].
    intros [e|fresh] t ->.
    + eapply steps_bind; [apply steps_forget|]. intros _ s1 l [-> Hl]. eapply steps_beside; [apply emits_assess_machine|].
      intros m2 t [-> (fm' & Hs & ->)]. eapply steps_beside; [apply emits_finish|]. intros pe t (p & ->). apply steps_ret.
      rewrite app_nil_r. cbn. apply shape_no_client; [done|done|]. by destruct pe; intros z [= <-].
    + eapply steps_bind; [apply steps_clientFor|]. intros rc s1 l Hc. eapply Trace.steps_mono; [apply steps_probe|].
      intros r s2 t (m1 & pw & x & new & p & Hpw & -> & Hs2 & Hx). cbn. destruct x as [e|snap]; destruct Hx as [Hx Hz].
      * by eapply shape_failed.
      * by eapply shape_probed.
Qed.

(** ** The power calls *)

Definition reads_or_writes (x : mcall) : Prop := match x with MGet _ _ | MPatch _ _ _ => True | _ => False end.

(** Since the last read of a machine, which gave [m] for [key], the calls were [l]. *)
Definition since (pre : list mcall) (key : NamespacedName) (m : Machine) (l : list mcall) : Prop :=
  exists p, pre = (p ++ MGet key (inr m) :: l)%list /\ forall x, x ∈ l -> ~ reads_or_writes x.

Definition is_power (x : mcall) : Prop := match x with MPower _ _ _ => True | _ => False end.

(** A power call answers a due request of the machine just read, once; what is
    written of the machine records the action, and the reading of the BMC if there
    was one. *)
Definition mmay (pre : list mcall) (x : mcall) : Prop :=
  match x with
  | MPower rc c _ => exists key m l req, since pre key m l /\ (forall y, y ∈ l -> ~ is_power y) /\ power_due m = Some req /\ command_of (pq_Action req) = Some c
  | MPatch old new _ => exists key l, since pre key old l /\ mc_BMC new = mc_BMC old /\ mc_PowerRequest new = mc_PowerRequest old /\
      match power_due old with
      | None => mc_Power new = mc_Power old /\ forall y, y ∈ l -> ~ is_power y
      | Some req => (exists now err, mc_Power new = stamp req now err /\ forall rc c r, MPower rc c r ∈ l -> r = err) \/
          (mc_Power new = mc_Power old /\ forall y, y ∈ l -> ~ is_power y)
      end /\
      ((mc_Probe new = mc_Probe old /\ fm_Reading (mc_FM new) = fm_Reading (mc_FM old)) \/
       exists rc snap validAt now, MProbe rc (inr snap) ∈ l /\ st_Inventory (fm_Reading (mc_FM new)) = Some (mapInventory (sn_Inventory snap)) /\
         mc_Probe new = set_observed (fm_Generation (mc_FM old)) (applySnapshot (mc_Probe old) snap validAt now))
  | _ => True
  end.

Lemma logged_out_only s key kept l x : logged_out s key kept l -> x ∈ l -> exists rc r, x = MLogout rc r.
Proof.
  unfold logged_out. destruct (_ !! _); [destruct (decide _)|]; [by intros -> ?%not_elem_of_nil| |by intros -> ?%not_elem_of_nil].
  intros [z ->] ->%list_elem_of_singleton. eauto.
Qed.
Lemma chosen_only s key fresh rc s1 l x : chosen s key fresh rc s1 l -> x ∈ l -> exists rc r, x = MLogout rc r.
Proof. intros [(_ & _ & _ & ->)|(_ & _ & Hl)]; [by intros ?%not_elem_of_nil|by eapply logged_out_only]. Qed.

Lemma powered_calls rc m m1 pw : powered rc m m1 pw -> (forall x, x ∈ pw -> ~ reads_or_writes x) /\
  match power_due m with
  | None => mc_Power m1 = mc_Power m /\ forall y, y ∈ pw -> ~ is_power y
  | Some req => exists now err, mc_Power m1 = stamp req now err /\ forall rc' c r, MPower rc' c r ∈ pw -> r = err
  end.
Proof.
  unfold powered. destruct (power_due m) as [req|]; [|by intros [-> ->]; split; [|split]; try done; intros ? ?%not_elem_of_nil].
  intros (now & err & ev & -> & Hpw & ty & why & msg & ->). destruct (command_of _); [|destruct Hpw as [_ Hpw]]; subst pw.
  - split; [|exists now, err; split; [done|]]; intros *; rewrite !elem_of_cons, elem_of_nil; naive_solver.
  - split; [|exists now, err; split; [done|]]; intros *; rewrite !elem_of_cons, elem_of_nil; naive_solver.
Qed.

Abbreviation just := (justified mmay).

Lemma just_quiet pre t : (forall x, x ∈ t -> ~ reads_or_writes x /\ ~ is_power x) -> just pre t.
Proof. intros H. apply justified_always. intros p x Hx. destruct (H x Hx). by destruct x. Qed.

Lemma just_powered pre key m l rc m1 pw : since pre key m l -> (forall y, y ∈ l -> ~ is_power y) -> powered rc m m1 pw -> just pre pw.
Proof.
  unfold powered. intros Hs Hl. destruct (power_due m) as [req|] eqn:Ed; [|by intros [_ ->]].
  intros (now & err & ev & _ & Hpw & ty & why & msg & ->). destruct (command_of _) as [c|] eqn:Ec; [|destruct Hpw as [_ ->]; done]. subst pw.
  split; [|done]. by exists key, m, l, req.
Qed.

(** The tail of a pass that probed. *)
Lemma just_probe pre key m l rc m1 pw x new p :
  since pre key m l -> (forall y, y ∈ l -> ~ is_power y) -> powered rc m m1 pw ->
  match x with inl _ => unread m m1 new | inr snap => probed m m1 snap new end ->
  just pre (pw ++ [MProbe rc x; MPatch m new p]).
Proof.
  intros Hs Hl Hpw Hx. rewrite justified_app. split; [by eapply just_powered|]. split; [done|]. split; [|done].
  destruct (powered_calls _ _ _ _ Hpw) as [Hrw Hst]. assert (since ((pre ++ pw) ++ [MProbe rc x]) key m (l ++ pw ++ [MProbe rc x])) as Hs'.
  { destruct Hs as (q & -> & Hq). exists q. split; [by rewrite <- !app_assoc|]. intros y [Hy|[Hy|Hy]%elem_of_app]%elem_of_app; auto.
    apply list_elem_of_singleton in Hy as ->. by intros []. }
  assert (mc_BMC new = mc_BMC m /\ mc_PowerRequest new = mc_PowerRequest m /\ mc_Power new = mc_Power m1) as (Hb & Hr & Hp)
    by by destruct x; [destruct Hx as (? & ? & ? & ? & ?)|destruct Hx as (? & ? & ? & ? & ? & ? & ?)].
  eexists key, _. split; [exact Hs'|]. split; [done|]. split; [done|]. split.
  - rewrite Hp. destruct (power_due m).
    + left. destruct Hst as (now & err & Hp1 & He). exists now, err. split; [done|]. intros rc' c r.
      intros [Hy|[Hy|Hy%list_elem_of_singleton]%elem_of_app]%elem_of_app; [by apply Hl in Hy|by eapply He|done].
    + destruct Hst as [Hp1 Hn]. split; [done|]. intros y [Hy|[Hy|Hy]%elem_of_app]%elem_of_app; auto.
      apply list_elem_of_singleton in Hy as ->. by intros [].
  - destruct x as [e|snap].
    + left. destruct Hx as ((_ & _ & _ & _ & _ & Hrd) & _ & _ & Hpr & _). done.
    + right. destruct Hx as (v & n & (_ & _ & _ & _ & _ & Hrd) & _ & _ & Hpr & _). exists rc, snap, v, n. split; [set_solver|]. by rewrite Hrd.
Qed.

Lemma just_client pre key m ns b fresh s rc s1 l m1 pw x new p :
  chosen s key fresh rc s1 l -> powered rc m m1 pw -> match x with inl _ => unread m m1 new | inr snap => probed m m1 snap new end ->
  just ((pre ++ [MGet key (inr m)]) ++ [MClient ns b (inr fresh)]) (l ++ pw ++ [MProbe rc x; MPatch m new p]).
Proof.
  intros Hc Hpw Hx. assert (forall y, y ∈ MClient ns b (inr fresh) :: l -> ~ reads_or_writes y /\ ~ is_power y) as Hq.
  { intros y [->|Hy]%elem_of_cons; [by split; intros []|]. destruct (chosen_only _ _ _ _ _ _ _ Hc Hy) as (? & ? & ->). by split; intros []. }
  rewrite justified_app. split; [apply just_quiet; intros y Hy; apply Hq; by apply list_elem_of_further|].
  eapply (just_probe _ key m (MClient ns b (inr fresh) :: l)); [|by intros y Hy; apply Hq|done|done].
  exists pre. split; [by rewrite <- !app_assoc|]. intros y Hy. by apply Hq.
Qed.

Lemma just_no_client pre key m e s l new p : logged_out s key None l -> unread m m new ->
  just ((pre ++ [MGet key (inr m)]) ++ [MClient (fm_Namespace (mc_FM m)) (mc_BMC m) (inl e)]) (l ++ [MPatch m new p]).
Proof.
  intros Hl ((_ & _ & _ & _ & _ & Hrd) & Hb & Hq & Hpr & Hpw). set (c := MClient _ _ _).
  assert (forall y, y ∈ c :: l -> ~ reads_or_writes y /\ ~ is_power y) as Hq'.
  { intros y [->|Hy]%elem_of_cons; [by split; intros []|]. destruct (logged_out_only _ _ _ _ _ Hl Hy) as (? & ? & ->). by split; intros []. }
  rewrite justified_app. split; [apply just_quiet; intros y Hy; apply Hq'; by apply list_elem_of_further|]. split; [|done].
  exists key, (c :: l). split; [exists pre; split; [by rewrite <- !app_assoc|intros y Hy; by apply Hq']|]. split; [done|]. split; [done|]. split; [|by left].
  assert (mc_Power new = mc_Power m /\ forall y, y ∈ c :: l -> ~ is_power y) as Hn by by split; [|intros y Hy; apply Hq'].
  destruct (power_due m); [by right|done].
Qed.

Lemma shape_justified key s r s' t pre : pass_shape key s r s' t -> just pre t.
Proof.
  destruct 1 as [e He|e l ? He Hl|m e l new p ? Hl Hu|m fresh rc s1 s2 l m1 pw e new p ? Hc Hpw Hu|m fresh rc s1 s2 l m1 pw snap new p ? Hc Hpw Hu];
    cbn [justified]; (split; [done|]); [done| |split; [done|]..].
  - apply just_quiet. intros x Hx. destruct (logged_out_only _ _ _ _ _ Hl Hx) as (? & ? & ->). by split; intros [].
  - by eapply just_no_client.
  - by eapply (just_client _ _ _ _ _ _ _ _ _ _ _ _ (inl e)).
  - by eapply (just_client _ _ _ _ _ _ _ _ _ _ _ _ (inr snap)).
Qed.

(** ** The sessions *)

(** Whether [rc] was used since it was last logged out. *)
Definition touch (rc : Rc) (on : bool) (x : mcall) : bool :=
  match x with
  | MPower rc' _ _ | MProbe rc' _ => if decide (rc' = rc) then true else on
  | MLogout rc' _ => if decide (rc' = rc) then false else on
  | _ => on
  end.
Definition active (h : list mcall) (rc : Rc) : bool := foldl (touch rc) false h.

Definition all_held (s : machineClients) (h : list mcall) : Prop := forall rc, active h rc = true -> exists key, mx_clients s !! key = Some rc.

Lemma active_app h t rc : active (h ++ t) rc = foldl (touch rc) (active h rc) t.
Proof. apply foldl_app. Qed.

(** Calls that touch no client but [rc]. *)
Definition only_on (rc : Rc) (x : mcall) : Prop := match x with MPower rc' _ _ | MProbe rc' _ | MLogout rc' _ => rc' = rc | _ => True end.

Lemma active_only rc' on t rc : (forall x, x ∈ t -> only_on rc x) -> rc' <> rc -> foldl (touch rc') on t = on.
Proof.
  intros H Hne. revert on. induction t as [|x t IH]; intros on; cbn; [done|]. rewrite IH by (intros y Hy; apply H; by apply list_elem_of_further).
  pose proof (H x (list_elem_of_here _ _)) as Hx. destruct x; cbn in *; subst; rewrite ?decide_False by done; done.
Qed.

Lemma logged_out_active s key kept l h rc : logged_out s key kept l -> active (h ++ l) rc = true ->
  active h rc = true /\ (mx_clients s !! key = Some rc -> kept = Some rc).
Proof.
  unfold logged_out. destruct (mx_clients s !! key) as [held|] eqn:E; [|intros ->; rewrite app_nil_r; split; [done|by intros [=]]].
  destruct (decide (kept = Some held)) as [->|Hk]; [intros ->; rewrite app_nil_r; by split|]. intros [z ->]. rewrite active_app. cbn.
  destruct (decide (held = rc)) as [->|Hne]; [done|]. intros H. split; [done|]. congruence.
Qed.

Lemma forget_held s key l h : all_held s h -> logged_out s key None l -> all_held (drop_key key s) (h ++ l).
Proof.
  intros Hh Hl rc Ha. destruct (logged_out_active _ _ _ _ _ _ Hl Ha) as [Ha' Hn]. destruct (Hh rc Ha') as [k Hk]. exists k. cbn.
  destruct (decide (k = key)) as [->|Hne]; [by apply Hn in Hk|]. by rewrite lookup_delete_ne.
Qed.

Lemma chosen_held s key fresh rc s1 l h : all_held s h -> chosen s key fresh rc s1 l -> all_held s1 (h ++ l) /\ mx_clients s1 !! key = Some rc.
Proof.
  intros Hh [(Hk & _ & -> & ->)|(-> & -> & Hl)]; [by rewrite app_nil_r|]. split; [|apply lookup_insert_eq].
  intros rc Ha. destruct (logged_out_active _ _ _ _ _ _ Hl Ha) as [Ha' Hn]. destruct (Hh rc Ha') as [k Hk]. cbn.
  destruct (decide (k = key)) as [->|Hne]; [apply Hn in Hk as [= ->]; exists key; apply lookup_insert_eq|]. exists k. by rewrite lookup_insert_ne.
Qed.

Lemma used_held s s2 key rc t h : mx_clients s2 = mx_clients s -> mx_clients s !! key = Some rc -> (forall x, x ∈ t -> only_on rc x) -> all_held s h -> all_held s2 (h ++ t).
Proof.
  intros Hs Hk Ht Hh rc' Ha. rewrite Hs. destruct (decide (rc' = rc)) as [->|Hne]; [by exists key|].
  rewrite active_app, (active_only _ _ _ rc) in Ha by done. by apply Hh.
Qed.

Lemma powered_only rc m m1 pw x : powered rc m m1 pw -> x ∈ pw -> only_on rc x.
Proof.
  unfold powered. destruct (power_due m); [|by intros [_ ->] ?%not_elem_of_nil]. intros (? & ? & ? & _ & Hpw & ? & ? & ? & ->).
  destruct (command_of _); [|destruct Hpw as [_ Hpw]]; subst pw; rewrite !elem_of_cons, elem_of_nil; naive_solver.
Qed.

Lemma probe_held s s1 s2 key m ns b fresh rc l m1 pw x new p h :
  all_held s h -> chosen s key fresh rc s1 l -> powered rc m m1 pw -> mx_clients s2 = mx_clients s1 ->
  all_held s2 (h ++ MGet key (inr m) :: MClient ns b (inr fresh) :: l ++ pw ++ [MProbe rc x; MPatch m new p]).
Proof.
  intros Hh Hc Hpw Hs. destruct (chosen_held s key fresh rc s1 l (h ++ [MGet key (inr m); MClient ns b (inr fresh)])) as [Hh1 Hk]; [|done|].
  { intros rc'. rewrite active_app. apply Hh. }
  replace (h ++ _)%list with (((h ++ [MGet key (inr m); MClient ns b (inr fresh)]) ++ l) ++ pw ++ [MProbe rc x; MPatch m new p])%list by by rewrite <- !app_assoc.
  eapply used_held; [exact Hs|exact Hk| |done]. intros y [Hy|Hy]%elem_of_app; [by eapply powered_only|].
  rewrite !elem_of_cons, elem_of_nil in Hy. by destruct Hy as [->|[->|[]]].
Qed.

Lemma shape_held key s r s' t h : pass_shape key s r s' t -> all_held s h -> all_held s' (h ++ t).
Proof.
  destruct 1 as [e He|e l ? He Hl|m e l new p ? Hl Hu|m fresh rc s1 s2 l m1 pw e new p ? Hc Hpw Hu ? Hs|m fresh rc s1 s2 l m1 pw snap new p ? Hc Hpw Hu ? Hs]; intros Hh.
  - intros rc. rewrite active_app. apply Hh.
  - replace (h ++ _)%list with ((h ++ [MGet key (inl e)]) ++ l)%list by by rewrite <- app_assoc. apply forget_held; [|done].
    intros rc. rewrite active_app. apply Hh.
  - set (c := MClient _ _ _). intros rc Ha. apply (forget_held s key l (h ++ [MGet key (inr m); c])); [|done|].
    + intros rc'. rewrite active_app. apply Hh.
    + rewrite <- app_assoc. rewrite !active_app in Ha |- *. cbn in Ha |- *. by rewrite foldl_app in Ha.
  - by eapply probe_held.
  - by eapply probe_held.
Qed.

Lemma emits_logouts l s : steps (logout_each l) s (fun _ s' t => s' = s /\ exists rs, t = zip_with MLogout (map snd l) rs /\ length rs = length l).
Proof.
  induction l as [|[k rc] l IH]; cbn [logout_each]; [apply steps_ret; split; [done|by exists []]|].
  eapply steps_beside; [apply (Trace.emits_op calls _ (fun r => [MLogout rc r])); intros; apply c_logout|]. intros r t ->.
  eapply Trace.steps_mono; [exact IH|]. intros _ s' t (-> & rs & -> & Hl). split; [done|]. exists (r :: rs). cbn. by rewrite Hl.
Qed.

Lemma logouts_end rcs rs rc on : length rs = length rcs -> (on = true -> rc ∈ rcs) -> foldl (touch rc) on (zip_with MLogout rcs rs) = false.
Proof.
  revert rs on. induction rcs as [|x rcs IH]; intros [|r rs] on Hl Hin; cbn in *; try lia.
  - destruct on; [|done]. by destruct (not_elem_of_nil rc (Hin eq_refl)).
  - apply IH; [lia|]. destruct (decide (x = rc)) as [->|Hne]; [done|]. intros H. by apply Hin in H as [->|H]%elem_of_cons.
Qed.

Lemma logoutAll_ends s h w : all_held s h -> exists t, calls (logoutAll (s, w)).2.2 = (calls w ++ t)%list /\ (logoutAll (s, w)).2.1 = no_clients /\
  forall rc, active (h ++ t) rc = false.
Proof.
  intros Hh. assert (steps logoutAll s (fun _ s' t => s' = no_clients /\ forall rc, active (h ++ t) rc = false)) as H; [|apply H].
  unfold logoutAll. apply steps_memory, steps_remember. eapply (steps_beside _ _ _ (fun l t => t = [] /\ l ≡ₚ map_to_list (mx_clients s))).
  { intros w'. exists []. rewrite app_nil_r. split; [apply q_range|]. split; [done|]. apply range_all. }
  intros l t [-> Hl]. eapply Trace.steps_mono; [apply emits_logouts|]. intros _ s' t (-> & rs & -> & Hrs). split; [done|]. intros rc. cbn.
  rewrite active_app. apply logouts_end; [by rewrite length_map|]. intros Ha. destruct (Hh rc Ha) as [k Hk].
  apply list_elem_of_fmap. exists (k, rc). split; [done|]. rewrite Hl. by apply elem_of_map_to_list.
Qed.

(** ** A life of the controller *)

Fixpoint reconciles (keys : list NamespacedName) : St (machineClients * W) unit :=
  match keys with
  | [] => mret tt
  | key :: keys => _ ← Reconcile alerts_on interval key; reconciles keys
  end.

Lemma reconciles_keep keys s : steps (reconciles keys) s (fun _ s' t => (forall pre, just pre t) /\ forall h, all_held s h -> all_held s' (h ++ t)).
Proof.
  revert s. induction keys as [|key keys IH]; intros s; cbn [reconciles].
  - apply steps_ret. split; [done|]. intros h. by rewrite app_nil_r.
  - eapply steps_bind; [apply Reconcile_shape|]. intros r s1 t Hsh. eapply Trace.steps_mono; [apply IH|]. intros _ s' t' [Hj Hh]. split.
    + intros pre. apply justified_app. split; [by eapply shape_justified|apply Hj].
    + intros h H. rewrite app_assoc. by eapply Hh, shape_held.
Qed.

(** The power status of the last write of the machine [key] that the server took. *)
Definition name_of (m : Machine) : NamespacedName := (fm_Namespace (mc_FM m), fm_Name (mc_FM m)).
Definition power_write (key : NamespacedName) (acc : option PowerStatus) (x : mcall) : option PowerStatus :=
  match x with MPatch old new (inr _) => if decide (name_of old = key) then Some (mc_Power new) else acc | _ => acc end.
Definition last_power (key : NamespacedName) (h : list mcall) : option PowerStatus := foldl (power_write key) None h.

(** A metav1.Time is stored in whole seconds. *)
Definition whole_second (t : time) : time := Time (unix_nano t / 10 ^ 9 * 10 ^ 9) 0.
(** A machine is read under its name, with the time of the last action that was written, as it is stored: nothing
    else writes it, and the read is not older than the write. *)
Definition reads_own_writes (h : list mcall) : Prop :=
  forall p key m q, h = (p ++ MGet key (inr m) :: q)%list -> name_of m = key /\
    forall ps, last_power key p = Some ps -> pa_LastPowerActionAt (mc_Power m) = whole_second <$> pa_LastPowerActionAt ps.

Lemma last_power_quiet key p l : (forall x, x ∈ l -> ~ reads_or_writes x) -> last_power key (p ++ l) = last_power key p.
Proof.
  intros H. unfold last_power. rewrite foldl_app. generalize (foldl (power_write key) None p). induction l as [|x l IH]; intros a; cbn; [done|].
  rewrite IH by (intros y Hy; apply H; by apply list_elem_of_further). pose proof (H x (list_elem_of_here _ _)). by destruct x.
Qed.

Lemma due_after m req last : power_due m = Some req -> pa_LastPowerActionAt (mc_Power m) = Some last -> after (pq_RequestedAt req) last = true.
Proof. unfold power_due. intros H Hl. rewrite Hl in H. destruct (mc_PowerRequest m); [|done]. by destruct (after _ _) eqn:E; simplify_eq. Qed.

(** C18. In a life of the controller that reads its own writes, every power call answers
    the request of a machine it read and is the first since that read; the request is dated after the
    second in which the last action recorded for that machine was taken, and so, when it is dated in whole seconds,
    after that action. A request dated within that second is answered again ([restarts_twice]). *)
Theorem power_answers_request keys w h rc c r h' :
  calls w = [] -> calls (reconciles keys (no_clients, w)).2.2 = (h ++ MPower rc c r :: h')%list -> reads_own_writes (h ++ MPower rc c r :: h') ->
  exists key m l req, since h key m l /\ name_of m = key /\ (forall y, y ∈ l -> ~ is_power y) /\ mc_PowerRequest m = Some req /\ command_of (pq_Action req) = Some c /\
    forall ps last, last_power key h = Some ps -> pa_LastPowerActionAt ps = Some last ->
      unix_nano last / 10 ^ 9 * 10 ^ 9 < unix_nano (pq_RequestedAt req) /\
      (unix_nano (pq_RequestedAt req) mod 10 ^ 9 = 0 -> unix_nano last < unix_nano (pq_RequestedAt req)).
Proof.
  intros Hw Hh Hrw. destruct (reconciles_keep keys no_clients w) as (t & Ht & Hj & _). rewrite Ht, Hw in Hh. cbn in Hh. subst t.
  pose proof (justified_split _ _ _ _ _ (Hj [])) as (key & m & l & req & Hs & Hl & Hd & Hc). cbn in Hs. exists key, m, l, req.
  split; [done|]. destruct Hs as (p & -> & Hq). rewrite <- app_assoc in Hrw. destruct (Hrw _ _ _ _ eq_refl) as [Hn Hlast].
  split; [done|]. split; [done|]. split; [unfold power_due in Hd; by repeat case_match; simplify_eq|]. split; [done|]. intros ps last Hps Hat.
  replace (p ++ MGet key (inr m) :: l)%list with ((p ++ [MGet key (inr m)]) ++ l)%list in Hps by by rewrite <- app_assoc.
  rewrite last_power_quiet in Hps by done. unfold last_power in Hps. rewrite foldl_app in Hps. cbn in Hps. apply Hlast in Hps as Hp.
  rewrite Hat in Hp. pose proof (due_after _ _ _ Hd Hp) as Ha. unfold after, whole_second in Ha. cbn in Ha. apply Z.ltb_lt in Ha. split; [exact Ha|].
  intros Hz. Z.to_euclidean_division_equations. lia.
Qed.

(** However the controller lived, once the sessions are ended at its stop no client
    it used is left logged in. *)
Theorem sessions_ended keys w : calls w = [] ->
  forall rc, active (calls ((_ ← reconciles keys; logoutAll) (no_clients, w)).2.2) rc = false.
Proof.
  intros Hw rc. destruct (reconciles_keep keys no_clients w) as (t & Ht & _ & Hh). rewrite St_bind_run.
  destruct (reconciles keys (no_clients, w)) as [[] [s w']] eqn:E. cbn [fst snd] in *. rewrite Hw in Ht. cbn in Ht.
  destruct (logoutAll_ends s t w') as (t' & Ht' & _ & Ha); [by apply (Hh [])|]. rewrite Ht', Ht. apply Ha.
Qed.

(** C30. A pass whose probe fails, or that has no client, writes back the readings of the
    BMC it read; and it records the action it took all the same. *)
Theorem failure_keeps_reading key s w old new p :
  let t := drop (length (calls w)) (calls (Reconcile alerts_on interval key (s, w)).2.2) in
  MPatch old new p ∈ t -> (forall rc snap, MProbe rc (inr snap) ∉ t) ->
  mc_Probe new = mc_Probe old /\ fm_Reading (mc_FM new) = fm_Reading (mc_FM old) /\
  forall rc c r, MPower rc c r ∈ t -> exists req now, power_due old = Some req /\ mc_Power new = stamp req now r.
Proof.
  destruct (Reconcile_shape key s w) as (t & Ht & Hsh). rewrite Ht, drop_app_length. cbv zeta. intros Hin Hno.
  clear Ht. destruct Hsh as [e He|e l res He Hl|m e l new' p' res Hl Hu|m fresh rc s1 s2 l m1 pw e new' p' res Hc Hpw Hu|m fresh rc s1 s2 l m1 pw snap new' p' res Hc Hpw Hu].
  - by apply list_elem_of_singleton in Hin.
  - apply elem_of_cons in Hin as [?|Hin]; [done|]. by destruct (logged_out_only _ _ _ _ _ Hl Hin) as (? & ? & ?).
  - assert (old = m /\ new = new') as [-> ->].
    { apply elem_of_cons in Hin as [?|[?|[Hx|[= -> -> ->]%list_elem_of_singleton]%elem_of_app]%elem_of_cons]; [done..| |done].
      by destruct (logged_out_only _ _ _ _ _ Hl Hx) as (? & ? & ?). }
    destruct Hu as ((_ & _ & _ & _ & _ & Hrd) & _ & _ & Hpr & _). split; [done|]. split; [done|]. intros rc c r.
    intros [?|[?|[Hx|?%list_elem_of_singleton]%elem_of_app]%elem_of_cons]%elem_of_cons; try done. by destruct (logged_out_only _ _ _ _ _ Hl Hx) as (? & ? & ?).
  - destruct (powered_calls _ _ _ _ Hpw) as [Hq Hst]. assert (old = m /\ new = new') as [-> ->].
    { apply elem_of_cons in Hin as [?|[?|[Hx|[Hx|Hx]%elem_of_app]%elem_of_app]%elem_of_cons]; [done..| | |].
      - by destruct (chosen_only _ _ _ _ _ _ _ Hc Hx) as (? & ? & ?).
      - by apply Hq in Hx.
      - rewrite !elem_of_cons, elem_of_nil in Hx. by destruct Hx as [?|[?|[]]]; simplify_eq. }
    destruct Hu as ((_ & _ & _ & _ & _ & Hrd) & _ & _ & Hpr & Hp). split; [done|]. split; [done|]. intros rc' c r Hx. rewrite Hp.
    apply elem_of_cons in Hx as [?|[?|[Hx|[Hx|Hx]%elem_of_app]%elem_of_app]%elem_of_cons]; [done..| | |].
    + by destruct (chosen_only _ _ _ _ _ _ _ Hc Hx) as (? & ? & ?).
    + destruct (power_due m) as [req|]; [|by apply Hst in Hx]. destruct Hst as (now & err & -> & He). rewrite (He _ _ _ Hx). eauto.
    + rewrite !elem_of_cons, elem_of_nil in Hx. by destruct Hx as [?|[?|[]]]; simplify_eq.
  - destruct (Hno rc snap). set_solver.
Qed.
End Pass.

(** * Bounds, back-off and runs: what is written against the bounds of the CRD, and the controller on
    an in-memory API server that enforces them *)

(** ** The bounds of the CRD (the markers of framemachine_types.go) *)

Definition fits (n : nat) (s : string) : bool := (rune_count s <=? n)%nat.
Definition items {T} (n : nat) (ok : T -> bool) (l : list T) : bool := (length l <=? n)%nat && forallb ok l.

Definition processor_ok (p : ProcessorInfo) : bool := fits 64 (pr_Socket p) && fits 256 (pr_Model p).
Definition memory_ok (m : MemoryModuleInfo) : bool := fits 64 (mm_Slot m) && fits 64 (mm_Type m) && fits 256 (mm_Manufacturer m).
Definition drive_ok (d : DriveInfo) : bool :=
  fits 256 (dr_Name d) && fits 256 (dr_Model d) && fits 64 (dr_Protocol d) && fits 64 (dr_Health d) && fits 128 (dr_SerialNumber d) &&
  fits 64 (dr_Location d) && fits 32 (dr_MediaType d) && items 16 (fun _ => true) (dr_StatusReasons d) && fits 64 (dr_Firmware d).
Definition controller_ok (s : StorageControllerInfo) : bool :=
  fits 128 (sc_Location s) && fits 256 (sc_Model s) && fits 64 (sc_Firmware s) && fits 64 (sc_Health s) && fits 64 (sc_BackupPowerStatus s) && fits 64 (sc_CacheStatus s).
Definition adapter_ok (n : NetworkAdapterInfo) : bool := fits 256 (na_Name n) && fits 64 (na_MAC n) && fits 64 (na_Status n).
Definition inventory_ok (i : MachineInventory) : bool :=
  fits 256 (inv_Manufacturer i) && fits 256 (inv_Model i) && fits 128 (inv_SerialNumber i) && fits 128 (inv_BIOSVersion i) && fits 128 (inv_BMCFirmware i) &&
  items 8 processor_ok (inv_Processors i) && items 48 memory_ok (inv_MemoryModules i) && items 32 drive_ok (inv_Drives i) &&
  items 8 controller_ok (inv_StorageControllers i) && items 16 adapter_ok (inv_NetworkAdapters i).

Definition sensors_ok (s : MachineSensors) : bool :=
  items 64 (fun _ => true) (se_Temperatures s) && items 32 (fun _ => true) (se_Fans s) && items 8 (fun _ => true) (se_PowerSupplies s).
Definition entry_ok (e : EventLogEntry) : bool := fits 64 (le_ID e) && fits 32 (le_Severity e) && fits 512 (le_Message e).
Definition probe_ok (p : ProbeStatus) : bool :=
  fits 64 (ps_PostState p) && match ps_Sensors p with Some s => sensors_ok s | None => true end && items 25 entry_ok (ps_EventLog p).
(** What the status may hold, as far as a pass writes it. *)
Definition status_ok (m : Machine) : bool :=
  probe_ok (mc_Probe m) && match st_Inventory (fm_Reading (mc_FM m)) with Some i => inventory_ok i | None => true end && fits 256 (pa_LastPowerActionError (mc_Power m)).

Lemma clip_fits s n : fits n (clip s n) = true.
Proof.
  unfold fits, clip. apply Nat.leb_le. destruct (rune_count s <=? n)%nat eqn:E; [by apply Nat.leb_le|].
  rewrite rune_count_of_runes; [rewrite length_take; lia|]. apply Forall_take, runes_fuel_decoded.
Qed.
Lemma truncate_fits s n : fits n (truncateString s n) = true.
Proof. apply clip_fits. Qed.

Lemma items_map {A B} n (f : A -> B) ok l : (forall x, ok (f x) = true) -> items n ok (map f (capped l n)) = true.
Proof.
  intros H. unfold items, capped. apply andb_true_iff. split.
  - apply Nat.leb_le. rewrite length_map. destruct (n <? length l)%nat eqn:E; [rewrite length_take; lia|]. apply Nat.ltb_ge in E. lia.
  - apply forallb_forall. intros x (y & <- & _)%in_map_iff. apply H.
Qed.
Lemma items_capped {A} n (l : list A) : items n (fun _ => true) (capped l n) = true.
Proof. rewrite <- (map_id (capped l n)). by apply items_map. Qed.

Lemma clip_id s n : fits n s = true -> clip s n = s.
Proof. unfold fits, clip. by intros ->. Qed.
Lemma items_id {A} n (f : A -> A) ok l : (forall x, ok x = true -> f x = x) -> items n ok l = true -> map f (capped l n) = l.
Proof.
  intros H [Hn Hl]%andb_true_iff. apply Nat.leb_le in Hn. unfold capped. replace (n <? length l)%nat with false by (symmetry; apply Nat.ltb_ge; lia).
  induction l as [|x l IH]; cbn in *; [done|]. apply andb_true_iff in Hl as [Hx Hl]. rewrite H, IH by (done || lia). done.
Qed.

Ltac fields := unfold inventory_ok, processor_ok, memory_ok, drive_ok, controller_ok, adapter_ok, mapInventory, map_processor, map_memory, map_drive, map_controller, map_adapter;
  cbn [inv_Manufacturer inv_Model inv_SerialNumber inv_BIOSVersion inv_BMCFirmware inv_Processors inv_MemoryModules inv_Drives inv_StorageControllers
    inv_NetworkAdapters pr_Socket pr_Model mm_Slot mm_Type mm_Manufacturer dr_Name dr_Model dr_Protocol dr_Health dr_SerialNumber dr_Location dr_MediaType
    dr_StatusReasons dr_Firmware sc_Location sc_Model sc_Firmware sc_Health sc_BackupPowerStatus sc_CacheStatus na_Name na_MAC na_Status].
Ltac bounded := intros x; fields; rewrite !clip_fits, ?items_capped; reflexivity.
Ltac conjuncts H := repeat match type of H with _ && _ = true => let H' := fresh in apply andb_true_iff in H as [H H'] end.
Ltac unchanged := let x := fresh in let H := fresh in intros x H; unfold processor_ok, memory_ok, controller_ok, adapter_ok in H; conjuncts H;
  unfold map_processor, map_memory, map_controller, map_adapter; rewrite !clip_id by done; by destruct x.

Lemma capped_id {A} n (l : list A) : items n (fun _ => true) l = true -> capped l n = l.
Proof. intros H. rewrite <- (map_id (capped l n)). by eapply items_id. Qed.

Lemma drive_unchanged d : drive_ok d = true -> map_drive d = d.
Proof.
  unfold drive_ok. intros Hx. conjuncts Hx.
  unfold map_drive. rewrite !clip_id, capped_id by done. by destruct d.
Qed.

(** Whatever the BMC says, the inventory written of it is within the bounds of the
    CRD, and is the BMC's own where that was within them. *)
Theorem inventory_within_bounds inv : inventory_ok (mapInventory inv) = true /\ (inventory_ok inv = true -> mapInventory inv = inv).
Proof.
  split.
  - unfold inventory_ok at 1. fields. rewrite !clip_fits, !items_map; [reflexivity|bounded..].
  - unfold inventory_ok. intros Hx. conjuncts Hx.
    unfold mapInventory. rewrite !clip_id by done.
    rewrite (items_id _ _ processor_ok), (items_id _ _ memory_ok), (items_id _ _ drive_ok), (items_id _ _ controller_ok), (items_id _ _ adapter_ok) by (done || unchanged || apply drive_unchanged).
    by destruct inv.
Qed.

(** ** The back-off *)

(** The wait after the n-th failure in a row doubles from five minutes up to half an
    hour, for every count a controller can reach. *)
Theorem probeBackoff_doubles n : 1 <= n -> probeBackoff n = Z.min (probeBackoffBase * 2 ^ (n - 1)) probeBackoffMax.
Proof.
  intros Hn. destruct (decide (n <= 3)) as [H|H].
  - assert (n = 1 \/ n = 2 \/ n = 3) as [->|[->| ->]] by lia; reflexivity.
  - assert (probeBackoff n = probeBackoffMax) as ->.
    { unfold probeBackoff. cbn [backoff_loop]. replace (1 <? n) with true by (symmetry; apply Z.ltb_lt; lia).
      replace (1 + 1 <? n) with true by (symmetry; apply Z.ltb_lt; lia). replace (1 + 1 + 1 <? n) with true by (symmetry; apply Z.ltb_lt; lia). reflexivity. }
    assert (2 ^ 3 <= 2 ^ (n - 1)) by (apply Z.pow_le_mono_r; lia). unfold probeBackoffBase, probeBackoffMax, minute, second in *. lia.
Qed.
Lemma probeBackoff_doubles_witness : probeBackoff 5 = 30 * minute.
Proof. rewrite (probeBackoff_doubles 5) by lia. reflexivity. Defined.

(** ** The in-memory world *)

(** The clients are numbers: one per password seen. *)
Inductive entry :=
  | EGet (key : NamespacedName) (r : result apierr Machine)
  | EClient (ns : string) (bmc : BMCSpec) (r : result string nat)
  | EPower (rc : nat) (c : PowerCommand) (r : option string)
  | EProbe (rc : nat) (r : result ProbeError Snapshot)
  | EPatch (old new : Machine) (r : result apierr Machine)
  | ELogout (rc : nat) (r : option string)
  | EEvent (ty reason msg : string).

(** One machine, kept within the bounds of its CRD; what the BMC answers a probe
    with; the client a pass is given; and the clock, half past a second, which advances by a minute at
    each reading. The time of an action is stored in whole seconds. *)
Record world := mkWorld { log : list entry; stored : option Machine; bmc : result ProbeError Snapshot; client : result string nat; clock : Z }.
Definition note (x : entry) (w : world) : world := mkWorld (log w ++ [x]) (stored w) (bmc w) (client w) (clock w).
Definition and_a_half (n : Z) : time := Time (unix_nano (at_s n) + 5 * 10 ^ 8) 0.
Definition minute_on (w : world) : time * world := (and_a_half (clock w), mkWorld (log w) (stored w) (bmc w) (client w) (clock w + 60)).

#[local] Instance mem_machine : MachineWorld world := {|
  Rc := nat;
  SameTarget := Nat.eqb;
  machine_get := fun k w => let r := match stored w with Some m => inr m | None => inl (ApiErr "not found" true false) end in (r, note (EGet k r) w);
  machine_patch := fun old new w =>
    let kept := with_power new (mkPowerStatus (pa_LastPowerAction (mc_Power new)) (whole_second <$> pa_LastPowerActionAt (mc_Power new)) (pa_LastPowerActionError (mc_Power new))) in
    if status_ok new then (inr kept, note (EPatch old new (inr kept)) (mkWorld (log w) (Some kept) (bmc w) (client w) (clock w)))
    else let r := inl (plain_err "status: Too many") in (r, note (EPatch old new r) w);
  machine_event := fun ty r m w => (tt, note (EEvent ty r m) w);
  NewClient := fun ns b w => (client w, note (EClient ns b (client w)) w);
  rc_Probe := fun rc w => (bmc w, note (EProbe rc (bmc w)) w);
  rc_Reset := fun rc ty w => (None, note (EPower rc (PReset ty) None) w);
  rc_ClearLog := fun rc w => (None, note (EPower rc PClearLog None) w);
  rc_SetIndicatorLED := fun rc on w => (None, note (EPower rc (PIndicator on) None) w);
  rc_Logout := fun rc w => (None, note (ELogout rc None) w);
  range_clients := fun m w => (map_to_list m, w)
|}.
#[local] Instance mem_alert : AlertApi world := {|
  api_now := minute_on;
  get_fa := fun _ w => (inl (ApiErr "not found" true false), w);
  list_fas := fun w => (inr [], w);
  create_fa := fun a w => (inr a, w);
  patch_fa := fun _ a w => (inr a, w);
  patch_fa_status := fun _ a w => (inr a, w);
  get_token := fun w => (inr "t", w);
  decode_payload := fun _ => None
|}.
#[local] Instance mem_api : MachineApi world := {|
  get_storage_policy := fun w => (inl (plain_err "no answer"), w);
  get_network_policy := fun w => (inl (plain_err "no answer"), w);
  get_machine := fun _ w => (None, w);
  wall_now := minute_on;
  range_alerts := fun m w => (map_to_list m, w);
  set_status_condition := fun l c => c :: filter (fun x => c_Type x <> c_Type c) l
|}.
#[local] Instance mem_order : RangeOrder := fun m => elements (dom m).

Definition as_call (x : entry) : mcall :=
  match x with
  | EGet k r => MGet k r
  | EClient ns b r => MClient ns b r
  | EPower rc c r => MPower rc c r
  | EProbe rc r => MProbe rc r
  | EPatch o n r => MPatch o n r
  | ELogout rc r => MLogout rc r
  | EEvent ty r m => MEvent ty r m
  end.
#[local] Instance mem_traced : TracedMachine world.
Proof.
  refine {| calls w := map as_call (log w) |}; try done; intros; cbn; rewrite ?map_app; try done.
  destruct (status_ok new); cbn; by rewrite map_app.
Defined.
#[local] Instance mem_ranged : RangedClients world.
Proof. by constructor. Defined.

Definition ok_snapshot (psus : nat) : Snapshot :=
  mkSnapshot "On" "Off" (mkMachineInventory "HPE" "ML350 Gen9" "CZ1" "P92" "2.78" [] [] 64 [] [] [])
    (mkSensors [] [] (replicate psus (mkPowerSupply "PSU" "OK" "Enabled" 120)) 240) [] 0 None "FinishedPost" true false.
Definition box (req : option PowerRequestSpec) : Machine :=
  mkMachine (mkFrameMachine "box" "frame-system" 1 "" None (mkMachineReading None None None) None "" [])
    (mkBMCSpec "10.0.0.2" "ilo" true "") req (mkProbeStatus 0 "" "" "" None None [] None 0 false None) (mkPowerStatus "" None "").
Definition key : NamespacedName := ("frame-system", "box").
Definition restart (at_ : Z) : PowerRequestSpec := mkPowerRequest PowerActionForceRestart (at_s at_).
Definition start (req : option PowerRequestSpec) (b : result ProbeError Snapshot) : world := mkWorld [] (Some (box req)) b (inr 7%nat) 1000.
Definition powers (w : world) : list PowerCommand := flat_map (fun x => match x with EPower _ c _ => [c] | _ => [] end) (log w).
Definition after_passes (n : nat) (w : world) : world := (reconciles true 0 (replicate n key) (no_clients, w)).2.2.
Definition deadline : ProbeError := mkProbeError "context deadline exceeded" false false false true false.

(** The request is answered once, over passes that read the BMC and passes that do
    not. *)
Example restarts_once : powers (after_passes 3 (start (Some (restart 500)) (inr (ok_snapshot 2)))) = [PReset "ForceRestart"] /\
  powers (after_passes 3 (start (Some (restart 500)) (inl deadline))) = [PReset "ForceRestart"].
Proof. by vm_compute. Qed.

(** Nine power supplies are one more than the CRD takes, and nothing cuts the list:
    the server refuses every status of that machine, the record of the action is
    lost with the rest of it, and every pass restarts the machine again. *)
Theorem restarts_every_pass : powers (after_passes 3 (start (Some (restart 500)) (inr (ok_snapshot 9)))) = [PReset "ForceRestart"; PReset "ForceRestart"; PReset "ForceRestart"].
Proof. by vm_compute. Qed.

(** So does a request dated after the controller's clock, until the clock passes
    it. *)
Theorem restarts_until_clock : powers (after_passes 3 (start (Some (restart 5000)) (inr (ok_snapshot 2)))) = [PReset "ForceRestart"; PReset "ForceRestart"; PReset "ForceRestart"].
Proof. by vm_compute. Qed.

(** So does one dated in the second in which it was answered: the console dates its requests with milliseconds, and
    the time of the action is stored without them. *)
Definition restart_ms : PowerRequestSpec := mkPowerRequest PowerActionForceRestart (Time (unix_nano (at_s 1000) + 2 * 10 ^ 8) 0).
Theorem restarts_twice : powers (after_passes 4 (start (Some restart_ms) (inr (ok_snapshot 2)))) = [PReset "ForceRestart"; PReset "ForceRestart"].
Proof. by vm_compute. Qed.

(** ** Witnesses *)

Lemma sessions_ended_witness : active (calls ((_ ← reconciles true 0 [key; key]; logoutAll) (no_clients, start (Some (restart 500)) (inr (ok_snapshot 2)))).2.2) 7%nat = false.
Proof. apply sessions_ended. reflexivity. Defined.

(** Reading one's own writes, checked along a history. *)
Fixpoint reads_ok (p h : list mcall) : bool :=
  match h with
  | [] => true
  | x :: h =>
    match x with
    | MGet key (inr m) => bool_decide (name_of m = key) &&
        match last_power key p with Some ps => bool_decide (pa_LastPowerActionAt (mc_Power m) = whole_second <$> pa_LastPowerActionAt ps) | None => true end
    | _ => true
    end && reads_ok (p ++ [x]) h
  end.
Lemma reads_checked h : reads_ok [] h = true -> reads_own_writes h.
Proof.
  intros H p key m q E. assert (forall p0 h, reads_ok p0 h = true -> forall p q, h = (p ++ MGet key (inr m) :: q)%list ->
    name_of m = key /\ forall ps, last_power key (p0 ++ p) = Some ps -> pa_LastPowerActionAt (mc_Power m) = whole_second <$> pa_LastPowerActionAt ps) as Hg; [|by apply (Hg [] h H p q)].
  clear. intros p0 h. revert p0. induction h as [|x h IH]; intros p0 Hr p q E; [by destruct p|]. cbn [reads_ok] in Hr. apply andb_true_iff in Hr as [Hx Hr].
  destruct p as [|y p]; cbn in E; simplify_eq.
  - rewrite app_nil_r. apply andb_true_iff in Hx as [Hn%bool_decide_eq_true Hl]. split; [done|]. intros ps Hps. rewrite Hps in Hl. by apply bool_decide_eq_true in Hl.
  - specialize (IH (p0 ++ [y]) Hr p q eq_refl). by rewrite <- app_assoc in IH.
Qed.

(** Two passes that both act, the request being dated ahead of the clock: the second reads what the first wrote. *)
Definition two_passes : list mcall := map as_call (log (after_passes 2 (start (Some (restart 5000)) (inl deadline)))).
Definition upto : nat := 8.
Lemma power_answers_request_witness :
  (pa_LastPowerActionAt <$> last_power key (take upto two_passes)) = Some (Some (and_a_half 1000)) /\
  exists k m l req, since (take upto two_passes) k m l /\ mc_PowerRequest m = Some req /\
    forall ps last, last_power k (take upto two_passes) = Some ps -> pa_LastPowerActionAt ps = Some last ->
      unix_nano last / 10 ^ 9 * 10 ^ 9 < unix_nano (pq_RequestedAt req).
Proof.
  split; [vm_compute; reflexivity|].
  assert (take upto two_passes ++ MPower 7%nat (PReset "ForceRestart") None :: drop (S upto) two_passes = two_passes)%list as E by (apply take_drop_middle; reflexivity).
  destruct (power_answers_request true 0 [key; key] (start (Some (restart 5000)) (inl deadline)) (take upto two_passes) 7%nat (PReset "ForceRestart") None (drop (S upto) two_passes))
    as (k & m & l & req & Hs & Hn & _ & Hr & Hc & Hl).
  - reflexivity.
  - rewrite E. reflexivity.
  - rewrite E. apply reads_checked. vm_compute. reflexivity.
  - exists k, m, l, req. split; [exact Hs|]. split; [exact Hr|]. intros ps last Hps Hat. exact (proj1 (Hl ps last Hps Hat)).
Defined.

Lemma no_probe (t : list mcall) : forallb (fun x => match x with MProbe _ (inr _) => false | _ => true end) t = true -> forall rc snap, MProbe rc (inr snap) ∉ t.
Proof. intros H rc snap Hin%list_elem_of_In. rewrite forallb_forall in H. discriminate (H _ Hin). Qed.

Definition failed_pass : world := after_passes 1 (start (Some (restart 500)) (inl deadline)).
Definition failed_write : Machine := match log failed_pass !! 5%nat with Some (EPatch _ new _) => new | _ => box None end.
Definition failed_kept : Machine := default (box None) (stored failed_pass).
Lemma failure_keeps_reading_witness : mc_Probe failed_write = mc_Probe (box (Some (restart 500))).
Proof.
  refine (proj1 (failure_keeps_reading true 0 key no_clients (start (Some (restart 500)) (inl deadline)) (box (Some (restart 500))) failed_write (inr failed_kept) _ _)).
  - apply (list_elem_of_lookup_2 _ 5). reflexivity.
  - apply no_probe. reflexivity.
Defined.

Lemma inventory_within_bounds_witness : mapInventory (sn_Inventory (ok_snapshot 2)) = sn_Inventory (ok_snapshot 2).
Proof. apply inventory_within_bounds. reflexivity. Defined.
