(* ===== verification/Services.v ===== *)
(** The service catalog: internal/controller/services/frameservice_controller.go
    and binding.go, internal/services/provider (the contract of a provider, its
    registry) and the admission of internal/webhook/services/v1beta1.

    A FrameService names a type; the registry gives its provider, which sizes the
    instance, builds it and says what a consumer needs. The controller writes those
    credentials to a Secret beside the FrameService and to one in each namespace the
    spec lists, at coordinates its status records.

    The API server, controllerutil and a provider's operations are parameters:
    [ServiceWorld] and [Provider]. The Prometheus counters and log lines are left
    out. *)
From stdpp Require Import base tactics strings list gmap.
From Stdlib Require Import ZArith Lia.
From S2P Require Import Prelude GoLib GoTime Kube StorageAlerts.

Open Scope Z_scope.

(** ** The objects (api/services/v1beta1/frameservice_types.go) *)

(** A Secret's namespace and name. *)
Record ProjectedSecretRef := mkCoord { co_Namespace : string; co_Name : string }.
#[global] Instance coord_eq : EqDecision ProjectedSecretRef.
Proof. solve_decision. Defined.
#[global] Program Instance coord_countable : Countable ProjectedSecretRef :=
  inj_countable' (fun c => (co_Namespace c, co_Name c)) (fun p => mkCoord p.1 p.2) _.
Next Obligation. by intros []. Qed.

Record ProvisionedRef := mkProvisioned { pv_APIVersion : string; pv_Kind : string; pv_Name : string; pv_Namespace : string }.
#[global] Instance provisioned_eq : EqDecision ProvisionedRef.
Proof. solve_decision. Defined.

Record BindingSpec := mkBindingSpec { bs_SecretName : string; bs_ProjectTo : list string }.
Record FrameServiceSpec := mkServiceSpec {
  sv_Type : string; sv_Parameters : gmap string string; sv_ServiceClass : string; sv_Binding : BindingSpec; sv_DeletionPolicy : string
}.
Record Sizing := mkSizing { sz_GPU : string; sz_GPUMemory : string; sz_CPU : string; sz_Memory : string }.
Record BindingStatus := mkBindingStatus { bt_SecretRef : option string; bt_Endpoint : string; bt_Projected : list ProjectedSecretRef }.
Record FrameServiceStatus := mkServiceStatus {
  vs_ObservedGeneration : Z; vs_Conditions : list Condition; vs_Binding : BindingStatus; vs_Sizing : Sizing; vs_Provisioned : list ProvisionedRef
}.
Record FrameService := mkService {
  sv_Namespace : string; sv_Name : string; sv_Generation : Z; sv_Deleted : bool; sv_Finalizers : list string;
  sv_Spec : FrameServiceSpec; sv_Status : FrameServiceStatus
}.
Definition with_finalizers (s : FrameService) (fs : list string) : FrameService :=
  mkService (sv_Namespace s) (sv_Name s) (sv_Generation s) (sv_Deleted s) fs (sv_Spec s) (sv_Status s).
Definition with_status (s : FrameService) (st : FrameServiceStatus) : FrameService :=
  mkService (sv_Namespace s) (sv_Name s) (sv_Generation s) (sv_Deleted s) (sv_Finalizers s) (sv_Spec s) st.
Definition with_binding (s : FrameService) (b : BindingStatus) : FrameService :=
  let st := sv_Status s in
  with_status s (mkServiceStatus (vs_ObservedGeneration st) (vs_Conditions st) b (vs_Sizing st) (vs_Provisioned st)).
Definition with_projected (s : FrameService) (l : list ProjectedSecretRef) : FrameService :=
  let b := vs_Binding (sv_Status s) in with_binding s (mkBindingStatus (bt_SecretRef b) (bt_Endpoint b) l).
Definition projected (s : FrameService) : list ProjectedSecretRef := bt_Projected (vs_Binding (sv_Status s)).
Definition service_key (s : FrameService) : NamespacedName := (sv_Namespace s, sv_Name s).

(** A Secret as the controller writes it; [cs_Owner] is its controller reference. *)
Record CredentialSecret := mkCredentialSecret { cs_Labels : strmap; cs_Data : strmap; cs_Owner : option NamespacedName }.

(** ** internal/services/provider *)

(** The schema of a type's parameters; [js_Set] names the fields of the struct that
    are not zero, in the order of the struct. A pattern comes with the language it
    stands for; one that does not compile matches nothing. *)
Record Property := mkProperty { pp_Enum : list string; pp_Pattern : string; pp_Matches : string -> bool; pp_Set : list string }.
Record Schema := mkSchema { js_Required : list string; js_Properties : gmap string Property; js_Set : list string }.

Record SizeError := mkSizeError { se_text : string; se_Unread : bool }.
Record SecretAccessForbidden := mkForbidden { sf_Namespace : string; sf_Action : string }.
Record BindError := mkBindError { be_text : string; be_Forbidden : option SecretAccessForbidden }.
Record Result := mkResult { rs_Ready : bool; rs_Reason : string; rs_Message : string; rs_Provisioned : option (list ProvisionedRef) }.
Record Binding := mkBinding { bi_Data : strmap; bi_Endpoint : string; bi_None : bool }.

Definition ReasonSecretAccessForbidden : string := "SecretAccessForbidden".
Definition forbidden_text (e : SecretAccessForbidden) : string :=
  "the manager may not " +:+ sf_Action e +:+ " Secrets in namespace " +:+ quote (sf_Namespace e) +:+
  ": bind ClusterRole frame-manager-secret-writer there (Helm: rbac.managerSecretAccess.write; kustomize: config/overlays/production)".

(** The two interfaces: every provider validates and sizes, a Provisioner builds and
    binds too. *)
Record Provisioner (W : Type) := mkProvisioner {
  pn_Reconcile : FrameService -> St W (result string Result);
  pn_Bind : FrameService -> St W (result BindError Binding)
}.
Record Provider (W : Type) := mkProvider {
  pr_Type : string;
  pr_Schema : Schema;
  pr_Size : strmap -> St W (result SizeError Sizing);
  pr_Provisioner : option (Provisioner W)
}.
Arguments mkProvisioner {W}.
Arguments pn_Reconcile {W}.
Arguments pn_Bind {W}.
Arguments mkProvider {W}.
Arguments pr_Type {W}.
Arguments pr_Schema {W}.
Arguments pr_Size {W}.
Arguments pr_Provisioner {W}.

Record Registry (W : Type) := mkRegistry { rg_byType : gmap string (Provider W); rg_types : list string }.
Arguments mkRegistry {W}.
Arguments rg_byType {W}.
Arguments rg_types {W}.

Definition enforcedRootFields : list string := ["Type"; "Required"; "Properties"].
Definition enforcedPropertyFields : list string := ["Type"; "Description"; "Enum"; "Pattern"].

(** The panic, if there is one. *)
Definition checkNoUnenforcedFields (providerType propertyName : string) (fields allowed : list string) : option string :=
  match filter (fun f => f ∉ allowed) fields with
  | [] => None
  | f :: _ => Some (
    if bool_decide (propertyName = "") then
      "provider " +:+ quote providerType +:+ ": schema sets " +:+ f +:+ ", which the webhook's validateAgainstSchema does not " +:+
      "enforce; the supported schema is type and required, plus type, description, enum " +:+ "and pattern per property — remove " +:+ f +:+
      " or enforce it in validateAgainstSchema first"
    else
      "provider " +:+ quote providerType +:+ ": parameter " +:+ quote propertyName +:+ " sets " +:+ f +:+ ", which the webhook's validateAgainstSchema does not " +:+
      "enforce; the supported per-property fields are type, description, enum and pattern — " +:+ "remove " +:+ f +:+ " or enforce it in validateAgainstSchema first")
  end.
Fixpoint check_properties (providerType : string) (s : Schema) (names : list string) : option string :=
  match names with
  | [] => None
  | name :: names =>
    match checkNoUnenforcedFields providerType name (default [] (pp_Set <$> js_Properties s !! name)) enforcedPropertyFields with
    | Some p => Some p
    | None => check_properties providerType s names
    end
  end.
Definition checkSchemaIsEnforceable (providerType : string) (s : Schema) : option string :=
  match checkNoUnenforcedFields providerType "" (js_Set s) enforcedRootFields with
  | Some p => Some p
  | None => check_properties providerType s (sort_strings (elements (dom (js_Properties s))))
  end.

(** [inl] is the panic. *)
Fixpoint register {W} (r : Registry W) (l : list (Provider W)) : result string (Registry W) :=
  match l with
  | [] => inr (mkRegistry (rg_byType r) (sort_strings (rg_types r)))
  | p :: l =>
    if bool_decide (is_Some (rg_byType r !! pr_Type p)) then inl ("two providers registered for type " +:+ quote (pr_Type p))
    else match checkSchemaIsEnforceable (pr_Type p) (pr_Schema p) with
         | Some e => inl e
         | None => register (mkRegistry (<[pr_Type p := p]> (rg_byType r)) (rg_types r ++ [pr_Type p])) l
         end
  end.
Definition NewRegistry {W} (l : list (Provider W)) : result string (Registry W) := register (mkRegistry ∅ []) l.

Definition registry_get {W} (r : Registry W) (t : string) : result string (Provider W) :=
  match rg_byType r !! t with
  | Some p => inr p
  | None => inl ("unknown service type " +:+ quote t +:+ ": valid types are " +:+ join ", " (rg_types r))
  end.

(** ** The world of the controller *)

Class ServiceWorld (W : Type) := {
  service_get : NamespacedName -> St W (result apierr FrameService);
  service_update : FrameService -> St W (option apierr);
  service_status_update : FrameService -> St W (option apierr);
  service_event : string -> string -> string -> St W unit;
  secret_get : ProjectedSecretRef -> St W (option apierr);                (* [None]: there is one *)
  secret_apply : ProjectedSecretRef -> (CredentialSecret -> result string CredentialSecret) -> St W (option apierr);   (* CreateOrUpdate *)
  secret_delete : ProjectedSecretRef -> St W (option apierr);
  object_delete : ProvisionedRef -> St W (option apierr);
  namespace_get : string -> St W (option apierr);
  is_forbidden : apierr -> bool;
  is_dns1123_label : string -> list string;                                (* what is wrong with it *)
  set_service_condition : list Condition -> Condition -> list Condition;
  has_finalizer : list string -> string -> bool;
  add_service_finalizer : list string -> string -> list string;
  drop_finalizer : list string -> string -> list string;
  set_controller_reference : FrameService -> CredentialSecret -> result string CredentialSecret
}.

Definition frameServiceFinalizer : string := "services.plume-labs.io/finalizer".
Definition degradedRequeue : Z := 2 * minute.
Definition readyRequeue : Z := 10 * minute.
Definition ownedByLabel : string := "frame.plume-labs.io/owned-by".

(** ** binding.go *)

(** An error of the binding: a bindingDegradation or another. *)
Inductive BindingErr := Degradation (reason message : string) | Failed (e : string).

Definition ownedByValue (svc : FrameService) : string := sv_Namespace svc +:+ "." +:+ sv_Name svc.
Definition secretName (svc : FrameService) : string :=
  let n := bs_SecretName (sv_Binding (sv_Spec svc)) in if bool_decide (n <> "") then n else sv_Name svc.
Definition coordsMissingFrom (coords other : list ProjectedSecretRef) : list ProjectedSecretRef := filter (fun c => c ∉ other) coords.
Definition secretAccessForbidden (ns : string) : BindingErr :=
  Degradation ReasonSecretAccessForbidden (forbidden_text (mkForbidden ns "write")).
Definition coord_text (c : ProjectedSecretRef) : string := co_Namespace c +:+ "/" +:+ co_Name c.

Section Controller.
Context {W : Type} {SW : ServiceWorld W} (registry : Registry W).

Definition checkNamespaceExists (ns : string) : St W (option BindingErr) :=
  match is_dns1123_label ns with
  | [] =>
    e ← namespace_get ns;
    mret (match e with
    | None => None
    | Some e =>
      if err_notfound e then Some (Degradation "ProjectedNamespaceMissing" ("namespace " +:+ quote ns +:+ " listed in spec.binding.projectTo does not exist"))
      else Some (Failed ("checking namespace " +:+ quote ns +:+ ": " +:+ err_text e))
    end)
  | errs =>
    mret (Some (Degradation "ProjectedNamespaceInvalid"
      ("namespace " +:+ quote ns +:+ " listed in spec.binding.projectTo is not a valid namespace name: " +:+ join "; " errs)))
  end.

(** The coordinates the spec asks for, the primary one first; the service's own
    namespace is skipped in projectTo. *)
Fixpoint desired_loop (svc : FrameService) (nss : list string) (desired : list ProjectedSecretRef) : St W (result BindingErr (list ProjectedSecretRef)) :=
  match nss with
  | [] => mret (inr desired)
  | ns :: nss =>
    if bool_decide (ns = sv_Namespace svc) then desired_loop svc nss desired
    else
      e ← checkNamespaceExists ns;
      match e with
      | Some e => mret (inl e)
      | None => desired_loop svc nss (desired ++ [mkCoord ns (secretName svc)])
      end
  end.

Fixpoint claimNewCoordinates (svc : FrameService) (toAdd : list ProjectedSecretRef) : St W (option BindingErr) :=
  match toAdd with
  | [] => mret None
  | coord :: toAdd =>
    e ← secret_get coord;
    match e with
    | None => mret (Some (Degradation "BindingConflict"
        ("Secret " +:+ coord_text coord +:+ " already exists and was not written by FrameService " +:+ sv_Namespace svc +:+ "/" +:+ sv_Name svc)))
    | Some e =>
      if err_notfound e then claimNewCoordinates svc toAdd
      else if is_forbidden e then mret (Some (secretAccessForbidden (co_Namespace coord)))
      else mret (Some (Failed ("checking Secret " +:+ coord_text coord +:+ ": " +:+ err_text e)))
    end
  end.

Definition persistBindingStatus (svc : FrameService) : St W (option BindingErr) :=
  r ← service_get (service_key svc);
  match r with
  | inl e => mret (Some (Failed ("re-fetching FrameService " +:+ sv_Namespace svc +:+ "/" +:+ sv_Name svc +:+ " before recording binding: " +:+ err_text e)))
  | inr fresh =>
    e ← service_status_update (with_projected fresh (projected svc));
    mret (match e with
    | Some e => Some (Failed ("recording projected Secrets for " +:+ sv_Namespace svc +:+ "/" +:+ sv_Name svc +:+ ": " +:+ err_text e))
    | None => None
    end)
  end.

(** The mutate function of CreateOrUpdate. *)
Definition credential_secret (svc : FrameService) (coord : ProjectedSecretRef) (data : strmap) (s : CredentialSecret) : result string CredentialSecret :=
  let s := mkCredentialSecret (<[ownedByLabel := ownedByValue svc]> (cs_Labels s)) data (cs_Owner s) in
  if bool_decide (co_Namespace coord = sv_Namespace svc) then set_controller_reference svc s else inr s.

Definition writeSecret (svc : FrameService) (coord : ProjectedSecretRef) (data : strmap) : St W (option BindingErr) :=
  e ← secret_apply coord (credential_secret svc coord data);
  mret (match e with
  | None => None
  | Some e =>
    if is_forbidden e then Some (secretAccessForbidden (co_Namespace coord))
    else Some (Degradation "SecretWriteFailed" ("writing Secret " +:+ coord_text coord +:+ ": " +:+ err_text e))
  end).
Fixpoint write_all (svc : FrameService) (data : strmap) (coords : list ProjectedSecretRef) : St W (option BindingErr) :=
  match coords with
  | [] => mret None
  | coord :: coords =>
    e ← writeSecret svc coord data;
    match e with Some e => mret (Some e) | None => write_all svc data coords end
  end.

Fixpoint deleteSecrets (stale : list ProjectedSecretRef) : St W (option BindingErr) :=
  match stale with
  | [] => mret None
  | coord :: stale =>
    e ← secret_delete coord;
    if match e with Some e => is_forbidden e | None => false end then
      mret (Some (Degradation ReasonSecretAccessForbidden
        ("cannot delete Secret " +:+ coord_text coord +:+ ": " +:+ forbidden_text (mkForbidden (co_Namespace coord) "delete"))))
    else match ignore_not_found e with
         | Some e => mret (Some (Failed ("deleting Secret " +:+ coord_text coord +:+ ": " +:+ err_text e)))
         | None => deleteSecrets stale
         end
  end.

Definition deleteAllProjections (svc : FrameService) : St W (option BindingErr) :=
  deleteSecrets (filter (fun c => co_Namespace c <> sv_Namespace svc) (projected svc)).

(** The service comes back with what was recorded on it, also when it fails. *)
Definition reconcileBinding (svc : FrameService) (binding : Binding) : St W (FrameService * result BindingErr string) :=
  let name := secretName svc in
  d ← desired_loop svc (bs_ProjectTo (sv_Binding (sv_Spec svc))) [mkCoord (sv_Namespace svc) name];
  match d with
  | inl e => mret (svc, inl e)
  | inr desired =>
    let oldRecorded := projected svc in
    let toAdd := coordsMissingFrom desired oldRecorded in
    r ← (if bool_decide (toAdd <> []) then
           e ← claimNewCoordinates svc toAdd;
           match e with
           | Some e => mret (svc, Some e)
           | None =>
             let svc := with_projected svc (oldRecorded ++ toAdd) in
             e ← persistBindingStatus svc; mret (svc, e)
           end
         else mret (svc, None));
    match r with
    | (svc, Some e) => mret (svc, inl e)
    | (svc, None) =>
      e ← write_all svc (bi_Data binding) desired;
      match e with
      | Some e => mret (svc, inl e)
      | None =>
        e ← deleteSecrets (coordsMissingFrom oldRecorded desired);
        match e with
        | Some e => mret (svc, inl e)
        | None => mret (with_projected svc desired, inr name)
        end
      end
    end
  end.

(** ** frameservice_controller.go *)

Definition setStatus (svc : FrameService) (status reason message : string) (sizing : option Sizing) (provisioned : option (list ProvisionedRef)) : St W (option apierr) :=
  r ← service_get (service_key svc);
  match r with
  | inl e => mret (ignore_not_found (Some e))
  | inr fresh =>
    let st := sv_Status fresh in
    service_status_update (with_status fresh (mkServiceStatus (sv_Generation fresh)
      (set_service_condition (vs_Conditions st) (mkCondition "Ready" status reason message (sv_Generation fresh)))
      (vs_Binding (sv_Status svc)) (default (vs_Sizing st) sizing) (default (vs_Provisioned st) provisioned)))
  end.

(** RequeueAfter [after], with the error of the status write. *)
Definition report (svc : FrameService) (after : Z) (status reason message : string) (sizing : option Sizing) (provisioned : option (list ProvisionedRef)) : St W (result string Z) :=
  e ← setStatus svc status reason message sizing provisioned;
  mret (match e with Some e => inl (err_text e) | None => inr after end).

Fixpoint delete_objects (refs : list ProvisionedRef) : St W (option string) :=
  match refs with
  | [] => mret None
  | ref :: refs =>
    e ← object_delete ref;
    match ignore_not_found e with
    | Some e => mret (Some ("deleting " +:+ pv_Kind ref +:+ " " +:+ pv_Namespace ref +:+ "/" +:+ pv_Name ref +:+ ": " +:+ err_text e))
    | None => delete_objects refs
    end
  end.

Definition reconcileDelete (svc : FrameService) : St W (result string Z) :=
  e ← deleteAllProjections svc;
  match e with
  | Some (Degradation reason message) =>
    report svc degradedRequeue "False" reason (message +:+ "; deletion waits (finalizer kept) until then") None None
  | Some (Failed e) => mret (inl ("deleting projected Secrets for " +:+ sv_Namespace svc +:+ "/" +:+ sv_Name svc +:+ ": " +:+ e))
  | None =>
    e ← (if bool_decide (sv_DeletionPolicy (sv_Spec svc) = "Delete") then delete_objects (vs_Provisioned (sv_Status svc)) else mret None);
    match e with
    | Some e => mret (inl e)
    | None =>
      e ← service_update (with_finalizers svc (drop_finalizer (sv_Finalizers svc) frameServiceFinalizer));
      mret (match e with Some e => inl (err_text e) | None => inr 0 end)
    end
  end.

(** The instance is serving: its binding. *)
Definition bind_service (svc : FrameService) (prov : Provisioner W) (sizing : Sizing) (res : Result) : St W (result string Z) :=
  b ← pn_Bind prov svc;
  match b with
  | inl e =>
    match be_Forbidden e with
    | Some f => report svc degradedRequeue "False" ReasonSecretAccessForbidden (forbidden_text f) (Some sizing) (rs_Provisioned res)
    | None => mret (inl ("binding " +:+ sv_Name svc +:+ ": " +:+ be_text e))
    end
  | inr binding =>
    let st := vs_Binding (sv_Status svc) in
    if bi_None binding then
      report (with_binding svc (mkBindingStatus (bt_SecretRef st) (bi_Endpoint binding) (bt_Projected st)))
        readyRequeue "True" (rs_Reason res) (rs_Message res) (Some sizing) (rs_Provisioned res)
    else
      r ← reconcileBinding svc binding;
      match r with
      | (svc, inl (Degradation reason message)) => report svc degradedRequeue "False" reason message (Some sizing) (rs_Provisioned res)
      | (svc, inl (Failed e)) => mret (inl ("reconciling binding for " +:+ sv_Name svc +:+ ": " +:+ e))
      | (svc, inr name) =>
        report (with_binding svc (mkBindingStatus (Some name) (bi_Endpoint binding) (projected svc)))
          readyRequeue "True" (rs_Reason res) (rs_Message res) (Some sizing) (rs_Provisioned res)
      end
  end.

(** The provider is known and can provision. *)
Definition provision_service (svc : FrameService) (p : Provider W) (prov : Provisioner W) : St W (result string Z) :=
  s ← pr_Size p (sv_Parameters (sv_Spec svc));
  match s with
  | inl e =>
    if se_Unread e then _ ← service_event "Warning" "SizeUnread" (se_text e); mret (inl (se_text e))
    else report svc degradedRequeue "False" "SizeRefused" (se_text e) None None
  | inr sizing =>
    r ← pn_Reconcile prov svc;
    match r with
    | inl e =>
      _ ← service_event "Warning" "ProvisionFailed" e;
      mret (inl ("provisioning " +:+ sv_Type (sv_Spec svc) +:+ ": " +:+ e))
    | inr res =>
      if negb (rs_Ready res) then report svc degradedRequeue "False" (rs_Reason res) (rs_Message res) (Some sizing) (rs_Provisioned res)
      else bind_service svc prov sizing res
    end
  end.

Definition Reconcile (key : NamespacedName) : St W (result string Z) :=
  g ← service_get key;
  match g with
  | inl e => mret (if err_notfound e then inr 0 else inl (err_text e))
  | inr svc =>
    if sv_Deleted svc then reconcileDelete svc
    else if negb (has_finalizer (sv_Finalizers svc) frameServiceFinalizer) then
      e ← service_update (with_finalizers svc (add_service_finalizer (sv_Finalizers svc) frameServiceFinalizer));
      mret (match e with Some e => inl (err_text e) | None => inr 0 end)
    else
      match registry_get registry (sv_Type (sv_Spec svc)) with
      | inl e => _ ← service_event "Warning" "UnknownType" e; report svc 0 "False" "UnknownType" e None None
      | inr p =>
        match pr_Provisioner p with
        | None => report svc 0 "False" "NotProvisionable" ("provider " +:+ quote (sv_Type (sv_Spec svc)) +:+ " can validate but cannot provision") None None
        | Some prov => provision_service svc p prov
        end
      end
  end.
End Controller.

(** ** The admission webhook (frameservice_webhook.go) *)

Definition inferenceAPIKeySecretSuffix : string := "-inference-key".
Definition cacheAuthSecretSuffix : string := "-valkey-auth".

Definition enumAllows (enum : list string) (value : string) : bool := existsb (fun raw => bool_decide (raw = quote value)) enum.

Fixpoint check_required (required : list string) (params : strmap) : option string :=
  match required with
  | [] => None
  | r :: required => if bool_decide (default "" (params !! r) = "") then Some (r +:+ " is required") else check_required required params
  end.
(** The loop over the parameters, in the order Go ranges over them. *)
Fixpoint check_params (s : Schema) (l : list (string * string)) : option string :=
  match l with
  | [] => None
  | (key, value) :: l =>
    match js_Properties s !! key with
    | None => Some (key +:+ " is not a parameter this type accepts")
    | Some prop =>
      if bool_decide (pp_Enum prop <> []) && negb (enumAllows (pp_Enum prop) value) then Some (key +:+ ": " +:+ quote value +:+ " is not one of the accepted values")
      else if bool_decide (pp_Pattern prop <> "") && negb (pp_Matches prop value) then Some (key +:+ ": " +:+ quote value +:+ " does not match " +:+ pp_Pattern prop)
      else check_params s l
    end
  end.
Definition validateAgainstSchema (s : Schema) (params : strmap) (range : list (string * string)) : option string :=
  match check_required (js_Required s) params with
  | Some e => Some e
  | None => check_params s range
  end.

Class AdmissionWorld (W : Type) := {
  range_params : strmap -> St W (list (string * string));
  is_dns1123_subdomain : string -> list string
}.

Section Admission.
Context {W : Type} {AW : AdmissionWorld W} (registry : Registry W).

Definition check_secret_name (svc : FrameService) : option string :=
  let name := bs_SecretName (sv_Binding (sv_Spec svc)) in
  if bool_decide (name <> "") then
    match is_dns1123_subdomain name with
    | [] =>
      if bool_decide (sv_Type (sv_Spec svc) = "inference") && bool_decide (name = sv_Name svc +:+ inferenceAPIKeySecretSuffix) then
        Some ("spec.binding.secretName " +:+ quote name +:+ " collides with the inference provider's own API-key Secret " +:+ "for this FrameService; choose a different name")
      else if bool_decide (sv_Type (sv_Spec svc) = "cache") && bool_decide (name = sv_Name svc +:+ cacheAuthSecretSuffix) then
        Some ("spec.binding.secretName " +:+ quote name +:+ " collides with the cache provider's own auth Secret " +:+ "for this FrameService; choose a different name")
      else None
    | errs => Some ("spec.binding.secretName " +:+ quote name +:+ " is not a valid Secret name: " +:+ join "; " errs)
    end
  else None.

Definition validate (svc : FrameService) (size : bool) : St W (option string) :=
  match registry_get registry (sv_Type (sv_Spec svc)) with
  | inl e => mret (Some ("spec.type: " +:+ e))
  | inr p =>
    let params := sv_Parameters (sv_Spec svc) in
    range ← range_params params;
    match validateAgainstSchema (pr_Schema p) params range with
    | Some e => mret (Some ("spec.parameters: " +:+ e))
    | None =>
      s ← (if size then pr_Size p params else mret (inr (mkSizing "" "" "" "")));
      match s with
      | inl e => mret (Some ("spec.parameters: " +:+ se_text e))
      | inr _ =>
        mret (if existsb (fun ns => bool_decide (ns = "")) (bs_ProjectTo (sv_Binding (sv_Spec svc))) then Some "spec.binding.projectTo contains an empty namespace"
              else check_secret_name svc)
      end
    end
  end.

Definition ValidateCreate (svc : FrameService) : St W (option string) := validate svc true.
Definition ValidateUpdate (old new : FrameService) : St W (option string) :=
  let told := sv_Type (sv_Spec old) in
  let tnew := sv_Type (sv_Spec new) in
  if bool_decide (told <> "") && bool_decide (told <> tnew) then
    mret (Some ("spec.type is immutable: it is " +:+ quote told +:+ " and cannot become " +:+ quote tnew +:+ ". Delete the service and create a new one"))
  else if sv_Deleted new then mret None
  else validate new (negb (bool_decide (sv_Parameters (sv_Spec old) = sv_Parameters (sv_Spec new)))).
Definition ValidateDelete (svc : FrameService) : St W (option string) := mret None.
End Admission.
