(* ===== verification/ServicesSafety.v ===== *)
(** What a pass of the FrameService controller may do, over the calls it makes:
    where it writes and deletes credentials, what it deletes of the instance's data,
    and when it lets the object go; and, over a life of the controller, that it
    touches no Secret it did not find missing first; what the registry and the admission of a
    FrameService guarantee; and runs of the controller on an in-memory API server, two of which
    leave credentials behind and overwrite a tenant's Secret. *)
From stdpp Require Import base tactics strings list gmap.
From Stdlib Require Import ZArith Lia.
From S2P Require Import Prelude Trace GoLib GoTime Kube StorageAlerts Services.

Open Scope Z_scope.

(** ** The calls *)

Inductive vcall :=
  | VGet (key : NamespacedName) (r : result apierr FrameService)
  | VUpdate (s : FrameService) (r : option apierr)
  | VStatus (s : FrameService) (r : option apierr)
  | VEvent (ty reason msg : string)
  | VSecretGet (c : ProjectedSecretRef) (r : option apierr)
  | VWrite (c : ProjectedSecretRef) (f : CredentialSecret -> result string CredentialSecret) (r : option apierr)
  | VDelete (c : ProjectedSecretRef) (r : option apierr)
  | VObject (ref : ProvisionedRef) (r : option apierr)
  | VNamespace (ns : string) (r : option apierr)
  | VSize (r : result SizeError Sizing)
  | VProvision (s : FrameService) (r : result string Result)
  | VBind (s : FrameService) (r : result BindError Binding).

Class TracedServices (W : Type) {SW : ServiceWorld W} := {
  vcalls : W -> list vcall;
  v_get w k : vcalls (service_get k w).2 = (vcalls w ++ [VGet k (service_get k w).1])%list;
  v_update w s : vcalls (service_update s w).2 = (vcalls w ++ [VUpdate s (service_update s w).1])%list;
  v_status w s : vcalls (service_status_update s w).2 = (vcalls w ++ [VStatus s (service_status_update s w).1])%list;
  v_event w ty r m : vcalls (service_event ty r m w).2 = (vcalls w ++ [VEvent ty r m])%list;
  v_secret w c : vcalls (secret_get c w).2 = (vcalls w ++ [VSecretGet c (secret_get c w).1])%list;
  v_apply w c f : vcalls (secret_apply c f w).2 = (vcalls w ++ [VWrite c f (secret_apply c f w).1])%list;
  v_delete w c : vcalls (secret_delete c w).2 = (vcalls w ++ [VDelete c (secret_delete c w).1])%list;
  v_object w o : vcalls (object_delete o w).2 = (vcalls w ++ [VObject o (object_delete o w).1])%list;
  v_namespace w n : vcalls (namespace_get n w).2 = (vcalls w ++ [VNamespace n (namespace_get n w).1])%list;
  (** A status error has one reason. *)
  forbidden_found e : is_forbidden e = true -> err_notfound e = false
}.

(** The providers' own calls are their own; the controller's calls of them are
    recorded. *)
Definition traced_provider {W} {SW : ServiceWorld W} {TV : TracedServices W} (p : Provider W) : Prop :=
  (forall w m, vcalls (pr_Size p m w).2 = (vcalls w ++ [VSize (pr_Size p m w).1])%list) /\
  forall pn, pr_Provisioner p = Some pn ->
    (forall w s, vcalls (pn_Reconcile pn s w).2 = (vcalls w ++ [VProvision s (pn_Reconcile pn s w).1])%list) /\
    (forall w s, vcalls (pn_Bind pn s w).2 = (vcalls w ++ [VBind s (pn_Bind pn s w).1])%list).
Definition traced_registry {W} {SW : ServiceWorld W} {TV : TracedServices W} (r : Registry W) : Prop :=
  forall t p, rg_byType r !! t = Some p -> traced_provider p.

(** ** What each call needs *)

(** The coordinates the spec asks for. *)
Definition wanted (svc : FrameService) : list ProjectedSecretRef :=
  mkCoord (sv_Namespace svc) (secretName svc) ::
  map (fun ns => mkCoord ns (secretName svc)) (filter (fun ns => ns <> sv_Namespace svc) (bs_ProjectTo (sv_Binding (sv_Spec svc)))).
(** The recorded copies outside the service's namespace. *)
Definition copies (svc : FrameService) : list ProjectedSecretRef := filter (fun c => co_Namespace c <> sv_Namespace svc) (projected svc).

Definition missing (r : option apierr) : Prop := exists e, r = Some e /\ err_notfound e = true.
Definition found_free (pre : list vcall) (c : ProjectedSecretRef) : Prop := exists r, missing r /\ VSecretGet c r ∈ pre.
Definition gone (pre : list vcall) (c : ProjectedSecretRef) : Prop := exists r, (r = None \/ missing r) /\ VDelete c r ∈ pre.
Definition removed (pre : list vcall) (o : ProvisionedRef) : Prop := exists r, (r = None \/ missing r) /\ VObject o r ∈ pre.
Definition written (pre : list vcall) (c : ProjectedSecretRef) : Prop := exists f, VWrite c f None ∈ pre.

(** The coordinate is recorded on the service: it was when the pass read it, or this
    pass found it free and then recorded it. *)
Definition recorded (pre : list vcall) (svc : FrameService) (c : ProjectedSecretRef) : Prop :=
  c ∈ projected svc \/ (found_free pre c /\ exists s, VStatus s None ∈ pre /\ c ∈ projected s).

(** The provider serves, and its credentials, if it has any, are in place. *)
Definition serving (pre : list vcall) (svc : FrameService) : Prop :=
  (exists res, VProvision svc (inr res) ∈ pre /\ rs_Ready res = true) /\
  exists b, VBind svc (inr b) ∈ pre /\ (bi_None b = true \/ forall c, c ∈ wanted svc -> written pre c).

Section May.
Context {W : Type} {SW : ServiceWorld W}.

Definition may_status (svc : FrameService) (pre : list vcall) (s : FrameService) : Prop :=
  exists fresh, VGet (service_key svc) (inr fresh) ∈ pre /\ s = with_status fresh (sv_Status s) /\
    (forall c, c ∈ projected s -> c ∈ projected svc \/ found_free pre c) /\
    (forall c, c ∈ projected svc -> c ∈ projected s \/ gone pre c) /\
    (vs_Conditions (sv_Status s) = vs_Conditions (sv_Status fresh) \/
     exists status reason msg, vs_Conditions (sv_Status s) = set_service_condition (vs_Conditions (sv_Status fresh)) (mkCondition "Ready" status reason msg (sv_Generation fresh)) /\
       (status = "True" -> serving pre svc)).

(** The calls of a pass that read [svc]. *)
Definition vmay (svc : FrameService) (pre : list vcall) (x : vcall) : Prop :=
  match x with
  | VWrite c f _ => sv_Deleted svc = false /\ c ∈ wanted svc /\ recorded pre svc c /\
      exists b svc', VBind svc (inr b) ∈ pre /\ bi_None b = false /\ service_key svc' = service_key svc /\ f = credential_secret svc' c (bi_Data b)
  | VDelete c _ => c ∈ projected svc /\
      (if sv_Deleted svc then co_Namespace c <> sv_Namespace svc else (c ∉ wanted svc) /\ forall c', c' ∈ wanted svc -> written pre c')
  | VObject o _ => sv_Deleted svc = true /\ sv_DeletionPolicy (sv_Spec svc) = "Delete" /\ o ∈ vs_Provisioned (sv_Status svc) /\ forall c, c ∈ copies svc -> gone pre c
  | VUpdate s _ =>
      if sv_Deleted svc then s = with_finalizers svc (drop_finalizer (sv_Finalizers svc) frameServiceFinalizer) /\ (forall c, c ∈ copies svc -> gone pre c) /\
        (sv_DeletionPolicy (sv_Spec svc) = "Delete" -> forall o, o ∈ vs_Provisioned (sv_Status svc) -> removed pre o)
      else has_finalizer (sv_Finalizers svc) frameServiceFinalizer = false /\ s = with_finalizers svc (add_service_finalizer (sv_Finalizers svc) frameServiceFinalizer)
  | VStatus s _ => may_status svc pre s
  | VProvision s _ => s = svc /\ sv_Deleted svc = false /\ has_finalizer (sv_Finalizers svc) frameServiceFinalizer = true
  | VBind s _ => s = svc /\ exists res, VProvision svc (inr res) ∈ pre /\ rs_Ready res = true
  | _ => True
  end.
End May.

(** ** Monotonicity *)

Lemma found_free_mono pre pre' c : pre ⊆ pre' -> found_free pre c -> found_free pre' c.
Proof. intros Hs (r & Hr & Hin). exists r. auto. Qed.
Lemma gone_mono pre pre' c : pre ⊆ pre' -> gone pre c -> gone pre' c.
Proof. intros Hs (r & Hr & Hin). exists r. auto. Qed.
Lemma written_mono pre pre' c : pre ⊆ pre' -> written pre c -> written pre' c.
Proof. intros Hs (f & Hin). exists f. auto. Qed.
Lemma recorded_mono pre pre' svc c : pre ⊆ pre' -> recorded pre svc c -> recorded pre' svc c.
Proof. intros Hs [H|[H (s & Hin & Hc)]]; [by left|right]. split; [by eapply found_free_mono|]. exists s. auto. Qed.

(** ** A pass *)

Section Pass.
Context {W : Type} {SW : ServiceWorld W} {TV : TracedServices W} (registry : Registry W) (Hreg : traced_registry registry).

Abbreviation emits := (Trace.emits vcalls).
Abbreviation emits_ret := (Trace.emits_ret vcalls).
Abbreviation emits_bind := (Trace.emits_bind vcalls).
Abbreviation emits_call := (Trace.emits_call vcalls).
Abbreviation emits_call0 := (Trace.emits_call0 vcalls).
Abbreviation emits_mono := (Trace.emits_mono vcalls).

Section Of.
Context (svc : FrameService).
Abbreviation just := (justified (vmay svc)).
Abbreviation goes := (Trace.goes vcalls (vmay svc)).
Abbreviation goes_ret := (Trace.goes_ret vcalls (vmay svc)).
Abbreviation goes_call := (Trace.goes_call vcalls (vmay svc)).
Abbreviation goes_bind := (Trace.goes_bind vcalls (vmay svc)).

Lemma emits_desired s nss acc : emits (desired_loop s nss acc) (fun r t => (forall pre, just pre t) /\
  forall d, r = inr d -> d = (acc ++ map (fun ns => mkCoord ns (secretName s)) (filter (fun ns => ns <> sv_Namespace s) nss))%list).
Proof.
  revert acc. induction nss as [|ns nss IH]; intros acc; cbn [desired_loop].
  { apply emits_ret. split; [done|]. intros d [= <-]. cbn. by rewrite app_nil_r. }
  destruct (decide (ns = sv_Namespace s)) as [E|E].
  - rewrite bool_decide_true by done. rewrite filter_cons_False by auto. apply IH.
  - rewrite bool_decide_false by done. rewrite filter_cons_True by done. eapply emits_bind.
    { apply (emits_mono _ (fun r t => forall pre, just pre t)); [|intros a t H; exact H]. unfold checkNamespaceExists.
      destruct (is_dns1123_label ns); [|by apply emits_ret]. eapply emits_call; [intros; apply v_namespace|]. intros r. by apply emits_ret. }
    intros [e|] t Ht; [apply emits_ret; rewrite app_nil_r; split; [done|by intros d [=]]|].
    eapply emits_mono; [apply IH|]. intros r t' [Hj Hd]. split; [intros pre; apply justified_app; auto|]. intros d Hr. rewrite (Hd d Hr). by rewrite <- app_assoc.
Qed.

Lemma emits_claim s l : emits (claimNewCoordinates s l) (fun r t => (forall pre, just pre t) /\ (r = None -> forall c, c ∈ l -> found_free t c)).
Proof.
  induction l as [|c l IH]; cbn [claimNewCoordinates]; [apply emits_ret; split; [done|]; by intros _ c ?%not_elem_of_nil|].
  eapply emits_call; [intros; apply v_secret|]. intros [e|]; [|apply emits_ret; split; [by split|done]].
  destruct (err_notfound e) eqn:En; [|destruct (is_forbidden e); apply emits_ret; (split; [by split|done])].
  eapply emits_mono; [exact IH|]. intros r t [Hj Hf]. split; [intros pre; by split|]. intros Hr x [->|Hx]%elem_of_cons.
  - exists (Some e). split; [by exists e|]. apply list_elem_of_here.
  - eapply found_free_mono; [|by apply Hf]. set_solver.
Qed.

(** Every coordinate of a record to be written is accounted for, and none is lost. *)
Definition accounted (pre : list vcall) (l : list ProjectedSecretRef) : Prop :=
  (forall c, c ∈ l -> c ∈ projected svc \/ found_free pre c) /\ forall c, c ∈ projected svc -> c ∈ l \/ gone pre c.

Lemma accounted_mono pre pre' l : pre ⊆ pre' -> accounted pre l -> accounted pre' l.
Proof.
  intros Hs [H1 H2]. split; intros c Hc; [destruct (H1 c Hc) as [?|?]; [by left|right; by eapply found_free_mono]|].
  destruct (H2 c Hc) as [?|?]; [by left|right; by eapply gone_mono].
Qed.

Lemma emits_persist pre l : accounted pre l -> emits (persistBindingStatus (with_projected svc l)) (fun r t => just pre t /\
  (r = None -> exists s, VStatus s None ∈ t /\ projected s = l)).
Proof.
  intros Ha. unfold persistBindingStatus. eapply emits_call; [intros; apply v_get|]. intros [e|fresh]; [apply emits_ret; split; [by split|done]|].
  eapply emits_call; [intros; apply v_status|]. intros e. apply emits_ret. split.
  - split; [done|]. split; [|done]. exists fresh. split; [set_solver|]. split; [done|]. destruct (accounted_mono pre (pre ++ [VGet (service_key svc) (inr fresh)]) l) as [H1 H2]; [set_solver|done|].
    split; [exact H1|]. split; [exact H2|]. by left.
  - destruct e as [e|]; [done|]. intros _. eexists. split; [apply list_elem_of_further, list_elem_of_here|done].
Qed.

Lemma emits_writeSecret s c data : emits (writeSecret s c data) (fun r t => exists e, t = [VWrite c (credential_secret s c data) e] /\ (r = None -> e = None)).
Proof.
  unfold writeSecret. eapply emits_call; [intros; apply v_apply|]. intros e. apply emits_ret. exists e. split; [done|].
  destruct e as [e|]; [|done]. by destruct (is_forbidden e).
Qed.

Lemma emits_write s data l pre :
  sv_Deleted svc = false -> service_key s = service_key svc -> (exists b, VBind svc (inr b) ∈ pre /\ bi_None b = false /\ bi_Data b = data) ->
  (forall c, c ∈ l -> c ∈ wanted svc /\ recorded pre svc c) ->
  emits (write_all s data l) (fun r t => just pre t /\ (r = None -> forall c, c ∈ l -> written t c)).
Proof.
  intros Hd Hk (b & Hb & Hn & <-). revert pre Hb. induction l as [|c l IH]; intros pre Hb Hl; cbn [write_all].
  { apply emits_ret. split; [done|]. by intros _ c ?%not_elem_of_nil. }
  eapply emits_bind; [apply emits_writeSecret|].
  destruct (Hl c) as [Hw Hr]; [apply list_elem_of_here|].
  assert (forall e, vmay svc pre (VWrite c (credential_secret s c (bi_Data b)) e)) as Hmay by (intros e; repeat (split; [done|]); by exists b, s).
  intros r t (e & -> & He). destruct r as [e'|]; [apply emits_ret; split; [by split|done]|]. rewrite (He eq_refl). set (x := VWrite _ _ None) in *.
  eapply emits_mono; [apply (IH (pre ++ [x])); [set_solver|]|].
  - intros c' Hc'. destruct (Hl c') as [? ?]; [by apply list_elem_of_further|]. split; [done|]. eapply recorded_mono; [|done]. set_solver.
  - intros r t [Hj Hwr]. split; [split; [apply Hmay|done]|]. intros Hr' c' [->|Hc']%elem_of_cons; [eexists; apply list_elem_of_here|].
    eapply written_mono; [|by apply Hwr]. set_solver.
Qed.

Lemma emits_delete l pre : (forall c r pre', pre ⊆ pre' -> c ∈ l -> vmay svc pre' (VDelete c r)) ->
  emits (deleteSecrets l) (fun r t => just pre t /\ (r = None -> forall c, c ∈ l -> gone t c)).
Proof.
  revert pre. induction l as [|c l IH]; intros pre Hl; cbn [deleteSecrets].
  { apply emits_ret. split; [done|]. by intros _ c ?%not_elem_of_nil. }
  eapply emits_call; [intros; apply v_delete|]. intros e. assert (vmay svc pre (VDelete c e)) as Hm by (apply Hl; [done|apply list_elem_of_here]).
  destruct (match e with Some e => is_forbidden e | None => false end) eqn:Ef; [apply emits_ret; split; [by split|done]|].
  destruct (ignore_not_found e) as [e'|] eqn:Ei; [apply emits_ret; split; [by split|done]|].
  eapply emits_mono; [apply (IH (pre ++ [VDelete c e]))|].
  - intros c' r pre' Hs Hc'. apply Hl; [set_solver|by apply list_elem_of_further].
  - intros r t [Hj Hg]. split; [by split|]. intros Hr c' [->|Hc']%elem_of_cons.
    + exists e. split; [|apply list_elem_of_here]. destruct e as [e|]; [|by left]. right. exists e. split; [done|].
      unfold ignore_not_found in Ei. by destruct (err_notfound e).
    + eapply gone_mono; [|by apply Hg]. set_solver.
Qed.

Lemma goes_setStatus pre s status reason msg sizing prov : service_key s = service_key svc -> accounted pre (projected s) ->
  (status = "True" -> serving pre svc) -> goes pre (setStatus s status reason msg sizing prov).
Proof.
  intros Hk Ha Ht. unfold setStatus. eapply goes_call; [intros; apply v_get|done|]. intros [e|fresh]; [apply goes_ret|].
  apply (Trace.emits_mono vcalls _ (fun r t => t = [VStatus (with_status fresh (mkServiceStatus (sv_Generation fresh)
      (set_service_condition (vs_Conditions (sv_Status fresh)) (mkCondition "Ready" status reason msg (sv_Generation fresh)))
      (vs_Binding (sv_Status s)) (default (vs_Sizing (sv_Status fresh)) sizing) (default (vs_Provisioned (sv_Status fresh)) prov))) r])).
  { apply Trace.emits_op. intros. apply v_status. }
  intros r t ->. apply justified_one. exists fresh. rewrite <- Hk. split; [set_solver|]. split; [done|].
  destruct (accounted_mono pre (pre ++ [VGet (service_key s) (inr fresh)]) (projected s)) as [H1 H2]; [set_solver|done|].
  split; [exact H1|]. split; [exact H2|]. right. eexists _, _, _. split; [done|]. intros [(res & Hres & Hrd) (b & Hb & Hw)]%Ht.
  split; [exists res; set_solver|]. exists b. split; [set_solver|]. destruct Hw as [?|Hw]; [by left|right]. intros c Hc. eapply written_mono; [|by apply Hw]. set_solver.
Qed.
Lemma goes_report pre s after status reason msg sizing prov : service_key s = service_key svc -> accounted pre (projected s) ->
  (status = "True" -> serving pre svc) -> goes pre (report s after status reason msg sizing prov).
Proof.
  intros Hk Ha Ht. unfold report. eapply goes_bind; [by apply goes_setStatus|]. intros e t Hj. split; [exact Hj|apply goes_ret].
Qed.

Lemma goes_event {B} pre ty reason msg (k : unit -> St W B) : (forall u, goes (pre ++ [VEvent ty reason msg]) (k u)) -> goes pre (service_event ty reason msg ≫= k).
Proof. intros Hk. apply (goes_call _ _ (fun _ => VEvent ty reason msg)); [intros; apply v_event|done|exact Hk]. Qed.

Lemma accounted_self pre : accounted pre (projected svc).
Proof. split; auto. Qed.

Lemma missing_from l1 l2 c : c ∈ coordsMissingFrom l1 l2 <-> c ∈ l1 /\ c ∉ l2.
Proof. unfold coordsMissingFrom. rewrite list_elem_of_filter. tauto. Qed.

(** The claim of new coordinates and the record of them. *)
Lemma emits_record pre l : (forall c, c ∈ l -> c ∉ projected svc) ->
  emits (if bool_decide (l <> []) then
           e ← claimNewCoordinates svc l;
           match e with
           | Some e => mret (svc, Some e)
           | None => e ← persistBindingStatus (with_projected svc (projected svc ++ l)); mret (with_projected svc (projected svc ++ l), e)
           end
         else mret (svc, None))
    (fun r t => just pre t /\ service_key r.1 = service_key svc /\ accounted (pre ++ t) (projected r.1) /\
      (r.2 = None -> forall c, c ∈ (projected svc ++ l)%list -> recorded (pre ++ t) svc c)).
Proof.
  intros Hl. destruct (decide (l = [])) as [->|Hne].
  { rewrite bool_decide_false by tauto. apply emits_ret. split; [done|]. split; [done|]. split; [apply accounted_self|]. intros _ c. rewrite app_nil_r. by left. }
  rewrite bool_decide_true by done. eapply emits_bind; [apply emits_claim|]. intros e t [Hj Hf]. destruct e as [e|].
  { apply emits_ret. rewrite app_nil_r. split; [done|]. split; [done|]. split; [apply accounted_self|done]. }
  assert (accounted (pre ++ t) (projected svc ++ l)) as Ha.
  { split; intros c Hc; [|left; by apply elem_of_app; left]. apply elem_of_app in Hc as [?|Hc]; [by left|right]. eapply found_free_mono; [|by apply Hf]. set_solver. }
  eapply emits_bind; [by apply (emits_persist (pre ++ t))|]. intros e t' [Hj' Hs]. apply emits_ret. rewrite app_nil_r.
  split; [apply justified_app; auto|]. split; [done|]. split; [eapply accounted_mono; [|exact Ha]; set_solver|]. cbn [snd].
  intros He c [Hc|Hc]%elem_of_app; [by left|right]. destruct (Hs He) as (s & Hin & Hp). split; [|exists s; split; [set_solver|]; rewrite Hp; set_solver].
  eapply found_free_mono; [|by apply Hf]. set_solver.
Qed.

Lemma emits_reconcileBinding pre b : sv_Deleted svc = false -> VBind svc (inr b) ∈ pre -> bi_None b = false ->
  emits (reconcileBinding svc b) (fun r t => just pre t /\ service_key r.1 = service_key svc /\ accounted (pre ++ t) (projected r.1) /\
    (forall n, r.2 = inr n -> forall c, c ∈ wanted svc -> written (pre ++ t) c)).
Proof.
  intros Hd Hb Hn. unfold reconcileBinding. cbv zeta. eapply emits_bind; [apply emits_desired|]. intros [e|d] t0 [Hj0 Hdes].
  { apply emits_ret. rewrite app_nil_r. split; [done|]. split; [done|]. split; [apply accounted_self|]. by intros n [=]. }
  assert (d = wanted svc) as -> by by rewrite (Hdes d eq_refl). clear Hdes.
  eapply emits_bind; [apply (emits_record (pre ++ t0)); intros c [_ Hc]%missing_from; exact Hc|]. intros [s1 e] t1 (Hj1 & Hk1 & Ha1 & Hr1). cbn [fst snd] in *.
  destruct e as [e|].
  { apply emits_ret. rewrite !app_nil_r. split; [apply justified_app; auto|]. split; [done|]. rewrite app_assoc. split; [done|]. by intros n [=]. }
  set (p1 := (pre ++ t0) ++ t1) in *. assert (forall c, c ∈ wanted svc -> recorded p1 svc c) as Hrec.
  { intros c Hc. apply Hr1; [done|]. apply elem_of_app. destruct (decide (c ∈ projected svc)); [by left|right]. by apply missing_from. }
  eapply emits_bind; [apply (emits_write s1 (bi_Data b) (wanted svc) p1); [done|done|exists b; set_solver|auto]|]. intros e t2 [Hj2 Hw2].
  assert (just pre (t0 ++ t1 ++ t2)) as Hj. { apply justified_app. split; [done|]. apply justified_app. split; [done|]. exact Hj2. }
  destruct e as [e|].
  { apply emits_ret. rewrite !app_nil_r. split; [exact Hj|]. split; [done|]. split; [eapply accounted_mono; [|exact Ha1]; set_solver|]. by intros n [=]. }
  eapply emits_bind; [apply (emits_delete (coordsMissingFrom (projected svc) (wanted svc)) (p1 ++ t2))|].
  { intros c r pre' Hs [Hc Hnc]%missing_from. split; [done|]. rewrite Hd. split; [done|]. intros c' Hc'. eapply written_mono; [|by apply Hw2]. set_solver. }
  intros e t3 [Hj3 Hg3]. assert (just pre (t0 ++ t1 ++ t2 ++ t3)) as Hj'.
  { apply justified_app. split; [done|]. apply justified_app. split; [done|]. apply justified_app. by split. }
  destruct e as [e|].
  { apply emits_ret. rewrite !app_nil_r. split; [exact Hj'|]. split; [done|]. split; [eapply accounted_mono; [|exact Ha1]; set_solver|]. by intros n [=]. }
  apply emits_ret. rewrite !app_nil_r. split; [exact Hj'|]. split; [exact Hk1|]. split.
  - split; intros c Hc; cbn in Hc.
    + destruct (Hrec c Hc) as [?|[Hf _]]; [by left|right]. eapply found_free_mono; [|exact Hf]. set_solver.
    + destruct (decide (c ∈ wanted svc)); [by left|right]. eapply gone_mono; [|apply Hg3; [done|by apply missing_from]]. set_solver.
  - intros n _ c Hc. eapply written_mono; [|by apply Hw2]. set_solver.
Qed.
Lemma goes_bind_service pre p prov sizing res : traced_provider p -> pr_Provisioner p = Some prov -> sv_Deleted svc = false ->
  VProvision svc (inr res) ∈ pre -> rs_Ready res = true -> goes pre (bind_service svc prov sizing res).
Proof.
  intros [_ Hp] Hprov Hd Hres Hrd. destruct (Hp prov Hprov) as [_ Hbind]. unfold bind_service.
  eapply goes_call; [intros; apply Hbind|intros a; split; [done|by exists res]|]. intros [e|b].
  { destruct (be_Forbidden e); [|apply goes_ret]. apply goes_report; [done|apply accounted_self|done]. }
  set (p1 := (pre ++ [VBind svc (inr b)])%list). cbv zeta. assert (VProvision svc (inr res) ∈ p1) as Hres1 by set_solver.
  assert (VBind svc (inr b) ∈ p1) as Hb1 by set_solver. destruct (bi_None b) eqn:Hn.
  { apply goes_report; [done|apply accounted_self|]. intros _. split; [by exists res|]. exists b. auto. }
  eapply goes_bind; [by apply (emits_reconcileBinding p1 b)|]. intros [s r] t (Hj & Hk & Ha & Hw). cbn [fst snd] in *. split; [done|].
  destruct r as [[reason msg|e]|name]; [by apply goes_report|apply goes_ret|]. apply goes_report; [done|exact Ha|]. intros _.
  split; [exists res; set_solver|]. exists b. split; [set_solver|]. right. by apply (Hw name).
Qed.

Lemma goes_provision pre p prov : traced_provider p -> pr_Provisioner p = Some prov -> sv_Deleted svc = false ->
  has_finalizer (sv_Finalizers svc) frameServiceFinalizer = true -> goes pre (provision_service svc p prov).
Proof.
  intros Hp Hprov Hd Hf. pose proof Hp as [Hsize Hpn]. destruct (Hpn prov Hprov) as [Hrec _]. unfold provision_service.
  eapply goes_call; [intros; apply Hsize|done|]. intros [e|sizing].
  { destruct (se_Unread e); [|apply goes_report; [done|apply accounted_self|done]].
    apply goes_event. intros ?. apply goes_ret. }
  eapply goes_call; [intros; apply Hrec|done|]. intros [e|res].
  { apply goes_event. intros ?. apply goes_ret. }
  destruct (rs_Ready res) eqn:Hrd; cbn [negb]; [|apply goes_report; [done|apply accounted_self|done]].
  eapply goes_bind_service; [done|done|done|set_solver|done].
Qed.

Lemma emits_objects l pre : (forall o r pre', pre ⊆ pre' -> o ∈ l -> vmay svc pre' (VObject o r)) ->
  emits (delete_objects l) (fun r t => just pre t /\ (r = None -> forall o, o ∈ l -> removed t o)).
Proof.
  revert pre. induction l as [|o l IH]; intros pre Hl; cbn [delete_objects].
  { apply emits_ret. split; [done|]. by intros _ c ?%not_elem_of_nil. }
  eapply emits_call; [intros; apply v_object|]. intros e. assert (vmay svc pre (VObject o e)) as Hm by (apply Hl; [done|apply list_elem_of_here]).
  destruct (ignore_not_found e) as [e'|] eqn:Ei; [apply emits_ret; split; [by split|done]|].
  eapply emits_mono; [apply (IH (pre ++ [VObject o e]))|].
  - intros o' r pre' Hs Ho'. apply Hl; [set_solver|by apply list_elem_of_further].
  - intros r t [Hj Hg]. split; [by split|]. intros Hr o' [->|Ho']%elem_of_cons.
    + exists e. split; [|apply list_elem_of_here]. destruct e as [e|]; [|by left]. right. exists e. split; [done|].
      unfold ignore_not_found in Ei. by destruct (err_notfound e).
    + destruct (Hg Hr o' Ho') as (r' & Hr' & Hin). exists r'. split; [done|]. by apply list_elem_of_further.
Qed.

Lemma goes_delete pre : sv_Deleted svc = true -> goes pre (reconcileDelete svc).
Proof.
  intros Hd. unfold reconcileDelete, deleteAllProjections. fold (copies svc). eapply goes_bind; [apply (emits_delete (copies svc) pre)|].
  { intros c r pre' _ [Hns Hc]%list_elem_of_filter. split; [done|]. by rewrite Hd. }
  intros e t [Hj Hg]. split; [done|]. destruct e as [[reason msg|e]|]; [apply goes_report; [done|apply accounted_self|done]|apply goes_ret|].
  assert (forall pre', pre ++ t ⊆ pre' -> forall c, c ∈ copies svc -> gone pre' c) as Hgone.
  { intros pre' Hs c Hc. eapply gone_mono; [|by apply Hg]. set_solver. }
  eapply (goes_bind _ _ (fun e t' => just (pre ++ t) t' /\ (e = None -> sv_DeletionPolicy (sv_Spec svc) = "Delete" -> forall o, o ∈ vs_Provisioned (sv_Status svc) -> removed t' o))).
  { case_bool_decide as Hdel; [|by apply emits_ret]. eapply emits_mono; [apply (emits_objects _ (pre ++ t))|].
    - intros o r pre' Hs Ho. split; [done|]. split; [done|]. split; [done|]. by apply Hgone.
    - intros e t' [Hj' Hr]. split; [done|]. intros He _. by apply Hr. }
  intros [e|] t' [Hj' Hr]; (split; [done|]); [apply goes_ret|]. eapply goes_call; [intros; apply v_update| |intros e; apply goes_ret].
  intros r. cbn [vmay]. rewrite Hd. split; [done|]. split; [apply Hgone; set_solver|]. intros Hdel o Ho.
  destruct (Hr eq_refl Hdel o Ho) as (r' & Hr' & Hin). exists r'. split; [done|]. set_solver.
Qed.
End Of.

(** The calls of a pass after its read of the service are those that read allows. *)
Lemma emits_Reconcile key : emits (Reconcile registry key) (fun _ t => exists r t', t = VGet key r :: t' /\
  match r with inl _ => t' = [] | inr svc => justified (vmay svc) [] t' end).
Proof.
  unfold Reconcile. eapply emits_call; [intros; apply v_get|]. intros [e|svc]; [apply emits_ret; by eexists _, []|].
  assert (forall m : St W (result string Z), Trace.goes vcalls (vmay svc) [] m -> emits m (fun _ t' =>
    exists r t'', VGet key (inr svc) :: t' = VGet key r :: t'' /\ match r with inl _ => t'' = [] | inr svc => justified (vmay svc) [] t'' end)) as Hgo.
  { intros m Hm. eapply emits_mono; [exact Hm|]. intros ? t' Hj. by eexists _, t'. }
  destruct (sv_Deleted svc) eqn:Hd; [by apply Hgo, goes_delete|]. destruct (has_finalizer _ _) eqn:Hf; cbn [negb]; apply Hgo.
  - destruct (registry_get registry _) as [e|p] eqn:Er.
    { apply goes_event. intros ?.
      apply goes_report; [done|apply accounted_self|done]. }
    unfold registry_get in Er. destruct (rg_byType registry !! _) as [p'|] eqn:Ep; [|done]. simplify_eq.
    destruct (pr_Provisioner p) as [prov|] eqn:Eprov; [|apply goes_report; [done|apply accounted_self|done]].
    eapply goes_provision; [by eapply Hreg|done|done|done].
  - eapply (Trace.goes_call vcalls (vmay svc)); [intros; apply v_update| |intros e; apply (Trace.goes_ret vcalls (vmay svc))].
    intros r. cbn [vmay]. rewrite Hd. by split.
Qed.

(** C17. Whatever a pass does is allowed by the service it read. Credentials go only to
    the coordinates the spec asks for, once recorded, from a provider that serves; a
    recorded Secret is deleted only when the spec no longer asks for it and those it
    asks for are written, or with the service; the data is deleted only under the
    Delete policy; the finalizer goes last; and the service is said to be ready only
    when the provider serves and every credential is in place. *)
Theorem passes_allowed key w : exists r t, vcalls (Reconcile registry key w).2 = (vcalls w ++ VGet key r :: t)%list /\
  match r with inl _ => t = [] | inr svc => justified (vmay svc) [] t end.
Proof. destruct (emits_Reconcile key w) as (t & Ht & r & t' & -> & H). eauto. Qed.

(** ** A life of the controller *)

Fixpoint reconciles (keys : list NamespacedName) : St W unit :=
  match keys with
  | [] => mret tt
  | key :: keys => _ ← Reconcile registry key; reconciles keys
  end.

(** The coordinates a call writes, deletes or records. *)
Definition touches (x : vcall) (c : ProjectedSecretRef) : Prop :=
  match x with VWrite c' _ _ | VDelete c' _ => c' = c | VStatus s _ => c ∈ projected s | _ => False end.
Definition may_touch (pre : list vcall) (x : vcall) : Prop :=
  forall c, touches x c -> found_free pre c \/ exists key svc, VGet key (inr svc) ∈ pre /\ c ∈ projected svc.

Lemma pass_may_touch key svc t pre pre' : pre ⊆ pre' -> VGet key (inr svc) ∈ pre' -> justified (vmay svc) pre t -> justified may_touch pre' t.
Proof.
  revert pre pre'. induction t as [|x t IH]; intros pre pre' Hs Hg; [done|]. intros [Hx Ht]. split; [|eapply IH; [|set_solver|exact Ht]; set_solver].
  intros c Hc. assert (c ∈ projected svc \/ found_free pre c) as [H|H]; [|by eauto|left; by eapply found_free_mono].
  destruct x; cbn in Hc; try done; subst.
  - destruct Hx as (fresh & _ & _ & H & _). by apply H.
  - destruct Hx as (_ & _ & [H|[H _]] & _); auto.
  - left. apply Hx.
Qed.

Lemma reconciles_touch keys : emits (reconciles keys) (fun _ t => forall pre, justified may_touch pre t).
Proof.
  induction keys as [|key keys IH]; cbn [reconciles]; [by apply emits_ret|]. eapply emits_bind; [apply emits_Reconcile|].
  intros z t (r & t' & -> & Hr). eapply emits_mono; [exact IH|]. intros u t'' H pre. cbn [app justified]. split; [by intros c []|].
  apply justified_app. split; [|apply H]. destruct r as [e|svc]; [by subst|]. eapply (pass_may_touch key svc _ []); [set_solver|set_solver|done].
Qed.

(** Nothing is on the record of a service but what the controller wrote there. *)
Definition records_own (h : list vcall) : Prop :=
  forall p key svc q c, h = (p ++ VGet key (inr svc) :: q)%list -> c ∈ projected svc -> exists s r, VStatus s r ∈ p /\ c ∈ projected s.

(** Over its life the controller writes, deletes and records no Secret whose place it
    did not first find empty: a Secret that was there before is never touched, and
    neither a label on it nor the spec can make the controller touch it. *)
Theorem only_claimed_secrets keys w : vcalls w = [] -> records_own (vcalls (reconciles keys w).2) ->
  forall p x q c, vcalls (reconciles keys w).2 = (p ++ x :: q)%list -> touches x c -> found_free p c.
Proof.
  intros Hw Ho p. destruct (reconciles_touch keys w) as (t & Ht & Hj). rewrite Hw in Ht. cbn in Ht. rewrite Ht in Ho |- *. specialize (Hj []). clear Ht Hw.
  remember (length p) as n eqn:Hn. revert p Hn. induction n as [n IH] using (well_founded_induction lt_wf). intros p -> x q c E Hc.
  rewrite E in Hj. destruct (justified_split _ _ _ _ _ Hj c Hc) as [H|(key & svc & Hg & Hp)]; [exact H|]. cbn in Hg.
  destruct (list_elem_of_split _ _ Hg) as (p1 & p2 & ->). rewrite <- app_assoc in E.
  destruct (Ho _ _ _ _ _ E Hp) as (s & r & Hs & Hcs). destruct (list_elem_of_split _ _ Hs) as (p3 & p4 & ->). rewrite <- app_assoc in E.
  eapply found_free_mono; [|eapply (IH (length p3)); [|reflexivity|exact E|exact Hcs]].
  - set_solver.
  - rewrite !length_app. cbn. lia.
Qed.
End Pass.

(** * Runs *)

(** ** The registry *)

Lemma register_ok {W} (l : list (Provider W)) (r r' : Registry W) : register r l = inr r' ->
  (forall t p, rg_byType r !! t = Some p -> rg_byType r' !! t = Some p) /\
  (forall p, p ∈ l -> rg_byType r' !! pr_Type p = Some p /\ checkSchemaIsEnforceable (pr_Type p) (pr_Schema p) = None) /\
  rg_types r' ≡ₚ (rg_types r ++ map pr_Type l).
Proof.
  revert r. induction l as [|p l IH]; intros r; cbn [register].
  { intros [= <-]. cbn. split; [done|]. split; [by intros p ?%not_elem_of_nil|]. rewrite app_nil_r. apply sort_by_perm. }
  case_bool_decide as Hd; [done|]. destruct (checkSchemaIsEnforceable _ _) eqn:Ec; [done|]. intros H. destruct (IH _ H) as (H1 & H2 & H3). cbn in *.
  assert (rg_byType r !! pr_Type p = None) as Hn by by apply eq_None_not_Some. split; [|split].
  - intros t p' Hp'. apply H1. rewrite lookup_insert_ne; [done|]. by intros <-; rewrite Hn in Hp'.
  - intros p' [->|Hp']%elem_of_cons; [|by apply H2]. split; [|done]. apply H1. apply lookup_insert_eq.
  - by rewrite H3, <- app_assoc.
Qed.

Lemma unenforced_none t n fields allowed : checkNoUnenforcedFields t n fields allowed = None -> Forall (fun f => f ∈ allowed) fields.
Proof.
  unfold checkNoUnenforcedFields. destruct (filter _ fields) as [|f l] eqn:E; [|done]. intros _. apply Forall_forall. intros f Hf.
  destruct (decide (f ∈ allowed)); [done|]. assert (f ∈ filter (fun f => f ∉ allowed) fields) as H by by apply list_elem_of_filter. rewrite E in H. by apply not_elem_of_nil in H.
Qed.
Lemma properties_none t s l k : check_properties t s l = None -> k ∈ l ->
  checkNoUnenforcedFields t k (default [] (pp_Set <$> js_Properties s !! k)) enforcedPropertyFields = None.
Proof.
  induction l as [|n l IH]; cbn [check_properties]; [by intros _ ?%not_elem_of_nil|]. destruct (checkNoUnenforcedFields _ n _ _) eqn:E; [done|].
  intros H [->|Hk]%elem_of_cons; [done|by apply IH].
Qed.

(** A registry is built only of providers with distinct types, whose schemas ask for
    nothing the webhook does not check; each answers to its own type. *)
Theorem NewRegistry_ok {W} (l : list (Provider W)) (r : Registry W) : NewRegistry l = inr r ->
  (forall p, p ∈ l -> registry_get r (pr_Type p) = inr p /\ Forall (fun f => f ∈ enforcedRootFields) (js_Set (pr_Schema p)) /\
    forall k prop, js_Properties (pr_Schema p) !! k = Some prop -> Forall (fun f => f ∈ enforcedPropertyFields) (pp_Set prop)) /\
  rg_types r ≡ₚ map pr_Type l.
Proof.
  intros H. destruct (register_ok _ _ _ H) as (_ & H2 & H3). split; [|exact H3]. intros p Hp. destruct (H2 p Hp) as [Hg Hc].
  split; [unfold registry_get; by rewrite Hg|]. unfold checkSchemaIsEnforceable in Hc. destruct (checkNoUnenforcedFields _ "" _ _) eqn:Er; [done|].
  split; [by eapply unenforced_none|]. intros k prop Hk. pose proof (properties_none _ _ _ k Hc) as Hn. rewrite Hk in Hn. eapply unenforced_none, Hn.
  unfold sort_strings. rewrite sort_by_perm. apply elem_of_elements. by apply elem_of_dom_2 in Hk.
Qed.

(** ** The admission of parameters *)

(** What the schema asks of the parameters. *)
Definition admissible (s : Schema) (params : strmap) : Prop :=
  (forall r, r ∈ js_Required s -> exists v, params !! r = Some v /\ v <> "") /\
  map_Forall (fun k v => exists prop, js_Properties s !! k = Some prop /\ (pp_Enum prop = [] \/ quote v ∈ pp_Enum prop) /\ (pp_Pattern prop = "" \/ pp_Matches prop v = true)) params.

Lemma check_required_ok l params : check_required l params = None <-> forall r, r ∈ l -> exists v, params !! r = Some v /\ v <> "".
Proof.
  induction l as [|r l IH]; cbn [check_required]; [split; [by intros _ r ?%not_elem_of_nil|done]|]. case_bool_decide as H.
  - split; [done|]. intros Hl. destruct (Hl r (list_elem_of_here _ _)) as (v & Hv & Hne). by rewrite Hv in H.
  - rewrite IH. split; intros Hl.
    + intros r' [->|Hr]%elem_of_cons; [|by apply Hl]. destruct (params !! r) as [v|]; [by exists v|done].
    + intros r' Hr. apply Hl. by apply list_elem_of_further.
Qed.

Lemma enumAllows_ok enum v : enumAllows enum v = true <-> quote v ∈ enum.
Proof.
  unfold enumAllows. rewrite existsb_exists. setoid_rewrite bool_decide_eq_true. setoid_rewrite <- list_elem_of_In. naive_solver.
Qed.

Lemma check_params_ok s l : check_params s l = None <-> forall k v, (k, v) ∈ l ->
  exists prop, js_Properties s !! k = Some prop /\ (pp_Enum prop = [] \/ quote v ∈ pp_Enum prop) /\ (pp_Pattern prop = "" \/ pp_Matches prop v = true).
Proof.
  induction l as [|[k v] l IH]; cbn [check_params]; [split; [by intros _ k v ?%not_elem_of_nil|done]|].
  destruct (js_Properties s !! k) as [prop|] eqn:Ek; [|split; [done|]; intros H; destruct (H k v (list_elem_of_here _ _)) as (prop & Hp & _); congruence].
  assert (forall P, (P <-> (pp_Enum prop = [] \/ quote v ∈ pp_Enum prop) /\ (pp_Pattern prop = "" \/ pp_Matches prop v = true)) ->
    (P /\ check_params s l = None <-> forall k' v', (k', v') ∈ (k, v) :: l -> exists prop, js_Properties s !! k' = Some prop /\
      (pp_Enum prop = [] \/ quote v' ∈ pp_Enum prop) /\ (pp_Pattern prop = "" \/ pp_Matches prop v' = true))) as Hcons.
  { intros P HP. rewrite HP, IH. split.
    - intros [Hh Hl] k' v' [[= -> ->]|Hin]%elem_of_cons; [by exists prop|by apply Hl].
    - intros Hl. split; [|intros k' v' Hin; apply Hl; by apply list_elem_of_further]. destruct (Hl k v (list_elem_of_here _ _)) as (prop' & Hp' & H). by simplify_eq. }
  destruct (bool_decide (pp_Enum prop <> []) && negb (enumAllows (pp_Enum prop) v)) eqn:Ee.
  { rewrite <- (Hcons False); [split; [done|by intros [[] _]]|]. split; [done|]. intros [[H|H] _]; [by rewrite H in Ee|]. apply enumAllows_ok in H. rewrite H in Ee. by rewrite andb_false_r in Ee. }
  destruct (bool_decide (pp_Pattern prop <> "") && negb (pp_Matches prop v)) eqn:Ep.
  { rewrite <- (Hcons False); [split; [done|by intros [[] _]]|]. split; [done|]. intros [_ [H|H]]; rewrite H in Ep; [by rewrite bool_decide_false in Ep by tauto|by rewrite andb_false_r in Ep]. }
  rewrite <- (Hcons True); [tauto|]. split; [intros _|done]. split.
  - destruct (decide (pp_Enum prop = [])) as [?|Hne]; [by left|right]. rewrite bool_decide_true in Ee by done. apply enumAllows_ok. by destruct (enumAllows _ _).
  - destruct (decide (pp_Pattern prop = "")) as [?|Hne]; [by left|right]. rewrite bool_decide_true in Ep by done. by destruct (pp_Matches _ _).
Qed.

(** Parameters are accepted exactly when they are what the schema asks for, in
    whichever order the map is ranged over. *)
Theorem schema_admits s params range : range ≡ₚ map_to_list params -> validateAgainstSchema s params range = None <-> admissible s params.
Proof.
  intros Hp. unfold validateAgainstSchema, admissible. rewrite <- check_required_ok. destruct (check_required _ _) eqn:Er; [split; [done|by intros [? _]]|].
  rewrite check_params_ok. split.
  - intros H. split; [done|]. intros k v Hkv. apply H. rewrite Hp. by apply elem_of_map_to_list.
  - intros [_ H] k v Hin. rewrite Hp in Hin. apply elem_of_map_to_list in Hin. by apply H.
Qed.

(** ** The in-memory world *)

(** One FrameService, its status kept apart from its spec as the API server keeps
    them; the Secrets; and the coordinates at which a write is refused. *)
Record world := mkWorld { log : list vcall; service : option FrameService; secrets : gmap ProjectedSecretRef CredentialSecret; refused : list ProjectedSecretRef }.
Definition note (x : vcall) (w : world) : world := mkWorld (log w ++ [x]) (service w) (secrets w) (refused w).
Definition set_service (s : option FrameService) (w : world) : world := mkWorld (log w) s (secrets w) (refused w).
Definition set_secrets (m : gmap ProjectedSecretRef CredentialSecret) (w : world) : world := mkWorld (log w) (service w) m (refused w).
Definition absent : apierr := ApiErr "not found" true false.
Definition no_secret : CredentialSecret := mkCredentialSecret ∅ ∅ None.

Definition apply_secret (c : ProjectedSecretRef) (f : CredentialSecret -> result string CredentialSecret) (w : world) : option apierr * gmap ProjectedSecretRef CredentialSecret :=
  if bool_decide (c ∈ refused w) then (Some (plain_err "exceeded quota"), secrets w)
  else match f (default no_secret (secrets w !! c)) with
       | inl e => (Some (plain_err e), secrets w)
       | inr s => (None, <[c := s]> (secrets w))
       end.

#[local] Instance mem_services : ServiceWorld world := {|
  service_get := fun k w => let r := match service w with Some s => inr s | None => inl absent end in (r, note (VGet k r) w);
  service_update := fun s w => (None, note (VUpdate s None) (set_service (Some s) w));
  service_status_update := fun s w => (None, note (VStatus s None) (set_service (Some s) w));
  service_event := fun ty r m w => (tt, note (VEvent ty r m) w);
  secret_get := fun c w => let r := match secrets w !! c with Some _ => None | None => Some absent end in (r, note (VSecretGet c r) w);
  secret_apply := fun c f w => let '(e, m) := apply_secret c f w in (e, note (VWrite c f e) (set_secrets m w));
  secret_delete := fun c w => let r := match secrets w !! c with Some _ => None | None => Some absent end in (r, note (VDelete c r) (set_secrets (delete c (secrets w)) w));
  object_delete := fun o w => (None, note (VObject o None) w);
  namespace_get := fun n w => (None, note (VNamespace n None) w);
  is_forbidden := fun _ => false;
  is_dns1123_label := fun _ => [];
  set_service_condition := fun l c => c :: filter (fun x => c_Type x <> c_Type c) l;
  has_finalizer := fun l f => bool_decide (f ∈ l);
  add_service_finalizer := fun l f => (l ++ [f])%list;
  drop_finalizer := fun l f => filter (fun x => x <> f) l;
  set_controller_reference := fun svc s => inr (mkCredentialSecret (cs_Labels s) (cs_Data s) (Some (service_key svc)))
|}.
#[local] Instance mem_traced : TracedServices world.
Proof. refine {| vcalls := log |}; try done. intros w c f. cbn. by destruct (apply_secret c f w). Defined.

(** A provider like the postgres one: always running, its password in its binding
    unless it is asked for none. *)
Definition database : Provisioner world := mkProvisioner
  (fun svc w => let r := inr (mkResult true "Running" "" (Some [mkProvisioned "acid.zalan.do/v1" "postgresql" (sv_Name svc) (sv_Namespace svc)])) in (r, note (VProvision svc r) w))
  (fun svc w => let r := inr (mkBinding {["password" := "s3cret"]} "db:5432" (bool_decide (sv_Parameters (sv_Spec svc) !! "binding" = Some "none"))) in (r, note (VBind svc r) w)).
Definition one_property (p : string -> bool) : Property := mkProperty [] "^[1-9]$" p ["Type"; "Description"; "Pattern"].
Definition postgres : Provider world := mkProvider "postgres"
  (mkSchema ["instances"] {["instances" := one_property (fun s => bool_decide (s ∈ ["1"; "2"; "3"])); "binding" := mkProperty [quote "none"] "" (fun _ => true) ["Type"; "Description"; "Enum"]]}
    ["Type"; "Required"; "Properties"])
  (fun m w => let r := inr (mkSizing "" "" "" "") in (r, note (VSize r) w)) (Some database).
Definition catalog : Registry world := mkRegistry {["postgres" := postgres]} ["postgres"].

Lemma catalog_traced : traced_registry catalog.
Proof. intros t p H. unfold catalog in H. cbn in H. apply lookup_singleton_Some in H as [<- <-]. split; [done|]. intros pn [= <-]. by split. Qed.

Definition db (params : strmap) (projectTo : list string) : FrameService :=
  mkService "apps" "db" 1 false [] (mkServiceSpec "postgres" params "MEDIUM" (mkBindingSpec "" projectTo) "Retain")
    (mkServiceStatus 0 [] (mkBindingStatus None "" []) (mkSizing "" "" "" "") []).
Definition key : NamespacedName := ("apps", "db").
Definition start (projectTo : list string) (refused : list ProjectedSecretRef) : world := mkWorld [] (Some (db {["instances" := "1"]} projectTo)) ∅ refused.
Definition passes (n : nat) (w : world) : world := (reconciles catalog (replicate n key) w).2.
(** The spec as someone edits it. *)
Definition edit (f : FrameServiceSpec -> FrameServiceSpec) (w : world) : world :=
  set_service ((fun s => mkService (sv_Namespace s) (sv_Name s) (sv_Generation s + 1) (sv_Deleted s) (sv_Finalizers s) (f (sv_Spec s)) (sv_Status s)) <$> service w) w.
Definition project (l : list string) (s : FrameServiceSpec) : FrameServiceSpec :=
  mkServiceSpec (sv_Type s) (sv_Parameters s) (sv_ServiceClass s) (mkBindingSpec (bs_SecretName (sv_Binding s)) l) (sv_DeletionPolicy s).
Definition bind_none (s : FrameServiceSpec) : FrameServiceSpec :=
  mkServiceSpec (sv_Type s) (<["binding" := "none"]> (sv_Parameters s)) (sv_ServiceClass s) (sv_Binding s) (sv_DeletionPolicy s).
Definition password_at (w : world) (c : ProjectedSecretRef) : option string := secrets w !! c ≫= fun s => cs_Data s !! "password".

(** The credentials follow the namespaces the spec lists. *)
Example copies_follow_spec :
  let w := passes 2 (start ["web"; "jobs"] []) in
  let w' := passes 1 (edit (project ["web"]) w) in
  (password_at w (mkCoord "web" "db"), password_at w (mkCoord "jobs" "db"), password_at w' (mkCoord "web" "db"), password_at w' (mkCoord "jobs" "db")) =
  (Some "s3cret", Some "s3cret", Some "s3cret", None).
Proof. reflexivity. Qed.

(** A service that had a binding and is then asked for none keeps every copy of its
    credentials, also in the namespaces the spec stops listing. *)
Theorem none_keeps_copies :
  let w := passes 2 (edit (fun s => bind_none (project [] s)) (passes 2 (start ["web"] []))) in
  password_at w (mkCoord "web" "db") = Some "s3cret" /\ option_map projected (service w) = Some [mkCoord "apps" "db"; mkCoord "web" "db"].
Proof. by split; reflexivity. Qed.

(** A place that was found empty and recorded, at which the write was refused, stays
    on the record: a Secret its tenant creates there, at any time before the next
    write is taken, is overwritten with the service's credentials. *)
Theorem recorded_then_overwritten :
  let w := passes 2 (start ["web"] [mkCoord "web" "db"]) in
  let tenant := mkCredentialSecret ∅ {["password" := "tenant"]} None in
  let w' := passes 1 (mkWorld (log w) (service w) (<[mkCoord "web" "db" := tenant]> (secrets w)) []) in
  password_at w (mkCoord "web" "db") = None /\ password_at w' (mkCoord "web" "db") = Some "s3cret".
Proof. by split; reflexivity. Qed.

(** ** Witnesses *)

(** [records_own], decided along the history. *)
Fixpoint owns (seen : list ProjectedSecretRef) (h : list vcall) : bool :=
  match h with
  | [] => true
  | VGet _ (inr svc) :: h => forallb (fun c => bool_decide (c ∈ seen)) (projected svc) && owns seen h
  | VStatus s _ :: h => owns (projected s ++ seen) h
  | _ :: h => owns seen h
  end.

Lemma owns_ok seen p0 h : (forall c, c ∈ seen -> exists s r, VStatus s r ∈ p0 /\ c ∈ projected s) -> owns seen h = true ->
  forall p key svc q c, h = (p ++ VGet key (inr svc) :: q)%list -> c ∈ projected svc -> exists s r, VStatus s r ∈ (p0 ++ p)%list /\ c ∈ projected s.
Proof.
  revert seen p0. induction h as [|x h IH]; intros seen p0 Hs Ho p key svc q c E Hc; [by destruct p|]. destruct p as [|y p]; cbn in E; injection E as -> ->.
  - cbn in Ho. apply andb_true_iff in Ho as [Ho _]. rewrite forallb_forall in Ho. rewrite app_nil_r. apply Hs. apply (bool_decide_unpack _), Is_true_true, Ho. by apply list_elem_of_In.
  - assert (exists seen', (forall c, c ∈ seen' -> exists s r, VStatus s r ∈ (p0 ++ [y])%list /\ c ∈ projected s) /\ owns seen' (p ++ VGet key (inr svc) :: q) = true) as (seen' & Hs' & Ho').
    { assert (forall c, c ∈ seen -> exists s r, VStatus s r ∈ (p0 ++ [y])%list /\ c ∈ projected s) as Hkeep.
      { intros c' Hc'. destruct (Hs c' Hc') as (s & r & ? & ?). exists s, r. split; [set_solver|done]. }
      destruct y as [k [e|sv]|s r|s r| | | | | | | | |]; cbn in Ho; try (by exists seen).
      - apply andb_true_iff in Ho as [_ Ho]. by exists seen.
      - exists (projected s ++ seen)%list. split; [|done]. intros c' [Hc'|Hc']%elem_of_app; [exists s, r; split; [set_solver|done]|by apply Hkeep]. }
    destruct (IH seen' (p0 ++ [y])%list Hs' Ho' p key svc q c eq_refl Hc) as (s & r & Hin & Hcs). exists s, r. by rewrite <- app_assoc in Hin.
Qed.

Lemma NewRegistry_ok_witness : exists r, NewRegistry [postgres] = inr r /\ registry_get r "postgres" = inr postgres.
Proof. eexists. split; [reflexivity|]. apply (proj1 (NewRegistry_ok [postgres] _ eq_refl) postgres). apply list_elem_of_here. Defined.

Lemma schema_admits_witness : admissible (pr_Schema postgres) {["instances" := "2"]}.
Proof. apply (schema_admits _ _ [("instances", "2")]); [by rewrite map_to_list_singleton|reflexivity]. Defined.

Lemma passes_allowed_witness : exists r t, vcalls (Reconcile catalog key (start ["web"] [])).2 = VGet key r :: t.
Proof. destruct (passes_allowed catalog catalog_traced key (start ["web"] [])) as (r & t & H & _). by exists r, t. Defined.

Definition claiming : list vcall := log (passes 2 (start ["web"] [])).
Lemma only_claimed_secrets_witness : found_free (take 12 claiming) (mkCoord "web" "db").
Proof.
  assert (exists f, claiming !! 12%nat = Some (VWrite (mkCoord "web" "db") f None)) as [f Hf] by (eexists; reflexivity).
  apply (only_claimed_secrets catalog catalog_traced [key; key] (start ["web"] []) eq_refl) with (x := VWrite (mkCoord "web" "db") f None) (q := drop 13 claiming).
  - intros p k svc q c E Hc. apply (owns_ok [] [] _ ltac:(by intros c' ?%not_elem_of_nil) (eq_refl : owns [] claiming = true) p k svc q c E Hc).
  - symmetry. by apply take_drop_middle.
  - reflexivity.
Defined.
