(* ===== verification/Unstructured.v ===== *)
(** The values of unstructured.Unstructured objects (k8s.io/apimachinery): a map is
    its list of entries in the order of their keys, so that reflect.DeepEqual is
    equality. *)
From stdpp Require Import base tactics strings list gmap.
From Stdlib Require Import Ascii ZArith Lia.
From S2P Require Import Prelude GoLib.

Open Scope Z_scope.

Inductive any := ANil | ABool (b : bool) | AStr (s : string) | AInt (z : Z) | AOther (text : string) | AList (l : list any) | AMap (l : list (string * any)).

Fixpoint any_ind' (P : any -> Prop) (Hn : P ANil) (Hb : forall b, P (ABool b)) (Hs : forall s, P (AStr s)) (Hi : forall z, P (AInt z)) (Ho : forall t, P (AOther t))
    (Hl : forall l, Forall P l -> P (AList l)) (Hm : forall l, Forall (fun e => P e.2) l -> P (AMap l)) (v : any) : P v :=
  let rec := any_ind' P Hn Hb Hs Hi Ho Hl Hm in
  match v with
  | ANil => Hn
  | ABool b => Hb b
  | AStr s => Hs s
  | AInt z => Hi z
  | AOther t => Ho t
  | AList l => Hl l ((fix go l : Forall P l := match l with [] => Forall_nil_2 _ | x :: l => Forall_cons_2 _ _ _ (rec x) (go l) end) l)
  | AMap l => Hm l ((fix go l : Forall (fun e => P e.2) l := match l with [] => Forall_nil_2 _ | e :: l => Forall_cons_2 _ _ _ (rec e.2) (go l) end) l)
  end.

Section All2.
Context {A : Type} (eqb : A -> A -> bool).
Fixpoint all2 (l l' : list A) : bool := match l, l' with [], [] => true | x :: l, y :: l' => eqb x y && all2 l l' | _, _ => false end.
Lemma all2_eq l l' : Forall (fun x => forall y, eqb x y = true <-> x = y) l -> all2 l l' = true <-> l = l'.
Proof.
  intros H. revert l'. induction H as [|x l Hx _ IH]; intros [|y l']; cbn; try by split. rewrite andb_true_iff, Hx, IH. split; [by intros [-> ->]|by intros [= -> ->]].
Qed.
End All2.

Fixpoint any_eqb (x y : any) : bool :=
  match x, y with
  | ANil, ANil => true
  | ABool b, ABool b' => Bool.eqb b b'
  | AStr s, AStr s' | AOther s, AOther s' => bool_decide (s = s')
  | AInt z, AInt z' => z =? z'
  | AList l, AList l' => all2 any_eqb l l'
  | AMap l, AMap l' => all2 (fun e e' => bool_decide (e.1 = e'.1) && any_eqb e.2 e'.2) l l'
  | _, _ => false
  end.
Lemma any_eqb_eq x y : any_eqb x y = true <-> x = y.
Proof.
  revert y. induction x as [|b|s|z|t|l IH|l IH] using any_ind'; intros y; destruct y as [|b'|s'|z'|t'|l'|l']; try by split.
  - cbn. rewrite Bool.eqb_true_iff. split; congruence.
  - cbn. rewrite bool_decide_eq_true. split; congruence.
  - cbn. rewrite Z.eqb_eq. split; congruence.
  - cbn. rewrite bool_decide_eq_true. split; congruence.
  - change (all2 any_eqb l l' = true <-> AList l = AList l'). rewrite all2_eq by done. split; congruence.
  - change (all2 (fun e e' => bool_decide (e.1 = e'.1) && any_eqb e.2 e'.2) l l' = true <-> AMap l = AMap l'). rewrite all2_eq; [split; congruence|]. eapply Forall_impl; [exact IH|]. intros [k x] Hx [k' y]. cbn in *.
    rewrite andb_true_iff, bool_decide_eq_true, Hx. split; [by intros [-> ->]|by intros [= -> ->]].
Qed.
#[global] Instance any_eq : EqDecision any.
Proof. intros x y. destruct (any_eqb x y) eqn:E; [left; by apply any_eqb_eq|right; intros H%any_eqb_eq; congruence]. Defined.

Fixpoint field (l : list (string * any)) (k : string) : option any :=
  match l with
  | [] => None
  | (k', v) :: l => if bool_decide (k' = k) then Some v else field l k
  end.
(** A key is set in its place. *)
Fixpoint put (k : string) (v : any) (l : list (string * any)) : list (string * any) :=
  match l with
  | [] => [(k, v)]
  | (k', v') :: l' => if bool_decide (k' = k) then (k, v) :: l' else if str_leb k k' then (k, v) :: l else (k', v') :: put k v l'
  end.

(** unstructured.NestedFieldNoCopy and its typed versions; a field of another type
    is as good as none. *)
Fixpoint nested (v : any) (path : list string) : option any :=
  match path with
  | [] => Some v
  | k :: path => match v with AMap l => match field l k with Some v => nested v path | None => None end | _ => None end
  end.
Definition nested_string (v : any) (path : list string) : string := match nested v path with Some (AStr s) => s | _ => "" end.
Definition nested_bool (v : any) (path : list string) : bool := match nested v path with Some (ABool b) => b | _ => false end.
Definition nested_int64 (v : any) (path : list string) : Z := match nested v path with Some (AInt z) => z | _ => 0 end.
Definition nested_slice (v : any) (path : list string) : list any := match nested v path with Some (AList l) => l | _ => [] end.
Definition nested_map (v : any) (path : list string) : list (string * any) := match nested v path with Some (AMap l) => l | _ => [] end.

(** unstructured.SetNestedField: the maps on the way are made where they are
    missing; a field on the way that is no map is an error. *)
Fixpoint set_nested (v : any) (path : list string) (x : any) : option any :=
  match path with
  | [] => Some x
  | k :: path =>
    match v with
    | AMap l => match set_nested (default (AMap []) (field l k)) path x with Some y => Some (AMap (put k y l)) | None => None end
    | _ => None
    end
  end.

Lemma field_put k v l k' : field (put k v l) k' = if decide (k' = k) then Some v else field l k'.
Proof.
  induction l as [|[k0 v0] l IH]; cbn [put field].
  - destruct (decide (k' = k)) as [->|H]; [by rewrite bool_decide_true|by rewrite bool_decide_false by congruence].
  - destruct (decide (k0 = k)) as [->|H0]; [rewrite bool_decide_true by done|rewrite bool_decide_false by done; destruct (str_leb k k0)]; cbn [field].
    + destruct (decide (k' = k)) as [->|H]; [by rewrite bool_decide_true|by rewrite !bool_decide_false by congruence].
    + destruct (decide (k' = k)) as [->|H]; [by rewrite bool_decide_true|by rewrite bool_decide_false by congruence].
    + rewrite IH. destruct (decide (k' = k)) as [->|H]; [by rewrite bool_decide_false|done].
Qed.
