(* ===== verification/Postgres.v ===== *)
(** internal/services/provider/postgres/postgres.go: the provider of the type
    "postgres", which runs an instance as a cluster of the Zalando operator. It
    creates the operator's custom resource or takes over one it is told the UID of,
    and afterwards moves only what its parameters own.

    The API server and resource.ParseQuantity are the methods of [PostgresWorld]. An
    unstructured object's fields are the values of [Unstructured.v]. A panic of
    resource.MustParse is an error of the pass, as the controller runtime makes it. *)
From stdpp Require Import base tactics strings list gmap.
From Stdlib Require Import Ascii ZArith Lia.
From S2P Require Import Prelude GoLib GoTime Kube StorageAlerts SchedulingPolicy Services Unstructured.

Open Scope Z_scope.

(** ** Constants *)

Definition OwnerLabel : string := "services.plume-labs.io/frameservice".
Definition ClaimedUIDAnnotation : string := "services.plume-labs.io/claimed-uid".
Definition keepAnnotation : string := "helm.sh/resource-policy".
Definition keepValue : string := "keep".
Definition defaultVersion : string := "18".
Definition defaultRetentionDays : string := "14".
Definition walRegion : string := "us-east-1".
Definition bucketClass : string := "ceph-bucket".
Definition clusterNameLabel : string := "cluster-name".
Definition hostnameLabel : string := "kubernetes.io/hostname".
Definition port : Z := 5432.
Definition runningStatus : string := "Running".
Definition ReasonOperatorMissing : string := "OperatorMissing".
Definition ReasonInvalidName : string := "InvalidName".
Definition ReasonAdoptionMissing : string := "AdoptionTargetMissing".
Definition ReasonInstanceLost : string := "InstanceLost".
Definition ReasonClusterMissing : string := "ClusterMissing".
Definition ReasonNotOwned : string := "ClusterNotOwned".
Definition ReasonSpecDrift : string := "SpecDrift".
Definition ReasonVolumeShrink : string := "VolumeShrinkRefused".
Definition ReasonProvisioning : string := "Provisioning".
Definition ReasonNotRunning : string := "ClusterNotRunning".
Definition ReasonRunning : string := "Running".

(** ** The parameters *)

(** The schema's patterns, as their languages. *)
Definition lower (c : ascii) : bool := in_range 97 122 c.
Definition digit (c : ascii) : bool := in_range 48 57 c.
Definition nonzero (c : ascii) : bool := in_range 49 57 c.
Definition hexdigit (c : ascii) : bool := digit c || in_range 97 102 c.
(** ^[a-z0-9]([<inner>]*[a-z0-9])?$ *)
Definition edged (inner : ascii -> bool) (l : bytes) : bool :=
  match l with
  | [] => false
  | c :: _ => (lower c || digit c) && forallb inner l && match last l with Some c => lower c || digit c | None => false end
  end.
Definition name_char (c : ascii) : bool := lower c || digit c || Ascii.eqb c "-".
Definition class_char (c : ascii) : bool := name_char c || Ascii.eqb c ".".
Definition instances_pattern (s : string) : bool := match to_bytes s with [c] => nonzero c | _ => false end.
Definition size_pattern (s : string) : bool :=
  let l := to_bytes s in
  let n := (length l - 2)%nat in
  bool_decide (of_bytes (drop n l) ∈ ["Mi"; "Gi"; "Ti"]) && match take n l with [] => false | c :: ds => nonzero c && forallb digit ds end.
Definition class_pattern (s : string) : bool := edged class_char (to_bytes s).
Definition version_pattern (s : string) : bool := match to_bytes s with [a; b] => digit a && digit b | _ => false end.
Definition identifier_pattern (s : string) : bool :=
  match to_bytes s with [] => false | c :: l => (lower c || Ascii.eqb c "_") && forallb (fun c => lower c || digit c || Ascii.eqb c "_") l end.
Definition nodes_pattern (s : string) : bool := forallb (fun n => edged class_char (to_bytes n)) (split_on "," s).
Definition claim_pattern (s : string) : bool := edged name_char (to_bytes s).
Definition endpoint_pattern (s : string) : bool :=
  match (match cut_prefix "http://" s with Some r => Some r | None => cut_prefix "https://" s end) with
  | Some r => bool_decide (r <> "") && forallb (fun c => negb (Ascii.eqb c " ")) (to_bytes r)
  | None => false
  end.
Definition retention_pattern (s : string) : bool := match to_bytes s with [] => false | c :: ds => nonzero c && forallb digit ds end.
Definition uid_pattern (s : string) : bool :=
  bool_decide (map (fun p => length (to_bytes p)) (split_on "-" s) = [8; 4; 4; 4; 12]%nat) && forallb (fun p => forallb hexdigit (to_bytes p)) (split_on "-" s).

Definition patterned (text : string) (m : string -> bool) : Property := mkProperty [] text m ["Description"; "Type"; "Pattern"].
Definition one_of (v : string) : Property := mkProperty [quote v] "" (fun _ => true) ["Description"; "Type"; "Enum"].
Definition ParameterSchema : Schema := mkSchema ["instances"; "volumeSize"]
  {[ "instances" := patterned "^[1-9]$" instances_pattern;
     "volumeSize" := patterned "^[1-9][0-9]*(Mi|Gi|Ti)$" size_pattern;
     "storageClass" := patterned "^[a-z0-9]([-a-z0-9.]*[a-z0-9])?$" class_pattern;
     "postgresVersion" := patterned "^[0-9]{2}$" version_pattern;
     "database" := patterned "^[a-z_][a-z0-9_]*$" identifier_pattern;
     "owner" := patterned "^[a-z_][a-z0-9_]*$" identifier_pattern;
     "nodes" := patterned "^[a-z0-9]([-a-z0-9.]*[a-z0-9])?(,[a-z0-9]([-a-z0-9.]*[a-z0-9])?)*$" nodes_pattern;
     "walBucketClaim" := patterned "^[a-z0-9]([-a-z0-9]*[a-z0-9])?$" claim_pattern;
     "walEndpoint" := patterned "^https?://[^ ]+$" endpoint_pattern;
     "walRetentionDays" := patterned "^[1-9][0-9]*$" retention_pattern;
     "adoptUID" := patterned "^[0-9a-f]{8}-[0-9a-f]{4}-[0-9a-f]{4}-[0-9a-f]{4}-[0-9a-f]{12}$" uid_pattern;
     "create" := one_of "true";
     "binding" := one_of "none" ]} ["Type"; "Required"; "Properties"].

Definition param (m : strmap) (k : string) : string := default "" (m !! k).
Definition nonempty (s : string) : bool := bool_decide (s <> "").

(** The number [strconv.Atoi] returns, with or without an error: the nearest bound
    out of range, 0 for what is no number. *)
Definition Atoi_value (s : string) : Z :=
  let z := match to_bytes s with
           | c :: l => if Ascii.eqb c "-" then Z.opp <$> parse_nat l else if Ascii.eqb c "+" then parse_nat l else parse_nat (c :: l)
           | [] => None
           end in
  Z.max (- 2 ^ 63) (Z.min (2 ^ 63 - 1) (default 0 z)).
Definition Size_ (m : strmap) : result SizeError Sizing :=
  let refuse t := inl (mkSizeError t false) in
  if nonempty (param m "walBucketClaim") && negb (nonempty (param m "walEndpoint")) then refuse "walBucketClaim needs walEndpoint"
  else if nonempty (param m "adoptUID") && nonempty (param m "create") then refuse "adoptUID and create exclude each other"
  else
    let listed := Z.of_nat (length (split_on "," (param m "nodes"))) in
    if nonempty (param m "nodes") && (listed <? Atoi_value (param m "instances")) then
      refuse (param m "instances" +:+ " instances spread one per node cannot fit on the " +:+ itoa listed +:+ " listed")
    else inr (mkSizing "" "" "" "").

(** [strings.Cut] at the first dash. *)
Fixpoint before_dash (l : bytes) : option bytes :=
  match l with
  | [] => None
  | c :: l => if Ascii.eqb c "-" then Some [] else (fun t => c :: t) <$> before_dash l
  end.

Record settings := mkSettings {
  st_team : string; st_version : string; st_database : string; st_owner : string; st_storageClass : string;
  st_instances : Z; st_volumeSize : string; st_nodes : list string;
  st_walClaim : string; st_walEndpoint : string; st_walRetention : string;
  st_adoptUID : string; st_create : bool; st_noBinding : bool
}.
Definition settingsOf (svc : FrameService) : option settings :=
  let params := sv_Parameters (sv_Spec svc) in
  match before_dash (to_bytes (sv_Name svc)) with
  | None => None
  | Some t =>
    let team := of_bytes t in
    let or key fallback := if nonempty (param params key) then param params key else fallback in
    match parse_int64 (param params "instances") with
    | None => None
    | Some n =>
      if n <? 1 then None else Some (mkSettings team (or "postgresVersion" defaultVersion) (or "database" team) (or "owner" team) (param params "storageClass")
        n (param params "volumeSize") (if nonempty (param params "nodes") then split_on "," (param params "nodes") else [])
        (param params "walBucketClaim") (param params "walEndpoint") (or "walRetentionDays" defaultRetentionDays)
        (param params "adoptUID") (bool_decide (param params "create" = "true")) (bool_decide (param params "binding" = "none")))
    end
  end.

(** ** The cluster *)

(** The operator's custom resource: its metadata, spec and reported status. *)
Record Cluster := mkCluster {
  cl_Namespace : string; cl_Name : string; cl_UID : string; cl_Labels : strmap; cl_Annotations : strmap; cl_Spec : any; cl_Status : string
}.
(** An ObjectBucketClaim. *)
Record Bucket := mkBucket { bk_Namespace : string; bk_Name : string; bk_Labels : strmap; bk_Annotations : strmap; bk_Spec : any }.

(** The part of the spec the nodes and instances parameters own. *)
Definition placement (cluster : string) (s : settings) : list (string * any) :=
  ((if bool_decide (st_nodes s <> []) then
      [("nodeAffinity", AMap [("requiredDuringSchedulingIgnoredDuringExecution", AMap [("nodeSelectorTerms", AList [AMap [("matchExpressions",
         AList [AMap [("key", AStr hostnameLabel); ("operator", AStr "In"); ("values", AList (map AStr (st_nodes s)))]])]])])])]
    else []) ++
   (if 1 <? st_instances s then
      [("topologySpreadConstraints", AList [AMap [("labelSelector", AMap [("matchLabels", AMap [(clusterNameLabel, AStr cluster)])]);
         ("maxSkew", AInt 1); ("topologyKey", AStr hostnameLabel); ("whenUnsatisfiable", AStr "DoNotSchedule")]])]
    else []))%list.

Definition walEnv (s : settings) : list any :=
  let fromSecret key := AMap [("name", AStr key); ("valueFrom", AMap [("secretKeyRef", AMap [("key", AStr key); ("name", AStr (st_walClaim s))])])] in
  let plain name value := AMap [("name", AStr name); ("value", AStr value)] in
  [AMap [("name", AStr "WAL_S3_BUCKET"); ("valueFrom", AMap [("configMapKeyRef", AMap [("key", AStr "BUCKET_NAME"); ("name", AStr (st_walClaim s))])])];
   fromSecret "AWS_ACCESS_KEY_ID"; fromSecret "AWS_SECRET_ACCESS_KEY"; plain "AWS_ENDPOINT" (st_walEndpoint s); plain "AWS_REGION" walRegion;
   plain "WALG_DISABLE_S3_SSE" "true"; plain "BACKUP_NUM_TO_RETAIN" (st_walRetention s)].

Definition newSpec (svc : FrameService) (s : settings) : list (string * any) :=
  let volume := put "size" (AStr (st_volumeSize s)) (if nonempty (st_storageClass s) then [("storageClass", AStr (st_storageClass s))] else []) in
  let spec := [("databases", AMap [(st_database s, AStr (st_owner s))]); ("numberOfInstances", AInt (st_instances s));
               ("postgresql", AMap [("version", AStr (st_version s))]); ("teamId", AStr (st_team s));
               ("users", AMap [(st_owner s, AList [AStr "createdb"])]); ("volume", AMap volume)] in
  let class := PriorityClassForServiceClass (sv_ServiceClass (sv_Spec svc)) in
  let spec := if nonempty class then put "podPriorityClassName" (AStr class) spec else spec in
  let spec := foldl (fun spec e => put e.1 e.2 spec) spec (placement (sv_Name svc) s) in
  if nonempty (st_walClaim s) then put "env" (AList (walEnv s)) spec else spec.

(** What the environment of the live cluster says of its archive. *)
Definition liveWAL (cr : Cluster) : string * string * string :=
  foldl (fun acc e =>
    let '(claim, endpoint, retention) := acc in
    match e with
    | AMap m =>
      let value := match field m "value" with Some (AStr v) => v | _ => "" end in
      match field m "name" with
      | Some (AStr n) =>
        if bool_decide (n = "WAL_S3_BUCKET") then (nested_string e ["valueFrom"; "configMapKeyRef"; "name"], endpoint, retention)
        else if bool_decide (n = "AWS_ENDPOINT") then (claim, value, retention)
        else if bool_decide (n = "BACKUP_NUM_TO_RETAIN") then (claim, endpoint, value)
        else acc
      | _ => acc
      end
    | _ => acc
    end) ("", "", "") (nested_slice (cl_Spec cr) ["env"]).

Definition check (name want live : string) : list string :=
  if bool_decide (want <> live) then [name +:+ " is " +:+ quote want +:+ ", the cluster has " +:+ quote live] else [].
Definition driftOf (cr : Cluster) (s : settings) : list string :=
  let str := nested_string (cl_Spec cr) in
  let '(claim, endpoint, retention) := liveWAL cr in
  (check "team" (st_team s) (str ["teamId"]) ++ check "postgresVersion" (st_version s) (str ["postgresql"; "version"]) ++
   check "storageClass" (st_storageClass s) (str ["volume"; "storageClass"]) ++ check "database owner" (st_owner s) (str ["databases"; st_database s]) ++
   match field (nested_map (cl_Spec cr) ["users"]) (st_owner s) with
   | None | Some ANil => ["owner " +:+ quote (st_owner s) +:+ " is not a user of the cluster"]
   | _ => []
   end ++
   check "walBucketClaim" (st_walClaim s) claim ++
   (if nonempty (st_walClaim s) then check "walEndpoint" (st_walEndpoint s) endpoint ++ check "walRetentionDays" (st_walRetention s) retention else []))%list.

(** A merge patch answers with the object as stored; a failed read of the custom
    resource may be that its kind is not installed. [quantity] is
    resource.ParseQuantity, as the amount it stands for, which is what Cmp compares. *)
Class PostgresWorld (W : Type) := {
  pg_get : NamespacedName -> St W (result kinderr Cluster);
  pg_create : Cluster -> St W (result string Cluster);
  pg_merge : Cluster -> any -> St W (result string Cluster);
  pvc_get : NamespacedName -> St W (option apierr);
  bucket_get : NamespacedName -> St W (result apierr Bucket);
  bucket_create : Bucket -> St W (option apierr);
  bucket_merge : Bucket -> any -> St W (option string);
  pg_secret : NamespacedName -> St W (result apierr strmap);
  pg_forbidden : apierr -> bool;
  quantity : string -> result string Z
}.

Definition degraded (reason message : string) : Result := mkResult false reason message None.

Section Provider.
Context {W : Type} {PW : PostgresWorld W}.

(** [resource.MustParse] panics. *)
Definition must_parse (s : string) : result string Z := match quantity s with inr q => inr q | inl e => inl ("cannot parse '" +:+ s +:+ "': " +:+ e) end.

Definition movedOf (cr : Cluster) (s : settings) : result string (list string) :=
  let n := nested_int64 (cl_Spec cr) ["numberOfInstances"] in
  let size := nested_string (cl_Spec cr) ["volume"; "size"] in
  let moved := ["volumeSize is " +:+ st_volumeSize s +:+ ", the cluster has " +:+ quote size] in
  let volume := match quantity size with
                | inl _ => inr moved
                | inr live => match must_parse (st_volumeSize s) with inl p => inl p | inr want => inr (if live =? want then [] else moved) end
                end in
  match volume with
  | inl p => inl p
  | inr volume =>
    inr ((if negb (n =? st_instances s) then ["instances is " +:+ itoa (st_instances s) +:+ ", the cluster has " +:+ itoa n] else []) ++ volume ++
         (if bool_decide (st_nodes s <> []) then ["nodes is set: placement moves after the adoption, not with it"] else []))%list
  end.

Definition claim_body (uid name : string) : any :=
  AMap [("metadata", AMap [("annotations", AMap [(keepAnnotation, AStr keepValue); (ClaimedUIDAnnotation, AStr uid)]); ("labels", AMap [(OwnerLabel, AStr name)])])].
Definition claim (cr : Cluster) (svc : FrameService) : St W (result string Cluster) :=
  r ← pg_merge cr (claim_body (cl_UID cr) (sv_Name svc));
  mret (match r with inl e => inl ("claiming the cluster: " +:+ e) | inr cr => inr cr end).

(** The fields of the spec that may move and differ. *)
Definition moves (cr : Cluster) (s : settings) (live want : Z) : list (string * any) :=
  let spec := if live <? want then [("volume", AMap [("size", AStr (st_volumeSize s))])] else [] in
  let spec := if negb (nested_int64 (cl_Spec cr) ["numberOfInstances"] =? st_instances s) then put "numberOfInstances" (AInt (st_instances s)) spec else spec in
  foldl (fun spec e => if bool_decide (nested (cl_Spec cr) [e.1] = Some e.2) then spec else put e.1 e.2 spec) spec (placement (cl_Name cr) s).

(** [Some] stops the pass. *)
Definition converge (cr : Cluster) (s : settings) : St W (result string (option Result)) :=
  let liveSize := nested_string (cl_Spec cr) ["volume"; "size"] in
  match quantity liveSize with
  | inl e => mret (inl ("the cluster's volume size " +:+ quote liveSize +:+ ": " +:+ e))
  | inr live =>
    match must_parse (st_volumeSize s) with
    | inl p => mret (inl p)
    | inr want =>
      if want <? live then
        mret (inr (Some (degraded ReasonVolumeShrink ("volumeSize " +:+ st_volumeSize s +:+ " is under the cluster's " +:+ liveSize +:+ ": a volume cannot shrink"))))
      else
        let spec := moves cr s live want in
        if bool_decide (spec = []) then mret (inr None)
        else
          r ← pg_merge cr (AMap [("spec", AMap spec)]);
          mret (match r with
          | inl e => inl ("updating the cluster: " +:+ e)
          | inr cr => inr (Some (degraded ReasonProvisioning
              ("cluster " +:+ cl_Name cr +:+ " updated (" +:+ join ", " (sort_strings (map fst spec)) +:+ "), waiting for the operator")))
          end)
    end
  end.

Definition ensureBucket (svc : FrameService) (name : string) : St W (option string) :=
  r ← bucket_get (sv_Namespace svc, name);
  match r with
  | inr _ => mret None
  | inl e =>
    if err_notfound e then
      e ← bucket_create (mkBucket (sv_Namespace svc) name {[OwnerLabel := sv_Name svc]} {[keepAnnotation := keepValue]}
        (AMap [("generateBucketName", AStr name); ("storageClassName", AStr bucketClass)]));
      mret (err_text <$> e)
    else mret (Some (err_text e))
  end.

Definition bucket_body (name : string) : any :=
  AMap [("metadata", AMap [("annotations", AMap [(keepAnnotation, AStr keepValue)]); ("labels", AMap [(OwnerLabel, AStr name)])])].
Definition keepBucket (svc : FrameService) (name : string) : St W (result string (option Result)) :=
  r ← bucket_get (sv_Namespace svc, name);
  match r with
  | inl e => mret (inl ("reading the WAL bucket claim: " +:+ err_text e))
  | inr obc =>
    let owner := default "" (bk_Labels obc !! OwnerLabel) in
    if nonempty owner && bool_decide (owner <> sv_Name svc) then
      mret (inr (Some (degraded ReasonNotOwned ("WAL bucket claim " +:+ name +:+ " belongs to FrameService " +:+ owner))))
    else if bool_decide (default "" (bk_Annotations obc !! keepAnnotation) = keepValue) && bool_decide (owner = sv_Name svc) then mret (inr None)
    else
      e ← bucket_merge obc (bucket_body (sv_Name svc));
      mret (match e with Some e => inl e | None => inr None end)
  end.

Definition pgdata (svc : FrameService) : NamespacedName := (sv_Namespace svc, "pgdata-" +:+ sv_Name svc +:+ "-0").
Definition newCluster (svc : FrameService) (s : settings) : Cluster :=
  mkCluster (sv_Namespace svc) (sv_Name svc) "" {[OwnerLabel := sv_Name svc]} {[keepAnnotation := keepValue]} (AMap (newSpec svc s)) "".

Definition create_cluster (svc : FrameService) (s : settings) : St W (result string Result) :=
  r ← pg_create (newCluster svc s);
  match r with
  | inl e => mret (inl ("creating the cluster: " +:+ e))
  | inr cr =>
    r ← claim cr svc;
    mret (match r with
    | inl e => inl e
    | inr cr => inr (degraded ReasonProvisioning ("cluster " +:+ cl_Name cr +:+ " created, waiting for the operator"))
    end)
  end.

Definition reconcileAbsent (svc : FrameService) (s : settings) : St W (result string Result) :=
  if nonempty (st_adoptUID s) then mret (inr (degraded ReasonAdoptionMissing ("cluster " +:+ sv_Name svc +:+ " (UID " +:+ st_adoptUID s +:+ ") does not exist: nothing created")))
  else if negb (st_create s) then mret (inr (degraded ReasonClusterMissing ("cluster " +:+ sv_Name svc +:+ " does not exist, and create is not set: nothing created")))
  else if nonempty (bt_Endpoint (vs_Binding (sv_Status svc))) then
    mret (inr (degraded ReasonInstanceLost ("cluster " +:+ sv_Name svc +:+ " was serving and has disappeared: not recreated, a new one would be empty; restore it")))
  else
    e ← pvc_get (pgdata svc);
    match e with
    | None => mret (inr (degraded ReasonInstanceLost ("the volume of a cluster " +:+ sv_Name svc +:+ " is still there: not recreated; restore it")))
    | Some e =>
      if negb (err_notfound e) then mret (inl ("checking for a leftover volume: " +:+ err_text e))
      else
        b ← (if nonempty (st_walClaim s) then ensureBucket svc (st_walClaim s) else mret None);
        match b with
        | Some e => mret (inl e)
        | None => create_cluster svc s
        end
    end.

Definition claimed (cr : Cluster) (svc : FrameService) : bool :=
  bool_decide (default "" (cl_Labels cr !! OwnerLabel) = sv_Name svc) && bool_decide (default "" (cl_Annotations cr !! ClaimedUIDAnnotation) = cl_UID cr).
Definition owned (cr : Cluster) (svc : FrameService) (s : settings) : bool :=
  bool_decide (st_adoptUID s = cl_UID cr) || (negb (nonempty (st_adoptUID s)) && st_create s && claimed cr svc).

(** The cluster is there and this service's, and its fixed settings are the
    parameters'. *)
Definition reconcile_claimed (svc : FrameService) (s : settings) (cr : Cluster) : St W (result string Result) :=
  c ← (if negb (claimed cr svc) || bool_decide (default "" (cl_Annotations cr !! keepAnnotation) <> keepValue) then claim cr svc else mret (inr cr));
  match c with
  | inl e => mret (inl e)
  | inr cr =>
    b ← (if nonempty (st_walClaim s) then keepBucket svc (st_walClaim s) else mret (inr None));
    match b with
    | inl e => mret (inl e)
    | inr (Some res) => mret (inr res)
    | inr None =>
      v ← converge cr s;
      mret (match v with
      | inl e => inl e
      | inr (Some res) => inr res
      | inr None =>
        if bool_decide (cl_Status cr <> runningStatus) then inr (degraded ReasonNotRunning ("the operator reports cluster " +:+ cl_Name cr +:+ " as " +:+ quote (cl_Status cr)))
        else inr (mkResult true ReasonRunning ("cluster " +:+ cl_Name cr +:+ " running") None)
      end)
    end
  end.

Definition reconcile_present (svc : FrameService) (s : settings) (cr : Cluster) : St W (result string Result) :=
  if negb (owned cr svc s) then
    mret (inr (degraded ReasonNotOwned ("a cluster " +:+ cl_Name cr +:+ " exists (UID " +:+ cl_UID cr +:+
      ") and this FrameService does not claim it: set adoptUID to take it over")))
  else
    match (if claimed cr svc then inr [] else movedOf cr s) with
    | inl p => mret (inl p)
    | inr moved =>
      let drift := (driftOf cr s ++ moved)%list in
      if bool_decide (drift <> []) then mret (inr (degraded ReasonSpecDrift ("nothing written: the parameters do not describe the cluster: " +:+ join "; " drift)))
      else reconcile_claimed svc s cr
    end.

Definition Reconcile_pg (svc : FrameService) : St W (result string Result) :=
  match settingsOf svc with
  | None => mret (inr (degraded ReasonInvalidName
      ("the operator needs a name of the form <team>-<cluster> and at least one instance: " +:+ quote (sv_Name svc) +:+ " does not give them")))
  | Some s =>
    r ← pg_get (service_key svc);
    match r with
    | inl e =>
      if ke_nomatch e then mret (inr (degraded ReasonOperatorMissing "the postgresql CRD is not installed: no operator to run this cluster"))
      else if err_notfound (ke_err e) then reconcileAbsent svc s
      else mret (inl ("reading the cluster: " +:+ err_text (ke_err e)))
    | inr cr => reconcile_present svc s cr
    end
  end.

Definition Bind_pg (svc : FrameService) : St W (result BindError Binding) :=
  match settingsOf svc with
  | None => mret (inl (mkBindError ("invalid name " +:+ quote (sv_Name svc)) None))
  | Some s =>
    let host := sv_Name svc +:+ "." +:+ sv_Namespace svc +:+ ".svc" in
    let endpoint := host +:+ ":" +:+ itoa port in
    if st_noBinding s then mret (inr (mkBinding ∅ endpoint true))
    else
      r ← pg_secret (sv_Namespace svc, st_owner s +:+ "." +:+ sv_Name svc +:+ ".credentials.postgresql.acid.zalan.do");
      mret (match r with
      | inl e =>
        if pg_forbidden e then
          let f := mkForbidden (sv_Namespace svc) "read" in inl (mkBindError (forbidden_text f) (Some f))
        else inl (mkBindError ("reading the operator's credentials: " +:+ err_text e) None)
      | inr d => inr (mkBinding {[ "host" := host; "port" := itoa port; "database" := st_database s; "username" := param d "username"; "password" := param d "password" ]} endpoint false)
      end)
  end.

Definition postgres_provider : Provider W := mkProvider "postgres" ParameterSchema (fun m => mret (Size_ m)) (Some (mkProvisioner Reconcile_pg Bind_pg)).
End Provider.
