(* ===== verification/PostgresSafety.v ===== *)
(** What the postgres provider may do to a cluster, over the calls a pass makes: it
    creates only what was never there, writes only to a cluster it owns and whose
    fixed settings are the parameters', and moves only what the parameters own; the
    cluster it creates is one its own comparison finds nothing to say against; and runs on an
    in-memory API server. *)
From stdpp Require Import base tactics strings list gmap.
From Stdlib Require Import Ascii ZArith Lia.
From S2P Require Import Prelude Trace GoLib GoTime Kube StorageAlerts SchedulingPolicy Services Unstructured Postgres.

Open Scope Z_scope.

(** ** The calls *)

Inductive gcall :=
  | GGet (key : NamespacedName) (r : result kinderr Cluster)
  | GCreate (c : Cluster) (r : result string Cluster)
  | GMerge (c : Cluster) (body : any) (r : result string Cluster)
  | GVolume (key : NamespacedName) (r : option apierr)
  | GBucketGet (key : NamespacedName) (r : result apierr Bucket)
  | GBucketCreate (b : Bucket) (r : option apierr)
  | GBucketMerge (b : Bucket) (body : any) (r : option string).

Class TracedPostgres (W : Type) {PW : PostgresWorld W} := {
  gcalls : W -> list gcall;
  g_get w k : gcalls (pg_get k w).2 = (gcalls w ++ [GGet k (pg_get k w).1])%list;
  g_create w c : gcalls (pg_create c w).2 = (gcalls w ++ [GCreate c (pg_create c w).1])%list;
  g_merge w c b : gcalls (pg_merge c b w).2 = (gcalls w ++ [GMerge c b (pg_merge c b w).1])%list;
  g_volume w k : gcalls (pvc_get k w).2 = (gcalls w ++ [GVolume k (pvc_get k w).1])%list;
  g_bucket w k : gcalls (bucket_get k w).2 = (gcalls w ++ [GBucketGet k (bucket_get k w).1])%list;
  g_bucket_create w b : gcalls (bucket_create b w).2 = (gcalls w ++ [GBucketCreate b (bucket_create b w).1])%list;
  g_bucket_merge w b y : gcalls (bucket_merge b y w).2 = (gcalls w ++ [GBucketMerge b y (bucket_merge b y w).1])%list
}.

(** ** What each call needs *)

(** The settings are the parameters, with the defaults the schema documents: the
    version is 18, the database and its owner are the team, which is what the name
    has before its first dash, and a backup is kept fourteen days. *)
Definition or_else (v d : string) : string := if decide (v = "") then d else v.
Definition read_from (svc : FrameService) (s : settings) : Prop :=
  let p k := default "" (sv_Parameters (sv_Spec svc) !! k) in
  (exists rest, sv_Name svc = st_team s +:+ "-" +:+ rest) /\ "-"%char ∉ to_bytes (st_team s) /\
  st_version s = or_else (p "postgresVersion") "18" /\ st_database s = or_else (p "database") (st_team s) /\ st_owner s = or_else (p "owner") (st_team s) /\
  st_storageClass s = p "storageClass" /\ parse_int64 (p "instances") = Some (st_instances s) /\ 1 <= st_instances s /\ st_volumeSize s = p "volumeSize" /\
  st_nodes s = (if decide (p "nodes" = "") then [] else split_on "," (p "nodes")) /\
  st_walClaim s = p "walBucketClaim" /\ st_walEndpoint s = p "walEndpoint" /\ st_walRetention s = or_else (p "walRetentionDays") "14" /\
  st_adoptUID s = p "adoptUID" /\ (st_create s = true <-> p "create" = "true").

Definition not_found (e : option apierr) : Prop := exists x, e = Some x /\ err_notfound x = true.

(** There never was a cluster: none is there, the service never served, no volume of
    one is left, and it is asked for. *)
Definition never_was (pre : list gcall) (svc : FrameService) (s : settings) : Prop :=
  (exists e, GGet (service_key svc) (inl e) ∈ pre /\ err_notfound (ke_err e) = true) /\ st_adoptUID s = "" /\ st_create s = true /\
  bt_Endpoint (vs_Binding (sv_Status svc)) = "" /\ exists e, GVolume (sv_Namespace svc, "pgdata-" +:+ sv_Name svc +:+ "-0") e ∈ pre /\ not_found e.

(** The cluster carries this service's label, and the annotation names its own UID: a
    copy restored under another UID is not claimed. *)
Definition is_claimed (cr : Cluster) (svc : FrameService) : Prop :=
  default "" (cl_Labels cr !! "services.plume-labs.io/frameservice") = sv_Name svc /\
  default "" (cl_Annotations cr !! "services.plume-labs.io/claimed-uid") = cl_UID cr.
(** It is the one whose UID the parameters name, or none is named, creation is asked
    for and it is claimed. *)
Definition is_owned (cr : Cluster) (svc : FrameService) (s : settings) : Prop :=
  st_adoptUID s = cl_UID cr \/ (st_adoptUID s = "" /\ st_create s = true /\ is_claimed cr svc).

(** The last environment variable of a name, as the operator's list has it. *)
Definition names (n : string) (e : any) : Prop := match e with AMap m => field m "name" = Some (AStr n) | _ => False end.
#[global] Instance names_dec n e : Decision (names n e).
Proof. unfold names. destruct e; apply _. Defined.
Definition variable (cr : Cluster) (n : string) (path : list string) : string :=
  match last (filter (names n) (nested_slice (cl_Spec cr) ["env"])) with Some e => nested_string e path | None => "" end.

(** The live cluster has the settings no pass may move. *)
Definition as_described (cr : Cluster) (s : settings) : Prop :=
  let str := nested_string (cl_Spec cr) in
  str ["teamId"] = st_team s /\ str ["postgresql"; "version"] = st_version s /\ str ["volume"; "storageClass"] = st_storageClass s /\
  str ["databases"; st_database s] = st_owner s /\ (exists v, nested (cl_Spec cr) ["users"; st_owner s] = Some v /\ v <> ANil) /\
  variable cr "WAL_S3_BUCKET" ["valueFrom"; "configMapKeyRef"; "name"] = st_walClaim s /\
  (st_walClaim s <> "" -> variable cr "AWS_ENDPOINT" ["value"] = st_walEndpoint s /\ variable cr "BACKUP_NUM_TO_RETAIN" ["value"] = st_walRetention s).

(** The placement the parameters ask for. *)
Definition pinned_to (nodes : list string) : any :=
  AMap [("requiredDuringSchedulingIgnoredDuringExecution", AMap [("nodeSelectorTerms", AList [AMap [("matchExpressions",
    AList [AMap [("key", AStr "kubernetes.io/hostname"); ("operator", AStr "In"); ("values", AList (map AStr nodes))]])]])])].
Definition one_per_node (cluster : string) : any :=
  AList [AMap [("labelSelector", AMap [("matchLabels", AMap [("cluster-name", AStr cluster)])]); ("maxSkew", AInt 1);
    ("topologyKey", AStr "kubernetes.io/hostname"); ("whenUnsatisfiable", AStr "DoNotSchedule")]].

(** One field of a patch of the spec: the volume grown to the size asked for, the
    number of instances asked for where the cluster has another, the nodes asked for,
    or the spread of several instances, where the cluster has not got them. *)
Definition may_move (c : Cluster) (s : settings) (live want : Z) (e : string * any) : Prop :=
  (e = ("volume", AMap [("size", AStr (st_volumeSize s))]) /\ live < want) \/
  (e = ("numberOfInstances", AInt (st_instances s)) /\ nested_int64 (cl_Spec c) ["numberOfInstances"] <> st_instances s) \/
  (e = ("nodeAffinity", pinned_to (st_nodes s)) /\ st_nodes s <> [] /\ nested (cl_Spec c) ["nodeAffinity"] <> Some (pinned_to (st_nodes s))) \/
  (e = ("topologySpreadConstraints", one_per_node (cl_Name c)) /\ 1 < st_instances s /\
   nested (cl_Spec c) ["topologySpreadConstraints"] <> Some (one_per_node (cl_Name c))).

(** The cluster a service is made: its name, its label, kept by helm, and the spec its
    parameters describe. *)
Definition made_for (svc : FrameService) (s : settings) (c : Cluster) : Prop :=
  cl_Namespace c = sv_Namespace svc /\ cl_Name c = sv_Name svc /\
  cl_Labels c = {["services.plume-labs.io/frameservice" := sv_Name svc]} /\ cl_Annotations c = {["helm.sh/resource-policy" := "keep"]} /\
  as_described c s /\ nested_int64 (cl_Spec c) ["numberOfInstances"] = st_instances s /\ nested_string (cl_Spec c) ["volume"; "size"] = st_volumeSize s /\
  (st_nodes s <> [] -> nested (cl_Spec c) ["nodeAffinity"] = Some (pinned_to (st_nodes s))) /\
  (1 < st_instances s -> nested (cl_Spec c) ["topologySpreadConstraints"] = Some (one_per_node (sv_Name svc))).

(** The patch that claims a cluster: the keep annotation, its UID and the label. *)
Definition claiming (uid name : string) : any :=
  AMap [("metadata", AMap [("annotations", AMap [("helm.sh/resource-policy", AStr "keep"); ("services.plume-labs.io/claimed-uid", AStr uid)]);
    ("labels", AMap [("services.plume-labs.io/frameservice", AStr name)])])].
Definition keeping (name : string) : any :=
  AMap [("metadata", AMap [("annotations", AMap [("helm.sh/resource-policy", AStr "keep")]); ("labels", AMap [("services.plume-labs.io/frameservice", AStr name)])])].

Section May.
Context {W : Type} {PW : PostgresWorld W}.

(** An adoption moves nothing the parameters own: the instances and the size are
    those of the cluster, and no node is asked for. *)
Definition nothing_moves (cr : Cluster) (s : settings) : Prop :=
  nested_int64 (cl_Spec cr) ["numberOfInstances"] = st_instances s /\ st_nodes s = [] /\
  exists q, quantity (nested_string (cl_Spec cr) ["volume"; "size"]) = inr q /\ quantity (st_volumeSize s) = inr q.

(** The cluster that was read is this service's, and the parameters describe it; one
    not claimed before they describe in what could be moved too. *)
Definition ours (pre : list gcall) (svc : FrameService) (s : settings) (cr : Cluster) : Prop :=
  GGet (service_key svc) (inr cr) ∈ pre /\ is_owned cr svc s /\ as_described cr s /\ (is_claimed cr svc \/ nothing_moves cr s).

(** The cluster as it stands in the pass: as read, or as the claim left it. *)
Definition standing (pre : list gcall) (svc : FrameService) (cr c : Cluster) : Prop :=
  c = cr \/ GMerge cr (claiming (cl_UID cr) (sv_Name svc)) (inr c) ∈ pre.

Definition gmay (svc : FrameService) (s : settings) (pre : list gcall) (x : gcall) : Prop :=
  match x with
  | GCreate c _ => made_for svc s c /\ never_was pre svc s
  | GMerge c body _ =>
      (body = claiming (cl_UID c) (sv_Name svc) /\ (ours pre svc s c \/ exists b, made_for svc s b /\ GCreate b (inr c) ∈ pre)) \/
      (exists cr live want spec, ours pre svc s cr /\ standing pre svc cr c /\ quantity (nested_string (cl_Spec c) ["volume"; "size"]) = inr live /\
        quantity (st_volumeSize s) = inr want /\ live <= want /\ body = AMap [("spec", AMap spec)] /\ spec <> [] /\ Forall (may_move c s live want) spec)
  | GBucketCreate b _ =>
      bk_Namespace b = sv_Namespace svc /\ bk_Name b = st_walClaim s /\ st_walClaim s <> "" /\ never_was pre svc s /\
     exists e, GBucketGet (sv_Namespace svc, st_walClaim s) (inl e) ∈ pre /\ err_notfound e = true
  | GBucketMerge b body _ => body = keeping (sv_Name svc) /\ (exists cr, ours pre svc s cr) /\ GBucketGet (sv_Namespace svc, st_walClaim s) (inr b) ∈ pre /\
     default "" (bk_Labels b !! "services.plume-labs.io/frameservice") ∈ [""; sv_Name svc]
  | _ => True
  end.

Lemma never_was_mono pre pre' svc s : pre ⊆ pre' -> never_was pre svc s -> never_was pre' svc s.
Proof. intros Hs ((e & Hg & He) & H1 & H2 & H3 & (e' & Hv & Hn)). split; [by exists e; auto|]. repeat (split; [done|]). by exists e'; auto. Qed.
Lemma ours_mono pre pre' svc s cr : pre ⊆ pre' -> ours pre svc s cr -> ours pre' svc s cr.
Proof. intros Hs (H & ?). by split; [apply Hs|]. Qed.
End May.

(** ** The spec it writes *)

(** The fields of a new spec, one by one. *)
Definition base_spec (s : settings) : list (string * any) :=
  [("databases", AMap [(st_database s, AStr (st_owner s))]); ("numberOfInstances", AInt (st_instances s)); ("postgresql", AMap [("version", AStr (st_version s))]);
   ("teamId", AStr (st_team s)); ("users", AMap [(st_owner s, AList [AStr "createdb"])]);
   ("volume", AMap (put "size" (AStr (st_volumeSize s)) (if nonempty (st_storageClass s) then [("storageClass", AStr (st_storageClass s))] else [])))].

Definition extra_keys : list string := ["podPriorityClassName"; "nodeAffinity"; "topologySpreadConstraints"; "env"].

Lemma placement_keys n s e : e ∈ placement n s -> e.1 ∈ ["nodeAffinity"; "topologySpreadConstraints"].
Proof. unfold placement. intros [H|H]%elem_of_app; case_match; set_solver. Qed.

Lemma field_foldl_put l spec k : (forall e, e ∈ l -> e.1 <> k) -> field (foldl (fun spec e => put e.1 e.2 spec) spec l) k = field spec k.
Proof.
  revert spec. induction l as [|e l IH]; intros spec H; [done|]. cbn [foldl]. rewrite IH by (intros x Hx; apply H; by apply list_elem_of_further).
  rewrite field_put. rewrite decide_False; [done|]. intros ->. by destruct (H e (list_elem_of_here _ _)).
Qed.

Lemma newSpec_base svc s k : k ∉ extra_keys -> field (newSpec svc s) k = field (base_spec s) k.
Proof.
  intros Hk. unfold newSpec. cbv zeta. fold (base_spec s). unfold extra_keys in Hk. rewrite !not_elem_of_cons in Hk. destruct Hk as (H1 & H2 & H3 & H4 & _).
  assert (forall spec, field (foldl (fun spec e => put e.1 e.2 spec) spec (placement (sv_Name svc) s)) k = field spec k) as Hp.
  { intros spec. apply field_foldl_put. intros e He%placement_keys E. rewrite !elem_of_cons, elem_of_nil in He. naive_solver. }
  destruct (nonempty (st_walClaim s)); rewrite ?field_put, ?(decide_False _ _ H4), Hp; destruct (nonempty (PriorityClassForServiceClass _)); by rewrite ?field_put, ?(decide_False _ _ H1).
Qed.

Lemma newSpec_env svc s : field (newSpec svc s) "env" = if nonempty (st_walClaim s) then Some (AList (walEnv s)) else None.
Proof.
  unfold newSpec. cbv zeta. fold (base_spec s). destruct (nonempty (st_walClaim s)); [by rewrite field_put|].
  rewrite field_foldl_put; [|by intros e He%placement_keys E; rewrite E in He; set_solver]. destruct (nonempty (PriorityClassForServiceClass _)); [by rewrite field_put|done].
Qed.

Lemma placement_lookup n s e : e ∈ placement n s -> forall spec, field (foldl (fun spec e => put e.1 e.2 spec) spec (placement n s)) e.1 = Some e.2.
Proof.
  unfold placement. intros H spec. destruct (bool_decide (st_nodes s <> [])), (1 <? st_instances s); cbn in H |- *;
    rewrite ?elem_of_cons, ?elem_of_nil in H; destruct_or? H; subst; cbn; rewrite !field_put; cbn; try done; by destruct H.
Qed.

Lemma newSpec_placement svc s e : e ∈ placement (sv_Name svc) s -> field (newSpec svc s) e.1 = Some e.2.
Proof.
  intros He. unfold newSpec. cbv zeta. pose proof (placement_keys _ _ _ He) as Hk. destruct (nonempty (st_walClaim s)); [rewrite field_put, decide_False|]; [by apply placement_lookup| |by apply placement_lookup].
  intros E. rewrite E in Hk. set_solver.
Qed.

Lemma check_self name v : check name v v = [].
Proof. unfold check. by rewrite bool_decide_false by tauto. Qed.

Lemma nested_one l k : nested (AMap l) [k] = field l k.
Proof. cbn. by destruct (field l k). Qed.

Lemma field_one (k : string) v : field [(k, v)] k = Some v.
Proof. cbn. by rewrite bool_decide_true. Qed.

Lemma volume_class s : nested_string (AMap (put "size" (AStr (st_volumeSize s)) (if nonempty (st_storageClass s) then [("storageClass", AStr (st_storageClass s))] else []))) ["storageClass"] = st_storageClass s.
Proof.
  unfold nested_string. rewrite nested_one, field_put, decide_False by done. unfold nonempty. case_bool_decide as H; [done|]. cbn. by destruct (st_storageClass s).
Qed.

Lemma liveWAL_new c svc s : cl_Spec c = AMap (newSpec svc s) ->
  liveWAL c = if nonempty (st_walClaim s) then (st_walClaim s, st_walEndpoint s, st_walRetention s) else ("", "", "").
Proof.
  intros Hc. unfold liveWAL, nested_slice. rewrite Hc, nested_one, newSpec_env. by destruct (nonempty (st_walClaim s)).
Qed.

Lemma driftOf_new c svc s : cl_Spec c = AMap (newSpec svc s) -> driftOf c s = [].
Proof.
  intros Hc. unfold driftOf. rewrite (liveWAL_new c svc s Hc), Hc.
  assert (forall k v, k ∉ extra_keys -> field (base_spec s) k = Some v -> forall p, nested (AMap (newSpec svc s)) (k :: p) = nested v p) as Hn.
  { intros k v Hk Hv p. cbn. by rewrite newSpec_base, Hv. }
  assert (forall k v, k ∉ extra_keys -> field (base_spec s) k = Some v -> forall p, nested_string (AMap (newSpec svc s)) (k :: p) = nested_string v p) as Hns.
  { intros k v Hk Hv p. unfold nested_string. by rewrite (Hn k v). }
  assert (forall k, bool_decide (k ∉ extra_keys) = true -> k ∉ extra_keys) as Hx by (intros k H; by apply bool_decide_eq_true in H).
  rewrite (Hns "teamId" _ (Hx "teamId" eq_refl) eq_refl), (Hns "postgresql" _ (Hx "postgresql" eq_refl) eq_refl), (Hns "volume" _ (Hx "volume" eq_refl) eq_refl), (Hns "databases" _ (Hx "databases" eq_refl) eq_refl), volume_class.
  change (nested_string (AStr (st_team s)) []) with (st_team s). change (nested_string (AMap [("version", AStr (st_version s))]) ["version"]) with (st_version s).
  assert (nested_string (AMap [(st_database s, AStr (st_owner s))]) [st_database s] = st_owner s) as -> by (unfold nested_string; by rewrite nested_one, field_one).
  unfold nested_map. rewrite (Hn "users" _ (Hx "users" eq_refl) eq_refl). cbn [nested]. rewrite field_one. rewrite !check_self. cbn [app].
  unfold nonempty. case_bool_decide as Hw; [by rewrite !check_self|]. by rewrite Hw, check_self.
Qed.

Lemma moves_none {W} {PW : PostgresWorld W} c s live : nested_int64 (cl_Spec c) ["numberOfInstances"] = st_instances s ->
  (forall e, e ∈ placement (cl_Name c) s -> nested (cl_Spec c) [e.1] = Some e.2) -> moves c s live live = [].
Proof.
  intros Hi Hp. unfold moves. rewrite Z.ltb_irrefl, Hi, Z.eqb_refl. cbn [negb]. induction (placement (cl_Name c) s) as [|e l IH]; cbn [foldl]; [done|].
  rewrite bool_decide_true by (apply Hp, list_elem_of_here). apply IH. intros x Hx. apply Hp. by apply list_elem_of_further.
Qed.

(** ** The code's comparisons, told *)

Lemma before_dash_spec l t : before_dash l = Some t -> "-"%char ∉ t /\ exists r, l = (t ++ "-"%char :: r)%list.
Proof.
  revert t. induction l as [|c l IH]; intros t; [done|]. cbn. destruct (Ascii.eqb_spec c "-") as [->|Hc]; [intros [= <-]; split; [by intros ?%not_elem_of_nil|by exists l]|].
  destruct (before_dash l) as [t'|]; [|done]. intros [= <-]. destruct (IH t' eq_refl) as (H & r & ->). split; [|by exists r]. intros [E|?]%elem_of_cons; [by destruct Hc|done].
Qed.

Lemma settings_read svc s : settingsOf svc = Some s -> read_from svc s.
Proof.
  unfold settingsOf, read_from, or_else. cbv zeta. destruct (before_dash _) as [t|] eqn:Et; [|done]. destruct (parse_int64 _) as [n|] eqn:En; [|done].
  destruct (n <? 1) eqn:E1; [done|]. apply Z.ltb_ge in E1. apply before_dash_spec in Et as (Hd & r & Hr). intros [= <-]. cbn [st_team st_version st_database st_owner st_storageClass st_instances st_volumeSize st_nodes st_walClaim st_walEndpoint st_walRetention st_adoptUID st_create].
  unfold nonempty, param in *. split; [exists (of_bytes r); by rewrite <- (of_to_bytes (sv_Name svc)), Hr, of_bytes_app|]. rewrite to_of_bytes.
  repeat (split; [first [done|by repeat case_bool_decide; repeat case_decide]|]). by rewrite bool_decide_eq_true.
Qed.

Lemma is_claimed_iff cr svc : claimed cr svc = true <-> is_claimed cr svc.
Proof. unfold claimed, is_claimed. by rewrite andb_true_iff, !bool_decide_eq_true. Qed.
Lemma is_owned_iff cr svc s : owned cr svc s = true <-> is_owned cr svc s.
Proof.
  unfold owned, is_owned, nonempty. rewrite orb_true_iff, !andb_true_iff, is_claimed_iff, negb_true_iff, bool_decide_eq_true, bool_decide_eq_false. split.
  - intros [?|[[H%dec_stable ?] ?]]; [by left|by right].
  - intros [?|(H & ? & ?)]; [by left|right; split; [split; [tauto|done]|done]].
Qed.

Lemma liveWAL_told cr : liveWAL cr =
  (variable cr "WAL_S3_BUCKET" ["valueFrom"; "configMapKeyRef"; "name"], variable cr "AWS_ENDPOINT" ["value"], variable cr "BACKUP_NUM_TO_RETAIN" ["value"]).
Proof.
  unfold liveWAL, variable. induction (nested_slice (cl_Spec cr) ["env"]) as [|e l IH] using rev_ind; [done|]. rewrite foldl_app, !filter_app. cbn [foldl]. rewrite IH. clear IH.
  assert (forall n, (filter (names n) l ++ filter (names n) [e])%list = if decide (names n e) then (filter (names n) l ++ [e])%list else filter (names n) l) as Hf.
  { intros n. rewrite filter_cons. case_decide; [done|]. by rewrite app_nil_r. }
  rewrite !Hf. clear Hf. destruct e as [| | | | | |m]; try done.
  assert (forall n, (if decide (names n (AMap m)) then (filter (names n) l ++ [AMap m])%list else filter (names n) l) =
    if decide (field m "name" = Some (AStr n)) then (filter (names n) l ++ [AMap m])%list else filter (names n) l) as Hn by (intros n; by repeat case_decide).
  rewrite !Hn. clear Hn. assert (match field m "value" with Some (AStr v) => v | _ => "" end = nested_string (AMap m) ["value"]) as -> by (unfold nested_string; rewrite nested_one; done).
  destruct (field m "name") as [[| |n| | | |]|]; try (rewrite !decide_False by done; done).
  repeat case_bool_decide; subst; repeat case_decide; try congruence; by rewrite last_snoc.
Qed.

Lemma check_nil name v live : check name v live = [] <-> live = v.
Proof. unfold check. case_bool_decide as H; [split; [done|congruence]|]. by split. Qed.

Lemma app_nil_iff {A} (l k : list A) : (l ++ k)%list = [] <-> l = [] /\ k = [].
Proof. split; [apply app_eq_nil|]. by intros [-> ->]. Qed.

Lemma as_described_iff cr s : driftOf cr s = [] <-> as_described cr s.
Proof.
  unfold driftOf, as_described. rewrite liveWAL_told. cbv zeta. rewrite !app_nil_iff, !check_nil.
  assert (match field (nested_map (cl_Spec cr) ["users"]) (st_owner s) with
    None | Some ANil => ["owner " +:+ quote (st_owner s) +:+ " is not a user of the cluster"] | _ => [] end = [] <-> exists v, nested (cl_Spec cr) ["users"; st_owner s] = Some v /\ v <> ANil) as Hu.
  { unfold nested_map. destruct (cl_Spec cr) as [| | | | | |m]; cbn; try (split; [done|by intros (v & ? & _)]). destruct (field m "users") as [[| | | | | |u]|]; try (split; [done|by intros (v & ? & _)]).
    destruct (field u (st_owner s)) as [v|]; [|split; [done|by intros (v & ? & _)]]. destruct v; (split; [try done; intros _; by eexists|try done; by intros (v & [= <-] & ?)]). }
  rewrite Hu. unfold nonempty. case_bool_decide as Hw; [rewrite app_nil_iff, !check_nil; tauto|]. tauto.
Qed.

Lemma put_forall (P : string * any -> Prop) k v l : P (k, v) -> Forall P l -> Forall P (put k v l).
Proof. intros Hp. induction 1 as [|[k' v'] l Hx Hl IH]; cbn; [by constructor|]. repeat case_match; by repeat constructor. Qed.

Section Told.
Context {W : Type} {PW : PostgresWorld W}.

Lemma nothing_moves_iff cr s : movedOf cr s = inr [] <-> nothing_moves cr s.
Proof.
  unfold movedOf, must_parse, nothing_moves. cbv zeta. destruct (quantity (nested_string (cl_Spec cr) ["volume"; "size"])) as [e|live].
  - split; [|by intros (_ & _ & q & ? & _)]. destruct (negb _); done.
  - destruct (quantity (st_volumeSize s)) as [e|want]; [split; [done|by intros (_ & _ & q & _ & ?)]|].
    split.
    + intros [= H]. rewrite !app_nil_iff in H. destruct H as (Hn & Hv & Hp). destruct (Z.eqb_spec (nested_int64 (cl_Spec cr) ["numberOfInstances"]) (st_instances s)); [|done].
      destruct (Z.eqb_spec live want) as [->|]; [|done]. case_bool_decide as Hd; [done|]. split; [done|]. split; [done|]. by exists want.
    + intros (-> & -> & q & [= ->] & [= ->]). by rewrite !Z.eqb_refl.
Qed.

Lemma placement_told n s e : e ∈ placement n s ->
  (e = ("nodeAffinity", pinned_to (st_nodes s)) /\ st_nodes s <> []) \/ (e = ("topologySpreadConstraints", one_per_node n) /\ 1 < st_instances s).
Proof.
  unfold placement. intros [H|H]%elem_of_app.
  - case_bool_decide; [|by apply not_elem_of_nil in H]. apply list_elem_of_singleton in H as ->. by left.
  - destruct (1 <? st_instances s) eqn:E; [|by apply not_elem_of_nil in H]. apply Z.ltb_lt in E. apply list_elem_of_singleton in H as ->. by right.
Qed.

Lemma moves_told c s live want : Forall (may_move c s live want) (moves c s live want).
Proof.
  unfold moves. cbv zeta.
  assert (forall l spec, (forall e, e ∈ l -> e ∈ placement (cl_Name c) s) -> Forall (may_move c s live want) spec ->
    Forall (may_move c s live want) (foldl (fun spec e => if bool_decide (nested (cl_Spec c) [e.1] = Some e.2) then spec else put e.1 e.2 spec) spec l)) as Hl.
  { induction l as [|e l IH]; intros spec Hin Hf; [done|]. cbn [foldl]. apply IH; [set_solver|]. case_bool_decide as Hd; [done|]. apply put_forall; [|done].
    destruct (placement_told (cl_Name c) s e (Hin e (list_elem_of_here _ _))) as [[-> ?]|[-> ?]]; [right; right; left; done|by right; right; right]. }
  apply Hl; [done|]. destruct (Z.eqb_spec (nested_int64 (cl_Spec c) ["numberOfInstances"]) (st_instances s)) as [|Hi]; cbn [negb].
  - destruct (live <? want) eqn:E; [|done]. apply Z.ltb_lt in E. constructor; [by left|done].
  - apply put_forall; [by right; left|]. destruct (live <? want) eqn:E; [|done]. apply Z.ltb_lt in E. constructor; [by left|done].
Qed.
End Told.

Lemma newCluster_made svc s : made_for svc s (newCluster svc s).
Proof.
  assert (forall k, bool_decide (k ∉ extra_keys) = true -> k ∉ extra_keys) as Hx by (intros k H; by apply bool_decide_eq_true in H).
  repeat (split; [done|]). split; [by eapply as_described_iff, driftOf_new|]. cbn [newCluster cl_Spec].
  split; [unfold nested_int64; by rewrite nested_one, (newSpec_base _ _ _ (Hx "numberOfInstances" eq_refl))|].
  split; [unfold nested_string; cbn [nested]; rewrite (newSpec_base _ _ _ (Hx "volume" eq_refl)); cbn; by destruct (nonempty (st_storageClass s))|].
  assert (forall k v, (k, v) ∈ placement (sv_Name svc) s -> nested (AMap (newSpec svc s)) [k] = Some v) as Hp.
  { intros k v H. rewrite nested_one. exact (newSpec_placement svc s (k, v) H). }
  unfold placement in Hp. split; intros H; apply Hp.
  - rewrite (bool_decide_true _ H). apply list_elem_of_here.
  - apply Z.ltb_lt in H. rewrite H. set_solver.
Qed.

(** ** A pass *)

Section Pass.
Context {W : Type} {PW : PostgresWorld W} {TP : TracedPostgres W} (svc : FrameService) (s : settings) (Hs : settingsOf svc = Some s).

Abbreviation emits := (Trace.emits gcalls).
Abbreviation emits_ret := (Trace.emits_ret gcalls).
Abbreviation emits_call := (Trace.emits_call gcalls).
Abbreviation goes := (Trace.goes gcalls (gmay svc s)).
Abbreviation goes_ret := (Trace.goes_ret gcalls (gmay svc s)).
Abbreviation goes_call := (Trace.goes_call gcalls (gmay svc s)).
Abbreviation goes_bind := (Trace.goes_bind gcalls (gmay svc s)).
Abbreviation just := (justified (gmay svc s)).

Lemma emits_claim_cluster c : emits (claim c svc) (fun r t => exists z, t = [GMerge c (claiming (cl_UID c) (sv_Name svc)) z] /\ forall c', r = inr c' -> z = inr c').
Proof.
  unfold claim. eapply emits_call; [intros; apply g_merge|]. intros z. apply emits_ret. exists z. split; [done|]. intros c'. by destruct z; [|intros [= ->]].
Qed.

Lemma goes_converge pre cr c : ours pre svc s cr -> standing pre svc cr c -> goes pre (converge c s).
Proof.
  intros Ho Hst. unfold converge. cbv zeta. destruct (quantity (nested_string (cl_Spec c) ["volume"; "size"])) as [e|live] eqn:El; [apply goes_ret|].
  unfold must_parse. destruct (quantity (st_volumeSize s)) as [e|want] eqn:Ew; [apply goes_ret|]. destruct (want <? live) eqn:Elt; [apply goes_ret|].
  apply Z.ltb_ge in Elt. case_bool_decide; [apply goes_ret|]. eapply goes_call; [intros; apply g_merge| |intros r; apply goes_ret].
  intros r. right. exists cr, live, want, (moves c s live want). repeat (split; [done|]). apply moves_told.
Qed.

Lemma emits_keepBucket pre cr : ours pre svc s cr -> goes pre (keepBucket svc (st_walClaim s)).
Proof.
  intros Ho. unfold keepBucket. eapply goes_call; [intros; apply g_bucket|done|]. intros [e|b]; [apply goes_ret|]. cbv zeta.
  destruct (nonempty _ && _) eqn:En; [apply goes_ret|]. destruct (bool_decide _ && bool_decide _); [apply goes_ret|].
  eapply goes_call; [intros; apply g_bucket_merge| |intros r; apply goes_ret]. intros r. split; [done|].
  split; [exists cr; eapply ours_mono; [|exact Ho]; set_solver|]. split; [set_solver|]. unfold nonempty in En.
  change (default "" (bk_Labels b !! OwnerLabel) ∈ [""; sv_Name svc]).
  destruct (decide (default "" (bk_Labels b !! OwnerLabel) = "")) as [->|H1]; [apply list_elem_of_here|]. rewrite bool_decide_true in En by done. cbn in En.
  apply bool_decide_eq_false, dec_stable in En as ->. set_solver.
Qed.

Lemma goes_claimed pre cr : ours pre svc s cr -> goes pre (reconcile_claimed svc s cr).
Proof.
  intros Ho. unfold reconcile_claimed.
  eapply (goes_bind _ _ (fun c t => just pre t /\ forall c', c = inr c' -> standing (pre ++ t) svc cr c')).
  { destruct (negb _ || _); [|apply emits_ret; split; [done|]; intros c' [= <-]; by left].
    eapply Trace.emits_mono; [apply emits_claim_cluster|]. intros r t (z & -> & Hz). split; [split; [|done]; left; split; [done|by left]|].
    intros c' ->. rewrite (Hz c' eq_refl). right. set_solver. }
  intros c t [Hj Hst]. split; [done|]. destruct c as [e|c]; [apply goes_ret|]. specialize (Hst c eq_refl).
  eapply (goes_bind _ _ (fun _ t' => just (pre ++ t) t')).
  { destruct (nonempty (st_walClaim s)); [|by apply emits_ret]. eapply emits_keepBucket, ours_mono; [|exact Ho]. set_solver. }
  intros b t' Hj'. split; [done|]. destruct b as [e|[res|]]; [apply goes_ret..|].
  eapply (goes_bind _ _ (fun _ t'' => just ((pre ++ t) ++ t') t'')); [|intros v t'' H; split; [done|apply goes_ret]].
  eapply goes_converge; [eapply ours_mono; [|exact Ho]; set_solver|]. destruct Hst as [->|Hm]; [by left|right; set_solver].
Qed.

Lemma goes_present pre cr : GGet (service_key svc) (inr cr) ∈ pre -> goes pre (reconcile_present svc s cr).
Proof.
  intros Hg. unfold reconcile_present. destruct (owned cr svc s) eqn:Eo; cbn [negb]; [|apply goes_ret].
  destruct (if claimed cr svc then inr [] else movedOf cr s) as [p|moved] eqn:Em; [apply goes_ret|]. cbv zeta.
  case_bool_decide as Hd; [apply goes_ret|]. apply app_eq_nil in Hd as [Hd ->]. apply goes_claimed. split; [done|].
  split; [by apply is_owned_iff|]. split; [by apply as_described_iff|]. destruct (claimed cr svc) eqn:Ec; [left; by apply is_claimed_iff|right; by apply nothing_moves_iff].
Qed.

Lemma goes_create pre : never_was pre svc s -> goes pre (create_cluster svc s).
Proof.
  intros Hn. pose proof (newCluster_made svc s) as Hm. unfold create_cluster. eapply goes_call; [intros; apply g_create|done|]. intros [e|c]; [apply goes_ret|].
  eapply goes_bind; [apply emits_claim_cluster|]. intros r t (z & -> & _). split; [|apply goes_ret]. split; [|done]. left. split; [done|]. right. exists (newCluster svc s). split; [done|set_solver].
Qed.

Lemma goes_absent pre e : GGet (service_key svc) (inl e) ∈ pre -> err_notfound (ke_err e) = true -> goes pre (reconcileAbsent svc s).
Proof.
  intros Hg He. unfold reconcileAbsent, nonempty. case_bool_decide as Hu; [apply goes_ret|]. 
  destruct (st_create s) eqn:Ec; cbn [negb]; [|apply goes_ret]. case_bool_decide as Hend; [apply goes_ret|]. 
  eapply goes_call; [intros; apply g_volume|done|]. intros [v|]; [|apply goes_ret]. destruct (err_notfound v) eqn:Ev; cbn [negb]; [|apply goes_ret].
  assert (forall pre', (pre ++ [GVolume (pgdata svc) (Some v)])%list ⊆ pre' -> never_was pre' svc s) as Hn.
  { intros pre' Hsub. split; [exists e; split; [set_solver|done]|]. repeat (split; [done|]). exists (Some v). split; [set_solver|]. by exists v. }
  eapply (goes_bind _ _ (fun _ t => just (pre ++ [GVolume (pgdata svc) (Some v)]) t)).
  { case_bool_decide; [|by apply emits_ret]. unfold ensureBucket. eapply goes_call; [intros; apply g_bucket|done|]. intros [x|b]; [|apply goes_ret].
    destruct (err_notfound x) eqn:Ex; [|apply goes_ret]. eapply goes_call; [intros; apply g_bucket_create| |intros r; apply goes_ret].
    intros r. split; [done|]. split; [done|]. split; [done|]. split; [apply Hn; set_solver|]. exists x. split; [set_solver|done]. }
  intros b t Hj. split; [done|]. destruct b; [apply goes_ret|]. apply goes_create, Hn. set_solver.
Qed.

Lemma goes_Reconcile_pg pre : goes pre (Reconcile_pg svc).
Proof.
  unfold Reconcile_pg. rewrite Hs. eapply goes_call; [intros; apply g_get|done|]. intros [e|cr].
  - destruct (ke_nomatch e); [apply goes_ret|]. destruct (err_notfound (ke_err e)) eqn:En; [|apply goes_ret]. eapply goes_absent; [|done]. set_solver.
  - apply goes_present. set_solver.
Qed.
End Pass.

(** C19. Every call of a pass is one its parameters, what it read and what it wrote
    before allow. A cluster is created, as the parameters describe it, only where none
    was found, the service never served, no volume of one is left and creation is
    asked for. A cluster that was found is written to only when its UID is the one the
    parameters name, or none is named, creation is asked for and its label and claimed
    UID are this service's; when its team, version, storage class, database owner, users
    and archive are the parameters'; and, if it was not claimed before, when its
    instances and its size are too and no node is asked for. What is written is the
    claim, the volume at a larger size, the number of instances, and their placement. A
    bucket claim of another service is left alone. *)
Theorem clusters_touched {W} {PW : PostgresWorld W} {TP : TracedPostgres W} (svc : FrameService) (w : W) :
  exists t, gcalls (Reconcile_pg svc w).2 = (gcalls w ++ t)%list /\
  (t = [] \/ exists s, read_from svc s /\ justified (gmay svc s) [] t).
Proof.
  destruct (settingsOf svc) as [s|] eqn:Es.
  { destruct (goes_Reconcile_pg svc s Es [] w) as (t & Ht & Hj). exists t. split; [done|]. right. exists s. split; [by apply settings_read|done]. } exists []. unfold Reconcile_pg. rewrite Es. rewrite app_nil_r. split; [done|by left].
Qed.

(** The cluster the provider creates is one its own comparison finds as the
    parameters describe it: no fixed setting is said to drift, and nothing is left to
    move, so the passes that follow write nothing to it. *)
Theorem created_is_described {W} {PW : PostgresWorld W} (c : Cluster) (svc : FrameService) (s : settings) (size : Z) :
  cl_Spec c = AMap (newSpec svc s) -> cl_Name c = sv_Name svc ->
  driftOf c s = [] /\ moves c s size size = [] /\ nested_string (cl_Spec c) ["volume"; "size"] = st_volumeSize s.
Proof.
  intros Hc Hname. split; [by eapply driftOf_new|]. assert (forall k, bool_decide (k ∉ extra_keys) = true -> k ∉ extra_keys) as Hx by (intros k H; by apply bool_decide_eq_true in H).
  split; [apply moves_none|].
  - unfold nested_int64. by rewrite Hc, nested_one, (newSpec_base _ _ _ (Hx "numberOfInstances" eq_refl)).
  - intros e He. rewrite Hname in He. rewrite Hc, nested_one. by apply newSpec_placement.
  - rewrite Hc. unfold nested_string. cbn [nested]. rewrite (newSpec_base _ _ _ (Hx "volume" eq_refl)). cbn. by destruct (nonempty (st_storageClass s)).
Qed.

(** What a pass that adopts may move: only the spread of the instances, when there
    are several. *)
Theorem adoption_moves {W} {PW : PostgresWorld W} (c : Cluster) (s : settings) (live want : Z) :
  movedOf c s = inr [] -> quantity (nested_string (cl_Spec c) ["volume"; "size"]) = inr live -> quantity (st_volumeSize s) = inr want ->
  forall e, e ∈ moves c s live want -> e.1 = "topologySpreadConstraints" /\ 1 < st_instances s /\ nested (cl_Spec c) [e.1] <> Some e.2.
Proof.
  intros Hm Hl Hw e. unfold movedOf in Hm. cbv zeta in Hm. unfold must_parse in Hm. rewrite Hl, Hw in Hm. injection Hm as Hm.
  apply app_eq_nil in Hm as [Hi [Hv Hn]%app_eq_nil]. destruct (Z.eqb_spec live want) as [->|]; [|done]. clear Hv.
  destruct (nested_int64 (cl_Spec c) ["numberOfInstances"] =? st_instances s) eqn:Ei; [|done]. case_bool_decide as Hnodes; [done|].
  unfold moves. rewrite Z.ltb_irrefl, Ei. cbn [negb]. unfold placement. rewrite Hnodes. rewrite bool_decide_false by tauto. cbn [app].
  destruct (1 <? st_instances s) eqn:E1; cbn [foldl fst snd]; [|by intros ?%not_elem_of_nil]. apply Z.ltb_lt in E1.
  case_bool_decide as Hd; [by intros ?%not_elem_of_nil|]. cbn [put]. intros ->%list_elem_of_singleton. by repeat split.
Qed.

(** * Runs on an in-memory API server *)

From S2P Require Import ServicesSafety.

(** ** Admitted parameters *)

Lemma patterned_admits s params k text m : admissible s params -> js_Properties s !! k = Some (patterned text m) -> nonempty text = true ->
  forall v, params !! k = Some v -> m v = true.
Proof.
  intros [_ H] Hk Ht v Hv. destruct (H k v Hv) as (prop & Hp & _ & [Hpat|Hm]); rewrite Hk in Hp; simplify_eq; [|done].
  cbn in Hpat. subst. done.
Qed.

Lemma instances_value v : instances_pattern v = true -> exists n, parse_int64 v = Some n /\ 1 <= n <= 9.
Proof.
  unfold instances_pattern, parse_int64. destruct (to_bytes v) as [|c [|? ?]]; try done. unfold nonzero, in_range. intros Hc. bool_to_prop.
  assert (Ascii.eqb c "-" = false) as -> by (destruct (Ascii.eqb_spec c "-"); [subst; by vm_compute in H|done]).
  assert (Ascii.eqb c "+" = false) as -> by (destruct (Ascii.eqb_spec c "+"); [subst; by vm_compute in H|done]).
  unfold parse_nat, parse_digits, digit_val, in_range. assert ((48 <=? byteZ c) && (byteZ c <=? 57) = true) as -> by (apply andb_true_iff; split; apply Z.leb_le; lia).
  cbn [mbind option_bind]. exists (10 * 0 + (byteZ c - 48)). split; [|lia].
  assert ((- 2 ^ 63 <=? 10 * 0 + (byteZ c - 48)) && (10 * 0 + (byteZ c - 48) <? 2 ^ 63) = true) as -> by (apply andb_true_iff; split; [apply Z.leb_le|apply Z.ltb_lt]; lia).
  done.
Qed.

(** What the webhook admitted gives the provider settings it can work with, whenever
    the name has a team: between one and nine instances and a size in the form it
    parses, and Size refuses nothing else than it says. *)
Theorem admitted_settings (svc : FrameService) : admissible ParameterSchema (sv_Parameters (sv_Spec svc)) ->
  before_dash (to_bytes (sv_Name svc)) <> None ->
  exists s, settingsOf svc = Some s /\ 1 <= st_instances s <= 9 /\ size_pattern (st_volumeSize s) = true.
Proof.
  intros Ha Hn. destruct (before_dash _) as [t|] eqn:Et; [|done]. pose proof Ha as [Hreq _].
  destruct (Hreq "instances" ltac:(set_solver)) as (vi & Hvi & _). destruct (Hreq "volumeSize" ltac:(set_solver)) as (vs & Hvs & _).
  destruct (instances_value vi) as (n & Hp & Hn19); [by eapply (patterned_admits _ _ "instances" "^[1-9]$")|].
  eexists. split; [unfold settingsOf, param; rewrite Et, Hvi; change (default "" (Some vi)) with vi; rewrite Hp; replace (n <? 1) with false by (symmetry; apply Z.ltb_ge; lia); reflexivity|].
  split; [done|]. cbn. unfold param. rewrite Hvs. cbn. by eapply (patterned_admits _ _ "volumeSize" "^[1-9][0-9]*(Mi|Gi|Ti)$").
Qed.

(** ** The in-memory world *)

(** RFC 7386: the fields of the patch replace those of the target, null removes. *)
Fixpoint merged (patch target : any) : any :=
  match patch with
  | AMap l =>
    let start := match target with AMap t => t | _ => [] end in
    AMap ((fix go l acc := match l with
           | [] => acc
           | (k, ANil) :: l => go l (filter (fun e => e.1 <> k) acc)
           | (k, v) :: l => go l (put k (merged v (default ANil (field acc k))) acc)
           end) l start)
  | v => v
  end.
Definition strings_of (v : any) : strmap :=
  match v with AMap l => list_to_map (omap (fun e => match e.2 with AStr s => Some (e.1, s) | _ => None end) l) | _ => ∅ end.
Definition stored_merge (body : any) (c : Cluster) : Cluster :=
  mkCluster (cl_Namespace c) (cl_Name c) (cl_UID c)
    (strings_of (default ANil (nested body ["metadata"; "labels"])) ∪ cl_Labels c)
    (strings_of (default ANil (nested body ["metadata"; "annotations"])) ∪ cl_Annotations c)
    (match nested body ["spec"] with Some p => merged p (cl_Spec c) | None => cl_Spec c end) (cl_Status c).

(** The cluster; the answers of the next patches ([false] is a failure, and they
    succeed after); whether a volume is left. *)
Record world := mkWorld { log : list gcall; cluster : option Cluster; patches : list bool; volume_left : bool }.
Definition note (x : gcall) (w : world) : world := mkWorld (log w ++ [x]) (cluster w) (patches w) (volume_left w).
Definition set_cluster (c : Cluster) (w : world) : world := mkWorld (log w) (Some c) (patches w) (volume_left w).
Definition missing_err : apierr := ApiErr "not found" true false.
Definition mebibytes (s : string) : result string Z :=
  let l := to_bytes s in
  let n := (length l - 2)%nat in
  let unit := of_bytes (drop n l) in
  match parse_nat (take n l) with
  | None => inl "quantities must match the regular expression"
  | Some z => if bool_decide (unit = "Mi") then inr z else if bool_decide (unit = "Gi") then inr (1024 * z) else if bool_decide (unit = "Ti") then inr (1048576 * z)
              else inl "quantities must match the regular expression"
  end.

#[local] Instance mem_postgres : PostgresWorld world := {|
  pg_get := fun k w => let r := match cluster w with Some c => inr c | None => inl (KindErr missing_err false) end in (r, note (GGet k r) w);
  pg_create := fun c w =>
    let c' := mkCluster (cl_Namespace c) (cl_Name c) "uid-1" (cl_Labels c) (cl_Annotations c) (cl_Spec c) "" in
    (inr c', note (GCreate c (inr c')) (set_cluster c' w));
  pg_merge := fun c body w =>
    if default true (head (patches w)) then
      let c' := stored_merge body (default c (cluster w)) in (inr c', note (GMerge c body (inr c')) (mkWorld (log w) (Some c') (tail (patches w)) (volume_left w)))
    else (inl "connection reset", note (GMerge c body (inl "connection reset")) (mkWorld (log w) (cluster w) (tail (patches w)) (volume_left w)));
  pvc_get := fun k w => let r := if volume_left w then None else Some missing_err in (r, note (GVolume k r) w);
  bucket_get := fun k w => (inl missing_err, note (GBucketGet k (inl missing_err)) w);
  bucket_create := fun b w => (None, note (GBucketCreate b None) w);
  bucket_merge := fun b y w => (None, note (GBucketMerge b y None) w);
  pg_secret := fun _ w => (inr {["username" := "shop"; "password" := "s3cret"]}, w);
  pg_forbidden := fun _ => false;
  quantity := mebibytes
|}.
#[local] Instance mem_traced_pg : TracedPostgres world.
Proof. refine {| gcalls := log |}; try done. intros w c b. cbn. by destruct (default true (head (patches w))). Defined.

Definition shop (params : strmap) : FrameService :=
  mkService "apps" "shop-db" 1 false [] (mkServiceSpec "postgres" params "MEDIUM" (mkBindingSpec "" []) "Retain")
    (mkServiceStatus 0 [] (mkBindingStatus None "" []) (mkSizing "" "" "" "") []).
Definition creating : FrameService := shop {["instances" := "2"; "volumeSize" := "5Gi"; "create" := "true"]}.
Definition empty (patches : list bool) : world := mkWorld [] None patches false.
Definition reason_of (r : result string Result) : string := match r with inl e => e | inr x => rs_Reason x end.
Definition pass (svc : FrameService) (w : world) : string * world := let '(r, w) := Reconcile_pg svc w in (reason_of r, w).
(** The operator brings the cluster up. *)
Definition run_operator (w : world) : world :=
  match cluster w with Some c => set_cluster (mkCluster (cl_Namespace c) (cl_Name c) (cl_UID c) (cl_Labels c) (cl_Annotations c) (cl_Spec c) runningStatus) w | None => w end.
Definition spec_writes (w : world) : list any := omap (fun x => match x with GMerge _ body _ => nested body ["spec"] | _ => None end) (log w).

(** A new service creates its cluster, then reports what the operator says, and writes
    no more to it. *)
Example created_once :
  let '(r1, w1) := pass creating (empty []) in
  let '(r2, w2) := pass creating (run_operator w1) in
  (r1, r2, spec_writes w2) = (ReasonProvisioning, ReasonRunning, []).
Proof. by vm_compute. Qed.

(** The claim is a second write after the creation. When it fails, the cluster the
    service has just created carries its label and not its UID: every later pass says
    it is not this service's, and waits for a person to give its UID. *)
Theorem created_then_disowned :
  let '(_, w1) := pass creating (empty [false]) in
  let '(r2, w2) := pass creating (run_operator w1) in
  let '(r3, _) := pass creating w2 in
  (r2, r3) = (ReasonNotOwned, ReasonNotOwned).
Proof. by vm_compute. Qed.

(** A two-instance cluster some chart made, and the parameters that describe it. *)
Definition live_two : Cluster :=
  mkCluster "apps" "shop-db" "uid-9" ∅ ∅
    (AMap [("databases", AMap [("shop", AStr "shop")]); ("numberOfInstances", AInt 2); ("postgresql", AMap [("version", AStr "18")]); ("teamId", AStr "shop");
           ("users", AMap [("shop", AList [AStr "createdb"])]); ("volume", AMap [("size", AStr "5Gi")])]) runningStatus.
Definition adopting : FrameService := shop {["instances" := "2"; "volumeSize" := "5Gi"; "adoptUID" := "uid-9"]}.

(** The pass that adopts it writes its spec: the spread of the instances, which the
    comparison before an adoption leaves out. *)
Theorem adoption_writes_spec :
  let '(r, w) := pass adopting (mkWorld [] (Some live_two) [] false) in
  r = ReasonProvisioning /\ map (fun v => match v with AMap l => map fst l | _ => [] end) (spec_writes w) = [["topologySpreadConstraints"]].
Proof. by vm_compute. Qed.

(** ** Witnesses *)

Lemma created_is_described_witness : driftOf (newCluster creating (mkSettings "shop" "18" "shop" "shop" "" 2 "5Gi" [] "" "" "14" "" true false))
  (mkSettings "shop" "18" "shop" "shop" "" 2 "5Gi" [] "" "" "14" "" true false) = [].
Proof. exact (proj1 (created_is_described (newCluster creating _) creating _ 5120 eq_refl eq_refl)). Defined.

Lemma admitted_settings_witness : exists s, settingsOf creating = Some s /\ 1 <= st_instances s <= 9 /\ size_pattern (st_volumeSize s) = true.
Proof.
  apply admitted_settings; [|vm_compute; discriminate].
  assert (check_params ParameterSchema (map_to_list (sv_Parameters (sv_Spec creating))) = None) as Hp by (vm_compute; reflexivity).
  assert (check_required (js_Required ParameterSchema) (sv_Parameters (sv_Spec creating)) = None) as Hr by (vm_compute; reflexivity).
  split; [by apply check_required_ok|]. intros k v Hkv%elem_of_map_to_list. exact (proj1 (check_params_ok _ _) Hp k v Hkv).
Defined.
