(* ===== verification/FrameJobs.v ===== *)
(** internal/controller/frame/framejob_controller.go and framejob_container.go, with
    helpers.go: the reconciler that runs a FrameJob as an Argo Workflow, a batch/v1 Job
    or a Volcano Job of its own name, follows that object's status and deletes it with
    the FrameJob; and the mutating and validating webhook of FrameJob.

    The API server, apimachinery's converter and condition helpers and Go's order over
    a map are the methods of [JobsApi]; log lines are left out. *)
From stdpp Require Import base tactics strings list gmap.
From Stdlib Require Import ZArith Lia.
From S2P Require Import Prelude GoLib GoTime Kube Cluster StorageAlerts V1beta1 SchedulingPolicy Unstructured.

Open Scope Z_scope.

(** ** Constants *)

Definition frameJobFinalizer : string := "frame.plume-labs.io/framejob".
Definition jobPhaseSubmitted : string := "Submitted".
Definition jobPhaseRunning : string := "Running".
Definition jobPhaseSuspended : string := "Suspended".
Definition jobPhaseCompleted : string := "Completed".
Definition jobPhaseFailed : string := "Failed".
Definition podStateError : string := "Error".
Definition conditionTypeReady : string := "Ready".
Definition conditionTypeSchedulingPolicy : string := "SchedulingPolicyResolved".
Definition conditionTypeSuspendApplied : string := "SuspendApplied".
Definition WorkloadTypeBatch : string := "batch".
Definition argoWorkflowGVK : GVK := mkGVK "argoproj.io" "v1alpha1" "Workflow".
Definition batchJobGVK : GVK := mkGVK "batch" "v1" "Job".
Definition volcanoJobGVK : GVK := mkGVK "batch.volcano.sh" "v1alpha1" "Job".
Definition label_job : string := "frame.plume-labs.io/job".
Definition label_job_namespace : string := "frame.plume-labs.io/job-namespace".
Definition label_pipeline : string := "frame.plume-labs.io/pipeline".
Definition label_service_class : string := "frame.plume-labs.io/service-class".
Definition label_workload_type : string := "frame.plume-labs.io/workload-type".
Definition poll : Z := 30 * second.

Definition conditionStatus (ok : bool) : string := if ok then "True" else "False".

(** ** A workload's phase *)

Definition workflowPhase (wf : any) (suspended : bool) : string :=
  let phase := nested_string wf ["status"; "phase"] in
  if suspended && (bool_decide (phase = jobPhaseRunning) || bool_decide (phase = "")) then jobPhaseSuspended
  else if bool_decide (phase = "Succeeded") then jobPhaseCompleted
  else if bool_decide (phase = jobPhaseFailed) || bool_decide (phase = podStateError) then jobPhaseFailed
  else if bool_decide (phase = jobPhaseRunning) then jobPhaseRunning
  else jobPhaseSubmitted.

Definition workflowMessage (wf : any) : string := nested_string wf ["status"; "message"].

(** The first terminal condition that is True. *)
Fixpoint terminal_condition (cs : list any) : option string :=
  match cs with
  | [] => None
  | AMap cm :: cs =>
    if bool_decide (nested_string (AMap cm) ["status"] <> "True") then terminal_condition cs
    else if bool_decide (nested_string (AMap cm) ["type"] = "Complete") then Some jobPhaseCompleted
    else if bool_decide (nested_string (AMap cm) ["type"] = "Failed") then Some jobPhaseFailed
    else terminal_condition cs
  | _ :: cs => terminal_condition cs
  end.
Definition batchJobPhase (job : any) (suspended : bool) : string :=
  match terminal_condition (nested_slice job ["status"; "conditions"]) with
  | Some phase => phase
  | None =>
    if suspended then jobPhaseSuspended
    else if 0 <? nested_int64 job ["status"; "active"] then jobPhaseRunning
    else jobPhaseSubmitted
  end.

Definition volcanoJobPhase (job : any) : string :=
  let phase := nested_string job ["status"; "state"; "phase"] in
  if bool_decide (phase = "Completed") then jobPhaseCompleted
  else if bool_decide (phase ∈ ["Failed"; "Terminating"; "Terminated"; "Aborting"; "Aborted"]) then jobPhaseFailed
  else if bool_decide (phase ∈ ["Running"; "Restarting"; "Completing"]) then jobPhaseRunning
  else jobPhaseSubmitted.

Fixpoint condition_message (cs : list any) : string :=
  match cs with
  | [] => ""
  | AMap cm :: cs =>
    let msg := nested_string (AMap cm) ["message"] in
    if bool_decide (nested_string (AMap cm) ["status"] = "True") && bool_decide (msg <> "") then msg else condition_message cs
  | _ :: cs => condition_message cs
  end.
Definition containerObjectMessage (obj : any) (gvk : GVK) : string :=
  if bool_decide (gvk_Group gvk = gvk_Group volcanoJobGVK) then nested_string obj ["status"; "state"; "message"]
  else condition_message (nested_slice obj ["status"; "conditions"]).

Definition containerObjectGVK (t : string) : GVK := if bool_decide (t = WorkloadTypeBatch) then volcanoJobGVK else batchJobGVK.
Definition schedulingPolicyNameForType (t : string) : string := "frame-" +:+ t.

(** workflowToFrameJob: (namespace, name). *)
Definition workflowToFrameJob (labels : strmap) : list NamespacedName :=
  let name := at_key labels label_job in
  let ns := at_key labels label_job_namespace in
  if bool_decide (name = "") || bool_decide (ns = "") then [] else [(ns, name)].

(** A map of strings as an unstructured value, and metadata.labels of an object. *)
Definition any_of (m : strmap) : any := AMap (foldr (fun e l => put e.1 (AStr e.2) l) [] (map_to_list m)).
Definition entry_string (e : string * any) : option (string * string) := match e.2 with AStr s => Some (e.1, s) | _ => None end.
Definition labels_of (obj : any) : strmap := list_to_map (omap entry_string (nested_map obj ["metadata"; "labels"])).

Section Jobs.
Context `{F : Foreign}.

(** ** Data *)

Record JobStatus := mkJobStatus {
  jt_observed : Z;
  jt_conditions : list Condition;
  jt_workflow : string;
  jt_containerName : string;
  jt_containerKind : string;
  jt_start : option time;
  jt_completion : option time;
  jt_message : string
}.
Record Job := mkJob {
  jb_Namespace : string;
  jb_Name : string;
  jb_Labels : strmap;
  jb_Generation : Z;
  jb_Finalizers : list string;
  jb_Deleting : bool;
  jb_Spec : FrameJobSpec;
  jb_Status : JobStatus
}.
Definition jb_key (j : Job) : NamespacedName := (jb_Namespace j, jb_Name j).
Definition set_jb_finalizers (j : Job) (fs : list string) : Job :=
  mkJob (jb_Namespace j) (jb_Name j) (jb_Labels j) (jb_Generation j) fs (jb_Deleting j) (jb_Spec j) (jb_Status j).
Definition set_jb_status (j : Job) (s : JobStatus) : Job :=
  mkJob (jb_Namespace j) (jb_Name j) (jb_Labels j) (jb_Generation j) (jb_Finalizers j) (jb_Deleting j) (jb_Spec j) s.
Definition suspended_of (j : Job) : bool := js_Suspended (jb_Spec j).

(** corev1.PodSpec as far as buildContainerObject sets it. *)
Record Container := mkMain {
  cn_Name : string; cn_Image : string; cn_Command : option (list string); cn_Args : option (list string);
  cn_Env : option (list EnvVar); cn_EnvFrom : option (list EnvFromSource); cn_Resources : ResourceRequirements
}.
Record PodSpec := mkPodSpec { po_RestartPolicy : string; po_Containers : list Container }.

(** [wl_*] act on the workloads; a patch answers with the object as stored.
    [policy_get] reads the spec of a SchedulingPolicy, [range_map] is the order Go
    ranges over a map in, [to_unstructured] DefaultUnstructuredConverter.ToUnstructured,
    [count_job] the counter of a terminal phase. *)
Class JobsApi (W : Type) := {
  fj_get : NamespacedName -> St W (result apierr Job);
  fj_update : Job -> St W (option apierr);
  fj_patch_status : Job -> Job -> St W (option apierr);
  wl_get : GVK -> NamespacedName -> St W (result apierr any);
  wl_create : any -> St W (option apierr);
  wl_patch : any -> any -> St W (result apierr any);
  wl_delete : GVK -> NamespacedName -> St W (option kinderr);
  policy_get : NamespacedName -> St W (result apierr SchedulingPolicySpec);
  fj_event : NamespacedName -> Event -> St W unit;
  count_job : string -> St W unit;
  fj_now : St W time;
  range_map : strmap -> St W (list (string * string));
  to_unstructured : PodSpec -> result string (list (string * any));
  fj_contains_finalizer : list string -> string -> bool;
  fj_add_finalizer : list string -> string -> list string;
  fj_remove_finalizer : list string -> string -> list string;
  set_cond : list Condition -> Condition -> list Condition;   (* meta.SetStatusCondition *)
  find_cond : list Condition -> string -> option Condition    (* meta.FindStatusCondition *)
}.

(** ** The objects *)

Definition priority_of (j : Job) : string := PriorityClassForJobPriority (js_Priority (jb_Spec j)).
Definition with_priority (j : Job) (l : list (string * any)) : list (string * any) :=
  if bool_decide (priority_of j <> "") then put "priorityClassName" (AStr (priority_of j)) l else l.
Definition metadata (j : Job) (labels : any) : any :=
  AMap [("labels", labels); ("name", AStr (jb_Name j)); ("namespace", AStr (jb_Namespace j))].
Definition param_of (e : string * string) : any := AMap [("name", AStr e.1); ("value", AStr e.2)].

Definition workflow_labels (j : Job) : strmap :=
  {[label_job := jb_Name j; label_job_namespace := jb_Namespace j; label_pipeline := js_Pipeline (jb_Spec j); label_service_class := js_ServiceClass (jb_Spec j)]}.
(** [range] is spec.parameters in the order Go ranges over it. *)
Definition buildWorkflow (j : Job) (range : list (string * string)) : any :=
  let s := jb_Spec j in
  let params := (param_of ("gpu-count", itoa (js_GPUCount s)) :: param_of ("service-class", js_ServiceClass s) :: map param_of range)%list in
  AMap [("apiVersion", AStr "argoproj.io/v1alpha1"); ("kind", AStr "Workflow"); ("metadata", metadata j (any_of (workflow_labels j)));
        ("spec", AMap (with_priority j [("arguments", AMap [("parameters", AList params)]); ("suspend", ABool (js_Suspended s));
                                        ("workflowTemplateRef", AMap [("name", AStr (js_Pipeline s))])]))].

Definition pod_template (labels : any) (podSpec : list (string * any)) : any :=
  AMap [("metadata", AMap [("labels", labels)]); ("spec", AMap podSpec)].
Definition buildBatchJob (j : Job) (podSpec : list (string * any)) (labels : any) : any :=
  AMap [("apiVersion", AStr "batch/v1"); ("kind", AStr "Job"); ("metadata", metadata j labels);
        ("spec", AMap [("backoffLimit", AInt 0); ("suspend", ABool (suspended_of j)); ("template", pod_template labels (with_priority j podSpec))])].

(** The FrameJob's own labels, under those of Frame. *)
Definition container_labels (j : Job) : strmap :=
  <[label_job := jb_Name j]> (<[label_job_namespace := jb_Namespace j]> (<[label_service_class := js_ServiceClass (jb_Spec j)]>
    (<[label_workload_type := js_Type (jb_Spec j)]> (jb_Labels j)))).
Definition pod_of (c : ContainerSpec) : PodSpec :=
  mkPodSpec "Never" [mkMain "main" (cs_Image c) (cs_Command c) (cs_Args c) (cs_Env c) (cs_EnvFrom c) (cs_Resources c)].

Section Controller.
Context {W : Type} {JA : JobsApi W}.

Definition readyReason (cs : list Condition) : string := match find_cond cs conditionTypeReady with Some c => c_Reason c | None => "" end.
Definition suspendAppliedReason (cs : list Condition) : string := match find_cond cs conditionTypeSuspendApplied with Some c => c_Reason c | None => "" end.

Definition ready_of (j : Job) (phase message : string) : Condition :=
  mkCondition conditionTypeReady (conditionStatus (bool_decide (phase = jobPhaseCompleted))) phase message (jb_Generation j).
Definition setJobReady (j : Job) (phase message : string) (cs : list Condition) : list Condition := set_cond cs (ready_of j phase message).

Definition volcano_object (j : Job) (podSpec : list (string * any)) (labels : any) (queueName : string) : any :=
  let spec := [("minAvailable", AInt 1); ("schedulerName", AStr "volcano");
               ("tasks", AList [AMap [("name", AStr "main"); ("replicas", AInt 1); ("template", pod_template labels podSpec)]])] in
  let spec := if bool_decide (queueName <> "") then put "queue" (AStr queueName) spec else spec in
  AMap [("apiVersion", AStr "batch.volcano.sh/v1alpha1"); ("kind", AStr "Job"); ("metadata", metadata j labels); ("spec", AMap (with_priority j spec))].
Definition buildVolcanoJob (j : Job) (podSpec : list (string * any)) (labels : any) : St W (result apierr (any * Condition)) :=
  let policyName := schedulingPolicyNameForType (js_Type (jb_Spec j)) in
  r ← policy_get (jb_Namespace j, policyName);
  let cond status reason msg := mkCondition conditionTypeSchedulingPolicy status reason msg (jb_Generation j) in
  mret match r with
  | inr sp =>
    let queueName := ps_QueueName sp in
    inr (volcano_object j podSpec labels queueName,
         if bool_decide (queueName <> "") then cond "True" "Applied" ("using queue " +:+ quote queueName +:+ " from SchedulingPolicy " +:+ quote policyName)
         else cond "False" "NoQueueConfigured" ("SchedulingPolicy " +:+ quote policyName +:+ " sets no queueName; falling back to Volcano's default queue"))
  | inl e =>
    if err_notfound e then inr (volcano_object j podSpec labels "",
      cond "False" "PolicyNotFound" ("no SchedulingPolicy named " +:+ quote policyName +:+ "; falling back to Volcano's default queue"))
    else inl (wrap_err ("looking up SchedulingPolicy " +:+ quote policyName) e)
  end.

Definition buildContainerObject (j : Job) (c : ContainerSpec) : St W (result apierr (any * option Condition)) :=
  match to_unstructured (pod_of c) with
  | inl e => mret (inl (plain_err ("converting pod spec: " +:+ e)))
  | inr podSpec =>
    let labels := any_of (container_labels j) in
    if bool_decide (js_Type (jb_Spec j) = WorkloadTypeBatch) then
      r ← buildVolcanoJob j podSpec labels;
      mret (match r with inl e => inl e | inr (obj, cond) => inr (obj, Some cond) end)
    else mret (inr (buildBatchJob j podSpec labels, None))
  end.

(** ** The reconciler *)

(** A pass answers with the time to its next one, 0 for none, and its error. *)
Definition outcome : Type := Z * option apierr.
Definition failed (e : apierr) : outcome := (0, Some e).

(** Its error is only logged: what is left of the object. *)
Definition syncSuspend (wf : any) (suspended : bool) : St W any :=
  if Bool.eqb (nested_bool wf ["spec"; "suspend"]) suspended then mret wf
  else match set_nested wf ["spec"; "suspend"] (ABool suspended) with
       | None => mret wf
       | Some wf' => r ← wl_patch wf wf'; mret (match r with inr o => o | inl _ => wf' end)
       end.

Definition terminal (phase : string) : bool := bool_decide (phase = jobPhaseCompleted) || bool_decide (phase = jobPhaseFailed).

(** The status written when a workload was created. *)
Definition started (j : Job) (now : time) (workflow name kind : string) (cond : option Condition) (msg : string) : Job :=
  let s := jb_Status j in
  let cs := match cond with Some c => set_cond (jt_conditions s) c | None => jt_conditions s end in
  set_jb_status j (mkJobStatus (jb_Generation j) (setJobReady j jobPhaseSubmitted msg cs) workflow name kind (Some now) (jt_completion s) (jt_message s)).

(** The status written when the phase, the suspension's state or the generation moved. *)
Definition reported (j : Job) (completion : option time) (phaseChanged : bool) (phase message : string) (suspend : option Condition) : Job :=
  let s := jb_Status j in
  let cs := if phaseChanged then setJobReady j phase message (jt_conditions s) else jt_conditions s in
  let cs := match suspend with Some c => set_cond cs c | None => cs end in
  set_jb_status j (mkJobStatus (jb_Generation j) cs (jt_workflow s) (jt_containerName s) (jt_containerKind s) (jt_start s)
    completion (if phaseChanged then message else jt_message s)).

(** The end of a pass that found the workload. *)
Definition report (j : Job) (phase message : string) (suspend : option Condition) : St W outcome :=
  let s := jb_Status j in
  let phaseChanged := bool_decide (readyReason (jt_conditions s) <> phase) in
  let suspendChanged := match suspend with Some c => bool_decide (suspendAppliedReason (jt_conditions s) <> c_Reason c) | None => false end in
  let over : outcome := (if terminal phase then 0 else poll, None) in
  if phaseChanged || suspendChanged || negb (jt_observed s =? jb_Generation j) then
    completion ← (if phaseChanged && terminal phase then now ← fj_now; mret (Some now) else mret (jt_completion s));
    e ← fj_patch_status j (reported j completion phaseChanged phase message suspend);
    match e with
    | Some e => mret (failed e)
    | None =>
      if phaseChanged then
        _ ← fj_event (jb_key j) (mkEvent (if bool_decide (phase = jobPhaseFailed) then EventTypeWarning else EventTypeNormal)
              ("Phase" +:+ phase) ("Job phase changed to " +:+ phase));
        _ ← (if terminal phase then count_job phase else mret tt);
        mret over
      else mret over
    end
  else mret over.

(** A created object is told of and recorded. *)
Definition record_created (j : Job) (reason msg workflow name kind : string) (cond : option Condition) : St W outcome :=
  _ ← fj_event (jb_key j) (mkEvent EventTypeNormal reason msg);
  now ← fj_now;
  e ← fj_patch_status j (started j now workflow name kind cond msg);
  mret (poll, e).

Definition reconcilePipeline (j : Job) : St W outcome :=
  r ← wl_get argoWorkflowGVK (jb_key j);
  match r with
  | inl e =>
    if negb (err_notfound e) then mret (failed e) else
    range ← range_map (default ∅ (js_Parameters (jb_Spec j)));
    e ← wl_create (buildWorkflow j range);
    match e with
    | Some e => mret (failed (wrap_err "creating ArgoWorkflow" e))
    | None =>
      let s := jb_Status j in
      record_created j "WorkflowCreated" ("ArgoWorkflow " +:+ jb_Namespace j +:+ "/" +:+ jb_Name j +:+ " created") (jb_Name j) (jt_containerName s) (jt_containerKind s) None
    end
  | inr existing =>
    existing ← syncSuspend existing (suspended_of j);
    report j (workflowPhase existing (suspended_of j)) (workflowMessage existing) None
  end.

Definition kind_text (gvk : GVK) : string := gvk_Kind gvk +:+ "." +:+ gvk_Group gvk.
Definition held_message : string := "creation held: spec.suspended is true".
Definition held (j : Job) : Job :=
  let s := jb_Status j in
  set_jb_status j (mkJobStatus (jb_Generation j) (setJobReady j jobPhaseSuspended held_message (jt_conditions s)) (jt_workflow s) (jt_containerName s) (jt_containerKind s)
    (jt_start s) (jt_completion s) (jt_message s)).
Definition suspend_condition (j : Job) : Condition :=
  if suspended_of j then mkCondition conditionTypeSuspendApplied "False" "VolcanoLiveSuspendUnsupported"
    "spec.suspended=true has no effect on a Volcano Job that has already started; Volcano has no live pause primitive (volcano-sh/volcano#3875)" (jb_Generation j)
  else mkCondition conditionTypeSuspendApplied "True" "NotRequested" "" (jb_Generation j).

Definition create_container (j : Job) (c : ContainerSpec) : St W outcome :=
  let gvk := containerObjectGVK (js_Type (jb_Spec j)) in
  b ← buildContainerObject j c;
  match b with
  | inl e => mret (failed (wrap_err "building container object" e))
  | inr (obj, schedCond) =>
    e ← wl_create obj;
    match e with
    | Some e => mret (failed (wrap_err ("creating " +:+ kind_text gvk) e))
    | None =>
      record_created j "WorkloadCreated" (kind_text gvk +:+ " " +:+ jb_Namespace j +:+ "/" +:+ jb_Name j +:+ " created") (jt_workflow (jb_Status j)) (jb_Name j) (kind_text gvk) schedCond
    end
  end.

Definition reconcileContainer (j : Job) (c : ContainerSpec) : St W outcome :=
  let gvk := containerObjectGVK (js_Type (jb_Spec j)) in
  r ← wl_get gvk (jb_key j);
  match r with
  | inl e =>
    if negb (err_notfound e) then mret (failed e)
    else if suspended_of j then e ← fj_patch_status j (held j); mret (poll, e)
    else create_container j c
  | inr existing =>
    if bool_decide (js_Type (jb_Spec j) = WorkloadTypeBatch) then
      report j (volcanoJobPhase existing) (containerObjectMessage existing gvk) (Some (suspend_condition j))
    else
      existing ← syncSuspend existing (suspended_of j);
      report j (batchJobPhase existing (suspended_of j)) (containerObjectMessage existing gvk) None
  end.

Definition release_job (j : Job) : St W outcome :=
  e ← fj_update (set_jb_finalizers j (fj_remove_finalizer (jb_Finalizers j) frameJobFinalizer));
  mret (0, e).
Definition reconcileContainerDelete (j : Job) : St W outcome :=
  e ← wl_delete (containerObjectGVK (js_Type (jb_Spec j))) (jb_key j);
  match e with
  | Some e => if err_notfound (ke_err e) || ke_nomatch e then release_job j else mret (failed (ke_err e))
  | None => release_job j
  end.
Definition reconcileDelete (j : Job) : St W outcome :=
  match js_Container (jb_Spec j) with
  | Some _ => reconcileContainerDelete j
  | None =>
    e ← wl_delete argoWorkflowGVK (jb_key j);
    match ignore_not_found (ke_err <$> e) with
    | Some e => mret (failed e)
    | None => release_job j
    end
  end.

Definition Reconcile (key : NamespacedName) : St W outcome :=
  r ← fj_get key;
  match r with
  | inl e => mret (0, ignore_not_found (Some e))
  | inr j =>
    if jb_Deleting j then reconcileDelete j
    else if negb (fj_contains_finalizer (jb_Finalizers j) frameJobFinalizer) then
      e ← fj_update (set_jb_finalizers j (fj_add_finalizer (jb_Finalizers j) frameJobFinalizer));
      mret (0, e)
    else match js_Container (jb_Spec j) with
         | Some c => reconcileContainer j c
         | None => reconcilePipeline j
         end
  end.

End Controller.

(** ** framejob_webhook.go *)

Definition set_jb_spec (j : Job) (s : FrameJobSpec) : Job :=
  mkJob (jb_Namespace j) (jb_Name j) (jb_Labels j) (jb_Generation j) (jb_Finalizers j) (jb_Deleting j) s (jb_Status j).
Definition Default_job (j : Job) : Job :=
  let s := jb_Spec j in
  set_jb_spec j (mkFJSpec (js_Pipeline s) (js_Container s) (js_Type s) (if bool_decide (js_ServiceClass s = "") then "LOW" else js_ServiceClass s)
    (if bool_decide (js_Priority s = "") then "medium" else js_Priority s) (js_GPUCount s) (js_Parameters s) (js_Suspended s)).
Definition knownPipelines : list string := ["inference-dag"; "speculative-decoding"; "training-dag"].
(** The warnings; a FrameJob is never refused here. *)
Definition validateFrameJob (j : Job) : list string :=
  let p := js_Pipeline (jb_Spec j) in
  if bool_decide (p = "") then []
  else if bool_decide (p ∈ knownPipelines) then []
  else ["pipeline " +:+ quote p +:+ " not in known list [" +:+ join " " (sort_strings knownPipelines) +:+ "]; ensure WorkflowTemplate exists"].

End Jobs.
