(* ===== verification/FrameJobsSafety.v ===== *)
(** What a pass over a FrameJob may do, call by call on the evidence of the answers
    before: a workload is created only where none was found, deleted only with its
    FrameJob, a phase reported only as the workload told it; and an event on an object
    the builders made goes back to the FrameJob it was made for; and runs on an in-memory API server. *)
From stdpp Require Import base tactics strings list gmap.
From Stdlib Require Import ZArith Lia.
From S2P Require Import Prelude Trace GoLib GoTime Kube Cluster StorageAlerts V1alpha1 V1beta1 SchedulingPolicy Unstructured FrameJobs.

Open Scope Z_scope.

(** ** Labels *)

Lemma field_any_of (l : list (string * string)) k :
  field (foldr (fun e l => put e.1 (AStr e.2) l) [] l) k = AStr <$> (list_to_map l : strmap) !! k.
Proof.
  induction l as [|[a x] l IH]; [done|]. cbn [foldr fst snd list_to_map]. rewrite field_put, IH. destruct (decide (k = a)) as [->|H]; cbn.
  - by rewrite lookup_insert_eq.
  - by rewrite lookup_insert_ne.
Qed.

Definition all_strings (l : list (string * any)) : Prop := Forall (fun e => exists s, e.2 = AStr s) l.
Lemma put_strings k s l : all_strings l -> all_strings (put k (AStr s) l).
Proof.
  unfold all_strings. induction 1 as [|[a x] l Hx Hl IH]; cbn; [by repeat constructor; eexists|].
  case_bool_decide; [|destruct (str_leb k a)]; repeat (constructor; eauto); cbn; eauto.
Qed.
Lemma any_of_strings (l : list (string * string)) : all_strings (foldr (fun e l => put e.1 (AStr e.2) l) [] l).
Proof. induction l as [|[a x] l IH]; cbn; [constructor|]. by apply put_strings. Qed.

Lemma strings_lookup l k : all_strings l -> (list_to_map (omap entry_string l) : strmap) !! k = match field l k with Some (AStr s) => Some s | _ => None end.
Proof.
  induction 1 as [|[a x] l [s Hs] Hl IH]; [done|]. cbn in Hs. subst. cbn. case_bool_decide as H.
  - subst. by rewrite lookup_insert_eq.
  - by rewrite lookup_insert_ne.
Qed.

Lemma labels_any_of (m : strmap) : list_to_map (omap entry_string (foldr (fun e l => put e.1 (AStr e.2) l) [] (map_to_list m))) = m.
Proof.
  apply map_eq. intros k. rewrite (strings_lookup _ _ (any_of_strings _)), field_any_of, list_to_map_to_list. by destruct (m !! k).
Qed.

(** ** The calls *)

Section Calls.
Context `{F : Foreign}.

Inductive jcall : Type :=
| JGet (k : NamespacedName) (r : result apierr Job)
| JUpdate (j : Job) (e : option apierr)
| JStatus (base new : Job) (e : option apierr)
| JLook (gvk : GVK) (k : NamespacedName) (r : result apierr any)
| JCreate (obj : any) (e : option apierr)
| JPatch (old new : any) (r : result apierr any)
| JDelete (gvk : GVK) (k : NamespacedName) (e : option kinderr)
| JPolicy (k : NamespacedName) (r : result apierr SchedulingPolicySpec)
| JEvent (k : NamespacedName) (ev : Event)
| JCount (phase : string).

Class TracedJobs (W : Type) {JA : JobsApi W} := {
  jcalls : W -> list jcall;
  j_get w k : jcalls (fj_get k w).2 = (jcalls w ++ [JGet k (fj_get k w).1])%list;
  j_update w j : jcalls (fj_update j w).2 = (jcalls w ++ [JUpdate j (fj_update j w).1])%list;
  j_status w b n : jcalls (fj_patch_status b n w).2 = (jcalls w ++ [JStatus b n (fj_patch_status b n w).1])%list;
  j_look w g k : jcalls (wl_get g k w).2 = (jcalls w ++ [JLook g k (wl_get g k w).1])%list;
  j_create w o : jcalls (wl_create o w).2 = (jcalls w ++ [JCreate o (wl_create o w).1])%list;
  j_patch w o n : jcalls (wl_patch o n w).2 = (jcalls w ++ [JPatch o n (wl_patch o n w).1])%list;
  j_delete w g k : jcalls (wl_delete g k w).2 = (jcalls w ++ [JDelete g k (wl_delete g k w).1])%list;
  j_policy w k : jcalls (policy_get k w).2 = (jcalls w ++ [JPolicy k (policy_get k w).1])%list;
  j_event w k e : jcalls (fj_event k e w).2 = (jcalls w ++ [JEvent k e])%list;
  j_count w p : jcalls (count_job p w).2 = (jcalls w ++ [JCount p])%list;
  j_now w : jcalls (fj_now w).2 = jcalls w;
  j_range w m : jcalls (range_map m w).2 = jcalls w
}.

(** meta.SetStatusCondition replaces the condition of the type it is given, and
    meta.FindStatusCondition finds it. *)
Class CondLaws (W : Type) {JA : JobsApi W} := {
  find_set cs c t : find_cond (set_cond cs c) t = if bool_decide (c_Type c = t) then Some c else find_cond cs t
}.

(** ** What each call needs *)

(** What a job is run as: an Argo Workflow; with a container, a batch/v1 Job, or a
    Volcano Job when its type is batch. *)
Definition is_container (j : Job) : Prop := js_Container (jb_Spec j) <> None.
Definition is_volcano (j : Job) : Prop := is_container j /\ js_Type (jb_Spec j) = "batch".
#[local] Instance is_container_dec j : Decision (is_container j).
Proof. unfold is_container. destruct (js_Container (jb_Spec j)); [left|right]; congruence. Defined.
#[local] Instance is_volcano_dec j : Decision (is_volcano j).
Proof. unfold is_volcano. apply _. Defined.
Definition kind_of (j : Job) : GVK :=
  if decide (is_volcano j) then mkGVK "batch.volcano.sh" "v1alpha1" "Job" else if decide (is_container j) then mkGVK "batch" "v1" "Job" else mkGVK "argoproj.io" "v1alpha1" "Workflow".

(** A batch/v1 Job's conditions say it is over: the first that is True and terminal is
    of type [type]. *)
Definition true_of (type : string) (c : any) : Prop := (exists l, c = AMap l) /\ nested_string c ["status"] = "True" /\ nested_string c ["type"] = type.
Definition goes_on (c : any) : Prop := ~ true_of "Complete" c /\ ~ true_of "Failed" c.
Definition over_as (job : any) (type : string) : Prop :=
  exists before c after, nested_slice job ["status"; "conditions"] = (before ++ c :: after)%list /\ Forall goes_on before /\ true_of type c.
Definition not_over (job : any) : Prop := Forall goes_on (nested_slice job ["status"; "conditions"]).

(** The phase a workload of the job's kind tells: the words of Argo, of batch/v1 and of
    Volcano in those of a FrameJob. *)
Definition argo_word (obj : any) : string := nested_string obj ["status"; "phase"].
Definition volcano_word (obj : any) : string := nested_string obj ["status"; "state"; "phase"].
Definition tells (j : Job) (obj : any) (phase : string) : Prop :=
  if decide (is_volcano j) then
    (phase = "Completed" /\ volcano_word obj = "Completed") \/
    (phase = "Failed" /\ volcano_word obj ∈ ["Failed"; "Terminating"; "Terminated"; "Aborting"; "Aborted"]) \/
    (phase = "Running" /\ volcano_word obj ∈ ["Running"; "Restarting"; "Completing"]) \/
    (phase = "Submitted" /\ volcano_word obj ∉ ["Completed"; "Failed"; "Terminating"; "Terminated"; "Aborting"; "Aborted"; "Running"; "Restarting"; "Completing"])
  else if decide (is_container j) then
    (phase = "Completed" /\ over_as obj "Complete") \/ (phase = "Failed" /\ over_as obj "Failed") \/
    (phase = "Suspended" /\ not_over obj /\ js_Suspended (jb_Spec j) = true) \/
    (phase = "Running" /\ not_over obj /\ js_Suspended (jb_Spec j) = false /\ 0 < nested_int64 obj ["status"; "active"]) \/
    (phase = "Submitted" /\ not_over obj /\ js_Suspended (jb_Spec j) = false /\ nested_int64 obj ["status"; "active"] <= 0)
  else
    (phase = "Completed" /\ argo_word obj = "Succeeded") \/ (phase = "Failed" /\ argo_word obj ∈ ["Failed"; "Error"]) \/
    (phase = "Suspended" /\ js_Suspended (jb_Spec j) = true /\ argo_word obj ∈ ["Running"; ""]) \/
    (phase = "Running" /\ js_Suspended (jb_Spec j) = false /\ argo_word obj = "Running") \/
    (phase = "Submitted" /\ argo_word obj ∉ ["Succeeded"; "Failed"; "Error"; "Running"] /\ (js_Suspended (jb_Spec j) = true -> argo_word obj <> "")).

(** The object a job is run as: of its kind, under its name, with labels that bring
    its events back to it whatever labels the job has itself; suspended as the job is,
    where the kind can be; in the queue its SchedulingPolicy was read to name. *)
Definition api_version (gvk : GVK) : string := gvk_Group gvk +:+ "/" +:+ gvk_Version gvk.
Definition describes (pre : list jcall) (j : Job) (obj : any) : Prop :=
  nested obj ["apiVersion"] = Some (AStr (api_version (kind_of j))) /\ nested obj ["kind"] = Some (AStr (gvk_Kind (kind_of j))) /\
  nested obj ["metadata"; "name"] = Some (AStr (jb_Name j)) /\ nested obj ["metadata"; "namespace"] = Some (AStr (jb_Namespace j)) /\
  labels_of obj !! "frame.plume-labs.io/job" = Some (jb_Name j) /\ labels_of obj !! "frame.plume-labs.io/job-namespace" = Some (jb_Namespace j) /\
  (~ is_volcano j -> nested obj ["spec"; "suspend"] = Some (ABool (js_Suspended (jb_Spec j)))) /\
  (is_volcano j -> exists r, JPolicy (jb_Namespace j, "frame-batch") r ∈ pre /\
     nested obj ["spec"; "queue"] = match r with inr sp => if decide (ps_QueueName sp = "") then None else Some (AStr (ps_QueueName sp)) | inl _ => None end).

Section May.
Context {W : Type} {JA : JobsApi W}.

(** The job was read as live and holding the finalizer. *)
Definition working (pre : list jcall) (key : NamespacedName) (j : Job) : Prop :=
  JGet key (inr j) ∈ pre /\ jb_Deleting j = false /\ fj_contains_finalizer (jb_Finalizers j) "frame.plume-labs.io/framejob" = true.
Definition looked_absent (pre : list jcall) (j : Job) : Prop := exists e, JLook (kind_of j) (jb_key j) (inl e) ∈ pre /\ err_notfound e = true.
(** The workload as the pass last knew it: as read, as a patch of its suspension
    answered it, or as it was to be when that patch failed. *)
Definition seen (pre : list jcall) (j : Job) (obj : any) : Prop :=
  exists old, JLook (kind_of j) (jb_key j) (inr old) ∈ pre /\
    (obj = old \/ exists new r, JPatch old new r ∈ pre /\ obj = match r with inr o => o | inl _ => new end).

(** Why Ready may say [phase]: the workload was just created; it is a container's, there
    is none and the job is suspended, so its creation is held; or a workload tells it. *)
Definition backed (pre : list jcall) (j : Job) (phase : string) : Prop :=
  (phase = "Submitted" /\ exists obj, JCreate obj None ∈ pre /\ describes pre j obj) \/
  (phase = "Suspended" /\ js_Suspended (jb_Spec j) = true /\ is_container j /\ looked_absent pre j) \/
  (exists obj, seen pre j obj /\ tells j obj phase).

Definition ready_told_as (j : Job) : option Condition := find_cond (jt_conditions (jb_Status j)) "Ready".
Definition ready_reason (j : Job) : string := from_option c_Reason "" (ready_told_as j).
Definition final (phase : string) : Prop := phase = "Completed" \/ phase = "Failed".

Definition may (key : NamespacedName) (pre : list jcall) (c : jcall) : Prop :=
  match c with
  | JCreate obj _ => exists j, working pre key j /\ looked_absent pre j /\ (is_container j -> js_Suspended (jb_Spec j) = false) /\ describes pre j obj
  | JPatch old new _ =>
    exists j, working pre key j /\ ~ is_volcano j /\ JLook (kind_of j) (jb_key j) (inr old) ∈ pre /\
      nested_bool old ["spec"; "suspend"] <> js_Suspended (jb_Spec j) /\ set_nested old ["spec"; "suspend"] (ABool (js_Suspended (jb_Spec j))) = Some new
  | JDelete gvk k _ => exists j, JGet key (inr j) ∈ pre /\ jb_Deleting j = true /\ gvk = kind_of j /\ k = jb_key j
  | JUpdate j' _ =>
    exists j, JGet key (inr j) ∈ pre /\
      ((jb_Deleting j = false /\ fj_contains_finalizer (jb_Finalizers j) "frame.plume-labs.io/framejob" = false /\
        j' = set_jb_finalizers j (fj_add_finalizer (jb_Finalizers j) "frame.plume-labs.io/framejob")) \/
       (jb_Deleting j = true /\ j' = set_jb_finalizers j (fj_remove_finalizer (jb_Finalizers j) "frame.plume-labs.io/framejob") /\
        exists e, JDelete (kind_of j) (jb_key j) e ∈ pre /\
          forall x, e = Some x -> err_notfound (ke_err x) = true \/ (is_container j /\ ke_nomatch x = true)))
  | JStatus base new _ =>
    working pre key base /\ new = set_jb_status base (jb_Status new) /\ jt_observed (jb_Status new) = jb_Generation base /\
    (ready_told_as new = ready_told_as base \/
     exists phase msg, ready_told_as new = Some (mkCondition "Ready" (if decide (phase = "Completed") then "True" else "False") phase msg (jb_Generation base)) /\ backed pre base phase) /\
    (jt_start (jb_Status new) = jt_start (jb_Status base) \/ exists obj, JCreate obj None ∈ pre) /\
    (jt_completion (jb_Status new) = jt_completion (jb_Status base) \/ (final (ready_reason new) /\ exists obj, seen pre base obj /\ tells base obj (ready_reason new)))
  | JCount phase => final phase /\ exists base new, JStatus base new None ∈ pre /\ ready_reason base <> phase /\ ready_reason new = phase
  | _ => True
  end.
End May.

(** ** The code's words *)

(** The phase the code computes. *)
Definition phase_of (j : Job) (obj : any) : string :=
  match js_Container (jb_Spec j) with
  | None => workflowPhase obj (suspended_of j)
  | Some _ => if bool_decide (js_Type (jb_Spec j) = WorkloadTypeBatch) then volcanoJobPhase obj else batchJobPhase obj (suspended_of j)
  end.

Lemma kind_pipeline (j : Job) : js_Container (jb_Spec j) = None -> kind_of j = argoWorkflowGVK.
Proof. intros H. unfold kind_of. rewrite !decide_False; [done|by intros Hc; apply Hc|by intros [Hc _]; apply Hc]. Qed.
Lemma kind_container (j : Job) c : js_Container (jb_Spec j) = Some c -> kind_of j = containerObjectGVK (js_Type (jb_Spec j)).
Proof.
  intros H. assert (is_container j) as Hc by (unfold is_container; by rewrite H). unfold kind_of, containerObjectGVK. case_bool_decide as Ht.
  - by rewrite decide_True by by split.
  - rewrite decide_False by (intros [_ ?]; done). by rewrite decide_True.
Qed.

Lemma terminal_final phase : terminal phase = true <-> final phase.
Proof. unfold terminal. by rewrite orb_true_iff, !bool_decide_eq_true. Qed.

Lemma terminal_told cs : match terminal_condition cs with
  | None => Forall goes_on cs
  | Some phase => exists before c after, cs = (before ++ c :: after)%list /\ Forall goes_on before /\ ((phase = "Completed" /\ true_of "Complete" c) \/ (phase = "Failed" /\ true_of "Failed" c))
  end.
Proof.
  assert (forall c l, goes_on c -> match terminal_condition l with
    | None => Forall goes_on l
    | Some phase => exists before x after, l = (before ++ x :: after)%list /\ Forall goes_on before /\ ((phase = "Completed" /\ true_of "Complete" x) \/ (phase = "Failed" /\ true_of "Failed" x))
    end -> match terminal_condition l with
    | None => Forall goes_on (c :: l)
    | Some phase => exists before x after, (c :: l)%list = (before ++ x :: after)%list /\ Forall goes_on before /\ ((phase = "Completed" /\ true_of "Complete" x) \/ (phase = "Failed" /\ true_of "Failed" x))
    end) as Hcons.
  { intros c l Hc H. destruct (terminal_condition l); [|by constructor]. destruct H as (b & x & a & -> & Hb & Hx). exists (c :: b), x, a. split; [done|]. split; [by constructor|done]. }
  induction cs as [|c cs IH]; [constructor|]. destruct c as [| | | | | |m]; cbn [terminal_condition]; try (apply Hcons; [split; by intros ([? [=]] & _)|done]).
  case_bool_decide as Hs; [apply Hcons; [split; by intros (_ & ? & _)|done]|]. case_bool_decide as Hc.
  { exists [], (AMap m), cs. split; [done|]. split; [constructor|]. left. split; [done|]. split; [by exists m|done]. }
  case_bool_decide as Hf.
  { exists [], (AMap m), cs. split; [done|]. split; [constructor|]. right. split; [done|]. split; [by exists m|done]. }
  apply Hcons; [|done]. split; by intros (_ & _ & ?).
Qed.

Lemma argo_told obj (b : bool) : let phase := workflowPhase obj b in
  (phase = "Completed" /\ argo_word obj = "Succeeded") \/ (phase = "Failed" /\ argo_word obj ∈ ["Failed"; "Error"]) \/
  (phase = "Suspended" /\ b = true /\ argo_word obj ∈ ["Running"; ""]) \/ (phase = "Running" /\ b = false /\ argo_word obj = "Running") \/
  (phase = "Submitted" /\ argo_word obj ∉ ["Succeeded"; "Failed"; "Error"; "Running"] /\ (b = true -> argo_word obj <> "")).
Proof.
  cbv zeta. unfold workflowPhase, argo_word. cbv zeta. unfold jobPhaseRunning, jobPhaseFailed, podStateError. generalize (nested_string obj ["status"; "phase"]). intros p.
  destruct (decide (p = "Succeeded")) as [->|H1]; [left; by destruct b|]. destruct (decide (p = "Failed")) as [->|H2]; [right; left; split; [by destruct b|set_solver]|].
  destruct (decide (p = "Error")) as [->|H3]; [right; left; split; [by destruct b|set_solver]|]. destruct (decide (p = "Running")) as [->|H4].
  - destruct b; [right; right; left; split; [done|]; split; [done|set_solver]|by right; right; right; left].
  - rewrite !(bool_decide_false _ H1), !(bool_decide_false _ H2), !(bool_decide_false _ H3), !(bool_decide_false _ H4). destruct (decide (p = "")) as [->|H5].
    + destruct b; [right; right; left; split; [done|]; split; [done|set_solver]|]. right; right; right; right. split; [done|]. split; [set_solver|done].
    + rewrite (bool_decide_false _ H5), andb_false_r. right; right; right; right. split; [done|]. split; [set_solver|done].
Qed.

Lemma volcano_told obj : let phase := volcanoJobPhase obj in
  (phase = "Completed" /\ volcano_word obj = "Completed") \/ (phase = "Failed" /\ volcano_word obj ∈ ["Failed"; "Terminating"; "Terminated"; "Aborting"; "Aborted"]) \/
  (phase = "Running" /\ volcano_word obj ∈ ["Running"; "Restarting"; "Completing"]) \/
  (phase = "Submitted" /\ volcano_word obj ∉ ["Completed"; "Failed"; "Terminating"; "Terminated"; "Aborting"; "Aborted"; "Running"; "Restarting"; "Completing"]).
Proof.
  cbv zeta. unfold volcanoJobPhase, volcano_word. cbv zeta. generalize (nested_string obj ["status"; "state"; "phase"]). intros p.
  case_bool_decide as H1; [by left|]. case_bool_decide as H2; [by right; left|]. case_bool_decide as H3; [by right; right; left|]. right; right; right. split; [done|]. set_solver.
Qed.

Lemma phase_told (j : Job) obj : tells j obj (phase_of j obj).
Proof.
  unfold tells, phase_of. destruct (js_Container (jb_Spec j)) as [c|] eqn:Hc.
  - assert (is_container j) as Hi by (unfold is_container; by rewrite Hc). case_bool_decide as Ht; [rewrite decide_True by (by split); apply volcano_told|].
    rewrite decide_False by (intros [_ ?]; done). rewrite decide_True by done. unfold batchJobPhase. pose proof (terminal_told (nested_slice obj ["status"; "conditions"])) as H.
    destruct (terminal_condition _) as [phase|]; [destruct H as (b & x & a & He & Hb & [[-> Hx]|[-> Hx]]); [left|right; left]; (split; [done|]); by exists b, x, a|].
    fold (not_over obj) in H. unfold suspended_of. destruct (js_Suspended (jb_Spec j)); [by right; right; left|]. destruct (Z.ltb_spec 0 (nested_int64 obj ["status"; "active"])); [by right; right; right; left|by right; right; right; right].
  - rewrite !decide_False; [apply argo_told|by intros Hi; apply Hi|by intros [Hi _]; apply Hi].
Qed.

Lemma ready_told (j : Job) phase msg : ready_of j phase msg = mkCondition "Ready" (if decide (phase = "Completed") then "True" else "False") phase msg (jb_Generation j).
Proof. unfold ready_of, conditionStatus. by case_bool_decide; case_decide. Qed.
Lemma reason_told {W : Type} {JA : JobsApi W} (j : Job) : readyReason (jt_conditions (jb_Status j)) = ready_reason j.
Proof. unfold readyReason, ready_reason, ready_told_as. by destruct (find_cond _ _). Qed.

(** ** The objects built *)

Lemma priority_field (j : Job) l k : k <> "priorityClassName" -> field (with_priority j l) k = field l k.
Proof. intros H. unfold with_priority. case_bool_decide; [|done]. rewrite field_put. by rewrite decide_False. Qed.

Lemma labels_object (j : Job) (m : strmap) v k (s : any) :
  labels_of (AMap [("apiVersion", v); ("kind", k); ("metadata", metadata j (any_of m)); ("spec", s)]) = m.
Proof. unfold labels_of. cbn. apply labels_any_of. Qed.

Lemma nested_spec v k m l x : nested (AMap [("apiVersion", v); ("kind", k); ("metadata", m); ("spec", AMap l)]) ["spec"; x] = field l x.
Proof. change (match field l x with Some v => Some v | None => None end = field l x). by destruct (field l x). Qed.

(** The labels of Frame win over the job's own. *)
Lemma container_routed (j : Job) : container_labels j !! "frame.plume-labs.io/job" = Some (jb_Name j) /\ container_labels j !! "frame.plume-labs.io/job-namespace" = Some (jb_Namespace j).
Proof. unfold container_labels. split; [apply lookup_insert_eq|]. rewrite lookup_insert_ne by done. apply lookup_insert_eq. Qed.

(** The labels lead back: an event on the object is one of the job's. *)
Lemma routed pre (j : Job) obj : describes pre j obj -> jb_Name j <> "" -> jb_Namespace j <> "" -> workflowToFrameJob (labels_of obj) = [jb_key j].
Proof. intros (_ & _ & _ & _ & H1 & H2 & _) ? ?. unfold workflowToFrameJob, at_key, label_job, label_job_namespace. rewrite H1, H2. cbn. by rewrite !bool_decide_false. Qed.

Lemma workflow_described pre (j : Job) range : js_Container (jb_Spec j) = None -> describes pre j (buildWorkflow j range).
Proof.
  intros Hc. unfold describes. rewrite (kind_pipeline j Hc). unfold buildWorkflow. rewrite labels_object.
  do 4 (split; [done|]). do 2 (split; [done|]). split; [intros _; by rewrite nested_spec, priority_field|]. by intros [Hi _].
Qed.

Lemma batch_described pre (j : Job) c podSpec : js_Container (jb_Spec j) = Some c -> js_Type (jb_Spec j) <> WorkloadTypeBatch ->
  describes pre j (buildBatchJob j podSpec (any_of (container_labels j))).
Proof.
  intros Hc Ht. unfold describes. rewrite (kind_container j c Hc). unfold containerObjectGVK. rewrite (bool_decide_false _ Ht). unfold buildBatchJob. rewrite labels_object.
  do 4 (split; [done|]). do 2 (split; [apply container_routed|]). by split; [|intros [_ ?]].
Qed.

Lemma volcano_described pre (j : Job) c podSpec r : js_Container (jb_Spec j) = Some c -> js_Type (jb_Spec j) = WorkloadTypeBatch ->
  JPolicy (jb_Namespace j, "frame-batch") r ∈ pre ->
  describes pre j (volcano_object j podSpec (any_of (container_labels j)) (match r with inr sp => ps_QueueName sp | inl _ => "" end)).
Proof.
  intros Hc Ht Hr. unfold describes. rewrite (kind_container j c Hc). unfold containerObjectGVK. rewrite (bool_decide_true _ Ht). unfold volcano_object. rewrite labels_object.
  do 4 (split; [done|]). do 2 (split; [apply container_routed|]). split; [intros []; split; [unfold is_container; by rewrite Hc|done]|]. intros _. exists r. split; [done|]. rewrite nested_spec, priority_field by done.
  destruct r as [e|sp]; [done|]. destruct (decide (ps_QueueName sp = "")) as [->|Hq]; [done|]. rewrite bool_decide_true by done. by rewrite field_put.
Qed.

Lemma describes_mono pre t (j : Job) obj : describes pre j obj -> describes (pre ++ t) j obj.
Proof.
  unfold describes. intros (H1 & H2 & H3 & H4 & H5 & H6 & H7 & H8). repeat (split; [done|]). intros Hv. destruct (H8 Hv) as (r & Hr & ?). exists r. split; [set_solver|done].
Qed.

(** ** A pass *)

Section Safety.
Context {W : Type} {JA : JobsApi W} {TJ : TracedJobs W} {CL : CondLaws W}.
Variable key : NamespacedName.

Abbreviation goes := (Trace.goes jcalls (may key)).
Ltac call H := eapply goes_call; [intros; apply H|intros ?|intros ?].
Ltac say H := eapply (goes_call _ _ _ _ (fun _ => _)); [intros; apply H|intros ?|intros ?].
Ltac quiet H := eapply emits_skip; [intros; apply H|intros ?].

Lemma working_snoc pre (j : Job) t : working pre key j -> working (pre ++ t) key j.
Proof. intros (H & ?). split; [set_solver|done]. Qed.
Lemma seen_snoc pre (j : Job) obj t : seen pre j obj -> seen (pre ++ t) j obj.
Proof. intros (old & Ho & H). exists old. split; [set_solver|]. destruct H as [->|(n & r & Hp & ->)]; [by left|right]. exists n, r. split; [set_solver|done]. Qed.

Lemma sync_emits wf b : emits jcalls (syncSuspend wf b) (fun o t =>
  (t = [] /\ o = wf) \/ exists new r, t = [JPatch wf new r] /\ o = match r with inr o => o | inl _ => new end /\
    nested_bool wf ["spec"; "suspend"] <> b /\ set_nested wf ["spec"; "suspend"] (ABool b) = Some new).
Proof.
  unfold syncSuspend. destruct (Bool.eqb _ b) eqn:E; [apply emits_ret; by left|]. apply Bool.eqb_false_iff in E.
  destruct (set_nested wf _ _) as [wf'|] eqn:Es; [|apply emits_ret; by left].
  eapply emits_call; [intros; apply j_patch|]. intros r. apply emits_ret. right. by exists wf', r.
Qed.

(** ** The status *)

Lemma ready_reported (j : Job) cpl ch phase msg sc : (forall c, sc = Some c -> c_Type c = conditionTypeSuspendApplied) ->
  ready_told_as (reported j cpl ch phase msg sc) =
    if ch then Some (mkCondition "Ready" (if decide (phase = "Completed") then "True" else "False") phase msg (jb_Generation j)) else ready_told_as j.
Proof.
  intros Hs. rewrite <- ready_told. unfold ready_told_as. cbn. change "Ready" with conditionTypeReady. assert (forall cs, find_cond (match sc with Some c => set_cond cs c | None => cs end) conditionTypeReady = find_cond cs conditionTypeReady) as ->.
  { intros cs. destruct sc as [c|]; [|done]. rewrite find_set, bool_decide_false; [done|]. by rewrite (Hs c). }
  destruct ch; [|done]. unfold setJobReady. by rewrite find_set.
Qed.
Lemma reason_reported (j : Job) cpl phase msg sc : (forall c, sc = Some c -> c_Type c = conditionTypeSuspendApplied) -> ready_reason (reported j cpl true phase msg sc) = phase.
Proof. intros Hs. unfold ready_reason. by rewrite ready_reported. Qed.

Lemma report_goes pre (j : Job) obj msg sc : working pre key j -> seen pre j obj -> (forall c, sc = Some c -> c_Type c = conditionTypeSuspendApplied) ->
  goes pre (report j (phase_of j obj) msg sc).
Proof.
  intros Hw Hs Ht. unfold report. set (phase := phase_of j obj). destruct (_ || _); [|apply goes_ret].
  set (ch := bool_decide (readyReason _ <> phase)).
  apply (goes_bind jcalls (may key) _ _ (fun cpl t => t = [] /\ (cpl = jt_completion (jb_Status j) \/ (ch = true /\ terminal phase = true)))).
  { destruct (ch && terminal phase) eqn:E; [|apply emits_ret; auto]. apply andb_true_iff in E. quiet j_now. apply emits_ret. auto. }
  intros cpl ? [-> Hcpl]. split; [done|]. rewrite app_nil_r. call j_status.
  - unfold may. split; [done|]. split; [done|]. split; [done|]. split.
    { rewrite (ready_reported _ cpl) by done. destruct ch; [right|by left]. exists phase, msg. split; [done|]. right. right. exists obj. split; [done|apply phase_told]. }
    split; [by left|]. destruct Hcpl as [->|[-> Hte]]; [by left|right]. rewrite reason_reported by done. split; [by apply terminal_final|]. exists obj. split; [done|apply phase_told].
  - destruct a as [e|]; [apply goes_ret|]. destruct ch eqn:Hch; [|apply goes_ret]. say j_event; [done|]. destruct (terminal phase) eqn:Hte.
    + say j_count; [|apply goes_ret].
      split; [by apply terminal_final|]. exists j, (reported j cpl true phase msg sc). split; [set_solver|]. split; [rewrite <- reason_told; by apply bool_decide_eq_true in Hch|by apply reason_reported].
    + eapply emits_skip; [done|]. intros _. apply goes_ret.
Qed.

Lemma started_goes pre (j : Job) reason msg wf name kind cond obj : working pre key j -> JCreate obj None ∈ pre -> describes pre j obj ->
  (forall c, cond = Some c -> c_Type c = conditionTypeSchedulingPolicy) -> goes pre (record_created j reason msg wf name kind cond).
Proof.
  intros Hw Hc Hd Ht. unfold record_created. say j_event; [done|]. quiet j_now. call j_status; [|apply goes_ret]. unfold may. split; [by apply working_snoc|].
  split; [done|]. split; [done|]. split; [right|split; [right; set_solver|by left]]. exists "Submitted", msg. split; [unfold ready_told_as; cbn; unfold setJobReady; rewrite find_set; by rewrite <- ready_told|].
  left. split; [done|]. exists obj. split; [set_solver|by apply describes_mono].
Qed.

(** The suspension is brought on, or is as asked for. *)
Lemma synced_goes pre (j : Job) old o t : let pre' := (pre ++ [JLook (kind_of j) (jb_key j) (inr old)])%list in working pre key j -> ~ is_volcano j ->
  ((t = [] /\ o = old) \/ exists new r, t = [JPatch old new r] /\ o = match r with inr o => o | inl _ => new end /\
    nested_bool old ["spec"; "suspend"] <> suspended_of j /\ set_nested old ["spec"; "suspend"] (ABool (suspended_of j)) = Some new) ->
  justified (may key) pre' t /\ seen (pre' ++ t) j o.
Proof.
  intros pre' Hw Hv [[-> ->]|(new & r & -> & -> & Hn & Hset)]; subst pre'.
  - split; [done|]. exists old. split; [set_solver|by left].
  - split; [|exists old; split; [set_solver|right; exists new, r; split; [set_solver|done]]]. split; [|done]. exists j. split; [by apply working_snoc|].
    split; [done|]. split; [set_solver|done].
Qed.

Lemma pipeline_goes pre (j : Job) : working pre key j -> js_Container (jb_Spec j) = None -> goes pre (reconcilePipeline j).
Proof.
  intros Hw Hc. pose proof (kind_pipeline j Hc) as Hk. unfold reconcilePipeline. call j_look; [done|]. destruct a as [e|old].
  - destruct (err_notfound e) eqn:He; [|apply goes_ret]. cbn [negb]. quiet j_range. call j_create.
    + exists j. split; [by apply working_snoc|]. split; [exists e; rewrite Hk; split; [set_solver|done]|]. split; [unfold is_container; by rewrite Hc|by apply workflow_described].
    + destruct a0; [apply goes_ret|]. eapply (started_goes _ _ _ _ _ _ _ _ (buildWorkflow j a)); [by do 2 apply working_snoc|set_solver|by apply workflow_described|done].
  - eapply goes_bind; [apply sync_emits|]. intros o t Ht.
    rewrite <- Hk. destruct (synced_goes pre j old o t) as [Hj Hs]; [done|by intros [[] _]|done|].
    split; [done|]. replace (workflowPhase o (suspended_of j)) with (phase_of j o) by (unfold phase_of; by rewrite Hc). apply report_goes; [by do 2 apply working_snoc|done|done].
Qed.

Lemma build_emits (j : Job) c : js_Container (jb_Spec j) = Some c -> emits jcalls (buildContainerObject j c) (fun b t =>
  (forall pre, justified (may key) pre t) /\ forall obj sc, b = inr (obj, sc) -> describes t j obj /\ forall c, sc = Some c -> c_Type c = conditionTypeSchedulingPolicy).
Proof.
  intros Hc. unfold buildContainerObject. destruct (to_unstructured _) as [e|podSpec]; [by apply emits_ret|]. case_bool_decide as Ht.
  - eapply emits_bind; [unfold buildVolcanoJob; eapply (emits_call _ _ _ _ (fun b t => exists r, t = [JPolicy _ r] /\ b = _)); [intros; apply j_policy|intros r; apply emits_ret; by exists r]|].
    cbn. intros b t (r & -> & ->). apply emits_ret. split; [done|]. intros obj sc Hb.
    pose proof (volcano_described [JPolicy (jb_Namespace j, schedulingPolicyNameForType (js_Type (jb_Spec j))) r] j c podSpec r Hc Ht ltac:(rewrite Ht; set_solver)) as Hd.
    destruct r as [e|sp]; [destruct (err_notfound e)|]; simplify_eq; (split; [exact Hd|]); intros ? [= <-]; [|case_bool_decide]; done.
  - apply emits_ret. split; [done|]. intros obj sc [= <- <-]. split; [by eapply batch_described|done].
Qed.

Lemma create_goes pre (j : Job) c : working pre key j -> js_Container (jb_Spec j) = Some c -> looked_absent pre j -> suspended_of j = false ->
  goes pre (create_container j c).
Proof.
  intros Hw Hc (e & He & Hn) Hs. unfold create_container. eapply goes_bind; [by apply build_emits|]. intros b t [Hj Hb]. split; [done|].
  destruct b as [?|[obj sc]]; [apply goes_ret|]. destruct (Hb obj sc eq_refl) as [Hd Ht]. assert (forall p, describes (p ++ t) j obj) as Hd'.
  { intros p. unfold describes in *. destruct Hd as (H1 & H2 & H3 & H4 & H5 & H6 & H7 & H8). do 7 (split; [done|]). intros Hv. destruct (H8 Hv) as (r & Hr & ?). exists r. split; [set_solver|done]. }
  call j_create.
  - exists j. split; [by apply working_snoc|]. split; [exists e; split; [set_solver|done]|]. done.
  - destruct a; [apply goes_ret|]. eapply (started_goes _ _ _ _ _ _ _ _ obj); [by do 2 apply working_snoc|set_solver|by apply describes_mono|done].
Qed.

Lemma container_goes pre (j : Job) c : working pre key j -> js_Container (jb_Spec j) = Some c -> goes pre (reconcileContainer j c).
Proof.
  intros Hw Hc. pose proof (kind_container j c Hc) as Hk.
  unfold reconcileContainer. rewrite <- Hk. call j_look; [done|]. destruct a as [e|old].
  - destruct (err_notfound e) eqn:He; [|apply goes_ret]. cbn [negb]. assert (looked_absent (pre ++ [JLook (kind_of j) (jb_key j) (inl e)]) j) as Ha by (exists e; split; [set_solver|done]).
    destruct (suspended_of j) eqn:Hs; [|by apply create_goes; [apply working_snoc|..]].
    call j_status; [|apply goes_ret]. unfold may. split; [by apply working_snoc|]. split; [done|]. split; [done|]. split; [right|by split; left].
    exists "Suspended", held_message. split; [unfold ready_told_as; cbn; unfold setJobReady; rewrite find_set; by rewrite <- ready_told|]. right. left. unfold is_container. by rewrite Hc.
  - case_bool_decide as Ht.
    + replace (volcanoJobPhase old) with (phase_of j old) by (unfold phase_of; by rewrite Hc, bool_decide_true). apply report_goes; [by apply working_snoc|exists old; split; [set_solver|by left]|].
      intros ? [= <-]. unfold suspend_condition. by destruct (suspended_of j).
    + eapply goes_bind; [apply sync_emits|]. intros o t Hsync. destruct (synced_goes pre j old o t) as [Hj Hs]; [done|by intros [_ ?]|done|]. split; [done|].
      replace (batchJobPhase o (suspended_of j)) with (phase_of j o) by (unfold phase_of; by rewrite Hc, bool_decide_false). apply report_goes; [by do 2 apply working_snoc|done|done].
Qed.

Lemma release_goes pre (j : Job) e : JGet key (inr j) ∈ pre -> jb_Deleting j = true -> JDelete (kind_of j) (jb_key j) e ∈ pre ->
  (forall x, e = Some x -> err_notfound (ke_err x) = true \/ (is_container j /\ ke_nomatch x = true)) -> goes pre (release_job j).
Proof. intros Hg Hd He Hx. unfold release_job. call j_update; [|apply goes_ret]. exists j. split; [done|]. right. split; [done|]. split; [done|]. by exists e. Qed.

Lemma delete_goes pre (j : Job) : JGet key (inr j) ∈ pre -> jb_Deleting j = true -> goes pre (reconcileDelete j).
Proof.
  intros Hg Hd. unfold reconcileDelete. destruct (js_Container (jb_Spec j)) as [c|] eqn:Hc.
  - pose proof (kind_container j c Hc) as Hk.
    unfold reconcileContainerDelete. rewrite <- Hk. call j_delete; [by exists j|]. destruct a as [e|].
    + destruct (_ || _) eqn:E; [|apply goes_ret]. apply orb_true_iff in E. eapply (release_goes _ _ (Some e)); [set_solver|done|set_solver|].
      intros x [= <-]. destruct E; [by left|right]. unfold is_container. by rewrite Hc.
    + eapply (release_goes _ _ None); [set_solver|done|set_solver|done].
  - pose proof (kind_pipeline j Hc) as Hk. rewrite <- Hk. call j_delete; [by exists j|].
    destruct (ignore_not_found _) as [?|] eqn:E; [apply goes_ret|]. eapply (release_goes _ _ a); [set_solver|done|set_solver|].
    intros x ->. left. cbn in E. by destruct (err_notfound (ke_err x)).
Qed.
End Safety.

(** C29. The calls of a pass over a FrameJob are each allowed, whatever the API server
    answers: a workload of the job's kind is created only for a live job that holds the
    finalizer, where none of its name was found, unsuspended when it is a container, and
    carries the labels that lead back to the job; patched only to the suspension asked
    for; deleted only once the job is being deleted, and the finalizer is released only
    after that was taken, found nothing or, for a container, found no such kind. Ready
    moves only to Submitted after a creation, to Suspended where a suspended container's
    creation is held, or to the phase that the words of the workload, as it was read or
    as the patch of its suspension left it, stand for; it is True for Completed only. A
    completion time is put only when the workload is Completed or Failed, and such a
    phase is counted only after the write that recorded it. *)
Theorem job_calls_justified {W : Type} {JA : JobsApi W} {TJ : TracedJobs W} {CL : CondLaws W} (key : NamespacedName) (w : W) :
  exists t, jcalls (Reconcile key w).2 = (jcalls w ++ t)%list /\ justified (may key) [] t.
Proof.
  assert (Trace.goes jcalls (may key) [] (Reconcile key)) as H; [|apply H].
  unfold Reconcile. eapply goes_call; [intros; apply j_get|done|]. intros [e|j]; [apply goes_ret|]. destruct (jb_Deleting j) eqn:Hd; [apply delete_goes; [set_solver|done]|].
  destruct (fj_contains_finalizer _ _) eqn:Hf; cbn [negb].
  - destruct (js_Container _) eqn:Hc; [apply container_goes|apply pipeline_goes]; try done; (split; [set_solver|done]).
  - eapply goes_call; [intros; apply j_update| |intros; apply goes_ret]. intros e. exists j. split; [set_solver|]. by left.
Qed.
(** ** The vocabulary of Ready *)

Lemma told_word (j : Job) obj phase : tells j obj phase -> phase ∈ [legacyPhaseSubmitted; legacyPhaseRunning; legacyPhaseSuspended; legacyPhaseCompleted; legacyPhaseFailed].
Proof. unfold tells. destruct (decide (is_volcano j)); [|destruct (decide (is_container j))]; intros H; destruct_or! H; destruct H as [-> _]; set_solver. Qed.

(** What a pass writes as the reason of Ready is one of the words of the legacy phase,
    so a v1alpha1 reader is shown the phase itself. *)
Theorem legacy_phase_told {W : Type} {JA : JobsApi W} pre (j : Job) phase cs c : backed pre j phase -> find_condition cs V1alpha1.conditionTypeReady = Some c -> cond_Reason c = phase ->
  FrameJobPhaseFromConditions (Some cs) = phase.
Proof.
  intros Hb Hc Hr. unfold FrameJobPhaseFromConditions. cbn [default from_option id]. rewrite Hc, Hr. rewrite bool_decide_true; [done|].
  destruct Hb as [[-> _]|[[-> _]|(obj & _ & Ht)]]; [set_solver|set_solver|by eapply told_word].
Qed.
End Calls.

(** * Runs on an in-memory API server *)

From S2P Require Import ConversionSafety.

(** One FrameJob, and the objects of its name by API version. *)
Record jworld := mkJWorld { jw_log : list jcall; jw_job : option Job; jw_objects : list (string * any) }.
Definition jnote {A} (ev : A -> jcall) (r : A) (w : jworld) : A * jworld := (r, mkJWorld (jw_log w ++ [ev r]) (jw_job w) (jw_objects w)).
Definition put_job (j : option Job) (w : jworld) : jworld := mkJWorld (jw_log w) j (jw_objects w).
Definition put_objects (l : list (string * any)) (w : jworld) : jworld := mkJWorld (jw_log w) (jw_job w) l.
Definition version_of (obj : any) : string := nested_string obj ["apiVersion"].
Definition absent_err : apierr := ApiErr "not found" true false.
Definition clock0 : time := Time 0 0.

(** A job that is being deleted is gone with its last finalizer. *)
Definition stored_update (j : Job) : option Job := if jb_Deleting j && bool_decide (jb_Finalizers j = []) then None else Some j.

#[local] Instance mem_jobs : JobsApi jworld := {|
  fj_get k w := jnote (JGet k) (match jw_job w with Some j => inr j | None => inl absent_err end) w;
  fj_update j w := jnote (JUpdate j) None (put_job (stored_update j) w);
  fj_patch_status b n w := jnote (JStatus b n) None (put_job (Some n) w);
  wl_get g k w := jnote (JLook g k) (match field (jw_objects w) (api_version g) with Some o => inr o | None => inl absent_err end) w;
  wl_create o w := jnote (JCreate o) None (put_objects (put (version_of o) o (jw_objects w)) w);
  wl_patch o n w := jnote (JPatch o n) (inr n) (put_objects (put (version_of n) n (jw_objects w)) w);
  wl_delete g k w := jnote (JDelete g k) (match field (jw_objects w) (api_version g) with Some _ => None | None => Some (KindErr absent_err false) end)
    (put_objects (filter (fun e => e.1 <> api_version g) (jw_objects w)) w);
  policy_get k w := jnote (JPolicy k) (inl absent_err) w;
  fj_event k e w := jnote (fun _ => JEvent k e) tt w;
  count_job p w := jnote (fun _ => JCount p) tt w;
  fj_now w := (clock0, w);
  range_map m w := (map_to_list m, w);
  to_unstructured p := inr [("containers", AList (map (fun c => AMap [("image", AStr (cn_Image c)); ("name", AStr (cn_Name c))]) (po_Containers p)));
                            ("restartPolicy", AStr (po_RestartPolicy p))];
  fj_contains_finalizer fs f := bool_decide (f ∈ fs);
  fj_add_finalizer fs f := fs ++ [f];
  fj_remove_finalizer fs f := filter (fun x => x <> f) fs;
  set_cond cs c := c :: filter (fun x => c_Type x <> c_Type c) cs;
  find_cond cs t := List.find (fun c => bool_decide (c_Type c = t)) cs
|}.
#[local] Instance mem_traced_jobs : TracedJobs jworld.
Proof. refine {| jcalls := jw_log |}; done. Defined.
#[local] Instance mem_conditions : CondLaws jworld.
Proof.
  constructor. intros cs c t. cbn. case_bool_decide as H; [done|]. induction cs as [|x cs IH]; [done|]. rewrite filter_cons.
  destruct (decide (c_Type x <> c_Type c)) as [Hx|Hx]; cbn; [by rewrite IH|]. rewrite IH. case_bool_decide; [|done]. apply dec_stable in Hx. congruence.
Defined.

Definition status0 : JobStatus := mkJobStatus 0 [] "" "" "" None None "".
Definition run_spec (type : string) : FrameJobSpec := mkFJSpec "" (Some (mkContainer "busybox" None None None zero_rr None)) type "LOW" "medium" 0 None false.
Definition fresh_job (s : FrameJobSpec) : Job := mkJob "apps" "nightly" {[label_job := "other"]} 1 [] false s status0.
Definition apps : NamespacedName := ("apps", "nightly").
Fixpoint job_passes (n : nat) (w : jworld) : jworld := match n with O => w | S n => job_passes n (Reconcile apps w).2 end.
Definition reason_now (w : jworld) : string := match jw_job w with Some j => ready_reason j | None => "gone" end.
Definition on_job (f : Job -> Job) (w : jworld) : jworld := put_job (f <$> jw_job w) w.
Definition deleted (j : Job) : Job := mkJob (jb_Namespace j) (jb_Name j) (jb_Labels j) (jb_Generation j) (jb_Finalizers j) true (jb_Spec j) (jb_Status j).
Definition kinds (w : jworld) : list string := map fst (jw_objects w).
Definition batch_status (s : any) (w : jworld) : jworld :=
  put_objects (map (fun e => (e.1, default e.2 (set_nested e.2 ["status"] s))) (jw_objects w)) w.
Definition completed : any := AMap [("conditions", AList [AMap [("message", AStr "done"); ("status", AStr "True"); ("type", AStr "Complete")]])].

(** A job is given its finalizer, its workload, its phase, and is gone with its
    workload. *)
Example job_life :
  let w2 := job_passes 2 (mkJWorld [] (Some (fresh_job (run_spec "background"))) []) in
  let w3 := job_passes 1 (batch_status completed w2) in
  let w4 := job_passes 1 (on_job deleted w3) in
  (reason_now w2, kinds w2, reason_now w3, reason_now w4, kinds w4) = ("Submitted", ["batch/v1"], "Completed", "gone", []).
Proof. vm_compute. reflexivity. Qed.

(** The object built carries the label that leads back to the job, although the job's
    own labels name another. *)
Example label_not_taken : map (fun e => workflowToFrameJob (labels_of e.2)) (jw_objects (job_passes 2 (mkJWorld [] (Some (fresh_job (run_spec "background"))) []))) = [[apps]].
Proof. vm_compute. reflexivity. Qed.

(** A Job of that name that someone else made is taken for the workload: the FrameJob
    creates nothing, reports the other's completion as its own, and deletes it when it
    is deleted. *)
Definition someone_elses : any :=
  AMap [("apiVersion", AStr "batch/v1"); ("kind", AStr "Job"); ("metadata", AMap [("name", AStr "nightly"); ("namespace", AStr "apps")]); ("status", completed)].
Theorem foreign_job_deleted :
  let w2 := job_passes 2 (mkJWorld [] (Some (fresh_job (run_spec "background"))) [("batch/v1", someone_elses)]) in
  let w3 := job_passes 1 (on_job deleted w2) in
  (reason_now w2, kinds w2, kinds w3) = ("Completed", ["batch/v1"], []).
Proof. vm_compute. reflexivity. Qed.

(** A spec.type edited after the creation starts a second workload of the other kind;
    the first is neither followed nor deleted with the FrameJob. *)
Definition edited (type : string) (j : Job) : Job := mkJob (jb_Namespace j) (jb_Name j) (jb_Labels j) (jb_Generation j + 1) (jb_Finalizers j) (jb_Deleting j) (run_spec type) (jb_Status j).
Theorem edited_type_leaks_job :
  let w2 := job_passes 2 (mkJWorld [] (Some (fresh_job (run_spec "background"))) []) in
  let w3 := job_passes 1 (on_job (edited "batch") w2) in
  let w4 := job_passes 1 (on_job deleted w3) in
  (kinds w3, reason_now w4, kinds w4) = (["batch.volcano.sh/v1alpha1"; "batch/v1"], "gone", ["batch/v1"]).
Proof. vm_compute. reflexivity. Qed.

(** A Workflow that Argo reports as Pending is Submitted even while the job is
    suspended, where a batch Job with nothing terminal is Suspended. *)
Theorem pending_not_suspended :
  workflowPhase (AMap [("status", AMap [("phase", AStr "Pending")])]) true = jobPhaseSubmitted /\
  forall job, terminal_condition (nested_slice job ["status"; "conditions"]) = None -> batchJobPhase job true = jobPhaseSuspended.
Proof. split; [reflexivity|]. intros job H. unfold batchJobPhase. by rewrite H. Qed.

(** The pass that finds the workload completed: it records that and counts it. *)
Definition ended : jworld := batch_status completed (job_passes 2 (mkJWorld [] (Some (fresh_job (run_spec "background"))) [])).
Lemma job_calls_justified_witness : last (jw_log (Reconcile apps ended).2) = Some (JCount "Completed") /\
  exists t, jcalls (Reconcile apps ended).2 = (jcalls ended ++ t)%list /\ justified (may apps) [] t.
Proof. split; [vm_compute; reflexivity|]. exact (job_calls_justified apps ended). Defined.
