(* ===== verification/FrameNodes.v ===== *)
(** internal/controller/frame/framenode_controller.go, with the webhook of FrameNode:
    the reconciler that writes a FrameNode's classification onto the Kubernetes node it
    names as labels, and reads the node's state back. The API server and controllerutil
    are the methods of [NodesApi]; log lines are left out. *)
From stdpp Require Import base tactics strings list gmap.
From Stdlib Require Import ZArith Lia.
From S2P Require Import Prelude GoLib GoTime GoNet Kube Cluster StorageAlerts V1beta1.

Open Scope Z_scope.

Definition frameNodeFinalizer : string := "frame.plume-labs.io/framenode".
Definition nodePhaseAwaitingNode : string := "AwaitingNode".
Definition nodePhaseOnline : string := "Online".
Definition nodePhaseDegraded : string := "Degraded".
Definition nodePhaseUnclassified : string := "Unclassified".
Definition nodePhaseOffline : string := "Offline".
Definition nodeLabelRack : string := "frame.plume-labs.io/rack".
Definition nodeLabelZone : string := "topology.kubernetes.io/zone".
Definition nodeLabelServiceClass : string := "frame.plume-labs.io/service-class".
Definition nodeLabelRole : string := "frame.plume-labs.io/role".
Definition nodeLabelRDMA : string := "frame.plume-labs.io/rdma".
Definition legacyLabelRack : string := "topology.kubernetes.io/rack".
Definition frameNodeLabels : list string := [nodeLabelRack; nodeLabelZone; nodeLabelServiceClass; nodeLabelRole; nodeLabelRDMA].

(** ** Labels *)

Definition applyNodeLabel (labels : strmap) (key value : string) : strmap :=
  if bool_decide (value = "") then delete key labels else <[key := value]> labels.

Fixpoint nodePhase (conditions : list (string * string)) : string :=
  match conditions with
  | [] => nodePhaseOffline
  | (type, status) :: cs =>
    if bool_decide (type = "Ready") && bool_decide (status = "True") then nodePhaseOnline
    else if bool_decide (type = "Ready") && bool_decide (status = "False") then nodePhaseDegraded
    else nodePhase cs
  end.

Section Nodes.
Context `{F : Foreign}.

(** ** Data *)

Record NodeStatus := mkNStatus {
  fs_observed : Z;
  fs_conditions : list Condition;
  fs_nodeName : string;
  fs_capacity : ResourceList;
  fs_allocatable : ResourceList;
  fs_kubelet : string
}.
(** A FrameNode as the controller holds it. *)
Record FNode := mkFNode {
  fn_Namespace : string;
  fn_Name : string;
  fn_UID : string;
  fn_Created : time;
  fn_Generation : Z;
  fn_Finalizers : list string;
  fn_Deleting : bool;
  fn_Spec : FrameNodeSpec;
  fn_Status : NodeStatus
}.
Definition fn_key (fn : FNode) : NamespacedName := (fn_Namespace fn, fn_Name fn).
Definition set_fn_finalizers (fn : FNode) (fs : list string) : FNode :=
  mkFNode (fn_Namespace fn) (fn_Name fn) (fn_UID fn) (fn_Created fn) (fn_Generation fn) fs (fn_Deleting fn) (fn_Spec fn) (fn_Status fn).
Definition set_fn_status (fn : FNode) (s : NodeStatus) : FNode :=
  mkFNode (fn_Namespace fn) (fn_Name fn) (fn_UID fn) (fn_Created fn) (fn_Generation fn) (fn_Finalizers fn) (fn_Deleting fn) (fn_Spec fn) s.

(** A corev1.Node as far as it is read and written here. *)
Record KNode := mkKNode {
  kn_Name : string;
  kn_Labels : strmap;
  kn_Conditions : list (string * string);
  kn_Capacity : ResourceList;
  kn_Allocatable : ResourceList;
  kn_Kubelet : string
}.
Definition set_kn_labels (n : KNode) (l : strmap) : KNode :=
  mkKNode (kn_Name n) l (kn_Conditions n) (kn_Capacity n) (kn_Allocatable n) (kn_Kubelet n).

(** A patch of a node answers with the node as stored. *)
Class NodesApi (W : Type) := {
  fn_get : NamespacedName -> St W (result apierr FNode);
  fn_update : FNode -> St W (option apierr);
  fn_patch_status : FNode -> FNode -> St W (option apierr);
  fn_list : St W (result apierr (list FNode));
  kn_get : string -> St W (result apierr KNode);
  kn_patch : KNode -> KNode -> St W (result apierr KNode);
  fn_event : NamespacedName -> Event -> St W unit;
  fn_contains_finalizer : list string -> string -> bool;
  fn_add_finalizer : list string -> string -> list string;
  fn_remove_finalizer : list string -> string -> list string;
  fn_set_cond : list Condition -> Condition -> list Condition
}.

(** The node a FrameNode names. *)
Definition node_of (fn : FNode) : string := if bool_decide (ns_Hostname (fn_Spec fn) = "") then fn_Name fn else ns_Hostname (fn_Spec fn).

Definition rdma_value (s : FrameNodeSpec) : string := if bool_decide (ns_RDMAInterface s <> "") then "true" else "".
(** What reconcileOnline writes. *)
Definition labelled (s : FrameNodeSpec) (labels : strmap) : strmap :=
  let labels := applyNodeLabel labels nodeLabelRack (ns_Rack s) in
  let labels := applyNodeLabel labels nodeLabelZone (ns_Zone s) in
  let labels := applyNodeLabel labels nodeLabelServiceClass (ns_ServiceClass s) in
  let labels := applyNodeLabel labels nodeLabelRole (ns_Role s) in
  let labels := applyNodeLabel labels nodeLabelRDMA (rdma_value s) in
  delete legacyLabelRack labels.
(** What reconcileDelete leaves. *)
Definition stripped (labels : strmap) : strmap := delete legacyLabelRack (foldl (fun l k => delete k l) labels frameNodeLabels).

Section Controller.
Context {W : Type} {NA : NodesApi W}.

Definition ready_cond (fn : FNode) (phase msg : string) : Condition :=
  mkCondition "Ready" (if bool_decide (phase = nodePhaseOnline) then "True" else "False") phase msg (fn_Generation fn).

Definition phased (fn : FNode) (phase msg : string) : FNode :=
  let s := fn_Status fn in
  set_fn_status fn (mkNStatus (fn_Generation fn) (fn_set_cond (fs_conditions s) (ready_cond fn phase msg)) (fs_nodeName s) (fs_capacity s) (fs_allocatable s) (fs_kubelet s)).
Definition setPhase (fn : FNode) (phase msg : string) : St W (option apierr) := fn_patch_status fn (phased fn phase msg).

(** A pass answers with the time to its next one, 0 for none, and its error. *)
Definition outcome : Type := Z * option apierr.

Definition awaitNode (fn : FNode) (nodeName : string) : St W outcome :=
  _ ← fn_event (fn_key fn) (mkEvent EventTypeWarning "NodeNotFound" ("Waiting for node " +:+ nodeName +:+ " to join the cluster"));
  e ← setPhase fn nodePhaseAwaitingNode ("No Kubernetes Node named " +:+ nodeName +:+ "; waiting for it to join the cluster");
  mret (30 * second, e).

Definition classifies (s : FrameNodeSpec) : bool :=
  negb (bool_decide (ns_Rack s = "") && bool_decide (ns_Zone s = "") && bool_decide (ns_Role s = "") && bool_decide (ns_ServiceClass s = "") && bool_decide (ns_RDMAInterface s = "")).
(** The first other FrameNode that names the node and is older. *)
Fixpoint older (fn : FNode) (nodeName : string) (l : list FNode) : option FNode :=
  match l with
  | [] => None
  | other :: l =>
    if bool_decide (fn_UID other = fn_UID fn) then older fn nodeName l
    else if bool_decide (node_of other <> nodeName) then older fn nodeName l
    else if before (fn_Created other) (fn_Created fn) then Some other
    else older fn nodeName l
  end.
(** [Some (reason, message)] refuses. *)
Definition mayClassify (fn : FNode) (nodeName : string) : St W (option (string * string)) :=
  if negb (classifies (fn_Spec fn)) then mret (Some (nodePhaseUnclassified, "No classification to project; refusing to strip labels from node " +:+ nodeName))
  else
    r ← fn_list;
    mret match r with
    | inl e => Some (nodePhaseUnclassified, "Cannot verify node ownership: " +:+ err_text e)
    | inr l =>
      match older fn nodeName l with
      | Some other => Some (nodePhaseUnclassified, "Node " +:+ nodeName +:+ " is already classified by FrameNode " +:+ fn_Namespace other +:+ "/" +:+ fn_Name other)
      | None => None
      end
    end.

Definition synced (fn : FNode) (node : KNode) : FNode :=
  set_fn_status fn (mkNStatus (fn_Generation fn) (fn_set_cond (fs_conditions (fn_Status fn)) (ready_cond fn (nodePhase (kn_Conditions node)) "Synced from k8s Node"))
    (kn_Name node) (kn_Capacity node) (kn_Allocatable node) (kn_Kubelet node)).
Definition reconcileOnline (fn : FNode) : St W outcome :=
  let nodeName := node_of fn in
  r ← kn_get nodeName;
  match r with
  | inl e => if err_notfound e then awaitNode fn nodeName else mret (0, Some e)
  | inr node =>
    r ← kn_patch node (set_kn_labels node (labelled (fn_Spec fn) (kn_Labels node)));
    match r with
    | inl e => mret (0, Some (wrap_err "patching node labels" e))
    | inr node =>
      e ← fn_patch_status fn (synced fn node);
      match e with
      | Some e => mret (0, Some e)
      | None =>
        let phase := nodePhase (kn_Conditions node) in
        _ ← fn_event (fn_key fn) (mkEvent (if bool_decide (phase <> nodePhaseOnline) then EventTypeWarning else EventTypeNormal) phase ("Node " +:+ nodeName +:+ " is " +:+ phase));
        mret (5 * minute, None)
      end
    end
  end.

Definition release_node (fn : FNode) : St W outcome :=
  e ← fn_update (set_fn_finalizers fn (fn_remove_finalizer (fn_Finalizers fn) frameNodeFinalizer));
  mret (0, e).
Definition reconcileDelete (fn : FNode) : St W outcome :=
  r ← kn_get (node_of fn);
  match r with
  | inr node =>
    r ← kn_patch node (set_kn_labels node (stripped (kn_Labels node)));
    match r with
    | inl e => mret (0, Some e)
    | inr _ => release_node fn
    end
  | inl _ => release_node fn
  end.

Definition Reconcile (key : NamespacedName) : St W outcome :=
  r ← fn_get key;
  match r with
  | inl e => mret (0, ignore_not_found (Some e))
  | inr fn =>
    if fn_Deleting fn then reconcileDelete fn
    else if negb (fn_contains_finalizer (fn_Finalizers fn) frameNodeFinalizer) then
      e ← fn_update (set_fn_finalizers fn (fn_add_finalizer (fn_Finalizers fn) frameNodeFinalizer));
      mret (0, e)
    else
      let nodeName := node_of fn in
      r ← kn_get nodeName;
      match r with
      | inr _ =>
        c ← mayClassify fn nodeName;
        match c with
        | Some (reason, msg) => e ← setPhase fn reason msg; mret (0, e)
        | None => reconcileOnline fn
        end
      | inl e => if negb (err_notfound e) then mret (0, Some e) else awaitNode fn nodeName
      end
  end.

(** The FrameNodes an event on a node wakes. *)
Definition nodeToFrameNode (name : string) : St W (list NamespacedName) :=
  r ← fn_list;
  mret match r with
  | inl _ => []
  | inr l => map fn_key (filter (fun fn => node_of fn = name) l)
  end.
End Controller.

(** ** framenode_webhook.go *)

Definition Default_node (name : string) (s : FrameNodeSpec) : FrameNodeSpec :=
  mkFNSpec (ns_IP s) (ns_Role s) (ns_Network s) (ns_RDMAInterface s) (if bool_decide (ns_Hostname s = "") then name else ns_Hostname s) (ns_Rack s) (ns_Zone s) (ns_ServiceClass s).
Fixpoint check_dns (l : list string) : option string :=
  match l with
  | [] => None
  | dns :: l => match ParseIP dns with None => Some ("spec.network.dns entry " +:+ quote dns +:+ " is not a valid IP address") | Some _ => check_dns l end
  end.
Definition validateFrameNode (s : FrameNodeSpec) : option string :=
  match ParseIP (ns_IP s) with
  | None => Some ("spec.ip " +:+ quote (ns_IP s) +:+ " is not a valid IP address")
  | Some _ => check_dns (default [] (nw_DNS (ns_Network s)))
  end.

End Nodes.
