(* ===== verification/FrameNodesSafety.v ===== *)
(** What a pass over a FrameNode may do to the node it names, call by call, and runs
    on an in-memory API server: what the deletion of a FrameNode strips, two of the
    same second, and a deletion whose read fails. *)
From stdpp Require Import base tactics strings list gmap.
From Stdlib Require Import ZArith Lia.
From S2P Require Import Prelude Trace GoLib GoTime Kube Cluster StorageAlerts ConversionSafety V1beta1 FrameNodes.

Open Scope Z_scope.

(** ** Labels *)

(** The value of a key a FrameNode manages: [Some None] has no label. *)
Definition nonempty_value (v : string) : option string := if bool_decide (v = "") then None else Some v.
Section Labels.
Context `{F : Foreign}.
Definition managed (s : FrameNodeSpec) (k : string) : option (option string) :=
  if bool_decide (k = nodeLabelRack) then Some (nonempty_value (ns_Rack s))
  else if bool_decide (k = nodeLabelZone) then Some (nonempty_value (ns_Zone s))
  else if bool_decide (k = nodeLabelServiceClass) then Some (nonempty_value (ns_ServiceClass s))
  else if bool_decide (k = nodeLabelRole) then Some (nonempty_value (ns_Role s))
  else if bool_decide (k = nodeLabelRDMA) then Some (nonempty_value (rdma_value s))
  else if bool_decide (k = legacyLabelRack) then Some None
  else None.

Lemma apply_lookup labels key value k : applyNodeLabel labels key value !! k = if bool_decide (k = key) then nonempty_value value else labels !! k.
Proof.
  unfold applyNodeLabel, nonempty_value. repeat case_bool_decide; subst; rewrite ?lookup_delete_eq, ?lookup_insert_eq, ?lookup_delete_ne, ?lookup_insert_ne by done; done.
Qed.

(** Each managed key is as the spec says, every other as it was. *)
Lemma labelled_lookup s labels k : labelled s labels !! k = match managed s k with Some v => v | None => labels !! k end.
Proof.
  unfold labelled, managed. destruct (decide (k = legacyLabelRack)) as [->|H]; [by rewrite lookup_delete_eq|]. rewrite lookup_delete_ne, !apply_lookup by done.
  rewrite (bool_decide_false (k = legacyLabelRack)) by done. repeat (case_bool_decide; [subst; done|]). done.
Qed.
Lemma stripped_lookup labels k : stripped labels !! k = if bool_decide (k ∈ legacyLabelRack :: frameNodeLabels) then None else labels !! k.
Proof.
  unfold stripped, frameNodeLabels. cbn [foldl]. case_bool_decide as H.
  - repeat (apply elem_of_cons in H as [->|H]); rewrite ?lookup_delete_eq; try done; try (by apply not_elem_of_nil in H);
      repeat (rewrite lookup_delete_ne by done; rewrite ?lookup_delete_eq; try done).
  - by rewrite !lookup_delete_ne by set_solver.
Qed.
End Labels.

(** ** The calls *)

Section Calls.
Context `{F : Foreign}.

Inductive ncall : Type :=
| NGet (k : NamespacedName) (r : result apierr FNode)
| NUpdate (fn : FNode) (e : option apierr)
| NStatus (base new : FNode) (e : option apierr)
| NList (r : result apierr (list FNode))
| NNode (name : string) (r : result apierr KNode)
| NPatch (old new : KNode) (r : result apierr KNode)
| NEvent (k : NamespacedName) (ev : Event).

Class TracedNodes (W : Type) {NA : NodesApi W} := {
  ncalls : W -> list ncall;
  n_get w k : ncalls (fn_get k w).2 = (ncalls w ++ [NGet k (fn_get k w).1])%list;
  n_update w f : ncalls (fn_update f w).2 = (ncalls w ++ [NUpdate f (fn_update f w).1])%list;
  n_status w b f : ncalls (fn_patch_status b f w).2 = (ncalls w ++ [NStatus b f (fn_patch_status b f w).1])%list;
  n_list w : ncalls (fn_list w).2 = (ncalls w ++ [NList (fn_list w).1])%list;
  n_node w k : ncalls (kn_get k w).2 = (ncalls w ++ [NNode k (kn_get k w).1])%list;
  n_patch w o n : ncalls (kn_patch o n w).2 = (ncalls w ++ [NPatch o n (kn_patch o n w).1])%list;
  n_event w k e : ncalls (fn_event k e w).2 = (ncalls w ++ [NEvent k e])%list
}.

Section May.
Context {W : Type} {NA : NodesApi W}.

(** The FrameNode may speak for its node: it classifies something, and among the
    FrameNodes listed no other that names the node is older. *)
Definition speaks (pre : list ncall) (fn : FNode) : Prop :=
  classifies (fn_Spec fn) = true /\
  exists l, NList (inr l) ∈ pre /\ forall o, o ∈ l -> fn_UID o <> fn_UID fn -> node_of o = node_of fn -> before (fn_Created o) (fn_Created fn) = false.

(** Why Ready says [phase]. *)
Definition says (pre : list ncall) (fn : FNode) (new : FNode) : Prop :=
  (exists msg, new = phased fn nodePhaseAwaitingNode msg /\ exists e, NNode (node_of fn) (inl e) ∈ pre /\ err_notfound e = true) \/
  (exists msg, new = phased fn nodePhaseUnclassified msg /\
     (classifies (fn_Spec fn) = false \/ (exists e, NList (inl e) ∈ pre) \/
      exists l o, NList (inr l) ∈ pre /\ o ∈ l /\ fn_UID o <> fn_UID fn /\ node_of o = node_of fn /\ before (fn_Created o) (fn_Created fn) = true)) \/
  (exists old patched node, NPatch old patched (inr node) ∈ pre /\ speaks pre fn /\ new = synced fn node).

Definition may (key : NamespacedName) (pre : list ncall) (c : ncall) : Prop :=
  match c with
  | NPatch old new _ =>
    exists fn, NGet key (inr fn) ∈ pre /\ NNode (node_of fn) (inr old) ∈ pre /\ new = set_kn_labels old (kn_Labels new) /\
      ((fn_Deleting fn = false /\ fn_contains_finalizer (fn_Finalizers fn) frameNodeFinalizer = true /\ speaks pre fn /\
        forall k, kn_Labels new !! k = match managed (fn_Spec fn) k with Some v => v | None => kn_Labels old !! k end) \/
       (fn_Deleting fn = true /\ forall k, kn_Labels new !! k = if bool_decide (k ∈ legacyLabelRack :: frameNodeLabels) then None else kn_Labels old !! k))
  | NUpdate fn' _ =>
    exists fn, NGet key (inr fn) ∈ pre /\
      ((fn_Deleting fn = false /\ fn_contains_finalizer (fn_Finalizers fn) frameNodeFinalizer = false /\
        fn' = set_fn_finalizers fn (fn_add_finalizer (fn_Finalizers fn) frameNodeFinalizer)) \/
       (fn_Deleting fn = true /\ fn' = set_fn_finalizers fn (fn_remove_finalizer (fn_Finalizers fn) frameNodeFinalizer) /\
        ((exists old node, NPatch old (set_kn_labels old (stripped (kn_Labels old))) (inr node) ∈ pre) \/ exists e, NNode (node_of fn) (inl e) ∈ pre)))
  | NStatus base new _ =>
    NGet key (inr base) ∈ pre /\ fn_Deleting base = false /\ fn_contains_finalizer (fn_Finalizers base) frameNodeFinalizer = true /\ says pre base new
  | _ => True
  end.
End May.

Section Safety.
Context {W : Type} {NA : NodesApi W} {TN : TracedNodes W}.
Variable key : NamespacedName.

Abbreviation goes := (Trace.goes ncalls (may key)).
Ltac call H := eapply goes_call; [intros; apply H|intros ?|intros ?].
Ltac say H := eapply (goes_call _ _ _ _ (fun _ => _)); [intros; apply H|intros ?|intros ?].

Definition live (pre : list ncall) (fn : FNode) : Prop :=
  NGet key (inr fn) ∈ pre /\ fn_Deleting fn = false /\ fn_contains_finalizer (fn_Finalizers fn) frameNodeFinalizer = true.
Lemma live_snoc pre t fn : live pre fn -> live (pre ++ t) fn.
Proof. intros (H & ?). split; [set_solver|done]. Qed.
Lemma speaks_snoc pre t fn : speaks pre fn -> speaks (pre ++ t) fn.
Proof. intros (H & l & Hl & ?). split; [done|]. exists l. split; [set_solver|done]. Qed.

Lemma older_spec fn nodeName l : match older fn nodeName l with
  | Some o => o ∈ l /\ fn_UID o <> fn_UID fn /\ node_of o = nodeName /\ before (fn_Created o) (fn_Created fn) = true
  | None => forall o, o ∈ l -> fn_UID o <> fn_UID fn -> node_of o = nodeName -> before (fn_Created o) (fn_Created fn) = false
  end.
Proof.
  induction l as [|x l IH]; cbn; [by intros ? ?%not_elem_of_nil|].
  repeat case_bool_decide; [| |destruct (before (fn_Created x) (fn_Created fn)) eqn:E; [split; [set_solver|done]|]];
    (destruct (older fn nodeName l); [destruct IH as (? & ?); split; [set_solver|done]|intros o [->|Ho]%elem_of_cons; [done|by apply IH]]).
Qed.

Lemma await_goes pre fn e : live pre fn -> NNode (node_of fn) (inl e) ∈ pre -> err_notfound e = true -> goes pre (awaitNode fn (node_of fn)).
Proof.
  intros (Hg & Hd & Hf) He Hn. unfold awaitNode, setPhase. say n_event; [done|]. call n_status; [|apply goes_ret]. split; [set_solver|]. do 2 (split; [done|]).
  left. eexists. split; [done|]. exists e. split; [set_solver|done].
Qed.

Lemma online_goes pre fn : live pre fn -> speaks pre fn -> goes pre (reconcileOnline fn).
Proof.
  intros Hl Hs. unfold reconcileOnline. call n_node; [done|]. destruct a as [e|node].
  - destruct (err_notfound e) eqn:He; [|apply goes_ret]. eapply (await_goes _ _ e); [by apply live_snoc|set_solver|done].
  - destruct (live_snoc pre [NNode (node_of fn) (inr node)] fn Hl) as (Hg & Hd & Hf). call n_patch.
    + exists fn. split; [done|]. split; [set_solver|]. split; [done|]. left. do 2 (split; [done|]). split; [by apply speaks_snoc|]. apply labelled_lookup.
    + destruct a as [e|answer]; [apply goes_ret|]. call n_status.
      * split; [set_solver|]. do 2 (split; [done|]). right. right. exists node, (set_kn_labels node (labelled (fn_Spec fn) (kn_Labels node))), answer. split; [set_solver|]. split; [by do 2 apply speaks_snoc|done].
      * destruct a; [apply goes_ret|]. say n_event; [done|apply goes_ret].
Qed.

(** The evidence of a refusal. *)
Definition refused (pre : list ncall) (fn : FNode) : Prop :=
  classifies (fn_Spec fn) = false \/ (exists e, NList (inl e) ∈ pre) \/
  exists l o, NList (inr l) ∈ pre /\ o ∈ l /\ fn_UID o <> fn_UID fn /\ node_of o = node_of fn /\ before (fn_Created o) (fn_Created fn) = true.
Lemma refused_snoc pre t fn : refused t fn -> refused (pre ++ t) fn.
Proof. intros [?|[(e & ?)|(l & o & ? & ?)]]; [by left|right; left; exists e; set_solver|right; right; exists l, o; split; [set_solver|done]]. Qed.

Lemma classify_emits fn : emits ncalls (mayClassify fn (node_of fn)) (fun c t => (forall pre, justified (may key) pre t) /\
  match c with Some (reason, _) => reason = nodePhaseUnclassified /\ refused t fn | None => speaks t fn end).
Proof.
  unfold mayClassify. destruct (classifies (fn_Spec fn)) eqn:Hc; cbn [negb]; [|apply emits_ret; split; [done|split; [done|by left]]].
  eapply emits_call; [intros; apply n_list|]. intros [e|l]; apply emits_ret; (split; [done|]).
  - split; [done|]. right. left. exists e. set_solver.
  - pose proof (older_spec fn (node_of fn) l) as H. destruct (older fn (node_of fn) l) as [o|].
    + split; [done|]. right. right. exists l, o. split; [set_solver|done].
    + split; [done|]. exists l. split; [set_solver|done].
Qed.

Lemma strip_goes pre fn : NGet key (inr fn) ∈ pre -> fn_Deleting fn = true -> goes pre (reconcileDelete fn).
Proof.
  intros Hg Hd. unfold reconcileDelete, release_node. call n_node; [done|]. destruct a as [e|node].
  - call n_update; [|apply goes_ret]. exists fn. split; [set_solver|]. right. do 2 (split; [done|]). right. exists e. set_solver.
  - call n_patch.
    + exists fn. split; [set_solver|]. split; [set_solver|]. split; [done|]. right. split; [done|]. apply stripped_lookup.
    + destruct a as [e|answer]; [apply goes_ret|]. call n_update; [|apply goes_ret]. exists fn. split; [set_solver|]. right. do 2 (split; [done|]). left. exists node, answer. set_solver.
Qed.
End Safety.

(** Whatever the API server answers, a pass over a FrameNode writes to no node but the
    one it names, and nothing there but labels: while it lives, only when it classifies
    something and no older FrameNode of those listed names the node, each key it manages
    as its spec says and every other as read; once it is being deleted, the keys of Frame
    go. Ready says Online only as the answer to that write says the node is Ready,
    AwaitingNode only for a node that was not found, and Unclassified only with its
    reason; and the finalizer is released only after the strip was taken or the node
    could not be read. *)
Theorem node_labels_justified {W : Type} {NA : NodesApi W} {TN : TracedNodes W} (key : NamespacedName) (w : W) :
  exists t, ncalls (Reconcile key w).2 = (ncalls w ++ t)%list /\ justified (may key) [] t.
Proof.
  assert (Trace.goes ncalls (may key) [] (Reconcile key)) as H; [|apply H].
  unfold Reconcile. eapply goes_call; [intros; apply n_get|done|]. intros [e|fn]; [apply goes_ret|]. destruct (fn_Deleting fn) eqn:Hd; [apply strip_goes; [set_solver|done]|].
  destruct (fn_contains_finalizer _ _) eqn:Hf; cbn [negb].
  - assert (live key ([] ++ [NGet key (inr fn)]) fn) as Hl by (split; [set_solver|done]).
    eapply goes_call; [intros; apply n_node|done|]. intros [e|node].
    + destruct (err_notfound e) eqn:He; [|apply goes_ret]. cbn [negb]. eapply (await_goes _ _ _ e); [by apply live_snoc|set_solver|done].
    + eapply goes_bind; [apply (classify_emits key)|]. intros [[reason msg]|] t [Hj Hc]; (split; [done|]).
      * destruct Hc as [-> Hr]. unfold setPhase. destruct (live_snoc _ _ t _ (live_snoc _ _ [NNode (node_of fn) (inr node)] _ Hl)) as (Hg & _).
        eapply goes_call; [intros; apply n_status|intros e|intros; apply goes_ret]. do 3 (split; [done|]). right. left. exists msg. split; [done|]. by apply refused_snoc.
      * apply online_goes; [by do 2 apply live_snoc|]. destruct Hc as (Hk & l & Hin & Ho). split; [done|]. exists l. split; [set_solver|done].
  - eapply goes_call; [intros; apply n_update| |intros; apply goes_ret]. intros e. exists fn. split; [set_solver|]. by left.
Qed.
End Calls.

(** ** Runs *)

(** FrameNodes by name, one node, and whether the next reads of it fail. *)
Record nworld := mkNWorld { nw_log : list ncall; nw_fns : list (string * FNode); nw_node : KNode; nw_down : bool }.
Definition nnote {A} (ev : A -> ncall) (r : A) (w : nworld) : A * nworld := (r, mkNWorld (nw_log w ++ [ev r]) (nw_fns w) (nw_node w) (nw_down w)).
Definition put_fn (fn : FNode) (gone : bool) (w : nworld) : nworld :=
  mkNWorld (nw_log w) (filter (fun e => e.1 <> fn_Name fn) (nw_fns w) ++ if gone then [] else [(fn_Name fn, fn)]) (nw_node w) (nw_down w).
Definition put_node (n : KNode) (w : nworld) : nworld := mkNWorld (nw_log w) (nw_fns w) n (nw_down w).
Definition missing : apierr := ApiErr "not found" true false.

#[local] Instance mem_nodes : NodesApi nworld := {|
  fn_get k w := nnote (NGet k) (match List.find (fun e => bool_decide (e.1 = k.2)) (nw_fns w) with Some e => inr e.2 | None => inl missing end) w;
  fn_update fn w := nnote (NUpdate fn) None (put_fn fn (fn_Deleting fn && bool_decide (fn_Finalizers fn = [])) w);
  fn_patch_status b n w := nnote (NStatus b n) None (put_fn n false w);
  fn_list w := nnote NList (inr (map snd (nw_fns w))) w;
  kn_get n w := nnote (NNode n) (if nw_down w then inl (plain_err "etcdserver: request timed out") else if bool_decide (n = kn_Name (nw_node w)) then inr (nw_node w) else inl missing) w;
  kn_patch o n w := nnote (NPatch o n) (inr n) (put_node n w);
  fn_event k e w := nnote (fun _ => NEvent k e) tt w;
  fn_contains_finalizer fs f := bool_decide (f ∈ fs);
  fn_add_finalizer fs f := fs ++ [f];
  fn_remove_finalizer fs f := filter (fun x => x <> f) fs;
  fn_set_cond cs c := c :: filter (fun x => c_Type x <> c_Type c) cs
|}.
#[local] Instance mem_traced_nodes : TracedNodes nworld.
Proof. refine {| ncalls := nw_log |}; done. Defined.

Definition frame_node (name : string) (created : Z) (deleting : bool) (class : string) : FNode :=
  mkFNode "frame" name name (Time created 0) 1 [frameNodeFinalizer] deleting (mkFNSpec "10.0.0.1" "" (mkNet "" "" None None None) "" "gpu-1" "" "" class)
    (mkNStatus 0 [] "" None None "").
Definition gpu_node : KNode := mkKNode "gpu-1" ∅ [("Ready", "True")] None None "v1.31".
Definition node_world (fns : list FNode) : nworld := mkNWorld [] (map (fun fn => (fn_Name fn, fn)) fns) gpu_node false.
Fixpoint node_passes (names : list string) (w : nworld) : nworld := match names with [] => w | n :: names => node_passes names (Reconcile ("frame", n) w).2 end.
Definition reason_of (w : nworld) (name : string) : option string :=
  match List.find (fun e => bool_decide (e.1 = name)) (nw_fns w) with Some e => c_Reason <$> head (fs_conditions (fn_Status e.2)) | None => None end.
Definition class_label (w : nworld) : option string := kn_Labels (nw_node w) !! nodeLabelServiceClass.
Definition delete_fn (name : string) (w : nworld) : nworld :=
  mkNWorld (nw_log w) (map (fun e => if bool_decide (e.1 = name)
    then (e.1, mkFNode (fn_Namespace e.2) (fn_Name e.2) (fn_UID e.2) (fn_Created e.2) (fn_Generation e.2) (fn_Finalizers e.2) true (fn_Spec e.2) (fn_Status e.2)) else e) (nw_fns w)) (nw_node w) (nw_down w).

(** A FrameNode that was refused the node strips it all the same when it is deleted:
    the class the older one had written is gone. *)
Theorem refused_strips_on_delete :
  let w1 := node_passes ["first"; "usurper"] (node_world [frame_node "first" 1 false "HIGH"; frame_node "usurper" 2 false "LOW"]) in
  let w2 := node_passes ["usurper"] (delete_fn "usurper" w1) in
  (reason_of w1 "first", reason_of w1 "usurper", class_label w1, class_label w2) = (Some "Online", Some "Unclassified", Some "HIGH", None).
Proof. vm_compute. reflexivity. Qed.

(** Two FrameNodes of the same second are both let through, and each pass of one
    rewrites the class of the other. *)
Theorem same_second_both_classify :
  let w0 := node_world [frame_node "first" 1 false "HIGH"; frame_node "second" 1 false "LOW"] in
  (class_label (node_passes ["first"] w0), class_label (node_passes ["first"; "second"] w0), class_label (node_passes ["first"; "second"; "first"] w0)) = (Some "HIGH", Some "LOW", Some "HIGH").
Proof. vm_compute. reflexivity. Qed.

(** A read of the node that fails lets the FrameNode go with its labels left behind. *)
Theorem unread_node_keeps_labels :
  let w1 := node_passes ["first"] (node_world [frame_node "first" 1 false "HIGH"]) in
  let w2 := delete_fn "first" w1 in
  let w3 := node_passes ["first"] (mkNWorld (nw_log w2) (nw_fns w2) (nw_node w2) true) in
  (length (nw_fns w3), class_label w3) = (O, Some "HIGH").
Proof. vm_compute. reflexivity. Qed.

(** A FrameNode whose hostname moves leaves its labels on the node it named. *)
Example moved_hostname_leaves_labels :
  let w1 := node_passes ["first"] (node_world [frame_node "first" 1 false "HIGH"]) in
  let moved fn := mkFNode (fn_Namespace fn) (fn_Name fn) (fn_UID fn) (fn_Created fn) 2 (fn_Finalizers fn) (fn_Deleting fn) (mkFNSpec "10.0.0.1" "" (mkNet "" "" None None None) "" "gpu-2" "" "" "HIGH") (fn_Status fn) in
  let w2 := node_passes ["first"] (mkNWorld (nw_log w1) (map (fun e => (e.1, moved e.2)) (nw_fns w1)) (nw_node w1) false) in
  (reason_of w2 "first", class_label w2) = (Some "AwaitingNode", Some "HIGH").
Proof. vm_compute. reflexivity. Qed.

Lemma node_labels_justified_witness : exists t, ncalls (Reconcile ("frame", "first") (node_world [frame_node "first" 1 false "HIGH"])).2 = ([] ++ t)%list /\ justified (may ("frame", "first")) [] t.
Proof. exact (node_labels_justified ("frame", "first") (node_world [frame_node "first" 1 false "HIGH"])). Defined.
