(* ===== verification/FrameStorages.v ===== *)
(** internal/controller/frame/framestorage_controller.go with the two webhooks around
    it (internal/webhook/frame/v1beta1/framestorage_webhook.go and
    internal/webhook/core/v1/pvc_webhook.go): the entries that describe where volumes
    may live, the StorageClass each owns or adopts, and the claims admitted to it.

    The API server, the Ceph readers (nil on a cluster without Ceph) and
    resource.Quantity's text are the methods of [StorageWorld]. *)
From stdpp Require Import base tactics strings list gmap.
From Stdlib Require Import ZArith Lia.
From S2P Require Import Prelude GoLib GoTime Kube Cluster StorageAlerts.

Open Scope Z_scope.

Definition UsageLabel : string := "frame.plume-labs.io/usage".
Definition storageResyncInterval : Z := 2 * minute.

(** ** Data *)

Record FrameStorageSpec := mkFSSpec { sg_Type : string; sg_Content : list string; sg_StorageClassName : string; sg_AdoptExisting : bool; sg_Nodes : list string }.
Record StorageCapacity := mkCapacity { sy_Usable : string; sy_Used : string; sy_Raw : string }.
Record ClaimCounts := mkCounts { cc_Total : Z; cc_Labelled : Z }.
Record CephPoolPlacement := mkPool { pp_Name : string; pp_Size : Z; pp_MinSize : Z; pp_CrushRule : string }.
Record CephOSDWeight := mkOSD { os_ID : Z; os_CrushWeight : string; os_DeviceClass : string }.
Record CephPlacement := mkPlacement {
  cp_State : string; cp_Message : string; cp_CollectedAt : option time; cp_PoolsReadAt : option time; cp_OSDsReadAt : option time;
  cp_RulesReadAt : option time; cp_CertificateNotAfter : option time; cp_Pools : list CephPoolPlacement; cp_OSDs : list CephOSDWeight
}.
Record FrameStorageStatus := mkFSStatus {
  sx_ObservedGeneration : Z; sx_Shared : bool; sx_Phase : string; sx_Capacity : option StorageCapacity; sx_Claims : option ClaimCounts;
  sx_Adopted : bool; sx_CephPlacement : option CephPlacement; sx_Conditions : list Condition
}.
Record FrameStorage := mkFStorage { sr_Name : string; sr_UID : string; sr_Generation : Z; sr_Spec : FrameStorageSpec; sr_Status : FrameStorageStatus }.
Definition set_sr_status (fs : FrameStorage) (s : FrameStorageStatus) : FrameStorage := mkFStorage (sr_Name fs) (sr_UID fs) (sr_Generation fs) (sr_Spec fs) s.

(** A StorageClass, with the UID of its controller among its owner references. *)
Record StorageClass := mkClass { sl_Name : string; sl_Provisioner : string; sl_Controller : option string }.
(** A PersistentVolumeClaim; a class that is not named is [None]. *)
Record Claim := mkClaim { pv_Namespace : string; pv_Name : string; pv_Labels : strmap; pv_StorageClassName : option string }.

Definition SharedForType (t : string) : bool := bool_decide (t ∈ ["ceph-rbd"; "ceph-bucket"]).
Definition provisionerFor (t : string) : option string :=
  if bool_decide (t = "ceph-rbd") then Some "rook-ceph.rbd.csi.ceph.com"
  else if bool_decide (t = "ceph-bucket") then Some "rook-ceph.ceph.rook.io/bucket"
  else if bool_decide (t = "local-path") then Some "rancher.io/local-path"
  else None.

(** [set_controller] is ctrl.SetControllerReference, [binary_quantity]
    resource.NewQuantity(_, BinarySI).String(). *)
Class StorageWorld (W : Type) := {
  sr_get : string -> St W (result apierr FrameStorage);
  sr_list : St W (result apierr (list FrameStorage));
  sr_patch_status : FrameStorage -> FrameStorage -> St W (option apierr);
  sl_get : string -> St W (result apierr StorageClass);
  sl_create : StorageClass -> St W (option apierr);
  pv_list : St W (result apierr (list Claim));
  CephHealth : option (St W (result string (string * list string)));
  CephCapacity : option (string -> St W (result string (Z * Z * Z)));
  CephPlacementRead : option (St W (option CephPlacement));
  err_exists : apierr -> bool;
  set_controller : FrameStorage -> StorageClass -> result string StorageClass;
  binary_quantity : Z -> string;
  sr_set_cond : list Condition -> Condition -> list Condition
}.

Definition is_ceph (fs : FrameStorage) : bool := has_prefix "ceph-" (sg_Type (sr_Spec fs)).
(** The conversion of a uint64 to int64. *)
Definition to_int64 (z : Z) : Z := (z + 2 ^ 63) `mod` 2 ^ 64 - 2 ^ 63.
(** An int32 counter. *)
Definition to_int32 (z : Z) : Z := (z + 2 ^ 31) `mod` 2 ^ 32 - 2 ^ 31.

Definition IsControlledBy (sc : StorageClass) (fs : FrameStorage) : bool := bool_decide (sl_Controller sc = Some (sr_UID fs)).

Section Controller.
Context {W : Type} {SW : StorageWorld W}.

Definition bytesToQuantityString (bytes : Z) : string := binary_quantity (to_int64 bytes).

(** [inr adopted]. *)
Definition reconcileClass (fs : FrameStorage) : St W (result apierr bool) :=
  let name := sg_StorageClassName (sr_Spec fs) in
  r ← sl_get name;
  match r with
  | inr sc => mret (inr (negb (IsControlledBy sc fs)))
  | inl e =>
    if negb (err_notfound e) then mret (inl (wrap_err ("reading StorageClass " +:+ quote name) e))
    else match provisionerFor (sg_Type (sr_Spec fs)) with
    | None => mret (inl (plain_err ("no provisioner known for type " +:+ quote (sg_Type (sr_Spec fs)))))
    | Some provisioner =>
      match set_controller fs (mkClass name provisioner None) with
      | inl e => mret (inl (plain_err ("setting owner on StorageClass: " +:+ e)))
      | inr created =>
        e ← sl_create created;
        mret match e with
        | Some e => if negb (err_exists e) then inl (wrap_err ("creating StorageClass " +:+ quote name) e) else inr false
        | None => inr false
        end
      end
    end
  end.

Fixpoint count_claims (className : string) (l : list Claim) (c : ClaimCounts) : ClaimCounts :=
  match l with
  | [] => c
  | pvc :: l =>
    if bool_decide (pv_StorageClassName pvc = Some className) then
      count_claims className l (mkCounts (to_int32 (cc_Total c + 1)) (if bool_decide (is_Some (pv_Labels pvc !! UsageLabel)) then to_int32 (cc_Labelled c + 1) else cc_Labelled c))
    else count_claims className l c
  end.
Definition countClaims (className : string) : St W (result apierr ClaimCounts) :=
  r ← pv_list;
  mret match r with
  | inl e => inl (wrap_err "listing PersistentVolumeClaims" e)
  | inr l => inr (count_claims className l (mkCounts 0 0))
  end.

(** [Z.div] is the division of uint64. *)
Definition capacity_of (raw used replication : Z) : StorageCapacity :=
  if 1 <=? replication then mkCapacity (bytesToQuantityString (raw / replication)) (bytesToQuantityString (used / replication)) (bytesToQuantityString raw)
  else mkCapacity "" "" (bytesToQuantityString raw).
Definition reconcileCapacity (fs : FrameStorage) : St W (option StorageCapacity) :=
  let kept := sx_Capacity (sr_Status fs) in
  if negb (is_ceph fs) then mret kept
  else match CephCapacity with
  | None => mret kept
  | Some read =>
    r ← read (sg_StorageClassName (sr_Spec fs));
    mret match r with inl _ => kept | inr (raw, used, replication) => Some (capacity_of raw used replication) end
  end.

(** A failed read without lists keeps those of the status. *)
Definition kept_lists (prev : option CephPlacement) (p : CephPlacement) : CephPlacement :=
  let failed := bool_decide (cp_State p = "Error") || bool_decide (cp_State p = "AuthRefused") in
  match prev with
  | Some prev =>
    if failed && bool_decide (length (cp_Pools p) = 0%nat) && bool_decide (length (cp_OSDs p) = 0%nat) then
      mkPlacement (cp_State p) (cp_Message p) (cp_CollectedAt prev) (cp_PoolsReadAt p) (cp_OSDsReadAt p) (cp_RulesReadAt p) (cp_CertificateNotAfter p) (cp_Pools prev) (cp_OSDs prev)
    else p
  | None => p
  end.
Definition reconcilePlacement (fs : FrameStorage) : St W (option CephPlacement) :=
  let prev := sx_CephPlacement (sr_Status fs) in
  if negb (is_ceph fs) then mret prev
  else match CephPlacementRead with
  | None => mret prev
  | Some read => r ← read; mret match r with None => prev | Some p => Some (kept_lists prev p) end
  end.

(** The phase, and the Healthy condition when there is one to set. *)
Definition reconcileHealth (fs : FrameStorage) : St W (string * option Condition) :=
  if negb (is_ceph fs) then mret ("Unknown", None)
  else match CephHealth with
  | None => mret ("Unknown", None)
  | Some read =>
    r ← read;
    let cond status reason msg := Some (mkCondition "Healthy" status reason msg (sr_Generation fs)) in
    mret match r with
    | inl e => ("Unknown", cond "Unknown" "CheckFailed" ("could not read Ceph health: " +:+ e))
    | inr (health, reasons) =>
      if bool_decide (health = "HEALTH_OK") then ("Ready", cond "True" "CephHealthOK" health)
      else ("Degraded", cond "False" "CephDegraded" (if bool_decide (reasons <> []) then health +:+ ": " +:+ join "; " reasons else health))
    end
  end.

Definition reconcileAvailability (fs : FrameStorage) (cs : list Condition) : list Condition :=
  let nodes := sg_Nodes (sr_Spec fs) in
  sr_set_cond cs (mkCondition "Available" "True" "Declared" (if bool_decide (nodes <> []) then join ", " nodes else "all nodes") (sr_Generation fs)).

(** A pass: the time to its next one, 0 for none, and its error. *)
Definition Reconcile (name : string) : St W (Z * option apierr) :=
  r ← sr_get name;
  match r with
  | inl e => mret (0, ignore_not_found (Some e))
  | inr fs =>
    a ← reconcileClass fs;
    match a with
    | inl e => mret (0, Some e)
    | inr adopted =>
      c ← countClaims (sg_StorageClassName (sr_Spec fs));
      match c with
      | inl e => mret (0, Some e)
      | inr claims =>
        capacity ← reconcileCapacity fs;
        placement ← reconcilePlacement fs;
        h ← reconcileHealth fs;
        let cs := match h.2 with Some c => sr_set_cond (sx_Conditions (sr_Status fs)) c | None => sx_Conditions (sr_Status fs) end in
        e ← sr_patch_status fs (set_sr_status fs (mkFSStatus (sr_Generation fs) (SharedForType (sg_Type (sr_Spec fs))) h.1 capacity (Some claims) adopted placement (reconcileAvailability fs cs)));
        mret match e with Some e => (0, Some (wrap_err "patching FrameStorage status" e)) | None => (storageResyncInterval, None) end
      end
    end
  end.

(** ** The webhooks: [Some] refuses *)

Definition validateAdoption (fs : FrameStorage) : St W (option string) :=
  let name := sg_StorageClassName (sr_Spec fs) in
  if sg_AdoptExisting (sr_Spec fs) then mret None
  else
    r ← sl_get name;
    mret match r with
    | inl e =>
      if err_notfound e then None
      else Some ("cannot determine whether StorageClass " +:+ quote name +:+ " already exists (" +:+ err_text e +:+ "); refusing rather than risk adopting it")
    | inr _ => Some ("StorageClass " +:+ quote name +:+ " already exists and was not created by Frame: set spec.adoptExisting to true to reference it. " +:+
        "An adopted entry owns nothing and deletes nothing; without the flag, Frame would take ownership of a class " +:+ "that other volumes already provision from")
    end.
Definition ValidateCreate_storage (fs : FrameStorage) : St W (option string) := validateAdoption fs.
Definition ValidateUpdate_storage (old new : FrameStorage) : St W (option string) :=
  if bool_decide (sg_StorageClassName (sr_Spec old) = sg_StorageClassName (sr_Spec new)) then mret None else validateAdoption new.

(** The loop over the entries. *)
Fixpoint admit_claim (class usage : string) (l : list FrameStorage) : option string :=
  match l with
  | [] => None
  | e :: l =>
    if bool_decide (sg_StorageClassName (sr_Spec e) <> class) then admit_claim class usage l
    else if bool_decide (usage ∈ sg_Content (sr_Spec e)) then None
    else Some ("storage entry " +:+ quote (sr_Name e) +:+ " (class " +:+ quote (sg_StorageClassName (sr_Spec e)) +:+ ") accepts content types [" +:+
               join ", " (sg_Content (sr_Spec e)) +:+ "]; this claim declares " +:+ quote usage)
  end.
Definition validate_claim (pvc : Claim) : St W (option string) :=
  let usage := default "" (pv_Labels pvc !! UsageLabel) in
  if bool_decide (usage = "") then mret None
  else match pv_StorageClassName pvc with
  | None => mret None
  | Some class =>
    if bool_decide (class = "") then mret None
    else
      r ← sr_list;
      mret match r with inl _ => None | inr l => admit_claim class usage l end
  end.
End Controller.
