(* ===== verification/FrameStoragesSafety.v ===== *)
(** What a pass over a FrameStorage entry may do and report, call by call; what its
    webhooks admit; and runs: an adopting entry that owns, and lists kept without
    their dates. *)
From stdpp Require Import base tactics strings list gmap.
From Stdlib Require Import ZArith Lia.
From S2P Require Import Prelude Trace GoLib GoTime Kube Cluster StorageAlerts FrameStorages.

Open Scope Z_scope.

(** ** Counting *)

Definition of_class (className : string) (pvc : Claim) : Prop := pv_StorageClassName pvc = Some className.
Definition has_usage (className : string) (pvc : Claim) : Prop := pv_StorageClassName pvc = Some className /\ is_Some (pv_Labels pvc !! UsageLabel).
#[export] Instance of_class_dec c pvc : Decision (of_class c pvc) := ltac:(unfold of_class; apply _).
#[export] Instance has_usage_dec c pvc : Decision (has_usage c pvc) := ltac:(unfold has_usage; apply _).

Lemma to_int32_id z : 0 <= z < 2 ^ 31 -> to_int32 z = z.
Proof. intros H. unfold to_int32. rewrite Z.mod_small; lia. Qed.

Lemma count_claims_spec className l c : 0 <= cc_Labelled c -> 0 <= cc_Total c -> cc_Total c + Z.of_nat (length l) < 2 ^ 31 -> cc_Labelled c + Z.of_nat (length l) < 2 ^ 31 ->
  count_claims className l c = mkCounts (cc_Total c + Z.of_nat (length (filter (of_class className) l))) (cc_Labelled c + Z.of_nat (length (filter (has_usage className) l))).
Proof.
  revert c. induction l as [|pvc l IH]; intros c H0 H0' H1 H2; cbn [count_claims length] in *; [rewrite !Z.add_0_r; by destruct c|].
  rewrite !filter_cons. case_bool_decide as Hc.
  - rewrite (decide_True (P := of_class className pvc)) by done. rewrite to_int32_id by lia. case_bool_decide as Hu.
    + rewrite (decide_True (P := has_usage className pvc)) by done. rewrite to_int32_id by lia. rewrite IH; cbn [cc_Total cc_Labelled length]; [f_equal; lia|lia..].
    + rewrite (decide_False (P := has_usage className pvc)) by (by intros []). rewrite IH; cbn [cc_Total cc_Labelled length]; [f_equal; lia|lia..].
  - rewrite (decide_False (P := of_class className pvc)) by done. rewrite (decide_False (P := has_usage className pvc)) by (by intros []). rewrite IH by lia. done.
Qed.

(** ** The calls *)

Inductive scall : Type :=
| SGet (name : string) (r : result apierr FrameStorage)
| SLook (name : string) (r : result apierr StorageClass)
| SMake (sc : StorageClass) (e : option apierr)
| SClaims (r : result apierr (list Claim))
| SHealth (r : result string (string * list string))
| SCapacity (class : string) (r : result string (Z * Z * Z))
| SPlace (r : option CephPlacement)
| SStatus (base new : FrameStorage) (e : option apierr).

Class TracedStorage (W : Type) {SW : StorageWorld W} := {
  scalls : W -> list scall;
  s_get w n : scalls (sr_get n w).2 = (scalls w ++ [SGet n (sr_get n w).1])%list;
  s_look w n : scalls (sl_get n w).2 = (scalls w ++ [SLook n (sl_get n w).1])%list;
  s_make w c : scalls (sl_create c w).2 = (scalls w ++ [SMake c (sl_create c w).1])%list;
  s_claims w : scalls (pv_list w).2 = (scalls w ++ [SClaims (pv_list w).1])%list;
  s_health read w : CephHealth = Some read -> scalls (read w).2 = (scalls w ++ [SHealth (read w).1])%list;
  s_capacity read w c : CephCapacity = Some read -> scalls (read c w).2 = (scalls w ++ [SCapacity c (read c w).1])%list;
  s_place read w : CephPlacementRead = Some read -> scalls (read w).2 = (scalls w ++ [SPlace (read w).1])%list;
  s_status w b n : scalls (sr_patch_status b n w).2 = (scalls w ++ [SStatus b n (sr_patch_status b n w).1])%list
}.

Section May.
Context {W : Type} {SW : StorageWorld W}.

Definition class_of (fs : FrameStorage) : string := sg_StorageClassName (sr_Spec fs).
Definition class_made (pre : list scall) (fs : FrameStorage) (sc : StorageClass) : Prop :=
  (exists e, SLook (class_of fs) (inl e) ∈ pre /\ err_notfound e = true) /\
  exists p, provisionerFor (sg_Type (sr_Spec fs)) = Some p /\ set_controller fs (mkClass (class_of fs) p None) = inr sc.

(** What each figure of the status was read from. *)
Definition adopted_fact (pre : list scall) (fs : FrameStorage) (adopted : bool) : Prop :=
  (exists sc, SLook (class_of fs) (inr sc) ∈ pre /\ adopted = negb (IsControlledBy sc fs)) \/
  (adopted = false /\ exists sc e, SMake sc e ∈ pre /\ class_made pre fs sc /\ match e with Some e => err_exists e = true | None => True end).
Definition claims_fact (pre : list scall) (fs : FrameStorage) (c : option ClaimCounts) : Prop :=
  exists l, SClaims (inr l) ∈ pre /\
    (Z.of_nat (length l) < 2 ^ 31 -> c = Some (mkCounts (Z.of_nat (length (filter (of_class (class_of fs)) l))) (Z.of_nat (length (filter (has_usage (class_of fs)) l))))).
Definition capacity_fact (pre : list scall) (fs : FrameStorage) (c : option StorageCapacity) : Prop :=
  c = sx_Capacity (sr_Status fs) \/
  exists raw used replication cap, is_ceph fs = true /\ SCapacity (class_of fs) (inr (raw, used, replication)) ∈ pre /\ c = Some cap /\ sy_Raw cap = bytesToQuantityString raw /\
    (1 <= replication -> sy_Usable cap = bytesToQuantityString (raw / replication) /\ sy_Used cap = bytesToQuantityString (used / replication)) /\
    (replication < 1 -> sy_Usable cap = "" /\ sy_Used cap = "").
Definition read_failed (p : CephPlacement) : Prop := cp_State p = "Error" \/ cp_State p = "AuthRefused".
(** The lists of a failed read that has none are the last known. *)
Definition placement_fact (pre : list scall) (fs : FrameStorage) (p : option CephPlacement) : Prop :=
  p = sx_CephPlacement (sr_Status fs) \/
  exists read p', SPlace (Some read) ∈ pre /\ p = Some p' /\ cp_State p' = cp_State read /\ cp_Message p' = cp_Message read /\
    ((cp_Pools p' = cp_Pools read /\ cp_OSDs p' = cp_OSDs read /\
      (read_failed read -> cp_Pools read = [] -> cp_OSDs read = [] -> sx_CephPlacement (sr_Status fs) = None)) \/
     exists prev, sx_CephPlacement (sr_Status fs) = Some prev /\ read_failed read /\ cp_Pools p' = cp_Pools prev /\ cp_OSDs p' = cp_OSDs prev /\ cp_CollectedAt p' = cp_CollectedAt prev).
Definition phase_fact (pre : list scall) (fs : FrameStorage) (phase : string) : Prop :=
  phase = "Unknown" \/ (is_ceph fs = true /\ exists health reasons, SHealth (inr (health, reasons)) ∈ pre /\ phase = if bool_decide (health = "HEALTH_OK") then "Ready" else "Degraded").

Definition may (name : string) (pre : list scall) (c : scall) : Prop :=
  match c with
  | SMake sc _ => exists fs, SGet name (inr fs) ∈ pre /\ class_made pre fs sc
  | SStatus base new _ =>
    SGet name (inr base) ∈ pre /\ new = set_sr_status base (sr_Status new) /\ sx_ObservedGeneration (sr_Status new) = sr_Generation base /\
    adopted_fact pre base (sx_Adopted (sr_Status new)) /\ claims_fact pre base (sx_Claims (sr_Status new)) /\
    capacity_fact pre base (sx_Capacity (sr_Status new)) /\ placement_fact pre base (sx_CephPlacement (sr_Status new)) /\ phase_fact pre base (sx_Phase (sr_Status new))
  | _ => True
  end.
End May.

Section Safety.
Context {W : Type} {SW : StorageWorld W} {TS : TracedStorage W}.
Variable name : string.
Abbreviation goes := (Trace.goes scalls (may name)).
Abbreviation emits := (Trace.emits scalls).
Ltac call H := eapply goes_call; [intros; apply H|intros ?|intros ?].

(** A part of the pass that only reads: its calls are free, and with them it knows
    [P]. *)
Definition learns {A} (m : St W A) (P : A -> list scall -> Prop) : Prop := emits m (fun a t => (forall pre, justified (may name) pre t) /\ P a t).
Lemma learns_bind {A B} (m : St W A) (k : A -> St W B) P pre : learns m P -> (forall a t, P a t -> goes (pre ++ t) (k a)) -> goes pre (m ≫= k).
Proof. intros Hm Hk. eapply goes_bind; [exact Hm|]. intros a t [Hj HP]. split; [apply Hj|by apply Hk]. Qed.
Lemma learns_ret {A} (a : A) (P : A -> list scall -> Prop) : P a [] -> learns (mret a) P.
Proof. intros H. apply emits_ret. split; [done|exact H]. Qed.
Lemma learns_read {A B} (m : St W A) (ev : A -> scall) (f : A -> B) (P : B -> list scall -> Prop) : (forall w, scalls (m w).2 = (scalls w ++ [ev (m w).1])%list) ->
  (forall a pre, may name pre (ev a)) -> (forall a, P (f a) [ev a]) -> learns (a ← m; mret (f a)) P.
Proof. intros Hm Hmay HP. eapply emits_call; [exact Hm|]. intros a. apply emits_ret. split; [|apply HP]. intros pre. split; [apply Hmay|done]. Qed.

Lemma claims_learns fs : learns (countClaims (class_of fs)) (fun c t => match c with inr c => claims_fact t fs (Some c) | inl _ => True end).
Proof.
  apply (learns_read _ (fun r => SClaims r)); [intros; apply s_claims|done|]. intros [e|l]; [done|]. exists l. split; [set_solver|]. intros Hl. by rewrite count_claims_spec by (cbn; lia).
Qed.
Lemma capacity_learns fs : learns (reconcileCapacity fs) (fun c t => capacity_fact t fs c).
Proof.
  unfold reconcileCapacity. destruct (is_ceph fs) eqn:Hc; cbn [negb]; [|apply learns_ret; by left]. destruct CephCapacity as [read|] eqn:E; [|apply learns_ret; by left].
  apply (learns_read _ (fun r => SCapacity (class_of fs) r)); [intros; by apply s_capacity|done|]. intros [e|[[raw used] replication]]; [by left|]. right. exists raw, used, replication, (capacity_of raw used replication). split; [done|]. split; [set_solver|].
  split; [done|]. unfold capacity_of. destruct (Z.leb_spec 1 replication); (split; [done|]; split; [intros; by try lia|intros; by try lia]).
Qed.
Lemma placement_learns fs : learns (reconcilePlacement fs) (fun p t => placement_fact t fs p).
Proof.
  unfold reconcilePlacement. destruct (is_ceph fs); cbn [negb]; [|apply learns_ret; by left]. destruct CephPlacementRead as [read|] eqn:E; [|apply learns_ret; by left].
  apply (learns_read _ (fun r => SPlace r)); [intros; by apply s_place|done|]. intros [p|]; [|by left]. right. exists p, (kept_lists (sx_CephPlacement (sr_Status fs)) p). split; [set_solver|]. split; [done|].
  unfold kept_lists. destruct (sx_CephPlacement (sr_Status fs)) as [prev|] eqn:Ep.
  - destruct (bool_decide (cp_State p = "Error") || bool_decide (cp_State p = "AuthRefused")) eqn:Ef; cbn [andb].
    + apply orb_true_iff in Ef. rewrite !bool_decide_eq_true in Ef. destruct (bool_decide (length (cp_Pools p) = 0%nat) && bool_decide (length (cp_OSDs p) = 0%nat)) eqn:El.
      * split; [done|]. split; [done|]. right. by exists prev.
      * split; [done|]. split; [done|]. left. do 2 (split; [done|]). intros _ Hp Ho. by rewrite Hp, Ho in El.
    + apply orb_false_iff in Ef. rewrite !bool_decide_eq_false in Ef. split; [done|]. split; [done|]. left. do 2 (split; [done|]). unfold read_failed. tauto.
  - by do 2 (split; [done|]); left.
Qed.
Lemma health_learns fs : learns (reconcileHealth fs) (fun h t => phase_fact t fs h.1).
Proof.
  unfold reconcileHealth. destruct (is_ceph fs) eqn:Hc; cbn [negb]; [|apply learns_ret; by left]. destruct CephHealth as [read|] eqn:E; [|apply learns_ret; by left].
  apply (learns_read _ (fun r => SHealth r)); [intros; by apply s_health|done|]. intros [e|[health reasons]]; [by left|]. right. split; [done|]. exists health, reasons. split; [set_solver|by case_bool_decide].
Qed.

Lemma class_goes pre fs (k : result apierr bool -> St W (Z * option apierr)) : SGet name (inr fs) ∈ pre ->
  (forall t a, adopted_fact (pre ++ t) fs a -> goes (pre ++ t) (k (inr a))) -> (forall t e, goes (pre ++ t) (k (inl e))) -> goes pre (reconcileClass fs ≫= k).
Proof.
  intros Hg Hk He. eapply (goes_bind _ _ _ _ (fun r t => forall p, SGet name (inr fs) ∈ p -> justified (may name) p t /\ match r with inr a => adopted_fact (p ++ t) fs a | inl _ => True end)).
  - unfold reconcileClass. eapply emits_call; [intros; apply s_look|]. intros [e|sc].
    + destruct (err_notfound e) eqn:Hn; cbn [negb]; [|by apply emits_ret]. destruct (provisionerFor _) as [p|] eqn:Ep; [|by apply emits_ret].
      destruct (set_controller _ _) as [e'|sc] eqn:Es; [by apply emits_ret|]. eapply emits_call; [intros; apply s_make|]. intros r. apply emits_ret. intros pre' Hg'.
      assert (forall q, SLook (class_of fs) (inl e) ∈ q -> class_made q fs sc) as Hm by (intros q Hq; split; [by exists e|by exists p]).
      split; [split; [done|]; split; [|done]; exists fs; split; [set_solver|apply Hm; set_solver]|].
      assert (match r with Some x => err_exists x = true | None => True end -> adopted_fact (pre' ++ [SLook (class_of fs) (inl e); SMake sc r]) fs false) as Hf.
      { intros Hr. right. split; [done|]. exists sc, r. split; [set_solver|]. split; [apply Hm; set_solver|done]. }
      destruct r as [r|]; [destruct (err_exists r); [by apply Hf|done]|by apply Hf].
    + apply emits_ret. intros p Hp. split; [done|]. left. exists sc. split; [set_solver|done].
  - intros r t H. destruct (H pre Hg) as [Hj Ha]. split; [done|]. destruct r; [apply He|by apply Hk].
Qed.

(** Evidence stays evidence. *)
Lemma adopted_mono p q fs a : p ⊆ q -> adopted_fact p fs a -> adopted_fact q fs a.
Proof.
  intros Hs [(sc & H & ->)|(-> & sc & e & H & ((x & Hx & Hn) & r & Hp) & He)]; [left; exists sc; by split; [apply Hs|]|right].
  split; [done|]. exists sc, e. split; [by apply Hs|]. split; [|done]. split; [exists x; by split; [apply Hs|]|by exists r].
Qed.
Lemma claims_mono p q fs c : p ⊆ q -> claims_fact p fs c -> claims_fact q fs c.
Proof. intros Hs (l & Hl & H). exists l. by split; [apply Hs|]. Qed.
Lemma capacity_mono p q fs c : p ⊆ q -> capacity_fact p fs c -> capacity_fact q fs c.
Proof. intros Hs [->|(r & u & x & cap & ? & ? & ?)]; [by left|right]. exists r, u, x, cap. split; [done|]. by split; [apply Hs|]. Qed.
Lemma placement_mono p q fs c : p ⊆ q -> placement_fact p fs c -> placement_fact q fs c.
Proof. intros Hs [->|(r & p' & ? & H)]; [by left|right]. exists r, p'. by split; [apply Hs|]. Qed.
Lemma phase_mono p q fs c : p ⊆ q -> phase_fact p fs c -> phase_fact q fs c.
Proof. intros Hs [->|(Hc & h & r & ? & ->)]; [by left|right]. split; [done|]. exists h, r. by split; [apply Hs|]. Qed.
End Safety.

(** Whatever the API server and Ceph answer, a pass over an entry creates a StorageClass
    only where none of its name was found, with the entry as its controller, and writes
    nothing else but its own status: adopted says that the class that was read is not
    this entry's, the claims are those listed of its class and of them the ones with a
    usage, usable and used are both divided by the replication or both absent, a failed
    read of the placement blanks no list that was known, and Ready is said only of a
    cluster read as healthy. *)
Theorem storage_pass_justified {W : Type} {SW : StorageWorld W} {TS : TracedStorage W} (name : string) (w : W) :
  exists t, scalls (Reconcile name w).2 = (scalls w ++ t)%list /\ justified (may name) [] t.
Proof.
  assert (Trace.goes scalls (may name) [] (Reconcile name)) as H; [|apply H].
  unfold Reconcile. eapply goes_call; [intros; apply s_get|done|]. intros [e|fs]; [apply goes_ret|]. apply (class_goes _ _ fs); [set_solver| |intros; apply goes_ret].
  intros t1 adopted Ha. apply (learns_bind _ _ _ _ _ (claims_learns name fs)). intros c t2 Hc. destruct c as [e|claims]; [apply goes_ret|].
  apply (learns_bind _ _ _ _ _ (capacity_learns name fs)). intros cap t3 Hcap. apply (learns_bind _ _ _ _ _ (placement_learns name fs)). intros pl t4 Hpl.
  apply (learns_bind _ _ _ _ _ (health_learns name fs)). intros h t5 Hh. eapply goes_call; [intros; apply s_status|intros e|intros; apply goes_ret].
  split; [set_solver|]. split; [done|]. split; [done|].
  split; [eapply adopted_mono; [|exact Ha]; set_solver|]. split; [eapply claims_mono; [|exact Hc]; set_solver|]. split; [eapply capacity_mono; [|exact Hcap]; set_solver|].
  split; [eapply placement_mono; [|exact Hpl]; set_solver|eapply phase_mono; [|exact Hh]; set_solver].
Qed.

(** ** The webhooks *)

Lemma admit_first class usage l : admit_claim class usage l <> None <->
  exists e, head (filter (fun e => sg_StorageClassName (sr_Spec e) = class) l) = Some e /\ usage ∉ sg_Content (sr_Spec e).
Proof.
  induction l as [|e l IH]; cbn [admit_claim]; [split; [done|by intros (? & ? & _)]|]. rewrite filter_cons. case_bool_decide as Hc.
  - rewrite decide_False by done. exact IH.
  - rewrite decide_True by done. case_bool_decide as Hu.
    + split; [done|]. intros (? & [= <-] & ?). done.
    + split; [|done]. intros _. by exists e.
Qed.

(** A claim is refused exactly when it declares a usage and a class, the entries could
    be listed, and the first that describes the class does not take that usage: a policy
    that cannot be evaluated stops no volume. *)
Theorem claim_refused_iff {W : Type} {SW : StorageWorld W} (pvc : Claim) (w : W) : (validate_claim pvc w).1 <> None <->
  exists usage class l e, pv_Labels pvc !! UsageLabel = Some usage /\ usage <> "" /\ pv_StorageClassName pvc = Some class /\ class <> "" /\ (sr_list w).1 = inr l /\
    head (filter (fun e => sg_StorageClassName (sr_Spec e) = class) l) = Some e /\ usage ∉ sg_Content (sr_Spec e).
Proof.
  unfold validate_claim. destruct (pv_Labels pvc !! UsageLabel) as [usage|]; cbn [default from_option id]; [|split; [done|by intros (? & ? & ? & ? & ? & _)]].
  case_bool_decide as Hu; [split; [done|by intros (? & ? & ? & ? & [= <-] & ? & _)]|]. destruct (pv_StorageClassName pvc) as [class|]; [|split; [done|by intros (? & ? & ? & ? & _ & _ & ? & _)]].
  case_bool_decide as Hc; [split; [done|by intros (? & ? & ? & ? & _ & _ & [= <-] & ? & _)]|]. rewrite St_bind_run. destruct (sr_list w) as [[e|l] w'].
  - split; [done|]. by intros (? & ? & ? & ? & _ & _ & _ & _ & ? & _).
  - transitivity (admit_claim class usage l <> None); [done|]. rewrite admit_first. split.
    + intros (e & ? & ?). by exists usage, class, l, e.
    + intros (? & ? & ? & e & [= <-] & _ & [= <-] & _ & [= <-] & ? & ?). by exists e.
Qed.

(** ** Runs *)

(** One entry, the classes, and the next placement read. *)
Record sworld := mkSWorld { sw_log : list scall; sw_entry : option FrameStorage; sw_classes : list StorageClass; sw_place : option CephPlacement }.
Definition snote {A} (ev : A -> scall) (r : A) (w : sworld) : A * sworld := (r, mkSWorld (sw_log w ++ [ev r]) (sw_entry w) (sw_classes w) (sw_place w)).
Definition nothing : apierr := ApiErr "not found" true false.
#[local] Instance mem_storage : StorageWorld sworld := {|
  sr_get n w := snote (SGet n) (match sw_entry w with Some e => inr e | None => inl nothing end) w;
  sr_list w := (inr (match sw_entry w with Some e => [e] | None => [] end), w);
  sr_patch_status b n w := snote (SStatus b n) None (mkSWorld (sw_log w) (Some n) (sw_classes w) (sw_place w));
  sl_get n w := snote (SLook n) (match List.find (fun c => bool_decide (sl_Name c = n)) (sw_classes w) with Some c => inr c | None => inl nothing end) w;
  sl_create c w := snote (SMake c) None (mkSWorld (sw_log w) (sw_entry w) (c :: sw_classes w) (sw_place w));
  pv_list w := snote SClaims (inr []) w;
  CephHealth := Some (fun w => snote SHealth (inr ("HEALTH_OK", [])) w);
  CephCapacity := Some (fun c w => snote (SCapacity c) (inr (3000, 1500, 3)) w);
  CephPlacementRead := Some (fun w => snote SPlace (sw_place w) w);
  err_exists _ := false;
  set_controller fs c := inr (mkClass (sl_Name c) (sl_Provisioner c) (Some (sr_UID fs)));
  binary_quantity := itoa;
  sr_set_cond cs c := c :: filter (fun x => c_Type x <> c_Type c) cs
|}.
#[local] Instance mem_traced_storage : TracedStorage sworld.
Proof. refine {| scalls := sw_log |}; try done; by intros ? ? [= <-] || intros ? ? ? [= <-]. Defined.

Definition pool : CephPoolPlacement := mkPool "replicapool" 3 2 "replicated_rule".
Definition placed (state : string) (at_ : option time) (pools : list CephPoolPlacement) : CephPlacement := mkPlacement state "" at_ at_ at_ at_ None pools [].
Definition entry (adopt : bool) (p : option CephPlacement) : FrameStorage :=
  mkFStorage "blocks" "uid-1" 1 (mkFSSpec "ceph-rbd" ["workload"] "ceph-rbd" adopt []) (mkFSStatus 0 false "" None None false p []).
Definition status_of (w : sworld) : option FrameStorageStatus := sr_Status <$> sw_entry w.

(** The capacity of a pool that keeps three copies: used and usable in one unit. *)
Example divided_capacity : sx_Capacity <$> status_of (Reconcile "blocks" (mkSWorld [] (Some (entry true None)) [] None)).2 = Some (Some (mkCapacity "1000" "500" "3000")).
Proof. vm_compute. reflexivity. Qed.

(** An entry that asks to adopt a class that is not there creates it and owns it: it is
    not adopted, and the class goes with the entry. *)
Theorem adopting_entry_owns :
  let admitted := (ValidateCreate_storage (entry true None) (mkSWorld [] None [] None)).1 in
  let w := (Reconcile "blocks" (mkSWorld [] (Some (entry true None)) [] None)).2 in
  (admitted, map sl_Controller (sw_classes w), sx_Adopted <$> status_of w) = (None, [Some "uid-1"], Some false).
Proof. vm_compute. reflexivity. Qed.

(** A failed read keeps the lists that were known and drops the dates of each. *)
Theorem kept_lists_undated :
  let prev := placed "Collected" (Some (Time 7 0)) [pool] in
  let w := (Reconcile "blocks" (mkSWorld [] (Some (entry true (Some prev))) [mkClass "ceph-rbd" "p" None] (Some (placed "Error" None [])))).2 in
  (fun p => (cp_Pools p, cp_CollectedAt p, cp_PoolsReadAt p)) <$> (status_of w ≫= sx_CephPlacement) = Some ([pool], Some (Time 7 0), None).
Proof. vm_compute. reflexivity. Qed.

Lemma storage_pass_justified_witness : exists t, scalls (Reconcile "blocks" (mkSWorld [] (Some (entry true None)) [] None)).2 = ([] ++ t)%list /\ justified (may "blocks") [] t.
Proof. exact (storage_pass_justified "blocks" (mkSWorld [] (Some (entry true None)) [] None)). Defined.
