(* ===== verification/Quotas.v ===== *)
(** internal/controller/frame/frameresourcequota_controller.go, and the webhooks that
    are a rule each (frameresourcequota_webhook.go, schedulingpolicy_webhook.go and
    internal/webhook/services/v1beta1/inferencemodel_webhook.go): the reconciler that
    projects a FrameResourceQuota into every namespace of its service class and sums
    what they use.

    The API server, resource.Quantity, controllerutil.CreateOrUpdate and the order Go
    ranges over a map are the methods of [QuotaWorld]; log lines are left out. The theorems follow:
    the usage is the sum of the namespaces', what a pass may write, what the webhooks refuse; and
    runs on an in-memory API server. *)
From stdpp Require Import base tactics strings list gmap.
From Stdlib Require Import ZArith Lia.
From S2P Require Import Prelude Trace GoLib GoText GoTime Kube Cluster StorageAlerts V1beta1 Services FrameStorages.

Open Scope Z_scope.

Definition frameResourceQuotaFinalizer : string := "frame.plume-labs.io/frameresourcequota".
Definition serviceClassLabel : string := "frame.plume-labs.io/service-class".
Definition ResourceLimitsCPU : string := "limits.cpu".
Definition ResourceLimitsMemory : string := "limits.memory".
Definition gpuResource : string := "requests.nvidia.com/gpu".
Definition jobCountResource : string := "count/framejobs.frame.plume-labs.io".

Section Quotas.
Context `{F : Foreign}.

(** A FrameResourceQuota as the controller holds it. *)
Record Quota := mkQuota {
  fq_Namespace : string; fq_Name : string; fq_Generation : Z; fq_Finalizers : list string; fq_Deleting : bool; fq_Spec : FrameResourceQuotaSpec;
  fq_ObservedGeneration : Z; fq_Used : ResourceList; fq_Namespaces : Z; fq_Conditions : list Condition
}.
Definition fq_key (q : Quota) : NamespacedName := (fq_Namespace q, fq_Name q).
Definition set_fq_finalizers (q : Quota) (fs : list string) : Quota :=
  mkQuota (fq_Namespace q) (fq_Name q) (fq_Generation q) fs (fq_Deleting q) (fq_Spec q) (fq_ObservedGeneration q) (fq_Used q) (fq_Namespaces q) (fq_Conditions q).
Definition class_of (q : Quota) : string := qs_ServiceClass (fq_Spec q).

(** [rq_apply ns name hard] is CreateOrUpdate of a ResourceQuota and answers with
    its status.used, in the order Go ranges over it; [ns_matching] lists the names of
    the namespaces with a label. *)
Class QuotaWorld (W : Type) := {
  fq_get : NamespacedName -> St W (result apierr Quota);
  fq_update : Quota -> St W (option apierr);
  fq_patch_status : Quota -> Quota -> St W (option apierr);
  fq_list : St W (result apierr (list Quota));
  ns_matching : string -> string -> St W (result apierr (list string));
  rq_apply : string -> string -> gmap string Quantity -> St W (result apierr (list (string * Quantity)));
  fq_event : NamespacedName -> Event -> St W unit;
  new_quantity : Z -> Quantity;                      (* resource.NewQuantity(_, DecimalSI) *)
  quantity_add : Quantity -> Quantity -> Quantity;   (* Quantity.Add *)
  fq_contains_finalizer : list string -> string -> bool;
  fq_add_finalizer : list string -> string -> list string;
  fq_remove_finalizer : list string -> string -> list string;
  fq_set_cond : list Condition -> Condition -> list Condition
}.

Section Controller.
Context `{U : Unicode} {W : Type} {QW : QuotaWorld W}.

Definition buildResourceList (q : Quota) : gmap string Quantity :=
  let s := fq_Spec q in
  let hard : gmap string Quantity := match qs_MaxCPU s with Some x => {[ResourceLimitsCPU := x]} | None => ∅ end in
  let hard := match qs_MaxMemory s with Some x => <[ResourceLimitsMemory := x]> hard | None => hard end in
  let hard := if 0 <? qs_MaxGPUs s then <[gpuResource := new_quantity (qs_MaxGPUs s)]> hard else hard in
  if 0 <? qs_MaxJobs s then <[jobCountResource := new_quantity (qs_MaxJobs s)]> hard else hard.

(** The inner loop, over one quota's usage. *)
Definition add_usage (total : gmap string Quantity) (e : string * Quantity) : gmap string Quantity :=
  match total !! e.1 with
  | Some existing => <[e.1 := quantity_add existing e.2]> total
  | None => <[e.1 := e.2]> total
  end.
Definition sumQuotaUsage (used : list (list (string * Quantity))) : ResourceList :=
  let total := foldl (fun total u => foldl add_usage total u) ∅ used in
  if bool_decide (total = ∅) then None else Some total.

Definition quota_name (q : Quota) : string := "frame-" +:+ ToLower (class_of q).
(** The loop over the namespaces: it stops at the first error. *)
Fixpoint project (name : string) (hard : gmap string Quantity) (l : list string) : St W (result apierr (list (list (string * Quantity)))) :=
  match l with
  | [] => mret (inr [])
  | ns :: l =>
    r ← rq_apply ns name hard;
    match r with
    | inl e => mret (inl e)
    | inr used => r ← project name hard l; mret match r with inl e => inl e | inr us => inr (used :: us) end
    end
  end.

Definition quota_status (q : Quota) (n : Z) (used : ResourceList) : Quota :=
  mkQuota (fq_Namespace q) (fq_Name q) (fq_Generation q) (fq_Finalizers q) (fq_Deleting q) (fq_Spec q) (fq_Generation q) used (to_int32 n)
    (fq_set_cond (fq_Conditions q) (mkCondition "Ready" "True" "Reconciled" ("Applied to " +:+ itoa n +:+ " namespaces") (fq_Generation q))).

Definition Reconcile (key : NamespacedName) : St W (Z * option apierr) :=
  r ← fq_get key;
  match r with
  | inl e => mret (0, ignore_not_found (Some e))
  | inr q =>
    if fq_Deleting q then e ← fq_update (set_fq_finalizers q (fq_remove_finalizer (fq_Finalizers q) frameResourceQuotaFinalizer)); mret (0, e)
    else if negb (fq_contains_finalizer (fq_Finalizers q) frameResourceQuotaFinalizer) then
      e ← fq_update (set_fq_finalizers q (fq_add_finalizer (fq_Finalizers q) frameResourceQuotaFinalizer)); mret (0, e)
    else
      r ← ns_matching serviceClassLabel (class_of q);
      match r with
      | inl e => mret (0, Some e)
      | inr nss =>
        r ← project (quota_name q) (buildResourceList q) nss;
        match r with
        | inl e => mret (0, Some e)
        | inr used =>
          let n := Z.of_nat (length nss) in
          _ ← fq_event (fq_key q) (mkEvent EventTypeNormal "QuotaApplied" ("ResourceQuota applied to " +:+ itoa n +:+ " namespaces for serviceClass=" +:+ class_of q));
          e ← fq_patch_status q (quota_status q n (sumQuotaUsage used));
          mret (5 * minute, e)
        end
      end
  end.

(** The quotas an event on a namespace wakes. *)
Definition namespaceToFRQ (labels : strmap) : St W (list NamespacedName) :=
  let sc := default "" (labels !! serviceClassLabel) in
  if bool_decide (sc = "") then mret []
  else
    r ← fq_list;
    mret match r with inl _ => [] | inr l => map fq_key (filter (fun q => class_of q = sc) l) end.
End Controller.

(** ** The webhooks: [Some] refuses *)

Definition validateFrameResourceQuota (s : FrameResourceQuotaSpec) : option string :=
  if (qs_MaxGPUs s =? 0) && match qs_MaxCPU s with None => true | _ => false end && match qs_MaxMemory s with None => true | _ => false end && (qs_MaxJobs s =? 0)
  then Some "at least one limit (maxGPUs, maxCPU, maxMemory, maxJobs) must be set" else None.
Definition validateSchedulingPolicy (s : SchedulingPolicySpec) : option string :=
  if ps_Preemption s && bool_decide (ps_PriorityClass s = "") then Some "spec.priorityClass is required when preemption is true" else None.

(** ValidateDelete of an InferenceModel; [listed] is the answer to the list of
    FrameServices. *)
Definition serves (model : string) (s : FrameService) : Prop := sv_Type (sv_Spec s) = "inference" /\ default "" (sv_Parameters (sv_Spec s) !! "model") = model.
#[global] Instance serves_dec model s : Decision (serves model s) := ltac:(unfold serves; apply _).
Definition ValidateDelete_model (model : string) (listed : result string (list FrameService)) : option string :=
  match listed with
  | inl e => Some ("listing the FrameServices that may serve " +:+ model +:+ ": " +:+ e)
  | inr l =>
    let users := map (fun s => sv_Namespace s +:+ "/" +:+ sv_Name s) (filter (serves model) l) in
    if bool_decide (users <> []) then Some ("inference model " +:+ model +:+ " is served by " +:+ join ", " (sort_strings users)) else None
  end.
End Quotas.

(** * The sum, the calls, and runs *)

From S2P Require Import ConversionSafety.

Section Sum.
Context `{F : Foreign} {W : Type} {QW : QuotaWorld W}.

Lemma add_usage_lookup total e k : add_usage total e !! k = if bool_decide (k = e.1) then Some (match total !! k with Some x => quantity_add x e.2 | None => e.2 end) else total !! k.
Proof.
  unfold add_usage. case_bool_decide as H; [subst|]; destruct (total !! e.1) as [x|] eqn:E.
  - by rewrite lookup_insert_eq.
  - by rewrite lookup_insert_eq.
  - by rewrite lookup_insert_ne.
  - by rewrite lookup_insert_ne.
Qed.

(** One quota adds what it reports of a resource, if it does. *)
Lemma add_quota total u k : NoDup u.*1 ->
  foldl add_usage total u !! k = match (list_to_map u : gmap string Quantity) !! k with
  | Some x => Some (match total !! k with Some y => quantity_add y x | None => x end)
  | None => total !! k
  end.
Proof.
  revert total. induction u as [|[a x] u IH]; intros total H; [done|]. cbn in H. apply NoDup_cons in H as [Ha Hu]. cbn [foldl list_to_map]. rewrite IH by done. rewrite add_usage_lookup. cbn [fst snd].
  cbn. case_bool_decide as Hk.
  - subst. rewrite lookup_insert_eq, (not_elem_of_list_to_map_1 u a) by done. done.
  - by rewrite lookup_insert_ne.
Qed.

(** The usage of a resource over the namespaces that report it. *)
Definition reported (used : list (list (string * Quantity))) (k : string) : list Quantity := omap (fun u => (list_to_map u : gmap string Quantity) !! k) used.

Lemma sum_lookup used total k : Forall (fun u => NoDup u.*1) used ->
  foldl (fun total u => foldl add_usage total u) total used !! k =
  match total !! k, reported used k with
  | Some y, xs => Some (foldl quantity_add y xs)
  | None, x :: xs => Some (foldl quantity_add x xs)
  | None, [] => None
  end.
Proof.
  intros H. revert total. induction H as [|u used Hu _ IH]; intros total; cbn [foldl]; [unfold reported; cbn; by destruct (total !! k)|]. rewrite IH, add_quota by done. unfold reported. cbn.
  destruct (list_to_map u !! k) as [x|]; [by destruct (total !! k)|done].
Qed.

(** status.used has, for each resource some namespace reports, the sum of what they
    report, and nothing for the others, whatever order the maps are ranged over in; it is
    nil when none reports anything. *)
Theorem usage_is_sum used : Forall (fun u => NoDup u.*1) used ->
  (forall k, default ∅ (sumQuotaUsage used) !! k = match reported used k with [] => None | x :: xs => Some (foldl quantity_add x xs) end) /\
  (sumQuotaUsage used = None <-> forall k, reported used k = []).
Proof.
  intros H. pose proof (fun k => sum_lookup used ∅ k H) as Hs. unfold sumQuotaUsage. case_bool_decide as He; cbn [default from_option id].
  - split; [|split; [|done]]; intros k.
    + specialize (Hs k). rewrite He in Hs. rewrite lookup_empty in *. by destruct (reported used k).
    + intros k'. specialize (Hs k'). rewrite He in Hs. rewrite lookup_empty in Hs. by destruct (reported used k').
  - split; [intros k; rewrite Hs, lookup_empty; done|]. split; [done|]. intros Hk. destruct He. apply map_eq. intros k. by rewrite Hs, lookup_empty, Hk.
Qed.

(** The limits projected are the ones set. *)
Theorem limits_projected (q : Quota) : let s := fq_Spec q in
  buildResourceList q !! ResourceLimitsCPU = qs_MaxCPU s /\ buildResourceList q !! ResourceLimitsMemory = qs_MaxMemory s /\
  buildResourceList q !! gpuResource = (if 0 <? qs_MaxGPUs s then Some (new_quantity (qs_MaxGPUs s)) else None) /\
  buildResourceList q !! jobCountResource = (if 0 <? qs_MaxJobs s then Some (new_quantity (qs_MaxJobs s)) else None) /\
  forall k, k ∉ [ResourceLimitsCPU; ResourceLimitsMemory; gpuResource; jobCountResource] -> buildResourceList q !! k = None.
Proof.
  cbn zeta. unfold buildResourceList. destruct (qs_MaxCPU _), (qs_MaxMemory _), (0 <? qs_MaxGPUs _), (0 <? qs_MaxJobs _);
    (repeat (split; [done|])); intros k Hk; by rewrite ?lookup_insert_ne, ?lookup_singleton_ne by set_solver.
Qed.
End Sum.

(** ** The calls *)

Section Calls.
Context `{F : Foreign} `{U : Unicode}.

Inductive qcall : Type :=
| QGet (k : NamespacedName) (r : result apierr Quota)
| QUpdate (q : Quota) (e : option apierr)
| QStatus (base new : Quota) (e : option apierr)
| QNamespaces (label value : string) (r : result apierr (list string))
| QApply (ns name : string) (hard : gmap string Quantity) (r : result apierr (list (string * Quantity)))
| QEvent (k : NamespacedName) (ev : Event).

Class TracedQuotas (W : Type) {QW : QuotaWorld W} := {
  qcalls : W -> list qcall;
  q_get w k : qcalls (fq_get k w).2 = (qcalls w ++ [QGet k (fq_get k w).1])%list;
  q_update w q : qcalls (fq_update q w).2 = (qcalls w ++ [QUpdate q (fq_update q w).1])%list;
  q_status w b n : qcalls (fq_patch_status b n w).2 = (qcalls w ++ [QStatus b n (fq_patch_status b n w).1])%list;
  q_namespaces w l v : qcalls (ns_matching l v w).2 = (qcalls w ++ [QNamespaces l v (ns_matching l v w).1])%list;
  q_apply w ns n h : qcalls (rq_apply ns n h w).2 = (qcalls w ++ [QApply ns n h (rq_apply ns n h w).1])%list;
  q_event w k e : qcalls (fq_event k e w).2 = (qcalls w ++ [QEvent k e])%list
}.

Section May.
Context {W : Type} {QW : QuotaWorld W}.
Definition live (key : NamespacedName) (pre : list qcall) (q : Quota) : Prop :=
  QGet key (inr q) ∈ pre /\ fq_Deleting q = false /\ fq_contains_finalizer (fq_Finalizers q) frameResourceQuotaFinalizer = true.
(** In each namespace, in order, the quota was applied and said what is used. *)
Definition applied (pre : list qcall) (q : Quota) (nss : list string) (used : list (list (string * Quantity))) : Prop :=
  Forall2 (fun ns u => QApply ns (quota_name q) (buildResourceList q) (inr u) ∈ pre) nss used.

Definition may (key : NamespacedName) (pre : list qcall) (c : qcall) : Prop :=
  match c with
  | QApply ns name hard _ =>
    exists q nss, live key pre q /\ QNamespaces serviceClassLabel (class_of q) (inr nss) ∈ pre /\ ns ∈ nss /\ name = quota_name q /\ hard = buildResourceList q
  | QStatus base new _ =>
    exists nss used, live key pre base /\ QNamespaces serviceClassLabel (class_of base) (inr nss) ∈ pre /\ applied pre base nss used /\
      new = quota_status base (Z.of_nat (length nss)) (sumQuotaUsage used)
  | QUpdate q' _ =>
    exists q, QGet key (inr q) ∈ pre /\
      ((fq_Deleting q = true /\ q' = set_fq_finalizers q (fq_remove_finalizer (fq_Finalizers q) frameResourceQuotaFinalizer)) \/
       (fq_Deleting q = false /\ fq_contains_finalizer (fq_Finalizers q) frameResourceQuotaFinalizer = false /\
        q' = set_fq_finalizers q (fq_add_finalizer (fq_Finalizers q) frameResourceQuotaFinalizer)))
  | _ => True
  end.
End May.

Section Safety.
Context {W : Type} {QW : QuotaWorld W} {TQ : TracedQuotas W}.
Variable key : NamespacedName.

Lemma live_mono p q x : p ⊆ q -> live key p x -> live key q x.
Proof. intros Hs (H & ?). by split; [apply Hs|]. Qed.

Lemma project_emits (q : Quota) nss all : nss ⊆ all -> emits qcalls (project (quota_name q) (buildResourceList q) nss) (fun r t =>
  (forall pre, live key pre q -> QNamespaces serviceClassLabel (class_of q) (inr all) ∈ pre -> justified (may key) pre t) /\
  match r with inr used => applied t q nss used | inl _ => True end).
Proof.
  induction nss as [|ns nss IH]; intros Hs; cbn [project]; [apply emits_ret; split; [done|constructor]|].
  eapply emits_call; [intros; apply q_apply|]. intros r.
  assert (forall pre, live key pre q -> QNamespaces serviceClassLabel (class_of q) (inr all) ∈ pre -> may key pre (QApply ns (quota_name q) (buildResourceList q) r)) as Hm.
  { intros pre Hl Hn. exists q, all. do 2 (split; [done|]). split; [apply Hs; set_solver|done]. }
  destruct r as [e|u]; [apply emits_ret; split; [|done]; intros pre Hl Hn; split; [by apply Hm|done]|].
  eapply emits_bind; [apply IH; set_solver|]. intros r t [Hj Hr]. apply emits_ret. rewrite app_nil_r. split.
  - intros pre Hl Hn. split; [by apply Hm|]. apply Hj; [eapply live_mono; [|exact Hl]; set_solver|set_solver].
  - destruct r as [e|us]; [done|]. constructor; [set_solver|]. eapply Forall2_impl; [exact Hr|]. intros. set_solver.
Qed.
End Safety.

(** Whatever the API server answers, a pass applies a quota only to the namespaces
    listed as of its class, under the name of the class and with the limits it sets; and
    reports only after every one of them was applied to, with their number and the sum of
    what they use. *)
Theorem quota_pass_justified {W : Type} {QW : QuotaWorld W} {TQ : TracedQuotas W} (key : NamespacedName) (w : W) :
  exists t, qcalls (Reconcile key w).2 = (qcalls w ++ t)%list /\ justified (may key) [] t.
Proof.
  assert (Trace.goes qcalls (may key) [] (Reconcile key)) as H; [|apply H].
  unfold Reconcile. eapply goes_call; [intros; apply q_get|done|]. intros [e|q]; [apply goes_ret|].
  destruct (fq_Deleting q) eqn:Hd; [eapply goes_call; [intros; apply q_update|intros e; exists q; split; [set_solver|by left]|intros; apply goes_ret]|].
  destruct (fq_contains_finalizer _ _) eqn:Hf; cbn [negb]; [|eapply goes_call; [intros; apply q_update|intros e; exists q; split; [set_solver|by right]|intros; apply goes_ret]].
  assert (live key ([] ++ [QGet key (inr q)]) q) as Hl by (split; [set_solver|done]).
  eapply goes_call; [intros; apply q_namespaces|done|]. intros [e|nss]; [apply goes_ret|]. eapply goes_bind; [by apply (project_emits key q nss nss)|]. intros r t [Hj Hr].
  split; [apply Hj; [eapply live_mono; [|exact Hl]; set_solver|set_solver]|]. destruct r as [e|used]; [apply goes_ret|].
  eapply (goes_call _ _ _ _ (fun _ => _)); [intros; apply q_event|done|]. intros _. eapply goes_call; [intros; apply q_status|intros e|intros; apply goes_ret].
  exists nss, used. split; [eapply live_mono; [|exact Hl]; set_solver|]. split; [set_solver|]. split; [|done]. eapply Forall2_impl; [exact Hr|]. intros. set_solver.
Qed.
End Calls.

(** ** Runs *)

(** FrameResourceQuotas by name, namespaces with their class, and the ResourceQuotas as
    (namespace, name, limits); each reports 1 of what it limits. *)
Record qworld := mkQWorld { qw_log : list qcall; qw_quotas : list (string * Quota); qw_namespaces : list (string * string); qw_projected : list (string * string * gmap string Z) }.
Definition qnote {A} (ev : A -> qcall) (r : A) (w : qworld) : A * qworld := (r, mkQWorld (qw_log w ++ [ev r]) (qw_quotas w) (qw_namespaces w) (qw_projected w)).
Definition put_quota (q : Quota) (w : qworld) : qworld :=
  mkQWorld (qw_log w) (filter (fun e => e.1 <> fq_Name q) (qw_quotas w) ++ if fq_Deleting q && bool_decide (fq_Finalizers q = []) then [] else [(fq_Name q, q)])
    (qw_namespaces w) (qw_projected w).
#[local] Instance ascii_unicode : Unicode := {| unicode_lower := id; unicode_fold := id |}.
#[local] Instance mem_quotas : QuotaWorld qworld := {|
  fq_get k w := qnote (QGet k) (match List.find (fun e => bool_decide (e.1 = k.2)) (qw_quotas w) with Some e => inr e.2 | None => inl (ApiErr "not found" true false) end) w;
  fq_update q w := qnote (QUpdate q) None (put_quota q w);
  fq_patch_status b n w := qnote (QStatus b n) None (put_quota n w);
  fq_list w := (inr (map snd (qw_quotas w)), w);
  ns_matching l v w := qnote (QNamespaces l v) (inr (map fst (filter (fun e => e.2 = v) (qw_namespaces w)))) w;
  rq_apply ns name hard w := qnote (QApply ns name hard) (inr (map (fun e => (e.1, 1)) (map_to_list (hard : gmap string Z))))
    (mkQWorld (qw_log w) (qw_quotas w) (qw_namespaces w) (filter (fun e => (e.1.1, e.1.2) <> (ns, name)) (qw_projected w) ++ [(ns, name, hard)]));
  fq_event k e w := qnote (fun _ => QEvent k e) tt w;
  new_quantity z := z;
  quantity_add := Z.add;
  fq_contains_finalizer fs f := bool_decide (f ∈ fs);
  fq_add_finalizer fs f := fs ++ [f];
  fq_remove_finalizer fs f := filter (fun x => x <> f) fs;
  fq_set_cond cs c := c :: filter (fun x => c_Type x <> c_Type c) cs
|}.
#[local] Instance mem_traced_quotas : TracedQuotas qworld.
Proof. refine {| qcalls := qw_log |}; done. Defined.

Definition gold (name : string) (jobs : Z) : Quota :=
  mkQuota "frame" name 1 [frameResourceQuotaFinalizer] false (mkFQSpec "HIGH" 0 None None jobs) 0 None 0 [].
Definition quota_world (qs : list Quota) : qworld := mkQWorld [] (map (fun q => (fq_Name q, q)) qs) [("a", "HIGH"); ("b", "HIGH"); ("c", "LOW")] [].
Fixpoint quota_passes (names : list string) (w : qworld) : qworld := match names with [] => w | n :: names => quota_passes names (Reconcile ("frame", n) w).2 end.
Definition delete_quota (w : qworld) : qworld :=
  mkQWorld (qw_log w) (map (fun e => (e.1, mkQuota (fq_Namespace e.2) (fq_Name e.2) (fq_Generation e.2) (fq_Finalizers e.2) true (fq_Spec e.2) (fq_ObservedGeneration e.2) (fq_Used e.2) (fq_Namespaces e.2) (fq_Conditions e.2))) (qw_quotas w))
    (qw_namespaces w) (qw_projected w).
Definition limits (w : qworld) : list (string * option Z) := map (fun e => (e.1.1, e.2 !! jobCountResource)) (qw_projected w).

(** A quota of two namespaces, what they use and what is projected. *)
Example projected_and_summed :
  let w := quota_passes ["gold"] (quota_world [gold "gold" 5]) in
  (map (fun e => (fq_Namespaces e.2, (fun m => m !! jobCountResource) <$> fq_Used e.2)) (qw_quotas w), limits w) = ([(2, Some (Some 2))], [("a", Some 5); ("b", Some 5)]).
Proof. vm_compute. reflexivity. Qed.

(** A deleted FrameResourceQuota is gone and its ResourceQuotas are not: the namespaces
    keep the limits of an object that no longer exists. *)
Theorem deleted_quota_stays :
  let w := quota_passes ["gold"] (delete_quota (quota_passes ["gold"] (quota_world [gold "gold" 5]))) in
  (qw_quotas w, limits w) = ([], [("a", Some 5); ("b", Some 5)]).
Proof. vm_compute. reflexivity. Qed.

(** Two quotas of one class write the same ResourceQuota: the limits are those of the
    last pass, while both report theirs as applied. *)
Theorem last_quota_wins :
  let w0 := quota_world [gold "gold" 5; gold "more" 50] in
  (limits (quota_passes ["gold"; "more"] w0), limits (quota_passes ["gold"; "more"; "gold"] w0)) =
  ([("a", Some 50); ("b", Some 50)], [("a", Some 5); ("b", Some 5)]).
Proof. vm_compute. reflexivity. Qed.

Definition two_usages : list (list (string * @Quantity demo_foreign)) := [[("x", 1); ("y", 2)]; [("x", 3)]].
Lemma usage_is_sum_witness : default ∅ (sumQuotaUsage two_usages) !! "x" = Some 4.
Proof. refine (eq_trans (proj1 (usage_is_sum two_usages _) "x") _); [repeat constructor; set_solver|reflexivity]. Defined.

Lemma quota_pass_justified_witness : exists t, qcalls (Reconcile ("frame", "gold") (quota_world [gold "gold" 5])).2 = ([] ++ t)%list /\ justified (may ("frame", "gold")) [] t.
Proof. exact (quota_pass_justified ("frame", "gold") (quota_world [gold "gold" 5])). Defined.
