(* ===== verification/Cache.v ===== *)
(** internal/services/provider/cache/cache.go: the provider of the type "cache", which
    runs a Valkey server as a StatefulSet of one pod, with a volume when it is a queue.

    The API server, resource.Quantity (its value in bytes), json.Marshal of a pod
    template, crypto/rand, apimachinery's name check and metadata.uid are the methods of
    [CacheWorld]. A struct of k8s.io/api is the [any] map of its fields, a quantity in one the
    text it was parsed from. A panic of
    resource.MustParse is an error of the pass. *)
From stdpp Require Import base tactics strings list gmap.
From Stdlib Require Import Ascii ZArith Lia.
From S2P Require Import Prelude GoLib GoText GoTime Kube Sha256 StorageAlerts SchedulingPolicy Services Unstructured Postgres.

Open Scope Z_scope.

(** ** Constants *)

Definition ProfileCache : string := "cache".
Definition ProfileQueue : string := "queue".
Definition OwnerLabel : string := "services.plume-labs.io/frameservice".
Definition profileAnnotation : string := "services.plume-labs.io/cache-profile".
Definition volumeUIDAnnotation : string := "services.plume-labs.io/volume-uid".
Definition templateHashAnnotation : string := "services.plume-labs.io/template-hash".
Definition authDigestAnnotation : string := "services.plume-labs.io/auth-digest".
Definition serviceClassLabel : string := "frame.plume-labs.io/service-class".
Definition image : string := "docker.io/valkey/valkey:9.1.3-alpine".
Definition containerName : string := "valkey".
Definition port : Z := 6379.
Definition runAsUser : Z := 999.
Definition runAsGroup : Z := 1000.
Definition dataVolume : string := "data".
Definition dataPath : string := "/data".
Definition authVolume : string := "auth".
Definition authPath : string := "/etc/valkey-auth".
Definition authSecretSuffix : string := "-valkey-auth".
Definition passwordKey : string := "password".
Definition saltKey : string := "digest-salt".
Definition authConfKey : string := "auth.conf".
Definition overheadMiB : Z := 64.
Definition cpuRequest : string := "100m".
Definition cpuLimit : string := "2".
Definition maxNameLength : Z := 52.
Definition ReasonInvalidName : string := "InvalidName".
Definition ReasonNotOwned : string := "NotOwned".
Definition ReasonSpecDrift : string := "SpecDrift".
Definition ReasonInstanceLost : string := "InstanceLost".
Definition ReasonVolumeShrink : string := "VolumeShrinkRefused".
Definition ReasonVolumeGrow : string := "VolumeGrowRefused".
Definition ReasonAuthInvalid : string := "AuthSecretInvalid".
Definition ReasonProvisioning : string := "Provisioning".
Definition ReasonRunning : string := "Running".

(** ** Parameters *)

(** ^[1-9][0-9]{0,6}(<units>)$ *)
Definition sized_pattern (units : list string) (s : string) : bool :=
  let l := to_bytes s in
  let n := (length l - 2)%nat in
  bool_decide (of_bytes (drop n l) ∈ units) && match take n l with [] => false | c :: ds => nonzero c && forallb digit ds && (length ds <=? 6)%nat end.
Definition ParameterSchema : Schema := mkSchema ["profile"; "maxMemory"]
  {[ "profile" := mkProperty [quote "cache"; quote "queue"] "" (fun _ => true) ["Description"; "Type"; "Enum"];
     "maxMemory" := patterned "^[1-9][0-9]{0,6}(Mi|Gi)$" (sized_pattern ["Mi"; "Gi"]);
     "volumeSize" := patterned "^[1-9][0-9]{0,6}(Mi|Gi|Ti)$" (sized_pattern ["Mi"; "Gi"; "Ti"]);
     "storageClass" := patterned "^[a-z0-9]([-a-z0-9.]*[a-z0-9])?$" class_pattern;
     "restoredVolumeUID" := patterned "^[0-9a-f]{8}-[0-9a-f]{4}-[0-9a-f]{4}-[0-9a-f]{4}-[0-9a-f]{12}$" uid_pattern ]} ["Type"; "Required"; "Properties"].

Definition params_of (svc : FrameService) : strmap := sv_Parameters (sv_Spec svc).
Definition is_queue (params : strmap) : bool := bool_decide (param params "profile" = ProfileQueue).
Definition authSecretName (svc : string) : string := svc +:+ authSecretSuffix.
Definition volumeName (svc : string) : string := dataVolume +:+ "-" +:+ svc +:+ "-0".

(** ** Objects *)

(** The one claim template of a queue. *)
Record ClaimTemplate := mkTemplate { ct_StorageClassName : option string; ct_Storage : Z }.
(** A StatefulSet; [ss_Controller] is the UID of its controller. *)
Record StatefulSet := mkSts {
  ss_Name : string; ss_Controller : option string; ss_Annotations : strmap; ss_Replicas : option Z; ss_Template : any; ss_ClaimTemplates : list ClaimTemplate;
  ss_Generation : Z; ss_ObservedGeneration : Z; ss_ReadyReplicas : Z; ss_UpdatedReplicas : Z
}.
Record KService := mkKService { ks_Name : string; ks_Controller : option string; ks_Selector : strmap; ks_Ports : list (string * Z * Z) }.
(** A PersistentVolumeClaim. *)
Record Volume := mkVolume { vo_Name : string; vo_UID : string; vo_Labels : strmap; vo_StorageClassName : option string; vo_Storage : Z; vo_Bound : bool }.
Record AuthSecret := mkAuthSecret { au_Controller : option string; au_Data : strmap }.
Definition set_annotation (s : StatefulSet) (k v : string) : StatefulSet :=
  mkSts (ss_Name s) (ss_Controller s) (<[k := v]> (ss_Annotations s)) (ss_Replicas s) (ss_Template s) (ss_ClaimTemplates s) (ss_Generation s) (ss_ObservedGeneration s) (ss_ReadyReplicas s) (ss_UpdatedReplicas s).
Definition rolled (s : StatefulSet) (template : any) (hash : string) : StatefulSet :=
  mkSts (ss_Name s) (ss_Controller s) (<[templateHashAnnotation := hash]> (ss_Annotations s)) (Some 1) template (ss_ClaimTemplates s) (ss_Generation s) (ss_ObservedGeneration s) (ss_ReadyReplicas s) (ss_UpdatedReplicas s).

(** An update answers with the object as stored. [owner_ref] is what
    SetControllerReference puts. *)
Class CacheWorld (W : Type) := {
  sts_get : NamespacedName -> St W (result apierr StatefulSet);
  sts_create : StatefulSet -> St W (option apierr);
  sts_update : StatefulSet -> St W (result apierr StatefulSet);
  svc_get : NamespacedName -> St W (result apierr KService);
  svc_create : KService -> St W (option apierr);
  vol_get : NamespacedName -> St W (result apierr Volume);
  vol_patch : Volume -> any -> St W (option apierr);
  auth_get : NamespacedName -> St W (result apierr AuthSecret);
  auth_create : NamespacedName -> AuthSecret -> St W (option apierr);
  auth_update : NamespacedName -> AuthSecret -> St W (result apierr AuthSecret);
  random_bytes : St W (result string string);
  err_already : apierr -> bool;
  err_forbidden : apierr -> bool;
  err_invalid : apierr -> bool;
  svc_uid : FrameService -> string;
  owner_ref : FrameService -> result string string;
  is_dns1035 : string -> list string;
  bytes_of : string -> result string Z;   (* resource.ParseQuantity and Value *)
  bytes_text : Z -> string;               (* Quantity.String *)
  template_json : any -> result string string
}.

(** ** A pass that may stop *)

(** An error with the API error it wraps, or a result. *)
Inductive halt := Failed (text : string) (cause : option apierr) | Stopped (res : Result).
Abbreviation step W A := (St W (result halt A)).
Definition go {W A} (a : A) : step W A := mret (inr a).
Definition stop {W A} (res : Result) : step W A := mret (inl (Stopped res)).
Definition fail {W A} (text : string) : step W A := mret (inl (Failed text None)).
Definition fail_with {W A} (text : string) (e : apierr) : step W A := mret (inl (Failed (text +:+ ": " +:+ err_text e) (Some e))).
Definition andThen {W A B} (m : step W A) (k : A -> step W B) : step W B :=
  r ← m; match r with inl h => mret (inl h) | inr a => k a end.
Notation "x ⇐ m ; k" := (andThen m (fun x => k)) (at level 20, m at level 100, k at level 200, right associativity).
Definition of_result {W A} (r : result string A) : step W A := match r with inl e => fail e | inr a => go a end.

Section Provider.
Context {W : Type} {CW : CacheWorld W}.

Definition must_bytes (s : string) : result string Z := match bytes_of s with inr q => inr q | inl e => inl ("cannot parse '" +:+ s +:+ "': " +:+ e) end.

Definition mebibytes_text (n : Z) : string := itoa n +:+ "Mi".
Definition Size_cache (params : strmap) : result string Sizing :=
  match bytes_of (param params "maxMemory") with
  | inl e => inl ("maxMemory: " +:+ e)
  | inr maxMemory =>
    let mib := Z.shiftr maxMemory 20 in
    if is_queue params then
      if bool_decide (param params "volumeSize" = "") then inl "a queue needs volumeSize"
      else match bytes_of (param params "volumeSize") with
      | inl e => inl ("volumeSize: " +:+ e)
      | inr volume =>
        if volume <? wrap64 (3 * maxMemory) then
          inl ("volumeSize " +:+ param params "volumeSize" +:+ " is under three times maxMemory " +:+ param params "maxMemory" +:+
               ": an AOF rewrite holds the old base, its log and the new base at once")
        else inr (mkSizing "" "" cpuRequest (mebibytes_text (2 * mib + overheadMiB)))
      end
    else if nonempty (param params "volumeSize") || nonempty (param params "storageClass") || nonempty (param params "restoredVolumeUID") then
      inl "volumeSize, storageClass and restoredVolumeUID belong to the queue profile: a cache has no volume"
    else inr (mkSizing "" "" cpuRequest (mebibytes_text (mib + mib / 4 + overheadMiB)))
  end.

(** metav1.IsControlledBy. *)
Definition controls (svc : FrameService) (controller : option string) : bool := bool_decide (controller = Some (svc_uid svc)).

Definition find_owned {A} (svc : FrameService) (kind : string) (get : NamespacedName -> St W (result apierr A)) (controller : A -> option string) : step W (option A) :=
  r ← get (service_key svc);
  match r with
  | inl e => if err_notfound e then go None else fail_with ("reading the " +:+ kind) e
  | inr x =>
    if negb (controls svc (controller x)) then
      stop (degraded ReasonNotOwned ("a " +:+ kind +:+ " " +:+ sv_Name svc +:+ " exists and this FrameService did not create it: nothing written"))
    else go (Some x)
  end.

Definition driftOf (sts : StatefulSet) (params : strmap) : string :=
  let live := param (ss_Annotations sts) profileAnnotation in
  if bool_decide (live <> param params "profile") then "profile is " +:+ quote (param params "profile") +:+ ", the instance was created as " +:+ quote live
  else if negb (is_queue params) then ""
  else match ss_ClaimTemplates sts with
  | [] => ""
  | t :: _ =>
    let live := default "" (ct_StorageClassName t) in
    if bool_decide (param params "storageClass" <> live) then "storageClass is " +:+ quote (param params "storageClass") +:+ ", the instance has " +:+ quote live else ""
  end.

Definition checkVolume (svc : FrameService) (params : strmap) : step W (option Volume) :=
  let name := volumeName (sv_Name svc) in
  r ← vol_get (sv_Namespace svc, name);
  match r with
  | inl e =>
    if err_notfound e then
      if nonempty (bt_Endpoint (vs_Binding (sv_Status svc))) then
        stop (degraded ReasonInstanceLost ("queue " +:+ sv_Name svc +:+ " was serving and its volume " +:+ name +:+ " has disappeared: not started on an empty one; " +:+
          "restore it under that name, labelled " +:+ OwnerLabel +:+ "=" +:+ sv_Name svc))
      else go None
    else fail_with "reading the volume" e
  | inr pvc =>
    if bool_decide (param (vo_Labels pvc) OwnerLabel <> sv_Name svc) then
      stop (degraded ReasonNotOwned ("a volume " +:+ vo_Name pvc +:+ " exists and is not labelled as this FrameService's: nothing written"))
    else if nonempty (param params "storageClass") && match vo_StorageClassName pvc with Some c => bool_decide (param params "storageClass" <> c) | None => false end then
      stop (degraded ReasonSpecDrift ("nothing written: storageClass is " +:+ quote (param params "storageClass") +:+ ", the volume " +:+ vo_Name pvc +:+ " has " +:+ quote (default "" (vo_StorageClassName pvc))))
    else
      want ⇐ of_result (must_bytes (param params "volumeSize"));
      if want <? vo_Storage pvc then
        stop (degraded ReasonVolumeShrink ("volumeSize " +:+ param params "volumeSize" +:+ " is under the volume's " +:+ bytes_text (vo_Storage pvc) +:+ ": a volume cannot shrink"))
      else go (Some pvc)
  end.

(** The StatefulSet as it is afterwards. *)
Definition checkVolumeIdentity (sts : StatefulSet) (volume : Volume) (params : strmap) : step W StatefulSet :=
  let uid := vo_UID volume in
  let recorded := param (ss_Annotations sts) volumeUIDAnnotation in
  if bool_decide (recorded = uid) then go sts
  else if nonempty recorded && bool_decide (param params "restoredVolumeUID" <> uid) then
    stop (degraded ReasonInstanceLost ("the volume of queue " +:+ ss_Name sts +:+ " is no longer the one it ran on (UID " +:+ recorded +:+ ", now " +:+ uid +:+ "): its data may be gone; " +:+
      "restore what is needed, then set restoredVolumeUID to the volume's UID. " +:+ "Deleting the StatefulSet would forget this record"))
  else
    r ← sts_update (set_annotation sts volumeUIDAnnotation uid);
    match r with inl e => fail_with "recording the volume's UID" e | inr sts => go sts end.

Definition grow_body (size : string) : any := AMap [("spec", AMap [("resources", AMap [("requests", AMap [("storage", AStr size)])])])].
Definition growVolume (pvc : Volume) (size : string) : step W unit :=
  want ⇐ of_result (must_bytes size);
  if (want =? vo_Storage pvc) || negb (vo_Bound pvc) then go tt
  else
    e ← vol_patch pvc (grow_body size);
    match e with
    | Some e =>
      if err_forbidden e || err_invalid e then stop (degraded ReasonVolumeGrow ("volume " +:+ vo_Name pvc +:+ " cannot grow to " +:+ size +:+ ": " +:+ err_text e))
      else fail_with "growing the volume" e
    | None => stop (degraded ReasonProvisioning ("volume " +:+ vo_Name pvc +:+ " growing to " +:+ size))
    end.

(** ** The password *)

Definition authConf (password : string) : string := "requirepass " +:+ quote password +:+ of_bytes [byte 10].
Definition authDigest (salt password : string) : string := hex_encode (hmac256 (string_bytes salt) (string_bytes password)).
Definition randomBytes : step W string :=
  r ← random_bytes;
  match r with inl e => fail ("generating auth material: " +:+ e) | inr b => go b end.

Definition access_forbidden {A} (svc : FrameService) (action : string) : step W A :=
  stop (mkResult false ReasonSecretAccessForbidden (forbidden_text (mkForbidden (sv_Namespace svc) action)) None).
Definition auth_key (svc : FrameService) : NamespacedName := (sv_Namespace svc, authSecretName (sv_Name svc)).

(** A Secret that is there: auth.conf follows the password, and it has a salt. *)
Definition follow_password (svc : FrameService) (secret : AuthSecret) (password : string) : step W string :=
  let conf := authConf password in
  let salt := param (au_Data secret) saltKey in
  if bool_decide (param (au_Data secret) authConfKey <> conf) || bool_decide (salt = "") then
    fresh ⇐ (if bool_decide (salt = "") then randomBytes else go salt);
    r ← auth_update (auth_key svc) (mkAuthSecret (au_Controller secret) (<[saltKey := fresh]> (<[authConfKey := conf]> (au_Data secret))));
    match r with
    | inl e => if err_forbidden e then access_forbidden svc "write" else fail_with "updating the auth Secret" e
    | inr stored => go (authDigest (param (au_Data stored) saltKey) password)
    end
  else go (authDigest salt password).

Definition new_auth (svc : FrameService) : step W string :=
  raw ⇐ randomBytes;
  salt ⇐ randomBytes;
  let password := hex_encode (string_bytes raw) in
  owner ⇐ of_result (owner_ref svc);
  e ← auth_create (auth_key svc) (mkAuthSecret (Some owner) {[passwordKey := password; authConfKey := authConf password; saltKey := salt]});
  match e with
  | Some e => if err_forbidden e then access_forbidden svc "write" else fail_with "creating the auth Secret" e
  | None => go (authDigest salt password)
  end.

Definition ensureAuth (svc : FrameService) : step W string :=
  let name := authSecretName (sv_Name svc) in
  r ← auth_get (auth_key svc);
  match r with
  | inr secret =>
    if negb (controls svc (au_Controller secret)) then stop (degraded ReasonNotOwned ("a Secret " +:+ name +:+ " exists and this FrameService did not create it: nothing written"))
    else
      let password := param (au_Data secret) passwordKey in
      if bool_decide (password = "") then stop (degraded ReasonAuthInvalid ("Secret " +:+ name +:+ " has no " +:+ quote passwordKey +:+ " key: delete it for a new password"))
      else follow_password svc secret password
  | inl e =>
    if err_forbidden e then access_forbidden svc "read"
    else if negb (err_notfound e) then fail_with "reading the auth Secret" e
    else new_auth svc
  end.

(** ** The objects *)

Definition createService (svc : FrameService) : step W unit :=
  owner ⇐ of_result (owner_ref svc);
  e ← svc_create (mkKService (sv_Name svc) (Some owner) {[OwnerLabel := sv_Name svc]} [(containerName, port, port)]);
  match e with Some e => fail_with "creating the Service" e | None => go tt end.

Definition serverArgs (params : strmap) : result string (list string) :=
  match bytes_of (param params "maxMemory") with
  | inl e => inl ("maxMemory: " +:+ e)
  | inr maxMemory =>
    let args := ["valkey-server"; authPath +:+ "/" +:+ authConfKey; "--dir"; dataPath; "--maxmemory"; itoa maxMemory; "--save"; ""] in
    inr (args ++ if is_queue params then ["--maxmemory-policy"; "noeviction"; "--appendonly"; "yes"; "--appendfsync"; "everysec"]
                 else ["--maxmemory-policy"; "allkeys-lru"; "--appendonly"; "no"])%list
  end.

Definition strs (l : list string) : any := AList (map AStr l).
Definition pod_volumes (svc : FrameService) (params : strmap) : list any :=
  (AMap [("name", AStr authVolume); ("secret", AMap [("secretName", AStr (authSecretName (sv_Name svc))); ("items", AList [AMap [("key", AStr authConfKey); ("path", AStr authConfKey)]])])] ::
   if is_queue params then [] else [AMap [("name", AStr dataVolume); ("emptyDir", AMap [])]])%list.
Definition valkey_container (svc : FrameService) (sizing : Sizing) (args : list string) : any :=
  AMap [("name", AStr containerName); ("image", AStr image); ("args", strs args);
        ("ports", AList [AMap [("name", AStr containerName); ("containerPort", AInt port)]]);
        ("env", AList [AMap [("name", AStr "REDISCLI_AUTH"); ("valueFrom", AMap [("secretKeyRef", AMap [("name", AStr (authSecretName (sv_Name svc))); ("key", AStr passwordKey)])])]]);
        ("resources", AMap [("limits", AMap [("cpu", AOther cpuLimit); ("memory", AOther (sz_Memory sizing))]); ("requests", AMap [("cpu", AOther (sz_CPU sizing)); ("memory", AOther (sz_Memory sizing))])]);
        ("volumeMounts", AList [AMap [("name", AStr authVolume); ("mountPath", AStr authPath); ("readOnly", ABool true)]; AMap [("name", AStr dataVolume); ("mountPath", AStr dataPath)]]);
        ("readinessProbe", AMap [("exec", AMap [("command", strs ["sh"; "-c"; "valkey-cli ping | grep -q PONG"])]); ("periodSeconds", AInt 5); ("timeoutSeconds", AInt 3)]);
        ("livenessProbe", AMap [("tcpSocket", AMap [("port", AInt port)]); ("periodSeconds", AInt 10); ("failureThreshold", AInt 6)]);
        ("securityContext", AMap [("allowPrivilegeEscalation", ABool false); ("readOnlyRootFilesystem", ABool true); ("capabilities", AMap [("drop", strs ["ALL"])])])].
Definition podTemplate (svc : FrameService) (params : strmap) (sizing : Sizing) (digest : string) : result string any :=
  match serverArgs params, must_bytes (sz_Memory sizing), must_bytes (sz_CPU sizing), must_bytes cpuLimit with
  | inl e, _, _, _ | inr _, inl e, _, _ | inr _, inr _, inl e, _ | inr _, inr _, inr _, inl e => inl e
  | inr args, inr _, inr _, inr _ =>
    inr (AMap [("metadata", AMap [("labels", AMap [(OwnerLabel, AStr (sv_Name svc))]); ("annotations", AMap [(authDigestAnnotation, AStr digest)])]);
      ("spec", AMap [("automountServiceAccountToken", ABool false); ("nodeSelector", AMap [(serviceClassLabel, AStr (sv_ServiceClass (sv_Spec svc)))]);
        ("priorityClassName", AStr (PriorityClassForServiceClass (sv_ServiceClass (sv_Spec svc))));
        ("securityContext", AMap [("runAsNonRoot", ABool true); ("runAsUser", AInt runAsUser); ("runAsGroup", AInt runAsGroup); ("fsGroup", AInt runAsGroup); ("seccompProfile", AMap [("type", AStr "RuntimeDefault")])]);
        ("volumes", AList (pod_volumes svc params)); ("containers", AList [valkey_container svc sizing args])])])
  end.

Definition hashOf (template : any) : result string string :=
  match template_json template with inl e => inl e | inr raw => inr (hex_encode (sum256 (string_bytes raw))) end.

Definition createStatefulSet (svc : FrameService) (params : strmap) (template : any) (hash : string) : step W unit :=
  claims ⇐ (if is_queue params then
    size ⇐ of_result (must_bytes (param params "volumeSize"));
    go [mkTemplate (if nonempty (param params "storageClass") then Some (param params "storageClass") else None) size]
  else go []);
  owner ⇐ of_result (owner_ref svc);
  e ← sts_create (mkSts (sv_Name svc) (Some owner) {[profileAnnotation := param params "profile"; templateHashAnnotation := hash]} (Some 1) template claims 0 0 0 0);
  match e with Some e => fail_with "creating the StatefulSet" e | None => go tt end.

Definition readiness (sts : StatefulSet) (svc : FrameService) (params : strmap) : Result :=
  if (ss_Generation sts <=? ss_ObservedGeneration sts) && (1 <=? ss_ReadyReplicas sts) && (1 <=? ss_UpdatedReplicas sts) then
    mkResult true ReasonRunning (sv_Name svc +:+ " running, profile " +:+ param params "profile") None
  else degraded ReasonProvisioning ("waiting for the pod of " +:+ sv_Name svc +:+ "; if none appears, kubectl describe statefulset says why").

Definition rollOut (sts : StatefulSet) (svc : FrameService) (params : strmap) (template : any) (hash : string) : step W Result :=
  if bool_decide (param (ss_Annotations sts) templateHashAnnotation = hash) && bool_decide (ss_Replicas sts = Some 1) then go (readiness sts svc params)
  else
    r ← sts_update (rolled sts template hash);
    match r with
    | inl e => fail_with "updating the StatefulSet" e
    | inr _ => go (degraded ReasonProvisioning ("StatefulSet " +:+ sv_Name svc +:+ " updated, the server restarts"))
    end.

(** ** A pass *)

(** A queue's volume, and the StatefulSet with it on record. *)
Definition check_data (svc : FrameService) (params : strmap) (sts : option StatefulSet) : step W (option Volume * option StatefulSet) :=
  if is_queue params then
    volume ⇐ checkVolume svc params;
    match volume, sts with
    | Some v, Some s => s ⇐ checkVolumeIdentity s v params; go (volume, Some s)
    | _, _ => go (volume, sts)
    end
  else go (None, sts).

(** Past the checks. *)
Definition converge_objects (svc : FrameService) (params : strmap) (sizing : Sizing) (serviceExists : bool) (volume : option Volume) (sts : option StatefulSet) : step W Result :=
  digest ⇐ ensureAuth svc;
  _ ⇐ (if serviceExists then go tt else createService svc);
  _ ⇐ match volume with Some v => growVolume v (param params "volumeSize") | None => go tt end;
  template ⇐ of_result (podTemplate svc params sizing digest);
  hash ⇐ of_result (hashOf template);
  match sts with
  | None =>
    _ ⇐ createStatefulSet svc params template hash;
    go (degraded ReasonProvisioning ("StatefulSet " +:+ sv_Name svc +:+ " created, waiting for its pod"))
  | Some sts => rollOut sts svc params template hash
  end.

Definition converge (svc : FrameService) : step W Result :=
  if bool_decide (is_dns1035 (sv_Name svc) <> []) || (maxNameLength <? Z.of_nat (length (to_bytes (sv_Name svc)))) then
    stop (degraded ReasonInvalidName (quote (sv_Name svc) +:+ " cannot name this instance: at most " +:+ itoa maxNameLength +:+ " characters, a DNS label starting with a letter"))
  else
    let params := params_of svc in
    sizing ⇐ of_result (Size_cache params);
    sts ⇐ find_owned svc "StatefulSet" sts_get ss_Controller;
    let drift := match sts with Some s => driftOf s params | None => "" end in
    if bool_decide (drift <> "") then stop (degraded ReasonSpecDrift ("nothing written: " +:+ drift))
    else
      service ⇐ find_owned svc "Service" svc_get ks_Controller;
      data ⇐ check_data svc params sts;
      converge_objects svc params sizing (bool_decide (is_Some service)) data.1 data.2.

Definition lost_race (e : apierr) : bool := err_already e || err_conflict e.
Definition Reconcile_cache (svc : FrameService) : St W (result string Result) :=
  r ← converge svc;
  mret match r with
  | inr res | inl (Stopped res) => inr res
  | inl (Failed text cause) =>
    match cause with
    | Some e => if lost_race e then inr (degraded ReasonProvisioning (sv_Name svc +:+ " changed during this pass, reading it again")) else inl text
    | None => inl text
    end
  end.

(** ** Bind *)

(** The escaping of a password in the user part of a URL (net/url). *)
Definition userinfo_byte (c : ascii) : bytes :=
  if unreserved c || existsb (Ascii.eqb c) (to_bytes "$&+,;=") then [c] else ["%"%char; upper_hex (byteZ c / 16); upper_hex (byteZ c mod 16)].
Definition redis_url (password endpoint : string) : string := "redis://:" +:+ of_bytes (flat_map userinfo_byte (to_bytes password)) +:+ "@" +:+ endpoint.

Definition Bind_cache (svc : FrameService) : St W (result BindError Binding) :=
  r ← auth_get (auth_key svc);
  mret match r with
  | inl e =>
    if err_forbidden e then let f := mkForbidden (sv_Namespace svc) "read" in inl (mkBindError (forbidden_text f) (Some f))
    else inl (mkBindError ("reading the auth Secret: " +:+ err_text e) None)
  | inr secret =>
    let password := param (au_Data secret) passwordKey in
    if bool_decide (password = "") then inl (mkBindError ("secret " +:+ sv_Namespace svc +:+ "/" +:+ authSecretName (sv_Name svc) +:+ " has no " +:+ quote passwordKey +:+ " key") None)
    else
      let host := sv_Name svc +:+ "." +:+ sv_Namespace svc +:+ ".svc" in
      let endpoint := host +:+ ":" +:+ itoa port in
      inr (mkBinding {[ "host" := host; "port" := itoa port; "password" := password; "url" := redis_url password endpoint ]} endpoint false)
  end.

Definition size_provider (m : strmap) : St W (result SizeError Sizing) := mret (match Size_cache m with inl t => inl (mkSizeError t false) | inr s => inr s end).
Definition cache_provider : Provider W := mkProvider "cache" ParameterSchema size_provider (Some (mkProvisioner Reconcile_cache Bind_cache)).
End Provider.
