(* ===== verification/CacheSafety.v ===== *)
(** What a pass of the cache provider may write, call by call: nothing of a queue is
    started or rolled on a volume that is not the one it ran on, a password is never
    changed, only what this FrameService controls is written; the URL it hands out gives
    the password back; and runs on an in-memory API server. *)
From stdpp Require Import base tactics strings list gmap.
From Stdlib Require Import Ascii ZArith Lia.
From S2P Require Import Prelude Trace GoLib GoText GoTime Kube Sha256 StorageAlerts SchedulingPolicy Services Unstructured Postgres Cache.

Open Scope Z_scope.

(** ** The calls *)

Inductive kcall : Type :=
| KGetSts (k : NamespacedName) (r : result apierr StatefulSet)
| KMakeSts (s : StatefulSet) (e : option apierr)
| KPutSts (s : StatefulSet) (r : result apierr StatefulSet)
| KGetSvc (k : NamespacedName) (r : result apierr KService)
| KMakeSvc (s : KService) (e : option apierr)
| KGetVol (k : NamespacedName) (r : result apierr Volume)
| KGrow (v : Volume) (body : any) (e : option apierr)
| KGetAuth (k : NamespacedName) (r : result apierr AuthSecret)
| KMakeAuth (k : NamespacedName) (s : AuthSecret) (e : option apierr)
| KPutAuth (k : NamespacedName) (s : AuthSecret) (r : result apierr AuthSecret).

Class TracedCache (W : Type) {CW : CacheWorld W} := {
  kcalls : W -> list kcall;
  k_get_sts w k : kcalls (sts_get k w).2 = (kcalls w ++ [KGetSts k (sts_get k w).1])%list;
  k_make_sts w s : kcalls (sts_create s w).2 = (kcalls w ++ [KMakeSts s (sts_create s w).1])%list;
  k_put_sts w s : kcalls (sts_update s w).2 = (kcalls w ++ [KPutSts s (sts_update s w).1])%list;
  k_get_svc w k : kcalls (svc_get k w).2 = (kcalls w ++ [KGetSvc k (svc_get k w).1])%list;
  k_make_svc w s : kcalls (svc_create s w).2 = (kcalls w ++ [KMakeSvc s (svc_create s w).1])%list;
  k_get_vol w k : kcalls (vol_get k w).2 = (kcalls w ++ [KGetVol k (vol_get k w).1])%list;
  k_grow w v b : kcalls (vol_patch v b w).2 = (kcalls w ++ [KGrow v b (vol_patch v b w).1])%list;
  k_get_auth w k : kcalls (auth_get k w).2 = (kcalls w ++ [KGetAuth k (auth_get k w).1])%list;
  k_make_auth w k s : kcalls (auth_create k s w).2 = (kcalls w ++ [KMakeAuth k s (auth_create k s w).1])%list;
  k_put_auth w k s : kcalls (auth_update k s w).2 = (kcalls w ++ [KPutAuth k s (auth_update k s w).1])%list;
  k_random w : kcalls (random_bytes w).2 = kcalls w
}.

Section May.
Context {W : Type} {CW : CacheWorld W}.
Variable svc : FrameService.

Definition vol_key : NamespacedName := (sv_Namespace svc, "data-" +:+ sv_Name svc +:+ "-0").
Definition secret_key : NamespacedName := (sv_Namespace svc, sv_Name svc +:+ "-valkey-auth").
(** A parameter, empty when it is not given; which profile is asked for; and the
    volume's size. *)
Definition asked (k : string) : string := default "" (sv_Parameters (sv_Spec svc) !! k).
Definition queue_asked : Prop := asked "profile" = "queue".
Definition wanted : string := asked "volumeSize".
Definition mine (controller : option string) : Prop := controller = Some (svc_uid svc).
Definition recorded_uid (s : StatefulSet) : string := default "" (ss_Annotations s !! "services.plume-labs.io/volume-uid").

(** A volume that is labelled as this queue's, of the class asked for and no larger
    than asked for. *)
Definition volume_seen (pre : list kcall) (v : Volume) : Prop :=
  KGetVol vol_key (inr v) ∈ pre /\ default "" (vo_Labels v !! "services.plume-labs.io/frameservice") = sv_Name svc /\
  (asked "storageClass" <> "" -> forall c, vo_StorageClassName v = Some c -> c = asked "storageClass") /\
  exists want, bytes_of wanted = inr want /\ vo_Storage v <= want.
(** There is no volume, and the queue never served. *)
Definition never_served (pre : list kcall) : Prop :=
  (exists e, KGetVol vol_key (inl e) ∈ pre /\ err_notfound e = true) /\ bt_Endpoint (vs_Binding (sv_Status svc)) = "".
(** The StatefulSet has this volume on record, or it was put there. *)
Definition on_record (pre : list kcall) (s : StatefulSet) (v : Volume) : Prop :=
  recorded_uid s = vo_UID v \/ exists put, KPutSts put (inr s) ∈ pre /\ recorded_uid put = vo_UID v.
Definition data_ok (pre : list kcall) (sts : option StatefulSet) : Prop :=
  queue_asked -> (exists v, volume_seen pre v /\ forall s, sts = Some s -> on_record pre s v) \/ never_served pre.

(** The instance is what the parameters fix at its creation: its profile and, for a
    queue, the storage class of its volume. *)
Definition as_fixed (s : StatefulSet) : Prop :=
  default "" (ss_Annotations s !! "services.plume-labs.io/cache-profile") = asked "profile" /\
  (queue_asked -> forall t rest, ss_ClaimTemplates s = t :: rest -> default "" (ct_StorageClassName t) = asked "storageClass").
(** The StatefulSet that was found: this FrameService's, as its parameters fix it. *)
Definition found (pre : list kcall) (s : StatefulSet) : Prop :=
  KGetSts (service_key svc) (inr s) ∈ pre /\ mine (ss_Controller s) /\ as_fixed s.

(** The password the pods will have: that of this service's Secret, or of the one just
    made; [digest] is its salted digest. *)
Definition digest_of (salt password : string) : string := hex_encode (hmac256 (string_bytes salt) (string_bytes password)).
Definition auth_ready (pre : list kcall) (digest : string) : Prop :=
  (exists old salt, KGetAuth secret_key (inr old) ∈ pre /\ mine (au_Controller old) /\ param (au_Data old) "password" <> "" /\ digest = digest_of salt (param (au_Data old) "password") /\
     ((salt = param (au_Data old) "digest-salt" /\ salt <> "") \/ exists put stored, KPutAuth secret_key put (inr stored) ∈ pre /\ salt = param (au_Data stored) "digest-salt")) \/
  exists s, KMakeAuth secret_key s None ∈ pre /\ digest = digest_of (param (au_Data s) "digest-salt") (param (au_Data s) "password").
(** The line of auth.conf that sets a password. *)
Definition conf_of (password : string) : string := "requirepass " +:+ quote password +:+ of_bytes [byte 10].

(** The pods: of the class asked for, with the digest on them, running the server with
    the memory asked for; a queue refuses what does not fit and appends to its log on
    the claimed volume, a cache evicts and keeps nothing. *)
Definition valkey_args (m : Z) : list string :=
  (["valkey-server"; "/etc/valkey-auth/auth.conf"; "--dir"; "/data"; "--maxmemory"; itoa m; "--save"; ""] ++
   if decide queue_asked then ["--maxmemory-policy"; "noeviction"; "--appendonly"; "yes"; "--appendfsync"; "everysec"]
   else ["--maxmemory-policy"; "allkeys-lru"; "--appendonly"; "no"])%list.
Definition pods_of (template : any) (digest : string) : Prop :=
  nested template ["metadata"; "annotations"; "services.plume-labs.io/auth-digest"] = Some (AStr digest) /\
  nested_string template ["spec"; "nodeSelector"; "frame.plume-labs.io/service-class"] = sv_ServiceClass (sv_Spec svc) /\
  (queue_asked -> Forall (fun v => nested v ["emptyDir"] = None) (nested_slice template ["spec"; "volumes"])) /\
  exists m c, bytes_of (asked "maxMemory") = inr m /\ nested_slice template ["spec"; "containers"] = [c] /\ nested c ["args"] = Some (AList (map AStr (valkey_args m))).
(** A template and the hash that is written with it. *)
Definition rollout_of (pre : list kcall) (template : any) (hash : string) : Prop :=
  (exists digest, auth_ready pre digest /\ pods_of template digest) /\ exists raw, template_json template = inr raw /\ hash = hex_encode (sum256 (string_bytes raw)).

(** Two StatefulSets that differ in their annotations, template and replicas at most. *)
Definition same_set (s s' : StatefulSet) : Prop := ss_Name s' = ss_Name s /\ ss_Controller s' = ss_Controller s /\ ss_ClaimTemplates s' = ss_ClaimTemplates s.

Definition may (pre : list kcall) (c : kcall) : Prop :=
  match c with
  | KMakeSts s _ =>
    (exists e, KGetSts (service_key svc) (inl e) ∈ pre /\ err_notfound e = true) /\ data_ok pre None /\ ss_Name s = sv_Name svc /\ ss_Replicas s = Some 1 /\
    (exists owner, owner_ref svc = inr owner /\ ss_Controller s = Some owner) /\
    (exists hash, ss_Annotations s = {["services.plume-labs.io/cache-profile" := asked "profile"; "services.plume-labs.io/template-hash" := hash]} /\ rollout_of pre (ss_Template s) hash) /\
    (queue_asked -> exists want, bytes_of wanted = inr want /\ ss_ClaimTemplates s = [mkTemplate (if decide (asked "storageClass" = "") then None else Some (asked "storageClass")) want]) /\
    (~ queue_asked -> ss_ClaimTemplates s = [])
  | KPutSts s' _ =>
    exists s0, found pre s0 /\
      ((exists v, volume_seen pre v /\ queue_asked /\ same_set s0 s' /\ ss_Replicas s' = ss_Replicas s0 /\ ss_Template s' = ss_Template s0 /\
          ss_Annotations s' = <["services.plume-labs.io/volume-uid" := vo_UID v]> (ss_Annotations s0) /\ recorded_uid s0 <> vo_UID v /\ (recorded_uid s0 = "" \/ asked "restoredVolumeUID" = vo_UID v)) \/
       exists s hash, (s = s0 \/ exists put, KPutSts put (inr s) ∈ pre) /\ same_set s s' /\ ss_Replicas s' = Some 1 /\
          ss_Annotations s' = <["services.plume-labs.io/template-hash" := hash]> (ss_Annotations s) /\ rollout_of pre (ss_Template s') hash /\
          (default "" (ss_Annotations s !! "services.plume-labs.io/template-hash") <> hash \/ ss_Replicas s <> Some 1) /\ data_ok pre (Some s))
  | KMakeSvc s _ =>
    (exists e, KGetSvc (service_key svc) (inl e) ∈ pre /\ err_notfound e = true) /\
    exists owner, owner_ref svc = inr owner /\ s = mkKService (sv_Name svc) (Some owner) {["services.plume-labs.io/frameservice" := sv_Name svc]} [("valkey", 6379, 6379)]
  | KGrow v body _ =>
    volume_seen pre v /\ vo_Bound v = true /\ body = AMap [("spec", AMap [("resources", AMap [("requests", AMap [("storage", AStr wanted)])])])] /\
    exists want, bytes_of wanted = inr want /\ vo_Storage v < want
  | KMakeAuth k s _ =>
    k = secret_key /\ (exists e, KGetAuth k (inl e) ∈ pre /\ err_notfound e = true) /\ (exists owner, owner_ref svc = inr owner /\ au_Controller s = Some owner) /\
    param (au_Data s) "auth.conf" = conf_of (param (au_Data s) "password")
  | KPutAuth k s _ =>
    k = secret_key /\ exists old, KGetAuth k (inr old) ∈ pre /\ mine (au_Controller old) /\ au_Controller s = au_Controller old /\ param (au_Data old) "password" <> "" /\
      param (au_Data s) "auth.conf" = conf_of (param (au_Data old) "password") /\ forall key, key <> "auth.conf" -> key <> "digest-salt" -> au_Data s !! key = au_Data old !! key
  | _ => True
  end.

(** The code's tests. *)
Lemma controls_mine c : controls svc c = true <-> mine c.
Proof. apply bool_decide_eq_true. Qed.
Lemma queue_told : is_queue (params_of svc) = bool_decide queue_asked.
Proof. done. Qed.
Lemma drift_told s : driftOf s (params_of svc) = "" <-> as_fixed s.
Proof.
  unfold driftOf, as_fixed. cbv zeta. rewrite queue_told. change (param (params_of svc)) with asked. unfold param, profileAnnotation.
  case_bool_decide as Hp; [split; [done|]; intros [H _]; congruence|]. case_bool_decide as Hq; cbn [negb]; [|by split].
  destruct (ss_ClaimTemplates s) as [|t l]; [by split|]. case_bool_decide as Hc; split; try done; [intros [_ H]; destruct Hc; symmetry; by eapply H|].
  intros _. split; [done|]. by intros _ t' rest [= <- <-].
Qed.
Lemma template_told sizing digest t : podTemplate svc (params_of svc) sizing digest = inr t -> pods_of t digest.
Proof.
  unfold podTemplate, serverArgs. destruct (bytes_of (param (params_of svc) "maxMemory")) as [e|m] eqn:Em; [done|].
  destruct (must_bytes (sz_Memory sizing)), (must_bytes (sz_CPU sizing)), (must_bytes cpuLimit); try done. intros [= <-]. split; [done|]. split; [done|]. split.
  - intros Hq. unfold pod_volumes. rewrite queue_told, bool_decide_true by done. by repeat constructor.
  - exists m. eexists. split; [exact Em|]. split; [reflexivity|]. unfold valkey_args. rewrite queue_told. by case_bool_decide; case_decide.
Qed.

(** Evidence stays evidence. *)
Lemma seen_mono p q v : p ⊆ q -> volume_seen p v -> volume_seen q v.
Proof. intros Hs (H & ?). by split; [apply Hs|]. Qed.
Lemma record_mono p q s v : p ⊆ q -> on_record p s v -> on_record q s v.
Proof. intros Hs [H|(s0 & H & ?)]; [by left|right; exists s0; by split; [apply Hs|]]. Qed.
Lemma data_mono p q sts : p ⊆ q -> data_ok p sts -> data_ok q sts.
Proof.
  intros Hs H Hq. destruct (H Hq) as [(v & Hv & Hr)|((e & He & Hn) & ?)]; [left|right].
  - exists v. split; [by eapply seen_mono|]. intros s Hss. eapply record_mono; [exact Hs|by apply Hr].
  - split; [exists e; by split; [apply Hs|]|done].
Qed.
Lemma sts_found_mono p q s : p ⊆ q -> found p s -> found q s.
Proof. intros Hs (H & ?). by split; [apply Hs|]. Qed.
Lemma auth_mono p q d : p ⊆ q -> auth_ready p d -> auth_ready q d.
Proof.
  intros Hs [(old & salt & H & H1 & H2 & H3 & H4)|(s & H & ?)]; [left; exists old, salt|right; exists s; by split; [apply Hs|]].
  split; [by apply Hs|]. do 3 (split; [done|]). destruct H4 as [?|(put & stored & ? & ?)]; [by left|right]. exists put, stored. by split; [apply Hs|].
Qed.
End May.

(** ** Steps *)

Section Safety.
Context {W : Type} {CW : CacheWorld W} {TC : TracedCache W}.
Variable svc : FrameService.

(** After [pre], the calls of [m] are allowed, and when it goes on it knows [P]. *)
Definition runs {A} (pre : list kcall) (m : step W A) (P : A -> list kcall -> Prop) : Prop :=
  emits kcalls m (fun r t => justified (may svc) pre t /\ match r with inr a => P a (pre ++ t)%list | inl _ => True end).

Lemma runs_go {A} pre (a : A) (P : A -> list kcall -> Prop) : P a pre -> runs pre (go a) P.
Proof. intros H. apply emits_ret. by rewrite app_nil_r. Qed.
Lemma runs_halt {A} pre h (P : A -> list kcall -> Prop) : runs pre (mret (inl h)) P.
Proof. by apply emits_ret. Qed.
Lemma runs_result {A} pre (r : result string A) (P : A -> list kcall -> Prop) : (forall a, r = inr a -> P a pre) -> runs pre (of_result r) P.
Proof. intros H. destruct r; [apply runs_halt|by apply runs_go, H]. Qed.
Lemma runs_call {A B} pre (m : St W A) (ev : A -> kcall) (k : A -> step W B) P : (forall w, kcalls (m w).2 = (kcalls w ++ [ev (m w).1])%list) ->
  (forall a, may svc pre (ev a)) -> (forall a, runs (pre ++ [ev a]) (k a) P) -> runs pre (m ≫= k) P.
Proof.
  intros Hm Hmay Hk. eapply emits_call; [exact Hm|]. intros a. eapply emits_mono; [apply Hk|]. intros r t [Hj HP]. split; [by split|]. destruct r; [done|]. by rewrite <- app_assoc in HP.
Qed.
Lemma runs_then {A B} pre (m : step W A) (k : A -> step W B) P Q : runs pre m P -> (forall a q, pre ⊆ q -> P a q -> runs q (k a) Q) -> runs pre (andThen m k) Q.
Proof.
  intros Hm Hk. eapply emits_bind; [exact Hm|]. intros [h|a] t [Hj HP]; [apply emits_ret; by rewrite app_nil_r|].
  eapply emits_mono; [apply (Hk a (pre ++ t)%list); [set_solver|exact HP]|]. intros r t' [Hj' HQ]. split; [by apply justified_app|]. destruct r; [done|]. by rewrite app_assoc.
Qed.
Lemma runs_post {A} pre (m : step W A) (P Q : A -> list kcall -> Prop) : runs pre m P -> (forall a q, pre ⊆ q -> P a q -> Q a q) -> runs pre m Q.
Proof. intros Hm H. eapply emits_mono; [exact Hm|]. intros [h|a] t [Hj HP]; (split; [done|]); [done|]. apply H; [set_solver|done]. Qed.
Lemma runs_random pre (P : string -> list kcall -> Prop) : (forall s, P s pre) -> runs pre randomBytes P.
Proof. intros H. eapply emits_skip; [intros; apply k_random|]. intros [e|b]; [apply runs_halt|by apply runs_go]. Qed.

Ltac call H := eapply runs_call; [intros; apply H|intros ?|intros ?].

Lemma must_bytes_inr s z : must_bytes s = inr z -> bytes_of s = inr z.
Proof. unfold must_bytes. by destruct (bytes_of s). Qed.

(** ** The parts *)

Lemma find_runs {A} pre kind (get : NamespacedName -> St W (result apierr A)) controller ev : (forall w, kcalls (get (service_key svc) w).2 = (kcalls w ++ [ev (get (service_key svc) w).1])%list) ->
  (forall r p, may svc p (ev r)) ->
  runs pre (find_owned svc kind get controller) (fun o q => match o with
    | None => exists e, ev (inl e) ∈ q /\ err_notfound e = true
    | Some x => ev (inr x) ∈ q /\ mine svc (controller x)
    end).
Proof.
  intros Hg Hm. unfold find_owned. eapply runs_call; [exact Hg|done|]. intros [e|x].
  - destruct (err_notfound e) eqn:E; [|apply runs_halt]. apply runs_go. exists e. split; [set_solver|done].
  - destruct (controls svc (controller x)) eqn:E; [|apply runs_halt]. apply runs_go. split; [set_solver|by apply controls_mine].
Qed.

Lemma volume_runs pre : runs pre (checkVolume svc (params_of svc)) (fun o q => match o with Some v => volume_seen svc q v | None => never_served svc q end).
Proof.
  unfold checkVolume. call k_get_vol; [done|]. destruct a as [e|v].
  - destruct (err_notfound e) eqn:E; [|apply runs_halt]. unfold nonempty. case_bool_decide as Hb; [apply runs_halt|]. apply runs_go. split; [exists e; split; [set_solver|done]|done].
  - case_bool_decide as Hl; [apply runs_halt|]. destruct (nonempty _ && _) eqn:Hc; [apply runs_halt|].
    eapply runs_then; [apply (runs_result _ _ (fun want q => KGetVol (vol_key svc) (inr v) ∈ q /\ bytes_of (wanted svc) = inr want)); intros want Hw; split; [set_solver|by apply must_bytes_inr]|].
    intros want q _ [Hv Hw]. destruct (Z.ltb_spec want (vo_Storage v)); [apply runs_halt|]. apply runs_go. split; [done|]. split; [done|]. split; [|exists want; split; [done|lia]].
    intros Hn c Hvc. rewrite Hvc in Hc. unfold nonempty in Hc. rewrite bool_decide_true in Hc by done. cbn in Hc. apply bool_decide_eq_false in Hc. symmetry. by apply dec_stable.
Qed.

Lemma identity_runs pre s v : queue_asked svc -> found svc pre s -> volume_seen svc pre v -> runs pre (checkVolumeIdentity s v (params_of svc)) (fun s' q => (s' = s \/ exists put, KPutSts put (inr s') ∈ q) /\ on_record q s' v).
Proof.
  intros Hq Hf Hv. unfold checkVolumeIdentity. case_bool_decide as Hr; [apply runs_go; by split; left|]. destruct (nonempty _ && _) eqn:Hc; [apply runs_halt|]. call k_put_sts.
  - exists s. split; [done|]. left. exists v. split; [done|]. split; [done|]. split; [done|]. do 4 (split; [done|]). unfold nonempty in Hc. destruct (decide (param (ss_Annotations s) volumeUIDAnnotation = "")) as [He|He]; [by left|right].
    rewrite bool_decide_true in Hc by done. cbn in Hc. apply bool_decide_eq_false in Hc. by apply dec_stable.
  - destruct a as [e|s']; [apply runs_halt|]. apply runs_go. split; right; exists (set_annotation s volumeUIDAnnotation (vo_UID v)); [set_solver|]. split; [set_solver|]. unfold recorded_uid. cbn. by rewrite lookup_insert_eq.
Qed.

Lemma data_runs pre sts : (forall s, sts = Some s -> found svc pre s) ->
  runs pre (check_data svc (params_of svc) sts) (fun d q => data_ok svc q d.2 /\ (forall v, d.1 = Some v -> volume_seen svc q v) /\
    match sts, d.2 with Some s, Some s' => s' = s \/ exists put, KPutSts put (inr s') ∈ q | None, None => True | _, _ => False end).
Proof.
  intros Hf. unfold check_data. rewrite queue_told. case_bool_decide as Hq; [|apply runs_go; split; [by intros ?|split; [done|destruct sts; [by left|done]]]].
  eapply runs_then; [apply volume_runs|]. intros [v|] q Hs Hv.
  - destruct sts as [s|].
    + eapply runs_then; [apply identity_runs; [done|eapply sts_found_mono; [exact Hs|by apply Hf]|exact Hv]|]. intros s' q' Hs' [Hp Hr]. apply runs_go. cbn. assert (volume_seen svc q' v) as Hv' by by eapply seen_mono.
      split; [intros _; left; exists v; split; [done|by intros ? [= <-]]|]. split; [by intros ? [= <-]|done].
    + apply runs_go. cbn. split; [intros _; left; by exists v|]. by split; [intros ? [= <-]|].
  - destruct sts as [s|]; apply runs_go; cbn; (split; [intros _; by right|]); (split; [done|]); [by left|done].
Qed.

Lemma auth_runs pre : runs pre (ensureAuth svc) (fun digest q => auth_ready svc q digest).
Proof.
  unfold ensureAuth. call k_get_auth; [done|]. destruct a as [e|old].
  - destruct (err_forbidden e); [apply runs_halt|]. destruct (err_notfound e) eqn:Hn; [|apply runs_halt]. cbn [negb]. unfold new_auth.
    eapply runs_then; [apply (runs_random _ (fun _ q => KGetAuth (auth_key svc) (inl e) ∈ q)); intros; set_solver|]. intros raw q1 _ H1.
    eapply runs_then; [apply (runs_random _ (fun _ q => KGetAuth (auth_key svc) (inl e) ∈ q)); intros; set_solver|]. intros salt q2 _ H2.
    eapply runs_then; [apply (runs_result _ _ (fun owner q => KGetAuth (auth_key svc) (inl e) ∈ q /\ owner_ref svc = inr owner)); intros; set_solver|]. intros owner q3 _ [H3 Ho]. call k_make_auth.
    + split; [done|]. split; [by exists e|]. split; [by exists owner|done].
    + destruct a as [x|]; [destruct (err_forbidden x); apply runs_halt|]. apply runs_go. right. eexists. split; [apply elem_of_app; right; by apply list_elem_of_singleton|done].
  - destruct (controls svc (au_Controller old)) eqn:Hc; [|apply runs_halt]. cbn [negb]. case_bool_decide as Hp; [apply runs_halt|].
    apply controls_mine in Hc. set (pre' := (pre ++ [KGetAuth (auth_key svc) (inr old)])%list). assert (forall q, pre' ⊆ q -> KGetAuth (secret_key svc) (inr old) ∈ q) as Hr by (intros q Hq; apply Hq; subst pre'; set_solver).
    unfold follow_password. destruct (_ || _) eqn:Hs.
    2: { apply orb_false_iff in Hs as [_ Hs%bool_decide_eq_false]. apply runs_go. left. exists old. eexists. split; [by apply Hr|]. do 3 (split; [done|]). by left. }
    clear Hs. eapply (runs_then _ _ _ (fun _ q => pre' ⊆ q)); [case_bool_decide; [by apply runs_random|by apply runs_go]|]. intros fresh q _ Hq. call k_put_auth.
    + split; [done|]. exists old. split; [by apply Hr|]. do 3 (split; [done|]). split; [unfold param; cbn; by rewrite lookup_insert_ne, lookup_insert_eq|].
      intros key Hk1 Hk2. cbn. by rewrite !lookup_insert_ne.
    + destruct a as [x|stored]; [destruct (err_forbidden x); apply runs_halt|]. apply runs_go. left. exists old. eexists. split; [apply Hr; set_solver|]. do 3 (split; [done|]). right. do 2 eexists. split; [apply elem_of_app; right; by apply list_elem_of_singleton|done].
Qed.

Lemma grow_runs pre v : volume_seen svc pre v -> runs pre (growVolume v (wanted svc)) (fun _ _ => True).
Proof.
  intros Hv. unfold growVolume. eapply runs_then; [apply (runs_result _ _ (fun want q => volume_seen svc q v /\ bytes_of (wanted svc) = inr want)); intros want Hw; split; [done|by apply must_bytes_inr]|].
  intros want q _ [Hv' Hw]. destruct (want =? vo_Storage v) eqn:E1; [by apply runs_go|]. destruct (vo_Bound v) eqn:E2; [|by apply runs_go]. cbn. call k_grow.
  - split; [done|]. do 2 (split; [done|]). exists want. split; [done|]. destruct Hv' as (_ & _ & _ & want' & Hw' & Hle). apply Z.eqb_neq in E1. assert (want = want') by congruence. lia.
  - destruct a as [e|]; [destruct (_ || _)|]; apply runs_halt.
Qed.

Lemma objects_runs pre sizing (ex : bool) vol sts : let s0 := sts in
  (ex = false -> exists e, KGetSvc (service_key svc) (inl e) ∈ pre /\ err_notfound e = true) -> (forall v, vol = Some v -> volume_seen svc pre v) -> data_ok svc pre sts ->
  match sts with
  | None => exists e, KGetSts (service_key svc) (inl e) ∈ pre /\ err_notfound e = true
  | Some s => exists s0, found svc pre s0 /\ (s = s0 \/ exists put, KPutSts put (inr s) ∈ pre)
  end -> runs pre (converge_objects svc (params_of svc) sizing ex vol sts) (fun _ _ => True).
Proof.
  intros _ Hex Hvol Hdata Hsts. unfold converge_objects. eapply runs_then; [apply auth_runs|]. intros digest q1 Hq1 Hauth.
  eapply (runs_then _ _ _ (fun _ q => q1 ⊆ q)).
  { destruct ex; [by apply runs_go|]. unfold createService. eapply (runs_then _ _ _ (fun owner q => q1 ⊆ q /\ owner_ref svc = inr owner)); [by apply runs_result|]. intros owner q _ [Hq Ho]. call k_make_svc.
    - destruct (Hex eq_refl) as (e & He & ?). split; [exists e; split; [by apply Hq, Hq1|done]|by exists owner].
    - destruct a; [apply runs_halt|]. apply runs_go. set_solver. }
  intros _ q2 _ Hq2. eapply (runs_then _ _ _ (fun _ q => q2 ⊆ q)).
  { destruct vol as [v|]; [|by apply runs_go]. eapply runs_post; [apply grow_runs|done]. eapply seen_mono; [|by apply Hvol]. set_solver. }
  intros _ q3 _ Hq3. assert (pre ⊆ q3) as Hs3 by set_solver. eapply (runs_then _ _ _ (fun t q => q3 ⊆ q /\ pods_of svc t digest)); [apply runs_result; intros t Ht; split; [done|by eapply template_told]|]. intros template q4 _ [Hq4 Hpods].
  eapply (runs_then _ _ _ (fun hash q => q3 ⊆ q /\ hashOf template = inr hash)); [by apply runs_result|]. intros hash q5 _ [Hq5 Hhash].
  assert (pre ⊆ q5) as Hs5 by set_solver. assert (rollout_of svc q5 template hash) as Ha5.
  { split; [exists digest; split; [eapply auth_mono; [|exact Hauth]; set_solver|done]|]. unfold hashOf in Hhash. destruct (template_json template) as [e|raw]; [done|]. injection Hhash as <-. by exists raw. }
  destruct sts as [s|].
  - unfold rollOut. destruct (_ && _) eqn:Hsame; [by apply runs_go|]. apply andb_false_iff in Hsame. rewrite !bool_decide_eq_false in Hsame. call k_put_sts; [|destruct a; [apply runs_halt|by apply runs_go]]. destruct Hsts as (s0 & Hf & Hs). exists s0. split; [by eapply sts_found_mono|]. right.
    exists s, hash. split; [destruct Hs as [?|(put & ?)]; [by left|right; exists put; by apply Hs5]|]. do 5 (split; [done|]). by eapply data_mono.
  - eapply (runs_then _ _ _ (fun _ _ => True)); [|intros; by apply runs_go]. unfold createStatefulSet.
    eapply (runs_then _ _ _ (fun claims q => q5 ⊆ q /\ (queue_asked svc -> exists want, bytes_of (wanted svc) = inr want /\
      claims = [mkTemplate (if decide (asked svc "storageClass" = "") then None else Some (asked svc "storageClass")) want]) /\ (~ queue_asked svc -> claims = []))).
    { rewrite queue_told. case_bool_decide; [|by apply runs_go]. eapply (runs_then _ _ _ (fun want q => q5 ⊆ q /\ bytes_of (wanted svc) = inr want)); [apply runs_result; intros z Hz; split; [done|by apply must_bytes_inr]|].
      intros want q _ [? ?]. apply runs_go. split; [done|]. split; [|done]. intros _. exists want. split; [done|]. unfold nonempty. change (param (params_of svc)) with (asked svc). by case_bool_decide; case_decide. }
    intros claims q6 _ (Hq6 & Hcl & Hcn). eapply (runs_then _ _ _ (fun owner q => q5 ⊆ q /\ owner_ref svc = inr owner)); [by apply runs_result|]. intros owner q7 _ [Hq7 Ho].
    call k_make_sts; [|destruct a; [apply runs_halt|by apply runs_go]]. destruct Hsts as (e & He & Hn). split; [exists e; split; [by apply Hq7, Hs5|done]|].
    split; [eapply data_mono; [|exact Hdata]; set_solver|]. do 2 (split; [done|]). split; [by exists owner|]. split; [|done]. exists hash. split; [done|].
    destruct Ha5 as ((d & Hd & Hp) & Hr). split; [exists d; split; [by eapply auth_mono|done]|done].
Qed.
End Safety.

(** C20. Whatever the API server answers, a pass of the cache provider writes only what
    its FrameService may have. A StatefulSet is created where none was found, and
    updated only when it is controlled by this service, its recorded profile is the
    one asked for and, for a queue, so is the storage class of its claim; that of a
    queue only with a volume labelled as its own, of the class asked for and not larger
    than asked for, which is the one on record when there is a StatefulSet, or with no
    volume when it never served. It is rolled only when the template's hash or the
    replicas differ, to one replica of the server with the memory, the eviction and the
    persistence of its profile and the digest of the Secret's password. The volume on
    record moves only from none, or to the one a person vouches for; a bound volume is
    only grown, to the size asked for; the Secret is written where none was found, or
    when it is this service's and then with its password as it was and auth.conf
    after it. *)
Theorem cache_calls_justified {W : Type} {CW : CacheWorld W} {TC : TracedCache W} (svc : FrameService) (w : W) :
  exists t, kcalls (Reconcile_cache svc w).2 = (kcalls w ++ t)%list /\ justified (may svc) [] t.
Proof.
  assert (runs svc [] (converge svc) (fun _ _ => True)) as H.
  { unfold converge. destruct (_ || _); [apply runs_halt|]. eapply (runs_then _ _ _ _ (fun _ _ => True)); [by apply runs_result|]. intros sizing q0 _ _.
    eapply runs_then; [apply (find_runs svc _ _ _ _ (KGetSts (service_key svc))); [intros; apply k_get_sts|done]|]. intros sts q1 _ Hsts. case_bool_decide as Hd; [apply runs_halt|].
    assert (forall s, sts = Some s -> found svc q1 s) as Hf by (intros s ->; destruct Hsts; split; [done|]; split; [done|]; by apply drift_told).
    eapply runs_then; [apply (find_runs svc _ _ _ _ (KGetSvc (service_key svc))); [intros; apply k_get_svc|done]|]. intros service q2 Hq2 Hsvc.
    eapply runs_then; [apply (data_runs svc _ sts); intros s Hs; eapply sts_found_mono; [exact Hq2|by apply Hf]|]. intros [vol sts'] q3 Hq3 (Hdata & Hvol & Hrel). apply objects_runs; [|done|done|].
    - intros He. apply bool_decide_eq_false in He. destruct service as [x|]; [by destruct He|]. destruct Hsvc as (e & Hin & ?). exists e. split; [by apply Hq3|done].
    - cbn [snd] in *. destruct sts as [s|], sts' as [s'|]; try done.
      + exists s. split; [eapply sts_found_mono; [|by apply Hf]; set_solver|done].
      + destruct Hsts as (e & Hin & ?). exists e. split; [by apply Hq3, Hq2|done]. }
  assert (emits kcalls (Reconcile_cache svc) (fun _ t => justified (may svc) [] t)) as Hr; [|exact (Hr w)].
  eapply emits_bind; [exact H|]. intros r t [Hj _]. apply emits_ret. by rewrite app_nil_r.
Qed.

(** ** Sizes *)

(** A pod that is admitted may hold all the server is told it may: its memory limit is
    more than maxMemory, and the volume of a queue holds three times that. *)
Theorem memory_covers {W : Type} {CW : CacheWorld W} (params : strmap) (m : Z) (sizing : Sizing) :
  bytes_of (param params "maxMemory") = inr m -> 0 <= m < 2 ^ 61 -> Size_cache params = inr sizing ->
  exists n, sz_Memory sizing = mebibytes_text n /\ m < n * 2 ^ 20 /\
    (is_queue params = true -> exists v, bytes_of (param params "volumeSize") = inr v /\ 3 * m <= v).
Proof.
  unfold Size_cache. intros -> Hm H. rewrite wrap64_small in H by (unfold int64_ok; lia).
  assert (m < (Z.shiftr m 20 + 1) * 2 ^ 20 /\ 0 <= Z.shiftr m 20) as [Hs H0].
  { rewrite Z.shiftr_div_pow2 by lia. pose proof (Z.div_mod m (2 ^ 20)). pose proof (Z.mod_pos_bound m (2 ^ 20)). split; [lia|]. apply Z.div_pos; lia. }
  unfold overheadMiB in H. destruct (is_queue params).
  - case_bool_decide; [done|]. destruct (bytes_of (param params "volumeSize")) as [e|v]; [done|]. destruct (Z.ltb_spec v (3 * m)); [done|]. injection H as <-.
    eexists. split; [done|]. split; [lia|]. intros _. by exists v.
  - destruct (_ || _); [done|]. injection H as <-. eexists. split; [done|]. split; [|done]. pose proof (Z.div_pos (Z.shiftr m 20) 4). lia.
Qed.

(** ** The URL *)

(** Percent-decoding (RFC 3986). *)
Definition hex_value (c : ascii) : option Z :=
  if in_range 48 57 c then Some (byteZ c - 48) else if in_range 65 70 c then Some (byteZ c - 55) else if in_range 97 102 c then Some (byteZ c - 87) else None.
Fixpoint percent_decode (l : bytes) : option bytes :=
  match l with
  | [] => Some []
  | c :: t =>
    if Ascii.eqb c "%" then
      match t with
      | x :: y :: t => match hex_value x, hex_value y, percent_decode t with Some a, Some b, Some r => Some (byteN (16 * a + b) :: r) | _, _, _ => None end
      | _ => None
      end
    else match percent_decode t with Some r => Some (c :: r) | None => None end
  end.
(** The user part ends at the first of these. *)
Definition delimiter (c : ascii) : bool := existsb (Ascii.eqb c) (to_bytes "@/?#:[]").
Fixpoint until_at (l : bytes) : option (bytes * bytes) :=
  match l with [] => None | c :: t => if Ascii.eqb c "@" then Some ([], t) else match until_at t with Some (a, b) => Some (c :: a, b) | None => None end end.

Lemma userinfo_plain c : Forall (fun x => delimiter x = false) (userinfo_byte c).
Proof.
  apply Forall_forall. intros x Hx%list_elem_of_In. assert (forallb (fun x => negb (delimiter x)) (userinfo_byte c) = true) as H by (revert c Hx; intros c _; revert c; by apply byte_forall; vm_compute).
  rewrite forallb_forall in H. by apply negb_true_iff, H.
Qed.
Lemma userinfo_decode c t : percent_decode (userinfo_byte c ++ t) = match percent_decode t with Some r => Some (c :: r) | None => None end.
Proof.
  assert (match userinfo_byte c with
          | [x] => Ascii.eqb x c && negb (Ascii.eqb x "%")
          | [p; x; y] => Ascii.eqb p "%" && match hex_value x, hex_value y with Some a, Some b => Ascii.eqb (byteN (16 * a + b)) c | _, _ => false end
          | _ => false end = true) as H by (revert c; by apply byte_forall; vm_compute).
  destruct (userinfo_byte c) as [|x [|y [|z [|]]]]; try done; apply andb_prop in H as [H1 H2]; apply Ascii.eqb_eq in H1 as ->.
  - apply negb_true_iff in H2. cbn. by rewrite H2.
  - destruct (hex_value y) as [a|] eqn:Ea, (hex_value z) as [b|] eqn:Eb; try done. apply Ascii.eqb_eq in H2 as <-. cbn. by rewrite Ea, Eb.
Qed.
Lemma userinfo_roundtrip l : percent_decode (flat_map userinfo_byte l) = Some l.
Proof. induction l as [|c l IH]; [done|]. cbn [flat_map]. by rewrite userinfo_decode, IH. Qed.
Lemma until_at_app a b : Forall (fun x => delimiter x = false) a -> until_at (a ++ "@"%char :: b) = Some (a, b).
Proof.
  induction 1 as [|c l Hc _ IH]; [done|]. cbn. rewrite IH. destruct (Ascii.eqb c "@") eqn:E; [|done]. apply Ascii.eqb_eq in E as ->. by vm_compute in Hc.
Qed.

(** Whatever bytes a password holds, the URL that is handed out has it alone before its
    first at sign, with none of the characters that end a user part, and a client that
    decodes it has the password; the address follows. *)
Theorem url_holds_password (password endpoint : string) :
  exists user, to_bytes (redis_url password endpoint) = (to_bytes "redis://:" ++ user ++ "@"%char :: to_bytes endpoint)%list /\
    until_at (user ++ "@"%char :: to_bytes endpoint) = Some (user, to_bytes endpoint) /\ Forall (fun c => delimiter c = false) user /\
    percent_decode user = Some (to_bytes password).
Proof.
  exists (flat_map userinfo_byte (to_bytes password)). assert (Forall (fun c => delimiter c = false) (flat_map userinfo_byte (to_bytes password))) as Hd.
  { induction (to_bytes password) as [|c l IH]; [constructor|]. cbn. apply Forall_app. by split; [apply userinfo_plain|]. }
  split; [|split; [by apply until_at_app|split; [done|apply userinfo_roundtrip]]]. unfold redis_url. by rewrite !to_bytes_app, to_of_bytes.
Qed.

(** * Runs on an in-memory API server *)

Module Demo.
Record world := mkWorld { log : list kcall; sts : option StatefulSet; service : option KService; vol : option Volume; auth : option AuthSecret; seed : nat }.
Definition note (x : kcall) (w : world) : world := mkWorld (log w ++ [x]) (sts w) (service w) (vol w) (auth w) (seed w).
Definition put_sts (s : option StatefulSet) (w : world) : world := mkWorld (log w) s (service w) (vol w) (auth w) (seed w).
Definition put_auth (a : option AuthSecret) (w : world) : world := mkWorld (log w) (sts w) (service w) (vol w) a (seed w).
Definition put_vol (v : option Volume) (w : world) : world := mkWorld (log w) (sts w) (service w) v (auth w) (seed w).
Definition missing : apierr := ApiErr "not found" true false.
Definition answer {A} (o : option A) : result apierr A := match o with Some x => inr x | None => inl missing end.
Fixpoint text (v : any) : string :=
  match v with
  | ANil => "null" | ABool b => if b then "true" else "false" | AStr s => quote s | AInt z => itoa z | AOther t => quote t
  | AList l => "[" +:+ (fix go l := match l with [] => "]" | x :: l => text x +:+ "," +:+ go l end) l
  | AMap l => "{" +:+ (fix go l := match l with [] => "}" | (k, x) :: l => quote k +:+ ":" +:+ text x +:+ "," +:+ go l end) l
  end.
Definition bytes_value (s : string) : result string Z :=
  let l := to_bytes s in
  let n := (length l - 2)%nat in
  let unit := of_bytes (drop n l) in
  match parse_nat l, parse_nat (take n l) with
  | Some z, _ => inr z
  | None, Some z =>
    if bool_decide (unit = "Mi") then inr (z * 2 ^ 20) else if bool_decide (unit = "Gi") then inr (z * 2 ^ 30)
    else if bool_decide (s = "100m") then inr 1 else inl "quantities must match the regular expression"
  | None, None => inl "quantities must match the regular expression"
  end.

#[local] Instance mem_cache : CacheWorld world := {|
  sts_get := fun k w => let r := answer (sts w) in (r, note (KGetSts k r) w);
  sts_create := fun s w => (None, note (KMakeSts s None) (put_sts (Some s) w));
  sts_update := fun s w => (inr s, note (KPutSts s (inr s)) (put_sts (Some s) w));
  svc_get := fun k w => let r := answer (service w) in (r, note (KGetSvc k r) w);
  svc_create := fun s w => (None, note (KMakeSvc s None) (mkWorld (log w) (sts w) (Some s) (vol w) (auth w) (seed w)));
  vol_get := fun k w => let r := answer (vol w) in (r, note (KGetVol k r) w);
  vol_patch := fun v b w => (None, note (KGrow v b None) w);
  auth_get := fun k w => let r := answer (auth w) in (r, note (KGetAuth k r) w);
  auth_create := fun k s w => (None, note (KMakeAuth k s None) (put_auth (Some s) w));
  auth_update := fun k s w => (inr s, note (KPutAuth k s (inr s)) (put_auth (Some s) w));
  random_bytes := fun w => (inr (itoa (Z.of_nat (seed w))), mkWorld (log w) (sts w) (service w) (vol w) (auth w) (S (seed w)));
  err_already := fun _ => false;
  err_forbidden := fun _ => false;
  err_invalid := fun _ => false;
  svc_uid := fun _ => "uid-1";
  owner_ref := fun _ => inr "uid-1";
  is_dns1035 := fun _ => [];
  bytes_of := bytes_value;
  bytes_text := itoa;
  template_json := fun t => inr (text t)
|}.
#[local] Instance mem_traced_cache : TracedCache world.
Proof. by refine {| kcalls := log |}. Defined.

Definition jobs (params : strmap) (endpoint : string) : FrameService :=
  mkService "apps" "jobs" 1 false [] (mkServiceSpec "cache" params "MEDIUM" (mkBindingSpec "" []) "Retain")
    (mkServiceStatus 0 [] (mkBindingStatus None endpoint []) (mkSizing "" "" "" "") []).
Definition queue : strmap := {["profile" := "queue"; "maxMemory" := "256Mi"; "volumeSize" := "1Gi"]}.
Definition empty : world := mkWorld [] None None None None 0.
Definition reason_of (r : result string Result) : string := match r with inl e => e | inr x => rs_Reason x end.
Definition pass (svc : FrameService) (w : world) : string * world := let '(r, w) := Reconcile_cache svc w in (reason_of r, w).
(** The StatefulSet controller makes the claim and brings the pod up. *)
Definition claimed (uid : string) (w : world) : world :=
  put_vol (Some (mkVolume "data-jobs-0" uid {[OwnerLabel := "jobs"]} None (2 ^ 30) true))
    (put_sts (option_map (fun s => mkSts (ss_Name s) (ss_Controller s) (ss_Annotations s) (ss_Replicas s) (ss_Template s) (ss_ClaimTemplates s) 1 1 1 1) (sts w)) w).
Definition writes (w : world) : list kcall :=
  List.filter (fun c => match c with KGetSts _ _ | KGetSvc _ _ | KGetVol _ _ | KGetAuth _ _ => false | _ => true end) (log w).
Definition recorded (w : world) : string := match sts w with Some s => param (ss_Annotations s) volumeUIDAnnotation | None => "" end.
Definition digest_of (w : world) : string := match sts w with Some s => nested_string (ss_Template s) ["metadata"; "annotations"; authDigestAnnotation] | None => "" end.

(** A queue is created, has its volume put on record, and runs; the pass after writes
    nothing. *)
Example queue_comes_up :
  let '(r1, w1) := pass (jobs queue "") empty in
  let '(r2, w2) := pass (jobs queue "") (claimed "vol-1" w1) in
  let '(r3, w3) := pass (jobs queue "jobs.apps.svc:6379") w2 in
  (r1, r2, r3, recorded w2, bool_decide (length (writes w3) = length (writes w2))) = (ReasonProvisioning, ReasonRunning, ReasonRunning, "vol-1", true).
Proof. by vm_compute. Qed.

Definition queue_up : world := (pass (jobs queue "") (claimed "vol-1" (pass (jobs queue "") empty).2)).2.

(** A volume that went, or another in its place, stops the pass before any write, until
    a person vouches for the new one; a service that never reported an address is taken
    to have no data to lose. *)
Example lost_volume :
  let serving := "jobs.apps.svc:6379" in
  let '(r1, w1) := pass (jobs queue serving) (put_vol None queue_up) in
  let '(r2, w2) := pass (jobs queue serving) (claimed "vol-2" queue_up) in
  let '(r3, w3) := pass (jobs (<["restoredVolumeUID" := "vol-2"]> queue) serving) (claimed "vol-2" queue_up) in
  let '(r4, _) := pass (jobs queue "") (put_vol None queue_up) in
  (r1, r2, r3, r4, recorded w2, recorded w3) = (ReasonInstanceLost, ReasonInstanceLost, ReasonRunning, ReasonRunning, "vol-1", "vol-2") /\
  writes w1 = writes queue_up /\ writes w2 = writes queue_up.
Proof. by vm_compute. Qed.

(** The record is on the StatefulSet: when that goes as well, a volume of the right
    label is started on, whichever it is. *)
Example record_goes_with_set :
  let '(r1, w1) := pass (jobs queue "jobs.apps.svc:6379") (put_sts None (claimed "vol-2" queue_up)) in
  let '(r2, w2) := pass (jobs queue "jobs.apps.svc:6379") (claimed "vol-2" w1) in
  (r1, r2, recorded w2) = (ReasonProvisioning, ReasonRunning, "vol-2").
Proof. by vm_compute. Qed.

(** A password edited by hand is followed: auth.conf first, then a restart, in one
    pass. *)
Example password_followed :
  let edited := put_auth (option_map (fun a => mkAuthSecret (au_Controller a) (<[passwordKey := "p@ss"]> (au_Data a))) (auth queue_up)) queue_up in
  let '(r, w) := pass (jobs queue "jobs.apps.svc:6379") edited in
  r = ReasonProvisioning /\ option_map (fun a => param (au_Data a) authConfKey) (auth w) = Some (authConf "p@ss") /\ bool_decide (digest_of w = digest_of queue_up) = false.
Proof. by vm_compute. Qed.

(** ** Witnesses *)

Lemma cache_calls_justified_witness :
  exists t, kcalls (Reconcile_cache (jobs queue "") empty).2 = (kcalls empty ++ t)%list /\ justified (may (jobs queue "")) [] t.
Proof. exact (cache_calls_justified (jobs queue "") empty). Defined.

Lemma memory_covers_witness : exists n, "576Mi" = mebibytes_text n /\ 256 * 2 ^ 20 < n * 2 ^ 20 /\
  (is_queue queue = true -> exists v, bytes_value "1Gi" = inr v /\ 3 * (256 * 2 ^ 20) <= v).
Proof. exact (memory_covers (CW := mem_cache) queue (256 * 2 ^ 20) (mkSizing "" "" "100m" "576Mi") eq_refl ltac:(lia) eq_refl). Defined.
End Demo.
