(* ===== verification/Inference.v ===== *)
(** internal/services/provider/inference (inference.go, catalog.go): the provider of the
    type "inference", which runs a llama.cpp server on one GPU, and its catalog of models.

    The API server, controllerutil.CreateOrUpdate and SetControllerReference, the order
    Go walks a map in, crypto/rand and resource.ParseQuantity (the value of a quantity in
    some unit of which the quantities used are multiples) are the methods of
    [InferenceWorld]. Of an object the fields the code reads or sets are
    fields of a record, and the others are one [any] value, the record's [rest]. A panic
    (of resource.MustParse, or a division by zero) is an error of the pass. *)
From stdpp Require Import base tactics strings list gmap.
From Stdlib Require Import Ascii ZArith Lia.
From S2P Require Import Prelude GoLib GoText GoTime Kube Sha256 StorageAlerts SchedulingPolicy Services Unstructured Postgres.

Open Scope Z_scope.

(** ** Constants *)

Definition image : string := "ghcr.io/ggml-org/llama.cpp:server-cuda-b11277@sha256:7149a45c80596644320de1d565db1b3b8e70b22c66fed612e69b73f6b1e0d746".
Definition defaultCPUs : Z := 4.
Definition defaultContextLength : Z := 4096.
Definition bytesPerMiB : Z := 1024 * 1024.
Definition containerPort : Z := 8080.
Definition serviceClassLabel : string := "frame.plume-labs.io/service-class".
Definition containerName : string := "llama-cpp".
Definition modelCacheVolumeName : string := "model-cache".
Definition modelMountPath : string := "/models".
Definition tmpVolumeName : string := "tmp".
Definition tmpMountPath : string := "/tmp".
Definition runAsUser : Z := 65532.
Definition defaultModelCache : string := "model-cache-pvc".
Definition desiredReplicas : Z := 1.
Definition apiKeySecretSuffix : string := "-inference-key".
Definition apiKeyDataKey : string := "apiKey".
Definition apiKeyDigestAnnotation : string := "frame.plume-labs.io/api-key-sha256".
Definition apiKeyEnvVar : string := "LLAMA_API_KEY".
Definition terminationMessageLimit : nat := 512.
Definition ErrSizeUnread : string := "sizing input unread".

(** ** The catalog *)

Record InferenceModelSpec := mkModel {
  im_WeightsMiB : Z; im_Layers : Z; im_KVHeads : Z; im_HeadDim : Z; im_HostMemoryMiB : Z; im_ContextLength : Z; im_Parallel : Z; im_KVCacheType : string;
  im_CPUMoELayers : Z; im_Threads : Z; im_ReasoningBudget : option Z; im_ReasoningBudgetMessage : string
}.
Abbreviation model := InferenceModelSpec.
Definition plain_model (weights layers heads dim : Z) : model := mkModel weights layers heads dim 0 0 0 "" 0 0 None "".

Definition kvBytesPer32 : gmap string Z := {[ "" := 64; "f16" := 64; "q8_0" := 34; "q4_0" := 18 ]}.
Definition catalog : list (string * model) :=
  [("llama-3.1-8b-instruct", plain_model 4696 32 8 128); ("llama-3.1-70b-instruct", plain_model 40000 80 8 128); ("qwen2.5-7b-instruct", plain_model 4400 28 4 128)].

(** int64 arithmetic. *)
Definition mul64 (x y : Z) : Z := wrap64 (x * y).
Definition add64 (x y : Z) : Z := wrap64 (x + y).
Definition sub64 (x y : Z) : Z := wrap64 (x - y).
Definition quot64 (x y : Z) : result string Z := if y =? 0 then inl "runtime error: integer divide by zero" else inr (wrap64 (Z.quot x y)).
Definition MaxInt64 : Z := 2 ^ 63 - 1.

Definition kvBytesPerToken (m : model) : Z :=
  Z.quot (add64 (mul64 (mul64 (mul64 (mul64 2 (im_Layers m)) (im_KVHeads m)) (im_HeadDim m)) (default 0 (kvBytesPer32 !! im_KVCacheType m))) 31) 32.

Definition unknownModel (name : string) (known : list string) : string :=
  "parameters.model " +:+ quote name +:+ " is not a model this provider serves: known models are " +:+ join ", " (sort_strings known).

(** ** Objects *)

(** A container's port, and that of a Service. *)
Record ContainerPort := mkPort { cp_ContainerPort : Z; cp_rest : any }.
Record ServicePort := mkServicePort { sp_Port : Z; sp_TargetPort : any; sp_rest : any }.
Record Mount := mkMount { mo_Name : string; mo_MountPath : string; mo_ReadOnly : bool }.
(** An environment variable from a key of a Secret. *)
Record EnvVar := mkEnv { ev_Name : string; ev_Secret : string; ev_Key : string }.
Record Capabilities := mkCaps { ca_Drop : list string; ca_Add : list string }.
Record ContainerSecurity := mkSecurity {
  cx_AllowPrivilegeEscalation : option bool; cx_ReadOnlyRootFilesystem : option bool; cx_RunAsNonRoot : option bool; cx_RunAsUser : option Z;
  cx_Capabilities : option Capabilities; cx_rest : any
}.
Record Container := mkContainer {
  co_Name : string; co_Image : string; co_Args : list string; co_VolumeMounts : list Mount; co_Env : list EnvVar; co_Ports : list ContainerPort;
  co_Limits : gmap string Z; co_Requests : gmap string Z; co_Security : option ContainerSecurity; co_rest : any
}.
Record PodSecurity := mkPodSecurity { px_RunAsNonRoot : option bool; px_RunAsUser : option Z; px_SeccompProfile : any; px_rest : any }.
Record PodVolume := mkPodVolume { pl_Name : string; pl_Source : any }.
Record PodSpec := mkPodSpec {
  ps_NodeSelector : strmap; ps_PriorityClassName : string; ps_Automount : option bool; ps_Security : option PodSecurity; ps_Volumes : list PodVolume;
  ps_Containers : list Container; ps_rest : any
}.
(** [de_Controller] is the UID of its controller; the labels and annotations are those
    of the pod template. *)
Record Deployment := mkDeployment {
  de_Controller : option string; de_Replicas : option Z; de_Strategy : any; de_Selector : option strmap; de_Labels : strmap; de_Annotations : strmap; de_Pod : PodSpec; de_rest : any;
  de_Generation : Z; de_ObservedGeneration : Z; de_ReadyReplicas : Z; de_UpdatedReplicas : Z
}.
Record Service := mkServiceObj { so_Controller : option string; so_Selector : strmap; so_Ports : list ServicePort; so_rest : any }.
Record KeySecret := mkKey { ky_Controller : option string; ky_Data : strmap; ky_rest : any }.

Record PodCondition := mkPodCondition { pc_Type : string; pc_Status : string; pc_Reason : string; pc_Message : string }.
Record Terminated := mkTerminated { te_ExitCode : Z; te_Reason : string; te_Message : string }.
Record ContainerStatus := mkContainerStatus { cs_Name : string; cs_Waiting : option (string * string); cs_LastTerminated : option Terminated }.
Record Pod := mkPod { pd_Name : string; pd_Conditions : list PodCondition; pd_Statuses : list ContainerStatus }.

(** What CreateOrUpdate answers when it fails: the error of the mutate function, where
    [true] is that of the random source, or that of the API server. *)
Inductive apply_error := Refused (random : bool) (text : string) | Api (e : apierr).
Definition apply_text (e : apply_error) : string := match e with Refused _ t => t | Api e => err_text e end.

(** A [..._apply key f] is CreateOrUpdate with the mutate function [f]. [set_controller svc
    c] is SetControllerReference on an object whose controller is [c]. *)
Class InferenceWorld (W : Type) := {
  model_get : string -> St W (result apierr model);
  models_list : St W (result apierr (list (string * model)));
  frameservices_list : St W (result apierr (list FrameService));
  model_create : string -> model -> St W (option apierr);
  catalog_order : St W (list (string * model));
  cache_get : NamespacedName -> St W (option apierr);
  key_apply : NamespacedName -> (KeySecret -> St W (result apply_error KeySecret)) -> St W (result apply_error KeySecret);
  key_get : NamespacedName -> St W (result apierr KeySecret);
  deployment_apply : NamespacedName -> (Deployment -> result apply_error Deployment) -> St W (result apply_error Deployment);
  service_apply : NamespacedName -> (Service -> result apply_error Service) -> St W (result apply_error Service);
  pods_list : string -> strmap -> St W (result apierr (list Pod));
  key_bytes : St W (result string (list Z));
  inf_already : apierr -> bool;
  inf_forbidden : apierr -> bool;
  set_controller : FrameService -> option string -> result string (option string);
  quantity_of : string -> result string Z
}.

Record inference := mkInference { gpuMemoryMiB : Z; has_apiReader : bool }.

Section Provider.
Context {W : Type} {IW : InferenceWorld W}.

(** ** SeedCatalog and lookup *)

Fixpoint seed_loop (todo : list (string * model)) (present named : string -> bool) (empty : bool) : St W (option string) :=
  match todo with
  | [] => mret None
  | (name, m) :: todo =>
    if present name || (negb empty && negb (named name)) then seed_loop todo present named empty
    else
      e ← model_create name m;
      match e with
      | Some e => if inf_already e then seed_loop todo present named empty else mret (Some ("creating the inference model " +:+ name +:+ ": " +:+ err_text e))
      | None => seed_loop todo present named empty
      end
  end.
Definition names_model (services : list FrameService) (name : string) : bool :=
  existsb (fun s => bool_decide (sv_Type (sv_Spec s) = "inference") && bool_decide (param (sv_Parameters (sv_Spec s)) "model" = name)) services.
Definition seed_with (models : list (string * model)) (services : list FrameService) : St W (option string) :=
  order ← catalog_order;
  seed_loop order (fun n => bool_decide (n ∈ map fst models)) (names_model services) (bool_decide (models = [])).
Definition SeedCatalog : St W (option string) :=
  r ← models_list;
  match r with
  | inl e => mret (Some ("listing the inference models: " +:+ err_text e))
  | inr [] => seed_with [] []
  | inr models =>
    s ← frameservices_list;
    match s with inl e => mret (Some ("listing the FrameServices: " +:+ err_text e)) | inr services => seed_with models services end
  end.

Definition lookup (p : inference) (name : string) : St W (result SizeError model) :=
  if negb (has_apiReader p) then
    match List.find (fun e => bool_decide (e.1 = name)) catalog with
    | Some e => mret (inr e.2)
    | None => order ← catalog_order; mret (inl (mkSizeError (unknownModel name (map fst order)) false))
    end
  else
    r ← model_get name;
    match r with
    | inr m => mret (inr m)
    | inl e =>
      if negb (err_notfound e) then mret (inl (mkSizeError (ErrSizeUnread +:+ ": reading the inference model " +:+ quote name +:+ ": " +:+ err_text e) true))
      else
        all ← models_list;
        match all with
        | inl e => mret (inl (mkSizeError (ErrSizeUnread +:+ ": listing the inference models: " +:+ err_text e) true))
        | inr all => mret (inl (mkSizeError (unknownModel name (map fst all)) false))
        end
    end.

(** ** Sizing *)

Definition infer_schema : Schema := mkSchema ["model"]
  {[ "model" := patterned "^[a-z0-9]([-a-z0-9.]*[a-z0-9])?$" class_pattern;
     "contextLength" := patterned "^[0-9]+$" (fun s => bool_decide (to_bytes s <> []) && forallb digit (to_bytes s));
     "modelCache" := mkProperty [] "" (fun _ => true) ["Description"; "Type"] ]} ["Type"; "Required"; "Properties"].

Definition threads (m : model) : Z := if 0 <? im_Threads m then im_Threads m else defaultCPUs.
Definition hostMemoryMiB (m : model) : Z := if 0 <? im_HostMemoryMiB m then im_HostMemoryMiB m else mul64 (im_WeightsMiB m) 2.

Definition resolveContextLength (params : strmap) (m : model) : result string Z :=
  let ctx := if 0 <? im_ContextLength m then im_ContextLength m else defaultContextLength in
  let raw := param params "contextLength" in
  if bool_decide (raw = "") then inr ctx
  else match parse_int64 raw with
  | Some parsed => if parsed <=? 0 then inl ("parameters.contextLength " +:+ quote raw +:+ " is not a positive whole number of tokens") else inr parsed
  | None => inl ("parameters.contextLength " +:+ quote raw +:+ " is not a positive whole number of tokens")
  end.
Definition resolveModelCache (params : strmap) : string :=
  let name := param params "modelCache" in if bool_decide (name = "") then defaultModelCache else name.
Definition modelPath (model : string) : string := modelMountPath +:+ "/" +:+ model +:+ ".gguf".

(** The refusals. *)
Definition too_heavy (p : inference) (name : string) (m : model) : string :=
  "model " +:+ quote name +:+ " needs " +:+ itoa (im_WeightsMiB m) +:+ "Mi for weights alone, and the GPU has " +:+ itoa (gpuMemoryMiB p) +:+ "Mi".
Definition too_long (p : inference) (name : string) (m : model) (ctx maxTokens : Z) : string :=
  "parameters.contextLength " +:+ itoa ctx +:+ " is too large to size for model " +:+ quote name +:+ ": the " +:+ itoa (gpuMemoryMiB p) +:+ "Mi GPU holds at most " +:+ itoa maxTokens +:+
  " tokens of context alongside the " +:+ itoa (im_WeightsMiB m) +:+ "Mi weights".
Definition too_big (p : inference) (name : string) (m : model) (ctx totalMiB kvMiB : Z) : string :=
  "model " +:+ quote name +:+ " at contextLength " +:+ itoa ctx +:+ " needs " +:+ itoa totalMiB +:+ "Mi (" +:+ itoa (im_WeightsMiB m) +:+ "Mi weights + " +:+ itoa kvMiB +:+
  "Mi KV cache) and the GPU has " +:+ itoa (gpuMemoryMiB p) +:+ "Mi: lower contextLength or pick a smaller model".

Definition maxTokens (p : inference) (m : model) : result string Z := quot64 (mul64 (sub64 (gpuMemoryMiB p) (im_WeightsMiB m)) bytesPerMiB) (kvBytesPerToken m).
Definition sizeOf (p : inference) (params : strmap) (m : model) : result string Sizing :=
  let name := param params "model" in
  match resolveContextLength params m with
  | inl e => inl e
  | inr ctx =>
    if gpuMemoryMiB p <=? im_WeightsMiB m then inl (too_heavy p name m)
    else match maxTokens p m, quot64 (MaxInt64 - (bytesPerMiB - 1)) (kvBytesPerToken m) with
    | inl e, _ | _, inl e => inl e
    | inr most, inr bound =>
      if bound <? ctx then inl (too_long p name m ctx most)
      else
        let kvMiB := Z.quot (sub64 (add64 (mul64 (kvBytesPerToken m) ctx) bytesPerMiB) 1) bytesPerMiB in
        let totalMiB := add64 (im_WeightsMiB m) kvMiB in
        if gpuMemoryMiB p <? totalMiB then inl (too_big p name m ctx totalMiB kvMiB)
        else inr (mkSizing "1" (itoa totalMiB +:+ "Mi") (itoa (threads m)) (itoa (hostMemoryMiB m) +:+ "Mi"))
    end
  end.
Definition Size_inference (p : inference) (params : strmap) : St W (result SizeError Sizing) :=
  r ← lookup p (param params "model");
  mret match r with inl e => inl e | inr m => match sizeOf p params m with inl e => inl (mkSizeError e false) | inr s => inr s end end.

(** ** The API key *)

Definition apiKeySecretName (svc : string) : string := svc +:+ apiKeySecretSuffix.
Definition api_key_at (svc : FrameService) : NamespacedName := (sv_Namespace svc, apiKeySecretName (sv_Name svc)).
Definition generateAPIKey : St W (result string string) :=
  r ← key_bytes;
  mret match r with inl e => inl ("reading random bytes for API key: " +:+ e) | inr buf => inr (EncodeToString RawURLEncoding buf) end.
Definition apiKeyDigest (token : string) : string := hex_encode (sum256 (string_bytes token)).

(** The mutate function of the Secret. *)
Definition with_controller (svc : FrameService) (s : KeySecret) : result apply_error KeySecret :=
  match set_controller svc (ky_Controller s) with inl e => inl (Refused false e) | inr c => inr (mkKey c (ky_Data s) (ky_rest s)) end.
Definition mutate_key (svc : FrameService) (s : KeySecret) : St W (result apply_error KeySecret) :=
  if nonempty (param (ky_Data s) apiKeyDataKey) then mret (with_controller svc s)
  else
    t ← generateAPIKey;
    mret match t with inl e => inl (Refused true e) | inr token => with_controller svc (mkKey (ky_Controller s) (<[apiKeyDataKey := token]> (ky_Data s)) (ky_rest s)) end.

Record key_error := mkKeyError { ke_text : string; ke_forbidden : bool }.
Definition ensureAPIKey (svc : FrameService) : St W (result key_error string) :=
  r ← key_apply (api_key_at svc) (mutate_key svc);
  mret match r with
  | inr s => inr (param (ky_Data s) apiKeyDataKey)
  | inl (Refused true t) => inl (mkKeyError ("generating API key for " +:+ sv_Namespace svc +:+ "/" +:+ sv_Name svc +:+ ": " +:+ t) false)
  | inl e => inl (mkKeyError ("reconciling API key Secret " +:+ sv_Namespace svc +:+ "/" +:+ apiKeySecretName (sv_Name svc) +:+ ": " +:+ apply_text e)
                             match e with Api e => inf_forbidden e | _ => false end)
  end.

Definition readAPIKey (svc : FrameService) : St W (result BindError string) :=
  let name := sv_Namespace svc +:+ "/" +:+ apiKeySecretName (sv_Name svc) in
  r ← key_get (api_key_at svc);
  mret match r with
  | inl e =>
    if inf_forbidden e then let f := mkForbidden (sv_Namespace svc) "read" in inl (mkBindError (forbidden_text f) (Some f))
    else inl (mkBindError ("reading API key Secret " +:+ name +:+ ": " +:+ err_text e) None)
  | inr s =>
    let token := param (ky_Data s) apiKeyDataKey in
    if bool_decide (token = "") then inl (mkBindError ("API key Secret " +:+ name +:+ " has no " +:+ quote apiKeyDataKey +:+ " key") None) else inr token
  end.

Definition Bind_inference (svc : FrameService) : St W (result BindError Binding) :=
  let endpoint := "http://" +:+ sv_Name svc +:+ "." +:+ sv_Namespace svc +:+ ".svc.cluster.local:" +:+ itoa containerPort in
  r ← readAPIKey svc;
  mret match r with inl e => inl e | inr token => inr (mkBinding {[ "endpoint" := endpoint; apiKeyDataKey := token ]} endpoint false) end.

(** ** The Deployment *)

Definition escape_dollar (s : string) : string := of_bytes (flat_map (fun c => if Ascii.eqb c "$" then [c; c] else [c]) (to_bytes s)).
Definition modelArgs (m : model) : list string :=
  ((if 0 <? im_Parallel m then ["--parallel"; itoa (im_Parallel m)] else []) ++
   (if nonempty (im_KVCacheType m) then ["--cache-type-k"; im_KVCacheType m; "--cache-type-v"; im_KVCacheType m] else []) ++
   (if 0 <? im_CPUMoELayers m then ["-ngl"; "9999"; "--n-cpu-moe"; itoa (im_CPUMoELayers m)] else []) ++
   (if (0 <? im_Threads m) || (0 <? im_CPUMoELayers m) then ["--threads"; itoa (threads m)] else []) ++
   (match im_ReasoningBudget m with Some b => ["--reasoning-budget"; itoa b] | None => [] end) ++
   (if nonempty (im_ReasoningBudgetMessage m) then ["--reasoning-budget-message"; escape_dollar (im_ReasoningBudgetMessage m)] else []))%list.

(** The first entry of a list that [p] accepts is changed in place, or one is added. *)
Fixpoint find_or_append {A} (p : A -> bool) (f : A -> A) (fresh : A) (l : list A) : list A :=
  match l with
  | [] => [fresh]
  | x :: l => if p x then f x :: l else x :: find_or_append p f fresh l
  end.

Definition setPodSecurityContext (s : option PodSecurity) : option PodSecurity :=
  Some (mkPodSecurity (Some true) (Some runAsUser) (AMap [("type", AStr "RuntimeDefault")]) (match s with Some s => px_rest s | None => ANil end)).
Definition setContainerSecurityContext (s : option ContainerSecurity) : option ContainerSecurity :=
  let added := match s with Some s => match cx_Capabilities s with Some c => ca_Add c | None => [] end | None => [] end in
  Some (mkSecurity (Some false) (Some true) (Some true) (Some runAsUser) (Some (mkCaps ["ALL"] added)) (match s with Some s => cx_rest s | None => ANil end)).
Definition setVolume (vol : PodVolume) : list PodVolume -> list PodVolume := find_or_append (fun v => bool_decide (pl_Name v = pl_Name vol)) (fun _ => vol) vol.
Definition tmp_volume : PodVolume := mkPodVolume tmpVolumeName (AMap [("emptyDir", AMap [])]).
Definition cache_volume (pvcName : string) : PodVolume :=
  mkPodVolume modelCacheVolumeName (AMap [("persistentVolumeClaim", AMap [("claimName", AStr pvcName); ("readOnly", ABool true)])]).
Definition setTmpVolume : list PodVolume -> list PodVolume := setVolume tmp_volume.
Definition setModelCacheVolume (pvcName : string) : list PodVolume -> list PodVolume := setVolume (cache_volume pvcName).
Definition setContainerPort (port : Z) : list ContainerPort -> list ContainerPort := find_or_append (fun p => cp_ContainerPort p =? port) id (mkPort port ANil).
Definition setServicePort (port : Z) (target : any) : list ServicePort -> list ServicePort :=
  find_or_append (fun p => sp_Port p =? port) (fun p => mkServicePort (sp_Port p) target (sp_rest p)) (mkServicePort port target ANil).

(** The quantities of a container: GPU, CPU and memory. *)
Record amounts := mkAmounts { am_gpu : Z; am_cpu : Z; am_memory : Z }.
Definition amounts_of (sizing : Sizing) : result string amounts :=
  match quantity_of "1", quantity_of (sz_CPU sizing), quantity_of (sz_Memory sizing) with
  | inl e, _, _ | inr _, inl e, _ | inr _, inr _, inl e => inl e
  | inr g, inr c, inr m => inr (mkAmounts g c m)
  end.
Definition set_limits (a : amounts) (l : gmap string Z) : gmap string Z := <["memory" := am_memory a]> (<["cpu" := am_cpu a]> (<["nvidia.com/gpu" := am_gpu a]> l)).
Definition set_requests (a : amounts) (l : gmap string Z) : gmap string Z := <["memory" := am_memory a]> (<["cpu" := am_cpu a]> l).

(** What the provider sets of its container. *)
Record wanted_container := mkWanted { wa_Args : list string; wa_Mounts : list Mount; wa_Env : list EnvVar; wa_Amounts : amounts }.
Definition set_container (wa : wanted_container) (c : Container) : Container :=
  mkContainer (co_Name c) image (wa_Args wa) (wa_Mounts wa) (wa_Env wa) (setContainerPort containerPort (co_Ports c))
    (set_limits (wa_Amounts wa) (co_Limits c)) (set_requests (wa_Amounts wa) (co_Requests c)) (setContainerSecurityContext (co_Security c)) (co_rest c).
Definition setContainer (wa : wanted_container) : list Container -> list Container :=
  find_or_append (fun c => bool_decide (co_Name c = containerName)) (set_container wa) (set_container wa (mkContainer containerName "" [] [] [] [] ∅ ∅ None ANil)).

Definition app_labels (svc : FrameService) : strmap := {[ "app" := sv_Name svc ]}.
Definition mounts : list Mount := [mkMount modelCacheVolumeName modelMountPath true; mkMount tmpVolumeName tmpMountPath false].
Definition server_args (params : strmap) (m : model) (ctx : Z) : list string :=
  (["--host"; "0.0.0.0"; "--port"; itoa containerPort; "-m"; modelPath (param params "model"); "-c"; itoa ctx] ++ modelArgs m)%list.
Definition key_env (svc : FrameService) : list EnvVar := [mkEnv apiKeyEnvVar (apiKeySecretName (sv_Name svc)) apiKeyDataKey].
Definition recreate : any := AMap [("type", AStr "Recreate")].

(** The mutate function of the Deployment. *)
Definition shape_pod (svc : FrameService) (params : strmap) (wa : wanted_container) (s : PodSpec) : PodSpec :=
  mkPodSpec {[ serviceClassLabel := sv_ServiceClass (sv_Spec svc) ]} (PriorityClassForServiceClass (sv_ServiceClass (sv_Spec svc))) (Some false) (setPodSecurityContext (ps_Security s))
    (setTmpVolume (setModelCacheVolume (resolveModelCache params) (ps_Volumes s))) (setContainer wa (ps_Containers s)) (ps_rest s).
Definition shape (svc : FrameService) (params : strmap) (m : model) (ctx : Z) (sizing : Sizing) (apiKey : string) (d : Deployment) : result apply_error Deployment :=
  match amounts_of sizing with
  | inl e => inl (Refused false e)
  | inr a =>
    match set_controller svc (de_Controller d) with
    | inl e => inl (Refused false e)
    | inr c =>
      inr (mkDeployment c (Some desiredReplicas) recreate (Some (app_labels svc)) (app_labels svc) (<[apiKeyDigestAnnotation := apiKeyDigest apiKey]> (de_Annotations d))
        (shape_pod svc params (mkWanted (server_args params m ctx) mounts (key_env svc) a) (de_Pod d)) (de_rest d)
        (de_Generation d) (de_ObservedGeneration d) (de_ReadyReplicas d) (de_UpdatedReplicas d))
    end
  end.
(** That of the Service. *)
Definition shape_service (svc : FrameService) (s : Service) : result apply_error Service :=
  match set_controller svc (so_Controller s) with
  | inl e => inl (Refused false e)
  | inr c => inr (mkServiceObj c (app_labels svc) (setServicePort containerPort (AInt containerPort) (so_Ports s)) (so_rest s))
  end.

(** ** What keeps a pod from starting *)

Definition blockedWaitingReasons : list string := ["CreateContainerConfigError"; "CreateContainerError"; "CrashLoopBackOff"; "Error"; "ImagePullBackOff"; "ErrImagePull"].
Definition ellipsis : string := of_bytes [byte 226; byte 128; byte 166].
Definition containerBlockedMessage (cs : ContainerStatus) : string :=
  let waiting := match cs_Waiting cs with Some w => w.2 | None => "" end in
  match cs_LastTerminated cs with
  | None => waiting
  | Some term =>
    let msg := trim_space (te_Message term) in
    let detail := "previous run exited with code " +:+ itoa (te_ExitCode term) +:+
      (if nonempty (te_Reason term) then " (" +:+ te_Reason term +:+ ")" else "") +:+
      (if nonempty msg then
         ": " +:+ (if (terminationMessageLimit <? length (to_bytes msg))%nat then of_bytes (take terminationMessageLimit (to_bytes msg)) +:+ ellipsis else msg)
       else "") in
    if bool_decide (waiting = "") then detail else waiting +:+ "; " +:+ detail
  end.

Definition unschedulable (pod : Pod) : option (string * string) :=
  match List.find (fun c => bool_decide (pc_Type c = "PodScheduled") && bool_decide (pc_Status c = "False") && bool_decide (pc_Reason c = "Unschedulable")) (pd_Conditions pod) with
  | Some c => Some ("Unschedulable", "Pod " +:+ pd_Name pod +:+ " fits no node: " +:+ pc_Message c)
  | None => None
  end.
Definition is_blocked (cs : ContainerStatus) : bool := match cs_Waiting cs with Some w => bool_decide (w.1 ∈ blockedWaitingReasons) | None => false end.
Definition blocked (pod : Pod) : option (string * string) :=
  match List.find is_blocked (pd_Statuses pod) with
  | Some cs => Some (match cs_Waiting cs with Some w => w.1 | None => "" end, "Pod " +:+ pd_Name pod +:+ " container " +:+ cs_Name cs +:+ " cannot start: " +:+ containerBlockedMessage cs)
  | None => None
  end.
Fixpoint stuck (pods : list Pod) : option (string * string) :=
  match pods with
  | [] => None
  | pod :: pods => match unschedulable pod with Some r => Some r | None => match blocked pod with Some r => Some r | None => stuck pods end end
  end.

(** ** A pass *)

Definition provisioned_refs (svc : FrameService) : list ProvisionedRef :=
  [mkProvisioned "apps/v1" "Deployment" (sv_Name svc) (sv_Namespace svc); mkProvisioned "v1" "Service" (sv_Name svc) (sv_Namespace svc)].
Definition rolling (d : Deployment) : bool := (de_ReadyReplicas d <? desiredReplicas) || (de_UpdatedReplicas d <? desiredReplicas) || (de_ObservedGeneration d <? de_Generation d).
Definition progress (svc : FrameService) (d : Deployment) : St W (result string Result) :=
  if rolling d then
    r ← pods_list (sv_Namespace svc) (app_labels svc);
    mret match r with
    | inl e => inl ("listing pods for " +:+ sv_Namespace svc +:+ "/" +:+ sv_Name svc +:+ ": " +:+ err_text e)
    | inr pods =>
      inr match stuck pods with
      | Some (reason, message) => mkResult false reason message (Some (provisioned_refs svc))
      | None => mkResult false "RolloutInProgress" ("Deployment " +:+ sv_Name svc +:+ " has " +:+ itoa (de_ReadyReplicas d) +:+ "/" +:+ itoa desiredReplicas +:+ " ready replicas, " +:+
                  itoa (de_UpdatedReplicas d) +:+ " on the latest template") (Some (provisioned_refs svc))
      end
    end
  else mret (inr (mkResult true "Provisioned" "Deployment and Service created" (Some (provisioned_refs svc)))).

(** Once the key is there. *)
Definition converge_inference (svc : FrameService) (m : model) (ctx : Z) (sizing : Sizing) (apiKey : string) : St W (result string Result) :=
  let name := sv_Namespace svc +:+ "/" +:+ sv_Name svc in
  r ← deployment_apply (service_key svc) (shape svc (sv_Parameters (sv_Spec svc)) m ctx sizing apiKey);
  match r with
  | inl e => mret (inl ("reconciling Deployment " +:+ name +:+ ": " +:+ apply_text e))
  | inr d =>
    s ← service_apply (service_key svc) (shape_service svc);
    match s with inl e => mret (inl ("reconciling Service " +:+ name +:+ ": " +:+ apply_text e)) | inr _ => progress svc d end
  end.

(** Once the model is read and fits. *)
Definition reconcile_sized (svc : FrameService) (m : model) (ctx : Z) (sizing : Sizing) : St W (result string Result) :=
  let cacheName := resolveModelCache (sv_Parameters (sv_Spec svc)) in
  e ← cache_get (sv_Namespace svc, cacheName);
  match e with
  | Some e =>
    mret (inr (if err_notfound e then
      mkResult false "ModelCacheMissing" ("PersistentVolumeClaim " +:+ quote cacheName +:+ " not found in namespace " +:+ quote (sv_Namespace svc) +:+
        ": create the model cache (or set parameters.modelCache to an existing one) before this instance can start") None
    else mkResult false "ModelCacheCheckFailed" ("checking for PersistentVolumeClaim " +:+ quote cacheName +:+ " in namespace " +:+ quote (sv_Namespace svc) +:+ ": " +:+ err_text e) None))
  | None =>
    k ← ensureAPIKey svc;
    match k with
    | inl e =>
      if ke_forbidden e then mret (inr (mkResult false ReasonSecretAccessForbidden (forbidden_text (mkForbidden (sv_Namespace svc) "write")) None))
      else mret (inl (ke_text e))
    | inr apiKey => converge_inference svc m ctx sizing apiKey
    end
  end.

Definition Reconcile_inference (p : inference) (svc : FrameService) : St W (result string Result) :=
  let params := sv_Parameters (sv_Spec svc) in
  r ← lookup p (param params "model");
  match r with
  | inl e => mret (inl (se_text e))
  | inr m =>
    match sizeOf p params m, resolveContextLength params m with
    | inl e, _ | inr _, inl e => mret (inl e)
    | inr sizing, inr ctx => reconcile_sized svc m ctx sizing
    end
  end.

Definition inference_provider (p : inference) : Provider W := mkProvider "inference" infer_schema (Size_inference p) (Some (mkProvisioner (Reconcile_inference p) Bind_inference)).
End Provider.
