(* ===== verification/InferenceSafety.v ===== *)
(** The inference provider: a context window is accepted exactly when the card holds it,
    in machine arithmetic; what it sets of its Deployment and Service is there after one
    pass and, whatever the API server fills in beside it, the next one changes nothing;
    nothing is written for a model that does not fit or a cache that is not there, and
    a key is never replaced; the catalog's defaults never overwrite; and runs on an
    in-memory API server. *)
From stdpp Require Import base tactics strings list gmap.
From Stdlib Require Import Ascii ZArith Lia Permutation.
From S2P Require Import Prelude Trace GoLib GoText GoTime Kube Sha256 StorageAlerts SchedulingPolicy Services Unstructured Postgres Inference.

Open Scope Z_scope.

(** ** Sizes *)

(** The validation of an InferenceModel (its OpenAPI schema). *)
Definition admitted_model (m : model) : Prop :=
  1 <= im_WeightsMiB m <= 16777216 /\ 1 <= im_Layers m <= 1024 /\ 1 <= im_KVHeads m <= 1024 /\ 1 <= im_HeadDim m <= 4096 /\
  im_KVCacheType m ∈ [""; "f16"; "q8_0"; "q4_0"] /\ 0 <= im_HostMemoryMiB m <= 16777216 /\ 0 <= im_ContextLength m.

(** The cache of a token, without a width. *)
Definition kv_bytes (m : model) : Z := (2 * im_Layers m * im_KVHeads m * im_HeadDim m * default 0 (kvBytesPer32 !! im_KVCacheType m) + 31) / 32.
Definition ceil_div (x y : Z) : Z := (x + y - 1) / y.

Lemma ceil_div_le x y g : 0 < y -> ceil_div x y <= g <-> x <= g * y.
Proof.
  intros Hy. unfold ceil_div. split; intros H.
  - pose proof (Z.mod_pos_bound (x + y - 1) y Hy). pose proof (Z.div_mod (x + y - 1) y). nia.
  - apply Z.lt_succ_r, Z.div_lt_upper_bound; lia.
Qed.
Lemma per32_bound t : t ∈ [""; "f16"; "q8_0"; "q4_0"] -> 18 <= default 0 (kvBytesPer32 !! t) <= 64.
Proof. rewrite !elem_of_cons, elem_of_nil. intros [->|[->|[->|[->|[]]]]]; vm_compute; split; discriminate. Qed.
Lemma wrap64_sub x y : wrap64 (wrap64 x - y) = wrap64 (x - y).
Proof.
  unfold wrap64, wrap. f_equal. replace ((x + 2 ^ (64 - 1)) `mod` 2 ^ 64 - 2 ^ (64 - 1) - y + 2 ^ (64 - 1)) with ((x + 2 ^ (64 - 1)) `mod` 2 ^ 64 - y) by lia.
  rewrite Zminus_mod_idemp_l. f_equal. lia.
Qed.

Lemma mul_bounds x y a b c d : a <= x <= b -> c <= y <= d -> 0 <= a -> 0 <= c -> a * c <= x * y <= b * d.
Proof. intros. split; apply Z.mul_le_mono_nonneg; lia. Qed.
Lemma kv_exact m : admitted_model m -> kvBytesPerToken m = kv_bytes m /\ 1 <= kv_bytes m <= 2 ^ 34.
Proof.
  intros (_ & HL & HH & HD & Ht & _). apply per32_bound in Ht. unfold kvBytesPerToken, kv_bytes, add64, mul64. revert Ht. generalize (default 0 (kvBytesPer32 !! im_KVCacheType m)). intros b Hb.
  pose proof (mul_bounds 2 (im_Layers m) 2 2 1 1024 ltac:(lia) HL ltac:(lia) ltac:(lia)) as H1. rewrite (wrap64_small (2 * im_Layers m)) by (unfold int64_ok; lia).
  pose proof (mul_bounds _ _ _ _ _ _ H1 HH ltac:(lia) ltac:(lia)) as H2. rewrite (wrap64_small (2 * im_Layers m * im_KVHeads m)) by (unfold int64_ok; lia).
  pose proof (mul_bounds _ _ _ _ _ _ H2 HD ltac:(lia) ltac:(lia)) as H3. rewrite (wrap64_small (2 * im_Layers m * im_KVHeads m * im_HeadDim m)) by (unfold int64_ok; lia).
  pose proof (mul_bounds _ _ _ _ _ _ H3 Hb ltac:(lia) ltac:(lia)) as H4. rewrite (wrap64_small (2 * im_Layers m * im_KVHeads m * im_HeadDim m * b)) by (unfold int64_ok; lia). rewrite wrap64_small by (unfold int64_ok; lia).
  rewrite Z.quot_div_nonneg by lia. split; [done|]. split; [apply Z.div_le_lower_bound; lia|]. apply Z.lt_succ_r, Z.div_lt_upper_bound; lia.
Qed.

Lemma context_positive params m ctx : admitted_model m -> resolveContextLength params m = inr ctx -> 0 < ctx.
Proof.
  intros _. unfold resolveContextLength. case_bool_decide as E.
  - intros [= <-]. destruct (Z.ltb_spec 0 (im_ContextLength m)); [done|by vm_compute].
  - destruct (parse_int64 _) as [z|]; [|done]. destruct (Z.leb_spec z 0); [done|]. by intros [= <-].
Qed.

Lemma quot64_exact x y : 0 <= x < 2 ^ 63 -> 0 < y -> quot64 x y = inr (x / y).
Proof.
  intros Hx Hy. unfold quot64. replace (y =? 0) with false by (symmetry; apply Z.eqb_neq; lia). rewrite Z.quot_div_nonneg by lia.
  assert (0 <= x / y <= x) by (split; [apply Z.div_pos; lia|apply Z.div_le_upper_bound; nia]). by rewrite wrap64_small by (unfold int64_ok; lia).
Qed.

(** The machine's sizes are the exact ones. *)
Lemma sizes_exactly {W : Type} {IW : InferenceWorld W} (p : inference) (params : strmap) (m : model) (ctx : Z) :
  admitted_model m -> im_WeightsMiB m < gpuMemoryMiB p <= 2 ^ 43 -> resolveContextLength params m = inr ctx ->
  exists most, maxTokens p m = inr most /\ most = (gpuMemoryMiB p - im_WeightsMiB m) * bytesPerMiB / kv_bytes m /\
    ((exists s, sizeOf p params m = inr s) <-> ctx <= most) /\
    forall s, sizeOf p params m = inr s -> exists total, sz_GPUMemory s = itoa total +:+ "Mi" /\ total = im_WeightsMiB m + ceil_div (kv_bytes m * ctx) bytesPerMiB /\ total <= gpuMemoryMiB p.
Proof.
  intros Hm Hg Hc. pose proof (context_positive _ _ _ Hm Hc) as Hpos. destruct (kv_exact m Hm) as [Hk Hkb]. assert (1 <= im_WeightsMiB m <= 16777216) as HW by apply Hm.
  set (room := gpuMemoryMiB p - im_WeightsMiB m). assert (1 <= room < 2 ^ 43) as Hroom by (unfold room; lia). set (most := room * bytesPerMiB / kv_bytes m).
  assert (maxTokens p m = inr most) as Hmost.
  { unfold maxTokens, sub64, mul64. fold room. rewrite Hk, (wrap64_small room), (wrap64_small (room * _)) by (unfold int64_ok, bytesPerMiB; lia). apply quot64_exact; unfold bytesPerMiB; lia. }
  assert (forall x, x <= most <-> kv_bytes m * x <= room * bytesPerMiB) as Hfit.
  { intros x. unfold most. split; intros H.
    - pose proof (Z.mul_div_le (room * bytesPerMiB) (kv_bytes m)). nia.
    - apply Z.div_le_lower_bound; lia. }
  exists most. split; [done|]. split; [done|]. unfold sizeOf. rewrite Hc, Hmost, Hk. replace (gpuMemoryMiB p <=? im_WeightsMiB m) with false by (symmetry; apply Z.leb_gt; lia).
  rewrite quot64_exact by (unfold MaxInt64, bytesPerMiB; lia). destruct (Z.ltb_spec ((MaxInt64 - (bytesPerMiB - 1)) / kv_bytes m) ctx) as [Hlt|Hle].
  { split; [|done]. split; [by intros [s H]|]. intros Hx%Hfit. exfalso. apply Z.lt_nge in Hlt. apply Hlt, Z.div_le_lower_bound; [lia|]. unfold MaxInt64, bytesPerMiB in *. lia. }
  assert (kv_bytes m * ctx <= MaxInt64 - (bytesPerMiB - 1)) as Hsafe.
  { pose proof (Z.mul_div_le (MaxInt64 - (bytesPerMiB - 1)) (kv_bytes m)). nia. }
  assert (0 < kv_bytes m * ctx) as Hx by nia. revert Hfit Hsafe Hx. unfold mul64, add64, sub64. intros Hfit Hsafe Hx.
  rewrite (wrap64_small (kv_bytes m * ctx)), wrap64_sub, (wrap64_small (kv_bytes m * ctx + bytesPerMiB - 1)) by (unfold int64_ok, MaxInt64, bytesPerMiB in *; lia). rewrite Z.quot_div_nonneg by (unfold bytesPerMiB; lia).
  fold (ceil_div (kv_bytes m * ctx) bytesPerMiB). assert (0 <= ceil_div (kv_bytes m * ctx) bytesPerMiB <= 2 ^ 43) as Hceil.
  { split; [apply Z.div_pos; unfold bytesPerMiB; lia|]. apply ceil_div_le; unfold MaxInt64, bytesPerMiB in *; lia. }
  rewrite wrap64_small by (unfold int64_ok; lia). specialize (Hfit ctx). rewrite <- ceil_div_le in Hfit by (unfold bytesPerMiB; lia). subst room.
  destruct (Z.ltb_spec (gpuMemoryMiB p) (im_WeightsMiB m + ceil_div (kv_bytes m * ctx) bytesPerMiB)).
  - split; [|done]. split; [by intros [s ?]|]. intros ?%Hfit. lia.
  - split; [split; [intros _; apply Hfit; lia|by eexists]|]. intros s [= <-]. eexists. split; [done|]. split; [done|lia].
Qed.

(** C28. A context window is accepted exactly when the card's memory beside the weights holds
    its cache, whatever the window and although the arithmetic is that of int64; the
    largest one a refusal names is the largest that is accepted; and what is reported is
    the weights and the cache, rounded up. *)
Theorem context_fits_iff {W : Type} {IW : InferenceWorld W} (p : inference) (params : strmap) (m : model) (ctx : Z) :
  admitted_model m -> im_WeightsMiB m < gpuMemoryMiB p <= 2 ^ 43 -> resolveContextLength params m = inr ctx ->
  exists most, maxTokens p m = inr most /\ most = (gpuMemoryMiB p - im_WeightsMiB m) * bytesPerMiB / kv_bytes m /\
    ((exists s, sizeOf p params m = inr s) <-> ctx <= most) /\
    forall s, sizeOf p params m = inr s -> exists total, sz_GPUMemory s = itoa total +:+ "Mi" /\ total = im_WeightsMiB m + ceil_div (kv_bytes m * ctx) bytesPerMiB /\ total <= gpuMemoryMiB p.
Proof. apply sizes_exactly. Qed.

(** ** What a pass sets stays set *)

Section FindOrAppend.
Context {A : Type} (p : A -> bool) (f : A -> A) (fresh : A).

Lemma foa_fixed l x : List.find p l = Some x -> f x = x -> find_or_append p f fresh l = l.
Proof. intros Hf Hx. induction l as [|y l IH]; [done|]. cbn in *. destruct (p y); [by injection Hf as ->; rewrite Hx|]. by rewrite IH. Qed.
Lemma foa_found l : (forall x, p x = true -> p (f x) = true) -> p fresh = true ->
  exists x, List.find p (find_or_append p f fresh l) = Some x /\ ((exists y, x = f y) \/ x = fresh).
Proof.
  intros Hp Hfr. induction l as [|y l IH]; cbn; [rewrite Hfr; exists fresh; split; [done|by right]|].
  destruct (p y) eqn:E; cbn; [rewrite (Hp _ E); exists (f y); split; [done|left; by exists y]|by rewrite E].
Qed.
Lemma foa_other (q : A -> bool) l : (forall x, p x = true -> q x = false /\ q (f x) = false) -> q fresh = false -> List.find q (find_or_append p f fresh l) = List.find q l.
Proof.
  intros Hq Hfr. induction l as [|y l IH]; cbn; [by rewrite Hfr|]. destruct (p y) eqn:E; cbn; [destruct (Hq _ E) as [-> ->]; done|by rewrite IH].
Qed.
End FindOrAppend.

Lemma find_related {A} (p : A -> bool) (R : A -> A -> Prop) l l' extra x : Forall2 R l l' -> (forall a b, R a b -> p b = p a) -> List.find p l = Some x ->
  exists x', List.find p (l' ++ extra) = Some x' /\ R x x'.
Proof.
  intros H Hp. induction H as [|a b l l' Hab _ IH]; cbn; [done|]. rewrite (Hp _ _ Hab). destruct (p a); [|done]. intros [= <-]. by exists b.
Qed.

(** The API server, or an admission webhook, fills in what was left unset: of the fields
    the provider sets, a struct keeps them, a map keeps its keys, a list its entries in
    their places. *)
Definition fills_security (s s' : option ContainerSecurity) : Prop :=
  forall x, s = Some x -> exists rest, s' = Some (mkSecurity (cx_AllowPrivilegeEscalation x) (cx_ReadOnlyRootFilesystem x) (cx_RunAsNonRoot x) (cx_RunAsUser x) (cx_Capabilities x) rest).
Definition fills_pod_security (s s' : option PodSecurity) : Prop :=
  forall x, s = Some x -> exists rest, s' = Some (mkPodSecurity (px_RunAsNonRoot x) (px_RunAsUser x) (px_SeccompProfile x) rest).
Record fills_container (c c' : Container) : Prop := mkFills {
  fc_name : co_Name c' = co_Name c; fc_image : co_Image c' = co_Image c; fc_args : co_Args c' = co_Args c; fc_mounts : co_VolumeMounts c' = co_VolumeMounts c; fc_env : co_Env c' = co_Env c;
  fc_ports : Forall2 (fun p q => cp_ContainerPort q = cp_ContainerPort p) (co_Ports c) (co_Ports c');
  fc_limits : co_Limits c ⊆ co_Limits c'; fc_requests : co_Requests c ⊆ co_Requests c'; fc_security : fills_security (co_Security c) (co_Security c')
}.
Record fills_pod (s s' : PodSpec) : Prop := mkFillsPod {
  fp_selector : ps_NodeSelector s' = ps_NodeSelector s; fp_priority : ps_PriorityClassName s' = ps_PriorityClassName s; fp_automount : ps_Automount s' = ps_Automount s;
  fp_security : fills_pod_security (ps_Security s) (ps_Security s'); fp_volumes : ps_Volumes s' = ps_Volumes s;
  fp_containers : exists l extra, ps_Containers s' = (l ++ extra)%list /\ Forall2 fills_container (ps_Containers s) l
}.
Record fills (d d' : Deployment) : Prop := mkFillsDeployment {
  fd_controller : de_Controller d' = de_Controller d; fd_replicas : de_Replicas d' = de_Replicas d; fd_strategy : de_Strategy d' = de_Strategy d; fd_selector : de_Selector d' = de_Selector d;
  fd_labels : de_Labels d' = de_Labels d; fd_annotations : de_Annotations d ⊆ de_Annotations d'; fd_pod : fills_pod (de_Pod d) (de_Pod d')
}.
Record fills_service (s s' : Service) : Prop := mkFillsService {
  fs_controller : so_Controller s' = so_Controller s; fs_selector : so_Selector s' = so_Selector s;
  fs_ports : Forall2 (fun p q => sp_Port q = sp_Port p /\ sp_TargetPort q = sp_TargetPort p) (so_Ports s) (so_Ports s')
}.

Lemma insert_kept {V} (k : string) (v : V) (m m' : gmap string V) : m ⊆ m' -> m !! k = Some v -> <[k := v]> m' = m'.
Proof. intros Hs Hk. apply insert_id. by eapply lookup_weaken. Qed.

Lemma limits_kept a l l' : set_limits a l ⊆ l' -> set_limits a l' = l'.
Proof.
  intros H. unfold set_limits. rewrite (insert_kept "nvidia.com/gpu" _ _ l' H) by (unfold set_limits; do 2 rewrite lookup_insert_ne by done; by rewrite lookup_insert_eq).
  rewrite (insert_kept "cpu" _ _ l' H) by by unfold set_limits; rewrite lookup_insert_ne, lookup_insert_eq. apply (insert_kept _ _ _ _ H). unfold set_limits. by rewrite lookup_insert_eq.
Qed.
Lemma requests_kept a l l' : set_requests a l ⊆ l' -> set_requests a l' = l'.
Proof.
  intros H. unfold set_requests. rewrite (insert_kept "cpu" _ _ l' H) by by unfold set_requests; rewrite lookup_insert_ne, lookup_insert_eq. apply (insert_kept _ _ _ _ H). unfold set_requests. by rewrite lookup_insert_eq.
Qed.
Lemma port_kept port l l' : Forall2 (fun p q => cp_ContainerPort q = cp_ContainerPort p) (setContainerPort port l) l' -> setContainerPort port l' = l'.
Proof.
  intros H. destruct (foa_found (fun p => cp_ContainerPort p =? port) id (mkPort port ANil) l) as (x & Hx & _); [done|apply Z.eqb_refl|].
  destruct (find_related (fun p => cp_ContainerPort p =? port) _ _ _ [] _ H ltac:(intros a b E; cbn; by rewrite E) Hx) as (x' & Hx' & _). rewrite app_nil_r in Hx'. by apply (foa_fixed _ _ _ _ x').
Qed.
Lemma service_port_kept port t l l' : Forall2 (fun p q => sp_Port q = sp_Port p /\ sp_TargetPort q = sp_TargetPort p) (setServicePort port t l) l' -> setServicePort port t l' = l'.
Proof.
  intros H. destruct (foa_found (fun p => sp_Port p =? port) (fun p => mkServicePort (sp_Port p) t (sp_rest p)) (mkServicePort port t ANil) l) as (x & Hx & Ho); [done|apply Z.eqb_refl|].
  destruct (find_related (fun p => sp_Port p =? port) _ _ _ [] _ H ltac:(intros a b [E _]; cbn; by rewrite E) Hx) as (x' & Hx' & _ & Ht). rewrite app_nil_r in Hx'.
  apply (foa_fixed _ _ _ _ x'); [done|]. assert (sp_TargetPort x = t) as Hxt by (destruct Ho as [[y ->]| ->]; done). destruct x' as [a b c]. cbn in *. congruence.
Qed.
Lemma container_kept wa c c' : fills_container (set_container wa c) c' -> set_container wa c' = c'.
Proof.
  intros [Hn Hi Ha Hm He Hp Hl Hr Hs]. destruct c' as [n i a m e ps li rq sec rest]. cbn in *. destruct (Hs _ eq_refl) as (r & ->). unfold set_container. cbn.
  rewrite (port_kept _ _ _ Hp), (limits_kept _ _ _ Hl), (requests_kept _ _ _ Hr). by subst.
Qed.
Lemma containers_kept wa l l' extra : Forall2 fills_container (setContainer wa l) l' -> setContainer wa (l' ++ extra) = (l' ++ extra)%list.
Proof.
  intros H. destruct (foa_found (fun c => bool_decide (co_Name c = containerName)) (set_container wa) (set_container wa (mkContainer containerName "" [] [] [] [] ∅ ∅ None ANil)) l)
    as (x & Hx & Ho); [done|by apply bool_decide_eq_true|].
  destruct (find_related (fun c => bool_decide (co_Name c = containerName)) _ _ _ extra _ H ltac:(intros a b E; apply bool_decide_ext; by rewrite (fc_name _ _ E)) Hx) as (x' & Hx' & Hf). apply (foa_fixed _ _ _ _ x'); [done|].
  assert (exists y, x = set_container wa y) as [y ->] by (destruct Ho as [[y ->]| ->]; by eexists). by eapply container_kept.
Qed.
Lemma volume_kept (vol : PodVolume) l : List.find (fun v => bool_decide (pl_Name v = pl_Name vol)) l = Some vol -> setVolume vol l = l.
Proof. intros H. by apply (foa_fixed _ _ _ _ vol). Qed.
Lemma volume_set (vol : PodVolume) l : List.find (fun v => bool_decide (pl_Name v = pl_Name vol)) (setVolume vol l) = Some vol.
Proof.
  destruct (foa_found (fun v => bool_decide (pl_Name v = pl_Name vol)) (fun _ => vol) vol l) as (x & Hx & Ho); [intros; by apply bool_decide_eq_true..|]. unfold setVolume. rewrite Hx. by destruct Ho as [[y ->]| ->].
Qed.
Lemma volumes_kept pvc l : setTmpVolume (setModelCacheVolume pvc (setTmpVolume (setModelCacheVolume pvc l))) = setTmpVolume (setModelCacheVolume pvc l).
Proof.
  unfold setTmpVolume, setModelCacheVolume. rewrite (volume_kept (cache_volume pvc)); [apply volume_kept, volume_set|]. unfold setVolume at 1. rewrite foa_other; [apply volume_set| |done].
  intros x Hx%bool_decide_eq_true. split; [|done]. apply bool_decide_eq_false. by rewrite Hx.
Qed.
Lemma pod_kept svc params wa s s' : fills_pod (shape_pod svc params wa s) s' -> shape_pod svc params wa s' = s'.
Proof.
  intros [Hn Hp Ha Hs Hv (l & extra & Hc & Hf)]. destruct s' as [n p a sec v c rest]. cbn in *. destruct (Hs _ eq_refl) as (r & ->). subst. unfold shape_pod. cbn.
  by rewrite volumes_kept, (containers_kept _ _ _ extra Hf).
Qed.

(** SetControllerReference leaves an object it has set as it is. *)
Class ControllerLaws (W : Type) {IW : InferenceWorld W} : Prop := {
  controller_kept svc c c' : set_controller svc c = inr c' -> set_controller svc c' = inr c'
}.

Lemma shape_settled {W : Type} {IW : InferenceWorld W} {CL : ControllerLaws W} (svc : FrameService) (params : strmap) (m : model) (ctx : Z) (sizing : Sizing) (apiKey : string) (d d1 d2 : Deployment) :
  shape svc params m ctx sizing apiKey d = inr d1 -> fills d1 d2 -> shape svc params m ctx sizing apiKey d2 = inr d2.
Proof.
  unfold shape. destruct (amounts_of sizing) as [e|a]; [done|]. destruct (set_controller svc (de_Controller d)) as [e|c] eqn:Hc; [done|]. intros [= <-] [Hco Hr Hst Hse Hl Han Hp].
  destruct d2 as [co re st se la an po rest g o rr u]. cbn in *. subst. rewrite (controller_kept _ _ _ Hc), (pod_kept _ _ _ _ _ Hp).
  rewrite (insert_kept _ _ _ _ Han); [done|by rewrite lookup_insert_eq].
Qed.

(** A pass over a Deployment a pass has written changes nothing, whatever the API server
    and the webhooks have filled in beside what it sets: a port's protocol, a request
    mirrored from a limit, a field of a security context, another container. So the
    update it would make, which would bring the next pass, is not made. *)
Theorem no_update_loop {W : Type} {IW : InferenceWorld W} {CL : ControllerLaws W} (svc : FrameService) (params : strmap) (m : model) (ctx : Z) (sizing : Sizing) (apiKey : string) (d d1 d2 : Deployment) :
  shape svc params m ctx sizing apiKey d = inr d1 -> fills d1 d2 -> shape svc params m ctx sizing apiKey d2 = inr d2.
Proof. apply shape_settled. Qed.

Lemma service_settled {W : Type} {IW : InferenceWorld W} {CL : ControllerLaws W} svc s s1 s2 : shape_service svc s = inr s1 -> fills_service s1 s2 -> shape_service svc s2 = inr s2.
Proof.
  unfold shape_service. destruct (set_controller svc (so_Controller s)) as [e|c] eqn:Hc; [done|]. intros [= <-] [Hco Hs Hp]. destruct s2 as [co se po rest]. cbn in *. subst.
  by rewrite (controller_kept _ _ _ Hc), (service_port_kept _ _ _ _ Hp).
Qed.

(** ** The arguments *)

(** What the API documents of a container's args: $(NAME) is replaced by the variable,
    when there is one, and $$ is a dollar. *)
Definition split_paren (l : bytes) : option (bytes * bytes) :=
  (fix go acc l := match l with [] => None | c :: t => if Ascii.eqb c ")" then Some (rev acc, t) else go (c :: acc) t end) [] l.
Fixpoint kubelet_expand (fuel : nat) (env : bytes -> option bytes) (l : bytes) : bytes :=
  match fuel with
  | O => []
  | S n =>
    match l with
    | [] => []
    | c :: t =>
      if negb (Ascii.eqb c "$") then c :: kubelet_expand n env t
      else match t with
      | [] => [c]
      | d :: t' =>
        if Ascii.eqb d "$" then c :: kubelet_expand n env t'
        else if Ascii.eqb d "(" then
          match split_paren t' with
          | Some (name, rest) => (match env name with Some v => v | None => c :: d :: name ++ [")"%char] end ++ kubelet_expand n env rest)%list
          | None => c :: d :: kubelet_expand n env t'
          end
        else c :: d :: kubelet_expand n env t'
      end
    end
  end.

(** A message a model names reaches the server as it was written: nothing of it is taken
    for a variable, and the key, which is one, cannot be named in it. *)
Theorem message_not_expanded (message : string) (env : bytes -> option bytes) (fuel : nat) :
  (length (to_bytes message) < fuel)%nat -> kubelet_expand fuel env (to_bytes (escape_dollar message)) = to_bytes message.
Proof.
  unfold escape_dollar. rewrite to_of_bytes. generalize (to_bytes message). intros l. revert fuel. induction l as [|c l IH]; intros [|fuel] Hf; [cbn in Hf; lia|done|cbn in Hf; lia|].
  cbn [flat_map length] in *. destruct (Ascii.eqb c "$") eqn:E.
  - apply Ascii.eqb_eq in E as ->. cbn. f_equal. apply IH. lia.
  - cbn [app]. cbn [kubelet_expand]. rewrite E. cbn. f_equal. apply IH. lia.
Qed.

(** ** The catalog *)

(** The models SeedCatalog creates, from those that are there and the services. *)
Definition seeded (models : list (string * model)) (services : list FrameService) (e : string * model) : Prop :=
  e ∈ catalog /\ e.1 ∉ map fst models /\ (models = [] \/ names_model services e.1 = true).

Inductive icall : Type :=
| IModel (name : string) (r : result apierr model)
| IModels (r : result apierr (list (string * model)))
| IServices (r : result apierr (list FrameService))
| ICreate (name : string) (m : model) (e : option apierr)
| ICache (k : NamespacedName) (e : option apierr)
| IKey (k : NamespacedName) (r : result apply_error KeySecret)
| IDeploy (k : NamespacedName) (r : result apply_error Deployment)
| IService (k : NamespacedName) (r : result apply_error Service)
| IPods (r : result apierr (list Pod)).

(** The calls, in their order. What CreateOrUpdate answers is what its mutate function
    made of the object that was there, or of a blank one. *)
Class TracedInference (W : Type) {IW : InferenceWorld W} := {
  icalls : W -> list icall;
  i_model w n : icalls (model_get n w).2 = (icalls w ++ [IModel n (model_get n w).1])%list;
  i_models w : icalls (models_list w).2 = (icalls w ++ [IModels (models_list w).1])%list;
  i_services w : icalls (frameservices_list w).2 = (icalls w ++ [IServices (frameservices_list w).1])%list;
  i_create w n m : icalls (model_create n m w).2 = (icalls w ++ [ICreate n m (model_create n m w).1])%list;
  i_order w : icalls (catalog_order w).2 = icalls w /\ (catalog_order w).1 ≡ₚ catalog;
  i_cache w k : icalls (cache_get k w).2 = (icalls w ++ [ICache k (cache_get k w).1])%list;
  i_random w : icalls (key_bytes w).2 = icalls w;
  i_key w k f : (forall s w', icalls (f s w').2 = icalls w') -> icalls (key_apply k f w).2 = (icalls w ++ [IKey k (key_apply k f w).1])%list;
  i_deploy w k f : icalls (deployment_apply k f w).2 = (icalls w ++ [IDeploy k (deployment_apply k f w).1])%list;
  i_service w k f : icalls (service_apply k f w).2 = (icalls w ++ [IService k (service_apply k f w).1])%list;
  i_pods w ns l : icalls (pods_list ns l w).2 = (icalls w ++ [IPods (pods_list ns l w).1])%list;
  key_mutated w k f s : (key_apply k f w).1 = inr s -> exists s0 w' s1, (f s0 w').1 = inr s1 /\ ky_Data s = ky_Data s1 /\ ky_Controller s = ky_Controller s1;
  deploy_mutated w k f d : (deployment_apply k f w).1 = inr d -> exists d0 d1, f d0 = inr d1 /\ fills d1 d;
  service_mutated w k f s : (service_apply k f w).1 = inr s -> exists s0 s1, f s0 = inr s1 /\ fills_service s1 s
}.

Section Pass.
Context {W : Type} {IW : InferenceWorld W} {CL : ControllerLaws W} {TI : TracedInference W}.

(** ** SeedCatalog *)

Lemma seed_emits todo present named empty :
  emits icalls (seed_loop todo present named empty) (fun r t =>
    (forall c, c ∈ t -> exists n m e, c = ICreate n m e /\ (n, m) ∈ todo /\ present n = false /\ (empty = true \/ named n = true)) /\
    (r = None -> forall n m, (n, m) ∈ todo -> present n = false -> (empty = true \/ named n = true) -> exists e, ICreate n m e ∈ t)).
Proof.
  induction todo as [|[n m] todo IH]; cbn; [apply emits_ret; split; [by intros ? ?%elem_of_nil|by intros _ ? ? ?%elem_of_nil]|].
  destruct (present n || (negb empty && negb (named n))) eqn:E.
  - eapply emits_mono; [exact IH|]. intros r t [H1 H2]. split.
    + intros c Hc. destruct (H1 c Hc) as (n' & m' & e & -> & Hin & ?). exists n', m', e. split; [done|]. split; [by right|done].
    + intros Hr n' m' [[= -> ->]|Hin]%elem_of_cons Hp Hor; [|by apply H2]. exfalso. rewrite Hp in E. destruct empty, (named n); cbn in E; naive_solver.
  - apply orb_false_iff in E as [Ep En]. assert (empty = true \/ named n = true) as Hor by (destruct empty, (named n); cbn in En; auto).
    assert (forall e, emits icalls (seed_loop todo present named empty) (fun r t =>
      (forall c, c ∈ ICreate n m e :: t -> exists n' m' e', c = ICreate n' m' e' /\ (n', m') ∈ (n, m) :: todo /\ present n' = false /\ (empty = true \/ named n' = true)) /\
      (r = None -> forall n' m', (n', m') ∈ (n, m) :: todo -> present n' = false -> (empty = true \/ named n' = true) -> exists e', ICreate n' m' e' ∈ ICreate n m e :: t))) as Hgo.
    { intros e. eapply emits_mono; [exact IH|]. intros r t [H1 H2]. split.
      - intros c [->|Hc]%elem_of_cons; [exists n, m, e; split; [done|]; split; [by left|done]|]. destruct (H1 c Hc) as (n' & m' & e' & -> & Hin & ?). exists n', m', e'. split; [done|]. split; [by right|done].
      - intros Hr n' m' [[= -> ->]|Hin]%elem_of_cons Hp Ho; [exists e; by left|]. destruct (H2 Hr n' m' Hin Hp Ho) as (e' & ?). exists e'. by right. }
    eapply emits_call; [intros; apply i_create|]. intros [e|]; [|apply Hgo]. destruct (inf_already e); [apply Hgo|]. apply emits_ret. split; [|done].
    intros c Hc%list_elem_of_singleton. subst. exists n, m, (Some e). split; [done|]. split; [by left|done].
Qed.

Lemma seed_with_emits models services : emits icalls (seed_with models services) (fun r t =>
  (forall c, c ∈ t -> exists n m e, c = ICreate n m e /\ seeded models services (n, m)) /\ (r = None -> forall e, seeded models services e -> exists x, ICreate e.1 e.2 x ∈ t)).
Proof.
  unfold seed_with. eapply (emits_bind icalls _ _ (fun o t => t = [] /\ o ≡ₚ catalog)).
  { intros w. exists []. rewrite app_nil_r. destruct (i_order w) as [H1 H2]. by split. }
  intros order t [-> Hp]. cbn [app]. eapply emits_mono; [apply seed_emits|]. intros r t [H1 H2]. split.
  - intros c Hc. destruct (H1 c Hc) as (n & m & e & -> & Hin & Hpr & Hor). exists n, m, e. split; [done|]. rewrite Hp in Hin. apply bool_decide_eq_false in Hpr. split; [done|]. split; [done|].
    destruct Hor as [Hor|]; [left; by apply bool_decide_eq_true in Hor|by right].
  - intros Hr [n m] (Hin & Hpr & Hor). cbn in *. apply H2; [done|by rewrite Hp|by apply bool_decide_eq_false|]. destruct Hor as [->|]; [left; by apply bool_decide_eq_true|by right].
Qed.
End Pass.

(** The defaults never overwrite a model that is there, and a catalog with anything in it
    is only given one that an instance names; an empty one, whose services are not read,
    is given them all. When no error comes back, every model that is owed was created or
    was there. *)
Theorem seeds_what_is_owed {W : Type} {IW : InferenceWorld W} {TI : TracedInference W} (w : W) :
  exists t, icalls (SeedCatalog w).2 = (icalls w ++ t)%list /\
    (forall n m e, ICreate n m e ∈ t -> exists models services, IModels (inr models) ∈ t /\ (models = [] /\ services = [] \/ IServices (inr services) ∈ t) /\ seeded models services (n, m)) /\
    ((SeedCatalog w).1 = None -> exists models services, IModels (inr models) ∈ t /\ (models = [] /\ services = [] \/ IServices (inr services) ∈ t) /\
      forall e, seeded models services e -> exists x, ICreate e.1 e.2 x ∈ t).
Proof.
  revert w. change (emits icalls SeedCatalog (fun r t =>
    (forall n m e, ICreate n m e ∈ t -> exists models services, IModels (inr models) ∈ t /\ (models = [] /\ services = [] \/ IServices (inr services) ∈ t) /\ seeded models services (n, m)) /\
    (r = None -> exists models services, IModels (inr models) ∈ t /\ (models = [] /\ services = [] \/ IServices (inr services) ∈ t) /\ forall e, seeded models services e -> exists x, ICreate e.1 e.2 x ∈ t))).
  unfold SeedCatalog. eapply emits_call; [intros; apply i_models|]. intros [e|[|x models]].
  - apply emits_ret. split; [intros n m e' H; set_solver|done].
  - eapply emits_mono; [apply seed_with_emits|]. intros r t [H1 H2]. split.
    + intros n m e [|Hc]%elem_of_cons; [done|]. destruct (H1 _ Hc) as (n' & m' & e' & [= <- <- <-] & Hs). exists [], []. split; [by left|]. split; [by left|done].
    + intros Hr. exists [], []. split; [by left|]. split; [by left|]. intros e He. destruct (H2 Hr e He) as (y & ?). exists y. by right.
  - eapply emits_call; [intros; apply i_services|]. intros [e|services]; [apply emits_ret; split; [intros n m e' H; set_solver|done]|].
    eapply emits_mono; [apply seed_with_emits|]. intros r t [H1 H2]. split.
    + intros n m e [|[|Hc]%elem_of_cons]%elem_of_cons; [done..|]. destruct (H1 _ Hc) as (n' & m' & e' & [= <- <- <-] & Hs). exists (x :: models), services. split; [by left|]. split; [right; by right; left|done].
    + intros Hr. exists (x :: models), services. split; [by left|]. split; [right; by right; left|]. intros e He. destruct (H2 Hr e He) as (y & ?). exists y. by right; right.
Qed.

(** ** A pass *)

Section Reconcile.
Context {W : Type} {IW : InferenceWorld W} {CL : ControllerLaws W} {TI : TracedInference W}.
Variables (p : inference) (svc : FrameService).

Definition asked (k : string) : string := default "" (sv_Parameters (sv_Spec svc) !! k).
Definition secret_key : NamespacedName := (sv_Namespace svc, sv_Name svc +:+ "-inference-key").
(** An object under this service's control: its reference stays as it is. *)
Definition ours (controller : option string) : Prop := set_controller svc controller = inr controller.

(** The model that was read: from the API server, or from the catalog of a provider that
    has none to ask. *)
Definition model_read (pre : list icall) (m : model) : Prop :=
  if has_apiReader p then IModel (asked "model") (inr m) ∈ pre else (asked "model", m) ∈ catalog.
(** The context window: the one asked for, a positive int64, else the model's own,
    else 4096 tokens. *)
Definition window (m : model) (ctx : Z) : Prop :=
  (asked "contextLength" <> "" -> parse_int64 (asked "contextLength") = Some ctx /\ 0 < ctx) /\
  (asked "contextLength" = "" -> ctx = if decide (0 < im_ContextLength m) then im_ContextLength m else 4096).
(** The weights and the cache of the window, in MiB rounded up, are on the card; said of
    the models the CRD admits and the cards there are. *)
Definition fits (m : model) (ctx : Z) : Prop :=
  im_WeightsMiB m < gpuMemoryMiB p /\
  (admitted_model m -> gpuMemoryMiB p <= 2 ^ 43 -> im_WeightsMiB m + ceil_div (kv_bytes m * ctx) (1024 * 1024) <= gpuMemoryMiB p).
Definition sized (pre : list icall) (m : model) (ctx : Z) : Prop := model_read pre m /\ window m ctx /\ fits m ctx.

(** The claim that holds the weights. *)
Definition cache_claim : string := if decide (asked "modelCache" = "") then "model-cache-pvc" else asked "modelCache".
Definition cache_there (pre : list icall) : Prop := ICache (sv_Namespace svc, cache_claim) None ∈ pre.

(** The threads and the host memory of a model: those it names, else four threads and
    twice the weights. *)
Definition threads_of (m : model) : Z := if decide (0 < im_Threads m) then im_Threads m else 4.
Definition host_mib (m : model) : Z := if decide (0 < im_HostMemoryMiB m) then im_HostMemoryMiB m else wrap64 (im_WeightsMiB m * 2).

(** The options of the server a model names. *)
Definition when (P : Prop) {D : Decision P} (l : list string) : list string := if decide P then l else [].
Definition model_options (m : model) : list string :=
  (when (0 < im_Parallel m) ["--parallel"; itoa (im_Parallel m)] ++
   when (im_KVCacheType m <> "") ["--cache-type-k"; im_KVCacheType m; "--cache-type-v"; im_KVCacheType m] ++
   when (0 < im_CPUMoELayers m) ["-ngl"; "9999"; "--n-cpu-moe"; itoa (im_CPUMoELayers m)] ++
   when (0 < im_Threads m \/ 0 < im_CPUMoELayers m) ["--threads"; itoa (threads_of m)] ++
   from_option (fun b => ["--reasoning-budget"; itoa b]) [] (im_ReasoningBudget m) ++
   when (im_ReasoningBudgetMessage m <> "") ["--reasoning-budget-message"; escape_dollar (im_ReasoningBudgetMessage m)])%list.

(** The container: the pinned image, the model and the window, the key from its Secret,
    the weights read-only, one GPU, and no privileges. *)
Definition runs_model (m : model) (ctx : Z) (c : Container) : Prop :=
  co_Image c = "ghcr.io/ggml-org/llama.cpp:server-cuda-b11277@sha256:7149a45c80596644320de1d565db1b3b8e70b22c66fed612e69b73f6b1e0d746" /\
  co_Args c = (["--host"; "0.0.0.0"; "--port"; "8080"; "-m"; "/models/" +:+ asked "model" +:+ ".gguf"; "-c"; itoa ctx] ++ model_options m)%list /\
  co_Env c = [mkEnv "LLAMA_API_KEY" (sv_Name svc +:+ "-inference-key") "apiKey"] /\
  co_VolumeMounts c = [mkMount "model-cache" "/models" true; mkMount "tmp" "/tmp" false] /\
  (exists g n b, quantity_of "1" = inr g /\ quantity_of (itoa (threads_of m)) = inr n /\ quantity_of (itoa (host_mib m) +:+ "Mi") = inr b /\
     co_Limits c !! "nvidia.com/gpu" = Some g /\ co_Limits c !! "cpu" = Some n /\ co_Limits c !! "memory" = Some b /\ co_Requests c !! "cpu" = Some n /\ co_Requests c !! "memory" = Some b) /\
  exists x caps, co_Security c = Some x /\ cx_AllowPrivilegeEscalation x = Some false /\ cx_ReadOnlyRootFilesystem x = Some true /\ cx_RunAsNonRoot x = Some true /\ cx_RunAsUser x = Some 65532 /\
    cx_Capabilities x = Some caps /\ ca_Drop caps = ["ALL"].
(** The Deployment: this service's, one replica that is replaced and never doubled, on
    the nodes of its class, with the digest of the key on its pods and no token of the
    cluster in them. *)
Definition deploys (m : model) (ctx : Z) (key : string) (d : Deployment) : Prop :=
  ours (de_Controller d) /\ de_Replicas d = Some 1 /\ de_Strategy d = AMap [("type", AStr "Recreate")] /\
  de_Selector d = Some {["app" := sv_Name svc]} /\ de_Labels d = {["app" := sv_Name svc]} /\
  de_Annotations d !! "frame.plume-labs.io/api-key-sha256" = Some (hex_encode (sum256 (string_bytes key))) /\
  ps_NodeSelector (de_Pod d) = {["frame.plume-labs.io/service-class" := sv_ServiceClass (sv_Spec svc)]} /\ ps_Automount (de_Pod d) = Some false /\
  (exists x, ps_Security (de_Pod d) = Some x /\ px_RunAsNonRoot x = Some true /\ px_RunAsUser x = Some 65532) /\
  List.find (fun v => bool_decide (pl_Name v = "model-cache")) (ps_Volumes (de_Pod d)) =
    Some (mkPodVolume "model-cache" (AMap [("persistentVolumeClaim", AMap [("claimName", AStr cache_claim); ("readOnly", ABool true)])])) /\
  exists c, List.find (fun c => bool_decide (co_Name c = "llama-cpp")) (ps_Containers (de_Pod d)) = Some c /\ runs_model m ctx c.
Definition exposes (s : Service) : Prop :=
  ours (so_Controller s) /\ so_Selector s = {["app" := sv_Name svc]} /\ exists q, List.find (fun q => sp_Port q =? 8080) (so_Ports s) = Some q /\ sp_TargetPort q = AInt 8080.

Definition imay (pre : list icall) (c : icall) : Prop :=
  match c with
  | IKey k r => k = secret_key /\ (exists m ctx, sized pre m ctx) /\ cache_there pre /\ forall s, r = inr s -> ours (ky_Controller s)
  | IDeploy k r =>
    k = service_key svc /\ exists m ctx key, sized pre m ctx /\ cache_there pre /\ IKey secret_key (inr key) ∈ pre /\
      forall d, r = inr d -> deploys m ctx (default "" (ky_Data key !! "apiKey")) d
  | IService k r => k = service_key svc /\ (exists d, IDeploy (service_key svc) (inr d) ∈ pre) /\ forall s, r = inr s -> exposes s
  | ICreate _ _ _ | IServices _ => False
  | _ => True
  end.
(** Ready is the Deployment's word: a replica is ready, it is on the last template, and
    the controller has seen that template. *)
Definition serving (d : Deployment) : Prop := 1 <= de_ReadyReplicas d /\ 1 <= de_UpdatedReplicas d /\ de_Generation d <= de_ObservedGeneration d.
Definition told (r : result string Result) (t : list icall) : Prop :=
  forall res, r = inr res -> rs_Ready res = true -> exists d s, IDeploy (service_key svc) (inr d) ∈ t /\ IService (service_key svc) (inr s) ∈ t /\ serving d.

(** The code's decisions, told. *)
Definition params_of : strmap := sv_Parameters (sv_Spec svc).
Lemma cache_told : resolveModelCache params_of = cache_claim.
Proof. unfold resolveModelCache, cache_claim. cbv zeta. change (param params_of) with asked. by case_bool_decide; case_decide. Qed.
Lemma rolling_told d : rolling d = false -> serving d.
Proof. unfold rolling, serving, desiredReplicas. rewrite !orb_false_iff, !Z.ltb_ge. lia. Qed.
Lemma threads_told m : threads m = threads_of m.
Proof. unfold threads, threads_of, defaultCPUs. destruct (Z.ltb_spec 0 (im_Threads m)); case_decide; lia. Qed.
Lemma host_told m : hostMemoryMiB m = host_mib m.
Proof. unfold hostMemoryMiB, host_mib, mul64. destruct (Z.ltb_spec 0 (im_HostMemoryMiB m)); case_decide; lia. Qed.
Lemma window_told m ctx : resolveContextLength params_of m = inr ctx -> window m ctx.
Proof.
  unfold resolveContextLength, window. change (param params_of) with asked. case_bool_decide as E; [|destruct (parse_int64 _) as [z|]; [|done]; destruct (Z.leb_spec z 0); [done|]; by intros [= <-]].
  intros [= <-]. split; [done|]. intros _. by destruct (Z.ltb_spec 0 (im_ContextLength m)); case_decide; try lia.
Qed.
Lemma sized_told m ctx sizing : sizeOf p params_of m = inr sizing -> resolveContextLength params_of m = inr ctx ->
  fits m ctx /\ sz_CPU sizing = itoa (threads_of m) /\ sz_Memory sizing = itoa (host_mib m) +:+ "Mi".
Proof.
  intros Hs Hc. split; [split|].
  - unfold sizeOf in Hs. rewrite Hc in Hs. by destruct (Z.leb_spec (gpuMemoryMiB p) (im_WeightsMiB m)).
  - intros Hm Hg. assert (im_WeightsMiB m < gpuMemoryMiB p) as Hw by (unfold sizeOf in Hs; rewrite Hc in Hs; by destruct (Z.leb_spec (gpuMemoryMiB p) (im_WeightsMiB m))).
    destruct (sizes_exactly p params_of m ctx Hm (conj Hw Hg) Hc) as (most & _ & _ & _ & H). destruct (H _ Hs) as (total & _ & -> & ?). done.
  - unfold sizeOf in Hs. rewrite Hc in Hs. destruct (_ <=? _); [done|]. destruct (maxTokens p m); [done|]. destruct (quot64 _ _) as [|bound]; [done|]. destruct (bound <? ctx); [done|]. destruct (_ <? _); [done|].
    injection Hs as <-. cbn. by rewrite threads_told, host_told.
Qed.
Lemma options_told m : modelArgs m = model_options m.
Proof.
  unfold modelArgs, model_options, when, nonempty. rewrite threads_told.
  destruct (Z.ltb_spec 0 (im_Parallel m)), (Z.ltb_spec 0 (im_CPUMoELayers m)), (Z.ltb_spec 0 (im_Threads m)); repeat case_bool_decide; repeat case_decide; try lia; try done; by destruct (im_ReasoningBudget m).
Qed.
Lemma container_told m ctx sizing a c : resolveContextLength params_of m = inr ctx -> sizeOf p params_of m = inr sizing -> amounts_of sizing = inr a ->
  runs_model m ctx (set_container (mkWanted (server_args params_of m ctx) mounts (key_env svc) a) c).
Proof.
  intros Hc Hs Ha. destruct (sized_told m ctx sizing Hs Hc) as (_ & Hcpu & Hmem). split; [done|]. split; [cbn; unfold server_args; by rewrite options_told|]. split; [done|]. split; [done|]. split; [|by do 2 eexists].
  unfold amounts_of in Ha. rewrite Hcpu, Hmem in Ha. destruct (quantity_of "1") as [|g], (quantity_of (itoa (threads_of m))) as [|n], (quantity_of (itoa (host_mib m) +:+ "Mi")) as [|b]; try done. injection Ha as <-.
  exists g, n, b. do 3 (split; [done|]). cbn. unfold set_limits, set_requests. cbn. repeat split; repeat rewrite lookup_insert_ne by done; apply lookup_insert_eq.
Qed.
Lemma shape_told m ctx sizing key d : resolveContextLength params_of m = inr ctx -> sizeOf p params_of m = inr sizing -> shape svc params_of m ctx sizing key d = inr d -> deploys m ctx key d.
Proof.
  intros Hc Hs. unfold shape. destruct (amounts_of sizing) as [e|a] eqn:Ha; [done|]. destruct (set_controller svc (de_Controller d)) as [e|c] eqn:Ho; [done|].
  intros [= Hd]. set (wa := mkWanted _ _ _ _) in Hd. pose proof (f_equal (fun d => ps_Containers (de_Pod d)) Hd) as Hcont. pose proof (f_equal (fun d => ps_Volumes (de_Pod d)) Hd) as Hvol.
  destruct (foa_found (fun c => bool_decide (co_Name c = containerName)) (set_container wa) (set_container wa (mkContainer containerName "" [] [] [] [] ∅ ∅ None ANil)) (ps_Containers (de_Pod d)))
    as (x & Hx & Hy); [done|by apply bool_decide_eq_true|].
  split; [unfold ours; rewrite Ho; f_equal; exact (f_equal de_Controller Hd)|]. split; [symmetry; exact (f_equal de_Replicas Hd)|]. split; [symmetry; exact (f_equal de_Strategy Hd)|].
  split; [symmetry; exact (f_equal de_Selector Hd)|]. split; [symmetry; exact (f_equal de_Labels Hd)|].
  split; [rewrite <- (f_equal de_Annotations Hd); apply lookup_insert_eq|]. split; [symmetry; exact (f_equal (fun d => ps_NodeSelector (de_Pod d)) Hd)|].
  split; [symmetry; exact (f_equal (fun d => ps_Automount (de_Pod d)) Hd)|]. split; [eexists; split; [symmetry; exact (f_equal (fun d => ps_Security (de_Pod d)) Hd)|done]|]. split.
  - rewrite <- Hvol. cbn [de_Pod ps_Volumes shape_pod]. unfold setTmpVolume, setVolume at 1. rewrite foa_other; [| |done].
    + rewrite <- cache_told. apply (volume_set (cache_volume (resolveModelCache params_of))).
    + intros v Hv%bool_decide_eq_true. split; [|done]. apply bool_decide_eq_false. by rewrite Hv.
  - exists x. split; [by rewrite <- Hcont|]. assert (exists y, x = set_container wa y) as [y ->] by (destruct Hy as [[y ->]| ->]; by eexists). by eapply container_told.
Qed.
Lemma service_told s : shape_service svc s = inr s -> exposes s.
Proof.
  unfold shape_service. destruct (set_controller svc (so_Controller s)) as [e|c] eqn:Ho; [done|]. intros [= Hs].
  split; [unfold ours; rewrite Ho; f_equal; exact (f_equal so_Controller Hs)|]. split; [symmetry; exact (f_equal so_Selector Hs)|]. pose proof (f_equal so_Ports Hs) as Hp. cbn in Hp.
  destruct (foa_found (fun q => sp_Port q =? containerPort) (fun q => mkServicePort (sp_Port q) (AInt containerPort) (sp_rest q)) (mkServicePort containerPort (AInt containerPort) ANil) (so_Ports s))
    as (x & Hx & Hy); [done|done|]. exists x. split; [by rewrite <- Hp|]. by destruct Hy as [[y ->]| ->].
Qed.

Definition passes (pre : list icall) (m : St W (result string Result)) : Prop := emits icalls m (fun r t => justified imay pre t /\ told r (pre ++ t)%list).

Lemma passes_error pre e : passes pre (mret (inl e)).
Proof. apply emits_ret. split; [done|]. by intros res [=]. Qed.
Lemma passes_not_ready pre res : rs_Ready res = false -> passes pre (mret (inr res)).
Proof. intros H. apply emits_ret. split; [done|]. intros r [= <-]. congruence. Qed.
Lemma passes_after {A} pre (m : St W A) (ev : A -> icall) (know : A -> Prop) (k : A -> St W (result string Result)) :
  emits icalls m (fun a t => t = [ev a] /\ know a) -> (forall a, know a -> imay pre (ev a)) -> (forall a, know a -> passes (pre ++ [ev a]) (k a)) -> passes pre (m ≫= k).
Proof.
  intros Hm Hmay Hk. eapply emits_bind; [exact Hm|]. intros a t [-> Ha]. eapply emits_mono; [by apply Hk|]. intros r t' [Hj Ht]. split; [by split; [apply Hmay|]|]. by rewrite <- app_assoc in Ht.
Qed.
Lemma passes_call {A} pre (m : St W A) (ev : A -> icall) (k : A -> St W (result string Result)) :
  (forall w, icalls (m w).2 = (icalls w ++ [ev (m w).1])%list) -> (forall a, imay pre (ev a)) -> (forall a, passes (pre ++ [ev a]) (k a)) -> passes pre (m ≫= k).
Proof. intros Hm Hmay Hk. apply (passes_after pre m ev (fun _ => True)); auto. intros w. exists [ev (m w).1]. by split. Qed.

Lemma sized_mono pre pre' m ctx : pre ⊆ pre' -> sized pre m ctx -> sized pre' m ctx.
Proof. intros Hs (H & ?). split; [|done]. unfold model_read in *. destruct (has_apiReader p); [by apply Hs|done]. Qed.

Lemma mutate_quiet s w : icalls (mutate_key svc s w).2 = icalls w.
Proof.
  unfold mutate_key. destruct (nonempty _); [done|]. unfold generateAPIKey, mbind, St_bind, mret, St_ret. pose proof (i_random w) as H. destruct (key_bytes w) as [[e|b] w']; exact H.
Qed.
Lemma mutate_owner s w s' : (mutate_key svc s w).1 = inr s' -> set_controller svc (ky_Controller s') = inr (ky_Controller s').
Proof.
  assert (forall x y, with_controller svc x = inr y -> set_controller svc (ky_Controller y) = inr (ky_Controller y)) as Hw.
  { intros x y. unfold with_controller. destruct (set_controller svc (ky_Controller x)) eqn:E; [done|]. intros [= <-]. by apply (controller_kept _ _ _ E). }
  unfold mutate_key. destruct (nonempty _); [apply Hw|]. unfold generateAPIKey, mbind, St_bind, mret, St_ret. destruct (key_bytes w) as [[e|b] w']; [done|apply Hw].
Qed.

Lemma passes_progress pre d s : IDeploy (service_key svc) (inr d) ∈ pre -> IService (service_key svc) (inr s) ∈ pre -> passes pre (progress svc d).
Proof.
  intros Hd Hs. unfold progress. destruct (rolling d) eqn:E.
  - eapply passes_call; [intros; apply i_pods|done|]. intros [e|pods]; [apply passes_error|]. apply passes_not_ready. by destruct (stuck pods) as [[]|].
  - apply emits_ret. split; [done|]. intros res [= <-] _. exists d, s. split; [set_solver|]. split; [set_solver|by apply rolling_told].
Qed.

Lemma passes_converge pre m ctx sizing key : sized pre m ctx -> resolveContextLength params_of m = inr ctx -> sizeOf p params_of m = inr sizing -> cache_there pre ->
  IKey (api_key_at svc) (inr key) ∈ pre -> passes pre (converge_inference svc m ctx sizing (param (ky_Data key) apiKeyDataKey)).
Proof.
  intros Hs Hctx Hsz Hc Hk. unfold converge_inference.
  apply (passes_after _ _ (IDeploy (service_key svc)) (fun r => forall d, r = inr d -> deploys m ctx (param (ky_Data key) apiKeyDataKey) d)).
  - intros w. eexists. split; [apply i_deploy|]. split; [done|]. intros d Hd. destruct (deploy_mutated _ _ _ _ Hd) as (d0 & d1 & H1 & H2). eapply shape_told; [done..|by eapply shape_settled].
  - intros r Hr. split; [done|]. by exists m, ctx, key.
  - intros [e|d] _; [apply passes_error|]. apply (passes_after _ _ (IService (service_key svc)) (fun r => forall s, r = inr s -> exposes s)).
    + intros w. eexists. split; [apply i_service|]. split; [done|]. intros s Hd. destruct (service_mutated _ _ _ _ Hd) as (s0 & s1 & H1 & H2). eapply service_told, service_settled; done.
    + intros r Hr. split; [done|]. split; [exists d; set_solver|done].
    + intros [e|s] _; [apply passes_error|]. apply (passes_progress _ _ s); set_solver.
Qed.

Lemma ensure_emits : emits icalls (ensureAPIKey svc) (fun k t => exists r, t = [IKey (api_key_at svc) r] /\
  (forall s, r = inr s -> set_controller svc (ky_Controller s) = inr (ky_Controller s)) /\ forall token, k = inr token -> exists s, r = inr s /\ token = param (ky_Data s) apiKeyDataKey).
Proof.
  unfold ensureAPIKey. eapply (emits_bind icalls _ _ (fun r t => t = [IKey (api_key_at svc) r] /\ forall s, r = inr s -> set_controller svc (ky_Controller s) = inr (ky_Controller s))).
  - intros w. eexists. split; [apply i_key, mutate_quiet|]. split; [done|]. intros s Hk. destruct (key_mutated _ _ _ _ Hk) as (s0 & w' & s1 & H1 & _ & ->). by eapply mutate_owner.
  - intros r t [-> Ho]. apply emits_ret. exists r. split; [done|]. split; [done|]. intros token. destruct r as [[[] e|e]|s]; try done. intros [= <-]. by exists s.
Qed.

Lemma passes_sized pre m ctx sizing : sized pre m ctx -> resolveContextLength params_of m = inr ctx -> sizeOf p params_of m = inr sizing -> passes pre (reconcile_sized svc m ctx sizing).
Proof.
  intros Hs Hctx Hsz. unfold reconcile_sized. fold params_of. rewrite cache_told. eapply passes_call; [intros; apply i_cache|done|]. intros [e|]; [apply passes_not_ready; by destruct (err_notfound e)|].
  set (pre1 := (pre ++ [ICache _ None])%list). assert (sized pre1 m ctx) as Hs1 by (eapply sized_mono; [|exact Hs]; subst pre1; set_solver).
  assert (cache_there pre1) as Hc by (unfold cache_there; subst pre1; set_solver).
  eapply emits_bind; [apply ensure_emits|]. intros k t (r & -> & Ho & Ht). assert (imay pre1 (IKey (api_key_at svc) r)) as Hmay by (split; [done|]; split; [by exists m, ctx|done]).
  assert (passes (pre1 ++ [IKey (api_key_at svc) r]) (match k with
    | inl e => if ke_forbidden e then mret (inr (mkResult false ReasonSecretAccessForbidden (forbidden_text (mkForbidden (sv_Namespace svc) "write")) None)) else mret (inl (ke_text e))
    | inr apiKey => converge_inference svc m ctx sizing apiKey end)) as Hgo.
  { destruct k as [e|token]; [destruct (ke_forbidden e); [by apply passes_not_ready|apply passes_error]|]. destruct (Ht _ eq_refl) as (s & -> & ->).
    apply passes_converge; [eapply sized_mono; [|exact Hs1]; set_solver|done|done|unfold cache_there in *; set_solver|set_solver]. }
  eapply emits_mono; [exact Hgo|]. intros res t' [Hj Htold]. split; [by split|]. by rewrite <- app_assoc in Htold.
Qed.

Lemma lookup_emits name : emits icalls (lookup p name) (fun r t =>
  (forall pre, justified imay pre t) /\ forall m, r = inr m -> if has_apiReader p then IModel name (inr m) ∈ t else (name, m) ∈ catalog).
Proof.
  unfold lookup. destruct (has_apiReader p); cbn [negb].
  - eapply emits_call; [intros; apply i_model|]. intros [e|m]; [|apply emits_ret; split; [done|]; intros m' [= <-]; by left].
    destruct (err_notfound e); cbn [negb]; [|by apply emits_ret]. eapply emits_call; [intros; apply i_models|]. intros [e'|all]; by apply emits_ret.
  - destruct (List.find _ catalog) as [[n m]|] eqn:E.
    + apply emits_ret. split; [done|]. intros m' [= <-]. apply find_some in E as [Hin Hn%bool_decide_eq_true]. cbn in Hn. subst. by apply list_elem_of_In.
    + eapply emits_skip; [intros; apply i_order|]. intros order. by apply emits_ret.
Qed.

Lemma passes_Reconcile : passes [] (Reconcile_inference p svc).
Proof.
  unfold Reconcile_inference. fold params_of. eapply emits_bind; [apply lookup_emits|]. intros r t [Hj Hm].
  assert (passes t (match r with inl e => mret (inl (se_text e)) | inr m => match sizeOf p params_of m, resolveContextLength params_of m with
    | inl e, _ | inr _, inl e => mret (inl e) | inr sizing, inr ctx => reconcile_sized svc m ctx sizing end end)) as Hgo.
  { destruct r as [e|m]; [apply passes_error|]. destruct (sizeOf p params_of m) as [e|sizing] eqn:Es; [apply passes_error|]. destruct (resolveContextLength params_of m) as [e|ctx] eqn:Ec; [apply passes_error|].
    apply passes_sized; [|done..]. split; [by apply Hm|]. split; [by apply window_told|by eapply sized_told]. }
  eapply emits_mono; [exact Hgo|]. intros res t' [Hj' Ht]. split; [by apply justified_app|done].
Qed.
End Reconcile.

(** C27. A pass writes nothing for a model that was not read or does not fit the card
    with its context window, nor before the claim of weights was found. The key's Secret
    comes before the Deployment that reads it, the Service after. When a call answers,
    the Secret, the Deployment and the Service are under this service's control; the
    Deployment is one replica, recreated and not doubled, of the pinned image with the
    model, the window and the options the model names, one GPU, the key from its Secret
    and its digest on the pods, the weights read-only and no privileges; the Service leads to
    its port. The catalog is never written. And a pass that says Ready has both, and a
    Deployment with a ready replica on the last template. *)
Theorem inference_justified {W : Type} {IW : InferenceWorld W} {CL : ControllerLaws W} {TI : TracedInference W} (p : inference) (svc : FrameService) (w : W) :
  exists t, icalls (Reconcile_inference p svc w).2 = (icalls w ++ t)%list /\ justified (imay p svc) [] t /\ told svc (Reconcile_inference p svc w).1 t.
Proof. exact (passes_Reconcile p svc w). Qed.

(** A key that is there is never replaced, and Bind hands out the one that is stored. *)
Lemma key_kept {W : Type} {IW : InferenceWorld W} (svc : FrameService) (s s' : KeySecret) (w : W) :
  param (ky_Data s) apiKeyDataKey <> "" -> (mutate_key svc s w).1 = inr s' -> ky_Data s' = ky_Data s.
Proof.
  intros Hk. unfold mutate_key, nonempty. rewrite bool_decide_true by done. cbn. unfold with_controller. destruct (set_controller svc (ky_Controller s)); [done|]. by intros [= <-].
Qed.

(** * Runs on an in-memory API server *)

#[local] Instance port_eq : EqDecision ContainerPort.
Proof. solve_decision. Defined.
#[local] Instance mount_eq : EqDecision Mount.
Proof. solve_decision. Defined.
#[local] Instance env_eq : EqDecision EnvVar.
Proof. solve_decision. Defined.
#[local] Instance caps_eq : EqDecision Capabilities.
Proof. solve_decision. Defined.
#[local] Instance security_eq : EqDecision ContainerSecurity.
Proof. solve_decision. Defined.
#[local] Instance container_eq : EqDecision Container.
Proof. solve_decision. Defined.
#[local] Instance pod_security_eq : EqDecision PodSecurity.
Proof. solve_decision. Defined.
#[local] Instance volume_eq : EqDecision PodVolume.
Proof. solve_decision. Defined.
#[local] Instance pod_spec_eq : EqDecision PodSpec.
Proof. solve_decision. Defined.
#[local] Instance deployment_eq : EqDecision Deployment.
Proof. solve_decision. Defined.

Module Demo.
Record world := mkWorld { log : list icall; models : list (string * model); cached : bool; key : option KeySecret; deployed : option Deployment; updates : nat; exposed : option Service; pods : list Pod }.
Definition note (x : icall) (w : world) : world := mkWorld (log w ++ [x]) (models w) (cached w) (key w) (deployed w) (updates w) (exposed w) (pods w).
Definition put_key (k : option KeySecret) (w : world) : world := mkWorld (log w) (models w) (cached w) k (deployed w) (updates w) (exposed w) (pods w).
Definition put_deployment (d : Deployment) (w : world) : world := mkWorld (log w) (models w) (cached w) (key w) (Some d) (S (updates w)) (exposed w) (pods w).
Definition set_pods (l : list Pod) (w : world) : world := mkWorld (log w) (models w) (cached w) (key w) (deployed w) (updates w) (exposed w) l.
Definition put_model (n : string) (m : model) (w : world) : world := mkWorld (log w) (models w ++ [(n, m)]) (cached w) (key w) (deployed w) (updates w) (exposed w) (pods w).
Definition missing : apierr := ApiErr "not found" true false.

(** The defaults of an API server: the protocol of a port, the pull policy of a
    container, the request of an extended resource. *)
Definition defaulted_container (c : Container) : Container :=
  mkContainer (co_Name c) (co_Image c) (co_Args c) (co_VolumeMounts c) (co_Env c) (map (fun q => mkPort (cp_ContainerPort q) (AMap [("protocol", AStr "TCP")])) (co_Ports c)) (co_Limits c)
    (match co_Requests c !! "nvidia.com/gpu" with Some _ => co_Requests c | None => <["nvidia.com/gpu" := 1000]> (co_Requests c) end) (co_Security c) (AMap [("imagePullPolicy", AStr "IfNotPresent")]).
Definition defaulted (d : Deployment) : Deployment :=
  let s := de_Pod d in
  mkDeployment (de_Controller d) (de_Replicas d) (de_Strategy d) (de_Selector d) (de_Labels d) (de_Annotations d)
    (mkPodSpec (ps_NodeSelector s) (ps_PriorityClassName s) (ps_Automount s) (ps_Security s) (ps_Volumes s) (map defaulted_container (ps_Containers s)) (AMap [("dnsPolicy", AStr "ClusterFirst")]))
    (de_rest d) (de_Generation d + 1) (de_ObservedGeneration d) (de_ReadyReplicas d) (de_UpdatedReplicas d).
Definition blank : Deployment := mkDeployment None None ANil None ∅ ∅ (mkPodSpec ∅ "" None None [] [] ANil) ANil 0 0 0 0.
Definition blank_key : KeySecret := mkKey None ∅ ANil.
Definition blank_service : Service := mkServiceObj None ∅ [] ANil.

Lemma defaulted_container_fills c : fills_container c (defaulted_container c).
Proof.
  split; try done; cbn.
  - induction (co_Ports c); by constructor.
  - destruct (co_Requests c !! "nvidia.com/gpu") eqn:E; [done|]. by apply insert_subseteq.
  - intros [a b d e f rest] ->. by eexists.
Qed.
Lemma defaulted_fills d : fills d (defaulted d).
Proof.
  split; try done. split; try done; cbn.
  - intros [a b s rest] ->. by eexists.
  - exists (map defaulted_container (ps_Containers (de_Pod d))), []. rewrite app_nil_r. split; [done|]. induction (ps_Containers (de_Pod d)); constructor; [apply defaulted_container_fills|done].
Qed.
Lemma fills_refl d : fills d d.
Proof.
  split; try done. split; try done.
  - intros [a b s rest] ->. by eexists.
  - exists (ps_Containers (de_Pod d)), []. rewrite app_nil_r. split; [done|]. induction (ps_Containers (de_Pod d)) as [|c l IH]; constructor; [|done]. split; try done; [induction (co_Ports c); by constructor|].
    intros [x1 x2 x3 x4 x5 rest] ->. by eexists.
Qed.
Lemma fills_service_refl s : fills_service s s.
Proof. split; try done. by induction (so_Ports s); constructor. Qed.

Definition mebi (s : string) : result string Z :=
  let l := to_bytes s in
  let n := (length l - 2)%nat in
  match parse_nat l with
  | Some z => inr (1000 * z)
  | None => match parse_nat (take n l) with Some z => inr (1000 * 2 ^ 20 * z) | None => inl "quantities must match the regular expression" end
  end.
Definition owned_by (svc : FrameService) (c : option string) : result string (option string) :=
  match c with Some u => if bool_decide (u = "uid-1") then inr c else inl "already owned by another controller" | None => inr (Some "uid-1") end.

#[local] Instance mem_inference : InferenceWorld world := {|
  model_get := fun n w => let r := match List.find (fun e => bool_decide (e.1 = n)) (models w) with Some e => inr e.2 | None => inl missing end in (r, note (IModel n r) w);
  models_list := fun w => (inr (models w), note (IModels (inr (models w))) w);
  frameservices_list := fun w => (inr [], note (IServices (inr [])) w);
  model_create := fun n m w => (None, note (ICreate n m None) (put_model n m w));
  catalog_order := fun w => (catalog, w);
  cache_get := fun k w => let r := if cached w then None else Some missing in (r, note (ICache k r) w);
  key_apply := fun k f w => let '(r, w') := f (default blank_key (key w)) w in (r, note (IKey k r) match r with inr s => put_key (Some s) w' | inl _ => w' end);
  key_get := fun _ w => (match key w with Some s => inr s | None => inl missing end, w);
  deployment_apply := fun k f w =>
    let d0 := default blank (deployed w) in
    let '(r, w') := match f d0 with
      | inl e => (inl e, w)
      | inr d1 => if bool_decide (d1 = d0) then (inr d1, w) else (inr (defaulted d1), put_deployment (defaulted d1) w)
      end in (r, note (IDeploy k r) w');
  service_apply := fun k f w => let r := f (default blank_service (exposed w)) in
    (r, note (IService k r) (mkWorld (log w) (models w) (cached w) (key w) (deployed w) (updates w) (match r with inr s => Some s | inl _ => exposed w end) (pods w)));
  pods_list := fun _ _ w => (inr (pods w), note (IPods (inr (pods w))) w);
  key_bytes := fun w => (inr [1; 2; 3], w);
  inf_already := fun _ => false;
  inf_forbidden := fun _ => false;
  set_controller := owned_by;
  quantity_of := mebi
|}.
#[local] Instance mem_laws : ControllerLaws world.
Proof. split. intros svc [u|] c'; cbn; [case_bool_decide as E; [|done]; intros [= <-]; cbn; by rewrite bool_decide_true|]. intros [= <-]. done. Qed.
#[local] Instance mem_traced_inference : TracedInference world.
Proof.
  refine {| icalls := log |}; try done.
  - intros w k f Hf. cbn. specialize (Hf (default blank_key (key w)) w). destruct (f (default blank_key (key w)) w) as [[e|s] w']; cbn in *; by rewrite Hf.
  - intros w k f. cbn. destruct (f (default blank (deployed w))); [done|]. by case_bool_decide.
  - intros w k f s. cbn. destruct (f (default blank_key (key w)) w) as [r w'] eqn:E. cbn. intros ->. exists (default blank_key (key w)), w, s. by rewrite E.
  - intros w k f d. cbn. destruct (f (default blank (deployed w))) as [e|d1] eqn:E; [done|]. case_bool_decide; cbn; intros [= <-]; exists (default blank (deployed w)), d1; (split; [done|]); [apply fills_refl|apply defaulted_fills].
  - intros w k f s. cbn. intros H. exists (default blank_service (exposed w)), s. split; [done|apply fills_service_refl].
Defined.

Definition chat (params : strmap) : FrameService :=
  mkService "apps" "chat" 1 false [] (mkServiceSpec "inference" params "HIGH" (mkBindingSpec "" []) "Retain")
    (mkServiceStatus 0 [] (mkBindingStatus None "" []) (mkSizing "" "" "" "") []).
Definition llama : strmap := {["model" := "llama-3.1-8b-instruct"]}.
Definition p4 : inference := mkInference 7680 true.
Definition start : world := mkWorld [] catalog true None None 0 None [].
Definition reason_of (r : result string Result) : string := match r with inl e => e | inr x => rs_Reason x end.
Definition pass (svc : FrameService) (w : world) : string * world := let '(r, w) := Reconcile_inference p4 svc w in (reason_of r, w).
(** The Deployment controller has caught up. *)
Definition came_up (w : world) : world :=
  match deployed w with
  | Some d => mkWorld (log w) (models w) (cached w) (key w)
      (Some (mkDeployment (de_Controller d) (de_Replicas d) (de_Strategy d) (de_Selector d) (de_Labels d) (de_Annotations d) (de_Pod d) (de_rest d) (de_Generation d) (de_Generation d) 1 1)) (updates w) (exposed w) (pods w)
  | None => w
  end.

(** One write brings an instance up, and the passes after it write nothing, the API
    server's defaults notwithstanding. *)
Example one_write :
  let '(r1, w1) := pass (chat llama) start in
  let '(r2, w2) := pass (chat llama) (came_up w1) in
  let '(r3, w3) := pass (chat llama) w2 in
  (r1, r2, r3, updates w1, updates w3) = ("RolloutInProgress", "Provisioned", "Provisioned", 1%nat, 1%nat).
Proof. by vm_compute. Qed.

(** A key's Secret that was deleted is made anew, and the pod, whose environment would
    keep the old one, is rolled; an operator's own value is kept. *)
Example key_followed :
  let '(_, w1) := pass (chat llama) start in
  let edited := put_key (Some (mkKey (Some "uid-1") {["apiKey" := "mine"]} ANil)) (came_up w1) in
  let '(r2, w2) := pass (chat llama) edited in
  (r2, updates w2, option_map (fun s => param (ky_Data s) apiKeyDataKey) (key w2), option_map (fun d => param (de_Annotations d) apiKeyDigestAnnotation) (deployed w2)) =
  ("RolloutInProgress", 2%nat, Some "mine", Some (apiKeyDigest "mine")).
Proof. by vm_compute. Qed.

(** What the pod says is what the status says. *)
Example crash_is_named :
  let '(_, w1) := pass (chat llama) start in
  let dead := mkPod "chat-0" [] [mkContainerStatus "llama-cpp" (Some ("CrashLoopBackOff", "back-off 5m0s")) (Some (mkTerminated 1 "Error" " cannot open /models "))] in
  match Reconcile_inference p4 (chat llama) (set_pods [dead] w1) with
  | (inr res, _) => (rs_Ready res, rs_Reason res, rs_Message res) =
      (false, "CrashLoopBackOff", "Pod chat-0 container llama-cpp cannot start: back-off 5m0s; previous run exited with code 1 (Error): cannot open /models")
  | _ => False
  end.
Proof. by vm_compute. Qed.

(** Windows at the limits: the largest that fits the card, the next, the largest whose
    size can be computed, and one past it. *)
Example windows :
  let m := plain_model 4696 32 8 128 in
  let size n := match sizeOf p4 (<["contextLength" := n]> llama) m with inr s => sz_GPUMemory s | inl e => e end in
  (maxTokens p4 m, size "23872", size "23873", size "70368744177656", size "70368744177657") =
  (inr 23872, "7680Mi", too_big p4 "llama-3.1-8b-instruct" m 23873 7681 2985, too_big p4 "llama-3.1-8b-instruct" m 70368744177656 8796093026903 8796093022207,
   too_long p4 "llama-3.1-8b-instruct" m 70368744177657 23872).
Proof. by vm_compute. Qed.

(** ** Witnesses *)

Lemma context_fits_iff_witness : exists most, maxTokens p4 (plain_model 4696 32 8 128) = inr most /\ most = (7680 - 4696) * bytesPerMiB / kv_bytes (plain_model 4696 32 8 128) /\
  ((exists s, sizeOf p4 llama (plain_model 4696 32 8 128) = inr s) <-> 4096 <= most) /\
  forall s, sizeOf p4 llama (plain_model 4696 32 8 128) = inr s -> exists total, sz_GPUMemory s = itoa total +:+ "Mi" /\ total = 4696 + ceil_div (kv_bytes (plain_model 4696 32 8 128) * 4096) bytesPerMiB /\ total <= 7680.
Proof.
  apply (context_fits_iff p4 llama (plain_model 4696 32 8 128) 4096); [|cbn; lia|reflexivity]. unfold admitted_model. cbn. repeat (split; try lia). by left.
Defined.

Definition shaped (d : Deployment) : result apply_error Deployment := shape (chat llama) llama (plain_model 4696 32 8 128) 4096 (mkSizing "1" "5208Mi" "4" "9392Mi") "k" d.
Definition first_shape : Deployment := match shaped blank with inr d => d | inl _ => blank end.
Lemma no_update_loop_witness : shaped (defaulted first_shape) = inr (defaulted first_shape).
Proof. apply (no_update_loop (chat llama) llama (plain_model 4696 32 8 128) 4096 (mkSizing "1" "5208Mi" "4" "9392Mi") "k" blank first_shape); [reflexivity|apply defaulted_fills]. Defined.

Lemma message_not_expanded_witness : kubelet_expand 20 (fun _ => Some (to_bytes "secret")) (to_bytes (escape_dollar "cost $(LLAMA_KEY)")) = to_bytes "cost $(LLAMA_KEY)".
Proof. apply message_not_expanded. vm_compute. lia. Defined.

Lemma inference_justified_witness : exists t, icalls (Reconcile_inference p4 (chat llama) start).2 = (icalls start ++ t)%list /\ justified (imay p4 (chat llama)) [] t /\
  told (chat llama) (Reconcile_inference p4 (chat llama) start).1 t.
Proof. exact (inference_justified p4 (chat llama) start). Defined.
End Demo.
