(* ===== verification/Autoinstall.v ===== *)
(** internal/provision/autoinstall.go, the rendering half: the NoCloud document subiquity
    installs from, with its storage configuration and its shell commands.

    The document is an [any] value, a struct the list of its fields in order, a map that of
    its literal (Marshal sorts the keys of a map); a scalar that
    is marshalled in double quotes is an [AOther]. yaml.v3's Marshal is the
    class [YamlWriter]; a panic on its error is an error here.

    A disk that is not of the layout is never named; what storage is given refers only to
    itself; and the resolution of the disks' names on the machine, as steps, refuses
    before it writes. *)
From stdpp Require Import base tactics strings pretty list gmap.
From Stdlib Require Import ZArith Lia Ascii.
From S2P Require Import Prelude GoLib GoText GoTime GoNet Sha256 Kube StorageAlerts SchedulingPolicy Services Unstructured Provision Install InstallRuns BeaconStore.

Open Scope Z_scope.

Class YamlWriter := { yaml_text : any -> result string string }.

(** ** Text *)

(** A backtick of a literal stands for a double quote. *)
Definition lit (s : string) : string := of_bytes (map (fun c => if Ascii.eqb c "`" then byte 34 else c) (to_bytes s)).
Definition line_end : string := of_bytes [byte 10].
(** base64.StdEncoding: padded. *)
Definition std_base64 (s : string) : string :=
  let e := EncodeToString RawStdEncoding (string_bytes s) in
  e +:+ match (length (to_bytes e) mod 4)%nat with 2%nat => "==" | 3%nat => "=" | _ => "" end.

(** ** Constants *)

Definition lockedPasswordHash : string := "$6$RqkZHWLekUnwUvem$NpQkV0V.Whw0jxqSQxY/D2/HstLVk8T.QSY0UxlJbolWFfqb84.szv0vflKVeFgAhrkHxwtNtlSFZXXxYR2jf1".
Definition diskPlaceholders : list string := ["/dev/frame-disk-a"; "/dev/frame-disk-b"].
Definition targetRoot : string := "/target".
Definition macPlaceholder : string := "FRAME_PIN_MAC".
Definition devPlaceholder : string := "FRAME_PIN_DEV".

(** ** Storage *)

Definition placeholder (i : nat) : string := default "" (diskPlaceholders !! i).
Definition disk_id (i : nat) : string := "disk" +:+ itoa (Z.of_nat i).
(** The entries of one disk: itself, its boot partition, its root, and the file system of
    an ESP. *)
Definition disk_entries (uefi : bool) (i : nat) : list any :=
  let id := disk_id i in
  let disk := [("type", AStr "disk"); ("id", AStr id); ("path", AStr (placeholder i)); ("ptable", AStr "gpt"); ("wipe", AStr "superblock-recursive"); ("preserve", ABool false)] in
  let root := AMap [("type", AStr "partition"); ("id", AStr (id +:+ "-root")); ("device", AStr id); ("number", AInt 2); ("size", AInt (-1)); ("wipe", AStr "superblock"); ("preserve", ABool false)] in
  if uefi then
    [AMap disk;
     AMap [("type", AStr "partition"); ("id", AStr (id +:+ "-esp")); ("device", AStr id); ("number", AInt 1); ("size", AStr "1G"); ("flag", AStr "boot"); ("grub_device", ABool true); ("wipe", AStr "superblock"); ("preserve", ABool false)];
     root;
     AMap [("type", AStr "format"); ("id", AStr (id +:+ "-esp-fs")); ("volume", AStr (id +:+ "-esp")); ("fstype", AStr "fat32")]]
  else
    [AMap (disk ++ [("grub_device", ABool true)]);
     AMap [("type", AStr "partition"); ("id", AStr (id +:+ "-biosgrub")); ("device", AStr id); ("number", AInt 1); ("size", AStr "1M"); ("flag", AStr "bios_grub"); ("preserve", ABool false)];
     root].
Definition storageConfig (l : Layout) (bootMode : string) : list any :=
  let uefi := bool_decide (bootMode = bootUEFI) in
  let n := length (lay_Disks l) in
  let roots := map (fun i => disk_id i +:+ "-root") (seq 0 n) in
  let mirror := bool_decide (lay_Kind l = LayoutMirror) in
  let rootVolume := if mirror then "md0" else default "" (head roots) in
  (flat_map (disk_entries uefi) (seq 0 n) ++
   (if mirror then [AMap [("type", AStr "raid"); ("id", AStr "md0"); ("name", AStr "md0"); ("raidlevel", AStr "raid1"); ("devices", AList (map AStr roots)); ("preserve", ABool false)]] else []) ++
   [AMap [("type", AStr "format"); ("id", AStr "root-fs"); ("volume", AStr rootVolume); ("fstype", AStr "ext4")];
    AMap [("type", AStr "mount"); ("id", AStr "root-mnt"); ("device", AStr "root-fs"); ("path", AStr "/")]] ++
   (if uefi then [AMap [("type", AStr "mount"); ("id", AStr "esp-mnt"); ("device", AStr "disk0-esp-fs"); ("path", AStr "/boot/efi")]] else []))%list.

(** ** Commands *)

Definition writeFileCommand (path content mode : string) : string :=
  "echo '" +:+ std_base64 content +:+ "' | base64 -d > '" +:+ path +:+ "' && chmod " +:+ mode +:+ " '" +:+ path +:+ "'".

(** The steps of the resolution: find the device of a disk, compare two, write one into
    the document. *)
Inductive disk_step := Find (i : nat) (byID : string) | Differ (i : nat) (byID0 byID : string) | Put (i : nat).
Definition step_text (s : disk_step) : string :=
  match s with
  | Find i d => "p" +:+ itoa (Z.of_nat i) +:+ "=$(readlink -f '" +:+ d +:+ lit "') && [ -b `$p" +:+ itoa (Z.of_nat i) +:+ lit "` ] || { echo 'FRAME: " +:+ d +:+ " is not a block device, refusing' > /dev/console; exit 1; }"
  | Differ i d0 d => lit "[ `$p0` != `$p" +:+ itoa (Z.of_nat i) +:+ lit "` ] || { echo 'FRAME: " +:+ d0 +:+ " and " +:+ d +:+ " are the same disk, refusing' > /dev/console; exit 1; }"
  | Put i => lit "sed -i `s#" +:+ placeholder i +:+ "#$p" +:+ itoa (Z.of_nat i) +:+ lit "#g` /autoinstall.yaml"
  end.
Definition disk_steps (l : Layout) : list disk_step :=
  let ids := map dk_ByID (lay_Disks l) in
  (imap Find ids ++ imap (fun i d => Differ (S i) (default "" (head ids)) d) (tail ids) ++ imap (fun i _ => Put i) ids)%list.
Definition diskResolution (l : Layout) : string := join "; " (map step_text (disk_steps l)).

Section Render.
Context {PL : ProvisionLibs} {YW : YamlWriter}.

Definition relockCommand (target : string) : result string string :=
  match yaml_text (AMap [("runcmd", AList [AList [AStr "passwd"; AStr "-l"; AStr "frame"]])]) with
  | inl e => inl e
  | inr b => inr (writeFileCommand (target +:+ "/etc/cloud/cloud.cfg.d/99-zz-frame-lock.cfg") b "644")
  end.

Definition strs (l : list string) : any := AList (map AStr l).
Definition pinned_doc (cidr : string) (s : Spec) : any :=
  AMap [("network", AMap [("ethernets", AMap [("frame0", AMap [
    ("match", AMap [("macaddress", AOther macPlaceholder)]); ("set-name", AOther devPlaceholder); ("dhcp4", ABool false); ("addresses", strs [cidr]);
    ("routes", AList [AMap [("to", AStr "default"); ("via", AStr (net_Gateway (sp_Network s)))]]); ("nameservers", AMap [("addresses", strs (net_DNS (sp_Network s)))])])]);
    ("version", AInt 2)])].
Definition refuse (why : string) : string := "echo 'FRAME: " +:+ why +:+ ", refusing' > /dev/console; exit 1".
Definition two_hex : string := "[0-9a-f][0-9a-f]".
Definition netplanPin (cidr : string) (s : Spec) (target sysClassNet : string) : result string string :=
  match yaml_text (pinned_doc cidr s) with
  | inl e => inl e
  | inr b =>
    let gw := net_Gateway (sp_Network s) in
    let pinned := target +:+ "/etc/netplan/60-frame.yaml" in
    inr (join "; " [
      "dev=$(ip -o route get '" +:+ gw +:+ "' 2>/dev/null | sed -n 's/.* dev \([^ ]*\).*/\1/p')";
      lit "case `$dev` in ''|.*|*[!A-Za-z0-9_.-]*" +:+ ") " +:+ refuse ("no port carries the route to " +:+ gw) +:+ ";; esac";
      lit "[ `$dev` != lo ] || { " +:+ refuse ("the route to " +:+ gw +:+ " goes over loopback") +:+ "; }";
      "mac=$(cat '" +:+ sysClassNet +:+ lit "'/`$dev`/address 2>/dev/null)";
      lit "case `$mac` in 00:00:00:00:00:00) " +:+ refuse "the gateway port has no hardware address" +:+ ";; " +:+
        join ":" (replicate 6 two_hex) +:+ ") ;; *" +:+ ") " +:+ refuse "no MAC address for the gateway port" +:+ ";; esac";
      "rm -f '" +:+ target +:+ "/etc/netplan/'*.yaml '" +:+ target +:+ "/etc/cloud/cloud.cfg.d/90-installer-network.cfg' && echo '" +:+ std_base64 b +:+ lit "' | base64 -d | sed `s/" +:+ macPlaceholder +:+ "/$mac/; s/" +:+
        devPlaceholder +:+ lit "/$dev/` > '" +:+ pinned +:+ "' && chmod 600 '" +:+ pinned +:+ "' && " +:+
        writeFileCommand (target +:+ "/etc/cloud/cloud.cfg.d/99-zz-frame-network.cfg") ("network: {config: disabled}" +:+ line_end) "644"])
  end.

(** ** The document *)

(** What validate derives: the address and its prefix. *)
Definition cidr_of (s : Spec) : string :=
  match ParseCIDR (net_Address (sp_Network s)) with Some (addr, ipnet) => ip4_string (low32 addr) +:+ "/" +:+ itoa (net_ones ipnet) | None => "" end.

Definition guard_command (l : Layout) : string :=
  "if ! ( " +:+ diskSizeAssertion l +:+ " ); then echo 'FRAME: named disk is not the expected size, refusing' > /dev/console; exit 1; fi".
Definition beacons_on (base : string) : bool := negb (bool_decide (trim_space base = "")).
Definition early_commands (s : Spec) (base token : string) : list string :=
  ([guard_command (sp_Layout s); diskResolution (sp_Layout s)] ++
   if beacons_on base then [BeaconSend base token CheckpointEarly; BeaconHeartbeat base token CheckpointEarly] else [])%list.
Definition late_commands (s : Spec) (base token pin relock : string) : list string :=
  (["echo 'frame ALL=(ALL) NOPASSWD:ALL' > /target/etc/sudoers.d/frame && chmod 440 /target/etc/sudoers.d/frame";
    "echo '" +:+ sp_UID s +:+ "' > /target" +:+ markerPath +:+ " && chmod 444 /target" +:+ markerPath;
    "echo '" +:+ sp_Hostname s +:+ "' > /target/etc/hostname && (grep -qx '127.0.1.1 " +:+ sp_Hostname s +:+ "' /target/etc/hosts || echo '127.0.1.1 " +:+ sp_Hostname s +:+ "' >> /target/etc/hosts)";
    "curtin in-target --target=/target -- passwd -l frame"; pin; relock] ++
   if beacons_on base then [BeaconSend base token CheckpointLate] else [])%list.
Definition error_commands (base token : string) : list string := if beacons_on base then [BeaconSend base token CheckpointFailed] else [].

Definition live_network (s : Spec) : any :=
  AMap [("version", AInt 2); ("ethernets", AMap [("frame0", AMap [("match", AMap [("name", AStr "en*")]); ("optional", ABool true); ("dhcp4", ABool false); ("addresses", strs [cidr_of s]);
    ("routes", AList [AMap [("to", AStr "default"); ("via", AStr (net_Gateway (sp_Network s)))]]); ("nameservers", AMap [("addresses", strs (net_DNS (sp_Network s)))])])])].
Definition autoinstall_doc (s : Spec) (base token pin relock : string) : any :=
  AMap [("autoinstall", AMap [
    ("version", AInt 1); ("interactive-sections", AList []); ("refresh-installer", AMap [("update", ABool false)]); ("updates", AStr "security"); ("apt", AMap [("fallback", AStr "offline-install")]);
    ("locale", AStr "en_US.UTF-8"); ("keyboard", AMap [("layout", AStr "us")]); ("network", live_network s);
    ("storage", AMap [("swap", AMap [("size", AInt 0)]); ("config", AList (storageConfig (sp_Layout s) (sp_BootMode s)))]);
    ("identity", AMap [("hostname", AStr (sp_Hostname s)); ("username", AStr "frame"); ("realname", AStr "Frame"); ("password", AStr lockedPasswordHash)]);
    ("ssh", AMap [("install-server", ABool true); ("allow-pw", ABool false); ("authorized-keys", strs [trim_space (sp_SSHPublicKey s)])]);
    ("early-commands", strs (early_commands s base token)); ("late-commands", strs (late_commands s base token pin relock)); ("error-commands", strs (error_commands base token)); ("shutdown", AStr "reboot")])].

Definition RenderAutoinstall (s : Spec) (beaconBase token : string) : result string string :=
  match ValidateSpec s with
  | Some e => inl e
  | None =>
    match ValidateBeaconBase beaconBase with
    | Some e => inl e
    | None =>
      match netplanPin (cidr_of s) s targetRoot "/sys/class/net", relockCommand targetRoot with
      | inl e, _ | inr _, inl e => inl e
      | inr pin, inr relock =>
        match yaml_text (autoinstall_doc s beaconBase token pin relock) with inl e => inl e | inr b => inr ("#cloud-config" +:+ line_end +:+ b) end
      end
    end
  end.
End Render.

(** * Theorems *)

(** ** What reaches a shell *)

(** Characters that mean nothing to a shell, inside or outside of quotes. *)
Definition shell_safe (c : ascii) : bool := alnum c || one_of "_.:+-/=" c.
Definition safe (s : string) : Prop := Forall (fun c => shell_safe c = true) (to_bytes s).
Definition ip_char (c : ascii) : bool := bool_decide (is_Some (hex_val c)) || Ascii.eqb c colon || Ascii.eqb c dot.

Lemma ip_char_safe c : ip_char c = true -> shell_safe c = true.
Proof. intros H. assert (implb (ip_char c) (shell_safe c) = true) as Hi by (revert c H; intros c _; revert c; by apply byte_forall; vm_compute). by rewrite H in Hi. Qed.
Lemma split_covers sep (P : ascii -> Prop) l cur : P sep -> (forall p, p ∈ split_bytes sep l cur -> Forall P p) -> Forall P cur /\ Forall P l.
Proof.
  intros Hs. revert cur. induction l as [|c l IH]; intros cur H; cbn in H.
  - split; [|constructor]. rewrite <- (rev_involutive cur). apply Forall_rev, H. by left.
  - destruct (Ascii.eqb c sep) eqn:E.
    + apply Ascii.eqb_eq in E as ->. split; [rewrite <- (rev_involutive cur); apply Forall_rev, H; by left|]. constructor; [done|]. apply (IH []). intros p Hp. apply H. by right.
    + destruct (IH _ H) as [Hc Hl]. inversion Hc; subst. split; [done|by constructor].
Qed.
Lemma digits_ip acc l v : parse_digits acc l = Some v -> Forall (fun c => ip_char c = true) l.
Proof.
  revert acc. induction l as [|c l IH]; intros acc H; [constructor|]. cbn in H. unfold digit_val in H. destruct (in_range 48 57 c) eqn:E; [|done]. constructor; [|by eapply IH].
  unfold ip_char, hex_val. by rewrite E.
Qed.
Lemma octet_ip l v : parse_octet l = Some v -> Forall (fun c => ip_char c = true) l.
Proof.
  unfold parse_octet. destruct l as [|c r]; [done|]. destruct (_ && _); [done|]. intros H. apply bind_Some in H as (x & H & _). by eapply digits_ip.
Qed.
Lemma ipv4_ip l v : parse_ipv4 l = Some v -> Forall (fun c => ip_char c = true) l.
Proof.
  unfold parse_ipv4. intros H. apply (split_covers dot (fun c => ip_char c = true) l []); [by vm_compute|]. intros p Hp. destruct (split_bytes dot l []) as [|a [|b [|c [|d [|]]]]]; try done.
  apply bind_Some in H as (xa & Ha & H). apply bind_Some in H as (xb & Hb & H). apply bind_Some in H as (xc & Hc & H). apply bind_Some in H as (xd & Hd & _).
  rewrite !elem_of_cons, elem_of_nil in Hp. destruct Hp as [->|[->|[->|[->|[]]]]]; by eapply octet_ip.
Qed.
Lemma group_ip acc n l acc' n' rest : hex_group acc n l = Some (acc', n', rest) -> exists pre, l = (pre ++ rest)%list /\ Forall (fun c => ip_char c = true) pre.
Proof.
  revert acc n. induction l as [|c l IH]; intros acc n H; cbn [hex_group] in H; [injection H as <- <- <-; by exists []|]. destruct (hex_val c) as [v|] eqn:E; [|injection H as <- <- <-; by exists []].
  destruct (3 <? n)%nat; [done|]. destruct (IH _ _ H) as (pre & -> & Hp). exists (c :: pre). split; [done|]. constructor; [unfold ip_char; by rewrite E|done].
Qed.
Lemma loop_ip fuel fields ell l f e : ipv6_loop fuel fields ell l = Some (f, e, []) -> Forall (fun c => ip_char c = true) l.
Proof.
  revert fields ell l. induction fuel as [|fuel IH]; intros fields ell l H; cbn [ipv6_loop] in H; [by injection H as <- <- ->|]. destruct (8 <=? length fields)%nat; [by injection H as <- <- ->|].
  destruct (hex_group 0 0 l) as [[[acc n] rest]|] eqn:Eg; [|done]. cbn [mbind option_bind] in H. destruct (n =? 0)%nat; [done|]. destruct (group_ip _ _ _ _ _ _ Eg) as (pre & Hl & Hpre).
  destruct rest as [|c rest]; [subst; by rewrite app_nil_r|]. destruct (Ascii.eqb c dot) eqn:Ed.
  - destruct (_ || _); [done|]. apply bind_Some in H as (v & H & _). by eapply ipv4_ip.
  - destruct rest as [|d rest]; [done|]. destruct (Ascii.eqb c colon) eqn:Ec; [|done]. cbn [negb] in H. subst l. apply Forall_app. split; [done|]. assert (ip_char c = true) as Hc by (unfold ip_char; by rewrite Ec, orb_true_r).
    constructor; [done|]. destruct (Ascii.eqb d colon) eqn:Edc; [|by eapply IH]. case_bool_decide; [done|]. constructor; [unfold ip_char; by rewrite Edc, orb_true_r|].
    case_bool_decide; [subst; constructor|by eapply IH].
Qed.
Lemma ipv6_ip l v : parse_ipv6 l = Some v -> Forall (fun c => ip_char c = true) l.
Proof.
  assert (forall (rest : bytes) (o : option Z) x, (if negb (bool_decide (rest = [])) then None else o) = Some x -> rest = []) as Hf by (intros rest o x; by case_bool_decide).
  unfold parse_ipv6. destruct l as [|c [|d l]].
  - intros _. constructor.
  - intros H. apply bind_Some in H as ([[f e] rest] & H & Hr). apply Hf in Hr. subst. by eapply loop_ip.
  - destruct (_ && _) eqn:E.
    + apply andb_prop in E as [Ec Ed]. assert (forall x, Ascii.eqb x colon = true -> ip_char x = true) as Hx by (intros x Hx; unfold ip_char; by rewrite Hx, orb_true_r).
      intros H. constructor; [by apply Hx|]. constructor; [by apply Hx|]. case_bool_decide as El; [by subst|]. apply bind_Some in H as ([[f e] rest] & H & Hr). apply Hf in Hr. subst. by eapply loop_ip.
    + intros H. apply bind_Some in H as ([[f e] rest] & H & Hr). apply Hf in Hr. subst. by eapply loop_ip.
Qed.
Lemma addr_ip whole l a : parse_addr whole l = Some a -> Forall (fun c => ip_char c = true) whole.
Proof.
  induction l as [|c l IH]; cbn [parse_addr]; [done|]. destruct (Ascii.eqb c dot); [intros (v & H & _)%fmap_Some; by eapply ipv4_ip|]. destruct (Ascii.eqb c colon).
  - destruct (has_byte percent whole); [done|]. intros (v & H & _)%fmap_Some. by eapply ipv6_ip.
  - by destruct (Ascii.eqb c percent).
Qed.
Lemma ip_safe s ip : ParseIP s = Some ip -> safe s.
Proof. unfold ParseIP, ParseAddr. intros (a & H & _)%fmap_Some. unfold safe. eapply Forall_impl; [by eapply addr_ip|]. intros c. apply ip_char_safe. Qed.

Lemma literal_safe s : forallb shell_safe (to_bytes s) = true -> safe s.
Proof. intros H. unfold safe. apply Forall_forall. intros c Hc. rewrite forallb_forall in H. by apply H, list_elem_of_In. Qed.
Lemma pretty_go_safe x s : safe s -> safe (pretty_N_go x s).
Proof.
  revert s. induction (N.lt_wf_0 x) as [x _ IH]. intros s Hs. destruct (decide (x = 0)%N) as [->|Hx]; [by rewrite pretty_N_go_0|]. rewrite pretty_N_go_step by lia.
  apply IH; [apply N.div_lt; lia|]. unfold safe. change (to_bytes (String ?c s)) with (c :: to_bytes s). constructor; [|done].
  unfold pretty_N_char. by repeat case_match.
Qed.
Lemma itoa_safe z : safe (itoa z).
Proof.
  assert (forall n : N, safe (pretty n)) as HN.
  { intros n. unfold pretty, pretty_N. case_decide; [apply literal_safe; reflexivity|]. apply pretty_go_safe. constructor. }
  destruct z as [|p|p]; [apply literal_safe; reflexivity|apply (HN (Npos p))|]. unfold safe. constructor; [by vm_compute|apply (HN (Npos p))].
Qed.
Lemma base64_safe s : safe (std_base64 s).
Proof.
  unfold safe, std_base64. rewrite to_bytes_app. apply Forall_app. split; [apply encoded_bytes; [by vm_compute|apply string_bytes_octets]|].
  destruct (_ mod 4)%nat as [|[|[|[|]]]]; apply literal_safe; reflexivity.
Qed.

Lemma forall_safe (f : ascii -> bool) s : (forall c, implb (f c) (shell_safe c) = true) -> forallb f (to_bytes s) = true -> safe s.
Proof. intros Hf H. unfold safe. apply Forall_forall. intros c Hc. rewrite forallb_forall in H. specialize (Hf c). by rewrite (H c) in Hf by by apply list_elem_of_In. Qed.
Lemma disk_name_safe d : byIDName d = true -> safe d.
Proof.
  unfold byIDName. destruct (strip_prefix _ (to_bytes d)) as [l|] eqn:E; [|done]. intros [_ H]%andb_prop. unfold safe. apply strip_prefix_split in E as ->. apply Forall_app. split; [apply (literal_safe "/dev/disk/by-id/"); reflexivity|].
  apply Forall_forall. intros c Hc. rewrite forallb_forall in H. apply list_elem_of_In, H in Hc. revert c Hc. assert (forall c, implb (alnum c || one_of "_.:+-" c) (shell_safe c) = true) as Hi by (apply byte_forall; by vm_compute).
  intros c Hc. specialize (Hi c). by rewrite Hc in Hi.
Qed.

(** What a spec that is not refused is like. *)
Record valid_spec (s : Spec) : Prop := mkValid {
  vs_uid : safe (sp_UID s); vs_host : safe (sp_Hostname s); vs_boot : sp_BootMode s = bootUEFI \/ sp_BootMode s = bootLegacy; vs_gateway : safe (net_Gateway (sp_Network s));
  vs_disks : Forall (fun d => safe (dk_ByID d)) (lay_Disks (sp_Layout s));
  vs_layout : lay_Kind (sp_Layout s) = LayoutSingleDisk /\ length (lay_Disks (sp_Layout s)) = 1%nat \/ lay_Kind (sp_Layout s) = LayoutMirror /\ length (lay_Disks (sp_Layout s)) = 2%nat
}.
Lemma disks_safe seen l : validate_disks seen l = None -> Forall (fun d => safe (dk_ByID d)) l.
Proof.
  revert seen. induction l as [|d l IH]; intros seen H; [constructor|]. cbn in H. destruct (checkShellValue _ _); [done|]. destruct (byIDName (dk_ByID d)) eqn:E; [|done]. cbn in H.
  destruct (dk_SizeBytes d <=? 0); [done|]. case_bool_decide; [done|]. constructor; [by apply disk_name_safe|by eapply IH].
Qed.
Lemma ValidateSpec_valid {PL : ProvisionLibs} s : ValidateSpec s = None -> valid_spec s.
Proof.
  unfold ValidateSpec. cbv zeta. destruct (uidShape (sp_UID s)) eqn:Hu; [|done]. destruct (hostnameShape (sp_Hostname s)) eqn:Hh; [|done]. cbn [negb].
  destruct (negb _ && _) eqn:Hb; [done|]. destruct (checkPublicKeyOnly _); [done|]. destruct (ParseCIDR _) as [[addr ipnet]|]; [|done]. destruct (is4 addr); [|done]. cbn [negb].
  destruct (ParseIP (net_Gateway (sp_Network s))) as [gw|] eqn:Hg; [|done]. destruct (gw =? addr); [done|]. destruct (Contains ipnet gw); [|done]. cbn [negb]. destruct (bool_decide (net_DNS (sp_Network s) = [])); [done|].
  destruct (check_dns _); [done|]. destruct (layout_wants _ =? 0)%nat eqn:Hw; [done|]. destruct (length _ =? layout_wants _)%nat eqn:Hl; [|done]. cbn [negb]. intros Hd.
  apply Nat.eqb_eq in Hl. apply Nat.eqb_neq in Hw. split.
  - unfold uidShape in Hu. apply andb_prop in Hu as [_ Hu]. eapply forall_safe; [|exact Hu]. apply byte_forall. by vm_compute.
  - unfold hostnameShape in Hh. apply andb_prop in Hh as [_ Hh]. eapply forall_safe; [|exact Hh]. apply byte_forall. by vm_compute.
  - destruct (decide (sp_BootMode s = bootUEFI)); [by left|]. destruct (decide (sp_BootMode s = bootLegacy)); [by right|]. by rewrite !bool_decide_false in Hb.
  - by eapply ip_safe.
  - by eapply disks_safe.
  - rewrite Hl. unfold layout_wants in *. case_bool_decide; [by left|]. case_bool_decide; [by right|done].
Qed.

(** The characters of a command that mean something to a shell, in their order. *)
Definition specials (s : string) : bytes := List.filter (fun c => negb (shell_safe c)) (to_bytes s).
Lemma specials_app a b : specials (a +:+ b) = (specials a ++ specials b)%list.
Proof. unfold specials. by rewrite to_bytes_app, List.filter_app. Qed.
Lemma specials_safe s : safe s -> specials s = [].
Proof. unfold safe, specials. induction 1 as [|c l Hc _ IH]; [done|]. cbn. by rewrite Hc. Qed.

Ltac only_template := repeat first [rewrite specials_app | match goal with H : safe ?v |- context [specials ?v] => rewrite (specials_safe v H) end | rewrite (specials_safe _ (itoa_safe _)) | rewrite (specials_safe _ (base64_safe _))].

Definition one_or_two (ds ds' : list Disk) : Prop := (exists a a', ds = [a] /\ ds' = [a']) \/ exists a b a' b', ds = [a; b] /\ ds' = [a'; b'].
Lemma lengths_match s s' : valid_spec s -> valid_spec s' -> length (lay_Disks (sp_Layout s)) = length (lay_Disks (sp_Layout s')) -> one_or_two (lay_Disks (sp_Layout s)) (lay_Disks (sp_Layout s')).
Proof.
  intros H H' Hl. destruct (vs_layout _ H) as [[_ E]|[_ E]]; rewrite E in Hl; destruct (lay_Disks (sp_Layout s)) as [|a [|b [|]]]; try done; destruct (lay_Disks (sp_Layout s')) as [|a' [|b' [|]]]; try done;
    [left|right]; by repeat eexists.
Qed.

Lemma pin_fixed {PL : ProvisionLibs} {YW : YamlWriter} s s' c c' t n p p' : valid_spec s -> valid_spec s' -> netplanPin c s t n = inr p -> netplanPin c' s' t n = inr p' -> specials p = specials p'.
Proof.
  intros H H'. pose proof (vs_gateway _ H) as Hg. pose proof (vs_gateway _ H') as Hg'. unfold netplanPin. destruct (yaml_text _); [done|]. destruct (yaml_text _); [done|]. intros [= <-] [= <-].
  cbn [join]. unfold refuse, writeFileCommand. only_template. reflexivity.
Qed.

Lemma specials_join sep l l' : map specials l = map specials l' -> specials (join sep l) = specials (join sep l').
Proof.
  revert l'. induction l as [|a l IH]; intros [|a' l'] H; try done. injection H as Ha Hl. destruct l as [|b l], l' as [|b' l']; try done. change (join sep (a :: b :: l)) with (a +:+ sep +:+ join sep (b :: l)).
  change (join sep (a' :: b' :: l')) with (a' +:+ sep +:+ join sep (b' :: l')). by rewrite !specials_app, Ha, (IH _ Hl).
Qed.
Definition disk_test (d : Disk) : string :=
  let q := String (byte 34) "" in "[ " +:+ q +:+ "$(blockdev --getsize64 " +:+ dk_ByID d +:+ " 2>/dev/null)" +:+ q +:+ " = " +:+ q +:+ itoa (dk_SizeBytes d) +:+ q +:+ " ]".
Lemma test_fixed d d' : safe (dk_ByID d) -> safe (dk_ByID d') -> specials (disk_test d) = specials (disk_test d').
Proof. intros H H'. unfold disk_test. cbv zeta. only_template. reflexivity. Qed.
Lemma find_fixed i d d' : safe d -> safe d' -> specials (step_text (Find i d)) = specials (step_text (Find i d')).
Proof. intros H H'. unfold step_text. only_template. reflexivity. Qed.
Lemma differ_fixed i d e d' e' : safe d -> safe d' -> safe e -> safe e' -> specials (step_text (Differ i d e)) = specials (step_text (Differ i d' e')).
Proof. intros H H' H1 H2. unfold step_text. only_template. reflexivity. Qed.
Lemma assertion_tests l : lay_Disks l <> [] -> diskSizeAssertion l = join " && " (map disk_test (lay_Disks l)).
Proof. intros H. unfold diskSizeAssertion. by rewrite bool_decide_false. Qed.
Lemma guard_fixed l l' : map specials (map disk_test (lay_Disks l)) = map specials (map disk_test (lay_Disks l')) -> lay_Disks l <> [] -> lay_Disks l' <> [] -> specials (guard_command l) = specials (guard_command l').
Proof. intros H Hl Hl'. unfold guard_command. rewrite !assertion_tests by done. rewrite !specials_app. by rewrite (specials_join _ _ _ H). Qed.

(** C23. For two specs that are not refused and have the same number of disks, the characters of
    the installer's commands that mean something to a shell are the same, in the same order: no
    value of a spec leaves the word it is put in, or adds a command. *)
Theorem commands_fixed {PL : ProvisionLibs} {YW : YamlWriter} (s s' : Spec) (base token pin pin' relock : string) :
  ValidateSpec s = None -> ValidateSpec s' = None -> length (lay_Disks (sp_Layout s)) = length (lay_Disks (sp_Layout s')) ->
  netplanPin (cidr_of s) s targetRoot "/sys/class/net" = inr pin -> netplanPin (cidr_of s') s' targetRoot "/sys/class/net" = inr pin' ->
  map specials (early_commands s base token) = map specials (early_commands s' base token) /\
  map specials (late_commands s base token pin relock) = map specials (late_commands s' base token pin' relock).
Proof.
  intros H%ValidateSpec_valid H'%ValidateSpec_valid Hl Hp Hp'. pose proof (pin_fixed _ _ _ _ _ _ _ _ H H' Hp Hp') as Hpin. pose proof (vs_disks _ H) as Hd. pose proof (vs_disks _ H') as Hd'. split.
  - unfold early_commands. rewrite !map_app. f_equal. cbn [map].
    destruct (lengths_match _ _ H H' Hl) as [(a & a' & E & E')|(a & b & a' & b' & E & E')]; rewrite E in Hd; rewrite E' in Hd'; decompose_Forall_hyps.
    + f_equal; [apply guard_fixed; rewrite ?E, ?E'; [cbn [map]; by rewrite (test_fixed a a')|done..]|]. f_equal. apply specials_join. unfold disk_steps. rewrite E, E'. change (map specials [step_text (Find 0 (dk_ByID a)); step_text (Put 0)] = map specials [step_text (Find 0 (dk_ByID a')); step_text (Put 0)]). cbn [map]. by rewrite (find_fixed 0 _ (dk_ByID a')).
    + f_equal; [apply guard_fixed; rewrite ?E, ?E'; [cbn [map]; by rewrite (test_fixed a a'), (test_fixed b b')|done..]|]. f_equal. apply specials_join. unfold disk_steps. rewrite E, E'.
      change (map specials [step_text (Find 0 (dk_ByID a)); step_text (Find 1 (dk_ByID b)); step_text (Differ 1 (dk_ByID a) (dk_ByID b)); step_text (Put 0); step_text (Put 1)] =
              map specials [step_text (Find 0 (dk_ByID a')); step_text (Find 1 (dk_ByID b')); step_text (Differ 1 (dk_ByID a') (dk_ByID b')); step_text (Put 0); step_text (Put 1)]).
      cbn [map]. by rewrite (find_fixed 0 _ (dk_ByID a')), (find_fixed 1 _ (dk_ByID b')), (differ_fixed 1 _ _ (dk_ByID a') (dk_ByID b')).
  - unfold late_commands. rewrite !map_app. f_equal. cbn [map]. pose proof (vs_uid _ H). pose proof (vs_uid _ H'). pose proof (vs_host _ H). pose proof (vs_host _ H'). only_template. by rewrite Hpin.
Qed.

(** ** Storage *)

Definition entry_id (e : any) : string := nested_string e ["id"].
Definition entry_refs (e : any) : list string :=
  (omap (fun k => match nested e [k] with Some (AStr s) => Some s | _ => None end) ["device"; "volume"] ++
   match nested e ["devices"] with Some (AList l) => omap (fun v => match v with AStr s => Some s | _ => None end) l | _ => [] end)%list.
Definition disk_paths (cfg : list any) : list string := map (fun e => nested_string e ["path"]) (List.filter (fun e => bool_decide (nested_string e ["type"] = "disk")) cfg).
(** Each entry refers to entries before it. *)
Fixpoint refers_back (seen : list string) (cfg : list any) : bool :=
  match cfg with
  | [] => true
  | e :: cfg => forallb (fun r => bool_decide (r ∈ seen)) (entry_refs e) && refers_back (entry_id e :: seen) cfg
  end.

(** The storage of a spec that is not refused is made of the placeholders of its disks,
    once each and nothing else; its entries have names of their own and refer to
    entries before them; and it keeps nothing that was on a disk. *)
Theorem storage_well_formed {PL : ProvisionLibs} (s : Spec) : ValidateSpec s = None ->
  let cfg := storageConfig (sp_Layout s) (sp_BootMode s) in
  disk_paths cfg = take (length (lay_Disks (sp_Layout s))) diskPlaceholders /\ NoDup (map entry_id cfg) /\ refers_back [] cfg = true /\
  Forall (fun e => nested e ["preserve"] ∈ [None; Some (ABool false)]) cfg.
Proof.
  intros H%ValidateSpec_valid. destruct (vs_layout _ H) as [[Hk Hl]|[Hk Hl]], (vs_boot _ H) as [Hb|Hb]; unfold storageConfig; cbv zeta; rewrite Hk, Hl, Hb;
    (split; [by vm_compute|]); (split; [refine (bool_decide_eq_true_1 _ _); by vm_compute|]); (split; [by vm_compute|]); refine (bool_decide_eq_true_1 _ _); by vm_compute.
Qed.

(** ** The names of the disks *)

(** The resolution on a machine: [dev d] is the block device the link [d] resolves to, if it
    does; the paths are those of the document. *)
Record resolution := mkResolution { rs_found : gmap nat string; rs_paths : list string }.
Definition run_step (dev : string -> option string) (r : resolution) (st : disk_step) : option resolution :=
  match st with
  | Find i d => p ← dev d; Some (mkResolution (<[i := p]> (rs_found r)) (rs_paths r))
  | Differ i _ _ => if bool_decide (rs_found r !! 0%nat = rs_found r !! i) then None else Some r
  | Put i => Some (mkResolution (rs_found r) (map (fun q => if bool_decide (q = placeholder i) then default "" (rs_found r !! i) else q) (rs_paths r)))
  end.
(** The paths as they are left, and whether the install goes on. *)
Fixpoint resolve (dev : string -> option string) (r : resolution) (l : list disk_step) : bool * list string :=
  match l with
  | [] => (true, rs_paths r)
  | st :: l => match run_step dev r st with None => (false, rs_paths r) | Some r => resolve dev r l end
  end.

Lemma paths_placeholders s : valid_spec s -> disk_paths (storageConfig (sp_Layout s) (sp_BootMode s)) = take (length (lay_Disks (sp_Layout s))) diskPlaceholders.
Proof. intros H. destruct (vs_layout _ H) as [[Hk Hl]|[Hk Hl]], (vs_boot _ H) as [Hb|Hb]; unfold storageConfig; cbv zeta; rewrite Hk, Hl, Hb; by vm_compute. Qed.

(** On the machine, either every disk of the layout is there under a device of its own, and
    the document names exactly those devices, in the order of the layout; or the install
    stops with the document as it was. *)
Theorem disks_resolved {PL : ProvisionLibs} (s : Spec) (dev : string -> option string) : ValidateSpec s = None ->
  (forall d p, dev d = Some p -> p ∉ diskPlaceholders) ->
  let start := disk_paths (storageConfig (sp_Layout s) (sp_BootMode s)) in
  let ids := map dk_ByID (lay_Disks (sp_Layout s)) in
  match resolve dev (mkResolution ∅ start) (disk_steps (sp_Layout s)) with
  | (true, paths) => map Some paths = map dev ids /\ NoDup paths
  | (false, paths) => paths = start /\ ((exists d, d ∈ ids /\ dev d = None) \/ exists a b, ids = [a; b] /\ dev a = dev b)
  end.
Proof.
  intros Hs%ValidateSpec_valid Hdev. cbv zeta. rewrite (paths_placeholders _ Hs). assert (forall d p, dev d = Some p -> p <> placeholder 1) as Hne by (intros d p Hp ->; apply (Hdev d _ Hp); by right; left).
  unfold disk_steps. destruct (vs_layout _ Hs) as [[_ Hl]|[_ Hl]]; destruct (lay_Disks (sp_Layout s)) as [|a [|b [|]]]; try done; cbn.
  - destruct (dev (dk_ByID a)) as [p|] eqn:Ha; cbn; [|split; [done|]; left; exists (dk_ByID a); split; [by left|done]]. rewrite lookup_insert_eq. cbn. split; [done|]. apply NoDup_singleton.
  - destruct (dev (dk_ByID a)) as [p|] eqn:Ha; cbn; [|split; [done|]; left; exists (dk_ByID a); split; [by left|done]].
    destruct (dev (dk_ByID b)) as [q|] eqn:Hb; cbn; [|split; [done|]; left; exists (dk_ByID b); split; [by right; left|done]].
    rewrite lookup_insert_eq. rewrite lookup_insert_ne, lookup_insert_eq by done. case_bool_decide as E; [split; [done|]; right; exists (dk_ByID a), (dk_ByID b); split; [done|congruence]|]. cbn.
    rewrite lookup_insert_ne, lookup_insert_eq, lookup_insert_eq by done. cbn.
    rewrite (bool_decide_true ("/dev/frame-disk-a" = "/dev/frame-disk-a")), (bool_decide_false ("/dev/frame-disk-b" = "/dev/frame-disk-a")), (bool_decide_true ("/dev/frame-disk-b" = "/dev/frame-disk-b")) by done. cbn.
    rewrite bool_decide_false by by apply (Hne (dk_ByID a)). split; [done|].
    apply NoDup_cons. split; [|apply NoDup_singleton]. intros ->%list_elem_of_singleton. by apply E.
Qed.

(** The join token of a spec is not in its document: what is rendered does not depend on
    the cluster it is for. *)
Theorem document_without_cluster {PL : ProvisionLibs} {YW : YamlWriter} (s : Spec) (c : ClusterTarget) (base token : string) :
  RenderAutoinstall (mkSpec (sp_UID s) (sp_Hostname s) (sp_Network s) (sp_Layout s) (sp_SSHPublicKey s) c (sp_BootMode s)) base token = RenderAutoinstall s base token.
Proof. by destruct s. Qed.

(** ** Instances *)

Module Demo.
#[local] Instance text_writer : YamlWriter := {| yaml_text := fun _ => inr "doc" |}.
Definition mirror (address a b : string) : Spec :=
  mkSpec "uid-1" "node1" (mkNetwork address "192.0.2.1" ["192.0.2.1"]) (mkLayout LayoutMirror [mkDisk a 480103981056; mkDisk b 480103981056]) "ssh-ed25519 AAAA"
    (mkClusterTarget ClusterInit "" "" "v1.33.4+k3s1") bootUEFI.
Definition plain : Spec := mirror "192.0.2.210/24" "/dev/disk/by-id/wwn-0x5" "/dev/disk/by-id/wwn-0x6".

(** An address in IPv4-mapped form passes as IPv4, with a prefix over 32 bits that the
    document then gives to the IPv4 address. *)
Theorem mapped_prefix_kept : let s := mirror "::ffff:192.0.2.210/120" "/dev/disk/by-id/wwn-0x5" "/dev/disk/by-id/wwn-0x6" in
  ValidateSpec s = None /\ cidr_of s = "192.0.2.210/120".
Proof. by vm_compute. Qed.

Example one_disk_twice : resolve (fun _ => Some "/dev/sda") (mkResolution ∅ diskPlaceholders) (disk_steps (sp_Layout plain)) = (false, diskPlaceholders).
Proof. by vm_compute. Qed.
Example two_disks : resolve (fun d => Some (if bool_decide (d = "/dev/disk/by-id/wwn-0x5") then "/dev/sda" else "/dev/sdb")) (mkResolution ∅ diskPlaceholders) (disk_steps (sp_Layout plain)) = (true, ["/dev/sda"; "/dev/sdb"]).
Proof. by vm_compute. Qed.

Definition pin_of (s : Spec) : string := match netplanPin (cidr_of s) s targetRoot "/sys/class/net" with inr p => p | inl _ => "" end.
Lemma commands_fixed_witness : let s := plain in let s' := mirror "192.0.2.211/24" "/dev/disk/by-id/wwn-0x7" "/dev/disk/by-id/wwn-0x8" in
  map specials (early_commands s "" "") = map specials (early_commands s' "" "") /\ map specials (late_commands s "" "" (pin_of s) "") = map specials (late_commands s' "" "" (pin_of s') "").
Proof. apply commands_fixed; vm_compute; reflexivity. Defined.
Lemma storage_well_formed_witness : let cfg := storageConfig (sp_Layout plain) (sp_BootMode plain) in
  disk_paths cfg = diskPlaceholders /\ NoDup (map entry_id cfg) /\ refers_back [] cfg = true /\ Forall (fun e => nested e ["preserve"] ∈ [None; Some (ABool false)]) cfg.
Proof. apply (storage_well_formed plain). vm_compute. reflexivity. Defined.
Lemma disks_resolved_witness : let dev d := if bool_decide (d = "/dev/disk/by-id/wwn-0x5") then Some "/dev/sda" else None in
  match resolve dev (mkResolution ∅ (disk_paths (storageConfig (sp_Layout plain) (sp_BootMode plain)))) (disk_steps (sp_Layout plain)) with
  | (true, paths) => map Some paths = map dev (map dk_ByID (lay_Disks (sp_Layout plain))) /\ NoDup paths
  | (false, paths) => paths = disk_paths (storageConfig (sp_Layout plain) (sp_BootMode plain)) /\
      ((exists d, d ∈ map dk_ByID (lay_Disks (sp_Layout plain)) /\ dev d = None) \/ exists a b, map dk_ByID (lay_Disks (sp_Layout plain)) = [a; b] /\ dev a = dev b)
  end.
Proof.
  apply (disks_resolved plain (fun d => if bool_decide (d = "/dev/disk/by-id/wwn-0x5") then Some "/dev/sda" else None)); [vm_compute; reflexivity|].
  intros d p. case_bool_decide; [|discriminate]. intros [= <-]. apply (bool_decide_eq_true_1 _). vm_compute. reflexivity.
Defined.
End Demo.
