(* ===== verification/Provisiond.v ===== *)
(** provisiond's images: internal/provision/base.go (the base image), iso.go (the image of a
    machine), server.go (the two listeners, and the image stores of the controller and of
    the bootstrap command).

    The file system, the commands that are run (xorriso), the HTTP client, crypto/rand,
    the clock, the JSON of a Spec and a BeaconState, and the order Go walks a map in
    are the methods of [ImageWorld]; the beacon store, when there is one, is the
    component's memory beside it. A request comes with the route it matched
    (net/http's mux is left out). filepath.Join of a directory and a name that was checked
    adds a slash. A file's sum is that of what is read from it.

    [media_confined]: what the unauthenticated listener touches is an image or a seed of a
    well-formed token. [build_whole_or_withdrawn]: a build leaves a whole seed and an
    unattended image with both boot records, or withdraws what it wrote.
    [token_kept_home]: the token that joins a cluster is not sent to the build API.
    [args_before_separator]: the boot arguments come before the separator. [Demo] runs the
    listeners on an in-memory disk. *)
From stdpp Require Import base tactics strings list gmap.
From Stdlib Require Import ZArith Lia Ascii.
From S2P Require Import Prelude Trace GoLib GoText GoTime GoNet Sha256 Kube StorageAlerts SchedulingPolicy Services Unstructured Provision Install InstallRuns BeaconStore Autoinstall.

Open Scope Z_scope.

(** ** Constants *)

Definition maxBaseImageBytes : Z := Z.shiftl 6 30.
Record BaseSource := mkBase { ba_URL : string; ba_SHA256 : string }.
Definition schemeHTTPS : string := "https".
Definition DefaultBase : BaseSource :=
  mkBase "https://releases.ubuntu.com/24.04/ubuntu-24.04.5-live-server-amd64.iso" "97f3d7ffb032c3eb3b23d2c8be9cc76e60c2c1f2c0146ba5ba9fe01cafae0fd8".
Definition bootArgsFixed : string := "frame=1 autoinstall ip=dhcp noprompt".
Definition alreadyRewritten : string := "frame=1".
Definition grubConfigs : list string := ["/boot/grub/grub.cfg"; "/boot/grub/loopback.cfg"].
Definition seedFiles : list string := ["user-data"; "meta-data"; "vendor-data"].

(** [^[a-f0-9]{32}\.iso$] *)
Definition imageName (s : string) : bool := bool_decide (trim_suffix s ".iso" <> s) && beaconToken (trim_suffix s ".iso").
(** [^[A-Za-z0-9:/._-]+$] *)
Definition seedURLShape (s : string) : bool := bool_decide (s <> "") && forallb (fun c => alnum c || one_of ":/._-" c) (to_bytes s).
Definition seedURL (mediaURL token : string) : string := trim_suffix mediaURL "/" +:+ "/autoinstall/" +:+ token +:+ "/".
Definition ValidateSeedBase (mediaURL : string) : option string :=
  if seedURLShape (seedURL mediaURL (of_bytes (replicate 32 "0"%char))) then None
  else Some (quote mediaURL +:+ ": only letters, digits and : / . _ - are allowed; every image writes it onto a GRUB kernel line").
Definition join_dir (dir name : string) : string := dir +:+ "/" +:+ name.

(** ** The text of grub.cfg *)

Definition is_ws (c : ascii) : bool := existsb (Ascii.eqb c) (map byte [9; 10; 12; 13; 32]%N).
Fixpoint span (p : ascii -> bool) (l : bytes) : bytes * bytes :=
  match l with [] => ([], []) | c :: t => if p c then let '(a, b) := span p t in (c :: a, b) else ([], l) end.
(** At the start of a line, [\s*linux\s+]: what matched and what follows. *)
Definition linux_at (l : bytes) : option (bytes * bytes) :=
  let '(ws, r) := span is_ws l in
  match strip_prefix (to_bytes "linux") r with
  | Some r => let '(ws1, r) := span is_ws r in if bool_decide (ws1 = []) then None else Some ((ws ++ to_bytes "linux" ++ ws1)%list, r)
  | None => None
  end.
(** kernelLine: such a line, to its end. *)
Definition kernel_at (l : bytes) : option (bytes * bytes) :=
  match linux_at l with
  | Some (m, r) => let '(rest, r) := span (fun c => negb (Ascii.eqb c newline)) r in Some ((m ++ rest)%list, r)
  | None => None
  end.
(** [(?m)^set timeout=\d+$] *)
Definition timeout_at (l : bytes) : option (bytes * bytes) :=
  match strip_prefix (to_bytes "set timeout=") l with
  | Some r =>
    let '(ds, r) := span digit r in
    if bool_decide (ds = []) then None
    else match r with
    | [] => Some ((to_bytes "set timeout=" ++ ds)%list, r)
    | c :: _ => if Ascii.eqb c newline then Some ((to_bytes "set timeout=" ++ ds)%list, r) else None
    end
  | None => None
  end.
(** ReplaceAllStringFunc of a pattern that matches at the start of a line: the pieces of
    the text, a match marked. [fuel] is the length of the text. *)
Fixpoint pieces (at_line : bytes -> option (bytes * bytes)) (fuel : nat) (start : bool) (l : bytes) : list (bool * bytes) :=
  match fuel with
  | O => []
  | S fuel =>
    match l with
    | [] => []
    | c :: t =>
      match (if start then at_line l else None) with
      | Some (m, r) => (true, m) :: pieces at_line fuel false r
      | None => (false, [c]) :: pieces at_line fuel (Ascii.eqb c newline) t
      end
    end
  end.
Definition replace_lines (at_line : bytes -> option (bytes * bytes)) (f : bytes -> bytes) (l : bytes) : bytes :=
  flat_map (fun p => if p.1 : bool then f p.2 else p.2) (pieces at_line (length l) true l).
Definition has_line (at_line : bytes -> option (bytes * bytes)) (l : bytes) : bool := existsb fst (pieces at_line (length l) true l).
(** [(?m)^\s*linux\s+/casper/] *)
Definition casper_at (l : bytes) : option (bytes * bytes) :=
  match linux_at l with Some (m, r) => match strip_prefix (to_bytes "/casper/") r with Some r => Some ((m ++ to_bytes "/casper/")%list, r) | None => None end | None => None end.

(** [(?:^|\s)---(?:\s|$)]: where it starts. *)
Definition dashes_here (l : bytes) : bool :=
  match strip_prefix (to_bytes "---") l with Some [] => true | Some (c :: _) => is_ws c | None => false end.
Fixpoint dashes_after (n : nat) (l : bytes) : option nat :=
  match l with
  | [] => None
  | c :: t => if is_ws c && dashes_here t then Some n else dashes_after (S n) t
  end.
Definition tripleDash (l : bytes) : option nat := if dashes_here l then Some 0%nat else dashes_after 0 l.

Definition bootArgs (seedURL : string) : string := bootArgsFixed +:+ " ds=nocloud\;s=" +:+ seedURL.
Definition withBootArgs (line : bytes) (seedURL : string) : bytes :=
  let args := to_bytes (" " +:+ bootArgs seedURL) in
  match tripleDash line with
  | Some n => (take n line ++ args ++ drop n line)%list
  | None => (line ++ args)%list
  end.
Definition unattended (seedURL : string) (line : bytes) : bytes := if contains_sub (to_bytes alreadyRewritten) line then line else withBootArgs line seedURL.
(** The file as addBootArgs leaves it, when it has a kernel line. *)
Definition rewrite_grub (seedURL : string) (b : bytes) : bytes :=
  replace_lines timeout_at (fun _ => to_bytes "set timeout=1") (replace_lines kernel_at (unattended seedURL) b).

(** ** The world *)

Record oserr := mkOsErr { oe_text : string; oe_notexist : bool }.
Record Response := mkResponse { re_Status : Z; re_Body : string }.
Definition not_found : Response := mkResponse 404 ("404 page not found" +:+ nl).
Definition http_error (text : string) (code : Z) : Response := mkResponse code (text +:+ nl).

(** [http_fetch] is a GET of the base: its status and what its body gives, with the error
    it ends in; [http_request] the error of making a request of a method and an address, and
    [http_send] a request of the image store. [exec args] is the output of a command, and its
    error. *)
Class ImageWorld (W : Type) := {
  os_stat : string -> St W (option oserr);
  os_remove : string -> St W (option oserr);
  os_removeall : string -> St W (option oserr);
  os_mkdirall : string -> St W (option oserr);
  os_mkdirtemp : St W (result oserr string);
  os_chmod : string -> St W (option oserr);
  os_write : string -> string -> St W (option oserr);
  os_read : string -> St W (result oserr string);
  os_create : string -> St W (option oserr);
  os_fill : string -> string -> St W (option oserr);
  serve_file : string -> St W Response;
  exec : list string -> St W (string * option string);
  http_fetch : string -> St W (result string (Z * string * option string));
  http_request : string -> string -> option string;
  http_send : string -> string -> string -> St W (result string Response);
  rand16 : St W (result string (list Z));
  clock : St W time;
  seed_order : list (string * string) -> St W (list (string * string));
  url_base : string -> string;             (* filepath.Base *)
  spec_decode : string -> result string Spec;
  spec_encode : Spec -> result string string;
  token_encode : string -> string;
  token_decode : string -> result string string;
  beacon_encode : BeaconState -> string;
  beacon_decode : string -> result string BeaconState
}.

Section Images.
Context {W : Type} {IM : ImageWorld W} {PL : ProvisionLibs} {YW : YamlWriter}.

(** ** base.go *)

Definition validPathComponent (name : string) : bool :=
  bool_decide (name <> "") && bool_decide (name <> ".") && bool_decide (name <> "..") && negb (has_byte slash (to_bytes name)).
Definition firstErr (a b : option string) : option string := match a with Some _ => a | None => b end.
Definition fileSHA256 (path : string) : St W (result string string) :=
  r ← os_read path;
  mret match r with inl e => inl (oe_text e) | inr content => inr (hex_encode (sum256 (string_bytes content))) end.

(** [via] is the scheme of the first request and how many there were. *)
Definition refuseHTTPSDowngrade (via : string * nat) (scheme host : string) : option string :=
  if (10 <=? via.2)%nat then Some "stopped after 10 redirects"
  else if bool_decide (via.1 = schemeHTTPS) && bool_decide (scheme <> schemeHTTPS) then Some ("refusing a redirect from https to " +:+ scheme +:+ "://" +:+ host)
  else None.

(** The download, to [path]. *)
Definition download (src : BaseSource) (path : string) : St W (result string string) :=
  r ← http_fetch (ba_URL src);
  match r with
  | inl e => mret (inl e)
  | inr (status, body, read_error) =>
    if negb (status =? 200) then mret (inl ("fetch " +:+ ba_URL src +:+ ": HTTP " +:+ itoa status))
    else
      c ← os_create path;
      match c with
      | Some e => mret (inl (oe_text e))
      | None =>
        let size := Z.of_nat (length (to_bytes body)) in
        let got := if size <=? maxBaseImageBytes then to_bytes body else take (Z.to_nat maxBaseImageBytes) (to_bytes body) in
        f ← os_fill path (of_bytes got);
        match firstErr (if size <? maxBaseImageBytes then read_error else None) (option_map oe_text f) with
        | Some e => _ ← os_remove path; mret (inl ("fetch " +:+ ba_URL src +:+ ": " +:+ e))
        | None =>
          let sum := hex_encode (sum256 (string_bytes (of_bytes got))) in
          if bool_decide (sum = ba_SHA256 src) then mret (inr path)
          else _ ← os_remove path; mret (inl ("fetch " +:+ ba_URL src +:+ ": sha256 " +:+ sum +:+ ", want " +:+ ba_SHA256 src))
        end
      end
  end.
Definition FetchBase (dir : string) (src : BaseSource) : St W (result string string) :=
  let base := url_base (ba_URL src) in
  if negb (validPathComponent base) then mret (inl ("BaseSource.URL " +:+ quote (ba_URL src) +:+ ": base name " +:+ quote base +:+ " is not a plain filename"))
  else
    let path := join_dir dir base in
    have ← fileSHA256 path;
    match have with
    | inr got => if bool_decide (got = ba_SHA256 src) then mret (inr path)
                 else m ← os_mkdirall dir; match m with Some e => mret (inl (oe_text e)) | None => download src path end
    | inl _ => m ← os_mkdirall dir; match m with Some e => mret (inl (oe_text e)) | None => download src path end
    end.

(** ** iso.go *)

(** The error, with the output. *)
Definition run (args : list string) : St W (option string) :=
  r ← exec args;
  mret (option_map (fun e => default "" (head args) +:+ ": " +:+ e +:+ nl +:+ r.1) r.2).

Definition addBootArgs (path seedURL : string) : St W (result string (bool * bool)) :=
  r ← os_read path;
  match r with
  | inl e => mret (inl (oe_text e))
  | inr b =>
    if negb (has_line kernel_at (to_bytes b)) then mret (inr (false, false))
    else
      let out := of_bytes (rewrite_grub seedURL (to_bytes b)) in
      if bool_decide (out = b) then mret (inr (true, false))
      else e ← os_write path out; match e with Some e => mret (inl (oe_text e)) | None => mret (inr (true, true)) end
  end.
Definition requireLiveServer (grubCfg baseISO : string) : St W (option string) :=
  r ← os_read grubCfg;
  mret match r with
  | inl e => Some (oe_text e)
  | inr b => if has_line casper_at (to_bytes b) then None
             else Some (baseISO +:+ " is not an Ubuntu live-server image: its grub.cfg boots no /casper/ kernel, and any other installer ignores autoinstall")
  end.

(** strings.Fields, on ASCII white space. *)
Definition fields (l : bytes) : list bytes :=
  List.filter (fun f => negb (bool_decide (f = []))) (split_bytes " " (map (fun c => if is_ws c || Ascii.eqb c (byte 11) then " "%char else c) l) []).
(** The mode a line of the report names, and a panic where it has no colon. *)
Definition boot_mode_of (line : bytes) : result string (option bytes) :=
  match strip_prefix (to_bytes "El Torito boot img") line with
  | None => inr None
  | Some _ => match (cut_at colon line).2 with None => inl "runtime error: index out of range" | Some rest => inr (fields rest !! 1%nat) end
  end.
Fixpoint boot_modes (lines : list bytes) : result string (list bytes) :=
  match lines with
  | [] => inr []
  | l :: lines =>
    match boot_mode_of l with
    | inl e => inl e
    | inr m => match boot_modes lines with inl e => inl e | inr ms => inr (match m with Some m => m :: ms | None => ms end) end
    end
  end.
Definition checkBootRecords (iso : string) : St W (option string) :=
  r ← exec ["xorriso"; "-indev"; iso; "-report_el_torito"; "plain"];
  mret match r.2 with
  | Some e => Some ("reading boot records of " +:+ iso +:+ ": " +:+ e +:+ nl +:+ r.1)
  | None =>
    match boot_modes (split_bytes newline (to_bytes r.1) []) with
    | inl e => Some e
    | inr modes =>
      let bios := bool_decide (to_bytes "BIOS" ∈ modes) in
      let uefi := bool_decide (to_bytes "UEFI" ∈ modes) in
      if bios && uefi then None
      else Some ("built image " +:+ iso +:+ " lacks a boot record (BIOS " +:+ btoa bios +:+ ", UEFI " +:+ btoa uefi +:+ "); refusing to serve an image that boots in only one firmware mode")
    end
  end.

(** One GRUB file: the arguments that put it back, none when it is not on the image. *)
Definition grub_file (work baseISO seedURL : string) (i : nat) (isoPath : string) : St W (result string (list string)) :=
  let local := join_dir work (itoa (Z.of_nat i) +:+ "-" +:+ of_bytes (List.last (split_bytes slash (to_bytes isoPath) []) [])) in
  x ← run ["xorriso"; "-osirrox"; "on"; "-indev"; baseISO; "-extract"; isoPath; local];
  match x with
  | Some e => mret (if (i =? 0)%nat then inl ("extracting " +:+ isoPath +:+ " from " +:+ baseISO +:+ ": " +:+ e) else inr [])
  | None =>
    c ← os_chmod local;
    match c with
    | Some e => mret (inl (oe_text e))
    | None =>
      a ← addBootArgs local seedURL;
      match a with
      | inl e => mret (inl e)
      | inr (found, _) =>
        if (i =? 0)%nat && negb found then mret (inl ("no kernel line found to make unattended in " +:+ isoPath))
        else if (i =? 0)%nat then
          l ← requireLiveServer local baseISO;
          mret match l with Some e => inl e | None => inr ["-map"; local; isoPath] end
        else mret (inr ["-map"; local; isoPath])
      end
    end
  end.
Fixpoint grub_files (work baseISO seedURL : string) (i : nat) (paths : list string) : St W (result string (list string)) :=
  match paths with
  | [] => mret (inr [])
  | p :: paths =>
    r ← grub_file work baseISO seedURL i p;
    match r with
    | inl e => mret (inl e)
    | inr a => rest ← grub_files work baseISO seedURL (S i) paths; mret match rest with inl e => inl e | inr b => inr (a ++ b)%list end
    end
  end.
(** Once there is a place to work in. *)
Definition remaster_in (work baseISO seedURL out : string) : St W (option string) :=
  g ← grub_files work baseISO seedURL 0 grubConfigs;
  match g with
  | inl e => mret (Some e)
  | inr maps =>
    _ ← os_remove out;
    x ← run (["xorriso"; "-indev"; baseISO; "-outdev"; out] ++ maps ++ ["-boot_image"; "any"; "replay"]);
    match x with
    | Some e => mret (Some ("writing " +:+ out +:+ ": " +:+ e))
    | None =>
      c ← checkBootRecords out;
      match c with Some e => _ ← os_remove out; mret (Some e) | None => mret None end
    end
  end.
Definition Remaster (baseISO : string) (s : Spec) (seedURL out : string) : St W (option string) :=
  match ValidateSpec s with
  | Some e => mret (Some e)
  | None =>
    if bool_decide (trim_space seedURL = "") then mret (Some "seedURL is empty: the image has nothing to fetch its autoinstall seed from")
    else if negb (seedURLShape seedURL) then mret (Some ("seedURL " +:+ quote seedURL +:+ ": only letters, digits and : / . _ - are allowed; it is written onto a GRUB kernel line"))
    else
      t ← os_mkdirtemp;
      match t with
      | inl e => mret (Some (oe_text e))
      | inr work => r ← remaster_in work baseISO seedURL out; _ ← os_removeall work; mret r
      end
  end.

(** ** server.go: the seed *)

Fixpoint write_files (dir : string) (files : list (string * string)) : St W (option string) :=
  match files with
  | [] => mret None
  | (name, content) :: files =>
    e ← os_write (join_dir dir name) content;
    match e with Some e => mret (Some ("writing " +:+ name +:+ ": " +:+ oe_text e)) | None => write_files dir files end
  end.
Definition writeSeed (dir token : string) (s : Spec) (beaconBase : string) : St W (option string) :=
  match RenderAutoinstall s beaconBase token with
  | inl e => mret (Some e)
  | inr doc =>
    m ← os_mkdirall (join_dir dir token);
    match m with
    | Some e => mret (Some ("preparing seed directory: " +:+ oe_text e))
    | None => files ← seed_order [("user-data", doc); ("meta-data", ""); ("vendor-data", "")]; write_files (join_dir dir token) files
    end
  end.
Definition removeSeed (dir token : string) : St W (option string) :=
  if negb (beaconToken token) then mret (Some ("token " +:+ quote token +:+ " is not a valid image token"))
  else
    e ← os_removeall (join_dir dir token);
    mret match e with Some e => if oe_notexist e then None else Some (oe_text e) | None => None end.
Definition discardBuild (dir token : string) : St W unit :=
  _ ← removeSeed dir token;
  _ ← os_remove (join_dir dir (token +:+ ".iso"));
  mret tt.
Definition newToken : St W (result string string) :=
  r ← rand16;
  mret match r with inl e => inl ("generating image token: " +:+ e) | inr b => inr (hex_encode b) end.

(** A build once its spec is accepted, as POST /build and LocalImageStore.Build have it:
    the error, or the token. *)
Definition build_image (dir : string) (base : BaseSource) (mediaURL beaconBase : string) (s : Spec) : St W (result string string) :=
  b ← FetchBase (join_dir dir "base") base;
  match b with
  | inl e => mret (inl ("fetching base image: " +:+ e))
  | inr baseISO =>
    t ← newToken;
    match t with
    | inl e => mret (inl e)
    | inr token =>
      m ← os_mkdirall dir;
      match m with
      | Some e => mret (inl ("preparing image directory: " +:+ oe_text e))
      | None =>
        w ← writeSeed dir token s beaconBase;
        match w with
        | Some e => _ ← discardBuild dir token; mret (inl e)
        | None =>
          r ← Remaster baseISO s (seedURL mediaURL token) (join_dir dir (token +:+ ".iso"));
          match r with
          | Some e => _ ← discardBuild dir token; mret (inl ("building image: " +:+ e))
          | None => mret (inr token)
          end
        end
      end
    end
  end.

(** ** server.go: the listeners *)

Inductive media_request := GetIso (name : string) | GetSeed (token file : string) | SendBeacon (token checkpoint : string).
Definition MediaHandler (dir : string) (r : media_request) : St (option BeaconStore * W) Response :=
  match r with
  | GetIso name => if negb (imageName name) then mret not_found else beside (serve_file (join_dir dir name))
  | GetSeed token file =>
    if negb (beaconToken token) || negb (bool_decide (file ∈ seedFiles)) then mret not_found else beside (serve_file (join_dir (join_dir dir token) file))
  | SendBeacon token checkpoint =>
    m ← memory;
    match m with
    | None => mret not_found
    | Some store =>
      if negb (beaconToken token) then mret not_found
      else
        e ← beside (os_stat (join_dir dir (token +:+ ".iso")));
        match e with
        | Some _ => mret not_found
        | None =>
          now ← beside clock;
          match Record_beacon token checkpoint now store with
          | None => mret (mkResponse 0 "")
          | Some (ok, store) => _ ← remember (fun _ => Some store); mret (if ok then mkResponse 204 "" else not_found)
          end
        end
    end
  end.

Inductive build_request := PostBuild (body : string) | DeleteIso (name : string) | GetBeacon (token : string).
Definition post_build (dir : string) (base : BaseSource) (mediaURL body : string) : St (option BeaconStore * W) Response :=
  match spec_decode body with
  | inl e => mret (http_error ("decoding request body: " +:+ e) 400)
  | inr s =>
    match ValidateSpec s with
    | Some e => mret (http_error e 400)
    | None =>
      m ← memory;
      r ← beside (build_image dir base mediaURL match m with Some _ => mediaURL | None => "" end s);
      mret match r with inl e => http_error e 500 | inr token => mkResponse 200 (token_encode token) end
    end
  end.
Definition delete_iso (dir name : string) : St (option BeaconStore * W) Response :=
  if negb (imageName name) then mret not_found
  else
    let token := trim_suffix name ".iso" in
    seedErr ← beside (os_stat (join_dir dir token));
    isoErr ← beside (os_remove (join_dir dir name));
    match isoErr with
    | Some (mkOsErr t false) => mret (http_error t 500)
    | _ =>
      s ← beside (removeSeed dir token);
      match s with
      | Some e => mret (http_error e 500)
      | None =>
        if bool_decide (is_Some isoErr) && match seedErr with Some e => oe_notexist e | None => false end then mret not_found
        else _ ← remember (option_map (Forget token)); mret (mkResponse 204 "")
      end
    end.
Definition BuildHandler (dir : string) (base : BaseSource) (mediaURL : string) (r : build_request) : St (option BeaconStore * W) Response :=
  match r with
  | PostBuild body => post_build dir base mediaURL body
  | DeleteIso name => delete_iso dir name
  | GetBeacon token =>
    m ← memory;
    mret match m with
    | None => not_found
    | Some store => match Get token store with None => not_found | Some st => mkResponse 200 (beacon_encode st) end
    end
  end.

(** ** server.go: the stores *)

Record HTTPImageStore := mkHTTPStore { hs_BuildURL : string; hs_MediaURL : string }.
Definition image_url (mediaURL token : string) : string := trim_suffix mediaURL "/" +:+ "/iso/" +:+ token +:+ ".iso".
Definition without_cluster (s : Spec) : Spec := mkSpec (sp_UID s) (sp_Hostname s) (sp_Network s) (sp_Layout s) (sp_SSHPublicKey s) (mkClusterTarget "" "" "" "") (sp_BootMode s).
Definition http_Build (h : HTTPImageStore) (s : Spec) : St W (result string (string * string)) :=
  match spec_encode (without_cluster s) with
  | inl e => mret (inl ("encoding spec: " +:+ e))
  | inr body =>
    let url := trim_suffix (hs_BuildURL h) "/" +:+ "/build" in
    match http_request "POST" url with
    | Some e => mret (inl e)
    | None =>
    r ← http_send "POST" url body;
    mret match r with
    | inl e => inl ("posting build request to " +:+ hs_BuildURL h +:+ ": " +:+ e)
    | inr resp =>
      if negb (re_Status resp =? 200) then inl ("build " +:+ hs_BuildURL h +:+ ": HTTP " +:+ itoa (re_Status resp) +:+ ": " +:+ trim_space (re_Body resp))
      else match token_decode (re_Body resp) with
      | inl e => inl ("decoding build response: " +:+ e)
      | inr token =>
        if negb (imageName (token +:+ ".iso")) then inl ("build " +:+ hs_BuildURL h +:+ ": response token " +:+ quote token +:+ " is not a valid image token")
        else inr (image_url (hs_MediaURL h) token, token)
      end
    end
    end
  end.
Definition http_Remove (h : HTTPImageStore) (token : string) : St W (option string) :=
  if negb (imageName (token +:+ ".iso")) then mret (Some ("token " +:+ quote token +:+ " is not a valid image token"))
  else
    let url := trim_suffix (hs_BuildURL h) "/" +:+ "/iso/" +:+ token +:+ ".iso" in
    match http_request "DELETE" url with
    | Some e => mret (Some e)
    | None =>
      r ← http_send "DELETE" url "";
      mret match r with
      | inl e => Some ("posting remove request to " +:+ hs_BuildURL h +:+ ": " +:+ e)
      | inr resp => if re_Status resp =? 204 then None else Some ("remove " +:+ token +:+ ": HTTP " +:+ itoa (re_Status resp) +:+ ": " +:+ trim_space (re_Body resp))
      end
    end.
(** None is a 404: nothing was heard. *)
Definition Progress (h : HTTPImageStore) (token : string) : St W (result string (option BeaconState)) :=
  if negb (beaconToken token) then mret (inl ("token " +:+ quote token +:+ " is not a valid image token"))
  else
    let url := trim_suffix (hs_BuildURL h) "/" +:+ "/beacon/" +:+ token in
    match http_request "GET" url with
    | Some e => mret (inl e)
    | None =>
    r ← http_send "GET" url "";
    mret match r with
    | inl e => inl ("reading progress from " +:+ hs_BuildURL h +:+ ": " +:+ e)
    | inr resp =>
      if re_Status resp =? 404 then inr None
      else if re_Status resp =? 200 then match beacon_decode (re_Body resp) with inl e => inl ("decoding progress response: " +:+ e) | inr st => inr (Some st) end
      else inl ("progress " +:+ hs_BuildURL h +:+ ": HTTP " +:+ itoa (re_Status resp) +:+ ": " +:+ trim_space (re_Body resp))
    end
    end.

Record LocalImageStore := mkLocalStore { ls_Dir : string; ls_Base : BaseSource; ls_MediaURL : string }.
Definition local_Build (l : LocalImageStore) (s : Spec) : St W (result string (string * string)) :=
  match ValidateSpec s with
  | Some e => mret (inl e)
  | None =>
    r ← build_image (ls_Dir l) (ls_Base l) (ls_MediaURL l) "" s;
    mret match r with inl e => inl e | inr token => inr (image_url (ls_MediaURL l) token, token) end
  end.
Definition local_Remove (l : LocalImageStore) (token : string) : St W (option string) :=
  if negb (imageName (token +:+ ".iso")) then mret (Some ("token " +:+ quote token +:+ " is not a valid image token"))
  else
    e ← os_remove (join_dir (ls_Dir l) (token +:+ ".iso"));
    match e with
    | Some (mkOsErr t false) => mret (Some t)
    | _ => removeSeed (ls_Dir l) token
    end.
End Images.

(** * Theorems *)

(** ** The kernel lines *)

Lemma span_app p l : (span p l).1 ++ (span p l).2 = l.
Proof. induction l as [|c l IH]; [done|]. cbn. destruct (p c); [|done]. destruct (span p l) as [a b]. cbn in *. by rewrite IH. Qed.
Lemma linux_app l m r : linux_at l = Some (m, r) -> l = (m ++ r)%list /\ m <> [].
Proof.
  unfold linux_at. pose proof (span_app is_ws l) as H. destruct (span is_ws l) as [ws x]. cbn in H. destruct (strip_prefix _ x) as [y|] eqn:E; [|done]. apply strip_prefix_split in E.
  pose proof (span_app is_ws y) as Hy. destruct (span is_ws y) as [ws1 z]. cbn in Hy. case_bool_decide; [done|]. intros [= <- <-]. subst. split; [by rewrite <- ?app_assoc|]. by destruct ws.
Qed.
(** A pattern takes what it matches off the front, and something. *)
Definition takes (at_line : bytes -> option (bytes * bytes)) : Prop := forall l m r, at_line l = Some (m, r) -> l = (m ++ r)%list /\ m <> [].
Lemma kernel_takes : takes kernel_at.
Proof.
  intros l m r. unfold kernel_at. destruct (linux_at l) as [[m0 r0]|] eqn:E; [|done]. apply linux_app in E as [-> Hm]. pose proof (span_app (fun c => negb (Ascii.eqb c newline)) r0) as H.
  destruct (span _ r0) as [rest x]. cbn in H. intros [= <- <-]. subst. split; [by rewrite <- ?app_assoc|]. by destruct m0.
Qed.
Lemma timeout_takes : takes timeout_at.
Proof.
  intros l m r. unfold timeout_at. destruct (strip_prefix _ l) as [y|] eqn:E; [|done]. apply strip_prefix_split in E. pose proof (span_app digit y) as Hy. destruct (span digit y) as [ds z]. cbn in Hy.
  case_bool_decide; [done|]. destruct z as [|c z]; [|destruct (Ascii.eqb c newline); [|done]]; intros [= <- <-]; subst; (split; [by rewrite <- ?app_assoc|done]).
Qed.
Lemma pieces_text at_line : takes at_line -> forall fuel start l, (length l <= fuel)%nat -> flat_map snd (pieces at_line fuel start l) = l.
Proof.
  intros Ht. induction fuel as [|fuel IH]; intros start l Hl; [by destruct l; [|cbn in Hl; lia]|]. destruct l as [|c l]; [done|]. cbn [pieces].
  destruct (if start then at_line (c :: l) else None) as [[m r]|] eqn:E.
  - destruct start; [|done]. apply Ht in E as [E Hm]. cbn [flat_map snd]. rewrite E. f_equal. apply IH. apply (f_equal length) in E. rewrite length_app in E. destruct m; [done|]. cbn in *. lia.
  - cbn [flat_map snd app]. f_equal. apply IH. cbn in Hl. lia.
Qed.

Lemma dashes_found l n k : dashes_after k l = Some n -> exists i, n = (k + i)%nat /\ (i < length l)%nat /\ exists c, drop i l = c :: drop (S i) l /\ is_ws c = true /\ dashes_here (drop (S i) l) = true.
Proof.
  revert k. induction l as [|c l IH]; intros k H; [done|]. cbn [dashes_after] in H. destruct (is_ws c && dashes_here l) eqn:E.
  - injection H as <-. apply andb_prop in E as [Ew Ed]. exists 0%nat. split; [lia|]. split; [cbn; lia|]. by exists c.
  - destruct (IH _ H) as (i & -> & Hi & x & Hx). exists (S i). split; [lia|]. split; [cbn; lia|]. by exists x.
Qed.

(** The unattended arguments of a kernel line come before the separator: what follows it,
    which the installed system boots with ever after, is as it was. *)
Theorem args_before_separator (line : bytes) (url : string) :
  match tripleDash line with
  | Some n => exists sep tail, drop n line = (sep ++ to_bytes "---" ++ tail)%list /\ Forall (fun c => is_ws c = true) sep /\ (length sep <= 1)%nat /\
      withBootArgs line url = (take n line ++ to_bytes (" " +:+ bootArgs url) ++ sep ++ to_bytes "---" ++ tail)%list
  | None => withBootArgs line url = (line ++ to_bytes (" " +:+ bootArgs url))%list
  end.
Proof.
  assert (forall l, dashes_here l = true -> exists tail, l = (to_bytes "---" ++ tail)%list) as Hd.
  { intros l. unfold dashes_here. destruct (strip_prefix _ l) as [y|] eqn:E; [|done]. apply strip_prefix_split in E. intros _. by exists y. }
  unfold withBootArgs. destruct (tripleDash line) as [n|] eqn:E; [|done]. unfold tripleDash in E. destruct (dashes_here line) eqn:Eh.
  - injection E as <-. destruct (Hd _ Eh) as (tail & Ht). exists [], tail. rewrite drop_0. split; [done|]. split; [constructor|]. split; [cbn; lia|]. by rewrite <- Ht.
  - apply dashes_found in E as (i & -> & _ & c & Hc & Hw & Hh). destruct (Hd _ Hh) as (tail & Ht). exists [c], tail. cbn [Nat.add]. rewrite Hc, Ht. split; [done|]. split; [by constructor|]. split; [cbn; lia|done].
Qed.

(** Rewriting a GRUB file changes kernel lines that were not rewritten and the time of the
    menu, and nothing else of the text. *)
Lemma rewrite_touches (at_line : bytes -> option (bytes * bytes)) (f : bytes -> bytes) (l : bytes) : takes at_line -> (forall m, (true, m) ∈ pieces at_line (length l) true l -> f m = m) -> replace_lines at_line f l = l.
Proof.
  intros Ht Hf. unfold replace_lines. transitivity (flat_map snd (pieces at_line (length l) true l)); [|apply pieces_text; [done|lia]]. revert Hf. generalize (pieces at_line (length l) true l). intros ps Hf.
  induction ps as [|[[] m] ps IH]; [done| |]; cbn; (rewrite IH; [|intros; apply Hf; by right]); [|done]. rewrite Hf; [done|by left].
Qed.
Lemma rewritten_kept url (l : bytes) : (forall m, (true, m) ∈ pieces kernel_at (length l) true l -> contains_sub (to_bytes alreadyRewritten) m = true) -> replace_lines kernel_at (unattended url) l = l.
Proof. intros H. apply rewrite_touches; [apply kernel_takes|]. intros m Hm. unfold unattended. by rewrite (H m Hm). Qed.

(** ** What an unattended GRUB file is *)

(** A kernel line at the start of [l], as [(?m)^\s*linux\s+.*$] has it: [m] is the line, and
    [r] what follows. *)
Definition starts_blank (l : bytes) : Prop := exists c t, l = c :: t /\ is_ws c = true.
Definition kernel_line (l m r : bytes) : Prop :=
  exists ws ws1 rest, m = (ws ++ to_bytes "linux" ++ ws1 ++ rest)%list /\ l = (m ++ r)%list /\ Forall (fun c => is_ws c = true) ws /\
    Forall (fun c => is_ws c = true) ws1 /\ ws1 <> [] /\ ~ starts_blank (rest ++ r) /\ newline ∉ rest /\ (r = [] \/ exists t, r = newline :: t).
(** A line that sets the time of the menu, [(?m)^set timeout=\d+$]. *)
Definition timeout_line (l m r : bytes) : Prop :=
  exists ds, m = (to_bytes "set timeout=" ++ ds)%list /\ l = (m ++ r)%list /\ ds <> [] /\ Forall (fun c => digit c = true) ds /\ (r = [] \/ exists t, r = newline :: t).
(** The text cut at such lines: [start] says that it starts at the start of a line. *)
Inductive cut_lines (line : bytes -> bytes -> bytes -> Prop) : bool -> bytes -> list (bool * bytes) -> Prop :=
| cut_end start : cut_lines line start [] []
| cut_line l m r ps : line l m r -> cut_lines line false r ps -> cut_lines line true l ((true, m) :: ps)
| cut_char (start : bool) c t ps : (start = true -> forall m r, ~ line (c :: t) m r) -> cut_lines line (Ascii.eqb c newline) t ps -> cut_lines line start (c :: t) ((false, [c]) :: ps).
(** [new] is [old] with each such line as [R] has it and all else as it was. *)
Definition lines_as (line : bytes -> bytes -> bytes -> Prop) (R : bytes -> bytes -> Prop) (old new : bytes) : Prop :=
  exists ps qs, cut_lines line true old ps /\ Forall2 (fun (p : bool * bytes) q => if p.1 then R p.2 q else q = p.2) ps qs /\ new = concat qs.

(** The separator at [i]: three dashes on their own, with the blank before them. *)
Definition dashes (l : bytes) : Prop := exists t, l = (to_bytes "---" ++ t)%list /\ (t = [] \/ starts_blank t).
Definition separator_at (l : bytes) (i : nat) : Prop := (i = 0%nat /\ dashes l) \/ exists c t, drop i l = c :: t /\ is_ws c = true /\ dashes t.
(** A kernel line is unattended: it says so already, or it was given the arguments, before
    its first separator or else at its end. *)
Definition armed (url : string) (old new : bytes) : Prop :=
  let says := exists a b, old = (a ++ to_bytes "frame=1" ++ b)%list in
  (says /\ new = old) \/
  (~ says /\ exists n, new = (take n old ++ to_bytes (" frame=1 autoinstall ip=dhcp noprompt ds=nocloud\;s=" +:+ url) ++ drop n old)%list /\
     (forall i, (i < n)%nat -> ~ separator_at old i) /\ (separator_at old n \/ (n = length old /\ forall i, ~ separator_at old i))).
(** All its kernel lines are, it has one, and its menu waits a second. *)
Definition unattended_text (url : string) (old new : bytes) : Prop :=
  (exists ps m, cut_lines kernel_line true old ps /\ (true, m) ∈ ps) /\
  exists mid, lines_as kernel_line (armed url) old mid /\ lines_as timeout_line (fun _ q => q = to_bytes "set timeout=1") mid new.

Lemma span_iff p l a b : span p l = (a, b) <-> l = (a ++ b)%list /\ Forall (fun c => p c = true) a /\ match b with [] => True | c :: _ => p c = false end.
Proof.
  revert a b. induction l as [|c l IH]; intros a b; cbn [span].
  - split; [by intros [= <- <-]|]. intros (H & _ & _). symmetry in H. by apply app_eq_nil in H as [-> ->].
  - destruct (p c) eqn:Ec.
    + destruct (span p l) as [x y] eqn:E. apply IH in E as (-> & Hx & Hy) || (pose proof (proj1 (IH x y) eq_refl) as (-> & Hx & Hy)). split; [intros [= <- <-]; split; [done|]; split; [by constructor|done]|].
      intros (H & Ha & Hb). destruct a as [|c' a]; cbn in H; [subst b; congruence|]. injection H as <- H. apply Forall_cons in Ha as [_ Ha].
      assert ((x, y) = (a, b)) as [= -> ->]; [|done]. apply IH. split; [done|]. by split.
    + split; [intros [= <- <-]; by split|]. intros (H & Ha & Hb). destruct a as [|c' a]; cbn in H; [by subst b|]. injection H as <- H. apply Forall_cons in Ha as [? _]. congruence.
Qed.
Lemma not_blank l : ~ starts_blank l <-> match l with [] => True | c :: _ => is_ws c = false end.
Proof.
  unfold starts_blank. destruct l as [|c l]; [split; [done|]; by intros _ (c & t & [=] & _)|]. split; [|intros H (c' & t & [= <- <-] & ?); congruence].
  intros H. destruct (is_ws c) eqn:E; [|done]. destruct H. by exists c, l.
Qed.
Lemma line_end l : match l with [] => True | c :: _ => negb (Ascii.eqb c newline) = false end <-> l = [] \/ exists t, l = newline :: t.
Proof.
  destruct l as [|c l]; [split; [by left|done]|]. rewrite negb_false_iff, Ascii.eqb_eq. split; [intros ->; right; by exists l|]. by intros [?|(t & [= -> ->])].
Qed.
Lemma no_newline l : Forall (fun c => negb (Ascii.eqb c newline) = true) l <-> newline ∉ l.
Proof.
  rewrite Forall_forall. split.
  - intros H Hn. specialize (H _ Hn). by rewrite Ascii.eqb_refl in H.
  - intros H c Hc. apply negb_true_iff. destruct (Ascii.eqb_spec c newline) as [->|]; [done|done].
Qed.

Lemma kernel_at_iff l m r : kernel_at l = Some (m, r) <-> kernel_line l m r.
Proof.
  unfold kernel_at, linux_at. split.
  - destruct (span is_ws l) as [ws x] eqn:E1. apply span_iff in E1 as (-> & Hws & _). destruct (strip_prefix _ x) as [y|] eqn:Es; [|done]. apply strip_prefix_spec in Es as ->.
    destruct (span is_ws y) as [ws1 z] eqn:E2. apply span_iff in E2 as (-> & Hw1 & Hz). case_bool_decide as Hne; [done|].
    destruct (span _ z) as [rest x] eqn:E3. apply span_iff in E3 as (-> & Hr & Hx). intros [= <- <-]. exists ws, ws1, rest. split; [by rewrite <- ?app_assoc|]. split; [by rewrite <- ?app_assoc|].
    do 3 (split; [done|]). split; [by apply not_blank|]. split; [by apply no_newline|by apply line_end].
  - intros (ws & ws1 & rest & -> & -> & Hws & Hw1 & Hne & Hb & Hn & He). rewrite <- ?app_assoc.
    rewrite (proj2 (span_iff is_ws _ ws (to_bytes "linux" ++ ws1 ++ rest ++ r)) (conj eq_refl (conj Hws eq_refl))).
    rewrite (proj2 (strip_prefix_spec (to_bytes "linux") _ (ws1 ++ rest ++ r)) eq_refl).
    rewrite (proj2 (span_iff is_ws _ ws1 (rest ++ r)) (conj eq_refl (conj Hw1 (proj1 (not_blank _) Hb)))). rewrite bool_decide_false by done.
    rewrite (proj2 (span_iff _ _ rest r) (conj eq_refl (conj (proj2 (no_newline _) Hn) (proj2 (line_end _) He)))). by rewrite <- ?app_assoc.
Qed.
Lemma timeout_at_iff l m r : timeout_at l = Some (m, r) <-> timeout_line l m r.
Proof.
  unfold timeout_at. split.
  - destruct (strip_prefix _ l) as [y|] eqn:Es; [|done]. apply strip_prefix_spec in Es as ->. destruct (span digit y) as [ds x] eqn:E. apply span_iff in E as (-> & Hd & Hx). case_bool_decide as Hne; [done|].
    destruct x as [|c x]; [|destruct (Ascii.eqb_spec c newline) as [->|]; [|done]]; intros [= <- <-]; exists ds; (split; [done|]); (split; [by rewrite <- ?app_assoc|]); do 2 (split; [done|]); [by left|right; by exists x].
  - intros (ds & -> & -> & Hne & Hd & He). rewrite <- app_assoc. rewrite (proj2 (strip_prefix_spec (to_bytes "set timeout=") _ (ds ++ r)) eq_refl).
    rewrite (proj2 (span_iff digit _ ds r)); [|split; [done|split; [done|by destruct He as [->|(t & ->)]]]]. rewrite bool_decide_false by done. destruct He as [->|(t & ->)]; [done|]. by rewrite Ascii.eqb_refl.
Qed.
Lemma pieces_cut at_line line : takes at_line -> (forall l m r, at_line l = Some (m, r) <-> line l m r) ->
  forall fuel start l, (length l <= fuel)%nat -> cut_lines line start l (pieces at_line fuel start l).
Proof.
  intros Ht Hl. induction fuel as [|fuel IH]; intros start l Hf; [destruct l; [constructor|cbn in Hf; lia]|]. destruct l as [|c l]; [constructor|]. cbn [pieces]. destruct start.
  - destruct (at_line (c :: l)) as [[m r]|] eqn:E.
    + pose proof (Ht _ _ _ E) as [Ea Hm]. eapply cut_line; [by apply Hl|]. apply IH. apply (f_equal length) in Ea. rewrite length_app in Ea. destruct m; [done|]. cbn in *. lia.
    + constructor; [|apply IH; cbn in Hf; lia]. intros _ m r Hx%Hl. congruence.
  - constructor; [done|apply IH; cbn in Hf; lia].
Qed.
Lemma replaced at_line line f (R : bytes -> bytes -> Prop) l : takes at_line -> (forall l m r, at_line l = Some (m, r) <-> line l m r) -> (forall m, R m (f m)) -> lines_as line R l (replace_lines at_line f l).
Proof.
  intros Ht Hl Hf. exists (pieces at_line (length l) true l), (map (fun p : bool * bytes => if p.1 then f p.2 else p.2) (pieces at_line (length l) true l)).
  split; [by apply pieces_cut|]. split; [|unfold replace_lines; by rewrite flat_map_concat_map]. induction (pieces at_line (length l) true l) as [|[[] m] ps IH]; constructor; try done. apply Hf.
Qed.

Lemma dashes_iff l : dashes_here l = true <-> dashes l.
Proof.
  unfold dashes_here, dashes. split.
  - destruct (strip_prefix _ l) as [y|] eqn:E; [|done]. apply strip_prefix_spec in E as ->. intros H. exists y. split; [done|]. destruct y as [|c y]; [by left|right; by exists c, y].
  - intros (t & -> & Ht). rewrite (proj2 (strip_prefix_spec (to_bytes "---") _ t) eq_refl). by destruct Ht as [->|(c & y & -> & ?)].
Qed.
Lemma dashes_first l n k : dashes_after k l = Some n -> forall i, (k + i < n)%nat -> ~ exists c t, drop i l = c :: t /\ is_ws c = true /\ dashes t.
Proof.
  revert k. induction l as [|c l IH]; intros k H; [done|]. cbn [dashes_after] in H. destruct (is_ws c && dashes_here l) eqn:E; [injection H as <-; intros i ?; lia|].
  intros [|i] Hi (x & t & Hd & Hx & Ht); cbn in Hd; [injection Hd as -> ->; apply dashes_iff in Ht; by rewrite Hx, Ht in E|]. apply (IH _ H i); [lia|by exists x, t].
Qed.
Lemma dashes_none l k : dashes_after k l = None -> forall i, ~ exists c t, drop i l = c :: t /\ is_ws c = true /\ dashes t.
Proof.
  revert k. induction l as [|c l IH]; intros k H i (x & t & Hd & Hx & Ht); [by rewrite drop_nil in Hd|]. cbn [dashes_after] in H. destruct (is_ws c && dashes_here l) eqn:E; [done|].
  destruct i as [|i]; cbn in Hd; [injection Hd as -> ->; apply dashes_iff in Ht; by rewrite Hx, Ht in E|]. apply (IH _ H i). by exists x, t.
Qed.
Lemma separator_first l : match tripleDash l with
  | Some n => separator_at l n /\ forall i, (i < n)%nat -> ~ separator_at l i
  | None => forall i, ~ separator_at l i
  end.
Proof.
  unfold tripleDash. destruct (dashes_here l) eqn:Eh; [split; [left; split; [done|by apply dashes_iff]|lia]|].
  assert (~ dashes l) as Hd by (rewrite <- dashes_iff; by rewrite Eh). destruct (dashes_after 0 l) as [n|] eqn:E.
  - pose proof (dashes_first _ _ _ E) as Hf. apply dashes_found in E as (i & -> & _ & c & Hc & Hw & Hh). split; [right; exists c, (drop (S i) l); split; [done|]; split; [done|by apply dashes_iff]|].
    intros j Hj [[_ ?]|Hs]; [done|]. by apply (Hf j).
  - intros i [[_ ?]|Hs]; [done|]. by eapply dashes_none.
Qed.

Lemma contains_iff sub l : contains_sub sub l = true <-> exists a b, l = (a ++ sub ++ b)%list.
Proof.
  induction l as [|c l IH]; cbn [contains_sub]; rewrite orb_true_iff, bool_decide_eq_true.
  - split; [intros [[r H%strip_prefix_spec]|?]; [by exists [], r|done]|]. intros (a & b & H). left. exists []. apply strip_prefix_spec. symmetry in H. by apply app_eq_nil in H as [-> [-> ->]%app_eq_nil].
  - rewrite IH. split.
    + intros [[r H%strip_prefix_spec]|(a & b & ->)]; [by exists [], r|by exists (c :: a), b].
    + intros (a & b & H). destruct a as [|c' a]; [left; exists b; by apply strip_prefix_spec|right]. injection H as <- ->. by exists a, b.
Qed.
Lemma unattended_armed url line : armed url line (unattended url line).
Proof.
  unfold armed, unattended. cbv zeta. destruct (contains_sub (to_bytes alreadyRewritten) line) eqn:E; [left; split; [by apply contains_iff|done]|right]. split; [intros H%contains_iff; unfold alreadyRewritten in E; congruence|].
  unfold withBootArgs. cbv zeta. pose proof (separator_first line) as H. destruct (tripleDash line) as [n|].
  - destruct H as [H1 H2]. exists n. split; [done|]. split; [done|by left].
  - exists (length line). rewrite take_ge, drop_ge, app_nil_r by lia. split; [done|]. split; [intros i _; apply H|by right].
Qed.
Lemma rewrite_unattended url b : has_line kernel_at b = true -> unattended_text url b (rewrite_grub url b).
Proof.
  intros Hh. split.
  - exists (pieces kernel_at (length b) true b). unfold has_line in Hh. apply existsb_exists in Hh as ([[] m] & Hm & He); [|done]. exists m. split; [|by apply list_elem_of_In].
    apply pieces_cut; [apply kernel_takes|apply kernel_at_iff|lia].
  - exists (replace_lines kernel_at (unattended url) b). split; apply replaced; [apply kernel_takes|apply kernel_at_iff|apply unattended_armed|apply timeout_takes|apply timeout_at_iff|done].
Qed.

(** ** Tokens *)

Lemma trim_suffix_app a b : trim_suffix (a +:+ b) b = a.
Proof.
  unfold trim_suffix. rewrite to_bytes_app, rev_app_distr.
  assert (forall p l, strip_prefix p (p ++ l) = Some l) as -> by (intros p l; induction p as [|c p IH]; [done|]; cbn; by rewrite Ascii.eqb_refl). by rewrite rev_involutive, of_to_bytes.
Qed.
Lemma image_token t : imageName (t +:+ ".iso") = beaconToken t.
Proof.
  unfold imageName. rewrite trim_suffix_app, bool_decide_true; [done|]. intros H. apply (f_equal (fun s => length (to_bytes s))) in H. rewrite to_bytes_app, length_app in H. cbn in H. lia.
Qed.
Lemma image_name_token n : imageName n = true -> exists t, n = t +:+ ".iso" /\ beaconToken t = true.
Proof.
  unfold imageName. intros [H Ht]%andb_prop. apply bool_decide_eq_true in H. exists (trim_suffix n ".iso"). split; [|done]. unfold trim_suffix in *.
  destruct (strip_prefix _ _) as [l|] eqn:E; [|done]. apply strip_prefix_split in E. apply (f_equal (@rev ascii)) in E. rewrite rev_involutive, rev_app_distr, rev_involutive in E.
  rewrite <- (of_to_bytes n), E. by rewrite of_bytes_app.
Qed.

Lemma hex_digit_lower n : lower_hex (hex_digit n) = true.
Proof.
  unfold hex_digit. destruct (nth_in_or_default (Z.to_nat n) (to_bytes "0123456789abcdef") "0"%char) as [H| ->]; [|done].
  assert (forallb lower_hex (to_bytes "0123456789abcdef") = true) as Hall by done. rewrite forallb_forall in Hall. by apply Hall.
Qed.
Lemma hex_token l : length l = 16%nat -> beaconToken (hex_encode l) = true.
Proof.
  intros Hl. unfold beaconToken, hex_encode. rewrite to_of_bytes.
  assert (forall k : list Z, length (flat_map hex2 k) = (2 * length k)%nat /\ forallb lower_hex (flat_map hex2 k) = true) as H.
  { induction k as [|z k [IH1 IH2]]; [done|]. cbn [flat_map]. rewrite length_app, IH1, forallb_app, IH2. split; [cbn; lia|]. unfold hex2. cbn [forallb]. by rewrite !hex_digit_lower. }
  destruct (H l) as [-> ->]. by rewrite Hl.
Qed.

(** ** The calls *)

Inductive icall : Type :=
| IStat (p : string) (e : option oserr)
| IRemove (p : string)
| IRemoveAll (p : string)
| IMkdir (p : string)
| ITemp (r : result oserr string)
| IChmod (p : string)
| IWrite (p content : string) (e : option oserr)
| IRead (p : string) (r : result oserr string)
| ICreate (p : string)
| IFill (p content : string)
| IServe (p : string)
| IExec (args : list string) (r : string * option string)
| IFetch (url : string)
| ISend (method url body : string).

(** crypto/rand gives the octets that were asked for; a walk over a map visits each entry once. *)
Class TracedImages (W : Type) {IM : ImageWorld W} := {
  icalls : W -> list icall;
  i_stat w p : icalls (os_stat p w).2 = (icalls w ++ [IStat p (os_stat p w).1])%list;
  i_remove w p : icalls (os_remove p w).2 = (icalls w ++ [IRemove p])%list;
  i_removeall w p : icalls (os_removeall p w).2 = (icalls w ++ [IRemoveAll p])%list;
  i_mkdir w p : icalls (os_mkdirall p w).2 = (icalls w ++ [IMkdir p])%list;
  i_temp w : icalls (os_mkdirtemp w).2 = (icalls w ++ [ITemp (os_mkdirtemp w).1])%list;
  i_chmod w p : icalls (os_chmod p w).2 = (icalls w ++ [IChmod p])%list;
  i_write w p c : icalls (os_write p c w).2 = (icalls w ++ [IWrite p c (os_write p c w).1])%list;
  i_read w p : icalls (os_read p w).2 = (icalls w ++ [IRead p (os_read p w).1])%list;
  i_create w p : icalls (os_create p w).2 = (icalls w ++ [ICreate p])%list;
  i_fill w p c : icalls (os_fill p c w).2 = (icalls w ++ [IFill p c])%list;
  i_serve w p : icalls (serve_file p w).2 = (icalls w ++ [IServe p])%list;
  i_exec w a : icalls (exec a w).2 = (icalls w ++ [IExec a (exec a w).1])%list;
  i_fetch w u : icalls (http_fetch u w).2 = (icalls w ++ [IFetch u])%list;
  i_send w m u b : icalls (http_send m u b w).2 = (icalls w ++ [ISend m u b])%list;
  i_rand w : icalls (rand16 w).2 = icalls w;
  i_clock w : icalls (clock w).2 = icalls w;
  i_order w l : icalls (seed_order l w).2 = icalls w;
  rand_16 w b : (rand16 w).1 = inr b -> length b = 16%nat;
  order_walks w l : (seed_order l w).1 ≡ₚ l
}.

Section Calls.
Context {W : Type} {IM : ImageWorld W} {TI : TracedImages W} {PL : ProvisionLibs} {YW : YamlWriter}.

Ltac icall H := first [eapply (emits_call0 icalls); [intros; apply H|intros ?]|eapply (emits_call icalls); [intros; apply H|intros ?]].

(** What a call may change is where [P] allows it. *)
Definition within (P : string -> Prop) (c : icall) : Prop :=
  match c with
  | IRemove p | IRemoveAll p | IMkdir p | IChmod p | IWrite p _ _ | ICreate p | IFill p _ => P p
  | IExec args _ =>
    (exists base iso_path p, args = ["xorriso"; "-osirrox"; "on"; "-indev"; base; "-extract"; iso_path; p] /\ P p) \/
    (exists base out maps, args = (["xorriso"; "-indev"; base; "-outdev"; out] ++ maps ++ ["-boot_image"; "any"; "replay"])%list /\ P out) \/
    exists iso, args = ["xorriso"; "-indev"; iso; "-report_el_torito"; "plain"]
  | _ => True
  end.
Lemma within_mono (P Q : string -> Prop) t : (forall p, P p -> Q p) -> Forall (within P) t -> Forall (within Q) t.
Proof. intros H Ht. eapply Forall_impl; [exact Ht|]. intros c. destruct c; cbn; naive_solver. Qed.

(** A file of the base cache, and its directory. *)
Definition base_place (dir : string) (src : BaseSource) (p : string) : Prop := p = dir \/ p = join_dir dir (url_base (ba_URL src)) /\ validPathComponent (url_base (ba_URL src)) = true.
Definition no_image (c : icall) : Prop := match c with IWrite _ _ _ | IExec _ _ => False | _ => True end.

(** The base image of a source: its file of the cache, with the source's sum when it was
    read, or as it was filled. *)
Definition sum_of (content : string) : string := hex_encode (sum256 (string_bytes content)).
Definition base_checked (dir : string) (src : BaseSource) (path : string) (t : list icall) : Prop :=
  path = join_dir dir (url_base (ba_URL src)) /\ exists content, sum_of content = ba_SHA256 src /\ (IRead path (inr content) ∈ t \/ IFill path content ∈ t).

Lemma download_calls dir src : validPathComponent (url_base (ba_URL src)) = true ->
  emits icalls (download src (join_dir dir (url_base (ba_URL src)))) (fun r t => Forall (within (base_place dir src)) t /\ Forall no_image t /\ forall path, r = inr path -> base_checked dir src path t).
Proof.
  intros Hv. assert (base_place dir src (join_dir dir (url_base (ba_URL src)))) as Hp by (by right).
  assert (forall t e, Forall (within (base_place dir src)) t -> Forall no_image t ->
    Forall (within (base_place dir src)) t /\ Forall no_image t /\ forall path, inl e = inr path :> result string string -> base_checked dir src path t) as Hno by done.
  unfold download. icall i_fetch. destruct a as [e|[[status body] read_error]]; [apply emits_ret, Hno; by repeat constructor|]. destruct (negb _); [apply emits_ret, Hno; by repeat constructor|].
  icall i_create. destruct a; [apply emits_ret, Hno; by repeat constructor|]. icall i_fill. destruct (firstErr _ _).
  - icall i_remove. apply emits_ret, Hno; by repeat constructor.
  - case_bool_decide as Hs; [|icall i_remove; apply emits_ret, Hno; by repeat constructor]. apply emits_ret. split; [by repeat constructor|]. split; [by repeat constructor|].
    intros path [= <-]. split; [done|]. eexists. split; [exact Hs|]. right. do 2 right. by left.
Qed.
Lemma fetch_calls dir src : emits icalls (FetchBase dir src) (fun r t => Forall (within (base_place dir src)) t /\ Forall no_image t /\ forall path, r = inr path -> base_checked dir src path t).
Proof.
  unfold FetchBase. destruct (validPathComponent _) eqn:Hv; [|apply emits_ret; by repeat split]. cbn [negb].
  assert (emits icalls (os_mkdirall dir ≫= fun m => match m with Some e => mret (inl (oe_text e)) | None => download src (join_dir dir (url_base (ba_URL src))) end)
    (fun r t => Forall (within (base_place dir src)) t /\ Forall no_image t /\ forall path, r = inr path -> base_checked dir src path t)) as Hd.
  { icall i_mkdir. destruct a; [apply emits_ret; split; [constructor; [by left|constructor]|]; split; [by repeat constructor|done]|]. eapply emits_mono; [by apply download_calls|]. intros ? ? (? & ? & Hc). split; [constructor; [by left|done]|]. split; [by constructor|].
    intros path Hr. destruct (Hc path Hr) as (Hp & content & Hs & Hin). split; [done|]. exists content. split; [done|]. set_solver. }
  eapply (emits_bind _ _ _ (fun h t => exists r, t = [IRead (join_dir dir (url_base (ba_URL src))) r] /\ forall got, h = inr got -> exists content, r = inr content /\ got = sum_of content)).
  { unfold fileSHA256. icall i_read. apply emits_ret. exists a. split; [done|]. destruct a as [e|content]; [done|]. intros got [= <-]. by exists content. }
  intros have t (r & -> & Hgot).
  assert (emits icalls (os_mkdirall dir ≫= fun m => match m with Some e => mret (inl (oe_text e)) | None => download src (join_dir dir (url_base (ba_URL src))) end)
    (fun r' t => Forall (within (base_place dir src)) ([IRead (join_dir dir (url_base (ba_URL src))) r] ++ t) /\ Forall no_image ([IRead (join_dir dir (url_base (ba_URL src))) r] ++ t) /\
      forall path, r' = inr path -> base_checked dir src path ([IRead (join_dir dir (url_base (ba_URL src))) r] ++ t))) as Hd'.
  { eapply emits_mono; [exact Hd|]. intros ? ? (? & ? & Hc). split; [by constructor|]. split; [by constructor|]. intros path Hr. destruct (Hc path Hr) as (Hp & content & Hs & Hin). split; [done|]. exists content. split; [done|]. set_solver. }
  destruct have as [e|got]; [exact Hd'|]. case_bool_decide as Hs; [|exact Hd']. apply emits_ret. split; [by constructor|]. split; [by constructor|]. intros path [= <-]. split; [done|].
  destruct (Hgot got eq_refl) as (content & -> & ->). exists content. split; [done|]. left. by left.
Qed.

(** The work directory and the files in it. *)
Definition in_work (work p : string) : Prop := p = work \/ exists name, p = join_dir work name.
(** The file that was read is unattended as it is, or was written back so. *)
Definition unattended_file (url local : string) (t : list icall) : Prop :=
  exists b new, IRead local (inr b) ∈ t /\ unattended_text url (to_bytes b) new /\ (of_bytes new = b \/ IWrite local (of_bytes new) None ∈ t).
Definition grub_local (work : string) (i : nat) (iso_path : string) : string := join_dir work (itoa (Z.of_nat i) +:+ "-" +:+ of_bytes (List.last (split_bytes slash (to_bytes iso_path) []) [])).

Lemma add_args_calls work url local : in_work work local -> emits icalls (addBootArgs local url) (fun r t => Forall (within (in_work work)) t /\ forall c, r = inr (true, c) -> unattended_file url local t).
Proof.
  intros Hw. unfold addBootArgs. icall i_read. destruct a as [e|b]; [apply emits_ret; by repeat constructor|]. destruct (has_line _ _) eqn:Eh; [|apply emits_ret; by repeat constructor]. cbn [negb].
  case_bool_decide as Eo; [apply emits_ret; split; [by repeat constructor|]; intros _ _; exists b, (rewrite_grub url (to_bytes b)); split; [by left|]; split; [by apply rewrite_unattended|by left]|].
  icall i_write. destruct a as [e|]; apply emits_ret; (split; [by constructor; [|constructor; [exact Hw|]]|]); intros c H; [done|]. exists b, (rewrite_grub url (to_bytes b)). split; [by left|]. split; [by apply rewrite_unattended|]. right. right. by left.
Qed.
Lemma grub_file_calls work base url i iso_path : emits icalls (grub_file work base url i iso_path) (fun r t => Forall (within (in_work work)) t /\
  forall maps, r = inr maps -> i = 0%nat -> maps = ["-map"; grub_local work 0 iso_path; iso_path] /\ unattended_file url (grub_local work 0 iso_path) t).
Proof.
  unfold grub_file. fold (grub_local work i iso_path). assert (in_work work (grub_local work i iso_path)) as Hw by (right; by eexists).
  eapply (emits_bind _ _ _ (fun _ t => Forall (within (in_work work)) t)).
  { unfold run. icall i_exec. apply emits_ret. constructor; [|done]. left. by do 3 eexists. }
  intros x t Ht. destruct x as [e|].
  { apply emits_ret. rewrite app_nil_r. split; [done|]. intros maps H ->. done. }
  eapply (emits_bind _ _ _ (fun _ t => Forall (within (in_work work)) t)).
  { apply (emits_mono _ _ (fun a t => t = [IChmod (grub_local work i iso_path)])); [by apply emits_op; intros; apply i_chmod|]. intros ? ? ->. by constructor. }
  intros c t1 Ht1. destruct c as [e|]; [apply emits_ret; rewrite app_nil_r; split; [by apply Forall_app|done]|].
  eapply emits_bind; [by apply (add_args_calls work)|]. intros r t2 [Ht2 Hu]. destruct r as [e|[found changed]]; [apply emits_ret; rewrite app_nil_r; split; [by rewrite !Forall_app|done]|].
  destruct (Nat.eqb_spec i 0) as [->|Hi]; cbn [andb].
  - destruct found; cbn [negb]; [|apply emits_ret; rewrite app_nil_r; split; [by rewrite !Forall_app|done]].
    unfold requireLiveServer. eapply (emits_bind _ _ _ (fun _ t => exists r, t = [IRead (grub_local work 0 iso_path) r])); [icall i_read; apply emits_ret; eauto|]. intros l t3 (r & ->). apply emits_ret. rewrite app_nil_r.
    split; [rewrite !Forall_app; by repeat split; [| | |constructor]|]. intros maps H _. destruct l; [done|]. injection H as <-. split; [done|].
    destruct (Hu _ eq_refl) as (b & new & H1 & H2 & H3). exists b, new. set_solver.
  - apply emits_ret. rewrite app_nil_r. split; [by rewrite !Forall_app|done].
Qed.
Lemma grub_files_calls work base url paths : forall i, emits icalls (grub_files work base url i paths) (fun _ t => Forall (within (in_work work)) t).
Proof.
  induction paths as [|p paths IH]; intros i; cbn [grub_files]; [by apply emits_ret|]. eapply emits_bind; [apply grub_file_calls|]. intros r t [Ht _]. destruct r as [e|a]; [apply emits_ret; by rewrite app_nil_r|].
  eapply emits_bind; [apply IH|]. intros r t1 Ht1. apply emits_ret. rewrite app_nil_r. by apply Forall_app.
Qed.
Lemma first_grub_calls work base url p paths : emits icalls (grub_files work base url 0 (p :: paths)) (fun r t => Forall (within (in_work work)) t /\
  forall maps, r = inr maps -> (exists rest, maps = (["-map"; grub_local work 0 p; p] ++ rest)%list) /\ unattended_file url (grub_local work 0 p) t).
Proof.
  cbn [grub_files]. eapply emits_bind; [apply grub_file_calls|]. intros r t [Ht Hr]. destruct r as [e|a]; [apply emits_ret; rewrite app_nil_r; by split|].
  destruct (Hr a eq_refl eq_refl) as [-> (b & new & H1 & H2 & H3)]. eapply emits_bind; [apply grub_files_calls|]. intros r t1 Ht1. apply emits_ret. rewrite app_nil_r. split; [by apply Forall_app|].
  intros maps H. destruct r as [e|rest]; [done|]. injection H as <-. split; [by exists rest|]. exists b, new. set_solver.
Qed.

(** ** The image *)

(** Both boot records of the image were read. *)
Definition names_mode (rep mode : string) : Prop :=
  exists line before after, line ∈ split_bytes newline (to_bytes rep) [] /\ (exists t, line = (to_bytes "El Torito boot img" ++ t)%list) /\ cut_at colon line = (before, Some after) /\
    fields after !! 1%nat = Some (to_bytes mode).
Definition boots_both (rep : string) : Prop := names_mode rep "BIOS" /\ names_mode rep "UEFI".
Lemma modes_named lines modes mode : boot_modes lines = inr modes -> mode ∈ modes ->
  exists line before after, line ∈ lines /\ (exists t, line = (to_bytes "El Torito boot img" ++ t)%list) /\ cut_at colon line = (before, Some after) /\ fields after !! 1%nat = Some mode.
Proof.
  revert modes. induction lines as [|line lines IH]; intros modes; cbn [boot_modes]; [by intros [= <-] ?%not_elem_of_nil|].
  assert (forall ms, boot_modes lines = inr ms -> mode ∈ ms -> exists l before after, l ∈ line :: lines /\ (exists t, l = (to_bytes "El Torito boot img" ++ t)%list) /\ cut_at colon l = (before, Some after) /\ fields after !! 1%nat = Some mode) as IH'.
  { intros ms H1 H2. destruct (IH ms H1 H2) as (l & b & a & Hl & ?). exists l, b, a. split; [by right|done]. }
  unfold boot_mode_of. destruct (strip_prefix _ line) as [t|] eqn:Es.
  - apply strip_prefix_spec in Es. destruct (cut_at colon line) as [before [after|]] eqn:Ec; [|done]. cbn. destruct (boot_modes lines) as [e|ms]; [done|]. intros [= <-].
    destruct (fields after !! 1%nat) as [m|] eqn:Ef; [|by apply IH']. intros [->|H]%elem_of_cons; [|by apply (IH' ms)]. exists line, before, after. split; [by left|]. split; [by exists t|done].
  - destruct (boot_modes lines) as [e|ms]; [done|]. intros [= <-]. by apply IH'.
Qed.
Lemma records_calls P iso : emits icalls (checkBootRecords iso) (fun r t => Forall (within P) t /\
  (r = None -> exists rep, t = [IExec ["xorriso"; "-indev"; iso; "-report_el_torito"; "plain"] (rep, None)] /\ boots_both rep)).
Proof.
  unfold checkBootRecords. icall i_exec. apply emits_ret. split; [constructor; [|done]; right; right; by exists iso|]. destruct a as [rep e]. cbn [fst snd]. destruct e as [e|]; [done|].
  destruct (boot_modes _) as [e|modes] eqn:Em; [done|]. intros H. exists rep. split; [done|].
  destruct (bool_decide (to_bytes "BIOS" ∈ modes)) eqn:E1; [|done]. destruct (bool_decide (to_bytes "UEFI" ∈ modes)) eqn:E2; [|done]. apply bool_decide_eq_true in E1, E2. split; by eapply modes_named.
Qed.

(** The calls that made an image: its first GRUB file unattended and put on it, the image
    written, and then its boot records read. *)
Definition made_in (work base url out : string) (t1 t : list icall) : Prop :=
  exists rest o rep,
    t = (t1 ++ [IRemove out; IExec (["xorriso"; "-indev"; base; "-outdev"; out] ++ (["-map"; grub_local work 0 "/boot/grub/grub.cfg"; "/boot/grub/grub.cfg"] ++ rest) ++ ["-boot_image"; "any"; "replay"]) (o, None);
      IExec ["xorriso"; "-indev"; out; "-report_el_torito"; "plain"] (rep, None)])%list /\
    unattended_file url (grub_local work 0 "/boot/grub/grub.cfg") t1 /\ boots_both rep.
Definition image_made (base url out : string) (t : list icall) : Prop :=
  exists work t1 t2, t = (t2 ++ [IRemoveAll work])%list /\ ITemp (inr work) ∈ t1 /\ made_in work base url out t1 t2.

Definition work_or (work out p : string) : Prop := in_work work p \/ p = out.
Lemma remaster_in_calls work base url out : emits icalls (remaster_in work base url out) (fun r t => Forall (within (work_or work out)) t /\ (r = None -> exists t1, made_in work base url out t1 t)).
Proof.
  unfold remaster_in, grubConfigs. eapply emits_bind; [apply first_grub_calls|]. intros g t [Ht Hg]. apply (within_mono _ (work_or work out)) in Ht; [|by left].
  destruct g as [e|maps]; [apply emits_ret; rewrite app_nil_r; by split|]. destruct (Hg _ eq_refl) as [(rest & ->) Hu]. icall i_remove.
  eapply (emits_bind _ _ _ (fun x t => exists o e, t = [IExec (["xorriso"; "-indev"; base; "-outdev"; out] ++ (["-map"; grub_local work 0 "/boot/grub/grub.cfg"; "/boot/grub/grub.cfg"] ++ rest) ++ ["-boot_image"; "any"; "replay"]) (o, e)] /\ (x = None -> e = None))).
  { unfold run. icall i_exec. apply emits_ret. destruct a0 as [o e]. exists o, e. split; [done|]. by destruct e. }
  intros x t1 (o & e & -> & He).
  assert (within (work_or work out) (IRemove out)) as Hr by (by right).
  assert (within (work_or work out) (IExec (["xorriso"; "-indev"; base; "-outdev"; out] ++ (["-map"; grub_local work 0 "/boot/grub/grub.cfg"; "/boot/grub/grub.cfg"] ++ rest) ++ ["-boot_image"; "any"; "replay"]) (o, e))) as Hx.
  { right. left. do 3 eexists. split; [done|by right]. }
  destruct x as [ex|]; [apply emits_ret; split; [apply Forall_app; split; [done|by constructor; [|constructor; [|]]]|done]|]. specialize (He eq_refl) as ->.
  eapply emits_bind; [apply (records_calls (work_or work out))|]. intros c t2 [Ht2 Hc]. destruct c as [ec|].
  - icall i_remove. apply emits_ret. split; [|done]. apply Forall_app. split; [done|]. constructor; [done|]. constructor; [done|]. apply Forall_app. by split; [|constructor].
  - destruct (Hc eq_refl) as (rep & -> & Hb). apply emits_ret. split; [apply Forall_app; split; [done|by constructor; [|constructor]]|]. intros _. exists t, rest, o, rep. by split.
Qed.

Definition temp_or (out : string) (t : list icall) (p : string) : Prop := (exists work, ITemp (inr work) ∈ t /\ in_work work p) \/ p = out.
Lemma remaster_calls base s url out : emits icalls (Remaster base s url out) (fun r t => Forall (within (temp_or out t)) t /\ (r = None -> image_made base url out t)).
Proof.
  unfold Remaster. destruct (ValidateSpec s); [by apply emits_ret|]. destruct (bool_decide _); [by apply emits_ret|]. destruct (negb _); [by apply emits_ret|].
  icall i_temp. destruct a as [e|work]; [apply emits_ret; split; [by repeat constructor|done]|].
  eapply emits_bind; [apply remaster_in_calls|]. intros r t [Ht Hr]. icall i_removeall. apply emits_ret. cbn [app]. split.
  - constructor; [done|]. apply Forall_app. split; [|constructor; [|done]; left; exists work; split; [by left|by left]].
    eapply within_mono; [|exact Ht]. intros p [Hp| ->]; [left; exists work; split; [by left|done]|by right].
  - intros ->. destruct (Hr eq_refl) as (t1 & rest & o & rep & -> & Hu & Hb). exists work, (ITemp (inr work) :: t1). eexists. split; [by rewrite app_comm_cons|]. split; [by left|].
    exists rest, o, rep. split; [done|]. split; [|done]. destruct Hu as (b & new & H1 & H2 & H3). exists b, new. set_solver.
Qed.

(** ** The seed *)

Definition seed_place (dir token p : string) : Prop := p = join_dir dir token \/ exists f, f ∈ seedFiles /\ p = join_dir (join_dir dir token) f.
Definition seed_of (doc : string) : list (string * string) := [("user-data", doc); ("meta-data", ""); ("vendor-data", "")].
(** The whole seed was written. *)
Definition seed_written (dir token doc : string) (t : list icall) : Prop := forall n c, (n, c) ∈ seed_of doc -> IWrite (join_dir (join_dir dir token) n) c None ∈ t.

Lemma write_calls P dir files : (forall n c, (n, c) ∈ files -> P (join_dir dir n)) -> emits icalls (write_files dir files) (fun r t => Forall (within P) t /\
  (r = None -> forall n c, (n, c) ∈ files -> IWrite (join_dir dir n) c None ∈ t)).
Proof.
  induction files as [|[n c] files IH]; intros H; cbn [write_files]; [apply emits_ret; split; [done|]; by intros _ ? ? ?%not_elem_of_nil|].
  icall i_write. destruct a as [e|]; [apply emits_ret; split; [constructor; [apply (H n c); by left|done]|done]|].
  eapply emits_mono; [apply IH; intros; eapply H; by right|]. intros r t [Ht Hr]. split; [constructor; [apply (H n c); by left|done]|].
  intros E m d [[= -> ->]|Hm]%elem_of_cons; [by left|right; by apply Hr].
Qed.
Lemma seed_calls dir token s url : emits icalls (writeSeed dir token s url) (fun r t => Forall (within (seed_place dir token)) t /\
  (r = None -> exists doc, RenderAutoinstall s url token = inr doc /\ seed_written dir token doc t)).
Proof.
  unfold writeSeed. destruct (RenderAutoinstall s url token) as [e|doc]; [by apply emits_ret|]. icall i_mkdir.
  destruct a as [e|]; [apply emits_ret; split; [constructor; [by left|done]|done]|].
  eapply (emits_bind _ _ _ (fun files t => t = [] /\ files ≡ₚ seed_of doc)); [intros w; exists []; rewrite i_order, app_nil_r; split; [done|split; [done|apply order_walks]]|].
  intros files t [-> Hp]. eapply emits_mono; [apply (write_calls (seed_place dir token))|].
  - intros n c Hn. rewrite Hp in Hn. right. exists n. split; [|done]. unfold seed_of, seedFiles in *. set_solver.
  - intros r t [Ht Hr]. cbn [app]. split; [constructor; [by left|done]|]. intros E. exists doc. split; [done|]. intros n c Hn. right. apply Hr; [done|]. by rewrite Hp.
Qed.
Lemma discard_calls dir token : beaconToken token = true ->
  emits icalls (discardBuild dir token) (fun _ t => t = [IRemoveAll (join_dir dir token); IRemove (join_dir dir (token +:+ ".iso"))]).
Proof.
  intros Ht. unfold discardBuild, removeSeed. rewrite Ht. cbn [negb].
  eapply (emits_bind _ _ _ (fun _ t => t = [IRemoveAll (join_dir dir token)])); [icall i_removeall; by apply emits_ret|]. intros _ t ->. icall i_remove. by apply emits_ret.
Qed.

(** ** A build *)

(** What a build may write: the base image, the token's seed and image, a work directory. *)
Definition build_place (dir : string) (base : BaseSource) (token : string) (t : list icall) (p : string) : Prop :=
  p = dir \/ base_place (join_dir dir "base") base p \/ seed_place dir token p \/ p = join_dir dir (token +:+ ".iso") \/ exists work, ITemp (inr work) ∈ t /\ in_work work p.
Lemma base_kept dir base token t t' : Forall (within (base_place (join_dir dir "base") base)) t -> Forall (within (build_place dir base token t')) t.
Proof. apply within_mono. intros p Hp. right. by left. Qed.
Lemma seed_kept dir base token t t' : Forall (within (seed_place dir token)) t -> Forall (within (build_place dir base token t')) t.
Proof. apply within_mono. intros p Hp. do 2 right. by left. Qed.
Lemma temp_kept dir base token t t' : t ⊆ t' -> Forall (within (temp_or (join_dir dir (token +:+ ".iso")) t)) t -> Forall (within (build_place dir base token t')) t.
Proof. intros Hs. apply within_mono. intros p [(work & Hw & Hp)| ->]; do 3 right; [right; exists work; by split; [apply Hs|]|by left]. Qed.
Lemma discard_kept dir base token t : Forall (within (build_place dir base token t)) [IRemoveAll (join_dir dir token); IRemove (join_dir dir (token +:+ ".iso"))].
Proof. constructor; [do 2 right; left; by left|]. constructor; [do 3 right; by left|done]. Qed.

(** A token of 32 lower-case hexadecimal digits. *)
Definition token_shaped (token : string) : Prop := length (to_bytes token) = 32%nat /\ Forall (fun c => 48 <= byteZ c <= 57 \/ 97 <= byteZ c <= 102) (to_bytes token).
Lemma token_shaped_iff token : beaconToken token = true <-> token_shaped token.
Proof.
  unfold beaconToken, token_shaped. rewrite andb_true_iff, Nat.eqb_eq, forallb_forall, Forall_forall. apply and_iff_compat_l. split; intros H c Hc.
  - apply list_elem_of_In, H in Hc. unfold lower_hex, digit, in_range in Hc. rewrite orb_true_iff, !andb_true_iff, !Z.leb_le in Hc. tauto.
  - apply list_elem_of_In, H in Hc. unfold lower_hex, digit, in_range. rewrite orb_true_iff, !andb_true_iff, !Z.leb_le. tauto.
Qed.

(** The image and the seed are whole, the image made of the checked base and the seed's
    address in its GRUB file; or nothing was written to either; or their removal was the
    last two calls. *)
Definition build_outcome (dir : string) (base : BaseSource) (mediaURL beaconBase token : string) (s : Spec) (r : result string string) (t : list icall) : Prop :=
  match r with
  | inr tk => tk = token /\ token_shaped token /\ exists doc, RenderAutoinstall s beaconBase token = inr doc /\ seed_written dir token doc t /\
      exists baseISO, base_checked (dir +:+ "/base") base baseISO t /\
        image_made baseISO (trim_suffix mediaURL "/" +:+ "/autoinstall/" +:+ token +:+ "/") (dir +:+ "/" +:+ token +:+ ".iso") t
  | inl _ => Forall no_image t \/ exists t0, t = (t0 ++ [IRemoveAll (dir +:+ "/" +:+ token); IRemove (dir +:+ "/" +:+ token +:+ ".iso")])%list
  end.

Lemma image_made_after base url out t0 t : image_made base url out t -> image_made base url out (t0 ++ t).
Proof.
  intros (work & t1 & t2 & -> & Ht & rest & o & rep & -> & (b & new & H1 & H2 & H3) & Hb). exists work, (t0 ++ t1)%list. eexists. split; [by rewrite app_assoc|]. split; [set_solver|].
  exists rest, o, rep. split; [by rewrite app_assoc|]. split; [exists b, new; set_solver|done].
Qed.

(** C21. A build writes nowhere but the base image, the seed and the image of the token it
    drew, and a work directory it made. When it answers a token, that is 32 lower-case
    hexadecimal digits; the seed's three files were written, user-data being the autoinstall
    document of the spec; and the image was written of the base's file, whose content had
    the base's sum when it was read or filled, with its first GRUB file so that each kernel
    line says already that it is unattended, or has the arguments and this seed's address
    before its first separator, or at its end when it has none, and the menu waits a second;
    after which its report was read to name both a BIOS and a UEFI boot record. When it fails, no
    seed file was written and no command run, or its last two calls ask for the removal of the
    seed and the image, whatever they answer. *)
Theorem build_whole_or_withdrawn (dir : string) (base : BaseSource) (mediaURL beaconBase : string) (s : Spec) (w : W) :
  exists t token, icalls (build_image dir base mediaURL beaconBase s w).2 = (icalls w ++ t)%list /\
    Forall (within (build_place dir base token t)) t /\ build_outcome dir base mediaURL beaconBase token s (build_image dir base mediaURL beaconBase s w).1 t.
Proof.
  enough (emits icalls (build_image dir base mediaURL beaconBase s) (fun r t => exists token, Forall (within (build_place dir base token t)) t /\ build_outcome dir base mediaURL beaconBase token s r t)) as H.
  { destruct (H w) as (t & Ht & token & ?). by exists t, token. }
  unfold build_image. eapply emits_bind; [apply fetch_calls|]. intros b t (Ht & Hn & Hbase). destruct b as [e|baseISO].
  { apply emits_ret. exists "". rewrite app_nil_r. split; [by apply base_kept|by left]. }
  eapply (emits_bind _ _ _ (fun r t => t = [] /\ forall token, r = inr token -> beaconToken token = true)).
  { unfold newToken. intros w0. exists []. rewrite St_bind_run. cbn. rewrite i_rand, app_nil_r. split; [done|]. split; [done|]. destruct (rand16 w0).1 as [e|l] eqn:E; [done|]. intros token [= <-]. eapply hex_token, rand_16, E. }
  intros r t1 [-> Hk]. cbn [app]. destruct r as [e|token]; [apply emits_ret; exists ""; rewrite app_nil_r; split; [by apply base_kept|by left]|].
  specialize (Hk _ eq_refl). icall i_mkdir. destruct a as [e|].
  { apply emits_ret. exists token. split; [|left; apply Forall_app; split; [done|by constructor]]. apply Forall_app. split; [by apply base_kept|]. constructor; [by left|done]. }
  assert (forall t', Forall (within (build_place dir base token t')) (t ++ [IMkdir dir])) as Hb.
  { intros t'. apply Forall_app. split; [by apply base_kept|]. constructor; [by left|done]. }
  eapply emits_bind; [apply seed_calls|]. intros sd t2 [Ht2 Hsd]. destruct sd as [e|].
  { eapply emits_bind; [by apply discard_calls|]. intros _ ? ->. apply emits_ret. exists token. rewrite app_nil_r, cons_middle, !app_assoc. split; [|right; by eexists].
    apply Forall_app. split; [|apply discard_kept]. apply Forall_app. split; [apply Hb|by apply seed_kept]. }
  destruct (Hsd eq_refl) as (doc & Hdoc & Hsw). eapply emits_bind; [apply remaster_calls|]. intros r t3 [Ht3 Hr]. destruct r as [e|].
  { eapply emits_bind; [by apply discard_calls|]. intros _ ? ->. apply emits_ret. exists token. rewrite app_nil_r, cons_middle, !app_assoc. split; [|right; by eexists].
    apply Forall_app. split; [|apply discard_kept]. apply Forall_app. split; [|apply temp_kept; [set_solver|done]]. apply Forall_app. split; [apply Hb|by apply seed_kept]. }
  apply emits_ret. exists token. rewrite app_nil_r, cons_middle, !app_assoc. split; [apply Forall_app; split; [|apply temp_kept; [set_solver|done]]; apply Forall_app; split; [apply Hb|by apply seed_kept]|].
  split; [done|]. split; [by apply token_shaped_iff|]. exists doc. split; [done|]. split; [intros n c Hc; specialize (Hsw n c Hc); set_solver|].
  exists baseISO. split; [|apply image_made_after; by apply Hr]. destruct (Hbase _ eq_refl) as (Hp & content & Hs & Hin). split; [done|]. exists content. split; [done|]. set_solver.
Qed.

(** ** The media listener *)

(** What the unauthenticated listener may touch: an image, a file of a seed, and whether an
    image is there. *)
Definition media_call (dir : string) (c : icall) : Prop :=
  exists token, beaconToken token = true /\
    (c = IServe (join_dir dir (token +:+ ".iso")) \/ (exists f, f ∈ seedFiles /\ c = IServe (join_dir (join_dir dir token) f)) \/ exists e, c = IStat (join_dir dir (token +:+ ".iso")) e).

(** C22. Whatever a request to the unauthenticated listener names, it reads no file but an image or a seed
    file of a well-formed token, writes none, and changes the beacon store only by recording a
    checkpoint of a token whose image is there. *)
Theorem media_confined (dir : string) (r : media_request) (m : option BeaconStore) (w : W) :
  exists t, icalls (MediaHandler dir r (m, w)).2.2 = (icalls w ++ t)%list /\ Forall (media_call dir) t /\
    ((MediaHandler dir r (m, w)).2.1 <> m -> exists token checkpoint now store store', r = SendBeacon token checkpoint /\ IStat (join_dir dir (token +:+ ".iso")) None ∈ t /\
       m = Some store /\ Record_beacon token checkpoint now store = Some (true, store') /\ (MediaHandler dir r (m, w)).2.1 = Some store').
Proof.
  enough (steps icalls (MediaHandler dir r) m (fun _ m' t => Forall (media_call dir) t /\ (m' <> m -> exists token checkpoint now store store', r = SendBeacon token checkpoint /\ IStat (join_dir dir (token +:+ ".iso")) None ∈ t /\
       m = Some store /\ Record_beacon token checkpoint now store = Some (true, store') /\ m' = Some store'))) as H by (destruct (H w) as (t & ? & ?); by exists t).
  assert (forall p (Q : Response -> option BeaconStore -> list icall -> Prop), (forall x, Q x m [IServe p]) -> steps icalls (beside (serve_file p)) m Q) as Hserve.
  { intros p Q HQ w0. rewrite beside_run. cbn. rewrite i_serve. eexists. split; [done|]. apply HQ. }
  destruct r as [name|token file|token checkpoint]; cbn [MediaHandler].
  - destruct (imageName name) eqn:E; [|by apply steps_ret]. apply image_name_token in E as (token & -> & Ht). apply Hserve. intros x. split; [|done]. constructor; [|done]. exists token. split; [done|by left].
  - destruct (beaconToken token) eqn:E; [|by apply steps_ret]. destruct (bool_decide (file ∈ seedFiles)) eqn:Ef; [|by apply steps_ret]. apply bool_decide_eq_true in Ef. apply Hserve. intros x. split; [|done]. constructor; [|done].
    exists token. split; [done|]. right. left. by exists file.
  - apply steps_memory. destruct m as [store|]; [|by apply steps_ret]. destruct (beaconToken token) eqn:E; [|by apply steps_ret]. cbn [negb].
    eapply steps_beside; [by apply emits_op with (ev := fun e => [IStat (join_dir dir (token +:+ ".iso")) e]); intros; apply i_stat|]. intros e t ->.
    assert (media_call dir (IStat (join_dir dir (token +:+ ".iso")) e)) as Hm by (exists token; split; [done|]; right; right; by exists e).
    destruct e as [e|]; [apply steps_ret; split; [by constructor|done]|].
    eapply steps_beside; [by apply emits_quiet; intros; apply i_clock|]. intros now t ->. cbn [app]. destruct (Record_beacon token checkpoint now store) as [[ok store']|] eqn:Er; [|apply steps_ret; split; [by constructor|done]].
    apply steps_remember. apply steps_ret. split; [by constructor|]. intros Hne. exists token, checkpoint, now, store, store'. split; [done|]. split; [by left|]. split; [done|]. split; [|done].
    destruct ok; [done|]. exfalso. apply Hne. f_equal. unfold Record_beacon in Er. destruct (negb _ || _); [by injection Er|]. destruct (if bool_decide _ then _ else _); [|done]. by cbn in Er.
Qed.

(** What the image store posts does not depend on the cluster the machine is to join. *)
Theorem token_kept_home (h : HTTPImageStore) (s : Spec) (target : ClusterTarget) :
  http_Build h (mkSpec (sp_UID s) (sp_Hostname s) (sp_Network s) (sp_Layout s) (sp_SSHPublicKey s) target (sp_BootMode s)) = http_Build h s.
Proof. done. Qed.
End Calls.

(** ** Runs on an in-memory disk *)

Module Demo.
Record Box := mkBox { bx_files : gmap string string; bx_report : string; bx_calls : list icall }.
Definition on_box {A} (f : gmap string string -> A * gmap string string) (ev : A -> list icall) : St Box A :=
  fun b => let '(a, fs) := f (bx_files b) in (a, mkBox fs (bx_report b) (bx_calls b ++ ev a)).
Definition missing : oserr := mkOsErr "no such file or directory" true.
Definition beneath (p k : string) : bool := has_prefix (p +:+ "/") k || bool_decide (k = p).
Definition grub_cfg : string := "set timeout=30" +:+ nl +:+ "menuentry Install {" +:+ nl +:+ "  linux /casper/vmlinuz  --- quiet" +:+ nl +:+ "}" +:+ nl.
(** xorriso: what it writes, and what it says. *)
Definition xorriso (report : string) (args : list string) (fs : gmap string string) : (string * option string) * gmap string string :=
  match args with
  | [_; _; _; _; _; _; _; local] => (("", None), <[local := grub_cfg]> fs)
  | [_; _; _; _; _] => ((report, None), fs)
  | _ :: _ :: _ :: _ :: out :: _ => (("", None), <[out := "image"]> fs)
  | _ => (("", Some "exit status 1"), fs)
  end.
Definition cd : BaseSource := mkBase "https://example.org/cd.iso" (hex_encode (sum256 (string_bytes "cd"))).
#[local] Instance box_world : ImageWorld Box := {|
  os_stat p := on_box (fun fs => (if existsb (fun kv => beneath p kv.1) (map_to_list fs) then None else Some missing, fs)) (fun e => [IStat p e]);
  os_remove p := on_box (fun fs => (if bool_decide (is_Some (fs !! p)) then None else Some missing, delete p fs)) (fun _ => [IRemove p]);
  os_removeall p := on_box (fun fs => (None, filter (fun kv => beneath p kv.1 = false) fs)) (fun _ => [IRemoveAll p]);
  os_mkdirall p := on_box (fun fs => (None, fs)) (fun _ => [IMkdir p]);
  os_mkdirtemp := on_box (fun fs => (inr "/tmp/frame-iso-1", fs)) (fun r => [ITemp r]);
  os_chmod p := on_box (fun fs => (None, fs)) (fun _ => [IChmod p]);
  os_write p c := on_box (fun fs => (None, <[p := c]> fs)) (fun e => [IWrite p c e]);
  os_read p := on_box (fun fs => (match fs !! p with Some c => inr c | None => inl missing end, fs)) (fun r => [IRead p r]);
  os_create p := on_box (fun fs => (None, <[p := ""]> fs)) (fun _ => [ICreate p]);
  os_fill p c := on_box (fun fs => (None, <[p := c]> fs)) (fun _ => [IFill p c]);
  serve_file p := on_box (fun fs => (match fs !! p with Some c => mkResponse 200 c | None => not_found end, fs)) (fun _ => [IServe p]);
  exec a := fun b => let '(r, fs) := xorriso (bx_report b) a (bx_files b) in (r, mkBox fs (bx_report b) (bx_calls b ++ [IExec a r]));
  http_fetch u := on_box (fun fs => (inr (200, "cd", None), fs)) (fun _ => [IFetch u]);
  http_request := fun _ _ => None;
  http_send m u c := on_box (fun fs => (inl "connection refused", fs)) (fun _ => [ISend m u c]);
  rand16 := on_box (fun fs => (inr (map Z.of_nat (seq 10 16)), fs)) (fun _ => []);
  clock := on_box (fun fs => (zero_time, fs)) (fun _ => []);
  seed_order l := on_box (fun fs => (l, fs)) (fun _ => []);
  url_base := fun u => of_bytes (List.last (split_bytes slash (to_bytes u) []) []);
  spec_decode := fun b => if bool_decide (b = "plain") then inr Autoinstall.Demo.plain else inl "EOF";
  spec_encode := fun _ => inr "plain";
  token_encode := fun t => t;
  token_decode := fun t => inr t;
  beacon_encode := LastCheckpoint;
  beacon_decode := fun _ => inl "EOF"
|}.
#[local, refine] Instance box_traced : TracedImages Box := {| icalls := bx_calls |}.
Proof.
  all: try (intros w **; cbn; unfold on_box; cbn; by rewrite ?app_nil_r).
  - intros w a. cbn. by destruct (xorriso _ _ _).
  - intros w b. cbn. by intros [= <-].
Defined.
#[local] Instance text_writer : YamlWriter := {| yaml_text := fun _ => inr "doc" |}.

Definition both : string := "El Torito boot img :   1  BIOS  y   none" +:+ nl +:+ "El Torito boot img :   2  UEFI  y   none" +:+ nl.
Definition bios_only : string := "El Torito boot img :   1  BIOS  y   none" +:+ nl.
Definition start (report : string) : option BeaconStore * Box := (Some (NewBeaconStore 8), mkBox ∅ report []).
Definition the_token : string := "0a0b0c0d0e0f10111213141516171819".
Definition media : string := "http://192.0.2.9:8080".
Definition built (report : string) : Response * (option BeaconStore * Box) := BuildHandler "/data" cd media (PostBuild "plain") (start report).
Definition served (r : media_request) (s : option BeaconStore * Box) : Response := (MediaHandler "/data" r s).1.

(** The image and its seed are there; its kernel line is unattended; a beacon is kept; and
    once it is removed nothing is left of it. *)
Example build_and_remove : let s := (built both).2 in let heard := (MediaHandler "/data" (SendBeacon the_token CheckpointLate) s).2 in
  let gone := BuildHandler "/data" cd media (DeleteIso (the_token +:+ ".iso")) heard in
  (built both).1 = mkResponse 200 the_token /\ served (GetIso (the_token +:+ ".iso")) s = mkResponse 200 "image" /\ served (GetSeed the_token "user-data") s = mkResponse 200 ("#cloud-config" +:+ nl +:+ "doc") /\
  (BuildHandler "/data" cd media (GetBeacon the_token) heard).1 = mkResponse 200 CheckpointLate /\ gone.1 = mkResponse 204 "" /\
  served (GetIso (the_token +:+ ".iso")) gone.2 = not_found /\ served (SendBeacon the_token CheckpointLate) gone.2 = not_found /\
  (BuildHandler "/data" cd media (DeleteIso (the_token +:+ ".iso")) gone.2).1 = not_found.
Proof. vm_compute. by repeat split. Qed.
(** An image without a UEFI record is not served, nor is its seed. *)
Example one_record : re_Status (built bios_only).1 = 500 /\ map fst (map_to_list (bx_files (built bios_only).2.2)) = ["/data/base/cd.iso"].
Proof. vm_compute. by repeat split. Qed.
Example grub_rewritten : of_bytes (rewrite_grub "http://h/autoinstall/t/" (to_bytes grub_cfg)) =
  "set timeout=1" +:+ nl +:+ "menuentry Install {" +:+ nl +:+ "  linux /casper/vmlinuz  frame=1 autoinstall ip=dhcp noprompt ds=nocloud\;s=http://h/autoinstall/t/ --- quiet" +:+ nl +:+ "}" +:+ nl.
Proof. vm_compute. by repeat split. Qed.
Lemma build_whole_or_withdrawn_witness : exists t token,
  icalls (build_image "/data" cd media "" Autoinstall.Demo.plain (start both).2).2 = (icalls (start both).2 ++ t)%list /\
    Forall (within (build_place "/data" cd token t)) t /\ build_outcome "/data" cd media "" token Autoinstall.Demo.plain (build_image "/data" cd media "" Autoinstall.Demo.plain (start both).2).1 t.
Proof. apply (build_whole_or_withdrawn "/data" cd media "" Autoinstall.Demo.plain (start both).2). Defined.
Lemma media_confined_witness : let m := (start both).1 in let w := (start both).2 in let r := GetSeed the_token "user-data" in
  exists t, icalls (MediaHandler "/data" r (m, w)).2.2 = (icalls w ++ t)%list /\ Forall (media_call "/data") t /\
    ((MediaHandler "/data" r (m, w)).2.1 <> m -> exists token checkpoint now store store', r = SendBeacon token checkpoint /\ IStat (join_dir "/data" (token +:+ ".iso")) None ∈ t /\
       m = Some store /\ Record_beacon token checkpoint now store = Some (true, store') /\ (MediaHandler "/data" r (m, w)).2.1 = Some store').
Proof. exact (media_confined "/data" (GetSeed the_token "user-data") (start both).1 (start both).2). Defined.
End Demo.
