(* ===== verification/Redfish.v ===== *)
(** The Redfish client and the BMC driver: internal/redfish/client.go, session.go,
    decode.go, decode_log.go, decode_memory.go, decode_storage.go, and
    internal/provision/redfishbmc.go, which gives the installation the calls it makes on a
    machine's BMC.

    A document is decoded into its struct by [GoDecode]. The client's session is the
    component's memory beside the world. net/http's client (redirects followed) and
    http.NewRequest, the text of a decoding error, url.Parse, sort.Slice and the
    conversion of a float64 outside the range of an int32 are the methods of [BmcWorld].

    Snapshot.AllowableResetTypes is left out: nothing reads it. *)
From stdpp Require Import base tactics strings list gmap.
From Stdlib Require Import ZArith Lia Ascii.
From S2P Require Import Prelude Trace GoLib GoText GoTime GoNet GoJson Conversion GoDecode StorageTypes Provision BeaconStore MachineController.

Open Scope Z_scope.

(** ** The documents *)

Definition TInt32 : ty := TInt 32.
Definition TInt64 : ty := TInt 64.
Definition odataRef : ty := TStruct [("@odata.id", TStr)].
Definition statusBlock : ty := TStruct [("Health", TStr); ("State", TStr)].
Definition serviceRootJSON : ty := TStruct [("Systems", odataRef); ("Chassis", odataRef); ("Managers", odataRef)].
Definition collectionJSON : ty := TStruct [("Members@odata.count", TInt64); ("Members", TSlice odataRef)].
Definition computerSystemJSON : ty := TStruct [
  ("Id", TStr); ("Manufacturer", TStr); ("Model", TStr); ("SerialNumber", TStr); ("PowerState", TStr); ("IndicatorLED", TStr); ("BiosVersion", TStr);
  ("MemorySummary", TStruct [("TotalSystemMemoryGiB", TFloat)]);
  ("ProcessorSummary", TStruct [("Count", TInt32); ("Model", TStr)]);
  ("Actions", TStruct [("#ComputerSystem.Reset", TStruct [("target", TStr); ("ResetType@Redfish.AllowableValues", TSlice TStr)])]);
  ("LogServices", odataRef);
  ("Oem", TStruct [("Hp", TStruct [("PostState", TStr); ("links", TStruct [("SmartStorage", TStruct [("href", TStr)])])])])].
Definition temperatureJSON : ty := TStruct [("Name", TStr); ("ReadingCelsius", TInt32); ("UpperThresholdCritical", TPtr TInt32); ("Status", statusBlock)].
Definition fanJSON : ty := TStruct [("FanName", TStr); ("CurrentReading", TInt32); ("Units", TStr); ("Status", statusBlock)].
Definition thermalJSON : ty := TStruct [("Temperatures", TSlice temperatureJSON); ("Fans", TSlice fanJSON)].
Definition powerControlJSON : ty := TStruct [("PowerConsumedWatts", TInt32)].
Definition powerSupplyJSON : ty := TStruct [("Name", TStr); ("Status", statusBlock); ("LastPowerOutputWatts", TInt32)].
Definition powerJSON : ty := TStruct [("PowerControl", TSlice powerControlJSON); ("PowerSupplies", TSlice powerSupplyJSON)].
Definition managerJSON : ty := TStruct [("FirmwareVersion", TStr); ("Model", TStr)].
Definition processorJSON : ty := TStruct [("Socket", TStr); ("Model", TStr); ("TotalCores", TInt32); ("TotalThreads", TInt32); ("Status", statusBlock)].
Definition ethernetInterfaceJSON : ty := TStruct [("Name", TStr); ("MACAddress", TStr); ("Status", statusBlock)].
Definition memoryJSON : ty := TStruct [
  ("DeviceLocator", TStr); ("CapacityMiB", TInt32); ("MemoryDeviceType", TStr); ("Manufacturer", TStr); ("Status", statusBlock);
  ("Id", TStr); ("SizeMB", TInt32); ("DIMMType", TStr); ("SocketLocator", TStr)].
Definition hpLink : ty := TStruct [("href", TStr)].
Definition smartStorageDoc : ty := TStruct [("links", TStruct [("ArrayControllers", hpLink); ("HostBusAdapters", hpLink)])].
Definition hpCollection : ty := TStruct [("Members", TSlice odataRef)].
Definition hpFirmware : ty := TStruct [("Current", TStruct [("VersionString", TStr)])].
Definition arrayControllerDoc : ty := TStruct [
  ("links", TStruct [("PhysicalDrives", hpLink)]); ("Location", TStr); ("Model", TStr); ("FirmwareVersion", hpFirmware);
  ("BackupPowerSourceStatus", TStr); ("CacheModuleStatus", TRaw); ("Status", TStruct [("Health", TStr)])].
Definition diskDriveDoc : ty := TStruct [
  ("Model", TStr); ("SerialNumber", TStr); ("Location", TStr); ("CapacityGB", TInt32); ("InterfaceType", TStr); ("MediaType", TStr);
  ("DiskDriveStatusReasons", TSlice TStr); ("FirmwareVersion", hpFirmware); ("RotationalSpeedRpm", TPtr TFloat); ("InterfaceSpeedMbps", TPtr TFloat);
  ("CurrentTemperatureCelsius", TPtr TFloat); ("PowerOnHours", TPtr TFloat); ("SSDEnduranceUtilizationPercentage", TPtr TFloat); ("Status", statusBlock)].
Definition logEntryJSON : ty := TStruct [
  ("Id", TStr); ("Severity", TStr); ("Created", TTime); ("Message", TStr); ("Oem", TStruct [("Hp", TStruct [("Updated", TTime)])])].
Definition logNextPageJSON : ty := TStruct [("count", TInt64); ("page", TInt64)].
Definition logCollectionJSON : ty := TStruct [
  ("Members@odata.count", TPtr TInt64); ("Total", TInt64); ("Members", TSlice logEntryJSON); ("Items", TSlice logEntryJSON);
  ("links", TStruct [("NextPage", TPtr logNextPageJSON)])].
Definition logServiceJSON : ty := TStruct [("Actions", TStruct [("#LogService.ClearLog", TStruct [("target", TStr)])])].
Definition queryOutOfRangeErrorJSON : ty := TStruct [("Messages", TSlice (TStruct [("MessageID", TStr); ("MessageArgs", TSlice TStr)]))].

(** ** The world *)

Inductive auth := NoAuth | Token (t : string) | Basic (user password : string).
Record Req := mkReq { rq_Method : string; rq_URL : string; rq_Auth : auth; rq_Body : option string }.
Record Resp := mkResp { rs_Code : Z; rs_Status : string; rs_Body : string; rs_Token : string; rs_Location : string }.
(** What errors.As and errors.Is find in a failure to get an answer: a certificate that
    was refused, a deadline, a timeout. *)
Record TransportErr := mkTransport { te_text : string; te_TLS : bool; te_Deadline : bool; te_Timeout : bool }.

Class BmcWorld (W : Type) := {
  http_do : Req -> St W (result TransportErr Resp);
  request_error : string -> string -> option string;      (* http.NewRequest's, of a method and an address *)
  url_path : string -> option string;                     (* url.Parse, and its Path *)
  json_error : ty -> string -> string;
  sort_log : list EventLogEntry -> list EventLogEntry;    (* sort.Slice, the later first *)
  wide_int32 : Z -> Z                                     (* int32 of a float64 outside its range *)
}.

Inductive ekind := KAuth | KTLS | KUnsupported | KNotFound | KBadRequest | KTransport (deadline timeout : bool) | KOther.
Record rerr := mkErr { er_text : string; er_kind : ekind }.
Definition other (text : string) : rerr := mkErr text KOther.
Definition wrap_err (prefix : string) (e : rerr) : rerr := mkErr (prefix +:+ er_text e) (er_kind e).
Definition errAuth : string := "redfish: authentication rejected".
Definition errTLS : string := "redfish: TLS verification failed".
Definition errUnsupported : string := "redfish: service does not expose the expected resources".
Definition ErrUnsupported : rerr := mkErr errUnsupported KUnsupported.
Definition errNotFound : string := "redfish: resource not found".
Definition errBadRequest : string := "redfish: bad request".
Definition is_not_found (e : rerr) : bool := match er_kind e with KNotFound => true | _ => false end.
Definition is_bad_request (e : rerr) : bool := match er_kind e with KBadRequest => true | _ => false end.
(** The error as the controller looks at it. *)
Definition probe_error (e : rerr) : ProbeError :=
  let k := er_kind e in
  mkProbeError (er_text e) (match k with KTLS => true | _ => false end) (match k with KAuth => true | _ => false end) (match k with KUnsupported => true | _ => false end)
    (match k with KTransport d _ => d | _ => false end) (match k with KTransport _ t => t | _ => false end).

(** ** session.go *)

Definition sessionsPath : string := "/redfish/v1/SessionService/Sessions/".
Record sessionState := mkSession { ss_token : string; ss_location : string; ss_unsupported : bool }.
Definition zero_session : sessionState := mkSession "" "" false.
Record TLSConfig := mkTLS { tl_InsecureSkipVerify : bool; tl_MinVersion : Z; tl_RootCAs : option (list string) }.
(** [cl_reuse]: built WithSessionReuse. *)
Record client := mkClient { cl_baseURL : string; cl_username : string; cl_password : string; cl_TLS : option TLSConfig; cl_reuse : bool }.
Definition New (baseURL username password : string) (tls : option TLSConfig) (reuse : bool) : client := mkClient (trim_suffix baseURL "/") username password tls reuse.

(** CertPool.Equal: the same certificates. *)
Definition pool_equal (a b : list string) : bool := forallb (fun x => bool_decide (x ∈ b)) a && forallb (fun x => bool_decide (x ∈ a)) b.
Definition sameTLS (a b : option TLSConfig) : bool :=
  match a, b with
  | None, None => true
  | Some a, Some b =>
    if negb (bool_decide (tl_InsecureSkipVerify a = tl_InsecureSkipVerify b)) || negb (tl_MinVersion a =? tl_MinVersion b) then false
    else match tl_RootCAs a, tl_RootCAs b with None, None => true | Some p, Some q => pool_equal p q | _, _ => false end
  | _, _ => false
  end.
Definition same_target (a b : client) : bool :=
  bool_decide (cl_baseURL a = cl_baseURL b) && bool_decide (cl_username a = cl_username b) && bool_decide (cl_password a = cl_password b) &&
  bool_decide (cl_reuse a = cl_reuse b) && sameTLS (cl_TLS a) (cl_TLS b).

Definition ends_slash (s : string) : bool := match List.last (to_bytes s) " "%char with "/"%char => true | _ => false end.
Definition normalizePath (path : string) : string :=
  if bool_decide (path = "") || ends_slash path || has_byte "?" (to_bytes path) then path else path +:+ "/".

Section Client.
Context {W : Type} {BW : BmcWorld W} {U : Unicode}.
Abbreviation act A := (St (sessionState * W) A).

Definition transportError (path : string) (e : TransportErr) : rerr :=
  if te_TLS e then mkErr (path +:+ ": " +:+ errTLS) KTLS
  else mkErr ("redfish: request " +:+ path +:+ ": " +:+ te_text e) (KTransport (te_Deadline e) (te_Timeout e)).
Definition roundTrip (c : client) (method path : string) (payload : option string) (token : string) : St W (result rerr Resp) :=
  let url := cl_baseURL c +:+ normalizePath path in
  match request_error method url with
  | Some e => mret (inl (other ("redfish: build request for " +:+ path +:+ ": " +:+ e)))
  | None =>
    r ← http_do (mkReq method url (if bool_decide (token <> "") then Token token else Basic (cl_username c) (cl_password c)) payload);
    mret match r with inl e => inl (transportError path e) | inr resp => inr resp end
  end.
Definition sessionPath (location : string) : string := if bool_decide (location = "") then "" else default "" (url_path location).
Definition login_payload (c : client) : string := of_bytes (print (JObj [("UserName", JStr (cl_username c)); ("Password", JStr (cl_password c))])).
Definition loginLocked (c : client) : act (result rerr string) :=
  let url := cl_baseURL c +:+ sessionsPath in
  match request_error "POST" url with
  | Some e => mret (inl (other ("redfish: build session request: " +:+ e)))
  | None =>
    r ← beside (http_do (mkReq "POST" url NoAuth (Some (login_payload c))));
    match r with
    | inl e => mret (inl (transportError sessionsPath e))
    | inr resp =>
      let code := rs_Code resp in
      if (code =? 404) || (code =? 405) then _ ← remember (fun s => mkSession (ss_token s) (ss_location s) true); mret (inr "")
      else if (code =? 401) || (code =? 403) then mret (inl (mkErr (sessionsPath +:+ ": " +:+ errAuth) KAuth))
      else if 300 <=? code then mret (inl (other ("redfish: " +:+ sessionsPath +:+ " returned " +:+ rs_Status resp)))
      else
        let token := rs_Token resp in
        if bool_decide (token = "") then mret (inl (other ("redfish: " +:+ sessionsPath +:+ " answered " +:+ rs_Status resp +:+ " without an X-Auth-Token")))
        else
          let location := sessionPath (rs_Location resp) in
          let location := if bool_decide (location = "") then sessionPath (str (decode_body odataRef (rs_Body resp)).1 ["@odata.id"]) else location in
          _ ← remember (fun s => mkSession token location (ss_unsupported s));
          mret (inr token)
    end
  end.
Definition sessionToken (c : client) : act (result rerr string) :=
  if negb (cl_reuse c) then mret (inr "")
  else
    s ← memory;
    if ss_unsupported s || bool_decide (ss_token s <> "") then mret (inr (ss_token s)) else loginLocked c.
Definition dropToken (token : string) : act unit := remember (fun s => if bool_decide (ss_token s = token) then mkSession "" "" (ss_unsupported s) else s).
Definition send (c : client) (method path : string) (payload : option string) : act (result rerr Resp) :=
  t ← sessionToken c;
  match t with
  | inl e => mret (inl e)
  | inr token =>
    r ← beside (roundTrip c method path payload token);
    match r with
    | inl e => mret (inl e)
    | inr resp =>
      if bool_decide (token = "") || negb (rs_Code resp =? 401) then mret (inr resp)
      else
        _ ← dropToken token;
        t ← sessionToken c;
        match t with
        | inl e => mret (inl e)
        | inr token => beside (roundTrip c method path payload token)
        end
    end
  end.
Definition Logout (c : client) : act (option rerr) :=
  if negb (cl_reuse c) then mret None
  else
    s ← memory;
    _ ← remember (fun s => mkSession "" "" (ss_unsupported s));
    if bool_decide (ss_token s = "") || bool_decide (ss_location s = "") then mret None
    else
      r ← beside (roundTrip c "DELETE" (ss_location s) None (ss_token s));
      mret match r with
      | inl e => Some e
      | inr resp => if (300 <=? rs_Code resp) && negb (rs_Code resp =? 404) then Some (other ("redfish: logout " +:+ ss_location s +:+ " returned " +:+ rs_Status resp)) else None
      end.

(** ** client.go *)

(** What [out] holds afterwards, and the error. *)
Definition do_ (c : client) (method path : string) (body : option json) (out : option ty) : act (val * option rerr) :=
  let zero := match out with Some t => zero_val t | None => VPtr None end in
  r ← send c method path ((fun j => of_bytes (print j)) <$> body);
  mret match r with
  | inl e => (zero, Some e)
  | inr resp =>
    let code := rs_Code resp in
    if (code =? 401) || (code =? 403) then (zero, Some (mkErr (path +:+ ": " +:+ errAuth) KAuth))
    else if code =? 404 then (zero, Some (mkErr (path +:+ ": " +:+ errNotFound) KNotFound))
    else if code =? 400 then (match out with Some t => (decode_body t (rs_Body resp)).1 | None => zero end, Some (mkErr (path +:+ ": " +:+ errBadRequest) KBadRequest))
    else if 300 <=? code then (zero, Some (other ("redfish: " +:+ path +:+ " returned " +:+ rs_Status resp)))
    else match out with
    | None => (zero, None)
    | Some t => let '(v, ok) := decode_body t (rs_Body resp) in (v, if ok : bool then None else Some (other ("redfish: decode " +:+ path +:+ ": " +:+ json_error t (rs_Body resp))))
    end
  end.
Definition get (c : client) (path : string) (out : ty) : act (val * option rerr) := do_ c "GET" path None (Some out).
(** A read whose error ends the caller's work. *)
Definition read (c : client) (path : string) (out : ty) : act (result rerr val) :=
  r ← get c path out; mret match r.2 with Some e => inl e | None => inr r.1 end.
Definition post (c : client) (path : string) (body : json) : act (option rerr) := r ← do_ c "POST" path (Some body) None; mret r.2.
Definition patch (c : client) (path : string) (body : json) : act (option rerr) := r ← do_ c "PATCH" path (Some body) None; mret r.2.

(** path.Join, with path.Clean. *)
Fixpoint clean_parts (rooted : bool) (parts : list bytes) (stack : list bytes) : list bytes :=
  match parts with
  | [] => rev stack
  | p :: parts =>
    if bool_decide (p = []) || bool_decide (p = to_bytes ".") then clean_parts rooted parts stack
    else if bool_decide (p = to_bytes "..") then
      match stack with
      | q :: stack' => if bool_decide (q = to_bytes "..") then clean_parts rooted parts (p :: stack) else clean_parts rooted parts stack'
      | [] => clean_parts rooted parts (if rooted then [] else [p])
      end
    else clean_parts rooted parts (p :: stack)
  end.
Definition path_clean (s : string) : string :=
  if bool_decide (s = "") then "."
  else
    let rooted := has_prefix "/" s in
    let body := join "/" (map of_bytes (clean_parts rooted (split_bytes slash (to_bytes s) []) [])) in
    if rooted then "/" +:+ body else if bool_decide (body = "") then "." else body.
Definition joinPath (base : string) (elem : list string) : string :=
  let l := List.filter (fun s => negb (bool_decide (s = ""))) (base :: elem) in
  if bool_decide (l = []) then "" else path_clean (join "/" l).

(** ** decode.go *)

Definition readServiceRoot (c : client) : act (result rerr val) :=
  r ← read c "/redfish/v1/" serviceRootJSON; mret match r with inl e => inl (wrap_err "redfish: read service root: " e) | inr v => inr v end.
Definition firstMember (c : client) (path : string) : act (result rerr string) :=
  if bool_decide (path = "") then mret (inr "")
  else
    r ← read c path collectionJSON;
    mret match r with inl e => inl e | inr v => inr match items v ["Members"] with [] => "" | m :: _ => str m ["@odata.id"] end end.
Definition collectionMembers (c : client) (path : string) : act (result rerr (list string)) :=
  r ← read c path collectionJSON;
  mret match r with inl e => inl e | inr v => inr (map (fun m => str m ["@odata.id"]) (items v ["Members"])) end.
Definition resolveSystemPath (c : client) : act (result rerr string) :=
  r ← readServiceRoot c;
  match r with
  | inl e => mret (inl e)
  | inr root =>
    p ← firstMember c (str root ["Systems"; "@odata.id"]);
    mret match p with
    | inl e => inl (wrap_err "redfish: resolve system: " e)
    | inr p => if bool_decide (p = "") then inl (other "redfish: no system members") else inr p
    end
  end.

Definition with_inventory (f : MachineInventory -> MachineInventory) (s : Snapshot) : Snapshot :=
  mkSnapshot (sn_PowerState s) (sn_IndicatorLED s) (f (sn_Inventory s)) (sn_Sensors s) (sn_Log s) (sn_LogTotal s) (sn_LogCounts s) (sn_PostState s) (sn_SensorsTrustworthy s) (sn_LogPossiblyStale s).
Definition with_sensors (f : MachineSensors -> MachineSensors) (s : Snapshot) : Snapshot :=
  mkSnapshot (sn_PowerState s) (sn_IndicatorLED s) (sn_Inventory s) (f (sn_Sensors s)) (sn_Log s) (sn_LogTotal s) (sn_LogCounts s) (sn_PostState s) (sn_SensorsTrustworthy s) (sn_LogPossiblyStale s).
Definition with_firmware (v : string) (i : MachineInventory) : MachineInventory :=
  mkMachineInventory (inv_Manufacturer i) (inv_Model i) (inv_SerialNumber i) (inv_BIOSVersion i) v (inv_Processors i) (inv_MemoryModules i) (inv_TotalMemoryGiB i) (inv_Drives i) (inv_StorageControllers i) (inv_NetworkAdapters i).
Definition with_parts (ps : list ProcessorInfo) (ms : list MemoryModuleInfo) (ns : list NetworkAdapterInfo) (i : MachineInventory) : MachineInventory :=
  mkMachineInventory (inv_Manufacturer i) (inv_Model i) (inv_SerialNumber i) (inv_BIOSVersion i) (inv_BMCFirmware i) (inv_Processors i ++ ps) (inv_MemoryModules i ++ ms) (inv_TotalMemoryGiB i) (inv_Drives i) (inv_StorageControllers i) (inv_NetworkAdapters i ++ ns).
Definition with_storage (cs : list StorageControllerInfo) (ds : list DriveInfo) (i : MachineInventory) : MachineInventory :=
  mkMachineInventory (inv_Manufacturer i) (inv_Model i) (inv_SerialNumber i) (inv_BIOSVersion i) (inv_BMCFirmware i) (inv_Processors i) (inv_MemoryModules i) (inv_TotalMemoryGiB i) (inv_Drives i ++ ds) (inv_StorageControllers i ++ cs) (inv_NetworkAdapters i).

Definition readManager (c : client) (snap : Snapshot) : act (result rerr Snapshot) :=
  r ← read c "/redfish/v1/Managers/1/" managerJSON;
  mret match r with
  | inr mgr => inr (with_inventory (with_firmware (str mgr ["FirmwareVersion"])) snap)
  | inl e => if is_not_found e then inr snap else inl (wrap_err "redfish: read manager: " e)
  end.

Definition statusStateAbsent : string := "Absent".
Definition present (v : val) : bool := negb (bool_decide (str v ["Status"; "State"] = statusStateAbsent)).
Definition sanitizeUpperCritical (p : option Z) : option Z := match p with Some z => if z <=? 0 then None else Some z | None => None end.
Definition temperature_of (t : val) : TemperatureReading :=
  mkTemperature (str t ["Name"]) (int t ["ReadingCelsius"]) (sanitizeUpperCritical (opt_int t ["UpperThresholdCritical"])) (str t ["Status"; "Health"]).
Definition fan_of (f : val) : FanReading := mkFan (str f ["FanName"]) (int f ["CurrentReading"]) (str f ["Units"]) (str f ["Status"; "Health"]).
Definition supply_of (p : val) : PowerSupplyReading := mkPowerSupply (str p ["Name"]) (str p ["Status"; "Health"]) (str p ["Status"; "State"]) (int p ["LastPowerOutputWatts"]).
Definition readThermal (c : client) (chassis : string) (snap : Snapshot) : act (result rerr Snapshot) :=
  r ← read c (joinPath chassis ["Thermal"]) thermalJSON;
  mret match r with
  | inr th => inr (with_sensors (fun s => mkSensors (se_Temperatures s ++ map temperature_of (List.filter present (items th ["Temperatures"])))
      (se_Fans s ++ map fan_of (List.filter present (items th ["Fans"]))) (se_PowerSupplies s) (se_PowerConsumedWatts s)) snap)
  | inl e => if is_not_found e then inr snap else inl (wrap_err "redfish: read thermal: " e)
  end.
Definition readPower (c : client) (chassis : string) (snap : Snapshot) : act (result rerr Snapshot) :=
  r ← read c (joinPath chassis ["Power"]) powerJSON;
  mret match r with
  | inr pw => inr (with_sensors (fun s => mkSensors (se_Temperatures s) (se_Fans s) (se_PowerSupplies s ++ map supply_of (List.filter present (items pw ["PowerSupplies"])))
      (match items pw ["PowerControl"] with [] => se_PowerConsumedWatts s | p :: _ => int p ["PowerConsumedWatts"] end)) snap)
  | inl e => if is_not_found e then inr snap else inl (wrap_err "redfish: read power: " e)
  end.
Definition readSensors (c : client) (collection : string) (snap : Snapshot) : act (result rerr Snapshot) :=
  p ← firstMember c collection;
  match p with
  | inl e => mret (if is_not_found e then inr snap else inl (wrap_err "redfish: resolve chassis: " e))
  | inr chassis =>
    if bool_decide (chassis = "") then mret (inr snap)
    else
      r ← readThermal c chassis snap;
      match r with inl e => mret (inl e) | inr snap => readPower c chassis snap end
  end.

(** A collection's members, each read and turned into a part; one that is not there is skipped. *)
Fixpoint read_each {A} (c : client) (what : string) (t : ty) (make : val -> A) (refs : list string) : act (result rerr (list A)) :=
  match refs with
  | [] => mret (inr [])
  | ref :: refs =>
    r ← read c ref t;
    match r with
    | inl e => if is_not_found e then read_each c what t make refs else mret (inl (wrap_err ("redfish: read " +:+ what +:+ " " +:+ ref +:+ ": ") e))
    | inr v => rest ← read_each c what t make refs; mret match rest with inl e => inl e | inr l => inr (make v :: l) end
    end
  end.
Definition read_collection {A} (c : client) (path all what : string) (t : ty) (make : val -> A) : act (result rerr (list A)) :=
  r ← collectionMembers c path;
  match r with
  | inl e => mret (if is_not_found e then inr [] else inl (wrap_err ("redfish: read " +:+ all +:+ ": ") e))
  | inr refs => read_each c what t make refs
  end.
Definition processor_of (p : val) : ProcessorInfo := mkProcessorInfo (str p ["Socket"]) (str p ["Model"]) (int p ["TotalCores"]) (int p ["TotalThreads"]).
Definition adapter_of (e : val) : NetworkAdapterInfo := mkNetworkAdapterInfo (str e ["Name"]) (str e ["MACAddress"]) (str e ["Status"; "Health"]).
Definition first_of (l : list string) : string := default "" (List.find (fun s => negb (bool_decide (s = ""))) l).
Definition memoryModuleFrom (m : val) : MemoryModuleInfo :=
  let size := int m ["CapacityMiB"] in
  mkMemoryModuleInfo (first_of [str m ["DeviceLocator"]; str m ["SocketLocator"]; str m ["Id"]]) (if size =? 0 then int m ["SizeMB"] else size)
    (first_of [str m ["MemoryDeviceType"]; str m ["DIMMType"]]) (str m ["Manufacturer"]).
Definition readProcessors (c : client) (path : string) (snap : Snapshot) : act (result rerr Snapshot) :=
  r ← read_collection c path "processors" "processor" processorJSON processor_of;
  mret match r with inl e => inl e | inr l => inr (with_inventory (with_parts l [] []) snap) end.
Definition readMemory (c : client) (path : string) (snap : Snapshot) : act (result rerr Snapshot) :=
  r ← read_collection c path "memory" "memory module" memoryJSON memoryModuleFrom;
  mret match r with inl e => inl e | inr l => inr (with_inventory (with_parts [] l []) snap) end.
Definition readEthernetInterfaces (c : client) (path : string) (snap : Snapshot) : act (result rerr Snapshot) :=
  r ← read_collection c path "ethernet interfaces" "network adapter" ethernetInterfaceJSON adapter_of;
  mret match r with inl e => inl e | inr l => inr (with_inventory (with_parts [] [] l) snap) end.
Definition readComponentInventory (c : client) (system : string) (snap : Snapshot) : act (result rerr Snapshot) :=
  r ← readProcessors c (joinPath system ["Processors"]) snap;
  match r with
  | inl e => mret (inl e)
  | inr snap =>
    r ← readMemory c (joinPath system ["Memory"]) snap;
    match r with inl e => mret (inl e) | inr snap => readEthernetInterfaces c (joinPath system ["EthernetInterfaces"]) snap end
  end.

(** ** decode_storage.go *)

Definition cacheStatus (d : val) : string :=
  match raw d ["CacheModuleStatus"] with
  | None => ""
  | Some j =>
    let '(s, ok) := decode_into TStr (VStr "") j in
    if ok : bool then str s []
    else let '(o, ok) := decode_into (TStruct [("Health", TStr)]) (zero_val (TStruct [("Health", TStr)])) j in if ok : bool then str o ["Health"] else ""
  end.
Definition reported (v : option float64) : option Z :=
  match v with
  | None => None
  | Some f => if float_lt f 1 || float_gt f (2 ^ 31 - 1) then None else Some (float_trunc f)
  end.
Definition plainInt32 (v : option float64) : Z := default 0 (reported v).
Definition controller_of (ac : val) : StorageControllerInfo :=
  mkStorageControllerInfo (str ac ["Location"]) (str ac ["Model"]) (str ac ["FirmwareVersion"; "Current"; "VersionString"]) (str ac ["Status"; "Health"]) (str ac ["BackupPowerSourceStatus"]) (cacheStatus ac).
Definition drive_of (d : val) : DriveInfo :=
  mkDriveInfo (str d ["Location"]) (str d ["Model"]) (int d ["CapacityGB"]) (str d ["InterfaceType"]) (str d ["Status"; "Health"]) (str d ["SerialNumber"]) (str d ["Location"]) (str d ["MediaType"])
    (strings_at d ["DiskDriveStatusReasons"]) (str d ["FirmwareVersion"; "Current"; "VersionString"]) (plainInt32 (opt_num d ["RotationalSpeedRpm"])) (plainInt32 (opt_num d ["InterfaceSpeedMbps"]))
    (reported (opt_num d ["CurrentTemperatureCelsius"])) (reported (opt_num d ["PowerOnHours"])) (reported (opt_num d ["SSDEnduranceUtilizationPercentage"])).

(** ** client.go: the SmartStorage tree *)

Fixpoint read_drives (c : client) (refs : list string) : act (result rerr (list DriveInfo)) :=
  match refs with
  | [] => mret (inr [])
  | ref :: refs =>
    r ← read c ref diskDriveDoc;
    match r with
    | inl e => if is_not_found e then read_drives c refs else mret (inl (wrap_err ("disk drive " +:+ ref +:+ ": ") e))
    | inr d => rest ← read_drives c refs; mret match rest with inl e => inl e | inr l => inr (drive_of d :: l) end
    end
  end.
(** The drives of a controller that answered. *)
Definition drives_of (c : client) (ref : string) (ac : val) : act (result rerr (list DriveInfo)) :=
  let href := str ac ["links"; "PhysicalDrives"; "href"] in
  if bool_decide (href = "") then mret (inr [])
  else
    r ← read c href hpCollection;
    match r with
    | inl e => mret (if is_not_found e then inr [] else inl (wrap_err ("physical drives of " +:+ ref +:+ ": ") e))
    | inr v => read_drives c (map (fun m => str m ["@odata.id"]) (items v ["Members"]))
    end.
Fixpoint read_controllers (c : client) (refs : list string) : act (result rerr (list (StorageControllerInfo * list DriveInfo))) :=
  match refs with
  | [] => mret (inr [])
  | ref :: refs =>
    r ← read c ref arrayControllerDoc;
    match r with
    | inl e => if is_not_found e then read_controllers c refs else mret (inl (wrap_err ("array controller " +:+ ref +:+ ": ") e))
    | inr ac =>
      ds ← drives_of c ref ac;
      match ds with
      | inl e => mret (inl e)
      | inr ds => rest ← read_controllers c refs; mret match rest with inl e => inl e | inr l => inr ((controller_of ac, ds) :: l) end
      end
    end
  end.
Definition readSmartStorage (c : client) (root : string) (snap : Snapshot) : act (result rerr Snapshot) :=
  if bool_decide (root = "") then mret (inr snap)
  else
    r ← read c root smartStorageDoc;
    match r with
    | inl e => mret (if is_not_found e then inr snap else inl (wrap_err ("smart storage root " +:+ root +:+ ": ") e))
    | inr ss =>
      let href := str ss ["links"; "ArrayControllers"; "href"] in
      if bool_decide (href = "") then mret (inr snap)
      else
        r ← read c href hpCollection;
        match r with
        | inl e => mret (if is_not_found e then inr snap else inl (wrap_err "array controllers: " e))
        | inr v =>
          r ← read_controllers c (map (fun m => str m ["@odata.id"]) (items v ["Members"]));
          mret match r with inl e => inl e | inr l => inr (with_inventory (with_storage (map fst l) (flat_map snd l)) snap) end
        end
    end.

(** ** decode_log.go *)

Definition queryParameterOutOfRangeMessageID : string := "Base.0.10.QueryParameterOutOfRange".
Definition logEntriesPageURL (base : string) (page : Z) : string := (if ends_slash base then base else base +:+ "/") +:+ "?page=" +:+ itoa page.
Definition effectiveCreated (e : val) : time := let created := when e ["Created"] in if is_zero created then when e ["Oem"; "Hp"; "Updated"] else created.
Definition entry_of (e : val) : EventLogEntry := mkLogEntry (str e ["Id"]) (str e ["Severity"]) (str e ["Message"]) (effectiveCreated e).
(** The largest page, out of the body of the refusal. *)
Definition max_page (body : val) (page : Z) : result rerr Z :=
  match items body ["Messages"] with
  | [] => inl (other ("redfish: page " +:+ itoa page +:+ "'s error body did not carry " +:+ queryParameterOutOfRangeMessageID))
  | m :: _ =>
    if negb (bool_decide (str m ["MessageID"] = queryParameterOutOfRangeMessageID)) then inl (other ("redfish: page " +:+ itoa page +:+ "'s error body did not carry " +:+ queryParameterOutOfRangeMessageID))
    else
      let args := strings_at m ["MessageArgs"] in
      match args !! 2%nat with
      | None => inl (other ("redfish: " +:+ queryParameterOutOfRangeMessageID +:+ " had " +:+ itoa (Z.of_nat (length args)) +:+ " MessageArgs, want at least 3"))
      | Some a =>
        let bad := inl (other ("redfish: " +:+ queryParameterOutOfRangeMessageID +:+ "'s max page " +:+ quote a +:+ " is not a positive integer")) in
        match parse_int64 a with Some p => if p <=? 0 then bad else inr p | None => bad end
      end
  end.
Definition discoverMaxLogPage (c : client) (base : string) (page : Z) : act (result rerr Z) :=
  r ← get c (logEntriesPageURL base page) queryOutOfRangeErrorJSON;
  mret match r.2 with
  | None => inl (other ("redfish: page " +:+ itoa page +:+ " answered success, not the out-of-range error expected to bound the jump"))
  | Some e => if negb (is_bad_request e) then inl (wrap_err "redfish: probe for the log's last page: " e) else max_page r.1 page
  end.
Definition fetchLastLogPage (c : client) (base : string) (total : Z) : act (result rerr val) :=
  if total <=? 0 then mret (inl (other "redfish: log reports more pages but no usable Total to bound a jump to the last one"))
  else
    m ← discoverMaxLogPage c base (wrap64 (total + 1));
    match m with
    | inl e => mret (inl e)
    | inr page =>
      r ← read c (logEntriesPageURL base page) logCollectionJSON;
      mret match r with inl e => inl (wrap_err ("redfish: read log page " +:+ itoa page +:+ ": ") e) | inr v => inr v end
    end.
Definition count_severity (counts : gmap string Z) (e : val) : gmap string Z := let s := str e ["Severity"] in <[s := wrap64 (default 0 (counts !! s) + 1)]> counts.
(** The snapshot, from the page that was settled on. *)
Definition log_from (col : val) (stale : bool) (s : Snapshot) : Snapshot :=
  let members := match items col ["Items"] with [] => items col ["Members"] | l => l end in
  mkSnapshot (sn_PowerState s) (sn_IndicatorLED s) (sn_Inventory s) (sn_Sensors s)
    (take EventLogRetainCount (sort_log (map entry_of members)))
    (default (Z.of_nat (length members)) (opt_int col ["Members@odata.count"]))
    (Some (fold_left count_severity members (default ∅ (sn_LogCounts s))))
    (sn_PostState s) (sn_SensorsTrustworthy s) (stale || sn_LogPossiblyStale s).
Definition has_next (col : val) : bool := match at_path col ["links"; "NextPage"] with VPtr (Some _) => true | _ => false end.
Definition readLog (c : client) (path : string) (snap : Snapshot) : act (result rerr Snapshot) :=
  r ← read c path logCollectionJSON;
  match r with
  | inl e => mret (if is_not_found e then inr snap else inl (wrap_err "redfish: read log: " e))
  | inr col =>
    if has_next col then
      l ← fetchLastLogPage c path (int col ["Total"]);
      mret (inr match l with inr last => log_from last false snap | inl _ => log_from col true snap end)
    else mret (inr (log_from col false snap))
  end.

(** ** client.go: the operations *)

Definition to_int32 (z : Z) : Z := if int_range 32 z then z else wide_int32 z.
Definition first_snapshot (sys : val) : Snapshot :=
  let power := str sys ["PowerState"] in
  let post := str sys ["Oem"; "Hp"; "PostState"] in
  mkSnapshot power (str sys ["IndicatorLED"])
    (mkMachineInventory (str sys ["Manufacturer"]) (str sys ["Model"]) (str sys ["SerialNumber"]) (str sys ["BiosVersion"]) "" [] []
       (to_int32 (float_round (num sys ["MemorySummary"; "TotalSystemMemoryGiB"]))) [] [] [])
    (mkSensors [] [] [] 0) [] 0 (Some ∅) post
    (bool_decide (power = "On") && negb (bool_decide (post = "PowerOff")) && negb (bool_decide (post = "InPost"))) false.
Definition and_then {A B} (m : act (result rerr A)) (k : A -> act (result rerr B)) : act (result rerr B) := r ← m; match r with inl e => mret (inl e) | inr a => k a end.
(** What is read once there is a system document. *)
Definition probe_rest (c : client) (root sys : val) (system : string) : act (result rerr Snapshot) :=
  r ← readSmartStorage c (str sys ["Oem"; "Hp"; "links"; "SmartStorage"; "href"]) (first_snapshot sys);
  match r with
  | inl e => mret (inl (wrap_err "redfish: read SmartStorage: " e))
  | inr snap =>
    and_then (readManager c snap) (fun snap =>
    and_then (readSensors c (str root ["Chassis"; "@odata.id"]) snap) (fun snap =>
    and_then (readComponentInventory c system snap) (fun snap =>
    let logs := str sys ["LogServices"; "@odata.id"] in
    if bool_decide (logs = "") then mret (inr snap) else readLog c (joinPath logs ["IML"; "Entries"]) snap)))
  end.
Definition Probe (c : client) : act (result rerr Snapshot) :=
  r ← readServiceRoot c;
  match r with
  | inl e => mret (inl (if is_not_found e then mkErr ("redfish: " +:+ cl_baseURL c +:+ " answered no service root at /redfish/v1/: " +:+ errUnsupported) KUnsupported else e))
  | inr root =>
    let systems := str root ["Systems"; "@odata.id"] in
    if bool_decide (systems = "") then mret (inl (mkErr ("redfish: " +:+ cl_baseURL c +:+ "'s service root exposes no Systems collection, not a Redfish service: " +:+ errUnsupported) KUnsupported))
    else
      p ← firstMember c systems;
      match p with
      | inl e => mret (inl (wrap_err "redfish: resolve system: " e))
      | inr system =>
        if bool_decide (system = "") then mret (inl (other "redfish: no system members"))
        else
          r ← read c system computerSystemJSON;
          match r with
          | inl e => mret (inl (wrap_err "redfish: read system document: " e))
          | inr sys => probe_rest c root sys system
          end
      end
  end.

Definition resolveResetType (requested : string) (allowable : list string) : result rerr string :=
  if bool_decide (requested = "GracefulShutdown") && negb (bool_decide ("GracefulShutdown" ∈ allowable)) then
    if bool_decide ("PushPowerButton" ∈ allowable) then inr "PushPowerButton"
    else if bool_decide (allowable = []) then inr requested
    else inl ErrUnsupported
  else if negb (bool_decide (allowable = [])) && negb (bool_decide (requested ∈ allowable)) then inl ErrUnsupported
  else inr requested.
Definition Reset (c : client) (resetType : string) : act (option rerr) :=
  p ← resolveSystemPath c;
  match p with
  | inl e => mret (Some e)
  | inr system =>
    r ← read c system computerSystemJSON;
    match r with
    | inl e => mret (Some (wrap_err "redfish: read system document: " e))
    | inr sys =>
      let target := str sys ["Actions"; "#ComputerSystem.Reset"; "target"] in
      if bool_decide (target = "") then mret (Some ErrUnsupported)
      else match resolveResetType resetType (strings_at sys ["Actions"; "#ComputerSystem.Reset"; "ResetType@Redfish.AllowableValues"]) with
      | inl e => mret (Some e)
      | inr resolved => post c target (JObj [("ResetType", JStr resolved)])
      end
    end
  end.
Definition ClearLog (c : client) : act (option rerr) :=
  p ← resolveSystemPath c;
  match p with
  | inl e => mret (Some e)
  | inr system =>
    r ← read c system computerSystemJSON;
    match r with
    | inl e => mret (Some (wrap_err "redfish: read system document: " e))
    | inr sys =>
      let logs := str sys ["LogServices"; "@odata.id"] in
      if bool_decide (logs = "") then mret (Some ErrUnsupported)
      else
        r ← read c (joinPath logs ["IML"]) logServiceJSON;
        match r with
        | inl e => mret (Some (if is_not_found e then ErrUnsupported else wrap_err "redfish: read log service: " e))
        | inr svc =>
          let target := str svc ["Actions"; "#LogService.ClearLog"; "target"] in
          if bool_decide (target = "") then mret (Some ErrUnsupported) else post c target (JObj [("Action", JStr "LogService.ClearLog")])
        end
    end
  end.
Definition indicatorLEDOff : string := "Off".
Definition indicatorLEDLit : string := "Lit".
Definition SetIndicatorLED (c : client) (on : bool) : act (option rerr) :=
  p ← resolveSystemPath c;
  match p with
  | inl e => mret (Some e)
  | inr system => patch c system (JObj [("IndicatorLED", JStr (if on then indicatorLEDLit else indicatorLEDOff))])
  end.

(** ** redfishbmc.go *)

(** Its redfish.Client is built without options and has no session. *)
Record RedfishBMC := mkBMC { rb_client : client; rb_baseURL : string; rb_username : string; rb_password : string }.
Definition NewRedfishBMC (baseURL username password : string) (tls : option TLSConfig) : RedfishBMC :=
  mkBMC (New baseURL username password tls false) (trim_suffix baseURL "/") username password.
Definition sessionless {A} (m : act A) : St W A := fun w => let '(a, (_, w')) := m (zero_session, w) in (a, w').

Definition bmc_do (b : RedfishBMC) (method path : string) (body : option json) (out : option ty) : St W (val * option string) :=
  let zero := match out with Some t => zero_val t | None => VPtr None end in
  let url := rb_baseURL b +:+ path in
  match request_error method url with
  | Some e => mret (zero, Some ("redfish: build request for " +:+ path +:+ ": " +:+ e))
  | None =>
    r ← http_do (mkReq method url (Basic (rb_username b) (rb_password b)) ((fun j => of_bytes (print j)) <$> body));
    mret match r with
    | inl e => (zero, Some ("redfish: request " +:+ path +:+ ": " +:+ te_text e))
    | inr resp =>
      if 300 <=? rs_Code resp then
        (zero, Some ("redfish: " +:+ method +:+ " " +:+ path +:+ " returned " +:+ rs_Status resp +:+ ": " +:+ trim_space (of_bytes (take 4096 (to_bytes (rs_Body resp))))))
      else match out with
      | None => (zero, None)
      | Some t => let '(v, ok) := decode_body t (rs_Body resp) in (v, if ok : bool then None else Some ("redfish: decode " +:+ path +:+ ": " +:+ json_error t (rs_Body resp)))
      end
    end
  end.
Definition bmc_send (b : RedfishBMC) (method path : string) (body : json) : St W (option string) := r ← bmc_do b method path (Some body) None; mret r.2.
Definition bmc_read (b : RedfishBMC) (path : string) (out : ty) : St W (result string val) := r ← bmc_do b "GET" path None (Some out); mret match r.2 with Some e => inl e | None => inr r.1 end.

Definition virtualMediaPath : string := "/redfish/v1/Managers/1/VirtualMedia/2/".
Definition systemPath : string := "/redfish/v1/Systems/1/".
Definition insert_action : string := virtualMediaPath +:+ "Actions/Oem/Hp/HpiLOVirtualMedia.InsertVirtualMedia/".
Definition eject_action : string := virtualMediaPath +:+ "Actions/Oem/Hp/HpiLOVirtualMedia.EjectVirtualMedia/".

Definition Serial (b : RedfishBMC) : St W (result string string) :=
  r ← sessionless (Probe (rb_client b));
  mret match r with inl e => inl ("redfish: reading serial: " +:+ er_text e) | inr s => inr (inv_SerialNumber (sn_Inventory s)) end.
Definition Reset_bmc (b : RedfishBMC) (resetType : string) : St W (option string) := r ← sessionless (Reset (rb_client b) resetType); mret (er_text <$> r).
Definition InsertMedia (b : RedfishBMC) (url : string) : St W (option string) := bmc_send b "POST" insert_action (JObj [("Image", JStr url)]).
Definition mediaJSON : ty := TStruct [("Inserted", TBool)].
Definition MediaInserted (b : RedfishBMC) : St W (result string bool) :=
  r ← bmc_read b virtualMediaPath mediaJSON; mret match r with inl e => inl e | inr v => inr (truth v ["Inserted"]) end.
Definition EjectMedia (b : RedfishBMC) : St W (option string) :=
  r ← MediaInserted b;
  match r with
  | inr false => mret None
  | _ =>
    p ← bmc_send b "POST" eject_action (JObj []);
    match p with
    | None => mret None
    | Some e => r ← MediaInserted b; mret match r with inr false => None | _ => Some e end
    end
  end.
Definition systemDoc : ty := TStruct [("Boot", TRawMap); ("Oem", TStruct [("Hp", TStruct [("links", TStruct [("BIOS", TStruct [("href", TStr)])])])])].
Definition readSystem (b : RedfishBMC) : St W (result string val) := bmc_read b systemPath systemDoc.
Definition ilo4JSON : ty := TStruct [("Oem", TStruct [("Hp", TRaw)])].
Definition virtualMediaIsILO4 (b : RedfishBMC) : St W (result string bool) :=
  r ← bmc_read b virtualMediaPath ilo4JSON;
  mret match r with inl e => inl e | inr v => inr match raw v ["Oem"; "Hp"] with None | Some JNull => false | Some _ => true end end.
Definition bootResetJSON : ty := TStruct [("Oem", TStruct [("Hp", TStruct [("BootOnNextServerReset", TBool)])])].
Definition boot_once_body : json := JObj [("Oem", JObj [("Hp", JObj [("BootOnNextServerReset", JBool true)])])].
Definition bootVirtualCDOnce (b : RedfishBMC) : St W (option string) :=
  e ← bmc_send b "PATCH" virtualMediaPath boot_once_body;
  match e with
  | Some e => mret (Some e)
  | None =>
    r ← bmc_read b virtualMediaPath bootResetJSON;
    mret match r with
    | inl e => Some ("redfish: reading back BootOnNextServerReset: " +:+ e)
    | inr v => if truth v ["Oem"; "Hp"; "BootOnNextServerReset"] then None
               else Some ("redfish: the BMC accepted Oem.Hp.BootOnNextServerReset on " +:+ virtualMediaPath +:+ " but reads it back false")
    end
  end.
Definition biosBootModes (mode : string) : option string :=
  if bool_decide (mode = bootUEFI) then Some "Uefi" else if bool_decide (mode = bootLegacy) then Some "LegacyBios" else None.
Definition biosJSON : ty := TStruct [("BootMode", TStr)].
Definition checkBootMode (b : RedfishBMC) (sys : val) (mode : string) : St W (option string) :=
  match biosBootModes mode with
  | None => mret (Some ("redfish: boot mode " +:+ quote mode +:+ ": must be " +:+ quote bootUEFI +:+ " or " +:+ quote bootLegacy))
  | Some want =>
    let href := str sys ["Oem"; "Hp"; "links"; "BIOS"; "href"] in
    if bool_decide (href = "") then
      mret (Some ("redfish: this BMC cannot set the boot mode with the override (no BootSourceOverrideMode) and offers no BIOS resource to confirm it is " +:+ mode +:+ "; refusing rather than inheriting the machine's mode"))
    else
      r ← bmc_read b href biosJSON;
      mret match r with
      | inl e => Some ("redfish: reading the boot mode to confirm it is " +:+ mode +:+ ": " +:+ e)
      | inr v =>
        let have := str v ["BootMode"] in
        if bool_decide (have = "") then Some ("redfish: " +:+ href +:+ " carries no BootMode; cannot confirm the machine boots " +:+ mode +:+ ", refusing rather than inheriting its mode")
        else if EqualFold have want then None
        else Some ("redfish: the machine boots " +:+ have +:+ " but " +:+ mode +:+ " was asked, and this BMC cannot change the mode through a boot override; change it in the BIOS first")
      end
  end.
Definition boot_body (target : string) (mode : option string) : json :=
  JObj [("Boot", JObj ([("BootSourceOverrideEnabled", JStr "Once")] ++ match mode with Some m => [("BootSourceOverrideMode", JStr m)] | None => [] end ++ [("BootSourceOverrideTarget", JStr target)]))].
(** The system's own override. *)
Definition override_once (b : RedfishBMC) (sys : val) (target mode : string) : St W (option string) :=
  match raw_map sys ["Boot"] with
  | None => mret (Some ("redfish: " +:+ systemPath +:+ " exposes no Boot object to set an override on"))
  | Some boot =>
    if bool_decide (is_Some (raw_lookup "BootSourceOverrideMode" boot)) then bmc_send b "PATCH" systemPath (boot_body target (Some mode))
    else
      e ← checkBootMode b sys mode;
      match e with Some e => mret (Some e) | None => bmc_send b "PATCH" systemPath (boot_body target None) end
  end.
Definition SetBootOnce (b : RedfishBMC) (target mode : string) : St W (option string) :=
  r ← readSystem b;
  match r with
  | inl e => mret (Some e)
  | inr sys =>
    if bool_decide (target = "Cd") then
      h ← virtualMediaIsILO4 b;
      match h with
      | inl e => mret (Some e)
      | inr true => e ← checkBootMode b sys mode; match e with Some e => mret (Some e) | None => bootVirtualCDOnce b end
      | inr false => override_once b sys target mode
      end
    else override_once b sys target mode
  end.
Definition disable_body : json := JObj [("Boot", JObj [("BootSourceOverrideEnabled", JStr "Disabled"); ("BootSourceOverrideTarget", JStr "None")])].
(** No override is active, as the system says. *)
Definition override_off (sys : val) : bool :=
  match raw_lookup "BootSourceOverrideEnabled" (default [] (raw_map sys ["Boot"])) with
  | None => true
  | Some j => let '(v, ok) := decode_into TStr (VStr "") j in ok && bool_decide (str v [] = "Disabled")
  end.
Definition ClearBootOverride (b : RedfishBMC) : St W (option string) :=
  r ← readSystem b;
  match r with
  | inr sys => if override_off sys then mret None else bmc_send b "PATCH" systemPath disable_body
  | inl _ => bmc_send b "PATCH" systemPath disable_body
  end.
End Client.
