(* ===== verification/RedfishSafety.v ===== *)
(** What the Redfish client and the BMC driver guarantee: decoding keeps the type of what is
    decoded into ([decode_typed], [drive_numbers_fit]); where the credentials and the session's
    token go ([credentials_confined]) and how many requests an operation makes
    ([log_read_bounded]); what is retained of a log ([newest_retained]); what a reset
    sends ([reset_permitted]); and that the installation's boot mode is confirmed before a
    boot is asked for ([boot_mode_confirmed]), its media out when it says so
    ([eject_means_out]) and no override left ([override_cleared]). [Demo] runs them
    against an in-memory BMC, one that answers a reference with no leading slash among
    them ([Demo.stray_reference]). *)
From stdpp Require Import base tactics strings sets list gmap.
From Stdlib Require Import ZArith Lia Ascii Sorted.
From S2P Require Import Prelude Trace GoLib GoText GoTime GoNet GoJson Conversion GoDecode StorageTypes Provision BeaconStore MachineController Redfish.

Open Scope Z_scope.

(** ** Decoding *)

(** A value of a type; an int is one of its width. *)
Fixpoint has_type (t : ty) (v : val) {struct t} : bool :=
  match t, v with
  | TStr, VStr _ | TBool, VBool _ | TFloat, VFloat _ | TTime, VTime _ | TRaw, VRaw _ | TRawMap, VRawMap _ => true
  | TInt bits, VInt z => (z =? 0) || int_range bits z
  | TPtr t, VPtr None => true
  | TPtr t, VPtr (Some v) => has_type t v
  | TSlice t, VSlice l rest => forallb (has_type t) l && forallb (has_type t) rest
  | TStruct fs, VStruct l =>
    (fix go fs l := match fs, l with
     | [], [] => true
     | p :: fs, q :: l => bool_decide (p.1 = q.1) && has_type p.2 q.2 && go fs l
     | _, _ => false
     end) fs l
  | _, _ => false
  end.
(** The fields of a struct have different keys, all the way down. *)
Fixpoint wf_ty (t : ty) : bool :=
  match t with
  | TPtr t | TSlice t => wf_ty t
  | TStruct fs => bool_decide (NoDup (List.map fst fs)) && forallb (fun p => wf_ty p.2) fs
  | _ => true
  end.

Lemma ty_nested_ind (P : ty -> Prop) : P TStr -> P TBool -> (forall b, P (TInt b)) -> P TFloat -> P TTime -> P TRaw -> (forall t, P t -> P (TPtr t)) -> (forall t, P t -> P (TSlice t)) ->
  P TRawMap -> (forall fs, Forall (fun p => P p.2) fs -> P (TStruct fs)) -> forall t, P t.
Proof.
  intros H1 H2 H3 H4 H5 H6 H7 H8 H9 H10. fix IH 1. intros [| |b| | | |t|t| |fs]; [done|done|apply H3|done|done|done|apply H7, IH|apply H8, IH|done|].
  apply H10. induction fs as [|p fs IHf]; constructor; [apply IH|exact IHf].
Qed.

Definition fields_typed (fs : list (string * ty)) (l : list (string * val)) : Prop := Forall2 (fun p q => p.1 = q.1 /\ has_type p.2 q.2 = true) fs l.
Lemma has_type_struct fs l : has_type (TStruct fs) (VStruct l) = true <-> fields_typed fs l.
Proof.
  unfold fields_typed. cbn. revert l. induction fs as [|p fs IH]; intros [|q l]; [split; [constructor|done]|by split; [|intros H; inversion H]|by split; [|intros H; inversion H]|]. split.
  - intros [[H1%bool_decide_eq_true H2]%andb_prop H3]%andb_prop. constructor; [done|by apply IH].
  - intros H. inversion H as [|? ? ? ? [H1 H2] H3]. subst. rewrite bool_decide_true, H2 by done. by apply IH.
Qed.
Lemma zero_typed t : has_type t (zero_val t) = true.
Proof.
  induction t as [| | | | | | | | |fs IH] using ty_nested_ind; try done. cbn [zero_val]. apply has_type_struct. unfold fields_typed. induction IH as [|p fs Hp _ IHf]; cbn; constructor; [by split|done].
Qed.

Lemma get_typed fs l n t : fields_typed fs l -> NoDup (List.map fst fs) -> (n, t) ∈ fs -> exists v, get_field n l = Some v /\ has_type t v = true.
Proof.
  intros H Hn Hin. induction H as [|p q fs l [Hk Ht] H IH]; [by apply not_elem_of_nil in Hin|]. destruct p as [m u], q as [m' v]. cbn in Hk, Ht. subst m'. cbn in Hn |- *. apply NoDup_cons in Hn as [Hm Hn].
  apply elem_of_cons in Hin as [[= -> ->]|Hin]; [rewrite bool_decide_true by done; eauto|]. rewrite bool_decide_false; [by apply IH|]. intros ->. apply Hm. apply list_elem_of_In, in_map_iff. exists (n, t). split; [done|by apply list_elem_of_In].
Qed.
Lemma put_typed fs l n t x : fields_typed fs l -> NoDup (List.map fst fs) -> (n, t) ∈ fs -> has_type t x = true -> fields_typed fs (put_field n x l).
Proof.
  intros H Hn Hin Hx. induction H as [|p q fs l [Hk Ht] H IH]; [constructor|]. destruct p as [m u], q as [m' v]. cbn in Hk, Ht. subst m'. cbn in Hn |- *. apply NoDup_cons in Hn as [Hm Hn].
  apply elem_of_cons in Hin as [[= -> ->]|Hin]; [rewrite bool_decide_true by done; by constructor|]. rewrite bool_decide_false; [constructor; [done|by apply IH]|]. intros ->. apply Hm. apply list_elem_of_In, in_map_iff. exists (n, t). split; [done|by apply list_elem_of_In].
Qed.
Lemma find_field_elem {A} p (fs : list (string * A)) f : find_field p fs = Some f -> exists n, (n, f) ∈ fs.
Proof. induction fs as [|[n g] fs IH]; [done|]. cbn. destruct (p n); [intros [= ->]; exists n; by left|]. intros H. destruct (IH H) as [m Hm]. exists m. by right. Qed.
Lemma field_of_elem {A} (fs : list (string * A)) k f : field_of fs k = Some f -> exists n, (n, f) ∈ fs.
Proof. unfold field_of. destruct (find_field _ fs) as [g|] eqn:E; [intros [= <-]; by eapply find_field_elem|]. apply find_field_elem. Qed.

Lemma zip_cells_typed (ok : val -> bool) dec zero cells l : (forall v j, ok v = true -> ok (dec v j).1 = true) -> ok zero = true ->
  forallb ok cells = true -> forallb ok (List.map fst (zip_cells (A:=val) dec zero cells l)) = true.
Proof.
  intros Hd Hz. revert cells. induction l as [|j l IH]; intros cells Hc; [done|]. destruct cells as [|v cells]; cbn; [by rewrite Hd, IH|].
  cbn in Hc. apply andb_prop in Hc as [Hv Hc]. by rewrite Hd, IH.
Qed.

(** Decoding JSON into a value of a type, whatever the JSON, leaves a value of that type: an
    integer is one of its field's width. *)
Theorem decode_typed (t : ty) (old : val) (j : json) : wf_ty t = true -> has_type t old = true -> has_type t (decode_into t old j).1 = true.
Proof.
  revert old j. induction t as [| |b| | | |t IH|t IH| |fs IH] using ty_nested_ind; intros old j Hw Ho; cbn [decode_into].
  - by destruct j.
  - by destruct j.
  - destruct j; try done. destruct (parse_int64 _) as [z|]; [|done]. destruct (int_range b z) eqn:E; [|done]. cbn. by rewrite E, orb_true_r.
  - destruct j; try done. by destruct (parse_float _).
  - destruct j; try done. by destruct (strict_time _).
  - done.
  - assert (has_type t (match old with VPtr (Some v) => v | _ => zero_val t end) = true) as Hv by (destruct old as [| | | | | |[v|]| | |]; try apply zero_typed; done).
    destruct j; try done; cbn [wf_ty] in Hw; match goal with |- context [decode_into t ?o ?j] => specialize (IH o j Hw Hv); destruct (decode_into t o j) as [v ok]; exact IH end.
  - destruct j as [| | | |l|]; try done. cbn [fst has_type].
    assert (forallb (has_type t) match old with VSlice l rest => (l ++ rest)%list | _ => [] end = true) as Hc by (destruct old; try done; by rewrite forallb_app).
    apply andb_true_iff. split; [by apply zip_cells_typed; [intros; by apply IH|apply zero_typed|]|].
    destruct l as [|j l]; [done|]. rewrite <- (take_drop (length (j :: l)) match old with VSlice l rest => (l ++ rest)%list | _ => [] end), forallb_app in Hc. by apply andb_prop in Hc as [_ ?].
  - by destruct j.
  - destruct old as [| | | | | | | | |l]; try (by destruct j). destruct j as [| | | | |ms]; try done. cbn [wf_ty] in Hw. apply andb_prop in Hw as [Hn%bool_decide_eq_true Hw]. apply has_type_struct in Ho.
    assert (forall ms l, fields_typed fs l -> fields_typed fs (decode_fields (List.map (fun p => (p.1, (p.1, decode_into p.2))) fs) ms l).1) as H.
    { clear ms l Ho. induction ms as [|[k j] ms IHm]; intros l Ho; [done|]. cbn [decode_fields]. destruct (field_of _ k) as [[n dec]|] eqn:E; [|by apply IHm].
      apply field_of_elem in E as (m & Hm). apply list_elem_of_In, in_map_iff in Hm as ([n' t] & [= <- <- <-] & Hin). cbn [fst snd].
      destruct (get_typed fs l n' t Ho Hn) as (v & Hv & Htv); [by apply list_elem_of_In|]. rewrite Hv.
      assert (has_type t (decode_into t v j).1 = true) as Hd. { rewrite Forall_forall in IH. apply (IH (n', t)); [by apply list_elem_of_In| |done]. rewrite forallb_forall in Hw. by apply (Hw (n', t)). }
      destruct (decode_into t v j) as [v' ok]. specialize (IHm (put_field n' v' l)). destruct (decode_fields _ ms (put_field n' v' l)) as [l' ok']. apply IHm. eapply put_typed; [done|done| |exact Hd]. by apply list_elem_of_In. }
    specialize (H ms l Ho). destruct (decode_fields _ ms l) as [l' ok]. by apply has_type_struct.
Qed.
Lemma body_typed t body : wf_ty t = true -> has_type t (decode_body t body).1 = true.
Proof. intros Hw. unfold decode_body. destruct (parse_value _ _ _) as [[j r]|]; [|apply zero_typed]. apply decode_typed; [done|apply zero_typed]. Qed.

Lemma field_typed fs v n t : has_type (TStruct fs) v = true -> NoDup (List.map fst fs) -> (n, t) ∈ fs -> has_type t (field v n) = true.
Proof. intros H Hn Hin. destruct v; try done. apply has_type_struct in H. destruct (get_typed _ _ _ _ H Hn Hin) as (x & Hx & Ht). cbn [field]. by rewrite Hx. Qed.
Lemma int_typed fs v n bits : has_type (TStruct fs) v = true -> NoDup (List.map fst fs) -> (n, TInt bits) ∈ fs -> 0 < bits -> int_range bits (int v [n]) = true.
Proof.
  intros H Hn Hin Hb. pose proof (field_typed _ _ _ _ H Hn Hin) as Ht. unfold int. cbn [at_path]. destruct (field v n) as [| |z| | | | | | |]; try done. cbn in Ht. apply orb_prop in Ht as [->%Z.eqb_eq|Ht]; [|done].
  unfold int_range. rewrite andb_true_iff, Z.leb_le, Z.ltb_lt. lia.
Qed.
Lemma reported_fits f z : reported f = Some z -> 1 <= z <= 2 ^ 31 - 1.
Proof.
  destruct f as [f|]; [|done]. unfold reported. destruct (float_lt f 1) eqn:E1; [done|]. destruct (float_gt f _) eqn:E2; [done|]. cbn [orb]. intros [= <-]. unfold float_lt, float_gt, float_trunc in *. destruct (0 <=? f_e f) eqn:Ee.
  - apply Z.ltb_ge in E1, E2. lia.
  - apply Z.ltb_ge in E1, E2. apply Z.leb_gt in Ee. set (d := 2 ^ (- f_e f)) in *. assert (0 < d) as Hd by (apply Z.pow_pos_nonneg; lia). rewrite Z.quot_div_nonneg by lia. split; [apply Z.div_le_lower_bound; lia|].
    apply Z.div_le_upper_bound; lia.
Qed.

(** Whatever a BMC answers for a drive, its numbers fit the int32 the inventory has for them; a
    temperature, the hours and the wear are either absent or at least one. *)
Theorem drive_numbers_fit (body : string) : let d := drive_of (decode_body diskDriveDoc body).1 in
  int_range 32 (dr_SizeGB d) = true /\ 0 <= dr_RotationSpeedRPM d < 2 ^ 31 /\ 0 <= dr_LinkSpeedMbps d < 2 ^ 31 /\
  Forall (fun o => match o with Some z => 1 <= z < 2 ^ 31 | None => True end) [dr_TemperatureCelsius d; dr_PowerOnHours d; dr_SSDEnduranceUsedPercent d].
Proof.
  assert (forall f, 0 <= plainInt32 f < 2 ^ 31) as Hp. { intros f. unfold plainInt32. destruct (reported f) as [z|] eqn:E; cbn; [apply reported_fits in E|]; lia. }
  assert (forall f, match reported f with Some z => 1 <= z < 2 ^ 31 | None => True end) as Hr. { intros f. destruct (reported f) eqn:E; [|done]. apply reported_fits in E. lia. }
  cbn. split; [|split; [apply Hp|split; [apply Hp|]]; by repeat constructor; apply Hr]. eapply int_typed with (bits := 32); [apply body_typed; vm_compute; reflexivity| | |lia].
  - apply (bool_decide_eq_true_1 _). vm_compute. reflexivity.
  - apply list_elem_of_In. cbn. auto 10.
Qed.

(** ** The log *)

(** sort.Slice with a strict weak order: the same entries, none before one that is later. *)
Class SortLaws {W : Type} (BW : BmcWorld W) := {
  sort_perm l : sort_log l ≡ₚ l;
  sort_order l i j a b : (i < j)%nat -> sort_log l !! i = Some a -> sort_log l !! j = Some b -> unix_nano (le_Created b) <= unix_nano (le_Created a)
}.

Definition page_entries (col : val) : list val := match items col ["Items"] with [] => items col ["Members"] | l => l end.
Definition of_severity (s : string) (l : list val) : list val := List.filter (fun e => bool_decide (str e ["Severity"] = s)) l.

Lemma counted l : forall counts s, (forall k, 0 <= default 0 (counts !! k)) -> default 0 (counts !! s) + Z.of_nat (length l) < 2 ^ 63 ->
  (forall k, default 0 (counts !! k) + Z.of_nat (length l) < 2 ^ 63) ->
  default 0 (fold_left count_severity l counts !! s) = default 0 (counts !! s) + Z.of_nat (length (of_severity s l)).
Proof.
  induction l as [|e l IH]; intros counts s H0 Hs Hb; [cbn; lia|]. cbn [fold_left].
  assert (forall k, default 0 (count_severity counts e !! k) = default 0 (counts !! k) + if bool_decide (str e ["Severity"] = k) then 1 else 0) as Hc.
  { intros k. unfold count_severity. case_bool_decide as E; [subst k; rewrite lookup_insert_eq; cbn; rewrite wrap64_small; [done|]|rewrite lookup_insert_ne by done; lia].
    specialize (Hb (str e ["Severity"])). specialize (H0 (str e ["Severity"])). unfold int64_ok. cbn [length] in Hb. lia. }
  rewrite IH.
  - rewrite Hc. unfold of_severity. cbn [List.filter]. case_bool_decide; cbn [length]; lia.
  - intros k. rewrite Hc. specialize (H0 k). case_bool_decide; lia.
  - rewrite Hc. cbn [length] in Hs. case_bool_decide; lia.
  - intros k. rewrite Hc. specialize (Hb k). cbn [length] in Hb. case_bool_decide; lia.
Qed.

(** Of the page of the log that was read, the snapshot keeps at most twenty-five entries, none of them
    older than one it leaves out, the newest first; and it counts every entry of the page by its severity. *)
Theorem newest_retained {W : Type} {BW : BmcWorld W} {SL : SortLaws BW} (col : val) (stale : bool) (s : Snapshot) :
  let l := sn_Log (log_from col stale s) in
  Z.of_nat (length (page_entries col)) < 2 ^ 63 -> sn_LogCounts s = Some ∅ ->
  (length l <= EventLogRetainCount)%nat /\
  (exists left_out, l ++ left_out ≡ₚ map entry_of (page_entries col) /\ forall kept e, kept ∈ l -> e ∈ left_out -> unix_nano (le_Created e) <= unix_nano (le_Created kept)) /\
  (forall i j a b, (i < j)%nat -> l !! i = Some a -> l !! j = Some b -> unix_nano (le_Created b) <= unix_nano (le_Created a)) /\
  exists counts, sn_LogCounts (log_from col stale s) = Some counts /\ forall sev, default 0 (counts !! sev) = Z.of_nat (length (of_severity sev (page_entries col))).
Proof.
  intros l Hlen Hc. subst l. unfold log_from. cbn [sn_Log sn_LogCounts]. fold (page_entries col). set (all := sort_log (map entry_of (page_entries col))). split; [rewrite length_take; lia|]. split; [|split].
  - exists (drop EventLogRetainCount all). rewrite take_drop. split; [apply sort_perm|]. intros kept e (i & Hi)%list_elem_of_lookup (j & Hj)%list_elem_of_lookup.
    apply lookup_take_Some in Hi as [Hi Hlt]. rewrite lookup_drop in Hj. eapply (sort_order _ i (EventLogRetainCount + j)%nat); [lia|exact Hi|exact Hj].
  - intros i j a b Hij [Ha _]%lookup_take_Some [Hb _]%lookup_take_Some. by eapply sort_order.
  - eexists. split; [done|]. intros sev. rewrite Hc. change (default ∅ (Some (∅ : gmap string Z))) with (∅ : gmap string Z). rewrite counted; [rewrite lookup_empty; cbn; lia|intros k; rewrite lookup_empty; cbn; lia| |intros k]; rewrite lookup_empty; cbn; lia.
Qed.

(** ** Requests *)

Definition exchange : Type := Req * result TransportErr Resp.
Class TracedBmc (W : Type) {BW : BmcWorld W} := {
  sent : W -> list exchange;
  t_http w q : sent (http_do q w).2 = (sent w ++ [(q, (http_do q w).1)])%list
}.

(** The host, and the port, an address names (RFC 3986): what is between the two slashes and the path,
    after the last at sign. *)
Fixpoint after_slashes (l : bytes) : option bytes :=
  match strip_prefix (to_bytes "://") l with Some r => Some r | None => match l with [] => None | _ :: l => after_slashes l end end.
Fixpoint until_any (stops l : bytes) : bytes := match l with [] => [] | c :: l => if existsb (Ascii.eqb c) stops then [] else c :: until_any stops l end.
Definition authority (url : string) : option bytes := (fun r => rev (until_any (to_bytes "@") (rev (until_any (to_bytes "/?#") r)))) <$> after_slashes (to_bytes url).

Lemma until_rooted l t : until_any (to_bytes "/?#") (l ++ "/"%char :: t) = until_any (to_bytes "/?#") l.
Proof. induction l as [|c l IH]; [done|]. cbn [until_any app]. destruct (existsb _ _); [done|]. by rewrite IH. Qed.
Lemma after_slashes_app l r t : after_slashes l = Some r -> after_slashes (l ++ t) = Some (r ++ t)%list.
Proof.
  assert (forall l r, after_slashes l = Some r -> (3 <= length l)%nat) as Hlen.
  { induction l0 as [|c l0 IH]; intros r0 H; cbn [after_slashes] in H.
    - done.
    - destruct (strip_prefix _ _) as [x|] eqn:E; [|apply IH in H; cbn; lia]. apply strip_prefix_spec in E. rewrite E. cbn. lia. }
  induction l as [|c l IH]; cbn [after_slashes app]; [done|]. destruct (strip_prefix (to_bytes "://") (c :: l)) as [x|] eqn:E.
  - intros [= <-]. apply strip_prefix_spec in E. by rewrite app_comm_cons, E, <- app_assoc, (proj2 (strip_prefix_spec (to_bytes "://") _ (x ++ t)) eq_refl).
  - intros H. destruct (strip_prefix (to_bytes "://") (c :: l ++ t)) as [y|] eqn:E'; [|by apply IH]. apply strip_prefix_spec in E'. pose proof (Hlen _ _ H) as Hl.
    destruct l as [|c1 [|c2 l]]; [cbn in Hl; lia|cbn in Hl; lia|]. cbn in E'. injection E' as -> -> -> Hy. by cbn in E.
Qed.
Lemma authority_rooted base path : is_Some (authority base) -> path = "" \/ has_prefix "/" path = true -> authority (base +:+ path) = authority base.
Proof.
  unfold authority. rewrite to_bytes_app. destruct (after_slashes (to_bytes base)) as [r|] eqn:E; [|by intros [? ?]]. intros _ Hp. rewrite (after_slashes_app _ _ _ E). cbn. do 3 f_equal.
  destruct Hp as [->|Hp]; [by rewrite app_nil_r|]. apply has_prefix_spec in Hp as (t & ->). rewrite to_bytes_app. f_equal. apply until_rooted.
Qed.

Section Session.
Context {W : Type} {BW : BmcWorld W} {TB : TracedBmc W} {U : Unicode}.
Variables (c : client) (s0 : sessionState).
Hypothesis Hbase : is_Some (authority (cl_baseURL c)).

Definition login_request : Req :=
  mkReq "POST" (cl_baseURL c +:+ "/redfish/v1/SessionService/Sessions/") NoAuth (Some (of_bytes (print (JObj [("UserName", JStr (cl_username c)); ("Password", JStr (cl_password c))])))).
(** A request's address is the client's base and a path, and it is to the base's host when that path is
    empty or starts at the root. *)
Definition addressed (q : Req) : Prop :=
  exists path, rq_URL q = cl_baseURL c +:+ path /\ (path = "" \/ has_prefix "/" path = true -> authority (rq_URL q) = authority (cl_baseURL c)).
(** The token was handed out; the BMC said it has no sessions. *)
Definition issued (pre : list exchange) (t : string) : Prop := exists resp, (login_request, inr resp) ∈ pre /\ rs_Token resp = t /\ rs_Code resp < 300.
Definition no_sessions (pre : list exchange) : Prop := exists resp, (login_request, inr resp) ∈ pre /\ (rs_Code resp = 404 \/ rs_Code resp = 405).

(** What a client that started from the session [s0] may send after [pre]. *)
Definition may_send (pre : list exchange) (x : exchange) : Prop :=
  addressed x.1 /\
  match rq_Auth x.1 with
  | NoAuth => cl_reuse c = true /\ x.1 = login_request /\ authority (rq_URL x.1) = authority (cl_baseURL c)
  | Basic u p => u = cl_username c /\ p = cl_password c /\ (cl_reuse c = false \/ ss_unsupported s0 = true \/ no_sessions pre)
  | Token t => cl_reuse c = true /\ t <> "" /\ (t = ss_token s0 \/ issued pre t)
  end.
(** What is known of the session: its token was issued, its location goes with a token, and
    a BMC without sessions gave none. *)
Record session_ok (s : sessionState) (pre : list exchange) : Prop := mkSessionOk {
  so_token : ss_token s = "" \/ ss_token s = ss_token s0 \/ issued pre (ss_token s);
  so_unsupported : ss_unsupported s = true -> ss_token s = "" /\ (ss_unsupported s0 = true \/ no_sessions pre);
  so_location : ss_token s = "" -> ss_location s = "";
  so_reuse : cl_reuse c = false -> s = s0
}.

Lemma issued_mono p q t : p ⊆ q -> issued p t -> issued q t.
Proof. intros Hs (r & H & ?). exists r. by split; [apply Hs|]. Qed.
Lemma no_sessions_mono p q : p ⊆ q -> no_sessions p -> no_sessions q.
Proof. intros Hs (r & H & ?). exists r. by split; [apply Hs|]. Qed.
Lemma session_ok_mono s p q : p ⊆ q -> session_ok s p -> session_ok s q.
Proof.
  intros Hs [Ht Hu Hl Hr]. constructor; [|intros H; destruct (Hu H) as [? [?|?]]|done|done]. - destruct Ht as [?|[?|?]]; [by left|by right; left|right; right; by eapply issued_mono].
  - by split; [|left]. - split; [done|right; by eapply no_sessions_mono].
Qed.

(** From any session that is in order, the requests of [m] are allowed, it leaves one in order,
    and what it answers satisfies [P]. *)
Definition obeys {A} (m : St (sessionState * W) A) (P : A -> sessionState -> list exchange -> Prop) : Prop :=
  forall s pre, session_ok s pre -> steps sent m s (fun a s' t => justified may_send pre t /\ session_ok s' (pre ++ t) /\ P a s' (pre ++ t)).
Definition any_of {A} : A -> sessionState -> list exchange -> Prop := fun _ _ _ => True.
Abbreviation lawful m := (obeys m any_of).

Lemma lawful_ret {A} (a : A) : lawful (mret a).
Proof. intros s pre H. apply steps_ret. by rewrite app_nil_r. Qed.
Lemma lawful_bind {A B} (m : St (sessionState * W) A) (k : A -> St (sessionState * W) B) : lawful m -> (forall a, lawful (k a)) -> lawful (m ≫= k).
Proof.
  intros Hm Hk s pre H. eapply steps_bind; [by apply Hm|]. intros a s' t (Hj & Hs & _). eapply steps_mono; [by apply Hk|]. intros b s'' t' (Hj' & Hs' & _). split; [by apply justified_app|]. by rewrite <- app_assoc in Hs'.
Qed.

(** A token that may be put on a request. *)
Definition usable (r : result rerr string) (s : sessionState) (pre : list exchange) : Prop :=
  match r with
  | inl _ => True
  | inr t => if bool_decide (t = "") then cl_reuse c = false \/ ss_unsupported s0 = true \/ no_sessions pre else cl_reuse c = true /\ (t = ss_token s0 \/ issued pre t)
  end.
Lemma login_obeys : cl_reuse c = true -> forall s pre, session_ok s pre -> ss_token s = "" -> ss_unsupported s = false ->
  steps sent (loginLocked c) s (fun r s' t => (length t <= 1)%nat /\ justified may_send pre t /\ session_ok s' (pre ++ t) /\ usable r s' (pre ++ t)).
Proof.
  intros Hr s pre Hs Ht Hu. unfold loginLocked. destruct (request_error _ _); [apply steps_ret; rewrite app_nil_r; split; [cbn; lia|]; by split|].
  eapply steps_beside; [eapply (emits_op _ _ (fun r => [(login_request, r)])); intros; apply t_http|]. intros r t ->.
  assert (forall r, justified may_send pre [(login_request, r)]) as Hj. { intros r'. cbn. split; [|done]. assert (authority (rq_URL login_request) = authority (cl_baseURL c)) as Ha by (apply authority_rooted; [done|by right]). split; [by exists sessionsPath|done]. }
  assert (forall r, session_ok s (pre ++ [(login_request, r)])) as Hk by (intros r'; eapply session_ok_mono; [|exact Hs]; set_solver).
  destruct r as [e|resp]; [apply steps_ret; split; [cbn; lia|]; split; [apply Hj|]; by split; [apply Hk|]|]. destruct ((rs_Code resp =? 404) || (rs_Code resp =? 405)) eqn:E4.
  { apply steps_remember, steps_ret. cbn [app length]. assert (no_sessions (pre ++ [(login_request, inr resp)])) as Hno. { exists resp. split; [set_solver|]. apply orb_prop in E4 as [E|E]; apply Z.eqb_eq in E; auto. }
    split; [done|]. split; [apply Hj|]. split; [|unfold usable; rewrite bool_decide_true by done; auto]. destruct (Hk (inr resp)) as [H1 H2 H3 H4]. constructor; cbn; [done| |done|congruence]. intros _. by split; [|right]. }
  destruct ((rs_Code resp =? 401) || (rs_Code resp =? 403)); [apply steps_ret; split; [cbn; lia|]; split; [apply Hj|]; by split; [apply Hk|]|]. destruct (300 <=? rs_Code resp) eqn:E3; [apply steps_ret; split; [cbn; lia|]; split; [apply Hj|]; by split; [apply Hk|]|].
  case_bool_decide as Etok; [apply steps_ret; split; [cbn; lia|]; split; [apply Hj|]; by split; [apply Hk|]|]. apply steps_remember, steps_ret. cbn [app length].
  assert (issued (pre ++ [(login_request, inr resp)]) (rs_Token resp)) as Hi. { exists resp. split; [set_solver|]. split; [done|]. apply Z.leb_gt in E3. lia. }
  split; [done|]. split; [apply Hj|]. split; [|unfold usable; rewrite bool_decide_false by done; auto].
  destruct Hs as [H1 H2 H3 H4]. constructor; cbn; [auto|congruence|done|congruence].
Qed.

Lemma session_token_obeys s pre : session_ok s pre -> steps sent (sessionToken c) s (fun r s' t => (length t <= 1)%nat /\ justified may_send pre t /\ session_ok s' (pre ++ t) /\ usable r s' (pre ++ t)).
Proof.
  intros Hs. unfold sessionToken. destruct (cl_reuse c) eqn:Hr; cbn [negb]; [|apply steps_ret; rewrite app_nil_r; split; [cbn; lia|]; split; [done|]; split; [done|]; unfold usable; rewrite bool_decide_true by done; auto].
  apply steps_memory. destruct (ss_unsupported s) eqn:Hu; cbn [orb].
  { apply steps_ret. rewrite app_nil_r. split; [cbn; lia|]. split; [done|]. split; [done|]. destruct (so_unsupported _ _ Hs Hu) as [-> [?|?]]; unfold usable; rewrite bool_decide_true by done; auto. }
  case_bool_decide as Ht; [|apply login_obeys; [done|done| |done]; destruct (decide (ss_token s = "")); [done|by destruct Ht]].
  apply steps_ret. rewrite app_nil_r. split; [cbn; lia|]. split; [done|]. split; [done|]. unfold usable. rewrite bool_decide_false by done. destruct (so_token _ _ Hs) as [?|[?|?]]; [done|auto|auto].
Qed.
Lemma trip_calls method path payload token pre : usable (inr token) s0 pre ->
  emits sent (roundTrip c method path payload token) (fun _ t => (length t <= 1)%nat /\ justified may_send pre t).
Proof.
  intros Hu. unfold roundTrip. destruct (request_error _ _); [by apply emits_ret; split; [cbn; lia|]|]. eapply emits_call; [intros; apply t_http|]. intros a. apply emits_ret. split; [cbn; lia|]. cbn. split; [|done].
  split; [eexists; split; [done|intros Hp; by apply authority_rooted]|]. cbn. unfold usable in Hu. destruct (decide (token = "")) as [->|Ht].
  - rewrite bool_decide_true in Hu by done. rewrite bool_decide_false by naive_solver. done.
  - rewrite bool_decide_false in Hu by done. rewrite bool_decide_true by done. destruct Hu as [? ?]. done.
Qed.
Lemma trip_obeys method path payload token s pre : session_ok s pre -> usable (inr token) s pre ->
  steps sent (beside (roundTrip c method path payload token)) s (fun _ s' t => (length t <= 1)%nat /\ justified may_send pre t /\ session_ok s' (pre ++ t)).
Proof.
  intros Hs Hu w. rewrite beside_run. cbn [fst snd]. destruct (trip_calls method path payload token pre Hu w) as (t & Ht & Hl & Hj). exists t. split; [done|]. split; [done|]. split; [done|]. eapply session_ok_mono; [|exact Hs]. set_solver.
Qed.

(** A request, with what it may take to log in: no more than four exchanges. *)
Lemma send_obeys method path payload s pre : session_ok s pre ->
  steps sent (send c method path payload) s (fun _ s' t => (length t <= 4)%nat /\ justified may_send pre t /\ session_ok s' (pre ++ t)).
Proof.
  intros Hs. unfold send. eapply steps_bind; [by apply session_token_obeys|]. intros r s1 t1 (Hl1 & Hj1 & Hs1 & Hu1). destruct r as [e|token]; [apply steps_ret; rewrite app_nil_r; split; [lia|]; by split|].
  eapply steps_bind; [by apply trip_obeys|]. intros r s2 t2 (Hl2 & Hj2 & Hs2). rewrite <- app_assoc in Hs2. assert (justified may_send pre (t1 ++ t2)) as Hj12 by (by apply justified_app).
  destruct r as [e|resp]; [apply steps_ret; rewrite app_nil_r; split; [rewrite length_app; lia|]; by split|]. destruct (_ || _) eqn:Etok; [apply steps_ret; rewrite app_nil_r; split; [rewrite length_app; lia|]; by split|].
  assert (cl_reuse c = true) as Hreuse. { apply orb_false_elim in Etok as [Etok _]. cbn [usable] in Hu1. rewrite Etok in Hu1. by destruct Hu1. }
  apply steps_remember. assert (session_ok (if bool_decide (ss_token s2 = token) then mkSession "" "" (ss_unsupported s2) else s2) (pre ++ t1 ++ t2)) as Hs3.
  { destruct (bool_decide (ss_token s2 = token)); [|done]. destruct Hs2 as [H1 H2 H3 H4]. constructor; cbn; [by left| |done|]. - intros Hu. by destruct (H2 Hu). - congruence. }
  eapply steps_bind; [by apply session_token_obeys|]. intros r s4 t4 (Hl4 & Hj4 & Hs4 & Hu4). rewrite <- !app_assoc in *. 
  destruct r as [e|token']; [apply steps_ret; rewrite app_nil_r; split; [rewrite !length_app; lia|]; split; [|done]; rewrite app_assoc; by apply justified_app|].
  eapply steps_mono; [apply trip_obeys; [exact Hs4|exact Hu4]|]. intros r s5 t5 (Hl5 & Hj5 & Hs5). split; [rewrite !length_app; lia|]. rewrite <- !app_assoc in Hs5. split; [|done].
  rewrite !app_assoc. apply justified_app. split; [apply justified_app; split; [done|]|]; by rewrite <- ?app_assoc.
Qed.

Lemma do_lawful method path body out : lawful (do_ c method path body out).
Proof. intros s pre Hs. unfold do_. eapply steps_bind; [by apply send_obeys|]. intros r s' t (_ & Hj & Hs'). apply steps_ret. rewrite app_nil_r. by split; [|split]. Qed.
Lemma read_lawful path out : lawful (read c path out).
Proof. unfold read, get. apply lawful_bind; [apply do_lawful|]. intros a. apply lawful_ret. Qed.
Lemma logout_lawful : lawful (Logout c).
Proof.
  intros s pre Hs. unfold Logout. destruct (cl_reuse c) eqn:Hr; cbn [negb]; [|by apply lawful_ret]. apply steps_memory, steps_remember.
  assert (session_ok (mkSession "" "" (ss_unsupported s)) pre) as Hs1. { destruct Hs as [H1 H2 H3 H4]. constructor; cbn; [by left| |done|congruence]. intros Hu. by destruct (H2 Hu). }
  destruct (bool_decide (ss_token s = "")) eqn:Et; cbn [orb]; [by apply lawful_ret|]. destruct (bool_decide (ss_location s = "")); cbn [orb]; [by apply lawful_ret|].
  eapply steps_bind; [apply trip_obeys; [done|]|].
  - unfold usable. rewrite Et. split; [done|]. destruct (so_token _ _ Hs) as [E|[?|?]]; [by rewrite bool_decide_true in Et|auto|auto].
  - intros r s' t (_ & Hj & Hs'). apply steps_ret. rewrite app_nil_r. by split; [|split].
Qed.

(** What the operations are made of. *)
Ltac lawful_step :=
  match goal with
  | |- obeys (mret _) _ => apply lawful_ret
  | |- obeys (read c _ _) _ => apply read_lawful
  | |- obeys (do_ c _ _ _ _) _ => apply do_lawful
  | |- obeys (_ ≫= _) _ => apply lawful_bind; [|intros ?]
  | |- obeys (match ?x with _ => _ end) _ => destruct x
  | |- obeys (let '(_, _) := ?x in _) _ => destruct x
  | |- obeys (if ?x then _ else _) _ => destruct x
  end.
Ltac lawful := repeat (assumption || lawful_step).

Lemma first_lawful path : lawful (firstMember c path).
Proof. unfold firstMember. lawful. Qed.
Lemma root_lawful : lawful (readServiceRoot c).
Proof. unfold readServiceRoot. lawful. Qed.
Lemma system_lawful : lawful (resolveSystemPath c).
Proof. unfold resolveSystemPath. lawful; [apply root_lawful|apply first_lawful]. Qed.
Lemma each_lawful {A} what t (make : val -> A) refs : lawful (read_each c what t make refs).
Proof. induction refs; cbn [read_each]; lawful. Qed.
Lemma collection_lawful {A} path all what t (make : val -> A) : lawful (read_collection c path all what t make).
Proof. unfold read_collection, collectionMembers. lawful. apply each_lawful. Qed.
Lemma drives_lawful refs : lawful (read_drives c refs).
Proof. induction refs; cbn [read_drives]; lawful. Qed.
Lemma controllers_lawful refs : lawful (read_controllers c refs).
Proof. induction refs; cbn [read_controllers]; lawful. unfold drives_of. lawful. apply drives_lawful. Qed.
Lemma storage_lawful root snap : lawful (readSmartStorage c root snap).
Proof. unfold readSmartStorage. lawful. apply controllers_lawful. Qed.
Lemma log_lawful path snap : lawful (readLog c path snap).
Proof. unfold readLog, fetchLastLogPage, discoverMaxLogPage, get. lawful. Qed.
Lemma sensors_lawful path snap : lawful (readSensors c path snap).
Proof. unfold readSensors, readThermal, readPower. lawful. apply first_lawful. Qed.
Lemma parts_lawful path snap : lawful (readComponentInventory c path snap).
Proof. unfold readComponentInventory, readProcessors, readMemory, readEthernetInterfaces. lawful; apply collection_lawful. Qed.
Lemma probe_lawful : lawful (Probe c).
Proof.
  unfold Probe, probe_rest, and_then, readManager. lawful; [apply root_lawful|apply first_lawful|apply storage_lawful|apply sensors_lawful|apply parts_lawful|apply log_lawful].
Qed.
Lemma reset_lawful r : lawful (Reset c r).
Proof. unfold Reset, post. lawful. apply system_lawful. Qed.
Lemma clear_lawful : lawful (ClearLog c).
Proof. unfold ClearLog, post. lawful. apply system_lawful. Qed.
Lemma led_lawful on : lawful (SetIndicatorLED c on).
Proof. unfold SetIndicatorLED, patch. lawful. apply system_lawful. Qed.
End Session.

(** ** The life of a client *)

Inductive client_op := OProbe | OReset (resetType : string) | OClearLog | OIndicator (on : bool) | OLogout.
Definition run_op {W : Type} {BW : BmcWorld W} (c : client) (o : client_op) : St (sessionState * W) unit :=
  match o with
  | OProbe => _ ← Probe c; mret tt
  | OReset r => _ ← Reset c r; mret tt
  | OClearLog => _ ← ClearLog c; mret tt
  | OIndicator on => _ ← SetIndicatorLED c on; mret tt
  | OLogout => _ ← Logout c; mret tt
  end.
Fixpoint run_client {W : Type} {BW : BmcWorld W} (c : client) (ops : list client_op) : St (sessionState * W) unit :=
  match ops with [] => mret tt | o :: ops => _ ← run_op c o; run_client c ops end.

(** C25. Over any calls on a client whose base is an absolute address, every request it hands to
    net/http has an address made of the base and a path, and is to the base's host when that path
    starts at the root. A client that reuses a session sends its password only to log in, at the base's
    host, and otherwise a token that BMC handed out; only a client without sessions, or one whose BMC
    answered that it has none, sends Basic authentication. *)
Theorem credentials_confined {W : Type} {BW : BmcWorld W} {TB : TracedBmc W} (c : client) (ops : list client_op) (w : W) : is_Some (authority (cl_baseURL c)) ->
  exists t, sent (run_client c ops (zero_session, w)).2.2 = (sent w ++ t)%list /\ justified (may_send c zero_session) [] t /\
    session_ok c zero_session (run_client c ops (zero_session, w)).2.1 t.
Proof.
  intros Hbase. assert (forall o, obeys c zero_session (run_op c o) any_of) as Hop.
  { intros [|r| |on|]; cbn [run_op]; (apply lawful_bind; [|intros; apply lawful_ret]); [by apply probe_lawful|by apply reset_lawful|by apply clear_lawful|by apply led_lawful|by apply logout_lawful]. }
  assert (obeys c zero_session (run_client c ops) any_of) as Hr by (induction ops; cbn [run_client]; [apply lawful_ret|by apply lawful_bind]).
  destruct (Hr zero_session [] ltac:(by constructor; [left| | |]) w) as (t & Ht & Hj & Hs & _). by exists t.
Qed.

(** ** Bounds *)

Section Bounds.
Context {W : Type} {BW : BmcWorld W} {TB : TracedBmc W} {U : Unicode}.
Variable c : client.

Definition at_most {A} (n : nat) (m : St (sessionState * W) A) : Prop := forall s, steps sent m s (fun _ _ t => (length t <= n)%nat).
Lemma most_ret {A} (a : A) n : at_most n (mret a).
Proof. intros s. apply steps_ret. cbn. lia. Qed.
Lemma most_bind {A B} n k (m : St (sessionState * W) A) (f : A -> St (sessionState * W) B) : at_most n m -> (forall a, at_most k (f a)) -> at_most (n + k) (m ≫= f).
Proof. intros Hm Hf s. eapply steps_bind; [apply Hm|]. intros a s' t Ht. eapply steps_mono; [apply Hf|]. intros b s'' t' Ht'. cbv beta in *. rewrite length_app. lia. Qed.
Lemma most_weaken {A} n k (m : St (sessionState * W) A) : at_most n m -> (n <= k)%nat -> at_most k m.
Proof. intros Hm Hk s. eapply steps_mono; [apply Hm|]. intros a s' t Ht. cbv beta in *. lia. Qed.
Lemma trip_most method path payload token : at_most 1 (beside (roundTrip c method path payload token)).
Proof.
  intros s w. rewrite beside_run. cbn [fst snd]. unfold roundTrip. destruct (request_error _ _); [exists []; rewrite app_nil_r; cbn; auto with lia|]. rewrite St_bind_run. cbn. rewrite t_http. eexists. split; [done|]. cbn. lia.
Qed.
Lemma token_most : at_most 1 (sessionToken c).
Proof.
  unfold sessionToken. destruct (negb _); [apply most_ret|]. intros s. apply steps_memory. destruct (_ || _); [by apply most_ret|]. unfold loginLocked. destruct (request_error _ _); [by apply most_ret|].
  eapply steps_beside; [eapply (emits_op _ _ (fun r => [(login_request c, r)])); intros; apply t_http|]. intros r t ->. destruct r as [e|resp]; [by apply steps_ret|].
  destruct (_ || _); [by apply steps_remember, steps_ret|]. destruct (_ || _); [by apply steps_ret|]. destruct (300 <=? _); [by apply steps_ret|]. destruct (bool_decide _); [by apply steps_ret|]. by apply steps_remember, steps_ret.
Qed.
Lemma send_most method path payload : at_most 4 (send c method path payload).
Proof.
  apply (most_bind 1 3); [apply token_most|]. intros [e|token]; [apply most_ret|]. apply (most_bind 1 2); [apply trip_most|]. intros [e|resp]; [apply most_ret|]. destruct (_ || _); [apply most_ret|].
  apply (most_bind 0 2); [intros s w; exists []; rewrite app_nil_r; cbn; auto|]. intros _. apply (most_bind 1 1); [apply token_most|]. intros [e|token']; [apply most_ret|apply trip_most].
Qed.
Lemma read_most path out : at_most 4 (read c path out).
Proof. apply (most_bind 4 0); [|intros; apply most_ret]. apply (most_bind 4 0); [apply send_most|intros; apply most_ret]. Qed.

(** Reading a log takes at most three reads, each at most four exchanges, whatever the length
    of the log and whatever the BMC answers about its pages. *)
Theorem log_read_bounded (path : string) (snap : Snapshot) (s : sessionState) (w : W) :
  exists t, sent (readLog c path snap (s, w)).2.2 = (sent w ++ t)%list /\ (length t <= 12)%nat.
Proof.
  enough (at_most 12 (readLog c path snap)) as H by apply (H s w). unfold readLog. apply (most_bind 4 8); [apply read_most|]. intros [e|col]; [apply most_ret|]. destruct (has_next col); [|apply most_ret].
  apply (most_bind 8 0); [|intros; apply most_ret]. unfold fetchLastLogPage. destruct (_ <=? 0); [apply most_ret|]. apply (most_bind 4 4).
  - unfold discoverMaxLogPage, get, do_. apply (most_bind 4 0); [|intros; apply most_ret]. apply (most_bind 4 0); [apply send_most|intros; apply most_ret].
  - intros [e|page]; [apply most_ret|]. apply (most_bind 4 0); [apply read_most|intros; apply most_ret].
Qed.
End Bounds.

(** ** Resets *)

(** The type that is sent is one the machine lists, when it lists any, and is the one that was asked
    for or, for a graceful shutdown, the power button; never a hard cut. *)
Lemma resolve_permitted requested allowable sent_type : resolveResetType requested allowable = inr sent_type ->
  (sent_type = requested \/ requested = "GracefulShutdown" /\ sent_type = "PushPowerButton") /\ (allowable = [] \/ sent_type ∈ allowable).
Proof.
  unfold resolveResetType. destruct (bool_decide (requested = "GracefulShutdown")) eqn:Eg; cbn [andb].
  - apply bool_decide_eq_true in Eg as ->. destruct (bool_decide ("GracefulShutdown" ∈ allowable)) eqn:E1; cbn [negb].
    + apply bool_decide_eq_true in E1. rewrite andb_false_r. intros [= <-]. auto.
    + destruct (bool_decide ("PushPowerButton" ∈ allowable)) eqn:E2; [apply bool_decide_eq_true in E2; intros [= <-]; auto|]. destruct (bool_decide (allowable = [])) eqn:E3; [|done]. apply bool_decide_eq_true in E3. intros [= <-]. auto.
  - destruct (bool_decide (allowable = [])) eqn:E3; cbn [negb andb]; [apply bool_decide_eq_true in E3; intros [= <-]; auto|]. destruct (bool_decide (requested ∈ allowable)) eqn:E4; cbn [negb]; [|done]. apply bool_decide_eq_true in E4. intros [= <-]. auto.
Qed.

Section Asked.
Context {W : Type} {BW : BmcWorld W} {TB : TracedBmc W} {U : Unicode}.
Variable c : client.

(** A login, or this request. *)
Definition asks (method path : string) (payload : option string) (x : exchange) : Prop :=
  x.1 = login_request c \/ rq_Method x.1 = method /\ rq_URL x.1 = cl_baseURL c +:+ normalizePath path /\ rq_Body x.1 = payload.
Definition answered (method path : string) (payload : option string) (t : list exchange) (resp : Resp) : Prop :=
  exists q, (q, inr resp) ∈ t /\ rq_Method q = method /\ rq_URL q = cl_baseURL c +:+ normalizePath path /\ rq_Body q = payload.
Lemma answered_mono method path payload t t' resp : t ⊆ t' -> answered method path payload t resp -> answered method path payload t' resp.
Proof. intros Hs (q & H & ?). exists q. by split; [apply Hs|]. Qed.

Lemma token_asks method path payload s : steps sent (sessionToken c) s (fun _ _ t => Forall (asks method path payload) t).
Proof.
  unfold sessionToken. destruct (negb _); [by apply steps_ret|]. apply steps_memory. destruct (_ || _); [by apply steps_ret|]. unfold loginLocked. destruct (request_error _ _); [by apply steps_ret|].
  eapply steps_beside; [eapply (emits_op _ _ (fun r => [(login_request c, r)])); intros; apply t_http|]. intros r t ->.
  assert (Forall (asks method path payload) [(login_request c, r)]) as Hl by (constructor; [by left|done]). destruct r as [e|resp]; [by apply steps_ret|].
  destruct (_ || _); [by apply steps_remember, steps_ret|]. destruct (_ || _); [by apply steps_ret|]. destruct (300 <=? _); [by apply steps_ret|]. destruct (bool_decide _); [by apply steps_ret|]. by apply steps_remember, steps_ret.
Qed.
Lemma trip_asks method path payload token (s : sessionState) : steps sent (beside (roundTrip c method path payload token)) s (fun r _ t => Forall (asks method path payload) t /\ forall resp, r = inr resp -> answered method path payload t resp).
Proof.
  intros w. rewrite beside_run. cbn [fst snd]. unfold roundTrip. destruct (request_error _ _); [exists []; rewrite app_nil_r; by split|]. rewrite St_bind_run. cbn. rewrite t_http. eexists. split; [done|].
  split; [constructor; [by right|done]|]. intros resp H. eexists. destruct (http_do _ w).1 as [e|r]; [done|]. injection H as ->. split; [by left|done].
Qed.
Lemma send_asks method path payload s : steps sent (send c method path payload) s (fun r _ t => Forall (asks method path payload) t /\ forall resp, r = inr resp -> answered method path payload t resp).
Proof.
  unfold send. eapply steps_bind; [apply (token_asks method path payload)|]. intros r s1 t1 H1. destruct r as [e|token]; [apply steps_ret; by rewrite app_nil_r|].
  eapply steps_bind; [apply trip_asks|]. intros r s2 t2 [H2 Ha]. destruct r as [e|resp]; [apply steps_ret; rewrite app_nil_r; split; [by apply Forall_app|done]|].
  destruct (_ || _); [apply steps_ret; rewrite app_nil_r; split; [by apply Forall_app|]; intros resp' [= <-]; eapply answered_mono; [|by apply Ha]; set_solver|].
  apply steps_remember. eapply steps_bind; [apply (token_asks method path payload)|]. intros r s3 t3 H3. destruct r as [e|token']; [apply steps_ret; rewrite app_nil_r; split; [by rewrite !Forall_app|done]|].
  eapply steps_mono; [apply trip_asks|]. intros r s4 t4 [H4 Ha4]. split; [by rewrite !Forall_app|]. intros resp' Hr. eapply answered_mono; [|by apply Ha4]. set_solver.
Qed.

(** A document that was read: the BMC answered it, and it decoded. *)
Definition document (path : string) (out : ty) (t : list exchange) (v : val) : Prop :=
  exists resp, answered "GET" path None t resp /\ rs_Code resp < 300 /\ decode_body out (rs_Body resp) = (v, true).
Definition is_read (x : exchange) : Prop := x.1 = login_request c \/ rq_Method x.1 = "GET".
Lemma document_mono path out t t' v : t ⊆ t' -> document path out t v -> document path out t' v.
Proof. intros Hs (resp & H & ?). exists resp. by split; [eapply answered_mono|]. Qed.
Lemma get_reads path out s : steps sent (get c path out) s (fun r _ t => Forall is_read t /\ (r.2 = None -> document path out t r.1)).
Proof.
  unfold get, do_. eapply steps_bind; [apply send_asks|]. intros r s1 t1 [H1 Ha]. apply steps_ret. rewrite app_nil_r. split; [eapply Forall_impl; [exact H1|]; intros x [?|(? & _)]; [by left|by right]|].
  destruct r as [e|resp]; [done|]. destruct (_ || _); [done|]. destruct (_ =? 404); [done|]. destruct (_ =? 400); [done|]. destruct (300 <=? rs_Code resp) eqn:E3; [done|].
  destruct (decode_body out (rs_Body resp)) as [v ok] eqn:Ed. destruct ok; [|done]. intros _. exists resp. split; [by apply Ha|]. split; [apply Z.leb_gt in E3; lia|done].
Qed.
Lemma read_reads path out s : steps sent (read c path out) s (fun r _ t => Forall is_read t /\ forall v, r = inr v -> document path out t v).
Proof.
  unfold read. eapply steps_bind; [apply get_reads|]. intros [v e] s1 t1 [H1 Hd]. apply steps_ret. rewrite app_nil_r. split; [done|]. intros v' Hv. cbn in *. destruct e; [done|]. injection Hv as <-. by apply Hd.
Qed.
Lemma root_reads s : steps sent (readServiceRoot c) s (fun _ _ t => Forall is_read t).
Proof. unfold readServiceRoot. eapply steps_bind; [apply read_reads|]. intros r s1 t1 [H1 _]. apply steps_ret. by rewrite app_nil_r. Qed.
Lemma first_reads path s : steps sent (firstMember c path) s (fun _ _ t => Forall is_read t).
Proof. unfold firstMember. destruct (bool_decide _); [by apply steps_ret|]. eapply steps_bind; [apply read_reads|]. intros r s2 t2 [H2 _]. apply steps_ret. by rewrite app_nil_r. Qed.
Lemma system_reads s : steps sent (resolveSystemPath c) s (fun _ _ t => Forall is_read t).
Proof.
  unfold resolveSystemPath. eapply steps_bind; [apply root_reads|]. intros r s1 t1 H1. destruct r as [e|root]; [apply steps_ret; by rewrite app_nil_r|].
  eapply steps_bind; [apply first_reads|]. intros r2 s2 t2 H2. apply steps_ret. rewrite app_nil_r. by apply Forall_app.
Qed.

(** What a reset may POST: to the target a system document advertised, a type it lists. *)
Definition reset_post (requested : string) (t : list exchange) (q : Req) : Prop :=
  exists path sys x, document path computerSystemJSON t sys /\ rq_Method q = "POST" /\
    str sys ["Actions"; "#ComputerSystem.Reset"; "target"] <> "" /\ rq_URL q = cl_baseURL c +:+ normalizePath (str sys ["Actions"; "#ComputerSystem.Reset"; "target"]) /\
    rq_Body q = Some (of_bytes (print (JObj [("ResetType", JStr x)]))) /\
    (x = requested \/ requested = "GracefulShutdown" /\ x = "PushPowerButton") /\
    (strings_at sys ["Actions"; "#ComputerSystem.Reset"; "ResetType@Redfish.AllowableValues"] = [] \/ x ∈ strings_at sys ["Actions"; "#ComputerSystem.Reset"; "ResetType@Redfish.AllowableValues"]).

(** A reset only reads, logs in, and POSTs to the target the machine's own system document advertises, a
    type that document lists when it lists any: the one asked for, or the power button for a graceful
    shutdown, never a hard cut in its place. *)
Theorem reset_permitted (requested : string) (s : sessionState) (w : W) :
  exists t, sent (Reset c requested (s, w)).2.2 = (sent w ++ t)%list /\ forall q a, (q, a) ∈ t -> is_read (q, a) \/ reset_post requested t q.
Proof.
  enough (steps sent (Reset c requested) s (fun _ _ t => forall q a, (q, a) ∈ t -> is_read (q, a) \/ reset_post requested t q)) as H by apply (H w).
  assert (forall t : list exchange, Forall is_read t -> forall q a, (q, a) ∈ t -> is_read (q, a) \/ reset_post requested t q) as Hread by (intros t Ht q a Hq; left; rewrite Forall_forall in Ht; by apply Ht).
  unfold Reset. eapply steps_bind; [apply system_reads|]. intros p s1 t1 H1. destruct p as [e|system]; [apply steps_ret; rewrite app_nil_r; by apply Hread|].
  eapply steps_bind; [apply read_reads|]. intros r s2 t2 [H2 Hd]. assert (Forall is_read (t1 ++ t2)) as H12 by (by apply Forall_app). destruct r as [e|sys]; [apply steps_ret; rewrite app_nil_r; by apply Hread|].
  destruct (bool_decide _) eqn:Et; [apply steps_ret; rewrite app_nil_r; by apply Hread|]. destruct (resolveResetType _ _) as [e|x] eqn:Er; [apply steps_ret; rewrite app_nil_r; by apply Hread|].
  unfold post, do_. eapply (steps_bind _ _ _ _ (fun _ _ t => Forall (asks "POST" (str sys ["Actions"; "#ComputerSystem.Reset"; "target"]) (Some (of_bytes (print (JObj [("ResetType", JStr x)]))))) t)).
  { eapply steps_bind; [apply send_asks|]. intros r s3 t3 [H3 _]. apply steps_ret. by rewrite app_nil_r. }
  intros r s3 t3 H3. apply steps_ret. rewrite app_nil_r. intros q a Hq. rewrite app_assoc in Hq. apply elem_of_app in Hq as [Hq|Hq]; [left; rewrite Forall_forall in H12; by apply H12|].
  rewrite Forall_forall in H3. destruct (H3 _ Hq) as [Hl|(Hm & Hu & Hb)]; [by left; left|]. right. apply resolve_permitted in Er as [Hx Hal]. apply bool_decide_eq_false in Et.
  exists system, sys, x. split; [eapply document_mono; [|by apply Hd]; set_solver|]. by repeat (split; [done|]).
Qed.
End Asked.

(** ** The BMC driver *)

Section Driver.
Context {W : Type} {BW : BmcWorld W} {TB : TracedBmc W} {U : Unicode}.
Variable b : RedfishBMC.

Definition bmc_request (method path : string) (body : option json) : Req :=
  mkReq method (rb_baseURL b +:+ path) (Basic (rb_username b) (rb_password b)) ((fun j => of_bytes (print j)) <$> body).
(** The BMC answered with this document; it took this write. *)
Definition seen (path : string) (out : ty) (t : list exchange) (v : val) : Prop :=
  exists resp, (bmc_request "GET" path None, inr resp) ∈ t /\ rs_Code resp < 300 /\ decode_body out (rs_Body resp) = (v, true).
Definition taken (method path : string) (body : json) (t : list exchange) : Prop := exists resp, (bmc_request method path (Some body), inr resp) ∈ t /\ rs_Code resp < 300.
Lemma bmc_seen_mono path out t t' v : t ⊆ t' -> seen path out t v -> seen path out t' v.
Proof. intros Hs (r & H & ?). exists r. by split; [apply Hs|]. Qed.
Lemma taken_mono m p j t t' : t ⊆ t' -> taken m p j t -> taken m p j t'.
Proof. intros Hs (r & H & ?). exists r. by split; [apply Hs|]. Qed.

Lemma do_calls method path body out : emits sent (bmc_do b method path body out) (fun r t => (t = [] /\ is_Some r.2 /\ is_Some (request_error method (rb_baseURL b +:+ path))) \/
  exists a, t = [(bmc_request method path body, a)] /\ (r.2 = None -> exists resp, a = inr resp /\ rs_Code resp < 300 /\ match out with Some o => decode_body o (rs_Body resp) = (r.1, true) | None => True end)).
Proof.
  unfold bmc_do. destruct (request_error _ _); [apply emits_ret; left; by repeat split|]. eapply emits_call; [intros; apply t_http|]. intros a. apply emits_ret. right. exists a. split; [done|].
  destruct a as [e|resp]; [done|]. destruct (300 <=? rs_Code resp) eqn:E; [done|]. apply Z.leb_gt in E. destruct out as [o|]; [|intros _; exists resp; split; [done|]; by split; [lia|]].
  destruct (decode_body o (rs_Body resp)) as [v ok] eqn:Ed. destruct ok; [|done]. intros _. exists resp. split; [done|]. by split; [lia|].
Qed.
Definition is_get (x : exchange) : Prop := exists path, x.1 = bmc_request "GET" path None.
Lemma bmc_reads path out : emits sent (bmc_read b path out) (fun r t => Forall is_get t /\ forall v, r = inr v -> seen path out t v).
Proof.
  unfold bmc_read. eapply emits_bind; [apply do_calls|]. intros [v e] t H. apply emits_ret. rewrite app_nil_r. cbn in *. destruct H as [(-> & [e' ->] & _)|(a & -> & Ha)]; [by split|].
  split; [constructor; [by exists path|done]|]. intros v' Hv. destruct e; [done|]. injection Hv as <-. destruct (Ha eq_refl) as (resp & -> & Hc & Hd). exists resp. split; [by left|done].
Qed.
Lemma bmc_sends method path body : emits sent (bmc_send b method path body) (fun r t => (t = [] \/ exists a, t = [(bmc_request method path (Some body), a)]) /\
  (r = None -> taken method path body t) /\ (request_error method (rb_baseURL b +:+ path) = None -> exists a, t = [(bmc_request method path (Some body), a)])).
Proof.
  unfold bmc_send. eapply emits_bind; [apply do_calls|]. intros [v e] t H. apply emits_ret. rewrite app_nil_r. cbn in *. destruct H as [(-> & [e' ->] & [x Hx])|(a & -> & Ha)]; [split; [by left|]; split; [done|]; by rewrite Hx|].
  split; [right; by exists a|]. split; [|intros; by eexists]. intros ->. destruct (Ha eq_refl) as (resp & -> & Hc & _). exists resp. split; [by left|done].
Qed.

(** *** The boot *)

(** The machine's BIOS, at the address its system document gives, answered that it boots in
    this mode. *)
Definition mode_confirmed (sys : val) (mode : string) (t : list exchange) : Prop :=
  exists v, str sys ["Oem"; "Hp"; "links"; "BIOS"; "href"] <> "" /\ seen (str sys ["Oem"; "Hp"; "links"; "BIOS"; "href"]) biosJSON t v /\
    ((mode = "UEFI" /\ EqualFold (str v ["BootMode"]) "Uefi" = true) \/ (mode = "Legacy" /\ EqualFold (str v ["BootMode"]) "LegacyBios" = true)).
Lemma confirmed_mono sys mode t t' : t ⊆ t' -> mode_confirmed sys mode t -> mode_confirmed sys mode t'.
Proof. intros Hs (v & ? & H & ?). exists v. split; [done|]. by split; [eapply bmc_seen_mono|]. Qed.
Lemma check_calls sys mode : emits sent (checkBootMode b sys mode) (fun r t => Forall is_get t /\ (r = None -> mode_confirmed sys mode t)).
Proof.
  unfold checkBootMode. destruct (biosBootModes mode) as [want|] eqn:Ew; [|by apply emits_ret]. case_bool_decide; [by apply emits_ret|]. eapply emits_bind; [apply bmc_reads|]. intros r t [Ht Hs]. apply emits_ret. rewrite app_nil_r. split; [done|].
  destruct r as [e|v]; [done|]. destruct (bool_decide _); [done|]. destruct (EqualFold _ _) eqn:E; [|done]. intros _. exists v. split; [done|]. split; [by apply Hs|].
  unfold biosBootModes, bootUEFI, bootLegacy in Ew. case_bool_decide; [injection Ew as <-; by left|]. case_bool_decide; [injection Ew as <-; by right|done].
Qed.

(** The virtual drive is an iLO 4's: its document has an Oem.Hp object. *)
Definition hp_drive (v : val) : Prop := exists j, raw v ["Oem"; "Hp"] = Some j /\ j <> JNull.
Definition drive_request : Req := bmc_request "PATCH" "/redfish/v1/Managers/1/VirtualMedia/2/" (Some (JObj [("Oem", JObj [("Hp", JObj [("BootOnNextServerReset", JBool true)])])])).
Definition override_request (target : string) (mode : option string) : Req :=
  bmc_request "PATCH" "/redfish/v1/Systems/1/" (Some (JObj [("Boot", JObj ([("BootSourceOverrideEnabled", JStr "Once")] ++ from_option (fun m => [("BootSourceOverrideMode", JStr m)]) [] mode ++ [("BootSourceOverrideTarget", JStr target)]))])).
(** The instruction the documents that were read call for: an iLO 4's virtual drive is told to boot
    ([drive] is true), with the mode confirmed; any other system is given the override, with the mode in
    it where its Boot object has that key and with the mode confirmed where it has not. *)
Definition instruction (target mode : string) (reads : list exchange) (q : Req) (drive : bool) : Prop :=
  exists sys, seen "/redfish/v1/Systems/1/" systemDoc reads sys /\
    if drive then target = "Cd" /\ (exists v, seen "/redfish/v1/Managers/1/VirtualMedia/2/" ilo4JSON reads v /\ hp_drive v) /\ mode_confirmed sys mode reads /\ q = drive_request
    else (target <> "Cd" \/ exists v, seen "/redfish/v1/Managers/1/VirtualMedia/2/" ilo4JSON reads v /\ ~ hp_drive v) /\
      exists boot, raw_map sys ["Boot"] = Some boot /\
        ((is_Some (raw_lookup "BootSourceOverrideMode" boot) /\ q = override_request target (Some mode)) \/
         (raw_lookup "BootSourceOverrideMode" boot = None /\ mode_confirmed sys mode reads /\ q = override_request target None)).
(** Nothing but reads, and an error; or reads, that one instruction, and reads, and then no error only
    when the BMC took the instruction and the flag of a drive was read back set. *)
Definition boot_run (target mode : string) (r : option string) (t : list exchange) : Prop :=
  (Forall is_get t /\ r <> None) \/
  exists reads q drive a after, t = (reads ++ (q, a) :: after)%list /\ Forall is_get reads /\ Forall is_get after /\ instruction target mode reads q drive /\
    (r = None -> (exists resp, a = inr resp /\ rs_Code resp < 300) /\
      (drive = true -> exists v, seen "/redfish/v1/Managers/1/VirtualMedia/2/" bootResetJSON after v /\ truth v ["Oem"; "Hp"; "BootOnNextServerReset"] = true)).

Definition boots (target mode : string) (pre : list exchange) (m : St W (option string)) : Prop := Forall is_get pre -> emits sent m (fun r t => boot_run target mode r (pre ++ t)).
Lemma boots_refused target mode pre e : boots target mode pre (mret (Some e)).
Proof. intros H. apply emits_ret. rewrite app_nil_r. by left. Qed.
Lemma boots_read {A} target mode pre (m : St W A) (k : A -> St W (option string)) P : emits sent m (fun a t => Forall is_get t /\ P a t) ->
  (forall a t, P a t -> boots target mode (pre ++ t) (k a)) -> boots target mode pre (m ≫= k).
Proof. intros Hm Hk Hp. eapply emits_bind; [exact Hm|]. intros a t [Hg HP]. eapply emits_mono; [apply Hk; [done|by apply Forall_app]|]. intros r t' H. cbv beta in H. by rewrite <- app_assoc in H. Qed.
Lemma boots_override target mode pre m : instruction target mode pre (override_request target m) false -> boots target mode pre (bmc_send b "PATCH" systemPath (boot_body target m)).
Proof.
  intros Hi Hp. unfold bmc_send. eapply emits_bind; [apply do_calls|]. intros [v e] t H. apply emits_ret. rewrite app_nil_r. cbn in *. destruct H as [(-> & [e' ->] & _)|(a & -> & Ha)]; [rewrite app_nil_r; by left|right].
  exists pre, (override_request target m), false, a, []. split; [by destruct m|]. do 3 (split; [done|]). intros ->. split; [|done]. destruct (Ha eq_refl) as (resp & -> & ? & _). by exists resp.
Qed.
Lemma override_boots sys target mode pre : seen systemPath systemDoc pre sys -> target <> "Cd" \/ (exists v, seen virtualMediaPath ilo4JSON pre v /\ ~ hp_drive v) ->
  boots target mode pre (override_once b sys target mode).
Proof.
  intros Hs Ht. unfold override_once. destruct (raw_map _ _) as [boot|] eqn:Eb; [|apply boots_refused]. case_bool_decide as Ek.
  - apply boots_override. exists sys. split; [done|]. split; [done|]. exists boot. split; [done|]. by left.
  - eapply boots_read; [apply check_calls|]. intros e t Hc. destruct e as [e|]; [apply boots_refused|]. apply boots_override. exists sys. split; [eapply bmc_seen_mono; [|exact Hs]; set_solver|].
    split; [destruct Ht as [?|(v & Hv & ?)]; [by left|right; exists v; split; [eapply bmc_seen_mono; [|exact Hv]; set_solver|done]]|]. exists boot. split; [done|]. right.
    split; [by destruct (raw_lookup _ boot); [destruct Ek; by eexists|]|]. split; [eapply confirmed_mono; [|by apply Hc]; set_solver|done].
Qed.
Lemma virtual_boots mode pre : instruction "Cd" mode pre drive_request true -> boots "Cd" mode pre (bootVirtualCDOnce b).
Proof.
  intros Hi Hp. unfold bootVirtualCDOnce. eapply (emits_bind _ _ _ (fun r t => (t = [] /\ r <> None) \/ exists a, t = [(drive_request, a)] /\ (r = None -> exists resp, a = inr resp /\ rs_Code resp < 300))).
  { unfold bmc_send. eapply emits_bind; [apply do_calls|]. intros [v e] t H. apply emits_ret. rewrite app_nil_r. cbn in *. destruct H as [(-> & [e' ->] & _)|(a & -> & Ha)]; [by left|right]. exists a. split; [done|].
    intros ->. destruct (Ha eq_refl) as (resp & -> & ? & _). by exists resp. }
  intros e t H. destruct e as [e|].
  - apply emits_ret. rewrite app_nil_r. destruct H as [[-> _]|(a & -> & _)]; [rewrite app_nil_r; by left|right]. by exists pre, drive_request, true, a, [].
  - destruct H as [[-> ?]|(a & -> & Ha)]; [done|]. eapply emits_bind; [apply bmc_reads|]. intros r t' [Hg Hs]. apply emits_ret. rewrite app_nil_r. right. exists pre, drive_request, true, a, t'.
    split; [done|]. do 3 (split; [done|]). intros Hr. split; [by apply Ha|]. intros _. destruct r as [e|v]; [done|]. destruct (truth v _) eqn:Et; [|done]. exists v. by split; [apply Hs|].
Qed.
Lemma drive_calls : emits sent (virtualMediaIsILO4 b) (fun r t => Forall is_get t /\ match r with
  | inl _ => True
  | inr h => exists v, seen virtualMediaPath ilo4JSON t v /\ (h = true <-> hp_drive v)
  end).
Proof.
  unfold virtualMediaIsILO4. eapply emits_bind; [apply bmc_reads|]. intros r t [Hg Hs]. apply emits_ret. rewrite app_nil_r. split; [done|]. destruct r as [e|v]; [done|]. exists v. split; [by apply Hs|].
  unfold hp_drive. destruct (raw v _) as [j|]; [|split; [done|by intros (? & ? & _)]]. destruct j; (split; [intros; try done; eexists; by split|intros (x & [= <-] & ?); done]).
Qed.

(** C26. Setting the boot makes one write at most, between reads: on an iLO 4, whose virtual drive is
    asked for, the drive's own flag, after the machine's BIOS was read to boot in the mode asked
    for, and no override beside it; else the system's override, with the mode in it where its Boot
    object has that key, or after the BIOS was read to boot in that mode. It answers without an error
    only when the BMC took that write and, for the drive, the flag then reads back set. *)
Theorem boot_mode_confirmed (target mode : string) (w : W) :
  exists t, sent (SetBootOnce b target mode w).2 = (sent w ++ t)%list /\ boot_run target mode (SetBootOnce b target mode w).1 t.
Proof.
  enough (boots target mode [] (SetBootOnce b target mode)) as H by apply (H (Forall_nil_2 _) w).
  unfold SetBootOnce, readSystem. eapply boots_read; [apply bmc_reads|]. intros r t Hs. cbn [app]. destruct r as [e|sys]; [apply boots_refused|]. specialize (Hs sys eq_refl).
  case_bool_decide as Et; [subst target|apply override_boots; [done|by left]]. eapply boots_read; [apply drive_calls|]. intros h t' Hh. destruct h as [e|h]; [apply boots_refused|]. destruct Hh as (v & Hv & Hp).
  assert (seen systemPath systemDoc (t ++ t') sys) as Hs' by (eapply bmc_seen_mono; [|exact Hs]; set_solver). assert (seen virtualMediaPath ilo4JSON (t ++ t') v) as Hv' by (eapply bmc_seen_mono; [|exact Hv]; set_solver).
  destruct h; [|apply override_boots; [done|right; exists v; split; [done|]; intros ?%Hp; done]].
  eapply boots_read; [apply check_calls|]. intros e t2 Hc. destruct e as [e|]; [apply boots_refused|]. apply virtual_boots. exists sys. split; [eapply bmc_seen_mono; [|exact Hs']; set_solver|].
  split; [done|]. split; [exists v; split; [eapply bmc_seen_mono; [|exact Hv']; set_solver|by apply Hp]|]. split; [eapply confirmed_mono; [|by apply Hc]; set_solver|done].
Qed.

(** *** The media and the override *)

Definition media_out (t : list exchange) : Prop := exists v, seen virtualMediaPath mediaJSON t v /\ truth v ["Inserted"] = false.
Lemma inserted_calls : emits sent (MediaInserted b) (fun r t => Forall is_get t /\ (r = inr false -> media_out t)).
Proof.
  unfold MediaInserted. eapply emits_bind; [apply bmc_reads|]. intros r t [Hg Hs]. apply emits_ret. rewrite app_nil_r. split; [done|]. destruct r as [e|v]; [done|]. intros [= H]. exists v. by split; [apply Hs|].
Qed.

(** An eject that answers without an error was taken by the BMC, or the BMC says that nothing is inserted; and unless the
    BMC says so before it, the eject is sent, whatever the reads answer. *)
Theorem eject_means_out (w : W) :
  exists t, sent (EjectMedia b w).2 = (sent w ++ t)%list /\ Forall (fun x => is_get x \/ x.1 = bmc_request "POST" eject_action (Some (JObj []))) t /\
    ((EjectMedia b w).1 = None -> media_out t \/ taken "POST" eject_action (JObj []) t) /\
    (request_error "POST" (rb_baseURL b +:+ eject_action) = None -> media_out t \/ exists a, (bmc_request "POST" eject_action (Some (JObj [])), a) ∈ t).
Proof.
  enough (emits sent (EjectMedia b) (fun r t => Forall (fun x => is_get x \/ x.1 = bmc_request "POST" eject_action (Some (JObj []))) t /\ (r = None -> media_out t \/ taken "POST" eject_action (JObj []) t) /\
    (request_error "POST" (rb_baseURL b +:+ eject_action) = None -> media_out t \/ exists a, (bmc_request "POST" eject_action (Some (JObj [])), a) ∈ t))) as H by apply (H w).
  assert (forall t, Forall is_get t -> Forall (fun x => is_get x \/ x.1 = bmc_request "POST" eject_action (Some (JObj []))) t) as Hgets by (intros t H; eapply Forall_impl; [exact H|]; by left).
  unfold EjectMedia. eapply emits_bind; [apply inserted_calls|]. intros r t [Hg Ho].
  assert (emits sent (bmc_send b "POST" eject_action (JObj []) ≫= fun p => match p with None => mret None | Some e => r ← MediaInserted b; mret match r with inr false => None | _ => Some e end end)
    (fun r t' => Forall (fun x => is_get x \/ x.1 = bmc_request "POST" eject_action (Some (JObj []))) (t ++ t') /\ (r = None -> media_out (t ++ t') \/ taken "POST" eject_action (JObj []) (t ++ t')) /\
      (request_error "POST" (rb_baseURL b +:+ eject_action) = None -> media_out (t ++ t') \/ exists a, (bmc_request "POST" eject_action (Some (JObj [])), a) ∈ t ++ t'))) as Hrest.
  { eapply emits_bind; [apply bmc_sends|]. intros p t1 (Hf & Ht & Hq).
    assert (Forall (fun x => is_get x \/ x.1 = bmc_request "POST" eject_action (Some (JObj []))) (t ++ t1)) as H1. { apply Forall_app. split; [by apply Hgets|]. destruct Hf as [->|[a ->]]; [done|]. constructor; [by right|done]. }
    assert (forall t2, request_error "POST" (rb_baseURL b +:+ eject_action) = None -> exists a, (bmc_request "POST" eject_action (Some (JObj [])), a) ∈ t ++ t1 ++ t2) as H2. { intros t2 E. destruct (Hq E) as (a & ->). exists a. set_solver. }
    destruct p as [e|].
    - eapply emits_bind; [apply inserted_calls|]. intros r2 t2 [Hg2 Ho2]. apply emits_ret. rewrite app_nil_r. split; [rewrite app_assoc; apply Forall_app; split; [done|by apply Hgets]|]. split; [|intros E; right; by apply H2].
      destruct r2 as [e2|[]]; [done|done|]. intros _. left. destruct (Ho2 eq_refl) as (v & Hv & Hf2). exists v. split; [|done]. eapply bmc_seen_mono; [|exact Hv]. set_solver.
    - apply emits_ret. rewrite app_nil_r. split; [done|]. split; [|intros E; right; specialize (H2 [] E); by rewrite app_nil_r in H2]. intros _. right. eapply taken_mono; [|by apply Ht]. set_solver. }
  destruct r as [e|[]]; [exact Hrest|exact Hrest|]. apply emits_ret. rewrite app_nil_r. split; [by apply Hgets|]. specialize (Ho eq_refl). auto.
Qed.

(** Clearing the override answers without an error only when the BMC says that none is active, or took the write
    that disables it; and it writes nothing else. *)
Theorem override_cleared (w : W) :
  exists t, sent (ClearBootOverride b w).2 = (sent w ++ t)%list /\ Forall (fun x => is_get x \/ x.1 = bmc_request "PATCH" systemPath (Some disable_body)) t /\
    ((ClearBootOverride b w).1 = None -> (exists sys, seen systemPath systemDoc t sys /\ override_off sys = true) \/ taken "PATCH" systemPath disable_body t).
Proof.
  enough (emits sent (ClearBootOverride b) (fun r t => Forall (fun x => is_get x \/ x.1 = bmc_request "PATCH" systemPath (Some disable_body)) t /\
    (r = None -> (exists sys, seen systemPath systemDoc t sys /\ override_off sys = true) \/ taken "PATCH" systemPath disable_body t))) as H by apply (H w).
  unfold ClearBootOverride, readSystem. eapply emits_bind; [apply bmc_reads|]. intros r t [Hg Hs].
  assert (Forall (fun x => is_get x \/ x.1 = bmc_request "PATCH" systemPath (Some disable_body)) t) as H1 by (eapply Forall_impl; [exact Hg|]; by left).
  assert (emits sent (bmc_send b "PATCH" systemPath disable_body) (fun r t' => Forall (fun x => is_get x \/ x.1 = bmc_request "PATCH" systemPath (Some disable_body)) (t ++ t') /\
    (r = None -> (exists sys, seen systemPath systemDoc (t ++ t') sys /\ override_off sys = true) \/ taken "PATCH" systemPath disable_body (t ++ t')))) as Hw.
  { eapply emits_mono; [apply bmc_sends|]. intros p t1 (Hf & Ht & _). split; [apply Forall_app; split; [done|]; destruct Hf as [->|[a ->]]; [done|]; constructor; [by right|done]|]. intros Hp. right. eapply taken_mono; [|by apply Ht]. set_solver. }
  destruct r as [e|sys]; [exact Hw|]. destruct (override_off sys) eqn:Eo; [|exact Hw]. apply emits_ret. rewrite app_nil_r. split; [done|]. intros _. left. exists sys. by split; [apply Hs|].
Qed.
End Driver.

(** ** Runs on an in-memory BMC *)

Module Demo.
(** Its documents, the token of its session, and what was asked of it. *)
Record Bmc := mkBmc { bm_docs : list (string * json); bm_token : string; bm_sent : list exchange }.
Definition base : string := "https://192.0.2.20".
Definition doc_at (p : string) (l : list (string * json)) : option json := (fun x => x.2) <$> List.find (fun x => bool_decide (x.1 = p)) l.
Definition ok (j : json) : Resp := mkResp 200 "200 OK" (of_bytes (print j)) "" "".
Definition refused (code : Z) : Resp := mkResp code (itoa code) "" "" "".
Definition authorised (b : Bmc) (q : Req) : bool := match rq_Auth q with Token t => bool_decide (t = bm_token b) | Basic u p => bool_decide (u = "admin") && bool_decide (p = "secret") | NoAuth => false end.
Definition out_of_range : json := JObj [("Messages", JArr [JObj [("MessageID", JStr "Base.0.10.QueryParameterOutOfRange"); ("MessageArgs", JArr [JStr "4"; JStr "page"; JStr "2"])]])].
Definition answer (b : Bmc) (q : Req) : Resp * Bmc :=
  if bool_decide (rq_URL q = base +:+ sessionsPath) then (mkResp 201 "201 Created" "" "tok-2" (sessionsPath +:+ "7/"), mkBmc (bm_docs b) "tok-2" (bm_sent b))
  else if negb (authorised b q) then (refused 401, b)
  else if bool_decide (rq_Method q = "GET") then
    (if bool_decide (rq_URL q = base +:+ "/redfish/v1/Systems/1/LogServices/IML/Entries/?page=4") then mkResp 400 "400 Bad Request" (of_bytes (print out_of_range)) "" ""
     else match doc_at (rq_URL q) (map (fun x => (base +:+ x.1, x.2)) (bm_docs b)) with Some j => ok j | None => refused 404 end, b)
  else (mkResp 200 "200 OK" "" "" "", b).
#[local] Instance bmc_world : BmcWorld Bmc := {|
  http_do q b := let '(r, b') := answer b q in (inr r, mkBmc (bm_docs b') (bm_token b') (bm_sent b' ++ [(q, inr r)]));
  request_error := fun _ _ => None;
  url_path := fun s => Some s;
  json_error := fun _ _ => "unexpected end of JSON input";
  sort_log := sort_by (fun x y => unix_nano (le_Created y) <=? unix_nano (le_Created x));
  wide_int32 := fun _ => - 2 ^ 31
|}.
#[local, refine] Instance bmc_traced : TracedBmc Bmc := {| sent := bm_sent |}.
Proof.
  intros [docs tok log] q. cbn. unfold answer. destruct (bool_decide _); [done|]. destruct (negb _); [done|]. by destruct (bool_decide (rq_Method q = "GET")).
Defined.
#[local, refine] Instance bmc_sorts : SortLaws bmc_world := {| sort_perm := sort_by_perm _ |}.
Proof.
  intros l. cbn.
  assert (forall l, StronglySorted (fun a b => (unix_nano (le_Created b) <=? unix_nano (le_Created a)) = true) l -> forall i j a b, (i < j)%nat -> l !! i = Some a -> l !! j = Some b -> unix_nano (le_Created b) <= unix_nano (le_Created a)) as H.
  { clear l. intros l Hs. induction Hs as [|x l Hs IH Hx]; [done|]. intros [|i] [|j] a b Hij Ha Hb; [lia| |lia|]; cbn in *.
    - injection Ha as ->. rewrite Forall_forall in Hx. apply Z.leb_le, Hx. by eapply list_elem_of_lookup_2.
    - eapply (IH i j); [lia|done|done]. }
  intros i j a b Hij Ha Hb. eapply H; [|exact Hij|exact Ha|exact Hb]. apply sort_by_sorted; [intros x y; rewrite !Z.leb_le; lia|intros x y z; rewrite !Z.leb_le; lia].
Defined.
#[local] Instance bmc_unicode : Unicode := {| unicode_lower := id; unicode_fold := id |}.

(** The documents of a small machine; its log has two pages, the later entries on the second. *)
Definition link (p : string) : json := JObj [("@odata.id", JStr p)].
Definition href (p : string) : json := JObj [("href", JStr p)].
Definition entry (id sev at_ : string) : json := JObj [("Id", JStr id); ("Severity", JStr sev); ("Created", JStr at_); ("Message", JStr id)].
Definition reset_types : json := JArr (map JStr ["On"; "ForceOff"; "ForceRestart"; "PushPowerButton"]).
Definition machine_docs : list (string * json) := [
  ("/redfish/v1/", JObj [("Systems", link "/redfish/v1/Systems/"); ("Chassis", link "/redfish/v1/Chassis/")]);
  ("/redfish/v1/Systems/", JObj [("Members", JArr [link "/redfish/v1/Systems/1"])]);
  ("/redfish/v1/Systems/1/", JObj [("SerialNumber", JStr "CZJ1"); ("Manufacturer", JStr "HPE"); ("PowerState", JStr "On"); ("MemorySummary", JObj [("TotalSystemMemoryGiB", JNum (to_bytes "59.6046720"))]);
     ("Actions", JObj [("#ComputerSystem.Reset", JObj [("target", JStr "/redfish/v1/Systems/1/Actions/ComputerSystem.Reset/"); ("ResetType@Redfish.AllowableValues", reset_types)])]);
     ("LogServices", link "/redfish/v1/Systems/1/LogServices/"); ("Boot", JObj [("BootSourceOverrideEnabled", JStr "Disabled")]);
     ("Oem", JObj [("Hp", JObj [("PostState", JStr "FinishedPost"); ("links", JObj [("SmartStorage", href "/redfish/v1/Systems/1/SmartStorage/"); ("BIOS", href "/redfish/v1/Systems/1/Bios/")])])])]);
  ("/redfish/v1/Systems/1/Bios/", JObj [("BootMode", JStr "Uefi")]);
  ("/redfish/v1/Managers/1/", JObj [("FirmwareVersion", JStr "iLO 4 v2.77")]);
  ("/redfish/v1/Managers/1/VirtualMedia/2/", JObj [("Inserted", JBool true); ("Oem", JObj [("Hp", JObj [("BootOnNextServerReset", JBool true)])])]);
  ("/redfish/v1/Systems/1/SmartStorage/", JObj [("links", JObj [("ArrayControllers", href "/redfish/v1/Systems/1/SmartStorage/ArrayControllers/")])]);
  ("/redfish/v1/Systems/1/SmartStorage/ArrayControllers/", JObj [("Members", JArr [link "/redfish/v1/Systems/1/SmartStorage/ArrayControllers/0/"])]);
  ("/redfish/v1/Systems/1/SmartStorage/ArrayControllers/0/", JObj [("Model", JStr "HPE Smart Array P440ar"); ("CacheModuleStatus", JObj [("Health", JStr "OK")]); ("links", JObj [("PhysicalDrives", href "/drives/")])]);
  ("/drives/", JObj [("Members", JArr [link "/drives/0/"; link "/drives/1/"; link "/drives/2/"])]);
  ("/drives/0/", JObj [("SerialNumber", JStr "S0"); ("CapacityGB", JNum (to_bytes "600")); ("CurrentTemperatureCelsius", JNum (to_bytes "35.0"))]);
  ("/drives/2/", JObj [("SerialNumber", JStr "S2"); ("CapacityGB", JNum (to_bytes "480")); ("CurrentTemperatureCelsius", JNum (to_bytes "0"))]);
  ("/redfish/v1/Systems/1/LogServices/IML/Entries/", JObj [("Total", JNum (to_bytes "3")); ("Items", JArr [entry "1" "OK" "2021-01-01T00:00:00Z"; entry "2" "Critical" "2021-01-02T00:00:00Z"]); ("links", JObj [("NextPage", JObj [("page", JNum (to_bytes "2"))])])]);
  ("/redfish/v1/Systems/1/LogServices/IML/Entries/?page=2", JObj [("Total", JNum (to_bytes "3")); ("Items", JArr [entry "3" "Warning" "2024-05-01T00:00:00Z"])])].
Definition bmc : Bmc := mkBmc machine_docs "tok-1" [].
Definition poller : client := New (base +:+ "/") "admin" "secret" None true.
Definition driver : RedfishBMC := NewRedfishBMC base "admin" "secret" None.

(** A probe logs in once; the drive that is not there is left out, and so is a temperature of zero; the log is its
    last page. *)
Example probed : match (Probe poller (zero_session, bmc)).1 with
  | inr s => inv_SerialNumber (sn_Inventory s) = "CZJ1" /\ inv_TotalMemoryGiB (sn_Inventory s) = 60 /\
      map (fun d => (dr_SerialNumber d, dr_TemperatureCelsius d)) (inv_Drives (sn_Inventory s)) = [("S0", Some 35); ("S2", None)] /\ map sc_CacheStatus (inv_StorageControllers (sn_Inventory s)) = ["OK"] /\
      map le_ID (sn_Log s) = ["3"] /\ sn_LogPossiblyStale s = false /\ sn_SensorsTrustworthy s = true
  | inl _ => False
  end.
Proof. vm_compute. by repeat split. Qed.
(** The session survives the probes and is ended with the location it was given. *)
Example one_login : let s := (run_client poller [OProbe; OProbe; OLogout] (zero_session, bmc)).2 in
  length (List.filter (fun x => bool_decide (rq_URL x.1 = base +:+ sessionsPath)) (bm_sent s.2)) = 1%nat /\
  rq_URL <$> (fst <$> List.last (map Some (bm_sent s.2)) None) = Some (base +:+ sessionsPath +:+ "7/") /\ s.1 = zero_session.
Proof. vm_compute. by repeat split. Qed.
(** A graceful shutdown is the power button on this machine. *)
Example power_button : List.last (map (fun x => rq_Body x.1) (bm_sent (Reset poller "GracefulShutdown" (zero_session, bmc)).2.2)) None = Some (of_bytes (print (JObj [("ResetType", JStr "PushPowerButton")]))).
Proof. vm_compute. done. Qed.
Example boots_uefi : (SetBootOnce driver "Cd" "UEFI" bmc).1 = None /\ (SetBootOnce driver "Cd" "Legacy" bmc).1 <> None /\ Forall (fun x => rq_Method x.1 = "GET") (bm_sent (SetBootOnce driver "Cd" "Legacy" bmc).2).
Proof. vm_compute. split; [done|]. split; [done|]. by repeat constructor. Qed.

(** A reference is put behind the base as it is. A BMC whose service root names its systems as
    "@evil.example/" has the next request, with the user and the password, sent to that host. *)
Definition stray_docs : list (string * json) := [("/redfish/v1/", JObj [("Systems", link "@evil.example/")])].
Definition plain_client : client := New base "admin" "secret" None false.
Theorem stray_reference :
  map (fun x => (of_bytes <$> authority (rq_URL x.1), rq_Auth x.1)) (bm_sent (Reset plain_client "On" (zero_session, mkBmc stray_docs "" [])).2.2) =
    [(Some "192.0.2.20", Basic "admin" "secret"); (Some "evil.example", Basic "admin" "secret")].
Proof. vm_compute. reflexivity. Qed.

Lemma decode_typed_witness : has_type computerSystemJSON (decode_into computerSystemJSON (zero_val computerSystemJSON) (JObj [("Model", JNum (to_bytes "3")); ("serialnumber", JStr "CZJ1")])).1 = true.
Proof. apply decode_typed; vm_compute; reflexivity. Defined.
Definition two_entries : val := (decode_into logCollectionJSON (zero_val logCollectionJSON) (JObj [("Items", JArr [entry "1" "OK" "2021-01-01T00:00:00Z"; entry "2" "OK" "2021-01-02T00:00:00Z"])])).1.
Definition blank : Snapshot := first_snapshot (zero_val computerSystemJSON).
Lemma newest_retained_witness : let l := sn_Log (log_from two_entries false blank) in
  (length l <= EventLogRetainCount)%nat /\
  (exists left_out, l ++ left_out ≡ₚ map entry_of (page_entries two_entries) /\ forall kept e, kept ∈ l -> e ∈ left_out -> unix_nano (le_Created e) <= unix_nano (le_Created kept)) /\
  (forall i j a b, (i < j)%nat -> l !! i = Some a -> l !! j = Some b -> unix_nano (le_Created b) <= unix_nano (le_Created a)) /\
  exists counts, sn_LogCounts (log_from two_entries false blank) = Some counts /\ forall sev, default 0 (counts !! sev) = Z.of_nat (length (of_severity sev (page_entries two_entries))).
Proof. apply (newest_retained two_entries false blank); vm_compute; reflexivity. Defined.
Lemma credentials_confined_witness : let ops := [OProbe; OReset "On"; OLogout] in
  exists t, sent (run_client poller ops (zero_session, bmc)).2.2 = (sent bmc ++ t)%list /\ justified (may_send poller zero_session) [] t /\ session_ok poller zero_session (run_client poller ops (zero_session, bmc)).2.1 t.
Proof. apply (credentials_confined poller [OProbe; OReset "On"; OLogout] bmc). vm_compute. by eexists. Defined.
Lemma reset_permitted_witness : exists t, sent (Reset poller "GracefulShutdown" (zero_session, bmc)).2.2 = (sent bmc ++ t)%list /\
  forall q a, (q, a) ∈ t -> is_read poller (q, a) \/ reset_post poller "GracefulShutdown" t q.
Proof. apply (reset_permitted poller "GracefulShutdown" zero_session bmc). Defined.
Lemma boot_mode_confirmed_witness : (SetBootOnce driver "Cd" "UEFI" bmc).1 = None /\
  exists t, sent (SetBootOnce driver "Cd" "UEFI" bmc).2 = (sent bmc ++ t)%list /\ boot_run driver "Cd" "UEFI" (SetBootOnce driver "Cd" "UEFI" bmc).1 t.
Proof. split; [vm_compute; reflexivity|]. apply (boot_mode_confirmed driver "Cd" "UEFI" bmc). Defined.
Lemma eject_means_out_witness : exists t, sent (EjectMedia driver bmc).2 = (sent bmc ++ t)%list /\
  Forall (fun x => is_get driver x \/ x.1 = bmc_request driver "POST" eject_action (Some (JObj []))) t /\
  ((EjectMedia driver bmc).1 = None -> media_out driver t \/ taken driver "POST" eject_action (JObj []) t) /\
  (request_error "POST" (rb_baseURL driver +:+ eject_action) = None -> media_out driver t \/ exists a, (bmc_request driver "POST" eject_action (Some (JObj [])), a) ∈ t).
Proof. apply (eject_means_out driver bmc). Defined.
End Demo.
