(* ===== verification/NodeDisks.v ===== *)
(** What the node agent reports of its machine's disks: internal/agent/disks.go (lsblk),
    diskstatus.go (the write to the FrameMachine), storagerunner.go and smart.go.

    The command runner is [Agent.Run], over the node's files. [StorageExec] is the StorageExecutor
    interface; [HostExec] is HostStorageExecutor over processes ([ProcWorld]), with the groups it
    knows to be alive as its memory. The API server is [AgentApi]. The SMART reader's memory is
    beside the world, and its refresh, which runs in a goroutine, is cut at the points where it
    holds the lock. Metrics and log lines are left out. *)
From stdpp Require Import base tactics strings list gmap.
From Stdlib Require Import ZArith Lia Ascii.
From S2P Require Import Prelude Trace GoLib GoTime Kube StorageTypes StorageHealth StorageJoin Agent GoJson Conversion BeaconStore GoDecode Alerting StorageAlerts DiskClaim MachineController.

Open Scope Z_scope.

(** ** disks.go *)

Definition lsblkColumns : string := "NAME,PATH,SERIAL,SIZE,TYPE,FSTYPE,MOUNTPOINT,WWN,MODEL,ROTA,LABEL".
Definition maxMembers : nat := 16.
Definition maxObservedDisks : nat := 64.
Definition maxPathLen : nat := 512.
Definition maxSerialLen : nat := 128.
Definition maxWWNLen : nat := 64.
Definition maxModelLen : nat := 256.
Definition maxMountPointLen : nat := 512.
Definition maxFSTypeLen : nat := 64.
Definition occupancyMounted : string := "mounted".
Definition lsblkTypeDisk : string := "disk".

Inductive lsblkDevice : Type := mkDevice {
  dv_Name : string;
  dv_Path : string;
  dv_Serial : option string;
  dv_Size : Z;
  dv_Type : string;
  dv_FSType : option string;
  dv_MountPoint : option string;
  dv_WWN : option string;
  dv_Model : option string;
  dv_Rota : option bool;
  dv_Label : option string;
  dv_Children : list lsblkDevice
}.

(** lsblkBool.UnmarshalJSON; None is the error of a number no float64 holds. *)
Definition lsblkBool (j : json) : option (option bool) :=
  match j with
  | JBool b => Some (Some b)
  | JNum lit => match parse_float lit with Some f => Some (Some (negb (f_m f =? 0))) | None => None end
  | JStr s =>
    let t := trim_space s in
    Some (if bool_decide (t = "1") || bool_decide (t = "true") then Some true
          else if bool_decide (t = "0") || bool_decide (t = "false") then Some false else None)
  | _ => Some None
  end.

(** The fields of lsblkDevice that are text and numbers; "rota" and "children" are decoded beside
    them. *)
Definition lsblk_scalars : ty := TStruct [
  ("name", TStr); ("path", TStr); ("serial", TPtr TStr); ("size", TInt 64); ("type", TStr); ("fstype", TPtr TStr);
  ("mountpoint", TPtr TStr); ("wwn", TPtr TStr); ("model", TPtr TStr); ("label", TPtr TStr)].
Definition opt_str (v : val) (ns : list string) : option string := match at_path v ns with VPtr (Some (VStr s)) => Some s | _ => None end.
Definition named (n k : string) : bool := bool_decide (fold_name n = fold_name k).
Fixpoint rota_of (old : option bool) (ms : list (string * json)) : option bool * bool :=
  match ms with
  | [] => (old, true)
  | (k, j) :: ms =>
    if named "rota" k then match lsblkBool j with Some b => rota_of b ms | None => (old, false) end else rota_of old ms
  end.

(** A device as it is decoded: its text and numbers, rota, and the cells of children with how many of them
    count (see [VSlice]). *)
Inductive rawDevice : Type := RawDevice (scalars : val) (rota : option bool) (children rest : list rawDevice).
Definition zero_device : rawDevice := RawDevice (zero_val lsblk_scalars) None [] [].
(** The value and whether there was no error. *)
Fixpoint decode_device (old : rawDevice) (j : json) {struct j} : rawDevice * bool :=
  match j with
  | JObj ms =>
    let '(RawDevice v0 r0 c0 s0) := old in
    let '(v, ok) := decode_into lsblk_scalars v0 (JObj ms) in
    let '(rota, rok) := rota_of r0 ms in
    let '(children, rest, cok) :=
      (fix go (old : list rawDevice * list rawDevice * bool) (ms : list (string * json)) : list rawDevice * list rawDevice * bool :=
         match ms with
         | [] => old
         | (k, x) :: ms =>
           go (if named "children" k then
                 match x with
                 | JNull => ([], [], old.2)
                 | JArr l =>
                   let cells := (old.1.1 ++ old.1.2)%list in
                   let r := (fix elems (cells : list rawDevice) (l : list json) : list (rawDevice * bool) :=
                     match l with [] => [] | j :: l => decode_device (hd zero_device cells) j :: elems (tail cells) l end) cells l in
                   (List.map fst r, match l with [] => [] | _ => drop (length l) cells end, old.2 && forallb snd r)
                 | _ => (old.1, false)
                 end
               else old) ms
         end) (c0, s0, true) ms in
    (RawDevice v rota children rest, ok && rok && cok)
  | JNull => (old, true)
  | _ => (old, false)
  end.
Fixpoint device_of (d : rawDevice) : lsblkDevice :=
  let '(RawDevice v rota children _) := d in
  mkDevice (str v ["name"]) (str v ["path"]) (opt_str v ["serial"]) (int v ["size"]) (str v ["type"]) (opt_str v ["fstype"])
    (opt_str v ["mountpoint"]) (opt_str v ["wwn"]) (opt_str v ["model"]) rota (opt_str v ["label"]) (List.map device_of children).

Definition decode_devices (old : list rawDevice * list rawDevice * bool) (j : json) : list rawDevice * list rawDevice * bool :=
  match j with
  | JNull => ([], [], old.2)
  | JArr l =>
    let cells := (old.1.1 ++ old.1.2)%list in
    let r := zip_cells decode_device zero_device cells l in
    (List.map fst r, match l with [] => [] | _ => drop (length l) cells end, old.2 && forallb snd r)
  | _ => (old.1, false)
  end.
(** json.Unmarshal of lsblk's output; None is an error. *)
Definition parse_lsblk (out : string) : option (list lsblkDevice) :=
  match parse out with
  | Some (JObj ms) =>
    let '(l, _, ok) := fold_left (fun acc (p : string * json) => if named "blockdevices" p.1 then decode_devices acc p.2 else acc) ms ([], [], true) in
    if ok : bool then Some (List.map device_of l) else None
  | Some JNull => Some []
  | _ => None
  end.

(** [str] of disks.go. *)
Definition trimmed (p : option string) : string := match p with None => "" | Some s => trim_space s end.

(** The device and every descendant, depth first. *)
Fixpoint walk (dev : lsblkDevice) : list lsblkDevice := dev :: flat_map walk (dv_Children dev).

Definition firstMountPoint (dev : lsblkDevice) : string :=
  fold_left (fun found d => if bool_decide (found = "") then trimmed (dv_MountPoint d) else found) (walk dev) "".
Definition anyFSType (dev : lsblkDevice) (fstype : string) : bool := existsb (fun d => bool_decide (trimmed (dv_FSType d) = fstype)) (walk dev).

Definition add_member (out : list string) (name : string) : list string :=
  if bool_decide (name = "") || (128 <? String.length name)%nat || bool_decide (name ∈ out) || (maxMembers <=? length out)%nat then out
  else (out ++ [name])%list.
Definition membersOf (dev : lsblkDevice) : list string :=
  fold_left (fun out d =>
    if has_prefix "raid" (dv_Type d) then add_member out (dv_Name d)
    else if bool_decide (trimmed (dv_FSType d) = "zfs_member") then add_member out (trimmed (dv_Label d)) else out) (walk dev) [].

Definition occupancyOf (dev : lsblkDevice) : string :=
  if bool_decide (firstMountPoint dev <> "") then occupancyMounted
  else if anyFSType dev "linux_raid_member" then "md-member"
  else if anyFSType dev "zfs_member" then "zfs-member"
  else
    let fstype := trimmed (dv_FSType dev) in
    if bool_decide (fstype = "") then match dv_Children dev with [] => "free" | _ => "partitioned" end
    else if has_prefix "ceph" fstype then "ceph-osd"
    else if bool_decide (fstype = "LVM2_member") then "lvm-pv"
    else "in-use".

Definition byIDPathFromWWN (wwn : string) : string :=
  if has_prefix "0x" wwn then "/dev/disk/by-id/wwn-" +:+ wwn
  else if has_prefix "eui." wwn || has_prefix "nvme." wwn then "/dev/disk/by-id/nvme-" +:+ wwn
  else "".

(** The kernel names of a disk with a serial and of its partitions, to the serial. *)
Definition index_device (index : gmap string string) (dev : lsblkDevice) : gmap string string :=
  let serial := trimmed (dv_Serial dev) in
  if bool_decide (dv_Type dev <> lsblkTypeDisk) || bool_decide (serial = "") then index
  else fold_left (fun index d => if bool_decide (dv_Type d = lsblkTypeDisk) || bool_decide (dv_Type d = "part") then <[dv_Name d := serial]> index else index)
         (walk dev) index.

Definition observe_disk (dev : lsblkDevice) (serial : string) : ObservedDisk :=
  let wwn := trimmed (dv_WWN dev) in
  let wwn := if (maxWWNLen <? rune_count wwn)%nat then "" else wwn in
  mkObservedDisk (dv_Path dev) serial (wrap32 (Z.quot (dv_Size dev) 1000000000)) (occupancyOf dev) wwn (byIDPathFromWWN wwn)
    (clipRunes (trimmed (dv_Model dev)) maxModelLen) (dv_Rota dev) (clipRunes (firstMountPoint dev) maxMountPointLen)
    (clipRunes (trimmed (dv_FSType dev)) maxFSTypeLen) (membersOf dev) None.

Fixpoint observe_loop (disks : list ObservedDisk) (devs : list lsblkDevice) : list ObservedDisk :=
  match devs with
  | [] => disks
  | dev :: devs =>
    let serial := trimmed (dv_Serial dev) in
    if bool_decide (dv_Type dev <> lsblkTypeDisk) then observe_loop disks devs
    else if bool_decide (serial = "") || (maxSerialLen <? rune_count serial)%nat then observe_loop disks devs
    else if (maxPathLen <? rune_count (dv_Path dev))%nat then observe_loop disks devs
    else if (length disks =? maxObservedDisks)%nat then disks
    else observe_loop (disks ++ [observe_disk dev serial])%list devs
  end.

(** The text of json.Unmarshal's error on an output. *)
Class DecodeErrors := decode_error : string -> string.

Section Observe.
Context `{EX : Exec} `{DE : DecodeErrors}.

Definition ObserveDisksIndexed : St Host (result string (list ObservedDisk * gmap string string)) :=
  r ← Run "lsblk" ["-J"; "-b"; "-o"; lsblkColumns];
  mret match r with
       | (_, Some e) => inl ("running lsblk: " +:+ e)
       | (out, None) =>
         match parse_lsblk out with
         | None => inl ("parsing lsblk output: " +:+ decode_error out)
         | Some devs => inr (observe_loop [] devs, fold_left index_device devs ∅)
         end
       end.
Definition ObserveDisks : St Host (result string (list ObservedDisk)) :=
  r ← ObserveDisksIndexed; mret match r with inl e => inl e | inr (disks, _) => inr disks end.
End Observe.

(** ** diskstatus.go *)

(** The API server as the agent uses it. [patch_machine base m] is a merge patch of the status
    with the resourceVersion of [base] as its precondition. *)
Class AgentApi (W : Type) := {
  list_machines : St W (result apierr (list Machine));
  patch_machine : Machine -> Machine -> St W (result apierr Machine);
  agent_now : St W time
}.

Definition with_reading (m : Machine) (r : MachineReading) : Machine :=
  let fm := mc_FM m in
  with_fm m (mkFrameMachine (fm_Name fm) (fm_Namespace fm) (fm_Generation fm) (fm_NodeRef fm) (fm_AlertRelease fm) r
    (fm_LastAlertReleaseAt fm) (fm_LastAlertRelease fm) (fm_Conditions fm)).

Section Patch.
Context {W : Type} {AA : AgentApi W}.
Context (nodeName : string) (disks : list ObservedDisk) (network : option MachineNetwork).

Definition published (target : Machine) (local : option LocalStorage) (now : time) : Machine :=
  let r := fm_Reading (mc_FM target) in
  let drives := match st_Inventory r with Some i => inv_Drives i | None => [] end in
  with_reading target (mkMachineReading (st_Inventory r) (Some (mkMachineStorage disks (Join drives disks) (Some now) local))
    (match network with Some _ => network | None => st_Network r end)).
Definition kept_local (local : option LocalStorage) (target : Machine) : option LocalStorage :=
  match local, st_Storage (fm_Reading (mc_FM target)) with None, Some st => ms_Local st | _, _ => local end.

(** The function given to RetryOnConflict. Its [local] is the variable of the enclosing call, which
    an attempt sets for the ones after it. *)
Definition patch_attempt : St (option LocalStorage * W) (option apierr) :=
  l ← beside list_machines;
  match l with
  | inl e => mret (Some (wrap_err "listing FrameMachines" e))
  | inr items =>
    match List.find (fun m => bool_decide (fm_NodeRef (mc_FM m) = nodeName)) items with
    | None => mret (Some (plain_err ("no FrameMachine has spec.nodeRef " +:+ quote nodeName)))
    | Some target =>
      now ← beside agent_now;
      _ ← remember (fun local => kept_local local target);
      local ← memory;
      r ← beside (patch_machine target (published target local now));
      mret match r with inl e => Some e | inr _ => None end
    end
  end.

(** retry.RetryOnConflict with DefaultRetry: five attempts. *)
Fixpoint patch_retry (n : nat) : St (option LocalStorage * W) (option apierr) :=
  r ← patch_attempt;
  match r, n with
  | Some e, S n => if err_conflict e then patch_retry n else mret r
  | _, _ => mret r
  end.
Definition retrySteps : nat := 5.
Definition PatchObservedStorage (local : option LocalStorage) : St W (option apierr) := fun w =>
  let '(r, (_, w)) := patch_retry (retrySteps - 1) (local, w) in (r, w).
End Patch.
Definition PatchObservedDisks {W} `{AgentApi W} (nodeName : string) (disks : list ObservedDisk) : St W (option apierr) :=
  PatchObservedStorage nodeName disks None None.

(** ** Running the storage commands *)

Definition storageTimeoutSeconds : Z := 10.
Definition storageKillAfterSeconds : Z := 2.
Definition timeoutPrefix : list string := ["timeout"; "--foreground"; "-k"; itoa storageKillAfterSeconds; itoa storageTimeoutSeconds].

(** An error of a command: its text, whether errors.Is finds errBusy in it, and the exit code
    errors.As finds, -1 for none. *)
Record xerr := mkXerr { xe_text : string; xe_busy : bool; xe_code : Z }.
Definition errBusy : xerr := mkXerr "previous run still alive on the node" true (-1).
Definition refusal (text : string) : xerr := mkXerr text false (-1).
Definition exitCode (e : option xerr) : Z := match e with Some e => xe_code e | None => -1 end.
Definition first_line_of (l : bytes) : bytes := match split_bytes newline l [] with h :: _ => h | [] => [] end.
Definition firstLine (s : string) : string := clipRunes (of_bytes (first_line_of (to_bytes (trim_space s)))) 200.

(** The StorageExecutor interface: standard output, standard error, error. *)
Class StorageExec (W : Type) := storage_exec : list string -> St W (string * string * option xerr).

(** *** storagerunner.go

    [proc_start] starts a command in a process group of its own; [proc_wait] waits for it, with the
    hard deadline and the wait delay, and says whether the deadline passed. *)
Class ProcWorld (W : Type) := {
  proc_start : list string -> St W (result string Z);
  proc_wait : Z -> St W (string * string * option xerr * bool);
  group_kill : Z -> St W unit;
  groupAlive : Z -> St W bool
}.
Record HostStorageExecutor := mkExecutor { hx_Prefix : list string; hx_HardDeadline : Z; hx_WaitDelay : Z }.
Definition hardDeadline : Z := (storageTimeoutSeconds + storageKillAfterSeconds + 3) * second.
Definition NewHostStorageExecutor : HostStorageExecutor := mkExecutor ("nsenter" :: nsenterArgs) hardDeadline (2 * second).
Definition NewImageStorageExecutor : HostStorageExecutor := mkExecutor [] hardDeadline (2 * second).
Abbreviation inflight := (gmap string Z).
Definition key_of (argv : list string) : string := join (String (byte 0) "") argv.
Definition killed (e : option xerr) : xerr :=
  let why := "killed at the agent's hard deadline" in
  match e with Some e => mkXerr (xe_text e +:+ nl +:+ why) (xe_busy e) (xe_code e) | None => refusal why end.

Section HostExec.
Context {W : Type} {PW : ProcWorld W} (h : HostStorageExecutor).

Definition run_group (argv : list string) : St (inflight * W) (string * string * option xerr) :=
  s ← beside (proc_start (hx_Prefix h ++ argv)%list);
  match s with
  | inl e => mret ("", "", Some (refusal e))
  | inr pgid =>
    o ← beside (proc_wait pgid);
    let '(stdout, stderr, err, late) := o in
    _ ← beside (group_kill pgid);
    alive ← beside (groupAlive pgid);
    _ ← remember (fun m => if alive : bool then <[key_of argv := pgid]> m else m);
    mret (stdout, stderr, if late : bool then Some (killed err) else err)
  end.
Definition Exec_host (argv : list string) : St (inflight * W) (string * string * option xerr) :=
  m ← memory;
  match m !! key_of argv with
  | Some pgid =>
    alive ← beside (groupAlive pgid);
    if alive : bool then mret ("", "", Some errBusy) else
    _ ← remember (delete (key_of argv));
    run_group argv
  | None => run_group argv
  end.
#[export] Instance HostExec : StorageExec (inflight * W) := Exec_host.
End HostExec.

(** ** smart.go *)

(** t.Add(d) *)
Definition later (t : time) (d : Z) : time := Time (unix_nano t + d) (zone t).
Definition smartArgvPrefix : list string := ["smartctl"; "--json=c"; "--nocheck=standby,0"; "--all"; "--log=devstat"].
Definition lower_class : Regexp.re := Regexp.One (in_range 97 122).
Definition smartDevice : Regexp.re :=
  Regexp.Cat Regexp.Bol (Regexp.cats [Regexp.lit "/dev/";
    Regexp.Cap 1 (Regexp.Or (Regexp.cats [Regexp.lit "sd"; Regexp.between 1 3 lower_class])
                    (Regexp.cats [Regexp.lit "nvme"; Regexp.between 1 3 Regexp.digit_class; Regexp.lit "n"; Regexp.between 1 3 Regexp.digit_class]));
    Regexp.Eol]).
Definition smartInterval : Z := 6 * hour.
Definition smartRetry : Z := 30 * minute.

Definition smartArgv (device : string) : result string (list string) :=
  if negb (Regexp.matches smartDevice device) then inl ("refusing device " +:+ quote device +:+ ": not a whole disk by kernel name")
  else inr (smartArgvPrefix ++ [device])%list.

(** json.Unmarshal; None is an error. *)
Definition unmarshal (t : ty) (s : string) : option val :=
  match parse s with
  | None => None
  | Some j => let '(v, ok) := decode_into t (zero_val t) j in if ok : bool then Some v else None
  end.
Definition deref (v : val) : option val := match v with VPtr o => o | _ => None end.

Definition smartJSON : ty := TStruct [
  ("smartctl", TStruct [("exit_status", TInt 64); ("messages", TSlice (TStruct [("string", TStr)]))]);
  ("smart_status", TPtr (TStruct [("passed", TPtr TBool)]));
  ("nvme_smart_health_information_log", TPtr (TStruct [("percentage_used", TPtr (TInt 32)); ("critical_warning", TPtr (TInt 64))]));
  ("scsi_percentage_used_endurance_indicator", TPtr (TInt 32));
  ("ata_device_statistics", TStruct [("pages", TSlice (TStruct [("table", TSlice (TStruct [("name", TStr); ("value", TPtr (TInt 64))]))]))]);
  ("ata_smart_attributes", TStruct [("table", TSlice (TStruct [("name", TStr); ("value", TPtr (TInt 32))]))])].

Definition smartExitNoRead : Z := 3.
Definition nvmeTemperatureWarning : Z := 2.
Definition endurancePercentUsed : string := "Percentage Used Endurance Indicator".
Definition wearAttributes : list string := [
  "Media_Wearout_Indicator"; "SSD_Life_Left"; "Percent_Lifetime_Remain";
  "Remaining_Lifetime_Perc"; "Perc_Rated_Life_Remain"; "Percent_Life_Remaining";
  "Wear_Leveling_Count"].

Definition percent (v : Z) : Z := Z.min (Z.max v 0) 100.
Definition endurance_row (row : val) : option Z :=
  if bool_decide (str row ["name"] = endurancePercentUsed) then (fun v => percent (Z.min (Z.max v 0) 100)) <$> opt_int row ["value"] else None.
Definition attribute_row (name : string) (a : val) : option Z :=
  if bool_decide (str a ["name"] = name) then
    match opt_int a ["value"] with Some v => if v <=? 100 then Some (percent (wrap32 (100 - v))) else None | None => None end
  else None.
Definition wearOf (j : val) : option Z :=
  match match deref (at_path j ["nvme_smart_health_information_log"]) with Some n => opt_int n ["percentage_used"] | None => None end with
  | Some v => Some (percent v)
  | None =>
    match opt_int j ["scsi_percentage_used_endurance_indicator"] with
    | Some v => Some (percent v)
    | None =>
      match first_some endurance_row (flat_map (fun page => items page ["table"]) (items j ["ata_device_statistics"; "pages"])) with
      | Some v => Some v
      | None => first_some (fun name => first_some (attribute_row name) (items j ["ata_smart_attributes"; "table"])) wearAttributes
      end
    end
  end.

Definition opt_bool (v : val) (ns : list string) : option bool := match at_path v ns with VPtr (Some (VBool b)) => Some b | _ => None end.
Definition passed_of (j : val) : option bool :=
  match deref (at_path j ["smart_status"]) with
  | None => None
  | Some s =>
    match opt_bool s ["passed"] with
    | None => None
    | Some p =>
      match deref (at_path j ["nvme_smart_health_information_log"]) with
      | Some n => match opt_int n ["critical_warning"] with Some c => Some (if c =? nvmeTemperatureWarning then true else p) | None => Some p end
      | None => Some p
      end
    end
  end.

Section Smart.
Context {W : Type} {SX : StorageExec W} {DE : DecodeErrors}.

Definition execSMART (argv : list string) : St W (string * string * option xerr) :=
  if negb (length argv =? length smartArgvPrefix + 1)%nat || negb (bool_decide (take (length smartArgvPrefix) argv = smartArgvPrefix)) ||
     negb (Regexp.matches smartDevice (List.last argv "")) then
    mret ("", "", Some (refusal ("refusing " +:+ quote (join " " argv) +:+ ": not the SMART read")))
  else storage_exec (timeoutPrefix ++ argv)%list.

Definition parseSMART (stdout : string) : result string DiskSMART :=
  match unmarshal smartJSON stdout with
  | None => inl ("parsing smartctl output: " +:+ decode_error stdout)
  | Some j =>
    let status := int j ["smartctl"; "exit_status"] in
    if negb (Z.land status smartExitNoRead =? 0) then
      inl ("smartctl could not read the disk (exit status " +:+ itoa status +:+ ")" +:+
           match items j ["smartctl"; "messages"] with m :: _ => ": " +:+ str m ["string"] | [] => "" end)
    else inr (mkDiskSMART None (passed_of j) (wearOf j) "")
  end.

Class SmartClock := smart_now : St W time.
Context {SC : SmartClock}.

Definition failed_read (now : time) (why : string) : DiskSMART := mkDiskSMART (Some now) None None (clipRunes why 256).
(** What a run of smartctl amounts to. *)
Definition judge (now : time) (stdout stderr : string) (err : option xerr) : DiskSMART :=
  let report := parseSMART stdout in
  let why :=
    match err with
    | Some e =>
      if xe_code e =? 127 then "smartctl not found in the agent image"
      else if (xe_code e =? 124) || (xe_code e =? 137) then "smartctl timed out after " +:+ itoa storageTimeoutSeconds +:+ "s"
      else if bool_decide (stderr <> "") then xe_text e +:+ ": " +:+ firstLine stderr
      else match report with inr _ => xe_text e | inl perr => if bool_decide (stdout = "") then xe_text e else perr end
    | None => match report with inr _ => "smartctl reported neither health nor wear" | inl perr => perr end
    end in
  match report with
  | inr r => if bool_decide (is_Some (sm_Passed r)) || bool_decide (is_Some (sm_WearUsedPercent r)) then mkDiskSMART (Some now) (sm_Passed r) (sm_WearUsedPercent r) (sm_Error r)
             else failed_read now why
  | inl _ => failed_read now why
  end.
Definition read (d : ObservedDisk) : St W DiskSMART :=
  now ← smart_now;
  match smartArgv (od_Path d) with
  | inl e => mret (failed_read now e)
  | inr argv => o ← execSMART argv; let '(stdout, stderr, err) := o in mret (judge now stdout stderr err)
  end.

(** *** The reader *)

Record SMARTReader := mkReader {
  sr_last : gmap string DiskSMART; sr_due : gmap string time; sr_nextAt : time; sr_running : bool
}.
Definition NewSMARTReader : SMARTReader := mkReader ∅ ∅ zero_time false.
Definition set_smart (d : ObservedDisk) (s : option DiskSMART) : ObservedDisk :=
  mkObservedDisk (od_Path d) (od_SerialNumber d) (od_SizeGB d) (od_Occupancy d) (od_WWN d) (od_ByIDPath d) (od_Model d) (od_Rotational d)
    (od_MountPoint d) (od_FSType d) (od_Members d) s.
Definition annotated (r : SMARTReader) (d : ObservedDisk) : ObservedDisk :=
  match sr_last r !! od_SerialNumber d with Some s => set_smart d (Some s) | None => d end.
Definition present_in (disks : list ObservedDisk) (serial : string) : bool := bool_decide (serial ∈ map od_SerialNumber disks).
Definition pruned {A} (disks : list ObservedDisk) (m : gmap string A) : gmap string A := filter (fun kv => present_in disks kv.1 = true) m.

(** Annotate, holding the lock throughout: the disks as it leaves them, and the disks a refresh it
    starts is given. *)
Definition Annotate (disks : list ObservedDisk) : St (SMARTReader * W) (list ObservedDisk * option (list ObservedDisk)) :=
  r ← memory;
  let disks := map (annotated r) disks in
  _ ← remember (fun r => mkReader (pruned disks (sr_last r)) (pruned disks (sr_due r)) (sr_nextAt r) (sr_running r));
  if sr_running r then mret (disks, None) else
  t ← beside smart_now;
  if before t (sr_nextAt r) then mret (disks, None) else
  t ← beside smart_now;
  _ ← remember (fun r => mkReader (sr_last r) (sr_due r) (later t smartRetry) true);
  mret (disks, Some disks).

(** The refresh: what it does between two points where another goroutine can come in. *)
Definition spins (d : ObservedDisk) : bool := bool_decide (od_Rotational d = Some true).
Definition is_due (start : time) (serial : string) (r : SMARTReader) : bool := negb (before start (default zero_time (sr_due r !! serial))).
Definition wait_after (s : DiskSMART) : Z := match sm_Passed s with None => smartRetry | Some _ => smartInterval end.
Definition stored (start : time) (serial : string) (s : DiskSMART) (r : SMARTReader) : SMARTReader :=
  mkReader (<[serial := s]> (sr_last r)) (<[serial := later start (wait_after s)]> (sr_due r)) (sr_nextAt r) (sr_running r).
Definition ended (r : SMARTReader) : SMARTReader := mkReader (sr_last r) (sr_due r) (sr_nextAt r) false.
Fixpoint refresh_loop (start : time) (disks : list ObservedDisk) : St (SMARTReader * W) unit :=
  match disks with
  | [] => remember ended
  | d :: disks =>
    if spins d then refresh_loop start disks else
    r ← memory;
    if negb (is_due start (od_SerialNumber d) r) then refresh_loop start disks else
    s ← beside (read d);
    _ ← remember (stored start (od_SerialNumber d) s);
    refresh_loop start disks
  end.
Definition refresh (disks : list ObservedDisk) : St (SMARTReader * W) unit := start ← beside smart_now; refresh_loop start disks.
End Smart.
#[global] Arguments SmartClock W : clear implicits.

(** ** What a disk is reported as *)

Lemma first_mount_acc l acc : fold_left (fun found d => if bool_decide (found = "") then trimmed (dv_MountPoint d) else found) l acc = "" ->
  acc = "" /\ Forall (fun d => trimmed (dv_MountPoint d) = "") l.
Proof.
  revert acc. induction l as [|d l IH]; intros acc H; [by split|]. cbn in H. apply IH in H as [Ha Hl].
  destruct (bool_decide (acc = "")) eqn:E; [apply bool_decide_eq_true in E|apply bool_decide_eq_false in E; done]. split; [done|]. by constructor.
Qed.

(** A mount anywhere on the disk is seen, so none seen is none there. *)
Lemma no_mount dev : firstMountPoint dev = "" -> Forall (fun d => trimmed (dv_MountPoint d) = "") (walk dev).
Proof. apply first_mount_acc. Qed.

(** A disk is free exactly when it has no device on it, no signature and no mount. *)
Lemma occupancy_free dev : occupancyOf dev = "free" <-> dv_Children dev = [] /\ trimmed (dv_FSType dev) = "" /\ trimmed (dv_MountPoint dev) = "".
Proof.
  unfold occupancyOf. split.
  - intros H. repeat (case_match; try discriminate). simplify_eq.
    repeat match goal with H : bool_decide _ = true |- _ => apply bool_decide_eq_true in H | H : bool_decide _ = false |- _ => apply bool_decide_eq_false in H end.
    assert (firstMountPoint dev = "") as Hm by (by apply dec_stable). split; [done|split; [done|]]. apply no_mount in Hm. destruct dev. cbn in *. by inversion Hm.
  - intros (Hc & Hf & Hm). destruct dev. cbn in *. subst. unfold firstMountPoint, anyFSType. cbn. rewrite Hf, Hm. done.
Qed.

Lemma observe_loop_from disks devs d : d ∈ observe_loop disks devs -> d ∈ disks \/
  exists dev, dev ∈ devs /\ d = observe_disk dev (trimmed (dv_Serial dev)) /\ dv_Type dev = lsblkTypeDisk /\ trimmed (dv_Serial dev) <> "" /\
    (rune_count (trimmed (dv_Serial dev)) <= maxSerialLen)%nat /\ (rune_count (dv_Path dev) <= maxPathLen)%nat.
Proof.
  revert disks. induction devs as [|dev devs IH]; intros disks; cbn [observe_loop]; [by left|].
  assert (forall ds, d ∈ observe_loop ds devs -> ds = disks -> d ∈ disks \/ exists dev', dev' ∈ dev :: devs /\ d = observe_disk dev' (trimmed (dv_Serial dev')) /\ dv_Type dev' = lsblkTypeDisk /\
    trimmed (dv_Serial dev') <> "" /\ (rune_count (trimmed (dv_Serial dev')) <= maxSerialLen)%nat /\ (rune_count (dv_Path dev') <= maxPathLen)%nat) as Hskip.
  { intros ds Hd ->. destruct (IH _ Hd) as [?|(x & ? & ?)]; [by left|]. right. exists x. split; [by right|done]. }
  case_bool_decide as Ht; [eauto|].
  destruct (bool_decide (trimmed (dv_Serial dev) = "") || _) eqn:Es; [eauto|]. apply orb_false_elim in Es as [Es%bool_decide_eq_false El%Nat.ltb_ge].
  destruct (maxPathLen <? _)%nat eqn:Ep; [eauto|]. apply Nat.ltb_ge in Ep. destruct (length disks =? _)%nat; [by left|].
  intros Hd. destruct (IH _ Hd) as [Hin|(x & ? & ?)]; [apply elem_of_app in Hin as [?|Heq%list_elem_of_singleton]; [by left|subst d]|].
  - right. exists dev. repeat split; try done. by left.
  - right. exists x. split; [by right|done].
Qed.

Section Reported.
Context `{EX : Exec} `{DE : DecodeErrors}.

Lemma observed_from h disks idx h' : ObserveDisksIndexed h = (inr (disks, idx), h') ->
  exists out devs, Run "lsblk" ["-J"; "-b"; "-o"; lsblkColumns] h = ((out, None), h') /\ parse_lsblk out = Some devs /\ disks = observe_loop [] devs.
Proof.
  unfold ObserveDisksIndexed. rewrite St_bind_run. destruct (Run _ _ h) as [[out [e|]] h2] eqn:R; cbn; [intros [=]|].
  destruct (parse_lsblk out) as [devs|] eqn:E; [|intros [=]]. intros [= <- <- <-]. eauto 6.
Qed.

(** C15. A disk the agent publishes as free is a whole disk lsblk printed with that path and serial,
    and with nothing on it: no device built on it, no signature and no mount. *)
Theorem free_is_empty h disks idx h' d : ObserveDisksIndexed h = (inr (disks, idx), h') -> d ∈ disks -> od_Occupancy d = "free" ->
  exists out devs dev, Run "lsblk" ["-J"; "-b"; "-o"; lsblkColumns] h = ((out, None), h') /\ parse_lsblk out = Some devs /\ dev ∈ devs /\
    dv_Type dev = lsblkTypeDisk /\ dv_Path dev = od_Path d /\ trimmed (dv_Serial dev) = od_SerialNumber d /\ od_SerialNumber d <> "" /\
    dv_Children dev = [] /\ trimmed (dv_FSType dev) = "" /\ trimmed (dv_MountPoint dev) = "".
Proof.
  intros (out & devs & HR & HP & ->)%observed_from Hd Hf. apply observe_loop_from in Hd as [?%not_elem_of_nil|(dev & Hdev & -> & Ht & Hs & _)]; [done|].
  cbn in Hf. apply occupancy_free in Hf as (Hc & Hfs & Hm). exists out, devs, dev. by repeat split.
Qed.
End Reported.

(** *** Within the schema *)

Definition chars (n : nat) (s : string) : Prop := (rune_count s <= n)%nat.
Definition occupancies : list string := ["free"; "mounted"; "partitioned"; "lvm-pv"; "ceph-osd"; "md-member"; "zfs-member"; "in-use"].
(** The kubebuilder markers of ObservedDisk. *)
Definition disk_fits (d : ObservedDisk) : Prop :=
  chars 512 (od_Path d) /\ chars 128 (od_SerialNumber d) /\ int32_ok (od_SizeGB d) /\ od_Occupancy d ∈ occupancies /\ chars 64 (od_WWN d) /\
  chars 512 (od_ByIDPath d) /\ chars 256 (od_Model d) /\ chars 512 (od_MountPoint d) /\ chars 64 (od_FSType d) /\
  (length (od_Members d) <= 16)%nat /\ Forall (chars 128) (od_Members d).

Lemma runes_le n l : (length (runes_fuel n l) <= length l)%nat.
Proof.
  revert l. induction n as [|n IH]; intros l; cbn; [lia|]. destruct (next_rune l) as [[r l']|] eqn:E; cbn; [|lia].
  apply Regexp.next_rune_suffix in E as (p & -> & Hp). rewrite length_app. specialize (IH l'). destruct p; [done|]. cbn. lia.
Qed.
Lemma rune_count_le s : (rune_count s <= String.length s)%nat.
Proof. unfold rune_count, runes. etrans; [apply runes_le|]. unfold to_bytes. induction s; cbn; lia. Qed.
Lemma clip_chars n s : chars n (clipRunes s n).
Proof. apply clipRunes_bound. Qed.

Lemma add_member_fits out name : (length out <= 16)%nat -> Forall (chars 128) out -> (length (add_member out name) <= 16)%nat /\ Forall (chars 128) (add_member out name).
Proof.
  intros Hl Hf. unfold add_member. destruct (_ || _) eqn:E; [done|]. apply orb_false_elim in E as [[[_ E%Nat.ltb_ge]%orb_false_elim _]%orb_false_elim Hm%Nat.leb_gt].
  rewrite length_app. unfold maxMembers in *. cbn. split; [lia|]. apply Forall_app. split; [done|]. constructor; [|done]. unfold chars. etrans; [apply rune_count_le|done].
Qed.
Lemma members_fit dev : (length (membersOf dev) <= 16)%nat /\ Forall (chars 128) (membersOf dev).
Proof.
  unfold membersOf. assert (forall l out, (length out <= 16)%nat -> Forall (chars 128) out -> let r := fold_left (fun out d =>
    if has_prefix "raid" (dv_Type d) then add_member out (dv_Name d)
    else if bool_decide (trimmed (dv_FSType d) = "zfs_member") then add_member out (trimmed (dv_Label d)) else out) l out in
    (length r <= 16)%nat /\ Forall (chars 128) r) as H.
  { induction l as [|d l IH]; intros out Hl Hf; [by split|]. cbn. destruct (has_prefix _ _); [|destruct (bool_decide _)]; apply IH; try done; by apply add_member_fits. }
  apply H; [cbn; lia|constructor].
Qed.
Lemma occupancy_known dev : occupancyOf dev ∈ occupancies.
Proof. unfold occupancyOf, occupancies. repeat case_match; apply list_elem_of_In; cbn; tauto. Qed.

(** An ASCII prefix counts for its bytes. *)
Lemma ascii_prefix p s : forallb (fun c => byteZ c <? 128) (to_bytes p) = true -> rune_count (p +:+ s) = (String.length p + rune_count s)%nat.
Proof.
  induction p as [|c p IH]; [done|]. cbn [to_bytes String.list_ascii_of_string forallb]. intros [Hc Hp]%andb_prop.
  change (rune_count (String c (p +:+ s)) = S (String.length p + rune_count s)). rewrite <- IH by done.
  unfold rune_count, runes. cbn -[Z.ltb]. by rewrite Hc.
Qed.
Lemma by_id_chars wwn : chars 64 wwn -> chars 512 (byIDPathFromWWN wwn).
Proof.
  unfold byIDPathFromWWN, chars. intros H. destruct (has_prefix "0x" wwn); [rewrite ascii_prefix by reflexivity; cbn; lia|].
  destruct (_ || _); [rewrite ascii_prefix by reflexivity; cbn; lia|cbn; lia].
Qed.

Lemma observe_disk_fits dev serial : chars 512 (dv_Path dev) -> chars 128 serial -> disk_fits (observe_disk dev serial).
Proof.
  intros Hp Hs. unfold disk_fits, observe_disk. cbn. split; [done|split; [done|split; [apply (wrap_range 32); lia|split; [apply occupancy_known|]]]].
  assert (chars 64 (if (maxWWNLen <? rune_count (trimmed (dv_WWN dev)))%nat then "" else trimmed (dv_WWN dev))) as Hw.
  { destruct (_ <? _)%nat eqn:E; [unfold chars; cbn; lia|]. by apply Nat.ltb_ge in E. }
  split; [done|split; [by apply by_id_chars|]]. repeat (split; [apply clip_chars|]). apply members_fit.
Qed.
Lemma observe_loop_length disks devs : (length disks <= maxObservedDisks)%nat -> (length (observe_loop disks devs) <= maxObservedDisks)%nat.
Proof.
  revert disks. induction devs as [|dev devs IH]; intros disks Hl; cbn [observe_loop]; [done|].
  destruct (bool_decide _); [by apply IH|]. destruct (_ || _); [by apply IH|]. destruct (maxPathLen <? _)%nat; [by apply IH|].
  destruct (Nat.eqb_spec (length disks) maxObservedDisks); [done|]. apply IH. rewrite length_app. cbn. lia.
Qed.
(** Whatever lsblk prints, the disks published are within the bounds of their schema. *)
Lemma observed_fit devs : (length (observe_loop [] devs) <= 64)%nat /\ Forall disk_fits (observe_loop [] devs).
Proof.
  split; [apply observe_loop_length; cbn; lia|]. apply Forall_forall. intros d [?%not_elem_of_nil|(dev & _ & -> & _ & _ & Hs & Hp)]%observe_loop_from; [done|]. by apply observe_disk_fits.
Qed.

(** ** The claims on the disks *)

Section Claims.
Context {W : Type} {CW : ClaimWorld W}.

Lemma claimed_from c m st d devs : ms_Observed st = observe_loop [] devs -> disk_of c m st = inr d ->
  exists dev, dev ∈ devs /\ d = observe_disk dev (trimmed (dv_Serial dev)) /\ dv_Path dev = cl_ByIDPath (cl_Spec c) /\ trimmed (dv_Serial dev) = cl_Serial (cl_Spec c).
Proof.
  intros Ho Hd. unfold disk_of in Hd. destruct (List.filter _ _) as [|x [|y l]] eqn:E; try discriminate. case_bool_decide as Hp; [discriminate|]. injection Hd as ->.
  assert (In d (List.filter (matching (cl_Serial (cl_Spec c))) (ms_Observed st))) as [Hin Hm]%filter_In by (rewrite E; by left).
  rewrite Ho in Hin. apply list_elem_of_In, observe_loop_from in Hin as [?%not_elem_of_nil|(dev & Hdev & -> & _)]; [done|].
  exists dev. unfold matching in Hm. apply andb_prop in Hm as [_ Hm%bool_decide_eq_true]. by cbn in Hm, Hp.
Qed.

(** The disk a claim may destroy is one lsblk printed with nothing on it. *)
Lemma claimed_is_empty c m st d devs : ms_Observed st = observe_loop [] devs -> disk_of c m st = inr d -> od_Occupancy d = "free" ->
  exists dev, dev ∈ devs /\ dv_Path dev = cl_ByIDPath (cl_Spec c) /\ trimmed (dv_Serial dev) = cl_Serial (cl_Spec c) /\
    dv_Children dev = [] /\ trimmed (dv_FSType dev) = "" /\ trimmed (dv_MountPoint dev) = "".
Proof. intros Ho Hd Hf. destruct (claimed_from _ _ _ _ _ Ho Hd) as (dev & ? & -> & ? & ?). cbn in Hf. apply occupancy_free in Hf as (? & ? & ?). eauto 10. Qed.

(** The agent publishes the path lsblk prints, and a claim names its disk by a path under
    /dev/disk/by-id: while lsblk prints kernel names, every claim on a machine whose disks the agent
    reports is refused, whatever is on the disk. *)
Theorem claims_refused c m st devs w w' : km_Storage m = Some st -> ms_Observed st = observe_loop [] devs ->
  (forall dev, dev ∈ devs -> has_prefix "/dev/disk/by-id/" (dv_Path dev) = false) ->
  get_claim_machine (cl_Namespace c, cl_MachineRef (cl_Spec c)) w = (inr m, w') -> exists e, (identify c w).1 = inl e.
Proof.
  intros Hs Ho Hk Hg. unfold identify. case_bool_decide; [by eexists|]. destruct (has_prefix _ (cl_ByIDPath _)) eqn:Hp; [|by eexists]. cbn [negb].
  rewrite St_bind_run, Hg. cbn. rewrite Hs. destruct (ms_ObservedAt st) as [t|]; [|by eexists].
  destruct (disk_of c m st) as [e|d] eqn:Hd; [by eexists|]. destruct (claimed_from _ _ _ _ _ Ho Hd) as (dev & Hdev & _ & Hn & _). by rewrite <- Hn, Hk in Hp.
Qed.
End Claims.

(** ** The write to the machine *)

(** The calls of the agent on the API server, with the answers. *)
Inductive acall := CList (r : result apierr (list Machine)) | CPatch (base m : Machine) (r : result apierr Machine).
Class TracedAgent (W : Type) `{AgentApi W} := {
  agent_trace : W -> list acall;
  traced_list w : agent_trace (list_machines w).2 = (agent_trace w ++ [CList (list_machines w).1])%list;
  traced_patch base m w : agent_trace (patch_machine base m w).2 = (agent_trace w ++ [CPatch base m (patch_machine base m w).1])%list;
  traced_now w : agent_trace (agent_now w).2 = agent_trace w
}.

Section Share.
Context {W : Type} {AA : AgentApi W} {TA : TracedAgent W}.
Context (nodeName : string) (disks : list ObservedDisk) (network : option MachineNetwork) (given : option LocalStorage).

(** The stacks given, or those a machine of a list read by the call has. *)
Definition local_from (pre : list acall) (local : option LocalStorage) : Prop :=
  local = given \/ given = None /\ exists items x st, CList (inr items) ∈ pre /\ x ∈ items /\ st_Storage (fm_Reading (mc_FM x)) = Some st /\ ms_Local st = local.
(** The patch is of the first machine of the list read just before that names the node, and of its
    storage and its links only: the disks, their divergences from the BMC's drives, the stacks given or
    else the ones there, and the links given or else the ones there. *)
Definition agent_may (pre : list acall) (c : acall) : Prop :=
  match c with
  | CList _ => True
  | CPatch base m _ =>
    (exists items, List.last pre (CList (inl (plain_err ""))) = CList (inr items) /\ List.find (fun x => bool_decide (fm_NodeRef (mc_FM x) = nodeName)) items = Some base) /\
    exists local now, m = published disks network base local now /\ local_from pre local
  end.
Definition patches (t : list acall) : nat := length (List.filter (fun c => match c with CPatch _ _ _ => true | _ => false end) t).

Lemma local_from_mono pre t local : local_from pre local -> local_from (pre ++ t) local.
Proof. intros [?|(? & items & x & st & ? & ?)]; [by left|]. right. split; [done|]. exists items, x, st. split; [set_solver|done]. Qed.
Lemma kept_from pre items target local : local_from pre local -> target ∈ items -> local_from (pre ++ [CList (inr items)]) (kept_local local target).
Proof.
  intros Hl Ht. unfold kept_local. destruct local as [l|]; [by apply local_from_mono|]. destruct (st_Storage _) as [st|] eqn:E; [|by apply local_from_mono].
  assert (given = None) as Hg by (destruct Hl as [?|[? _]]; congruence). right. split; [done|]. exists items, target, st. split; [set_solver|done].
Qed.

Lemma attempt_share pre s : local_from pre s -> steps agent_trace (patch_attempt nodeName disks network) s
  (fun _ s' t => local_from (pre ++ t) s' /\ justified agent_may pre t /\ (patches t <= 1)%nat).
Proof.
  intros Hs. unfold patch_attempt. eapply steps_beside; [by apply (emits_op _ _ (fun a => [CList a])), traced_list|]. intros [e|items] t ->.
  { apply steps_ret. split; [by apply local_from_mono|]. split; [by repeat split|cbn; lia]. }
  destruct (List.find _ items) as [target|] eqn:Hf; [|apply steps_ret; split; [by apply local_from_mono|]; split; [by repeat split|cbn; lia]].
  eapply steps_beside; [by apply emits_quiet, traced_now|]. intros now t ->. apply steps_remember, steps_memory.
  eapply steps_beside; [by apply (emits_op _ _ (fun a => [CPatch target (published disks network target (kept_local s target) now) a])), traced_patch|].
  intros r t ->. assert (local_from (pre ++ [CList (inr items)]) (kept_local s target)) as Hk.
  { apply kept_from; [done|]. apply find_some in Hf as [Hf _]. by apply list_elem_of_In. }
  apply steps_ret. split; [change (?a :: ?l) with ([a] ++ l)%list; rewrite app_assoc; by apply local_from_mono|]. split; [|cbn; lia]. split; [done|]. split; [|done]. split; [|eauto].
  exists items. split; [|done]. by rewrite List.last_last.
Qed.

(** Whatever the API server answers and however often it reports a conflict, the agent writes to no
    machine but the one that names its node, from a copy read in the same attempt, five times at most,
    and nothing of it but its storage and its links. *)
Theorem agent_writes_its_share w : exists t, agent_trace (PatchObservedStorage nodeName disks network given w).2 = (agent_trace w ++ t)%list /\
  justified agent_may [] t /\ (patches t <= retrySteps)%nat.
Proof.
  enough (forall n pre s, local_from pre s -> steps agent_trace (patch_retry nodeName disks network n) s
    (fun _ _ t => justified agent_may pre t /\ (patches t <= S n)%nat)) as H.
  { unfold PatchObservedStorage. destruct (H (retrySteps - 1)%nat [] given (or_introl eq_refl) w) as (t & Ht & HQ). exists t. destruct (patch_retry _ _ _ _ _) as [r [l w2]]. cbn in *. done. }
  induction n as [|n IH]; intros pre s Hs; cbn [patch_retry]; (eapply steps_bind; [by apply attempt_share|]); intros r s' t (Hs' & Hj & Hp).
  - destruct r; apply steps_ret; rewrite app_nil_r; (split; [done|lia]).
  - assert (steps (A := option apierr) agent_trace (mret r) s' (fun _ _ t' => justified agent_may pre (t ++ t') /\ (patches (t ++ t') <= S (S n))%nat)) as Hr.
    { apply steps_ret. rewrite app_nil_r. split; [done|lia]. }
    destruct r as [e|]; [|done]. destruct (err_conflict e); [|done]. eapply steps_mono; [by apply (IH (pre ++ t)%list)|]. intros _ _ t' (Hj' & Hp'). split.
    + apply justified_app. by split.
    + unfold patches in *. rewrite List.filter_app, length_app. lia.
Qed.
End Share.

(** ** One run of a command at a time *)

Inductive pcall := PStart (argv : list string) (r : result string Z) | PAlive (pgid : Z) (b : bool) | PKill (pgid : Z).
Class TracedProcs (W : Type) `{ProcWorld W} := {
  proc_trace : W -> list pcall;
  traced_start argv w : proc_trace (proc_start argv w).2 = (proc_trace w ++ [PStart argv (proc_start argv w).1])%list;
  traced_wait pgid w : proc_trace (proc_wait pgid w).2 = proc_trace w;
  traced_kill pgid w : proc_trace (group_kill pgid w).2 = (proc_trace w ++ [PKill pgid])%list;
  traced_alive pgid w : proc_trace (groupAlive pgid w).2 = (proc_trace w ++ [PAlive pgid (groupAlive pgid w).1])%list
}.

Section OneRun.
Context {W : Type} {PW : ProcWorld W} {TP : TracedProcs W} (h : HostStorageExecutor).

(** The commands [t] started whose group was not seen to be empty since. *)
Definition see (live : list (list string * Z)) (c : pcall) : list (list string * Z) :=
  match c with
  | PStart full (inr pgid) => (full, pgid) :: live
  | PAlive pgid false => List.filter (fun p => negb (p.2 =? pgid)) live
  | _ => live
  end.
Definition live_groups (t : list pcall) : list (list string * Z) := fold_left see t [].
(** A command is started only when no group started for it may still be alive. *)
Definition start_may (pre : list pcall) (c : pcall) : Prop :=
  match c with PStart full _ => full ∉ map fst (live_groups pre) | _ => True end.
Definition known (m : inflight) (t : list pcall) : Prop := forall argv pgid, ((hx_Prefix h ++ argv)%list, pgid) ∈ live_groups t -> m !! key_of argv = Some pgid.

Lemma live_groups_snoc t c : live_groups (t ++ [c]) = see (live_groups t) c.
Proof. unfold live_groups. by rewrite fold_left_app. Qed.
Lemma see_gone live pgid p : p ∈ see live (PAlive pgid false) <-> p ∈ live /\ p.2 <> pgid.
Proof. cbn. rewrite !list_elem_of_In, filter_In, negb_true_iff, Z.eqb_neq. done. Qed.

(** After the calls [t], with the memory [m], [act] is justified and leaves a memory that knows every
    group that may be alive. *)
Definition runs_once {A} (act : St (inflight * W) A) (m : inflight) (t : list pcall) : Prop :=
  steps proc_trace act m (fun _ m' t' => justified start_may t t' /\ known m' (t ++ t')).

Lemma run_group_once argv m t : known m t -> m !! key_of argv = None -> runs_once (run_group h argv) m t.
Proof.
  intros Hk Hn. unfold runs_once, run_group. eapply steps_beside; [by apply (emits_op _ _ (fun a => [PStart (hx_Prefix h ++ argv) a])), traced_start|]. intros s t' ->.
  assert (start_may t (PStart (hx_Prefix h ++ argv) s)) as Hmay.
  { cbn. intros ([full pgid] & Heq & Hin)%list_elem_of_fmap. cbn in Heq. subst full. rewrite (Hk _ _ Hin) in Hn. done. }
  destruct s as [e|pgid].
  { apply steps_ret. split; [by split|]. intros a g Hin. cbn [app] in Hin. rewrite live_groups_snoc in Hin. by apply Hk. }
  eapply steps_beside; [by apply emits_quiet, traced_wait|]. intros [[[stdout stderr] err] late] t' ->.
  eapply steps_beside; [by apply (emits_op _ _ (fun _ => [PKill pgid])), traced_kill|]. intros [] t' ->.
  eapply steps_beside; [by apply (emits_op _ _ (fun a => [PAlive pgid a])), traced_alive|]. intros alive t' ->.
  apply steps_remember, steps_ret. cbn [app]. split; [by repeat split|].
  replace (t ++ [PStart (hx_Prefix h ++ argv) (inr pgid); PKill pgid; PAlive pgid alive])%list with ((((t ++ [PStart (hx_Prefix h ++ argv) (inr pgid)]) ++ [PKill pgid]) ++ [PAlive pgid alive])%list) by (by rewrite <- !app_assoc).
  intros a g Hin. rewrite !live_groups_snoc in Hin. destruct alive; cbn [see] in Hin.
  - cbn in Hin. apply elem_of_cons in Hin as [[= Ha ->]|Hin].
    + apply app_inv_head in Ha as ->. by rewrite lookup_insert_eq.
    + destruct (decide (key_of a = key_of argv)) as [E|E]; [specialize (Hk _ _ Hin); rewrite E in Hk; congruence|]. rewrite lookup_insert_ne by done. by apply Hk.
  - apply see_gone in Hin as [Hin Hg]. cbn in Hin. apply elem_of_cons in Hin as [[= Ha ->]|Hin]; [done|by apply Hk].
Qed.

Lemma exec_once argv m t : known m t -> runs_once (Exec_host h argv) m t.
Proof.
  intros Hk. unfold runs_once, Exec_host. apply steps_memory. destruct (m !! key_of argv) as [pgid|] eqn:E; [|by apply run_group_once].
  eapply steps_beside; [by apply (emits_op _ _ (fun a => [PAlive pgid a])), traced_alive|]. intros [] t' ->.
  { apply steps_ret. split; [by split|]. intros a g Hin. cbn [app] in Hin. rewrite live_groups_snoc in Hin. by apply Hk. }
  apply steps_remember. eapply steps_mono; [apply (run_group_once argv _ (t ++ [PAlive pgid false]))|].
  - intros a g Hin. rewrite live_groups_snoc in Hin. apply see_gone in Hin as [Hin Hg]. cbn in Hg. specialize (Hk _ _ Hin).
    destruct (decide (key_of a = key_of argv)) as [E'|E']; [rewrite E' in Hk; congruence|]. by rewrite lookup_delete_ne.
  - by rewrite lookup_delete_eq.
  - intros _ m' t' [Hj Hm]. split; [by split|]. by rewrite <- app_assoc in Hm.
Qed.

Fixpoint exec_all (argvs : list (list string)) : St (inflight * W) unit :=
  match argvs with [] => mret tt | argv :: argvs => _ ← Exec_host h argv; exec_all argvs end.

(** Whatever commands an executor is asked to run, one after the other, and however many of them
    survive being killed, a command is started only when every group of an earlier run of it was seen to
    be empty. *)
Theorem one_run_alive argvs w : exists t, proc_trace (exec_all argvs (∅, w)).2.2 = (proc_trace w ++ t)%list /\ justified start_may [] t.
Proof.
  enough (forall m t, known m t -> steps proc_trace (exec_all argvs) m (fun _ _ t' => justified start_may t t')) as H by (apply H; intros ? ? []%not_elem_of_nil).
  induction argvs as [|argv argvs IH]; intros m t Hk; cbn [exec_all]; [by apply steps_ret|].
  eapply steps_bind; [by apply exec_once|]. intros _ m' t' [Hj Hm]. eapply steps_mono; [by apply IH|]. intros [] _ t'' Hj'. apply justified_app. by split.
Qed.
End OneRun.

(** ** What smartctl is run on *)

Definition lower_run (lo hi : nat) (l : bytes) : Prop := Regexp.run_of (in_range 97 122) lo hi l.
Definition digit_run (lo hi : nat) (l : bytes) : Prop := Regexp.run_of GoJson.is_digit lo hi l.
(** A whole disk by its kernel name. *)
Definition whole_disk (device : string) : Prop :=
  (exists x, lower_run 1 3 x /\ to_bytes device = (to_bytes "/dev/sd" ++ x)%list) \/
  (exists x y, digit_run 1 3 x /\ digit_run 1 3 y /\ to_bytes device = (to_bytes "/dev/nvme" ++ x ++ to_bytes "n" ++ y)%list).

Lemma takes_lit_then w s r l l' : Regexp.takes w (Regexp.Cat (Regexp.lit s) r) l l' <-> exists l1, l = (to_bytes s ++ l1)%list /\ Regexp.takes w r l1 l'.
Proof. rewrite Regexp.takes_cat_iff. split; intros (l1 & H & ?); exists l1; (split; [by apply Regexp.takes_lit in H || apply Regexp.takes_lit|done]). Qed.
Lemma takes_some_then w p r l l' : Regexp.takes w (Regexp.Cat (Regexp.between 1 3 (Regexp.One p)) r) l l' <-> exists x l1, Regexp.run_of p 1 3 x /\ l = (x ++ l1)%list /\ Regexp.takes w r l1 l'.
Proof.
  rewrite Regexp.takes_cat_iff. split.
  - intros (l1 & (x & ? & ?)%(Regexp.takes_between _ _ 1 2) & ?). eauto.
  - intros (x & l1 & ? & ? & ?). exists l1. split; [|done]. apply (Regexp.takes_between _ _ 1 2). eauto.
Qed.
Lemma takes_some w p l l' : Regexp.takes w (Regexp.between 1 3 (Regexp.One p)) l l' <-> exists x, Regexp.run_of p 1 3 x /\ l = (x ++ l')%list.
Proof. apply (Regexp.takes_between _ _ 1 2). Qed.

Lemma smart_device_iff device : Regexp.matches smartDevice device = true <-> whole_disk device.
Proof.
  unfold smartDevice, whole_disk, lower_run, digit_run, lower_class, Regexp.digit_class. rewrite Regexp.matches_anchored. cbn [Regexp.cats]. set (w := length _). clearbody w. split.
  - intros (l' & (l1 & Hd & (l5 & Ha%Regexp.takes_cap_iff%Regexp.takes_or_iff & [-> _]%Regexp.takes_eol_iff)%Regexp.takes_cat_iff)%takes_lit_then).
    destruct Ha as [(l2 & -> & (x & Hx & ->)%takes_some)%takes_lit_then|(l2 & -> & (x & l3 & Hx & -> & (l4 & -> & (y & Hy & ->)%takes_some)%takes_lit_then)%takes_some_then)%takes_lit_then].
    + left. exists x. by rewrite Hd, app_nil_r.
    + right. exists x, y. by rewrite Hd, app_nil_r.
  - intros H. exists []. apply takes_lit_then. destruct H as [(x & Hx & Hd)|(x & y & Hx & Hy & Hd)].
    + exists (to_bytes "sd" ++ x)%list. split; [done|]. apply Regexp.takes_cat_iff. exists []. split; [|by apply Regexp.takes_eol_iff].
      apply Regexp.takes_cap_iff, Regexp.takes_or_iff. left. apply takes_lit_then. exists x. split; [done|]. apply takes_some. exists x. by rewrite app_nil_r.
    + exists (to_bytes "nvme" ++ x ++ to_bytes "n" ++ y)%list. split; [done|]. apply Regexp.takes_cat_iff. exists []. split; [|by apply Regexp.takes_eol_iff].
      apply Regexp.takes_cap_iff, Regexp.takes_or_iff. right. apply takes_lit_then. eexists. split; [done|]. apply takes_some_then. exists x, (to_bytes "n" ++ y)%list.
      split; [done|split; [done|]]. apply takes_lit_then. exists y. split; [done|]. apply takes_some. exists y. by rewrite app_nil_r.
Qed.

(** The commands an executor was given, by its world. *)
Class TracedExec (W : Type) `{StorageExec W} := {
  exec_trace : W -> list (list string);
  traced_exec argv w : exec_trace (storage_exec argv w).2 = (exec_trace w ++ [argv])%list
}.
Definition smart_command (argv : list string) : Prop := exists device, whole_disk device /\ argv = (timeoutPrefix ++ smartArgvPrefix ++ [device])%list.

Section SmartRuns.
Context {W : Type} {SX : StorageExec W} {TX : TracedExec W} {DE : DecodeErrors} {SC : SmartClock W}.
Context (quiet_clock : forall w, exec_trace (smart_now w).2 = exec_trace w).

(** execSMART refuses whatever is not the read of a whole disk. *)
Lemma exec_smart_checked argv : emits exec_trace (execSMART argv) (fun _ t => Forall smart_command t).
Proof.
  unfold execSMART. destruct (_ || _) eqn:E; [by apply emits_ret|]. eapply emits_mono; [by apply (emits_op _ _ (fun _ => [(timeoutPrefix ++ argv)%list])), traced_exec|].
  intros _ t ->. constructor; [|done]. apply orb_false_elim in E as [[El%negb_false_iff Ep%negb_false_iff]%orb_false_elim Em%negb_false_iff].
  apply Nat.eqb_eq in El. apply bool_decide_eq_true in Ep. exists (List.last argv ""). split; [by apply smart_device_iff|]. f_equal.
  rewrite <- Ep at 1. destruct argv as [|a0 [|a1 [|a2 [|a3 [|a4 [|a5 [|? ?]]]]]]]; cbn in El; try lia. done.
Qed.
Lemma read_smart d : emits exec_trace (read d) (fun _ t => Forall smart_command t).
Proof.
  unfold read. apply emits_skip; [apply quiet_clock|]. intros now. destruct (smartArgv _) as [e|argv]; [by apply emits_ret|].
  eapply emits_bind; [apply exec_smart_checked|]. intros [[stdout stderr] err] t Ht. apply emits_ret. by rewrite app_nil_r.
Qed.
End SmartRuns.

(** ** How often a disk is read

    The reader with its goroutines: Annotate holds the lock, a refresh gives it up between the steps of
    a [job]. *)
Inductive job := JStart (disks : list ObservedDisk) | JLoop (start : time) (disks : list ObservedDisk)
| JRead (start : time) (d : ObservedDisk) (disks : list ObservedDisk) | JStore (start : time) (d : ObservedDisk) (s : DiskSMART) (disks : list ObservedDisk).
(** [HRead d start]: a pass begun at [start] reads the disk; [HStored]: it stored what it read; [HSeen]:
    the serials of an Annotate. *)
Inductive hev := HRead (d : ObservedDisk) (start : time) | HStored (serial : string) (start : time) (s : DiskSMART) | HSeen (serials : list string).

Section Paced.
Context {W : Type} {SX : StorageExec W} {DE : DecodeErrors} {SC : SmartClock W}.

Definition job_step (j : job) : St (SMARTReader * W) (option job * list hev) :=
  match j with
  | JStart disks => start ← beside smart_now; mret (Some (JLoop start disks), [])
  | JLoop _ [] => _ ← remember ended; mret (None, [])
  | JLoop start (d :: disks) =>
    if spins d then mret (Some (JLoop start disks), []) else
    r ← memory;
    mret (if negb (is_due start (od_SerialNumber d) r) then (Some (JLoop start disks), [])
          else (Some (JRead start d disks), [HRead d start]))
  | JRead start d disks => s ← beside (read d); mret (Some (JStore start d s disks), [])
  | JStore start d s disks =>
    _ ← remember (stored start (od_SerialNumber d) s);
    mret (Some (JLoop start disks), [HStored (od_SerialNumber d) start s])
  end.

(** Left alone, the steps are the refresh. *)
Fixpoint run_job (n : nat) (j : job) : St (SMARTReader * W) unit :=
  match n with
  | O => mret tt
  | S n => o ← job_step j; match o.1 with Some j => run_job n j | None => mret tt end
  end.
Lemma run_job_done start disks r w n : (3 * length disks < n)%nat -> run_job n (JLoop start disks) (r, w) = refresh_loop start disks (r, w).
Proof.
  revert r w n. induction disks as [|d disks IH]; intros r w n Hn; (destruct n as [|n]; [cbn in Hn; lia|]); cbn [run_job refresh_loop]; rewrite St_bind_run.
  - cbn [job_step]. rewrite St_bind_run. done.
  - cbn [length] in Hn. cbn [job_step]. destruct (spins d); [cbn; apply IH; lia|]. rewrite !St_bind_run. cbn [memory fst snd]. destruct (negb _); [cbn; apply IH; lia|]. cbn [fst snd mret St_ret].
    destruct n as [|n]; [lia|]. cbn [run_job]. rewrite St_bind_run. cbn [job_step]. rewrite !St_bind_run, !beside_run. cbn [fst snd mret St_ret]. destruct n as [|n]; [lia|]. cbn [run_job]. rewrite St_bind_run. cbn [job_step].
    rewrite !St_bind_run. cbn [remember fst snd mret St_ret]. apply IH. lia.
Qed.

Record sys := mkSys { sy_reader : SMARTReader; sy_world : W; sy_jobs : list job; sy_hist : list hev }.
Inductive sys_step : sys -> sys -> Prop :=
| sys_annotate r w jobs hist disks ds oj r' w' : Annotate disks (r, w) = ((ds, oj), (r', w')) ->
    sys_step (mkSys r w jobs hist) (mkSys r' w' (jobs ++ match oj with Some l => [JStart l] | None => [] end) (hist ++ [HSeen (map od_SerialNumber disks)]))
| sys_job r w j1 j j2 hist oj ev r' w' : job_step j (r, w) = ((oj, ev), (r', w')) ->
    sys_step (mkSys r w (j1 ++ j :: j2) hist) (mkSys r' w' (j1 ++ match oj with Some j => [j] | None => [] end ++ j2) (hist ++ ev))
| sys_world r w w' jobs hist : sys_step (mkSys r w jobs hist) (mkSys r w' jobs hist).

(** Until when a history promises to leave each disk in peace, in nanoseconds: six hours from the start of
    the pass when what was stored has the disk's own verdict, half an hour when it has none; until the disk
    is missing from an Annotate. *)
Definition promise (m : gmap string Z) (e : hev) : gmap string Z :=
  match e with
  | HRead _ _ => m
  | HStored serial start s => <[serial := unix_nano start + match sm_Passed s with Some _ => 6 * 3600 | None => 30 * 60 end * 10 ^ 9]> m
  | HSeen serials => filter (fun kv => bool_decide (kv.1 ∈ serials) = true) m
  end.
Definition promised (h : list hev) : gmap string Z := fold_left promise h ∅.
Definition paced (pre : list hev) (e : hev) : Prop :=
  match e with
  | HRead d start => od_Rotational d <> Some true /\ forall until, promised pre !! od_SerialNumber d = Some until -> until <= unix_nano start
  | HStored _ _ _ | HSeen _ => True
  end.
Lemma promised_snoc h e : promised (h ++ [e]) = promise (promised h) e.
Proof. unfold promised. by rewrite fold_left_app. Qed.

(** A refresh runs exactly while the flag is up, and the reader keeps to what the history promises. *)
Definition sys_ok (s : sys) : Prop :=
  length (sy_jobs s) = (if sr_running (sy_reader s) then 1 else 0)%nat /\
  promised (sy_hist s) = unix_nano <$> sr_due (sy_reader s) /\ justified paced [] (sy_hist s).

Lemma sys_ok_snoc h e (due due' : gmap string time) : promised h = unix_nano <$> due -> justified paced [] h -> paced h e -> promise (promised h) e = unix_nano <$> due' ->
  promised (h ++ [e]) = unix_nano <$> due' /\ justified paced [] (h ++ [e]).
Proof. intros Hp Hj He Hd. split; [by rewrite promised_snoc|]. apply justified_app. by repeat split. Qed.

Lemma pruned_promise (disks : list ObservedDisk) (due : gmap string time) :
  filter (fun kv : string * Z => bool_decide (kv.1 ∈ map od_SerialNumber disks) = true) (unix_nano <$> due) = unix_nano <$> pruned disks due.
Proof.
  unfold pruned, present_in. apply map_eq. intros k. rewrite lookup_fmap, !map_lookup_filter, lookup_fmap. destruct (due !! k) as [t|]; [|done]. cbn.
  destruct (bool_decide _); done.
Qed.
Lemma annotated_serials r disks : map od_SerialNumber (map (annotated r) disks) = map od_SerialNumber disks.
Proof. rewrite map_map. apply map_ext. intros d. unfold annotated. by destruct (_ !! _). Qed.

Lemma annotate_ok r w jobs hist disks ds oj r' w' : Annotate disks (r, w) = ((ds, oj), (r', w')) -> sys_ok (mkSys r w jobs hist) ->
  sys_ok (mkSys r' w' (jobs ++ match oj with Some l => [JStart l] | None => [] end) (hist ++ [HSeen (map od_SerialNumber disks)])).
Proof.
  intros Ha (Hl & Hp & Hj). cbn [sy_jobs sy_reader sy_hist] in Hl, Hp, Hj. unfold Annotate in Ha. rewrite !St_bind_run in Ha. cbn [memory remember fst snd] in Ha.
  assert (sr_due r' = pruned (map (annotated r) disks) (sr_due r)) as Hd.
  { destruct (sr_running r); [by injection Ha as _ _ <- _|]. rewrite St_bind_run, beside_run in Ha. cbn [fst snd] in Ha. destruct (before _ _); [by injection Ha as _ _ <- _|].
    rewrite !St_bind_run, !beside_run in Ha. cbn in Ha. by injection Ha as _ _ <- _. }
  assert (length (jobs ++ match oj with Some l => [JStart l] | None => [] end) = (if sr_running r' then 1 else 0)%nat) as Hjobs.
  { destruct (sr_running r); [injection Ha as _ <- <- _; cbn; by rewrite app_nil_r|]. rewrite St_bind_run, beside_run in Ha. cbn [fst snd] in Ha.
    destruct (before _ _); [injection Ha as _ <- <- _; cbn; by rewrite app_nil_r|]. rewrite !St_bind_run, !beside_run in Ha. cbn in Ha. injection Ha as _ <- <- _. rewrite length_app, Hl. done. }
  split; [exact Hjobs|]. cbn. apply (sys_ok_snoc _ _ (sr_due r)); [done..|]. cbn [promise]. rewrite Hp, Hd, <- pruned_promise, annotated_serials. done.
Qed.

Lemma job_ok r w j1 j j2 hist oj ev r' w' : job_step j (r, w) = ((oj, ev), (r', w')) -> sys_ok (mkSys r w (j1 ++ j :: j2) hist) ->
  sys_ok (mkSys r' w' (j1 ++ match oj with Some j => [j] | None => [] end ++ j2) (hist ++ ev)).
Proof.
  intros Hs (Hl & Hp & Hj). cbn [sy_jobs sy_reader sy_hist] in Hl, Hp, Hj. assert (sr_running r = true /\ j1 = [] /\ j2 = []) as (Hr & -> & ->).
  { rewrite length_app in Hl. cbn in Hl. destruct (sr_running r); [|lia]. destruct j1, j2; cbn in Hl; try lia. done. }
  unfold sys_ok. cbn. destruct j as [disks|start [|d disks]|start d disks|start d s disks]; cbn [job_step] in Hs.
  - rewrite St_bind_run, beside_run in Hs. injection Hs as <- <- <- _. cbn. rewrite app_nil_r, Hr. done.
  - rewrite St_bind_run in Hs. injection Hs as <- <- <- _. cbn. by rewrite app_nil_r.
  - destruct (spins d) eqn:Esp; [injection Hs as <- <- <- _; cbn; by rewrite app_nil_r, Hr|]. rewrite St_bind_run in Hs. cbn [memory fst snd] in Hs. destruct (is_due _ _ _) eqn:E; cbn in Hs; injection Hs as <- <- <- _; cbn; [|by rewrite app_nil_r, Hr].
    rewrite Hr. split; [done|]. apply (sys_ok_snoc _ _ (sr_due r)); [done..| |done]. split; [by unfold spins in Esp; case_bool_decide|]. intros u Hu. rewrite Hp, lookup_fmap in Hu.
    unfold is_due in E. apply negb_true_iff, Z.ltb_ge in E. destruct (sr_due r !! od_SerialNumber d) as [t|]; [|done]. cbn in *. by simplify_eq.
  - rewrite St_bind_run, beside_run in Hs. injection Hs as <- <- <- _. cbn. by rewrite app_nil_r, Hr.
  - rewrite St_bind_run in Hs. injection Hs as <- <- <- _. cbn. rewrite Hr. split; [done|]. apply (sys_ok_snoc _ _ (sr_due r)); [done..|].
    cbn [promise]. rewrite Hp. unfold stored. cbn [sr_due]. rewrite fmap_insert. f_equal. unfold wait_after. by destruct (sm_Passed s).
Qed.

(** C36. In every life of the reader, with Annotate called at any time and any disks coming and going, at most
    one refresh runs; it reads no disk that spins, and one it has stored a reading of only six hours after the
    start of the pass that read it when the reading has the disk's verdict, half an hour when it has none,
    unless the disk was away in between. *)
Theorem smart_reads_paced w s : rtc sys_step (mkSys NewSMARTReader w [] []) s -> (length (sy_jobs s) <= 1)%nat /\ justified paced [] (sy_hist s).
Proof.
  intros H. enough (sys_ok s) as (Hl & _ & Hj) by (split; [rewrite Hl; by destruct (sr_running _); lia|done]).
  assert (sys_ok (mkSys NewSMARTReader w [] [])) as H0 by (split; [done|split; [cbn; by rewrite fmap_empty|done]]).
  induction H as [|s1 s2 s3 Hs _ IH]; [done|]. apply IH. destruct Hs as [? ? ? ? ? ? ? ? ? Ha|? ? ? ? ? ? ? ? ? ? Hs|]; [by eapply annotate_ok|by eapply job_ok|done].
Qed.
End Paced.
