(* ===== verification/NodeStacks.v ===== *)
(** What the node agent reports of its node's storage stacks, ZFS, md and LVM:
    internal/agent/localstorage.go and localstorage_parse.go.

    The files of the node and its clock are the methods of [LocalSources]; the commands go through
    [NodeDisks.StorageExec]. The collection runs in the background: the collector's memory is the last
    result and the collection under way. int64 of a float64 outside its range is [FloatConv]. *)
From stdpp Require Import base tactics strings list gmap.
From Stdlib Require Import ZArith Lia Ascii.
From S2P Require Import Prelude Trace GoLib GoText GoTime GoNet StorageTypes StorageHealth StorageJoin Agent GoJson Conversion Provision BeaconStore GoDecode NodeDisks.

Open Scope Z_scope.

(** ** Text *)

(** strings.Fields: the runs of text between white space. [cur] is the current run, reversed. *)
Definition flush (cur : bytes) (l : list bytes) : list bytes := match cur with [] => l | _ => rev cur :: l end.
Fixpoint fields_fuel (n : nat) (cur l : bytes) : list bytes :=
  match n with
  | O => flush cur []
  | S n =>
    match first_some (fun e => strip_prefix e l) space_encodings with
    | Some l' => flush cur (fields_fuel n [] l')
    | None => match l with c :: l' => fields_fuel n (c :: cur) l' | [] => flush cur [] end
    end
  end.
Definition Fields (s : string) : list string := let l := to_bytes s in map of_bytes (fields_fuel (length l) [] l).
Definition tab : ascii := byte 9.
Definition strip_cr (line : string) : string := of_bytes (trim_right_set (Ascii.eqb (byte 13)) (to_bytes line)).
Definition has_text (s sub : string) : bool := contains_sub (to_bytes sub) (to_bytes s).
Definition lines_of (out : string) : list string := split_on newline out.

(** ** zpool list and zfs list *)

Definition parseInt64 (s : string) : Z := default 0 (parse_int64 (trim_space s)).
Definition parse_int32 (s : string) : option Z := z ← parse_int64 s; if (- 2 ^ 31 <=? z) && (z <? 2 ^ 31) then Some z else None.
Definition optPercent (s : string) : option Z := parse_int32 (trim_suffix (trim_space s) "%").

Definition zpool_row (line : string) : option ZPool :=
  match split_on tab (strip_cr line) with
  | name :: size :: alloc :: free :: frag :: cap :: health :: _ =>
    if bool_decide (name = "") then None
    else Some (mkZPool (clipRunes name 128) (clipRunes health 32) (parseInt64 size) (parseInt64 alloc) (parseInt64 free) (optPercent frag) (optPercent cap)
                 "" None "" "" [] 0)
  | _ => None
  end.
Definition parseZpoolList (out : string) : list ZPool := omap zpool_row (lines_of out).

Definition zfs_row (line : string) : option ZFSDataset :=
  match split_on tab (strip_cr line) with
  | name :: used :: avail :: refer :: mp :: typ :: _ =>
    if bool_decide (name = "") then None
    else
      let mp := if bool_decide (mp = "-") || bool_decide (mp = "none") then "" else mp in
      Some (mkZFSDataset (clipRunes name 256) (clipRunes typ 16) (parseInt64 used) (parseInt64 avail) (parseInt64 refer) (clipRunes mp 512))
  | _ => None
  end.
Definition parseZfsList (out : string) : list ZFSDataset := omap zfs_row (lines_of out).

(** ** zpool status -P *)

Record zpoolStatus := mkStatus { zs_name : string; zs_scan : string; zs_errors : string; zs_vdevs : list ZVdev }.
Definition zpoolKey : Regexp.re :=
  Regexp.Cat Regexp.Bol (Regexp.cats [Regexp.upto 4 (Regexp.lit " ");
    Regexp.Cap 1 (Regexp.Cat (Regexp.One (in_range 97 122)) (Regexp.Star true (Regexp.One (fun c => in_range 97 122 c || Ascii.eqb c " ")))); Regexp.lit ":";
    Regexp.opt (Regexp.Cat (Regexp.One Regexp.space_byte) (Regexp.Cap 2 (Regexp.Star true Regexp.Dot))); Regexp.Eol]).
Definition zpoolStates : list string := ["ONLINE"; "DEGRADED"; "FAULTED"; "OFFLINE"; "UNAVAIL"; "REMOVED"; "AVAIL"; "INUSE"; "SPLIT"; "SUSPENDED"].
Definition is_state (s : string) : bool := bool_decide (s ∈ zpoolStates).

(** int64 of a float64 that is not finite or outside the range. *)
Class FloatConv := wide_int64 : Float.number -> Z.
Section Stacks.
Context {FC : FloatConv} {DE : DecodeErrors}.

Definition to_int64 (x : Float.number) : Z :=
  match x with Float.Fin f => if int_range 64 (float_trunc f) then float_trunc f else wide_int64 x | Float.NotFin => wide_int64 x end.
Definition times_of (s : string) : Z * string :=
  let has c := bool_decide (trim_suffix s c <> s) in
  if has "K" then (10 ^ 3, trim_suffix s "K") else if has "M" then (10 ^ 6, trim_suffix s "M") else if has "G" then (10 ^ 9, trim_suffix s "G") else (1, s).
Definition zpoolCounter (s : string) : option Z :=
  let '(mult, s) := times_of (trim_space s) in
  v ← Float.ParseFloat s;
  Some (to_int64 (match v with Float.Fin f => match Float.float_mul f (mkFloat mult 0) with Some p => Float.Fin p | None => Float.NotFin end | Float.NotFin => v end)).

Definition counters (l : list string) : option (Z * Z * Z) :=
  match l with
  | a :: b :: c :: _ => match zpoolCounter a, zpoolCounter b, zpoolCounter c with Some x, Some y, Some z => Some (x, y, z) | _, _, _ => None end
  | _ => None
  end.
(** The index of the state word, from the right. *)
Fixpoint state_from (f : list string) (k : nat) : option nat :=
  match k with
  | O => None
  | S k' => if is_state (nth k f "") && bool_decide (is_Some (counters (drop (S k) f))) then Some k else state_from f k'
  end.
Definition zpoolStateIndex (f : list string) : option nat :=
  match state_from f (length f - 4) with
  | Some k => Some k
  | None => if (1 <? length f)%nat && is_state (List.last f "") then Some (length f - 1)%nat else None
  end.

Definition zpoolVdev (name : string) (depth : Z) (rest : list string) : ZVdev :=
  let '(r, w, c, n) := match counters (tail rest) with Some (r, w, c) => (r, w, c, 4%nat) | None => (0, 0, 0, 1%nat) end in
  mkZVdev (clipRunes name 512) (wrap32 (Z.max depth 0)) (match rest with s :: _ => clipRunes s 32 | [] => "" end) r w c
    (if (n <? length rest)%nat then clipRunes (join " " (drop n rest)) 256 else "").

(** The state of the scan: the pools before the current one, the current one (nil before the first),
    the section, and what was seen of the pool's tree. *)
Record zscan := mkScan { zc_done : list zpoolStatus; zc_cur : option zpoolStatus; zc_section : string; zc_rootSeen : bool; zc_inGroup : bool }.
Definition config_row (c : zscan) (cur : zpoolStatus) (line : string) : zscan :=
  match strip_prefix [tab] (to_bytes line) with
  | None => c
  | Some body =>
    let indent := Z.of_nat (length body - length (trim_left_set (Ascii.eqb " ") body)) in
    let f := Fields (of_bytes body) in
    if bool_decide (f = []) || (bool_decide (head f = Some "NAME") && bool_decide (f !! 1%nat = Some "STATE")) then c
    else
      let '(name, rest) := match zpoolStateIndex f with Some si => (join " " (take si f), drop si f) | None => (join " " f, []) end in
      if negb (zc_rootSeen c) && (indent =? 0) && bool_decide (name = zs_name cur) then mkScan (zc_done c) (zc_cur c) (zc_section c) true (zc_inGroup c)
      else
        let inGroup := (indent =? 0) || zc_inGroup c in
        let depth := indent / 2 - (if inGroup then 0 else 1) in
        mkScan (zc_done c) (Some (mkStatus (zs_name cur) (zs_scan cur) (zs_errors cur) (zs_vdevs cur ++ [zpoolVdev name depth rest]))) (zc_section c) (zc_rootSeen c) inGroup
  end.
Definition status_line (c : zscan) (raw : string) : zscan :=
  let line := strip_cr raw in
  match Regexp.exec zpoolKey line with
  | Some m =>
    let key := Regexp.group_text 1 m in
    let val := trim_space (Regexp.group_text 2 m) in
    let c := if bool_decide (key = "pool") then mkScan (zc_done c ++ option_list (zc_cur c)) (Some (mkStatus val "" "" [])) (zc_section c) false false else c in
    let cur := match zc_cur c with
               | None => None
               | Some p => Some (if bool_decide (key = "scan") then mkStatus (zs_name p) val (zs_errors p) (zs_vdevs p)
                                 else if bool_decide (key = "errors") then mkStatus (zs_name p) (zs_scan p) val (zs_vdevs p) else p)
               end in
    mkScan (zc_done c) cur key (zc_rootSeen c) (zc_inGroup c)
  | None =>
    match zc_cur c with
    | None => c
    | Some p =>
      if bool_decide (zc_section c = "scan") then
        let t := trim_space line in
        if bool_decide (t = "") then c
        else mkScan (zc_done c) (Some (mkStatus (zs_name p) (zs_scan p +:+ "; " +:+ t) (zs_errors p) (zs_vdevs p))) (zc_section c) (zc_rootSeen c) (zc_inGroup c)
      else if bool_decide (zc_section c = "config") then config_row c p line
      else c
    end
  end.
Definition parseZpoolStatus (out : string) : list zpoolStatus :=
  let c := fold_left status_line (lines_of out) (mkScan [] None "" false false) in (zc_done c ++ option_list (zc_cur c))%list.

(** ** Bounds *)

Definition maxZPools : nat := 16.
Definition maxZFSDatasets : nat := 64.
Definition maxZVdevs : nat := 64.
Definition maxMDArrays : nat := 16.
Definition maxMDMembers : nat := 32.
Definition maxLVMPVs : nat := 64.
Definition maxLVMVGs : nat := 32.
Definition maxLVMLVs : nat := 128.
Definition capList {T} (xs : list T) (n : nat) : list T * Z := if (length xs <=? n)%nat then (xs, 0) else (take n xs, wrap32 (Z.of_nat (length xs - n))).

Definition scrubDone : Regexp.re :=
  Regexp.cats [Regexp.lit "scrub repaired "; Regexp.Star true Regexp.Dot; Regexp.lit " with "; Regexp.Cap 1 (Regexp.plus Regexp.digit_class);
    Regexp.lit " errors on "; Regexp.Cap 2 (Regexp.Cat Regexp.Dot (Regexp.Star false Regexp.Dot)); Regexp.Cap 3 (Regexp.Or (Regexp.lit ";") Regexp.Eol)].
Definition merge_one (p : ZPool) (s : zpoolStatus) : ZPool :=
  let '(errors, last) := match Regexp.exec scrubDone (zs_scan s) with
                         | Some m => (match parse_int32 (Regexp.group_text 1 m) with Some n => Some n | None => zp_ScrubErrors p end, clipRunes (trim_space (Regexp.group_text 2 m)) 64)
                         | None => (zp_ScrubErrors p, zp_LastScrub p)
                         end in
  let '(vdevs, omitted) := capList (zs_vdevs s) maxZVdevs in
  mkZPool (zp_Name p) (zp_Health p) (zp_SizeBytes p) (zp_AllocatedBytes p) (zp_FreeBytes p) (zp_FragmentationPercent p) (zp_CapacityPercent p)
    (clipRunes (zs_scan s) 512) errors last (clipRunes (zs_errors s) 256) vdevs omitted.
(** The last pool of the list with the name. *)
Fixpoint last_named (name : string) (pools : list ZPool) : option nat :=
  match pools with
  | [] => None
  | p :: pools => match last_named name pools with Some i => Some (S i) | None => if bool_decide (zp_Name p = name) then Some O else None end
  end.
Definition mergeZpoolStatus (pools : list ZPool) (st : list zpoolStatus) : list ZPool :=
  fold_left (fun pools s => match last_named (clipRunes (zs_name s) 128) pools with Some i => alter (fun p => merge_one p s) i pools | None => pools end) st pools.

(** ** /proc/mdstat *)

Definition class_of (p : ascii -> bool) : Regexp.re := Regexp.One p.
Definition any_space : Regexp.re := Regexp.Star true (Regexp.One Regexp.space_byte).
Definition mdHeader : Regexp.re :=
  Regexp.Cat Regexp.Bol (Regexp.cats [Regexp.Cap 1 (Regexp.Cat (Regexp.lit "md") (Regexp.plus (class_of (fun c => Regexp.word_byte c || Ascii.eqb c "/"))));
    any_space; Regexp.lit ":"; any_space; Regexp.Cap 2 (Regexp.Star true Regexp.Dot); Regexp.Eol]).
Definition mdMember : Regexp.re :=
  Regexp.Cat Regexp.Bol (Regexp.cats [Regexp.Cap 1 (Regexp.plus (class_of (fun c => Regexp.word_byte c || Regexp.in_class "./-" c)));
    Regexp.lit "["; Regexp.plus Regexp.digit_class; Regexp.lit "]";
    Regexp.Cap 2 (Regexp.Star true (Regexp.cats [Regexp.lit "("; class_of (in_range 65 90); Regexp.lit ")"])); Regexp.Eol]).
Definition mdCounts : Regexp.re :=
  Regexp.cats [Regexp.lit "["; Regexp.Cap 1 (Regexp.plus Regexp.digit_class); Regexp.lit "/"; Regexp.Cap 2 (Regexp.plus Regexp.digit_class); Regexp.lit "]"; any_space;
    Regexp.lit "["; Regexp.Cap 3 (Regexp.plus (class_of (Regexp.in_class "U_"))); Regexp.lit "]"].
Definition mdSync : Regexp.re :=
  Regexp.cats [Regexp.Cap 1 (Regexp.alts ["resync"; "recovery"; "check"; "reshape"; "repair"]); any_space; Regexp.lit "="; any_space;
    Regexp.Cap 2 (Regexp.Cat (Regexp.plus (class_of (fun c => GoJson.is_digit c || Ascii.eqb c "."))) (Regexp.lit "%"))].
Definition mdPending : Regexp.re :=
  Regexp.cats [Regexp.Cap 1 (Regexp.alts ["resync"; "recovery"; "check"; "reshape"]); any_space; Regexp.lit "="; any_space; Regexp.Cap 2 (Regexp.alts ["DELAYED"; "PENDING"])].

(** strconv.Atoi of digits, its error dropped: a number out of range is the largest. *)
Definition atoi_digits (s : string) : Z := Z.min (digits_value (to_bytes s)) (2 ^ 63 - 1).

Fixpoint state_words (state : string) (f : list string) : string * list string :=
  match f with
  | w :: f' => if has_prefix "(" w then state_words (state +:+ " " +:+ w) f' else (state, f)
  | [] => (state, [])
  end.
Definition md_member (w : string) : option MDMember :=
  match Regexp.exec mdMember w with
  | None => None
  | Some m => Some (mkMDMember (clipRunes (Regexp.group_text 1 m) 64) "" (has_text (Regexp.group_text 2 m) "(F)") (has_text (Regexp.group_text 2 m) "(S)"))
  end.
(** The members kept and how many were left out. *)
Definition add_md (acc : list MDMember * Z) (m : MDMember) : list MDMember * Z :=
  if (length acc.1 =? maxMDMembers)%nat then (acc.1, wrap32 (acc.2 + 1)) else ((acc.1 ++ [m])%list, acc.2).
Definition parseMdHeader (name rest : string) : MDArray :=
  let f := Fields rest in
  let '(state, f) := match f with w :: f => state_words w f | [] => ("", []) end in
  let '(level, f) := match f with w :: f' => if has_text w "[" then ("", f) else (clipRunes w 16, f') | [] => ("", []) end in
  let '(members, omitted) := fold_left add_md (omap md_member f) ([], 0) in
  mkMDArray (clipRunes name 32) level (clipRunes state 32) 0 0 "" false "" members omitted.

Definition md_detail (a : MDArray) (line : string) : MDArray :=
  let a := match Regexp.exec mdCounts line with
           | Some m => mkMDArray (mda_Name a) (mda_Level a) (mda_State a) (wrap32 (atoi_digits (Regexp.group_text 1 m))) (wrap32 (atoi_digits (Regexp.group_text 2 m)))
                         (clipRunes (Regexp.group_text 3 m) 64) (mda_Degraded a) (mda_Sync a) (mda_Members a) (mda_MembersOmitted a)
           | None => a
           end in
  match Regexp.or_else (Regexp.exec mdSync line) (Regexp.exec mdPending line) with
  | Some m => mkMDArray (mda_Name a) (mda_Level a) (mda_State a) (mda_RaidDisks a) (mda_ActiveDisks a) (mda_Slots a) (mda_Degraded a)
                (clipRunes (Regexp.group_text 1 m +:+ " " +:+ Regexp.group_text 2 m) 64) (mda_Members a) (mda_MembersOmitted a)
  | None => a
  end.
(** The arrays so far, the last first, and whether the last is the current one. *)
Definition md_line (acc : list MDArray * bool) (line : string) : list MDArray * bool :=
  match Regexp.exec mdHeader line with
  | Some m => (parseMdHeader (Regexp.group_text 1 m) (Regexp.group_text 2 m) :: acc.1, true)
  | None =>
    if negb acc.2 || negb (has_prefix " " line) then (acc.1, if bool_decide (trim_space line = "") then false else acc.2)
    else match acc.1 with a :: l => (md_detail a line :: l, true) | [] => acc end
  end.
Definition md_degraded (a : MDArray) : bool :=
  existsb mdm_Failed (mda_Members a) || has_prefix "inactive" (mda_State a) || ((0 <? mda_RaidDisks a) && (mda_ActiveDisks a <? mda_RaidDisks a)) || has_text (mda_Slots a) "_".
Definition set_degraded (a : MDArray) : MDArray :=
  mkMDArray (mda_Name a) (mda_Level a) (mda_State a) (mda_RaidDisks a) (mda_ActiveDisks a) (mda_Slots a) (md_degraded a) (mda_Sync a) (mda_Members a) (mda_MembersOmitted a).
Definition parseMdstat (data : string) : list MDArray := map set_degraded (rev (fold_left md_line (lines_of data) ([], false)).1).

(** ** The LVM reports *)

(** encoding/json into map[string]string, and into the reports around it; None is an error. *)
Definition decode_text (j : json) : option string := match j with JStr s => Some s | JNull => Some "" | _ => None end.
Definition decode_map {A} (dec : json -> option A) (j : json) : option (gmap string A) :=
  match j with
  | JNull => Some ∅
  | JObj ms => fold_left (fun acc (p : string * json) => m ← acc; v ← dec p.2; Some (<[p.1 := v]> m)) ms (Some ∅)
  | _ => None
  end.
Definition decode_list {A} (dec : json -> option A) (j : json) : option (list A) :=
  match j with JNull => Some [] | JArr l => mapM dec l | _ => None end.
Definition lvmReport (out : string) : option (list (gmap string (list (gmap string string)))) :=
  match parse out with
  | Some (JObj ms) =>
    fold_left (fun acc (p : string * json) => if named "report" p.1 then _ ← acc; decode_list (decode_map (decode_list (decode_map decode_text))) p.2 else acc) ms (Some [])
  | Some JNull => Some []
  | _ => None
  end.
Definition lvmRows (out key : string) : result string (list (gmap string string)) :=
  match lvmReport out with
  | None => inl ("parsing " +:+ key +:+ " report: " +:+ decode_error out)
  | Some reports => inr (flat_map (fun rep => default [] (rep !! key)) reports)
  end.
Definition col (r : gmap string string) (c : string) : string := default "" (r !! c).
Definition pv_row (r : gmap string string) : LVMPhysicalVolume :=
  mkLVMPhysicalVolume (clipRunes (col r "pv_name") 512) (clipRunes (col r "vg_name") 128) (parseInt64 (col r "pv_size")) (parseInt64 (col r "pv_free")) (clipRunes (col r "pv_attr") 16) "".
Definition vg_row (r : gmap string string) : LVMVolumeGroup :=
  mkLVMVolumeGroup (clipRunes (col r "vg_name") 128) (parseInt64 (col r "vg_size")) (parseInt64 (col r "vg_free")) (wrap32 (parseInt64 (col r "pv_count")))
    (wrap32 (parseInt64 (col r "lv_count"))) (clipRunes (col r "vg_attr") 16).
Definition lv_row (r : gmap string string) : LVMLogicalVolume :=
  mkLVMLogicalVolume (clipRunes (col r "lv_name") 128) (clipRunes (col r "vg_name") 128) (parseInt64 (col r "lv_size")) (clipRunes (col r "lv_attr") 16)
    (clipRunes (col r "segtype") 32) (clipRunes (col r "data_percent") 16).
Definition parseLVM (pvOut vgOut lvOut : string) : result string (list LVMPhysicalVolume * list LVMVolumeGroup * list LVMLogicalVolume) :=
  match lvmRows pvOut "pv" with
  | inl e => inl e
  | inr pvs =>
    match lvmRows vgOut "vg" with
    | inl e => inl e
    | inr vgs => match lvmRows lvOut "lv" with inl e => inl e | inr lvs => inr (map pv_row pvs, map vg_row vgs, map lv_row lvs) end
    end
  end.

(** ** Running a listed command *)

Definition timeoutProbe : list string := ["timeout"; "--version"].
Definition zfsCommands : list (list string) := [
  ["zpool"; "list"; "-Hp"; "-o"; "name,size,alloc,free,frag,cap,health"];
  ["zpool"; "status"; "-P"];
  ["zfs"; "list"; "-Hp"; "-t"; "filesystem,volume"; "-o"; "name,used,avail,refer,mountpoint,type"]].
Definition lvmCommands : list (list string) := [
  ["pvs"; "--reportformat"; "json"; "--units"; "b"; "--nosuffix"; "-o"; "pv_name,vg_name,pv_size,pv_free,pv_attr"];
  ["vgs"; "--reportformat"; "json"; "--units"; "b"; "--nosuffix"; "-o"; "vg_name,vg_size,vg_free,pv_count,lv_count,vg_attr"];
  ["lvs"; "--reportformat"; "json"; "--units"; "b"; "--nosuffix"; "-o"; "lv_name,vg_name,lv_size,lv_attr,segtype,data_percent"]].
Definition storageCommands : list (list string) := (zfsCommands ++ lvmCommands ++ [timeoutProbe])%list.

(** What errors.Is tells apart in the error of a stack. *)
Inductive sterr := StBusy | StToolAbsent | StText (text : string).
Definition errToolAbsent : string := "tool not installed on the node".
Definition errTimeoutAbsent : string := "coreutils `timeout` not found on the node: storage commands are not run without it".
Definition sterr_text (e : sterr) : string := match e with StBusy => xe_text errBusy | StToolAbsent => errToolAbsent | StText t => t end.
Definition errorText (text : string) : string := clipRunes text 256.
Definition stackFailure (e : sterr) : StackState * string := (match e with StBusy => StackBusy | _ => StackError end, errorText (sterr_text e)).

Class LocalSources (W : Type) := {
  src_ReadFile : string -> St W (result fserr string);
  src_PathExist : string -> St W bool;
  src_Now : St W time
}.

Section Observers.
Context {W : Type} {SX : StorageExec W} {LS : LocalSources W}.

Definition execListed (argv : list string) : St W (string * string * option xerr) :=
  if negb (bool_decide (argv ∈ storageCommands)) then mret ("", "", Some (refusal ("refusing " +:+ quote (join " " argv) +:+ ": not on the local-storage command list")))
  else storage_exec (timeoutPrefix ++ argv)%list.
Definition runStorage (argv : list string) : St W (result sterr string) :=
  o ← execListed argv;
  let '(stdout, stderr, err) := o in
  match err with
  | None => mret (inr stdout)
  | Some e =>
    if xe_busy e then mret (inl StBusy)
    else if xe_code e =? 127 then
      p ← execListed timeoutProbe;
      mret (inl (if exitCode p.2 =? 127 then StText errTimeoutAbsent else StToolAbsent))
    else if (xe_code e =? 124) || (xe_code e =? 137) then mret (inl (StText (join " " (take 2 argv) +:+ " timed out after " +:+ itoa storageTimeoutSeconds +:+ "s")))
    else mret (inl (StText (join " " (take 2 argv) +:+ ": " +:+ xe_text e +:+ ": " +:+ firstLine stderr)))
  end.
(** The commands of a stack in order, until one fails: the command and why. *)
Fixpoint run_commands (cmds : list (list string)) : St W (result (list string * sterr) (list string)) :=
  match cmds with
  | [] => mret (inr [])
  | c :: cmds =>
    r ← runStorage c;
    match r with
    | inl e => mret (inl (c, e))
    | inr out => rest ← run_commands cmds; mret match rest with inl e => inl e | inr outs => inr (out :: outs) end
    end
  end.

Definition zfs_only (st : StackState) (msg : string) : ZFSStatus := mkZFSStatus st None msg [] 0 [] 0.
Definition zfs_read (now : time) (outs : list string) : ZFSStatus :=
  let pools := mergeZpoolStatus (parseZpoolList (nth 0 outs "")) (parseZpoolStatus (nth 1 outs "")) in
  let '(pools, po) := capList pools maxZPools in
  let '(datasets, dso) := capList (parseZfsList (nth 2 outs "")) maxZFSDatasets in
  mkZFSStatus StackPresent (Some now) "" pools po datasets dso.
Definition observeZFS (now : time) : St W ZFSStatus :=
  there ← src_PathExist "/sys/module/zfs";
  if negb there then mret (zfs_only StackAbsent "") else
  r ← run_commands zfsCommands;
  mret match r with
       | inl (c, StToolAbsent) => zfs_only StackError ("zfs module loaded but no " +:+ nth 0 c "" +:+ " binary on the node")
       | inl (_, e) => let '(st, msg) := stackFailure e in zfs_only st msg
       | inr outs => zfs_read now outs
       end.

Definition name_member (serialOf : gmap string string) (m : MDMember) : MDMember :=
  mkMDMember (mdm_Device m) (clipRunes (default "" (serialOf !! mdm_Device m)) 128) (mdm_Failed m) (mdm_Spare m).
Definition name_members (serialOf : gmap string string) (a : MDArray) : MDArray :=
  mkMDArray (mda_Name a) (mda_Level a) (mda_State a) (mda_RaidDisks a) (mda_ActiveDisks a) (mda_Slots a) (mda_Degraded a) (mda_Sync a)
    (map (name_member serialOf) (mda_Members a)) (mda_MembersOmitted a).
Definition observeMD (serialOf : gmap string string) (now : time) : St W MDStatus :=
  r ← src_ReadFile "/proc/mdstat";
  mret match r with
       | inl NotExist => mkMDStatus StackAbsent None "" [] 0
       | inl (FsErr e) => mkMDStatus StackError None (errorText e) [] 0
       | inr data =>
         match parseMdstat data with
         | [] => mkMDStatus StackAbsent None "" [] 0
         | arrays => let '(arrays, omitted) := capList (map (name_members serialOf) arrays) maxMDArrays in mkMDStatus StackPresent (Some now) "" arrays omitted
         end
       end.

Definition lvm_only (st : StackState) (at_ : option time) (msg : string) : LVMStatus := mkLVMStatus st at_ msg [] [] [] 0.
Definition name_pv (serialOf : gmap string string) (p : LVMPhysicalVolume) : LVMPhysicalVolume :=
  mkLVMPhysicalVolume (pv_Name p) (pv_VG p) (pv_SizeBytes p) (pv_FreeBytes p) (pv_Attr p) (clipRunes (default "" (serialOf !! default (pv_Name p) (cut_prefix "/dev/" (pv_Name p)))) 128).
Definition lvm_read (serialOf : gmap string string) (now : time) (outs : list string) : LVMStatus :=
  match parseLVM (nth 0 outs "") (nth 1 outs "") (nth 2 outs "") with
  | inl e => lvm_only StackError None (errorText e)
  | inr (pvs, vgs, lvs) =>
    if bool_decide (pvs = []) && bool_decide (vgs = []) then lvm_only StackAbsent (Some now) ""
    else
      let '(pvs, o1) := capList (map (name_pv serialOf) pvs) maxLVMPVs in
      let '(vgs, o2) := capList vgs maxLVMVGs in
      let '(lvs, o3) := capList lvs maxLVMLVs in
      mkLVMStatus StackPresent (Some now) "" pvs vgs lvs (wrap32 (o1 + o2 + o3))
  end.
Definition observeLVM (serialOf : gmap string string) (now : time) : St W LVMStatus :=
  r ← run_commands lvmCommands;
  mret match r with
       | inl (_, StToolAbsent) => lvm_only StackAbsent (Some now) ""
       | inl (_, e) => let '(st, msg) := stackFailure e in lvm_only st None msg
       | inr outs => lvm_read serialOf now outs
       end.

Definition lvmInterval : Z := 5 * minute.
Definition keepZFS (cur prev : ZFSStatus) : ZFSStatus :=
  mkZFSStatus (zfs_State cur) (zfs_ReadAt prev) (zfs_Error cur) (zfs_Pools prev) (zfs_PoolsOmitted prev) (zfs_Datasets prev) (zfs_DatasetsOmitted prev).
Definition keepLVM (cur prev : LVMStatus) : LVMStatus :=
  mkLVMStatus (lvm_State cur) (lvm_ReadAt prev) (lvm_Error cur) (lvm_PVs prev) (lvm_VGs prev) (lvm_LVs prev) (lvm_Omitted prev).

(** LVM as last read, while that is recent and was not cut short. *)
Definition lvm_due (prev : option LocalStorage) : St W (option LVMStatus) :=
  match prev with
  | None => mret None
  | Some p =>
    match lvm_ReadAt (ls_LVM p) with
    | None => mret None
    | Some at_ =>
      now ← src_Now;
      mret (if (sub now at_ <? lvmInterval) && negb (bool_decide (lvm_State (ls_LVM p) = StackBusy)) then Some (ls_LVM p) else None)
    end
  end.
Definition ObserveLocalStorage (prev : option LocalStorage) (serialOf : gmap string string) : St W LocalStorage :=
  now ← src_Now;
  zfs ← observeZFS now;
  md ← observeMD serialOf now;
  kept ← lvm_due prev;
  lvm ← match kept with Some l => mret l | None => observeLVM serialOf now end;
  mret match prev with
       | None => mkLocalStorage zfs md lvm
       | Some p =>
         mkLocalStorage (if bool_decide (zfs_State zfs = StackBusy) then keepZFS zfs (ls_ZFS p) else zfs) md
           (if bool_decide (lvm_State lvm = StackBusy) then keepLVM lvm (ls_LVM p) else lvm)
       end.

(** ** The collector *)

(** [co_running]: the collection under way, with the result before it and the names it was given. *)
Record LocalCollector := mkCollector { co_running : option (option LocalStorage * gmap string string); co_last : option LocalStorage }.
Definition begin_collection (serialOf : gmap string string) (c : LocalCollector) : LocalCollector :=
  match co_running c with Some _ => c | None => mkCollector (Some (co_last c, serialOf)) (co_last c) end.
(** The goroutine, to its end. *)
Definition collect : St (LocalCollector * W) unit :=
  c ← memory;
  match co_running c with
  | None => mret tt
  | Some (prev, serialOf) => res ← beside (ObserveLocalStorage prev serialOf); remember (fun _ => mkCollector None (Some res))
  end.
(** [in_time]: the collection ends before the wait does. *)
Definition Latest (serialOf : gmap string string) (in_time : bool) : St (LocalCollector * W) (option LocalStorage) :=
  _ ← remember (begin_collection serialOf);
  _ ← (if in_time then collect else mret tt);
  c ← memory; mret (co_last c).
End Observers.
End Stacks.

(** ** Within the schema

    The kubebuilder markers of localstorage_types.go: a status with one value past them is refused
    whole. *)
Definition opt32 (o : option Z) : Prop := match o with Some z => int32_ok z | None => True end.
Definition at_most {A} (n : nat) (fits : A -> Prop) (l : list A) : Prop := (length l <= n)%nat /\ Forall fits l.
Definition state_fits (s : StackState) : Prop := s ∈ [StackPresent; StackAbsent; StackError; StackBusy].
Definition vdev_fits (v : ZVdev) : Prop := chars 512 (zv_Name v) /\ int32_ok (zv_Depth v) /\ chars 32 (zv_State v) /\ chars 256 (zv_Note v).
Definition pool_fits (p : ZPool) : Prop :=
  chars 128 (zp_Name p) /\ chars 32 (zp_Health p) /\ opt32 (zp_FragmentationPercent p) /\ opt32 (zp_CapacityPercent p) /\ chars 512 (zp_Scan p) /\
  opt32 (zp_ScrubErrors p) /\ chars 64 (zp_LastScrub p) /\ chars 256 (zp_Errors p) /\ at_most 64 vdev_fits (zp_Vdevs p) /\ int32_ok (zp_VdevsOmitted p).
Definition dataset_fits (d : ZFSDataset) : Prop := chars 256 (zd_Name d) /\ chars 16 (zd_Type d) /\ chars 512 (zd_MountPoint d).
Definition zfs_fits (z : ZFSStatus) : Prop :=
  state_fits (zfs_State z) /\ chars 256 (zfs_Error z) /\ at_most 16 pool_fits (zfs_Pools z) /\ int32_ok (zfs_PoolsOmitted z) /\
  at_most 64 dataset_fits (zfs_Datasets z) /\ int32_ok (zfs_DatasetsOmitted z).
Definition member_fits (m : MDMember) : Prop := chars 64 (mdm_Device m) /\ chars 128 (mdm_Serial m).
Definition array_fits (a : MDArray) : Prop :=
  chars 32 (mda_Name a) /\ chars 16 (mda_Level a) /\ chars 32 (mda_State a) /\ int32_ok (mda_RaidDisks a) /\ int32_ok (mda_ActiveDisks a) /\ chars 64 (mda_Slots a) /\
  chars 64 (mda_Sync a) /\ at_most 32 member_fits (mda_Members a) /\ int32_ok (mda_MembersOmitted a).
Definition md_fits (m : MDStatus) : Prop := state_fits (md_State m) /\ chars 256 (md_Error m) /\ at_most 16 array_fits (md_Arrays m) /\ int32_ok (md_ArraysOmitted m).
Definition pv_fits (p : LVMPhysicalVolume) : Prop := chars 512 (pv_Name p) /\ chars 128 (pv_VG p) /\ chars 16 (pv_Attr p) /\ chars 128 (pv_Serial p).
Definition vg_fits (g : LVMVolumeGroup) : Prop := chars 128 (vg_Name g) /\ int32_ok (vg_PVCount g) /\ int32_ok (vg_LVCount g) /\ chars 16 (vg_Attr g).
Definition lv_fits (v : LVMLogicalVolume) : Prop :=
  chars 128 (lv_Name v) /\ chars 128 (lv_VG v) /\ chars 16 (lv_Attr v) /\ chars 32 (lv_SegType v) /\ chars 16 (lv_DataPercent v).
Definition lvm_fits (l : LVMStatus) : Prop :=
  state_fits (lvm_State l) /\ chars 256 (lvm_Error l) /\ at_most 64 pv_fits (lvm_PVs l) /\ at_most 32 vg_fits (lvm_VGs l) /\ at_most 128 lv_fits (lvm_LVs l) /\ int32_ok (lvm_Omitted l).
Definition local_fits (l : LocalStorage) : Prop := zfs_fits (ls_ZFS l) /\ md_fits (ls_MD l) /\ lvm_fits (ls_LVM l).

Lemma wrap32_ok z : int32_ok (wrap32 z).
Proof. apply (wrap_range 32). lia. Qed.
Lemma chars_empty n : chars n "".
Proof. unfold chars. cbn. lia. Qed.
Lemma zero_ok : int32_ok 0.
Proof. by split. Qed.
Lemma nil_fits {A} n (fits : A -> Prop) : at_most n fits [].
Proof. split; [cbn; lia|constructor]. Qed.
Lemma parse_int32_ok s : opt32 (parse_int32 s).
Proof. unfold parse_int32, opt32. destruct (parse_int64 s) as [z|]; [|done]. cbn. destruct (_ && _) eqn:E; [|done]. apply andb_prop in E as [?%Z.leb_le ?%Z.ltb_lt]. by split. Qed.
Lemma error_chars t : chars 256 (errorText t).
Proof. apply clip_chars. Qed.
Lemma states_fit : state_fits StackPresent /\ state_fits StackAbsent /\ state_fits StackError /\ state_fits StackBusy.
Proof. unfold state_fits. repeat split; set_solver. Qed.
Create HintDb fits.
#[export] Hint Extern 1 (state_fits _) => apply states_fit : fits.
#[export] Hint Resolve error_chars wrap32_ok chars_empty zero_ok nil_fits parse_int32_ok clip_chars : fits.
Ltac fit := repeat first [progress auto with fits | split | match goal with |- opt32 None => exact I end].

Lemma cap_fits {A} n (fits : A -> Prop) l : Forall fits l -> at_most n fits (capList l n).1 /\ int32_ok (capList l n).2.
Proof.
  intros Hf. unfold capList, at_most. destruct (_ <=? _)%nat eqn:E; cbn.
  - apply Nat.leb_le in E. fit; done.
  - split; [|apply wrap32_ok]. split; [rewrite length_take; lia|by apply Forall_take].
Qed.
Lemma omap_fits {A B} (f : A -> option B) (fits : B -> Prop) l : (forall a b, f a = Some b -> fits b) -> Forall fits (omap f l).
Proof. intros H. apply Forall_forall. intros b (a & _ & Hb)%list_elem_of_omap. eauto. Qed.

Section Fits.
Context {FC : FloatConv} {DE : DecodeErrors}.

Lemma zpool_row_fits line p : zpool_row line = Some p -> pool_fits p.
Proof.
  unfold zpool_row. destruct (split_on _ _) as [|a0 [|a1 [|a2 [|a3 [|a4 [|a5 [|a6 l]]]]]]]; try done. case_bool_decide; [done|]. intros [= <-]. unfold pool_fits, optPercent. cbn. fit.
Qed.
Lemma zfs_row_fits line d : zfs_row line = Some d -> dataset_fits d.
Proof. unfold zfs_row. destruct (split_on _ _) as [|a0 [|a1 [|a2 [|a3 [|a4 [|a5 l]]]]]]; try done. case_bool_decide; [done|]. intros [= <-]. unfold dataset_fits. cbn. fit. Qed.
Lemma vdev_fit name depth rest : vdev_fits (zpoolVdev name depth rest).
Proof. unfold zpoolVdev. destruct (counters _) as [[[r w] c]|]; unfold vdev_fits; cbn; (split; [apply clip_chars|]); (split; [apply wrap32_ok|]); (split; [destruct rest; fit|case_match; fit]). Qed.

Definition scan_fits (c : zscan) : Prop := Forall (fun s => Forall vdev_fits (zs_vdevs s)) (zc_done c ++ option_list (zc_cur c)).
Lemma scan_fits_cur d o s r g : scan_fits (mkScan d o s r g) <-> Forall (fun s => Forall vdev_fits (zs_vdevs s)) d /\ match o with Some p => Forall vdev_fits (zs_vdevs p) | None => True end.
Proof. unfold scan_fits. cbn. rewrite Forall_app. destruct o; cbn; [rewrite Forall_singleton|]; naive_solver. Qed.
Lemma config_row_fits c cur line : scan_fits c -> zc_cur c = Some cur -> scan_fits (config_row c cur line).
Proof.
  destruct c as [dn o se rs ig]. cbn. intros H ->. unfold config_row. destruct (strip_prefix _ _) as [body|]; [|done]. destruct (_ || _); [done|].
  apply scan_fits_cur in H as [Hd Hc]. destruct (match zpoolStateIndex _ with Some _ => _ | None => _ end) as [name rest].
  destruct (_ && _); apply scan_fits_cur; [done|]. split; [done|]. cbn. apply Forall_app. split; [done|]. constructor; [apply vdev_fit|done].
Qed.
Lemma status_line_fits c raw : scan_fits c -> scan_fits (status_line c raw).
Proof.
  intros H. unfold status_line. destruct (Regexp.exec _ _) as [m|].
  - destruct c as [dn o se rs ig]. apply scan_fits_cur in H as [Hd Hc]. destruct (bool_decide (_ = "pool")); cbn; apply scan_fits_cur.
    + split; [apply Forall_app; split; [done|]; destruct o; cbn; [by constructor|done]|]. by repeat destruct (bool_decide _).
    + split; [done|]. destruct o; [|done]. by repeat destruct (bool_decide _).
  - destruct (zc_cur c) as [p|] eqn:E; [|done]. destruct (bool_decide _); [|destruct (bool_decide _); [by apply config_row_fits|done]].
    destruct (bool_decide _); [done|]. destruct c as [dn o se rs ig]. cbn in E. subst o. apply scan_fits_cur in H as [Hd Hc]. by apply scan_fits_cur.
Qed.
Lemma fold_fits {A B} (P : A -> Prop) (f : A -> B -> A) l a : P a -> (forall a b, P a -> P (f a b)) -> P (fold_left f l a).
Proof. intros Ha Hf. revert a Ha. induction l as [|b l IH]; intros a Ha; [done|]. apply IH. by apply Hf. Qed.
Lemma status_fits out : Forall (fun s => Forall vdev_fits (zs_vdevs s)) (parseZpoolStatus out).
Proof. unfold parseZpoolStatus. apply (fold_fits scan_fits); [constructor|]. intros c raw. apply status_line_fits. Qed.

Lemma merge_one_fits p s : pool_fits p -> Forall vdev_fits (zs_vdevs s) -> pool_fits (merge_one p s).
Proof.
  intros (Hn & Hh & Hf & Hc & _ & Hs & Hl & _) Hv. unfold merge_one. pose proof (cap_fits maxZVdevs vdev_fits _ Hv) as [Hv1 Hv2]. destruct (capList _ _) as [vdevs om].
  assert (opt32 (match Regexp.exec scrubDone (zs_scan s) with Some m => match parse_int32 (Regexp.group_text 1 m) with Some n => Some n | None => zp_ScrubErrors p end | None => zp_ScrubErrors p end)) as He.
  { destruct (Regexp.exec _ _) as [m|]; [|done]. pose proof (parse_int32_ok (Regexp.group_text 1 m)) as H. by destruct (parse_int32 _). }
  unfold pool_fits. destruct (Regexp.exec _ _) as [m|]; cbn; fit; try done; by destruct Hv1.
Qed.
Lemma merge_fits pools st : Forall pool_fits pools -> Forall (fun s => Forall vdev_fits (zs_vdevs s)) st -> Forall pool_fits (mergeZpoolStatus pools st).
Proof.
  unfold mergeZpoolStatus. intros Hp Hs. revert pools Hp. induction Hs as [|s st Hv _ IH]; intros pools Hp; [done|]. cbn. apply IH. destruct (last_named _ _) as [i|]; [|done].
  apply Forall_alter; [done|]. intros p Hi _. apply merge_one_fits; [|done]. rewrite Forall_forall in Hp. apply Hp. by eapply list_elem_of_lookup_2.
Qed.
Lemma zfs_read_fits now outs : zfs_fits (zfs_read now outs).
Proof.
  unfold zfs_read. pose proof (cap_fits maxZPools pool_fits (mergeZpoolStatus (parseZpoolList (nth 0 outs "")) (parseZpoolStatus (nth 1 outs "")))) as [Hp Hpo].
  { apply merge_fits; [apply omap_fits, zpool_row_fits|apply status_fits]. }
  pose proof (cap_fits maxZFSDatasets dataset_fits (parseZfsList (nth 2 outs "")) (omap_fits _ _ _ zfs_row_fits)) as [Hd Hdo].
  destruct (capList _ maxZPools) as [pools po], (capList _ maxZFSDatasets) as [ds dso]. cbn in *. unfold zfs_fits. cbn. destruct Hp, Hd. fit; done.
Qed.

Lemma md_member_fits w m : md_member w = Some m -> member_fits m.
Proof. unfold md_member. destruct (Regexp.exec _ _); [|done]. intros [= <-]. unfold member_fits. cbn. fit. Qed.
Lemma add_md_fits acc m : at_most 32 member_fits acc.1 /\ int32_ok acc.2 -> member_fits m -> at_most 32 member_fits (add_md acc m).1 /\ int32_ok (add_md acc m).2.
Proof.
  intros [[Hl Hf] Ho] Hm. unfold add_md. destruct (Nat.eqb_spec (length acc.1) maxMDMembers) as [E|E]; cbn; [fit; done|]. split; [|done].
  split; [rewrite length_app; cbn; unfold maxMDMembers in E; lia|]. apply Forall_app. split; [done|]. by constructor.
Qed.
Lemma md_header_fits name rest : array_fits (parseMdHeader name rest).
Proof.
  unfold parseMdHeader. destruct (match Fields rest with w :: f => _ | [] => _ end) as [state f].
  assert (chars 16 (match f with w :: f' => if has_text w "[" then ("", f) else (clipRunes w 16, f') | [] => ("", []) end).1) as Hl by (destruct f as [|w f]; [apply chars_empty|destruct (has_text w "["); [apply chars_empty|apply clip_chars]]).
  destruct (match f with w :: f' => _ | [] => _ end) as [level f']. cbn in Hl.
  assert (forall l acc, at_most 32 member_fits acc.1 /\ int32_ok acc.2 -> Forall member_fits l -> let r := fold_left add_md l acc in at_most 32 member_fits r.1 /\ int32_ok r.2) as Hf.
  { intros l. induction l as [|m l IH]; intros acc Ha Hm; [done|]. inversion Hm; subst. cbn. apply IH; [by apply add_md_fits|done]. }
  specialize (Hf (omap md_member f') ([], 0) (conj (nil_fits _ _) zero_ok) (omap_fits _ _ _ md_member_fits)). destruct (fold_left _ _ _) as [members om]. cbn in Hf.
  unfold array_fits. cbn. destruct Hf as [[? ?] ?]. fit; done.
Qed.
Lemma md_detail_fits a line : array_fits a -> array_fits (md_detail a line).
Proof.
  intros (H1 & H2 & H3 & H4 & H5 & H6 & H7 & [H8 H8'] & H9). unfold md_detail. destruct (Regexp.exec mdCounts line) as [m|], (Regexp.or_else _ _) as [m'|]; unfold array_fits; cbn; fit; done.
Qed.
Lemma mdstat_fits data : Forall array_fits (parseMdstat data).
Proof.
  unfold parseMdstat. apply Forall_map. apply Forall_rev. enough (Forall array_fits (fold_left md_line (lines_of data) ([], false)).1) as H.
  { eapply Forall_impl; [exact H|]. intros a Ha. exact Ha. }
  apply (fold_fits (fun acc => Forall array_fits acc.1)); [constructor|]. intros [l cur] line H. unfold md_line. cbn [fst snd] in *. destruct (Regexp.exec _ _); [constructor; [apply md_header_fits|done]|].
  destruct (_ || _); [done|]. destruct l as [|a l]; [done|]. inversion H; subst. constructor; [by apply md_detail_fits|done].
Qed.
Lemma named_members_fit serialOf a : array_fits a -> array_fits (name_members serialOf a).
Proof.
  intros (H1 & H2 & H3 & H4 & H5 & H6 & H7 & [H8 H8'] & H9). unfold name_members, array_fits. cbn. fit; try done; [by rewrite length_map|]. apply Forall_map. eapply Forall_impl; [exact H8'|].
  intros m [Hd _]. split; [done|]. apply clip_chars.
Qed.

Lemma lvm_read_fits serialOf now outs : lvm_fits (lvm_read serialOf now outs).
Proof.
  unfold lvm_read, lvm_only. destruct (parseLVM _ _ _) as [e|[[pvs vgs] lvs]] eqn:E; [unfold lvm_fits; cbn; fit|].
  destruct (_ && _); [unfold lvm_fits; cbn; fit|].
  assert (Forall pv_fits (map (name_pv serialOf) pvs) /\ Forall vg_fits vgs /\ Forall lv_fits lvs) as (Hp & Hg & Hv).
  { unfold parseLVM in E. destruct (lvmRows _ "pv") as [|p]; [done|]. destruct (lvmRows _ "vg") as [|g]; [done|]. destruct (lvmRows _ "lv") as [|v]; [done|]. injection E as <- <- <-.
    split; [|split].
    - apply Forall_map, Forall_map, Forall_true. intros r. unfold pv_fits. cbn. fit.
    - apply Forall_map, Forall_true. intros r. unfold vg_fits. cbn. fit.
    - apply Forall_map, Forall_true. intros r. unfold lv_fits. cbn. fit. }
  pose proof (cap_fits maxLVMPVs _ _ Hp) as [Hp1 _]. pose proof (cap_fits maxLVMVGs _ _ Hg) as [Hg1 _]. pose proof (cap_fits maxLVMLVs _ _ Hv) as [Hv1 _].
  destruct (capList _ maxLVMPVs) as [p1 o1], (capList _ maxLVMVGs) as [g1 o2], (capList _ maxLVMLVs) as [v1 o3]. cbn in *. unfold lvm_fits. cbn.
  destruct Hp1, Hg1, Hv1. fit; done.
Qed.

Section Observed.
Context {W : Type} {SX : StorageExec W} {LS : LocalSources W}.

(** [always m Q]: whatever the world, the value of [m] satisfies [Q]. *)
Definition always {A} (m : St W A) (Q : A -> Prop) : Prop := forall w, Q (m w).1.
Lemma always_ret {A} (a : A) Q : Q a -> always (mret a) Q.
Proof. by intros H w. Qed.
Lemma always_bind {A B} (m : St W A) (k : A -> St W B) P Q : always m P -> (forall a, P a -> always (k a) Q) -> always (m ≫= k) Q.
Proof. intros Hm Hk w. rewrite St_bind_run. apply Hk, Hm. Qed.
Lemma always_true {A} (m : St W A) : always m (fun _ => True).
Proof. done. Qed.

(** The command that failed is one of those given. *)
Lemma run_commands_from cmds : always (run_commands cmds) (fun r => match r with inl (c, _) => c ∈ cmds | inr _ => True end).
Proof.
  induction cmds as [|c cmds IH]; [by apply always_ret|]. cbn. eapply always_bind; [apply always_true|]. intros [e|out] _; [apply always_ret; by left|].
  eapply always_bind; [exact IH|]. intros [[c' e]|outs] H; apply always_ret; [by right|done].
Qed.
Lemma failure_fits e : state_fits (stackFailure e).1 /\ chars 256 (stackFailure e).2.
Proof. split; [destruct e; cbn; auto with fits|apply clip_chars]. Qed.
Lemma zfs_only_fits st msg : state_fits st -> chars 256 msg -> zfs_fits (zfs_only st msg).
Proof. intros. unfold zfs_fits. cbn. fit; done. Qed.
Lemma lvm_only_fits st at_ msg : state_fits st -> chars 256 msg -> lvm_fits (lvm_only st at_ msg).
Proof. intros. unfold lvm_fits. cbn. fit; done. Qed.

Lemma observe_zfs_fits now : always (observeZFS now) zfs_fits.
Proof.
  unfold observeZFS. eapply always_bind; [apply always_true|]. intros [] _; cbn [negb]; [|apply always_ret, zfs_only_fits; [auto with fits|fit]].
  eapply always_bind; [apply run_commands_from|]. intros [[c e]|outs] Hc; apply always_ret; [|apply zfs_read_fits].
  pose proof (failure_fits e) as [Hs Hm]. destruct (stackFailure e) as [st msg]. cbn [fst snd] in Hs, Hm. destruct e as [| |t]; [by apply zfs_only_fits| |by apply zfs_only_fits].
  apply zfs_only_fits; [auto with fits|]. unfold zfsCommands in Hc. rewrite !elem_of_cons in Hc. destruct Hc as [->|[->|[->|[]%not_elem_of_nil]]]; unfold chars; vm_compute; lia.
Qed.
Lemma observe_md_fits serialOf now : always (observeMD serialOf now) md_fits.
Proof.
  unfold observeMD. eapply always_bind; [apply always_true|]. intros [[|e]|data] _; apply always_ret; [unfold md_fits; cbn; fit..|].
  pose proof (cap_fits maxMDArrays array_fits (map (name_members serialOf) (parseMdstat data))) as [Ha Ho].
  { apply Forall_map. eapply Forall_impl; [apply mdstat_fits|]. apply named_members_fit. }
  destruct (parseMdstat data) as [|a l]; [unfold md_fits; cbn; fit|].
  destruct (capList _ _) as [arrays om]. cbn in *. unfold md_fits. cbn. destruct Ha. fit; done.
Qed.
Lemma observe_lvm_fits serialOf now : always (observeLVM serialOf now) lvm_fits.
Proof.
  unfold observeLVM. eapply always_bind; [apply always_true|]. intros [[c e]|outs] _; apply always_ret; [|apply lvm_read_fits].
  pose proof (failure_fits e) as [Hs Hm]. destruct (stackFailure e) as [st msg]. cbn [fst snd] in Hs, Hm. destruct e as [| |t]; apply lvm_only_fits; auto with fits.
Qed.

(** Whatever the tools print and however they fail, a collection after one within the schema is within
    the schema. *)
Lemma observe_local_fits prev serialOf : match prev with Some p => local_fits p | None => True end -> always (ObserveLocalStorage prev serialOf) local_fits.
Proof.
  intros Hp. unfold ObserveLocalStorage. eapply always_bind; [apply always_true|]. intros now _. eapply always_bind; [apply observe_zfs_fits|]. intros zfs Hz.
  eapply always_bind; [apply observe_md_fits|]. intros md Hm. apply (always_bind _ _ (fun k => match k with Some l => lvm_fits l | None => True end)).
  { unfold lvm_due. destruct prev as [p|]; [|by apply always_ret]. destruct (lvm_ReadAt _); [|by apply always_ret]. eapply always_bind; [apply always_true|]. intros ? _. apply always_ret. destruct (_ && _); [apply Hp|done]. }
  intros kept Hk. apply (always_bind _ _ lvm_fits); [destruct kept; [by apply always_ret|apply observe_lvm_fits]|]. intros lvm Hl. apply always_ret. destruct prev as [p|]; [|by split].
  destruct Hp as (Pz & _ & Pl). split; [|split; [done|]]; cbn; destruct (bool_decide _); try done.
  - destruct Hz as (? & ? & _), Pz as (_ & _ & ? & ? & ? & ?). unfold zfs_fits. cbn. tauto.
  - destruct Hl as (? & ? & _), Pl as (_ & _ & ? & ? & ? & ?). unfold lvm_fits. cbn. tauto.
Qed.
End Observed.
End Fits.

(** ** What is run on the node *)

Definition listed (argv : list string) : Prop := exists c, c ∈ storageCommands /\ argv = (timeoutPrefix ++ c)%list.

Section Listed.
Context {FC : FloatConv} {DE : DecodeErrors} {W : Type} {SX : StorageExec W} {TX : TracedExec W} {LS : LocalSources W} {SC : SmartClock W}.
(** Reading files and the clock runs nothing. *)
Class QuietSources := {
  quiet_read path w : exec_trace (src_ReadFile path w).2 = exec_trace w;
  quiet_exist path w : exec_trace (src_PathExist path w).2 = exec_trace w;
  quiet_now w : exec_trace (src_Now w).2 = exec_trace w;
  quiet_smart w : exec_trace (smart_now w).2 = exec_trace w
}.
Context {QS : QuietSources}.
Abbreviation runs_listed m := (emits exec_trace m (fun _ t => Forall listed t)).

Lemma listed_bind {A B} (m : St W A) (k : A -> St W B) : runs_listed m -> (forall a, runs_listed (k a)) -> runs_listed (m ≫= k).
Proof. intros Hm Hk. eapply emits_bind; [exact Hm|]. intros a t Ht. eapply emits_mono; [apply Hk|]. intros b t' Ht'. by apply Forall_app. Qed.
Lemma listed_ret {A} (a : A) : runs_listed (mret a).
Proof. by apply emits_ret. Qed.
Lemma listed_quiet {A} (m : St W A) : (forall w, exec_trace (m w).2 = exec_trace w) -> runs_listed m.
Proof. intros H. eapply emits_mono; [by apply emits_quiet|]. by intros _ t ->. Qed.
#[local] Hint Resolve listed_ret : core.

Lemma exec_listed argv : runs_listed (execListed argv).
Proof.
  unfold execListed. case_bool_decide as Hc; cbn; [|auto]. eapply emits_mono; [by apply (emits_op _ _ (fun _ => [(timeoutPrefix ++ argv)%list])), traced_exec|].
  intros _ t ->. constructor; [|done]. by exists argv.
Qed.
Lemma run_storage_listed argv : runs_listed (runStorage argv).
Proof.
  unfold runStorage. apply listed_bind; [apply exec_listed|]. intros [[stdout stderr] [e|]]; [|auto]. destruct (xe_busy e); [auto|]. destruct (xe_code e =? 127).
  - apply listed_bind; [apply exec_listed|auto].
  - destruct (_ || _); auto.
Qed.
Lemma run_commands_listed cmds : runs_listed (run_commands cmds).
Proof. induction cmds as [|c cmds IH]; [by apply listed_ret|]. cbn. apply listed_bind; [apply run_storage_listed|]. intros [e|out]; [auto|]. apply listed_bind; auto. Qed.
Lemma observe_listed prev serialOf : runs_listed (ObserveLocalStorage prev serialOf).
Proof.
  unfold ObserveLocalStorage. apply listed_bind; [apply listed_quiet, quiet_now|]. intros now. apply listed_bind.
  { unfold observeZFS. apply listed_bind; [apply listed_quiet, quiet_exist|]. intros []; cbn [negb]; [|auto]. apply listed_bind; [apply run_commands_listed|auto]. }
  intros zfs. apply listed_bind; [unfold observeMD; apply listed_bind; [apply listed_quiet, quiet_read|auto]|]. intros md. apply listed_bind.
  { unfold lvm_due. destruct prev as [p|]; [|auto]. destruct (lvm_ReadAt _); [|auto]. apply listed_bind; [apply listed_quiet, quiet_now|auto]. }
  intros [l|]; (apply listed_bind; [|auto]); [auto|]. unfold observeLVM. apply listed_bind; [apply run_commands_listed|auto].
Qed.

(** What the storage half of the agent does on the node, in any order: start or await a collection,
    finish one, read a disk's own data. *)
Inductive storage_op := OLatest (serialOf : gmap string string) (in_time : bool) | OCollect | ORead (d : ObservedDisk).
Definition storage_act (o : storage_op) : St (LocalCollector * W) unit :=
  match o with
  | OLatest serialOf in_time => _ ← Latest serialOf in_time; mret tt
  | OCollect => collect
  | ORead d => _ ← beside (read d); mret tt
  end.
Fixpoint storage_acts (ops : list storage_op) : St (LocalCollector * W) unit :=
  match ops with [] => mret tt | o :: ops => _ ← storage_act o; storage_acts ops end.

Lemma collect_listed c : steps exec_trace collect c (fun _ _ t => Forall listed t).
Proof.
  unfold collect. apply steps_memory. destruct (co_running c) as [[prev serialOf]|]; [|by apply steps_ret]. eapply steps_beside; [apply observe_listed|]. intros res t Ht.
  intros w. exists []. rewrite !app_nil_r. done.
Qed.
(** C24. Whatever the node's tools print and however they fail, what the agent runs to report its storage is,
    word for word, a command of the list under timeout, or the SMART read of one whole disk: no name read from
    the node or the cluster reaches a command but that of a disk. *)
Theorem storage_commands_fixed ops c w : exists t, exec_trace (storage_acts ops (c, w)).2.2 = (exec_trace w ++ t)%list /\ Forall (fun argv => listed argv \/ smart_command argv) t.
Proof.
  enough (steps exec_trace (storage_acts ops) c (fun _ _ t => Forall (fun argv => listed argv \/ smart_command argv) t)) as H by apply H.
  revert c. induction ops as [|o ops IH]; intros c; cbn [storage_acts]; [by apply steps_ret|].
  eapply (steps_bind _ _ _ _ (fun _ _ t => Forall (fun argv => listed argv \/ smart_command argv) t)); [|intros ? c' t Ht; eapply steps_mono; [apply IH|]; intros ? ? t' Ht'; by apply Forall_app].
  destruct o as [serialOf in_time| |d]; cbn [storage_act].
  - unfold Latest. eapply (steps_bind _ _ _ _ (fun _ _ t => Forall listed t)); [|intros ? c' t Ht; apply steps_ret; rewrite app_nil_r; eapply Forall_impl; [exact Ht|]; by left].
    apply steps_remember. eapply (steps_bind _ _ _ _ (fun _ _ t => Forall listed t)); [destruct in_time; [apply collect_listed|by apply steps_ret]|].
    intros ? c' t Ht. apply steps_memory, steps_ret. by rewrite app_nil_r.
  - eapply steps_mono; [apply collect_listed|]. intros ? ? t Ht. eapply Forall_impl; [exact Ht|]. by left.
  - eapply steps_beside; [apply read_smart, quiet_smart|]. intros s t Ht. apply steps_ret. rewrite app_nil_r. eapply Forall_impl; [exact Ht|]. by right.
Qed.
End Listed.
