(* ===== verification/NodeLinks.v ===== *)
(** What the node agent reports of its node's links: internal/agent/network.go and traffic.go; and
    the tick of cmd/agent/main.go that puts the collectors together, with what it publishes.

    sysfs is read through [SysFs]. The collector's memory is its last report, whether a read is under
    way, and the history of each link's counters. A float64 outside the range of the integer it is
    converted to is [FloatConv]'s and [FloatConv32]'s. *)
From stdpp Require Import base tactics strings list gmap.
From Stdlib Require Import ZArith Lia Ascii.
From S2P Require Import Prelude Trace GoLib GoText GoTime GoNet Kube Cluster FakeCluster Rollout NodeTuningController Demo Agent AgentTick StorageTypes StorageHealth StorageJoin GoJson Conversion Provision BeaconStore GoDecode Alerting StorageAlerts DiskClaim MachineController NodeDisks NodeStacks.

Open Scope Z_scope.

(** ** network.go *)

Definition sysClassNet : string := "sys/class/net".
Definition maxInterfaces : nat := 32.
Definition maxBonds : nat := 8.
Definition maxBondMembers : nat := 16.
Definition maxNameLen : nat := 15.

(** What a failed stat says: there is no such file, which ENOTDIR says too, or anything else. *)
Inductive staterr := NotThere | CannotTell.
Class SysFs (W : Type) := {
  fs_ReadDir : string -> St W (result string (list string));
  fs_Stat : string -> St W (option staterr);
  fs_ReadFile : string -> St W (result string string);
  fs_Readlink : string -> St W (option string)
}.

(** filepath.Base *)
Definition base_of (path : string) : string :=
  if bool_decide (path = "") then "." else
  match trim_left_set (Ascii.eqb "/") (rev (to_bytes path)) with
  | [] => "/"
  | l => of_bytes (rev ((fix upto (l : bytes) : bytes := match l with [] => [] | c :: l => if Ascii.eqb c "/" then [] else c :: upto l end) l))
  end.

(** strconv.ParseUint(s, 0, 64). *)
Fixpoint uint_digits (base acc : Z) (l : bytes) : option Z :=
  match l with
  | [] => Some acc
  | c :: l =>
    if Ascii.eqb c "_" then uint_digits base acc l
    else match Float.digit_in base c with
         | Some v => let n := base * acc + v in if n <? 2 ^ 64 then uint_digits base n l else None
         | None => None
         end
  end.
Definition ParseUint (s : string) : option Z :=
  let l := to_bytes s in
  match l with
  | [] => None
  | z :: rest =>
    let '(base, digits, prefixed) :=
      if Ascii.eqb z "0" then
        match rest with
        | x :: c :: t =>
          let x := Float.lower_byte x in
          if Ascii.eqb x "b" then (2, c :: t, true) else if Ascii.eqb x "o" then (8, c :: t, true) else if Ascii.eqb x "x" then (16, c :: t, true) else (8, rest, false)
        | _ => (8, rest, false)
        end
      else (10, l, false) in
    n ← uint_digits base 0 digits;
    if has_byte "_" l && negb (if prefixed : bool then Float.underscores_ok (base =? 16) "0" digits else Float.underscores_ok false "!" l) then None else Some n
  end.
Definition IFF_UP : Z := 1.

Definition firstField (s : string) : string := match Fields s with f :: _ => f | [] => "" end.
Definition speed_of (speed : Z) : option Z := if (0 <? speed) && (speed <? 2 ^ 31 - 1) then Some speed else None.
Definition plain_name (member : string) : bool := negb (has_byte "/" (to_bytes member) || bool_decide (member = ".") || bool_decide (member = "..")).

Section Network.
Context {W : Type} {SF : SysFs W}.

(** Whether the path is there, and whether that could be told. *)
Definition exists_ (path : string) : St W (bool * bool) :=
  e ← fs_Stat path; mret match e with None => (true, true) | Some NotThere => (false, true) | Some CannotTell => (false, false) end.
Definition text (path : string) : St W string := r ← fs_ReadFile path; mret match r with inl _ => "" | inr raw => trim_space raw end.
Definition number (path : string) : St W Z := t ← text path; mret (default 0 (parse_int64 t)).
Definition int32At (path : string) : St W Z := n ← number path; mret (if (n <? 0) || (2 ^ 31 - 1 <? n) then 0 else n).

Definition readInterface (dir name : string) : St W NetworkInterface :=
  let at_ f := join_path dir f in
  let stat c := number (join_path (at_ "statistics") c) in
  operstate ← text (at_ "operstate");
  duplex ← text (at_ "duplex");
  mtu ← int32At (at_ "mtu");
  rxe ← stat "rx_errors"; txe ← stat "tx_errors"; rxd ← stat "rx_dropped"; txd ← stat "tx_dropped";
  speed ← number (at_ "speed");
  master ← fs_Readlink (at_ "master");
  mret (mkNetworkInterface (clipRunes name maxNameLen) (clipRunes operstate 32) (speed_of speed) (clipRunes duplex 16) mtu
          (match master with Some target => clipRunes (base_of target) maxNameLen | None => "" end) rxe txe rxd txd None).

Definition read_member (base member : string) : St W BondMember :=
  let slave f := join_path (join_path (join_path base member) "bonding_slave") f in
  mii ← text (slave "mii_status");
  state ← text (slave "state");
  failures ← number (slave "link_failure_count");
  agg ← int32At (slave "ad_aggregator_id");
  mret (mkBondMember (clipRunes member maxNameLen) (clipRunes mii 16) (clipRunes state 16) failures agg).
(** The members read, how many were left out, and whether the list makes no sense. *)
Fixpoint read_members (base : string) (names : list string) (acc : list BondMember) (omitted : Z) (unread : bool) : St W (list BondMember * Z * bool) :=
  match names with
  | [] => mret (acc, omitted, unread)
  | member :: names =>
    if negb (plain_name member) then read_members base names acc omitted true
    else if (length acc =? maxBondMembers)%nat then read_members base names acc (wrap32 (omitted + 1)) unread
    else m ← read_member base member; read_members base names (acc ++ [m])%list omitted unread
  end.
Definition readBond (base name : string) : St W NetworkBond :=
  let dir := join_path base name in
  let attr a := join_path (join_path dir "bonding") a in
  mode ← text (attr "mode");
  mii ← text (attr "mii_status");
  mtu ← int32At (join_path dir "mtu");
  agg ← int32At (attr "ad_aggregator");
  ports ← int32At (attr "ad_num_ports");
  mac ← text (attr "ad_partner_mac");
  flags ← text (join_path dir "flags");
  slaves ← fs_ReadFile (attr "slaves");
  ms ← read_members base (match slaves with inr s => Fields s | inl _ => [] end) [] 0 (match slaves with inl _ => true | inr _ => false end);
  let '(members, omitted, unread) := ms in
  mret (mkNetworkBond (clipRunes name maxNameLen) (clipRunes (firstField mode) 32) (clipRunes mii 16) mtu agg ports None (clipRunes mac 32) members omitted unread
          (match ParseUint flags with Some f => Z.land f IFF_UP =? 0 | None => false end)).

Definition bare_interface (name : string) : NetworkInterface := mkNetworkInterface (clipRunes name maxNameLen) "" None "" 0 "" 0 0 0 0 None.
Definition add_port (out : MachineNetwork) (i : NetworkInterface) : MachineNetwork :=
  if (length (mn_Interfaces out) =? maxInterfaces)%nat then
    mkMachineNetwork (mn_ObservedAt out) (mn_Error out) (mn_Interfaces out) (wrap32 (mn_InterfacesOmitted out + 1)) (mn_Bonds out) (mn_BondsOmitted out)
  else mkMachineNetwork (mn_ObservedAt out) (mn_Error out) (mn_Interfaces out ++ [i])%list (mn_InterfacesOmitted out) (mn_Bonds out) (mn_BondsOmitted out).
Definition observe_link (base : string) (out : MachineNetwork) (name : string) : St W MachineNetwork :=
  let dir := join_path base name in
  b ← exists_ (join_path dir "bonding");
  v ← exists_ (join_path (join_path dir "device") "physfn");
  d ← exists_ (join_path dir "device");
  if negb (b.2 && v.2 && d.2) then mret (add_port out (bare_interface name))
  else if b.1 : bool then
    if (length (mn_Bonds out) =? maxBonds)%nat then
      mret (mkMachineNetwork (mn_ObservedAt out) (mn_Error out) (mn_Interfaces out) (mn_InterfacesOmitted out) (mn_Bonds out) (wrap32 (mn_BondsOmitted out + 1)))
    else
      bond ← readBond base name;
      mret (mkMachineNetwork (mn_ObservedAt out) (mn_Error out) (mn_Interfaces out) (mn_InterfacesOmitted out) (mn_Bonds out ++ [bond])%list (mn_BondsOmitted out))
  else if d.1 && negb v.1 then i ← readInterface dir name; mret (add_port out i)
  else mret out.
Fixpoint observe_links (base : string) (out : MachineNetwork) (names : list string) : St W MachineNetwork :=
  match names with [] => mret out | name :: names => out ← observe_link base out name; observe_links base out names end.
Definition ObserveNetwork (root : string) (now : time) : St W MachineNetwork :=
  let base := join_path root sysClassNet in
  r ← fs_ReadDir base;
  match r with
  | inl e => mret (mkMachineNetwork (Some now) (clipRunes e 256) [] 0 [] 0)
  | inr names => observe_links base (mkMachineNetwork (Some now) "" [] 0 [] 0) (sort_strings names)
  end.
End Network.

(** ** traffic.go *)

Definition rateWindow : Z := minute.
Definition sustainedWindow : Z := 5 * minute.
Definition peakWindow : Z := 15 * minute.
Definition windowSlack : Z := 15 * second.
Record trafficSample := mkSample { ts_at : time; ts_rx : Z; ts_tx : Z; ts_errors : Z; ts_drops : Z }.
Abbreviation history := (gmap string (list trafficSample)).

(** int32 of a float64 that is not finite or outside the range. *)
Class FloatConv32 := wide_int32 : Float.number -> Z.
Section Traffic.
Context {FC : FloatConv} {FC32 : FloatConv32}.

Definition to_int32 (x : Float.number) : Z :=
  match x with Float.Fin f => if int_range 32 (float_trunc f) then float_trunc f else wide_int32 x | Float.NotFin => wide_int32 x end.
Definition flt (n d : Z) : Float.number := match Float.float_of n d with Some f => Float.Fin f | None => Float.NotFin end.
Definition of_int (z : Z) : Float.number := flt z 1.
Definition nmul := Float.num_op Float.float_mul.
Definition ndiv := Float.num_op Float.float_div.
Definition nadd := Float.num_op Float.float_add.
(** Duration.Seconds and Duration.Minutes. *)
Definition seconds (d : Z) : Float.number := nadd (of_int (Z.quot d second)) (ndiv (of_int (Z.rem d second)) (of_int (10 ^ 9))).
Definition minutes (d : Z) : Float.number := nadd (of_int (Z.quot d minute)) (ndiv (of_int (Z.rem d minute)) (of_int (60 * 10 ^ 9))).

(** The newest reading that covers the window, or the oldest there is; [prev] are the readings before
    the last, the newest first. *)
Fixpoint newest_covering (last : trafficSample) (window : Z) (prev : list trafficSample) : option trafficSample :=
  match prev with [] => None | s :: prev => if window - windowSlack <=? sub (ts_at last) (ts_at s) then Some s else newest_covering last window prev end.
Definition since (h : list trafficSample) (window : Z) : option trafficSample :=
  match rev h with [] => None | last :: prev => match newest_covering last window prev with Some s => Some s | None => head h end end.

Definition perSecond (from to d : Z) : Z := to_int64 (ndiv (of_int (wrap64 (to - from))) (seconds d)).
Definition percentOfLink (bytesPerSecond : Z) (capacity : option Z) : option Z :=
  match capacity with
  | None => None
  | Some c => Some (to_int32 (nmul (ndiv (nmul (of_int bytesPerSecond) (of_int 8)) (nmul (of_int c) (of_int (10 ^ 6)))) (of_int 100)))
  end.
Definition perMinute (from to d : Z) : Z :=
  if to =? from then 0 else Z.max 1 (to_int64 (nadd (ndiv (of_int (wrap64 (to - from))) (minutes d)) (flt 999 1000))).

(** The busiest interval between two readings, in each direction. *)
Fixpoint peaks (h : list trafficSample) (rx tx : Z) : Z * Z :=
  match h with
  | a :: ((b :: _) as t) =>
    let d := sub (ts_at b) (ts_at a) in
    if 0 <? d then peaks t (Z.max rx (perSecond (ts_rx a) (ts_rx b) d)) (Z.max tx (perSecond (ts_tx a) (ts_tx b) d)) else peaks t rx tx
  | _ => (rx, tx)
  end.
Definition trafficOf (h : list trafficSample) (capacity : option Z) : option LinkTraffic :=
  match h, since h rateWindow, since h sustainedWindow with
  | first :: _ :: _, Some recent, Some sustained =>
    let last := List.last h first in
    let d := sub (ts_at last) (ts_at recent) in
    let rx := if 0 <? d then perSecond (ts_rx recent) (ts_rx last) d else 0 in
    let tx := if 0 <? d then perSecond (ts_tx recent) (ts_tx last) d else 0 in
    let '(prx, ptx) := peaks h 0 0 in
    let d := sub (ts_at last) (ts_at sustained) in
    Some (mkLinkTraffic (to_int32 (seconds (sub (ts_at last) (ts_at first)))) rx tx prx ptx capacity
            (percentOfLink (Z.max rx tx) capacity)
            (if sustainedWindow - windowSlack <=? d then
               percentOfLink (Z.max (perSecond (ts_rx sustained) (ts_rx last) d) (perSecond (ts_tx sustained) (ts_tx last) d)) capacity else None)
            (percentOfLink (Z.max prx ptx) capacity)
            (if 0 <? d then perMinute (ts_errors sustained) (ts_errors last) d else 0)
            (if 0 <? d then perMinute (ts_drops sustained) (ts_drops last) d else 0))
  | _, _, _ => None
  end.

(** A counter that went back, or a gap past the whole window: what came before says nothing. *)
Definition restarts (last s : trafficSample) : bool :=
  (ts_rx s <? ts_rx last) || (ts_tx s <? ts_tx last) || (ts_errors s <? ts_errors last) || (ts_drops s <? ts_drops last) || (peakWindow <? sub (ts_at s) (ts_at last)).
Fixpoint drop_old (now : time) (h : list trafficSample) : list trafficSample :=
  match h with
  | a :: ((b :: _) as t) => if peakWindow <=? sub now (ts_at b) then drop_old now t else h
  | _ => h
  end.
Definition record (now : time) (h : list trafficSample) (s : trafficSample) : list trafficSample :=
  let h := match List.last (map Some h) None with Some l => if restarts l s then [] else h | None => h end in
  drop_old now (h ++ [s])%list.

Context {W : Type} {SF : SysFs W}.
Definition counter (path : string) : St W (option Z) := t ← text path; mret (parse_int64 t).
Definition sample (base name : string) (now : time) : St W (option trafficSample) :=
  let stat c := counter (join_path (join_path (join_path base name) "statistics") c) in
  rx ← stat "rx_bytes"; tx ← stat "tx_bytes";
  rxe ← stat "rx_errors"; txe ← stat "tx_errors";
  rxd ← stat "rx_dropped"; txd ← stat "tx_dropped";
  mret (rx ← rx; tx ← tx; rxe ← rxe; txe ← txe; rxd ← rxd; txd ← txd; Some (mkSample now rx tx (wrap64 (rxe + txe)) (wrap64 (rxd + txd)))).
Definition observe (base name : string) (capacity : option Z) (now : time) : St (history * W) (option LinkTraffic) :=
  s ← beside (sample base name now);
  match s with
  | None => mret None
  | Some s =>
    w ← memory;
    let h := record now (default [] (w !! name)) s in
    _ ← remember (fun w => <[name := h]> w);
    mret (trafficOf h capacity)
  end.

Definition with_traffic (i : NetworkInterface) (t : option LinkTraffic) : NetworkInterface :=
  mkNetworkInterface (ni_Name i) (ni_OperState i) (ni_SpeedMbps i) (ni_Duplex i) (ni_MTU i) (ni_Master i) (ni_RxErrors i) (ni_TxErrors i) (ni_RxDropped i) (ni_TxDropped i) t.
Definition with_bond_traffic (b : NetworkBond) (t : option LinkTraffic) : NetworkBond :=
  mkNetworkBond (nb_Name b) (nb_Mode b) (nb_MIIStatus b) (nb_MTU b) (nb_AggregatorID b) (nb_PortsInAggregator b) t (nb_PartnerMAC b) (nb_Members b) (nb_MembersOmitted b)
    (nb_MembersUnread b) (nb_AdminDown b).
Fixpoint annotate_ports (base : string) (now : time) (l : list NetworkInterface) : St (history * W) (list NetworkInterface) :=
  match l with
  | [] => mret []
  | i :: l => t ← observe base (ni_Name i) (ni_SpeedMbps i) now; rest ← annotate_ports base now l; mret (with_traffic i t :: rest)
  end.
Fixpoint annotate_bonds (base : string) (now : time) (l : list NetworkBond) : St (history * W) (list NetworkBond) :=
  match l with
  | [] => mret []
  | b :: l =>
    speed ← beside (number (join_path (join_path base (nb_Name b)) "speed"));
    t ← observe base (nb_Name b) (speed_of speed) now;
    rest ← annotate_bonds base now l; mret (with_bond_traffic b t :: rest)
  end.
Definition annotate (base : string) (n : MachineNetwork) (now : time) : St (history * W) MachineNetwork :=
  if bool_decide (mn_Error n <> "") then mret n else
  ports ← annotate_ports base now (mn_Interfaces n);
  bs ← annotate_bonds base now (mn_Bonds n);
  let names := (map ni_Name (mn_Interfaces n) ++ map nb_Name (mn_Bonds n))%list in
  _ ← remember (filter (fun kv => bool_decide (kv.1 ∈ names) = true));
  mret (mkMachineNetwork (mn_ObservedAt n) (mn_Error n) ports (mn_InterfacesOmitted n) bs (mn_BondsOmitted n)).

(** ** The collector *)

Class NetClock := net_now : St W time.
Context {NC : NetClock}.
Definition read_network (root : string) : St (history * W) MachineNetwork :=
  t ← beside net_now;
  n ← beside (ObserveNetwork root t);
  t ← beside net_now;
  annotate (join_path root sysClassNet) n t.
Record NetworkCollector := mkNetCollector { nc_last : option MachineNetwork; nc_running : bool; nc_windows : history }.
Definition NewNetworkCollector : NetworkCollector := mkNetCollector None false ∅.
Definition net_collect (root : string) : St (NetworkCollector * W) unit := fun s =>
  if nc_running s.1 then let '(n, (h, w)) := read_network root (nc_windows s.1, s.2) in (tt, (mkNetCollector (Some n) false h, w)) else (tt, s).
(** [in_time]: the read ends before the wait does. *)
Definition net_Latest (root : string) (in_time : bool) : St (NetworkCollector * W) (option MachineNetwork) :=
  _ ← remember (fun c => mkNetCollector (nc_last c) true (nc_windows c));
  _ ← (if in_time then net_collect root else mret tt);
  c ← memory; mret (nc_last c).
End Traffic.
#[global] Arguments NetClock W : clear implicits.

(** ** Within the schema

    The markers of machinenetwork_types.go. *)
Definition iface_fits (i : NetworkInterface) : Prop :=
  chars 15 (ni_Name i) /\ chars 32 (ni_OperState i) /\ opt32 (ni_SpeedMbps i) /\ chars 16 (ni_Duplex i) /\ int32_ok (ni_MTU i) /\ chars 15 (ni_Master i).
Definition bond_member_fits (m : BondMember) : Prop := chars 15 (bm_Name m) /\ chars 16 (bm_MIIStatus m) /\ chars 16 (bm_State m) /\ int32_ok (bm_AggregatorID m).
Definition bond_fits (b : NetworkBond) : Prop :=
  chars 15 (nb_Name b) /\ chars 32 (nb_Mode b) /\ chars 16 (nb_MIIStatus b) /\ int32_ok (nb_MTU b) /\ int32_ok (nb_AggregatorID b) /\ int32_ok (nb_PortsInAggregator b) /\
  chars 32 (nb_PartnerMAC b) /\ at_most 16 bond_member_fits (nb_Members b) /\ int32_ok (nb_MembersOmitted b).
Definition net_fits (n : MachineNetwork) : Prop :=
  chars 256 (mn_Error n) /\ at_most 32 iface_fits (mn_Interfaces n) /\ int32_ok (mn_InterfacesOmitted n) /\ at_most 8 bond_fits (mn_Bonds n) /\ int32_ok (mn_BondsOmitted n).

Lemma clip_name s : chars 15 (clipRunes s maxNameLen).
Proof. apply clip_chars. Qed.
Lemma speed_fits z : opt32 (speed_of z).
Proof. unfold speed_of, opt32. destruct (_ && _) eqn:E; [|done]. apply andb_prop in E as [?%Z.ltb_lt ?%Z.ltb_lt]. unfold int32_ok. lia. Qed.
#[export] Hint Resolve clip_name speed_fits : fits.
Lemma push_fits {A} n (fits : A -> Prop) l x : at_most n fits l -> length l <> n -> fits x -> at_most n fits (l ++ [x]).
Proof. intros [Hl Hf] Hn Hx. split; [rewrite length_app; cbn; lia|]. apply Forall_app. split; [done|]. by constructor. Qed.

Section NetFits.
Context {W : Type} {SF : SysFs W}.

Lemma int32At_fits path : always (int32At path) int32_ok.
Proof.
  unfold int32At. eapply always_bind; [apply always_true|]. intros n _. apply always_ret. destruct (_ || _) eqn:E; [apply zero_ok|]. apply orb_false_elim in E as [?%Z.ltb_ge ?%Z.ltb_ge]. unfold int32_ok. lia.
Qed.
Ltac step := eapply always_bind; [first [apply int32At_fits | apply always_true]|]; intros ? ?.
Lemma interface_fits dir name : always (readInterface dir name) iface_fits.
Proof. unfold readInterface. do 9 step. apply always_ret. unfold iface_fits. cbn. fit; try done. case_match; fit. Qed.
Lemma read_member_fits base member : always (read_member base member) bond_member_fits.
Proof. unfold read_member. do 4 step. apply always_ret. unfold bond_member_fits. cbn. fit. Qed.
Lemma read_members_fit base names acc omitted unread : at_most 16 bond_member_fits acc -> int32_ok omitted ->
  always (read_members base names acc omitted unread) (fun r => at_most 16 bond_member_fits r.1.1 /\ int32_ok r.1.2).
Proof.
  revert acc omitted unread. induction names as [|m names IH]; intros acc omitted unread Ha Ho; cbn [read_members]; [by apply always_ret|].
  destruct (negb _); [by apply IH|]. destruct (Nat.eqb_spec (length acc) maxBondMembers); [apply IH; [done|apply wrap32_ok]|].
  eapply always_bind; [apply read_member_fits|]. intros x Hx. apply IH; [by apply push_fits|done].
Qed.
Lemma read_bond_fits base name : always (readBond base name) bond_fits.
Proof.
  unfold readBond. do 8 step. eapply always_bind; [apply read_members_fit; [apply nil_fits|apply zero_ok]|]. intros [[members om] un] [[Hm Hm'] Ho]. apply always_ret. unfold bond_fits. cbn in *. fit; done.
Qed.
Lemma add_port_fits out i : net_fits out -> iface_fits i -> net_fits (add_port out i).
Proof.
  intros (He & Hi & Hio & Hb & Hbo) Hf. unfold add_port. destruct (Nat.eqb_spec (length (mn_Interfaces out)) maxInterfaces); unfold net_fits; cbn; (split; [done|]).
  - split; [done|]. split; [apply wrap32_ok|done].
  - split; [by apply push_fits|done].
Qed.
Lemma observe_link_fits base out name : net_fits out -> always (observe_link base out name) net_fits.
Proof.
  intros Hn. unfold observe_link. do 3 step. destruct (negb _); [apply always_ret, add_port_fits; [done|]; unfold iface_fits; cbn; fit|].
  destruct a.1.
  - destruct Hn as (He & Hi & Hio & Hb & Hbo). destruct (Nat.eqb_spec (length (mn_Bonds out)) maxBonds).
    + apply always_ret. unfold net_fits. cbn. split; [done|]. split; [done|]. split; [done|]. split; [done|apply wrap32_ok].
    + eapply always_bind; [apply read_bond_fits|]. intros b Hbf. apply always_ret. unfold net_fits. cbn. split; [done|]. split; [done|]. split; [done|]. split; [by apply push_fits|done].
  - destruct (_ && _); [|by apply always_ret]. eapply always_bind; [apply interface_fits|]. intros i Hi. apply always_ret. by apply add_port_fits.
Qed.
Lemma observe_network_fits root now : always (ObserveNetwork root now) net_fits.
Proof.
  unfold ObserveNetwork. step. destruct a as [e|names]; [apply always_ret; unfold net_fits; cbn; fit|].
  assert (net_fits (mkMachineNetwork (Some now) "" [] 0 [] 0)) as Hz by (unfold net_fits; cbn; fit). revert Hz. generalize (mkMachineNetwork (Some now) "" [] 0 [] 0) as out. induction (sort_strings names) as [|n l IH]; intros out Ho; cbn [observe_links]; [by apply always_ret|].
  eapply always_bind; [by apply observe_link_fits|]. intros o Hf. by apply IH.
Qed.
End NetFits.

(** ** The windows *)

(** Counters that never go back and no gap over the window between two readings, and all readings but the
    oldest inside it. *)
Definition follows (a b : trafficSample) : Prop :=
  ts_rx a <= ts_rx b /\ ts_tx a <= ts_tx b /\ ts_errors a <= ts_errors b /\ ts_drops a <= ts_drops b /\ sub (ts_at b) (ts_at a) <= peakWindow.
Fixpoint chain (h : list trafficSample) : Prop := match h with a :: ((b :: _) as t) => follows a b /\ chain t | _ => True end.
Definition window_ok (h : list trafficSample) : Prop :=
  h <> [] /\ chain h /\ match h with _ :: b :: _ => forall d, sub (ts_at (List.last h d)) (ts_at b) < peakWindow | _ => True end.

Lemma chain_snoc h s : chain h -> match List.last (map Some h) None with Some l => follows l s | None => True end -> chain (h ++ [s]).
Proof.
  induction h as [|a [|b h] IH]; intros Hc Hl; [done|by split|]. destruct Hc as [Hab Hc]. cbn [app]. split; [done|]. by apply IH.
Qed.
Lemma restarts_not l s : restarts l s = false -> follows l s.
Proof.
  unfold restarts, follows. intros H. apply orb_false_elim in H as [H ?%Z.ltb_ge]. apply orb_false_elim in H as [H ?%Z.ltb_ge]. apply orb_false_elim in H as [H ?%Z.ltb_ge]. apply orb_false_elim in H as [?%Z.ltb_ge ?%Z.ltb_ge]. lia.
Qed.
Lemma drop_old_spec now h : chain h -> h <> [] -> chain (drop_old now h) /\ drop_old now h <> [] /\ (forall d, List.last (drop_old now h) d = List.last h d) /\
  match drop_old now h with _ :: b :: _ => sub now (ts_at b) < peakWindow | _ => True end.
Proof.
  induction h as [|a [|b h] IH]; intros Hc Hn; [done|by repeat split|]. destruct Hc as [Hab Hc]. cbn [drop_old]. destruct (Z.leb_spec peakWindow (sub now (ts_at b))).
  - destruct (IH Hc) as (H1 & H2 & H3 & H4); [done|]. split; [exact H1|]. split; [exact H2|]. split; [|exact H4]. intros d. by rewrite H3.
  - repeat split; try done; apply Hab.
Qed.
(** Recording a reading keeps a window one, whatever the clock and the driver do. *)
Lemma record_window now h s : h = [] \/ window_ok h -> ts_at s = now -> window_ok (record now h s).
Proof.
  intros Hw Hs. unfold record. set (h' := match List.last (map Some h) None with Some l => if restarts l s then [] else h | None => h end).
  assert (chain (h' ++ [s])) as Hc.
  { apply chain_snoc; subst h'; destruct (List.last (map Some h) None) as [l|] eqn:El; try (destruct (restarts l s) eqn:Er); try done; try (destruct Hw as [->|(_ & ? & _)]; done).
    - rewrite El. by apply restarts_not.
    - by rewrite El. }
  destruct (drop_old_spec now (h' ++ [s]) Hc) as (H1 & H2 & H3 & H4); [by destruct h'|]. split; [done|]. split; [done|].
  destruct (drop_old now (h' ++ [s])) as [|a [|b t]]; [done|done|]. intros d. rewrite H3, List.last_last, Hs. done.
Qed.

(** ** The tick *)

Definition localStorageWait : Z := 5 * second.
Record Collectors := mkCollectors { cs_local : LocalCollector; cs_smart : SMARTReader; cs_net : NetworkCollector }.
Definition new_collectors : Collectors := mkCollectors (mkCollector None None) NewSMARTReader NewNetworkCollector.

Section Tick.
Context `{LBS : LabelSelectors} `{EX : Exec} `{LZ : LocalZones} {DE : DecodeErrors} {FC : FloatConv} {FC32 : FloatConv32}.
Context {W : Type} {C : Cluster W} {SX : StorageExec W} {LS : LocalSources W} {SF : SysFs W} {AA : AgentApi W} {SC : SmartClock W} {NC : NetClock W}.
Abbreviation act A := (St (Collectors * (Host * W)) A).

(** A collector's operation beside the others and the node's files. *)
Definition with_local {A} (m : St (LocalCollector * W) A) : act A := fun '(c, (h, w)) =>
  let '(a, (l, w)) := m (cs_local c, w) in (a, (mkCollectors l (cs_smart c) (cs_net c), (h, w))).
Definition with_smart {A} (m : St (SMARTReader * W) A) : act A := fun '(c, (h, w)) =>
  let '(a, (r, w)) := m (cs_smart c, w) in (a, (mkCollectors (cs_local c) r (cs_net c), (h, w))).
Definition with_net {A} (m : St (NetworkCollector * W) A) : act A := fun '(c, (h, w)) =>
  let '(a, (n, w)) := m (cs_net c, w) in (a, (mkCollectors (cs_local c) (cs_smart c) n, (h, w))).

(** What a tick has to publish, None when lsblk could not be read: the disks, the stacks, the links, and
    the disks a refresh of their own data was started for. *)
Record Report := mkReport { rp_disks : list ObservedDisk; rp_local : option LocalStorage; rp_network : option MachineNetwork; rp_refresh : option (list ObservedDisk) }.
Definition report (root : string) (local_in_time net_in_time : bool) : act (option Report) :=
  r ← beside (on_host ObserveDisksIndexed);
  match r with
  | inl _ => mret None
  | inr (disks, serialOf) =>
    local ← with_local (Latest serialOf local_in_time);
    a ← with_smart (Annotate disks);
    network ← with_net (net_Latest root net_in_time);
    mret (Some (mkReport a.1 local network a.2))
  end.
Definition tick (nodeName root : string) (local_in_time net_in_time : bool) : act (option (list ObservedDisk)) :=
  go ← beside (tuning_half nodeName root);
  if negb go then mret None else
  r ← report root local_in_time net_in_time;
  match r with
  | None => mret None
  | Some r => _ ← beside (on_api (PatchObservedStorage nodeName (rp_disks r) (rp_network r) (rp_local r))); mret (rp_refresh r)
  end.

(** *** What is published fits *)

Definition smart_fits (s : DiskSMART) : Prop := chars 256 (sm_Error s) /\ match sm_WearUsedPercent s with Some v => 0 <= v <= 100 | None => True end.
Definition opt_fits {A} (fits : A -> Prop) (o : option A) : Prop := match o with Some a => fits a | None => True end.
Definition observed_fits (d : ObservedDisk) : Prop := disk_fits d /\ opt_fits smart_fits (od_SMART d).
Definition divergence_fits (d : DiskDivergence) : Prop := chars 128 (dd_SerialNumber d) /\ dd_Reason d ∈ priority /\ chars 256 (dd_Detail d).
Definition storage_fits (s : MachineStorage) : Prop := at_most 64 observed_fits (ms_Observed s) /\ at_most 64 divergence_fits (ms_Divergences s) /\ opt_fits local_fits (ms_Local s).
(** What the agent writes of a machine, and the serials of the drives it is compared with. *)
Definition reading_fits (r : MachineReading) : Prop :=
  opt_fits (fun i => Forall (fun d => chars 128 (dr_SerialNumber d)) (inv_Drives i)) (st_Inventory r) /\ opt_fits storage_fits (st_Storage r) /\ opt_fits net_fits (st_Network r).
Definition report_fits (r : Report) : Prop := at_most 64 observed_fits (rp_disks r) /\ opt_fits local_fits (rp_local r) /\ opt_fits net_fits (rp_network r).
Definition collectors_fit (c : Collectors) : Prop :=
  opt_fits local_fits (co_last (cs_local c)) /\ opt_fits (fun p => opt_fits local_fits p.1) (co_running (cs_local c)) /\
  map_Forall (fun _ s => smart_fits s) (sr_last (cs_smart c)) /\ opt_fits net_fits (nc_last (cs_net c)).

Lemma percent_range v : 0 <= percent v <= 100.
Proof. unfold percent. lia. Qed.
Lemma first_some_from {A B} (f : A -> option B) l b : first_some f l = Some b -> exists a, f a = Some b.
Proof. induction l as [|a l IH]; cbn; [done|]. destruct (f a) eqn:E; [|done]. intros [= <-]. eauto. Qed.
Lemma wear_range j v : wearOf j = Some v -> 0 <= v <= 100.
Proof.
  unfold wearOf. destruct (match deref _ with Some n => _ | None => _ end) as [n|]; [intros [= <-]; apply percent_range|]. destruct (opt_int j _) as [n|]; [intros [= <-]; apply percent_range|].
  destruct (first_some endurance_row _) as [n|] eqn:E.
  - intros [= <-]. apply first_some_from in E as [row E]. unfold endurance_row in E. destruct (bool_decide _); [|done]. destruct (opt_int row _); [|done]. injection E as <-. apply percent_range.
  - intros (name & (a & Ha)%first_some_from)%first_some_from. unfold attribute_row in Ha. destruct (bool_decide _); [|done]. destruct (opt_int a _) as [x|]; [|done]. destruct (x <=? 100); [|done]. injection Ha as <-. apply percent_range.
Qed.
Lemma judged_fits now stdout stderr err : smart_fits (judge now stdout stderr err).
Proof.
  unfold judge. assert (forall why, smart_fits (failed_read now why)) as Hf by (intros why; split; [apply clip_chars|done]). destruct (parseSMART stdout) as [e|r] eqn:E; [apply Hf|]. destruct (_ || _); [|apply Hf].
  unfold parseSMART in E. destruct (unmarshal _ _) as [j|]; [|done]. destruct (negb _); [done|]. injection E as <-. split; [apply chars_empty|]. cbn. destruct (wearOf j) as [v|] eqn:Ew; [|done]. by eapply wear_range.
Qed.
Lemma read_fits d : always (W := W) (read d) smart_fits.
Proof.
  unfold read. eapply always_bind; [apply always_true|]. intros now _. destruct (smartArgv _) as [e|argv]; [apply always_ret; split; [apply clip_chars|done]|].
  eapply always_bind; [apply always_true|]. intros [[stdout stderr] err] _. apply always_ret, judged_fits.
Qed.
Lemma divergences_fit drives disks : Forall (fun d => chars 128 (dr_SerialNumber d)) drives -> Forall (fun d => chars 128 (od_SerialNumber d)) disks -> at_most 64 divergence_fits (Join drives disks).
Proof.
  intros Hb Ho. destruct (Join_fits drives disks) as (Hl & Hd & _). split; [done|]. apply Forall_forall. intros d Hin. destruct (Hd d Hin) as [Hraw Hdet]. split; [|split; [by eapply reasons_known|done]].
  apply list_elem_of_In, in_map_iff in Hraw as (x & <- & Hx). apply list_elem_of_In in Hx. cbn. rewrite !elem_of_app in Hx. pose proof (proj1 (Forall_forall _ _) Hb) as Hb'. pose proof (proj1 (Forall_forall _ _) Ho) as Ho'. destruct Hx as [Hx|[Hx|Hx]].
  - apply unidentified_in in Hx as [-> _]. apply chars_empty.
  - apply elem_of_flat_map in Hx as (o & Hin' & Hx). unfold observed_divergence in Hx.
    repeat case_match; try (by apply not_elem_of_nil in Hx); apply list_elem_of_singleton in Hx as ->; cbn; [apply chars_empty|by apply Ho'..].
  - apply elem_of_flat_map in Hx as (b & Hin' & Hx). unfold unseen_drive in Hx. case_match; [by apply not_elem_of_nil in Hx|]. apply list_elem_of_singleton in Hx as ->. cbn. by apply Hb'.
Qed.

(** The machine the agent writes is within the schema when the one it read is. *)
Lemma published_fits disks network target local now : reading_fits (fm_Reading (mc_FM target)) -> at_most 64 observed_fits disks -> opt_fits local_fits local -> opt_fits net_fits network ->
  reading_fits (fm_Reading (mc_FM (published disks network target (kept_local local target) now))).
Proof.
  intros (Hi & Hs & Hn) Hd Hl Hk. unfold published. cbn. split; [done|]. split.
  - split; [done|]. split.
    + apply divergences_fit; [by destruct (st_Inventory _)|]. destruct Hd as [_ Hd]. eapply Forall_impl; [exact Hd|]. by intros d [(_ & ? & _) _].
    + cbn. unfold kept_local. destruct local; [done|]. destruct (st_Storage _) as [st|]; [by destruct Hs as (_ & _ & ?)|done].
  - by destruct network.
Qed.

(** [keeps m Q]: from collectors within the schema, [m] leaves such, and a value that satisfies [Q]. *)
Definition keeps {A} (m : act A) (Q : A -> Prop) : Prop := forall c x, collectors_fit c -> Q (m (c, x)).1 /\ collectors_fit (m (c, x)).2.1.
Lemma keeps_ret {A} (a : A) Q : Q a -> keeps (mret a) Q.
Proof. by intros H c x. Qed.
Lemma keeps_bind {A B} (m : act A) (k : A -> act B) P Q : keeps m P -> (forall a, P a -> keeps (k a) Q) -> keeps (m ≫= k) Q.
Proof. intros Hm Hk c x Hc. rewrite St_bind_run. destruct (Hm c x Hc) as [HP Hc']. destruct (m (c, x)) as [a [c' x']]. by apply Hk. Qed.
Lemma keeps_beside {A} (m : St (Host * W) A) Q : (forall x, Q (m x).1) -> keeps (beside m) Q.
Proof. intros H c x Hc. rewrite beside_run. split; [apply H|done]. Qed.

Lemma collect_keeps : keeps (with_local collect) (fun _ => True).
Proof.
  intros c [h w] (Hl & Hr & Hs & Hn). split; [done|]. unfold with_local, collect. rewrite St_bind_run. cbn [memory fst snd]. destruct (co_running (cs_local c)) as [[prev serialOf]|] eqn:E; [|unfold collectors_fit; cbn; rewrite E; tauto].
  rewrite St_bind_run, beside_run. cbn. split; [|done]. cbn. apply observe_local_fits. cbn in Hr. by destruct prev.
Qed.
Lemma latest_keeps serialOf in_time : keeps (with_local (Latest serialOf in_time)) (opt_fits local_fits).
Proof.
  intros c [h w] Hc. assert (collectors_fit (mkCollectors (begin_collection serialOf (cs_local c)) (cs_smart c) (cs_net c))) as Hb.
  { destruct Hc as (Hl & Hr & Hs & Hn). unfold begin_collection. split; [by destruct (co_running _)|]. split; [|done]. cbn. destruct (co_running (cs_local c)) as [p|] eqn:E; [by rewrite E|]. cbn. by destruct (co_last _). }
  unfold with_local, Latest. rewrite !St_bind_run. cbn [remember memory fst snd]. destruct in_time.
  - destruct (collect_keeps _ (h, w) Hb) as [_ Hk]. unfold with_local in Hk. cbn [cs_local cs_smart cs_net] in Hk. destruct (collect _) as [u [l' w']]. cbn in *. split; [apply Hk|done].
  - cbn. split; [apply Hb|done].
Qed.
Lemma annotate_keeps disks : at_most 64 disk_fits disks -> Forall (fun d => od_SMART d = None) disks -> keeps (with_smart (Annotate disks)) (fun a => at_most 64 observed_fits a.1).
Proof.
  intros [Hlen Hd] Hsm c [h w] (Hl & Hr & Hs & Hn).
  assert (at_most 64 observed_fits (map (annotated (cs_smart c)) disks)) as Ha.
  { split; [by rewrite length_map|]. apply Forall_map, Forall_forall. intros d Hin. apply (proj1 (Forall_forall _ _) Hd) in Hin as Hdd. apply (proj1 (Forall_forall _ _) Hsm) in Hin as Hss. unfold annotated.
    destruct (sr_last (cs_smart c) !! od_SerialNumber d) as [s|] eqn:E; (split; [exact Hdd|]); [exact (Hs _ _ E)|by rewrite Hss]. }
  assert (map_Forall (fun _ s => smart_fits s) (pruned (map (annotated (cs_smart c)) disks) (sr_last (cs_smart c)))) as Hp.
  { intros k s Hk. unfold pruned in Hk. apply map_lookup_filter_Some in Hk as [Hk _]. by eapply Hs. }
  unfold with_smart, Annotate. rewrite !St_bind_run. cbn [memory remember fst snd]. destruct (sr_running (cs_smart c)); [done|]. rewrite St_bind_run, beside_run. cbn [fst snd].
  destruct (before _ _); [done|]. rewrite !St_bind_run, !beside_run. done.
Qed.
Lemma refresh_keeps start disks : keeps (with_smart (refresh_loop start disks)) (fun _ => True).
Proof.
  intros c [h w] (Hl & Hr & Hs & Hn). split; [done|]. unfold with_smart.
  enough (forall r w, map_Forall (fun _ s => smart_fits s) (sr_last r) -> map_Forall (fun _ s => smart_fits s) (sr_last (refresh_loop start disks (r, w)).2.1)) as H.
  { specialize (H (cs_smart c) w Hs). destruct (refresh_loop _ _ _) as [u [r' w']]. done. }
  clear. induction disks as [|d disks IH]; intros r w Hs; cbn [refresh_loop]; [done|]. destruct (spins d); [by apply IH|]. rewrite St_bind_run. cbn [memory fst snd]. destruct (negb _); [by apply IH|].
  rewrite St_bind_run, beside_run. cbn [fst snd]. rewrite St_bind_run. cbn [remember fst snd]. apply IH. cbn. apply map_Forall_insert_2; [apply read_fits|done].
Qed.

Lemma annotate_net_fits base n now h w : net_fits n -> net_fits (annotate base n now (h, w)).1.
Proof.
  intros (He & [Hi Hif] & Hio & [Hb Hbf] & Hbo). unfold annotate. destruct (bool_decide _); [unfold net_fits, at_most; cbn; tauto|]. rewrite !St_bind_run.
  assert (forall l h w, let r := (annotate_ports base now l (h, w)).1 in length r = length l /\ (Forall iface_fits l -> Forall iface_fits r)) as Hp.
  { intros l. induction l as [|i l IH]; intros h0 w0; [done|]. cbn [annotate_ports]. rewrite !St_bind_run. destruct (observe _ _ _ _ _) as [t [h1 w1]]. cbn [fst snd].
    destruct (IH h1 w1) as [H1 H2]. destruct (annotate_ports base now l (h1, w1)) as [r x]. cbn in *. split; [by rewrite H1|]. intros H. inversion H; subst. constructor; [done|by apply H2]. }
  assert (forall l h w, let r := (annotate_bonds base now l (h, w)).1 in length r = length l /\ (Forall bond_fits l -> Forall bond_fits r)) as Hq.
  { intros l. induction l as [|i l IH]; intros h0 w0; [done|]. cbn [annotate_bonds]. rewrite St_bind_run, beside_run. cbn [fst snd]. rewrite !St_bind_run. destruct (observe _ _ _ _ _) as [t [h1 w1]]. cbn [fst snd].
    destruct (IH h1 w1) as [H1 H2]. destruct (annotate_bonds base now l (h1, w1)) as [r x]. cbn in *. split; [by rewrite H1|]. intros H. inversion H; subst. constructor; [done|by apply H2]. }
  destruct (Hp (mn_Interfaces n) h w) as [P1 P2]. destruct (annotate_ports _ _ _ _) as [ports [h1 w1]]. cbn [fst snd] in *. destruct (Hq (mn_Bonds n) h1 w1) as [Q1 Q2]. destruct (annotate_bonds _ _ _ _) as [bonds [h2 w2]]. cbn [fst snd] in *.
  unfold net_fits, at_most. cbn. rewrite P1, Q1. tauto.
Qed.
Lemma read_network_fits root h w : net_fits (read_network root (h, w)).1.
Proof.
  unfold read_network. rewrite St_bind_run, beside_run. cbn [fst snd]. rewrite St_bind_run, beside_run. cbn [fst snd]. rewrite St_bind_run, beside_run. cbn [fst snd].
  apply annotate_net_fits, observe_network_fits.
Qed.
Lemma net_collect_keeps root : keeps (with_net (net_collect root)) (fun _ => True).
Proof.
  intros c [h w] (Hl & Hr & Hs & Hn). split; [done|]. unfold with_net, net_collect. cbn [fst snd]. destruct (nc_running (cs_net c)); [|done]. pose proof (read_network_fits root (nc_windows (cs_net c)) w) as Hf.
  destruct (read_network root _) as [n [h' w']]. cbn in *. done.
Qed.
Lemma net_latest_keeps root in_time : keeps (with_net (net_Latest root in_time)) (opt_fits net_fits).
Proof.
  intros c [h w] (Hl & Hr & Hs & Hn). unfold with_net, net_Latest. rewrite !St_bind_run. cbn [remember memory fst snd]. destruct in_time; [|done]. unfold net_collect. cbn [fst snd nc_running nc_windows].
  pose proof (read_network_fits root (nc_windows (cs_net c)) w) as Hf. destruct (read_network root _) as [n [h' w']]. cbn in *. done.
Qed.
Lemma report_keeps root l n : keeps (report root l n) (opt_fits report_fits).
Proof.
  unfold report. eapply (keeps_bind _ _ (fun r => match r with inl _ => True | inr (disks, _) => at_most 64 disk_fits disks /\ Forall (fun d => od_SMART d = None) disks end)).
  { apply keeps_beside. intros [h w]. unfold on_host. cbn. destruct (ObserveDisksIndexed h) as [[e|[disks idx]] h'] eqn:E; [done|]. cbn. apply observed_from in E as (out & devs & _ & _ & ->).
    split; [apply observed_fit|]. apply Forall_forall. intros d [?%not_elem_of_nil|(dev & _ & -> & _)]%observe_loop_from; done. }
  intros [e|[disks serialOf]]; [intros _; by apply keeps_ret|]. intros [Hd Hs]. eapply keeps_bind; [apply latest_keeps|]. intros local Hl. eapply keeps_bind; [by apply annotate_keeps|]. intros a Ha.
  eapply keeps_bind; [apply net_latest_keeps|]. intros net Hn. by apply keeps_ret.
Qed.

(** The life of the agent's collectors: ticks, and between them the ends of the collections and the
    refreshes they started. *)
Inductive agent_op := ATick (nodeName root : string) (local_in_time net_in_time : bool) | ACollect | ANetCollect (root : string) | ARefresh (start : time) (disks : list ObservedDisk).
Definition agent_act (o : agent_op) : act unit :=
  match o with
  | ATick nodeName root l n => _ ← tick nodeName root l n; mret tt
  | ACollect => with_local collect
  | ANetCollect root => with_net (net_collect root)
  | ARefresh start disks => with_smart (refresh_loop start disks)
  end.
Fixpoint agent_life (ops : list agent_op) : act unit := match ops with [] => mret tt | o :: ops => _ ← agent_act o; agent_life ops end.
Lemma tick_keeps nodeName root l n : keeps (tick nodeName root l n) (fun _ => True).
Proof.
  unfold tick. eapply (keeps_bind _ _ (fun _ => True)); [by apply keeps_beside|]. intros [] _; cbn [negb]; [|by apply keeps_ret]. eapply keeps_bind; [apply report_keeps|].
  intros [r|] _; [|by apply keeps_ret]. eapply (keeps_bind _ _ (fun _ => True)); [by apply keeps_beside|]. intros _ _. by apply keeps_ret.
Qed.

(** C34. After any life of the agent, whatever lsblk, zpool, zfs, mdstat, LVM, smartctl and sysfs gave, what its
    next tick has to publish makes a machine within the bounds of the schema of one that was: no output of a
    tool makes the API server refuse the status whole. *)
Theorem reports_fit_schema ops x root l n r target now : (report root l n (agent_life ops (new_collectors, x)).2).1 = Some r -> reading_fits (fm_Reading (mc_FM target)) ->
  reading_fits (fm_Reading (mc_FM (published (rp_disks r) (rp_network r) target (kept_local (rp_local r) target) now))).
Proof.
  intros Hr Ht. assert (forall c x, collectors_fit c -> collectors_fit (agent_life ops (c, x)).2.1) as Hlife.
  { clear. induction ops as [|o ops IH]; intros c x Hc; [done|]. cbn [agent_life]. rewrite St_bind_run. assert (keeps (agent_act o) (fun _ => True)) as Hk.
    { destruct o; [eapply keeps_bind; [apply tick_keeps|by intros; apply keeps_ret]|apply collect_keeps|apply net_collect_keeps|apply refresh_keeps]. }
    destruct (Hk c x Hc) as [_ Hc']. destruct (agent_act o (c, x)) as [u [c' x']]. by apply IH. }
  assert (collectors_fit new_collectors) as H0 by (split; [done|split; [done|split; [apply map_Forall_empty|done]]]).
  specialize (Hlife _ x H0). destruct (agent_life ops (new_collectors, x)) as [u [c x']]. cbn [fst snd] in *. destruct (report_keeps root l n c x' Hlife) as [Hf _]. rewrite Hr in Hf. destruct Hf as (? & ? & ?). by apply published_fits.
Qed.

(** *** The windows of every link *)

Definition windows_ok (h : history) : Prop := map_Forall (fun _ l => window_ok l) h.
Lemma sample_at base name now w s : (sample base name now w).1 = Some s -> ts_at s = now.
Proof. unfold sample. do 6 (rewrite St_bind_run). cbn. intros H. repeat (apply bind_Some in H as (? & _ & H)). by injection H as <-. Qed.
Lemma observe_windows base name capacity now h w : windows_ok h -> windows_ok (observe base name capacity now (h, w)).2.1.
Proof.
  intros Hh. unfold observe. rewrite St_bind_run, beside_run. cbn [fst snd]. destruct (sample base name now w) as [[s|] w'] eqn:E; [|done]. cbn [fst snd]. rewrite !St_bind_run. cbn [memory remember fst snd].
  apply map_Forall_insert_2; [|done]. apply record_window; [|eapply sample_at; by rewrite E]. destruct (h !! name) as [l|] eqn:El; [right; by eapply Hh|by left].
Qed.
Lemma annotate_windows base n now h w : windows_ok h -> windows_ok (annotate base n now (h, w)).2.1.
Proof.
  intros Hh. unfold annotate. destruct (bool_decide _); [done|]. rewrite !St_bind_run.
  assert (forall l h w, windows_ok h -> windows_ok (annotate_ports base now l (h, w)).2.1) as Hp.
  { intros l. induction l as [|i l IH]; intros h0 w0 H0; [done|]. cbn [annotate_ports]. rewrite !St_bind_run. pose proof (observe_windows base (ni_Name i) (ni_SpeedMbps i) now h0 w0 H0) as H1.
    destruct (observe _ _ _ _ _) as [t [h1 w1]]. cbn [fst snd] in *. specialize (IH h1 w1 H1). by destruct (annotate_ports _ _ _ _). }
  assert (forall l h w, windows_ok h -> windows_ok (annotate_bonds base now l (h, w)).2.1) as Hq.
  { intros l. induction l as [|i l IH]; intros h0 w0 H0; [done|]. cbn [annotate_bonds]. rewrite St_bind_run, beside_run. cbn [fst snd]. rewrite !St_bind_run.
    match goal with |- context [observe ?b ?n ?c ?t (?h, ?w)] => pose proof (observe_windows b n c t h w H0) as H1; destruct (observe b n c t (h, w)) as [t' [h1 w1]] end.
    cbn [fst snd] in *. specialize (IH h1 w1 H1). by destruct (annotate_bonds _ _ _ _). }
  specialize (Hp (mn_Interfaces n) h w Hh). destruct (annotate_ports _ _ _ _) as [ports [h1 w1]]. cbn [fst snd] in *. specialize (Hq (mn_Bonds n) h1 w1 Hp). destruct (annotate_bonds _ _ _ _) as [bonds [h2 w2]]. cbn [fst snd] in *.
  cbn. intros k l Hk. apply map_lookup_filter_Some in Hk as [Hk _]. by eapply Hq.
Qed.
Lemma read_network_windows root h w : windows_ok h -> windows_ok (read_network root (h, w)).2.1.
Proof. intros Hh. unfold read_network. do 3 (rewrite St_bind_run, beside_run; cbn [fst snd]). by apply annotate_windows. Qed.

Definition links_ok (c : Collectors) : Prop := windows_ok (nc_windows (cs_net c)).
Definition holds {A} (m : act A) : Prop := forall c x, links_ok c -> links_ok (m (c, x)).2.1.
Lemma holds_bind {A B} (m : act A) (k : A -> act B) : holds m -> (forall a, holds (k a)) -> holds (m ≫= k).
Proof. intros Hm Hk c x Hc. rewrite St_bind_run. specialize (Hm c x Hc). destruct (m (c, x)) as [a [c' x']]. by apply Hk. Qed.
Lemma holds_ret {A} (a : A) : holds (mret a).
Proof. by intros c x. Qed.
Lemma holds_beside {A} (m : St (Host * W) A) : holds (beside m).
Proof. intros c x Hc. by rewrite beside_run. Qed.
Lemma holds_local {A} (m : St (LocalCollector * W) A) : holds (with_local m).
Proof. intros c [h w] Hc. unfold with_local. by destruct (m _) as [a [l w']]. Qed.
Lemma holds_smart {A} (m : St (SMARTReader * W) A) : holds (with_smart m).
Proof. intros c [h w] Hc. unfold with_smart. by destruct (m _) as [a [l w']]. Qed.
Lemma holds_collect root : holds (with_net (net_collect root)).
Proof.
  intros c [h w] Hc. unfold with_net, net_collect. cbn [fst snd]. destruct (nc_running _); [|done]. pose proof (read_network_windows root (nc_windows (cs_net c)) w Hc) as H. by destruct (read_network _ _) as [n [h' w']].
Qed.
Lemma holds_latest root in_time : holds (with_net (net_Latest root in_time)).
Proof.
  intros c [h w] Hc. unfold with_net, net_Latest. rewrite !St_bind_run. cbn [remember memory fst snd]. destruct in_time; [|done]. unfold net_collect. cbn [fst snd nc_running nc_windows].
  pose proof (read_network_windows root (nc_windows (cs_net c)) w Hc) as H. by destruct (read_network _ _) as [n [h' w']].
Qed.
#[local] Hint Resolve holds_ret holds_beside holds_local holds_smart holds_collect holds_latest : core.
Lemma holds_tick nodeName root l n : holds (tick nodeName root l n).
Proof.
  unfold tick, report. apply holds_bind; [auto|]. intros []; cbn [negb]; [|auto]. apply holds_bind; [|intros [r|]; [apply holds_bind|]; auto].
  apply holds_bind; [auto|]. intros [e|[disks serialOf]]; [auto|]. repeat (apply holds_bind; [auto|]; intros ?). auto.
Qed.

(** After any life of the agent, the readings a link's traffic is worked out from are of one life of its
    driver, without a gap past the window, and none but the oldest is older than it: whatever the clock, the
    counters and the links that come and go did. *)
Theorem windows_sound ops x name h : nc_windows (cs_net (agent_life ops (new_collectors, x)).2.1) !! name = Some h -> window_ok h.
Proof.
  enough (holds (agent_life ops)) as H by (apply (H new_collectors x); apply map_Forall_empty).
  induction ops as [|o ops IH]; cbn [agent_life]; [auto|]. apply holds_bind; [|auto]. destruct o; cbn [agent_act]; auto. apply holds_bind; [apply holds_tick|auto].
Qed.

(** An error that was counted is reported: the rate is rounded up, never to nothing. *)
Lemma moved_is_visible h capacity t s l d : trafficOf h capacity = Some t -> since h sustainedWindow = Some s -> List.last h d = l -> 0 < sub (ts_at l) (ts_at s) ->
  (ts_errors s <> ts_errors l -> 1 <= lt_ErrorsPerMinute t) /\ (ts_drops s <> ts_drops l -> 1 <= lt_DropsPerMinute t).
Proof.
  intros Ht Hs <- Hd. unfold trafficOf in Ht. destruct h as [|a [|b h]]; [done|done|]. destruct (since _ rateWindow) as [r|]; [|done]. rewrite Hs in Ht. destruct (peaks _ _ _) as [prx ptx]. injection Ht as <-. cbn [lt_ErrorsPerMinute lt_DropsPerMinute].
  assert (List.last (a :: b :: h) d = match h with [] => b | _ => List.last h a end) as E by (clear; cbn; destruct h as [|c h]; [done|]; revert c; induction h as [|e h IH]; intros c; [done|apply IH]).
  rewrite E in *.
  rewrite (proj2 (Z.ltb_lt _ _) Hd). unfold perMinute. split; intros Hne; (rewrite (proj2 (Z.eqb_neq _ _)) by congruence); lia.
Qed.
End Tick.

(** ** A node *)

Module Demo.
Definition text_of (j : json) : string := of_bytes (print j).
Definition num_of (z : Z) : json := JNum (to_bytes (itoa z)).
Definition opt_text (s : string) : json := if bool_decide (s = "") then JNull else JStr s.
Definition device (name typ serial fstype mount : string) (children : list json) : json :=
  JObj [("name", JStr name); ("path", JStr ("/dev/" +:+ name)); ("serial", opt_text serial); ("size", num_of 480103981056); ("type", JStr typ); ("fstype", opt_text fstype);
        ("mountpoint", opt_text mount); ("wwn", opt_text (if bool_decide (typ = "disk") then "0x5000c500a" else "")); ("model", JNull); ("rota", JStr "0"); ("label", JNull); ("children", JArr children)].
(** A blank disk, a disk of an array with a file system on it, a pool's disk, and one nothing is known of. *)
Definition lsblk_out : string := text_of (JObj [("blockdevices", JArr [
  device "sda" "disk" "S1" "" "" [];
  device "sdb" "disk" "S2" "" "" [device "sdb1" "part" "" "linux_raid_member" "" [device "md0" "raid1" "" "ext4" "/srv" []]];
  device "sdc" "disk" " S3 " "zfs_member" "" [];
  device "sdd" "disk" "" "" "" []])]).
#[local] Instance demo_exec : Exec := fun name args h => ((if bool_decide ("lsblk" ∈ args) then lsblk_out else "", None), h).
#[local] Instance demo_zones : LocalZones := fun _ _ => None.
#[local] Instance demo_errors : DecodeErrors := fun _ => "invalid".
Definition demo_host : Host := mkHost ∅ ∅ [].

Definition demo_disks : list ObservedDisk := match (ObserveDisksIndexed demo_host).1 with inr (disks, _) => disks | inl _ => [] end.
Example disks_seen :
  map (fun d => (od_Path d, od_SerialNumber d, od_SizeGB d, od_Occupancy d, od_Members d)) demo_disks =
    [("/dev/sda", "S1", 480, "free", []); ("/dev/sdb", "S2", 480, "mounted", ["md0"]); ("/dev/sdc", "S3", 480, "zfs-member", [])] /\
  match (ObserveDisksIndexed demo_host).1 with inr (_, idx) => map (fun n => idx !! n) ["sda"; "sdb1"; "md0"; "sdd"] | inl _ => [] end = [Some "S1"; Some "S2"; None; None].
Proof. vm_compute. done. Qed.
Lemma free_is_empty_witness : exists out devs dev, Run "lsblk" ["-J"; "-b"; "-o"; lsblkColumns] demo_host = ((out, None), (ObserveDisksIndexed demo_host).2) /\ parse_lsblk out = Some devs /\ dev ∈ devs /\
  dv_Type dev = lsblkTypeDisk /\ dv_Path dev = "/dev/sda" /\ trimmed (dv_Serial dev) = "S1" /\ "S1" <> "" /\ dv_Children dev = [] /\ trimmed (dv_FSType dev) = "" /\ trimmed (dv_MountPoint dev) = "".
Proof.
  destruct demo_disks as [|d l] eqn:E; [vm_compute in E; discriminate|].
  assert (od_Path d = "/dev/sda" /\ od_SerialNumber d = "S1" /\ od_Occupancy d = "free") as (Hp & Hs & Ho) by (vm_compute in E; injection E as <- _; done).
  rewrite <- Hp, <- Hs.
  assert (ObserveDisksIndexed demo_host = (inr (demo_disks, match (ObserveDisksIndexed demo_host).1 with inr (_, idx) => idx | inl _ => ∅ end), (ObserveDisksIndexed demo_host).2)) as HO
    by (vm_compute; reflexivity).
  apply (free_is_empty demo_host demo_disks _ _ d HO); [rewrite E; by left|exact Ho].
Defined.

(** A claim that names its disk as it must, by the link udev makes, on the machine that has it. *)
Definition demo_storage : MachineStorage := mkMachineStorage demo_disks [] (Some (at_s 100)) None.
Definition demo_claim_machine : ClaimMachine := mkClaimMachine "m1" (Some demo_storage).
Definition demo_claim : FrameDiskClaim :=
  mkClaim "frame" "c" "u" 1 (mkClaimSpec "m1" "/dev/disk/by-id/wwn-0x5000c500a" "S1" "ceph") (mkClaimStatus "" "" "" None []).
#[local] Instance demo_claims : ClaimWorld unit := {|
  get_disk_claim _ w := (inr demo_claim, w); get_claim_machine _ w := (inr demo_claim_machine, w); patch_claim_status _ c w := (inr c, w); claim_now w := (at_s 100, w);
  add_condition l _ := l; ReadMarker _ _ w := (inr ("", false), w); Wiper_Claim _ _ _ _ w := (None, w); MarkComplete _ _ _ w := (None, w) |}.
Lemma claims_refused_witness : map od_ByIDPath (take 1 demo_disks) = ["/dev/disk/by-id/wwn-0x5000c500a"] /\ exists e, (identify demo_claim tt).1 = inl e.
Proof.
  split; [vm_compute; reflexivity|]. destruct (parse_lsblk lsblk_out) as [devs|] eqn:E; [|vm_compute in E; discriminate].
  apply (claims_refused demo_claim demo_claim_machine demo_storage devs tt tt); [reflexivity| |
    |reflexivity].
  - assert (demo_disks = match parse_lsblk lsblk_out with Some devs => observe_loop [] devs | None => [] end) as H by (vm_compute; reflexivity). by rewrite E in H.
  - assert (match parse_lsblk lsblk_out with Some devs => forallb (fun d => negb (has_prefix "/dev/disk/by-id/" (dv_Path d))) devs | None => false end = true) as H by (vm_compute; reflexivity).
    rewrite E, forallb_forall in H. intros dev Hd. apply negb_true_iff, H. by apply list_elem_of_In.
Defined.

(** *** The stacks *)

Definition tabs (l : list string) : string := join (String tab "") l.
Definition lines (l : list string) : string := join nl l.
Definition zpool_list : string := lines [tabs ["tank"; "1000"; "400"; "600"; "12"; "40%"; "DEGRADED"]; ""].
Definition t (s : string) : string := String tab s.
Definition zpool_status : string := lines [
  "  pool: tank"; " state: DEGRADED"; "  scan: scrub repaired 0B in 00:01:02 with 3 errors on Sun Sep  7 00:24:01 2025"; "config:"; "";
  t "NAME          STATE     READ WRITE CKSUM"; t "tank          DEGRADED     0     0     0"; t "  mirror-0    DEGRADED     0     0     0";
  t "    /dev/sdc  ONLINE       0     0   1.2K"; t "    9117 ONE  UNAVAIL      3     0     0  was /dev/sdx1"; t "spares"; t "  /dev/sdd    AVAIL"; "";
  "errors: No known data errors"; ""].
Definition mdstat : string := lines [
  "Personalities : [raid1]"; "md0 : active raid1 sdb1[0] sdx1[1](F)"; "      1000 blocks super 1.2 [2/1] [U_]"; "      [=>....]  recovery =  8.5% (1/2)"; ""; "unused devices: <none>"; ""].
Definition lvm_out (key : string) (row : list (string * string)) : string := text_of (JObj [("report", JArr [JObj [(key, JArr [JObj (map (fun p => (p.1, JStr p.2)) row)])]])]).
#[local] Instance demo_wide : FloatConv := fun _ => - 2 ^ 63.
#[local] Instance demo_wide32 : FloatConv32 := fun _ => - 2 ^ 31.

Example pools_read :
  map (fun p => (zp_Name p, zp_FreeBytes p, zp_CapacityPercent p, zp_ScrubErrors p, zp_LastScrub p, map (fun v => (zv_Name v, zv_Depth v, zv_State v, zv_ReadErrors v, zv_ChecksumErrors v, zv_Note v)) (zp_Vdevs p)))
    (mergeZpoolStatus (parseZpoolList zpool_list) (parseZpoolStatus zpool_status)) =
  [("tank", 600, Some 40, Some 3, "Sun Sep  7 00:24:01 2025",
    [("mirror-0", 0, "DEGRADED", 0, 0, ""); ("/dev/sdc", 1, "ONLINE", 0, 1200, ""); ("9117 ONE", 1, "UNAVAIL", 3, 0, "was /dev/sdx1"); ("spares", 0, "", 0, 0, ""); ("/dev/sdd", 1, "AVAIL", 0, 0, "")])].
Proof. vm_compute. reflexivity. Qed.
Example arrays_read :
  map (fun a => (mda_Name a, mda_Level a, mda_State a, mda_RaidDisks a, mda_ActiveDisks a, mda_Slots a, mda_Degraded a, mda_Sync a, map (fun m => (mdm_Device m, mdm_Failed m)) (mda_Members a))) (parseMdstat mdstat) =
  [("md0", "raid1", "active", 2, 1, "U_", true, "recovery 8.5%", [("sdb1", false); ("sdx1", true)])].
Proof. vm_compute. reflexivity. Qed.

(** A node that answers every command, and keeps what it was given. *)
Definition answer (argv : list string) : string :=
  if bool_decide ("status" ∈ argv) then zpool_status else if bool_decide ("zpool" ∈ argv) then zpool_list
  else if bool_decide ("pvs" ∈ argv) then lvm_out "pv" [("pv_name", "/dev/sdb1"); ("vg_name", "vg0")] else if bool_decide ("vgs" ∈ argv) then lvm_out "vg" [("vg_name", "vg0")]
  else if bool_decide ("lvs" ∈ argv) then lvm_out "lv" [] else if bool_decide ("smartctl" ∈ argv) then text_of (JObj [("smart_status", JObj [("passed", JBool true)])]) else "".
Module Ran.
Definition W : Type := list (list string).
#[export] Instance ran_exec : StorageExec W := fun argv w => ((answer argv, "", None), (w ++ [argv])%list).
#[export] Instance ran_traced : TracedExec W := {| exec_trace w := w; traced_exec _ _ := eq_refl |}.
#[export] Instance ran_sources : LocalSources W := {| src_ReadFile _ w := (inr mdstat, w); src_PathExist _ w := (true, w); src_Now w := (at_s 100, w) |}.
#[export] Instance ran_clock : SmartClock W := fun w => (at_s 100, w).
#[export] Instance ran_quiet : QuietSources := {| quiet_read _ _ := eq_refl; quiet_exist _ _ := eq_refl; quiet_now _ := eq_refl; quiet_smart _ := eq_refl |}.
End Ran.
Import Ran.
Definition demo_ops : list storage_op := [OLatest ∅ true; ORead (hd (StorageJoin.disk_of "" 0) demo_disks); OCollect].
Lemma storage_commands_fixed_witness : length (storage_acts (W := Ran.W) demo_ops (mkCollector None None, [])).2.2 = 7%nat /\
  exists t, exec_trace (storage_acts (W := Ran.W) demo_ops (mkCollector None None, [])).2.2 = (exec_trace ([] : Ran.W) ++ t)%list /\ Forall (fun argv => listed argv \/ smart_command argv) t.
Proof. split; [vm_compute; reflexivity|]. apply (storage_commands_fixed (W := Ran.W) demo_ops (mkCollector None None) []). Defined.

(** The reader at work: a disk is seen, read and stored. *)
Definition one_disk : list ObservedDisk := take 1 demo_disks.
Definition sys0 : sys (W := Ran.W) := mkSys NewSMARTReader [] [] [].
Lemma smart_reads_paced_witness : exists s : sys (W := Ran.W), rtc sys_step sys0 s /\ map (fun e => match e with HStored serial _ s => Some (serial, sm_Passed s) | _ => None end) (sy_hist s) = [None; None; Some ("S1", Some true)] /\
  (length (sy_jobs s) <= 1)%nat /\ justified paced [] (sy_hist s).
Proof.
  assert (exists s : sys (W := Ran.W), rtc sys_step sys0 s /\ map (fun e => match e with HStored serial _ s => Some (serial, sm_Passed s) | _ => None end) (sy_hist s) = [None; None; Some ("S1", Some true)]) as (s & Hs & Hh).
  { eexists. split.
    - eapply rtc_l; [eapply (sys_annotate _ _ _ _ one_disk); vm_compute; reflexivity|]. cbn.
      do 4 (eapply rtc_l; [eapply (sys_job _ _ [] _ []); vm_compute; reflexivity|]; cbn). apply rtc_refl.
    - vm_compute. reflexivity. }
  exists s. split; [exact Hs|]. split; [exact Hh|]. exact (smart_reads_paced [] s Hs).
Defined.

(** *** A whole tick, beside the demo cluster *)

Module Node.
Definition files : gmap string string := list_to_map (map (fun p => ("/host/sys/class/net/" +:+ p.1, p.2)) [
  ("eth0/operstate", "up"); ("eth0/speed", "1000"); ("eth0/duplex", "full"); ("eth0/mtu", "1500");
  ("eth0/statistics/rx_bytes", "900"); ("eth0/statistics/tx_bytes", "100"); ("eth0/statistics/rx_errors", "0"); ("eth0/statistics/tx_errors", "0");
  ("eth0/statistics/rx_dropped", "0"); ("eth0/statistics/tx_dropped", "0");
  ("bond0/bonding/mode", "802.3ad 4"); ("bond0/bonding/slaves", "eth0 eth1"); ("bond0/flags", "0x1002"); ("bond0/bonding/mii_status", "up")]).
Definition there (path : string) : bool := bool_decide (path ∈ map (fun p => "/host/sys/class/net/" +:+ p) ["eth0/device"; "bond0/bonding"]).
#[export] Instance node_exec : StorageExec World := fun argv w => ((answer argv, "", None), w).
#[export] Instance node_sources : LocalSources World := {| src_ReadFile _ w := (inr mdstat, w); src_PathExist _ w := (true, w); src_Now w := (at_s 100, w) |}.
#[export] Instance node_fs : SysFs World := {|
  fs_ReadDir _ w := (inr ["eth0"; "bond0"; "lo"], w); fs_Stat path w := (if there path then None else Some NotThere, w);
  fs_ReadFile path w := (match files !! path with Some x => inr x | None => inl "ENOENT" end, w); fs_Readlink _ w := (Some "../bond0", w) |}.
#[export] Instance node_smart : SmartClock World := fun w => (at_s 100, w).
#[export] Instance node_net : NetClock World := fun w => (at_s 100, w).
Definition machine : Machine :=
  mkMachine (mkFrameMachine "m1" "frame" 1 "n1" None (mkMachineReading (Some (mkMachineInventory "" "" "" "" "" [] [] 0 [drive_of "S1" 480; drive_of "S9" 480] [] [])) None None) None "" [])
    (InstallController.mkBMCSpec "" "" false "") None (mkProbeStatus 0 "" "" "" None None [] None 0 false None) (mkPowerStatus "" None "").
#[export] Instance node_api : AgentApi World := {| list_machines w := (inr [machine], w); patch_machine _ m w := (inr m, w); agent_now w := (at_s 100, w) |}.
End Node.
Import Node.
Definition demo_life : list agent_op := [ATick "n1" "/host" false true; ACollect; ARefresh (at_s 100) demo_disks].
Definition demo_state : Collectors * (Host * World) := (agent_life demo_life (new_collectors, (demo_host, demo0))).2.
Definition demo_report : option Report := (report "/host" true true demo_state).1.
Example links_reported :
  match demo_report with
  | Some r => (map (fun d => bool_decide (is_Some (od_SMART d))) (rp_disks r),
               match rp_local r with Some l => (zfs_State (ls_ZFS l), md_State (ls_MD l), map pv_Serial (lvm_PVs (ls_LVM l))) | None => ("", "", []) end,
               match rp_network r with Some n => (map (fun i => (ni_Name i, ni_SpeedMbps i, ni_Master i)) (mn_Interfaces n), map (fun b => (nb_Mode b, nb_AdminDown b, map bm_Name (nb_Members b))) (mn_Bonds n)) | None => ([], []) end)
  | None => ([], ("", "", []), ([], []))
  end = ([true; true; true], ("present", "present", ["S2"]), ([("eth0", Some 1000, "bond0")], [("802.3ad", true, ["eth0"; "eth1"])])).
Proof. vm_compute. reflexivity. Qed.
Lemma machine_fits : reading_fits (fm_Reading (mc_FM machine)).
Proof. split; [|done]. repeat constructor; unfold chars; vm_compute; lia. Qed.
Lemma disks_reported : (fun r => length (rp_disks r)) <$> (report "/host" true true (agent_life demo_life (new_collectors, (demo_host, demo0))).2).1 = Some 3%nat.
Proof. vm_compute. reflexivity. Qed.
Lemma reports_fit_schema_witness : exists r, (report "/host" true true (agent_life demo_life (new_collectors, (demo_host, demo0))).2).1 = Some r /\ length (rp_disks r) = 3%nat /\
  reading_fits (fm_Reading (mc_FM (published (rp_disks r) (rp_network r) machine (kept_local (rp_local r) machine) (at_s 100)))).
Proof.
  pose proof disks_reported as (r & E & Hl)%fmap_Some. exists r. split; [exact E|]. split; [symmetry; exact Hl|].
  exact (reports_fit_schema demo_life (demo_host, demo0) "/host" true true r machine (at_s 100) E machine_fits).
Defined.
End Demo.
